(* ===== verification/_CoqProject ===== *)
-Q . S2P
Prelude.v
GoLib.v
Utf8.v
Weight.v
Thinking.v
ThinkingServed.v
AuthTypes.v
QuotaSignals.v
Expiry.v
Availability.v
Selector.v
Classify.v
Cooldown.v
MarkResult.v
CooldownEnds.v
ResultProps.v
CooldownStore.v
CooldownReset.v
CooldownRestore.v
CooldownRestart.v
CooldownView.v
CooldownDemo.v
BoundedLRU.v
UsageQueue.v
ExecRegistry.v
SchedShard.v
SchedShardProps.v
Scheduler.v
RefreshDue.v
RefreshHeap.v
RefreshLoop.v
RefreshProps.v
RefreshJobs.v
RefreshDemo.v
SchedTables.v
SchedPicks.v
SchedVersions.v
SessionCache.v
SessionProps.v
SessionBindings.v
LcpKeys.v
HomeConcurrency.v
InFlight.v
InFlightProps.v
LcpFrame.v
LcpMatcher.v
LcpInv.v
LcpSteps.v
LcpBind.v
LcpRemove.v
LcpLongest.v
LcpRuns.v
LcpProps.v
LcpDemo.v
Affinity.v
SessionIdentity.v
HomeAlias.v
HomeAliasProps.v
HomeIdentity.v
AffinityProps.v
AffinityResults.v
AffinityReturn.v
AffinityDemo.v
HomeHistory.v
ErrorChain.v
ErrorProps.v
Retry.v
RetryProps.v
Conduct.v
ConductProps.v
ConductTrace.v
Registry.v
RegistryViews.v
RegistryProps.v
RegistryInv.v
RegistryAudit.v
RegistryAvail.v
RegistryMarks.v
RegistryCache.v
RegistryDemo.v
