(* ===== verification/Prelude.v ===== *)
(** * KorpProxy: verification development

    The program is a proxy in Go: clients speak one of several model APIs to it,
    and it forwards each request to an upstream service with one of many stored
    credentials.  This development models the part that decides which credential
    is used and when, and a few self-contained services around it.

    ** The parts and how they interact

    A request names a model.  The scheduler (or, for strategies of its own, a
    selector) picks a credential that is not blocked for the model; the execution
    reports its result to [MarkResult], which changes the state of the credential
    (cooldowns per model, quota of the whole credential, rejected tokens) and tells
    the scheduler; usage-limit notices and response headers change the state too.

    - [Prelude] (this file): record update, outcomes, time and 64-bit integers,
      lists, sorting by an identifier, sums, the automation ([bprop], [case_if_in]).
    - [GoLib], [Utf8]: what the code uses of Go's [strings], [strconv] and
      [unicode/utf8] and of values of dynamic type.
    - [Weight]: internal/credentialweight, the weight of a credential.
    - [Thinking]: internal/thinking, model-name suffixes and the conversion and
      validation of thinking levels and budgets (suffix.go, convert.go, validate.go,
      errors.go, types.go and the pure part of apply.go).  [ThinkingServed] follows a
      request from its body to the validated configuration.
    - [AuthTypes], [QuotaSignals], [Expiry]: sdk/cliproxy/auth/types.go, errors.go,
      status.go, classification.go, quota_signals.go and the lifecycle views: a
      credential is the record [AuthTypes.Auth], with a [QuotaState], a map of
      [ModelState]s and the ring of recent requests.
    - [Availability], [Selector]: selector.go: the block test
      [isAuthBlockedForModelForRequest], the candidates of the best priority, and
      the three selectors with their cursors.
    - [Classify], [Cooldown], [MarkResult]: conductor_cooldown.go and
      usage_exhaustion.go: which failures are charged to a credential, the cooldown
      ladder and the transitions of a state, and [MarkResult] as a whole.
      [CooldownEnds] and [ResultProps] hold their theorems.
    - [CooldownStore], [CooldownView]: cooldown_state.go, cooldown_view.go and the rest of
      conductor_cooldown.go: the records in which cooldowns outlive the process, how they
      are put back into credentials, what clears cooldowns, the reset of a quota and the
      list a client is shown.  [CooldownReset], [CooldownRestore] and [CooldownRestart]
      hold their theorems, [CooldownDemo] the instances.
    - [SchedShard], [Scheduler]: scheduler.go: the shard of a provider and model
      (entries, ready views, blocked queue), and the tables of providers, versions
      and mixed cursors above the shards, with every operation.  What the scheduler
      asks of the model registry is the class [ClientCatalog].  [SchedShardProps],
      [SchedTables], [SchedPicks] and [SchedVersions] hold their theorems.
    - [SessionCache]: session_cache.go: which credential a conversation is bound to,
      under all its identifiers, with expiry, eviction and the latest selection.
      [SessionProps] and [SessionBindings] hold its theorems.
    - [LcpKeys], [LcpMatcher]: sdk/cliproxy/session/lcp.go: which credential a
      conversation without an identity is bound to, by the fingerprints of its turns;
      the groups are in a heap under handles, the hash is the class [Sha256], and what
      the callers promise about a prefix the class [Promise].  [LcpFrame], [LcpInv],
      [LcpSteps], [LcpBind], [LcpRemove], [LcpLongest], [LcpRuns] and [LcpProps] hold
      the theorems, [LcpDemo] the instances.
    - [Affinity]: the session-affinity selector of selector.go, with
      [BoundSessionIdentity] of session/info.go: a selector around another one, the
      class [Fallback], over the session cache and the prefix matcher.
      [SessionIdentity], [AffinityProps], [AffinityResults] and [AffinityReturn] hold
      the theorems, [AffinityDemo] the instances.
    - [ErrorChain], [Retry], [Conduct]: errors.go, conductor_request_scoped_errors.go,
      conductor_selection.go and conductor_execution.go: the errors an execution
      wraps and asks about, the decision on another retry round, and [Execute] and
      [ExecuteCount] with their rounds, over a [Host] that stands for the executors,
      the store and the selection.  [ErrorProps], [RetryProps], [ConductProps] and
      [ConductTrace] hold their theorems; [ConductProps] has a host made of the
      modelled parts.
    - [Registry], [RegistryViews]: internal/registry/model_registry.go: which clients
      offer which models, with the counters of every model, the index of web search,
      the marks of quota and suspension, epochs and generations, and the views with
      the cache of rendered lists.  [registry_catalog] is the scheduler's
      [ClientCatalog].  [RegistryProps] and [RegistryInv] hold the invariant of the
      counters, [RegistryAudit], [RegistryAvail], [RegistryMarks] and
      [RegistryCache] the theorems, [RegistryDemo] a history they are applied at.
    - [RefreshDue], [RefreshHeap], [RefreshLoop]: auto_refresh_loop.go, the schedule in
      conductor_refresh.go and types.go: when a credential is due, the binary heap of
      checks with its index, and the loop with its dirty credentials, timer, jobs and
      workers.  [RefreshProps] holds the theorems of one wake-up, [RefreshJobs] those of
      all interleavings as a step relation, [RefreshDemo] the instances.
    - [BoundedLRU]: internal/cache/bounded_lru.go.
    - [UsageQueue]: internal/redisqueue/queue.go.
    - [ExecRegistry]: sdk/cliproxy/executionregistry, as a step relation whose steps
      are the critical sections of all goroutines.
    - [HomeConcurrency], [InFlight]: home_concurrency.go and
      home_in_flight_publisher.go: how executions are accounted to a Home, and the
      bounded frames in which a freeze of the execution registry is published; the
      length of a frame as JSON is the class [FrameCodec].  [InFlightProps] holds the
      theorems.
    - [HomeAlias], [HomeIdentity]: home_session_alias.go: the cache of the names of a
      session with its expiry and limit, and the session and the parent that a dispatch
      to a Home names, by identifiers, metadata, turns or messages.  [HomeAliasProps],
      [HomeIdentity] and [HomeHistory] hold the theorems, [HomeHistory] the instances.

    ** What the theorems show

    - Availability: a block announces a time before which it does not end, the
      candidates are exactly the unblocked credentials of the best priority, and the
      error of a selection never announces a return too early.
    - Selection: round robin is a rotation, smooth weighted round robin is exactly
      proportional over a period, every pick is sound.
    - Results: a failure that is charged blocks the model at once and never shortens
      a live cooldown; failures of the request and outdated successes change
      nothing; unauthorized credentials stay out; no sequence of results blocks a
      model for ever; each result touches one credential.
    - Cooldowns over a restart: what is saved and put back, in any order, is recorded
      again exactly; putting records back loosens no cooldown of a model; a reset frees
      the credential; the list shown agrees with what the selector does.
    - Scheduler: a cached shard picks exactly what the selector picks from scratch;
      its tables stay consistent under every sequence of operations; picks among
      several providers find the best credential or rightly report none; the newest
      version of a credential wins in whatever order the deliveries arrive.
    - Execution: every request ends; a round follows a grammar of picks, calls and
      records, takes no credential twice, records a success once and stops at a fault
      of the request without charging it; another round is granted only when it can
      help; the boundary gives the caller the error of the executor.
    - Conversations: the session cache stays consistent and within its capacity under
      every sequence of operations, its eviction loop ends, a binding answers until
      its time to live is over, removals take exactly what they name, and the latest
      selection is the one with the greatest number.  The indexes of the prefix matcher
      agree, a match is the longest known prefix, a bound conversation comes back, the
      removals are exact, and turns are hashed without ambiguity.
    - Affinity: every pick is a usable credential, of the best priority unless a
      conversation is bound to it; a bound session stays with its credential, also one
      that is known by its turns only; a failure releases the binding it is charged to,
      and no other; an identity is bounded without losing its difference from others.
    - Model registry: after every sequence of operations the counters of a model are
      the numbers of its clients, the index of web search answers like a search of
      all clients, availability is that of the clients that are not blocked, an
      operation on one client leaves the others alone, a writer with an old epoch
      changes nothing, and a cached list is current.
    - Refreshing: the heap of checks is a map of times; what is due is taken in order;
      a credential that is due is refreshed, so the loop does not spin, and none is
      forgotten; at most one worker refreshes a credential.
    - Services: the LRU cache refines a list, the usage queue is first-in first-out
      and never sends on a closed channel, resources bound to an execution are
      closed exactly once and a drained registry stays drained; a snapshot of what is
      in flight is always made, within all its bounds, and exact; the requests of one
      session reach a Home under one name over a whole history, within stated bounds on
      names, time and eviction; the cache of names stays consistent and within its limit.
    - Thinking: in every wire format, what a request asks for is what it gets, or the
      nearest that the model can do, or an error when the formats are of one family.
    - Data: weights, thinking levels and budgets, quota snapshots and the
      recent-requests ring keep their bounds and convert both ways.

    ** Conventions

    Integers are [Z] with the wrap-around of their width written out where the code
    can overflow; a [time.Time] is its nanoseconds since the zero time, and every
    reading of the clock is an argument.  A Go map is a [gmap]; an iteration over it
    is over [map_to_list], and the theorems do not depend on that order.  A pointer
    that several structures share is represented by the key it is found under.  A
    mutex makes the section it guards one step.  Recursion is structural, over lists
    or over an explicit bound: [sort_Search] gets one unit of fuel more than there
    are elements, which [successorIndex_spec] shows to be enough, and the eviction
    loop of the session cache one unit per listed group, which [eviction_terminates]
    shows to be enough; a round of an execution gets one turn per credential and one
    more, and a request one round more than the largest retry limit, which
    [Execute_terminates] shows to be enough; sifting in the heap gets the number of its
    items and one more, and taking what is due one unit per item, which [down_spec],
    [up_spec] and [pop_while_due_ok] show to be enough; the search for the longest prefix
    gets the number of fingerprints ([search_largest]), the eviction of groups the length
    of their list ([evict_ok]), the cut of an identity between characters the length
    of what is cut ([drop_broken_ok]), the eviction of names the length of their order
    ([enforce_spec]), and the encoding of a snapshot one unit per detail
    and one more ([loop_ends]).

    ** Not modelled

    Reading of JSON, JWT payloads and times goes through third-party or library code
    and enters as the classes [GoParse] and [ErrorBodies]; the resolution of model
    aliases, the current rules of cooling and the decisions taken from request
    contexts are arguments.  Logs, metrics, hooks and persistence are left out.  The
    translators between API formats, the upstream executors, the HTTP handlers, the
    login flows, the plugin host, configuration and stores rewrite JSON or do input
    or output through libraries and are not modelled.  Streams and the execution
    through a Home are goroutines around the same decisions and are left out.  The
    identity and the turns of a request, which are read out of headers and JSON and
    masked with regular expressions, are fields of [Affinity.request].  What a
    refresh does to a credential is left to the environment of the refresh loop.
    The files in which cooldowns are kept are left out but for their names, and so
    is the life of a credential in the manager (registration, patches, persistence). *)
From stdpp Require Export base tactics gmap strings list sorting fin_maps.
From Stdlib Require Export ZArith Lia Bool.

(** ** Record update

    [r <| f := v |>] is [r] with field [f] set to [v].  A record gets its
    setters from one [Eta] instance that lists its fields; [solve_setter]
    reads the setter of a field off that instance. *)

Class Eta (R : Type) := eta : R → R.
#[global] Hint Mode Eta ! : typeclass_instances.

Class Setter {R T : Type} (proj : R → T) := set : (T → T) → R → R.
#[global] Hint Mode Setter ! ! ! : typeclass_instances.
Arguments set {R T} proj {Setter} f r /.

Ltac solve_setter :=
  lazymatch goal with
  | |- @Setter ?R ?T ?proj =>
      exact (fun (f : T → T) (r : R) =>
        ltac:(let e := constr:(@eta R _ r) in
              let e := eval cbv [eta] in e in
              let e := eval hnf in e in
              match (eval pattern (proj r) in e) with
              | ?g _ => let t := eval cbv beta in (g (f (proj r))) in exact t
              end))
  end.
#[global] Hint Extern 1 (Setter _) => solve_setter : typeclass_instances.

Declare Scope go_scope.
Delimit Scope go_scope with go.
Notation "r <| f := v |>" := (set f (fun _ => v) r)
  (at level 1, f at level 0, left associativity, format "r  <| f  :=  v |>") : go_scope.
#[global] Open Scope go_scope.
#[global] Open Scope Z_scope.
#[global] Arguments String.append !_ _ / : simpl nomatch.

(** ** Results of fallible functions

    A Go function that returns [(A, error)] returns an [outcome]: the value
    when the error is nil, the error otherwise. *)
Inductive outcome (E A : Type) : Type :=
| Ok (a : A)
| Err (e : E).
Arguments Ok {E A} a.
Arguments Err {E A} e.

Definition is_ok {E A} (o : outcome E A) : bool :=
  match o with Ok _ => true | Err _ => false end.
Definition outcome_bind {E A B} (o : outcome E A) (f : A → outcome E B) : outcome E B :=
  match o with Ok a => f a | Err e => Err e end.
Notation "'let!' x := o 'in' k" := (outcome_bind o (fun x => k))
  (at level 10, x pattern, k at level 200) : go_scope.

(** ** Instants and durations

    A Go [time.Time] is the number of nanoseconds since its zero value
    (January 1, year 1, UTC), so [IsZero] is [= 0]; a [time.Duration] is a
    signed 64-bit number of nanoseconds.  Monotonic readings and locations do
    not take part in any comparison the code makes. *)

Abbreviation time := Z.
Abbreviation duration := Z.

Definition time_zero : time := 0.
Definition is_zero (t : time) : bool := t =? 0.
Definition after (a b : time) : bool := b <? a.
Definition before (a b : time) : bool := a <? b.
Definition time_eq (a b : time) : bool := a =? b.

Definition nanosecond : duration := 1.
Definition millisecond : duration := 1000000.
Definition second : duration := 1000000000.
Definition minute : duration := 60 * second.
Definition hour : duration := 60 * minute.

(** [time.Unix(0, 0)]: the Unix epoch, counted from the zero time. *)
Definition unix_epoch : time := 62135596800 * second.

(** ** Machine integers *)

Definition min_int64 : Z := - 2 ^ 63.
Definition max_int64 : Z := 2 ^ 63 - 1.
Definition in_int64 (z : Z) : Prop := min_int64 ≤ z ≤ max_int64.
Definition in_int64b (z : Z) : bool := (min_int64 <=? z) && (z <=? max_int64).

(** Two's-complement wrap-around of a 64-bit signed result. *)
Definition wrap64 (z : Z) : Z := (z + 2 ^ 63) mod 2 ^ 64 - 2 ^ 63.
(** Wrap-around of a 64-bit unsigned result. *)
Definition wrapu64 (z : Z) : Z := z mod 2 ^ 64.

(** [t.Sub(u)] saturates at the range of [time.Duration]. *)
Definition time_sub (t u : time) : duration :=
  Z.max min_int64 (Z.min max_int64 (t - u)).

Lemma wrap64_small z : in_int64 z → wrap64 z = z.
Proof.
  unfold in_int64, wrap64, min_int64, max_int64. intros H.
  rewrite Z.mod_small; lia.
Qed.

Lemma wrap64_range z : in_int64 (wrap64 z).
Proof.
  unfold in_int64, wrap64, min_int64, max_int64.
  pose proof (Z.mod_pos_bound (z + 2 ^ 63) (2 ^ 64)). lia.
Qed.

Lemma in_int64b_spec z : in_int64b z = true ↔ in_int64 z.
Proof. unfold in_int64b, in_int64. rewrite andb_true_iff, !Z.leb_le. done. Qed.

(** ** Boolean reflection and case analysis *)

Lemma after_spec a b : after a b = true ↔ b < a.
Proof. apply Z.ltb_lt. Qed.
Lemma after_false a b : after a b = false ↔ a ≤ b.
Proof. apply Z.ltb_ge. Qed.
Lemma before_spec a b : before a b = true ↔ a < b.
Proof. apply Z.ltb_lt. Qed.
Lemma before_false a b : before a b = false ↔ b ≤ a.
Proof. apply Z.ltb_ge. Qed.
Lemma is_zero_spec t : is_zero t = true ↔ t = 0.
Proof. apply Z.eqb_eq. Qed.
Lemma is_zero_false t : is_zero t = false ↔ t ≠ 0.
Proof. apply Z.eqb_neq. Qed.
Lemma time_eq_spec a b : time_eq a b = true ↔ a = b.
Proof. apply Z.eqb_eq. Qed.
Lemma time_eq_false a b : time_eq a b = false ↔ a ≠ b.
Proof. apply Z.eqb_neq. Qed.

(** [bprop] turns boolean hypotheses and goals of the model into propositions
    that [lia] and [congruence] understand. *)
Create HintDb go discriminated.
Ltac bprop :=
  repeat match goal with
  | H : _ && _ = true |- _ => apply andb_true_iff in H; destruct H
  | H : _ || _ = false |- _ => apply orb_false_iff in H; destruct H
  | H : negb _ = true |- _ => apply negb_true_iff in H
  | H : negb _ = false |- _ => apply negb_false_iff in H
  | H : after _ _ = true |- _ => rewrite after_spec in H
  | H : after _ _ = false |- _ => rewrite after_false in H
  | H : before _ _ = true |- _ => rewrite before_spec in H
  | H : before _ _ = false |- _ => rewrite before_false in H
  | H : is_zero _ = true |- _ => rewrite is_zero_spec in H
  | H : is_zero _ = false |- _ => rewrite is_zero_false in H
  | H : time_eq _ _ = true |- _ => rewrite time_eq_spec in H
  | H : time_eq _ _ = false |- _ => rewrite time_eq_false in H
  | H : (_ <? _) = true |- _ => rewrite Z.ltb_lt in H
  | H : (_ <? _) = false |- _ => rewrite Z.ltb_ge in H
  | H : (_ <=? _) = true |- _ => rewrite Z.leb_le in H
  | H : (_ <=? _) = false |- _ => rewrite Z.leb_gt in H
  | H : (_ =? _) = true |- _ => rewrite Z.eqb_eq in H
  | H : (_ =? _) = false |- _ => rewrite Z.eqb_neq in H
  | H : String.eqb _ _ = true |- _ => rewrite String.eqb_eq in H
  | H : String.eqb _ _ = false |- _ => rewrite String.eqb_neq in H
  | H : bool_decide _ = true |- _ => apply bool_decide_eq_true in H
  | H : bool_decide _ = false |- _ => apply bool_decide_eq_false in H
  | |- _ && _ = true => apply andb_true_iff; split
  | |- negb _ = true => apply negb_true_iff
  | |- after _ _ = true => rewrite after_spec
  | |- after _ _ = false => rewrite after_false
  | |- before _ _ = true => rewrite before_spec
  | |- before _ _ = false => rewrite before_false
  | |- is_zero _ = true => rewrite is_zero_spec
  | |- is_zero _ = false => rewrite is_zero_false
  end.

(** [case_if] splits on the first boolean test of the goal. *)
Ltac case_if :=
  match goal with
  | |- context [if ?b then _ else _] => let E := fresh "E" in destruct b eqn:E
  end.
Ltac case_if_in H :=
  match type of H with
  | context [if ?b then _ else _] => let E := fresh "E" in destruct b eqn:E
  end.
Ltac case_ifs := repeat (case_if; try (bprop; simplify_eq; done)).

(** ** Options *)

Lemma is_Some_dec_false {A} (o : option A) : ¬ is_Some o → o = None.
Proof. apply eq_None_not_Some. Qed.

(** ** Generic list lemmas *)

Lemma Permutation_filter {A} (P : A → Prop) `{∀ x, Decision (P x)} (l1 l2 : list A) :
  l1 ≡ₚ l2 → filter P l1 ≡ₚ filter P l2.
Proof. by intros ->. Qed.

Lemma foldl_cons_app {A B} (f : B → A → B) b x l :
  foldl f b (x :: l) = foldl f (f b x) l.
Proof. done. Qed.

(** A left fold whose step commutes does not depend on the order of the list:
    the fact behind every [for ... range map] whose result is deterministic. *)
Lemma foldl_permutation {A B} (f : B → A → B) (l1 l2 : list A) :
  (∀ b x y, f (f b x) y = f (f b y) x) →
  l1 ≡ₚ l2 → ∀ b, foldl f b l1 = foldl f b l2.
Proof.
  intros Hc Hp. induction Hp as [|x l1 l2 _ IH|x y l|l1 l2 l3 _ IH1 _ IH2]; intros b; simpl.
  - done.
  - apply IH.
  - by rewrite Hc.
  - by rewrite IH1.
Qed.

(** The invariant principle of a left fold. *)
Lemma foldl_invariant {A B} (P : B → Prop) (f : B → A → B) (l : list A) :
  (∀ b x, x ∈ l → P b → P (f b x)) → ∀ b, P b → P (foldl f b l).
Proof.
  induction l as [|x l IH]; intros Hf b Hb; simpl; [done|].
  apply IH; [|apply Hf; [set_solver|done]]. intros b' y Hy. apply Hf. set_solver.
Qed.

Lemma NoDup_map_inj {A B} (f : A → B) l x y :
  NoDup (map f l) → x ∈ l → y ∈ l → f x = f y → x = y.
Proof.
  induction l as [|z l IH]; [by intros _ ?%elem_of_nil|]. simpl map. intros [Hz Hnd]%NoDup_cons.
  intros [->|Hx]%elem_of_cons [->|Hy]%elem_of_cons Hf; [done| | |by apply IH].
  - exfalso. apply Hz. rewrite Hf. by apply (list_elem_of_fmap_2 f).
  - exfalso. apply Hz. rewrite <- Hf. by apply (list_elem_of_fmap_2 f).
Qed.

(** ** The byte order of Go strings *)

Definition str_lt (a b : string) : bool := String.ltb a b.

Lemma ascii_compare_lt a b :
  Ascii.compare a b = Lt ↔ (Ascii.N_of_ascii a < Ascii.N_of_ascii b)%N.
Proof. unfold Ascii.compare. apply N.compare_lt_iff. Qed.

Lemma ascii_compare_refl a : Ascii.compare a a = Eq.
Proof. unfold Ascii.compare. apply N.compare_refl. Qed.

Lemma string_compare_refl s : String.compare s s = Eq.
Proof. induction s as [|a s IH]; simpl; [done|]. by rewrite ascii_compare_refl. Qed.

Lemma string_compare_trans a b c :
  String.compare a b = Lt → String.compare b c = Lt → String.compare a c = Lt.
Proof.
  revert b c. induction a as [|x a IH]; intros [|y b] [|z c]; simpl; try done.
  destruct (Ascii.compare x y) eqn:E1; try done.
  - apply Ascii.compare_eq_iff in E1 as ->.
    destruct (Ascii.compare y z) eqn:E2; try done. apply IH.
  - intros _. destruct (Ascii.compare y z) eqn:E2; try done.
    + apply Ascii.compare_eq_iff in E2 as ->. by rewrite E1.
    + intros _. apply ascii_compare_lt in E1, E2.
      assert (E3 : Ascii.compare x z = Lt)
        by (apply ascii_compare_lt; by eapply N.lt_trans).
      by rewrite E3.
Qed.

Lemma str_lt_irrefl a : str_lt a a = false.
Proof. unfold str_lt, String.ltb. by rewrite string_compare_refl. Qed.

Lemma str_lt_trans a b c : str_lt a b = true → str_lt b c = true → str_lt a c = true.
Proof.
  unfold str_lt, String.ltb.
  destruct (String.compare a b) eqn:E1; try done.
  destruct (String.compare b c) eqn:E2; try done.
  by rewrite (string_compare_trans _ _ _ E1 E2).
Qed.

Lemma str_lt_total a b : str_lt a b = false → str_lt b a = false → a = b.
Proof.
  unfold str_lt, String.ltb. intros H1 H2.
  apply String.compare_eq_iff.
  destruct (String.compare a b) eqn:E1; try done.
  rewrite String.compare_antisym, E1 in H2. done.
Qed.

Lemma str_lt_asym a b : str_lt a b = true → str_lt b a = false.
Proof.
  intros H. destruct (str_lt b a) eqn:E; [|done].
  pose proof (str_lt_trans _ _ _ H E). by rewrite str_lt_irrefl in *.
Qed.

Lemma str_lt_empty a : str_lt "" a = negb (String.eqb a "").
Proof. by destruct a. Qed.

#[export] Hint Resolve str_lt_irrefl str_lt_trans str_lt_asym : go.

(** ** Ordering a list by a string key ([sort.Slice] on unique keys)

    [sort.Slice] is not stable; on a list whose keys are all different its
    result is nevertheless determined ([sort_by_unique]), so the model may use
    any sorting function. *)
Section sort_by.
Context {A : Type} (key : A → string).

Definition key_le (x y : A) : Prop := str_lt (key y) (key x) = false.
#[global] Instance key_le_dec : RelDecision key_le.
Proof. intros x y. unfold key_le. apply _. Defined.
#[global] Instance key_le_total : Total key_le.
Proof.
  intros x y. unfold key_le. destruct (str_lt (key y) (key x)) eqn:E; [right|by left].
  by apply str_lt_asym.
Qed.
#[global] Instance key_le_trans : Transitive key_le.
Proof.
  intros x y z. unfold key_le. intros H1 H2.
  destruct (str_lt (key z) (key x)) eqn:E; [|done].
  destruct (str_lt (key x) (key y)) eqn:E3.
  - pose proof (str_lt_trans _ _ _ E E3). congruence.
  - pose proof (str_lt_total _ _ E3 H1) as Hk. rewrite Hk in E. congruence.
Qed.

Definition sort_by (l : list A) : list A := merge_sort key_le l.

Lemma sort_by_perm l : sort_by l ≡ₚ l.
Proof. apply merge_sort_Permutation. Qed.

Lemma sort_by_sorted l : StronglySorted key_le (sort_by l).
Proof. apply Sorted_StronglySorted; [apply _|]. by apply Sorted_merge_sort; apply _. Qed.

Lemma elem_of_sort_by x l : x ∈ sort_by l ↔ x ∈ l.
Proof. by rewrite sort_by_perm. Qed.

Lemma sort_by_unique l1 l2 :
  (∀ x y, x ∈ l1 → y ∈ l1 → key x = key y → x = y) →
  l1 ≡ₚ l2 → sort_by l1 = sort_by l2.
Proof.
  intros Hinj Hp.
  apply (StronglySorted_unique_strong key_le).
  - intros x y Hx Hy H1 H2. rewrite elem_of_sort_by in Hx, Hy.
    rewrite <- Hp in Hy. apply Hinj; [done..|]. unfold key_le in *.
    by apply str_lt_total.
  - apply sort_by_sorted.
  - apply sort_by_sorted.
  - by rewrite !sort_by_perm.
Qed.
End sort_by.

(** ** Sums of integers over a list *)

Section zsum.
Context {A : Type}.
Implicit Types (f g : A → Z) (l : list A).

Definition zsum f l : Z := foldr (fun x s => f x + s) 0 l.

Lemma zsum_cons f x l : zsum f (x :: l) = f x + zsum f l.
Proof. done. Qed.

Lemma zsum_ext f g l : (∀ x, x ∈ l → f x = g x) → zsum f l = zsum g l.
Proof.
  induction l as [|x l IH]; intros H; [done|]. rewrite !zsum_cons, H, IH; [done|..].
  - intros y Hy. apply H. by right.
  - by left.
Qed.

Lemma zsum_add f g l : zsum (fun x => f x + g x) l = zsum f l + zsum g l.
Proof. induction l as [|x l IH]; [done|]. rewrite !zsum_cons, IH. lia. Qed.

Lemma zsum_opp f l : zsum (fun x => - f x) l = - zsum f l.
Proof. induction l as [|x l IH]; [done|]. rewrite !zsum_cons, IH. lia. Qed.

Lemma zsum_nonneg f l : (∀ x, x ∈ l → 0 ≤ f x) → 0 ≤ zsum f l.
Proof.
  induction l as [|x l IH]; intros H; [done|]. rewrite zsum_cons.
  assert (0 ≤ f x) by (apply H; by left).
  assert (0 ≤ zsum f l) by (apply IH; intros y Hy; apply H; by right). lia.
Qed.

Lemma zsum_pos_witness f l : 0 < zsum f l → ∃ x, x ∈ l ∧ 0 < f x.
Proof.
  induction l as [|x l IH]; [done|]. rewrite zsum_cons. intros H.
  destruct (decide (0 < f x)); [exists x; split; [by left|done]|].
  destruct IH as (y & ? & ?); [lia|]. exists y. split; [by right|done].
Qed.

Lemma zsum_elem_le f l a : (∀ x, x ∈ l → 0 ≤ f x) → a ∈ l → f a ≤ zsum f l.
Proof.
  induction l as [|x l IH]; intros H Ha; [by apply elem_of_nil in Ha|]. rewrite zsum_cons.
  assert (0 ≤ f x) by (apply H; by left).
  assert (0 ≤ zsum f l) by (apply zsum_nonneg; intros y Hy; apply H; by right).
  apply elem_of_cons in Ha as [->|Ha]; [lia|].
  enough (f a ≤ zsum f l) by lia. apply IH; [|done]. intros y Hy. apply H. by right.
Qed.

Lemma zsum_const c l : zsum (fun _ => c) l = c * Z.of_nat (length l).
Proof. induction l as [|x l IH]; [by rewrite Z.mul_0_r|]. rewrite zsum_cons, IH. simpl length. lia. Qed.

Lemma zsum_zero f l : (∀ x, x ∈ l → 0 ≤ f x) → zsum f l = 0 → ∀ x, x ∈ l → f x = 0.
Proof.
  intros H Hs x Hx. pose proof (zsum_elem_le f l x H Hx). specialize (H x Hx). lia.
Qed.

(** A term that is set at one key only. *)
Lemma zsum_single (key : A → string) d l p :
  NoDup (map key l) → p ∈ l → zsum (fun x => if String.eqb (key x) (key p) then d else 0) l = d.
Proof.
  induction l as [|x l IH]; [by intros _ ?%elem_of_nil|]. simpl map. intros [Hx Hnd]%NoDup_cons Hp.
  rewrite zsum_cons. apply elem_of_cons in Hp as [->|Hp].
  - rewrite String.eqb_refl. rewrite (zsum_ext _ (fun _ => 0)); [rewrite zsum_const; lia|].
    intros y Hy. destruct (String.eqb (key y) (key x)) eqn:E; [|done]. exfalso.
    apply String.eqb_eq in E. apply Hx. rewrite <- E. by apply (list_elem_of_fmap_2 key).
  - destruct (String.eqb (key x) (key p)) eqn:E; [|by rewrite IH].
    exfalso. apply String.eqb_eq in E. apply Hx. rewrite E. by apply (list_elem_of_fmap_2 key).
Qed.
End zsum.
