(* ===== verification/GoLib.v ===== *)
(** * The part of the Go standard library the program uses on strings

    Go strings are byte strings ([String.string]).  [strings.TrimSpace]
    follows [unicode.IsSpace] through its UTF-8 encodings.
    [strings.ToLower] and [strings.EqualFold] map the ASCII letters and the
    non-ASCII runes whose image is an ASCII letter (U+212A KELVIN SIGN,
    U+0130 for [ToLower], U+017F for [EqualFold]); other non-ASCII letters keep
    their bytes.  Every comparison the modelled code makes after folding is
    with an ASCII name, and on those this is exact.
    [strconv.Atoi], [strconv.ParseInt] and [strconv.ParseBool] return an
    option: the program never looks at which error they report. *)
From S2P Require Import Prelude.
From Stdlib Require Import Ascii.

Definition byte_is (n : N) (c : Ascii.ascii) : bool := N.eqb (Ascii.N_of_ascii c) n.
Definition byte_in (lo hi : N) (c : Ascii.ascii) : bool :=
  let n := Ascii.N_of_ascii c in (N.leb lo n && N.leb n hi)%bool.

Fixpoint srev (s : string) : string :=
  match s with
  | EmptyString => EmptyString
  | String a r => srev r +:+ String a EmptyString
  end.

(** [strings.Contains], [strings.HasPrefix], [strings.HasSuffix]. *)
Definition has_prefix (s p : string) : bool := String.prefix p s.

Fixpoint contains (s sub : string) : bool :=
  String.prefix sub s ||
  match s with
  | String _ r => contains r sub
  | EmptyString => false
  end.

Definition has_suffix (s p : string) : bool := String.prefix (srev p) (srev s).

(** [strings.TrimSpace]. *)
Definition ascii_space (c : Ascii.ascii) : bool := byte_in 9 13 c || byte_is 32 c.

Definition wide_space2 (a b : Ascii.ascii) : bool :=
  byte_is 194 a && (byte_is 133 b || byte_is 160 b).

Definition wide_space3 (a b c : Ascii.ascii) : bool :=
  (byte_is 225 a && byte_is 154 b && byte_is 128 c)
  || (byte_is 226 a && byte_is 128 b
      && (byte_in 128 138 c || byte_is 168 c || byte_is 169 c || byte_is 175 c))
  || (byte_is 226 a && byte_is 129 b && byte_is 159 c)
  || (byte_is 227 a && byte_is 128 b && byte_is 128 c).

Fixpoint trim_left (s : string) : string :=
  match s with
  | EmptyString => EmptyString
  | String a r =>
      if ascii_space a then trim_left r
      else match r with
           | EmptyString => s
           | String b r2 =>
               if wide_space2 a b then trim_left r2
               else match r2 with
                    | EmptyString => s
                    | String c r3 => if wide_space3 a b c then trim_left r3 else s
                    end
           end
  end.

(** The same on a reversed string: the bytes of a rune come last first. *)
Fixpoint trim_left_rev (s : string) : string :=
  match s with
  | EmptyString => EmptyString
  | String a r =>
      if ascii_space a then trim_left_rev r
      else match r with
           | EmptyString => s
           | String b r2 =>
               if wide_space2 b a then trim_left_rev r2
               else match r2 with
                    | EmptyString => s
                    | String c r3 => if wide_space3 c b a then trim_left_rev r3 else s
                    end
           end
  end.

Definition trim_right (s : string) : string := srev (trim_left_rev (srev s)).
Definition trim_space (s : string) : string := trim_right (trim_left s).

(** [strings.ToLower]. *)
Definition lower_ascii (c : Ascii.ascii) : Ascii.ascii :=
  if byte_in 65 90 c then Ascii.ascii_of_N (Ascii.N_of_ascii c + 32) else c.

Definition kelvin (a b c : Ascii.ascii) : bool :=
  byte_is 226 a && byte_is 132 b && byte_is 170 c.

Fixpoint to_lower (s : string) : string :=
  match s with
  | EmptyString => EmptyString
  | String a r =>
      match r with
      | EmptyString => String (lower_ascii a) EmptyString
      | String b r2 =>
          if byte_is 196 a && byte_is 176 b then String "i"%char (to_lower r2)
          else match r2 with
               | String c r3 =>
                   if kelvin a b c then String "k"%char (to_lower r3)
                   else String (lower_ascii a) (to_lower r)
               | EmptyString => String (lower_ascii a) (to_lower r)
               end
      end
  end.

(** [strings.EqualFold]: equality up to simple case folding. *)
Fixpoint fold_case (s : string) : string :=
  match s with
  | EmptyString => EmptyString
  | String a r =>
      match r with
      | EmptyString => String (lower_ascii a) EmptyString
      | String b r2 =>
          if byte_is 197 a && byte_is 191 b then String "s"%char (fold_case r2)
          else match r2 with
               | String c r3 =>
                   if kelvin a b c then String "k"%char (fold_case r3)
                   else String (lower_ascii a) (fold_case r)
               | EmptyString => String (lower_ascii a) (fold_case r)
               end
      end
  end.
Definition equal_fold (a b : string) : bool := String.eqb (fold_case a) (fold_case b).

(** [strings.LastIndex(s, c)] for a one-byte [c]: the bytes before and after
    the last occurrence. *)
Fixpoint split_last (c : Ascii.ascii) (s : string) : option (string * string) :=
  match s with
  | EmptyString => None
  | String a r =>
      match split_last c r with
      | Some (pre, post) => Some (String a pre, post)
      | None => if Ascii.eqb a c then Some (EmptyString, r) else None
      end
  end.

(** [s[:len(s)-1]] for a non-empty [s]. *)
Fixpoint drop_last (s : string) : string :=
  match s with
  | EmptyString => EmptyString
  | String a EmptyString => EmptyString
  | String a r => String a (drop_last r)
  end.

(** [strconv.ParseInt(s, 10, 64)] and [strconv.Atoi] (64-bit [int]). *)
Definition digit_val (c : Ascii.ascii) : option Z :=
  if byte_in 48 57 c then Some (Z.of_N (Ascii.N_of_ascii c) - 48) else None.

Fixpoint parse_digits (acc : Z) (s : string) : option Z :=
  match s with
  | EmptyString => Some acc
  | String c r =>
      match digit_val c with
      | Some d => parse_digits (10 * acc + d) r
      | None => None
      end
  end.

Definition parse_unsigned (s : string) : option Z :=
  match s with EmptyString => None | _ => parse_digits 0 s end.

Definition parse_int64 (s : string) : option Z :=
  let r := match s with
           | String "-"%char t => Z.opp <$> parse_unsigned t
           | String "+"%char t => parse_unsigned t
           | _ => parse_unsigned s
           end in
  match r with
  | Some z => if in_int64b z then Some z else None
  | None => None
  end.
Definition atoi (s : string) : option Z := parse_int64 s.

(** [strconv.ParseBool]. *)
Definition parse_bool (s : string) : option bool :=
  if existsb (String.eqb s) ["1"; "t"; "T"; "TRUE"; "true"; "True"] then Some true
  else if existsb (String.eqb s) ["0"; "f"; "F"; "FALSE"; "false"; "False"] then Some false
  else None.

(** ** The dynamic values of a [map[string]any]

    A binary float is NaN, an infinity, or the exact number [m * 2^e].
    [AOther] is any dynamic type the modelled code falls through on. *)
Inductive float : Type :=
| FNaN
| FInf (negative : bool)
| FFin (m e : Z).

Inductive int_kind : Type := KInt | KInt8 | KInt16 | KInt32 | KInt64.
Inductive uint_kind : Type := KUint | KUint8 | KUint16 | KUint32 | KUint64.

Inductive any : Type :=
| ANil
| ABool (b : bool)
| AInt (k : int_kind) (z : Z)
| AUint (k : uint_kind) (z : Z)
| AFloat64 (f : float)
| AFloat32 (f : float)
| ANumber (s : string)
| AStr (s : string)
| AMap (m : list (string * any))
| AStrMap (m : list (string * string))
| AList (l : list any)
| AOther.

Definition uint_max (k : uint_kind) : Z :=
  match k with
  | KUint8 => 2 ^ 8 - 1
  | KUint16 => 2 ^ 16 - 1
  | KUint32 => 2 ^ 32 - 1
  | KUint | KUint64 => 2 ^ 64 - 1
  end.
Definition int_max (k : int_kind) : Z :=
  match k with
  | KInt8 => 2 ^ 7 - 1
  | KInt16 => 2 ^ 15 - 1
  | KInt32 => 2 ^ 31 - 1
  | KInt | KInt64 => 2 ^ 63 - 1
  end.

(** A value a Go program can hold: integers are within their width. *)
Definition any_wf (v : any) : Prop :=
  match v with
  | AInt k z => - int_max k - 1 ≤ z ≤ int_max k
  | AUint k z => 0 ≤ z ≤ uint_max k
  | _ => True
  end.

(** [float_trunc f]: the integer part (towards zero) of a finite float;
    [float_integral f] is [math.Trunc(f) == f]. *)
Definition float_trunc (m e : Z) : Z :=
  if 0 <=? e then m * 2 ^ e else Z.quot m (2 ^ (- e)).
Definition float_integral (m e : Z) : bool :=
  if 0 <=? e then true else Z.rem m (2 ^ (- e)) =? 0.

(** A metadata lookup [m[key]], [nil] map included. *)
Abbreviation metadata := (gmap string any).

(** ** Lemmas *)

Lemma sapp_nil_r s : s +:+ "" = s.
Proof. induction s as [|a s IH]; simpl; [done|]. by rewrite IH. Qed.
Lemma sapp_assoc s t u : s +:+ (t +:+ u) = (s +:+ t) +:+ u.
Proof. induction s as [|a s IH]; simpl; [done|]. by rewrite IH. Qed.
Lemma srev_app s t : srev (s +:+ t) = srev t +:+ srev s.
Proof.
  induction s as [|a s IH]; simpl; [by rewrite sapp_nil_r|]. by rewrite IH, sapp_assoc.
Qed.
Lemma srev_involutive s : srev (srev s) = s.
Proof. induction s as [|a s IH]; simpl; [done|]. by rewrite srev_app, IH. Qed.

Lemma parse_int64_range s z : parse_int64 s = Some z → in_int64 z.
Proof.
  unfold parse_int64. case_match; [|done]. case_if; [|done].
  intros [= <-]. by apply in_int64b_spec.
Qed.

Lemma digit_val_range c d : digit_val c = Some d → 0 ≤ d ≤ 9.
Proof.
  unfold digit_val, byte_in. case_if; [|done]. intros [= <-]. bprop.
  apply N.leb_le in H, H0. lia.
Qed.

Lemma parse_digits_app acc s t :
  parse_digits acc (s +:+ t) = (parse_digits acc s) ≫= λ a, parse_digits a t.
Proof.
  revert acc. induction s as [|c s IH]; intros acc; simpl; [done|].
  destruct (digit_val c); [apply IH|done].
Qed.

Lemma parse_digits_nonneg acc s z : 0 ≤ acc → parse_digits acc s = Some z → 0 ≤ z.
Proof.
  revert acc. induction s as [|c s IH]; intros acc Ha; simpl; [by intros [= <-]|].
  destruct (digit_val c) as [d|] eqn:E; [|done].
  apply digit_val_range in E. apply IH. lia.
Qed.

Lemma equal_fold_refl s : equal_fold s s = true.
Proof. apply String.eqb_refl. Qed.
Lemma equal_fold_sym a b : equal_fold a b = equal_fold b a.
Proof. apply String.eqb_sym. Qed.
Lemma equal_fold_trans a b c :
  equal_fold a b = true → equal_fold b c = true → equal_fold a c = true.
Proof. unfold equal_fold. rewrite !String.eqb_eq. congruence. Qed.
#[export] Hint Resolve equal_fold_refl : go.

(** [equal_fold] is an equivalence, and a test against a fixed name only
    depends on the class. *)
Lemma equal_fold_cong a b c : equal_fold a b = true → equal_fold a c = equal_fold b c.
Proof. unfold equal_fold. rewrite String.eqb_eq. by intros ->. Qed.

Lemma split_last_spec c s pre post :
  split_last c s = Some (pre, post) → s = pre +:+ String c post.
Proof.
  revert pre post. induction s as [|a s IH]; intros pre post; simpl; [done|].
  destruct (split_last c s) as [[p q]|] eqn:E.
  - intros [= <- <-]. simpl. by rewrite (IH _ _ eq_refl).
  - case_if; [|done]. intros [= <- <-]. apply Ascii.eqb_eq in E0. by subst.
Qed.

Fixpoint has_byte (c : Ascii.ascii) (s : string) : bool :=
  match s with
  | EmptyString => false
  | String a r => Ascii.eqb a c || has_byte c r
  end.

Lemma split_last_none c s : split_last c s = None ↔ has_byte c s = false.
Proof.
  induction s as [|a s IH]; simpl; [done|].
  destruct (split_last c s) as [[p q]|].
  - split; [done|]. intros [_ H]%orb_false_iff. by apply IH in H.
  - rewrite orb_false_iff. destruct (Ascii.eqb a c); naive_solver.
Qed.

Lemma split_last_post c s pre post :
  split_last c s = Some (pre, post) → has_byte c post = false.
Proof.
  revert pre post. induction s as [|a s IH]; intros pre post; simpl; [done|].
  destruct (split_last c s) as [[p q]|] eqn:E.
  - intros [= <- <-]. by eapply IH.
  - case_if; [|done]. intros [= <- <-]. by apply split_last_none.
Qed.

Lemma split_last_app c pre post :
  has_byte c post = false → split_last c (pre +:+ String c post) = Some (pre, post).
Proof.
  intros Hp. induction pre as [|a pre IH]; simpl.
  - apply split_last_none in Hp as ->. by rewrite Ascii.eqb_refl.
  - by rewrite IH.
Qed.

(** ** Trimming twice *)

(** A trim returns its string, or a shorter one. *)
Lemma trim_left_shorter s : trim_left s = s ∨ (String.length (trim_left s) < String.length s)%nat.
Proof.
  revert s. fix IH 1. intros [|a r]; [by left|]. cbn [trim_left]. destruct (ascii_space a).
  { right. destruct (IH r) as [->|H]; cbn; lia. }
  destruct r as [|b r2]; [by left|]. destruct (wide_space2 a b).
  { right. destruct (IH r2) as [->|H]; cbn; lia. }
  destruct r2 as [|c r3]; [by left|]. destruct (wide_space3 a b c); [|by left].
  right. destruct (IH r3) as [->|H]; cbn; lia.
Qed.
Lemma trim_left_idem s : trim_left (trim_left s) = trim_left s.
Proof.
  revert s. fix IH 1. intros [|a r]; [done|]. cbn [trim_left]. destruct (ascii_space a) eqn:Ea; [apply IH|].
  destruct r as [|b r2]; [cbn; by rewrite Ea|]. destruct (wide_space2 a b) eqn:Eb; [apply IH|].
  destruct r2 as [|c r3]; [cbn; by rewrite Ea, Eb|]. destruct (wide_space3 a b c) eqn:Ec; [apply IH|].
  cbn. by rewrite Ea, Eb, Ec.
Qed.
Lemma trim_left_rev_idem s : trim_left_rev (trim_left_rev s) = trim_left_rev s.
Proof.
  revert s. fix IH 1. intros [|a r]; [done|]. cbn [trim_left_rev]. destruct (ascii_space a) eqn:Ea; [apply IH|].
  destruct r as [|b r2]; [cbn; by rewrite Ea|]. destruct (wide_space2 b a) eqn:Eb; [apply IH|].
  destruct r2 as [|c r3]; [cbn; by rewrite Ea, Eb|]. destruct (wide_space3 c b a) eqn:Ec; [apply IH|].
  cbn. by rewrite Ea, Eb, Ec.
Qed.
Lemma trim_left_rev_suffix s : ∃ p, s = p +:+ trim_left_rev s.
Proof.
  revert s. fix IH 1. intros [|a r]; [by exists ""|]. cbn [trim_left_rev]. destruct (ascii_space a).
  { destruct (IH r) as [p Hp]. exists (String a p). cbn. by rewrite <- Hp. }
  destruct r as [|b r2]; [by exists ""|]. destruct (wide_space2 b a).
  { destruct (IH r2) as [p Hp]. exists (String a (String b p)). cbn. by rewrite <- Hp. }
  destruct r2 as [|c r3]; [by exists ""|]. destruct (wide_space3 c b a); [|by exists ""].
  destruct (IH r3) as [p Hp]. exists (String a (String b (String c p))). cbn. by rewrite <- Hp.
Qed.
(** What is left of a string without spaces at its front has none there either. *)
Lemma trim_left_prefix u q : trim_left (u +:+ q) = u +:+ q → trim_left u = u.
Proof.
  assert (∀ s x, (String.length x < String.length s)%nat → trim_left x ≠ s) as Hn.
  { intros s x Hl <-. destruct (trim_left_shorter x) as [E|E]; [rewrite E in Hl|]; lia. }
  destruct u as [|a r]; [done|]. cbn [String.app trim_left]. destruct (ascii_space a).
  { intros H%Hn; [done|]. cbn; lia. }
  destruct r as [|b r2]; [done|]. cbn [String.app]. destruct (wide_space2 a b).
  { intros H%Hn; [done|]. cbn; lia. }
  destruct r2 as [|c r3]; [done|]. cbn [String.app]. destruct (wide_space3 a b c); [|done].
  intros H%Hn; [done|]. cbn; lia.
Qed.
Lemma trim_right_prefix t : ∃ q, t = trim_right t +:+ q.
Proof.
  unfold trim_right. destruct (trim_left_rev_suffix (srev t)) as [p Hp]. exists (srev p).
  rewrite <- srev_app, <- Hp. by rewrite srev_involutive.
Qed.

Lemma trim_space_idem s : trim_space (trim_space s) = trim_space s.
Proof.
  unfold trim_space. set (t := trim_left s). assert (trim_left t = t) as Ht by apply trim_left_idem. clearbody t.
  assert (trim_left (trim_right t) = trim_right t) as ->.
  { destruct (trim_right_prefix t) as [q Hq]. apply (trim_left_prefix _ q). congruence. }
  unfold trim_right. by rewrite srev_involutive, trim_left_rev_idem.
Qed.
