(* ===== verification/Utf8.v ===== *)
(** * UTF-8: what the code uses of Go's [unicode/utf8]

    [utf8.ValidString], and the loop that cuts a string back until it is valid. *)
From S2P Require Import Prelude GoLib.

(** [utf8.ValidString]. *)
Definition cont (c : Ascii.ascii) : bool := byte_in 128 191 c.
Fixpoint utf8_valid (s : string) : bool :=
  match s with
  | EmptyString => true
  | String a r =>
      if byte_in 0 127 a then utf8_valid r
      else match r with
           | EmptyString => false
           | String b r2 =>
               if byte_in 194 223 a then cont b && utf8_valid r2
               else match r2 with
                    | EmptyString => false
                    | String c r3 =>
                        if byte_is 224 a then byte_in 160 191 b && cont c && utf8_valid r3
                        else if byte_is 237 a then byte_in 128 159 b && cont c && utf8_valid r3
                        else if byte_in 225 239 a then cont b && cont c && utf8_valid r3
                        else match r3 with
                             | EmptyString => false
                             | String d r4 =>
                                 if byte_is 240 a then byte_in 144 191 b && cont c && cont d && utf8_valid r4
                                 else if byte_in 241 243 a then cont b && cont c && cont d && utf8_valid r4
                                 else if byte_is 244 a then byte_in 128 143 b && cont c && cont d && utf8_valid r4
                                 else false
                             end
                    end
           end
  end.
Fixpoint drop_broken (fuel : nat) (prefix : string) : string :=
  match fuel with
  | O => prefix
  | S fuel => if negb (utf8_valid prefix) && negb (String.eqb prefix "") then drop_broken fuel (drop_last prefix) else prefix
  end.
(** ** Valid text *)

Ltac utf8_step IH := rewrite !andb_true_iff; intros Hs; destruct_and? Hs; split_and!; try done; apply IH; [lia|done].
Lemma utf8_app s t : utf8_valid t = true → utf8_valid s = true → utf8_valid (s +:+ t) = true.
Proof.
  intros Ht. remember (String.length s) as n eqn:E. assert (String.length s ≤ n)%nat as Hn by lia. clear E.
  induction n as [|n IH] in s, Hn |- *; destruct s as [|a s]; cbn in Hn; try lia; [done..|].
  cbn. destruct (byte_in 0 127 a); [apply IH; lia|].
  destruct s as [|b s]; [done|]. cbn in Hn |- *. destruct (byte_in 194 223 a); [utf8_step IH|].
  destruct s as [|c s]; [done|]. cbn in Hn |- *.
  destruct (byte_is 224 a); [utf8_step IH|].
  destruct (byte_is 237 a); [utf8_step IH|].
  destruct (byte_in 225 239 a); [utf8_step IH|].
  destruct s as [|d s]; [done|]. cbn in Hn |- *.
  destruct (byte_is 240 a); [utf8_step IH|].
  destruct (byte_in 241 243 a); [utf8_step IH|].
  destruct (byte_is 244 a); [utf8_step IH|done].
Qed.
Lemma utf8_ascii a s : byte_in 0 127 a = true → utf8_valid s = true → utf8_valid (String a s) = true.
Proof. intros Ha Hs. cbn. by rewrite Ha. Qed.

(** ** The cut *)

Lemma drop_last_length s : s ≠ "" → String.length (drop_last s) = pred (String.length s).
Proof. induction s as [|a s IH]; [done|]. intros _. destruct s as [|b s]; [done|]. cbn in *. rewrite IH; done. Qed.
Lemma drop_broken_ok fuel s : (String.length s ≤ fuel)%nat →
  utf8_valid (drop_broken fuel s) = true ∧ (String.length (drop_broken fuel s) ≤ String.length s)%nat.
Proof.
  induction fuel as [|fuel IH] in s |- *; intros Hs; [destruct s; [done|cbn in Hs; lia]|]. cbn [drop_broken].
  destruct (utf8_valid s) eqn:E; cbn [negb andb]; [by rewrite E|].
  destruct (String.eqb s "") eqn:E2; cbn [negb]; bprop; [by subst|]. pose proof (drop_last_length s E2) as Hl.
  destruct s as [|a s]; [done|]. cbn [String.length] in *. destruct (IH (drop_last (String a s))) as [IH1 IH2]; [lia|]. split; [done|lia].
Qed.
Lemma substring_length n m s : (String.length (String.substring n m s) ≤ m)%nat.
Proof. revert n m. induction s as [|a s IH]; intros [|n] [|m]; cbn; try lia; try apply IH. specialize (IH 0%nat m). lia. Qed.
Lemma length_append s t : String.length (s +:+ t) = (String.length s + String.length t)%nat.
Proof. induction s as [|a s IH]; cbn; lia. Qed.
Lemma append_tail p q s t : String.length s = String.length t → p +:+ s = q +:+ t → s = t.
Proof.
  revert q. induction p as [|a p IH]; intros [|b q] Hl; cbn; [done| | |].
  - intros ->. cbn in Hl. rewrite length_append in Hl. lia.
  - intros <-. cbn in Hl. rewrite length_append in Hl. lia.
  - intros [= _ E]. by eapply IH.
Qed.
