(* ===== verification/Weight.v ===== *)
(** * Credential weights: internal/credentialweight/weight.go

    [Normalize], [ParseString] and [ParseValue] read the weight of a credential
    from an attribute string or from a JSON-compatible metadata value. *)
From S2P Require Import Prelude GoLib.

Module Weight.

Definition Default : Z := 1.
Definition Max : Z := 1000000.

Inductive weight_error : Type :=
| NotInteger
| ExceedsMax.

Definition Normalize (weight : Z) : outcome weight_error Z :=
  if weight <=? 0 then Ok 0
  else if Max <? weight then Err ExceedsMax
  else Ok weight.

Definition ParseString (raw : string) : outcome weight_error Z :=
  let raw := trim_space raw in
  if String.eqb raw "" then Ok Default
  else match parse_int64 raw with
       | None => Err NotInteger
       | Some weight => Normalize weight
       end.

(** The [float64] case: not a number, infinite and fractional values are
    refused, the others are cut to [0, Max]. *)
Definition ParseFloat (f : float) : outcome weight_error Z :=
  match f with
  | FNaN | FInf _ => Err NotInteger
  | FFin m e =>
      if negb (float_integral m e) then Err NotInteger
      else let typed := float_trunc m e in
           if typed <=? 0 then Ok 0
           else if Max <? typed then Err ExceedsMax
           else Ok typed
  end.

Definition ParseValue (value : any) : outcome weight_error Z :=
  match value with
  | AInt _ typed => Normalize typed
  | AUint (KUint | KUint32 | KUint64) typed =>
      if Max <? typed then Err ExceedsMax else Ok typed
  | AUint (KUint8 | KUint16) typed => Ok typed
  | AFloat64 typed => ParseFloat typed
  | AFloat32 typed => ParseFloat typed
  | ANumber typed =>
      match parse_int64 typed with
      | None => Err NotInteger
      | Some weight => Normalize weight
      end
  | AStr typed => ParseString typed
  | ANil | ABool _ | AMap _ | AStrMap _ | AList _ | AOther => Err NotInteger
  end.

(** ** Specification *)

(** [denotes v z]: the dynamic value [v] is a representation of the integer
    [z]: any integer type, an integral float, a JSON number, a string. *)
Inductive denotes : any → Z → Prop :=
| denotes_int k z : denotes (AInt k z) z
| denotes_uint k z : denotes (AUint k z) z
| denotes_float64 m e : float_integral m e = true → denotes (AFloat64 (FFin m e)) (float_trunc m e)
| denotes_float32 m e : float_integral m e = true → denotes (AFloat32 (FFin m e)) (float_trunc m e)
| denotes_number s z : parse_int64 s = Some z → denotes (ANumber s) z
| denotes_str s z : parse_int64 (trim_space s) = Some z → denotes (AStr s) z.

(** What a weight means: non-positive weights are 0, weights above [Max] are
    refused. *)
Definition weight_of (z : Z) : outcome weight_error Z :=
  if Max <? z then Err ExceedsMax else Ok (Z.max 0 z).

Lemma Normalize_weight_of z : Normalize z = weight_of z.
Proof.
  unfold Normalize, weight_of, Max. repeat case_if; bprop; try lia; f_equal; lia.
Qed.

Lemma ParseFloat_weight_of m e :
  float_integral m e = true → ParseFloat (FFin m e) = weight_of (float_trunc m e).
Proof.
  unfold ParseFloat. intros ->. simpl. rewrite <- Normalize_weight_of. done.
Qed.

Lemma ParseUint_weight_of k z :
  any_wf (AUint k z) → ParseValue (AUint k z) = weight_of z.
Proof.
  destruct k; simpl; unfold weight_of, Max; intros Hz;
    repeat case_if; bprop; try lia; f_equal; lia.
Qed.

Lemma Normalize_bounds z w : Normalize z = Ok w → 0 ≤ w ≤ Max.
Proof.
  rewrite Normalize_weight_of. unfold weight_of, Max.
  case_if; [done|]. intros [= <-]. bprop. lia.
Qed.

Lemma ParseString_bounds s w : ParseString s = Ok w → 0 ≤ w ≤ Max.
Proof.
  unfold ParseString. case_if; [intros [= <-]; unfold Default, Max; lia|].
  destruct (parse_int64 _); [|done]. apply Normalize_bounds.
Qed.

Lemma ParseFloat_bounds f w : ParseFloat f = Ok w → 0 ≤ w ≤ Max.
Proof.
  destruct f as [| |m e]; try done. intros H.
  assert (Hi : float_integral m e = true).
  { unfold ParseFloat in H. destruct (float_integral m e); done. }
  rewrite (ParseFloat_weight_of _ _ Hi), <- Normalize_weight_of in H.
  by eapply Normalize_bounds.
Qed.

#[export] Hint Resolve Normalize_bounds ParseString_bounds ParseFloat_bounds : go.

Lemma ParseValue_in_bounds v w : any_wf v → ParseValue v = Ok w → 0 ≤ w ≤ Max.
Proof.
  intros Hv. destruct v as [|b|k z|k z|f|f|s|s|m|m|l|]; try done; eauto with go.
  - rewrite (ParseUint_weight_of _ _ Hv), <- Normalize_weight_of. eauto with go.
  - simpl. destruct (parse_int64 s); [|done]. eauto with go.
Qed.

(** Every representation of an integer gives the same weight. *)
Lemma ParseValue_denotes v z : any_wf v → denotes v z → ParseValue v = weight_of z.
Proof.
  intros Hv Hd. destruct Hd as [k z|k z|m e Hi|m e Hi|s z Hs|s z Hs]; simpl.
  - apply Normalize_weight_of.
  - by apply ParseUint_weight_of.
  - by apply ParseFloat_weight_of.
  - by apply ParseFloat_weight_of.
  - rewrite Hs. apply Normalize_weight_of.
  - unfold ParseString. case_if; [|by rewrite Hs, Normalize_weight_of].
    bprop. by rewrite E in Hs.
Qed.

(** A credential weight is read the same from every representation. *)
Theorem ParseValue_spec v z :
  any_wf v → denotes v z →
  ParseValue v = weight_of z ∧ (∀ w, ParseValue v = Ok w → 0 ≤ w ≤ Max).
Proof.
  intros Hv Hd. split; [by apply ParseValue_denotes|].
  intros w. by apply ParseValue_in_bounds.
Qed.

Lemma ParseValue_spec_witness :
  any_wf (AStr " +12 ") ∧ denotes (AStr " +12 ") 12 ∧ ParseValue (AStr " +12 ") = weight_of 12.
Proof.
  assert (Hd : denotes (AStr " +12 ") 12) by (constructor; reflexivity).
  split; [exact I|]. split; [exact Hd|].
  exact (proj1 (ParseValue_spec (AStr " +12 ") 12 I Hd)).
Defined.

End Weight.
