(* ===== verification/Thinking.v ===== *)
(** * Thinking configurations: internal/thinking

    Model-name suffixes (suffix.go), the level/budget conversions (convert.go)
    and the validation of a configuration against a model's capabilities
    (validate.go).  Log calls are left out; the formatted message of an error
    is kept as its arguments ([error_detail]). *)
From Stdlib Require Import Ascii.
From S2P Require Import Prelude GoLib.

Module Thinking.

(** ** Data: types.go, errors.go, registry.ThinkingSupport *)

Inductive ThinkingMode : Type := ModeBudget | ModeLevel | ModeNone | ModeAuto.
#[global] Instance ThinkingMode_eq_dec : EqDecision ThinkingMode.
Proof. solve_decision. Defined.
Definition mode_is (a b : ThinkingMode) : bool := bool_decide (a = b).

Definition mode_String (m : ThinkingMode) : string :=
  match m with
  | ModeBudget => "budget"
  | ModeLevel => "level"
  | ModeNone => "none"
  | ModeAuto => "auto"
  end.

Abbreviation ThinkingLevel := string.
Definition LevelNone : ThinkingLevel := "none".
Definition LevelAuto : ThinkingLevel := "auto".
Definition LevelMinimal : ThinkingLevel := "minimal".
Definition LevelLow : ThinkingLevel := "low".
Definition LevelMedium : ThinkingLevel := "medium".
Definition LevelHigh : ThinkingLevel := "high".
Definition LevelXHigh : ThinkingLevel := "xhigh".
Definition LevelMax : ThinkingLevel := "max".

Record ThinkingConfig : Type := {
  Mode : ThinkingMode;
  Budget : Z;
  Level : ThinkingLevel;
}.
#[global] Instance ThinkingConfig_eta : Eta ThinkingConfig := fun c =>
  {| Mode := Mode c; Budget := Budget c; Level := Level c |}.

Record SuffixResult : Type := {
  ModelName : string;
  HasSuffix : bool;
  RawSuffix : string;
}.

(** The fields of registry.ThinkingSupport and registry.ModelInfo that the
    validation reads. *)
Record ThinkingSupport : Type := {
  Min : Z;
  Max : Z;
  ZeroAllowed : bool;
  DynamicAllowed : bool;
  Levels : list string;
}.
Record ModelInfo : Type := {
  Info_ID : string;
  Info_Type : string;
  Info_Thinking : option ThinkingSupport;
}.

Inductive ErrorCode : Type :=
| ErrInvalidSuffix
| ErrUnknownLevel
| ErrThinkingNotSupported
| ErrLevelNotSupported
| ErrBudgetOutOfRange
| ErrProviderMismatch.

Inductive error_detail : Type :=
| NotSupportedForModel
| UnknownLevel (level : string)
| BudgetNotConvertible (budget : Z)
| LevelNotInList (level : string) (valid : list string)
| BudgetNotInRange (budget lo hi : Z).

Record ThinkingError : Type := {
  Code : ErrorCode;
  Detail : error_detail;
  ErrModel : string;
}.
Definition NewThinkingError (code : ErrorCode) (d : error_detail) : ThinkingError :=
  {| Code := code; Detail := d; ErrModel := "" |}.
Definition NewThinkingErrorWithModel (code : ErrorCode) (d : error_detail) (model : string) :
    ThinkingError :=
  {| Code := code; Detail := d; ErrModel := model |}.
(** [http.StatusBadRequest]. *)
Definition ThinkingError_StatusCode (e : ThinkingError) : Z := 400.

(** ** suffix.go *)

Definition ParseSuffix (model : string) : SuffixResult :=
  match split_last "("%char model with
  | None => {| ModelName := model; HasSuffix := false; RawSuffix := "" |}
  | Some (modelName, rest) =>
      if negb (has_suffix model ")") then
        {| ModelName := model; HasSuffix := false; RawSuffix := "" |}
      else {| ModelName := modelName; HasSuffix := true; RawSuffix := drop_last rest |}
  end.

Definition ParseNumericSuffix (rawSuffix : string) : option Z :=
  if String.eqb rawSuffix "" then None
  else match atoi rawSuffix with
       | None => None
       | Some value => if value <? 0 then None else Some value
       end.

Definition ParseSpecialSuffix (rawSuffix : string) : option ThinkingMode :=
  if String.eqb rawSuffix "" then None
  else let s := to_lower rawSuffix in
       if String.eqb s "none" then Some ModeNone
       else if String.eqb s "auto" || String.eqb s "-1" then Some ModeAuto
       else None.

Definition ParseLevelSuffix (rawSuffix : string) : option ThinkingLevel :=
  if String.eqb rawSuffix "" then None
  else let s := to_lower rawSuffix in
       if String.eqb s "minimal" then Some LevelMinimal
       else if String.eqb s "low" then Some LevelLow
       else if String.eqb s "medium" then Some LevelMedium
       else if String.eqb s "high" then Some LevelHigh
       else if String.eqb s "xhigh" then Some LevelXHigh
       else if String.eqb s "max" then Some LevelMax
       else None.

(** ** convert.go *)

Definition levelToBudgetMap : gmap string Z :=
  {[ "none" := 0; "auto" := -1; "minimal" := 512; "low" := 1024; "medium" := 8192;
     "high" := 24576; "xhigh" := 32768; "max" := 128000 ]}.

Definition ConvertLevelToBudget (level : string) : option Z :=
  levelToBudgetMap !! to_lower level.

Definition ThresholdMinimal : Z := 512.
Definition ThresholdLow : Z := 1024.
Definition ThresholdMedium : Z := 8192.
Definition ThresholdHigh : Z := 24576.

Definition ConvertBudgetToLevel (budget : Z) : option string :=
  if budget <? -1 then None
  else if budget =? -1 then Some LevelAuto
  else if budget =? 0 then Some LevelNone
  else if budget <=? ThresholdMinimal then Some LevelMinimal
  else if budget <=? ThresholdLow then Some LevelLow
  else if budget <=? ThresholdMedium then Some LevelMedium
  else if budget <=? ThresholdHigh then Some LevelHigh
  else Some LevelXHigh.

Definition HasLevel (levels : list string) (target : string) : bool :=
  existsb (fun level => equal_fold (trim_space level) target) levels.

Definition MapToClaudeEffort (level : string) (supportsMax : bool) : option string :=
  let level := to_lower (trim_space level) in
  if String.eqb level "" then None
  else if String.eqb level "minimal" then Some "low"
  else if String.eqb level "low" || String.eqb level "medium" || String.eqb level "high"
  then Some level
  else if String.eqb level "xhigh" || String.eqb level "max"
  then Some (if supportsMax then "max" else "high")
  else if String.eqb level "auto" then Some "high"
  else None.

Inductive ModelCapability : Type :=
| CapabilityUnknown | CapabilityNone | CapabilityBudgetOnly | CapabilityLevelOnly
| CapabilityHybrid.

Definition is_nil {A} (l : list A) : bool := match l with [] => true | _ => false end.

Definition detectModelCapability (modelInfo : option ModelInfo) : ModelCapability :=
  match modelInfo with
  | None => CapabilityUnknown
  | Some info =>
      match Info_Thinking info with
      | None => CapabilityNone
      | Some support =>
          let hasBudget := (0 <? Min support) || (0 <? Max support) in
          let hasLevels := negb (is_nil (Levels support)) in
          if hasBudget && hasLevels then CapabilityHybrid
          else if hasBudget then CapabilityBudgetOnly
          else if hasLevels then CapabilityLevelOnly
          else CapabilityNone
      end
  end.

(** ** validate.go: levels and budgets *)

Definition standardLevelOrder : list ThinkingLevel :=
  [LevelMinimal; LevelLow; LevelMedium; LevelHigh; LevelXHigh; LevelMax].

Definition isLevelSupported (level : string) (supported : list string) : bool :=
  existsb (fun s => equal_fold level (trim_space s)) supported.

Fixpoint index_of (level : string) (i : Z) (order : list string) : Z :=
  match order with
  | [] => -1
  | l :: rest => if equal_fold level l then i else index_of level (i + 1) rest
  end.
Definition levelIndex (level : string) : Z := index_of level 0 standardLevelOrder.

Definition standardLevel (i : Z) : ThinkingLevel :=
  default "" (standardLevelOrder !! Z.to_nat i).

Definition lowest_step (bestIdx : Z) (s : string) : Z :=
  let idx := levelIndex (trim_space s) in
  if negb (idx =? -1) && ((bestIdx =? -1) || (idx <? bestIdx)) then idx else bestIdx.

Definition lowestSupportedLevel (supported : list string) : option ThinkingLevel :=
  let bestIdx := foldl lowest_step (-1) supported in
  if 0 <=? bestIdx then Some (standardLevel bestIdx) else None.

Definition abs (x : Z) : Z := if x <? 0 then wrap64 (- x) else x.

Definition clamp_step (pos : Z) (best : Z * Z) (s : string) : Z * Z :=
  let '(bestIdx, bestDist) := best in
  let idx := levelIndex (trim_space s) in
  if negb (idx =? -1) then
    let dist := abs (wrap64 (pos - idx)) in
    if (dist <? bestDist) || ((dist =? bestDist) && (idx <? bestIdx))
    then (idx, dist) else best
  else best.

Definition clampLevel (level : ThinkingLevel) (modelInfo : option ModelInfo) : ThinkingLevel :=
  let supported := match modelInfo with
                   | Some info => match Info_Thinking info with
                                  | Some support => Levels support
                                  | None => []
                                  end
                   | None => []
                   end in
  if is_nil supported || isLevelSupported level supported then level
  else
    let pos := levelIndex level in
    if pos =? -1 then level
    else
      let '(bestIdx, _) :=
        foldl (clamp_step pos) (-1, Z.of_nat (length standardLevelOrder) + 1) supported in
      if 0 <=? bestIdx then standardLevel bestIdx else level.

Definition clampBudget (value : Z) (modelInfo : option ModelInfo) : Z :=
  match modelInfo ≫= Info_Thinking with
  | None => value
  | Some support =>
      if value =? -1 then value
      else
        let min := Min support in
        let max := Max support in
        if (value =? 0) && negb (ZeroAllowed support) then min
        else if (min =? 0) && (max =? 0) then value
        else if value <? min then
          if (value =? 0) && ZeroAllowed support then 0 else min
        else if max <? value then max
        else value
  end.

Definition normalizeLevels (levels : list string) : list string :=
  map (fun l => to_lower (trim_space l)) levels.

Definition str_in (l : list string) (s : string) : bool := existsb (String.eqb s) l.

Definition isBudgetCapableProvider : string → bool :=
  str_in ["gemini"; "antigravity"; "claude"].
Definition isGeminiFamily : string → bool := str_in ["gemini"; "antigravity"].
Definition isOpenAIFamily : string → bool := str_in ["openai"; "openai-response"; "codex"].
Definition isKnownProviderFamily : string → bool :=
  str_in ["gemini"; "antigravity"; "claude"; "openai"; "openai-response"; "codex"; "kimi";
          "kimi-ai"; "kimi.ai"; "kimi.com"; "xai"; "interactions"; "devin"].
Definition isSameProviderFamily (from to : string) : bool :=
  if String.eqb from to then true
  else (isGeminiFamily from && isGeminiFamily to) || (isOpenAIFamily from && isOpenAIFamily to).

(** ** validate.go: ValidateConfig

    The function is the composition of the stages below, in this order; each
    takes the configuration the previous one left. *)

Definition convertAutoToMidRange (config : ThinkingConfig) (support : ThinkingSupport) :
    ThinkingConfig :=
  if negb (is_nil (Levels support)) && (Min support =? 0) && (Max support =? 0) then
    config <| Mode := ModeLevel |> <| Level := LevelMedium |> <| Budget := 0 |>
  else
    let mid := Z.quot (wrap64 (Min support + Max support)) 2 in
    if (mid <=? 0) && ZeroAllowed support then config <| Mode := ModeNone |> <| Budget := 0 |>
    else if mid <=? 0 then config <| Mode := ModeBudget |> <| Budget := Min support |>
    else config <| Mode := ModeBudget |> <| Budget := mid |>.

(** The conversion between budgets and levels the capability asks for; the
    boolean is [budgetDerivedFromLevel]. *)
Definition convert_capability (config : ThinkingConfig) (modelInfo : option ModelInfo) :
    outcome ThinkingError (ThinkingConfig * bool) :=
  match detectModelCapability modelInfo with
  | CapabilityBudgetOnly =>
      if mode_is (Mode config) ModeLevel then
        if String.eqb (Level config) LevelAuto then Ok (config, false)
        else match ConvertLevelToBudget (Level config) with
             | None => Err (NewThinkingError ErrUnknownLevel (UnknownLevel (Level config)))
             | Some budget =>
                 Ok (config <| Mode := ModeBudget |> <| Budget := budget |> <| Level := "" |>,
                     true)
             end
      else Ok (config, false)
  | CapabilityLevelOnly =>
      if mode_is (Mode config) ModeBudget then
        match ConvertBudgetToLevel (Budget config) with
        | None => Err (NewThinkingError ErrUnknownLevel (BudgetNotConvertible (Budget config)))
        | Some level =>
            Ok (config <| Mode := ModeLevel |> <| Level := clampLevel level modelInfo |>
                       <| Budget := 0 |>, false)
        end
      else Ok (config, false)
  | CapabilityUnknown | CapabilityNone | CapabilityHybrid => Ok (config, false)
  end.

Definition normalize_none (config : ThinkingConfig) : ThinkingConfig :=
  if mode_is (Mode config) ModeLevel && String.eqb (Level config) LevelNone
  then config <| Mode := ModeNone |> <| Budget := 0 |> <| Level := "" |> else config.
Definition normalize_auto (config : ThinkingConfig) : ThinkingConfig :=
  if mode_is (Mode config) ModeLevel && String.eqb (Level config) LevelAuto
  then config <| Mode := ModeAuto |> <| Budget := -1 |> <| Level := "" |> else config.
Definition normalize_zero (config : ThinkingConfig) : ThinkingConfig :=
  if mode_is (Mode config) ModeBudget && (Budget config =? 0)
  then config <| Mode := ModeNone |> <| Level := "" |> else config.
Definition normalize_special (config : ThinkingConfig) : ThinkingConfig :=
  normalize_zero (normalize_auto (normalize_none config)).

Definition check_level (config : ThinkingConfig) (support : ThinkingSupport)
    (modelInfo : option ModelInfo) (allowClampUnsupported : bool) :
    outcome ThinkingError ThinkingConfig :=
  if negb (is_nil (Levels support)) && mode_is (Mode config) ModeLevel
     && negb (isLevelSupported (Level config) (Levels support)) then
    let config := if allowClampUnsupported
                  then config <| Level := clampLevel (Level config) modelInfo |>
                  else config in
    if negb (isLevelSupported (Level config) (Levels support)) then
      Err (NewThinkingError ErrLevelNotSupported
             (LevelNotInList (to_lower (Level config)) (normalizeLevels (Levels support))))
    else Ok config
  else Ok config.

Definition check_budget (config : ThinkingConfig) (support : ThinkingSupport)
    (strictBudget budgetDerivedFromLevel : bool) : outcome ThinkingError ThinkingConfig :=
  if strictBudget && mode_is (Mode config) ModeBudget && negb budgetDerivedFromLevel then
    let min := Min support in
    let max := Max support in
    if negb (min =? 0) || negb (max =? 0) then
      if (Budget config <? min) || (max <? Budget config)
         || ((Budget config =? 0) && negb (ZeroAllowed support))
      then Err (NewThinkingError ErrBudgetOutOfRange (BudgetNotInRange (Budget config) min max))
      else Ok config
    else Ok config
  else Ok config.

Definition resolve_auto (config : ThinkingConfig) (support : ThinkingSupport)
    (modelInfo : option ModelInfo) : ThinkingConfig :=
  if mode_is (Mode config) ModeAuto && negb (DynamicAllowed support) then
    let config := convertAutoToMidRange config support in
    if mode_is (Mode config) ModeLevel && negb (is_nil (Levels support))
       && negb (isLevelSupported (Level config) (Levels support))
    then config <| Level := clampLevel (Level config) modelInfo |>
    else config
  else config.

Definition finish_config (config : ThinkingConfig) (support : ThinkingSupport)
    (modelInfo : option ModelInfo) (toFormat : string) : ThinkingConfig :=
  if mode_is (Mode config) ModeNone && String.eqb toFormat "claude" then
    if negb (ZeroAllowed support) then
      match lowestSupportedLevel (Levels support) with
      | Some lowest =>
          config <| Mode := ModeLevel |> <| Budget := 0 |> <| Level := lowest |>
      | None => config <| Budget := 0 |> <| Level := "" |>
      end
    else config <| Budget := 0 |> <| Level := "" |>
  else
    let config := match Mode config with
                  | ModeBudget | ModeAuto | ModeNone =>
                      config <| Budget := clampBudget (Budget config) modelInfo |>
                  | ModeLevel => config
                  end in
    let cannotDisableLevelModel :=
      negb (ZeroAllowed support) && negb (isLevelSupported LevelNone (Levels support)) in
    if mode_is (Mode config) ModeNone && negb (is_nil (Levels support))
       && ((0 <? Budget config) || cannotDisableLevelModel) then
      match lowestSupportedLevel (Levels support) with
      | Some lowest => config <| Level := lowest |>
      | None => config
      end
    else config.

(** [modelFamilyMismatch], [allowClampUnsupported] and [strictBudget]. *)
Definition model_family_mismatch (info : ModelInfo) (fromFormat toFormat : string) : bool :=
  let modelType := to_lower (trim_space (Info_Type info)) in
  isKnownProviderFamily modelType
  && ((negb (String.eqb fromFormat "") && negb (isSameProviderFamily fromFormat modelType))
      || (negb (String.eqb toFormat "") && negb (isSameProviderFamily toFormat modelType))).

Definition allow_clamp (info : ModelInfo) (fromFormat toFormat : string) : bool :=
  let toHasLevelSupport := match detectModelCapability (Some info) with
                           | CapabilityLevelOnly | CapabilityHybrid => true
                           | _ => false
                           end in
  toHasLevelSupport
  && (negb (isSameProviderFamily fromFormat toFormat)
      || model_family_mismatch info fromFormat toFormat).

Definition strict_budget (info : ModelInfo) (fromFormat toFormat : string) (fromSuffix : bool) :
    bool :=
  negb fromSuffix && negb (String.eqb fromFormat "") && isSameProviderFamily fromFormat toFormat
  && negb (model_family_mismatch info fromFormat toFormat).

Definition validate_supported (config : ThinkingConfig) (info : ModelInfo)
    (support : ThinkingSupport) (fromFormat toFormat : string) (fromSuffix : bool) :
    outcome ThinkingError ThinkingConfig :=
  let! (config, derived) := convert_capability config (Some info) in
  let! config := check_level (normalize_special config) support (Some info)
                   (allow_clamp info fromFormat toFormat) in
  let! config := check_budget config support
                   (strict_budget info fromFormat toFormat fromSuffix) derived in
  Ok (finish_config (resolve_auto config support (Some info)) support (Some info) toFormat).

Definition ValidateConfig (config : ThinkingConfig) (modelInfo : option ModelInfo)
    (fromFormat toFormat : string) (fromSuffix : bool) : outcome ThinkingError ThinkingConfig :=
  let fromFormat := to_lower (trim_space fromFormat) in
  let toFormat := to_lower (trim_space toFormat) in
  let model := match modelInfo with
               | Some info => if String.eqb (Info_ID info) "" then "unknown" else Info_ID info
               | None => "unknown"
               end in
  match modelInfo with
  | Some info =>
      match Info_Thinking info with
      | Some support => validate_supported config info support fromFormat toFormat fromSuffix
      | None =>
          if mode_is (Mode config) ModeNone then Ok config
          else Err (NewThinkingErrorWithModel ErrThinkingNotSupported NotSupportedForModel model)
      end
  | None =>
      if mode_is (Mode config) ModeNone then Ok config
      else Err (NewThinkingErrorWithModel ErrThinkingNotSupported NotSupportedForModel model)
  end.

(** ** apply.go: configurations *)

Definition thinkingIsFullyDisabled (config : ThinkingConfig) : bool :=
  mode_is (Mode config) ModeNone && (Budget config =? 0) && String.eqb (Level config) "".
Definition thinkingRequestedOff (config : ThinkingConfig) : bool :=
  mode_is (Mode config) ModeNone || (mode_is (Mode config) ModeBudget && (Budget config =? 0)).

Definition config_of (m : ThinkingMode) (b : Z) (l : ThinkingLevel) : ThinkingConfig :=
  {| Mode := m; Budget := b; Level := l |}.
Definition zero_config : ThinkingConfig := config_of ModeBudget 0 "".

Definition hasThinkingConfig (config : ThinkingConfig) : bool :=
  negb (mode_is (Mode config) ModeBudget) || negb (Budget config =? 0)
  || negb (String.eqb (Level config) "").

Definition parseSuffixToConfig (rawSuffix : string) : ThinkingConfig :=
  let levels_then_number :=
    match ParseLevelSuffix rawSuffix with
    | Some level => config_of ModeLevel 0 level
    | None =>
        match ParseNumericSuffix rawSuffix with
        | Some budget =>
            if budget =? 0 then config_of ModeNone 0 "" else config_of ModeBudget budget ""
        | None => zero_config
        end
    end in
  match ParseSpecialSuffix rawSuffix with
  | Some ModeNone => config_of ModeNone 0 ""
  | Some ModeAuto => config_of ModeAuto (-1) ""
  | _ => levels_then_number
  end.

Definition HasThinkingSuffix (model : string) : bool :=
  let result := ParseSuffix model in
  HasSuffix result && hasThinkingConfig (parseSuffixToConfig (RawSuffix result)).

Definition shouldMapConfiguredHighIntent (fromFormat toFormat : string)
    (modelInfo : option ModelInfo) : bool :=
  let fromFormat := to_lower (trim_space fromFormat) in
  let toFormat := to_lower (trim_space toFormat) in
  if negb (String.eqb fromFormat toFormat) then true
  else match modelInfo with
       | None => false
       | Some info =>
           let modelType := to_lower (trim_space (Info_Type info)) in
           negb (String.eqb modelType "") && negb (isSameProviderFamily toFormat modelType)
       end.

Definition mapConfiguredHighIntent (level : ThinkingLevel) (modelInfo : option ModelInfo) :
    ThinkingLevel :=
  match modelInfo ≫= Info_Thinking with
  | None => level
  | Some support =>
      if is_nil (Levels support) then level
      else
        let level := to_lower (trim_space level) in
        let pick candidates :=
          default level
            (head (List.filter (fun c => isLevelSupported c (Levels support)) candidates)) in
        if String.eqb level LevelXHigh then pick [LevelXHigh; LevelMax; LevelHigh]
        else if String.eqb level LevelMax then pick [LevelMax; LevelXHigh; LevelHigh]
        else level
  end.

Definition normalizeUserDefinedConfig (config : ThinkingConfig) (toFormat : string) :
    ThinkingConfig :=
  if negb (mode_is (Mode config) ModeLevel) then config
  else if String.eqb toFormat "claude" then config
  else if negb (isBudgetCapableProvider toFormat) then config
  else match ConvertLevelToBudget (Level config) with
       | None => config
       | Some budget => config <| Mode := ModeBudget |> <| Budget := budget |> <| Level := "" |>
       end.

Definition reasoningEffortFromConfig (config : ThinkingConfig) : string :=
  if negb (hasThinkingConfig config) then ""
  else match Mode config with
       | ModeNone => LevelNone
       | ModeAuto => LevelAuto
       | ModeLevel => to_lower (trim_space (Level config))
       | ModeBudget => default "" (ConvertBudgetToLevel (Budget config))
       end.

Definition reasoningEffortFromSuffix (suffix : SuffixResult) : string :=
  if negb (HasSuffix suffix) then ""
  else reasoningEffortFromConfig (parseSuffixToConfig (RawSuffix suffix)).

(** ** apply.go: reading a configuration from a request body

    The JSON library is third-party code: a body is the function that looks a
    path up, and a result is what the code asks of it ([Exists], [Type ==
    String], [String()], [Int()]). *)
Record json_result : Type := {
  Exists : bool;
  IsString : bool;
  Str : string;
  Int : Z;
}.

Section Extract.
Context (get : string → json_result).

(** The three-way reading of a level name that the extractors share. *)
Definition level_config (value : string) : ThinkingConfig :=
  if String.eqb value "none" then config_of ModeNone 0 ""
  else if String.eqb value "auto" then config_of ModeAuto (-1) ""
  else config_of ModeLevel 0 value.
Definition budget_config (value : Z) : ThinkingConfig :=
  if value =? 0 then config_of ModeNone 0 ""
  else if value =? -1 then config_of ModeAuto (-1) ""
  else config_of ModeBudget value "".

Definition extractClaudeConfigFromGetter : ThinkingConfig :=
  let thinkingType := Str (get "thinking.type") in
  let effort := get "output_config.effort" in
  let value := to_lower (trim_space (Str effort)) in
  if String.eqb thinkingType "disabled" then config_of ModeNone 0 ""
  else if negb (Exists (get "thinking")) || String.eqb thinkingType "adaptive"
          || String.eqb thinkingType "auto" then
    if Exists effort && IsString effort then
      if String.eqb value "" then zero_config else level_config value
    else zero_config
  else
    let budget := get "thinking.budget_tokens" in
    if Exists budget then budget_config (Int budget)
    else if String.eqb thinkingType "enabled" then
      if Exists effort && IsString effort && negb (String.eqb value "") then level_config value
      else config_of ModeAuto (-1) ""
    else zero_config.

Definition extractGeminiConfigFromGetter (provider : string) : ThinkingConfig :=
  let prefix := if String.eqb provider "antigravity"
                then "request.generationConfig.thinkingConfig"
                else "generationConfig.thinkingConfig" in
  let level := get (prefix +:+ ".thinkingLevel") in
  let level := if Exists level then level else get (prefix +:+ ".thinking_level") in
  if Exists level then level_config (Str level)
  else
    let budget := get (prefix +:+ ".thinkingBudget") in
    let budget := if Exists budget then budget else get (prefix +:+ ".thinking_budget") in
    if Exists budget then budget_config (Int budget) else zero_config.

Definition first_existing (paths : list string) : option json_result :=
  head (List.filter Exists (map get paths)).

Definition extractInteractionsConfigFromGetter : ThinkingConfig :=
  match first_existing
          ["generation_config.thinking_level"; "generation_config.thinkingLevel";
           "generation_config.thinking_config.thinking_level";
           "generation_config.thinking_config.thinkingLevel";
           "generation_config.thinkingConfig.thinking_level";
           "generation_config.thinkingConfig.thinkingLevel"] with
  | Some level => level_config (to_lower (trim_space (Str level)))
  | None =>
      match first_existing
              ["generation_config.thinking_budget"; "generation_config.thinkingBudget";
               "generation_config.thinking_config.thinking_budget";
               "generation_config.thinking_config.thinkingBudget";
               "generation_config.thinkingConfig.thinking_budget";
               "generation_config.thinkingConfig.thinkingBudget"] with
      | Some budget => budget_config (Int budget)
      | None => zero_config
      end
  end.

Definition extractOpenAIConfigFromGetter : ThinkingConfig :=
  let effort := get "reasoning_effort" in
  if Exists effort then
    if String.eqb (Str effort) "none" then config_of ModeNone 0 ""
    else config_of ModeLevel 0 (Str effort)
  else zero_config.

Definition extractKimiConfigFromGetter : ThinkingConfig :=
  let thinkingType := get "thinking.type" in
  let effort := get "thinking.effort" in
  let kind := to_lower (trim_space (Str thinkingType)) in
  if Exists thinkingType && String.eqb kind "disabled" then config_of ModeNone 0 ""
  else if Exists thinkingType && String.eqb kind "enabled" && negb (Exists effort)
  then zero_config
  else if Exists effort then
    let value := to_lower (trim_space (Str effort)) in
    if String.eqb value "" then zero_config else level_config value
  else if Exists thinkingType then zero_config
  else extractOpenAIConfigFromGetter.

Definition extractCodexConfigFromGetter : ThinkingConfig :=
  let effort := get "reasoning.effort" in
  if Exists effort then
    if String.eqb (Str effort) "none" then config_of ModeNone 0 ""
    else config_of ModeLevel 0 (Str effort)
  else zero_config.

Definition extractThinkingConfigFromGetter (provider : string) : ThinkingConfig :=
  if String.eqb provider "claude" then extractClaudeConfigFromGetter
  else if str_in ["gemini"; "antigravity"] provider then extractGeminiConfigFromGetter provider
  else if String.eqb provider "interactions" then extractInteractionsConfigFromGetter
  else if String.eqb provider "openai" then extractOpenAIConfigFromGetter
  else if str_in ["codex"; "xai"] provider then extractCodexConfigFromGetter
  else if str_in ["kimi"; "kimi-ai"; "kimi.ai"; "kimi.com"] provider
  then extractKimiConfigFromGetter
  else zero_config.
End Extract.

(** ** Suffixes *)

Abbreviation str1 c := (String c EmptyString).

Lemma prefix_one c s : String.prefix (str1 c) s = true → ∃ t, s = String c t.
Proof.
  destruct s as [|a t]; simpl; [done|]. destruct (ascii_dec c a) as [->|]; [|done]. eauto.
Qed.

Lemma has_suffix_app s c : has_suffix (s +:+ str1 c) (str1 c) = true.
Proof.
  unfold has_suffix. rewrite srev_app. simpl.
  destruct (ascii_dec c c); [|done]. by destruct (srev s).
Qed.

Lemma drop_last_app s c : drop_last (s +:+ str1 c) = s.
Proof.
  induction s as [|a s IH]; simpl; [done|]. rewrite IH.
  by destruct s as [|b s].
Qed.

Lemma has_suffix_inv s c :
  has_suffix s (str1 c) = true → s = drop_last s +:+ str1 c.
Proof.
  unfold has_suffix. intros H. apply prefix_one in H as [t Ht].
  assert (Hs : s = srev t +:+ str1 c).
  { rewrite <- (srev_involutive s), Ht. done. }
  rewrite Hs at 2. rewrite drop_last_app. done.
Qed.

Lemma has_suffix_tail s a t c :
  a ≠ c → has_suffix (s +:+ String a t) (str1 c) = true → has_suffix t (str1 c) = true.
Proof.
  intros Hac. unfold has_suffix. rewrite srev_app. simpl. rewrite <- sapp_assoc. simpl.
  destruct (srev t) as [|b u]; simpl.
  - destruct (ascii_dec c a); [congruence|done].
  - destruct (ascii_dec c b); [|done]. by destruct u.
Qed.

Lemma has_byte_app c s t : has_byte c (s +:+ t) = has_byte c s || has_byte c t.
Proof. induction s as [|a s IH]; simpl; [done|]. by rewrite IH, orb_assoc. Qed.

Definition suffixed (name raw : string) : string := name +:+ "(" +:+ raw +:+ ")".

Lemma ParseSuffix_suffixed name raw :
  has_byte "("%char raw = false →
  ParseSuffix (suffixed name raw) = {| ModelName := name; HasSuffix := true; RawSuffix := raw |}.
Proof.
  intros Hraw. unfold ParseSuffix, suffixed. simpl.
  rewrite split_last_app by (by rewrite has_byte_app, Hraw).
  change (String "(" (raw +:+ ")")) with (("(" +:+ raw) +:+ ")").
  rewrite sapp_assoc, has_suffix_app. simpl. by rewrite drop_last_app.
Qed.

Lemma ParseSuffix_inv model :
  HasSuffix (ParseSuffix model) = true →
  model = suffixed (ModelName (ParseSuffix model)) (RawSuffix (ParseSuffix model))
  ∧ has_byte "("%char (RawSuffix (ParseSuffix model)) = false.
Proof.
  unfold ParseSuffix. destruct (split_last _ model) as [[pre post]|] eqn:E; [|done].
  destruct (has_suffix model ")") eqn:Hs; [|done]. simpl. intros _.
  pose proof (split_last_spec _ _ _ _ E) as Hm. pose proof (split_last_post _ _ _ _ E) as Hp.
  rewrite Hm in Hs. apply has_suffix_tail in Hs; [|done].
  apply has_suffix_inv in Hs.
  split; [|rewrite Hs, has_byte_app in Hp; by apply orb_false_iff in Hp as [? _]].
  rewrite Hm. unfold suffixed. simpl. by rewrite <- Hs.
Qed.

Lemma ParseSuffix_no_suffix model :
  HasSuffix (ParseSuffix model) = false →
  ModelName (ParseSuffix model) = model ∧ RawSuffix (ParseSuffix model) = "".
Proof. unfold ParseSuffix. repeat case_match; done. Qed.

(** Parsing a model name and printing it back are inverse: a name with a
    suffix parses to its parts, what is parsed as a suffix spells the input
    again, and a name without suffix is left alone. *)
Theorem ParseSuffix_roundtrip :
  (∀ name raw, has_byte "("%char raw = false →
     ParseSuffix (suffixed name raw)
     = {| ModelName := name; HasSuffix := true; RawSuffix := raw |})
  ∧ (∀ model, HasSuffix (ParseSuffix model) = true →
       model = suffixed (ModelName (ParseSuffix model)) (RawSuffix (ParseSuffix model)))
  ∧ (∀ model, HasSuffix (ParseSuffix model) = false →
       ParseSuffix model = {| ModelName := model; HasSuffix := false; RawSuffix := "" |}).
Proof.
  split; [exact ParseSuffix_suffixed|]. split; [intros m Hm; by apply ParseSuffix_inv|].
  intros m Hm. pose proof (ParseSuffix_no_suffix m Hm) as [H1 H2].
  destruct (ParseSuffix m) as [n h r]. simpl in *. by subst.
Qed.

(** ** Levels *)

Lemma levelIndex_cases l :
  (levelIndex l = -1 ∧ ∀ i, 0 ≤ i ≤ 5 → equal_fold l (standardLevel i) = false)
  ∨ (0 ≤ levelIndex l ≤ 5 ∧ equal_fold l (standardLevel (levelIndex l)) = true).
Proof.
  unfold levelIndex, standardLevelOrder, index_of.
  repeat case_if; try (right; split; [lia|done]).
  left. split; [done|]. intros i Hi.
  assert (i = 0 ∨ i = 1 ∨ i = 2 ∨ i = 3 ∨ i = 4 ∨ i = 5) as Hc by lia.
  by destruct Hc as [->|[->|[->|[->|[->| ->]]]]].
Qed.

Lemma levelIndex_range l : -1 ≤ levelIndex l ≤ 5.
Proof. destruct (levelIndex_cases l) as [[-> _]|[? _]]; lia. Qed.

Lemma levelIndex_standard i : 0 ≤ i ≤ 5 → levelIndex (standardLevel i) = i.
Proof.
  intros Hi. assert (i = 0 ∨ i = 1 ∨ i = 2 ∨ i = 3 ∨ i = 4 ∨ i = 5) as Hc by lia.
  by destruct Hc as [->|[->|[->|[->|[->| ->]]]]].
Qed.

Lemma levelIndex_equal_fold a b : equal_fold a b = true → levelIndex a = levelIndex b.
Proof.
  intros H. unfold levelIndex, index_of, standardLevelOrder.
  by rewrite !(equal_fold_cong _ _ _ H).
Qed.

(** The position of a listed level: -1 when it is no standard level. *)
Definition pos_of (s : string) : Z := levelIndex (trim_space s).

Lemma isLevelSupported_elem l ls s :
  s ∈ ls → equal_fold l (trim_space s) = true → isLevelSupported l ls = true.
Proof.
  intros Hs He. unfold isLevelSupported. apply existsb_exists. exists s.
  by rewrite <- list_elem_of_In.
Qed.

Lemma standardLevel_supported s ls :
  s ∈ ls → 0 ≤ pos_of s → isLevelSupported (standardLevel (pos_of s)) ls = true.
Proof.
  intros Hs Hp. apply (isLevelSupported_elem _ _ s Hs).
  destruct (levelIndex_cases (trim_space s)) as [[Hn _]|[_ He]].
  - unfold pos_of in Hp. lia.
  - unfold pos_of. by rewrite equal_fold_sym.
Qed.

(** [lowestSupportedLevel] is the minimum. *)
Lemma lowest_fold ls b :
  -1 ≤ b →
  let r := foldl lowest_step b ls in
  -1 ≤ r
  ∧ (r = b ∨ ∃ s, s ∈ ls ∧ pos_of s = r)
  ∧ (r = -1 → b = -1 ∧ ∀ s, s ∈ ls → pos_of s = -1)
  ∧ (0 ≤ b → r ≤ b) ∧ (∀ s, s ∈ ls → 0 ≤ pos_of s → r ≤ pos_of s).
Proof.
  revert b. induction ls as [|s ls IH]; intros b Hb; simpl.
  - split_and!; try set_solver; lia.
  - pose proof (levelIndex_range (trim_space s)) as Hr.
    assert (Hb' : -1 ≤ lowest_step b s) by (unfold lowest_step; case_if; lia).
    destruct (IH _ Hb') as (H1 & H2 & H3 & H4 & H5).
    assert (Hcase : lowest_step b s = pos_of s ∧ (b = -1 ∨ pos_of s < b) ∧ pos_of s ≠ -1
                    ∨ lowest_step b s = b ∧ (pos_of s = -1 ∨ b ≠ -1 ∧ b ≤ pos_of s)).
    { unfold lowest_step. fold (pos_of s). clear.
      destruct (pos_of s =? -1) eqn:E1, (b =? -1) eqn:E2, (pos_of s <? b) eqn:E3; simpl;
        bprop; lia. }
    fold (pos_of s) in Hr.
    generalize dependent (lowest_step b s). intros b' Hb' H1 H2 H3 H4 H5 Hcase.
    set (r := foldl lowest_step b' ls) in *. clearbody r. clear IH.
    split_and!; [lia| | |lia|].
    + destruct H2 as [H2|(s' & ? & ?)]; [|right; exists s'; set_solver].
      destruct Hcase as [(Hc & _)|(Hc & _)]; [right; exists s; set_solver|left; congruence].
    + intros Hr1. destruct (H3 Hr1) as [H6 H7]. split; [lia|].
      intros s' [->|Hs']%elem_of_cons; [lia|by apply H7].
    + intros s' [->|Hs']%elem_of_cons Hp; [lia|by apply H5].
Qed.

Lemma lowestSupportedLevel_some ls l :
  lowestSupportedLevel ls = Some l →
  isLevelSupported l ls = true ∧ 0 ≤ levelIndex l
  ∧ ∀ s, s ∈ ls → 0 ≤ pos_of s → levelIndex l ≤ pos_of s.
Proof.
  unfold lowestSupportedLevel. destruct (lowest_fold ls (-1)) as (_ & H2 & _ & _ & H5); [lia|].
  set (r := foldl lowest_step (-1) ls) in *. case_if; [|done]. intros [= <-]. bprop.
  destruct H2 as [H2|(s & Hs & Hr)]; [lia|].
  pose proof (levelIndex_range (trim_space s)) as Hrange. unfold pos_of in Hr.
  rewrite levelIndex_standard by lia. split_and!; [|lia|done].
  rewrite <- Hr. apply standardLevel_supported; [done|]. unfold pos_of. lia.
Qed.

Lemma lowestSupportedLevel_none ls s :
  lowestSupportedLevel ls = None → s ∈ ls → pos_of s = -1.
Proof.
  unfold lowestSupportedLevel. destruct (lowest_fold ls (-1)) as (H1 & _ & H3 & _); [lia|].
  case_if; [done|]. bprop. intros _. apply H3. lia.
Qed.

(** [clampLevel] picks the nearest listed level, the lower one on a tie. *)
Definition closer (pos i j : Z) : Prop :=
  Z.abs (pos - i) < Z.abs (pos - j) ∨ Z.abs (pos - i) = Z.abs (pos - j) ∧ i ≤ j.

Definition clamp_inv (pos : Z) (best : Z * Z) : Prop :=
  (best.1 = -1 ∧ best.2 = 7) ∨ (0 ≤ best.1 ≤ 5 ∧ best.2 = Z.abs (pos - best.1)).

Lemma clamp_step_spec pos best s :
  0 ≤ pos ≤ 5 → clamp_inv pos best →
  clamp_inv pos (clamp_step pos best s)
  ∧ (clamp_step pos best s = best ∨ (clamp_step pos best s).1 = pos_of s ∧ 0 ≤ pos_of s)
  ∧ (0 ≤ pos_of s → closer pos (clamp_step pos best s).1 (pos_of s)
                    ∧ 0 ≤ (clamp_step pos best s).1)
  ∧ (0 ≤ best.1 → closer pos (clamp_step pos best s).1 best.1
                  ∧ 0 ≤ (clamp_step pos best s).1).
Proof.
  intros Hp Hb. destruct best as [bi bd]. unfold clamp_step. fold (pos_of s).
  pose proof (levelIndex_range (trim_space s)) as Hr. fold (pos_of s) in Hr.
  generalize dependent (pos_of s). intros q Hr.
  assert (Ha : abs (wrap64 (pos - q)) = Z.abs (pos - q)).
  { rewrite wrap64_small by (unfold in_int64, min_int64, max_int64; lia).
    unfold abs. case_if; bprop; [|lia]. rewrite wrap64_small; [lia|].
    unfold in_int64, min_int64, max_int64; lia. }
  rewrite Ha. unfold clamp_inv, closer in *. simpl in *.
  destruct (q =? -1) eqn:E1, (Z.abs (pos - q) <? bd) eqn:E2, (Z.abs (pos - q) =? bd) eqn:E3,
    (q <? bi) eqn:E4; simpl; bprop; split_and!; try (left; done); try (right; done); lia.
Qed.

Lemma clamp_fold pos ls best :
  0 ≤ pos ≤ 5 → clamp_inv pos best →
  let r := foldl (clamp_step pos) best ls in
  (r = best ∨ ∃ s, s ∈ ls ∧ pos_of s = r.1 ∧ 0 ≤ r.1)
  ∧ (∀ s, s ∈ ls → 0 ≤ pos_of s → closer pos r.1 (pos_of s) ∧ 0 ≤ r.1)
  ∧ (0 ≤ best.1 → closer pos r.1 best.1 ∧ 0 ≤ r.1).
Proof.
  intros Hp. revert best. induction ls as [|s ls IH]; intros best Hb; simpl.
  - split_and!; [by left|set_solver|]. unfold closer. lia.
  - destruct (clamp_step_spec pos best s Hp Hb) as (H1 & H2 & H3 & H4).
    destruct (IH _ H1) as (H5 & H6 & H7). unfold closer in *.
    set (r := foldl (clamp_step pos) (clamp_step pos best s) ls) in *. clearbody r.
    split_and!.
    + destruct H5 as [->|(s' & ? & ? & ?)]; [|right; exists s'; set_solver].
      destruct H2 as [->|[H2 ?]]; [by left|]. right. exists s. set_solver by lia.
    + intros s' [->|Hs']%elem_of_cons Hq; [lia|by apply H6].
    + lia.
Qed.

Definition info_levels (info : ModelInfo) : list string :=
  match Info_Thinking info with Some support => Levels support | None => [] end.

Lemma clampLevel_spec info level :
  0 ≤ levelIndex level → isLevelSupported level (info_levels info) = false →
  (∃ s, s ∈ info_levels info ∧ 0 ≤ pos_of s) →
  let l := clampLevel level (Some info) in
  isLevelSupported l (info_levels info) = true
  ∧ 0 ≤ levelIndex l
  ∧ ∀ s, s ∈ info_levels info → 0 ≤ pos_of s → closer (levelIndex level) (levelIndex l) (pos_of s).
Proof.
  intros Hl Hs (s0 & Hs0 & Hp0). unfold clampLevel. fold (info_levels info).
  destruct (is_nil (info_levels info)) eqn:E1.
  { destruct (info_levels info); [set_solver|done]. }
  rewrite Hs. simpl. destruct (levelIndex level =? -1) eqn:E2; bprop; [lia|].
  pose proof (levelIndex_range level) as Hr.
  destruct (clamp_fold (levelIndex level) (info_levels info) (-1, 7)) as (H1 & H2 & _);
    [lia|by left|].
  change (Z.of_nat 6 + 1) with 7.
  destruct (foldl (clamp_step (levelIndex level)) (-1, 7) (info_levels info)) as [bi bd].
  simpl in *. destruct (H2 _ Hs0 Hp0) as [_ Hb].
  destruct H1 as [H1|(s & Hs1 & Hq & _)]; [simplify_eq|].
  destruct (0 <=? bi) eqn:E3; bprop; [|lia].
  pose proof (levelIndex_range (trim_space s)) as Hr'. fold (pos_of s) in Hr'.
  rewrite levelIndex_standard by lia. rewrite <- Hq.
  split_and!; [by apply standardLevel_supported; [|lia]|lia|].
  intros s' Hs' Hp'. rewrite Hq. by apply H2.
Qed.

Lemma clampLevel_supported info level :
  isLevelSupported level (info_levels info) = true → clampLevel level (Some info) = level.
Proof. intros H. unfold clampLevel. fold (info_levels info). by rewrite H, orb_true_r. Qed.

Lemma standard_listed ls : lowestSupportedLevel ls ≠ None → ∃ s, s ∈ ls ∧ 0 ≤ pos_of s.
Proof.
  destruct (lowestSupportedLevel ls) as [l0|] eqn:El; [|done]. intros _.
  apply lowestSupportedLevel_some in El as (Hs0 & Hi0 & _).
  unfold isLevelSupported in Hs0. apply existsb_exists in Hs0 as (s & Hin & He).
  apply list_elem_of_In in Hin. apply levelIndex_equal_fold in He.
  exists s. unfold pos_of. split; [done|lia].
Qed.

Lemma clampLevel_in_list info level :
  0 ≤ levelIndex level → lowestSupportedLevel (info_levels info) ≠ None →
  isLevelSupported (clampLevel level (Some info)) (info_levels info) = true.
Proof.
  intros Hl Hlow. destruct (isLevelSupported level (info_levels info)) eqn:Es.
  - by rewrite (clampLevel_supported _ _ Es).
  - apply clampLevel_spec; [done..|]. by apply standard_listed.
Qed.

(** Clamping keeps a listed level, and takes any other standard level to
    the nearest listed one, the lower of two equally near. *)
Theorem clampLevel_nearest info level :
  0 ≤ levelIndex level → lowestSupportedLevel (info_levels info) ≠ None →
  let l := clampLevel level (Some info) in
  isLevelSupported l (info_levels info) = true
  ∧ (isLevelSupported level (info_levels info) = true → l = level)
  ∧ (isLevelSupported level (info_levels info) = false →
     ∀ s, s ∈ info_levels info → 0 ≤ levelIndex (trim_space s) →
       closer (levelIndex level) (levelIndex l) (levelIndex (trim_space s))).
Proof.
  intros Hl Hlow. split_and!.
  - by apply clampLevel_in_list.
  - apply clampLevel_supported.
  - intros Es. apply clampLevel_spec; [done..|]. by apply standard_listed.
Qed.

Lemma clampLevel_nearest_witness :
  let info := {| Info_ID := "m"; Info_Type := "";
                 Info_Thinking := Some {| Min := 0; Max := 0; ZeroAllowed := false;
                   DynamicAllowed := false; Levels := [" Low "; "MAX"] |} |} in
  clampLevel LevelMedium (Some info) = LevelLow
  ∧ closer (levelIndex LevelMedium) (levelIndex (clampLevel LevelMedium (Some info)))
      (levelIndex (trim_space "MAX")).
Proof.
  intros info. split; [reflexivity|].
  apply (clampLevel_nearest info LevelMedium); [done|done|reflexivity|set_solver|done].
Defined.

(** ** The contract of [ValidateConfig] *)

Lemma mode_is_true a b : mode_is a b = true ↔ a = b.
Proof. apply bool_decide_eq_true. Qed.
Lemma mode_is_refl a : mode_is a a = true.
Proof. by apply bool_decide_eq_true. Qed.
Lemma mode_is_false a b : mode_is a b = false ↔ a ≠ b.
Proof. apply bool_decide_eq_false. Qed.

(** What the stages establish step by step. *)
Record validated (support : ThinkingSupport) (c : ThinkingConfig) : Prop := {
  validated_level : Mode c = ModeLevel → Levels support ≠ [] →
    isLevelSupported (Level c) (Levels support) = true;
  validated_auto : Mode c = ModeAuto → DynamicAllowed support = true;
  validated_budget : Mode c = ModeBudget → Budget c ≠ 0 ∨ ZeroAllowed support = false;
}.

Lemma is_nil_false {A} (l : list A) : is_nil l = false ↔ l ≠ [].
Proof. by destruct l. Qed.

Lemma normalize_special_budget c :
  Mode (normalize_special c) = ModeBudget → Budget (normalize_special c) ≠ 0.
Proof.
  unfold normalize_special. generalize (normalize_auto (normalize_none c)). clear c. intros c.
  unfold normalize_zero. destruct (mode_is (Mode c) ModeBudget) eqn:E1; simpl.
  - destruct (Budget c =? 0) eqn:E2; simpl; [done|]. bprop. done.
  - intros H. apply mode_is_false in E1. done.
Qed.

Lemma check_level_ok c support mi b c' :
  check_level c support mi b = Ok c' →
  Mode c' = Mode c ∧ Budget c' = Budget c
  ∧ (Mode c' = ModeLevel → Levels support ≠ [] →
     isLevelSupported (Level c') (Levels support) = true).
Proof.
  unfold check_level. intros H.
  destruct (is_nil (Levels support)) eqn:E1; simpl in H.
  { simplify_eq. split_and!; [done|done|]. intros _ Hn. by apply is_nil_false in Hn; congruence. }
  destruct (mode_is (Mode c) ModeLevel) eqn:E2; simpl in H; [apply mode_is_true in E2|
    apply mode_is_false in E2; by simplify_eq].
  destruct (isLevelSupported (Level c) (Levels support)) eqn:E3; simpl in H; [by simplify_eq|].
  destruct b; case_if_in H; simplify_eq; simpl in *; bprop; done.
Qed.

Lemma check_budget_ok c support b1 b2 c' : check_budget c support b1 b2 = Ok c' → c' = c.
Proof. unfold check_budget. repeat case_match; congruence. Qed.

Lemma convertAuto_mode c support :
  let c' := convertAutoToMidRange c support in
  (Mode c' = ModeLevel ∧ Level c' = LevelMedium) ∨ Mode c' = ModeNone
  ∨ (Mode c' = ModeBudget ∧ (Budget c' ≠ 0 ∨ ZeroAllowed support = false)).
Proof.
  unfold convertAutoToMidRange. case_if; simpl; [by left|].
  destruct (Z.quot _ 2 <=? 0) eqn:E1, (ZeroAllowed support) eqn:E2; simpl; bprop; eauto.
  all: right; right; split; [done|]; eauto; left; lia.
Qed.

Lemma resolve_auto_ok info support c :
  Info_Thinking info = Some support →
  (Levels support ≠ [] → lowestSupportedLevel (Levels support) ≠ None) →
  (Mode c = ModeLevel → Levels support ≠ [] →
     isLevelSupported (Level c) (Levels support) = true) →
  (Mode c = ModeBudget → Budget c ≠ 0) →
  validated support (resolve_auto c support (Some info)).
Proof.
  intros Hs Hlow HL HB. unfold resolve_auto.
  destruct (mode_is (Mode c) ModeAuto) eqn:E1; simpl; last first.
  { apply mode_is_false in E1. split; [done|done|auto]. }
  apply mode_is_true in E1.
  destruct (DynamicAllowed support) eqn:E2; simpl; [split; congruence|].
  pose proof (convertAuto_mode c support) as Hc. simpl in Hc.
  set (c1 := convertAutoToMidRange c support) in *. clearbody c1.
  destruct Hc as [[Hm Hl]|[Hm|[Hm Hb]]]; rewrite Hm; simpl; [|split; congruence..|split; auto; congruence].
  assert (Hsup : Levels support ≠ [] →
                 isLevelSupported (clampLevel LevelMedium (Some info)) (Levels support) = true).
  { intros Hn. pose proof (clampLevel_in_list info LevelMedium) as Hcl.
    unfold info_levels in Hcl. rewrite Hs in Hcl. by apply Hcl; [|apply Hlow]. }
  case_if; simpl; split; simpl; try congruence; intros _ Hn; [rewrite Hl; by apply Hsup|].
  apply is_nil_false in Hn. rewrite Hn in E. simpl in E. bprop. exact E.
Qed.

Lemma clampBudget_spec info support v :
  Info_Thinking info = Some support → Min support ≤ Max support →
  v ≠ 0 ∨ ZeroAllowed support = false →
  Min support ≠ 0 ∨ Max support ≠ 0 →
  let b := clampBudget v (Some info) in b = -1 ∨ Min support ≤ b ≤ Max support.
Proof.
  intros Hs Hmm Hv Hr. unfold clampBudget. simpl. rewrite Hs.
  destruct (v =? -1) eqn:E0; bprop; [by left|].
  destruct (v =? 0) eqn:E1, (ZeroAllowed support) eqn:E2; simpl; bprop; try (right; lia);
    try (destruct Hv; congruence);
  destruct (Min support =? 0) eqn:E3, (Max support =? 0) eqn:E4; simpl; bprop; try lia;
    repeat case_if; bprop; right; lia.
Qed.

(** The contract: what a validated configuration satisfies. *)
Record contract (support : ThinkingSupport) (c : ThinkingConfig) : Prop := {
  contract_level : Mode c = ModeLevel → Levels support ≠ [] →
    isLevelSupported (Level c) (Levels support) = true;
  contract_auto : Mode c = ModeAuto → DynamicAllowed support = true;
  contract_budget : Mode c = ModeBudget → Min support ≤ Max support →
    Min support ≠ 0 ∨ Max support ≠ 0 →
    Budget c = -1 ∨ Min support ≤ Budget c ≤ Max support;
  contract_off : thinkingIsFullyDisabled c = true →
    ZeroAllowed support = true ∨ isLevelSupported LevelNone (Levels support) = true
    ∨ lowestSupportedLevel (Levels support) = None;
}.

Lemma lowest_level_nonempty ls l : lowestSupportedLevel ls = Some l → l ≠ "".
Proof. intros H ->. apply lowestSupportedLevel_some in H as (_ & H & _). by vm_compute in H. Qed.

Lemma lowest_levels_nonempty ls l : lowestSupportedLevel ls = Some l → ls ≠ [].
Proof. by intros H ->. Qed.

Lemma finish_config_ok info support c toFormat :
  Info_Thinking info = Some support → validated support c →
  contract support (finish_config c support (Some info) toFormat).
Proof.
  intros Hs [HL HA HB]. unfold finish_config, thinkingIsFullyDisabled.
  assert (Hlow : ∀ l, lowestSupportedLevel (Levels support) = Some l →
    l ≠ "" ∧ is_nil (Levels support) = false ∧ isLevelSupported l (Levels support) = true).
  { intros l Hl. split_and!; [by eapply lowest_level_nonempty| |by apply lowestSupportedLevel_some].
    apply is_nil_false. by eapply lowest_levels_nonempty. }
  destruct (Mode c) eqn:Em; simpl; rewrite ?Em; simpl.
  - split; unfold thinkingIsFullyDisabled; simpl; rewrite ?Em; try done. intros _ Hmm Hr.
    apply (clampBudget_spec _ _ _ Hs); auto.
  - split; unfold thinkingIsFullyDisabled; rewrite ?Em; auto; try done.
  - destruct (lowestSupportedLevel (Levels support)) as [l|] eqn:El.
    + destruct (Hlow _ eq_refl) as (Hne & Hnil & Hsup). rewrite Hnil. apply String.eqb_neq in Hne.
      destruct (String.eqb toFormat "claude"), (ZeroAllowed support) eqn:Ez,
        (isLevelSupported LevelNone (Levels support)) eqn:En; simpl;
      repeat case_if; split; unfold thinkingIsFullyDisabled; simpl; rewrite ?Em, ?Hne, ?andb_false_r;
        simpl; auto; try done.
      by rewrite orb_true_r in *.
    + destruct (String.eqb toFormat "claude"), (ZeroAllowed support) eqn:Ez; simpl;
      repeat case_if; split; unfold thinkingIsFullyDisabled; simpl; rewrite ?Em; simpl;
        auto; try done.
  - destruct (lowestSupportedLevel (Levels support)) as [l|] eqn:El; simpl;
    split; unfold thinkingIsFullyDisabled; simpl; rewrite ?Em; simpl; auto; try done.
Qed.

Lemma outcome_bind_ok {E A B} (o : outcome E A) (f : A → outcome E B) b :
  outcome_bind o f = Ok b → ∃ a, o = Ok a ∧ f a = Ok b.
Proof. destruct o; simpl; [eauto|done]. Qed.

Lemma validate_supported_ok info support config from to suffix c :
  Info_Thinking info = Some support →
  (Levels support ≠ [] → lowestSupportedLevel (Levels support) ≠ None) →
  validate_supported config info support from to suffix = Ok c →
  contract support c.
Proof.
  intros Hs Hlow H. unfold validate_supported in H.
  apply outcome_bind_ok in H as ([c1 d] & _ & H). cbv beta iota in H.
  apply outcome_bind_ok in H as (c2 & H2 & H). apply outcome_bind_ok in H as (c3 & H3 & H).
  injection H as <-. apply check_budget_ok in H3 as ->.
  apply check_level_ok in H2 as (Hm & Hb & Hl).
  apply finish_config_ok; [done|]. apply resolve_auto_ok; [done..|].
  rewrite Hm, Hb. apply normalize_special_budget.
Qed.

(** Whatever a caller asks for, a configuration [ValidateConfig] accepts is
    one the model takes: a level the model lists, the automatic mode only where
    the model allows it, a budget within the model's range (or the automatic
    -1), and no full disable for a model that cannot be disabled and lists a
    standard level.  An unknown model only takes the disabled mode. *)
Theorem ValidateConfig_contract config modelInfo fromFormat toFormat fromSuffix c :
  (∀ info support, modelInfo = Some info → Info_Thinking info = Some support →
     Levels support ≠ [] → lowestSupportedLevel (Levels support) ≠ None) →
  ValidateConfig config modelInfo fromFormat toFormat fromSuffix = Ok c →
  match modelInfo ≫= Info_Thinking with
  | Some support => contract support c
  | None => c = config ∧ Mode c = ModeNone
  end.
Proof.
  unfold ValidateConfig. intros Hlow H.
  destruct modelInfo as [info|]; simpl; [destruct (Info_Thinking info) as [support|] eqn:Es|].
  - by eapply validate_supported_ok; eauto.
  - case_if_in H; [|done]. apply mode_is_true in E. by simplify_eq.
  - case_if_in H; [|done]. apply mode_is_true in E. by simplify_eq.
Qed.

Definition sample_support : ThinkingSupport :=
  {| Min := 1024; Max := 32000; ZeroAllowed := false; DynamicAllowed := false;
     Levels := ["low"; "high"] |}.
Definition sample_info : ModelInfo :=
  {| Info_ID := "m"; Info_Type := "gemini"; Info_Thinking := Some sample_support |}.

Lemma ValidateConfig_contract_witness :
  ValidateConfig (config_of ModeBudget 99999 "") (Some sample_info) "claude" "gemini" false
  = Ok (config_of ModeBudget 32000 "")
  ∧ contract sample_support (config_of ModeBudget 32000 "").
Proof.
  assert (H : ValidateConfig (config_of ModeBudget 99999 "") (Some sample_info) "claude" "gemini"
                false = Ok (config_of ModeBudget 32000 "")) by reflexivity.
  split; [exact H|].
  refine (ValidateConfig_contract _ (Some sample_info) _ _ _ _ _ H).
  intros info support [= <-] [= <-] _. vm_compute. discriminate.
Defined.

(** ** Levels and budgets *)

(** The upper end of the range of budgets a positive budget is read as. *)
Definition budget_step (b : Z) : Z :=
  if b <=? ThresholdMinimal then 512 else if b <=? ThresholdLow then 1024
  else if b <=? ThresholdMedium then 8192 else if b <=? ThresholdHigh then 24576 else 32768.
Definition level_step (b : Z) : Z :=
  if b <=? ThresholdMinimal then 0 else if b <=? ThresholdLow then 1
  else if b <=? ThresholdMedium then 2 else if b <=? ThresholdHigh then 3 else 4.

Lemma ConvertBudgetToLevel_pos b :
  0 < b → ∃ l, ConvertBudgetToLevel b = Some l ∧ levelIndex l = level_step b
  ∧ ConvertLevelToBudget l = Some (budget_step b).
Proof.
  intros Hb. unfold ConvertBudgetToLevel, level_step, budget_step.
  destruct (b <? -1) eqn:E0, (b =? -1) eqn:E1, (b =? 0) eqn:E2; bprop; try lia.
  repeat case_if; eexists; split_and!; vm_compute; reflexivity.
Qed.

Lemma level_step_mono b1 b2 : b1 ≤ b2 → level_step b1 ≤ level_step b2.
Proof.
  unfold level_step, ThresholdMinimal, ThresholdLow, ThresholdMedium, ThresholdHigh.
  intros H. repeat case_if; bprop; lia.
Qed.

(** The two conversions agree: a larger budget never gives a lower level;
    up to the "high" threshold the level's own budget covers the one asked for;
    and a level read back from its budget is itself, except that "max" comes
    back as "xhigh". *)
Theorem budget_level_conversions :
  (∀ b1 b2 l1 l2, 0 < b1 → b1 ≤ b2 →
     ConvertBudgetToLevel b1 = Some l1 → ConvertBudgetToLevel b2 = Some l2 →
     levelIndex l1 ≤ levelIndex l2)
  ∧ (∀ b, 0 < b ≤ ThresholdHigh → ∃ l b', ConvertBudgetToLevel b = Some l
       ∧ ConvertLevelToBudget l = Some b' ∧ b ≤ b')
  ∧ (∀ b, ConvertBudgetToLevel b = None ↔ b < -1)
  ∧ map (fun l => ConvertLevelToBudget l ≫= ConvertBudgetToLevel)
        (LevelNone :: LevelAuto :: standardLevelOrder)
    = map Some [LevelNone; LevelAuto; LevelMinimal; LevelLow; LevelMedium; LevelHigh;
                LevelXHigh; LevelXHigh].
Proof.
  split_and!.
  - intros b1 b2 l1 l2 Hb1 Hb H1 H2.
    destruct (ConvertBudgetToLevel_pos b1 Hb1) as (k1 & Hk1 & Hi1 & _).
    destruct (ConvertBudgetToLevel_pos b2 ltac:(lia)) as (k2 & Hk2 & Hi2 & _).
    simplify_eq. rewrite Hi1, Hi2. by apply level_step_mono.
  - intros b [Hb1 Hb2]. destruct (ConvertBudgetToLevel_pos b Hb1) as (l & Hl & _ & Hc).
    exists l, (budget_step b). split_and!; [done|done|].
    unfold budget_step, ThresholdMinimal, ThresholdLow, ThresholdMedium, ThresholdHigh in *.
    repeat case_if; bprop; lia.
  - intros b. unfold ConvertBudgetToLevel. case_if; bprop; [done|].
    split; [|lia]. by repeat case_if.
  - vm_compute. reflexivity.
Qed.

End Thinking.
