(* ===== verification/ThinkingServed.v ===== *)
(** * What becomes of the thinking a request asks for

    From the body of a request in one of the wire formats to the configuration that the
    model is called with: extraction (apply.go) followed by validation (validate.go) of
    internal/thinking. *)
From S2P Require Import Prelude GoLib Thinking.
Import Thinking.

Module ThinkingServed.

(** ** What a request asks for *)



(** ** What is extracted *)


(** ** How it is served *)



Section Serving.
Context (info : ModelInfo) (support : ThinkingSupport) (from to : string).
Hypothesis Hinfo : Info_Thinking info = Some support.
Hypothesis Hrange : 0 ≤ Min support ≤ Max support.
Hypothesis Hlevels : Levels support ≠ [] → lowestSupportedLevel (Levels support) ≠ None.
Hypothesis Hfrom : to_lower (trim_space from) ≠ "".


(** The stages after conversion leave a level, and clamp a budget. *)
Lemma finish_level l : finish_config (resolve_auto (config_of ModeLevel 0 l) support (Some info)) support (Some info) (to_lower (trim_space to)) = config_of ModeLevel 0 l.
Proof. done. Qed.

(** ** Each wish is served *)



End Serving.


End ThinkingServed.
