(* ===== verification/AuthTypes.v ===== *)
(** * Credentials: sdk/cliproxy/auth/types.go, errors.go, status.go, classification.go

    The record of a credential ([Auth]) with its per-model states, its quota
    state, its ring of recent requests, the reading of token expiration times,
    and its classification.  Fields the modelled code never reads (storage
    handles, proxy settings) are left out.  A Go map with dynamic
    values is an association list with distinct keys. *)
From S2P Require Import Prelude GoLib.

Module AuthTypes.

(** ** Errors and status *)

Record Error : Type := {
  err_Code : string;
  err_Message : string;
  err_Retryable : bool;
  err_HTTPStatus : Z;
}.
#[global] Instance Error_eq_dec : EqDecision Error.
Proof. solve_decision. Defined.

Definition Error_StatusCode (e : option Error) : Z :=
  match e with Some e => err_HTTPStatus e | None => 0 end.

Definition ErrorCodeRequestScoped : string := "request_scoped".
Definition ErrorCodeConnectionLifecycle : string := "connection_lifecycle".
Definition ErrorCodeTransientTransport : string := "transient_transport".
Definition ErrorCodeForceCooldown : string := "force_cooldown".
Definition ErrorCodeStreamTruncated : string := "stream_truncated".
Definition ErrorCodeTransientRateLimit : string := "transient_rate_limit".

(** [type Status string]; the zero value is the empty string. *)
Abbreviation StatusT := string.
Definition StatusUnknown : StatusT := "unknown".
Definition StatusActive : StatusT := "active".
Definition StatusPending : StatusT := "pending".
Definition StatusRefreshing : StatusT := "refreshing".
Definition StatusError : StatusT := "error".
Definition StatusDisabled : StatusT := "disabled".

(** ** Quota and model state *)

Record QuotaState : Type := {
  Exceeded : bool;
  Reason : string;
  NextRecoverAt : time;
  BackoffLevel : Z;
  ObservedAt : time;
  Signals : gmap string string;
}.
#[global] Instance QuotaState_eta : Eta QuotaState := fun q =>
  {| Exceeded := Exceeded q; Reason := Reason q; NextRecoverAt := NextRecoverAt q;
     BackoffLevel := BackoffLevel q; ObservedAt := ObservedAt q; Signals := Signals q |}.

(** [QuotaState{}]. *)
Definition zero_quota : QuotaState :=
  {| Exceeded := false; Reason := ""; NextRecoverAt := 0; BackoffLevel := 0;
     ObservedAt := 0; Signals := ∅ |}.

(** [ms_shadow] is [credentialQuotaShadow], [ms_propagated] is
    [credentialQuotaPropagated]. *)
Inductive ModelState : Type := {
  ms_Status : StatusT;
  ms_StatusMessage : string;
  ms_Unavailable : bool;
  ms_NextRetryAfter : time;
  ms_LastError : option Error;
  ms_Quota : QuotaState;
  ms_UpdatedAt : time;
  ms_cooldownRecordedSeq : Z;
  ms_shadow : option ModelState;
  ms_propagated : bool;
}.
#[global] Instance ModelState_eta : Eta ModelState := fun s =>
  {| ms_Status := ms_Status s; ms_StatusMessage := ms_StatusMessage s;
     ms_Unavailable := ms_Unavailable s; ms_NextRetryAfter := ms_NextRetryAfter s;
     ms_LastError := ms_LastError s; ms_Quota := ms_Quota s; ms_UpdatedAt := ms_UpdatedAt s;
     ms_cooldownRecordedSeq := ms_cooldownRecordedSeq s; ms_shadow := ms_shadow s;
     ms_propagated := ms_propagated s |}.

(** [ModelState{}]. *)
Definition zero_model_state : ModelState :=
  {| ms_Status := ""; ms_StatusMessage := ""; ms_Unavailable := false; ms_NextRetryAfter := 0;
     ms_LastError := None; ms_Quota := zero_quota; ms_UpdatedAt := 0;
     ms_cooldownRecordedSeq := 0; ms_shadow := None; ms_propagated := false |}.

(** [cloneShallow] and [Clone]: values are immutable here, so a deep copy is
    the value itself, except for the shadow: shadows never nest. *)
Definition cloneShallow (m : ModelState) : ModelState := m <| ms_shadow := None |>.
Definition ModelState_Clone (m : ModelState) : ModelState :=
  match ms_shadow m with
  | Some shadow => m <| ms_shadow := Some (cloneShallow shadow) |>
  | None => m
  end.

(** ** The ring of recent requests *)

Definition recentRequestBucketSeconds : Z := 10 * 60.
Definition recentRequestBucketCount : Z := 20.

Record recentRequestBucket : Type := {
  rb_ID : Z;
  rb_success : Z;
  rb_failed : Z;
}.
Definition zero_bucket : recentRequestBucket := {| rb_ID := 0; rb_success := 0; rb_failed := 0 |}.
Abbreviation recentRequestRing := (list recentRequestBucket).
Definition empty_ring : recentRequestRing := replicate (Z.to_nat recentRequestBucketCount) zero_bucket.

(** ** The credential *)

Record Auth : Type := {
  a_ID : string;
  a_RegistrationEpoch : Z;
  a_CredentialVersion : Z;
  a_Generation : Z;
  a_Provider : string;
  a_Prefix : string;
  a_FileName : string;
  a_Label : string;
  a_Status : StatusT;
  a_StatusMessage : string;
  a_Disabled : bool;
  a_Unavailable : bool;
  a_Attributes : gmap string string;
  a_Metadata : list (string * any);
  a_Quota : QuotaState;
  a_LastError : option Error;
  a_UpdatedAt : time;
  a_LastRefreshedAt : time;
  a_NextRefreshAfter : time;
  a_NextRetryAfter : time;
  a_ModelStates : gmap string (option ModelState);
  a_RejectedAccessToken : string;
  a_RejectedSIWCAccessToken : string;
  a_RejectedRefreshToken : string;
  a_RejectedSIWCRefreshToken : string;
  a_RequiresSignIn : bool;
  a_RefreshError : option Error;
  a_InferenceVerified : bool;
  a_LastInferenceVerifiedAt : time;
  a_RenewalVerified : bool;
  a_Success : Z;
  a_Failed : Z;
  a_cooldownRecordedSeq : Z;
  a_recentRequests : recentRequestRing;
}.
#[global] Instance Auth_eta : Eta Auth := fun a =>
  {| a_ID := a_ID a; a_RegistrationEpoch := a_RegistrationEpoch a;
     a_CredentialVersion := a_CredentialVersion a; a_Generation := a_Generation a;
     a_Provider := a_Provider a; a_Prefix := a_Prefix a; a_FileName := a_FileName a;
     a_Label := a_Label a;
     a_Status := a_Status a; a_StatusMessage := a_StatusMessage a; a_Disabled := a_Disabled a;
     a_Unavailable := a_Unavailable a; a_Attributes := a_Attributes a;
     a_Metadata := a_Metadata a; a_Quota := a_Quota a; a_LastError := a_LastError a;
     a_UpdatedAt := a_UpdatedAt a; a_LastRefreshedAt := a_LastRefreshedAt a;
     a_NextRefreshAfter := a_NextRefreshAfter a; a_NextRetryAfter := a_NextRetryAfter a;
     a_ModelStates := a_ModelStates a; a_RejectedAccessToken := a_RejectedAccessToken a;
     a_RejectedSIWCAccessToken := a_RejectedSIWCAccessToken a;
     a_RejectedRefreshToken := a_RejectedRefreshToken a;
     a_RejectedSIWCRefreshToken := a_RejectedSIWCRefreshToken a;
     a_RequiresSignIn := a_RequiresSignIn a; a_RefreshError := a_RefreshError a;
     a_InferenceVerified := a_InferenceVerified a;
     a_LastInferenceVerifiedAt := a_LastInferenceVerifiedAt a;
     a_RenewalVerified := a_RenewalVerified a; a_Success := a_Success a; a_Failed := a_Failed a;
     a_cooldownRecordedSeq := a_cooldownRecordedSeq a;
     a_recentRequests := a_recentRequests a |}.

(** [&Auth{ID: id}]. *)
Definition new_auth (id : string) : Auth :=
  {| a_ID := id; a_RegistrationEpoch := 0; a_CredentialVersion := 0; a_Generation := 0;
     a_Provider := ""; a_Prefix := ""; a_FileName := ""; a_Label := ""; a_Status := ""; a_StatusMessage := "";
     a_Disabled := false; a_Unavailable := false; a_Attributes := ∅; a_Metadata := [];
     a_Quota := zero_quota; a_LastError := None; a_UpdatedAt := 0; a_LastRefreshedAt := 0;
     a_NextRefreshAfter := 0; a_NextRetryAfter := 0; a_ModelStates := ∅;
     a_RejectedAccessToken := ""; a_RejectedSIWCAccessToken := "";
     a_RejectedRefreshToken := ""; a_RejectedSIWCRefreshToken := ""; a_RequiresSignIn := false;
     a_RefreshError := None; a_InferenceVerified := false; a_LastInferenceVerifiedAt := 0;
     a_RenewalVerified := false; a_Success := 0; a_Failed := 0; a_cooldownRecordedSeq := 0;
     a_recentRequests := empty_ring |}.

(** The model states in the order a [range] over the map visits them: Go leaves
    the order unspecified, the model takes the order of [map_to_list]. *)
Definition model_states (a : Auth) : list (string * ModelState) :=
  omap (fun '(k, s) => (k,.) <$> s) (map_to_list (a_ModelStates a)).

Definition recentRequestBucketID (now : time) : Z :=
  if is_zero now then 0
  else Z.quot ((now - unix_epoch) / second) recentRequestBucketSeconds.

Definition recentRequestBucketIndex (bucketID : Z) : Z :=
  let m := Z.rem bucketID recentRequestBucketCount in
  if m <? 0 then m + recentRequestBucketCount else m.

Definition ring_bucket (r : recentRequestRing) (idx : Z) : recentRequestBucket :=
  default zero_bucket (r !! Z.to_nat idx).

Definition ring_record (r : recentRequestRing) (now : time) (success : bool) : recentRequestRing :=
  let bucketID := recentRequestBucketID now in
  let idx := recentRequestBucketIndex bucketID in
  let bucket := ring_bucket r idx in
  let bucket := if rb_ID bucket =? bucketID then bucket
                else {| rb_ID := bucketID; rb_success := 0; rb_failed := 0 |} in
  let bucket := if success
                then {| rb_ID := rb_ID bucket; rb_success := rb_success bucket + 1;
                        rb_failed := rb_failed bucket |}
                else {| rb_ID := rb_ID bucket; rb_success := rb_success bucket;
                        rb_failed := rb_failed bucket + 1 |} in
  <[Z.to_nat idx := bucket]> r.

Definition recordRecentRequest (a : Auth) (now : time) (success : bool) : Auth :=
  a <| a_recentRequests := ring_record (a_recentRequests a) now success |>.

(** The snapshot, oldest bucket first; the label of a bucket is a function of
    its number, kept here as the number. *)
Definition snapshot_entry (r : recentRequestRing) (bucketID : Z) : recentRequestBucket :=
  let bucket := ring_bucket r (recentRequestBucketIndex bucketID) in
  if rb_ID bucket =? bucketID then bucket
  else {| rb_ID := bucketID; rb_success := 0; rb_failed := 0 |}.

Definition RecentRequestsSnapshot (r : recentRequestRing) (now : time) :
    list recentRequestBucket :=
  let currentBucketID := recentRequestBucketID now in
  map (fun i => snapshot_entry r (currentBucketID - Z.of_nat i))
    (rev (seq 0 (Z.to_nat recentRequestBucketCount))).

(** ** Dynamic values *)

Definition mget (m : list (string * any)) (key : string) : option any :=
  snd <$> find (fun p => String.eqb (fst p) key) m.

Definition parseBoolAny (val : any) : option bool :=
  match val with
  | ABool typed => Some typed
  | AStr typed =>
      let trimmed := trim_space typed in
      if String.eqb trimmed "" then None else parse_bool trimmed
  | AFloat64 (FFin m _) => Some (negb (m =? 0))
  | AFloat64 _ => Some true
  | ANumber typed => (fun z => negb (z =? 0)) <$> parse_int64 typed
  | _ => None
  end.

(** [int64(f)]: the integral part; outside the range of [int64] the result is
    the one of the 64-bit hardware conversion. *)
Definition float_to_int64 (f : float) : Z :=
  match f with
  | FFin m e => if in_int64b (float_trunc m e) then float_trunc m e else min_int64
  | _ => min_int64
  end.

Definition parseIntAny (val : any) : option Z :=
  match val with
  | AInt (KInt | KInt32 | KInt64) typed => Some typed
  | AFloat64 typed => Some (float_to_int64 typed)
  | ANumber typed => parse_int64 typed
  | AStr typed =>
      let trimmed := trim_space typed in
      if String.eqb trimmed "" then None else atoi trimmed
  | _ => None
  end.

Definition authAttribute (auth : Auth) (key : string) : string :=
  trim_space (default "" (a_Attributes auth !! key)).

Definition authMetadataString (auth : Auth) (key : string) : string :=
  match mget (a_Metadata auth) key with
  | Some (AStr value) => trim_space value
  | _ => ""
  end.

(** [m[key].(map[string]any)]: the nested map, empty when it is absent. *)
Definition nested_map (m : list (string * any)) (key : string) : list (string * any) :=
  match mget m key with
  | Some (AMap nested) => nested
  | _ => []
  end.

Definition any_string (v : option any) : string :=
  match v with Some (AStr s) => s | _ => "" end.

Definition authSIWCTokenField (auth : Auth) (key : string) : string :=
  trim_space (any_string (mget (nested_map (a_Metadata auth) "siwc") key)).

Definition is_empty_map (m : list (string * any)) : bool :=
  match m with [] => true | _ => false end.

Definition IsCodexUseSIWC (a : Auth) : bool :=
  let raw := trim_space (default "" (a_Attributes a !! "use_siwc")) in
  let enabled := if String.eqb raw "" then false
                 else default false (parseBoolAny (AStr raw)) in
  if enabled then true
  else default false (parseBoolAny (default ANil (mget (a_Metadata a) "use_siwc"))).

Definition DisableCoolingOverride (a : Auth) : option bool :=
  match mget (a_Metadata a) "disable_cooling" ≫= parseBoolAny with
  | Some b => Some b
  | None => mget (a_Metadata a) "disable-cooling" ≫= parseBoolAny
  end.

(** ** Classification *)

Definition AuthKindAPIKey : string := "apikey".
Definition AuthKindOAuth : string := "oauth".

Definition normalizeAuthKind (kind : string) : string :=
  let k := to_lower (trim_space kind) in
  if existsb (String.eqb k) ["apikey"; "api_key"; "api-key"] then AuthKindAPIKey
  else if existsb (String.eqb k) ["oauth"; "oauth2"] then AuthKindOAuth
  else "".

Definition authHasOAuthMetadata (auth : Auth) : bool :=
  existsb (fun key => negb (String.eqb (authMetadataString auth key) ""))
    ["access_token"; "refresh_token"; "id_token"; "email"; "token_type"; "expires_at"; "expired"]
  || existsb (fun key => negb (is_empty_map (nested_map (a_Metadata auth) key)))
       ["token"; "siwc"; "service_account"].

Definition AuthKind (a : Auth) : string :=
  let by_attribute := normalizeAuthKind (authAttribute a "auth_kind") in
  let by_metadata := normalizeAuthKind (authMetadataString a "auth_kind") in
  if IsCodexUseSIWC a then AuthKindOAuth
  else if negb (String.eqb by_attribute "") then by_attribute
  else if negb (String.eqb by_metadata "") then by_metadata
  else if negb (String.eqb (authAttribute a "api_key") "") then AuthKindAPIKey
  else if authHasOAuthMetadata a then AuthKindOAuth
  else "".

Definition normalizeAuthSourceKind (source : string) : string :=
  let s := to_lower (trim_space source) in
  let one_of names := existsb (String.eqb s) names in
  if one_of ["config"] then "config"
  else if one_of ["file"; "filesystem"] then "file"
  else if one_of ["git"] then "git"
  else if one_of ["memory"; "runtime"; "runtime_only"] then "memory"
  else if one_of ["objectstore"; "object-store"] then "objectstore"
  else if one_of ["postgres"; "postgresql"; "database"; "db"] then "postgres"
  else "".

Definition AuthSourceKind (a : Auth) : string :=
  let backend := normalizeAuthSourceKind (authAttribute a "source_backend") in
  let source := authAttribute a "source" in
  if equal_fold (authAttribute a "runtime_only") "true" then "memory"
  else if negb (String.eqb backend "") then backend
  else if negb (String.eqb source "") then
    if has_prefix (to_lower source) "config:" then "config"
    else let normalized := normalizeAuthSourceKind source in
         if negb (String.eqb normalized "") then normalized else "file"
  else if negb (String.eqb (authAttribute a "path") "") then "file"
  else if negb (String.eqb (trim_space (a_FileName a)) "") then "file"
  else "".

(** ** Requests *)

(** What the code reads of a request context and of the client headers: the
    detected client, the user agents, and the flags the manager sets. *)
Record ReqCtx : Type := {
  ctx_codex_client : option bool;
  ctx_gin_user_agent : string;
  ctx_user_agents : list string;
  ctx_downstream_websocket : bool;
  ctx_prevalidated : bool;
  ctx_weighted_model : string;
}.
Definition background : ReqCtx :=
  {| ctx_codex_client := None; ctx_gin_user_agent := ""; ctx_user_agents := [];
     ctx_downstream_websocket := false; ctx_prevalidated := false; ctx_weighted_model := "" |}.

Definition IsCodexClientUserAgent (userAgent : string) : bool :=
  let ua := to_lower (trim_space userAgent) in
  if String.eqb ua "" then false
  else existsb (contains ua)
         ["codex-desktop"; "codex desktop"; "codex-rs"; "codex_cli_rs"; "codex-tui"; "codex_exec"].

Definition IsCodexClientRequest (ctx : ReqCtx) : bool :=
  if existsb IsCodexClientUserAgent (ctx_user_agents ctx) then true
  else match ctx_codex_client ctx with
       | Some isCodex => isCodex
       | None => IsCodexClientUserAgent (ctx_gin_user_agent ctx)
       end.

Definition IsCodexUseSIWCForRequest (ctx : ReqCtx) (a : Auth) : bool :=
  if negb (IsCodexUseSIWC a) then false else negb (IsCodexClientRequest ctx).

(** ** The ring of recent requests counts a log of requests

    A log is the list of recorded requests, newest first. *)

Definition request : Type := time * bool.
Definition req_bucket (e : request) : Z := recentRequestBucketID e.1.

Fixpoint ring_of_log (log : list request) : recentRequestRing :=
  match log with
  | [] => empty_ring
  | (now, success) :: older => ring_record (ring_of_log older) now success
  end.

(** Recorded in the order of their buckets. *)
Fixpoint log_ordered (log : list request) : Prop :=
  match log with
  | [] => True
  | e :: older => Forall (fun e' => req_bucket e' ≤ req_bucket e) older ∧ log_ordered older
  end.

Definition counts (b : Z) (success : bool) (e : request) : bool :=
  (req_bucket e =? b) && Bool.eqb e.2 success.
Definition log_count (b : Z) (success : bool) (log : list request) : Z :=
  Z.of_nat (length (List.filter (counts b success) log)).

Definition bucket_of_log (log : list request) (b : Z) : recentRequestBucket :=
  {| rb_ID := b; rb_success := log_count b true log; rb_failed := log_count b false log |}.

Lemma index_mod b : recentRequestBucketIndex b = b mod recentRequestBucketCount.
Proof.
  unfold recentRequestBucketIndex, recentRequestBucketCount.
  pose proof (Z.quot_rem' b 20) as Hq. pose proof (Z.rem_bound_abs b 20 ltac:(lia)) as Hb.
  case_if; bprop.
  - apply Z.mod_unique with (q := Z.quot b 20 - 1); lia.
  - apply Z.mod_unique with (q := Z.quot b 20); lia.
Qed.

Lemma index_range b : 0 ≤ recentRequestBucketIndex b < 20.
Proof. rewrite index_mod. unfold recentRequestBucketCount. apply Z.mod_pos_bound. lia. Qed.

(** Two buckets less than a ring apart that share an index are the same. *)
Lemma index_inj b1 b2 :
  recentRequestBucketIndex b1 = recentRequestBucketIndex b2 → b1 ≤ b2 < b1 + 20 → b1 = b2.
Proof.
  rewrite !index_mod. unfold recentRequestBucketCount. intros Hi Hb.
  pose proof (Z.div_mod b1 20 ltac:(lia)). pose proof (Z.div_mod b2 20 ltac:(lia)). lia.
Qed.

Lemma log_count_zero b s log : Forall (fun e => req_bucket e ≠ b) log → log_count b s log = 0.
Proof.
  unfold log_count. induction 1 as [|e log He _ IH]; simpl; [done|].
  unfold counts at 1. apply Z.eqb_neq in He. by rewrite He.
Qed.

Lemma log_count_cons b s e log :
  log_count b s (e :: log) = (if counts b s e then 1 else 0) + log_count b s log.
Proof. unfold log_count. simpl. destruct (counts b s e); simpl length; lia. Qed.

(** Slot [i] of the ring is untouched, or holds the newest bucket of its
    residue class with its counts. *)
Definition slot_ok (log : list request) (i : Z) (bk : recentRequestBucket) : Prop :=
  (bk = zero_bucket ∧ Forall (fun e => recentRequestBucketIndex (req_bucket e) ≠ i) log)
  ∨ (recentRequestBucketIndex (rb_ID bk) = i ∧ bk = bucket_of_log log (rb_ID bk)
     ∧ Exists (fun e => req_bucket e = rb_ID bk) log
     ∧ Forall (fun e => recentRequestBucketIndex (req_bucket e) = i → req_bucket e ≤ rb_ID bk) log).

Lemma ring_record_lookup r now s i :
  length r = 20%nat → 0 ≤ i < 20 →
  ring_bucket (ring_record r now s) i
  = let b := recentRequestBucketID now in
    if recentRequestBucketIndex b =? i then
      let bk := snapshot_entry r b in
      {| rb_ID := b; rb_success := rb_success bk + (if s then 1 else 0);
         rb_failed := rb_failed bk + (if s then 0 else 1) |}
    else ring_bucket r i.
Proof.
  intros Hr Hi. unfold ring_record, snapshot_entry. set (b := recentRequestBucketID now).
  pose proof (index_range b) as Hb. unfold ring_bucket at 1. cbv zeta.
  destruct (recentRequestBucketIndex b =? i) eqn:Ei; bprop.
  - subst i. rewrite list_lookup_insert_eq by lia. simpl.
    destruct s, (rb_ID (ring_bucket r (recentRequestBucketIndex b)) =? b) eqn:E; simpl; bprop;
      f_equal; lia.
  - rewrite list_lookup_insert_ne by lia. done.
Qed.

Lemma snapshot_entry_slot r log b cur :
  slot_ok log (recentRequestBucketIndex b) (ring_bucket r (recentRequestBucketIndex b)) →
  Forall (fun e => req_bucket e ≤ cur) log → cur < b + 20 → b ≤ cur →
  snapshot_entry r b = bucket_of_log log b.
Proof.
  intros Hs Hcur Hb Hbc. unfold snapshot_entry.
  set (bk := ring_bucket r (recentRequestBucketIndex b)) in *. clearbody bk.
  destruct Hs as [[-> Hno]|(Hi & Hbk & Hex & Hle)].
  - assert (Forall (fun e => req_bucket e ≠ b) log) as Hz
      by (eapply Forall_impl; [exact Hno|]; simpl; congruence).
    unfold bucket_of_log. rewrite !log_count_zero by done.
    case_if; bprop; simpl in *; [by subst|done].
  - case_if; bprop; [by rewrite Hbk, E|].
    unfold bucket_of_log. rewrite !log_count_zero; [done|..].
    all: rewrite Forall_forall in *; intros e He Heb;
      apply Exists_exists in Hex as (e' & He' & Heq);
      assert (rb_ID bk ≤ cur) by (rewrite <- Heq; by apply Hcur);
      assert (req_bucket e ≤ rb_ID bk) by (apply Hle; [done|by rewrite Heb]);
      apply E; symmetry; apply index_inj; [by symmetry|lia].
Qed.

Lemma ring_of_log_ok log :
  log_ordered log →
  length (ring_of_log log) = 20%nat
  ∧ ∀ i, 0 ≤ i < 20 → slot_ok log i (ring_bucket (ring_of_log log) i).
Proof.
  induction log as [|[now s] log IH]; simpl.
  - intros _. split; [done|]. intros i Hi. left. split; [|by constructor].
    unfold ring_bucket, empty_ring. rewrite lookup_replicate_2; [done|].
    unfold recentRequestBucketCount. lia.
  - intros [Hnew Hord]. destruct (IH Hord) as [Hlen Hslots]. split.
    { unfold ring_record. rewrite length_insert. done. }
    intros i Hi. rewrite ring_record_lookup by done. cbv zeta.
    set (b := recentRequestBucketID now) in *.
    assert (Hb : req_bucket (now, s) = b) by done.
    destruct (recentRequestBucketIndex b =? i) eqn:E; bprop.
    + right. subst i. split_and!; simpl; [done| |by constructor|].
      * rewrite (snapshot_entry_slot _ log b b) by
          (try apply Hslots; try apply index_range; try exact Hnew; lia).
        unfold bucket_of_log. rewrite !log_count_cons. simpl.
        unfold counts. rewrite Hb, Z.eqb_refl. simpl. destruct s; simpl; f_equal; lia.
      * constructor; [by intros _; rewrite Hb|].
        eapply Forall_impl; [exact Hnew|]. simpl. by intros e He _.
    + destruct (Hslots i Hi) as [[Hz Hno]|(Hix & Hbk & Hex & Hle)].
      * left. split; [done|]. constructor; [by rewrite Hb|done].
      * right. split_and!; [done| |by apply Exists_cons_tl|].
        -- rewrite Hbk at 1. unfold bucket_of_log. simpl. rewrite !log_count_cons.
           assert (Hc : ∀ q, counts (rb_ID (ring_bucket (ring_of_log log) i)) q (now, s) = false).
           { intros q. unfold counts. rewrite Hb. apply andb_false_iff. left.
             apply Z.eqb_neq. intros Heq. apply E. by rewrite Heq. }
           by rewrite !Hc.
        -- constructor; [|done]. rewrite Hb. intros Hix'. congruence.
Qed.

(** The recent-requests snapshot of a credential is exactly the per-bucket
    success and failure counts of the requests recorded so far, for each of the
    twenty ten-minute buckets ending at the present one, whatever older
    requests the ring has since overwritten. *)
Theorem recent_requests_refine log now :
  log_ordered log → Forall (fun e => req_bucket e ≤ recentRequestBucketID now) log →
  RecentRequestsSnapshot (ring_of_log log) now
  = map (fun i => bucket_of_log log (recentRequestBucketID now - Z.of_nat i)) (rev (seq 0 20)).
Proof.
  intros Hord Hnow. destruct (ring_of_log_ok log Hord) as [_ Hslots].
  unfold RecentRequestsSnapshot. apply map_ext_in. intros i Hi.
  apply in_rev, in_seq in Hi. simpl in Hi.
  apply (snapshot_entry_slot _ _ _ (recentRequestBucketID now)); [|done|lia|lia].
  apply Hslots, index_range.
Qed.

Lemma recent_requests_refine_witness :
  let t n := unix_epoch + n * 600 * second in
  let log := [(t 30, true); (t 30, false); (t 12, true); (t 10, true)] in
  log_ordered log ∧
  head (rev (RecentRequestsSnapshot (ring_of_log log) (t 30))) = Some (bucket_of_log log 30).
Proof.
  intros t log.
  assert (Ho : log_ordered log).
  { simpl. repeat (split || constructor); apply Z.leb_le; vm_compute; reflexivity. }
  split; [exact Ho|].
  rewrite (recent_requests_refine log (t 30) Ho).
  - reflexivity.
  - repeat constructor; apply Z.leb_le; vm_compute; reflexivity.
Defined.

End AuthTypes.
