(* ===== verification/QuotaSignals.v ===== *)
(** * Passive quota observation: sdk/cliproxy/auth/quota_signals.go

    The bounded snapshot of rate-limit headers a response leaves on a
    credential, and the fields of a quota state a cooldown transition writes.
    A header map is a finite map from raw names to value lists; Go visits it in
    an unspecified order, here that of [map_to_list]. *)
From Stdlib Require Import Ascii.
From S2P Require Import Prelude GoLib AuthTypes.
Import AuthTypes.

Module QuotaSignals.

Abbreviation Header := (gmap string (list string)).

Definition maxQuotaSignalHeaders : nat := 64.
Definition maxQuotaSignalValue : Z := 512.

Definition ProviderSupportsQuotaObservation (provider : string) : bool :=
  let p := to_lower (trim_space provider) in
  String.eqb p "claude" || String.eqb p "codex" || String.eqb p "devin".

(** ** Cooldown fields *)

Definition applyCooldownFields (dst cooldown : QuotaState) : QuotaState :=
  dst <| Exceeded := Exceeded cooldown |> <| Reason := Reason cooldown |>
      <| NextRecoverAt := NextRecoverAt cooldown |> <| BackoffLevel := BackoffLevel cooldown |>.

Definition cooldownFieldsOf (q : QuotaState) : QuotaState :=
  {| Exceeded := Exceeded q; Reason := Reason q; NextRecoverAt := NextRecoverAt q;
     BackoffLevel := BackoffLevel q; ObservedAt := 0; Signals := ∅ |}.

Definition mergeQuotaObservation (target source : QuotaState) : QuotaState :=
  if is_zero (ObservedAt source) || before (ObservedAt source) (ObservedAt target) then target
  else target <| ObservedAt := ObservedAt source |> <| Signals := Signals source |>.

(** The state and whether it changed. *)
Definition ClearObservationSignals (q : QuotaState) : QuotaState * bool :=
  if bool_decide (Signals q = ∅) && is_zero (ObservedAt q) then (q, false)
  else (q <| Signals := ∅ |> <| ObservedAt := 0 |>, true).

(** ** Header names

    [http.CanonicalHeaderKey]: a name with a byte outside the token characters
    is kept, another gets an upper-case letter first and after each hyphen, and
    lower-case letters elsewhere. *)
Definition token_byte (c : ascii) : bool :=
  byte_in 48 57 c || byte_in 65 90 c || byte_in 97 122 c
  || existsb (fun n => byte_is n c) [33; 35; 36; 37; 38; 39; 42; 43; 45; 46; 94; 95; 96; 124; 126]%N.
Fixpoint string_forall (p : ascii → bool) (s : string) : bool :=
  match s with EmptyString => true | String c r => p c && string_forall p r end.
Definition upper_ascii (c : ascii) : ascii :=
  if byte_in 97 122 c then ascii_of_N (N_of_ascii c - 32) else c.
Fixpoint canonical_key (upper : bool) (s : string) : string :=
  match s with
  | EmptyString => EmptyString
  | String c r => String (if upper then upper_ascii c else lower_ascii c)
                    (canonical_key (byte_is 45 c) r)
  end.
Definition CanonicalHeaderKey (s : string) : string :=
  if string_forall token_byte s then canonical_key true s else s.

(** ** Which headers are kept *)

(** The runes below 0x20 and 0x7f are bytes of their own in UTF-8. *)
Definition validQuotaSignalValue (value : string) : bool :=
  if String.eqb value "" || (maxQuotaSignalValue <? Z.of_nat (String.length value)) then false
  else string_forall (fun c => negb (byte_in 0 31 c || byte_is 127 c)) value.

Definition quotaSignalRetentionRank (name : string) : Z :=
  let lower := to_lower (trim_space name) in
  if String.eqb lower "retry-after" || has_prefix lower "anthropic-ratelimit-unified-" then 0
  else if String.eqb lower "x-codex-plan-type" || String.eqb lower "x-codex-active-limit"
          || has_prefix lower "x-codex-credits-" then 1
  else if String.eqb lower "x-codex-allowed" || String.eqb lower "x-codex-limit-reached"
          || has_prefix lower "x-codex-primary-" || has_prefix lower "x-codex-secondary-" then 2
  else if has_prefix lower "x-codex-code-review-" then 3
  else if has_prefix lower "x-codex-additional-" then 5
  else if has_prefix lower "x-codex-" then 4
  else 6.

Definition signal_markers : list string :=
  ["-allowed"; "-limit-reached"; "-limit-name"; "-used-percent"; "-window-minutes";
   "-reset-after-seconds"; "-reset-at"; "-over-secondary-limit-percent"].

Definition isQuotaSignalHeaderForProvider (provider name : string) : bool :=
  let provider := to_lower (trim_space provider) in
  let name := to_lower (trim_space name) in
  if String.eqb name "retry-after" then
    String.eqb provider "claude" || String.eqb provider "codex"
  else if has_prefix name "anthropic-ratelimit-unified-" then String.eqb provider "claude"
  else if has_prefix name "x-ratelimit-" then String.eqb provider "codex"
  else if negb (has_prefix name "x-codex-") then false
  else if negb (String.eqb provider "codex") then false
  else if String.eqb name "x-codex-active-limit" || String.eqb name "x-codex-plan-type"
          || has_prefix name "x-codex-credits-" then true
  else existsb (contains name) signal_markers.

(** ** The snapshot *)

(** [sort.Slice]'s comparison: retention rank, then name. *)
Definition signal_less (a b : string) : bool :=
  let ri := quotaSignalRetentionRank a in
  let rj := quotaSignalRetentionRank b in
  if negb (ri =? rj) then ri <? rj else str_lt a b.
Definition signal_le (a b : string) : Prop := signal_less b a = false.
#[global] Instance signal_le_dec : RelDecision signal_le.
Proof. intros x y. unfold signal_le. apply _. Defined.

(** The value a header contributes, if it contributes one. *)
Definition signal_of (provider : string) (entry : string * list string) :
    option (string * string) :=
  let '(key, headerValues) := entry in
  let canonicalKey := CanonicalHeaderKey (trim_space key) in
  match last headerValues with
  | Some v =>
      if negb (isQuotaSignalHeaderForProvider provider canonicalKey) then None
      else
        let value := trim_space v in
        if negb (validQuotaSignalValue value) then None else Some (canonicalKey, value)
  | None => None
  end.

(** The body of the loop over the headers: [(names, values)]. *)
Definition collect_signal (provider : string) (acc : list string * gmap string string)
    (entry : string * list string) : list string * gmap string string :=
  let '(names, values) := acc in
  match signal_of provider entry with
  | None => acc
  | Some (canonicalKey, value) =>
      (match values !! canonicalKey with None => names ++ [canonicalKey] | Some _ => names end,
       <[canonicalKey := value]> values)
  end.

Definition collectQuotaSignals (provider : string) (headers : Header) : gmap string string :=
  let '(names, values) := foldl (collect_signal provider) ([], ∅) (map_to_list headers) in
  let names := take maxQuotaSignalHeaders (merge_sort signal_le names) in
  foldr (fun name (signals : gmap string string) =>
           <[name := default "" (values !! name)]> signals) ∅ names.

(** [wall] is the clock that a zero [observedAt] is replaced with. *)
Definition ObserveResponseHeadersForProvider (wall : time) (q : QuotaState) (provider : string)
    (headers : Header) (observedAt : time) : QuotaState * bool :=
  if negb (ProviderSupportsQuotaObservation provider) then ClearObservationSignals q
  else
    let next := collectQuotaSignals provider headers in
    if bool_decide (next = ∅) then (q, false)
    else
      let observedAt := if is_zero observedAt then wall else observedAt in
      (q <| Signals := next |> <| ObservedAt := observedAt |>, true).

Example collect_ex :
  map_to_list (collectQuotaSignals "Codex"
    {["x-codex-primary-used-percent" := ["12"; " 50 "]; "retry-after" := ["3"]; "x-foo" := ["1"]]})
  = [("Retry-After", "3"); ("X-Codex-Primary-Used-Percent", "50")].
Proof. vm_compute. reflexivity. Qed.

(** ** Ordering of the names *)

#[global] Instance signal_le_total : Total signal_le.
Proof.
  intros x y. unfold signal_le, signal_less.
  destruct (quotaSignalRetentionRank x =? quotaSignalRetentionRank y) eqn:E1;
    rewrite (Z.eqb_sym (quotaSignalRetentionRank y)), E1; simpl; bprop.
  - destruct (str_lt y x) eqn:E; [right|by left]. by apply str_lt_asym.
  - rewrite !Z.ltb_ge. lia.
Qed.
#[global] Instance signal_le_trans : Transitive signal_le.
Proof.
  intros x y z. unfold signal_le, signal_less.
  destruct (Z.eqb_spec (quotaSignalRetentionRank y) (quotaSignalRetentionRank x));
  destruct (Z.eqb_spec (quotaSignalRetentionRank z) (quotaSignalRetentionRank y));
  destruct (Z.eqb_spec (quotaSignalRetentionRank z) (quotaSignalRetentionRank x)); simpl;
    rewrite ?Z.ltb_ge; try lia.
  intros H1 H2. apply (key_le_trans (fun s : string => s) x y z H1 H2).
Qed.

(** ** What is collected *)

(** The names seen so far are distinct and are the keys of the values; every
    value comes from a header already visited. *)
Definition collected (provider : string) (seen : list (string * list string))
    (acc : list string * gmap string string) : Prop :=
  NoDup acc.1
  ∧ (∀ n, n ∈ acc.1 ↔ is_Some (acc.2 !! n))
  ∧ (∀ n v, acc.2 !! n = Some v → ∃ e, e ∈ seen ∧ signal_of provider e = Some (n, v))
  ∧ (∀ e n v, e ∈ seen → signal_of provider e = Some (n, v) → is_Some (acc.2 !! n)).

Lemma collect_signal_step provider seen acc e :
  collected provider seen acc →
  collected provider (seen ++ [e]) (collect_signal provider acc e).
Proof.
  destruct acc as [names values]. intros (Hnd & Hk & Hv & Hc). unfold collect_signal.
  destruct (signal_of provider e) as [[n v]|] eqn:Es; unfold collected; simpl in *.
  - split_and!.
    + destruct (values !! n) eqn:El; [done|]. apply NoDup_app. split_and!; [done| |apply NoDup_singleton].
      intros x Hx. rewrite list_elem_of_singleton. intros ->. apply Hk in Hx as [? ?]. congruence.
    + intros m. destruct (decide (m = n)) as [->|Hne].
      * rewrite lookup_insert_eq. split; [by eexists|]. intros _.
        destruct (values !! n) eqn:El; [by apply Hk|]. set_solver.
      * rewrite lookup_insert_ne, <- Hk by done. destruct (values !! n); set_solver.
    + intros m w. destruct (decide (m = n)) as [->|Hne].
      * rewrite lookup_insert_eq. intros [= <-]. exists e. split; [set_solver|done].
      * rewrite lookup_insert_ne by done. intros (e' & He & ?)%Hv. exists e'. split; [set_solver|done].
    + intros e' m w. rewrite elem_of_app, list_elem_of_singleton. intros [He| ->] Hs.
      * destruct (decide (m = n)) as [->|Hne]; [rewrite lookup_insert_eq; by eexists|].
        rewrite lookup_insert_ne by done. by eapply Hc.
      * rewrite Es in Hs. injection Hs as <- <-. rewrite lookup_insert_eq. by eexists.
  - split_and!; [done|done| |].
    + intros m w (e' & He & ?)%Hv. exists e'. split; [set_solver|done].
    + intros e' m w. rewrite elem_of_app, list_elem_of_singleton. intros [He| ->] Hs; [by eapply Hc|].
      congruence.
Qed.

Lemma collect_signals_spec provider entries :
  collected provider entries (foldl (collect_signal provider) ([], ∅) entries).
Proof.
  induction entries as [|e entries IH] using rev_ind; simpl.
  - unfold collected. simpl. split_and!; [constructor| | |]; [|set_solver..].
    intros n. rewrite lookup_empty. split; [set_solver|by intros [? ?]].
  - rewrite foldl_app. simpl. by apply collect_signal_step.
Qed.

Lemma restrict_lookup names (values : gmap string string) n :
  (∀ m, m ∈ names → is_Some (values !! m)) →
  foldr (fun name (signals : gmap string string) =>
           <[name := default "" (values !! name)]> signals) ∅ names !! n
  = if bool_decide (n ∈ names) then values !! n else None.
Proof.
  induction names as [|m names IH]; intros Hv; simpl; [done|].
  destruct (decide (m = n)) as [->|Hne].
  - rewrite lookup_insert_eq, bool_decide_true by set_solver.
    by destruct (Hv n ltac:(set_solver)) as [v ->].
  - rewrite lookup_insert_ne, IH by set_solver. do 2 case_bool_decide; set_solver.
Qed.

(** The first elements of a sorted list precede the rest. *)
Lemma sorted_take_le {A} (R : relation A) (l : list A) k x y :
  StronglySorted R l → x ∈ take k l → y ∈ l → y ∉ take k l → R x y.
Proof.
  intros Hs Hx Hy Hny. rewrite <- (take_drop k l) in Hs, Hy.
  apply elem_of_app in Hy as [?|Hy]; [done|].
  induction (take k l) as [|z zs IH]; [set_solver|]. simpl in Hs.
  inversion_clear Hs as [|? ? Hs' Hall]. apply elem_of_cons in Hx as [->|Hx].
  - rewrite Forall_forall in Hall. apply Hall. set_solver.
  - apply IH; [done..|set_solver].
Qed.

(** The collected signals, before the bound. *)
Definition found (provider : string) (headers : Header) : list string * gmap string string :=
  foldl (collect_signal provider) ([], ∅) (map_to_list headers).
Definition kept (provider : string) (headers : Header) : list string :=
  take maxQuotaSignalHeaders (merge_sort signal_le (found provider headers).1).

Lemma collectQuotaSignals_lookup provider headers n :
  collectQuotaSignals provider headers !! n
  = if bool_decide (n ∈ kept provider headers) then (found provider headers).2 !! n else None.
Proof.
  unfold collectQuotaSignals, kept, found.
  pose proof (collect_signals_spec provider (map_to_list headers)) as (_ & Hk & _).
  destruct (foldl _ _ _) as [names values]. simpl in *.
  apply restrict_lookup. intros m Hm. apply Hk.
  apply (subseteq_take maxQuotaSignalHeaders) in Hm. by rewrite merge_sort_Permutation in Hm.
Qed.

(** The header [key: ... value] contributes the signal [n = v]. *)
Definition contributes (provider : string) (headers : Header) (n v : string) : Prop :=
  ∃ key values last_value,
    headers !! key = Some values ∧ last values = Some last_value
    ∧ n = CanonicalHeaderKey (trim_space key) ∧ v = trim_space last_value
    ∧ isQuotaSignalHeaderForProvider provider n = true ∧ validQuotaSignalValue v = true.

Lemma signal_of_contributes provider headers n v :
  (∃ e, e ∈ map_to_list headers ∧ signal_of provider e = Some (n, v))
  ↔ contributes provider headers n v.
Proof.
  unfold contributes. split.
  - intros ([key values] & He & Hs). apply elem_of_map_to_list in He. simpl in Hs.
    destruct (last values) as [lv|] eqn:El; [|done].
    destruct (isQuotaSignalHeaderForProvider _ _) eqn:E1; [|done].
    destruct (validQuotaSignalValue _) eqn:E2; [|done]. simpl in Hs. injection Hs as <- <-.
    by eexists _, _, _.
  - intros (key & values & lv & He & El & -> & -> & E1 & E2). exists (key, values).
    rewrite elem_of_map_to_list. split; [done|]. simpl. by rewrite El, E1, E2.
Qed.

(** The quota snapshot of a response: at most 64 entries; each entry is a
    recognised header of the provider with a printable value of 1 to 512 bytes,
    the last one of that header; a recognised header is left out only when 64
    entries that rank no lower are kept; and a response without recognised
    header leaves an empty snapshot. *)
Theorem quota_snapshot provider headers :
  let snapshot := collectQuotaSignals provider headers in
  (size snapshot ≤ 64)%nat
  ∧ (∀ n v, snapshot !! n = Some v → contributes provider headers n v)
  ∧ (∀ n v, contributes provider headers n v → snapshot !! n = None →
       size snapshot = 64%nat ∧ ∀ n', is_Some (snapshot !! n') → signal_le n' n)
  ∧ (snapshot = ∅ ↔ ∀ n v, ¬ contributes provider headers n v).
Proof.
  intros snapshot.
  pose proof (collect_signals_spec provider (map_to_list headers)) as (Hnd & Hk & Hv & Hc).
  change (foldl _ _ _) with (found provider headers) in *.
  assert (Hperm : merge_sort signal_le (found provider headers).1 ≡ₚ (found provider headers).1)
    by apply merge_sort_Permutation.
  assert (Hkept : ∀ n, n ∈ kept provider headers → is_Some ((found provider headers).2 !! n)).
  { intros n Hn. apply Hk. rewrite <- Hperm. by eapply subseteq_take. }
  assert (Hdom : ∀ n, is_Some (snapshot !! n) ↔ n ∈ kept provider headers).
  { intros n. unfold snapshot. rewrite collectQuotaSignals_lookup. case_bool_decide; [by split; auto|].
    split; [by intros [? ?]|done]. }
  assert (Hsize : size snapshot = length (kept provider headers)).
  { rewrite <- size_dom, <- (size_list_to_set (C := gset string)).
    - f_equal. apply set_eq. intros n. by rewrite elem_of_dom, elem_of_list_to_set, Hdom.
    - unfold kept. rewrite <- Hperm in Hnd.
      rewrite <- (take_drop maxQuotaSignalHeaders (merge_sort _ _)) in Hnd.
      by apply NoDup_app in Hnd as [? _]. }
  assert (Hmiss : ∀ n v, contributes provider headers n v → snapshot !! n = None →
      n ∈ merge_sort signal_le (found provider headers).1 ∧ n ∉ kept provider headers).
  { intros n v (e & He & Hs)%signal_of_contributes Hn. rewrite Hperm, Hk, <- Hdom, Hn.
    split; [by eapply Hc|by intros [? ?]]. }
  split_and!.
  - rewrite Hsize. unfold kept. rewrite length_take. unfold maxQuotaSignalHeaders. lia.
  - intros n v Hl. apply signal_of_contributes. apply Hv.
    unfold snapshot in Hl. rewrite collectQuotaSignals_lookup in Hl. by case_bool_decide.
  - intros n v Hcon Hn. destruct (Hmiss n v Hcon Hn) as [Hin Hout]. split.
    + rewrite Hsize. unfold kept in *. rewrite length_take, Nat.min_l; [done|].
      destruct (decide (maxQuotaSignalHeaders ≤ length (merge_sort signal_le (found provider headers).1))%nat)
        as [|Hlt]; [done|]. rewrite take_ge in Hout by lia. done.
    + intros n' Hn'%Hdom. apply (sorted_take_le signal_le _ maxQuotaSignalHeaders n' n
        (Sorted_StronglySorted _ _ (Sorted_merge_sort _ _)) Hn' Hin Hout).
  - split.
    + intros He n v Hcon. destruct (Hmiss n v Hcon) as [Hin Hout]; [by rewrite He|].
      assert (size snapshot = 0%nat) as Hz by by rewrite He, map_size_empty.
      rewrite Hsize in Hz. unfold kept in *. rewrite length_take in Hz.
      destruct (merge_sort signal_le (found provider headers).1); [set_solver|simpl in Hz; lia].
    + intros Hno. apply map_empty. intros n. destruct (snapshot !! n) as [v|] eqn:El; [|done].
      exfalso. apply (Hno n v), signal_of_contributes, Hv.
      unfold snapshot in El. rewrite collectQuotaSignals_lookup in El. by case_bool_decide.
Qed.

(** Observing a response touches only the passive snapshot: the cooldown
    fields the scheduler reads stay as they are; a provider that is not
    observed ends without signals; an observed response replaces the snapshot
    whole, and one without signals leaves it alone. *)
Theorem observation_passive wall q provider headers observedAt :
  let r := ObserveResponseHeadersForProvider wall q provider headers observedAt in
  cooldownFieldsOf r.1 = cooldownFieldsOf q
  ∧ (r.2 = false → r.1 = q)
  ∧ (ProviderSupportsQuotaObservation provider = false →
       Signals r.1 = ∅ ∧ ObservedAt r.1 = 0)
  ∧ (ProviderSupportsQuotaObservation provider = true →
       let next := collectQuotaSignals provider headers in
       if bool_decide (next = ∅) then r.1 = q
       else Signals r.1 = next ∧ ObservedAt r.1 = (if is_zero observedAt then wall else observedAt)).
Proof.
  unfold ObserveResponseHeadersForProvider, ClearObservationSignals, cooldownFieldsOf.
  destruct (ProviderSupportsQuotaObservation provider); simpl.
  - destruct (bool_decide (collectQuotaSignals provider headers = ∅)) eqn:E; simpl;
      rewrite ?E; split_and!; try done; intros _; by rewrite E.
  - destruct (bool_decide (Signals q = ∅) && is_zero (ObservedAt q)) eqn:E; simpl; bprop;
      split_and!; done.
Qed.

End QuotaSignals.
