(* ===== verification/Expiry.v ===== *)
(** * Token expiration and the lifecycle views of a credential:
    sdk/cliproxy/auth/types.go (955-1480), conductor_refresh.go

    [GoParse] is what the code asks of [time.Parse], [json.Number.Float64] and
    of the decoding of a JWT payload; the rest of the reading is modelled. *)
From Stdlib Require Import Ascii.
From S2P Require Import Prelude GoLib AuthTypes.
Import AuthTypes.

Class GoParse : Type := {
  time_Parse : string → string → option time;
  number_Float64 : string → option float;
  (** The "exp" claim of a base64url-encoded JSON payload segment. *)
  jwt_exp_claim : string → option any;
}.

Module Expiry.

(** [strings.Split(s, c)] for a one-byte separator. *)
Fixpoint split_on (c : Ascii.ascii) (s : string) : list string :=
  match s with
  | EmptyString => [EmptyString]
  | String a r =>
      if Ascii.eqb a c then EmptyString :: split_on c r
      else match split_on c r with
           | p :: ps => String a p :: ps
           | [] => [String a EmptyString]
           end
  end.

Definition normaliseUnix (raw : Z) : time :=
  if raw <=? 0 then 0
  else if 1000000000000 <? raw then unix_epoch + raw * millisecond
  else unix_epoch + raw * second.

(** The first key whose value reads. *)
Definition first_key {A} (m : list (string * any)) (keys : list string) (read : any → option A) :
    option A :=
  head (omap (fun k => mget m k ≫= read) keys).

Definition some_nonzero (o : option time) : option time :=
  match o with Some t => if is_zero t then None else Some t | None => None end.

Definition layouts : list string :=
  ["2006-01-02T15:04:05Z07:00"; "2006-01-02T15:04:05.999999999Z07:00"; "2006-01-02 15:04:05";
   "2006-01-02 15:04"; "2006-01-02T15:04:05Z07:00"].

Definition parseRelativeExpirySeconds (meta : list (string * any)) : option Z :=
  first_key meta ["expires_in"; "expiresIn"]
    (fun v => match parseIntAny v with Some s => if 0 <? s then Some s else None | None => None end).

(** [t.Add(time.Duration(n) * time.Second)]. *)
Definition add_seconds (t : time) (n : Z) : time := t + wrap64 (n * second).

Section Expiry.
Context `{GP : GoParse}.

Definition parseTimeValue (v : any) : option time :=
  match v with
  | AStr value =>
      let s := trim_space value in
      if String.eqb s "" then None
      else match head (omap (fun layout => time_Parse layout s) layouts) with
           | Some ts => Some ts
           | None => normaliseUnix <$> parse_int64 s
           end
  | AFloat64 value => Some (normaliseUnix (float_to_int64 value))
  | AInt (KInt | KInt32 | KInt64) value => Some (normaliseUnix value)
  | ANumber value =>
      match parse_int64 value with
      | Some i => Some (normaliseUnix i)
      | None => (fun f => normaliseUnix (float_to_int64 f)) <$> number_Float64 value
      end
  | _ => None
  end.

Definition parseJWTExp (token : string) : option time :=
  let token := trim_space token in
  if String.eqb token "" then None
  else match split_on "."%char token with
       | [_; payloadSegment; _] =>
           match jwt_exp_claim payloadSegment with
           | Some (AFloat64 expVal) =>
               match expVal with
               | FFin m _ => if 0 <? m then Some (normaliseUnix (float_to_int64 expVal)) else None
               | FInf negative => if negative then None
                                  else Some (normaliseUnix (float_to_int64 expVal))
               | FNaN => None
               end
           | Some (AInt (KInt | KInt64) expVal) =>
               if 0 <? expVal then Some (normaliseUnix expVal) else None
           | Some (AStr expVal) =>
               match parse_int64 (trim_space expVal) with
               | Some sec => if 0 <? sec then Some (normaliseUnix sec) else None
               | None => None
               end
           | _ => None
           end
       | _ => None
       end.

Definition parseRelativeExpiryTimestamp (meta : list (string * any)) : option time :=
  first_key meta ["timestamp"; "issued_at"; "issuedAt"]
    (fun v => some_nonzero (parseTimeValue v)).

Definition expireKeys : list string :=
  ["expired"; "expire"; "expires_at"; "expiresAt"; "expiry"; "expires"].

(** [expirationFromMap] before its search of the nested token maps. *)
Definition direct_expiration (meta : list (string * any)) : option time :=
  match first_key meta expireKeys parseTimeValue with
  | Some ts => Some ts
  | None =>
      match parseRelativeExpirySeconds meta, parseRelativeExpiryTimestamp meta with
      | Some expiresIn, Some timestamp => Some (add_seconds timestamp expiresIn)
      | _, _ => None
      end
  end.

Fixpoint expiration_any (v : any) : option time :=
  match v with
  | AMap meta =>
      let fix nested (key : string) (l : list (string * any)) : option time :=
        match l with
        | [] => None
        | (k, v') :: rest => if String.eqb k key then expiration_any v' else nested key rest
        end in
      match direct_expiration meta with
      | Some ts => Some ts
      | None => match nested "token" meta with
                | Some ts => Some ts
                | None => nested "Token" meta
                end
      end
  | AStrMap meta => direct_expiration (map (fun '(k, s) => (k, AStr s)) meta)
  | _ => None
  end.
Definition expirationFromMap (meta : list (string * any)) : option time :=
  expiration_any (AMap meta).

Definition lookupMetadataTime (meta : list (string * any)) (keys : list string) : option time :=
  first_key meta keys parseTimeValue.

(** [authOuterAccessToken], [authAccessToken], [authRefreshToken]. *)
Definition authOuterAccessToken (auth : Auth) : string :=
  let token := authMetadataString auth "access_token" in
  if negb (String.eqb token "") then token else authMetadataString auth "accessToken".
Definition authAccessToken (auth : Auth) : string :=
  if IsCodexUseSIWC auth then authSIWCTokenField auth "access_token"
  else authOuterAccessToken auth.
Definition authAccessTokenForRequest (ctx : ReqCtx) (auth : Auth) : string :=
  if IsCodexUseSIWCForRequest ctx auth then authSIWCTokenField auth "access_token"
  else authOuterAccessToken auth.
Definition authMatchesTokenPartition (auth : Auth) (token : string) : bool :=
  let token := trim_space token in
  if String.eqb token "" then false
  else String.eqb (authAccessToken auth) token || String.eqb (authOuterAccessToken auth) token.
Definition authRefreshToken (auth : Auth) : string :=
  let token := authMetadataString auth "refresh_token" in
  if negb (String.eqb token "") then token else authMetadataString auth "refreshToken".

Definition OuterExpirationTime (a : Auth) : option time :=
  let tokenStr := authOuterAccessToken a in
  if negb (String.eqb tokenStr "") && negb (String.eqb (a_RejectedAccessToken a) "")
     && String.eqb (a_RejectedAccessToken a) tokenStr then Some unix_epoch
  else
    match (if String.eqb tokenStr "" then None else parseJWTExp tokenStr) with
    | Some jwtExp => Some jwtExp
    | None => expirationFromMap (a_Metadata a)
    end.

Definition isSIWCAccessTokenRejected (a : Auth) (siwcToken : string) : bool :=
  let siwcToken := trim_space siwcToken in
  if String.eqb siwcToken "" then false
  else (negb (String.eqb (a_RejectedSIWCAccessToken a) "")
        && String.eqb (a_RejectedSIWCAccessToken a) siwcToken)
       || (negb (String.eqb (a_RejectedAccessToken a) "")
           && String.eqb (a_RejectedAccessToken a) siwcToken).

Definition siwc_jwt_exp (siwcMap : list (string * any)) : option time :=
  match mget siwcMap "access_token" with
  | Some (AStr rawToken) =>
      if String.eqb (trim_space rawToken) "" then None else some_nonzero (parseJWTExp rawToken)
  | _ => None
  end.

Definition SIWCExpirationTime (a : Auth) : option time :=
  let siwcMap := nested_map (a_Metadata a) "siwc" in
  if is_empty_map siwcMap then None
  else match some_nonzero (expirationFromMap siwcMap) with
       | Some ts => Some ts
       | None => siwc_jwt_exp siwcMap
       end.

Definition SIWCRealExpirationTime (a : Auth) : option time :=
  let siwcMap := nested_map (a_Metadata a) "siwc" in
  if is_empty_map siwcMap then None
  else match some_nonzero (lookupMetadataTime siwcMap ["expires_at"; "expiresAt"]) with
       | Some ts => Some ts
       | None =>
           let issued := some_nonzero (lookupMetadataTime siwcMap
             ["last_refresh"; "lastRefresh"; "timestamp"; "issued_at"; "issuedAt"]) in
           match parseRelativeExpirySeconds siwcMap, issued with
           | Some expiresIn, Some ts => Some (add_seconds ts expiresIn)
           | _, _ => siwc_jwt_exp siwcMap
           end
       end.

Definition ExpirationTime (a : Auth) : option time :=
  if IsCodexUseSIWC a then
    if isSIWCAccessTokenRejected a (authSIWCTokenField a "access_token") then Some unix_epoch
    else SIWCExpirationTime a
  else OuterExpirationTime a.

Definition CodexSIWCStatus (a : Auth) (now : time) : string :=
  let siwcToken := authSIWCTokenField a "access_token" in
  if negb (IsCodexUseSIWC a) then "off"
  else if String.eqb siwcToken "" then "invalid"
  else match SIWCRealExpirationTime a with
       | None => "invalid"
       | Some realExp =>
           if is_zero realExp || negb (after realExp now) then "invalid"
           else if isSIWCAccessTokenRejected a siwcToken then "invalid"
           else "valid"
       end.

Definition OuterAccessTokenExpirationTime (a : Auth) : option time :=
  let tokenStr := authOuterAccessToken a in
  if String.eqb tokenStr "" then None
  else if negb (String.eqb (a_RejectedAccessToken a) "")
          && String.eqb (a_RejectedAccessToken a) tokenStr then Some unix_epoch
  else match parseJWTExp tokenStr with
       | Some jwtExp => Some jwtExp
       | None => OuterExpirationTime a
       end.

Definition AccessTokenExpirationTime (a : Auth) : option time :=
  let tokenStr := authAccessToken a in
  if String.eqb tokenStr "" then None
  else if (negb (String.eqb (a_RejectedAccessToken a) "")
           && String.eqb (a_RejectedAccessToken a) tokenStr)
          || (IsCodexUseSIWC a && isSIWCAccessTokenRejected a tokenStr) then Some unix_epoch
  else match parseJWTExp tokenStr with
       | Some jwtExp => Some jwtExp
       | None =>
           match (if IsCodexUseSIWC a then some_nonzero (SIWCRealExpirationTime a) else None) with
           | Some realExp => Some realExp
           | None => ExpirationTime a
           end
       end.

Definition AccessTokenExpirationTimeForRequest (ctx : ReqCtx) (a : Auth) : option time :=
  if IsCodexUseSIWC a && negb (IsCodexUseSIWCForRequest ctx a)
  then OuterAccessTokenExpirationTime a
  else AccessTokenExpirationTime a.

Definition HasValidAccessToken (a : Auth) (now : time) : bool :=
  if String.eqb (authAccessToken a) "" then false
  else match AccessTokenExpirationTime a with
       | Some exp => after exp now
       | None => true
       end.

(** conductor_cooldown.go *)
Definition hasUnauthorizedAuthFailure (a : Auth) : bool :=
  match a_LastError a with
  | None => false
  | Some e =>
      a_Unavailable a && String.eqb (a_Status a) StatusError && is_zero (a_NextRefreshAfter a)
      && is_zero (a_NextRetryAfter a)
      && ((err_HTTPStatus e =? 401) || equal_fold (err_Code e) "unauthorized")
  end.

Definition RenewalStateAt (a : Auth) (now : time) : string :=
  if a_RequiresSignIn a then
    if negb (HasValidAccessToken a now) || hasUnauthorizedAuthFailure a
    then "expired_sign_in_required" else "sign_in_required"
  else if bool_decide (a_RefreshError a ≠ None) then "retry_scheduled"
  else if a_RenewalVerified a then "renewal_verified"
  else "awaiting_first_renewal".

(** The two tests [hasActiveQuotaBlock] makes of the credential and of each of
    its models. *)
Definition quota_blocked (q : QuotaState) (now : time) : bool :=
  Exceeded q && negb (is_zero (NextRecoverAt q)) && after (NextRecoverAt q) now.
Definition rate_limited (unavailable : bool) (next : time) (e : option Error) (now : time) : bool :=
  unavailable && negb (is_zero next) && after next now
  && match e with Some e => err_HTTPStatus e =? 429 | None => false end.

Definition hasActiveQuotaBlock (a : Auth) (now : time) : bool :=
  quota_blocked (a_Quota a) now
  || rate_limited (a_Unavailable a) (a_NextRetryAfter a) (a_LastError a) now
  || existsb (fun '(_, ms) => quota_blocked (ms_Quota ms) now
                || rate_limited (ms_Unavailable ms) (ms_NextRetryAfter ms) (ms_LastError ms) now)
       (model_states a).

Definition RecoveryStageAt (a : Auth) (now : time) : string :=
  if a_RequiresSignIn a then "sign_in_required"
  else if hasActiveQuotaBlock a now then "quota_blocked"
  else if a_RenewalVerified a then "renewal_verified"
  else if a_InferenceVerified a then "inference_verified"
  else "loaded".

(** [dueAt, hasRefresh, needsRefresh]. *)
Definition CodexSIWCRefreshLead : duration := 5 * minute.

Definition due_at (due now : time) : time * bool * bool :=
  if negb (after due now) then (now, true, true) else (due, true, false).

Definition CodexSIWCNeedsRefresh (a : Auth) (now : time) : time * bool * bool :=
  let siwcMap := nested_map (a_Metadata a) "siwc" in
  let refreshToken := any_string (mget siwcMap "refresh_token") in
  let clientID := any_string (mget siwcMap "client_id") in
  let siwcToken := trim_space (any_string (mget siwcMap "access_token")) in
  if is_empty_map siwcMap then (0, false, false)
  else if String.eqb (trim_space refreshToken) "" || String.eqb (trim_space clientID) ""
  then (0, false, false)
  else
    if negb (String.eqb (a_RejectedSIWCRefreshToken a) "")
       && String.eqb (trim_space refreshToken) (a_RejectedSIWCRefreshToken a) then
      match some_nonzero (SIWCExpirationTime a) with
      | Some expiry =>
          if after expiry now then (expiry, true, false)
          else if negb (IsCodexUseSIWC a) then (0, false, false)
          else (now, true, true)
      | None => (0, false, false)
      end
    else if String.eqb siwcToken "" then (now, true, true)
    else if isSIWCAccessTokenRejected a siwcToken then (now, true, true)
    else match some_nonzero (SIWCExpirationTime a) with
         | Some expiry => due_at (expiry - CodexSIWCRefreshLead) now
         | None =>
             match some_nonzero (lookupMetadataTime siwcMap ["last_refresh"; "lastRefresh"]) with
             | Some lastRefresh => due_at (lastRefresh + CodexSIWCRefreshLead) now
             | None => (now, true, true)
             end
         end.

End Expiry.
End Expiry.
