(* ===== verification/Availability.v ===== *)
(** * Which credentials a request may use: sdk/cliproxy/auth/selector.go

    The priority and weight of a credential, the test that decides whether it
    is blocked for a model ([isAuthBlockedForModelForRequest]), and the list of
    candidates of the best priority ([getAvailableAuths...]).  The candidate
    slices of the code never hold a nil pointer; the nil case of the block test
    is [isAuthBlocked_nil]. *)
From S2P Require Import Prelude GoLib Weight Thinking AuthTypes Expiry.
Import AuthTypes Expiry.

Module Availability.

(** ** Priority, weight, model keys *)

Definition authPriority (auth : Auth) : Z :=
  let raw := trim_space (default "" (a_Attributes auth !! "priority")) in
  if String.eqb raw "" then 0
  else match atoi raw with Some parsed => parsed | None => 0 end.

Definition ok_or_zero (o : outcome Weight.weight_error Z) : Z :=
  match o with Ok weight => weight | Err _ => 0 end.

Definition authWeight (auth : Auth) : Z :=
  let from_metadata := match mget (a_Metadata auth) "weight" with
                       | Some rawWeight => ok_or_zero (Weight.ParseValue rawWeight)
                       | None => Weight.Default
                       end in
  match a_Attributes auth !! "weight" with
  | Some rawWeight =>
      if String.eqb (trim_space rawWeight) "" then from_metadata
      else ok_or_zero (Weight.ParseString rawWeight)
  | None => from_metadata
  end.

Definition canonicalModelKey (model : string) : string :=
  let model := trim_space model in
  if String.eqb model "" then ""
  else
    let parsed := Thinking.ParseSuffix model in
    let modelName := trim_space (Thinking.ModelName parsed) in
    if String.eqb modelName "" then model else modelName.

Definition authWebsocketsEnabled (auth : Auth) : bool :=
  let raw := trim_space (default "" (a_Attributes auth !! "websockets")) in
  match (if String.eqb raw "" then None else parse_bool raw) with
  | Some parsed => parsed
  | None =>
      match mget (a_Metadata auth) "websockets" with
      | Some (ABool v) => v
      | Some (AStr v) => default false (parse_bool (trim_space v))
      | _ => false
      end
  end.

(** ** Blocking *)

Inductive blockReason : Type :=
| blockReasonNone | blockReasonCooldown | blockReasonDisabled | blockReasonOther.
#[global] Instance blockReason_eq_dec : EqDecision blockReason.
Proof. solve_decision. Defined.
Definition reason_is (a b : blockReason) : bool := bool_decide (a = b).

(** [(blocked, reason, next)]. *)
Abbreviation block := (bool * blockReason * time)%type.
Definition unblocked : block := (false, blockReasonNone, 0).

Definition next_candidate (now : time) (next candidate : time) : time :=
  if after candidate now && (is_zero next || after candidate next) then candidate else next.

Definition availabilityBlock (unavailable quotaExceeded : bool) (nextRetryAfter nextRecoverAt : time)
    (now : time) : block :=
  if negb unavailable && negb quotaExceeded then unblocked
  else
    let hasRecoveryTime := negb (is_zero nextRetryAfter) || negb (is_zero nextRecoverAt) in
    let next := foldl (next_candidate now) 0 [nextRetryAfter; nextRecoverAt] in
    if negb (is_zero next) then
      (true, if quotaExceeded then blockReasonCooldown else blockReasonOther, next)
    else if hasRecoveryTime then unblocked
    else (true, blockReasonOther, 0).

Definition state_block (state : ModelState) (now : time) : block :=
  availabilityBlock (ms_Unavailable state) (Exceeded (ms_Quota state)) (ms_NextRetryAfter state)
    (NextRecoverAt (ms_Quota state)) now.

(** The loop over [auth.ModelStates]: [(matched, (blocked, reason, next))] so
    far, and what an early return yields. *)
Fixpoint scan_states (modelKey : string) (now : time) (matched : bool) (acc : block)
    (states : list (string * ModelState)) : block :=
  match states with
  | [] => if matched then acc else unblocked
  | (stateModel, state) :: rest =>
      if negb (String.eqb (canonicalModelKey stateModel) modelKey) then
        scan_states modelKey now matched acc rest
      else if String.eqb (ms_Status state) StatusDisabled then (true, blockReasonDisabled, 0)
      else
        let '(stateBlocked, reason, next) := state_block state now in
        if negb stateBlocked then scan_states modelKey now true acc rest
        else if is_zero next then (true, reason, 0)
        else
          let '(blocked, blockedReason, nextRetry) := acc in
          let acc := if negb blocked || after next nextRetry
                        || (time_eq next nextRetry && reason_is reason blockReasonCooldown)
                     then (true, reason, next) else acc in
          scan_states modelKey now true acc rest
  end.

Definition has_states (auth : Auth) : bool := negb (bool_decide (a_ModelStates auth = ∅)).

Section Block.
Context `{GP : GoParse}.

Definition token_expired (ctx : ReqCtx) (auth : Auth) (now : time) : bool :=
  match AccessTokenExpirationTimeForRequest ctx auth with
  | Some exp => negb (is_zero exp) && negb (after exp now)
  | None => false
  end.

Definition credential_quota_active (auth : Auth) (now : time) : bool :=
  Exceeded (a_Quota auth) && String.eqb (Reason (a_Quota auth)) "credential_quota"
  && after (NextRecoverAt (a_Quota auth)) now.

Definition isAuthBlocked_nil : block := (true, blockReasonOther, 0).

Definition isAuthBlockedForModelForRequest (ctx : ReqCtx) (auth : Auth) (model : string)
    (now : time) : block :=
  if a_Disabled auth || String.eqb (a_Status auth) StatusDisabled
  then (true, blockReasonDisabled, 0)
  else if hasUnauthorizedAuthFailure auth then (true, blockReasonOther, 0)
  else if token_expired ctx auth now then (true, blockReasonOther, 0)
  else if credential_quota_active auth now
  then (true, blockReasonCooldown, NextRecoverAt (a_Quota auth))
  else if negb (String.eqb model "") then
    if has_states auth then
      scan_states (canonicalModelKey model) now false unblocked (model_states auth)
    else availabilityBlock (a_Unavailable auth) (Exceeded (a_Quota auth)) (a_NextRetryAfter auth)
           (NextRecoverAt (a_Quota auth)) now
  else
    let quotaExceeded :=
      if has_states auth && negb (String.eqb (Reason (a_Quota auth)) "credential_quota")
         && negb (a_Unavailable auth)
      then false else Exceeded (a_Quota auth) in
    availabilityBlock (a_Unavailable auth) quotaExceeded (a_NextRetryAfter auth)
      (NextRecoverAt (a_Quota auth)) now.

(** [isAuthBlockedForModel] and [IsAuthAvailableForModel]. *)
Definition isAuthBlockedForModel (auth : Auth) (model : string) (now : time) : block :=
  isAuthBlockedForModelForRequest background auth model now.
Definition IsAuthAvailableForModel (auth : Auth) (model : string) (now : time) : bool :=
  negb (isAuthBlockedForModel auth model now).1.1.

(** ** Candidates *)

Inductive select_error : Type :=
| PlainError (e : Error)
| AuthUnavailable (e : Error) (retryAfter : duration)
| ModelCooldown (model provider : string) (resetIn : duration).

Definition plain_error (code message : string) : Error :=
  {| err_Code := code; err_Message := message; err_Retryable := false; err_HTTPStatus := 0 |}.

Definition newModelCooldownError (model provider : string) (resetIn : duration) : select_error :=
  ModelCooldown model provider (if resetIn <? 0 then 0 else resetIn).

Definition newAuthUnavailableError (next now : time) : select_error :=
  if after next now then
    AuthUnavailable {| err_Code := "auth_unavailable"; err_Message := "no auth available";
                       err_Retryable := true; err_HTTPStatus := 503 |} (time_sub next now)
  else PlainError (plain_error "auth_unavailable" "no auth available").

Definition blocked_for (ctx : ReqCtx) (model : string) (now : time) (auth : Auth) : bool :=
  (isAuthBlockedForModelForRequest ctx auth model now).1.1.

Definition append_bucket (available : gmap Z (list Auth)) (candidate : Auth) : gmap Z (list Auth) :=
  let priority := authPriority candidate in
  <[priority := default [] (available !! priority) ++ [candidate]]> available.

(** [(available, cooldownCount, earliest)]. *)
Definition collect_step (ctx : ReqCtx) (model : string) (now : time)
    (acc : gmap Z (list Auth) * Z * time) (candidate : Auth) : gmap Z (list Auth) * Z * time :=
  let '(available, cooldownCount, earliest) := acc in
  let '(blocked, reason, next) := isAuthBlockedForModelForRequest ctx candidate model now in
  if negb blocked then (append_bucket available candidate, cooldownCount, earliest)
  else
    let cooldownCount := if reason_is reason blockReasonCooldown then cooldownCount + 1
                         else cooldownCount in
    let earliest := if negb (reason_is reason blockReasonDisabled) && after next now
                       && (is_zero earliest || before next earliest)
                    then next else earliest in
    (available, cooldownCount, earliest).

Definition collectAvailableByPriorityForRequest (ctx : ReqCtx) (auths : list Auth)
    (model : string) (now : time) : gmap Z (list Auth) * Z * time :=
  foldl (collect_step ctx model now) (∅, 0, 0) auths.

Definition best_step (best : option Z) (priority : Z) : option Z :=
  match best with
  | None => Some priority
  | Some bestPriority => if bestPriority <? priority then Some priority else best
  end.

Definition availableAuthsFromPriorityBuckets (availableByPriority : gmap Z (list Auth))
    (allPriorities : bool) : list Auth :=
  let buckets := map_to_list availableByPriority in
  let candidates :=
    if allPriorities then concat (map snd buckets)
    else
      let bestPriority := default 0 (foldl best_step None (map fst buckets)) in
      default [] (availableByPriority !! bestPriority) in
  sort_by a_ID candidates.

Definition getAvailableAuthsWithPriorityModeForRequest (ctx : ReqCtx) (auths : list Auth)
    (provider model : string) (now : time) (allPriorities : bool) :
    outcome select_error (list Auth) :=
  match auths with
  | [] => Err (PlainError (plain_error "auth_not_found" "no auth candidates"))
  | _ =>
      let '(availableByPriority, cooldownCount, earliest) :=
        collectAvailableByPriorityForRequest ctx auths model now in
      if bool_decide (availableByPriority = ∅) then
        if (cooldownCount =? Z.of_nat (length auths)) && negb (is_zero earliest) then
          let providerForError := if String.eqb provider "mixed" then "" else provider in
          Err (newModelCooldownError model providerForError (time_sub earliest now))
        else Err (newAuthUnavailableError earliest now)
      else Ok (availableAuthsFromPriorityBuckets availableByPriority allPriorities)
  end.

Definition tier_step (best : Z * Z) (auth : Auth) : Z * Z :=
  let '(bestPriority, bestCount) := best in
  let priority := authPriority auth in
  if (bestCount =? 0) || (bestPriority <? priority) then (priority, 1)
  else if priority =? bestPriority then (bestPriority, bestCount + 1)
  else best.

Definition highestPriorityAuths (auths : list Auth) : list Auth :=
  match auths with
  | [] | [_] => auths
  | _ =>
      let '(bestPriority, bestCount) := foldl tier_step (0, 0) auths in
      if bestCount =? Z.of_nat (length auths) then auths
      else List.filter (fun auth => authPriority auth =? bestPriority) auths
  end.

Definition getSelectorAvailableAuthsWithPriorityMode (ctx : ReqCtx) (auths : list Auth)
    (provider model : string) (now : time) (allPriorities : bool) :
    outcome select_error (list Auth) :=
  match auths with
  | [] => getAvailableAuthsWithPriorityModeForRequest ctx auths provider model now allPriorities
  | _ =>
      if ctx_prevalidated ctx then
        Ok (if allPriorities then auths else highestPriorityAuths auths)
      else getAvailableAuthsWithPriorityModeForRequest ctx auths provider model now allPriorities
  end.

Definition getSelectorAvailableAuths (ctx : ReqCtx) (auths : list Auth) (provider model : string)
    (now : time) : outcome select_error (list Auth) :=
  getSelectorAvailableAuthsWithPriorityMode ctx auths provider model now false.

Definition preferCodexWebsocketAuths (ctx : ReqCtx) (provider : string) (available : list Auth) :
    list Auth :=
  if negb (ctx_downstream_websocket ctx) then available
  else if negb (equal_fold (trim_space provider) "codex") then available
  else match List.filter authWebsocketsEnabled available with
       | [] => available
       | wsEnabled => wsEnabled
       end.

(** ** When a block ends *)

Lemma next_candidates_spec now r q :
  0 ≤ now →
  let n := foldl (next_candidate now) 0 [r; q] in
  (n = 0 ∧ r ≤ now ∧ q ≤ now) ∨ (now < n ∧ (n = r ∨ n = q) ∧ r ≤ n ∧ q ≤ n).
Proof.
  intros Hn. simpl. unfold next_candidate, after, is_zero.
  destruct (now <? r) eqn:E1, (now <? q) eqn:E2; simpl; bprop;
    repeat case_if; bprop; try lia.
Qed.

Lemma availabilityBlock_cases u e r q now :
  0 ≤ now →
  let n := Z.max r q in
  availabilityBlock u e r q now
  = if negb u && negb e then unblocked
    else if now <? n then (true, if e then blockReasonCooldown else blockReasonOther, n)
    else if (r =? 0) && (q =? 0) then (true, blockReasonOther, 0)
    else unblocked.
Proof.
  intros Hn. unfold availabilityBlock. case_if; [done|].
  destruct (next_candidates_spec now r q Hn) as [(-> & H1 & H2)|(H1 & H2 & H3 & H4)]; simpl.
  - destruct (now <? Z.max r q) eqn:E1; bprop; [lia|]. unfold is_zero.
    by destruct (r =? 0), (q =? 0).
  - set (n := foldl _ _ _) in *. change (next_candidate now (next_candidate now 0 r) q) with n.
    clearbody n. assert (n = Z.max r q) as -> by lia.
    destruct (is_zero (Z.max r q)) eqn:E1; bprop; [lia|]. simpl.
    destruct (now <? Z.max r q) eqn:E2; bprop; [done|lia].
Qed.

(** A block with a time is lifted at that time and not before; a block without
    one stays. *)
Lemma availabilityBlock_window_aux u e r q now reason next :
  0 ≤ now → availabilityBlock u e r q now = (true, reason, next) →
  (next = 0 ∧ ∀ t, now ≤ t → availabilityBlock u e r q t = (true, reason, 0))
  ∨ (now < next
     ∧ (∀ t, now ≤ t < next → availabilityBlock u e r q t = (true, reason, next))
     ∧ (∀ t, next ≤ t → availabilityBlock u e r q t = unblocked)).
Proof.
  intros Hn H. rewrite availabilityBlock_cases in H by done.
  destruct (negb u && negb e) eqn:E0; [done|].
  destruct (now <? Z.max r q) eqn:E1; bprop.
  - right. injection H as <- <-. split_and!; [lia| |]; intros t Ht;
      rewrite availabilityBlock_cases, E0 by lia.
    + destruct (t <? Z.max r q) eqn:E2; bprop; [done|lia].
    + destruct (t <? Z.max r q) eqn:E2; bprop; [lia|].
      destruct (r =? 0) eqn:E3, (q =? 0) eqn:E4; bprop; simpl; try done. lia.
  - destruct ((r =? 0) && (q =? 0)) eqn:E2; [|done]. injection H as <- <-. left.
    split; [done|]. intros t Ht. rewrite availabilityBlock_cases, E0, E2 by lia.
    destruct (t <? Z.max r q) eqn:E3; bprop; [lia|done].
Qed.

(** ** The scan of the model states *)

Definition state_blocks (now : time) (state : ModelState) : bool :=
  String.eqb (ms_Status state) StatusDisabled || (state_block state now).1.1.
Definition key_blocks (modelKey : string) (now : time) (p : string * ModelState) : bool :=
  String.eqb (canonicalModelKey p.1) modelKey && state_blocks now p.2.

Lemma scan_states_blocked modelKey now m acc states :
  (m = false → acc.1.1 = false) →
  (scan_states modelKey now m acc states).1.1
  = acc.1.1 || existsb (key_blocks modelKey now) states.
Proof.
  revert m acc. induction states as [|[k st] states IH]; intros m acc Hacc; simpl.
  - destruct m; simpl; [by rewrite orb_false_r|]. by rewrite Hacc.
  - unfold key_blocks at 1. simpl.
    destruct (String.eqb (canonicalModelKey k) modelKey) eqn:Ek; simpl; [|by apply IH].
    unfold state_blocks. destruct (String.eqb (ms_Status st) StatusDisabled); simpl.
    { by rewrite orb_true_r. }
    destruct (state_block st now) as [[[] r] n]; simpl; [|by apply IH].
    destruct (is_zero n); simpl; [by rewrite orb_true_r|].
    destruct acc as [[[] ar] an]; simpl; [|by rewrite IH].
    case_if; by rewrite IH.
Qed.

(** The states the block rests on: what is blocked at [now] stays blocked until
    the time the scan reports. *)
Lemma scan_states_stay modelKey now t m acc states reason next :
  0 ≤ now ≤ t →
  scan_states modelKey now m acc states = (true, reason, next) →
  acc = (true, reason, next)
  ∨ ((next = 0 ∨ now < next)
     ∧ (next = 0 ∨ t < next → existsb (key_blocks modelKey t) states = true)).
Proof.
  intros Ht. revert m acc. induction states as [|[k st] states IH]; intros m acc H; simpl in *.
  - destruct m; [by left|done].
  - unfold key_blocks at 1, state_blocks. simpl.
    destruct (String.eqb (canonicalModelKey k) modelKey) eqn:Ek; simpl in *; [|by eauto].
    destruct (String.eqb (ms_Status st) StatusDisabled); simpl in *; [simplify_eq; by right; auto|].
    destruct (state_block st now) as [[b r] n] eqn:Eb. simpl in H.
    destruct b; simpl in H; last first.
    { destruct (IH _ _ H) as [|[? Hs]]; [by left|]. right. split; [done|].
      intros Hnt. rewrite Hs by done. apply orb_true_r. }
    assert (Hst : ∀ r' n', (r', n') = (r, n) → (n' = 0 ∨ now < n')
      ∧ (n' = 0 ∨ t < n' → (state_block st t).1.1 = true)).
    { intros r' n' [= -> ->]. unfold state_block in *.
      apply availabilityBlock_window_aux in Eb as [[-> Hz]|(Hlt & Hin & _)]; [|..|lia].
      - split; [by left|]. intros _. by rewrite Hz by lia.
      - split; [by right|]. intros [?|?]; [lia|]. by rewrite Hin by lia. }
    destruct (is_zero n) eqn:Ez; bprop.
    { simplify_eq. right. destruct (Hst reason 0 eq_refl) as [_ H0]. split; [by left|].
      intros _. by rewrite H0 by auto. }
    assert (Hrec : ∀ acc', scan_states modelKey now true acc' states = (true, reason, next) →
       acc' = (true, r, n) ∨ acc' = acc →
       acc = (true, reason, next) ∨ (next = 0 ∨ now < next)
         ∧ (next = 0 ∨ t < next →
            (state_block st t).1.1 || existsb (key_blocks modelKey t) states = true)).
    { intros acc' H' [->| ->]; destruct (IH _ _ H') as [Heq|[? Hs]]; auto.
      - simplify_eq. right. destruct (Hst _ _ eq_refl) as [? Hs]. split; [done|].
        intros Hnt. by rewrite Hs.
      - right. split; [done|]. intros Hnt. rewrite Hs by done. apply orb_true_r.
      - right. split; [done|]. intros Hnt. rewrite Hs by done. apply orb_true_r. }
    destruct acc as [[ab ar] an]. eapply Hrec; [exact H|]. case_if; auto.
Qed.

Lemma token_expired_stays ctx auth now t :
  now ≤ t → token_expired ctx auth now = true → token_expired ctx auth t = true.
Proof.
  unfold token_expired. intros Ht. destruct (AccessTokenExpirationTimeForRequest ctx auth); [|done].
  intros [H1 H2]%andb_true_iff. rewrite H1. simpl. bprop. lia.
Qed.

(** The block test, reduced to its boolean. *)
Lemma blocked_for_eq ctx model now auth :
  blocked_for ctx model now auth
  = a_Disabled auth || String.eqb (a_Status auth) StatusDisabled
    || hasUnauthorizedAuthFailure auth || token_expired ctx auth now
    || credential_quota_active auth now
    || (if negb (String.eqb model "") && has_states auth
        then existsb (key_blocks (canonicalModelKey model) now) (model_states auth)
        else (availabilityBlock (a_Unavailable auth)
                (if String.eqb model "" && has_states auth
                    && negb (String.eqb (Reason (a_Quota auth)) "credential_quota")
                    && negb (a_Unavailable auth)
                 then false else Exceeded (a_Quota auth))
                (a_NextRetryAfter auth) (NextRecoverAt (a_Quota auth)) now).1.1).
Proof.
  unfold blocked_for, isAuthBlockedForModelForRequest.
  destruct (a_Disabled auth || _); simpl; [done|].
  destruct (hasUnauthorizedAuthFailure auth); simpl; [done|].
  destruct (token_expired ctx auth now); simpl; [done|].
  destruct (credential_quota_active auth now); simpl; [done|].
  destruct (String.eqb model ""); simpl; [done|].
  destruct (has_states auth); simpl; [|done].
  by rewrite scan_states_blocked.
Qed.

Lemma isAuthBlocked_stays ctx auth model now t reason next :
  0 ≤ now ≤ t →
  isAuthBlockedForModelForRequest ctx auth model now = (true, reason, next) →
  (next = 0 ∨ now < next)
  ∧ (next = 0 ∨ t < next → blocked_for ctx model t auth = true).
Proof.
  intros Ht. rewrite blocked_for_eq. unfold isAuthBlockedForModelForRequest.
  destruct (a_Disabled auth || _); simpl; [intros; simplify_eq; auto|].
  destruct (hasUnauthorizedAuthFailure auth); simpl; [intros; simplify_eq; auto|].
  destruct (token_expired ctx auth now) eqn:E1; simpl.
  { intros [= <- <-]. rewrite (token_expired_stays ctx auth now t) by (done || lia). auto. }
  destruct (credential_quota_active auth now) eqn:E2; simpl.
  { intros [= <- <-]. unfold credential_quota_active in *.
    apply andb_true_iff in E2 as [E2 E3]. rewrite E2. bprop. split; [by right|].
    intros Hnt. assert (E4 : after (NextRecoverAt (a_Quota auth)) t = true) by (bprop; lia).
    by rewrite E4, orb_true_r. }
  assert (Hplain : ∀ u e r q, availabilityBlock u e r q now = (true, reason, next) →
    (next = 0 ∨ now < next) ∧ (next = 0 ∨ t < next → (availabilityBlock u e r q t).1.1 = true)).
  { intros u e r q [[-> Hz]|(Hlt & Hin & _)]%availabilityBlock_window_aux; [|..|lia].
    - split; [by left|]. intros _. by rewrite Hz by lia.
    - split; [by right|]. intros [?|?]; [lia|]. by rewrite Hin by lia. }
  intros H.
  assert (Hlast : ∀ b c : bool, (next = 0 ∨ t < next → c = true) →
                  next = 0 ∨ t < next → b || c = true)
    by (intros b c Hc Hnt; rewrite Hc by done; apply orb_true_r).
  destruct (String.eqb model "") eqn:Em; simpl in *.
  - apply Hplain in H as [? H]. split; [done|]. by apply Hlast.
  - destruct (has_states auth); simpl in *.
    + apply (scan_states_stay _ now t) in H as [?|[? H]]; [done| |done].
      split; [done|]. by apply Hlast.
    + apply Hplain in H as [? H]. split; [done|]. by apply Hlast.
Qed.

(** A blocked credential stays blocked until the time its block announces
    (for ever when it announces none), so a caller that waits that long never
    waits in vain and never finds it earlier; and whether a credential is
    blocked does not depend on the order in which the map of its model states
    is visited. *)
Theorem block_window ctx auth model now reason next :
  0 ≤ now →
  isAuthBlockedForModelForRequest ctx auth model now = (true, reason, next) →
  (next = 0 ∨ now < next)
  ∧ (∀ t, now ≤ t → next = 0 ∨ t < next → blocked_for ctx model t auth = true)
  ∧ (∀ states, states ≡ₚ model_states auth →
       (scan_states (canonicalModelKey model) now false unblocked states).1.1
       = (scan_states (canonicalModelKey model) now false unblocked (model_states auth)).1.1).
Proof.
  intros Hn H. split_and!.
  - by apply (isAuthBlocked_stays ctx auth model now now reason next); [lia|].
  - intros t Ht. by apply (isAuthBlocked_stays ctx auth model now t reason next); [lia|].
  - intros states Hp. rewrite !scan_states_blocked by done. simpl.
    apply eq_true_iff_eq. rewrite !existsb_exists. by setoid_rewrite <- list_elem_of_In; setoid_rewrite Hp.
Qed.

(** ** Candidates of the best priority *)

Definition eligible (ctx : ReqCtx) (model : string) (now : time) (auth : Auth) : bool :=
  negb (blocked_for ctx model now auth).
Definition in_tier (ctx : ReqCtx) (model : string) (now : time) (p : Z) (auth : Auth) : bool :=
  eligible ctx model now auth && (authPriority auth =? p).

Definition bucket (available : gmap Z (list Auth)) (p : Z) : list Auth :=
  default [] (available !! p).
Definition buckets_nonempty (available : gmap Z (list Auth)) : Prop :=
  ∀ p l, available !! p = Some l → l ≠ [].

Lemma append_bucket_spec available c p :
  bucket (append_bucket available c) p
  = bucket available p ++ (if authPriority c =? p then [c] else []).
Proof.
  unfold append_bucket, bucket. case_if; bprop.
  - subst p. by rewrite lookup_insert_eq.
  - rewrite lookup_insert_ne by done. by rewrite app_nil_r.
Qed.

Lemma append_bucket_nonempty available c :
  buckets_nonempty available → buckets_nonempty (append_bucket available c).
Proof.
  intros Hb p l. unfold append_bucket. destruct (decide (authPriority c = p)) as [<-|Hne].
  - rewrite lookup_insert_eq. intros [= <-]. by destruct (default [] _).
  - rewrite lookup_insert_ne by done. apply Hb.
Qed.

(** What [earliest] has seen: every blocked candidate with a time is later. *)
Definition earliest_ok (ctx : ReqCtx) (model : string) (now earliest : time) (auth : Auth) : Prop :=
  blocked_for ctx model now auth = true →
  let next := (isAuthBlockedForModelForRequest ctx auth model now).2 in
  next ≠ 0 → earliest ≠ 0 ∧ earliest ≤ next.

Lemma disabled_next_zero ctx auth model now reason next :
  0 ≤ now → isAuthBlockedForModelForRequest ctx auth model now = (true, reason, next) →
  next = 0 ∨ now < next.
Proof. intros Hn H. by apply (isAuthBlocked_stays ctx auth model now now reason next); [lia|]. Qed.

Lemma availabilityBlock_reason u e r q now :
  (availabilityBlock u e r q now).1.2 ≠ blockReasonDisabled.
Proof. unfold availabilityBlock. repeat case_if; done. Qed.

Lemma scan_disabled_zero key now m acc states next :
  (acc.1.2 = blockReasonDisabled → acc.2 = 0) →
  scan_states key now m acc states = (true, blockReasonDisabled, next) → next = 0.
Proof.
  revert m acc. induction states as [|[k st] states IH]; intros m acc Ha; simpl.
  - destruct m; [|done]. intros ->. by apply Ha.
  - destruct (String.eqb _ key); simpl; [|by eauto].
    destruct (String.eqb (ms_Status st) StatusDisabled); [by intros [= <-]|].
    destruct (state_block st now) as [[b r] n] eqn:Eb.
    assert (Hr : r ≠ blockReasonDisabled).
    { intros ->. apply (availabilityBlock_reason (ms_Unavailable st) (Exceeded (ms_Quota st))
        (ms_NextRetryAfter st) (NextRecoverAt (ms_Quota st)) now).
      unfold state_block in Eb. by rewrite Eb. }
    destruct b; simpl; [|by apply IH]. destruct (is_zero n); [by intros [= ? <-]|].
    destruct acc as [[ab ar] an]. case_if; apply IH; [|done]. done.
Qed.

Lemma reason_disabled_next ctx auth model now next :
  isAuthBlockedForModelForRequest ctx auth model now = (true, blockReasonDisabled, next) → next = 0.
Proof.
  assert (Hp : ∀ u e r q, availabilityBlock u e r q now = (true, blockReasonDisabled, next) → next = 0).
  { intros u e r q H. pose proof (availabilityBlock_reason u e r q now) as Hr.
    by rewrite H in Hr. }
  unfold isAuthBlockedForModelForRequest.
  repeat case_if; try (intros; simplify_eq; done); try apply Hp.
  all: by apply scan_disabled_zero.
Qed.

(** The state of the loop of [collectAvailableByPriorityForRequest] after the
    candidates [done], in order. *)
Record collected (ctx : ReqCtx) (model : string) (now : time) (done : list Auth)
    (acc : gmap Z (list Auth) * Z * time) : Prop := {
  collected_bucket : ∀ p, bucket acc.1.1 p = List.filter (in_tier ctx model now p) done;
  collected_nonempty : buckets_nonempty acc.1.1;
  collected_earliest : Forall (earliest_ok ctx model now acc.2) done;
  collected_after : acc.2 = 0 ∨ now < acc.2;
}.

Lemma earliest_ok_mono ctx model now e e' auth :
  earliest_ok ctx model now e auth → (e' = e ∨ e' ≠ 0 ∧ (e = 0 ∨ e' ≤ e)) →
  earliest_ok ctx model now e' auth.
Proof. unfold earliest_ok. intros H He Hb Hn. specialize (H Hb Hn). simpl in *. lia. Qed.

Lemma collect_step_ok ctx model now done acc c :
  0 ≤ now → collected ctx model now done acc →
  collected ctx model now (done ++ [c]) (collect_step ctx model now acc c).
Proof.
  intros Hn [Hb Hne He Ha]. destruct acc as [[av n] e]. simpl in *. unfold collect_step.
  destruct (isAuthBlockedForModelForRequest ctx c model now) as [[b r] next] eqn:Ec.
  assert (Hbl : blocked_for ctx model now c = b) by (unfold blocked_for; by rewrite Ec).
  assert (Hf : ∀ p, List.filter (in_tier ctx model now p) (done ++ [c])
    = List.filter (in_tier ctx model now p) done
      ++ (if negb b && (authPriority c =? p) then [c] else [])).
  { intros p. rewrite List.filter_app. simpl. unfold in_tier at 2, eligible. by rewrite Hbl. }
  destruct b; simpl in *.
  - pose proof (disabled_next_zero _ _ _ _ _ _ Hn Ec) as Hnext.
    match goal with |- context [if ?b then next else e] => set (e' := if b then next else e) end.
    assert (He' : (e' = 0 ∨ now < e') ∧ (e' = e ∨ e' ≠ 0 ∧ (e = 0 ∨ e' ≤ e))
                  ∧ (next ≠ 0 → e' ≠ 0 ∧ e' ≤ next)).
    { unfold e', reason_is. case_bool_decide as Hr; simpl.
      - rewrite Hr in Ec. apply reason_disabled_next in Ec. lia.
      - destruct (after next now) eqn:E1, (is_zero e) eqn:E2, (before next e) eqn:E3; simpl;
          bprop; lia. }
    clearbody e'. destruct He' as (H1 & H2 & H3).
    split; simpl; [|done| |done].
    + intros p. by rewrite Hf, app_nil_r.
    + apply Forall_app. split.
      * eapply Forall_impl; [exact He|]. intros x Hx. by eapply earliest_ok_mono.
      * constructor; [|done]. intros _. rewrite Ec. exact H3.
  - split; simpl; [|by apply append_bucket_nonempty| |done].
    + intros p. rewrite append_bucket_spec, Hf, Hb. done.
    + apply Forall_app. split; [done|]. constructor; [|done]. intros Hb'. congruence.
Qed.

Lemma collect_ok ctx auths model now :
  0 ≤ now →
  collected ctx model now auths (collectAvailableByPriorityForRequest ctx auths model now).
Proof.
  intros Hn. unfold collectAvailableByPriorityForRequest.
  assert (Hgen : ∀ l done acc, collected ctx model now done acc →
    collected ctx model now (done ++ l) (foldl (collect_step ctx model now) acc l)).
  { induction l as [|c l IH]; intros done acc Hc; simpl; [by rewrite app_nil_r|].
    rewrite cons_middle, app_assoc. by apply IH, collect_step_ok. }
  apply (Hgen auths []). split; simpl; [|intros p l; by rewrite lookup_empty|done|by left].
  intros p. unfold bucket. by rewrite lookup_empty.
Qed.

Lemma best_step_spec l best :
  match foldl best_step best l with
  | Some b => (best = Some b ∨ b ∈ l) ∧ (∀ p, best = Some p ∨ p ∈ l → p ≤ b)
  | None => best = None ∧ l = []
  end.
Proof.
  revert best. induction l as [|x l IH]; intros best; simpl.
  - destruct best; [|done]. split; [by left|]. intros p [[= ->]|?]; [lia|set_solver].
  - specialize (IH (best_step best x)). destruct (foldl best_step (best_step best x) l) as [b|].
    + destruct IH as [H1 H2]. unfold best_step in *.
      destruct best as [q|]; [destruct (q <? x) eqn:E|]; bprop; split.
      * destruct H1 as [[= ->]|?]; [right; set_solver|right; set_solver].
      * intros p [[= ->]|[->|?]%elem_of_cons]; [|by apply H2; left|by apply H2; right].
        trans x; [lia|by apply H2; left].
      * destruct H1 as [?|?]; [by left|right; set_solver].
      * intros p [?|[->|?]%elem_of_cons]; [by apply H2; left| |by apply H2; right].
        trans q; [lia|by apply H2; left].
      * destruct H1 as [[= ->]|?]; right; set_solver.
      * intros p [?|[->|?]%elem_of_cons]; [done|by apply H2; left|by apply H2; right].
    + destruct IH as [H1 _]. unfold best_step in H1. destruct best; [case_if_in H1|]; done.
Qed.

(** The candidates selected: those eligible of the best priority. *)
Definition best_tier (ctx : ReqCtx) (model : string) (now : time) (auths l : list Auth) : Prop :=
  l ≠ [] ∧ ∃ p, Forall (fun a => eligible ctx model now a = true → authPriority a ≤ p) auths
    ∧ l ≡ₚ List.filter (in_tier ctx model now p) auths.

Lemma best_tier_of_buckets ctx model now auths acc :
  collected ctx model now auths acc → acc.1.1 ≠ ∅ →
  best_tier ctx model now auths (availableAuthsFromPriorityBuckets acc.1.1 false).
Proof.
  intros [Hb Hne _ _] Hav. set (av := acc.1.1) in *. unfold availableAuthsFromPriorityBuckets.
  pose proof (best_step_spec (map fst (map_to_list av)) None) as Hbest.
  destruct (foldl best_step None (map fst (map_to_list av))) as [p|]; simpl.
  - destruct Hbest as [[?|Hin] Hmax]; [done|].
    apply list_elem_of_In, in_map_iff in Hin as ([p' l] & Hp & Hin). simpl in Hp. subst p'.
    apply list_elem_of_In, elem_of_map_to_list in Hin.
    assert (Hl : bucket av p = l) by (unfold bucket; by rewrite Hin). rewrite Hin. simpl.
    rewrite Hb in Hl. split.
    + intros Hnil. apply (Hne _ _ Hin), Permutation_nil_r. rewrite <- Hnil. symmetry.
      apply sort_by_perm.
    + exists p. split; [|rewrite sort_by_perm; by rewrite Hl].
      apply Forall_forall. intros a Ha Hel.
      destruct (av !! authPriority a) as [l'|] eqn:El'.
      * apply Hmax. right. apply list_elem_of_In, in_map_iff. exists (authPriority a, l').
        split; [done|]. by apply list_elem_of_In, elem_of_map_to_list.
      * assert (Hx : a ∈ List.filter (in_tier ctx model now (authPriority a)) auths).
        { apply list_elem_of_In, filter_In. split; [by apply list_elem_of_In|].
          unfold in_tier. by rewrite Hel, Z.eqb_refl. }
        rewrite <- Hb in Hx. unfold bucket in Hx. rewrite El' in Hx. set_solver.
  - destruct Hbest as [_ Hnil]. exfalso. apply Hav. apply map_eq_nil in Hnil.
    by apply map_to_list_empty_iff.
Qed.

Lemma empty_buckets_all_blocked ctx model now auths acc :
  collected ctx model now auths acc → acc.1.1 = ∅ →
  Forall (fun a => blocked_for ctx model now a = true) auths.
Proof.
  intros [Hb _ _ _] He. apply Forall_forall. intros a Ha.
  destruct (blocked_for ctx model now a) eqn:E; [done|exfalso].
  assert (Hx : a ∈ List.filter (in_tier ctx model now (authPriority a)) auths).
  { apply list_elem_of_In, filter_In. split; [by apply list_elem_of_In|].
    unfold in_tier, eligible. by rewrite E, Z.eqb_refl. }
  rewrite <- Hb, He in Hx. unfold bucket in Hx. rewrite lookup_empty in Hx. set_solver.
Qed.

(** The wait an error proposes. *)
Definition retry_hint (e : select_error) : option duration :=
  match e with
  | PlainError _ => None
  | AuthUnavailable _ d => Some d
  | ModelCooldown _ _ d => Some d
  end.

(** Nobody is usable, and nobody will be before the proposed wait is over. *)
Definition nobody_until (ctx : ReqCtx) (model : string) (now : time) (auths : list Auth)
    (e : select_error) : Prop :=
  Forall (fun a => blocked_for ctx model now a = true) auths
  ∧ ∀ d, retry_hint e = Some d →
      0 < d ∧ ∀ t, now ≤ t < now + d → Forall (fun a => blocked_for ctx model t a = true) auths.

Lemma time_sub_bounds t u : u < t → 0 < time_sub t u ≤ t - u.
Proof. unfold time_sub, min_int64, max_int64. lia. Qed.

Lemma all_blocked_until ctx model now auths earliest d :
  0 ≤ now → Forall (fun a => blocked_for ctx model now a = true) auths →
  Forall (earliest_ok ctx model now earliest) auths →
  d ≤ earliest - now →
  ∀ t, now ≤ t < now + d → Forall (fun a => blocked_for ctx model t a = true) auths.
Proof.
  intros Hn Hb He Hd t Ht. rewrite !Forall_forall in *. intros a Ha.
  specialize (Hb a Ha). specialize (He a Ha Hb). simpl in He.
  destruct (isAuthBlockedForModelForRequest ctx a model now) as [[b r] n] eqn:Ea.
  unfold blocked_for in Hb. rewrite Ea in Hb. simpl in *. subst b.
  apply (isAuthBlocked_stays ctx a model now t r n) in Ea as [? Hs]; [|lia].
  apply Hs. lia.
Qed.

Lemma getAvailable_err ctx auths provider model now all e :
  0 ≤ now →
  getAvailableAuthsWithPriorityModeForRequest ctx auths provider model now all = Err e →
  nobody_until ctx model now auths e.
Proof.
  intros Hn H. unfold getAvailableAuthsWithPriorityModeForRequest in H.
  destruct auths as [|a0 rest]; [injection H as <-; split; [done|]; by intros d [=]|].
  set (auths := a0 :: rest) in *.
  pose proof (collect_ok ctx auths model now Hn) as Hc.
  destruct (collectAvailableByPriorityForRequest ctx auths model now) as [[av n] e0].
  case_bool_decide as Hav; [|done].
  pose proof (empty_buckets_all_blocked _ _ _ _ _ Hc Hav) as Hall.
  destruct Hc as [_ _ He Ha]. simpl in *.
  assert (Hsub : now < e0 → ∀ d, Some (time_sub e0 now) = Some d → 0 < d ∧ ∀ t,
    now ≤ t < now + d → Forall (fun a => blocked_for ctx model t a = true) auths).
  { intros Hlt d [= <-]. pose proof (time_sub_bounds e0 now Hlt). split; [lia|].
    eapply all_blocked_until; [done..|lia]. }
  split; [by case_if_in H; injection H as <-|].
  intros d Hd. case_if_in H; injection H as <-; simpl in Hd.
  - bprop. destruct Ha as [?|Ha]; [done|]. pose proof (time_sub_bounds e0 now Ha).
    apply Hsub; [done|]. rewrite <- Hd. f_equal. case_if; bprop; lia.
  - unfold newAuthUnavailableError in Hd. case_if_in Hd; simpl in Hd; [|done].
    bprop. by apply Hsub.
Qed.

Lemma getAvailable_ok ctx auths provider model now l :
  0 ≤ now →
  getAvailableAuthsWithPriorityModeForRequest ctx auths provider model now false = Ok l →
  best_tier ctx model now auths l ∧ StronglySorted (key_le a_ID) l.
Proof.
  intros Hn H. unfold getAvailableAuthsWithPriorityModeForRequest in H.
  destruct auths as [|a0 rest]; [done|]. set (auths := a0 :: rest) in *.
  pose proof (collect_ok ctx auths model now Hn) as Hc.
  destruct (collectAvailableByPriorityForRequest ctx auths model now) as [[av n] e0] eqn:Ec.
  case_bool_decide as Hav; [case_if_in H; done|]. injection H as <-.
  split; [by apply (best_tier_of_buckets _ _ _ _ _ Hc)|]. apply sort_by_sorted.
Qed.

(** C2 The candidates a selector works with are exactly the credentials that are
    not blocked for the model and have the highest priority among those, ordered
    by identifier; when there is none, every credential is blocked and stays so
    for the whole of the wait the error proposes. *)
Theorem candidates_correct ctx auths provider model now :
  0 ≤ now →
  match getAvailableAuthsWithPriorityModeForRequest ctx auths provider model now false with
  | Ok l => best_tier ctx model now auths l ∧ StronglySorted (key_le a_ID) l
  | Err e => nobody_until ctx model now auths e
  end.
Proof.
  intros Hn. destruct (getAvailableAuthsWithPriorityModeForRequest _ _ _ _ _ _) eqn:E.
  - by eapply getAvailable_ok.
  - by eapply getAvailable_err.
Qed.

(** A credential whose access token the upstream rejected is not selected
    with that token for any model, whatever its other state. *)
Theorem rejected_token_blocks ctx auth model now :
  unix_epoch ≤ now →
  IsCodexUseSIWC auth = false →
  authOuterAccessToken auth ≠ "" →
  a_RejectedAccessToken auth = authOuterAccessToken auth →
  blocked_for ctx model now auth = true ∧ HasValidAccessToken auth now = false.
Proof.
  intros Hn Hs Ht Hr. apply String.eqb_neq in Ht.
  assert (Hexp : AccessTokenExpirationTime auth = Some unix_epoch).
  { unfold AccessTokenExpirationTime, authAccessToken. rewrite Hs, Ht, Hr, String.eqb_refl, Ht. done. }
  split.
  - rewrite blocked_for_eq.
    assert (He : token_expired ctx auth now = true).
    { unfold token_expired, AccessTokenExpirationTimeForRequest. rewrite Hs. simpl. rewrite Hexp.
      simpl. apply negb_true_iff, after_false. done. }
    by rewrite He, orb_true_r.
  - unfold HasValidAccessToken. rewrite Hexp. case_if; [done|]. apply after_false. done.
Qed.

End Block.

(** ** Witnesses *)

Definition no_parse : GoParse :=
  {| time_Parse := fun _ _ => None; number_Float64 := fun _ => None;
     jwt_exp_claim := fun _ => None |}.
#[local] Existing Instance no_parse.

Definition sample (id priority : string) (until : time) : Auth :=
  (new_auth id) <| a_Attributes := {[ "priority" := priority ]} |>
    <| a_Unavailable := negb (is_zero until) |> <| a_NextRetryAfter := until |>.

Lemma block_window_witness :
  isAuthBlockedForModelForRequest background (sample "a" "1" 50) "" 10
  = (true, blockReasonOther, 50)
  ∧ blocked_for background "" 49 (sample "a" "1" 50) = true.
Proof.
  assert (H : isAuthBlockedForModelForRequest background (sample "a" "1" 50) "" 10
              = (true, blockReasonOther, 50)) by reflexivity.
  split; [exact H|].
  pose proof (block_window background (sample "a" "1" 50) "" 10 blockReasonOther 50) as Hw.
  apply Hw; [lia|exact H|lia|right; lia].
Defined.

Lemma candidates_correct_witness :
  getAvailableAuthsWithPriorityModeForRequest background
    [sample "b" "1" 0; sample "c" "7" 50; sample "a" "1" 0; sample "d" "0" 0] "p" "" 10 false
  = Ok [sample "a" "1" 0; sample "b" "1" 0]
  ∧ best_tier background "" 10
      [sample "b" "1" 0; sample "c" "7" 50; sample "a" "1" 0; sample "d" "0" 0]
      [sample "a" "1" 0; sample "b" "1" 0].
Proof.
  assert (H : getAvailableAuthsWithPriorityModeForRequest background
    [sample "b" "1" 0; sample "c" "7" 50; sample "a" "1" 0; sample "d" "0" 0] "p" "" 10 false
    = Ok [sample "a" "1" 0; sample "b" "1" 0]) by (vm_compute; reflexivity).
  split; [exact H|].
  pose proof (candidates_correct background
    [sample "b" "1" 0; sample "c" "7" 50; sample "a" "1" 0; sample "d" "0" 0] "p" "" 10) as Hc.
  rewrite H in Hc. apply Hc. lia.
Defined.

Lemma rejected_token_blocks_witness :
  let auth := (new_auth "a") <| a_Metadata := [("access_token", AStr "t")] |>
                <| a_RejectedAccessToken := "t" |> in
  blocked_for background "m" unix_epoch auth = true ∧ HasValidAccessToken auth unix_epoch = false.
Proof.
  intros auth. apply (rejected_token_blocks background auth "m" unix_epoch).
  - lia.
  - reflexivity.
  - discriminate.
  - reflexivity.
Defined.

End Availability.
