(* ===== verification/Selector.v ===== *)
(** * Selection strategies: sdk/cliproxy/auth/selector.go

    The round-robin, smooth weighted round-robin and fill-first selectors.
    Each [Pick] takes the time the code reads from the clock; a lookup out of
    the bounds of a slice is [Panicked], which the theorems exclude.  A nil map
    and an empty one behave alike in the code that uses them. *)
From S2P Require Import Prelude GoLib Weight Thinking AuthTypes Expiry Availability.
Import AuthTypes Expiry Availability.

Module Selector.

Inductive picked : Type :=
| Picked (auth : Auth)
| NotPicked (e : select_error)
| Panicked.

(** ** Round robin *)

Record RoundRobinSelector : Type := {
  rr_lastPicked : gmap string string;
  rr_maxKeys : Z;
}.
#[global] Instance RoundRobinSelector_eta : Eta RoundRobinSelector := fun s =>
  {| rr_lastPicked := rr_lastPicked s; rr_maxKeys := rr_maxKeys s |}.

(** [sort.Search(n, f)]: binary search of the least index in [i, j) where [f]
    holds, [j] when there is none. *)
Fixpoint sort_Search (fuel : nat) (f : nat → bool) (i j : nat) : nat :=
  match fuel with
  | O => i
  | S fuel =>
      if (i <? j)%nat then
        let h := ((i + j) / 2)%nat in
        if f h then sort_Search fuel f i h else sort_Search fuel f (h + 1) j
      else i
  end.

Definition id_after (available : list Auth) (lastID : string) (i : nat) : bool :=
  match available !! i with
  | Some auth => str_lt lastID (a_ID auth)
  | None => false
  end.

Definition successorIndex (available : list Auth) (lastID : string) : nat :=
  if String.eqb lastID "" then 0%nat
  else
    let n := length available in
    let index := sort_Search (S n) (id_after available lastID) 0 n in
    if (n <=? index)%nat then 0%nat else index.

Definition ensureRotationKey (s : RoundRobinSelector) (key : string) (limit : Z) :
    RoundRobinSelector :=
  match rr_lastPicked s !! key with
  | None => if limit <=? Z.of_nat (size (rr_lastPicked s)) then s <| rr_lastPicked := ∅ |> else s
  | Some _ => s
  end.

Definition rr_limit (s : RoundRobinSelector) : Z :=
  if rr_maxKeys s <=? 0 then 4096 else rr_maxKeys s.

(** The part of [Pick] under the lock. *)
Definition rr_step (s : RoundRobinSelector) (key : string) (available : list Auth) :
    picked * RoundRobinSelector :=
  let s := ensureRotationKey s key (rr_limit s) in
  let index := successorIndex available (default "" (rr_lastPicked s !! key)) in
  match available !! index with
  | Some auth => (Picked auth, s <| rr_lastPicked := <[key := a_ID auth]> (rr_lastPicked s) |>)
  | None => (Panicked, s)
  end.

(** ** Smooth weighted round robin *)

Record smoothWeightedState : Type := {
  sw_current : gmap string Z;
  sw_weights : gmap string Z;
}.
#[global] Instance smoothWeightedState_eta : Eta smoothWeightedState := fun s =>
  {| sw_current := sw_current s; sw_weights := sw_weights s |}.
Definition empty_smooth : smoothWeightedState := {| sw_current := ∅; sw_weights := ∅ |}.

Record WeightedRoundRobinSelector : Type := {
  wr_states : gmap string smoothWeightedState;
  wr_maxKeys : Z;
}.
#[global] Instance WeightedRoundRobinSelector_eta : Eta WeightedRoundRobinSelector := fun s =>
  {| wr_states := wr_states s; wr_maxKeys := wr_maxKeys s |}.

Definition maxSmoothWeightedStateEntries : Z := 1024.

Definition weightsConfigChanged (left right : gmap string Z) : bool :=
  if bool_decide (left = ∅) then false
  else existsb (fun '(authID, weight) =>
         match left !! authID with
         | Some previous => negb (previous =? weight)
         | None => false
         end) (map_to_list right).

Definition pruneStale (s : smoothWeightedState) (weights : gmap string Z) : smoothWeightedState :=
  if (Z.of_nat (size (sw_current s)) <=? maxSmoothWeightedStateEntries)
     && (Z.of_nat (size (sw_weights s)) <=? maxSmoothWeightedStateEntries) then s
  else
    s <| sw_current := filter (fun p => is_Some (weights !! p.1)) (sw_current s) |>
      <| sw_weights := filter (fun p => is_Some (weights !! p.1)) (sw_weights s) |>.

Definition prepare (s : smoothWeightedState) (weights : gmap string Z) : smoothWeightedState :=
  let s := if weightsConfigChanged (sw_weights s) weights then s <| sw_current := ∅ |> else s in
  pruneStale (s <| sw_weights := weights ∪ sw_weights s |>) weights.

Definition authWeightVector (auths : list Auth) : gmap string Z :=
  foldl (fun weights auth =>
           if 0 <? authWeight auth then <[a_ID auth := authWeight auth]> weights else weights)
    ∅ auths.

Definition saturatingAddInt64 (value delta : Z) : Z :=
  if (0 <? delta) && (max_int64 - delta <? value) then max_int64
  else if (delta <? 0) && (value <? min_int64 - delta) then min_int64
  else value + delta.

(** The loop of [pickSmoothWeightedAuth]. *)
Record smooth_acc : Type := {
  sa_picked : option Auth;
  sa_pickedCurrent : Z;
  sa_totalWeight : Z;
  sa_current : gmap string Z;
}.

Definition smooth_step (acc : smooth_acc) (auth : Auth) : smooth_acc :=
  let weight := authWeight auth in
  if weight <=? 0 then acc
  else
    let c := saturatingAddInt64 (default 0 (sa_current acc !! a_ID auth)) weight in
    let better := match sa_picked acc with None => true | Some _ => sa_pickedCurrent acc <? c end in
    {| sa_picked := if better then Some auth else sa_picked acc;
       sa_pickedCurrent := if better then c else sa_pickedCurrent acc;
       sa_totalWeight := saturatingAddInt64 (sa_totalWeight acc) weight;
       sa_current := <[a_ID auth := c]> (sa_current acc) |}.

Definition pickSmoothWeightedAuth (auths : list Auth) (current : gmap string Z) :
    option Auth * gmap string Z :=
  let acc := foldl smooth_step
               {| sa_picked := None; sa_pickedCurrent := 0; sa_totalWeight := 0;
                  sa_current := current |} auths in
  match sa_picked acc with
  | None => (None, sa_current acc)
  | Some p =>
      (Some p, <[a_ID p := saturatingAddInt64 (default 0 (sa_current acc !! a_ID p))
                             (- sa_totalWeight acc)]> (sa_current acc))
  end.

Definition positiveWeightAuths (auths : list Auth) : list Auth :=
  List.filter (fun auth => 0 <? authWeight auth) auths.

(** One pick from the state of a key. *)
Definition smooth_pick (state : smoothWeightedState) (available : list Auth) :
    option Auth * smoothWeightedState :=
  let state := prepare state (authWeightVector available) in
  let '(p, current) := pickSmoothWeightedAuth available (sw_current state) in
  (p, state <| sw_current := current |>).

Definition wr_limit (s : WeightedRoundRobinSelector) : Z :=
  if wr_maxKeys s <=? 0 then 4096 else wr_maxKeys s.

(** The part of [Pick] under the lock. *)
Definition wr_step (s : WeightedRoundRobinSelector) (key : string) (available : list Auth) :
    picked * WeightedRoundRobinSelector :=
  let states := match wr_states s !! key with
                | None => if wr_limit s <=? Z.of_nat (size (wr_states s)) then ∅ else wr_states s
                | Some _ => wr_states s
                end in
  let state := default empty_smooth (states !! key) in
  let '(p, state) := smooth_pick state available in
  let s := s <| wr_states := <[key := state]> states |> in
  match p with
  | Some auth => (Picked auth, s)
  | None => (NotPicked (PlainError (plain_error "auth_unavailable"
                                      "no auth available with positive weight")), s)
  end.

Section Picks.
Context `{GP : GoParse}.

Definition RoundRobin_Pick (s : RoundRobinSelector) (ctx : ReqCtx) (provider model : string)
    (auths : list Auth) (now : time) : picked * RoundRobinSelector :=
  match getSelectorAvailableAuths ctx auths provider model now with
  | Err e => (NotPicked e, s)
  | Ok available =>
      let available := preferCodexWebsocketAuths ctx provider available in
      rr_step s (provider +:+ ":" +:+ canonicalModelKey model) available
  end.

Definition weightedSelectorStateModel (ctx : ReqCtx) (availabilityModel : string) : string :=
  if negb (String.eqb (trim_space (ctx_weighted_model ctx)) "") then ctx_weighted_model ctx
  else availabilityModel.

Definition Weighted_Pick (s : WeightedRoundRobinSelector) (ctx : ReqCtx) (provider model : string)
    (auths : list Auth) (now : time) : picked * WeightedRoundRobinSelector :=
  match getSelectorAvailableAuths ctx (positiveWeightAuths auths) provider model now with
  | Err e => (NotPicked e, s)
  | Ok available =>
      let available := preferCodexWebsocketAuths ctx provider available in
      let stateModel := weightedSelectorStateModel ctx model in
      wr_step s (provider +:+ ":" +:+ canonicalModelKey stateModel) available
  end.

Definition FillFirst_Pick (ctx : ReqCtx) (provider model : string) (auths : list Auth)
    (now : time) : picked :=
  match getSelectorAvailableAuths ctx auths provider model now with
  | Err e => NotPicked e
  | Ok available =>
      match preferCodexWebsocketAuths ctx provider available with
      | auth :: _ => Picked auth
      | [] => Panicked
      end
  end.

End Picks.

(** ** Round robin: the successor in the ring *)

(** Candidates in the strict order of their identifiers. *)
Definition id_lt (a b : Auth) : Prop := str_lt (a_ID a) (a_ID b) = true.
Definition ring (l : list Auth) : Prop := StronglySorted id_lt l.

Lemma ring_lookup_lt l i j a b :
  ring l → l !! i = Some a → l !! j = Some b → (i < j)%nat → id_lt a b.
Proof.
  intros Hr. revert i j. induction Hr as [|x l _ IH Hx]; intros i j Hi Hj Hij; [done|].
  destruct j as [|j]; [lia|]. destruct i as [|i]; simpl in *.
  - simplify_eq. rewrite Forall_forall in Hx. apply Hx. by eapply list_elem_of_lookup_2.
  - apply (IH i j); [done..|lia].
Qed.

Lemma sort_Search_spec f n fuel i j :
  (∀ a b, (a ≤ b < n)%nat → f a = true → f b = true) →
  (i ≤ j ≤ n)%nat → (j - i < fuel)%nat →
  (∀ a, (a < i)%nat → f a = false) → (∀ b, (j ≤ b < n)%nat → f b = true) →
  let r := sort_Search fuel f i j in
  (i ≤ r ≤ j)%nat ∧ (∀ a, (a < r)%nat → f a = false) ∧ (∀ b, (r ≤ b < n)%nat → f b = true).
Proof.
  intros Hmono. revert i j. induction fuel as [|fuel IH]; intros i j Hij Hf Hlo Hhi; cbn [sort_Search]; cbv zeta; [lia|].
  destruct (i <? j)%nat eqn:E; [apply Nat.ltb_lt in E|apply Nat.ltb_ge in E].
  - set (h := ((i + j) / 2)%nat).
    assert (Hh : (i ≤ h < j)%nat).
    { unfold h. split; [apply Nat.div_le_lower_bound; lia|apply Nat.Div0.div_lt_upper_bound; lia]. }
    destruct (f h) eqn:Eh.
    + destruct (IH i h) as (H1 & H2 & H3); [lia|lia|done| |split; [lia|done]].
      intros b Hb. apply (Hmono h b); [lia|done].
    + destruct (IH (h + 1)%nat j) as (H1 & H2 & H3); [lia|lia| |done|split; [lia|done]].
      intros a Ha. destruct (f a) eqn:Ea; [|done]. rewrite <- Eh. symmetry.
      apply (Hmono a h); [lia|done].
  - split_and!; [lia|lia| |]; intros b Hb; [apply Hlo; lia|apply Hhi; lia].
Qed.

Lemma id_after_mono l lastID a b :
  ring l → (a ≤ b < length l)%nat → id_after l lastID a = true → id_after l lastID b = true.
Proof.
  intros Hr Hab. unfold id_after. destruct (l !! a) as [x|] eqn:Ea; [|done].
  destruct (l !! b) as [y|] eqn:Eb; [|apply lookup_ge_None in Eb; lia].
  intros H. destruct (decide (a = b)) as [->|Hne]; [by simplify_eq|].
  eapply str_lt_trans; [exact H|]. apply (ring_lookup_lt l a b x y); [done..|lia].
Qed.

(** The index [successorIndex] returns: the first identifier after the last
    one, the head of the ring when there is none. *)
Lemma successorIndex_spec l lastID :
  ring l → l ≠ [] → lastID ≠ "" →
  let i := successorIndex l lastID in
  (i < length l)%nat
  ∧ (((∀ k, (k < i)%nat → id_after l lastID k = false) ∧ id_after l lastID i = true)
     ∨ (i = 0%nat ∧ ∀ k, id_after l lastID k = false)).
Proof.
  intros Hr Hl Hid. unfold successorIndex. apply String.eqb_neq in Hid as ->.
  set (n := length l). assert (Hn : (0 < n)%nat) by (subst n; destruct l; [done|simpl; lia]).
  destruct (sort_Search_spec (id_after l lastID) n (S n) 0 n) as (H1 & H2 & H3).
  - intros a b Hab. by apply id_after_mono.
  - lia.
  - lia.
  - intros a Ha; lia.
  - intros b Hb; lia.
  - set (r := sort_Search _ _ _ _) in *.
    destruct (n <=? r)%nat eqn:E; [apply Nat.leb_le in E|apply Nat.leb_gt in E].
    + split; [done|]. right. split; [done|]. intros k.
      destruct (decide (k < r)%nat) as [?|?]; [by apply H2|].
      unfold id_after. rewrite lookup_ge_None_2; [done|]. subst n. lia.
    + split; [done|]. left. split; [done|]. apply H3. lia.
Qed.

Lemma rr_step_spec s key l :
  ring l → l ≠ [] → Forall (fun a => a_ID a ≠ "") l →
  ∃ i a, l !! i = Some a ∧ rr_step s key l
      = (Picked a, (ensureRotationKey s key (rr_limit s))
                     <| rr_lastPicked := <[key := a_ID a]>
                          (rr_lastPicked (ensureRotationKey s key (rr_limit s))) |>)
    ∧ (∀ j b, rr_lastPicked s !! key = Some (a_ID b) → l !! j = Some b →
         i = if (S j =? length l)%nat then 0%nat else S j).
Proof.
  intros Hr Hl Hid. unfold rr_step.
  set (s1 := ensureRotationKey s key (rr_limit s)).
  set (last := default "" (rr_lastPicked s1 !! key)).
  assert (Hlt : (successorIndex l last < length l)%nat).
  { destruct (decide (last = "")) as [->|Hne].
    - unfold successorIndex. simpl. destruct l; [done|simpl; lia].
    - by apply successorIndex_spec. }
  apply lookup_lt_is_Some in Hlt as [a Ha]. exists (successorIndex l last), a. rewrite Ha.
  split_and!; [done|done|]. intros j b Hb Hj.
  assert (Hlast : last = a_ID b).
  { unfold last, s1, ensureRotationKey. by rewrite Hb, Hb. }
  rewrite Hlast. assert (Hne : a_ID b ≠ "").
  { rewrite Forall_forall in Hid. apply Hid. by eapply list_elem_of_lookup_2. }
  destruct (successorIndex_spec l (a_ID b) Hr Hl Hne) as [Hi Hc].
  set (i := successorIndex l (a_ID b)) in *. clearbody i. unfold id_after in Hc.
  pose proof (lookup_lt_Some _ _ _ Hj) as Hjl.
  assert (Hself : ∀ k c, l !! k = Some c → (k ≤ j)%nat → str_lt (a_ID b) (a_ID c) = false).
  { intros k c Hk Hkj. destruct (decide (k = j)) as [->|]; [simplify_eq; apply str_lt_irrefl|].
    apply str_lt_asym. apply (ring_lookup_lt l k j c b); [done..|lia]. }
  assert (Hnext : ∀ c, l !! S j = Some c → str_lt (a_ID b) (a_ID c) = true).
  { intros c Hc'. apply (ring_lookup_lt l j (S j) b c); [done..|lia]. }
  destruct (S j =? length l)%nat eqn:E; [apply Nat.eqb_eq in E|apply Nat.eqb_neq in E].
  - destruct Hc as [[_ Hafter]|[? _]]; [|done].
    destruct (l !! i) as [c|] eqn:Ec; [|done]. rewrite (Hself i c) in Hafter; [done|done|lia].
  - assert (is_Some (l !! S j)) as [c Ec] by (apply lookup_lt_is_Some; lia).
    destruct Hc as [[Hbefore Hafter]|[_ Hnone]].
    + destruct (decide (i < S j)%nat).
      { destruct (l !! i) as [d|] eqn:Ed; [|done]. rewrite (Hself i d) in Hafter; [done|done|lia]. }
      destruct (decide (S j < i)%nat) as [Hgt|]; [|lia].
      specialize (Hbefore (S j) Hgt). by rewrite Ec, Hnext in Hbefore.
    + specialize (Hnone (S j)). rewrite Ec, Hnext in Hnone; done.
Qed.

(** [k] consecutive picks from the same candidates. *)
Fixpoint rr_picks (k : nat) (s : RoundRobinSelector) (key : string) (l : list Auth) : list picked :=
  match k with
  | O => []
  | S k => let '(p, s) := rr_step s key l in p :: rr_picks k s key l
  end.

Lemma rr_picks_from s key l j b k :
  ring l → l ≠ [] → Forall (fun a => a_ID a ≠ "") l →
  rr_lastPicked s !! key = Some (a_ID b) → l !! j = Some b →
  ∀ m, (m < k)%nat →
    rr_picks k s key l !! m = Picked <$> l !! ((j + 1 + m) mod length l)%nat.
Proof.
  intros Hr Hl Hid. revert s j b. induction k as [|k IH]; intros s j b Hs Hj m Hm; [lia|].
  cbn [rr_picks]. destruct (rr_step_spec s key l Hr Hl Hid) as (i & a & Ha & -> & Hi).
  specialize (Hi j b Hs Hj). pose proof (lookup_lt_Some _ _ _ Hj) as Hjl.
  assert (Hmod : ((j + 1) mod length l = i)%nat).
  { rewrite Hi. destruct (S j =? length l)%nat eqn:E; [apply Nat.eqb_eq in E|apply Nat.eqb_neq in E].
    - replace (j + 1)%nat with (length l) by lia. apply Nat.Div0.mod_same.
    - rewrite Nat.mod_small by lia. lia. }
  destruct m as [|m].
  - simpl. rewrite Nat.add_0_r, Hmod, Ha. done.
  - simpl. rewrite (IH _ i a); [|simpl; by rewrite lookup_insert_eq|done|lia].
    f_equal. f_equal. rewrite <- Hmod.
    rewrite <- Nat.add_assoc, Nat.Div0.add_mod_idemp_l. f_equal; lia.
Qed.

Lemma length_rr_picks k s key l : length (rr_picks k s key l) = k.
Proof.
  revert s. induction k as [|k IH]; intros s; simpl; [done|].
  destruct (rr_step s key l). simpl. by rewrite IH.
Qed.

(** Round robin is a rotation: as many consecutive picks as there are
    candidates go once round the ring of candidates, from wherever it stands,
    so that every candidate is picked exactly once. *)
Theorem round_robin_rotation s key l :
  ring l → l ≠ [] → Forall (fun a => a_ID a ≠ "") l →
  (∃ i, rr_picks (length l) s key l = map Picked (rotate i l))
  ∧ rr_picks (length l) s key l ≡ₚ map Picked l.
Proof.
  intros Hr Hl Hid.
  assert (Hrot : ∃ i, rr_picks (length l) s key l = map Picked (rotate i l)).
  { destruct (length l) as [|n] eqn:En; [by destruct l|]. cbn [rr_picks].
    destruct (rr_step_spec s key l Hr Hl Hid) as (i & a & Ha & -> & _).
    pose proof (lookup_lt_Some _ _ _ Ha) as Hil. exists i. apply list_eq. intros m.
    destruct (decide (m < length l)%nat) as [Hm|Hm]; last first.
    { rewrite !lookup_ge_None_2; [done|..].
      - rewrite length_map, length_rotate. lia.
      - simpl. rewrite length_rr_picks. lia. }
    change (map Picked (rotate i l)) with (Picked <$> rotate i l).
    rewrite list_lookup_fmap, lookup_rotate_r by lia. unfold rotate_nat_add.
    rewrite <- Nat2Z.inj_add, <- Nat2Z.inj_mod, Nat2Z.id.
    destruct m as [|m]; simpl.
    - by rewrite Nat.add_0_r, Nat.mod_small, Ha by lia.
    - rewrite (rr_picks_from _ _ _ i a); [|done|done|done|simpl; by rewrite lookup_insert_eq|done|lia].
      do 2 f_equal. f_equal. lia. }
  split; [done|]. destruct Hrot as [i ->]. apply Permutation_map.
  unfold rotate. rewrite Permutation_app_comm. by rewrite take_drop.
Qed.

Lemma round_robin_rotation_witness :
  let l := map new_auth ["a"; "b"; "c"] in
  let s := {| rr_lastPicked := {[ "k" := "b" ]}; rr_maxKeys := 0 |} in
  rr_picks 3 s "k" l = map (fun id => Picked (new_auth id)) ["c"; "a"; "b"]
  ∧ rr_picks 3 s "k" l ≡ₚ map Picked l.
Proof.
  intros l s. split; [vm_compute; reflexivity|].
  apply (round_robin_rotation s "k" l).
  - repeat constructor.
  - discriminate.
  - repeat constructor; discriminate.
Defined.

(** ** Smooth weighted round robin: exact proportions *)

Definition credit (c : gmap string Z) (a : Auth) : Z := default 0 (c !! a_ID a).
Definition total_weight (l : list Auth) : Z := zsum authWeight l.

(** A pool: distinct credentials of positive weight, small enough for credits
    to stay within 64 bits. *)
Record pool (l : list Auth) : Prop := {
  pool_nonempty : l ≠ [];
  pool_nodup : NoDup (map a_ID l);
  pool_weights : ∀ a, a ∈ l → 0 < authWeight a;
  pool_small : (Z.of_nat (length l) + 1) * total_weight l ≤ max_int64;
}.

Lemma saturating_exact v d : in_int64 (v + d) → saturatingAddInt64 v d = v + d.
Proof.
  unfold in_int64, saturatingAddInt64, min_int64, max_int64. intros H.
  destruct (0 <? d) eqn:E1, (2 ^ 63 - 1 - d <? v) eqn:E2, (d <? 0) eqn:E3,
    (v <? - 2 ^ 63 - d) eqn:E4; bprop; simpl; lia.
Qed.

Lemma smooth_fold_spec l acc :
  NoDup (map a_ID l) → (∀ a, a ∈ l → 0 < authWeight a) →
  (∀ a, a ∈ l → in_int64 (credit (sa_current acc) a + authWeight a)) →
  0 ≤ sa_totalWeight acc → sa_totalWeight acc + total_weight l ≤ max_int64 →
  let r := foldl smooth_step acc l in
  sa_totalWeight r = sa_totalWeight acc + total_weight l
  ∧ (∀ a, a ∈ l → credit (sa_current r) a = credit (sa_current acc) a + authWeight a)
  ∧ (∀ id, id ∉ map a_ID l → sa_current r !! id = sa_current acc !! id)
  ∧ match sa_picked r with
    | None => sa_picked acc = None ∧ l = []
    | Some p =>
        (sa_picked acc = Some p ∧ sa_pickedCurrent r = sa_pickedCurrent acc
         ∨ p ∈ l ∧ sa_pickedCurrent r = credit (sa_current acc) p + authWeight p)
        ∧ (∀ a, a ∈ l → credit (sa_current acc) a + authWeight a ≤ sa_pickedCurrent r)
        ∧ (sa_picked acc ≠ None → sa_pickedCurrent acc ≤ sa_pickedCurrent r)
    end.
Proof.
  revert acc. induction l as [|x l IH]; intros acc Hnd Hw Hr H0 Ht; cbn [foldl]; cbv zeta.
  - unfold total_weight. simpl. split_and!; try set_solver; [lia|].
    destruct (sa_picked acc); [|done]. split_and!; [by left|set_solver|lia].
  - unfold total_weight in *. rewrite zsum_cons in *. simpl in Hnd.
    apply NoDup_cons in Hnd as [Hx Hnd].
    assert (Hwx : 0 < authWeight x) by (apply Hw; by left).
    assert (Hsum : 0 ≤ zsum authWeight l)
      by (apply zsum_nonneg; intros a Ha; specialize (Hw a ltac:(by right)); lia).
    set (acc1 := smooth_step acc x).
    assert (Hc : saturatingAddInt64 (credit (sa_current acc) x) (authWeight x)
                 = credit (sa_current acc) x + authWeight x)
      by (apply saturating_exact, Hr; by left).
    assert (H1 : sa_totalWeight acc1 = sa_totalWeight acc + authWeight x
      ∧ sa_current acc1 = <[a_ID x := credit (sa_current acc) x + authWeight x]> (sa_current acc)
      ∧ (sa_picked acc1 = Some x ∧ sa_pickedCurrent acc1 = credit (sa_current acc) x + authWeight x
           ∧ (sa_picked acc ≠ None → sa_pickedCurrent acc ≤ sa_pickedCurrent acc1)
         ∨ sa_picked acc1 = sa_picked acc ∧ sa_picked acc ≠ None
           ∧ sa_pickedCurrent acc1 = sa_pickedCurrent acc
           ∧ credit (sa_current acc) x + authWeight x ≤ sa_pickedCurrent acc)).
    { unfold acc1, smooth_step. destruct (authWeight x <=? 0) eqn:E; bprop; [lia|]. simpl.
      change (default 0 (sa_current acc !! a_ID x)) with (credit (sa_current acc) x).
      rewrite Hc, saturating_exact by (unfold in_int64, min_int64, max_int64 in *; lia).
      split_and!; [done..|].
      destruct (sa_picked acc) as [q|]; [|by left].
      case_if; bprop; [left|right]; split_and!; try done; lia. }
    destruct H1 as (Ht1 & Hcur1 & Hp1). clearbody acc1.
    assert (Hcr : ∀ a, a ∈ l → credit (sa_current acc1) a = credit (sa_current acc) a).
    { intros a Ha. unfold credit. rewrite Hcur1, lookup_insert_ne; [done|]. intros Heq.
      apply Hx. rewrite Heq. by apply (list_elem_of_fmap_2 a_ID). }
    destruct (IH acc1) as (H2 & H3 & H4 & H5); [done|intros; apply Hw; by right| | lia|lia|].
    { intros a Ha. rewrite Hcr by done. apply Hr. by right. }
    set (r := foldl smooth_step acc1 l) in *. clearbody r.
    assert (Hxr : credit (sa_current r) x = credit (sa_current acc) x + authWeight x).
    { unfold credit at 1. rewrite H4 by done. rewrite Hcur1, lookup_insert_eq. done. }
    split_and!.
    + lia.
    + intros a [->|Ha]%elem_of_cons; [done|]. by rewrite H3, Hcr.
    + intros id Hid. simpl in Hid. apply not_elem_of_cons in Hid as [? ?].
      rewrite H4 by done. by rewrite Hcur1, lookup_insert_ne.
    + destruct (sa_picked r) as [p|].
      * destruct H5 as (H5 & H6 & H7). split_and!.
        -- destruct H5 as [[Hq Hqc]|[Hq Hqc]]; [|right; split; [by right|]; by rewrite Hqc, Hcr].
           destruct Hp1 as [(Hp & Hpc & _)|(Hp & _ & Hpc & _)].
           ++ right. rewrite Hp in Hq. injection Hq as <-. split; [by left|]. congruence.
           ++ left. split; congruence.
        -- intros a [->|Ha]%elem_of_cons; [|specialize (H6 a Ha); by rewrite Hcr in H6].
           destruct Hp1 as [(Hp & Hpc & _)|(Hp & ? & Hpc & ?)];
             (assert (sa_picked acc1 ≠ None) as Hn by congruence); specialize (H7 Hn); lia.
        -- intros Hn. destruct Hp1 as [(Hp & Hpc & Hle)|(Hp & ? & Hpc & ?)];
             (assert (sa_picked acc1 ≠ None) as Hn1 by congruence); specialize (H7 Hn1);
             try specialize (Hle Hn); lia.
      * destruct H5 as [H5 _]. destruct Hp1 as [(Hp & _)|(Hp & ? & _)]; congruence.
Qed.

Lemma pick_smooth_spec l current :
  pool l → (∀ a, a ∈ l → - total_weight l < credit current a ≤ Z.of_nat (length l) * total_weight l) →
  ∃ p c', pickSmoothWeightedAuth l current = (Some p, c') ∧ p ∈ l
    ∧ (∀ a, a ∈ l → credit current a + authWeight a ≤ credit current p + authWeight p)
    ∧ (∀ a, a ∈ l → credit c' a
         = credit current a + authWeight a
           + (if String.eqb (a_ID a) (a_ID p) then - total_weight l else 0)).
Proof.
  intros [Hne Hnd Hw Hsm] Hb.
  assert (Hwle : ∀ a, a ∈ l → authWeight a ≤ total_weight l).
  { intros a Ha. apply zsum_elem_le; [|done]. intros x Hx. specialize (Hw x Hx). lia. }
  assert (Hlen : 1 ≤ Z.of_nat (length l)) by (destruct l; [done|simpl; lia]).
  assert (Htw : 0 ≤ total_weight l).
  { apply zsum_nonneg. intros x Hx. specialize (Hw x Hx). lia. }
  unfold max_int64 in Hsm.
  assert (Hr : ∀ a, a ∈ l → in_int64 (credit current a + authWeight a)).
  { intros a Ha. specialize (Hb a Ha). specialize (Hw a Ha). specialize (Hwle a Ha).
    unfold in_int64, min_int64, max_int64. nia. }
  destruct (smooth_fold_spec l {| sa_picked := None; sa_pickedCurrent := 0; sa_totalWeight := 0;
    sa_current := current |} Hnd Hw Hr) as (H1 & H2 & _ & H4); [done|simpl; unfold max_int64; nia|].
  unfold pickSmoothWeightedAuth. set (r := foldl smooth_step _ l) in *. clearbody r. simpl in *.
  destruct (sa_picked r) as [p|]; [|by destruct H4]. destruct H4 as (Hp & Hmax & _).
  destruct Hp as [[? _]|[Hp Hpc]]; [done|]. eexists p, _. split; [done|]. split_and!; [done| |].
  - intros a Ha. rewrite <- Hpc. by apply Hmax.
  - intros a Ha. rewrite H1, Z.add_0_l. unfold credit at 1.
    assert (Hsat : saturatingAddInt64 (credit (sa_current r) p) (- total_weight l)
                   = credit current p + authWeight p - total_weight l).
    { rewrite H2 by done. rewrite saturating_exact; [lia|].
      specialize (Hb p Hp). specialize (Hw p Hp). specialize (Hwle p Hp).
      unfold in_int64, min_int64, max_int64. nia. }
    case_if; bprop.
    + change (default 0 (sa_current r !! a_ID p)) with (credit (sa_current r) p).
      rewrite E, lookup_insert_eq. simpl. rewrite Hsat.
      unfold credit, authWeight. unfold credit in *.
      assert (a = p) as ->; [|lia].
      eapply (NoDup_map_inj a_ID); eauto.
    + rewrite lookup_insert_ne by done. change (credit (sa_current r) a = credit current a + authWeight a + 0).
      rewrite H2 by done. lia.
Qed.

(** The weights recorded for a key agree with the pool's. *)
Definition agrees (weights : gmap string Z) (l : list Auth) : Prop :=
  ∀ a w, a ∈ l → weights !! a_ID a = Some w → w = authWeight a.

Lemma weight_vector_spec l (m : gmap string Z) :
  (∀ a, a ∈ l → 0 < authWeight a) → NoDup (map a_ID l) →
  let v := foldl (fun weights auth => if 0 <? authWeight auth
             then <[a_ID auth := authWeight auth]> weights else weights) m l in
  (∀ a, a ∈ l → v !! a_ID a = Some (authWeight a))
  ∧ (∀ id, id ∉ map a_ID l → v !! id = m !! id).
Proof.
  revert m. induction l as [|x l IH]; intros m Hw Hnd; cbn [foldl]; [set_solver|].
  simpl in Hnd. apply NoDup_cons in Hnd as [Hx Hnd].
  assert (Hwx : 0 <? authWeight x = true) by (apply Z.ltb_lt, Hw; by left). rewrite Hwx.
  destruct (IH (<[a_ID x := authWeight x]> m)) as [H1 H2];
    [intros a Ha; apply Hw; by right|done|].
  split.
  - intros a [->|Ha]%elem_of_cons; [|by apply H1]. rewrite H2 by done. by rewrite lookup_insert_eq.
  - intros id Hid. simpl in Hid. apply not_elem_of_cons in Hid as [? ?].
    rewrite H2 by done. by rewrite lookup_insert_ne.
Qed.

Lemma vector_lookup l :
  pool l → (∀ a, a ∈ l → authWeightVector l !! a_ID a = Some (authWeight a))
  ∧ ∀ id w, authWeightVector l !! id = Some w → ∃ a, a ∈ l ∧ a_ID a = id ∧ authWeight a = w.
Proof.
  intros [_ Hnd Hw _]. destruct (weight_vector_spec l ∅ Hw Hnd) as [H1 H2]. split; [exact H1|].
  intros id w Hid. destruct (decide (id ∈ map a_ID l)) as [Hin|Hout].
  - apply list_elem_of_fmap in Hin as (a & -> & Ha). exists a. split_and!; [done|done|].
    unfold authWeightVector in Hid. rewrite H1 in Hid by done. by simplify_eq.
  - unfold authWeightVector in Hid. rewrite H2, lookup_empty in Hid by done. done.
Qed.

Lemma prepare_agrees l s :
  pool l → agrees (sw_weights s) l →
  (∀ a, a ∈ l → credit (sw_current (prepare s (authWeightVector l))) a = credit (sw_current s) a)
  ∧ agrees (sw_weights (prepare s (authWeightVector l))) l.
Proof.
  intros Hp Ha. destruct (vector_lookup l Hp) as [Hv1 Hv2].
  assert (Hch : weightsConfigChanged (sw_weights s) (authWeightVector l) = false).
  { unfold weightsConfigChanged. case_if; [done|]. apply not_true_is_false. intros Hex.
    apply existsb_exists in Hex as ([id w] & Hin & Hw).
    apply list_elem_of_In, elem_of_map_to_list in Hin.
    destruct (Hv2 id w Hin) as (a & Hal & <- & <-).
    destruct (sw_weights s !! a_ID a) as [q|] eqn:Eq; [|done].
    rewrite (Ha a q Hal Eq), Z.eqb_refl in Hw. done. }
  unfold prepare. rewrite Hch. unfold pruneStale. simpl.
  assert (Hag : agrees (authWeightVector l ∪ sw_weights s) l).
  { intros a w Hal. rewrite lookup_union_l' by (rewrite Hv1 by done; eauto). rewrite Hv1 by done.
    by intros [= ->]. }
  case_if; simpl; [done|]. split.
  - intros a Hal. unfold credit. f_equal. rewrite map_lookup_filter.
    destruct (sw_current s !! a_ID a) as [c|]; simpl; [|done].
    rewrite option_guard_True; [done|]. rewrite Hv1 by done. eauto.
  - intros a w Hal Hl. apply map_lookup_filter_Some in Hl as [Hl _]. by apply Hag.
Qed.

(** [k] consecutive picks of a key from the same candidates, oldest first. *)
Fixpoint smooth_picks (k : nat) (s : smoothWeightedState) (l : list Auth) :
    list (option Auth) * smoothWeightedState :=
  match k with
  | O => ([], s)
  | S k => let '(ps, s) := smooth_picks k s l in
           let '(p, s) := smooth_pick s l in (ps ++ [p], s)
  end.

Definition times_picked (ps : list (option Auth)) (a : Auth) : Z :=
  Z.of_nat (length (List.filter (fun p => match p with
                                  | Some q => String.eqb (a_ID a) (a_ID q)
                                  | None => false end) ps)).

(** A key whose pool has no accumulated credit: a fresh key, or one whose
    period has just ended. *)
Definition calm (s : smoothWeightedState) (l : list Auth) : Prop :=
  agrees (sw_weights s) l ∧ ∀ a, a ∈ l → credit (sw_current s) a = 0.

Record smooth_inv (l : list Auth) (k : nat) (ps : list (option Auth)) (s : smoothWeightedState) :
    Prop := {
  si_agrees : agrees (sw_weights s) l;
  si_credit : ∀ a, a ∈ l → credit (sw_current s) a
                = Z.of_nat k * authWeight a - total_weight l * times_picked ps a;
  si_lower : ∀ a, a ∈ l → - total_weight l < credit (sw_current s) a;
  si_sum : zsum (credit (sw_current s)) l = 0;
  si_picked : Forall (fun p => ∃ a, p = Some a ∧ a ∈ l) ps;
}.

Lemma total_weight_pos l : pool l → 0 < total_weight l.
Proof.
  intros [Hne _ Hw _]. destruct l as [|x l]; [done|].
  assert (authWeight x ≤ total_weight (x :: l)).
  { apply zsum_elem_le; [|by left]. intros y Hy. specialize (Hw y Hy). lia. }
  specialize (Hw x ltac:(by left)). lia.
Qed.

(** Credits of sum zero that are bounded below are bounded above. *)
Lemma credit_upper (l : list Auth) (f : Auth → Z) W :
  (∀ a, a ∈ l → - W < f a) → 0 ≤ W → zsum f l = 0 →
  ∀ a, a ∈ l → f a ≤ Z.of_nat (length l) * W.
Proof.
  intros Hlo HW Hs a Ha.
  assert (f a + W ≤ zsum (fun x => f x + W) l).
  { apply (zsum_elem_le (fun x => f x + W)); [|done]. intros x Hx. specialize (Hlo x Hx). lia. }
  rewrite zsum_add, zsum_const in H. lia.
Qed.

Lemma times_picked_snoc ps q a :
  times_picked (ps ++ [Some q]) a = times_picked ps a + (if String.eqb (a_ID a) (a_ID q) then 1 else 0).
Proof.
  unfold times_picked. rewrite List.filter_app, length_app. simpl.
  case_if; simpl; lia.
Qed.

Lemma smooth_inv_step l k ps s :
  pool l → smooth_inv l k ps s →
  ∃ p s', smooth_pick s l = (Some p, s') ∧ smooth_inv l (S k) (ps ++ [Some p]) s'.
Proof.
  intros Hp [Hag Hcr Hlo Hsum Hpk]. pose proof (total_weight_pos l Hp) as HW.
  destruct (prepare_agrees l s Hp Hag) as [Hpc Hpa].
  unfold smooth_pick. set (s1 := prepare s (authWeightVector l)) in *.
  destruct (pick_smooth_spec l (sw_current s1) Hp) as (p & c' & -> & Hin & Hmax & Hc').
  { intros a Ha. rewrite Hpc by done. split; [by apply Hlo|].
    apply (credit_upper l (credit (sw_current s))); [done|lia|done|done]. }
  exists p, (s1 <| sw_current := c' |>). split; [done|].
  assert (Hmax0 : 0 < credit (sw_current s) p + authWeight p).
  { assert (Hs : 0 < zsum (fun x => credit (sw_current s) x + authWeight x) l)
      by (rewrite zsum_add, Hsum; fold (total_weight l); lia).
    apply zsum_pos_witness in Hs as (b & Hb & Hbp). specialize (Hmax b Hb).
    rewrite !Hpc in Hmax by done. lia. }
  assert (Hnew : ∀ a, a ∈ l → credit c' a = credit (sw_current s) a + authWeight a
      + (if String.eqb (a_ID a) (a_ID p) then - total_weight l else 0)).
  { intros a Ha. rewrite Hc', Hpc by done. done. }
  split; simpl.
  - done.
  - intros a Ha. rewrite Hnew, Hcr, times_picked_snoc by done. case_if; lia.
  - intros a Ha. rewrite Hnew by done. specialize (Hlo a Ha).
    pose proof (pool_weights l Hp a Ha). case_if; bprop; [|lia].
    assert (a = p) as -> by (eapply (NoDup_map_inj a_ID); [apply Hp|done..]). lia.
  - rewrite (zsum_ext _ (fun a => (credit (sw_current s) a + authWeight a)
      + (if String.eqb (a_ID a) (a_ID p) then - total_weight l else 0))) by (intros; by apply Hnew).
    rewrite zsum_add, zsum_add, Hsum, (zsum_single a_ID) by (done || apply Hp).
    fold (total_weight l). lia.
  - apply Forall_app. split; [done|]. constructor; [|done]. eauto.
Qed.

Lemma smooth_picks_inv l s k :
  pool l → calm s l →
  smooth_inv l k (smooth_picks k s l).1 (smooth_picks k s l).2.
Proof.
  intros Hp [Hag H0]. induction k as [|k IH]; cbn [smooth_picks].
  - simpl. pose proof (total_weight_pos l Hp). split; simpl; [done| | | |done].
    + intros a Ha. rewrite H0 by done. unfold times_picked. simpl. lia.
    + intros a Ha. rewrite H0 by done. lia.
    + rewrite (zsum_ext _ (fun _ => 0)) by done. rewrite zsum_const. lia.
  - destruct (smooth_picks k s l) as [ps s1]. simpl in IH.
    destruct (smooth_inv_step l k ps s1 Hp IH) as (p & s' & -> & Hinv). exact Hinv.
Qed.

(** C3 Smooth weighted round robin is proportional: over as many consecutive
    picks as the pool's total weight, every credential is picked exactly as many
    times as its weight, the credits are back to zero, and so it goes on; and at
    no moment is a credential ahead of its share by a whole pick. *)
Theorem weighted_proportional l s k :
  pool l → calm s l →
  (∀ a, a ∈ l → total_weight l * (times_picked (smooth_picks k s l).1 a - 1)
                < Z.of_nat k * authWeight a)
  ∧ (Z.of_nat k = total_weight l →
     (∀ a, a ∈ l → times_picked (smooth_picks k s l).1 a = authWeight a)
     ∧ calm (smooth_picks k s l).2 l).
Proof.
  intros Hp Hcalm. pose proof (total_weight_pos l Hp) as HW.
  destruct (smooth_picks_inv l s k Hp Hcalm) as [Hag Hcr Hlo Hsum _].
  set (r := smooth_picks k s l) in *. split.
  - intros a Ha. specialize (Hlo a Ha). rewrite Hcr in Hlo by done. lia.
  - intros Hk.
    assert (Hz : ∀ a, a ∈ l → total_weight l * (authWeight a - times_picked r.1 a)
                      = credit (sw_current r.2) a) by (intros a Ha; rewrite Hcr by done; lia).
    assert (Hnn : ∀ a, a ∈ l → 0 ≤ credit (sw_current r.2) a).
    { intros a Ha. specialize (Hlo a Ha). specialize (Hz a Ha).
      set (d := authWeight a - times_picked r.1 a) in *. clearbody d.
      assert (0 ≤ d) by nia. nia. }
    pose proof (zsum_zero _ l Hnn Hsum) as Hzero.
    split; [|split; [done|exact Hzero]].
    intros a Ha. specialize (Hz a Ha). rewrite Hzero in Hz by done. nia.
Qed.

Definition weighted_auth (id weight : string) : Auth :=
  (new_auth id) <| a_Attributes := {[ "weight" := weight ]} |>.

Lemma weighted_proportional_witness :
  let l := [weighted_auth "a" "5"; weighted_auth "b" "1"; weighted_auth "c" "1"] in
  map (fun p => a_ID <$> p) (smooth_picks 7 empty_smooth l).1
  = map Some ["a"; "a"; "b"; "a"; "c"; "a"; "a"]
  ∧ times_picked (smooth_picks 7 empty_smooth l).1 (weighted_auth "a" "5") = 5.
Proof.
  intros l. split; [vm_compute; reflexivity|].
  assert (Hp : pool l).
  { split; [discriminate| | |vm_compute; discriminate].
    - apply (bool_decide_unpack (NoDup (map a_ID l))). vm_compute. exact I.
    - apply Forall_forall. repeat constructor. }
  assert (Hc : calm empty_smooth l).
  { split; [intros a w _; unfold empty_smooth; simpl; by rewrite lookup_empty|].
    intros a _. unfold credit, empty_smooth. simpl. by rewrite lookup_empty. }
  destruct (weighted_proportional l empty_smooth 7 Hp Hc) as [_ H].
  assert (Hk : Z.of_nat 7 = total_weight l) by (vm_compute; reflexivity).
  transitivity (authWeight (weighted_auth "a" "5")); [|vm_compute; reflexivity].
  apply (proj1 (H Hk)). left.
Defined.

(** ** What a pick returns *)

Lemma smooth_fold_picked l acc :
  match sa_picked (foldl smooth_step acc l) with
  | Some p => sa_picked acc = Some p ∨ p ∈ l ∧ 0 < authWeight p
  | None => sa_picked acc = None ∧ ∀ a, a ∈ l → authWeight a ≤ 0
  end.
Proof.
  revert acc. induction l as [|x l IH]; intros acc; cbn [foldl].
  - destruct (sa_picked acc); [by left|]. split; [done|set_solver].
  - specialize (IH (smooth_step acc x)).
    assert (Hs : (smooth_step acc x = acc ∧ authWeight x ≤ 0) ∨
      (0 < authWeight x ∧ (sa_picked (smooth_step acc x) = Some x
         ∨ sa_picked (smooth_step acc x) = sa_picked acc ∧ sa_picked acc ≠ None))).
    { unfold smooth_step. destruct (authWeight x <=? 0) eqn:E; bprop; [by left|right].
      split; [done|]. simpl. destruct (sa_picked acc); [|by left]. case_if; [by left|by right]. }
    destruct (sa_picked (foldl smooth_step (smooth_step acc x) l)) as [p|].
    + destruct IH as [IH|[? ?]]; [|right; split; [by right|done]].
      destruct Hs as [[Hs _]|[Hw [Hs|[Hs _]]]]; rewrite Hs in IH; [by left| |by left].
      injection IH as <-. right. split; [by left|done].
    + destruct IH as [IH1 IH2]. destruct Hs as [[Hs Hw]|[Hw [Hs|[Hs Hn]]]]; [|congruence..].
      rewrite Hs in IH1. split; [done|]. intros a [->|Ha]%elem_of_cons; [done|by apply IH2].
Qed.

Lemma pick_smooth_some l current :
  l ≠ [] → (∀ a, a ∈ l → 0 < authWeight a) →
  ∃ p c, pickSmoothWeightedAuth l current = (Some p, c) ∧ p ∈ l.
Proof.
  intros Hl Hw. unfold pickSmoothWeightedAuth.
  match goal with |- context [foldl smooth_step ?acc l] =>
    pose proof (smooth_fold_picked l acc) as H; set (r := foldl smooth_step acc l) in * end.
  clearbody r. destruct (sa_picked r) as [p|].
  - destruct H as [?|[? _]]; [done|]. eauto.
  - destruct H as [_ H]. destruct l as [|x l]; [done|].
    specialize (H x ltac:(by left)). specialize (Hw x ltac:(by left)). lia.
Qed.

Lemma prefer_spec ctx provider l :
  l ≠ [] → preferCodexWebsocketAuths ctx provider l ≠ []
  ∧ ∀ a, a ∈ preferCodexWebsocketAuths ctx provider l → a ∈ l.
Proof.
  intros Hl. unfold preferCodexWebsocketAuths. repeat case_if; try done.
  destruct (List.filter authWebsocketsEnabled l) as [|x ws] eqn:Ef; [done|].
  split; [done|]. intros a Ha. rewrite <- Ef in Ha.
  apply list_elem_of_In, filter_In in Ha as [Ha _]. by apply list_elem_of_In.
Qed.

Lemma successorIndex_bound l lastID : l ≠ [] → (successorIndex l lastID < length l)%nat.
Proof.
  intros Hl. assert (0 < length l)%nat by (destruct l; [done|simpl; lia]).
  unfold successorIndex. repeat case_if; try done. by apply Nat.leb_gt.
Qed.

Lemma rr_step_picks s key l :
  l ≠ [] → ∃ a s', rr_step s key l = (Picked a, s') ∧ a ∈ l.
Proof.
  intros Hl. unfold rr_step. set (s1 := ensureRotationKey _ _ _).
  pose proof (successorIndex_bound l (default "" (rr_lastPicked s1 !! key)) Hl) as Hi.
  apply lookup_lt_is_Some in Hi as [a Ha]. rewrite Ha.
  eexists a, _. split; [done|]. by eapply list_elem_of_lookup_2.
Qed.

Lemma wr_step_picks s key l :
  l ≠ [] → (∀ a, a ∈ l → 0 < authWeight a) → ∃ a s', wr_step s key l = (Picked a, s') ∧ a ∈ l.
Proof.
  intros Hl Hw. unfold wr_step, smooth_pick.
  set (st := prepare _ _). clearbody st.
  destruct (pick_smooth_some l (sw_current st) Hl Hw) as (p & c & -> & Hp).
  eexists p, _. by split.
Qed.

Section Sound.
Context `{GP : GoParse}.

(** The credential a pick must return: usable for the model at that moment,
    and no usable one has a higher priority. *)
Definition best_choice (ctx : ReqCtx) (model : string) (now : time) (auths : list Auth) (a : Auth) :
    Prop :=
  a ∈ auths ∧ blocked_for ctx model now a = false
  ∧ ∀ b, b ∈ auths → blocked_for ctx model now b = false → authPriority b ≤ authPriority a.

Definition sound (ctx : ReqCtx) (model : string) (now : time) (auths : list Auth) (p : picked) :
    Prop :=
  match p with
  | Picked a => best_choice ctx model now auths a
  | NotPicked e => nobody_until ctx model now auths e
  | Panicked => False
  end.

Lemma best_tier_choice ctx model now auths l a :
  best_tier ctx model now auths l → a ∈ l → best_choice ctx model now auths a.
Proof.
  intros (_ & p & Hmax & Hp) Ha. rewrite Hp in Ha.
  apply list_elem_of_In, filter_In in Ha as [Ha Ht]. apply list_elem_of_In in Ha.
  unfold in_tier, eligible in Ht. bprop. split_and!; [done|done|].
  intros b Hb Hel. rewrite Forall_forall in Hmax. specialize (Hmax b Hb).
  unfold eligible in Hmax. rewrite Hel in Hmax. specialize (Hmax eq_refl). lia.
Qed.

(** What the selectors work from. *)
Lemma selector_candidates ctx auths provider model now :
  0 ≤ now → ctx_prevalidated ctx = false →
  match getSelectorAvailableAuths ctx auths provider model now with
  | Err e => nobody_until ctx model now auths e
  | Ok available =>
      preferCodexWebsocketAuths ctx provider available ≠ []
      ∧ ∀ a, a ∈ preferCodexWebsocketAuths ctx provider available →
          best_choice ctx model now auths a
  end.
Proof.
  intros Hn Hpre. unfold getSelectorAvailableAuths, getSelectorAvailableAuthsWithPriorityMode.
  rewrite Hpre.
  assert (Hcase : ∀ o, o = getAvailableAuthsWithPriorityModeForRequest ctx auths provider model now false →
    match o with
    | Err e => nobody_until ctx model now auths e
    | Ok available => preferCodexWebsocketAuths ctx provider available ≠ []
        ∧ ∀ a, a ∈ preferCodexWebsocketAuths ctx provider available → best_choice ctx model now auths a
    end).
  { intros [l|e] Ho; symmetry in Ho; [|by eapply getAvailable_err].
    apply getAvailable_ok in Ho as [Ht _]; [|done].
    destruct (prefer_spec ctx provider l (proj1 Ht)) as [H1 H2]. split; [done|].
    intros a Ha. apply (best_tier_choice _ _ _ _ l); auto. }
  destruct auths; by apply Hcase.
Qed.

(** Every selector, whatever its state, returns a credential that is usable
    for the model and of the highest priority usable, and fails only when
    nobody is usable, with a wait during which nobody becomes so; the weighted
    one does this among the credentials of positive weight.  No selector
    indexes out of its candidates. *)
Theorem picks_sound ctx provider model auths now rr wr :
  0 ≤ now → ctx_prevalidated ctx = false →
  sound ctx model now auths (RoundRobin_Pick rr ctx provider model auths now).1
  ∧ sound ctx model now auths (FillFirst_Pick ctx provider model auths now)
  ∧ sound ctx model now (positiveWeightAuths auths)
      (Weighted_Pick wr ctx provider model auths now).1.
Proof.
  intros Hn Hpre. unfold RoundRobin_Pick, FillFirst_Pick, Weighted_Pick. split_and!.
  - pose proof (selector_candidates ctx auths provider model now Hn Hpre) as H.
    destruct (getSelectorAvailableAuths _ _ _ _ _) as [l|e]; [|done]. destruct H as [Hne H].
    set (key := provider +:+ _). destruct (rr_step_picks rr key _ Hne) as (a & s' & -> & Ha).
    by apply H.
  - pose proof (selector_candidates ctx auths provider model now Hn Hpre) as H.
    destruct (getSelectorAvailableAuths _ _ _ _ _) as [l|e]; [|done]. destruct H as [Hne H].
    destruct (preferCodexWebsocketAuths ctx provider l); [done|]. apply H. by left.
  - pose proof (selector_candidates ctx (positiveWeightAuths auths) provider model now Hn Hpre) as H.
    destruct (getSelectorAvailableAuths _ _ _ _ _) as [l|e]; [|done]. destruct H as [Hne H].
    set (key := provider +:+ _).
    destruct (wr_step_picks wr key (preferCodexWebsocketAuths ctx provider l) Hne)
      as (a & s' & -> & Ha); [|by apply H].
    intros a Ha. destruct (H a Ha) as (Hin & _ & _). unfold positiveWeightAuths in Hin.
    apply list_elem_of_In, filter_In in Hin as [_ Hw]. by bprop.
Qed.
End Sound.

#[local] Existing Instance no_parse.

Lemma picks_sound_witness :
  let auths := [weighted_auth "b" "2"; weighted_auth "a" "0"] in
  let rr := {| rr_lastPicked := ∅; rr_maxKeys := 0 |} in
  let wr := {| wr_states := ∅; wr_maxKeys := 0 |} in
  (Weighted_Pick wr background "p" "m" auths 10).1 = Picked (weighted_auth "b" "2")
  ∧ sound background "m" 10 auths (RoundRobin_Pick rr background "p" "m" auths 10).1.
Proof.
  intros auths rr wr. split; [vm_compute; reflexivity|].
  apply (picks_sound background "p" "m" auths 10 rr wr); [lia|reflexivity].
Defined.

End Selector.
