(* ===== verification/Classify.v ===== *)
(** * Classification of result errors: sdk/cliproxy/auth/conductor_cooldown.go

    Which failures are charged to a credential.  The predicates apply to the
    [*Error] an execution result carries, which wraps nothing.  [ErrorBodies]
    is the reading of JSON error bodies (internal/clienterror and
    [isStructuredModelNotFoundError]), which goes through [encoding/json]. *)
From Stdlib Require Import Ascii.
From S2P Require Import Prelude GoLib AuthTypes.
Import AuthTypes.

Class ErrorBodies : Type := {
  isStructuredModelNotFoundError : string → bool;
  IsCreditBalanceTooLow : Z → string → bool;
  IsRequestFault : Z → string → bool;
  IsItemNotPersisted : string → bool;
}.

Module Classify.

(** [(e *Error) Error()]. *)
Definition Error_text (e : Error) : string :=
  if String.eqb (err_Code e) "" then err_Message e
  else err_Code e +:+ ": " +:+ err_Message e.

Definition contains_any (s : string) (patterns : list string) : bool :=
  existsb (contains s) patterns.

Fixpoint before_byte (c : Ascii.ascii) (s : string) : string :=
  match s with
  | EmptyString => EmptyString
  | String a r => if Ascii.eqb a c then EmptyString else String a (before_byte c r)
  end.
Fixpoint drop_bytes (c : Ascii.ascii) (s : string) : string :=
  match s with
  | String a r => if Ascii.eqb a c then drop_bytes c r else s
  | EmptyString => EmptyString
  end.
(** [strings.TrimRight(s, c)]. *)
Definition trim_right_byte (c : Ascii.ascii) (s : string) : string := srev (drop_bytes c (srev s)).
(** What follows the last of two separators ([strings.LastIndexAny]). *)
Definition after_last_any (c1 c2 : Ascii.ascii) (s : string) : string :=
  let s1 := match split_last c1 s with Some (_, post) => post | None => s end in
  match split_last c2 s1 with Some (_, post) => post | None => s1 end.
Fixpoint underscores (s : string) : string :=
  match s with
  | EmptyString => EmptyString
  | String a r =>
      String (if Ascii.eqb a "-"%char || Ascii.eqb a " "%char then "_"%char else a) (underscores r)
  end.

Definition isModelNotFoundIdentifier (value : string) : bool :=
  let candidate := to_lower (trim_space value) in
  let candidate :=
    match split_last "#"%char candidate with
    | Some (_, String a r) => String a r
    | _ => after_last_any "/"%char ":"%char (trim_right_byte "/"%char (before_byte "?"%char candidate))
    end in
  existsb (String.eqb (underscores candidate))
    ["model_not_found"; "model_not_found_error"; "unknown_model"; "model_does_not_exist";
     "model_not_exist"].

Definition isModelSupportErrorMessage (message : string) : bool :=
  let lower := to_lower (trim_space message) in
  if String.eqb lower "" then false
  else contains_any lower
         ["model_not_supported"; "requested model is not supported";
          "requested model is unsupported"; "requested model is unavailable";
          "model is not supported"; "model not supported"; "unsupported model";
          "model unavailable"; "not available for your plan"; "not available for your account"].

Definition isInvalidGrantErrorMessage (message : string) : bool :=
  contains (to_lower message) "invalid_grant".

Definition isCloudflareChallengeErrorMessage (message : string) : bool :=
  let lower := to_lower (trim_space message) in
  contains_any lower ["challenge-platform"; "cf-mitigated"; "cloudflare challenge"]
  || (contains lower "just a moment" && contains lower "cloudflare").

Definition isHTTP2ClosedConnectionMessage (lower : string) : bool :=
  contains_any lower ["http2: client connection force closed via clientconn.close";
                      "http2: client conn is closed"].

Definition isConnectionLifecycleMessage (message : string) : bool :=
  let lower := to_lower (trim_space message) in
  if String.eqb lower "" then false
  else existsb (String.eqb lower)
         ["context canceled"; "context deadline exceeded"; "eof"; "unexpected eof"]
       || contains_any lower
            ["websocket: close 1000"; "websocket: close 1001"; "websocket: close 1006"]
       || contains lower "unexpected eof" || isHTTP2ClosedConnectionMessage lower.

Definition isTransientTransportMessage (message : string) : bool :=
  let lower := to_lower (trim_space message) in
  if String.eqb lower "" then false
  else contains_any lower
         ["tls: tls handshake"; "tls handshake timeout"; "wsarecv"; "wsasend";
          "a connection attempt failed"; "connection refused"; "connection reset"; "i/o timeout";
          "no such host"; "server misbehaving"; "network is unreachable"; "no route to host";
          "broken pipe"; "connection aborted"; "use of closed network connection";
          "unexpected eof"]
       || isHTTP2ClosedConnectionMessage lower.

Definition client_status (status : Z) : bool :=
  (status =? 400) || (status =? 422) || (status =? 404).
Definition grant_status (status : Z) : bool :=
  (status =? 400) || (status =? 401) || (status =? 0).

Section Classify.
Context `{EB : ErrorBodies}.

Definition isExplicitModelNotFoundError (e : Error) : bool :=
  isModelNotFoundIdentifier (trim_space (err_Code e)) || isModelNotFoundIdentifier (err_Code e)
  || isStructuredModelNotFoundError (err_Message e)
  || isStructuredModelNotFoundError (Error_text e).

Definition isModelSupportResultError (e : Error) : bool :=
  if isExplicitModelNotFoundError e then true
  else if negb (client_status (err_HTTPStatus e)) then false
  else isModelSupportErrorMessage (err_Message e).

Definition isModelSupportError (e : Error) : bool :=
  if isExplicitModelNotFoundError e then true
  else if negb (client_status (err_HTTPStatus e)) then false
  else isModelSupportErrorMessage (Error_text e).

Definition isInvalidGrantError (e : Error) : bool :=
  isInvalidGrantErrorMessage (Error_text e) && grant_status (err_HTTPStatus e).
Definition isInvalidGrantResultError (e : Error) : bool :=
  (isInvalidGrantErrorMessage (err_Code e) || isInvalidGrantErrorMessage (err_Message e))
  && grant_status (err_HTTPStatus e).

(** [isCreditBalanceTooLowError] and its result variant agree on an [*Error]. *)
Definition isCreditBalanceTooLowResultError (e : Error) : bool :=
  IsCreditBalanceTooLow (err_HTTPStatus e) (Error_text e)
  || (negb (String.eqb (err_Message e) "")
      && IsCreditBalanceTooLow (err_HTTPStatus e) (err_Message e)).

Definition isCloudflareChallengeError (e : Error) : bool :=
  (err_HTTPStatus e <? 500) && isCloudflareChallengeErrorMessage (Error_text e).
Definition isCloudflareChallengeResultError (e : Error) : bool :=
  (err_HTTPStatus e <? 500) && isCloudflareChallengeErrorMessage (err_Message e).

Definition isStreamTruncatedResultError (e : Error) : bool :=
  String.eqb (err_Code e) ErrorCodeStreamTruncated.
Definition isTransientRateLimitResultError (e : Error) : bool :=
  String.eqb (err_Code e) ErrorCodeTransientRateLimit.
Definition IsRequestScoped (e : Error) : bool := String.eqb (err_Code e) ErrorCodeRequestScoped.

Definition isRequestInvalidError (e : Error) : bool :=
  if isStreamTruncatedResultError e then true
  else if IsRequestScoped e then true
  else if isCloudflareChallengeError e then false
  else if isInvalidGrantError e then false
  else if isCreditBalanceTooLowResultError e then false
  else if isModelSupportError e then false
  else IsRequestFault (err_HTTPStatus e) (Error_text e)
       || (negb (String.eqb (err_Message e) "")
           && IsRequestFault (err_HTTPStatus e) (err_Message e)).

Definition isRequestScopedNotFoundResultError (e : Error) : bool :=
  (err_HTTPStatus e =? 404) && IsItemNotPersisted (err_Message e).

Definition isRequestScopedResultError (e : Error) : bool :=
  if IsRequestScoped e || isRequestScopedNotFoundResultError e then true
  else isRequestInvalidError e.

Definition isConnectionLifecycleResultError (e : Error) : bool :=
  if String.eqb (err_Code e) ErrorCodeConnectionLifecycle then true
  else if String.eqb (err_Code e) ErrorCodeTransientTransport then false
  else if negb (err_HTTPStatus e =? 0) then false
  else isConnectionLifecycleMessage (err_Message e).

Definition isTransientTransportResultError (e : Error) : bool :=
  if String.eqb (err_Code e) ErrorCodeTransientTransport then true
  else if negb (err_HTTPStatus e =? 0) then false
  else if contains (to_lower (err_Message e)) "tls handshake timeout" then false
  else isTransientTransportMessage (err_Message e).

Definition isUnauthorizedError (e : Error) : bool :=
  (err_HTTPStatus e =? 401)
  || contains_any (to_lower (Error_text e)) ["status 401"; "401 unauthorized"; "(401)"].

(** [err] may be nil: no class applies. *)
Definition on_error (p : Error → bool) (err : option Error) : bool :=
  match err with Some e => p e | None => false end.

Definition skip_cooldown (e : Error) : bool :=
  if String.eqb (err_Code e) ErrorCodeForceCooldown then false
  else isRequestScopedResultError e || isConnectionLifecycleResultError e
       || isTransientTransportResultError e || isStreamTruncatedResultError e.
Definition shouldSkipCredentialCooldown (err : option Error) : bool := on_error skip_cooldown err.

Definition is_force_cooldown (err : option Error) : bool :=
  on_error (fun e => String.eqb (err_Code e) ErrorCodeForceCooldown) err.

(** [shouldRebindSessionAffinityOnError] (selector.go). *)
Definition shouldRebindSessionAffinityOnError (err : option Error) : bool :=
  match err with
  | None => false
  | Some e =>
      if skip_cooldown e then false
      else if isModelSupportResultError e || isCloudflareChallengeResultError e
              || isInvalidGrantResultError e || isCreditBalanceTooLowResultError e then true
      else existsb (Z.eqb (err_HTTPStatus e)) [401; 402; 403; 404; 429]
  end.

End Classify.

(** ** Devin quota messages (conductor_refresh.go) *)

Definition isDevinQuotaExhaustionMessage (text : string) : bool :=
  let lower := to_lower text in
  if negb (contains lower "quota") || negb (contains lower "exhausted") then false
  else contains lower "weekly" || contains lower "daily".

Definition devinStateErrorText (state : ModelState) : string :=
  match ms_LastError state with
  | Some e => if String.eqb (trim_space (err_Message e)) "" then ms_StatusMessage state
              else err_Message e
  | None => ms_StatusMessage state
  end.

(** The bodies of plain-text errors: none is a JSON document. *)
Definition no_bodies : ErrorBodies :=
  {| isStructuredModelNotFoundError := fun _ => false; IsCreditBalanceTooLow := fun _ _ => false;
     IsRequestFault := fun _ _ => false; IsItemNotPersisted := fun _ => false |}.

End Classify.
