(* ===== verification/Cooldown.v ===== *)
(** * Cooldown state transitions: sdk/cliproxy/auth/conductor_cooldown.go,
    usage_exhaustion.go

    The backoff ladder, the per-model states and their merge, the availability
    of a credential aggregated from its models, and the effect of a failure or
    a success on the credential itself. *)
From S2P Require Import Prelude GoLib Thinking AuthTypes QuotaSignals Expiry Availability Classify.
Import AuthTypes QuotaSignals Expiry Availability Classify.

Module Cooldown.

(** ** Constants (conductor_refresh.go) and configuration *)

Definition refreshFailureBackoff : duration := 5 * minute.
Definition quotaBackoffBase : duration := second.
Definition quotaBackoffMax : duration := 30 * minute.
Definition minQuotaCooldownFloor : duration := 10 * second.
Definition quotaSyntheticBackoffMax : duration := minute.
Definition transientErrorCooldown : duration := minute.

(** The runtime configuration and the process-wide switches the cooldown code
    reads; [cfg_provider_override] is the override of the credential's
    OpenAI-compatible provider entry, if any. *)
Record CoolingConfig : Type := {
  cfg_home_enabled : bool;
  cfg_provider_override : Auth → option bool;
  cfg_disable_cooling : bool;
  quotaCooldownDisabled : bool;
  transientErrorCooldownSeconds : Z;
}.

Definition quotaCooldownDisabledForAuthWithConfig (auth : Auth) (cfg : CoolingConfig) : bool :=
  if cfg_home_enabled cfg then true
  else match DisableCoolingOverride auth with
       | Some override => override
       | None =>
           match cfg_provider_override cfg auth with
           | Some override => override
           | None => if cfg_disable_cooling cfg then true else quotaCooldownDisabled cfg
           end
       end.

(** ** Retry times *)

Definition recoverableFailureRetryAfterWithHint (cfg : CoolingConfig) (now : time)
    (retryAfter : option duration) (disableCooling : bool) : time :=
  let seconds := transientErrorCooldownSeconds cfg in
  if disableCooling then 0
  else if seconds <? 0 then 0
  else
    let fallback := if seconds =? 0 then now + transientErrorCooldown
                    else now + wrap64 (seconds * second) in
    match retryAfter with
    | Some hint => if 0 <? hint then now + hint else fallback
    | None => fallback
    end.

Definition recoverableFailureRetryAfter (cfg : CoolingConfig) (now : time) (disableCooling : bool) :
    time :=
  recoverableFailureRetryAfterWithHint cfg now None disableCooling.

Definition transientRateLimitRetryAfter (cfg : CoolingConfig) (now : time)
    (retryAfter : option duration) (disableCooling : bool) : time :=
  match retryAfter with
  | Some 0 => 0
  | _ => recoverableFailureRetryAfterWithHint cfg now retryAfter disableCooling
  end.

(** [1 << n] as an [int64]. *)
Definition shl_one (n : Z) : Z := if 64 <=? n then 0 else wrap64 (2 ^ n).

Definition nextQuotaCooldown (prevLevel : Z) (disableCooling : bool) : duration * Z :=
  let prevLevel := if prevLevel <? 0 then 0 else prevLevel in
  if disableCooling then (0, prevLevel)
  else
    let cooldown := wrap64 (quotaBackoffBase * shl_one prevLevel) in
    let cooldown := if cooldown <? quotaBackoffBase then quotaBackoffBase else cooldown in
    if quotaBackoffMax <=? cooldown then (quotaBackoffMax, prevLevel)
    else (cooldown, prevLevel + 1).

Definition quotaCooldownAfterFailure (quota : QuotaState) (now : time) : time * Z :=
  if after (NextRecoverAt quota) now then (NextRecoverAt quota, BackoffLevel quota)
  else
    let '(cooldown, nextLevel) := nextQuotaCooldown (BackoffLevel quota) false in
    let cooldown := if quotaSyntheticBackoffMax <? cooldown then quotaSyntheticBackoffMax
                    else cooldown in
    (if 0 <? cooldown then now + cooldown else 0, nextLevel).

Definition nextCloudflareCooldown (backoffLevel : Z) (disableCooling : bool) (now : time) :
    time * Z :=
  if disableCooling then (0, backoffLevel)
  else
    let '(cooldown, nextLevel) := nextQuotaCooldown backoffLevel disableCooling in
    let cooldown := if cooldown <? 10 * second then 10 * second else cooldown in
    (if 0 <? cooldown then now + cooldown else 0, nextLevel).

(** [QuotaState{Exceeded: true, Reason: ..., ...}]. *)
Definition exceeded_quota (reason : string) (next : time) (level : Z) : QuotaState :=
  {| Exceeded := true; Reason := reason; NextRecoverAt := next; BackoffLevel := level;
     ObservedAt := 0; Signals := ∅ |}.

(** ** Model states *)

Definition resetModelState (state : ModelState) (now : time) : ModelState :=
  state <| ms_Unavailable := false |> <| ms_Status := StatusActive |> <| ms_StatusMessage := "" |>
        <| ms_NextRetryAfter := 0 |> <| ms_LastError := None |>
        <| ms_Quota := applyCooldownFields (ms_Quota state) zero_quota |>
        <| ms_cooldownRecordedSeq := 0 |> <| ms_shadow := None |> <| ms_propagated := false |>
        <| ms_UpdatedAt := now |>.

Definition isModelStateActiveCooldown (state : ModelState) (now : time) : bool :=
  if String.eqb (ms_Status state) StatusDisabled then true
  else if negb (is_zero (ms_NextRetryAfter state)) && after (ms_NextRetryAfter state) now then true
  else if negb (is_zero (NextRecoverAt (ms_Quota state)))
          && after (NextRecoverAt (ms_Quota state)) now then true
  else Exceeded (ms_Quota state) && is_zero (NextRecoverAt (ms_Quota state)).

Definition modelStateIsClean (state : ModelState) : bool :=
  if negb (String.eqb (ms_Status state) StatusActive) then false
  else if ms_Unavailable state || negb (String.eqb (ms_StatusMessage state) "")
          || negb (is_zero (ms_NextRetryAfter state)) || bool_decide (ms_LastError state ≠ None)
  then false
  else negb (Exceeded (ms_Quota state)) && String.eqb (Reason (ms_Quota state)) ""
       && is_zero (NextRecoverAt (ms_Quota state)) && (BackoffLevel (ms_Quota state) =? 0).

Definition or_string (a b : string) : string := if String.eqb a "" then b else a.
Definition or_option {A} (a b : option A) : option A := match a with Some _ => a | None => b end.
Definition later (a b : time) : time := if after b a then b else a.

Definition mergeModelState (target source : ModelState) : ModelState :=
  let newer := after (ms_UpdatedAt source) (ms_UpdatedAt target) in
  let preferred := if newer then source else target in
  let fallback := if newer then target else source in
  let tq := ms_Quota target in
  let sq := ms_Quota source in
  let quota :=
    {| Exceeded := Exceeded tq || Exceeded sq;
       Reason := or_string (Reason (ms_Quota preferred)) (Reason (ms_Quota fallback));
       NextRecoverAt := later (NextRecoverAt tq) (NextRecoverAt sq);
       BackoffLevel := Z.max (BackoffLevel tq) (BackoffLevel sq);
       ObservedAt := 0; Signals := ∅ |} in
  let quota := mergeQuotaObservation quota (ms_Quota fallback) in
  let quota := mergeQuotaObservation quota (ms_Quota preferred) in
  let unavailable := ms_Unavailable target || ms_Unavailable source in
  let propagated := ms_propagated target || ms_propagated source in
  let wrapped :=
    String.eqb (Reason quota) "credential_quota" || String.eqb (Reason quota) "quota" || propagated
    || bool_decide (ms_shadow target ≠ None) || bool_decide (ms_shadow source ≠ None) in
  {| ms_Status :=
       if String.eqb (ms_Status target) StatusDisabled || String.eqb (ms_Status source) StatusDisabled
       then StatusDisabled
       else if unavailable || Exceeded quota then StatusError
       else ms_Status preferred;
     ms_StatusMessage := or_string (ms_StatusMessage preferred) (ms_StatusMessage fallback);
     ms_Unavailable := unavailable;
     ms_NextRetryAfter := later (ms_NextRetryAfter target) (ms_NextRetryAfter source);
     ms_LastError := or_option (ms_LastError preferred) (ms_LastError fallback);
     ms_Quota := quota;
     ms_UpdatedAt := later (ms_UpdatedAt target) (ms_UpdatedAt source);
     ms_cooldownRecordedSeq :=
       Z.max (ms_cooldownRecordedSeq target) (ms_cooldownRecordedSeq source);
     ms_shadow := if wrapped
                  then cloneShallow <$> or_option (ms_shadow preferred) (ms_shadow fallback)
                  else None;
     ms_propagated := if wrapped then propagated else false |}.

(** The nil cases of [mergeModelState]. *)
Definition merge_states (target source : option ModelState) : option ModelState :=
  match target, source with
  | None, _ => source
  | _, None => target
  | Some t, Some s => Some (mergeModelState t s)
  end.

Definition normalize_step (acc : gmap string (option ModelState) * bool)
    (entry : string * option ModelState) : gmap string (option ModelState) * bool :=
  let '(normalized, changed) := acc in
  let '(model, state) := entry in
  let modelKey := canonicalModelKey model in
  let modelKey := if String.eqb modelKey "" then trim_space model else modelKey in
  let changed := changed || negb (String.eqb modelKey model) in
  match normalized !! modelKey with
  | Some existing => (<[modelKey := merge_states existing state]> normalized, true)
  | None => (<[modelKey := state]> normalized, changed)
  end.

Definition normalizeModelStates (auth : Auth) : Auth :=
  let '(normalized, changed) :=
    foldl normalize_step (∅, false) (map_to_list (a_ModelStates auth)) in
  if changed then auth <| a_ModelStates := normalized |> else auth.

(** A state of the map, nil pointers and absent keys alike. *)
Definition model_state (auth : Auth) (key : string) : option ModelState :=
  mjoin (a_ModelStates auth !! key).
Definition set_model_state (auth : Auth) (key : string) (state : ModelState) : Auth :=
  auth <| a_ModelStates := <[key := Some state]> (a_ModelStates auth) |>.

Definition existingModelState (auth : Auth) (model : string) : option ModelState :=
  let model := canonicalModelKey model in
  if String.eqb model "" then None else model_state auth model.

(** The key under which [ensureModelState] keeps its state, and the credential
    with a state there. *)
Definition active_state : ModelState := zero_model_state <| ms_Status := StatusActive |>.
Definition ensureModelState (auth : Auth) (model : string) : Auth * ModelState :=
  let model := canonicalModelKey model in
  let auth := normalizeModelStates auth in
  match model_state auth model with
  | Some state => (auth, state)
  | None => (set_model_state auth model active_state, active_state)
  end.

(** ** Aggregated availability *)

Definition clearAggregatedAvailability (auth : Auth) : Auth :=
  auth <| a_Unavailable := false |> <| a_NextRetryAfter := 0 |>
       <| a_Quota := applyCooldownFields (a_Quota auth) zero_quota |>.

(** The loop variables of [updateAggregatedAvailability]. *)
Record aggregate : Type := {
  ag_allUnavailable : bool;
  ag_earliestRetry : time;
  ag_quotaExceeded : bool;
  ag_quotaRecover : time;
  ag_maxBackoffLevel : Z;
  ag_hasState : bool;
}.
Definition ag_init : aggregate :=
  {| ag_allUnavailable := true; ag_earliestRetry := 0; ag_quotaExceeded := false;
     ag_quotaRecover := 0; ag_maxBackoffLevel := 0; ag_hasState := false |}.

Definition state_unavailable (state : ModelState) (now : time) : bool :=
  if String.eqb (ms_Status state) StatusDisabled then true
  else ms_Unavailable state && negb (is_zero (ms_NextRetryAfter state))
       && after (ms_NextRetryAfter state) now.

(** A state that waits for a time still to come. *)
Definition state_waits (state : ModelState) (now : time) : bool :=
  negb (String.eqb (ms_Status state) StatusDisabled) && state_unavailable state now.

(** The update of a state whose retry time has passed. *)
Definition expire_state (now : time) (state : ModelState) : ModelState :=
  if negb (String.eqb (ms_Status state) StatusDisabled) && ms_Unavailable state
     && negb (is_zero (ms_NextRetryAfter state)) && negb (after (ms_NextRetryAfter state) now)
  then state <| ms_Unavailable := false |> <| ms_NextRetryAfter := 0 |> else state.

Definition ag_step (now : time) (ag : aggregate) (state : ModelState) : aggregate :=
  let retry := ms_NextRetryAfter state in
  let quota := ms_Quota state in
  {| ag_allUnavailable := ag_allUnavailable ag && state_unavailable state now;
     ag_earliestRetry :=
       if state_waits state now
          && (is_zero (ag_earliestRetry ag) || before retry (ag_earliestRetry ag))
       then retry else ag_earliestRetry ag;
     ag_quotaExceeded := ag_quotaExceeded ag || Exceeded quota;
     ag_quotaRecover :=
       if Exceeded quota
          && (is_zero (ag_quotaRecover ag)
              || (negb (is_zero (NextRecoverAt quota))
                  && before (NextRecoverAt quota) (ag_quotaRecover ag)))
       then NextRecoverAt quota else ag_quotaRecover ag;
     ag_maxBackoffLevel :=
       if Exceeded quota && (ag_maxBackoffLevel ag <? BackoffLevel quota)
       then BackoffLevel quota else ag_maxBackoffLevel ag;
     ag_hasState := true |}.

(** The credential's fields, written from the loop variables. *)
Definition apply_aggregate (auth : Auth) (ag : aggregate) (now : time) : Auth :=
  let auth := auth <| a_Unavailable := ag_allUnavailable ag |>
                   <| a_NextRetryAfter := if ag_allUnavailable ag then ag_earliestRetry ag else 0 |> in
  let quota := a_Quota auth in
  if ag_quotaExceeded ag then
    auth <| a_Quota := applyCooldownFields quota
              (exceeded_quota "quota"
                 (if after (NextRecoverAt quota) (ag_quotaRecover ag) then NextRecoverAt quota
                  else ag_quotaRecover ag) (ag_maxBackoffLevel ag)) |>
  else if Exceeded quota && after (NextRecoverAt quota) now then auth
  else auth <| a_Quota := applyCooldownFields quota zero_quota |>.

Definition credential_quota_live (auth : Auth) (now : time) : bool :=
  Exceeded (a_Quota auth) && String.eqb (Reason (a_Quota auth)) "credential_quota"
  && after (NextRecoverAt (a_Quota auth)) now.

Definition updateAggregatedAvailability (auth : Auth) (now : time) : Auth :=
  if hasUnauthorizedAuthFailure auth then auth <| a_Unavailable := true |>
  else if credential_quota_live auth now then auth <| a_Unavailable := true |>
  else if negb (has_states auth) then clearAggregatedAvailability auth
  else
    let ag := foldl (ag_step now) ag_init (map snd (model_states auth)) in
    let auth := auth <| a_ModelStates := fmap (M := gmap string) (fmap (expire_state now))
                                           (a_ModelStates auth) |> in
    if negb (ag_hasState ag) then clearAggregatedAvailability auth
    else apply_aggregate auth ag now.

Definition hasModelError (auth : Auth) (now : time) : bool :=
  existsb (fun '(_, state) =>
    bool_decide (ms_LastError state ≠ None)
    || (String.eqb (ms_Status state) StatusError && ms_Unavailable state
        && (is_zero (ms_NextRetryAfter state) || after (ms_NextRetryAfter state) now)))
    (model_states auth).

(** ** The credential *)

Definition clearAuthStateOnSuccess (auth : Auth) (now : time) : Auth :=
  if hasUnauthorizedAuthFailure auth then auth <| a_Unavailable := true |>
  else
    auth <| a_Unavailable := false |> <| a_Status := StatusActive |> <| a_StatusMessage := "" |>
         <| a_Quota := applyCooldownFields (a_Quota auth) zero_quota |>
         <| a_LastError := None |> <| a_NextRetryAfter := 0 |> <| a_cooldownRecordedSeq := 0 |>
         <| a_UpdatedAt := now |>.

Definition isAuthActiveCooldown (auth : Auth) (now : time) : bool :=
  if a_Disabled auth || String.eqb (a_Status auth) StatusDisabled then false
  else if negb (is_zero (a_NextRetryAfter auth)) && after (a_NextRetryAfter auth) now then true
  else if negb (is_zero (NextRecoverAt (a_Quota auth)))
          && after (NextRecoverAt (a_Quota auth)) now then true
  else Exceeded (a_Quota auth) && is_zero (NextRecoverAt (a_Quota auth)).

(** The upstream failures that are retried after a transient cooldown. *)
Definition transient_statuses : list Z :=
  [408; 500; 502; 503; 504; 520; 521; 522; 523; 524; 525; 526].
Definition status_in (l : list Z) (status : Z) : bool := existsb (Z.eqb status) l.

(** A still-live quota deadline outlasts the retry time of a transient
    rejection. *)
Definition keep_quota_deadline (quota : QuotaState) (next now : time) : time :=
  let next := if negb (is_zero next) && Exceeded quota && after (NextRecoverAt quota) next
              then NextRecoverAt quota else next in
  if is_zero next && Exceeded quota && after (NextRecoverAt quota) now
  then NextRecoverAt quota else next.

(** The 30-minute block of authentication and payment failures. *)
Definition half_hour_unless (disableCooling : bool) (now : time) : time :=
  if disableCooling then 0 else now + 30 * minute.
(** The 404 block: the hint, or 12 hours. *)
Definition not_found_retry (disableCooling : bool) (retryAfter : option duration) (now : time) :
    time :=
  if disableCooling then 0
  else match retryAfter with
       | Some hint => if 0 <? hint then now + hint else now + 12 * hour
       | None => now + 12 * hour
       end.

Section Failure.
Context `{EB : ErrorBodies}.
Context (cfg : CoolingConfig).

(** The 429 case of [applyAuthFailureState]. *)
Definition auth_quota_failure (auth : Auth) (retryAfter : option duration) (now : time)
    (disableCooling : bool) : Auth :=
  let quota := (a_Quota auth) <| Exceeded := true |> <| Reason := "quota" |> in
  let '(next, level) :=
    if disableCooling then (0, BackoffLevel quota)
    else
      let '(next, level) := match retryAfter with
                            | Some hint => (now + Z.max minQuotaCooldownFloor hint, BackoffLevel quota)
                            | None => quotaCooldownAfterFailure quota now
                            end in
      (if Exceeded quota && after (NextRecoverAt quota) next then NextRecoverAt quota else next,
       level) in
  auth <| a_StatusMessage := "quota exhausted" |>
       <| a_Quota := quota <| NextRecoverAt := next |> <| BackoffLevel := level |> |>
       <| a_NextRetryAfter := next |>.

(** The [if]/[switch] of [applyAuthFailureState]. *)
Definition auth_failure_effect (auth : Auth) (resultErr : option Error) (retryAfter : option duration)
    (now : time) (disableCooling : bool) : Auth :=
  let statusCode := Error_StatusCode resultErr in
  if on_error isTransientRateLimitResultError resultErr && (statusCode =? 429) then
    let next := keep_quota_deadline (a_Quota auth)
                  (transientRateLimitRetryAfter cfg now retryAfter disableCooling) now in
    auth <| a_NextRetryAfter := next |> <| a_Unavailable := negb (is_zero next) |>
  else if on_error isCloudflareChallengeResultError resultErr then
    let '(next, level) := nextCloudflareCooldown (BackoffLevel (a_Quota auth)) disableCooling now in
    auth <| a_StatusMessage := "cloudflare challenge" |>
         <| a_Quota := applyCooldownFields (a_Quota auth)
                         (exceeded_quota "cloudflare challenge" next level) |>
         <| a_NextRetryAfter := next |>
  else if on_error isInvalidGrantResultError resultErr then
    auth <| a_StatusMessage := "invalid_grant" |>
         <| a_NextRetryAfter := half_hour_unless disableCooling now |>
  else if on_error isCreditBalanceTooLowResultError resultErr then
    auth <| a_StatusMessage := "payment_required" |>
         <| a_NextRetryAfter := half_hour_unless disableCooling now |>
  else if statusCode =? 401 then
    auth <| a_StatusMessage := "unauthorized" |>
         <| a_NextRetryAfter := half_hour_unless disableCooling now |>
  else if status_in [402; 403] statusCode then
    auth <| a_StatusMessage := "payment_required" |>
         <| a_NextRetryAfter := half_hour_unless disableCooling now |>
  else if statusCode =? 404 then
    auth <| a_StatusMessage := "not_found" |>
         <| a_NextRetryAfter := not_found_retry disableCooling retryAfter now |>
  else if statusCode =? 429 then auth_quota_failure auth retryAfter now disableCooling
  else if status_in transient_statuses statusCode then
    let next := recoverableFailureRetryAfterWithHint cfg now retryAfter disableCooling in
    auth <| a_StatusMessage := "transient upstream error" |> <| a_NextRetryAfter := next |>
         <| a_Unavailable := negb (is_zero next) |>
  else
    let next := recoverableFailureRetryAfter cfg now disableCooling in
    auth <| a_StatusMessage := or_string (a_StatusMessage auth) "request failed" |>
         <| a_NextRetryAfter := next |> <| a_Unavailable := negb (is_zero next) |>.

(** A failure only extends a still-live cooldown; a zero write clears it. *)
Definition extend_retry (prev next now : time) : time :=
  if negb (is_zero next) && after prev next && after prev now then prev else next.

Definition applyAuthFailureState (auth : Auth) (resultErr : option Error)
    (retryAfter : option duration) (now : time) (disableCooling : bool) : Auth :=
  let prevAuthRetryAfter := a_NextRetryAfter auth in
  if shouldSkipCredentialCooldown resultErr then auth
  else
    let auth := auth <| a_Unavailable := true |> <| a_Status := StatusError |>
                     <| a_UpdatedAt := now |> in
    let auth := match resultErr with
                | Some e => auth <| a_LastError := Some e |>
                                 <| a_StatusMessage := or_string (err_Message e) (a_StatusMessage auth) |>
                | None => auth
                end in
    let auth := auth_failure_effect auth resultErr retryAfter now disableCooling in
    let auth := auth <| a_NextRetryAfter :=
                          extend_retry prevAuthRetryAfter (a_NextRetryAfter auth) now |> in
    let auth := if is_force_cooldown resultErr && is_zero (a_NextRetryAfter auth)
                then auth <| a_NextRetryAfter := now + transientErrorCooldown |>
                          <| a_Unavailable := true |>
                else auth in
    if disableCooling && is_zero (a_NextRetryAfter auth) && is_zero (NextRecoverAt (a_Quota auth))
    then auth <| a_Unavailable := false |>
              <| a_Quota := (a_Quota auth) <| Exceeded := false |> |>
    else auth.

End Failure.

(** ** Usage-limit blocks (usage_exhaustion.go) *)

Definition usageLimitReason : string := "usage_limit".

Definition usageBlockCurrent (state : ModelState) (reset : time) : bool :=
  if negb (ms_Unavailable state) then false
  else if negb (String.eqb (Reason (ms_Quota state)) usageLimitReason) then false
  else negb (before (ms_NextRetryAfter state) reset).

Definition hasActiveUsageLimitBlock (state : ModelState) (now : time) : bool :=
  if negb (ms_Unavailable state) then false
  else if negb (String.eqb (Reason (ms_Quota state)) usageLimitReason) then false
  else after (ms_NextRetryAfter state) now.

(** ** The backoff ladder *)

Lemma nextQuotaCooldown_bounds level :
  second ≤ (nextQuotaCooldown level false).1 ≤ quotaBackoffMax.
Proof.
  unfold nextQuotaCooldown, quotaBackoffBase, quotaBackoffMax. cbv zeta.
  generalize (if level <? 0 then 0 else level). intros l.
  generalize (wrap64 (second * shl_one l)). intros c.
  repeat case_if; bprop; simpl; unfold minute, second in *; lia.
Qed.

Lemma nextQuotaCooldown_ladder level :
  0 ≤ level ≤ 11 →
  nextQuotaCooldown level false
  = (Z.min (second * 2 ^ level) quotaBackoffMax, if level =? 11 then 11 else level + 1).
Proof.
  intros Hl.
  assert (level = 0 ∨ level = 1 ∨ level = 2 ∨ level = 3 ∨ level = 4 ∨ level = 5 ∨ level = 6
    ∨ level = 7 ∨ level = 8 ∨ level = 9 ∨ level = 10 ∨ level = 11) as Hc by lia.
  repeat (destruct Hc as [->|Hc]; [vm_compute; reflexivity|]). subst. vm_compute. reflexivity.
Qed.

(** C39 The quota backoff doubles from one second to thirty minutes and its
    level never leaves [0, 11] once there; the cooldown of a failure without
    provider hint is between one second and one minute; and while a quota window
    is open, further failures neither extend it nor climb the ladder. *)
Theorem quota_backoff level quota now :
  (0 ≤ level ≤ 11 →
     nextQuotaCooldown level false
     = (Z.min (second * 2 ^ level) quotaBackoffMax, if level =? 11 then 11 else level + 1))
  ∧ second ≤ (nextQuotaCooldown level false).1 ≤ quotaBackoffMax
  ∧ (now < NextRecoverAt quota →
       quotaCooldownAfterFailure quota now = (NextRecoverAt quota, BackoffLevel quota))
  ∧ (NextRecoverAt quota ≤ now →
       now + second ≤ (quotaCooldownAfterFailure quota now).1 ≤ now + quotaSyntheticBackoffMax
       ∧ (0 ≤ BackoffLevel quota ≤ 11 → 0 ≤ (quotaCooldownAfterFailure quota now).2 ≤ 11)).
Proof.
  split; [apply nextQuotaCooldown_ladder|]. split; [apply nextQuotaCooldown_bounds|].
  unfold quotaCooldownAfterFailure. split.
  - intros H. apply after_spec in H. by rewrite H.
  - intros H. apply after_false in H. rewrite H.
    pose proof (nextQuotaCooldown_bounds (BackoffLevel quota)) as Hb.
    pose proof (nextQuotaCooldown_ladder (BackoffLevel quota)) as Hl.
    destruct (nextQuotaCooldown (BackoffLevel quota) false) as [c l]. simpl in *.
    unfold quotaSyntheticBackoffMax, minute, second in *. split.
    + clear Hl. destruct (60 * 1000000000 <? c) eqn:E1; bprop; case_if; bprop; simpl; lia.
    + intros Hr. specialize (Hl Hr). injection Hl as _ ->. clear Hb. case_if; bprop; lia.
Qed.

(** The overflow of the shift: from level 34 the doubling wraps and the
    cooldown falls back to one second. *)
Lemma quota_backoff_overflow :
  (nextQuotaCooldown 34 false).1 = second ∧ (nextQuotaCooldown 33 false).1 = quotaBackoffMax.
Proof. split; vm_compute; reflexivity. Qed.

(** ** Merging model states *)

(** [state_le s s']: [s'] is blocked at least as long as [s]. *)
Record state_le (s s' : ModelState) : Prop := {
  sl_unavailable : ms_Unavailable s = true → ms_Unavailable s' = true;
  sl_retry : ms_NextRetryAfter s ≤ ms_NextRetryAfter s';
  sl_exceeded : Exceeded (ms_Quota s) = true → Exceeded (ms_Quota s') = true;
  sl_recover : NextRecoverAt (ms_Quota s) ≤ NextRecoverAt (ms_Quota s');
  sl_level : BackoffLevel (ms_Quota s) ≤ BackoffLevel (ms_Quota s');
  sl_disabled : ms_Status s = StatusDisabled → ms_Status s' = StatusDisabled;
  sl_seq : ms_cooldownRecordedSeq s ≤ ms_cooldownRecordedSeq s';
}.

#[global] Instance state_le_preorder : PreOrder state_le.
Proof.
  split.
  - intros s. by split.
  - intros a b c [] []. split; (auto || lia).
Qed.

Lemma later_le_l a b : a ≤ later a b.
Proof. unfold later. case_if; bprop; lia. Qed.
Lemma later_le_r a b : b ≤ later a b.
Proof. unfold later. case_if; bprop; lia. Qed.
Lemma later_cases a b : later a b = a ∨ later a b = b.
Proof. unfold later. case_if; auto. Qed.
#[export] Hint Resolve later_le_l later_le_r : go.

Lemma mergeQuotaObservation_fields t s :
  Exceeded (mergeQuotaObservation t s) = Exceeded t
  ∧ Reason (mergeQuotaObservation t s) = Reason t
  ∧ NextRecoverAt (mergeQuotaObservation t s) = NextRecoverAt t
  ∧ BackoffLevel (mergeQuotaObservation t s) = BackoffLevel t.
Proof. unfold mergeQuotaObservation. by case_if. Qed.

Lemma merge_upper target source :
  state_le target (mergeModelState target source) ∧ state_le source (mergeModelState target source).
Proof.
  assert (Hq : ∀ q f p, let q' := mergeQuotaObservation (mergeQuotaObservation q f) p in
    Exceeded q' = Exceeded q ∧ NextRecoverAt q' = NextRecoverAt q ∧ BackoffLevel q' = BackoffLevel q).
  { intros q f p. destruct (mergeQuotaObservation_fields q f) as (? & _ & ? & ?).
    destruct (mergeQuotaObservation_fields (mergeQuotaObservation q f) p) as (? & _ & ? & ?).
    split_and!; congruence. }
  split; split; unfold mergeModelState; cbn [ms_Unavailable ms_NextRetryAfter ms_Quota ms_Status
    ms_cooldownRecordedSeq].
  all: try (intros ->; rewrite ?orb_true_r; reflexivity).
  all: try (apply later_le_l || apply later_le_r || lia).
  all: try (match goal with |- context [mergeQuotaObservation (mergeQuotaObservation ?q ?f) ?p] =>
      destruct (Hq q f p) as (Hq1 & Hq2 & Hq3) end;
    rewrite ?Hq1, ?Hq2, ?Hq3; cbn [Exceeded NextRecoverAt BackoffLevel]).
  all: try (intros ->; rewrite ?orb_true_r; reflexivity).
  all: try (apply later_le_l || apply later_le_r || lia).
  all: intros Hd; rewrite Hd, String.eqb_refl, ?orb_true_r; reflexivity.
Qed.

(** A block with a time. *)
Definition timed (s : ModelState) : Prop := ms_NextRetryAfter s ≠ 0 ∨ NextRecoverAt (ms_Quota s) ≠ 0.

Lemma state_le_blocks now s s' :
  0 ≤ now → state_le s s' → timed s → state_blocks now s = true → state_blocks now s' = true.
Proof.
  intros Hn [Hu Hr He Hq _ Hd _] Ht. unfold state_blocks, state_block.
  rewrite !availabilityBlock_cases by done.
  destruct (String.eqb (ms_Status s) StatusDisabled) eqn:E1; bprop.
  { rewrite (Hd E1), String.eqb_refl. done. }
  simpl. destruct (negb (ms_Unavailable s) && negb (Exceeded (ms_Quota s))) eqn:E2; [done|].
  destruct (now <? Z.max (ms_NextRetryAfter s) (NextRecoverAt (ms_Quota s))) eqn:E3; simpl.
  - intros _. destruct (negb (ms_Unavailable s') && negb (Exceeded (ms_Quota s'))) eqn:E4.
    { bprop. destruct (ms_Unavailable s), (Exceeded (ms_Quota s)); simpl in *;
        try (rewrite Hu in * by done); try (rewrite He in * by done); done. }
    destruct (now <? Z.max (ms_NextRetryAfter s') (NextRecoverAt (ms_Quota s'))) eqn:E5; bprop;
      [|lia]. simpl. apply orb_true_r.
  - destruct ((ms_NextRetryAfter s =? 0) && (NextRecoverAt (ms_Quota s) =? 0)) eqn:E4; [|done].
    bprop. unfold timed in Ht. lia.
Qed.

(** Merging two states of one model never loosens a block: the result is
    blocked whenever either was blocked until a time, for at least as long, and
    keeps the higher backoff level, the stronger success watermark and a
    disabled status. *)
Theorem merge_conservative target source now :
  0 ≤ now →
  state_le target (mergeModelState target source)
  ∧ state_le source (mergeModelState target source)
  ∧ (∀ s, s = target ∨ s = source → timed s → state_blocks now s = true →
       state_blocks now (mergeModelState target source) = true).
Proof.
  intros Hn. destruct (merge_upper target source) as [H1 H2]. split_and!; [done..|].
  intros s [->| ->]; by apply state_le_blocks.
Qed.

Lemma merge_conservative_witness :
  let s := active_state <| ms_Unavailable := true |> <| ms_NextRetryAfter := 50 |> in
  state_blocks 10 (mergeModelState active_state s) = true.
Proof.
  intros s. destruct (merge_conservative active_state s 10) as (_ & _ & H); [lia|].
  apply (H s); [by right|left; discriminate|reflexivity].
Defined.

(** ** Aggregated availability *)

(** The two minima of the loop commute. *)
Definition earliest_of (acc t : Z) : Z :=
  if (acc =? 0) || (negb (t =? 0) && (t <? acc)) then t else acc.
Lemma earliest_of_comm acc a b :
  earliest_of (earliest_of acc a) b = earliest_of (earliest_of acc b) a.
Proof.
  unfold earliest_of.
  destruct (Z.eqb_spec acc 0), (Z.eqb_spec a 0), (Z.eqb_spec b 0), (Z.ltb_spec a acc),
    (Z.ltb_spec b acc), (Z.ltb_spec a b), (Z.ltb_spec b a); simpl; subst; try lia;
    repeat match goal with
    | |- context [?x =? ?y] => destruct (Z.eqb_spec x y); simpl; try lia
    | |- context [?x <? ?y] => destruct (Z.ltb_spec x y); simpl; try lia
    end.
Qed.

Lemma ag_step_comm now ag x y : ag_step now (ag_step now ag x) y = ag_step now (ag_step now ag y) x.
Proof.
  unfold ag_step. cbn [ag_allUnavailable ag_earliestRetry ag_quotaExceeded ag_quotaRecover
    ag_maxBackoffLevel ag_hasState].
  assert (Hw : ∀ s acc, state_waits s now = true →
    (if is_zero acc || before (ms_NextRetryAfter s) acc then ms_NextRetryAfter s else acc)
    = earliest_of acc (ms_NextRetryAfter s)).
  { intros s acc. unfold state_waits, state_unavailable, earliest_of, is_zero, before.
    destruct (String.eqb (ms_Status s) StatusDisabled); simpl; [done|]. intros H.
    apply andb_true_iff in H as [H _]. apply andb_true_iff in H as [_ H]. unfold is_zero in H.
    by rewrite H. }
  assert (Hq : ∀ s acc,
    (if is_zero acc || (negb (is_zero (NextRecoverAt (ms_Quota s)))
                        && before (NextRecoverAt (ms_Quota s)) acc)
     then NextRecoverAt (ms_Quota s) else acc) = earliest_of acc (NextRecoverAt (ms_Quota s)))
    by done.
  f_equal.
  - by rewrite <- !andb_assoc, (andb_comm (state_unavailable x now)).
  - destruct (state_waits x now) eqn:Ex, (state_waits y now) eqn:Ey; simpl; try done.
    rewrite !Hw by done. apply earliest_of_comm.
  - by rewrite <- !orb_assoc, (orb_comm (Exceeded (ms_Quota x))).
  - destruct (Exceeded (ms_Quota x)), (Exceeded (ms_Quota y)); simpl; try done.
    rewrite !Hq. apply earliest_of_comm.
  - destruct (Exceeded (ms_Quota x)), (Exceeded (ms_Quota y)); simpl; try done.
    generalize (BackoffLevel (ms_Quota x)), (BackoffLevel (ms_Quota y)), (ag_maxBackoffLevel ag).
    intros a b c. destruct (Z.ltb_spec c a), (Z.ltb_spec c b); simpl;
      destruct (Z.ltb_spec a b), (Z.ltb_spec b a); simpl; try lia;
      repeat match goal with
      | |- context [?x <? ?y] => destruct (Z.ltb_spec x y); simpl; try lia
      end.
Qed.

Lemma state_waits_spec s now :
  state_waits s now = true ↔
  ms_Status s ≠ StatusDisabled ∧ ms_Unavailable s = true ∧ ms_NextRetryAfter s ≠ 0
  ∧ now < ms_NextRetryAfter s.
Proof.
  unfold state_waits, state_unavailable.
  destruct (String.eqb (ms_Status s) StatusDisabled) eqn:E; bprop; simpl; [by split; [|intros []]|].
  split; [intros; bprop; done|]. intros (_ & -> & H1 & H2). simpl. bprop; done.
Qed.

(** The closed form of the loop. *)
Lemma ag_fold now states :
  let ag := foldl (ag_step now) ag_init states in
  ag_allUnavailable ag = forallb (fun s => state_unavailable s now) states
  ∧ ag_hasState ag = negb (bool_decide (states = []))
  ∧ (∀ s, s ∈ states → state_waits s now = true →
       ag_earliestRetry ag ≠ 0 ∧ ag_earliestRetry ag ≤ ms_NextRetryAfter s)
  ∧ (ag_earliestRetry ag ≠ 0 →
       ∃ s, s ∈ states ∧ state_waits s now = true ∧ ms_NextRetryAfter s = ag_earliestRetry ag).
Proof.
  induction states as [|x states IH] using rev_ind; simpl; [by split_and!; set_solver|].
  rewrite foldl_app. simpl. destruct IH as (H1 & H2 & H3 & H4).
  set (ag := foldl (ag_step now) ag_init states) in *. split_and!.
  - rewrite H1, forallb_app. simpl. by rewrite andb_true_r.
  - by destruct states.
  - intros s Hs Hw. destruct (state_waits_spec s now) as [Hws _]. specialize (Hws Hw).
    apply elem_of_app in Hs as [Hs|Hs%list_elem_of_singleton].
    + destruct (H3 s Hs Hw). case_if; [|done].
      apply andb_true_iff in E as [Ex E].
      destruct (state_waits_spec x now) as [Hwx _]. specialize (Hwx Ex).
      apply orb_true_iff in E as [E|E]; bprop; split; try lia; tauto.
    + subst s. rewrite Hw. simpl. case_if; [split; [tauto|lia]|]. bprop. lia.
  - case_if.
    + intros _. exists x. apply andb_true_iff in E as [Ex _]. set_solver.
    + intros (s & Hs & ?)%H4. exists s. set_solver.
Qed.

Lemma expire_state_unavailable now t s :
  now ≤ t → state_unavailable (expire_state now s) t = state_unavailable s t.
Proof.
  intros Ht. unfold expire_state. case_if; [|done]. bprop. unfold state_unavailable. simpl.
  destruct (String.eqb (ms_Status s) StatusDisabled) eqn:Ed; [done|].
  symmetry. apply andb_false_iff. right. bprop. lia.
Qed.

(** The availability of a credential is that of its models: it is unavailable
    exactly when every model is, its retry time is the first one at which a
    model comes back (every model is unavailable until then, and a waiting one
    becomes available at it), and neither the flag nor any of the quota fields
    depends on the order in which the map of states is visited. *)
Theorem aggregate_availability auth now :
  hasUnauthorizedAuthFailure auth = false → credential_quota_live auth now = false →
  model_states auth ≠ [] →
  let auth' := updateAggregatedAvailability auth now in
  let states := map snd (model_states auth) in
  (a_Unavailable auth' = true ↔ ∀ s, s ∈ states → state_unavailable s now = true)
  ∧ (a_NextRetryAfter auth' ≠ 0 →
       now < a_NextRetryAfter auth'
       ∧ (∀ t s, now ≤ t < a_NextRetryAfter auth' → s ∈ states → state_unavailable s t = true)
       ∧ ∃ s, s ∈ states ∧ state_unavailable s now = true
              ∧ state_unavailable s (a_NextRetryAfter auth') = false)
  ∧ (∀ l, l ≡ₚ states → foldl (ag_step now) ag_init l = foldl (ag_step now) ag_init states).
Proof.
  intros Hu Hc Hne auth' states.
  assert (Hhas : has_states auth = true).
  { unfold has_states. bprop. apply bool_decide_eq_false. intros He. apply Hne.
    unfold model_states. by rewrite He, map_to_list_empty. }
  pose proof (ag_fold now states) as (H1 & H2 & H3 & H4).
  set (ag := foldl (ag_step now) ag_init states) in *.
  assert (Hhs : ag_hasState ag = true).
  { rewrite H2. bprop. apply bool_decide_eq_false. unfold states. by destruct (model_states auth). }
  assert (HU : a_Unavailable auth' = ag_allUnavailable ag
      ∧ a_NextRetryAfter auth' = (if ag_allUnavailable ag then ag_earliestRetry ag else 0)).
  { unfold auth', updateAggregatedAvailability. rewrite Hu, Hc, Hhas. simpl. fold states ag.
    rewrite Hhs. simpl. unfold apply_aggregate. simpl. repeat case_if; done. }
  destruct HU as [HU HN]. split_and!.
  - rewrite HU, H1, forallb_forall. by setoid_rewrite list_elem_of_In.
  - rewrite HN. destruct (ag_allUnavailable ag) eqn:Ea; [|done]. intros Hz.
    destruct (H4 Hz) as (s & Hs & Hw & Hr). rewrite <- Hr.
    apply state_waits_spec in Hw as Hws. destruct Hws as (Hd & Hun & Hz' & Hlt).
    split; [done|]. split.
    + intros t s' Ht Hs'. symmetry in H1. rewrite forallb_forall in H1.
      specialize (H1 s' (proj1 (list_elem_of_In _ _) Hs')).
      destruct (state_waits s' now) eqn:Ew.
      * destruct (H3 s' Hs' Ew). apply state_waits_spec in Ew as (Hd' & Hu' & Hn' & _).
        unfold state_unavailable. rewrite Hu', (proj2 (String.eqb_neq _ _) Hd'). simpl.
        bprop; lia.
      * unfold state_waits in Ew. rewrite H1, andb_true_r in Ew. bprop.
        unfold state_unavailable. by rewrite Ew, String.eqb_refl.
    + exists s. unfold state_unavailable. rewrite Hun, (proj2 (String.eqb_neq _ _) Hd). simpl.
      split_and!; [done| |]; [bprop; lia|]. apply andb_false_iff. right. bprop. lia.
  - intros l Hp. apply foldl_permutation; [|done]. intros b x y. apply ag_step_comm.
Qed.

Lemma aggregate_availability_witness :
  let s1 := active_state <| ms_Unavailable := true |> <| ms_NextRetryAfter := 50 |> in
  let s2 := active_state <| ms_Unavailable := true |> <| ms_NextRetryAfter := 90 |> in
  let auth := (new_auth "a") <| a_ModelStates := {["m" := Some s1; "n" := Some s2]} |> in
  a_NextRetryAfter (updateAggregatedAvailability auth 10) = 50
  ∧ 10 < a_NextRetryAfter (updateAggregatedAvailability auth 10).
Proof.
  intros s1 s2 auth. split; [vm_compute; reflexivity|].
  destruct (aggregate_availability auth 10) as (_ & H & _);
    [reflexivity|reflexivity|vm_compute; discriminate|].
  apply H. vm_compute. discriminate.
Defined.

Lemma quota_backoff_witness :
  nextQuotaCooldown 3 false = (8 * second, 4).
Proof. destruct (quota_backoff 3 zero_quota 0) as [H _]. rewrite H by lia. reflexivity. Defined.

End Cooldown.
