(* ===== verification/MarkResult.v ===== *)
(** * Recording execution results: MarkResult (conductor_cooldown.go) and the
    proactive usage block (usage_exhaustion.go)

    [MarkResult] is cut along its own structure: the staleness test, the
    success branch, the failure of a model with its two layers (the model's own
    cooldown under a credential-wide one), the failure of the credential, and
    the bookkeeping all of them share.  Hooks, logs, persistence and the model
    registry are left out; what the scheduler and the refresh loop are told is
    the [notice]. *)
From S2P Require Import Prelude GoLib Thinking AuthTypes QuotaSignals Expiry Availability Classify Cooldown.
Import AuthTypes QuotaSignals Expiry Availability Classify Cooldown.

Module MarkResult.

Record Result : Type := {
  AuthID : string;
  Provider : string;
  Model : string;
  RouteModel : string;
  Success : bool;
  CompletedResponse : bool;
  RetryAfter : option duration;
  CredentialScope : bool;
  ResultError : option Error;
  SkipQuotaObservation : bool;
  AccessToken : string;
  CredentialVersion : Z;
  RegistrationEpoch : Z;
  ExecutionSeq : Z;
}.

(** The part of the manager a result touches: the credentials and the sequence
    number of the last execution dispatched. *)
Record Manager : Type := {
  auths : gmap string Auth;
  executionSeq : Z;
}.
#[global] Instance Manager_eta : Eta Manager := fun m =>
  {| auths := auths m; executionSeq := executionSeq m |}.

(** What is sent to the scheduler ([upsertAuthResult]) and whether the refresh
    of the credential is queued. *)
Record notice : Type := {
  nt_snapshot : Auth;
  nt_models : list string;
  nt_credential_scoped : bool;
  nt_refresh : bool;
}.

Definition devinQuotaRevalidateInterval : duration := hour.

Definition incr64 (n : Z) : Z := wrapu64 (n + 1).

Section MarkResult.
Context `{GP : GoParse} `{EB : ErrorBodies}.
Context (cfg : CoolingConfig).

Definition isStaleExecutionResult (result : Result) (current : Auth) : bool :=
  let staleEpoch := (0 <? RegistrationEpoch result)
                    && (RegistrationEpoch result <? a_RegistrationEpoch current) in
  if staleEpoch then true
  else if negb (String.eqb (AccessToken result) "")
          && authMatchesTokenPartition current (AccessToken result) then false
  else (CredentialVersion result <? a_CredentialVersion current)
       && ((0 <? CredentialVersion result) || (1 <? a_CredentialVersion current)).

Definition rejectsToken (result : Result) : bool :=
  negb (Success result) && negb (is_force_cooldown (ResultError result))
  && negb (shouldSkipCredentialCooldown (ResultError result))
  && ((Error_StatusCode (ResultError result) =? 401)
      || on_error isUnauthorizedError (ResultError result)).

(** The credential and whether it changed. *)
Definition recordRejectedTokenOnAuth (auth : Auth) (failedToken : string) : Auth * bool :=
  let failedToken := trim_space failedToken in
  if String.eqb failedToken "" then (auth, false)
  else
    let siwcTok := authSIWCTokenField auth "access_token" in
    let siwc_changed := negb (String.eqb siwcTok "") && String.eqb siwcTok failedToken
                        && negb (String.eqb (a_RejectedSIWCAccessToken auth) failedToken) in
    let auth := if siwc_changed then auth <| a_RejectedSIWCAccessToken := failedToken |> else auth in
    let outer_changed :=
      (String.eqb (authAccessToken auth) failedToken
       || String.eqb (authOuterAccessToken auth) failedToken)
      && negb (String.eqb (a_RejectedAccessToken auth) failedToken) in
    let auth := if outer_changed then auth <| a_RejectedAccessToken := failedToken |> else auth in
    (auth, siwc_changed || outer_changed).

Definition authHasRefreshCredential (auth : Auth) (now : time) : bool :=
  negb (String.eqb (authMetadataString auth "refresh_token") "")
  || negb (String.eqb (authMetadataString auth "refreshToken") "")
  || (CodexSIWCNeedsRefresh auth now).1.2
  || (equal_fold (trim_space (a_Provider auth)) "meta"
      && (negb (String.eqb (authMetadataString auth "dca_token") "")
          || negb (String.eqb (trim_space (default "" (a_Attributes auth !! "dca_token"))) ""))).

(** ** Layers of a model state *)

(** A naturally expired credential-quota wrap is normalised before a new result
    applies: the independent layer if it is still live, a clean state otherwise. *)
Definition normalize_wrap (auth : Auth) (state : ModelState) (now : time) : ModelState :=
  if (ms_propagated state || String.eqb (Reason (ms_Quota state)) "credential_quota")
     && negb (credential_quota_live auth now)
  then match ms_shadow state with
       | Some shadow => if isModelStateActiveCooldown shadow now then cloneShallow shadow
                        else resetModelState state now
       | None => resetModelState state now
       end
  else state.

Definition ownLayerPending (auth : Auth) (result : Result) (now : time) : bool :=
  negb (CredentialScope result) && String.eqb (Reason (a_Quota auth)) "credential_quota"
  && after (NextRecoverAt (a_Quota auth)) now.

(** The state a failure is applied to: the independent layer while a
    credential-wide quota wraps the credential. *)
Definition own_layer (pending : bool) (state : ModelState) : ModelState :=
  if pending then match ms_shadow state with
                  | Some shadow => cloneShallow shadow
                  | None => zero_model_state
                  end
  else state.

(** The outer state composed from the saved propagated layer and the
    independent layer just updated. *)
Definition compose_layers (auth : Auth) (saved state : ModelState) (now : time) (cooldownSeq : Z) :
    ModelState :=
  let independent := cloneShallow state in
  let outer := cloneShallow saved in
  let retry := later (ms_NextRetryAfter outer) (ms_NextRetryAfter state) in
  let retry := later retry (NextRecoverAt (a_Quota auth)) in
  let quota := if Exceeded (ms_Quota outer)
                  && String.eqb (Reason (ms_Quota outer)) "credential_quota"
               then ms_Quota outer
               else applyCooldownFields (ms_Quota outer)
                      (exceeded_quota "credential_quota" (NextRecoverAt (a_Quota auth))
                         (BackoffLevel (a_Quota auth))) in
  outer <| ms_shadow := if isModelStateActiveCooldown independent now then Some independent else None |>
        <| ms_cooldownRecordedSeq := cooldownSeq |> <| ms_propagated := true |>
        <| ms_Unavailable := true |> <| ms_Status := StatusError |> <| ms_UpdatedAt := now |>
        <| ms_LastError := ms_LastError state |> <| ms_StatusMessage := ms_StatusMessage state |>
        <| ms_NextRetryAfter := retry |> <| ms_Quota := quota |>.

(** The credential-wide quota reaching a sibling model. *)
Definition propagate_state (auth : Auth) (credentialNext : time) (backoffLevel : Z) (now : time)
    (other : ModelState) : ModelState :=
  let other := normalize_wrap auth other now in
  let alreadyPropagated :=
    ms_propagated other || String.eqb (Reason (ms_Quota other)) "credential_quota" in
  let shadow :=
    if alreadyPropagated then ms_shadow other
    else if isModelStateActiveCooldown other now
            && negb (isDevinQuotaExhaustionMessage (devinStateErrorText other))
    then Some (cloneShallow other) else None in
  let otherQuotaNext := if Exceeded (ms_Quota other)
                           && after (NextRecoverAt (ms_Quota other)) credentialNext
                        then NextRecoverAt (ms_Quota other) else credentialNext in
  let otherRetryAfter := if negb (is_zero (ms_NextRetryAfter other))
                            && after (ms_NextRetryAfter other) otherQuotaNext
                         then ms_NextRetryAfter other else otherQuotaNext in
  other <| ms_shadow := shadow |> <| ms_propagated := true |> <| ms_Unavailable := true |>
        <| ms_Status := StatusError |> <| ms_NextRetryAfter := otherRetryAfter |>
        <| ms_Quota := applyCooldownFields (ms_Quota other)
                         (exceeded_quota "credential_quota" otherQuotaNext backoffLevel) |>.

(** Apply [f] to the non-nil states of the models other than [key]. *)
Definition map_siblings (key : string) (f : ModelState → ModelState)
    (states : gmap string (option ModelState)) : gmap string (option ModelState) :=
  map_imap (fun k (s : option ModelState) =>
    Some (if String.eqb k key then s
          else match s with Some st => Some (f st) | None => None end)) states.

(** ** A 429 of a model *)

Definition credential_quota_exceeded (auth : Auth) : bool :=
  Exceeded (a_Quota auth) && String.eqb (Reason (a_Quota auth)) "credential_quota".

(** [(next, credentialNext, backoffLevel)]. *)
Definition quota_deadline (auth : Auth) (state : ModelState) (result : Result) (now : time)
    (disableCooling : bool) : time * time * Z :=
  let backoffLevel :=
    if CredentialScope result then
      if credential_quota_exceeded auth then BackoffLevel (a_Quota auth) else 0
    else BackoffLevel (ms_Quota state) in
  if disableCooling then (0, 0, backoffLevel)
  else
    let '(next, backoffLevel) :=
      match RetryAfter result with
      | Some hint => (now + Z.max minQuotaCooldownFloor hint, backoffLevel)
      | None =>
          let quotaForFailure :=
            if CredentialScope result then
              if credential_quota_exceeded auth then a_Quota auth
              else (ms_Quota state) <| NextRecoverAt := 0 |> <| BackoffLevel := 0 |>
            else ms_Quota state in
          quotaCooldownAfterFailure quotaForFailure now
      end in
    (if Exceeded (ms_Quota state) && after (NextRecoverAt (ms_Quota state)) next
     then NextRecoverAt (ms_Quota state) else next, next, backoffLevel).

(** The independent layer kept under the first wrap of the reporting model. *)
Definition reporting_shadow (state saved : ModelState) (prev : time) (result : Result) (now : time) :
    option ModelState :=
  if negb (CredentialScope result) then None
  else if negb (ms_propagated state)
          && negb (String.eqb (Reason (ms_Quota saved)) "credential_quota") then
    if after prev now && negb (isDevinQuotaExhaustionMessage (devinStateErrorText saved))
    then Some ((cloneShallow saved) <| ms_NextRetryAfter := prev |> <| ms_Unavailable := true |>
                 <| ms_Status := StatusError |>)
    else None
  else ms_shadow state.

Definition model_quota_failure (auth : Auth) (key : string) (state saved : ModelState) (prev : time)
    (result : Result) (now : time) (disableCooling wasTerminal : bool) : Auth * ModelState :=
  let '(next, credentialNext, backoffLevel) := quota_deadline auth state result now disableCooling in
  let state :=
    state <| ms_NextRetryAfter := next |>
          <| ms_Quota := applyCooldownFields (ms_Quota state) (exceeded_quota "quota" next backoffLevel) |>
          <| ms_shadow := reporting_shadow state saved prev result now |> in
  if CredentialScope result && negb disableCooling then
    let auth' := auth <| a_ModelStates :=
      map_siblings key (propagate_state auth credentialNext backoffLevel now) (a_ModelStates auth) |> in
    if wasTerminal then (auth', state)
    else
      let authNext := if credential_quota_exceeded auth
                         && after (NextRecoverAt (a_Quota auth)) credentialNext
                      then NextRecoverAt (a_Quota auth) else credentialNext in
      (auth' <| a_Unavailable := true |>
             <| a_Quota := applyCooldownFields (a_Quota auth)
                             (exceeded_quota "credential_quota" authNext backoffLevel) |>
             <| a_NextRetryAfter := authNext |>,
       state <| ms_propagated := true |>)
  else (auth, state).

(** ** The failure of a model *)

(** The [if]/[switch] on the class and status of the error. *)
Definition model_failure_effect (auth : Auth) (key : string) (state saved : ModelState) (prev : time)
    (result : Result) (now : time) (disableCooling wasTerminal : bool) : Auth * ModelState :=
  let err := ResultError result in
  let statusCode := Error_StatusCode err in
  let retry_at next := (auth, state <| ms_NextRetryAfter := next |>) in
  let transient next := (auth, state <| ms_NextRetryAfter := next |>
                                     <| ms_Unavailable := negb (is_zero next) |>) in
  if on_error isModelSupportResultError err then
    retry_at (not_found_retry disableCooling (RetryAfter result) now)
  else if on_error isCloudflareChallengeResultError err then
    let '(next, level) := nextCloudflareCooldown (BackoffLevel (ms_Quota state)) disableCooling now in
    (if bool_decide (a_LastError auth ≠ None) && negb wasTerminal
     then auth <| a_StatusMessage := "cloudflare challenge" |> else auth,
     state <| ms_NextRetryAfter := next |> <| ms_StatusMessage := "cloudflare challenge" |>
           <| ms_Quota := applyCooldownFields (ms_Quota state)
                            (exceeded_quota "cloudflare challenge" next level) |>)
  else if on_error isInvalidGrantResultError err || on_error isCreditBalanceTooLowResultError err then
    retry_at (half_hour_unless disableCooling now)
  else if on_error isTransientRateLimitResultError err && (statusCode =? 429) then
    transient (keep_quota_deadline (ms_Quota state)
                 (transientRateLimitRetryAfter cfg now (RetryAfter result) disableCooling) now)
  else if status_in [401; 402; 403] statusCode then retry_at (half_hour_unless disableCooling now)
  else if statusCode =? 404 then retry_at (not_found_retry disableCooling (RetryAfter result) now)
  else if statusCode =? 429 then
    model_quota_failure auth key state saved prev result now disableCooling wasTerminal
  else if status_in transient_statuses statusCode then
    transient (recoverableFailureRetryAfterWithHint cfg now (RetryAfter result) disableCooling)
  else transient (recoverableFailureRetryAfter cfg now disableCooling).

Definition mark_state_failed (state : ModelState) (err : option Error) (now : time) : ModelState :=
  let state := state <| ms_Unavailable := true |> <| ms_Status := StatusError |>
                     <| ms_UpdatedAt := now |> in
  match err with
  | Some e => state <| ms_LastError := Some e |> <| ms_StatusMessage := err_Message e |>
  | None => state
  end.

Definition mark_auth_failed (auth : Auth) (err : option Error) (wasTerminal : bool) : Auth :=
  match err with
  | Some e => if wasTerminal then auth
              else auth <| a_LastError := Some e |> <| a_StatusMessage := err_Message e |>
  | None => auth
  end.

(** The adjustments of the retry time after the switch. *)
Definition settle_state (state : ModelState) (prev : time) (err : option Error) (now : time)
    (disableCooling : bool) : ModelState :=
  let state :=
    if disableCooling && is_zero (ms_NextRetryAfter state)
       && is_zero (NextRecoverAt (ms_Quota state))
    then state <| ms_Unavailable := false |>
               <| ms_Quota := (ms_Quota state) <| Exceeded := false |> |>
    else state in
  let state :=
    if is_force_cooldown err && is_zero (ms_NextRetryAfter state)
    then state <| ms_NextRetryAfter := now + transientErrorCooldown |> <| ms_Unavailable := true |>
    else state in
  state <| ms_NextRetryAfter := extend_retry prev (ms_NextRetryAfter state) now |>.

Definition failure_disables_cooling (auth : Auth) (result : Result) : bool :=
  if is_force_cooldown (ResultError result) then false
  else quotaCooldownDisabledForAuthWithConfig auth cfg.

Definition model_failure (seq : Z) (auth : Auth) (modelKey : string) (result : Result) (now : time)
    (wasTerminal : bool) : Auth :=
  let disableCooling := failure_disables_cooling auth result in
  let key := canonicalModelKey modelKey in
  let '(auth, state) := ensureModelState auth modelKey in
  let state := normalize_wrap auth state now in
  let saved := cloneShallow state in
  let pending := ownLayerPending auth result now in
  let state := own_layer pending state in
  let prev := ms_NextRetryAfter state in
  let state := mark_state_failed state (ResultError result) now in
  let auth := mark_auth_failed auth (ResultError result) wasTerminal in
  let '(auth, state) :=
    model_failure_effect auth key state saved prev result now disableCooling wasTerminal in
  let state := settle_state state prev (ResultError result) now disableCooling in
  let state := state <| ms_cooldownRecordedSeq := seq |> in
  let state := if pending then compose_layers auth saved state now seq else state in
  let auth :=
    if CredentialScope result && negb disableCooling && (Error_StatusCode (ResultError result) =? 429)
    then auth <| a_cooldownRecordedSeq := seq |>
              <| a_ModelStates := map_siblings key (fun s => s <| ms_cooldownRecordedSeq := seq |>)
                                    (a_ModelStates auth) |>
    else auth in
  let auth := set_model_state auth key state in
  updateAggregatedAvailability (auth <| a_Status := StatusError |>) now.

(** ** The success branch *)

(** A success dispatched before a still-live cooldown was recorded proves
    nothing about recovery. *)
Definition retainModelCooldown (auth : Auth) (modelKey : string) (result : Result) (now : time)
    (wasTerminal : bool) : bool :=
  negb (String.eqb modelKey "") && negb wasTerminal && (0 <? ExecutionSeq result)
  && match existingModelState auth modelKey with
     | Some existing =>
         isModelStateActiveCooldown existing now && (0 <? ms_cooldownRecordedSeq existing)
         && (ExecutionSeq result <=? ms_cooldownRecordedSeq existing)
     | None => false
     end.
Definition retainAuthCooldown (auth : Auth) (modelKey : string) (result : Result) (now : time)
    (wasTerminal : bool) : bool :=
  String.eqb modelKey "" && negb wasTerminal && (0 <? ExecutionSeq result)
  && isAuthActiveCooldown auth now && (0 <? a_cooldownRecordedSeq auth)
  && (ExecutionSeq result <=? a_cooldownRecordedSeq auth).

(** [auth.Quota.Reason == "credential_quota" && auth.Quota.NextRecoverAt.After(now)]. *)
Definition credential_quota_pending (auth : Auth) (now : time) : bool :=
  String.eqb (Reason (a_Quota auth)) "credential_quota"
  && after (NextRecoverAt (a_Quota auth)) now.

(** A success that is taken as evidence resets the model, unless a usage-limit
    block holds. *)
Definition model_success (auth : Auth) (modelKey : string) (now : time) : Auth :=
  let key := canonicalModelKey modelKey in
  let '(auth, state) := ensureModelState auth modelKey in
  if hasActiveUsageLimitBlock state now then updateAggregatedAvailability auth now
  else
    let auth := set_model_state auth key (resetModelState state now) in
    let auth := updateAggregatedAvailability auth now in
    if hasModelError auth now then auth
    else auth <| a_LastError := None |> <| a_StatusMessage := "" |> <| a_Status := StatusActive |>.

Definition success_effect (auth : Auth) (modelKey : string) (result : Result) (now : time)
    (wasTerminal : bool) : Auth :=
  let retain := retainModelCooldown auth modelKey result now wasTerminal
                || retainAuthCooldown auth modelKey result now wasTerminal in
  let auth :=
    if CompletedResponse result && negb (SkipQuotaObservation result) && negb wasTerminal
       && negb (credential_quota_pending auth now) && negb retain
    then auth <| a_InferenceVerified := true |> <| a_LastInferenceVerifiedAt := now |>
    else auth in
  if wasTerminal then
    if negb (String.eqb modelKey "") then
      let '(auth, state) := ensureModelState auth modelKey in
      set_model_state auth (canonicalModelKey modelKey) (resetModelState state now)
    else auth
  else if credential_quota_pending auth now then auth
  else if retain then auth
  else if negb (String.eqb modelKey "") then model_success auth modelKey now
  else clearAuthStateOnSuccess auth now.

Definition failure_effect (seq : Z) (auth : Auth) (modelKey : string) (result : Result) (now : time)
    (wasTerminal : bool) : Auth :=
  if negb (String.eqb modelKey "") then
    if shouldSkipCredentialCooldown (ResultError result) then auth
    else model_failure seq auth modelKey result now wasTerminal
  else if wasTerminal then auth
  else (applyAuthFailureState cfg auth (ResultError result) (RetryAfter result) now
          (failure_disables_cooling auth result))
         <| a_cooldownRecordedSeq := seq |>.

(** ** MarkResult *)

(** The refresh schedule of a credential whose token was just rejected. *)
Definition refresh_after_rejection (auth : Auth) (now : time) : Auth :=
  if is_zero (a_NextRefreshAfter auth) then
    auth <| a_NextRefreshAfter :=
      if negb (is_zero (a_LastRefreshedAt auth))
         && (time_sub now (a_LastRefreshedAt auth) <? refreshFailureBackoff)
      then now + refreshFailureBackoff else now |>
  else auth.

(** [headers] are those of the response being recorded; [now] is never the
    zero time, so the clock of the observation is [now] itself. *)
Definition observe (headers : Header) (provider : string) (q : QuotaState) (now : time) :
    QuotaState :=
  (ObserveResponseHeadersForProvider now q provider headers now).1.

Definition observe_quota (headers : Header) (auth : Auth) (modelKey : string) (result : Result)
    (now : time) : Auth :=
  if SkipQuotaObservation result then auth
  else
    let auth := auth <| a_Quota := observe headers (Provider result) (a_Quota auth) now |> in
    match existingModelState auth modelKey with
    | Some state =>
        set_model_state auth (canonicalModelKey modelKey)
          (state <| ms_Quota := observe headers (Provider result) (ms_Quota state) now |>)
    | None => auth
    end.

(** The key the result is charged to; [route_key] is
    [selectionModelKeyForAuth], the model alias resolution. *)
Definition result_model_key (route_key : Auth → string → string) (auth : Auth) (result : Result) :
    string :=
  let modelKey := canonicalModelKey (Model result) in
  if String.eqb modelKey "" && negb (String.eqb (trim_space (RouteModel result)) "") then
    or_string (route_key auth (RouteModel result)) (canonicalModelKey (RouteModel result))
  else modelKey.

(** Every result that is not stale is counted once. *)
Definition count_result (auth : Auth) (result : Result) (now : time) : Auth :=
  let auth := recordRecentRequest auth now (Success result) in
  if Success result then auth <| a_Success := a_Success auth + 1 |>
  else auth <| a_Failed := a_Failed auth + 1 |>.

(** The credential after a result that is not stale, and whether a refresh is
    scheduled. *)
Definition apply_result (seq : Z) (ctx : ReqCtx) (headers : Header) (auth : Auth)
    (modelKey : string) (result : Result) (now : time) : Auth * bool :=
  let auth := count_result auth result now in
  let wasTerminal := hasUnauthorizedAuthFailure auth in
  let auth := if Success result then success_effect auth modelKey result now wasTerminal
              else failure_effect seq auth modelKey result now wasTerminal in
  let rejects := rejectsToken result in
  let auth :=
    if rejects then
      (recordRejectedTokenOnAuth auth
         (or_string (AccessToken result) (authAccessTokenForRequest ctx auth))).1
    else auth in
  let schedule := negb wasTerminal && rejects && authHasRefreshCredential auth now in
  let auth :=
    if wasTerminal then
      auth <| a_Unavailable := true |> <| a_Status := StatusError |> <| a_NextRefreshAfter := 0 |>
           <| a_NextRetryAfter := 0 |>
    else if schedule then refresh_after_rejection auth now
    else auth in
  let auth := auth <| a_Generation := incr64 (a_Generation auth) |> <| a_UpdatedAt := now |> in
  (observe_quota headers auth modelKey result now, schedule).

(** conductor_refresh.go: when an exhausted Devin credential is looked at again. *)
Definition devinQuotaRevalidateAt (a : Auth) (now : time) : option time :=
  if negb (equal_fold (trim_space (a_Provider a)) "devin") then None
  else if negb (credential_quota_live a now) then None
  else
    let since := if is_zero (a_LastRefreshedAt a) then ObservedAt (a_Quota a)
                 else a_LastRefreshedAt a in
    if is_zero since then Some now
    else
      let next := since + devinQuotaRevalidateInterval in
      Some (if after next (NextRecoverAt (a_Quota a)) then NextRecoverAt (a_Quota a) else next).

(** The models the scheduler is asked to refresh. *)
Definition target_models (modelKey : string) (result : Result) (credentialScoped : bool) :
    list string :=
  if negb credentialScoped && negb (String.eqb modelKey "") then
    let routeKey := canonicalModelKey (RouteModel result) in
    modelKey :: (if negb (String.eqb routeKey "") && negb (String.eqb routeKey modelKey)
                 then [routeKey] else [])
  else [].

(** [policy] is the [ResultPolicy] a host has installed, if any: it may rewrite
    the result, or drop it by clearing its credential.  [now0] and [now] are the
    two readings of the clock. *)
Definition MarkResult (route_key : Auth → string → string) (policy : option (Result → Result))
    (m : Manager) (ctx : ReqCtx) (headers : Header) (result : Result) (now0 now : time) :
    Manager * option notice :=
  let dropped := String.eqb (AuthID result) "" in
  let result := match policy with Some apply => apply result | None => result end in
  if dropped || String.eqb (AuthID result) "" then (m, None)
  else match auths m !! AuthID result with
       | None => (m, None)
       | Some auth =>
           if isStaleExecutionResult result auth then
             let staleEpoch := (0 <? RegistrationEpoch result)
                               && (RegistrationEpoch result <? a_RegistrationEpoch auth) in
             if negb staleEpoch && rejectsToken result && negb (String.eqb (AccessToken result) "")
             then
               let '(auth, changed) := recordRejectedTokenOnAuth auth (AccessToken result) in
               let auth := if changed
                           then auth <| a_Generation := incr64 (a_Generation auth) |>
                                     <| a_UpdatedAt := now0 |>
                           else auth in
               (m <| auths := <[AuthID result := auth]> (auths m) |>, None)
             else (m, None)
           else
             let modelKey := result_model_key route_key auth result in
             let '(auth, schedule) := apply_result (executionSeq m) ctx headers auth modelKey result now in
             let credentialScoped := CredentialScope result || schedule in
             (m <| auths := <[AuthID result := auth]> (auths m) |>,
              Some {| nt_snapshot := auth;
                      nt_models := target_models modelKey result credentialScoped;
                      nt_credential_scoped := credentialScoped;
                      nt_refresh := bool_decide (devinQuotaRevalidateAt auth now ≠ None)
                                    || schedule |})
       end.

(** A result that says nothing about availability. *)
Definition recordAvailabilityNeutralResult (m : Manager) (result : Result) (now : time) : Manager :=
  if String.eqb (AuthID result) "" then m
  else match auths m !! AuthID result with
       | None => m
       | Some auth =>
           if isStaleExecutionResult result auth then m
           else
             let auth := count_result auth result now in
             m <| auths := <[AuthID result :=
                    auth <| a_Generation := incr64 (a_Generation auth) |> <| a_UpdatedAt := now |>]>
                    (auths m) |>
       end.

(** ** MarkUsageExhausted

    [models] are the identifiers of the models the registry lists for the
    account; the result is the snapshot for the scheduler, when something
    changed. *)
Definition usage_block (state : ModelState) (reset now : time) : ModelState :=
  state <| ms_Unavailable := true |> <| ms_Status := StatusError |>
        <| ms_StatusMessage := "usage limit reached" |> <| ms_NextRetryAfter := reset |>
        <| ms_Quota := applyCooldownFields (ms_Quota state) (exceeded_quota usageLimitReason reset 0) |>
        <| ms_UpdatedAt := now |>.

Definition usage_step (reset now : time) (acc : Auth * bool) (model : string) : Auth * bool :=
  let '(auth, changed) := acc in
  let modelKey := canonicalModelKey model in
  if String.eqb modelKey "" then acc
  else
    let '(auth, state) := ensureModelState auth modelKey in
    if usageBlockCurrent state reset then (auth, changed)
    else (set_model_state auth (canonicalModelKey modelKey) (usage_block state reset now), true).

Definition MarkUsageExhausted (m : Manager) (authID : string) (models : list string)
    (reset now : time) : Manager * option Auth :=
  let authID := trim_space authID in
  if String.eqb authID "" then (m, None)
  else if negb (after reset now) then (m, None)
  else if match models with [] => true | _ => false end then (m, None)
  else match auths m !! authID with
       | None => (m, None)
       | Some auth =>
           let '(auth, changed) := foldl (usage_step reset now) (auth, false) models in
           if changed then
             let auth := updateAggregatedAvailability auth now in
             let auth := auth <| a_Generation := incr64 (a_Generation auth) |>
                              <| a_UpdatedAt := now |> in
             (m <| auths := <[authID := auth]> (auths m) |>, Some auth)
           else (m <| auths := <[authID := auth]> (auths m) |>, None)
       end.

End MarkResult.
End MarkResult.
