(* ===== verification/CooldownEnds.v ===== *)
(** * Every cooldown ends

    No recorded result and no usage-limit notice blocks a model without a time:
    the invariant on quota and model states that says so, its preservation by
    each operation of Cooldown and MarkResult, and the liveness it gives. *)
From S2P Require Import Prelude GoLib Thinking AuthTypes QuotaSignals Expiry Availability Classify Cooldown MarkResult.
Import AuthTypes QuotaSignals Expiry Availability Classify Cooldown MarkResult.

Module CooldownEnds.

(** ** The invariant *)

Definition quota_ok (q : QuotaState) : Prop :=
  0 ≤ NextRecoverAt q ∧ (Exceeded q = true → 0 < NextRecoverAt q).

(** A state whose own block has a time. *)
Definition layer_ok (s : ModelState) : Prop :=
  quota_ok (ms_Quota s)
  ∧ (ms_Unavailable s = true → 0 < ms_NextRetryAfter s ∨ 0 < NextRecoverAt (ms_Quota s)).
Definition shadow_ok (s : ModelState) : Prop := ∀ sh, ms_shadow s = Some sh → layer_ok sh.
Definition state_ok (s : ModelState) : Prop := layer_ok s ∧ shadow_ok s.
Definition states_ok (states : gmap string (option ModelState)) : Prop :=
  ∀ k s, states !! k = Some (Some s) → state_ok s.
Definition auth_ok (a : Auth) : Prop := states_ok (a_ModelStates a) ∧ quota_ok (a_Quota a).

Create HintDb ends discriminated.

Lemma zero_quota_ok : quota_ok zero_quota.
Proof. by split. Qed.
Lemma cooldown_fields_ok dst q : quota_ok q → quota_ok (applyCooldownFields dst q).
Proof. done. Qed.
Lemma exceeded_quota_ok dst r next level :
  0 < next → quota_ok (applyCooldownFields dst (exceeded_quota r next level)).
Proof. intros Hn. split; simpl; [lia|done]. Qed.
Lemma zero_state_ok : state_ok zero_model_state.
Proof. by repeat split. Qed.
Lemma active_state_ok : state_ok active_state.
Proof. by repeat split. Qed.
#[export] Hint Resolve zero_quota_ok exceeded_quota_ok zero_state_ok active_state_ok : ends.

Lemma clone_ok s : layer_ok s → state_ok (cloneShallow s).
Proof. intros H. split; [exact H|]. by intros sh [=]. Qed.
Lemma reset_ok s now : state_ok (resetModelState s now).
Proof. repeat split; simpl; done. Qed.
Lemma usage_block_ok s reset now : 0 < reset → shadow_ok s → state_ok (usage_block s reset now).
Proof. intros Hr Hs. split; [|exact Hs]. split; simpl; [split; simpl; [lia|done]|by left]. Qed.
#[export] Hint Resolve clone_ok reset_ok usage_block_ok : ends.

Lemma expire_ok now s : state_ok s → state_ok (expire_state now s).
Proof.
  intros [[Hq Hu] Hs]. unfold expire_state. case_if; [|done]. split; [|exact Hs]. by split.
Qed.

Lemma later_max a b : later a b = Z.max a b.
Proof. unfold later. case_if; bprop; lia. Qed.

Lemma merge_ok t s : state_ok t → state_ok s → state_ok (mergeModelState t s).
Proof.
  intros [[[Ht0 Ht1] Ht2] Ht3] [[[Hs0 Hs1] Hs2] Hs3]. unfold mergeModelState.
  set (p := if after _ _ then s else t). set (f := if after _ _ then t else s).
  assert (Hsh : ∀ x, x = p ∨ x = f → shadow_ok x).
  { intros x [->| ->]; unfold p, f; case_if; done. }
  split; [split; [split|]|]; cbn [ms_Quota ms_Unavailable ms_NextRetryAfter].
  1-3: destruct (mergeQuotaObservation_fields (mergeQuotaObservation
      {| Exceeded := Exceeded (ms_Quota t) || Exceeded (ms_Quota s);
         Reason := or_string (Reason (ms_Quota p)) (Reason (ms_Quota f));
         NextRecoverAt := later (NextRecoverAt (ms_Quota t)) (NextRecoverAt (ms_Quota s));
         BackoffLevel := Z.max (BackoffLevel (ms_Quota t)) (BackoffLevel (ms_Quota s));
         ObservedAt := 0; Signals := ∅ |} (ms_Quota f)) (ms_Quota p)) as (He & _ & Hn & _);
    destruct (mergeQuotaObservation_fields
      {| Exceeded := Exceeded (ms_Quota t) || Exceeded (ms_Quota s);
         Reason := or_string (Reason (ms_Quota p)) (Reason (ms_Quota f));
         NextRecoverAt := later (NextRecoverAt (ms_Quota t)) (NextRecoverAt (ms_Quota s));
         BackoffLevel := Z.max (BackoffLevel (ms_Quota t)) (BackoffLevel (ms_Quota s));
         ObservedAt := 0; Signals := ∅ |} (ms_Quota f)) as (He' & _ & Hn' & _);
    rewrite ?He, ?He', ?Hn, ?Hn'; simpl; rewrite ?later_max.
  - lia.
  - intros [H|H]%orb_true_iff; [specialize (Ht1 H)|specialize (Hs1 H)]; lia.
  - intros [H|H]%orb_true_iff; [destruct (Ht2 H)|destruct (Hs2 H)]; lia.
  - intros sh. cbn [ms_shadow]. case_if; [|done].
    destruct (or_option (ms_shadow p) (ms_shadow f)) as [x|] eqn:Ex; simpl; [|done].
    intros [= <-]. assert (layer_ok x) as Hx.
    { unfold or_option in Ex. destruct (ms_shadow p) eqn:Ep; simplify_eq.
      - by apply (Hsh p); auto.
      - by apply (Hsh f); auto. }
    exact Hx.
Qed.

(** ** Maps of states *)

Lemma states_ok_insert states k s : states_ok states → state_ok s → states_ok (<[k := Some s]> states).
Proof.
  intros Hs Hk k' s'. destruct (decide (k = k')) as [<-|Hne].
  - rewrite lookup_insert_eq. by intros [= <-].
  - rewrite lookup_insert_ne by done. apply Hs.
Qed.

Lemma normalize_ok auth : auth_ok auth → auth_ok (normalizeModelStates auth).
Proof.
  intros [Hs Hq]. unfold normalizeModelStates.
  assert (Hf : states_ok (foldl normalize_step (∅, false) (map_to_list (a_ModelStates auth))).1).
  { apply (foldl_invariant (fun acc => states_ok acc.1)); [|by intros k s].
    intros [m ch] [k os] Hin Hm. apply elem_of_map_to_list in Hin. unfold normalize_step.
    set (key := if String.eqb _ "" then _ else _). clearbody key. simpl in *.
    destruct (m !! key) as [ex|] eqn:Ek; simpl; intros k' s'.
    - destruct (decide (key = k')) as [<-|Hne]; [|rewrite lookup_insert_ne by done; apply Hm].
      rewrite lookup_insert_eq. destruct ex as [e|], os as [s|]; simpl; intros [= <-].
      + apply merge_ok; [by eapply Hm|by eapply Hs].
      + by eapply Hm.
      + by eapply Hs.
    - destruct (decide (key = k')) as [<-|Hne]; [|rewrite lookup_insert_ne by done; apply Hm].
      rewrite lookup_insert_eq. intros [= ->]. by eapply Hs. }
  destruct (foldl _ _ _) as [m ch]. simpl in Hf. case_if; [by split|done].
Qed.

Lemma model_state_ok auth k s : states_ok (a_ModelStates auth) → model_state auth k = Some s → state_ok s.
Proof.
  unfold model_state. intros Hs. destruct (a_ModelStates auth !! k) as [[x|]|] eqn:E; simpl; try done.
  intros [= <-]. by eapply Hs.
Qed.

Lemma set_state_ok auth k s : auth_ok auth → state_ok s → auth_ok (set_model_state auth k s).
Proof. intros [Hs Hq] Hk. split; [|exact Hq]. by apply states_ok_insert. Qed.

Lemma ensure_ok auth model :
  auth_ok auth → auth_ok (ensureModelState auth model).1 ∧ state_ok (ensureModelState auth model).2.
Proof.
  intros H%normalize_ok. unfold ensureModelState.
  destruct (model_state (normalizeModelStates auth) (canonicalModelKey model)) as [s|] eqn:E; simpl.
  - split; [done|]. apply (model_state_ok _ _ _ (proj1 H) E).
  - split; [apply set_state_ok|]; auto with ends.
Qed.

Lemma map_siblings_ok key f states :
  (∀ s, state_ok s → state_ok (f s)) → states_ok states → states_ok (map_siblings key f states).
Proof.
  intros Hf Hs k s. unfold map_siblings. rewrite map_lookup_imap.
  destruct (states !! k) as [[x|]|] eqn:E; simpl; [|by case_if|done].
  case_if; intros [= <-]; [|apply Hf]; by eapply Hs.
Qed.

(** ** The aggregate *)

Definition ag_ok (ag : aggregate) : Prop :=
  (ag_quotaExceeded ag = true → 0 < ag_quotaRecover ag)
  ∧ (ag_quotaExceeded ag = false → ag_quotaRecover ag = 0).

Lemma ag_fold_ok now states :
  (∀ s, s ∈ states → quota_ok (ms_Quota s)) → ag_ok (foldl (ag_step now) ag_init states).
Proof.
  intros Hs. apply (foldl_invariant ag_ok); [|by split].
  intros ag s Hin [H1 H2]. destruct (Hs s Hin) as [H3 H4]. unfold ag_step, ag_ok. simpl.
  destruct (Exceeded (ms_Quota s)); simpl; rewrite ?orb_false_r, ?orb_true_r; [|done].
  specialize (H4 eq_refl). split; [|done]. intros _. unfold before, is_zero.
  destruct (ag_quotaExceeded ag); [specialize (H1 eq_refl)|rewrite (H2 eq_refl)];
    repeat case_if; bprop; lia.
Qed.

Lemma model_states_elem auth k s :
  (k, s) ∈ model_states auth ↔ a_ModelStates auth !! k = Some (Some s).
Proof.
  unfold model_states. rewrite list_elem_of_omap. split.
  - intros ([k' os] & He & H). apply elem_of_map_to_list in He. destruct os; simpl in H; [|done].
    by simplify_eq.
  - intros H. exists (k, Some s). by rewrite elem_of_map_to_list.
Qed.

Lemma aggregated_ok auth now : auth_ok auth → auth_ok (updateAggregatedAvailability auth now).
Proof.
  intros [Hs Hq]. unfold updateAggregatedAvailability. case_if; [done|]. case_if; [done|].
  case_if; [done|].
  assert (Hs' : states_ok (fmap (M := gmap string) (fmap (expire_state now)) (a_ModelStates auth))).
  { intros k s. rewrite lookup_fmap. destruct (a_ModelStates auth !! k) as [[x|]|] eqn:Ex; simpl; try done.
    intros [= <-]. by eapply expire_ok, Hs. }
  pose proof (ag_fold_ok now (map snd (model_states auth))) as Hag.
  destruct Hag as [Hag _].
  { intros s. change (map snd (model_states auth)) with (snd <$> model_states auth).
    intros ([k x] & -> & Hin)%list_elem_of_fmap. apply model_states_elem in Hin. exact (proj1 (proj1 (Hs k x Hin))). }
  set (ag := foldl _ _ _) in *. clearbody ag. case_if; [by split|].
  unfold apply_aggregate. simpl. case_if.
  - split; [exact Hs'|]. specialize (Hag eq_refl). simpl. apply exceeded_quota_ok. case_if; bprop; lia.
  - case_if; split; try done.
Qed.


(** ** The failure of a model *)

(** The configured transient cooldown does not overflow a [time.Duration]. *)
Definition config_ok (cfg : CoolingConfig) : Prop :=
  transientErrorCooldownSeconds cfg * second ≤ max_int64.

(** A state between the switch on the error and the adjustments after it: a
    block without time is possible only when cooling is disabled. *)
Definition effect_ok (disable : bool) (s : ModelState) : Prop :=
  let no_time := disable = true ∧ ms_NextRetryAfter s = 0 ∧ NextRecoverAt (ms_Quota s) = 0 in
  shadow_ok s ∧ 0 ≤ NextRecoverAt (ms_Quota s)
  ∧ (Exceeded (ms_Quota s) = true → 0 < NextRecoverAt (ms_Quota s) ∨ no_time)
  ∧ (ms_Unavailable s = true →
       0 < ms_NextRetryAfter s ∨ 0 < NextRecoverAt (ms_Quota s) ∨ no_time).

Lemma settle_ok s prev err now disable :
  0 < now → effect_ok disable s → state_ok (settle_state s prev err now disable).
Proof.
  intros Hn (Hsh & H0 & He & Hu). unfold settle_state.
  set (s1 := if disable && _ && _ then _ else s).
  assert (H1 : shadow_ok s1 ∧ quota_ok (ms_Quota s1)
    ∧ (ms_Unavailable s1 = true → 0 < ms_NextRetryAfter s1 ∨ 0 < NextRecoverAt (ms_Quota s1))).
  { unfold s1. case_if; [split; [exact Hsh|]; split; [by split|done]|]. split; [done|].
    assert (Hno : ¬ (disable = true ∧ ms_NextRetryAfter s = 0 ∧ NextRecoverAt (ms_Quota s) = 0)).
    { intros (-> & Hr & Hq). rewrite Hr, Hq in E. done. }
    split; [split; [done|]|]; [intros H; destruct (He H)|intros H; destruct (Hu H) as [|[]]]; tauto. }
  clearbody s1. destruct H1 as (Hsh1 & Hq1 & Hu1).
  set (s2 := if is_force_cooldown err && _ then _ else s1).
  assert (H2 : state_ok s2).
  { unfold s2. case_if; [|done]. split; [|exact Hsh1]. split; [exact Hq1|].
    intros _. left. simpl. unfold transientErrorCooldown, minute, second. lia. }
  clearbody s2. destruct H2 as [[Hq2 Hu2] Hsh2]. split; [split; [exact Hq2|]|exact Hsh2].
  simpl. intros H. destruct (Hu2 H) as [Hr|Hr]; [left|by right].
  unfold extend_retry. case_if; bprop; lia.
Qed.

Lemma retry_effect_ok disable next s :
  quota_ok (ms_Quota s) → shadow_ok s → 0 < next ∨ (disable = true ∧ next = 0) →
  effect_ok disable (s <| ms_NextRetryAfter := next |>).
Proof.
  intros [H0 H1] Hs Hn. split_and!; [exact Hs|done|by left; apply H1|].
  simpl. intros _. destruct Hn as [|[-> ->]]; [by left|right].
  destruct (Z.eq_dec (NextRecoverAt (ms_Quota s)) 0); [right|left; lia]. done.
Qed.
Lemma transient_effect_ok disable next s :
  quota_ok (ms_Quota s) → shadow_ok s → 0 ≤ next →
  effect_ok disable (s <| ms_NextRetryAfter := next |> <| ms_Unavailable := negb (is_zero next) |>).
Proof.
  intros [H0 H1] Hs Hn. split_and!; [exact Hs|done|by left; apply H1|].
  simpl. intros H. bprop. left. lia.
Qed.
(** A quota block just written, with its shadow. *)
Lemma quota_effect_ok disable next reason level s sh :
  0 < next ∨ (disable = true ∧ next = 0) → (∀ x, sh = Some x → layer_ok x) →
  effect_ok disable (s <| ms_NextRetryAfter := next |>
    <| ms_Quota := applyCooldownFields (ms_Quota s) (exceeded_quota reason next level) |>
    <| ms_shadow := sh |>).
Proof. intros Hn Hs. split; [exact Hs|]. simpl. split; [lia|]. split; [tauto|]. intros _. tauto. Qed.

Lemma effect_ok_ext disable s s' :
  ms_shadow s' = ms_shadow s → ms_Quota s' = ms_Quota s → ms_Unavailable s' = ms_Unavailable s →
  ms_NextRetryAfter s' = ms_NextRetryAfter s → effect_ok disable s → effect_ok disable s'.
Proof. unfold effect_ok, shadow_ok. by intros -> -> -> ->. Qed.

Section Times.
Context (cfg : CoolingConfig) (Hcfg : config_ok cfg).

Lemma recoverable_nonneg now hint disable :
  0 < now → 0 ≤ recoverableFailureRetryAfterWithHint cfg now hint disable.
Proof using Hcfg.
  intros Hn. unfold recoverableFailureRetryAfterWithHint. case_if; [done|]. case_if; [done|].
  set (fb := if _ =? 0 then _ else _).
  assert (0 < fb).
  { unfold fb. case_if; [unfold transientErrorCooldown, minute, second; lia|].
    unfold config_ok in Hcfg. rewrite wrap64_small; [bprop; unfold second; lia|].
    unfold in_int64, min_int64, second in *. bprop. lia. }
  destruct hint as [h|]; [|lia]. case_if; bprop; lia.
Qed.
Lemma rate_limit_nonneg now hint disable :
  0 < now → 0 ≤ transientRateLimitRetryAfter cfg now hint disable.
Proof using Hcfg.
  intros Hn. unfold transientRateLimitRetryAfter.
  destruct hint as [[| |]|]; try done; by apply recoverable_nonneg.
Qed.
Lemma keep_quota_nonneg q next now : 0 < now → 0 ≤ next → 0 ≤ keep_quota_deadline q next now.
Proof. intros. unfold keep_quota_deadline. repeat case_if; bprop; lia. Qed.

Lemma half_hour_time disable now :
  0 < now → 0 < half_hour_unless disable now ∨ (disable = true ∧ half_hour_unless disable now = 0).
Proof. intros. unfold half_hour_unless. destruct disable; [by right|left]. unfold minute, second. lia. Qed.
Lemma not_found_time disable hint now :
  0 < now → 0 < not_found_retry disable hint now
            ∨ (disable = true ∧ not_found_retry disable hint now = 0).
Proof.
  intros. unfold not_found_retry. destruct disable; [by right|left].
  destruct hint as [h|]; [case_if; bprop|]; unfold hour, minute, second; lia.
Qed.
Lemma cloudflare_time level disable now :
  0 < now → 0 < (nextCloudflareCooldown level disable now).1
            ∨ (disable = true ∧ (nextCloudflareCooldown level disable now).1 = 0).
Proof.
  intros. unfold nextCloudflareCooldown. destruct disable; [by right|left].
  destruct (nextQuotaCooldown level false) as [c l]. unfold second.
  destruct (c <? 10 * 1000000000) eqn:E; bprop; simpl; repeat case_if; bprop; simpl; lia.
Qed.
Lemma quota_after_failure_time q now : 0 < now → now < (quotaCooldownAfterFailure q now).1.
Proof.
  intros. unfold quotaCooldownAfterFailure. case_if; [by bprop|].
  pose proof (nextQuotaCooldown_bounds (BackoffLevel q)) as [Hb _].
  destruct (nextQuotaCooldown (BackoffLevel q) false) as [c l].
  unfold quotaSyntheticBackoffMax, minute, second in *. simpl in *.
  destruct (60 * 1000000000 <? c) eqn:E1; bprop; repeat case_if; bprop; simpl; lia.
Qed.
End Times.

Lemma normalize_wrap_ok auth s now : state_ok s → state_ok (normalize_wrap auth s now).
Proof.
  intros [Hl Hs]. unfold normalize_wrap. case_if; [|done].
  destruct (ms_shadow s) as [sh|] eqn:Esh; [|apply reset_ok].
  case_if; [|apply reset_ok]. apply clone_ok. by apply Hs.
Qed.
Lemma own_layer_ok pending s : state_ok s → state_ok (own_layer pending s).
Proof.
  intros [Hl Hs]. unfold own_layer. destruct pending; [|done].
  destruct (ms_shadow s) as [sh|] eqn:Esh; [|apply zero_state_ok]. apply clone_ok. by apply Hs.
Qed.
Lemma propagate_ok auth next level now s :
  0 < next → state_ok s → state_ok (propagate_state auth next level now s).
Proof.
  intros Hn Hs. unfold propagate_state.
  pose proof (normalize_wrap_ok auth s now Hs) as [Hl Hsh].
  set (o := normalize_wrap auth s now) in *. clearbody o. cbv zeta.
  set (qn := if Exceeded (ms_Quota o) && _ then _ else next).
  assert (0 < qn) by (unfold qn; case_if; bprop; lia). clearbody qn.
  split; [split|].
  - by apply exceeded_quota_ok.
  - intros _. simpl. by right.
  - intros sh. simpl. case_if; [by intros H'; apply Hsh|]. case_if; [|done]. intros [= <-]. exact Hl.
Qed.
Lemma compose_ok auth saved s now seq :
  0 < now → now < NextRecoverAt (a_Quota auth) → state_ok saved → state_ok s →
  state_ok (compose_layers auth saved s now seq).
Proof.
  intros Hn Hq [Hl Hs] [Hl' Hs']. split; [split|].
  - unfold compose_layers. simpl. case_if; [apply Hl|]. apply exceeded_quota_ok. lia.
  - intros _. left. unfold compose_layers. simpl. rewrite !later_max. lia.
  - intros sh. unfold compose_layers. simpl. case_if; [|done]. intros [= <-]. exact Hl'.
Qed.

(** What a failing execution may do to the credential and the state it is
    charged to. *)
Definition effect_post (disable : bool) (p : Auth * ModelState) : Prop :=
  auth_ok p.1 ∧ effect_ok disable p.2.

Section Failure.
Context `{EB : ErrorBodies} (cfg : CoolingConfig) (Hcfg : config_ok cfg).

Lemma quota_deadline_time auth s result now disable :
  0 < now →
  let '(next, credentialNext, _) := quota_deadline auth s result now disable in
  if disable then next = 0 else 0 < next ∧ now < credentialNext.
Proof.
  intros Hn. unfold quota_deadline. cbv zeta. destruct disable; [done|].
  destruct (RetryAfter result) as [h|].
  - unfold minQuotaCooldownFloor, second. case_if; bprop; lia.
  - match goal with |- context [quotaCooldownAfterFailure ?q now] =>
      pose proof (quota_after_failure_time q now Hn); destruct (quotaCooldownAfterFailure q now) end.
    simpl in *. case_if; bprop; lia.
Qed.

Lemma quota_failure_ok auth key s saved prev result now disable term :
  0 < now → auth_ok auth → shadow_ok s → state_ok saved →
  effect_post disable (model_quota_failure auth key s saved prev result now disable term).
Proof.
  intros Hn [Ha Hq] Hs [Hsv _]. unfold model_quota_failure.
  pose proof (quota_deadline_time auth s result now disable Hn) as Ht.
  destruct (quota_deadline auth s result now disable) as [[next cnext] level].
  assert (Hrs : ∀ x, reporting_shadow s saved prev result now = Some x → layer_ok x).
  { unfold reporting_shadow. case_if; [done|]. case_if; [|exact Hs]. case_if; [|done].
    intros x [= <-]. bprop. split; [apply Hsv|]. intros _. left. simpl. lia. }
  assert (Hnx : 0 < next ∨ (disable = true ∧ next = 0)) by (destruct disable; tauto).
  pose proof (quota_effect_ok disable next "quota" level s _ Hnx Hrs) as He.
  case_if; [|split; [by split|exact He]]. bprop. subst disable.
  assert (Hm : states_ok (map_siblings key (propagate_state auth cnext level now) (a_ModelStates auth))).
  { apply map_siblings_ok; [|done]. intros x. apply propagate_ok. lia. }
  case_if; [by split|]. split.
  - split; [exact Hm|]. apply exceeded_quota_ok. case_if; bprop; lia.
  - by eapply effect_ok_ext; [| | | |exact He].
Qed.

Lemma failure_effect_ok auth key s saved prev result now disable term :
  0 < now → auth_ok auth → quota_ok (ms_Quota s) → shadow_ok s → state_ok saved →
  effect_post disable
    (model_failure_effect cfg auth key s saved prev result now disable term).
Proof using Hcfg.
  intros Hn Ha Hq Hs Hsv. unfold model_failure_effect. cbv zeta.
  case_if. { split; [done|]. apply retry_effect_ok; auto using not_found_time. }
  case_if.
  { pose proof (cloudflare_time (BackoffLevel (ms_Quota s)) disable now Hn) as Ht.
    destruct (nextCloudflareCooldown _ disable now) as [next level]. simpl in Ht.
    split; [by case_if|].
    eapply effect_ok_ext; [| | | |exact (quota_effect_ok disable next "cloudflare challenge" level s _ Ht Hs)]; done. }
  case_if. { split; [done|]. apply retry_effect_ok; auto using half_hour_time. }
  case_if. { split; [done|]. apply transient_effect_ok; auto using keep_quota_nonneg, rate_limit_nonneg. }
  case_if. { split; [done|]. apply retry_effect_ok; auto using half_hour_time. }
  case_if. { split; [done|]. apply retry_effect_ok; auto using not_found_time. }
  case_if. { by apply quota_failure_ok. }
  case_if; split; try done; apply transient_effect_ok; auto using recoverable_nonneg.
  unfold recoverableFailureRetryAfter. auto using recoverable_nonneg.
Qed.

Lemma mark_auth_failed_fields auth err term :
  a_ModelStates (mark_auth_failed auth err term) = a_ModelStates auth
  ∧ a_Quota (mark_auth_failed auth err term) = a_Quota auth.
Proof. unfold mark_auth_failed. destruct err; [|done]. by destruct term. Qed.

(** Only a failure of credential scope writes the credential's quota. *)
Lemma failure_effect_quota auth key s saved prev result now disable term :
  CredentialScope result = false →
  a_Quota (model_failure_effect cfg auth key s saved prev result now disable term).1 = a_Quota auth.
Proof.
  intros Hc. unfold model_failure_effect. cbv zeta. case_if; [done|].
  case_if; [destruct (nextCloudflareCooldown _ _ _) as [??]; by case_if|].
  do 4 (case_if; [done|]). case_if; [|by case_if].
  unfold model_quota_failure. destruct (quota_deadline _ _ _ _ _) as [[??]?]. by rewrite Hc.
Qed.

Lemma model_failure_ok seq auth model result now term :
  0 < now → auth_ok auth → auth_ok (model_failure cfg seq auth model result now term).
Proof using Hcfg.
  intros Hn Ha. unfold model_failure. cbv zeta.
  set (disable := failure_disables_cooling cfg auth result).
  pose proof (ensure_ok auth model Ha) as [Ha1 Hs1].
  destruct (ensureModelState auth model) as [auth1 s1]. cbn [fst snd] in *.
  pose proof (normalize_wrap_ok auth1 s1 now Hs1) as Hs2.
  set (s2 := normalize_wrap auth1 s1 now) in *. clearbody s2.
  set (pending := ownLayerPending auth1 result now).
  pose proof (own_layer_ok pending s2 Hs2) as Hs3.
  set (s3 := own_layer pending s2) in *. clearbody s3.
  destruct (mark_auth_failed_fields auth1 (ResultError result) term) as [Hm1 Hm2].
  assert (Hpost : effect_post disable (model_failure_effect cfg
     (mark_auth_failed auth1 (ResultError result) term) (canonicalModelKey model)
     (mark_state_failed s3 (ResultError result) now) (cloneShallow s2) (ms_NextRetryAfter s3) result
     now disable term)).
  { destruct Hs3 as [[Hq3 _] Hsh3]. apply failure_effect_ok; [done| | | |].
    - unfold auth_ok. by rewrite Hm1, Hm2.
    - unfold mark_state_failed. by destruct (ResultError result).
    - unfold mark_state_failed. by destruct (ResultError result).
    - exact (clone_ok _ (proj1 Hs2)). }
  assert (Hp : pending = true → now < NextRecoverAt (a_Quota auth1)).
  { unfold pending, ownLayerPending. intros. by bprop. }
  pose proof (failure_effect_quota (mark_auth_failed auth1 (ResultError result) term)
    (canonicalModelKey model) (mark_state_failed s3 (ResultError result) now) (cloneShallow s2)
    (ms_NextRetryAfter s3) result now disable term) as Hpq.
  destruct (model_failure_effect _ _ _ _ _ _ _ _ _ _) as [auth2 s4]. destruct Hpost as [Ha2 He].
  cbn [fst snd] in *. rewrite Hm2 in Hpq.
  pose proof (settle_ok s4 (ms_NextRetryAfter s3) (ResultError result) now disable Hn He) as Hs5.
  set (s5 := settle_state s4 _ _ _ _) in *. clearbody s5.
  assert (Hs6 : state_ok (s5 <| ms_cooldownRecordedSeq := seq |>)) by exact Hs5.
  set (s6 := s5 <| ms_cooldownRecordedSeq := seq |>) in *. clearbody s6.
  apply aggregated_ok. match goal with |- auth_ok (set _ _ ?x) => change (auth_ok x) end.
  apply set_state_ok.
  - case_if; [|done]. destruct Ha2 as [Hst Hqt]. split; [|exact Hqt]. simpl.
    apply map_siblings_ok; [|done]. intros x Hx. exact Hx.
  - destruct pending eqn:Ep; [|done]. apply compose_ok; [done| |exact (clone_ok _ (proj1 Hs2))|done].
    rewrite Hpq; [by apply Hp|]. unfold pending, ownLayerPending in Ep. by bprop.
Qed.

(** ** The failure of the credential *)

Lemma auth_effect_quota auth err hint now disable :
  0 < now → quota_ok (a_Quota auth) →
  let auth' := auth_failure_effect cfg auth err hint now disable in
  a_ModelStates auth' = a_ModelStates auth
  ∧ 0 ≤ NextRecoverAt (a_Quota auth')
  ∧ (Exceeded (a_Quota auth') = true →
       0 < NextRecoverAt (a_Quota auth')
       ∨ (disable = true ∧ a_NextRetryAfter auth' = 0 ∧ NextRecoverAt (a_Quota auth') = 0)).
Proof.
  intros Hn [H0 H1]. unfold auth_failure_effect. cbv zeta. case_if; [by split_and!; auto|].
  case_if.
  { pose proof (cloudflare_time (BackoffLevel (a_Quota auth)) disable now Hn) as Ht.
    destruct (nextCloudflareCooldown _ disable now) as [next level]. simpl in *.
    split_and!; [done|lia|tauto]. }
  do 5 (case_if; [by split_and!; auto|]). case_if; [|by case_if; split_and!; auto].
  unfold auth_quota_failure. destruct disable; [simpl; split_and!; auto; lia|].
  destruct hint as [h|].
  - simpl. unfold minQuotaCooldownFloor, second. repeat case_if; bprop; simpl; split_and!; auto; lia.
  - match goal with |- context [quotaCooldownAfterFailure ?q now] =>
      pose proof (quota_after_failure_time q now Hn); destruct (quotaCooldownAfterFailure q now) end.
    simpl in *. repeat case_if; bprop; simpl; split_and!; auto; lia.
Qed.

Lemma auth_failure_ok auth err hint now disable :
  0 < now → (is_force_cooldown err = true → disable = false) → auth_ok auth →
  auth_ok (applyAuthFailureState cfg auth err hint now disable).
Proof.
  intros Hn Hf [Hs Hq]. unfold applyAuthFailureState. case_if; [done|]. cbv zeta.
  set (a1 := match err with Some _ => _ | None => _ end).
  assert (H1 : a_ModelStates a1 = a_ModelStates auth ∧ a_Quota a1 = a_Quota auth)
    by (unfold a1; by destruct err).
  clearbody a1. destruct H1 as [Hm1 Hq1]. rewrite <- Hq1 in Hq. rewrite <- Hm1 in Hs.
  pose proof (auth_effect_quota a1 err hint now disable Hn Hq) as (Hm2 & H0 & He).
  set (a2 := auth_failure_effect _ _ _ _ _ _) in *. clearbody a2. rewrite <- Hm2 in Hs. cbv zeta in *.
  set (a3 := set a_NextRetryAfter _ a2).
  assert (H3 : a_ModelStates a3 = a_ModelStates a2 ∧ a_Quota a3 = a_Quota a2
    ∧ (a_NextRetryAfter a2 = 0 → a_NextRetryAfter a3 = 0)).
  { unfold a3. simpl. split_and!; [done..|]. intros ->. unfold extend_retry. by simpl. }
  clearbody a3. destruct H3 as (Hm3 & Hq3 & Hr3).
  set (a4 := if is_force_cooldown err && _ then _ else a3).
  assert (H4 : a_ModelStates a4 = a_ModelStates a2 ∧ a_Quota a4 = a_Quota a2
    ∧ (disable = true → a_NextRetryAfter a2 = 0 → a_NextRetryAfter a4 = 0)).
  { unfold a4. case_if; [|by auto]. bprop. rewrite Hf by done. by simpl. }
  clearbody a4. destruct H4 as (Hm4 & Hq4 & Hr4). rewrite <- Hm4 in Hs.
  case_if; (split; [exact Hs|]); simpl; rewrite ?Hq4; [by split|].
  split; [done|]. intros Hx. destruct (He Hx) as [|(-> & Hz & Hq0)]; [done|].
  rewrite Hq4, Hr4, Hq0 in E0 by done. done.
Qed.

(** ** Recording a result *)

Lemma failure_ok seq auth model result now term :
  0 < now → auth_ok auth → auth_ok (failure_effect cfg seq auth model result now term).
Proof using Hcfg.
  intros Hn Ha. unfold failure_effect. case_if; [case_if; [done|by apply model_failure_ok]|].
  case_if; [done|].
  apply (auth_failure_ok auth (ResultError result) (RetryAfter result) now
    (failure_disables_cooling cfg auth result) Hn); [|done].
  unfold failure_disables_cooling. by intros ->.
Qed.

Lemma clear_success_ok auth now : auth_ok auth → auth_ok (clearAuthStateOnSuccess auth now).
Proof. intros [Hs Hq]. unfold clearAuthStateOnSuccess. case_if; [done|]. split; [exact Hs|done]. Qed.

Lemma model_success_ok auth model now : auth_ok auth → auth_ok (model_success auth model now).
Proof.
  intros Ha. unfold model_success. pose proof (ensure_ok auth model Ha) as [Ha1 _].
  destruct (ensureModelState auth model) as [auth1 s1]. cbn [fst] in Ha1.
  case_if; [by apply aggregated_ok|].
  pose proof (aggregated_ok _ now (set_state_ok auth1 (canonicalModelKey model) _ Ha1
    (reset_ok s1 now))) as H. cbv zeta.
  set (a := updateAggregatedAvailability _ now) in *. clearbody a. by case_if.
Qed.

Lemma success_ok auth model result now term :
  auth_ok auth → auth_ok (success_effect auth model result now term).
Proof.
  intros Ha. unfold success_effect. cbv zeta.
  set (a := if _ : bool then _ else auth).
  assert (Ha1 : auth_ok a) by (unfold a; by case_if). clearbody a.
  case_if.
  { case_if; [|done]. pose proof (ensure_ok a model Ha1) as [Ha2 _].
    destruct (ensureModelState a model) as [a2 s2]. apply set_state_ok; [done|apply reset_ok]. }
  case_if; [done|]. case_if; [done|].
  case_if; [by apply model_success_ok|by apply clear_success_ok].
Qed.

Lemma observe_ok headers p q now : quota_ok q → quota_ok (observe headers p q now).
Proof.
  intros Hq. unfold observe, ObserveResponseHeadersForProvider, ClearObservationSignals.
  case_if; [by case_if|]. by case_if.
Qed.

Lemma observe_quota_ok headers auth model result now :
  auth_ok auth → auth_ok (observe_quota headers auth model result now).
Proof.
  intros [Hs Hq]. unfold observe_quota. case_if; [done|].
  set (a := set a_Quota _ auth).
  assert (Ha : auth_ok a) by (split; [exact Hs|by apply observe_ok]).
  unfold existingModelState. case_if; [done|].
  destruct (model_state a (canonicalModelKey model)) as [s|] eqn:Es; [|done].
  apply set_state_ok; [done|].
  destruct (model_state_ok _ _ _ (proj1 Ha) Es) as [[Hsq Hsu] Hsh].
  split; [|exact Hsh]. split; [by apply observe_ok|]. simpl. intros H.
  destruct (Hsu H) as [|Hpos]; [by left|right].
  unfold observe, ObserveResponseHeadersForProvider, ClearObservationSignals.
  case_if; [by case_if|]. by case_if.
Qed.

Lemma rejected_fields auth token :
  a_ModelStates (recordRejectedTokenOnAuth auth token).1 = a_ModelStates auth
  ∧ a_Quota (recordRejectedTokenOnAuth auth token).1 = a_Quota auth.
Proof.
  unfold recordRejectedTokenOnAuth. case_if; [done|]. cbv zeta. cbn [fst].
  generalize (negb (String.eqb (authSIWCTokenField auth "access_token") "")
    && String.eqb (authSIWCTokenField auth "access_token") (trim_space token)
    && negb (String.eqb (a_RejectedSIWCAccessToken auth) (trim_space token))).
  intros b. match goal with |- context [if b then ?x else auth] =>
    set (a1 := if b then x else auth) end.
  assert (H1 : a_ModelStates a1 = a_ModelStates auth ∧ a_Quota a1 = a_Quota auth)
    by (unfold a1; by destruct b).
  clearbody a1. rewrite <- (proj1 H1), <- (proj2 H1).
  match goal with |- context [if ?c then _ else a1] => by destruct c end.
Qed.

Context `{GP : GoParse}.

Lemma apply_result_ok seq ctx headers auth model result now :
  0 < now → auth_ok auth → auth_ok (apply_result cfg seq ctx headers auth model result now).1.
Proof using Hcfg.
  intros Hn Ha. unfold apply_result. cbv zeta. cbn [fst]. apply observe_quota_ok.
  set (a1 := count_result auth result now).
  assert (H1 : auth_ok a1) by (unfold a1, count_result; by case_if). clearbody a1.
  set (a2 := if Success result then success_effect _ _ _ _ _ else _).
  assert (H2 : auth_ok a2).
  { unfold a2. destruct (Success result); [exact (success_ok _ _ _ _ _ H1)|].
    exact (failure_ok _ _ _ _ _ _ Hn H1). }
  clearbody a2.
  set (a3 := if rejectsToken result then _ else a2).
  assert (H3 : auth_ok a3).
  { unfold a3. case_if; [|done]. unfold auth_ok.
    match goal with |- context [recordRejectedTokenOnAuth ?a ?t] =>
      destruct (rejected_fields a t) as [-> ->] end. done. }
  clearbody a3. case_if; [exact H3|]. case_if; [|exact H3]. unfold refresh_after_rejection.
  case_if; exact H3.
Qed.

End Failure.

(** ** The manager *)

Definition manager_ok (m : Manager) : Prop := ∀ id a, auths m !! id = Some a → auth_ok a.

Lemma manager_ok_insert m id a :
  manager_ok m → auth_ok a → manager_ok (m <| auths := <[id := a]> (auths m) |>).
Proof.
  intros Hm Ha id' a'. simpl. destruct (decide (id = id')) as [<-|Hne].
  - rewrite lookup_insert_eq. by intros [= <-].
  - rewrite lookup_insert_ne by done. apply Hm.
Qed.

Lemma usage_steps_ok reset now models auth ch :
  0 < reset → auth_ok auth → auth_ok (foldl (usage_step reset now) (auth, ch) models).1.
Proof.
  intros Hr Ha. apply (foldl_invariant (fun acc => auth_ok acc.1)); [|done].
  intros [a c] model _ Ha'. unfold usage_step. cbv zeta. case_if; [done|].
  pose proof (ensure_ok a (canonicalModelKey model) Ha') as [Ha1 [_ Hs1]].
  destruct (ensureModelState a (canonicalModelKey model)) as [a1 s1]. case_if; [done|].
  apply set_state_ok; [done|]. by apply usage_block_ok.
Qed.

(** What happens to the manager's credentials between registrations: results
    are recorded, usage limits are reported, executions are dispatched. *)
Inductive mstep `{GP : GoParse} `{EB : ErrorBodies} (cfg : CoolingConfig) (m : Manager) :
    Manager → Prop :=
| step_result route_key policy ctx headers result now0 now :
    0 < now → mstep cfg m (MarkResult cfg route_key policy m ctx headers result now0 now).1
| step_neutral result now : mstep cfg m (recordAvailabilityNeutralResult m result now)
| step_usage authID models reset now :
    0 < now → mstep cfg m (MarkUsageExhausted m authID models reset now).1
| step_dispatch : mstep cfg m (m <| executionSeq := incr64 (executionSeq m) |>).

Lemma mstep_ok `{GP : GoParse} `{EB : ErrorBodies} cfg m m' :
  config_ok cfg → mstep cfg m m' → manager_ok m → manager_ok m'.
Proof.
  intros Hcfg [rk policy ctx headers result0 now0 now Hn|result now|authID models reset now Hn|] Hm.
  - unfold MarkResult. cbv zeta. set (result := match policy with Some f => f result0 | None => _ end).
    case_if; [done|].
    destruct (auths m !! AuthID result) as [a|] eqn:Ea; [|done]. specialize (Hm _ _ Ea) as Ha.
    case_if.
    + cbv zeta. case_if; [|done].
      pose proof (rejected_fields a (AccessToken result)) as [H1 H2].
      destruct (recordRejectedTokenOnAuth a (AccessToken result)) as [a1 ch]. cbn [fst] in *.
      apply manager_ok_insert; [done|]. unfold auth_ok. case_if; simpl; by rewrite H1, H2.
    + cbv zeta.
      pose proof (apply_result_ok cfg Hcfg (executionSeq m) ctx headers a
        (result_model_key rk a result) result now Hn Ha) as Hr.
      destruct (apply_result _ _ _ _ _ _ _ _) as [a1 sch]. by apply manager_ok_insert.
  - unfold recordAvailabilityNeutralResult. case_if; [done|].
    destruct (auths m !! AuthID result) as [a|] eqn:Ea; [|done]. specialize (Hm _ _ Ea) as Ha.
    case_if; [done|]. apply manager_ok_insert; [done|]. unfold count_result. cbv zeta. by case_if.
  - unfold MarkUsageExhausted. case_if; [done|]. case_if; [done|]. case_if; [done|].
    destruct (auths m !! trim_space authID) as [a|] eqn:Ea; [|done]. specialize (Hm _ _ Ea) as Ha.
    assert (Hr : 0 < reset) by (bprop; lia).
    pose proof (usage_steps_ok reset now models a false Hr Ha) as Hu.
    destruct (foldl _ _ _) as [a1 ch]. cbn [fst] in Hu. case_if.
    + apply manager_ok_insert; [done|]. by apply aggregated_ok.
    + by apply manager_ok_insert.
  - exact Hm.
Qed.

(** ** Every block ends *)

Lemma state_ok_ends s t :
  state_ok s → ms_Status s ≠ StatusDisabled → 0 ≤ t →
  Z.max (ms_NextRetryAfter s) (NextRecoverAt (ms_Quota s)) ≤ t → state_blocks t s = false.
Proof.
  intros [[[H0 He] Hu] _] Hd Ht Hm. unfold state_blocks, state_block.
  rewrite (proj2 (String.eqb_neq _ _) Hd), availabilityBlock_cases by done. simpl.
  case_if; [done|]. case_if; [bprop; lia|]. case_if; [|done]. bprop.
  apply andb_false_iff in E as [E|E]; bprop; [destruct (Hu E)|specialize (He E)]; lia.
Qed.

Lemma states_end (l : list (string * ModelState)) :
  (∀ k s, (k, s) ∈ l → state_ok s ∧ ms_Status s ≠ StatusDisabled) →
  ∃ T, 0 ≤ T ∧ ∀ t key, T ≤ t → existsb (key_blocks key t) l = false.
Proof.
  induction l as [|[k s] l IH]; intros Hl; [by exists 0|].
  destruct IH as (T & HT0 & HT); [by intros k' s' Hin; apply (Hl k'); set_solver|].
  destruct (Hl k s) as [Hok Hd]; [set_solver|].
  exists (Z.max T (Z.max (ms_NextRetryAfter s) (NextRecoverAt (ms_Quota s)))).
  split; [lia|]. intros t key Ht. simpl. rewrite HT by lia. unfold key_blocks. simpl.
  rewrite state_ok_ends by (done || lia). by rewrite andb_false_r.
Qed.

(** C4 No sequence of recorded results and usage-limit notices blocks a model
    for ever: in every reachable manager, each credential with model states has
    a time after which only a disabled or unauthorized credential or an expired
    token keeps any of its models from being used. *)
Theorem cooldowns_end `{GP : GoParse} `{EB : ErrorBodies} cfg m m' id a :
  config_ok cfg → manager_ok m → rtc (mstep cfg) m m' →
  auths m' !! id = Some a → has_states a = true →
  (∀ k s, a_ModelStates a !! k = Some (Some s) → ms_Status s ≠ StatusDisabled) →
  ∃ T, ∀ ctx model t, T ≤ t → model ≠ "" →
    blocked_for ctx model t a
    = a_Disabled a || String.eqb (a_Status a) StatusDisabled
      || hasUnauthorizedAuthFailure a || token_expired ctx a t.
Proof.
  intros Hcfg Hm Hsteps Ha Hhas Hd.
  assert (Hm' : manager_ok m').
  { clear Ha. induction Hsteps as [|x y z Hxy _ IH]; [done|]. apply IH. by eapply mstep_ok. }
  destruct (Hm' _ _ Ha) as [Hs [Hq _]].
  destruct (states_end (model_states a)) as (T & HT0 & HT).
  { intros k s Hin%model_states_elem. split; [by eapply Hs|by eapply Hd]. }
  exists (Z.max T (NextRecoverAt (a_Quota a))). intros ctx model t Ht Hne.
  rewrite blocked_for_eq, Hhas, (proj2 (String.eqb_neq _ _) Hne). simpl. rewrite HT by lia.
  assert (credential_quota_active a t = false) as ->.
  { unfold credential_quota_active. apply andb_false_iff. right. bprop. lia. }
  by rewrite !orb_false_r.
Qed.

(** ** Witness *)

#[local] Existing Instance no_parse.
#[local] Existing Instance no_bodies.

Definition default_config : CoolingConfig :=
  {| cfg_home_enabled := false; cfg_provider_override := fun _ => None;
     cfg_disable_cooling := false; quotaCooldownDisabled := false;
     transientErrorCooldownSeconds := 0 |}.
Definition one_auth : Manager :=
  {| auths := {["a" := new_auth "a"]}; executionSeq := 0 |}.

Lemma cooldowns_end_witness :
  let m := (MarkUsageExhausted one_auth "a" ["m"] 100 10).1 in
  let a := default (new_auth "") (auths m !! "a") in
  ∃ T, ∀ ctx model t, T ≤ t → model ≠ "" →
    blocked_for ctx model t a
    = a_Disabled a || String.eqb (a_Status a) StatusDisabled
      || hasUnauthorizedAuthFailure a || token_expired ctx a t.
Proof.
  intros m a. apply (cooldowns_end default_config one_auth m "a" a).
  - vm_compute. discriminate.
  - intros id x. simpl. intros [<- <-]%lookup_singleton_Some.
    split; [by intros k s|split; done].
  - apply rtc_once. by apply step_usage.
  - vm_compute. reflexivity.
  - vm_compute. reflexivity.
  - intros k s.
    assert (a_ModelStates a = {["m" := Some (usage_block active_state 100 10)]}) as ->
      by (vm_compute; reflexivity).
    intros [_ [= <-]]%lookup_singleton_Some. discriminate.
Defined.

End CooldownEnds.
