(* ===== verification/ResultProps.v ===== *)
(** * What a recorded result does to availability

    The theorems about MarkResult: which results leave every block as it was,
    which ones block a model or the whole credential and for how long, and which
    blocks a success cannot lift. *)
From S2P Require Import Prelude GoLib Thinking AuthTypes QuotaSignals Expiry Availability Classify Cooldown MarkResult CooldownEnds.
Import AuthTypes QuotaSignals Expiry Availability Classify Cooldown MarkResult CooldownEnds.

Module ResultProps.

(** ** Credentials with the same blocks

    [same_blocks] forgets what the blocking test does not read: counters,
    generations, sequence numbers, messages and passive quota signals. *)

Definition blank_state (s : ModelState) : ModelState :=
  zero_model_state <| ms_Status := ms_Status s |> <| ms_Unavailable := ms_Unavailable s |>
    <| ms_NextRetryAfter := ms_NextRetryAfter s |> <| ms_Quota := cooldownFieldsOf (ms_Quota s) |>.
Definition blank_states (states : gmap string (option ModelState)) :
    gmap string (option ModelState) :=
  fmap (M := option) blank_state <$> states.
Definition blank (a : Auth) : Auth :=
  a <| a_Generation := 0 |> <| a_UpdatedAt := 0 |> <| a_recentRequests := empty_ring |>
    <| a_Success := 0 |> <| a_Failed := 0 |> <| a_cooldownRecordedSeq := 0 |>
    <| a_StatusMessage := "" |> <| a_InferenceVerified := false |>
    <| a_LastInferenceVerifiedAt := 0 |> <| a_Quota := cooldownFieldsOf (a_Quota a) |>
    <| a_ModelStates := blank_states (a_ModelStates a) |>.

Record same_blocks (a b : Auth) : Prop := { blank_eq : blank a = blank b }.
#[global] Instance same_blocks_equivalence : Equivalence same_blocks.
Proof.
  split; [done|by intros ? ? [H]; split|].
  intros ? ? ? [H1] [H2]. split. by rewrite H1.
Qed.

Lemma states_blocked_iff key t a :
  existsb (key_blocks key t) (model_states a) = true ↔
  ∃ k s, a_ModelStates a !! k = Some (Some s) ∧ canonicalModelKey k = key ∧ state_blocks t s = true.
Proof.
  rewrite existsb_exists. split.
  - intros ([k s] & Hin & Hb). apply list_elem_of_In, model_states_elem in Hin.
    unfold key_blocks in Hb. simpl in Hb. bprop. by exists k, s.
  - intros (k & s & Hl & Hk & Hb). exists (k, s). split.
    + by apply list_elem_of_In, model_states_elem.
    + unfold key_blocks. simpl. by rewrite Hk, String.eqb_refl.
Qed.

Lemma blank_states_lookup a k s :
  a_ModelStates (blank a) !! k = Some (Some s) ↔
  ∃ s', a_ModelStates a !! k = Some (Some s') ∧ s = blank_state s'.
Proof.
  change (a_ModelStates (blank a)) with (blank_states (a_ModelStates a)). unfold blank_states.
  rewrite lookup_fmap. destruct (a_ModelStates a !! k) as [[x|]|]; simpl;
    split; [intros [= <-]; by exists x|intros (? & [= <-] & ->); done|done|by intros (? & ? & ?)|done
      |by intros (? & ? & ?)].
Qed.

Lemma blank_has_states a : has_states (blank a) = has_states a.
Proof.
  unfold has_states. f_equal. apply bool_decide_ext.
  change (a_ModelStates (blank a)) with (blank_states (a_ModelStates a)). apply fmap_empty_iff.
Qed.

Lemma blank_states_blocked key t a :
  existsb (key_blocks key t) (model_states (blank a)) = existsb (key_blocks key t) (model_states a).
Proof.
  apply eq_true_iff_eq. rewrite !states_blocked_iff. split.
  - intros (k & s & (s' & Hl & ->)%blank_states_lookup & Hk & Hb). by exists k, s'.
  - intros (k & s & Hl & Hk & Hb). exists k, (blank_state s). rewrite blank_states_lookup.
    split; [by exists s|done].
Qed.

Section Blocks.
Context `{GP : GoParse}.

Lemma blocked_for_blank ctx model t a : blocked_for ctx model t (blank a) = blocked_for ctx model t a.
Proof.
  rewrite !blocked_for_eq, blank_states_blocked, blank_has_states. reflexivity.
Qed.

#[global] Instance blocked_for_proper ctx model t :
  Proper (same_blocks ==> eq) (blocked_for ctx model t).
Proof.
  intros a b [Hab]. rewrite <- (blocked_for_blank ctx model t a), <- (blocked_for_blank ctx model t b).
  by rewrite Hab.
Qed.

End Blocks.

(** Operations that change no block. *)
Lemma count_same auth result now : same_blocks (count_result auth result now) auth.
Proof. unfold count_result, recordRecentRequest. cbv zeta. by case_if. Qed.

Lemma observe_cooldown headers p q now :
  cooldownFieldsOf (observe headers p q now) = cooldownFieldsOf q.
Proof.
  unfold observe, ObserveResponseHeadersForProvider, ClearObservationSignals, cooldownFieldsOf.
  case_if; [by case_if|]. by case_if.
Qed.

Lemma blank_states_insert states k s x :
  states !! k = Some (Some x) → blank_state s = blank_state x →
  blank_states (<[k := Some s]> states) = blank_states states.
Proof.
  intros Hl Hs. unfold blank_states. rewrite fmap_insert. simpl. rewrite Hs.
  apply insert_id. by rewrite lookup_fmap, Hl.
Qed.

Lemma set_state_same a k s x :
  model_state a k = Some x → blank_state s = blank_state x → same_blocks (set_model_state a k s) a.
Proof.
  unfold model_state. intros Hm Hs. destruct (a_ModelStates a !! k) as [[y|]|] eqn:El; simpl in Hm; try done.
  injection Hm as ->. split. unfold blank, set_model_state.
  cbn -[blank_states insert]. by rewrite (blank_states_insert _ _ _ _ El Hs).
Qed.

Lemma observe_quota_same headers auth model result now :
  same_blocks (observe_quota headers auth model result now) auth.
Proof.
  unfold observe_quota. case_if; [done|].
  set (a := set a_Quota _ auth).
  assert (Ha : same_blocks a auth).
  { split. unfold blank, a. cbn -[blank_states cooldownFieldsOf]. by rewrite observe_cooldown. }
  unfold existingModelState. case_if; [done|].
  destruct (model_state a (canonicalModelKey model)) as [s|] eqn:Es; [|done].
  transitivity a; [|done]. apply (set_state_same _ _ _ s Es).
  unfold blank_state. cbn -[cooldownFieldsOf]. by rewrite observe_cooldown.
Qed.

(** ** Results that change no block *)

Lemma terminal_fields a :
  hasUnauthorizedAuthFailure a = true →
  a_Unavailable a = true ∧ a_Status a = StatusError ∧ a_NextRefreshAfter a = 0
  ∧ a_NextRetryAfter a = 0.
Proof.
  unfold hasUnauthorizedAuthFailure. destruct (a_LastError a); [|done]. intros H.
  apply andb_true_iff in H as [H _]. by bprop.
Qed.

Lemma terminal_same a :
  hasUnauthorizedAuthFailure a = true →
  same_blocks (a <| a_Unavailable := true |> <| a_Status := StatusError |>
                 <| a_NextRefreshAfter := 0 |> <| a_NextRetryAfter := 0 |>) a.
Proof.
  intros (H1 & H2 & H3 & H4)%terminal_fields. split. unfold blank.
  cbn -[blank_states cooldownFieldsOf]. by rewrite H1, H2, H3, H4.
Qed.

Lemma touch_same a g t : same_blocks (a <| a_Generation := g |> <| a_UpdatedAt := t |>) a.
Proof. by split. Qed.

Lemma count_terminal a result now :
  hasUnauthorizedAuthFailure (count_result a result now) = hasUnauthorizedAuthFailure a.
Proof. unfold count_result. cbv zeta. by case_if. Qed.

Section Props.
Context `{GP : GoParse} `{EB : ErrorBodies} (cfg : CoolingConfig).

(** The last steps of [apply_result], after the branch for success or failure. *)
Lemma finish_same seq ctx headers auth model result now a1 :
  rejectsToken result = false →
  a1 = (if Success result
        then success_effect (count_result auth result now) model result now
               (hasUnauthorizedAuthFailure auth)
        else failure_effect cfg seq (count_result auth result now) model result now
               (hasUnauthorizedAuthFailure auth)) →
  (hasUnauthorizedAuthFailure auth = true → hasUnauthorizedAuthFailure a1 = true) →
  same_blocks (apply_result cfg seq ctx headers auth model result now).1 a1
  ∧ (apply_result cfg seq ctx headers auth model result now).2 = false.
Proof.
  intros Hr Ha Ht. unfold apply_result. rewrite count_terminal, Hr, <- Ha. cbn [fst snd].
  split; [|by rewrite andb_false_r].
  rewrite observe_quota_same, touch_same, andb_false_r.
  destruct (hasUnauthorizedAuthFailure auth); [|done]. exact (terminal_same a1 (Ht eq_refl)).
Qed.

(** C37 A failure that is not the credential's fault (a request the provider
    rejected, a dropped connection, a truncated stream) changes nobody's
    availability: it neither blocks nor unblocks any model at any time, and
    schedules no refresh. *)
Theorem skipped_failure_neutral seq ctx headers auth model result now :
  Success result = false → shouldSkipCredentialCooldown (ResultError result) = true →
  let '(auth', schedule) := apply_result cfg seq ctx headers auth model result now in
  schedule = false
  ∧ ∀ ctx' model' t, blocked_for ctx' model' t auth' = blocked_for ctx' model' t auth.
Proof.
  intros Hs Hsk.
  assert (Hr : rejectsToken result = false)
    by (unfold rejectsToken; by rewrite Hsk, andb_false_r).
  set (a0 := count_result auth result now).
  set (a1 := failure_effect cfg seq a0 model result now (hasUnauthorizedAuthFailure auth)).
  assert (H1 : a1 = a0 ∨ a1 = a0 <| a_cooldownRecordedSeq := seq |>).
  { unfold a1, failure_effect, applyAuthFailureState. rewrite Hsk.
    case_if; [by left|]. case_if; [by left|by right]. }
  destruct (finish_same seq ctx headers auth model result now a1 Hr) as [Hsame Hsched].
  - by rewrite Hs.
  - intros Ht. rewrite <- (count_terminal auth result now) in Ht. by destruct H1 as [->| ->].
  - destruct (apply_result _ _ _ _ _ _ _ _) as [auth' sch]. split; [done|]. intros ctx' model' t.
    simpl in Hsame. rewrite Hsame.
    assert (same_blocks a1 auth) as ->; [|done].
    transitivity a0; [|apply count_same]. by destruct H1 as [->| ->].
Qed.

(** A success that [MarkResult] refuses as evidence: dispatched no later than
    the live cooldown it would clear, or while a credential-wide quota holds. *)
Definition ignored_success (auth : Auth) (model : string) (result : Result) (now : time) : bool :=
  credential_quota_pending auth now
  || retainModelCooldown auth model result now false
  || retainAuthCooldown auth model result now false.

(** A success dispatched before the cooldown was recorded, or one that
    arrives while a credential-wide quota window is open, proves nothing: every
    block of the credential stays exactly as it was. *)
Theorem ignored_success_neutral seq ctx headers auth model result now :
  Success result = true → hasUnauthorizedAuthFailure auth = false →
  ignored_success auth model result now = true →
  let '(auth', schedule) := apply_result cfg seq ctx headers auth model result now in
  schedule = false
  ∧ ∀ ctx' model' t, blocked_for ctx' model' t auth' = blocked_for ctx' model' t auth.
Proof.
  intros Hs Ht Hi.
  assert (Hr : rejectsToken result = false) by (unfold rejectsToken; by rewrite Hs).
  set (a0 := count_result auth result now).
  set (a1 := success_effect a0 model result now false).
  assert (Hi0 : ignored_success a0 model result now = true).
  { rewrite <- Hi. unfold a0, count_result. rewrite Hs. reflexivity. }
  assert (H1 : a1 = a0).
  { unfold a1, success_effect. unfold ignored_success in Hi0.
    set (rt := retainModelCooldown a0 model result now false
                || retainAuthCooldown a0 model result now false) in *.
    rewrite <- orb_assoc in Hi0. fold rt in Hi0.
    destruct (credential_quota_pending a0 now) eqn:Ep; simpl in Hi0.
    - rewrite !andb_false_r. simpl. by rewrite Ep.
    - rewrite Hi0, !andb_false_r. simpl. by rewrite Ep. }
  destruct (finish_same seq ctx headers auth model result now a1 Hr) as [Hsame Hsched].
  - by rewrite Hs, Ht.
  - by rewrite Ht.
  - destruct (apply_result _ _ _ _ _ _ _ _) as [auth' sch]. split; [done|]. intros ctx' model' t.
    simpl in Hsame. rewrite Hsame, H1. unfold a0. by rewrite count_same.
Qed.

(** ** Terminal credentials *)

Lemma normalize_frame auth :
  normalizeModelStates auth = auth <| a_ModelStates := a_ModelStates (normalizeModelStates auth) |>.
Proof. unfold normalizeModelStates. destruct (foldl _ _ _) as [m ch]. case_if; by destruct auth. Qed.

Lemma ensure_frame auth model :
  (ensureModelState auth model).1
  = auth <| a_ModelStates := a_ModelStates (ensureModelState auth model).1 |>.
Proof.
  unfold ensureModelState. pose proof (normalize_frame auth) as Hn.
  set (a := normalizeModelStates auth) in *. clearbody a.
  destruct (model_state a (canonicalModelKey model)); simpl; [exact Hn|].
  rewrite Hn. by destruct auth.
Qed.

Lemma aggregated_last_error auth now :
  a_LastError (updateAggregatedAvailability auth now) = a_LastError auth.
Proof.
  unfold updateAggregatedAvailability, clearAggregatedAvailability.
  do 3 (case_if; [done|]). cbv zeta. case_if; [done|].
  unfold apply_aggregate. cbv zeta. destruct (ag_quotaExceeded _); [done|]. by case_if.
Qed.

Lemma effect_last_error auth key s saved prev result now disable term :
  a_LastError (model_failure_effect cfg auth key s saved prev result now disable term).1
  = a_LastError auth.
Proof.
  unfold model_failure_effect. cbv zeta. case_if; [done|].
  case_if; [destruct (nextCloudflareCooldown _ _ _) as [??]; by case_if|].
  do 4 (case_if; [done|]). case_if; [|by case_if].
  unfold model_quota_failure. destruct (quota_deadline _ _ _ _ _) as [[??]?].
  case_if; [|done]. by case_if.
Qed.

Lemma model_failure_last_error seq auth model result now :
  a_LastError (model_failure cfg seq auth model result now true) = a_LastError auth.
Proof.
  unfold model_failure. cbv zeta. pose proof (ensure_frame auth model) as Hf.
  destruct (ensureModelState auth model) as [a1 s1]. cbn [fst] in Hf.
  assert (Hm : a_LastError (mark_auth_failed a1 (ResultError result) true) = a_LastError auth).
  { unfold mark_auth_failed. rewrite Hf. by destruct (ResultError result). }
  match goal with |- context [model_failure_effect ?c ?a ?k ?x ?y ?z ?r ?n ?d ?t] =>
    pose proof (effect_last_error a k x y z r n d t) as He;
    destruct (model_failure_effect c a k x y z r n d t) as [a2 s2] end.
  cbn [fst] in He. rewrite aggregated_last_error, <- Hm, <- He.
  match goal with |- context [if ?b then _ else a2] => by destruct b end.
Qed.

Lemma success_terminal_last_error auth model result now :
  a_LastError (success_effect auth model result now true) = a_LastError auth.
Proof.
  unfold success_effect. cbv zeta. rewrite andb_false_r, !andb_false_l.
  case_if; [|done]. pose proof (ensure_frame auth model) as Hf.
  destruct (ensureModelState auth model) as [a1 s1]. cbn [fst] in Hf.
  unfold set_model_state. by rewrite Hf.
Qed.

Lemma rejected_last_error auth token :
  a_LastError (recordRejectedTokenOnAuth auth token).1 = a_LastError auth.
Proof.
  unfold recordRejectedTokenOnAuth. case_if; [done|]. cbv zeta. cbn [fst].
  match goal with |- context [if ?b then set a_RejectedSIWCAccessToken ?x auth else auth] =>
    set (a1 := if b then set a_RejectedSIWCAccessToken x auth else auth) end.
  assert (H1 : a_LastError a1 = a_LastError auth) by (unfold a1; by case_if).
  clearbody a1. rewrite <- H1. match goal with |- context [if ?c then _ else a1] => by destruct c end.
Qed.

Lemma observe_frame headers auth model result now :
  let a := observe_quota headers auth model result now in
  a = auth <| a_Quota := a_Quota a |> <| a_ModelStates := a_ModelStates a |>.
Proof.
  unfold observe_quota. cbv zeta. case_if; [by destruct auth|].
  destruct (existingModelState _ _); by destruct auth.
Qed.

(** An unauthorized credential stays out of rotation whatever its remaining
    executions report: no success, failure or quota header brings it back, and
    every model stays blocked for every request at every time. *)
Theorem unauthorized_sticky seq ctx headers auth model result now :
  hasUnauthorizedAuthFailure auth = true →
  let '(auth', schedule) := apply_result cfg seq ctx headers auth model result now in
  hasUnauthorizedAuthFailure auth' = true ∧ schedule = false
  ∧ ∀ ctx' model' t, blocked_for ctx' model' t auth' = true.
Proof.
  intros Ht.
  assert (H : hasUnauthorizedAuthFailure (apply_result cfg seq ctx headers auth model result now).1 = true
      ∧ (apply_result cfg seq ctx headers auth model result now).2 = false).
  { unfold apply_result. rewrite count_terminal, Ht. cbn [negb andb fst snd]. split; [|done].
    rewrite observe_frame. cbv zeta. set (a0 := count_result auth result now).
    assert (H0 : a_LastError a0 = a_LastError auth)
      by (unfold a0, count_result; cbv zeta; by case_if).
    set (a1 := if Success result then success_effect a0 model result now true
               else failure_effect cfg seq a0 model result now true).
    assert (H1 : a_LastError a1 = a_LastError auth).
    { rewrite <- H0. unfold a1. destruct (Success result); [apply success_terminal_last_error|].
      unfold failure_effect. case_if; [|done]. case_if; [done|]. apply model_failure_last_error. }
    clearbody a1. set (a2 := if rejectsToken result then _ else a1).
    assert (H2 : a_LastError a2 = a_LastError auth)
      by (unfold a2; case_if; [rewrite rejected_last_error|]; exact H1).
    clearbody a2. unfold hasUnauthorizedAuthFailure in *.
    cbn -[equal_fold String.eqb]. rewrite H2. destruct (a_LastError auth); [|done].
    by apply andb_true_iff in Ht as [_ ->]. }
  destruct (apply_result _ _ _ _ _ _ _ _) as [auth' sch]. cbn [fst snd] in H.
  destruct H as [H1 H2]. split_and!; [done..|]. intros ctx' model' t.
  by rewrite blocked_for_eq, H1, orb_true_r.
Qed.

(** ** Models kept blocked until a time *)

(** Some spelling of the model's key has a state unavailable until [until]. *)
Definition holds_until (s : ModelState) (until : time) : Prop :=
  ms_Unavailable s = true ∧ until ≤ ms_NextRetryAfter s.
Definition covers (a : Auth) (key : string) (until : time) : Prop :=
  ∃ k s, a_ModelStates a !! k = Some (Some s) ∧ canonicalModelKey k = key ∧ holds_until s until.
(** The same with the state under the key itself. *)
Definition covers_at (a : Auth) (key : string) (until : time) : Prop :=
  ∃ s, a_ModelStates a !! key = Some (Some s) ∧ holds_until s until.

Lemma holds_blocks s until t : 0 ≤ t < until → holds_until s until → state_blocks t s = true.
Proof.
  intros Ht [Hu Hr]. unfold state_blocks, state_block.
  rewrite availabilityBlock_cases, Hu by lia. simpl.
  destruct (t <? _) eqn:E; bprop; [apply orb_true_r|lia].
Qed.

Lemma covers_blocked ctx a key until model t :
  covers a key until → 0 ≤ t < until → model ≠ "" → canonicalModelKey model = key →
  blocked_for ctx model t a = true.
Proof.
  intros (k & s & Hl & Hk & Hh) Ht Hm Hkey.
  assert (Hhas : has_states a = true).
  { unfold has_states. bprop. apply bool_decide_eq_false. intros He. by rewrite He in Hl. }
  rewrite blocked_for_eq, Hhas, (proj2 (String.eqb_neq _ _) Hm). simpl.
  rewrite (proj2 (states_blocked_iff (canonicalModelKey model) t a)); [apply orb_true_r|].
  exists k, s. split_and!; [done|congruence|by eapply holds_blocks].
Qed.

Lemma covers_at_covers a key until :
  canonicalModelKey key = key → covers_at a key until → covers a key until.
Proof. intros Hk (s & Hl & Hh). by exists key, s. Qed.

Lemma holds_le s s' until : state_le s s' → holds_until s until → holds_until s' until.
Proof. intros [Hu Hr _ _ _ _ _] [H1 H2]. split; [by apply Hu|lia]. Qed.

(** Normalisation gathers the spellings of a key under the key, and no state of
    one of them is lost. *)
Definition normal_key (model : string) : string :=
  let modelKey := canonicalModelKey model in
  if String.eqb modelKey "" then trim_space model else modelKey.

Lemma normalize_fold_spec l :
  (∀ k s, (k, Some s) ∈ l →
     ∃ s', (foldl normalize_step (∅, false) l).1 !! normal_key k = Some (Some s') ∧ state_le s s')
  ∧ ((foldl normalize_step (∅, false) l).2 = false → ∀ k o, (k, o) ∈ l → normal_key k = k).
Proof.
  induction l as [|[k0 o0] l [IH1 IH2]] using rev_ind; simpl; [split; set_solver|].
  rewrite foldl_app. simpl. destruct (foldl normalize_step (∅, false) l) as [m ch]. simpl in *.
  fold (normal_key k0). set (key := normal_key k0). split.
  - intros k s. rewrite elem_of_app, list_elem_of_singleton. intros [Hin|Heq].
    + destruct (IH1 k s Hin) as (s' & Hl & Hle). destruct (m !! key) as [ex|] eqn:Ek; simpl.
      * destruct (decide (key = normal_key k)) as [Heq|Hne].
        -- rewrite Heq, lookup_insert_eq. rewrite Heq, Hl in Ek. injection Ek as <-.
           destruct o0 as [x|]; simpl; [|by exists s'].
           eexists. split; [done|]. etransitivity; [exact Hle|]. apply merge_upper.
        -- rewrite lookup_insert_ne by done. by exists s'.
      * destruct (decide (key = normal_key k)) as [Heq|Hne]; [by rewrite Heq, Hl in Ek|].
        rewrite lookup_insert_ne by done. by exists s'.
    + injection Heq as <- <-. fold key. destruct (m !! key) as [[e|]|] eqn:Ek; simpl;
        rewrite lookup_insert_eq; eexists; (split; [done|]); try done. apply merge_upper.
  - intros Hch k o. rewrite elem_of_app, list_elem_of_singleton. intros Hin.
    assert (Hc : m !! key = None ∧ ch = false ∧ normal_key k0 = k0).
    { destruct (m !! key) as [ex|]; simpl in Hch; [done|]. by bprop. }
    destruct Hc as (_ & -> & Hk). destruct Hin as [Hin|Heq]; [by eapply IH2|]. by simplify_eq.
Qed.

Lemma normalize_covers a key until :
  key ≠ "" → canonicalModelKey key = key → covers a key until →
  covers_at (normalizeModelStates a) key until.
Proof.
  intros Hne Hfix (k & s & Hl & Hk & Hh).
  destruct (normalize_fold_spec (map_to_list (a_ModelStates a))) as [H1 H2].
  assert (Hnk : normal_key k = key).
  { unfold normal_key. by rewrite Hk, (proj2 (String.eqb_neq _ _) Hne). }
  unfold normalizeModelStates. destruct (foldl _ _ _) as [m ch]. simpl in *. destruct ch.
  - destruct (H1 k s) as (s' & Hl' & Hle); [by apply elem_of_map_to_list|]. rewrite Hnk in Hl'.
    exists s'. split; [done|]. by eapply holds_le.
  - assert (k = key) as ->; [|by exists s]. rewrite <- Hnk. symmetry.
    eapply (H2 eq_refl). by apply elem_of_map_to_list.
Qed.

Lemma ensure_covers a model key until :
  key ≠ "" → canonicalModelKey key = key → covers a key until →
  covers_at (ensureModelState a model).1 key until.
Proof.
  intros Hne Hfix Hc. apply (normalize_covers _ _ _ Hne Hfix) in Hc as (s & Hl & Hh).
  unfold ensureModelState. destruct (model_state _ _) eqn:Em; simpl; [by exists s|].
  exists s. split; [|done]. cbn [a_ModelStates set_model_state].
  destruct (decide (canonicalModelKey model = key)) as [He|Hn];
    [|cbn; by rewrite lookup_insert_ne].
  unfold model_state in Em. by rewrite He, Hl in Em.
Qed.

Lemma set_covers a k s key until :
  covers_at a key until → (k = key → holds_until s until) → covers_at (set_model_state a k s) key until.
Proof.
  intros (x & Hl & Hh) Hs. unfold covers_at, set_model_state. cbn.
  destruct (decide (k = key)) as [->|Hn].
  - exists s. rewrite lookup_insert_eq. auto.
  - exists x. by rewrite lookup_insert_ne.
Qed.

Lemma set_covers_new a key s until :
  holds_until s until → covers_at (set_model_state a key s) key until.
Proof. intros Hs. exists s. cbn. by rewrite lookup_insert_eq. Qed.

Lemma expire_holds now s until : now < until → holds_until s until → expire_state now s = s.
Proof.
  intros Hn [Hu Hr]. unfold expire_state. case_if; [|done]. bprop. lia.
Qed.

Lemma aggregated_covers a now key until :
  now < until → covers_at a key until → covers_at (updateAggregatedAvailability a now) key until.
Proof.
  intros Hn (s & Hl & Hh). unfold updateAggregatedAvailability.
  case_if; [by exists s|]. case_if; [by exists s|]. case_if; [by exists s|]. cbv zeta.
  assert (He : (fmap (M := gmap string) (fmap (expire_state now)) (a_ModelStates a)) !! key
               = Some (Some s)).
  { rewrite lookup_fmap, Hl. simpl. by rewrite (expire_holds now s until). }
  case_if; [by exists s|]. unfold apply_aggregate. cbv zeta. exists s. split; [|done].
  match goal with |- context [if ag_quotaExceeded ?g then _ else _] => destruct (ag_quotaExceeded g) end;
    [exact He|]. by case_if.
Qed.

(** ** Usage limits *)

Lemma usage_step_covers reset now a ch model key :
  key ≠ "" → canonicalModelKey key = key → covers a key reset →
  covers (usage_step reset now (a, ch) model).1 key reset.
Proof.
  intros Hne Hfix Hc. unfold usage_step. cbv zeta. case_if; [done|].
  pose proof (ensure_covers a (canonicalModelKey model) key reset Hne Hfix Hc) as H1.
  destruct (ensureModelState a (canonicalModelKey model)) as [a1 s1]. cbn [fst] in H1.
  apply covers_at_covers; [done|]. case_if; [exact H1|]. apply set_covers; [done|]. intros _.
  split; simpl; [done|lia].
Qed.

Lemma usage_step_blocks reset now a ch model key :
  key ≠ "" → canonicalModelKey key = key → canonicalModelKey model = key →
  covers (usage_step reset now (a, ch) model).1 key reset.
Proof.
  intros Hne Hfix Hk. unfold usage_step. cbv zeta.
  rewrite Hk, (proj2 (String.eqb_neq _ _) Hne).
  destruct (ensureModelState a key) as [a1 s1] eqn:Ee. case_if; apply covers_at_covers; try done; cbn [fst].
  - unfold usageBlockCurrent in E. repeat case_if_in E; try done. bprop.
    unfold ensureModelState in Ee. rewrite Hfix in Ee.
    destruct (model_state (normalizeModelStates a) key) as [s|] eqn:Em;
      injection Ee as <- <-; [|done].
    unfold model_state in Em. exists s.
    destruct (a_ModelStates (normalizeModelStates a) !! key) as [[y|]|]; simpl in Em; try done.
    by injection Em as ->.
  - rewrite Hfix. apply set_covers_new. split; simpl; [done|lia].
Qed.

Lemma usage_fold_covers reset now models acc key :
  key ≠ "" → canonicalModelKey key = key →
  covers acc.1 key reset ∨ (∃ model, model ∈ models ∧ canonicalModelKey model = key) →
  covers (foldl (usage_step reset now) acc models).1 key reset.
Proof.
  intros Hne Hfix. revert acc. induction models as [|m models IH]; intros [a ch] H; simpl.
  - destruct H as [|(? & ?%elem_of_nil & _)]; done.
  - apply IH. destruct H as [H|(x & [->|Hin]%elem_of_cons & Hk)].
    + left. by apply usage_step_covers.
    + left. by apply usage_step_blocks.
    + right. by exists x.
Qed.

(** A usage-limit notice takes every listed model of the account out of
    rotation until the limit resets, whatever states the models had before, and
    touches no other account. *)
Theorem usage_exhausted_blocks m authID a models listed key reset now :
  trim_space authID ≠ "" → auths m !! trim_space authID = Some a → 0 ≤ now < reset →
  listed ∈ models → canonicalModelKey listed = key → key ≠ "" → canonicalModelKey key = key →
  let m' := (MarkUsageExhausted m authID models reset now).1 in
  (∃ a', auths m' !! trim_space authID = Some a'
     ∧ ∀ ctx model t, model ≠ "" → canonicalModelKey model = key → 0 ≤ t < reset →
         blocked_for ctx model t a' = true)
  ∧ ∀ id, id ≠ trim_space authID → auths m' !! id = auths m !! id.
Proof.
  intros Hid Ha Ht Hin Hk Hne Hfix m'. unfold m', MarkUsageExhausted. cbv zeta.
  rewrite (proj2 (String.eqb_neq _ _) Hid), (proj2 (after_spec _ _) (proj2 Ht)). simpl.
  destruct models as [|m0 ms]; [by apply elem_of_nil in Hin|].
  rewrite Ha. set (models := m0 :: ms) in *.
  assert (Hc : covers (foldl (usage_step reset now) (a, false) models).1 key reset)
    by (apply usage_fold_covers; eauto).
  destruct (foldl (usage_step reset now) (a, false) models) as [a1 ch]. cbn [fst] in Hc.
  assert (Hc' : covers (if ch then updateAggregatedAvailability a1 now else a1) key reset).
  { destruct ch; [|done]. destruct Hc as (k & s & Hl & Hk' & Hh).
    assert (Hat : covers_at a1 k reset) by by exists s.
    apply (aggregated_covers a1 now k reset) in Hat as (s' & Hl' & Hh'); [|lia]. by exists k, s'. }
  split; [|intros id Hne'; case_if; cbn; by rewrite lookup_insert_ne].
  destruct ch; cbn; rewrite lookup_insert_eq; (eexists; split; [done|]); intros ctx model t Hm Hkm Htt;
    eapply covers_blocked; eauto.
Qed.

(** ** Failures that cool a model down *)

(** The providers' hints and the configuration leave a positive cooldown. *)
Definition cooling_enabled (auth : Auth) (result : Result) : Prop :=
  failure_disables_cooling cfg auth result = false
  ∧ 0 ≤ transientErrorCooldownSeconds cfg ∧ config_ok cfg
  ∧ (∀ h, RetryAfter result = Some h → 0 < h).

(** An ordinary quota failure: a 429 no other rule claims. *)
Definition quota_class (err : option Error) : bool :=
  negb (on_error isModelSupportResultError err) && negb (on_error isCloudflareChallengeResultError err)
  && negb (on_error isInvalidGrantResultError err || on_error isCreditBalanceTooLowResultError err)
  && negb (on_error isTransientRateLimitResultError err) && (Error_StatusCode err =? 429).

Definition hint_kept (result : Result) (now until : time) : Prop :=
  quota_class (ResultError result) = true →
  ∀ h, RetryAfter result = Some h → now + Z.max minQuotaCooldownFloor h ≤ until.

Lemma recoverable_later now hint :
  0 ≤ transientErrorCooldownSeconds cfg → config_ok cfg → (∀ h, hint = Some h → 0 < h) →
  now < recoverableFailureRetryAfterWithHint cfg now hint false.
Proof.
  intros Hs Hc Hh. unfold recoverableFailureRetryAfterWithHint. simpl. case_if; [bprop; lia|].
  set (fb := if _ =? 0 then _ else _).
  assert (now < fb).
  { unfold fb. case_if; [unfold transientErrorCooldown, minute, second; lia|].
    unfold config_ok in Hc. rewrite wrap64_small; [bprop; unfold second; lia|].
    unfold in_int64, min_int64, second in *. bprop. lia. }
  destruct hint as [h|]; [|done]. specialize (Hh h eq_refl). case_if; bprop; lia.
Qed.

Lemma keep_quota_later q next now : 0 ≤ now < next → next ≤ keep_quota_deadline q next now.
Proof.
  intros Hn. unfold keep_quota_deadline. cbv zeta.
  set (n := if negb (is_zero next) && _ && _ then NextRecoverAt q else next).
  assert (next ≤ n) by (unfold n; case_if; bprop; lia). clearbody n. case_if; bprop; lia.
Qed.

Lemma quota_deadline_later auth s result now :
  let '(next, credentialNext, _) := quota_deadline auth s result now false in
  0 < now → credentialNext ≤ next ∧ now < credentialNext
  ∧ (∀ h, RetryAfter result = Some h → now + Z.max minQuotaCooldownFloor h ≤ credentialNext).
Proof.
  unfold quota_deadline. cbv zeta. destruct (RetryAfter result) as [h|].
  - intros Hn. unfold minQuotaCooldownFloor, second.
    split_and!; [case_if; bprop; lia|lia|]. intros h' [= <-]. lia.
  - match goal with |- context [quotaCooldownAfterFailure ?q now] =>
      pose proof (quota_after_failure_time q now); destruct (quotaCooldownAfterFailure q now) end.
    simpl in *. intros Hn. split_and!; [case_if; bprop; lia|auto|done].
Qed.

(** Without disabled cooling, every failure leaves its model unavailable until a
    later time. *)
Lemma effect_live auth key s saved prev result now term :
  0 < now → 0 ≤ transientErrorCooldownSeconds cfg → config_ok cfg →
  (∀ h, RetryAfter result = Some h → 0 < h) → ms_Unavailable s = true →
  let s' := (model_failure_effect cfg auth key s saved prev result now false term).2 in
  ms_Unavailable s' = true ∧ now < ms_NextRetryAfter s'
  ∧ hint_kept result now (ms_NextRetryAfter s').
Proof.
  intros Hn Hs Hc Hh Hu. unfold model_failure_effect, hint_kept, quota_class. cbv zeta.
  assert (Hrec : ∀ hint, (∀ h, hint = Some h → 0 < h) →
      now < recoverableFailureRetryAfterWithHint cfg now hint false)
    by (intros; by apply recoverable_later).
  assert (Hhalf : now < half_hour_unless false now) by (unfold half_hour_unless, minute, second; lia).
  assert (Hnf : now < not_found_retry false (RetryAfter result) now).
  { unfold not_found_retry. destruct (RetryAfter result) as [h|];
      [specialize (Hh h eq_refl); case_if; bprop|]; unfold hour, minute, second; lia. }
  assert (Htr : ∀ next, now < next → negb (is_zero next) = true ∧ now < next)
    by (intros next Hx; split; [bprop; lia|done]).
  case_if; [by split_and!|]. case_if.
  { pose proof (cloudflare_time (BackoffLevel (ms_Quota s)) false now Hn) as Ht.
    assert (Hlt : now < (nextCloudflareCooldown (BackoffLevel (ms_Quota s)) false now).1).
    { unfold nextCloudflareCooldown in *. destruct (nextQuotaCooldown _ _) as [c l]. unfold second in *.
      destruct (c <? 10 * 1000000000) eqn:Ec; bprop; simpl in *; repeat case_if; bprop; simpl in *; lia. }
    destruct (nextCloudflareCooldown _ _ _) as [next level]. simpl in *. by split_and!. }
  case_if; [by split_and!|]. case_if.
  { bprop. set (next := transientRateLimitRetryAfter cfg now (RetryAfter result) false).
    assert (Hx : now < next).
    { unfold next, transientRateLimitRetryAfter.
      destruct (RetryAfter result) as [[|p|p]|] eqn:Er; try (specialize (Hh _ eq_refl); lia);
        apply Hrec; auto. }
    pose proof (keep_quota_later (ms_Quota s) next now ltac:(lia)).
    destruct (Htr (keep_quota_deadline (ms_Quota s) next now) ltac:(lia)).
    split_and!; [done|done|]. by rewrite H, andb_false_r. }
  simpl. case_if; [split_and!; auto|].
  { intros. bprop. by match goal with Hx : Error_StatusCode _ = 429 |- _ => rewrite Hx in E3 end. }
  case_if; [split_and!; auto|]. { intros. bprop. lia. }
  case_if.
  - unfold model_quota_failure.
    pose proof (quota_deadline_later auth s result now) as Hq.
    destruct (quota_deadline auth s result now false) as [[next cn] level].
    destruct (Hq Hn) as (Hq1 & Hq2 & Hq3).
    repeat case_if; simpl; (split_and!; [done|lia|]); intros _ h Hx; specialize (Hq3 h Hx); lia.
  - case_if; simpl; [edestruct (Htr _ (Hrec (RetryAfter result) Hh))|
      edestruct (Htr _ (Hrec None ltac:(done)))]; split_and!; auto; intros; bprop; lia.
Qed.

(** The retry time a failure may not shorten. *)
Definition kept_if_live (prior now until : time) : Prop := now < prior → prior ≤ until.

Lemma settle_live s prev err now :
  0 < now → ms_Unavailable s = true → now < ms_NextRetryAfter s →
  let s' := settle_state s prev err now false in
  ms_Unavailable s' = true ∧ ms_NextRetryAfter s ≤ ms_NextRetryAfter s'
  ∧ kept_if_live prev now (ms_NextRetryAfter s').
Proof.
  intros Hn Hu Hr. unfold settle_state, kept_if_live. simpl.
  assert (is_zero (ms_NextRetryAfter s) = false) as Hz by (bprop; lia).
  rewrite Hz, andb_false_r. simpl. split; [done|]. unfold extend_retry. rewrite Hz. simpl.
  case_if; bprop; [lia|]. split; [lia|]. intros Hp. apply andb_false_iff in E as [E|E]; bprop; lia.
Qed.

Lemma model_failure_covers seq auth model result now term :
  0 < now → cooling_enabled auth result → canonicalModelKey model = model →
  let auth1 := (ensureModelState auth model).1 in
  let prior := ms_NextRetryAfter (normalize_wrap auth1 (ensureModelState auth model).2 now) in
  ∃ until, now < until ∧ kept_if_live prior now until ∧ hint_kept result now until
    ∧ covers_at (model_failure cfg seq auth model result now term) model until.
Proof.
  intros Hn (Hd & Hs & Hc & Hh) Hk. unfold model_failure. cbv zeta. rewrite Hd, Hk.
  destruct (ensureModelState auth model) as [auth1 s1]. cbn [fst snd].
  set (s2 := normalize_wrap auth1 s1 now). set (pending := ownLayerPending auth1 result now).
  set (s3 := own_layer pending s2).
  assert (Hu : ms_Unavailable (mark_state_failed s3 (ResultError result) now) = true)
    by (unfold mark_state_failed; by destruct (ResultError result)).
  match goal with |- context [model_failure_effect ?c ?a ?k ?x ?y ?z ?r ?n ?d ?t] =>
    pose proof (effect_live a k x y z r n t Hn Hs Hc Hh Hu) as He;
    destruct (model_failure_effect c a k x y z r n d t) as [auth2 s4] end.
  cbn [snd] in He. destruct He as (Hu4 & Hr4 & Hh4).
  destruct (settle_live s4 (ms_NextRetryAfter s3) (ResultError result) now Hn Hu4 Hr4)
    as (Hu5 & Hr5 & Hp5).
  set (s5 := settle_state s4 (ms_NextRetryAfter s3) (ResultError result) now false) in *.
  clearbody s5.
  set (s6 := if pending then _ else _).
  assert (H6 : ms_Unavailable s6 = true ∧ ms_NextRetryAfter s5 ≤ ms_NextRetryAfter s6
    ∧ kept_if_live (ms_NextRetryAfter s2) now (ms_NextRetryAfter s6)).
  { unfold s6, s3, own_layer, kept_if_live in *. destruct pending.
    - unfold compose_layers. simpl. rewrite !later_max. split_and!; [done|lia|lia].
    - split_and!; [done|simpl; lia|exact Hp5]. }
  destruct H6 as (Hu6 & Hr6 & Hp6). clearbody s6.
  exists (ms_NextRetryAfter s6). split; [lia|]. split; [done|]. split.
  { intros Hq h Hx. specialize (Hh4 Hq h Hx). lia. }
  apply aggregated_covers; [lia|].
  apply (set_covers_new _ model s6 (ms_NextRetryAfter s6)). by split.
Qed.

(** The steps after the branch for success or failure do not touch the states. *)
Lemma finish_covers seq ctx headers auth model result now a1 key until :
  a1 = (if Success result
        then success_effect (count_result auth result now) model result now
               (hasUnauthorizedAuthFailure auth)
        else failure_effect cfg seq (count_result auth result now) model result now
               (hasUnauthorizedAuthFailure auth)) →
  canonicalModelKey key = key → covers_at a1 key until →
  ∀ ctx' model' t, model' ≠ "" → canonicalModelKey model' = key → 0 ≤ t < until →
    blocked_for ctx' model' t (apply_result cfg seq ctx headers auth model result now).1 = true.
Proof.
  intros Ha Hk Hc ctx' model' t Hm Hk' Ht. unfold apply_result.
  rewrite count_terminal, <- Ha. cbn [fst]. rewrite observe_quota_same, touch_same.
  apply (covers_blocked ctx' _ key until); [|done..]. apply covers_at_covers; [done|].
  destruct Hc as (s & Hl & Hh). exists s. split; [|done].
  set (a2 := if rejectsToken result then _ else a1).
  assert (H2 : a_ModelStates a2 = a_ModelStates a1).
  { unfold a2. case_if; [|done]. by apply rejected_fields. }
  clearbody a2. rewrite <- H2 in Hl. case_if; [done|]. case_if; [|done].
  unfold refresh_after_rejection. by case_if.
Qed.

(** C1 A failure that is charged to a model takes it out of rotation at once:
    with cooling enabled the model is blocked for every request until a later
    time, never earlier than a still-live cooldown it already had, and for an
    ordinary quota failure never earlier than the provider's hint. *)
Theorem failure_cools_model seq ctx headers auth model result now :
  0 < now → Success result = false → shouldSkipCredentialCooldown (ResultError result) = false →
  cooling_enabled (count_result auth result now) result →
  model ≠ "" → canonicalModelKey model = model →
  let auth0 := count_result auth result now in
  let auth1 := (ensureModelState auth0 model).1 in
  let prior := ms_NextRetryAfter (normalize_wrap auth1 (ensureModelState auth0 model).2 now) in
  let auth' := (apply_result cfg seq ctx headers auth model result now).1 in
  ∃ until, now < until ∧ kept_if_live prior now until ∧ hint_kept result now until
    ∧ ∀ ctx' model' t, model' ≠ "" → canonicalModelKey model' = model → now ≤ t < until →
        blocked_for ctx' model' t auth' = true.
Proof.
  intros Hn Hs Hsk Hcool Hne Hk auth0 auth1 prior auth'.
  destruct (model_failure_covers seq auth0 model result now (hasUnauthorizedAuthFailure auth)
    Hn Hcool Hk) as (until & Hu & Hp & Hh & Hc).
  exists until. split_and!; [done..|]. intros ctx' model' t Hm' Hk' Ht.
  eapply (finish_covers seq ctx headers auth model result now); [|exact Hk|exact Hc|done|done|lia].
  rewrite Hs. unfold failure_effect. by rewrite (proj2 (String.eqb_neq _ _) Hne), Hsk.
Qed.

(** ** Quota failures of credential scope *)

Definition quota_held (a : Auth) (until : time) : Prop :=
  Exceeded (a_Quota a) = true ∧ Reason (a_Quota a) = "credential_quota"
  ∧ until ≤ NextRecoverAt (a_Quota a).

Lemma quota_held_blocked ctx model t a until :
  quota_held a until → t < until → blocked_for ctx model t a = true.
Proof.
  intros (He & Hr & Hn) Ht. rewrite blocked_for_eq. unfold credential_quota_active.
  rewrite He, Hr. assert (after (NextRecoverAt (a_Quota a)) t = true) as -> by (bprop; lia).
  simpl. by rewrite orb_true_r.
Qed.

Lemma aggregated_quota_held a now until :
  now < until → quota_held a until → quota_held (updateAggregatedAvailability a now) until.
Proof.
  intros Hlt Hh. unfold updateAggregatedAvailability. case_if; [exact Hh|].
  assert (credential_quota_live a now = true) as ->; [|exact Hh].
  destruct Hh as (He & Hr & Hn). unfold credential_quota_live. rewrite He, Hr. simpl. bprop. lia.
Qed.

Lemma model_failure_quota_held seq auth model result now :
  0 < now → cooling_enabled auth result → quota_class (ResultError result) = true →
  CredentialScope result = true →
  ∃ until, now < until ∧ hint_kept result now until
    ∧ quota_held (model_failure cfg seq auth model result now false) until.
Proof.
  intros Hn (Hd & _) Hq Hc. unfold model_failure. cbv zeta. rewrite Hd.
  destruct (ensureModelState auth model) as [auth1 s1].
  unfold ownLayerPending. rewrite Hc. cbn [negb andb own_layer].
  set (s3 := normalize_wrap auth1 s1 now).
  set (auth2 := mark_auth_failed auth1 (ResultError result) false).
  set (s4 := mark_state_failed s3 (ResultError result) now).
  pose proof Hq as Hq'. unfold quota_class in Hq'.
  repeat (apply andb_true_iff in Hq'; destruct Hq' as [Hq' ?]).
  repeat match goal with H : negb _ = true |- _ => apply negb_true_iff in H end.
  assert (Hst : Error_StatusCode (ResultError result) = 429) by by bprop.
  unfold model_failure_effect. cbv zeta.
  repeat match goal with H : _ = false |- _ => rewrite H end. rewrite Hst.
  cbn [andb status_in existsb orb Z.eqb Pos.eqb].
  unfold model_quota_failure. rewrite Hc.
  pose proof (quota_deadline_later auth2 s4 result now) as Ht.
  destruct (quota_deadline auth2 s4 result now false) as [[next cn] level].
  destruct (Ht Hn) as (_ & Hcn & Hh). cbn [andb negb].
  set (authNext := if credential_quota_exceeded auth2 && _ then _ else cn).
  assert (cn ≤ authNext) by (unfold authNext; case_if; bprop; lia). clearbody authNext.
  exists cn. split; [done|]. split; [intros _ h Hx; exact (Hh h Hx)|].
  apply aggregated_quota_held; [done|]. by split_and!.
Qed.

(** A quota failure of credential scope takes the whole credential out of
    rotation: every model, also one never used before, is blocked until the
    provider's hint (and at least for ten seconds when there is one). *)
Theorem credential_quota_blocks_all seq ctx headers auth model result now :
  0 < now → Success result = false → shouldSkipCredentialCooldown (ResultError result) = false →
  quota_class (ResultError result) = true → CredentialScope result = true →
  hasUnauthorizedAuthFailure auth = false →
  cooling_enabled (count_result auth result now) result → model ≠ "" →
  let auth' := (apply_result cfg seq ctx headers auth model result now).1 in
  ∃ until, now < until ∧ hint_kept result now until
    ∧ ∀ ctx' model' t, now ≤ t < until → blocked_for ctx' model' t auth' = true.
Proof.
  intros Hn Hs Hsk Hq Hc Ht Hcool Hne auth'.
  destruct (model_failure_quota_held seq (count_result auth result now) model result now
    Hn Hcool Hq Hc) as (until & Hu & Hh & Hheld).
  exists until. split_and!; [done..|]. intros ctx' model' t Htt. unfold auth', apply_result.
  rewrite count_terminal, Ht, Hs. cbn [fst]. rewrite observe_quota_same, touch_same.
  unfold failure_effect. rewrite (proj2 (String.eqb_neq _ _) Hne), Hsk. cbn [negb].
  set (a1 := model_failure _ _ _ _ _ _ _) in *. clearbody a1.
  apply (quota_held_blocked ctx' model' t _ until); [|lia].
  set (a2 := if rejectsToken result then _ else a1).
  assert (H2 : a_Quota a2 = a_Quota a1).
  { unfold a2. case_if; [|done]. by apply rejected_fields. }
  unfold quota_held in *. rewrite <- H2 in Hheld. clearbody a2. case_if; [|done].
  unfold refresh_after_rejection. by case_if.
Qed.

(** ** Usage limits and successes *)

Lemma ensure_present auth model s :
  normalizeModelStates auth = auth → canonicalModelKey model = model →
  a_ModelStates auth !! model = Some (Some s) → ensureModelState auth model = (auth, s).
Proof.
  intros Hn Hk Hl. unfold ensureModelState, model_state. by rewrite Hn, Hk, Hl.
Qed.

Lemma normalize_ext a b :
  a_ModelStates a = a_ModelStates b → normalizeModelStates a = a → normalizeModelStates b = b.
Proof.
  unfold normalizeModelStates. intros Hab. rewrite <- Hab.
  destruct (foldl _ _ _) as [m ch]. destruct ch; [|done].
  intros H. apply (f_equal a_ModelStates) in H. simpl in H. rewrite H, Hab. by destruct b.
Qed.

(** A proactive usage-limit block is authoritative until its window resets:
    a request that still streams through and succeeds does not bring the model
    back. *)
Theorem usage_limit_survives_success seq ctx headers auth model result now s :
  0 ≤ now → Success result = true → hasUnauthorizedAuthFailure auth = false →
  normalizeModelStates auth = auth → model ≠ "" → canonicalModelKey model = model →
  a_ModelStates auth !! model = Some (Some s) → hasActiveUsageLimitBlock s now = true →
  let auth' := (apply_result cfg seq ctx headers auth model result now).1 in
  ∀ ctx' model' t, model' ≠ "" → canonicalModelKey model' = model →
    now ≤ t < ms_NextRetryAfter s → blocked_for ctx' model' t auth' = true.
Proof.
  intros Hn Hs Ht Hnorm Hne Hk Hl Hb auth' ctx' model' t Hm' Hk' Htt.
  assert (Hh : holds_until s (ms_NextRetryAfter s) ∧ now < ms_NextRetryAfter s).
  { unfold hasActiveUsageLimitBlock in Hb. destruct (ms_Unavailable s) eqn:Eu; [|done].
    simpl in Hb. case_if_in Hb; [done|]. bprop. by split. }
  destruct Hh as [Hh Hlt].
  assert (Hat : ∀ a, a_ModelStates a = a_ModelStates auth → covers_at a model (ms_NextRetryAfter s)).
  { intros a Ha. exists s. by rewrite Ha. }
  apply (finish_covers seq ctx headers auth model result now _ model (ms_NextRetryAfter s) eq_refl);
    [done| |done|done|lia].
  rewrite Hs, Ht. set (a0 := count_result auth result now).
  unfold success_effect. cbv zeta.
  match goal with |- context [if ?b then a0 <| a_InferenceVerified := true |> <| _ := _ |> else a0] =>
    set (a1 := if b then a0 <| a_InferenceVerified := true |> <| a_LastInferenceVerifiedAt := now |>
               else a0) end.
  assert (H1 : a_ModelStates a1 = a_ModelStates auth).
  { unfold a1, a0, count_result. rewrite Hs. by case_if. }
  case_if; [by apply Hat|]. case_if; [by apply Hat|].
  rewrite (proj2 (String.eqb_neq _ _) Hne). cbn [negb]. unfold model_success.
  rewrite (ensure_present a1 model s), Hb by (rewrite ?H1; eauto using normalize_ext).
  apply aggregated_covers; [done|]. by apply Hat.
Qed.

(** ** What a result may change at all *)

(** The identity of a credential and its counters. *)
Definition identity (a : Auth) :=
  (a_ID a, a_RegistrationEpoch a, a_CredentialVersion a, a_Provider a, a_Attributes a,
   a_Metadata a, a_Disabled a, (a_Success a, a_Failed a, a_Generation a)).

Lemma ensure_identity auth model : identity (ensureModelState auth model).1 = identity auth.
Proof. by rewrite ensure_frame. Qed.
Lemma aggregated_identity auth now : identity (updateAggregatedAvailability auth now) = identity auth.
Proof.
  unfold updateAggregatedAvailability, clearAggregatedAvailability.
  do 3 (case_if; [done|]). cbv zeta. case_if; [done|].
  unfold apply_aggregate. cbv zeta. destruct (ag_quotaExceeded _); [done|]. by case_if.
Qed.
Lemma effect_identity auth key s saved prev result now disable term :
  identity (model_failure_effect cfg auth key s saved prev result now disable term).1 = identity auth.
Proof.
  unfold model_failure_effect. cbv zeta. case_if; [done|].
  case_if; [destruct (nextCloudflareCooldown _ _ _) as [??]; by case_if|].
  do 4 (case_if; [done|]). case_if; [|by case_if].
  unfold model_quota_failure. destruct (quota_deadline _ _ _ _ _) as [[??]?].
  case_if; [|done]. by case_if.
Qed.
Lemma model_failure_identity seq auth model result now term :
  identity (model_failure cfg seq auth model result now term) = identity auth.
Proof.
  unfold model_failure. cbv zeta. pose proof (ensure_identity auth model) as Hf.
  destruct (ensureModelState auth model) as [a1 s1]. cbn [fst] in Hf.
  assert (Hm : identity (mark_auth_failed a1 (ResultError result) term) = identity auth).
  { rewrite <- Hf. unfold mark_auth_failed. destruct (ResultError result); [|done]. by destruct term. }
  match goal with |- context [model_failure_effect ?c ?a ?k ?x ?y ?z ?r ?n ?d ?t] =>
    pose proof (effect_identity a k x y z r n d t) as He;
    destruct (model_failure_effect c a k x y z r n d t) as [a2 s2] end.
  cbn [fst] in He. rewrite aggregated_identity, <- Hm, <- He.
  match goal with |- context [if ?b then _ else a2] => by destruct b end.
Qed.
Lemma auth_effect_identity auth err hint now disable :
  identity (auth_failure_effect cfg auth err hint now disable) = identity auth.
Proof.
  unfold auth_failure_effect. cbv zeta. case_if; [done|].
  case_if; [by destruct (nextCloudflareCooldown _ _ _)|]. do 5 (case_if; [done|]).
  case_if; [|by case_if]. unfold auth_quota_failure.
  match goal with |- context [let '(_, _) := ?e in _] => by destruct e end.
Qed.
Lemma auth_failure_identity auth err hint now disable :
  identity (applyAuthFailureState cfg auth err hint now disable) = identity auth.
Proof.
  unfold applyAuthFailureState. case_if; [done|]. cbv zeta.
  match goal with |- context [auth_failure_effect cfg ?a err hint now disable] =>
    set (a1 := a); pose proof (auth_effect_identity a1 err hint now disable) as He;
    set (a2 := auth_failure_effect cfg a1 err hint now disable) in * end.
  assert (H1 : identity a1 = identity auth) by (unfold a1; by destruct err).
  rewrite <- H1, <- He. clearbody a1 a2. clear.
  set (a3 := set a_NextRetryAfter _ a2).
  change (identity a2) with (identity a3). clearbody a3.
  set (a4 := if is_force_cooldown err && _ then _ else a3).
  assert (H4 : identity a4 = identity a3) by (unfold a4; by case_if).
  rewrite <- H4. clearbody a4. by case_if.
Qed.
Lemma success_identity auth model result now term :
  identity (success_effect auth model result now term) = identity auth.
Proof.
  unfold success_effect. cbv zeta.
  set (a := if _ : bool then _ else auth).
  assert (Ha : identity a = identity auth) by (unfold a; by case_if). rewrite <- Ha. clearbody a.
  pose proof (ensure_identity a model) as Hf. case_if.
  { case_if; [|done]. by destruct (ensureModelState a model). }
  do 2 (case_if; [done|]). case_if.
  - unfold model_success. destruct (ensureModelState a model) as [a1 s1]. cbn [fst] in Hf.
    rewrite <- Hf. case_if; [apply aggregated_identity|]. cbv zeta.
    set (a2 := set_model_state a1 _ _). change (identity a1) with (identity a2). clearbody a2.
    rewrite <- (aggregated_identity a2 now). by case_if.
  - unfold clearAuthStateOnSuccess. by case_if.
Qed.
Lemma rejected_identity auth token :
  identity (recordRejectedTokenOnAuth auth token).1 = identity auth.
Proof.
  unfold recordRejectedTokenOnAuth. case_if; [done|]. cbv zeta. cbn [fst].
  match goal with |- context [if ?b then set a_RejectedSIWCAccessToken ?x auth else auth] =>
    set (a1 := if b then set a_RejectedSIWCAccessToken x auth else auth) end.
  assert (H1 : identity a1 = identity auth) by (unfold a1; by case_if).
  clearbody a1. rewrite <- H1. match goal with |- context [if ?c then _ else a1] => by destruct c end.
Qed.

Lemma apply_result_identity seq ctx headers auth model result now :
  identity (apply_result cfg seq ctx headers auth model result now).1
  = identity ((count_result auth result now)
      <| a_Generation := incr64 (a_Generation (count_result auth result now)) |>).
Proof.
  unfold apply_result. cbn [fst]. rewrite observe_frame. cbv zeta.
  set (a0 := count_result auth result now). set (wasTerminal := hasUnauthorizedAuthFailure a0).
  set (a1 := if Success result then success_effect a0 model result now wasTerminal
             else failure_effect cfg seq a0 model result now wasTerminal).
  assert (H1 : identity a1 = identity a0).
  { unfold a1. destruct (Success result); [apply success_identity|]. unfold failure_effect.
    case_if; [case_if; [done|]; apply model_failure_identity|]. case_if; [done|].
    exact (auth_failure_identity _ _ _ _ _). }
  clearbody a1. set (a2 := if rejectsToken result then _ else a1).
  assert (H2 : identity a2 = identity a0)
    by (unfold a2; case_if; [rewrite rejected_identity|]; exact H1).
  clearbody a2. set (a3 := if wasTerminal then _ else _).
  assert (H3 : identity a3 = identity a0).
  { rewrite <- H2. unfold a3. case_if; [done|]. case_if; [|done].
    unfold refresh_after_rejection. by case_if. }
  clearbody a3. unfold identity in *. simplify_eq H3. intros. cbn. congruence.
Qed.

Definition apply_policy (policy : option (Result → Result)) (result : Result) : Result :=
  match policy with Some f => f result | None => result end.

(** A stale result changes the memory of rejected tokens only. *)
Lemma rejected_frame auth token :
  let a := (recordRejectedTokenOnAuth auth token).1 in
  a = auth <| a_RejectedAccessToken := a_RejectedAccessToken a |>
           <| a_RejectedSIWCAccessToken := a_RejectedSIWCAccessToken a |>
  ∧ (a_RejectedAccessToken a = a_RejectedAccessToken auth
     ∨ a_RejectedAccessToken a = trim_space token).
Proof.
  unfold recordRejectedTokenOnAuth. case_if; [split; [by destruct auth|by left]|]. cbv zeta. cbn [fst].
  match goal with |- context [if ?b then set a_RejectedSIWCAccessToken ?x auth else auth] =>
    set (a1 := if b then set a_RejectedSIWCAccessToken x auth else auth) end.
  assert (H1 : a1 = auth <| a_RejectedSIWCAccessToken := a_RejectedSIWCAccessToken a1 |>)
    by (unfold a1; case_if; by destruct auth).
  assert (H2 : a_RejectedAccessToken a1 = a_RejectedAccessToken auth) by by rewrite H1.
  clearbody a1. match goal with |- context [if ?c then _ else a1] => destruct c end.
  - split; [|by right]. rewrite H1. by destruct auth.
  - split; [|by left]. rewrite H1 at 1. rewrite H2. by destruct auth.
Qed.

(** Recording a result touches no credential but the one that produced it
    and never changes its registration data; a result that is not stale is
    counted exactly once as a success or a failure and advances the generation
    by one; a stale result changes nothing but the memory of rejected tokens,
    and then only to the token it was made with. *)
Theorem MarkResult_frame route_key policy m ctx headers result now0 now :
  let r := apply_policy policy result in
  let '(m', sent) := MarkResult cfg route_key policy m ctx headers result now0 now in
  executionSeq m' = executionSeq m
  ∧ (∀ id, id ≠ AuthID r → auths m' !! id = auths m !! id)
  ∧ ∀ a, auths m !! AuthID r = Some a → AuthID result ≠ "" → AuthID r ≠ "" →
      ∃ a', auths m' !! AuthID r = Some a' ∧
      if isStaleExecutionResult r a then
        sent = None
        ∧ a' = a <| a_RejectedAccessToken := a_RejectedAccessToken a' |>
                 <| a_RejectedSIWCAccessToken := a_RejectedSIWCAccessToken a' |>
                 <| a_Generation := a_Generation a' |> <| a_UpdatedAt := a_UpdatedAt a' |>
        ∧ (a_RejectedAccessToken a' = a_RejectedAccessToken a
           ∨ a_RejectedAccessToken a' = trim_space (AccessToken r))
      else
        nt_snapshot <$> sent = Some a'
        ∧ identity a' = identity (a <| a_Generation := incr64 (a_Generation a) |>
            <| a_Success := a_Success a + Z.b2z (Success r) |>
            <| a_Failed := a_Failed a + Z.b2z (negb (Success r)) |>).
Proof.
  cbv zeta. unfold MarkResult. fold (apply_policy policy result). set (r := apply_policy policy result).
  cbv zeta. destruct (String.eqb (AuthID result) "" || String.eqb (AuthID r) "") eqn:E0.
  { split_and!; [done..|]. intros a _ H1 H2. exfalso.
    apply orb_true_iff in E0 as [E0|E0]; bprop; done. }
  destruct (auths m !! AuthID r) as [a|] eqn:Ea; [|by split_and!].
  destruct (isStaleExecutionResult r a) eqn:Es.
  - case_if.
    + pose proof (rejected_frame a (AccessToken r)) as [Hf Ht].
      destruct (recordRejectedTokenOnAuth a (AccessToken r)) as [a1 ch]. cbn [fst] in *.
      split_and!; [done|intros id Hne; cbn; by rewrite lookup_insert_ne|]. intros a0 [= <-] _ _.
      cbn. rewrite lookup_insert_eq. eexists. split; [done|]. rewrite Es. split; [done|].
      destruct ch; cbn; (split; [|exact Ht]); rewrite Hf; by destruct a.
    + split_and!; [done..|]. intros a0 [= <-] _ _. exists a. rewrite Es. split; [done|].
      split; [done|]. split; [by destruct a|by left].
  - pose proof (apply_result_identity (executionSeq m) ctx headers a
      (result_model_key route_key a r) r now) as Hi.
    destruct (apply_result _ _ _ _ _ _ _ _) as [a' sch]. cbn [fst] in Hi.
    split_and!; [done|intros id Hne; cbn; by rewrite lookup_insert_ne|]. intros a0 [= <-] _ _.
    exists a'. cbn. rewrite lookup_insert_eq, Es. split; [done|]. split; [done|]. rewrite Hi.
    unfold count_result. destruct (Success r); unfold identity; cbn; by rewrite ?Z.add_0_r.
Qed.

End Props.

(** ** Witnesses *)

#[local] Existing Instance no_parse.
#[local] Existing Instance no_bodies.

Definition sample_error (code message : string) (status : Z) : Error :=
  {| err_Code := code; err_Message := message; err_Retryable := false; err_HTTPStatus := status |}.
Definition sample_result (success : bool) (err : option Error) (retryAfter : option duration)
    (scope : bool) (seq : Z) : Result :=
  {| AuthID := "a"; Provider := "claude"; Model := "m"; RouteModel := ""; Success := success;
     CompletedResponse := false; RetryAfter := retryAfter; CredentialScope := scope;
     ResultError := err; SkipQuotaObservation := false; AccessToken := "";
     CredentialVersion := 0; RegistrationEpoch := 0; ExecutionSeq := seq |}.
Definition cooling (until seq : Z) : ModelState :=
  active_state <| ms_Unavailable := true |> <| ms_NextRetryAfter := until |>
               <| ms_cooldownRecordedSeq := seq |>.
Definition with_state (s : ModelState) : Auth :=
  (new_auth "a") <| a_ModelStates := {["m" := Some s]} |>.

Lemma skipped_failure_neutral_witness :
  blocked_for background "m" 20
    (apply_result default_config 3 background ∅ (with_state (cooling 50 1)) "m"
       (sample_result false (Some (sample_error ErrorCodeRequestScoped "bad request" 400)) None
          false 0) 10).1 = true.
Proof.
  pose proof (skipped_failure_neutral default_config 3 background ∅ (with_state (cooling 50 1)) "m"
    (sample_result false (Some (sample_error ErrorCodeRequestScoped "bad request" 400)) None
       false 0) 10 eq_refl eq_refl) as H.
  destruct (apply_result _ _ _ _ _ _ _ _) as [a sch]. destruct H as [_ H]. rewrite H.
  vm_compute. reflexivity.
Defined.

Lemma ignored_success_neutral_witness :
  blocked_for background "m" 20
    (apply_result default_config 3 background ∅ (with_state (cooling 50 2)) "m"
       (sample_result true None None false 1) 10).1 = true.
Proof.
  pose proof (ignored_success_neutral default_config 3 background ∅ (with_state (cooling 50 2)) "m"
    (sample_result true None None false 1) 10 eq_refl eq_refl ltac:(vm_compute; reflexivity)) as H.
  destruct (apply_result _ _ _ _ _ _ _ _) as [a sch]. destruct H as [_ H]. rewrite H.
  vm_compute. reflexivity.
Defined.

Lemma unauthorized_sticky_witness :
  let a := (new_auth "a") <| a_Unavailable := true |> <| a_Status := StatusError |>
             <| a_LastError := Some (sample_error "unauthorized" "token revoked" 401) |> in
  hasUnauthorizedAuthFailure
    (apply_result default_config 3 background ∅ a "m" (sample_result true None None false 9) 10).1
  = true.
Proof.
  intros a.
  pose proof (unauthorized_sticky default_config 3 background ∅ a "m"
    (sample_result true None None false 9) 10 eq_refl) as H.
  destruct (apply_result _ _ _ _ _ _ _ _) as [a' sch]. apply H.
Defined.

Lemma usage_exhausted_blocks_witness :
  let m' := (MarkUsageExhausted one_auth " a" ["x"; "m"] 100 10).1 in
  ∃ a', auths m' !! "a" = Some a' ∧ blocked_for background "m(high)" 99 a' = true.
Proof.
  intros m'.
  destruct (usage_exhausted_blocks one_auth " a" (new_auth "a") ["x"; "m"] "m" "m" 100 10)
    as [(a' & Hl & Hb) _];
    [vm_compute; discriminate|vm_compute; reflexivity|lia|set_solver|vm_compute; reflexivity
    |discriminate|vm_compute; reflexivity|].
  exists a'. split; [exact Hl|]. apply Hb; [discriminate|vm_compute; reflexivity|lia].
Defined.

Definition rate_limited_result (scope : bool) : Result :=
  sample_result false (Some (sample_error "" "rate limited" 429)) (Some (20 * second)) scope 0.

Lemma sample_cooling scope :
  cooling_enabled default_config (count_result (with_state (cooling 50 1)) (rate_limited_result scope) 10)
    (rate_limited_result scope).
Proof.
  split; [vm_compute; reflexivity|]. split; [vm_compute; discriminate|].
  split; [vm_compute; discriminate|]. intros h [= <-]. unfold second. lia.
Qed.

Lemma failure_cools_model_witness :
  let a' := (apply_result default_config 3 background ∅ (with_state (cooling 50 1)) "m"
               (rate_limited_result false) 10).1 in
  ∃ until, 20 * second ≤ until ∧ blocked_for background "m" (until - 1) a' = true.
Proof.
  intros a'. assert (Hk : canonicalModelKey "m" = "m") by (vm_compute; reflexivity).
  assert (Hs : shouldSkipCredentialCooldown (ResultError (rate_limited_result false)) = false)
    by (vm_compute; reflexivity).
  pose proof (failure_cools_model default_config 3 background ∅ (with_state (cooling 50 1)) "m"
    (rate_limited_result false) 10 ltac:(lia) eq_refl Hs (sample_cooling false)
    ltac:(discriminate) Hk) as H.
  cbv zeta in H. fold a' in H. destruct H as (until & Hu & _ & Hh & Hb). exists until. specialize (Hh ltac:(vm_compute; reflexivity) _ eq_refl).
  unfold minQuotaCooldownFloor, second in *. split; [lia|].
  apply Hb; [discriminate|vm_compute; reflexivity|lia].
Defined.

Lemma credential_quota_blocks_all_witness :
  let a' := (apply_result default_config 3 background ∅ (with_state (cooling 50 1)) "m"
               (rate_limited_result true) 10).1 in
  blocked_for background "never-used" (19 * second) a' = true.
Proof.
  intros a'.
  assert (Hs : shouldSkipCredentialCooldown (ResultError (rate_limited_result true)) = false)
    by (vm_compute; reflexivity).
  assert (Hq : quota_class (ResultError (rate_limited_result true)) = true)
    by (vm_compute; reflexivity).
  pose proof (credential_quota_blocks_all default_config 3 background ∅ (with_state (cooling 50 1)) "m"
    (rate_limited_result true) 10 ltac:(lia) eq_refl Hs Hq eq_refl eq_refl (sample_cooling true)
    ltac:(discriminate)) as H.
  cbv zeta in H. fold a' in H. destruct H as (until & Hu & Hh & Hb).
  specialize (Hh ltac:(vm_compute; reflexivity) _ eq_refl).
  unfold minQuotaCooldownFloor, second in *. apply Hb. lia.
Defined.

Lemma usage_limit_survives_success_witness :
  let s := usage_block active_state 100 5 in
  blocked_for background "m" 99
    (apply_result default_config 3 background ∅ (with_state s) "m"
       (sample_result true None None false 9) 10).1 = true.
Proof.
  intros s.
  apply (usage_limit_survives_success default_config 3 background ∅ (with_state s) "m"
    (sample_result true None None false 9) 10 s);
    [lia|reflexivity|reflexivity|vm_compute; reflexivity|discriminate|vm_compute; reflexivity
    |reflexivity|reflexivity|discriminate|vm_compute; reflexivity|simpl; lia].
Defined.

Lemma MarkResult_frame_witness :
  a_Failed <$> auths (MarkResult default_config (fun _ k => k) None one_auth background ∅
                        (rate_limited_result false) 10 10).1 !! "a" = Some 1.
Proof.
  pose proof (MarkResult_frame default_config (fun _ k => k) None one_auth background ∅
    (rate_limited_result false) 10 10) as H.
  destruct (MarkResult _ _ _ _ _ _ _ _ _) as [m' sent]. destruct H as (_ & _ & H).
  destruct (H (new_auth "a")) as (a' & Hl & _ & Hi); [reflexivity|discriminate|discriminate|].
  cbn [fst apply_policy AuthID rate_limited_result sample_result] in Hl. cbn [fst]. rewrite Hl.
  unfold identity in Hi. simpl in Hi. simplify_eq Hi. intros. simpl. by f_equal.
Defined.

(** ** Observations

    [canonicalModelKey] strips one suffix only, so it is not idempotent; a usage
    block for a model with two suffixes is stored under a key that the blocking
    test does not look up. *)
Lemma nested_suffix_escapes_usage_block :
  let m' := (MarkUsageExhausted one_auth "a" ["a(b)(c)"] 100 10).1 in
  let a' := default (new_auth "") (auths m' !! "a") in
  canonicalModelKey "a(b)(c)" = "a(b)" ∧ canonicalModelKey "a(b)" = "a"
  ∧ blocked_for background "a(b)(c)" 50 a' = false ∧ blocked_for background "a" 50 a' = true.
Proof. vm_compute. repeat split; reflexivity. Qed.

(** A usage-limit notice replaces the retry time of a state it did not write,
    also when that one was later. *)
Lemma usage_notice_shortens_cooldown :
  let m := {| auths := {["a" := with_state (cooling 500 1)]}; executionSeq := 0 |} in
  let a' := default (new_auth "") (auths (MarkUsageExhausted m "a" ["m"] 100 10).1 !! "a") in
  blocked_for background "m" 200 (with_state (cooling 500 1)) = true
  ∧ blocked_for background "m" 200 a' = false.
Proof. vm_compute. split; reflexivity. Qed.

End ResultProps.
