(* ===== verification/CooldownStore.v ===== *)
(** * Cooldowns on disk and their reset: cooldown_state.go and conductor_cooldown.go

    The records of the cooldowns of a manager, how they are restored into credentials
    that may already have cooldowns of their own, and the operations that clear them.
    The store itself, a file or a database, is what is between two lists of records. *)
From S2P Require Import Prelude GoLib Weight Thinking AuthTypes QuotaSignals Expiry Availability Classify Cooldown.
Import AuthTypes QuotaSignals Expiry Availability Classify Cooldown.

Module CooldownStore.

Record CooldownStateRecord : Type := {
  cr_Provider : string;
  cr_AuthID : string;
  cr_AuthFile : string;
  cr_Model : string;
  cr_Status : string;
  cr_NextRetryAfter : time;
  cr_Reason : string;
  cr_Quota : QuotaState;
  cr_LastError : option Error;
  cr_UpdatedAt : time;
  cr_IndependentState : option ModelState;
  cr_CredentialQuotaPropagated : bool;
}.
#[global] Instance CooldownStateRecord_eta : Eta CooldownStateRecord := fun r =>
  {| cr_Provider := cr_Provider r; cr_AuthID := cr_AuthID r; cr_AuthFile := cr_AuthFile r; cr_Model := cr_Model r;
     cr_Status := cr_Status r; cr_NextRetryAfter := cr_NextRetryAfter r; cr_Reason := cr_Reason r; cr_Quota := cr_Quota r;
     cr_LastError := cr_LastError r; cr_UpdatedAt := cr_UpdatedAt r; cr_IndependentState := cr_IndependentState r;
     cr_CredentialQuotaPropagated := cr_CredentialQuotaPropagated r |}.

(** ** Writing *)

Definition cooldownAuthFile (auth : Auth) : string :=
  let path := trim_space (default "" (a_Attributes auth !! "path")) in
  if negb (String.eqb path "") then path else trim_space (a_FileName auth).
Definition cooldownReason (statusMessage : string) (quota : QuotaState) (lastErr : option Error) : string :=
  let reason := trim_space (Reason quota) in
  let statusMessage := trim_space statusMessage in
  if negb (String.eqb reason "") then reason
  else if negb (String.eqb statusMessage "") then statusMessage
  else match lastErr with
       | None => ""
       | Some e => let code := trim_space (err_Code e) in if negb (String.eqb code "") then code else trim_space (err_Message e)
       end.
Definition authCooldownStateRecord (auth : Auth) (now : time) : option CooldownStateRecord :=
  if negb (a_Unavailable auth) || is_zero (a_NextRetryAfter auth) || negb (after (a_NextRetryAfter auth) now) then None
  else Some {| cr_Provider := trim_space (a_Provider auth); cr_AuthID := a_ID auth; cr_AuthFile := cooldownAuthFile auth;
               cr_Model := ""; cr_Status := "cooling"; cr_NextRetryAfter := a_NextRetryAfter auth;
               cr_Reason := cooldownReason (a_StatusMessage auth) (a_Quota auth) (a_LastError auth);
               cr_Quota := cooldownFieldsOf (a_Quota auth); cr_LastError := a_LastError auth; cr_UpdatedAt := a_UpdatedAt auth;
               cr_IndependentState := None; cr_CredentialQuotaPropagated := false |}.
Definition modelCooldownStateRecord (auth : Auth) (model : string) (state : ModelState) (now : time) :
    option CooldownStateRecord :=
  let model := trim_space model in
  if String.eqb model "" || negb (ms_Unavailable state) || is_zero (ms_NextRetryAfter state)
     || negb (after (ms_NextRetryAfter state) now) then None
  else Some {| cr_Provider := trim_space (a_Provider auth); cr_AuthID := a_ID auth; cr_AuthFile := cooldownAuthFile auth;
               cr_Model := model; cr_Status := "cooling"; cr_NextRetryAfter := ms_NextRetryAfter state;
               cr_Reason := cooldownReason (ms_StatusMessage state) (ms_Quota state) (ms_LastError state);
               cr_Quota := cooldownFieldsOf (ms_Quota state); cr_LastError := ms_LastError state;
               cr_UpdatedAt := ms_UpdatedAt state; cr_IndependentState := cloneShallow <$> ms_shadow state;
               cr_CredentialQuotaPropagated := ms_propagated state |}.

Section Store.
Context (cfg : CoolingConfig).

Definition cooldownStateRecordsForAuthLocked (auth : Auth) (now : time) : list CooldownStateRecord :=
  if String.eqb (a_ID auth) "" || a_Disabled auth || String.eqb (a_Status auth) StatusDisabled
     || quotaCooldownDisabledForAuthWithConfig auth cfg then []
  else
    let records := match authCooldownStateRecord auth now with Some r => [r] | None => [] end in
    sort_by cr_Model (records ++ omap (fun e => modelCooldownStateRecord auth e.1 e.2 now) (model_states auth)).
(** By provider, credential and model; the clock is read once. *)
Definition record_less (a b : CooldownStateRecord) : bool :=
  if negb (String.eqb (cr_Provider a) (cr_Provider b)) then str_lt (cr_Provider a) (cr_Provider b)
  else if negb (String.eqb (cr_AuthID a) (cr_AuthID b)) then str_lt (cr_AuthID a) (cr_AuthID b)
  else str_lt (cr_Model a) (cr_Model b).
Definition record_le (a b : CooldownStateRecord) : Prop := record_less b a = false.
#[global] Instance record_le_dec : RelDecision record_le.
Proof. intros a b. unfold record_le. apply _. Defined.
Definition cooldownStateRecordsSnapshot (auths : gmap string Auth) (now : time) : list CooldownStateRecord :=
  merge_sort record_le (concat (map (fun e => cooldownStateRecordsForAuthLocked e.2 now) (map_to_list auths))).

(** ** Restoring *)

Definition devinRecordErrorText (record : CooldownStateRecord) : string :=
  match cr_LastError record with
  | Some e => if negb (String.eqb (trim_space (err_Message e)) "") then err_Message e else ""
  | None => ""
  end.
(** What a record says, as a state. *)
Definition record_quota (record : CooldownStateRecord) : QuotaState :=
  let quota := cr_Quota record in
  if Exceeded quota && is_zero (NextRecoverAt quota) then quota <| NextRecoverAt := cr_NextRetryAfter record |> else quota.
Definition record_updated (record : CooldownStateRecord) (now : time) : time :=
  if is_zero (cr_UpdatedAt record) then now else cr_UpdatedAt record.
Definition record_state (record : CooldownStateRecord) (now : time) : ModelState :=
  zero_model_state <| ms_Unavailable := true |> <| ms_Status := StatusError |>
    <| ms_StatusMessage := trim_space (cr_Reason record) |> <| ms_NextRetryAfter := cr_NextRetryAfter record |>
    <| ms_Quota := record_quota record |> <| ms_LastError := cr_LastError record |>
    <| ms_UpdatedAt := record_updated record now |>.
Definition is_credential_quota (quota : QuotaState) : bool := String.eqb (Reason quota) "credential_quota".
(** The live layer of its own that a wrap must not erase. *)
Definition live_shadow (state : ModelState) (now : time) : option ModelState :=
  match ms_shadow state with
  | Some shadow => Some (cloneShallow shadow)
  | None =>
      if negb (ms_propagated state) && negb (is_credential_quota (ms_Quota state)) && isModelStateActiveCooldown state now
         && negb (isDevinQuotaExhaustionMessage (devinStateErrorText state))
      then Some (cloneShallow state) else None
  end.
Definition wrapped_record (record : CooldownStateRecord) : bool :=
  bool_decide (cr_IndependentState record ≠ None) || cr_CredentialQuotaPropagated record
  || String.eqb (trim_space (Reason (record_quota record))) "credential_quota".
(** A record of a cooldown of its own under a live wrap. *)
Definition beneath_wrap (auth : Auth) (record : CooldownStateRecord) (now : time) (liveShadow : option ModelState)
    (state : ModelState) : ModelState :=
  let updatedAt := record_updated record now in
  let state :=
    if isDevinQuotaExhaustionMessage (devinRecordErrorText record) then state
    else
      let newer := match liveShadow with Some live => after (ms_UpdatedAt live) updatedAt | None => false end in
      let preferred :=
        if bool_decide (ms_shadow state = None) || (bool_decide (liveShadow ≠ None) && negb newer)
        then Some (record_state record now)
        else if newer then liveShadow else ms_shadow state in
      state <| ms_shadow := preferred |> in
  let quota := exceeded_quota "credential_quota" (NextRecoverAt (a_Quota auth)) (BackoffLevel (a_Quota auth)) in
  state <| ms_propagated := true |> <| ms_Quota := applyCooldownFields (ms_Quota state) quota |>
        <| ms_NextRetryAfter := if before (ms_NextRetryAfter state) (NextRecoverAt (a_Quota auth))
                                then NextRecoverAt (a_Quota auth) else ms_NextRetryAfter state |>
        <| ms_Unavailable := true |> <| ms_Status := StatusError |>.
(** A record of a wrap. *)
Definition wrap (record : CooldownStateRecord) (liveShadow : option ModelState) (state : ModelState) : ModelState :=
  let shadow :=
    match cr_IndependentState record, liveShadow with
    | Some own, None => Some (cloneShallow own)
    | Some own, Some live => if negb (after (ms_UpdatedAt live) (ms_UpdatedAt own)) then Some (cloneShallow own) else liveShadow
    | None, Some _ => liveShadow
    | None, None => ms_shadow state
    end in
  state <| ms_propagated := true |> <| ms_shadow := shadow |>.
Definition restore_state (auth : Auth) (record : CooldownStateRecord) (now : time) (state : ModelState) : ModelState :=
  let liveShadow := live_shadow state now in
  let wasLiveWrapped := ms_propagated state || is_credential_quota (ms_Quota state) || credential_quota_live auth now in
  let merged := mergeModelState state (record_state record now) in
  if negb (wrapped_record record) && wasLiveWrapped then beneath_wrap auth record now liveShadow merged
  else if wrapped_record record then wrap record liveShadow merged
  else merged.
Definition touch_restored (record : CooldownStateRecord) (now : time) (auth : Auth) : Auth :=
  auth <| a_Generation := wrapu64 (a_Generation auth + 1) |> <| a_UpdatedAt := record_updated record now |>.
Definition restore_model (record : CooldownStateRecord) (now : time) (auth : Auth) : Auth :=
  let key := canonicalModelKey (trim_space (cr_Model record)) in
  let '(auth, state) := ensureModelState auth (trim_space (cr_Model record)) in
  let auth := set_model_state auth key (restore_state auth record now state) in
  updateAggregatedAvailability (touch_restored record now auth) now.
Definition restore_credential (record : CooldownStateRecord) (now : time) (auth : Auth) : Auth :=
  let reason := trim_space (cr_Reason record) in
  let quota := mergeQuotaObservation (applyCooldownFields (a_Quota auth) (record_quota record)) (record_quota record) in
  touch_restored record now
    (auth <| a_Unavailable := true |> <| a_Status := StatusError |> <| a_NextRetryAfter := cr_NextRetryAfter record |>
          <| a_Quota := quota |>
          <| a_StatusMessage := if negb (String.eqb reason "") then reason else a_StatusMessage auth |>
          <| a_LastError := cr_LastError record |>).
(** Which credentials take records. *)
Definition restorable (auth : Auth) : bool :=
  negb (a_Disabled auth || String.eqb (a_Status auth) StatusDisabled || quotaCooldownDisabledForAuthWithConfig auth cfg
        || hasUnauthorizedAuthFailure auth).
Definition record_live (record : CooldownStateRecord) (now : time) : bool :=
  negb (is_zero (cr_NextRetryAfter record)) && after (cr_NextRetryAfter record) now.
Definition restore_record (record : CooldownStateRecord) (now : time) (auth : Auth) : Auth :=
  if negb (record_live record now) || negb (restorable auth) then auth
  else if String.eqb (trim_space (cr_Model record)) "" then restore_credential record now auth
  else restore_model record now auth.
Definition restoreCooldownRecordLocked (auths : gmap string Auth) (record : CooldownStateRecord) (now : time) : gmap string Auth :=
  let authID := trim_space (cr_AuthID record) in
  if String.eqb authID "" then auths else alter (restore_record record now) authID auths.
(** The records of models first. *)
Definition RestoreCooldownStates (auths : gmap string Auth) (records : list CooldownStateRecord) (now : time) : gmap string Auth :=
  let of_auth r := String.eqb (trim_space (cr_Model r)) "" in
  foldl (fun auths r => restoreCooldownRecordLocked auths r now) auths
    (List.filter (fun r => negb (of_auth r)) records ++ List.filter of_auth records).

End Store.

(** ** Clearing *)

Definition cooling_auth (auth : Auth) : bool :=
  a_Unavailable auth || negb (is_zero (a_NextRetryAfter auth)) || Exceeded (a_Quota auth)
  || negb (is_zero (NextRecoverAt (a_Quota auth))).
Definition cooling_state (state : ModelState) : bool :=
  ms_Unavailable state || negb (is_zero (ms_NextRetryAfter state)) || Exceeded (ms_Quota state)
  || negb (is_zero (NextRecoverAt (ms_Quota state))) || bool_decide (ms_shadow state ≠ None) || ms_propagated state.
Definition clear_state (now : time) (state : ModelState) : ModelState :=
  if cooling_state state then
    state <| ms_Unavailable := false |> <| ms_NextRetryAfter := 0 |>
          <| ms_Quota := applyCooldownFields (ms_Quota state) zero_quota |>
          <| ms_shadow := None |> <| ms_propagated := false |> <| ms_UpdatedAt := now |>
  else state.
Definition map_states (f : ModelState → ModelState) (auth : Auth) : Auth :=
  auth <| a_ModelStates := fmap (M := gmap string) (fmap f) (a_ModelStates auth) |>.
(** The credential and whether it changed. *)
Definition clearCooldownStateForAuth (auth : Auth) (now : time) : Auth * bool :=
  if hasUnauthorizedAuthFailure auth then (auth, false)
  else
    let changed := cooling_auth auth || existsb (fun e => cooling_state e.2) (model_states auth) in
    let auth := if cooling_auth auth
                then auth <| a_Unavailable := false |> <| a_NextRetryAfter := 0 |>
                          <| a_Quota := applyCooldownFields (a_Quota auth) zero_quota |> <| a_UpdatedAt := now |>
                else auth in
    let auth := map_states (clear_state now) auth in
    let auth := if has_states auth then updateAggregatedAvailability auth now else auth in
    (if changed then auth <| a_Generation := wrapu64 (a_Generation auth + 1) |> <| a_UpdatedAt := now |> else auth, changed).
Definition clearDisabledCooldownStates (cfg : CoolingConfig) (auths : gmap string Auth) (now : time) : gmap string Auth :=
  fmap (fun auth =>
    if quotaCooldownDisabledForAuthWithConfig auth cfg || a_Disabled auth || String.eqb (a_Status auth) StatusDisabled
    then (clearCooldownStateForAuth auth now).1 else auth) auths.

Definition dedupeStrings (values : list string) : list string :=
  if (length values <? 2)%nat then values
  else (foldl (fun acc value =>
          let value := trim_space value in
          if String.eqb value "" || bool_decide (value ∈ acc.1) then acc else ({[value]} ∪ acc.1, acc.2 ++ [value]))
        (∅ : gset string, []) values).2.
Definition named (key : string) : bool := negb (String.eqb (trim_space key) "").
(** The new credential and the models that were reset.  [registeredModels]: those the
    registry lists for it.  Saving it and telling the registry come after. *)
Definition ResetQuota (registeredModels : list string) (auth : Auth) (now : time) : Auth * list string :=
  let models := List.filter named (map fst (map_to_list (a_ModelStates auth))) in
  let auth := auth <| a_ModelStates := map_imap (fun key state =>
      Some (if named key then (fun s => resetModelState s now) <$> state else state)) (a_ModelStates auth) |> in
  let '(auth, changed) := clearCooldownStateForAuth auth now in
  let auth := if negb changed && has_states auth then updateAggregatedAvailability auth now else auth in
  let models := dedupeStrings (if bool_decide (models = []) then registeredModels else models) in
  let auth :=
    if negb (a_Disabled auth || String.eqb (a_Status auth) StatusDisabled) && negb (hasModelError auth now)
       && negb (hasUnauthorizedAuthFailure auth)
    then auth <| a_LastError := None |> <| a_StatusMessage := "" |> <| a_Status := StatusActive |>
    else auth in
  (auth <| a_Generation := wrapu64 (a_Generation auth + 1) |> <| a_UpdatedAt := now |>, models).

(** ** The name of a file *)

(** [filepath.Ext]: from the last dot of the last element, on the reversed name. *)
Fixpoint ext_rev (acc rest : string) : string :=
  match rest with
  | EmptyString => ""
  | String c rest =>
      if byte_is 47 c then "" else if byte_is 46 c then String c acc else ext_rev (String c acc) rest
  end.
Definition filepath_Ext (name : string) : string := ext_rev "" (srev name).
(** [strings.TrimSuffix]. *)
Definition trim_suffix (s suffix : string) : string :=
  if has_suffix s suffix then String.substring 0 (String.length s - String.length suffix) s else s.
Definition file_name_safe (c : Ascii.ascii) : bool :=
  byte_in 65 90 c || byte_in 97 122 c || byte_in 48 57 c || byte_is 46 c || byte_is 95 c || byte_is 45 c.
(** Each run of unsafe bytes becomes one underscore. *)
Fixpoint replace_unsafe (in_run : bool) (s : string) : string :=
  match s with
  | EmptyString => EmptyString
  | String c rest =>
      if file_name_safe c then String c (replace_unsafe false rest)
      else if in_run then replace_unsafe true rest else String (Ascii.ascii_of_N 95) (replace_unsafe true rest)
  end.
(** [strings.Trim] of dots, underscores and dashes. *)
Definition name_edge (c : Ascii.ascii) : bool := byte_is 46 c || byte_is 95 c || byte_is 45 c.
Fixpoint trim_edge (s : string) : string :=
  match s with
  | EmptyString => EmptyString
  | String c rest => if name_edge c then trim_edge rest else s
  end.
Definition sanitizeCooldownFileName (name : string) : string :=
  let name := trim_space name in
  if String.eqb name "" then ""
  else
    let ext := filepath_Ext name in
    let name := if negb (String.eqb ext "") then trim_suffix name ext else name in
    let name := replace_unsafe false name in
    let name := srev (trim_edge (srev (trim_edge name))) in
    if String.eqb name "" then "" else name +:+ ".cds".

(** ** Did anything change? *)

Definition cooldownQuotaEqual (a b : QuotaState) : bool :=
  eqb (Exceeded a) (Exceeded b) && String.eqb (Reason a) (Reason b) && (BackoffLevel a =? BackoffLevel b)
  && time_eq (NextRecoverAt a) (NextRecoverAt b).
Definition cooldownErrorEqual (a b : option Error) : bool :=
  match a, b with
  | Some a, Some b => String.eqb (err_Code a) (err_Code b) && String.eqb (err_Message a) (err_Message b)
                      && eqb (err_Retryable a) (err_Retryable b) && (err_HTTPStatus a =? err_HTTPStatus b)
  | None, None => true
  | _, _ => false
  end.
Definition cooldownIndependentStateEqual (a b : option ModelState) : bool :=
  match a, b with
  | Some a, Some b =>
      String.eqb (ms_Status a) (ms_Status b) && String.eqb (ms_StatusMessage a) (ms_StatusMessage b)
      && eqb (ms_Unavailable a) (ms_Unavailable b) && time_eq (ms_NextRetryAfter a) (ms_NextRetryAfter b)
      && time_eq (ms_UpdatedAt a) (ms_UpdatedAt b) && cooldownQuotaEqual (ms_Quota a) (ms_Quota b)
      && cooldownErrorEqual (ms_LastError a) (ms_LastError b)
  | None, None => true
  | _, _ => false
  end.
Definition cooldownStateRecordEqual (a b : CooldownStateRecord) : bool :=
  eqb (cr_CredentialQuotaPropagated a) (cr_CredentialQuotaPropagated b)
  && String.eqb (cr_Provider a) (cr_Provider b) && String.eqb (cr_AuthID a) (cr_AuthID b)
  && String.eqb (cr_AuthFile a) (cr_AuthFile b) && String.eqb (cr_Model a) (cr_Model b)
  && String.eqb (cr_Status a) (cr_Status b) && String.eqb (cr_Reason a) (cr_Reason b)
  && time_eq (cr_NextRetryAfter a) (cr_NextRetryAfter b) && time_eq (cr_UpdatedAt a) (cr_UpdatedAt b)
  && cooldownQuotaEqual (cr_Quota a) (cr_Quota b) && cooldownErrorEqual (cr_LastError a) (cr_LastError b)
  && cooldownIndependentStateEqual (cr_IndependentState a) (cr_IndependentState b).
Fixpoint cooldownStateRecordsEqual (a b : list CooldownStateRecord) : bool :=
  match a, b with
  | [], [] => true
  | x :: a, y :: b => cooldownStateRecordEqual x y && cooldownStateRecordsEqual a b
  | _, _ => false
  end.

End CooldownStore.
