(* ===== verification/CooldownReset.v ===== *)
(** * Resetting the quota of a credential, and what clearing leaves

    The theorem about [ResetQuota] of [CooldownStore]. *)
From S2P Require Import Prelude GoLib Weight Thinking AuthTypes QuotaSignals Expiry Availability Classify Cooldown CooldownEnds CooldownStore.
Import AuthTypes QuotaSignals Expiry Availability Classify Cooldown CooldownStore.

Module CooldownReset.

Lemma existsb_none {A} (f : A → bool) l : (∀ x, x ∈ l → f x = false) → existsb f l = false.
Proof.
  intros H. apply not_true_iff_false. intros (x & Hin%list_elem_of_In & Hf)%existsb_exists. by rewrite (H x Hin) in Hf.
Qed.

(** No wait, no quota. *)
Definition clean_quota (q : QuotaState) : Prop := Exceeded q = false ∧ NextRecoverAt q = 0.
Definition clean_auth (a : Auth) : Prop := a_Unavailable a = false ∧ a_NextRetryAfter a = 0 ∧ clean_quota (a_Quota a).
Definition clean (s : ModelState) : Prop :=
  ms_Unavailable s = false ∧ ms_NextRetryAfter s = 0 ∧ clean_quota (ms_Quota s) ∧ ms_Status s ≠ StatusDisabled
  ∧ ms_LastError s = None.
Definition clean_states (a : Auth) : Prop := ∀ k s, a_ModelStates a !! k = Some (Some s) → clean s.

Lemma clean_not_unauthorized a : a_Unavailable a = false → hasUnauthorizedAuthFailure a = false.
Proof. intros H. unfold hasUnauthorizedAuthFailure. destruct (a_LastError a); [|done]. by rewrite H. Qed.
Lemma map_states_lookup f a k : a_ModelStates (map_states f a) !! k = fmap f <$> a_ModelStates a !! k.
Proof. unfold map_states. cbn. apply lookup_fmap. Qed.
Lemma map_states_clean f a : (∀ s, clean s → clean (f s)) → clean_states a → clean_states (map_states f a).
Proof.
  intros Hf Ha k s. rewrite map_states_lookup. destruct (a_ModelStates a !! k) as [[x|]|] eqn:E; cbn; [|done..].
  intros [= <-]. by eapply Hf, Ha.
Qed.
Lemma expire_clean now s : clean s → clean (expire_state now s).
Proof. intros (H1 & H2 & H3 & H4 & H5). unfold expire_state. rewrite H1, andb_false_r. by split_and!. Qed.

(** The fields of a credential that no step here touches. *)
Record same_auth (a b : Auth) : Prop := {
  same_disabled : a_Disabled b = a_Disabled a;
  same_attributes : a_Attributes b = a_Attributes a;
  same_metadata : a_Metadata b = a_Metadata a;
  same_provider : a_Provider b = a_Provider a;
  same_rejected : a_RejectedAccessToken b = a_RejectedAccessToken a;
  same_rejected_siwc : a_RejectedSIWCAccessToken b = a_RejectedSIWCAccessToken a;
}.
#[global] Instance same_auth_preorder : PreOrder same_auth.
Proof. split; [done|]. intros a b c [] []. split; congruence. Qed.

(** The aggregate of clean states. *)
Lemma fold_clean now states ag : (∀ s, s ∈ states → clean s) → ag_quotaExceeded ag = false →
  let ag' := foldl (ag_step now) ag states in
  ag_quotaExceeded ag' = false ∧ (states = [] ∨ ag_allUnavailable ag' = false).
Proof.
  cbv zeta. revert ag. induction states as [|s states IH]; intros ag Hs Hq; [by split; [|left]|]. cbn [foldl].
  destruct (Hs s) as (H1 & H2 & [H3 H4] & H5 & H6); [by left|].
  assert (ag_allUnavailable (ag_step now ag s) = false) as Ha.
  { cbn. unfold state_unavailable. rewrite (proj2 (String.eqb_neq _ _) H5), H1. cbn. apply andb_false_r. }
  assert (∀ states ag, ag_allUnavailable ag = false → ag_allUnavailable (foldl (ag_step now) ag states) = false) as Hall.
  { clear. intros states. induction states as [|x xs IH]; intros ag H; [done|]. cbn. apply IH. cbn. by rewrite H. }
  destruct (IH (ag_step now ag s)) as [E _]; [intros; apply Hs; by right|cbn; by rewrite Hq, H3|].
  split; [done|right]. by apply Hall.
Qed.
Lemma apply_clean a ag now : ag_allUnavailable ag = false → ag_quotaExceeded ag = false → clean_quota (a_Quota a) →
  let b := apply_aggregate a ag now in clean_auth b ∧ a_ModelStates b = a_ModelStates a ∧ same_auth a b
    ∧ a_Status b = a_Status a ∧ a_LastError b = a_LastError a.
Proof.
  intros Hf Hq [H3 H4]. cbv zeta. unfold apply_aggregate. rewrite Hf, Hq. cbv zeta.
  match goal with |- context [Exceeded (a_Quota ?x) && _] => replace (Exceeded (a_Quota x)) with false by (symmetry; exact H3) end.
  cbn [andb]. unfold clean_auth, clean_quota. split_and!; first [reflexivity|split; reflexivity].
Qed.
Lemma aggregated_clean now a : clean_auth a → clean_states a →
  let b := updateAggregatedAvailability a now in clean_auth b ∧ clean_states b ∧ same_auth a b
    ∧ a_Status b = a_Status a ∧ a_LastError b = a_LastError a.
Proof.
  intros (H1 & H2 & H3 & H4) Hs. cbv zeta. unfold updateAggregatedAvailability.
  rewrite (clean_not_unauthorized a H1). unfold credential_quota_live. rewrite H3. cbn [andb].
  destruct (has_states a); cbn [negb]; [|done].
  destruct (fold_clean now (map snd (model_states a)) ag_init) as [Hq Hu]; [|done|].
  { intros s (e & -> & He)%list_elem_of_fmap. destruct e as [k x]. by eapply Hs, CooldownEnds.model_states_elem. }
  set (ag := foldl _ _ _) in *. set (b := set a_ModelStates _ a).
  assert (clean_states b) as Hb by (by apply (map_states_clean (expire_state now) a (expire_clean now))).
  assert (same_auth a b) as Hsame by done.
  destruct (ag_hasState ag) eqn:Eh; cbn [negb]; [|done].
  assert (ag_allUnavailable ag = false) as Hf.
  { destruct Hu as [Hnil|]; [|done]. unfold ag in Eh. by rewrite Hnil in Eh. }
  destruct (apply_clean b ag now Hf Hq (conj H3 H4)) as (A1 & A2 & A3 & A4 & A5). clearbody ag.
  split_and!; [exact A1|intros k s; rewrite A2; apply Hb|exact (transitivity Hsame A3)|exact A4|exact A5].
Qed.

(** ** The steps of [ResetQuota] *)

Lemma clear_state_clean now s : clean s → clean (clear_state now s).
Proof.
  intros (H1 & H2 & H3 & H4 & H5). unfold clear_state. destruct (cooling_state s); [|by split_and!].
  unfold clean, clean_quota. split_and!; first [reflexivity|exact H4|exact H5].
Qed.
Lemma cooling_clean a : cooling_auth a = false → clean_auth a.
Proof. unfold cooling_auth, clean_auth, clean_quota. intros H. bprop. by split_and!. Qed.
Lemma clear_clean now a : hasUnauthorizedAuthFailure a = false → clean_states a →
  let b := (clearCooldownStateForAuth a now).1 in clean_auth b ∧ clean_states b ∧ same_auth a b
    ∧ a_Status b = a_Status a ∧ a_LastError b = a_LastError a.
Proof.
  intros Hu Hs. cbv zeta. unfold clearCooldownStateForAuth. rewrite Hu. cbv zeta.
  set (a1 := if cooling_auth a then _ else a).
  assert (clean_auth a1 ∧ a_ModelStates a1 = a_ModelStates a ∧ same_auth a a1 ∧ a_Status a1 = a_Status a
    ∧ a_LastError a1 = a_LastError a) as (A1 & A2 & A3 & A4 & A5).
  { unfold a1. destruct (cooling_auth a) eqn:E; [|by split_and!; [apply cooling_clean|..]].
    unfold clean_auth, clean_quota. split_and!; first [reflexivity|split; reflexivity]. }
  clearbody a1. set (a2 := map_states (clear_state now) a1).
  assert (clean_states a2) as B1 by (apply map_states_clean; [apply clear_state_clean|intros k s; rewrite A2; apply Hs]).
  assert (clean_auth a2 ∧ same_auth a1 a2 ∧ a_Status a2 = a_Status a1 ∧ a_LastError a2 = a_LastError a1) as (B2 & B3 & B4 & B5)
    by (split_and!; first [exact A1|reflexivity|split; reflexivity]).
  clearbody a2. set (a3 := if has_states a2 then _ else a2).
  assert (clean_auth a3 ∧ clean_states a3 ∧ same_auth a2 a3 ∧ a_Status a3 = a_Status a2 ∧ a_LastError a3 = a_LastError a2)
    as (C1 & C2 & C3 & C4 & C5) by (unfold a3; destruct (has_states a2); [by apply aggregated_clean|by split_and!]).
  clearbody a3. assert (same_auth a a3) as D by (transitivity a1; [|transitivity a2]; done).
  assert (a_Status a3 = a_Status a ∧ a_LastError a3 = a_LastError a) as [D1 D2] by (split; congruence).
  cbn [fst]. destruct (_ || _); [|by split_and!]. split_and!; [exact C1|exact C2|destruct D; by split|exact D1|exact D2].
Qed.

Lemma clean_no_error now a : clean_states a → hasModelError a now = false.
Proof.
  intros Hs. unfold hasModelError. apply existsb_none. intros [k s] (H1 & _ & _ & _ & H5)%CooldownEnds.model_states_elem%Hs.
  by rewrite H5, H1, !andb_false_r.
Qed.
(** A clean credential is blocked by an expired token alone. *)
Lemma clean_unblocked `{GP : GoParse} ctx model t a : clean_auth a → clean_states a → a_Disabled a = false →
  a_Status a ≠ StatusDisabled → blocked_for ctx model t a = token_expired ctx a t.
Proof.
  intros (H1 & H2 & H3 & H4) Hs Hd Hst. rewrite blocked_for_eq. rewrite Hd, (proj2 (String.eqb_neq _ _) Hst). cbn [orb].
  rewrite (clean_not_unauthorized a H1). unfold credential_quota_active. rewrite H3. cbn [orb andb].
  destruct (token_expired ctx a t); [done|]. cbn [orb]. destruct (negb _ && has_states a) eqn:E.
  2: { rewrite H1. match goal with |- context [if ?q then false else false] => destruct q end; reflexivity. }
  apply existsb_none. intros [k s] (E1 & E2 & [E3 E4] & E5 & _)%CooldownEnds.model_states_elem%Hs. unfold key_blocks, state_blocks, state_block.
  cbn [fst snd]. rewrite (proj2 (String.eqb_neq _ _) E5), E1, E3. cbn. apply andb_false_r.
Qed.

(** No model is filed under a blank name. *)
Definition all_named (a : Auth) : Prop := ∀ k o, a_ModelStates a !! k = Some o → named k = true.
Lemma reset_states now a : all_named a →
  clean_states (a <| a_ModelStates := map_imap (fun key state =>
      Some (if named key then (fun s => resetModelState s now) <$> state else state)) (a_ModelStates a) |>).
Proof.
  intros Hn k s. cbn. rewrite map_lookup_imap. destruct (a_ModelStates a !! k) as [o|] eqn:E; [|done]. cbn.
  rewrite (Hn k o E). destruct o as [x|]; cbn; [|done]. intros [= <-]. unfold clean, clean_quota.
  split_and!; first [reflexivity|discriminate].
Qed.

(** The credential before the last two fields are set. *)
Lemma reset_clean reg now a : hasUnauthorizedAuthFailure a = false → all_named a →
  let b := (ResetQuota reg a now).1 in clean_auth b ∧ clean_states b ∧ same_auth a b
    ∧ if a_Disabled a || String.eqb (a_Status a) StatusDisabled then a_Status b = a_Status a
      else a_Status b = StatusActive ∧ a_LastError b = None.
Proof.
  intros Hu Hn. cbv zeta. unfold ResetQuota. set (a1 := set a_ModelStates _ a). pose proof (reset_states now a Hn : clean_states a1) as S1.
  assert (same_auth a a1 ∧ hasUnauthorizedAuthFailure a1 = false ∧ a_Status a1 = a_Status a) as (T1 & T2 & T3)
    by (split; [by split|by split]).
  clearbody a1. destruct (clear_clean now a1 T2 S1) as (A1 & A2 & A3 & A4 & A5). destruct (clearCooldownStateForAuth a1 now) as [a2 changed].
  cbn [fst] in *. set (a3 := if negb changed && has_states a2 then _ else a2).
  assert (clean_auth a3 ∧ clean_states a3 ∧ same_auth a2 a3 ∧ a_Status a3 = a_Status a2) as (B1 & B2 & B3 & B4).
  { unfold a3. destruct (_ && _); [|by split_and!]. by destruct (aggregated_clean now a2 A1 A2) as (?&?&?&?&?). }
  clearbody a3. cbv zeta. rewrite (clean_no_error now a3 B2), (clean_not_unauthorized a3 (proj1 B1)). cbn [negb]. rewrite !andb_true_r.
  assert (same_auth a a3) as D by (transitivity a1; [|transitivity a2]; done).
  assert (a_Disabled a3 || String.eqb (a_Status a3) StatusDisabled = a_Disabled a || String.eqb (a_Status a) StatusDisabled) as ->
    by (rewrite (same_disabled _ _ D); congruence).
  destruct (_ || _); cbn [negb fst]; (split; [exact B1|split; [exact B2|split; [destruct D; by split|]]]); [|by split].
  cbn. congruence.
Qed.

Lemma reset_unauthorized reg now a : hasUnauthorizedAuthFailure a = true →
  hasUnauthorizedAuthFailure (ResetQuota reg a now).1 = true.
Proof.
  intros Hu. unfold ResetQuota. set (a1 := set a_ModelStates _ a). assert (hasUnauthorizedAuthFailure a1 = true) as T1 by exact Hu.
  clearbody a1. unfold clearCooldownStateForAuth. rewrite T1. cbn [negb andb]. set (a2 := if has_states a1 then _ else a1).
  assert (hasUnauthorizedAuthFailure a2 = true) as T2.
  { unfold a2. destruct (has_states a1); [|exact T1]. unfold updateAggregatedAvailability. rewrite T1. revert T1.
    unfold hasUnauthorizedAuthFailure. cbn [a_LastError a_Unavailable a_Status a_NextRefreshAfter a_NextRetryAfter set eta Auth_eta].
    destruct (a_LastError a1); [|done]. by destruct (a_Unavailable a1). }
  clearbody a2. cbv zeta. rewrite T2, andb_false_r. exact T2.
Qed.
Lemma token_same `{GP : GoParse} ctx a b t : same_auth a b → token_expired ctx b t = token_expired ctx a t.
Proof.
  intros [E1 E2 E3 E4 E5 E6]. destruct a, b. cbn in *. subst. reflexivity.
Qed.

(** C27 Resetting the quota of a credential that is enabled and not unauthorized leaves it
    blocked for no model, now or later, unless its token has expired; it is active again
    and its error is forgotten.  One that is disabled or unauthorized stays blocked. *)
Theorem reset_unblocks `{GP : GoParse} (ctx : ReqCtx) (registeredModels : list string) (a : Auth) (now t : time) (model : string) :
  all_named a →
  let b := (ResetQuota registeredModels a now).1 in
  if a_Disabled a || String.eqb (a_Status a) StatusDisabled || hasUnauthorizedAuthFailure a
  then blocked_for ctx model t b = true
  else blocked_for ctx model t b = token_expired ctx a t ∧ a_Status b = StatusActive ∧ a_LastError b = None.
Proof.
  intros Hn. cbv zeta. destruct (hasUnauthorizedAuthFailure a) eqn:Hu.
  { rewrite orb_true_r, blocked_for_eq, (reset_unauthorized _ _ _ Hu), orb_true_r. done. }
  rewrite orb_false_r. destruct (reset_clean registeredModels now a Hu Hn) as (B1 & B2 & B3 & B4).
  set (b := (ResetQuota registeredModels a now).1) in *. clearbody b. pose proof (same_disabled _ _ B3) as Hd.
  destruct (a_Disabled a || String.eqb (a_Status a) StatusDisabled) eqn:E.
  { rewrite blocked_for_eq, Hd, B4, E. done. }
  apply orb_false_iff in E as [E1 E2]. destruct B4 as [B4 B5]. split; [|by split].
  rewrite (clean_unblocked ctx model t b B1 B2); [|by rewrite Hd|by rewrite B4]. by apply token_same.
Qed.

End CooldownReset.
