(* ===== verification/CooldownRestore.v ===== *)
(** * Restoring cooldowns

    What [RestoreCooldownStates] of [CooldownStore] does to credentials that already
    run, and that a restart gives a fresh credential the cooldowns that were saved. *)
From S2P Require Import Prelude GoLib Weight Thinking AuthTypes QuotaSignals Expiry Availability Classify Cooldown CooldownEnds ResultProps CooldownStore.
Import AuthTypes QuotaSignals Expiry Availability Classify Cooldown ResultProps CooldownStore.

Module CooldownRestore.

(** ** A record is added to a state *)

Lemma merged_holds s r now until : holds_until s until → holds_until (mergeModelState s (record_state r now)) until.
Proof. apply holds_le, merge_upper. Qed.
Lemma merged_record s r now : holds_until (mergeModelState s (record_state r now)) (cr_NextRetryAfter r).
Proof. apply (holds_le (record_state r now)); [apply merge_upper|]. split; [done|]. cbn. lia. Qed.
Lemma beneath_holds a r now live s until : holds_until s until → holds_until (beneath_wrap a r now live s) until.
Proof.
  intros [H1 H2]. unfold beneath_wrap. cbv zeta. set (s1 := if isDevinQuotaExhaustionMessage _ then s else _).
  assert (ms_NextRetryAfter s1 = ms_NextRetryAfter s) as E by (unfold s1; by destruct (isDevinQuotaExhaustionMessage _)).
  split; [done|]. cbn. rewrite E. destruct (before _ _) eqn:Eb; bprop; lia.
Qed.
Lemma wrap_holds r live s until : holds_until s until → holds_until (wrap r live s) until.
Proof. done. Qed.
Lemma restore_state_holds a r now s until : holds_until s until → holds_until (restore_state a r now s) until.
Proof.
  intros H%(merged_holds s r now). unfold restore_state. repeat case_if; [by apply beneath_holds|by apply wrap_holds|done].
Qed.
Lemma restore_state_record a r now s : holds_until (restore_state a r now s) (cr_NextRetryAfter r).
Proof.
  pose proof (merged_record s r now) as H. unfold restore_state. repeat case_if; [by apply beneath_holds|by apply wrap_holds|done].
Qed.

(** ** A record is restored into a credential *)

Definition fixed (key : string) : Prop := key ≠ "" ∧ canonicalModelKey key = key.
Definition record_key (r : CooldownStateRecord) : string := canonicalModelKey (trim_space (cr_Model r)).

Lemma model_state_spec a k s : model_state a k = Some s ↔ a_ModelStates a !! k = Some (Some s).
Proof. unfold model_state. destruct (a_ModelStates a !! k) as [[x|]|]; cbn; naive_solver. Qed.
Lemma ensure_lookup a model s : (ensureModelState a model).2 = s →
  a_ModelStates (ensureModelState a model).1 !! canonicalModelKey model = Some (Some s).
Proof.
  unfold ensureModelState. destruct (model_state _ _) as [x|] eqn:E; cbn [fst snd]; intros <-; [by apply model_state_spec|].
  unfold set_model_state. cbn. by rewrite lookup_insert_eq.
Qed.
Lemma restore_model_covers r now a key until : fixed key → now < until → covers a key until →
  covers (restore_model r now a) key until.
Proof.
  intros [Hne Hfix] Hn Hc. apply covers_at_covers; [done|]. unfold restore_model.
  pose proof (ensure_covers a (trim_space (cr_Model r)) key until Hne Hfix Hc) as H1.
  pose proof (ensure_lookup a (trim_space (cr_Model r)) _ eq_refl) as H2.
  destruct (ensureModelState a (trim_space (cr_Model r))) as [a1 s]. cbn [fst snd] in *.
  apply aggregated_covers; [done|]. unfold touch_restored.
  destruct H1 as (x & Hx & Hh). destruct (decide (record_key r = key)) as [<-|Hk].
  - exists (restore_state a1 r now s). split; [cbn; by rewrite lookup_insert_eq|]. apply restore_state_holds.
    unfold record_key in Hx. rewrite H2 in Hx. by simplify_eq.
  - exists x. split; [|done]. cbn. by rewrite lookup_insert_ne.
Qed.
Lemma restore_model_record r now a : now < cr_NextRetryAfter r →
  covers_at (restore_model r now a) (record_key r) (cr_NextRetryAfter r).
Proof.
  intros Hn. unfold restore_model. destruct (ensureModelState a (trim_space (cr_Model r))) as [a1 s].
  apply aggregated_covers; [done|]. eexists. split; [cbn; by rewrite lookup_insert_eq|]. apply restore_state_record.
Qed.
Lemma restore_record_covers cfg r now a key until : fixed key → now < until → covers a key until →
  covers (restore_record cfg r now a) key until.
Proof.
  intros Hf Hn Hc. unfold restore_record. case_if; [done|]. case_if; [done|]. by apply restore_model_covers.
Qed.

(** ** Many records *)

(** The records for one credential, restored into it. *)
Definition for_id (id : string) (r : CooldownStateRecord) : bool := String.eqb (trim_space (cr_AuthID r)) id.
Definition of_credential (r : CooldownStateRecord) : bool := String.eqb (trim_space (cr_Model r)) "".
Definition restore_all (cfg : CoolingConfig) (now : time) (rs : list CooldownStateRecord) (a : Auth) : Auth :=
  foldl (fun a r => restore_record cfg r now a) a rs.
Lemma restore_fold cfg now rs auths id : id ≠ "" →
  foldl (fun auths r => restoreCooldownRecordLocked cfg auths r now) auths rs !! id
  = restore_all cfg now (List.filter (for_id id) rs) <$> auths !! id.
Proof.
  intros Hid. revert auths. induction rs as [|r rs IH]; intros auths; cbn [foldl List.filter]; [by destruct (auths !! id)|].
  rewrite IH. unfold restoreCooldownRecordLocked, for_id at 2. destruct (String.eqb_spec (trim_space (cr_AuthID r)) id) as [E|E].
  - rewrite (proj2 (String.eqb_neq (trim_space (cr_AuthID r)) "")) by congruence. rewrite E, lookup_alter_eq.
    destruct (auths !! id); [|done]. done.
  - destruct (String.eqb _ ""); [done|]. by rewrite lookup_alter_ne.
Qed.
Lemma filter_swap {A} (f g : A → bool) l : List.filter f (List.filter g l) = List.filter g (List.filter f l).
Proof.
  induction l as [|x l IH]; [done|]. cbn. destruct (f x) eqn:Ef, (g x) eqn:Eg; cbn; rewrite ?Ef, ?Eg, ?IH; done.
Qed.
(** The order of [RestoreCooldownStates]. *)
Definition restore_order (rs : list CooldownStateRecord) : list CooldownStateRecord :=
  List.filter (fun r => negb (of_credential r)) rs ++ List.filter of_credential rs.
Lemma restore_at cfg now rs auths id : id ≠ "" →
  RestoreCooldownStates cfg auths rs now !! id = restore_all cfg now (restore_order (List.filter (for_id id) rs)) <$> auths !! id.
Proof.
  intros Hid. unfold RestoreCooldownStates. rewrite restore_fold by done. f_equal. f_equal. unfold restore_order.
  rewrite List.filter_app. f_equal; apply filter_swap.
Qed.

(** ** Which credentials keep taking records *)

(** The error of a credential whose sign-in was refused. *)
Definition refused_sign_in (e : Error) : bool := (err_HTTPStatus e =? 401) || equal_fold (err_Code e) "unauthorized".
Definition signed_in (a : Auth) : Prop := ∀ e, a_LastError a = Some e → refused_sign_in e = false ∨ a_NextRetryAfter a ≠ 0.
(** The override of a provider depends on the identity of the credential. *)
Definition override_by_identity (cfg : CoolingConfig) : Prop := ∀ a b,
  a_Provider a = a_Provider b → a_Attributes a = a_Attributes b → a_Metadata a = a_Metadata b →
  cfg_provider_override cfg a = cfg_provider_override cfg b.
Record takes (a b : Auth) : Prop := {
  takes_disabled : a_Disabled b = a_Disabled a;
  takes_provider : a_Provider b = a_Provider a;
  takes_attributes : a_Attributes b = a_Attributes a;
  takes_metadata : a_Metadata b = a_Metadata a;
  takes_status : a_Status b = a_Status a ∨ a_Status b = StatusError;
}.
#[global] Instance takes_preorder : PreOrder takes.
Proof.
  split; [intros a; split; auto|]. intros a b c [A1 A2 A3 A4 A5] [B1 B2 B3 B4 B5]. split; [congruence..|].
  destruct B5 as [B5|B5]; [rewrite B5|]; auto.
Qed.
Lemma signed_in_fine a : signed_in a → hasUnauthorizedAuthFailure a = false.
Proof.
  intros H. unfold hasUnauthorizedAuthFailure. destruct (a_LastError a) as [e|] eqn:E; [|done]. destruct (H e E) as [Hr|Hr].
  - unfold refused_sign_in in Hr. rewrite Hr. apply andb_false_r.
  - rewrite (proj2 (is_zero_false _) Hr). by rewrite andb_false_r.
Qed.
Lemma cooling_same cfg a b : override_by_identity cfg → takes a b →
  quotaCooldownDisabledForAuthWithConfig b cfg = quotaCooldownDisabledForAuthWithConfig a cfg.
Proof.
  intros Hc [_ H2 H3 H4 _]. unfold quotaCooldownDisabledForAuthWithConfig. rewrite (Hc b a H2 H3 H4).
  assert (DisableCoolingOverride b = DisableCoolingOverride a) as -> by (unfold DisableCoolingOverride; by rewrite H4).
  done.
Qed.
Lemma takes_restorable cfg a b : override_by_identity cfg → takes a b → signed_in b → restorable cfg a = true → restorable cfg b = true.
Proof.
  intros Hc Ht Hs. unfold restorable. rewrite (cooling_same cfg a b Hc Ht), (signed_in_fine b Hs), (takes_disabled a b Ht).
  rewrite !negb_true_iff, !orb_false_iff. intros [[[H1 H2] H3] _]. split_and!; [done| |done|done].
  destruct (takes_status a b Ht) as [->| ->]; done.
Qed.

Definition calm (a : Auth) : Prop := ∀ e, a_LastError a = Some e → refused_sign_in e = false.
Lemma calm_signed_in a : calm a → signed_in a.
Proof. intros H e E. left. by apply H. Qed.
Lemma aggregated_takes a now : takes a (updateAggregatedAvailability a now).
Proof.
  unfold updateAggregatedAvailability, clearAggregatedAvailability.
  unfold apply_aggregate. cbv zeta.
  repeat match goal with |- takes _ (if ?b then _ else _) => destruct b end; (split; [reflexivity..|left; reflexivity]).
Qed.
Lemma restore_model_takes r now a : takes a (restore_model r now a) ∧ a_LastError (restore_model r now a) = a_LastError a.
Proof.
  unfold restore_model. pose proof (ensure_frame a (trim_space (cr_Model r))) as Hf.
  destruct (ensureModelState a (trim_space (cr_Model r))) as [a1 s]. cbn [fst] in Hf. rewrite aggregated_last_error.
  assert (takes a a1 ∧ a_LastError a1 = a_LastError a) as [H1 H2] by (rewrite Hf; split; [split; cbn; auto|reflexivity]).
  clear Hf. split; [|exact H2]. set (a2 := touch_restored _ _ _).
  assert (takes a1 a2) as H3 by (split; cbn; auto). clearbody a2. transitivity a1; [done|]. transitivity a2; [done|]. apply aggregated_takes.
Qed.
Lemma restore_all_app cfg now xs ys a : restore_all cfg now (xs ++ ys) a = restore_all cfg now ys (restore_all cfg now xs a).
Proof. apply foldl_app. Qed.
Lemma restore_all_covers cfg now rs a key until : fixed key → now < until → covers a key until →
  covers (restore_all cfg now rs a) key until.
Proof. intros Hf Hn. revert a. induction rs as [|r rs IH]; intros a Hc; [done|]. by apply IH, restore_record_covers. Qed.
Lemma models_calm cfg now rs a : calm a → (∀ r, r ∈ rs → of_credential r = false) →
  takes a (restore_all cfg now rs a) ∧ calm (restore_all cfg now rs a).
Proof.
  intros Hc Hm. revert a Hc. induction rs as [|r rs IH]; intros a Hc; [split; [reflexivity|exact Hc]|]. cbn [restore_all foldl].
  assert (takes a (restore_record cfg r now a) ∧ calm (restore_record cfg r now a)) as [H1 H2].
  { pose proof (Hm r (list_elem_of_here _ _)) as Er. unfold of_credential in Er. unfold restore_record. rewrite Er.
    case_if; [split; [reflexivity|exact Hc]|].
    destruct (restore_model_takes r now a) as [T1 T2]. split; [done|]. intros e. rewrite T2. apply Hc. }
  destruct (IH (fun r' Hr => Hm r' (list_elem_of_further _ _ _ Hr)) _ H2) as [H3 H4]. split; [by etransitivity|exact H4].
Qed.

(** C22 Restoring saved cooldowns loosens no cooldown of a model that a running credential
    already has, and every saved one that is still to end blocks its model again: until
    the saved time, whatever the other records are and in whatever order they come. *)
Theorem restore_only_adds `{GP : GoParse} (cfg : CoolingConfig) (auths : gmap string Auth) (records : list CooldownStateRecord)
    (now : time) (id : string) (a : Auth) :
  override_by_identity cfg → id ≠ "" → 0 ≤ now → auths !! id = Some a → restorable cfg a = true → calm a →
  ∃ b, RestoreCooldownStates cfg auths records now !! id = Some b
    ∧ (∀ key until, fixed key → now < until → covers a key until → covers b key until)
    ∧ (∀ r, r ∈ records → trim_space (cr_AuthID r) = id → of_credential r = false → fixed (record_key r) →
        ∀ ctx model t, model ≠ "" → canonicalModelKey model = record_key r → now ≤ t < cr_NextRetryAfter r →
        blocked_for ctx model t b = true).
Proof.
  intros Hcfg Hid Hnow Ha Hr Hc. rewrite restore_at, Ha by done. eexists. split; [done|]. split.
  { intros key until Hf Hn. by apply restore_all_covers. }
  intros r Hin Eid Em Hf ctx model t Hne Hk Ht. apply (covers_blocked ctx _ (record_key r) (cr_NextRetryAfter r)); [|lia|done|done].
  unfold restore_order. rewrite restore_all_app. apply restore_all_covers; [done|lia|].
  assert (r ∈ List.filter (fun r => negb (of_credential r)) (List.filter (for_id id) records)) as Hin'.
  { apply list_elem_of_In, List.filter_In. split; [|by rewrite Em]. apply List.filter_In. split; [by apply list_elem_of_In|].
    unfold for_id. by apply String.eqb_eq. }
  apply list_elem_of_split in Hin' as (xs & ys & E). rewrite E, restore_all_app. cbn [restore_all foldl].
  assert (∀ x, x ∈ xs → of_credential x = false) as Hxs.
  { intros x Hx. assert (x ∈ List.filter (fun r => negb (of_credential r)) (List.filter (for_id id) records)) as Hx' by (rewrite E; set_solver).
    apply list_elem_of_In, List.filter_In in Hx' as [_ Hx']. by apply negb_true_iff in Hx'. }
  destruct (models_calm cfg now xs a Hc Hxs) as [H1 H2]. fold (restore_all cfg now xs a). set (a1 := restore_all cfg now xs a) in *.
  pose proof (takes_restorable cfg a a1 Hcfg H1 (calm_signed_in a1 H2) Hr) as Hr1.
  apply (restore_all_covers cfg now ys); [done|lia|]. apply covers_at_covers; [apply Hf|]. unfold restore_record. rewrite Hr1.
  assert (record_live r now = true) as -> by (unfold record_live; rewrite (proj2 (is_zero_false _)) by lia; cbn; apply after_spec; lia).
  cbn [negb orb]. unfold of_credential in Em. rewrite Em. apply restore_model_record. lia.
Qed.

End CooldownRestore.
