(* ===== verification/CooldownRestart.v ===== *)
(** * A restart keeps the cooldowns

    Credentials that are fresh after a restart, given the records that were saved before
    it, record the cooldowns they had: a theorem on [cooldownStateRecordsSnapshot] and
    [RestoreCooldownStates] of [CooldownStore] together. *)
From S2P Require Import Prelude GoLib Weight Thinking AuthTypes QuotaSignals Expiry Availability Classify Cooldown CooldownEnds ResultProps CooldownStore CooldownRestore.
Import AuthTypes QuotaSignals Expiry Availability Classify Cooldown ResultProps CooldownStore CooldownRestore.

Module CooldownRestart.

(** ** Keys *)

Lemma fixed_trim k : fixed k → trim_space k = k.
Proof.
  intros [Hne Hk]. unfold canonicalModelKey in Hk. cbv zeta in Hk. case_if_in Hk; [congruence|].
  case_if_in Hk; [done|]. rewrite <- Hk. apply trim_space_idem.
Qed.
Lemma fixed_normal k : fixed k → normal_key k = k.
Proof. intros [Hne Hk]. unfold normal_key. by rewrite Hk, (proj2 (String.eqb_neq _ _) Hne). Qed.
(** Keys that are all canonical stay as they are. *)
Lemma normalize_same a : (∀ k o, a_ModelStates a !! k = Some o → fixed k) → normalizeModelStates a = a.
Proof.
  intros Hf. unfold normalizeModelStates.
  assert (∀ l, NoDup (l.*1) → (∀ k o, (k, o) ∈ l → fixed k) →
    (∀ k, is_Some ((foldl normalize_step (∅, false) l).1 !! k) → k ∈ l.*1) ∧ (foldl normalize_step (∅, false) l).2 = false) as H.
  { intros l. induction l as [|[k o] l IH] using rev_ind; intros Hnd Hk; [split; [intros k [x Hx]; done|done]|].
    rewrite fmap_app in Hnd. apply NoDup_app in Hnd as (Hnd & Hnew & _).
    destruct IH as [H1 H2]; [done|intros k' o' Hin; apply (Hk k' o'); set_solver|]. rewrite foldl_app.
    destruct (foldl normalize_step (∅, false) l) as [m ch]. cbn [fst snd] in H1, H2. subst ch. cbn. fold (normal_key k).
    rewrite (fixed_normal k) by (apply (Hk k o); set_solver). assert (m !! k = None) as ->.
    { apply eq_None_not_Some. intros Hx%H1. specialize (Hnew k Hx). set_solver. }
    cbn. rewrite String.eqb_refl. split; [|done]. intros k' [x Hx]. rewrite fmap_app. apply elem_of_app.
    destruct (decide (k' = k)) as [->|]; [right; set_solver|]. rewrite lookup_insert_ne in Hx by done. left. apply H1. eauto. }
  destruct (H (map_to_list (a_ModelStates a))) as [_ E]; [apply NoDup_fst_map_to_list| |].
  { intros k o Hin%elem_of_map_to_list. by apply (Hf k o). }
  destruct (foldl normalize_step _ _) as [m ch]. cbn in E. by rewrite E.
Qed.

(** ** One model *)

(** What a manager keeps of a state that cools down: a time for an exceeded quota, a flag
    for what a wrap covers. *)
Record kept (s : ModelState) : Prop := {
  kept_updated : 0 < ms_UpdatedAt s;
  kept_recover : 0 ≤ NextRecoverAt (ms_Quota s);
  kept_exceeded : Exceeded (ms_Quota s) = true → NextRecoverAt (ms_Quota s) ≠ 0;
  kept_level : 0 ≤ BackoffLevel (ms_Quota s);
  kept_wrapped : ms_shadow s ≠ None ∨ trim_space (Reason (ms_Quota s)) = "credential_quota" → ms_propagated s = true;
}.
(** The state that a record gives to a credential without one. *)
Definition restored (r : CooldownStateRecord) (now : time) : ModelState :=
  let state := record_state r now in
  if wrapped_record r then state <| ms_propagated := true |> <| ms_shadow := cloneShallow <$> cr_IndependentState r |>
  else state.
(** A record that says all that its state would say again. *)
Record sound (r : CooldownStateRecord) (now : time) : Prop := {
  sound_live : now < cr_NextRetryAfter r;
  sound_updated : 0 < cr_UpdatedAt r;
  sound_recover : 0 ≤ NextRecoverAt (cr_Quota r);
  sound_exceeded : Exceeded (cr_Quota r) = true → NextRecoverAt (cr_Quota r) ≠ 0;
  sound_level : 0 ≤ BackoffLevel (cr_Quota r);
  sound_observed : cr_Quota r = cooldownFieldsOf (cr_Quota r);
}.
Lemma sound_quota r now : sound r now → record_quota r = cr_Quota r.
Proof.
  intros H. unfold record_quota. cbv zeta. destruct (Exceeded (cr_Quota r)) eqn:E; [|done].
  by rewrite (proj2 (is_zero_false _) (sound_exceeded _ _ H E)).
Qed.
Lemma later_zero x : 0 ≤ x → later 0 x = x.
Proof. intros H. unfold later. destruct (after x 0) eqn:E; bprop; lia. Qed.
Lemma or_string_nil s : or_string s "" = s.
Proof. unfold or_string. by destruct (String.eqb_spec s ""). Qed.
Lemma merged_active r now : sound r now → 0 ≤ now → mergeModelState active_state (record_state r now) = record_state r now.
Proof.
  intros [H1 H2 H3 H4 H5 H6] Hn. pose proof (sound_quota r now (Build_sound _ _ H1 H2 H3 H4 H5 H6)) as Eq.
  assert (ms_UpdatedAt (record_state r now) = cr_UpdatedAt r) as Eu.
  { cbn. unfold record_updated. by rewrite (proj2 (is_zero_false _)) by lia. }
  assert (∀ q, mergeQuotaObservation q (cr_Quota r) = q) as Em by (intros q; unfold mergeQuotaObservation; by rewrite H6).
  unfold mergeModelState. rewrite Eu. cbn [ms_UpdatedAt active_state zero_model_state set eta ModelState_eta].
  rewrite (proj2 (after_spec (cr_UpdatedAt r) 0) H2). cbn. rewrite Eq, Em, !or_string_nil, !later_zero, Z.max_r by lia.
  unfold record_state. rewrite Eq. unfold record_updated. rewrite (proj2 (is_zero_false (cr_UpdatedAt r))) by lia.
  rewrite H6. unfold cooldownFieldsOf. repeat case_if; by destruct (cr_LastError r).
Qed.
(** A credential whose own quota is not exceeded. *)
Definition unwrapped (a : Auth) : Prop := Reason (a_Quota a) ≠ "credential_quota".
Lemma restore_active a r now : sound r now → 0 ≤ now → unwrapped a → restore_state a r now active_state = restored r now.
Proof.
  intros H Hn Hw. unfold restore_state. rewrite (merged_active r now H Hn).
  assert (credential_quota_live a now = false) as -> by (unfold credential_quota_live; rewrite (proj2 (String.eqb_neq _ _) Hw); by rewrite andb_false_r).
  cbn. rewrite andb_false_r. unfold restored, wrap. cbn. case_if; [|done]. by destruct (cr_IndependentState r).
Qed.
(** What the restored state says is what its record said. *)
Lemma reason_again m q e : cooldownReason (trim_space (cooldownReason m q e)) q e = cooldownReason m q e.
Proof.
  unfold cooldownReason. cbv zeta. destruct (String.eqb_spec (trim_space (Reason q)) "") as [E|E]; cbn [negb]; [|done].
  destruct (String.eqb_spec (trim_space m) "") as [Em|Em]; cbn [negb].
  2: { rewrite !trim_space_idem. by rewrite (proj2 (String.eqb_neq _ _) Em). }
  destruct e as [e|]; [|done]. destruct (String.eqb_spec (trim_space (err_Code e)) "") as [Ec|Ec]; cbn [negb]; rewrite !trim_space_idem.
  - by destruct (String.eqb_spec (trim_space (err_Message e)) "").
  - by rewrite (proj2 (String.eqb_neq _ _) Ec).
Qed.

Lemma reason_fields m q e : cooldownReason m (cooldownFieldsOf q) e = cooldownReason m q e.
Proof. done. Qed.

(** The fields of a credential that its records name. *)
Definition names (a : Auth) := (a_ID a, a_Provider a, a_FileName a, a_Attributes a).
Lemma names_file a b : names a = names b → cooldownAuthFile a = cooldownAuthFile b ∧ a_ID a = a_ID b ∧ a_Provider a = a_Provider b.
Proof. intros [= H1 H2 H3 H4]. unfold cooldownAuthFile. by rewrite H3, H4, H1, H2. Qed.
Definition live_at (s : ModelState) (now : time) : bool :=
  ms_Unavailable s && negb (is_zero (ms_NextRetryAfter s)) && after (ms_NextRetryAfter s) now.
Lemma live_spec s now : live_at s now = true ↔ ms_Unavailable s = true ∧ ms_NextRetryAfter s ≠ 0 ∧ now < ms_NextRetryAfter s.
Proof. unfold live_at. rewrite !andb_true_iff, negb_true_iff, is_zero_false, after_spec. naive_solver. Qed.
Lemma record_some a k s now : fixed k → live_at s now = true →
  modelCooldownStateRecord a k s now = Some
    {| cr_Provider := trim_space (a_Provider a); cr_AuthID := a_ID a; cr_AuthFile := cooldownAuthFile a;
       cr_Model := k; cr_Status := "cooling"; cr_NextRetryAfter := ms_NextRetryAfter s;
       cr_Reason := cooldownReason (ms_StatusMessage s) (ms_Quota s) (ms_LastError s);
       cr_Quota := cooldownFieldsOf (ms_Quota s); cr_LastError := ms_LastError s; cr_UpdatedAt := ms_UpdatedAt s;
       cr_IndependentState := cloneShallow <$> ms_shadow s; cr_CredentialQuotaPropagated := ms_propagated s |}.
Proof.
  intros Hf (H1 & H2 & H3)%live_spec. unfold modelCooldownStateRecord. rewrite (fixed_trim k Hf). cbv zeta.
  by rewrite (proj2 (String.eqb_neq k "") (proj1 Hf)), H1, (proj2 (after_spec _ _) H3), (proj2 (is_zero_false _) H2).
Qed.
Lemma record_none a k s now : live_at s now = false → modelCooldownStateRecord a k s now = None.
Proof.
  intros H. unfold live_at in H. unfold modelCooldownStateRecord. cbv zeta. destruct (String.eqb _ ""); [done|].
  destruct (ms_Unavailable s), (is_zero (ms_NextRetryAfter s)), (after (ms_NextRetryAfter s) now); done.
Qed.
Lemma live_later s t now : t ≤ now → live_at s now = true → live_at s t = true.
Proof. rewrite !live_spec. intros Ht (H1 & H2 & H3). split_and!; [done..|lia]. Qed.
Lemma record_sound a k s now r : fixed k → kept s → live_at s now = true → modelCooldownStateRecord a k s now = Some r → sound r now.
Proof.
  intros Hf [K1 K2 K3 K4 K5] Hl. rewrite (record_some a k s now Hf Hl). intros [= <-]. apply live_spec in Hl as (_ & _ & Hl).
  by split.
Qed.
Lemma clone_clone (o : option ModelState) : cloneShallow <$> (cloneShallow <$> o) = cloneShallow <$> o.
Proof. by destruct o. Qed.
Lemma record_again a c k s now saved r : names a = names c → fixed k → kept s → saved ≤ now → live_at s now = true →
  modelCooldownStateRecord a k s saved = Some r →
  modelCooldownStateRecord c k (restored r now) now = modelCooldownStateRecord a k s now.
Proof.
  intros Hn Hf Hk Hs Hl. pose proof (live_later s saved now Hs Hl) as Hl0. rewrite (record_some a k s saved Hf Hl0).
  intros [= <-]. match goal with |- context [restored ?x now] => set (r := x) end.
  assert (sound r now) as Hr by (apply (record_sound a k s now r Hf Hk Hl); by rewrite (record_some a k s now Hf Hl)).
  pose proof (sound_quota r now Hr) as Eq. destruct Hk as [K1 K2 K3 K4 K5]. destruct (names_file a c Hn) as (F1 & F2 & F3).
  assert (live_at (restored r now) now = true) as Hl'.
  { apply live_spec in Hl. apply live_spec. unfold restored. destruct (wrapped_record r); exact (conj eq_refl (proj2 Hl)). }
  rewrite (record_some c k (restored r now) now Hf Hl'), (record_some a k s now Hf Hl). rewrite F1, F2, F3. f_equal.
  assert (ms_propagated s = false → ms_shadow s = None ∧ trim_space (Reason (ms_Quota s)) ≠ "credential_quota") as Hun.
  { intros E. rewrite E in K5. split; [|intros E'; discriminate K5; by right]. destruct (ms_shadow s) eqn:Es; [|done]. discriminate K5. by left. }
  assert (wrapped_record r = ms_propagated s) as Ew.
  { unfold wrapped_record. rewrite Eq. cbn. destruct (ms_propagated s); [by rewrite orb_true_r|]. destruct Hun as [Hs1 Hs2]; [done|].
    rewrite Hs1. cbn. by apply String.eqb_neq. }
  unfold restored. rewrite Ew. unfold record_state. rewrite Eq. unfold record_updated.
  rewrite (proj2 (is_zero_false (cr_UpdatedAt r))) by (cbn; lia).
  destruct (ms_propagated s) eqn:Ep; cbn -[trim_space cooldownReason];
    rewrite reason_fields, reason_again, ?clone_clone; [done|]. by rewrite (proj1 (Hun eq_refl)).
Qed.

(** ** One credential *)

(** A credential whose states are restored ones. *)
Definition steady (a : Auth) (now : time) : Prop :=
  ∀ k o, a_ModelStates a !! k = Some o → fixed k ∧ fmap (expire_state now) o = o.
Lemma aggregated_states a now : steady a now → a_ModelStates (updateAggregatedAvailability a now) = a_ModelStates a.
Proof.
  intros Hs. assert (fmap (M := gmap string) (fmap (expire_state now)) (a_ModelStates a) = a_ModelStates a) as Hf.
  { apply map_eq. intros k. rewrite lookup_fmap. destruct (a_ModelStates a !! k) as [o|] eqn:E; [|done]. cbn. f_equal. by apply (Hs k). }
  unfold updateAggregatedAvailability, clearAggregatedAvailability, apply_aggregate. cbv zeta.
  repeat match goal with |- a_ModelStates (if ?b then _ else _) = _ => destruct b end; first [reflexivity|exact Hf].
Qed.
Lemma aggregated_frame a now : let b := updateAggregatedAvailability a now in
  names b = names a ∧ a_StatusMessage b = a_StatusMessage a ∧ (unwrapped a → unwrapped b).
Proof.
  cbv zeta. unfold unwrapped, updateAggregatedAvailability, clearAggregatedAvailability, apply_aggregate. cbv zeta.
  repeat match goal with |- context [names (if ?b then _ else _)] => destruct b end;
    (split; [reflexivity|split; [reflexivity|intros Hw; first [exact Hw|discriminate]]]).
Qed.
Lemma restored_expire r now : sound r now → expire_state now (restored r now) = restored r now.
Proof. intros H. apply (expire_holds _ _ (cr_NextRetryAfter r)); [apply H|]. unfold restored. by destruct (wrapped_record r). Qed.

(** What every step keeps of the credential, and what it needs. *)
Record restoring (cfg : CoolingConfig) (now : time) (a : Auth) : Prop := {
  rs_steady : steady a now;
  rs_unwrapped : unwrapped a;
  rs_calm : calm a;
  rs_takes : restorable cfg a = true;
}.
Definition of_model (now : time) (r : CooldownStateRecord) : Prop := sound r now ∧ of_credential r = false ∧ fixed (record_key r).
Lemma restore_model_new cfg r now a : override_by_identity cfg → 0 ≤ now → of_model now r → restoring cfg now a →
  a_ModelStates a !! record_key r = None →
  let b := restore_record cfg r now a in restoring cfg now b ∧ a_ModelStates b = <[record_key r := Some (restored r now)]> (a_ModelStates a)
    ∧ names b = names a ∧ a_StatusMessage b = a_StatusMessage a.
Proof.
  intros Hcfg Hn (Hr & Hm & Hk) [I1 I2 I3 I4] Hnone. cbv zeta. unfold restore_record. rewrite I4.
  assert (record_live r now = true) as ->.
  { pose proof (sound_live _ _ Hr). unfold record_live. rewrite (proj2 (is_zero_false _)) by lia. cbn. by apply after_spec. }
  cbn [negb orb]. unfold of_credential in Hm. rewrite Hm. pose proof (restore_model_takes r now a) as [T1 T2].
  assert (restoring cfg now (restore_model r now a) ↔ steady (restore_model r now a) now ∧ unwrapped (restore_model r now a)) as HI.
  { split; [by intros []|]. intros [J1 J2]. assert (calm (restore_model r now a)) as J3 by (intros e; rewrite T2; apply I3).
    split; [done..|]. by apply (takes_restorable cfg a); [| |apply calm_signed_in|]. }
  rewrite HI. clear HI T1 T2. unfold restore_model. fold (record_key r). unfold ensureModelState. fold (record_key r).
  rewrite (normalize_same a) by (intros k o Ho; by apply (I1 k o)). unfold model_state. rewrite Hnone. cbn [mjoin option_join].
  set (a1 := set_model_state a (record_key r) active_state). rewrite (restore_active a1 r now Hr Hn) by exact I2.
  set (a2 := touch_restored r now (set_model_state a1 (record_key r) (restored r now))).
  assert (a_ModelStates a2 = <[record_key r := Some (restored r now)]> (a_ModelStates a)) as E2.
  { unfold a2, a1, touch_restored, set_model_state. cbn. apply insert_insert_eq. }
  assert (steady a2 now) as S2.
  { intros k o. rewrite E2. destruct (decide (k = record_key r)) as [->|Hne]; [rewrite lookup_insert_eq|rewrite lookup_insert_ne by done; apply I1].
    intros [= <-]. split; [done|]. cbn. f_equal. by apply restored_expire. }
  assert (names a2 = names a ∧ a_StatusMessage a2 = a_StatusMessage a ∧ unwrapped a2) as (N1 & N2 & N3) by (split; [reflexivity|split; [reflexivity|exact I2]]).
  clearbody a2. destruct (aggregated_frame a2 now) as (F1 & F2 & F3). pose proof (aggregated_states a2 now S2) as Es.
  split_and!; [intros k o; rewrite Es; apply S2|by apply F3|exact (eq_trans Es E2)|exact (eq_trans F1 N1)|exact (eq_trans F2 N2)].
Qed.
Lemma restore_models cfg now rs a : override_by_identity cfg → 0 ≤ now → restoring cfg now a → NoDup (map record_key rs) →
  (∀ r, r ∈ rs → of_model now r ∧ a_ModelStates a !! record_key r = None) →
  let b := restore_all cfg now rs a in restoring cfg now b ∧ names b = names a ∧ a_StatusMessage b = a_StatusMessage a
    ∧ (∀ r, r ∈ rs → a_ModelStates b !! record_key r = Some (Some (restored r now)))
    ∧ (∀ k, k ∉ map record_key rs → a_ModelStates b !! k = a_ModelStates a !! k).
Proof.
  intros Hcfg Hn. cbv zeta. revert a. induction rs as [|r rs IH]; intros a Ha Hnd Hrs; [split_and!; [done..|set_solver|done]|].
  cbn [map] in *. apply NoDup_cons in Hnd as [Hnew Hnd]. destruct (Hrs r) as [Hr Hnone]; [by left|].
  destruct (restore_model_new cfg r now a Hcfg Hn Hr Ha Hnone) as (A1 & A2 & A3 & A4).
  destruct (IH (restore_record cfg r now a) A1 Hnd) as (B1 & B2 & B3 & B4 & B5).
  { intros r' Hin. split; [apply Hrs; by right|]. rewrite A2, lookup_insert_ne; [apply Hrs; by right|].
    intros E. apply Hnew. rewrite E. by apply list_elem_of_fmap_2. }
  cbn [restore_all foldl]. split_and!; [done|exact (eq_trans B2 A3)|exact (eq_trans B3 A4)| |].
  - intros r' [->|Hin]%elem_of_cons; [|by apply B4]. rewrite B5 by done. by rewrite A2, lookup_insert_eq.
  - intros k [Hk1 Hk2]%not_elem_of_cons. by rewrite B5, A2, lookup_insert_ne.
Qed.

(** The record of the credential comes last. *)
Record kept_auth (a : Auth) : Prop := {
  kept_auth_updated : 0 < a_UpdatedAt a;
  kept_auth_exceeded : Exceeded (a_Quota a) = true → NextRecoverAt (a_Quota a) ≠ 0;
}.
Lemma restore_credential_frame cfg now rs a : (∀ r, r ∈ rs → of_credential r = true) →
  a_ModelStates (restore_all cfg now rs a) = a_ModelStates a ∧ names (restore_all cfg now rs a) = names a.
Proof.
  revert a. induction rs as [|r rs IH]; intros a Hr; [done|]. cbn [restore_all foldl].
  destruct (IH (restore_record cfg r now a) (fun r' H => Hr r' (list_elem_of_further _ _ _ H))) as [E1 E2].
  assert (a_ModelStates (restore_record cfg r now a) = a_ModelStates a ∧ names (restore_record cfg r now a) = names a) as [E3 E4].
  { pose proof (Hr r (list_elem_of_here _ _)) as Er. unfold of_credential in Er. unfold restore_record. rewrite Er. by case_if. }
  split; [exact (eq_trans E1 E3)|exact (eq_trans E2 E4)].
Qed.
Lemma credential_again cfg a c now saved r : names a = names c → a_StatusMessage c = "" → kept_auth a → restorable cfg c = true →
  0 ≤ now → is_Some (authCooldownStateRecord a now) → authCooldownStateRecord a saved = Some r →
  authCooldownStateRecord (restore_record cfg r now c) now = authCooldownStateRecord a now.
Proof.
  intros Hn Hm [K1 K2] Hc H0 [r' Hr']. destruct (names_file a c Hn) as (F1 & F2 & F3). unfold authCooldownStateRecord at 1.
  case_if; [done|]. intros [= <-]. match goal with |- context [restore_record cfg ?x now c] => set (r := x) end.
  unfold authCooldownStateRecord in Hr' |- * at 2. case_if_in Hr'; [done|]. clear Hr'. bprop.
  assert (record_live r now = true) as Hl by (unfold record_live; cbn; rewrite (proj2 (is_zero_false _)) by done; by apply after_spec).
  unfold restore_record. rewrite Hl, Hc. cbn [negb orb].
  assert (record_quota r = cooldownFieldsOf (a_Quota a)) as Eq.
  { unfold record_quota. cbn. destruct (Exceeded (a_Quota a)) eqn:Ex; [|done]. by rewrite (proj2 (is_zero_false _)) by auto. }
  assert (trim_space (cr_Model r) = "") as -> by done. cbn [String.eqb]. unfold restore_credential. cbv zeta. rewrite Eq.
  assert (mergeQuotaObservation (applyCooldownFields (a_Quota c) (cooldownFieldsOf (a_Quota a))) (cooldownFieldsOf (a_Quota a))
    = applyCooldownFields (a_Quota c) (cooldownFieldsOf (a_Quota a))) as -> by done.
  set (b := touch_restored r now _).
  assert (a_Unavailable b = true ∧ a_NextRetryAfter b = a_NextRetryAfter a ∧ cooldownFieldsOf (a_Quota b) = cooldownFieldsOf (a_Quota a)
    ∧ a_LastError b = a_LastError a ∧ a_UpdatedAt b = a_UpdatedAt a) as (B1 & B2 & B3 & B4 & B5).
  { split_and!; try reflexivity. cbn. unfold record_updated. by rewrite (proj2 (is_zero_false _)) by (cbn; lia). }
  assert (a_StatusMessage b = trim_space (cr_Reason r)) as B6.
  { change (a_StatusMessage b) with (if negb (String.eqb (trim_space (cr_Reason r)) "") then trim_space (cr_Reason r) else a_StatusMessage c).
    rewrite Hm. by destruct (String.eqb_spec (trim_space (cr_Reason r)) "") as [->|]. }
  assert (names b = names c) as B7 by reflexivity. clearbody b. destruct (names_file b c B7) as (G1 & G2 & G3).
  unfold authCooldownStateRecord. rewrite B1, B2, (proj2 (is_zero_false _)), (proj2 (after_spec _ _)) by done. cbn [negb orb].
  rewrite G1, G2, G3, F1, F2, F3, B3, B4, B5, B6. f_equal. f_equal. unfold r. cbn [cr_Reason].
  rewrite <- (reason_fields _ (a_Quota b)), B3, reason_fields. apply reason_again.
Qed.

(** ** The saved records of one credential *)

Lemma filter_perm {A} (f : A → bool) l1 l2 : l1 ≡ₚ l2 → List.filter f l1 ≡ₚ List.filter f l2.
Proof.
  induction 1 as [|x l1 l2 _ IH|x y l|l1 l2 l3 _ IH1 _ IH2]; cbn; [done|by destruct (f x); rewrite IH| |by etransitivity].
  destruct (f x), (f y); try done. apply Permutation_swap.
Qed.
Lemma filter_all {A} (f : A → bool) l : (∀ x, x ∈ l → f x = true) → List.filter f l = l.
Proof. induction l as [|x l IH]; intros H; cbn; [done|]. rewrite (H x) by left. f_equal. apply IH. intros; apply H; by right. Qed.
Lemma filter_none {A} (f : A → bool) l : (∀ x, x ∈ l → f x = false) → List.filter f l = [].
Proof. induction l as [|x l IH]; intros H; cbn; [done|]. rewrite (H x) by left. apply IH. intros; apply H; by right. Qed.
Lemma elem_filter {A} (f : A → bool) l x : x ∈ List.filter f l ↔ x ∈ l ∧ f x = true.
Proof. rewrite !list_elem_of_In. apply List.filter_In. Qed.
Lemma filter_nodup {A B} (k : A → B) (f : A → bool) l : NoDup (map k l) → NoDup (map k (List.filter f l)).
Proof.
  induction l as [|x l IH]; cbn; [done|]. intros [Hn Hd]%NoDup_cons. destruct (f x); cbn; [|by apply IH]. apply NoDup_cons.
  split; [|by apply IH]. intros (y & Hy & [Hin _]%elem_filter)%list_elem_of_fmap. apply Hn. rewrite Hy. by apply list_elem_of_fmap_2.
Qed.
Lemma omap_nodup {A B K} (f : A → option B) (ka : A → K) (kb : B → K) l : (∀ x y, x ∈ l → f x = Some y → kb y = ka x) →
  NoDup (map ka l) → NoDup (map kb (omap f l)).
Proof.
  induction l as [|x l IH]; intros Hf; cbn; [done|]. intros [Hn Hd]%NoDup_cons.
  assert (NoDup (map kb (omap f l))) as IH' by (apply IH; [intros; apply Hf; [by right|done]|done]).
  destruct (f x) as [y|] eqn:E; cbn; [|exact IH']. apply NoDup_cons. split; [|exact IH'].
  intros (z & Hz & (w & Hw & Ew)%list_elem_of_omap)%list_elem_of_fmap. apply Hn.
  rewrite <- (Hf x y) by (done || by left). rewrite Hz, (Hf w z) by (done || by right). by apply list_elem_of_fmap_2.
Qed.

Definition saved_models (a : Auth) (t : time) : list CooldownStateRecord :=
  omap (fun e => modelCooldownStateRecord a e.1 e.2 t) (model_states a).
Lemma saved_models_elem a t r : r ∈ saved_models a t ↔
  ∃ k s, a_ModelStates a !! k = Some (Some s) ∧ modelCooldownStateRecord a k s t = Some r.
Proof.
  unfold saved_models. rewrite list_elem_of_omap. split.
  - intros ([k s] & Hin%CooldownEnds.model_states_elem & E). by exists k, s.
  - intros (k & s & Hin & E). exists (k, s). split; [by apply CooldownEnds.model_states_elem|done].
Qed.
Lemma model_record_spec a k s t r : modelCooldownStateRecord a k s t = Some r →
  cr_Model r = trim_space k ∧ cr_AuthID r = a_ID a ∧ live_at s t = true ∧ cr_NextRetryAfter r = ms_NextRetryAfter s ∧ of_credential r = false.
Proof.
  unfold modelCooldownStateRecord. cbv zeta. case_if; [done|]. intros [= <-]. bprop. unfold of_credential. cbn -[trim_space].
  rewrite trim_space_idem. split_and!; [done..|by apply live_spec|done|by apply String.eqb_neq].
Qed.
Lemma record_key_of a k s t r : fixed k → modelCooldownStateRecord a k s t = Some r → record_key r = k.
Proof. intros Hf (E & _)%model_record_spec. unfold record_key. rewrite E, trim_space_idem, (fixed_trim k Hf). apply Hf. Qed.
Lemma credential_record_spec a t r : authCooldownStateRecord a t = Some r → cr_AuthID r = a_ID a ∧ of_credential r = true.
Proof. unfold authCooldownStateRecord. case_if; [done|]. by intros [= <-]. Qed.
Lemma records_of_auth cfg a t : a_ID a ≠ "" → restorable cfg a = true →
  cooldownStateRecordsForAuthLocked cfg a t ≡ₚ option_list (authCooldownStateRecord a t) ++ saved_models a t.
Proof.
  intros Hid Hr. unfold cooldownStateRecordsForAuthLocked. rewrite (proj2 (String.eqb_neq _ _) Hid). cbn [orb].
  unfold restorable in Hr. apply negb_true_iff in Hr. apply orb_false_iff in Hr as [Hr _]. rewrite Hr.
  rewrite sort_by_perm. by destruct (authCooldownStateRecord a t).
Qed.
Lemma records_id cfg a t r : r ∈ cooldownStateRecordsForAuthLocked cfg a t → cr_AuthID r = a_ID a.
Proof.
  unfold cooldownStateRecordsForAuthLocked. case_if; [by intros ?%not_elem_of_nil|]. cbv zeta. rewrite elem_of_sort_by, elem_of_app.
  intros [H|(k & s & _ & (_ & Em & _)%model_record_spec)%saved_models_elem]; [|exact Em].
  destruct (authCooldownStateRecord a t) as [x|] eqn:Ea; [|by apply not_elem_of_nil in H]. apply list_elem_of_singleton in H as ->.
  exact (proj1 (credential_record_spec a t x Ea)).
Qed.
(** Credentials are filed under their trimmed names. *)
Definition filed (auths : gmap string Auth) : Prop := ∀ k a, auths !! k = Some a → trim_space (a_ID a) = k.
Lemma snapshot_of cfg auths t id a : filed auths → auths !! id = Some a →
  List.filter (for_id id) (cooldownStateRecordsSnapshot cfg auths t) ≡ₚ cooldownStateRecordsForAuthLocked cfg a t.
Proof.
  intros Hf Ha. unfold cooldownStateRecordsSnapshot. rewrite (filter_perm _ _ _ (merge_sort_Permutation _ _)).
  assert (auths = <[id := a]> (delete id auths)) as E by (by rewrite insert_delete_id).
  assert (map_to_list auths ≡ₚ (id, a) :: map_to_list (delete id auths)) as Hp.
  { rewrite E at 1. apply map_to_list_insert. apply lookup_delete_eq. }
  assert (∀ l1 l2, l1 ≡ₚ l2 → concat (map (fun e : string * Auth => cooldownStateRecordsForAuthLocked cfg e.2 t) l1)
    ≡ₚ concat (map (fun e => cooldownStateRecordsForAuthLocked cfg e.2 t) l2)) as Hc.
  { clear. induction 1 as [|x l1 l2 _ IH|x y l|l1 l2 l3 _ IH1 _ IH2]; cbn; [done|by rewrite IH| |by etransitivity].
    rewrite !app_assoc. f_equiv. apply Permutation_app_comm. }
  rewrite (filter_perm _ _ _ (Hc _ _ Hp)). cbn [map concat snd]. rewrite List.filter_app.
  rewrite (filter_all _ (cooldownStateRecordsForAuthLocked cfg a t)).
  2: { intros r Hr%records_id. unfold for_id. rewrite Hr. apply String.eqb_eq. by apply Hf. }
  rewrite filter_none; [by rewrite app_nil_r|]. intros r (l & (e & -> & He)%list_elem_of_In%list_elem_of_fmap & Hr)%list_elem_of_In%in_concat.
  destruct e as [k x]. apply elem_of_map_to_list, lookup_delete_Some in He as [Hne He]. apply list_elem_of_In, records_id in Hr.
  unfold for_id. rewrite Hr. apply String.eqb_neq. cbn. by rewrite (Hf k x He).
Qed.

(** ** A restart *)

(** Records that have ended change nothing. *)
Lemma restore_live cfg now rs a :
  restore_all cfg now rs a = restore_all cfg now (List.filter (fun r => record_live r now) rs) a.
Proof.
  revert a. induction rs as [|r rs IH]; intros a; [done|]. cbn [restore_all foldl List.filter]. destruct (record_live r now) eqn:E; [apply IH|].
  unfold restore_record at 2. rewrite E. apply IH.
Qed.
Record fresh (a b : Auth) : Prop := {
  fresh_names : names b = names a;
  fresh_states : a_ModelStates b = ∅;
  fresh_error : a_LastError b = None;
  fresh_message : a_StatusMessage b = "";
  fresh_quota : a_Quota b = zero_quota;
}.
(** What a credential would record for a model. *)
Definition model_record (a : Auth) (k : string) (now : time) : option CooldownStateRecord :=
  s ← model_state a k; modelCooldownStateRecord a k s now.
Definition keeps_models (a : Auth) : Prop := ∀ k s, a_ModelStates a !! k = Some (Some s) → fixed k ∧ kept s.
Lemma saved_keys a t : keeps_models a → NoDup (map record_key (saved_models a t)).
Proof.
  intros Hk. unfold saved_models. apply (omap_nodup _ fst record_key).
  - intros [k s] r Hin%CooldownEnds.model_states_elem E. cbn in E |- *. eapply record_key_of; [by eapply Hk|exact E].
  - unfold model_states. apply (omap_nodup _ fst fst); [|apply NoDup_fst_map_to_list].
    intros [k [s|]] e _; [|done]. by intros [= <-].
Qed.
Lemma saved_order cfg a t rs : a_ID a ≠ "" → restorable cfg a = true → rs ≡ₚ cooldownStateRecordsForAuthLocked cfg a t →
  List.filter (fun r => negb (of_credential r)) rs ≡ₚ saved_models a t
  ∧ List.filter of_credential rs = option_list (authCooldownStateRecord a t).
Proof.
  intros Hid Hr Hp. rewrite (records_of_auth cfg a t Hid Hr) in Hp.
  assert (∀ r, r ∈ saved_models a t → of_credential r = false) as Hm by (intros r (k & s & _ & (_&_&_&_&E)%model_record_spec)%saved_models_elem; exact E).
  assert (∀ r, r ∈ option_list (authCooldownStateRecord a t) → of_credential r = true) as Hc.
  { intros r. destruct (authCooldownStateRecord a t) as [x|] eqn:E; cbn; [|by intros ?%not_elem_of_nil].
    intros ->%list_elem_of_singleton. exact (proj2 (credential_record_spec a t x E)). }
  split; [rewrite (filter_perm _ _ _ Hp)|pose proof (filter_perm of_credential _ _ Hp) as Hf]; rewrite List.filter_app in *.
  - rewrite filter_none by (intros r Hin; by rewrite (Hc r Hin)). rewrite filter_all; [done|]. intros r Hin. by rewrite (Hm r Hin).
  - rewrite (filter_all _ _ Hc), (filter_none _ _ Hm), app_nil_r in Hf. destruct (authCooldownStateRecord a t); cbn in *;
      [by apply Permutation_singleton_r|by apply Permutation_nil_r].
Qed.
Lemma restart_states cfg a b ms saved now : override_by_identity cfg → 0 ≤ now → saved ≤ now → keeps_models a → fresh a b →
  restorable cfg b = true → ms ≡ₚ saved_models a saved →
  let c := restore_all cfg now ms b in restoring cfg now c ∧ names c = names b ∧ a_StatusMessage c = ""
    ∧ (∀ k, fixed k → model_state c k = None ∧ (∀ s, model_state a k = Some s → live_at s now = false)
        ∨ ∃ s r, model_state a k = Some s ∧ live_at s now = true ∧ modelCooldownStateRecord a k s saved = Some r
            ∧ model_state c k = Some (restored r now)).
Proof.
  intros Hcfg H0 Hs Hk [B1 B2 B3 B4 B5] Hb Hp. cbv zeta. rewrite restore_live. set (rs := List.filter _ ms).
  assert (∀ r, r ∈ rs ↔ ∃ k s, a_ModelStates a !! k = Some (Some s) ∧ modelCooldownStateRecord a k s saved = Some r ∧ live_at s now = true) as Hrs.
  { intros r. unfold rs. rewrite elem_filter, Hp, saved_models_elem. unfold record_live. rewrite andb_true_iff, negb_true_iff, is_zero_false, after_spec.
    split; [intros [(k & s & E1 & E2) [_ E3]]|intros (k & s & E1 & E2 & E3)]; pose proof (model_record_spec _ _ _ _ _ E2) as (_ & _ & E4 & E5 & _).
    - exists k, s. split_and!; [done..|]. apply live_spec in E4. apply live_spec. rewrite E5 in E3. tauto.
    - split; [by exists k, s|]. rewrite E5. apply live_spec in E3. tauto. }
  assert (restoring cfg now b) as Hi.
  { split; [intros k o; by rewrite B2|unfold unwrapped; by rewrite B5|intros e; by rewrite B3|done]. }
  destruct (restore_models cfg now rs b Hcfg H0 Hi) as (C1 & C2 & C3 & C4 & C5).
  { unfold rs. apply filter_nodup. rewrite Hp. by apply saved_keys. }
  { intros r (k & s & E1 & E2 & E3)%Hrs. destruct (Hk k s E1) as [Hf Hkept]. split; [|by rewrite B2].
    pose proof (record_key_of _ _ _ _ _ Hf E2) as Ek. split_and!; [|by eapply model_record_spec|by rewrite Ek].
    rewrite (record_some a k s saved Hf (live_later s saved now Hs E3)), <- (record_some a k s now Hf E3) in E2.
    exact (record_sound a k s now r Hf Hkept E3 E2). }
  set (c := restore_all cfg now rs b) in *. split; [done|]. split; [done|]. split; [exact (eq_trans C3 B4)|]. intros k Hf.
  destruct (model_state a k) as [s|] eqn:Es; [destruct (live_at s now) eqn:El|].
  - right. apply model_state_spec in Es. pose proof (record_some a k s saved Hf (live_later s saved now Hs El)) as Er.
    eexists s, _. split_and!; [done..|exact Er|]. apply model_state_spec. rewrite <- (record_key_of _ _ _ _ _ Hf Er) at 1.
    apply C4, Hrs. by exists k, s.
  - left. split; [|by intros ? [= <-]]. unfold model_state. rewrite C5, B2; [done|]. intros (r & -> & (k' & s' & E1 & E2 & E3)%Hrs)%list_elem_of_fmap.
    rewrite (record_key_of _ _ _ _ _ (proj1 (Hk k' s' E1)) E2) in Es. apply model_state_spec in Es. congruence.
  - left. split; [|done]. unfold model_state. rewrite C5, B2; [done|]. intros (r & -> & (k' & s' & E1 & E2 & E3)%Hrs)%list_elem_of_fmap.
    rewrite (record_key_of _ _ _ _ _ (proj1 (Hk k' s' E1)) E2) in Es. apply model_state_spec in E1. congruence.
Qed.
Lemma restart_records a c saved now k : keeps_models a → saved ≤ now → fixed k → names a = names c →
  (model_state c k = None ∧ (∀ s, model_state a k = Some s → live_at s now = false)
   ∨ ∃ s r, model_state a k = Some s ∧ live_at s now = true ∧ modelCooldownStateRecord a k s saved = Some r ∧ model_state c k = Some (restored r now)) →
  model_record c k now = model_record a k now.
Proof.
  intros Hk Hs Hf Hn H. unfold model_record. destruct H as [[-> H]|(s & r & E1 & E2 & E3 & ->)].
  - destruct (model_state a k) as [s|]; [|done]. cbn. symmetry. by apply record_none, H.
  - rewrite E1. cbn. apply (record_again a c k s now saved r); [done..| |done|done|done]. eapply Hk. by apply model_state_spec.
Qed.

Lemma credential_earlier a t now : t ≤ now → is_Some (authCooldownStateRecord a now) → is_Some (authCooldownStateRecord a t).
Proof.
  intros Ht [r Hr]. unfold authCooldownStateRecord in *. case_if_in Hr; [done|]. bprop.
  rewrite H, (proj2 (is_zero_false _)), (proj2 (after_spec _ _)) by (done || lia). by eexists.
Qed.

(** C14 A restart keeps the cooldowns.  The records saved for a credential, put back in any
    order into a fresh one of the same name, make it record for every model exactly what
    the old one would record now, and the same cooldown of its own. *)
Theorem restart_keeps_cooldowns (cfg : CoolingConfig) (auths auths' : gmap string Auth) (records : list CooldownStateRecord)
    (saved now : time) (id : string) (a b : Auth) :
  override_by_identity cfg → 0 ≤ now → saved ≤ now → filed auths → id ≠ "" → a_ID a ≠ "" →
  auths !! id = Some a → restorable cfg a = true → keeps_models a → kept_auth a →
  auths' !! id = Some b → restorable cfg b = true → fresh a b →
  records ≡ₚ cooldownStateRecordsSnapshot cfg auths saved →
  ∃ c, RestoreCooldownStates cfg auths' records now !! id = Some c
    ∧ (∀ k, fixed k → model_record c k now = model_record a k now)
    ∧ (∀ r, authCooldownStateRecord a now = Some r → authCooldownStateRecord c now = Some r).
Proof.
  intros Hcfg H0 Hs Hfiled Hid Hne Ha Hra Hk Hka Hb Hrb Hfr Hp. rewrite restore_at, Hb by done. cbn. eexists. split; [done|].
  assert (List.filter (for_id id) records ≡ₚ cooldownStateRecordsForAuthLocked cfg a saved) as Hp'
    by (rewrite (filter_perm _ _ _ Hp); by apply snapshot_of).
  destruct (saved_order cfg a saved _ Hne Hra Hp') as [Hm Hc]. unfold restore_order. rewrite restore_all_app, Hc.
  destruct (restart_states cfg a b _ saved now Hcfg H0 Hs Hk Hfr Hrb Hm) as (R1 & R2 & R3 & R4).
  set (c := restore_all cfg now _ b) in *. clearbody c. assert (names a = names c) as Hn by (by rewrite R2, (fresh_names _ _ Hfr)).
  destruct (restore_credential_frame cfg now (option_list (authCooldownStateRecord a saved)) c) as [E1 E2].
  { intros r. rewrite <- Hc. intros [_ H]%elem_filter. exact H. }
  split.
  - intros k Hf. apply (restart_records a _ saved now k); [done..|by rewrite E2|]. unfold model_state at 1 4. rewrite E1. by apply R4.
  - intros r Er. destruct (authCooldownStateRecord a saved) as [r0|] eqn:E0.
    + cbn. rewrite <- Er. apply (credential_again cfg a c now saved r0); [done..|apply R1|done|by rewrite Er|done].
    + destruct (credential_earlier a saved now Hs) as [x Hx]; [by rewrite Er|]. congruence.
Qed.

End CooldownRestart.
