(* ===== verification/CooldownView.v ===== *)
(** * The cooldowns a management client sees: cooldown_view.go

    [CooldownSnapshotForAuth] lists the waits of a credential for display.  The theorem
    ties the list to the selector of [Availability], which decides who is used. *)
From S2P Require Import Prelude GoLib Weight Thinking AuthTypes QuotaSignals Expiry Availability Classify Cooldown CooldownEnds.
Import AuthTypes QuotaSignals Expiry Availability Classify Cooldown.

Module CooldownView.

Record CooldownView : Type := {
  Scope : string;
  ModelKey : string;
  ViewReason : string;
  RetryAt : time;
  RemainingSeconds : Z;
  ViewBackoffLevel : option Z;
  HTTPStatus : Z;
}.
#[global] Instance CooldownView_eta : Eta CooldownView := fun v =>
  {| Scope := Scope v; ModelKey := ModelKey v; ViewReason := ViewReason v; RetryAt := RetryAt v;
     RemainingSeconds := RemainingSeconds v; ViewBackoffLevel := ViewBackoffLevel v; HTTPStatus := HTTPStatus v |}.

Definition cooldownStatusReason (message : string) : string :=
  let s := trim_space message in
  if String.eqb s "quota" || String.eqb s "quota exhausted" then "quota"
  else if String.eqb s "cloudflare challenge" then "cloudflare_challenge"
  else if existsb (String.eqb s) ["invalid_grant"; "unauthorized"; "payment_required"; "not_found"] then s
  else if String.eqb s "model_not_supported" then "model_not_supported"
  else if String.eqb s "transient upstream error" then "transient_error"
  else if String.eqb s ErrorCodeTransientRateLimit then "transient_rate_limit"
  else "unknown".

Section View.
Context `{GP : GoParse} `{EB : ErrorBodies}.

Definition cooldownErrorReason (err : option Error) : string :=
  match err with
  | None => "unknown"
  | Some e =>
      if isModelSupportResultError e then "model_not_supported"
      else if isCloudflareChallengeResultError e then "cloudflare_challenge"
      else if isInvalidGrantResultError e then "invalid_grant"
      else if isCreditBalanceTooLowResultError e then "payment_required"
      else if isTransientRateLimitResultError e then "transient_rate_limit"
      else
        let status := err_HTTPStatus e in
        if status =? 401 then "unauthorized"
        else if (status =? 402) || (status =? 403) then "payment_required"
        else if status =? 404 then "not_found"
        else if status =? 429 then "quota"
        else if existsb (Z.eqb status) [408; 500; 502; 503; 504; 520; 521; 522; 523; 524; 525; 526] then "transient_error"
        else cooldownStatusReason (err_Code e)
  end.
Definition remaining_seconds (next now : time) : Z :=
  let remaining := time_sub next now in
  let seconds := Z.quot remaining second in
  if negb (Z.rem remaining second =? 0) then seconds + 1 else seconds.
(** The reason a quota gives, when it is the quota that is waited for. *)
Definition quota_view_reason (next : time) (quota : QuotaState) : string :=
  if Exceeded quota && (is_zero (NextRecoverAt quota) || negb (before (NextRecoverAt quota) next)) then
    if String.eqb (Reason quota) "credential_quota" || String.eqb (Reason quota) "quota" then Reason quota
    else if String.eqb (Reason quota) "cloudflare challenge" then "cloudflare_challenge" else "unknown"
  else "unknown".
Definition newCooldownView (scope model : string) (next now : time) (quota : QuotaState) (statusMessage : string)
    (lastErr : option Error) : CooldownView :=
  let reason := quota_view_reason next quota in
  let view := {| Scope := scope; ModelKey := model; ViewReason := reason; RetryAt := next;
                 RemainingSeconds := remaining_seconds next now; ViewBackoffLevel := None; HTTPStatus := 0 |} in
  let propagatedQuota := Exceeded quota && String.eqb (Reason quota) "credential_quota" in
  if String.eqb reason "credential_quota" then view
  else
    let view := if (String.eqb reason "quota" || String.eqb reason "cloudflare_challenge") && (0 <=? BackoffLevel quota)
                then view <| ViewBackoffLevel := Some (BackoffLevel quota) |> else view in
    let errorReason := cooldownErrorReason lastErr in
    let reason := if String.eqb reason "unknown" then errorReason else reason in
    let reason := if String.eqb reason "unknown" then cooldownStatusReason statusMessage else reason in
    let view := view <| ViewReason := reason |> in
    match lastErr with
    | Some e => if negb propagatedQuota && (400 <=? err_HTTPStatus e) && (err_HTTPStatus e <=? 599) && String.eqb errorReason reason
                then view <| HTTPStatus := err_HTTPStatus e |> else view
    | None => view
    end.
Definition credential_view (auth : Auth) (next now : time) : CooldownView :=
  newCooldownView "credential" "" next now (a_Quota auth) (a_StatusMessage auth) (a_LastError auth).
Definition model_view (model : string) (state : ModelState) (next now : time) : CooldownView :=
  newCooldownView "model" model next now (ms_Quota state) (ms_StatusMessage state) (ms_LastError state).
Definition credential_views (auth : Auth) (now : time) : list CooldownView :=
  if Exceeded (a_Quota auth) && String.eqb (Reason (a_Quota auth)) "credential_quota" && after (NextRecoverAt (a_Quota auth)) now
  then [credential_view auth (NextRecoverAt (a_Quota auth)) now]
  else if negb (has_states auth) then
    let '(blocked, _, next) := availabilityBlock (a_Unavailable auth) (Exceeded (a_Quota auth)) (a_NextRetryAfter auth)
                                 (NextRecoverAt (a_Quota auth)) now in
    if blocked && after next now then [credential_view auth next now] else []
  else [].
(** The step for one key of the states. *)
Definition view_step (now : time) (byModel : gmap string (CooldownView * blockReason)) (entry : string * ModelState) :
    gmap string (CooldownView * blockReason) :=
  let '(key, state) := entry in
  let model := canonicalModelKey key in
  if String.eqb model "" then byModel
  else
    let '(blocked, reason, next) := state_block state now in
    if negb blocked || negb (after next now) then byModel
    else
      let skip := match byModel !! model with
                  | Some (view, previous) =>
                      let preferQuotaTie := time_eq next (RetryAt view) && reason_is reason blockReasonCooldown
                                            && negb (reason_is previous blockReasonCooldown) in
                      negb (after next (RetryAt view)) && negb preferQuotaTie
                  | None => false
                  end in
      if skip then byModel else <[model := (model_view model state next now, reason)]> byModel.
Definition views_by_model (auth : Auth) (now : time) : gmap string (CooldownView * blockReason) :=
  foldl (view_step now) ∅ (sort_by fst (model_states auth)).
Definition CooldownSnapshotForAuth (auth : Auth) (now : time) : list CooldownView :=
  credential_views auth now ++ map (fun e => e.2.1) (sort_by fst (map_to_list (views_by_model auth now))).

(** ** What a view says *)

Lemma view_fields scope model next now q msg e : let v := newCooldownView scope model next now q msg e in
  Scope v = scope ∧ ModelKey v = model ∧ RetryAt v = next ∧ RemainingSeconds v = remaining_seconds next now.
Proof.
  unfold newCooldownView. cbv zeta. case_if; [done|].
  destruct e as [e|]; repeat match goal with |- context [Scope (if ?b then _ else _)] => destruct b | |- context [set _ _ (if ?b then _ else _)] => destruct b end; done.
Qed.
(** The codes that may leave the server. *)
Definition public_reasons : list string :=
  ["unknown"; "credential_quota"; "quota"; "cloudflare_challenge"; "model_not_supported"; "invalid_grant"; "payment_required";
   "transient_rate_limit"; "unauthorized"; "not_found"; "transient_error"].
Lemma status_public m : cooldownStatusReason m ∈ public_reasons.
Proof.
  unfold cooldownStatusReason. cbv zeta. repeat (case_if; [try set_solver|]); try set_solver.
  apply existsb_exists in E1 as (x & Hin & ->%String.eqb_eq). apply list_elem_of_In in Hin. set_solver.
Qed.
Lemma error_public e : cooldownErrorReason e ∈ public_reasons.
Proof.
  unfold cooldownErrorReason. destruct e as [e|]; [|set_solver]. cbv zeta. repeat (case_if; [set_solver|]). apply status_public.
Qed.
Lemma quota_public next q : quota_view_reason next q ∈ public_reasons.
Proof.
  unfold quota_view_reason. case_if; [|set_solver]. case_if; [|case_if; set_solver].
  apply orb_true_iff in E0 as [->%String.eqb_eq| ->%String.eqb_eq]; set_solver.
Qed.
Lemma view_public scope model next now q msg e : ViewReason (newCooldownView scope model next now q msg e) ∈ public_reasons.
Proof.
  unfold newCooldownView. cbv zeta. case_if; [apply quota_public|].
  set (r := if String.eqb (if String.eqb (quota_view_reason next q) "unknown" then _ else _) "unknown" then _ else _).
  assert (r ∈ public_reasons) as Hr by (unfold r; repeat case_if; first [apply status_public|apply error_public|apply quota_public]).
  clearbody r. destruct e as [e|]; [|done]. by match goal with |- context [ViewReason (if ?b then _ else _)] => destruct b end.
Qed.
Lemma remaining_spec next now : 0 ≤ now < next → next - now ≤ max_int64 →
  let s := remaining_seconds next now in (s - 1) * second < next - now ≤ s * second.
Proof.
  intros Hn Hm. cbv zeta. unfold remaining_seconds. assert (time_sub next now = next - now) as ->.
  { unfold time_sub, min_int64 in *. lia. }
  unfold second. pose proof (Z.quot_rem' (next - now) 1000000000). pose proof (Z.rem_bound_pos (next - now) 1000000000 ltac:(lia) ltac:(lia)).
  case_if; bprop; lia.
Qed.

(** ** The view of a model *)

(** A state makes its model wait until [next]. *)
Definition waits (now : time) (key : string) (entry : string * ModelState) (next : time) : Prop :=
  canonicalModelKey entry.1 = key ∧ (∃ reason, state_block entry.2 now = (true, reason, next)) ∧ now < next.
(** The latest wait among the states. *)
Definition latest_wait (now : time) (key : string) (states : list (string * ModelState)) (next : time) : Prop :=
  (∃ e, e ∈ states ∧ waits now key e next) ∧ ∀ e n, e ∈ states → waits now key e n → n ≤ next.
Lemma latest_unique now key states n m : latest_wait now key states n → latest_wait now key states m → n = m.
Proof. intros [(e & H1 & H2) H3] [(e' & H4 & H5) H6]. pose proof (H3 _ _ H4 H5). pose proof (H6 _ _ H1 H2). lia. Qed.

Lemma scan_latest now key matched acc states r next : 0 ≤ now → scan_states key now matched acc states = (true, r, next) → next ≠ 0 →
  (acc.1.1 = true → now < acc.2) →
  ((∃ e, e ∈ states ∧ waits now key e next) ∨ acc.1.1 = true ∧ acc.2 = next) ∧ (acc.1.1 = true → acc.2 ≤ next)
  ∧ ∀ e n, e ∈ states → waits now key e n → n ≤ next.
Proof.
  intros Hn H Hz. revert matched acc H. induction states as [|[k s] states IH]; intros m acc H Ha; cbn [scan_states] in H.
  { destruct m; [|done]. subst acc. cbn in *. split; [by right|]. split; [done|]. intros e n Hin. by apply not_elem_of_nil in Hin. }
  assert (∀ e, e ∈ states → e ∈ (k, s) :: states) as Hin by (intros; by right).
  destruct (String.eqb_spec (canonicalModelKey k) key) as [Ek|Ek]; cbn [negb] in H.
  2: { destruct (IH _ _ H Ha) as (H1 & H2 & H3). split; [destruct H1 as [(e & He & Hw)|H1]; [left; exists e; auto|by right]|]. split; [done|].
       intros e n [->|He]%elem_of_cons Hw; [by destruct Hw|by eapply H3]. }
  case_if_in H; [injection H as _ <-; done|]. destruct (state_block s now) as [[b r'] n'] eqn:Eb. destruct b; cbn [negb] in H.
  2: { destruct (IH _ _ H Ha) as (H1 & H2 & H3). split; [destruct H1 as [(e & He & Hw)|H1]; [left; exists e; auto|by right]|]. split; [done|].
       intros e n [->|He]%elem_of_cons Hw; [destruct Hw as (_ & [x Hx] & _); cbn in Hx; congruence|by eapply H3]. }
  case_if_in H; [injection H as _ <-; done|]. apply is_zero_false in E0. assert (now < n') as Hn'.
  { unfold state_block in Eb. apply availabilityBlock_window_aux in Eb as [[-> _]|[Hlt _]]; [done|exact Hlt|exact Hn]. }
  assert (waits now key (k, s) n') as Hw' by (split; [done|split; [by exists r'|done]]).
  assert (∀ n, waits now key (k, s) n → n = n') as Hu by (intros n (_ & [x Hx] & _); cbn in Hx; congruence).
  destruct acc as [[ab ar] an]. cbn [fst snd] in Ha |- *.
  match type of H with scan_states _ _ _ (if ?b then _ else _) _ = _ => destruct b eqn:Ec end.
  - destruct (IH _ _ H) as (H1 & H2 & H3); [done|]. cbn in H1, H2. specialize (H2 eq_refl). split_and!.
    + left. destruct H1 as [(e & He & Hw)|[_ <-]]; [exists e; auto|]. exists (k, s). split; [by left|done].
    + intros ->. cbn in Ec. apply orb_true_iff in Ec as [Ec|Ec]; bprop; lia.
    + intros e n [->|He]%elem_of_cons Hw; [rewrite (Hu n Hw); lia|by eapply H3].
  - apply orb_false_iff in Ec as [Ec _]. destruct (IH _ _ H) as (J1 & J2 & J3); [done|]. cbn in J1, J2. split_and!; [|done|].
    + destruct J1 as [(e & He & Hw)|J1]; [left; exists e; auto|by right].
    + intros e n [->|He]%elem_of_cons Hw; [|by eapply J3]. rewrite (Hu n Hw). destruct ab; [|done]. specialize (J2 eq_refl). bprop. lia.
Qed.

Definition views_ok (now : time) (states : list (string * ModelState)) (byModel : gmap string (CooldownView * blockReason)) : Prop :=
  ∀ m, match byModel !! m with
       | Some (view, _) => m ≠ "" ∧ latest_wait now m states (RetryAt view) ∧ ∃ e, e ∈ states ∧ view = model_view m e.2 (RetryAt view) now
       | None => m = "" ∨ ∀ e n, e ∈ states → ¬ waits now m e n
       end.
(** A state more, that leaves the view of [m] alone or replaces it. *)
Lemma views_keep now states e m (o : option (CooldownView * blockReason)) :
  match o with
  | Some (view, _) => m ≠ "" ∧ latest_wait now m states (RetryAt view) ∧ ∃ e, e ∈ states ∧ view = model_view m e.2 (RetryAt view) now
  | None => m = "" ∨ ∀ e n, e ∈ states → ¬ waits now m e n
  end →
  (∀ n, waits now m e n → m = "" ∨ ∃ v r, o = Some (v, r) ∧ n ≤ RetryAt v) →
  match o with
  | Some (view, _) => m ≠ "" ∧ latest_wait now m (states ++ [e]) (RetryAt view) ∧ ∃ e', e' ∈ states ++ [e] ∧ view = model_view m e'.2 (RetryAt view) now
  | None => m = "" ∨ ∀ e' n, e' ∈ states ++ [e] → ¬ waits now m e' n
  end.
Proof.
  intros H Hw. destruct o as [[v r]|].
  - destruct H as (H1 & [(x & Hx & Hwx) H3] & (y & Hy & Hv)). split; [done|]. split; [|exists y; split; [set_solver|done]].
    split; [exists x; split; [set_solver|done]|]. intros z n [Hin| ->%list_elem_of_singleton]%elem_of_app Hz; [by eapply H3|].
    destruct (Hw n Hz) as [?|(v' & r' & [= <- <-] & ?)]; [done|lia].
  - destruct H as [H|H]; [by left|]. destruct (decide (m = "")) as [|Hm]; [by left|]. right.
    intros z n [Hin| ->%list_elem_of_singleton]%elem_of_app Hz; [by eapply H|]. by destruct (Hw n Hz) as [?|(? & ? & ? & ?)].
Qed.
Lemma view_step_ok now states byModel e : 0 ≤ now → views_ok now states byModel → views_ok now (states ++ [e]) (view_step now byModel e).
Proof.
  intros Hn H m. specialize (H m). destruct e as [k s]. unfold view_step. cbv zeta.
  destruct (String.eqb_spec (canonicalModelKey k) "") as [Ek|Ek].
  { apply views_keep; [exact H|]. intros n [Hk _]. left. cbn in Hk. congruence. }
  destruct (state_block s now) as [[b r] n'] eqn:Eb. destruct (negb b || negb (after n' now)) eqn:Ew.
  { apply views_keep; [exact H|]. intros n (_ & [x Hx] & Hlt). cbn in Hx. rewrite Eb in Hx. injection Hx as -> -> ->.
    apply orb_true_iff in Ew as [Ew|Ew]; bprop; [done|lia]. }
  apply orb_false_iff in Ew as [->%negb_false_iff Hlt%negb_false_iff%after_spec].
  assert (∀ n, waits now m (k, s) n → m = canonicalModelKey k ∧ n = n') as Hu by (intros n (<- & [x Hx] & _); cbn in Hx; split; [done|congruence]).
  destruct (decide (m = canonicalModelKey k)) as [->|Hne].
  2: { match goal with |- context [if ?b then byModel else _] => destruct b end; rewrite ?lookup_insert_ne by done;
       (apply views_keep; [exact H|]; intros n [? _]%Hu; done). }
  assert (waits now (canonicalModelKey k) (k, s) n') as Hw by (split; [done|split; [by exists r|done]]).
  match goal with |- context [if ?b then byModel else _] => destruct b eqn:Eskip end.
  { apply views_keep; [exact H|]. intros n [_ ->]%Hu. right. destruct (byModel !! canonicalModelKey k) as [[v r']|]; [|done].
    exists v, r'. split; [done|]. bprop. lia. }
  rewrite lookup_insert_eq. destruct (view_fields "model" (canonicalModelKey k) n' now (ms_Quota s) (ms_StatusMessage s) (ms_LastError s)) as (_ & _ & F & _).
  fold (model_view (canonicalModelKey k) s n' now) in F. rewrite F. split; [done|]. split; [|exists (k, s); split; [set_solver|done]].
  split; [exists (k, s); split; [set_solver|done]|]. intros e n [Hin| ->%list_elem_of_singleton]%elem_of_app Hz; [|by destruct (Hu n Hz) as [_ ->]].
  destruct (byModel !! canonicalModelKey k) as [[v r']|]; [|by destruct H as [?|H]; [|by destruct (H e n Hin)]].
  destruct H as (_ & [_ H] & _). specialize (H e n Hin Hz). apply andb_false_iff in Eskip as [E|E]; bprop; lia.
Qed.
Lemma views_ok_all auth now : 0 ≤ now → views_ok now (model_states auth) (views_by_model auth now).
Proof.
  intros Hn. unfold views_by_model. assert (views_ok now (sort_by fst (model_states auth)) (foldl (view_step now) ∅ (sort_by fst (model_states auth)))) as H.
  { induction (sort_by fst (model_states auth)) as [|e l IH] using rev_ind; [intros m; cbn [foldl]; rewrite lookup_empty; right; intros e n Hin; by apply not_elem_of_nil in Hin|].
    rewrite foldl_app. by apply view_step_ok. }
  intros m. specialize (H m). destruct (foldl _ _ _ !! m) as [[v r]|].
  - destruct H as (H1 & [(e & He & Hw) H2] & (e' & He' & Hv)). rewrite elem_of_sort_by in He, He'. split; [done|]. split; [|by exists e'].
    split; [by exists e|]. intros x n Hx. apply H2. by apply elem_of_sort_by.
  - destruct H as [H|H]; [by left|]. right. intros x n Hx. apply H. by apply elem_of_sort_by.
Qed.

(** ** The list *)

Lemma credential_views_spec auth now v : 0 ≤ now → v ∈ credential_views auth now →
  ∃ next, v = credential_view auth next now ∧ now < next
    ∧ (Exceeded (a_Quota auth) && String.eqb (Reason (a_Quota auth)) "credential_quota" = true ∧ next = NextRecoverAt (a_Quota auth)
       ∨ has_states auth = false ∧ ∃ r, availabilityBlock (a_Unavailable auth) (Exceeded (a_Quota auth)) (a_NextRetryAfter auth)
           (NextRecoverAt (a_Quota auth)) now = (true, r, next)).
Proof.
  intros Hn. unfold credential_views. destruct (Exceeded (a_Quota auth) && _) eqn:Eq; cbn [andb].
  - destruct (after _ now) eqn:Ea.
    { intros ->%list_elem_of_singleton. eexists. split; [done|]. split; [by apply after_spec|by left]. }
    destruct (has_states auth); cbn [negb]; [by intros ?%not_elem_of_nil|].
    destruct (availabilityBlock _ _ _ _ _) as [[b r] n]. destruct (b && after n now) eqn:E; [|by intros ?%not_elem_of_nil].
    apply andb_true_iff in E as [-> E%after_spec].
    intros ->%list_elem_of_singleton. exists n. split; [done|]. split; [done|]. right. split; [done|]. by exists r.
  - destruct (has_states auth); cbn [negb]; [by intros ?%not_elem_of_nil|].
    destruct (availabilityBlock _ _ _ _ _) as [[b r] n]. destruct (b && after n now) eqn:E; [|by intros ?%not_elem_of_nil].
    apply andb_true_iff in E as [-> E%after_spec].
    intros ->%list_elem_of_singleton. exists n. split; [done|]. split; [done|]. right. split; [done|]. by exists r.
Qed.
Lemma model_views_elem auth now v : v ∈ map (fun e => e.2.1) (sort_by fst (map_to_list (views_by_model auth now))) ↔
  ∃ m r, views_by_model auth now !! m = Some (v, r).
Proof.
  rewrite list_elem_of_fmap. split.
  - intros ([m [v' r]] & -> & Hin). apply elem_of_sort_by, elem_of_map_to_list in Hin. by exists m, r.
  - intros (m & r & E). exists (m, (v, r)). split; [done|]. apply elem_of_sort_by. by apply elem_of_map_to_list.
Qed.
Lemma model_views_spec auth now v m r : 0 ≤ now → views_by_model auth now !! m = Some (v, r) →
  m ≠ "" ∧ Scope v = "model" ∧ ModelKey v = m ∧ latest_wait now m (model_states auth) (RetryAt v)
  ∧ ∃ s, v = model_view m s (RetryAt v) now.
Proof.
  intros Hn E. pose proof (views_ok_all auth now Hn m) as H. rewrite E in H. destruct H as (H1 & H2 & (e & He & Hv)).
  destruct (view_fields "model" m (RetryAt v) now (ms_Quota e.2) (ms_StatusMessage e.2) (ms_LastError e.2)) as (F1 & F2 & _).
  split; [done|]. split; [rewrite Hv; exact F1|]. split; [rewrite Hv; exact F2|]. split; [done|]. by exists e.2.
Qed.
Lemma credential_view_fields auth next now : let v := credential_view auth next now in
  Scope v = "credential" ∧ ModelKey v = "" ∧ RetryAt v = next ∧ RemainingSeconds v = remaining_seconds next now.
Proof. apply view_fields. Qed.
Lemma credential_view_blocks ctx auth now v model t : 0 ≤ now → v ∈ credential_views auth now → model ≠ "" → now ≤ t < RetryAt v →
  blocked_for ctx model t auth = true.
Proof.
  intros Hn (next & -> & Hlt & H)%credential_views_spec; [|done]. destruct (credential_view_fields auth next now) as (_ & _ & -> & _).
  intros Hm Ht. rewrite blocked_for_eq. destruct H as [[Hq ->]|[Hs [r Hb]]].
  - unfold credential_quota_active. rewrite Hq, (proj2 (after_spec _ _)) by lia. cbn. by rewrite orb_true_r.
  - rewrite Hs, (proj2 (String.eqb_neq _ _) Hm). cbn [andb negb].
    apply availabilityBlock_window_aux in Hb as [[Hz _]|(_ & Hb & _)]; [lia| |done]. rewrite Hb by lia. apply orb_true_r.
Qed.
Lemma model_view_blocks ctx auth now v m r model t : 0 ≤ now → views_by_model auth now !! m = Some (v, r) → model ≠ "" →
  canonicalModelKey model = m → now ≤ t < RetryAt v → blocked_for ctx model t auth = true.
Proof.
  intros Hn (_ & _ & _ & [(e & He & Hk & [x Hx] & Hlt) _] & _)%model_views_spec Hm Hc Ht; [|done]. rewrite blocked_for_eq.
  assert (has_states auth = true) as ->.
  { unfold has_states. apply negb_true_iff, bool_decide_eq_false. destruct e as [k s]. apply CooldownEnds.model_states_elem in He.
    intros E. by rewrite E in He. }
  rewrite (proj2 (String.eqb_neq _ _) Hm). cbn [andb negb]. assert (existsb (key_blocks (canonicalModelKey model) t) (model_states auth) = true) as ->; [|apply orb_true_r].
  apply existsb_exists. exists e. split; [by apply list_elem_of_In|]. unfold key_blocks. rewrite Hk, Hc, String.eqb_refl. cbn. unfold state_blocks.
  unfold state_block in Hx |- *. apply availabilityBlock_window_aux in Hx as [[Hz _]|(_ & Hx & _)]; [lia| |done]. rewrite Hx by lia. apply orb_true_r.
Qed.
(** The wait the selector reports is on the list. *)
Lemma block_has_view ctx auth now model reason next : 0 ≤ now → canonicalModelKey model ≠ "" →
  isAuthBlockedForModelForRequest ctx auth model now = (true, reason, next) → next ≠ 0 →
  ∃ v, v ∈ CooldownSnapshotForAuth auth now ∧ RetryAt v = next
    ∧ (Scope v = "credential" ∨ Scope v = "model" ∧ ModelKey v = canonicalModelKey model).
Proof.
  intros Hn Hk. assert (model ≠ "") as Hm by (intros ->; apply Hk; reflexivity). unfold isAuthBlockedForModelForRequest.
  do 3 (case_if; [intros [= _ <-]; done|]). rewrite (proj2 (String.eqb_neq _ _) Hm). cbn [negb]. unfold CooldownSnapshotForAuth.
  setoid_rewrite elem_of_app. unfold credential_views at 1. fold (credential_quota_active auth now).
  destruct (credential_quota_active auth now).
  { intros [= _ <-] _. eexists. split; [left; by apply list_elem_of_singleton|]. destruct (credential_view_fields auth (NextRecoverAt (a_Quota auth)) now) as (? & _ & ? & _). auto. }
  destruct (has_states auth); cbn [negb].
  - intros H Hz. destruct (scan_latest _ _ _ _ _ _ _ Hn H Hz) as ([(e & He & Hw)|[? _]] & _ & Hmax); [done| |done].
    pose proof (views_ok_all auth now Hn (canonicalModelKey model)) as Hv. destruct (views_by_model auth now !! canonicalModelKey model) as [[v r]|] eqn:Ev.
    2: { destruct Hv as [Hv|Hv]; [done|]. by destruct (Hv e next He). }
    exists v. destruct (model_views_spec auth now v _ r Hn Ev) as (_ & S1 & S2 & S3 & _). split; [right; apply model_views_elem; eauto|]. split; [|by right].
    apply (latest_unique now (canonicalModelKey model) (model_states auth)); [done|]. split; [by exists e|exact Hmax].
  - destruct (availabilityBlock _ _ _ _ _) as [[b r] n] eqn:Eb. intros [= -> -> ->] Hz.
    apply availabilityBlock_window_aux in Eb as [[? _]|(Hlt & _ & _)]; [done| |done]. rewrite (proj2 (after_spec _ _) Hlt). cbn [andb].
    eexists. split; [left; by apply list_elem_of_singleton|]. destruct (credential_view_fields auth next now) as (? & _ & ? & _). auto.
Qed.

Lemma view_keys auth now : 0 ≤ now → NoDup (map ModelKey (CooldownSnapshotForAuth auth now)).
Proof.
  intros Hn. unfold CooldownSnapshotForAuth. rewrite map_app, map_map.
  assert (map (fun e => ModelKey e.2.1) (sort_by fst (map_to_list (views_by_model auth now))) = map fst (sort_by fst (map_to_list (views_by_model auth now)))) as ->.
  { apply map_ext_in. intros [m [v r]] Hin. apply list_elem_of_In, elem_of_sort_by, elem_of_map_to_list in Hin.
    apply (model_views_spec auth now v m r Hn Hin). }
  apply NoDup_app. split_and!.
  - unfold credential_views. repeat case_match; cbn; repeat constructor; by intros ?%not_elem_of_nil.
  - intros k (v & -> & (next & -> & _)%credential_views_spec)%list_elem_of_fmap; [|done].
    destruct (credential_view_fields auth next now) as (_ & -> & _). intros ([m [v r]] & Hm & Hin)%list_elem_of_fmap.
    apply elem_of_sort_by, elem_of_map_to_list, model_views_spec in Hin as [Hne _]; [|done]. by apply Hne.
  - assert (map fst (sort_by fst (map_to_list (views_by_model auth now))) ≡ₚ map fst (map_to_list (views_by_model auth now))) as ->
      by (by apply Permutation_map, sort_by_perm). apply NoDup_fst_map_to_list.
Qed.
Lemma view_is_new auth now v : 0 ≤ now → v ∈ CooldownSnapshotForAuth auth now → now < RetryAt v
  ∧ ∃ scope model q msg e, v = newCooldownView scope model (RetryAt v) now q msg e.
Proof.
  intros Hn. unfold CooldownSnapshotForAuth. rewrite elem_of_app, model_views_elem. intros [(next & -> & Hlt & _)%credential_views_spec|(m & r & E)]; [|done|].
  - destruct (credential_view_fields auth next now) as (_ & _ & -> & _). split; [done|]. by do 5 eexists.
  - destruct (model_views_spec auth now v m r Hn E) as (_ & _ & _ & [(e & _ & _ & _ & Hlt) _] & s & Hs). split; [done|]. by do 5 eexists.
Qed.

(** C33 What the management client is shown agrees with what the selector does: every
    listed cooldown blocks its models until the time shown, and whenever the selector makes
    a model wait, its time is on the list.  A model is listed once, the seconds are rounded
    up, and the reason is one of a few public codes, never text of an upstream. *)
Theorem cooldown_views_agree (ctx : ReqCtx) (auth : Auth) (now : time) :
  0 ≤ now →
  let views := CooldownSnapshotForAuth auth now in
  (∀ v model t, v ∈ views → model ≠ "" → Scope v = "credential" ∨ ModelKey v = canonicalModelKey model → now ≤ t < RetryAt v →
     blocked_for ctx model t auth = true)
  ∧ (∀ model reason next, canonicalModelKey model ≠ "" → isAuthBlockedForModelForRequest ctx auth model now = (true, reason, next) → next ≠ 0 →
      ∃ v, v ∈ views ∧ RetryAt v = next ∧ (Scope v = "credential" ∨ Scope v = "model" ∧ ModelKey v = canonicalModelKey model))
  ∧ NoDup (map ModelKey views)
  ∧ (∀ v, v ∈ views → ViewReason v ∈ public_reasons ∧ now < RetryAt v
      ∧ (RetryAt v - now ≤ max_int64 → (RemainingSeconds v - 1) * second < RetryAt v - now ≤ RemainingSeconds v * second)).
Proof.
  intros Hn. cbv zeta. split_and!; [| |by apply view_keys|].
  - intros v model t Hv Hm Hs Ht. unfold CooldownSnapshotForAuth in Hv. rewrite elem_of_app, model_views_elem in Hv.
    destruct Hv as [Hv|(m & r & E)]; [by eapply credential_view_blocks|].
    apply (model_view_blocks ctx auth now v m r); [done..| |done]. destruct (model_views_spec auth now v m r Hn E) as (_ & S1 & S2 & _).
    destruct Hs as [Hs|Hs]; [rewrite Hs in S1; discriminate S1|congruence].
  - intros model reason next. by apply block_has_view.
  - intros v (Hlt & scope & model & q & msg & e & Hv)%view_is_new; [|done]. split; [rewrite Hv; apply view_public|]. split; [done|]. intros Hmax.
    assert (RemainingSeconds v = remaining_seconds (RetryAt v) now) as -> by (rewrite Hv at 1; apply view_fields). by apply remaining_spec.
Qed.

End View.

End CooldownView.
