(* ===== verification/CooldownDemo.v ===== *)
(** * Cooldowns kept, restored, reset and shown: concrete credentials

    The theorems of [CooldownReset], [CooldownRestore], [CooldownRestart] and
    [CooldownView] at concrete inputs, and two behaviours that stand out. *)
From S2P Require Import Prelude GoLib Weight Thinking AuthTypes QuotaSignals Expiry Availability Classify Cooldown CooldownEnds ResultProps CooldownStore CooldownReset CooldownRestore CooldownRestart CooldownView.
Import AuthTypes QuotaSignals Expiry Availability Classify Cooldown ResultProps CooldownStore CooldownReset CooldownRestore CooldownRestart CooldownView.

Module CooldownDemo.
#[local] Existing Instance no_parse.

Definition cooling (until : time) : ModelState :=
  active_state <| ms_Unavailable := true |> <| ms_Status := StatusError |> <| ms_NextRetryAfter := until |>
    <| ms_Quota := exceeded_quota "quota" until 2 |> <| ms_UpdatedAt := 5 |>.
Definition cooling_demo : Auth := (new_auth "c1") <| a_Status := StatusActive |> <| a_UpdatedAt := 5 |> <| a_ModelStates := {["m1" := Some (cooling 100); "m2" := Some (cooling 60)]} |>.
Definition fresh_demo : Auth := (new_auth "c1") <| a_Status := StatusActive |>.
Definition demo_config : CoolingConfig := CooldownEnds.default_config.

(** Two models cool down; the records are saved at 10 and put back at 70, when one of
    them has ended. *)
Example restart_demo :
  (fun a => (fun s => (ms_NextRetryAfter s, BackoffLevel (ms_Quota s))) <$> model_state a "m1") <$>
    RestoreCooldownStates demo_config {["c1" := fresh_demo]} (cooldownStateRecordsSnapshot demo_config {["c1" := cooling_demo]} 10) 70 !! "c1"
  = Some (Some (100, 2)).
Proof. vm_compute. reflexivity. Qed.

(** A credential that waits until 500, and an older record of it that says 200. *)
Definition waiting_demo : Auth :=
  fresh_demo <| a_Unavailable := true |> <| a_Status := StatusError |> <| a_NextRetryAfter := 500 |> <| a_UpdatedAt := 60 |>.
Definition older_record : option CooldownStateRecord :=
  authCooldownStateRecord (waiting_demo <| a_NextRetryAfter := 200 |> <| a_UpdatedAt := 10 |>) 20.
(** Restoring the record frees the credential at 300. *)
Example restore_forgets_newer_wait :
  blocked_for background "m" 300 waiting_demo = true
  ∧ (fun a => blocked_for background "m" 300 a) <$>
      (r ← older_record; RestoreCooldownStates demo_config {["c1" := waiting_demo]} [r] 70 !! "c1") = Some false.
Proof. split; vm_compute; reflexivity. Qed.

(** A name without a letter or a digit gives no file. *)
Example no_file_name : sanitizeCooldownFileName "user@mail.com.json" = "user_mail.com.cds" ∧ sanitizeCooldownFileName "@.json" = "".
Proof. split; reflexivity. Qed.

Lemma demo_states k s : a_ModelStates cooling_demo !! k = Some s → k = "m1" ∧ s = Some (cooling 100) ∨ k = "m2" ∧ s = Some (cooling 60).
Proof.
  change (a_ModelStates cooling_demo) with ({["m1" := Some (cooling 100); "m2" := Some (cooling 60)]} : gmap string (option ModelState)).
  intros [[<- <-]|[_ [<- <-]%lookup_singleton_Some]]%lookup_insert_Some; auto.
Qed.
Lemma demo_override : override_by_identity demo_config.
Proof. done. Qed.

Lemma reset_unblocks_witness :
  blocked_for background "m1" 50 cooling_demo = true
  ∧ blocked_for background "m1" 50 (ResetQuota [] cooling_demo 20).1 = false.
Proof.
  split; [vm_compute; reflexivity|]. pose proof (reset_unblocks background [] cooling_demo 20 50 "m1") as H. cbv zeta in H.
  destruct H as (-> & _); [intros k o [[-> _]|[-> _]]%demo_states; reflexivity|]. vm_compute. reflexivity.
Defined.
Lemma restore_only_adds_witness :
  ∃ b, RestoreCooldownStates demo_config {["c1" := fresh_demo]} (cooldownStateRecordsSnapshot demo_config {["c1" := cooling_demo]} 10) 20 !! "c1" = Some b
    ∧ blocked_for background "m1" 90 b = true.
Proof.
  set (rs := cooldownStateRecordsSnapshot demo_config {["c1" := cooling_demo]} 10).
  destruct (restore_only_adds demo_config {["c1" := fresh_demo]} rs 20 "c1" fresh_demo demo_override) as (b & Hb & _ & Hr);
    [discriminate|lia|by rewrite lookup_singleton_eq|vm_compute; reflexivity|by intros e|].
  exists b. split; [exact Hb|]. destruct (modelCooldownStateRecord cooling_demo "m1" (cooling 100) 10) as [r|] eqn:Er; [|exfalso; vm_compute in Er; discriminate Er].
  vm_compute in Er. injection Er as Er.
  apply (Hr r); rewrite <- ?Er; [vm_compute; by left|reflexivity|reflexivity|split; [discriminate|reflexivity]|discriminate|reflexivity|vm_compute; split; [discriminate|reflexivity]].
Defined.
Lemma restart_keeps_cooldowns_witness :
  ∃ c, RestoreCooldownStates demo_config {["c1" := fresh_demo]} (cooldownStateRecordsSnapshot demo_config {["c1" := cooling_demo]} 10) 70 !! "c1" = Some c
    ∧ model_record c "m1" 70 = model_record cooling_demo "m1" 70 ∧ is_Some (model_record c "m1" 70).
Proof.
  destruct (restart_keeps_cooldowns demo_config {["c1" := cooling_demo]} {["c1" := fresh_demo]}
    (cooldownStateRecordsSnapshot demo_config {["c1" := cooling_demo]} 10) 10 70 "c1" cooling_demo fresh_demo demo_override) as (c & Hc & Hk & _);
    [lia..|intros k a [<- <-]%lookup_singleton_Some; reflexivity|discriminate|discriminate|by rewrite lookup_singleton_eq|vm_compute; reflexivity| |split; [reflexivity|discriminate]
    |by rewrite lookup_singleton_eq|vm_compute; reflexivity|split; reflexivity|reflexivity|].
  - intros k s [[-> [= ->]]|[-> [= ->]]]%demo_states; (split; [split; [discriminate|reflexivity]|split; cbn; (lia || done || auto)]); intros [H|H]; done.
  - exists c. split; [exact Hc|]. rewrite (Hk "m1") by (split; [discriminate|reflexivity]). split; [reflexivity|]. vm_compute. by eexists.
Defined.

#[local] Existing Instance no_bodies.
Lemma cooldown_views_agree_witness :
  map (fun v => (ModelKey v, ViewReason v, RetryAt v, RemainingSeconds v)) (CooldownSnapshotForAuth cooling_demo 10)
  = [("m1", "quota", 100, 1); ("m2", "quota", 60, 1)] ∧ blocked_for background "m1" 99 cooling_demo = true.
Proof.
  split; [vm_compute; reflexivity|]. destruct (cooldown_views_agree background cooling_demo 10) as (H & _); [lia|].
  apply (H (default (credential_view cooling_demo 0 0) (head (CooldownSnapshotForAuth cooling_demo 10))));
    [vm_compute; by left|discriminate|right; reflexivity|vm_compute; split; [discriminate|reflexivity]].
Defined.

End CooldownDemo.
