(* ===== verification/BoundedLRU.v ===== *)
(** * The bounded LRU cache: internal/cache/bounded_lru.go

    The cache as the code keeps it: a map from keys to list elements, and a
    doubly linked list of elements, most recently used first.  An element is a
    handle with its entry; [lru_next] is the next fresh handle.  The eviction
    callback runs after the lock is released, so an operation returns the entry
    the callback is called with. *)
From S2P Require Import Prelude.

Module BoundedLRU.
Section LRU.
Context {K V : Type} `{CK : Countable K}.

Record boundedLRUEntry : Type := { e_key : K; e_value : V }.
Record Element : Type := { el_id : nat; el_entry : boundedLRUEntry }.

Record BoundedLRU : Type := {
  lru_capacity : Z;
  lru_entries : gmap K nat;
  lru_order : list Element;
  lru_next : nat;
}.
#[global] Instance BoundedLRU_eta : Eta BoundedLRU := fun c =>
  {| lru_capacity := lru_capacity c; lru_entries := lru_entries c; lru_order := lru_order c;
     lru_next := lru_next c |}.

Definition NewBoundedLRU (capacity : Z) : BoundedLRU :=
  {| lru_capacity := if capacity <? 1 then 1 else capacity; lru_entries := ∅; lru_order := [];
     lru_next := 0 |}.

(** container/list: removal and move of an element, its value. *)
Definition has_id (id : nat) (e : Element) : bool := Nat.eqb (el_id e) id.
Definition list_find_elem (id : nat) (l : list Element) : option Element := List.find (has_id id) l.
Definition list_Remove (id : nat) (l : list Element) : list Element :=
  List.filter (fun e => negb (has_id id e)) l.
Definition MoveToFront (id : nat) (l : list Element) : list Element :=
  match list_find_elem id l with Some e => e :: list_Remove id l | None => l end.

Definition entry_value (id : nat) (l : list Element) : option V :=
  (fun e => e_value (el_entry e)) <$> list_find_elem id l.

(** The value, the cache and the evicted entry; [create] is the value the
    callback makes.  A handle without element does not occur ([lru_wf]); the
    code would panic on it. *)
Definition GetOrAdd (cache : BoundedLRU) (key : K) (create : V) :
    option V * BoundedLRU * option boundedLRUEntry :=
  match lru_entries cache !! key with
  | Some element =>
      (entry_value element (lru_order cache),
       cache <| lru_order := MoveToFront element (lru_order cache) |>, None)
  | None =>
      let element := {| el_id := lru_next cache; el_entry := {| e_key := key; e_value := create |} |} in
      let order := element :: lru_order cache in
      let entries := <[key := el_id element]> (lru_entries cache) in
      let cache := cache <| lru_next := S (lru_next cache) |> in
      if lru_capacity cache <? Z.of_nat (length order) then
        match last order with
        | Some oldest =>
            (Some create,
             cache <| lru_entries := delete (e_key (el_entry oldest)) entries |>
                   <| lru_order := list_Remove (el_id oldest) order |>,
             Some (el_entry oldest))
        | None => (None, cache, None)
        end
      else (Some create, cache <| lru_entries := entries |> <| lru_order := order |>, None)
  end.

Definition Get (cache : BoundedLRU) (key : K) : option V * BoundedLRU :=
  match lru_entries cache !! key with
  | Some element =>
      (entry_value element (lru_order cache),
       cache <| lru_order := MoveToFront element (lru_order cache) |>)
  | None => (None, cache)
  end.

(** Whether the key was there, the cache, and the entry given to the callback. *)
Definition Delete (cache : BoundedLRU) (key : K) : bool * BoundedLRU * option boundedLRUEntry :=
  match lru_entries cache !! key with
  | None => (false, cache, None)
  | Some element =>
      (true,
       cache <| lru_entries := delete key (lru_entries cache) |>
             <| lru_order := list_Remove element (lru_order cache) |>,
       el_entry <$> list_find_elem element (lru_order cache))
  end.

Definition Len (cache : BoundedLRU) : Z := Z.of_nat (size (lru_entries cache)).

(** ** The specification: a list of entries, most recently used first *)

Definition entry_is (key : K) (e : boundedLRUEntry) : bool := bool_decide (e_key e = key).
Definition spec_find (key : K) (l : list boundedLRUEntry) : option boundedLRUEntry :=
  List.find (entry_is key) l.
Definition spec_remove (key : K) (l : list boundedLRUEntry) : list boundedLRUEntry :=
  List.filter (fun e => negb (entry_is key e)) l.

Definition spec_GetOrAdd (cap : nat) (l : list boundedLRUEntry) (key : K) (create : V) :
    V * list boundedLRUEntry * option boundedLRUEntry :=
  match spec_find key l with
  | Some e => (e_value e, e :: spec_remove key l, None)
  | None => (create, take cap ({| e_key := key; e_value := create |} :: l),
             head (drop cap ({| e_key := key; e_value := create |} :: l)))
  end.
Definition spec_Get (l : list boundedLRUEntry) (key : K) : option V * list boundedLRUEntry :=
  match spec_find key l with
  | Some e => (Some (e_value e), e :: spec_remove key l)
  | None => (None, l)
  end.
Definition spec_Delete (l : list boundedLRUEntry) (key : K) :
    bool * list boundedLRUEntry * option boundedLRUEntry :=
  match spec_find key l with
  | Some e => (true, spec_remove key l, Some e)
  | None => (false, l, None)
  end.

(** ** The invariant *)

Definition view (cache : BoundedLRU) : list boundedLRUEntry := map el_entry (lru_order cache).
Definition elem_key (e : Element) : K := e_key (el_entry e).

Record lru_wf (cache : BoundedLRU) : Prop := {
  wf_capacity : 1 ≤ lru_capacity cache;
  wf_ids : NoDup (map el_id (lru_order cache));
  wf_keys : NoDup (map elem_key (lru_order cache));
  wf_fresh : ∀ e, e ∈ lru_order cache → (el_id e < lru_next cache)%nat;
  wf_entries : ∀ k id, lru_entries cache !! k = Some id ↔
                 ∃ e, e ∈ lru_order cache ∧ el_id e = id ∧ elem_key e = k;
  wf_bound : Z.of_nat (length (lru_order cache)) ≤ lru_capacity cache;
}.

Lemma find_unique {A B} `{EqDecision B} (f : A → B) (l : list A) x :
  NoDup (map f l) → x ∈ l → List.find (fun y => bool_decide (f y = f x)) l = Some x.
Proof.
  intros Hnd Hx. destruct (List.find _ l) as [y|] eqn:E.
  - apply List.find_some in E as [Hy Hf]. apply list_elem_of_In in Hy. bprop. f_equal.
    by eapply NoDup_map_inj.
  - apply List.find_none with (x := x) in E; [|by apply list_elem_of_In]. by bprop.
Qed.

Lemma find_id l e : NoDup (map el_id l) → e ∈ l → list_find_elem (el_id e) l = Some e.
Proof.
  intros Hnd He. rewrite <- (find_unique el_id l e Hnd He). unfold list_find_elem, has_id.
  induction l as [|x l IH]; [done|]. simpl.
  destruct (Nat.eqb_spec (el_id x) (el_id e)); case_bool_decide; done || (try congruence).
  apply IH; [by inversion Hnd|]. apply elem_of_cons in He as [->|]; done.
Qed.

Lemma find_key l e : NoDup (map elem_key l) → e ∈ l →
  spec_find (elem_key e) (map el_entry l) = Some (el_entry e).
Proof.
  intros Hnd He. apply (find_unique e_key); [by rewrite map_map|].
  by apply (list_elem_of_fmap_2 el_entry).
Qed.

(** Removing an element by handle is removing its entry by key. *)
Lemma remove_view l e :
  NoDup (map el_id l) → NoDup (map elem_key l) → e ∈ l →
  map el_entry (list_Remove (el_id e) l) = spec_remove (elem_key e) (map el_entry l).
Proof.
  intros Hi Hk He. unfold list_Remove, spec_remove, has_id, entry_is.
  assert (Hx : ∀ x, x ∈ l → Nat.eqb (el_id x) (el_id e) = bool_decide (elem_key x = elem_key e)).
  { intros x Hin. destruct (Nat.eqb_spec (el_id x) (el_id e)); case_bool_decide; try done.
    - exfalso. assert (x = e) as -> by (by eapply (NoDup_map_inj el_id)). done.
    - exfalso. assert (x = e) as -> by (by eapply (NoDup_map_inj elem_key)). done. }
  clear Hi Hk He. induction l as [|x l IH]; [done|]. simpl.
  rewrite Hx by set_solver. change (e_key (el_entry x)) with (elem_key x).
  case_bool_decide; simpl; rewrite IH; set_solver.
Qed.

Lemma Remove_perm l e : NoDup (map el_id l) → e ∈ l → e :: list_Remove (el_id e) l ≡ₚ l.
Proof.
  unfold list_Remove, has_id. induction l as [|x l IH]; intros Hnd He; [set_solver|]. simpl in *.
  apply NoDup_cons in Hnd as [Hx Hnd]. destruct (Nat.eqb_spec (el_id x) (el_id e)) as [Heq|Hne]; simpl.
  - assert (x = e) as ->.
    { apply elem_of_cons in He as [->|He]; [done|]. exfalso. apply Hx. rewrite Heq.
      by apply (list_elem_of_fmap_2 el_id). }
    constructor. clear IH He Hnd. induction l as [|y l IH]; [done|]. simpl in *.
    destruct (Nat.eqb_spec (el_id y) (el_id e)); [set_solver|]. simpl. constructor. set_solver.
  - apply elem_of_cons in He as [->|He]; [done|]. rewrite <- IH at 2 by done. constructor.
Qed.

Lemma Remove_last l x : NoDup (map el_id (l ++ [x])) → list_Remove (el_id x) (l ++ [x]) = l.
Proof.
  rewrite map_app. intros (_ & Hd & _)%NoDup_app. unfold list_Remove, has_id.
  rewrite List.filter_app. simpl. rewrite Nat.eqb_refl. simpl. rewrite app_nil_r.
  induction l as [|y l IH]; [done|]. simpl in *.
  destruct (Nat.eqb_spec (el_id y) (el_id x)) as [Heq|]; simpl.
  - exfalso. apply (Hd (el_id y)); [set_solver|]. rewrite Heq. set_solver.
  - rewrite IH; [done|]. intros z Hz. apply Hd. set_solver.
Qed.

Lemma wf_size c : lru_wf c → size (lru_entries c) = length (lru_order c).
Proof.
  intros [_ _ Hk _ He _].
  rewrite <- size_dom, <- (length_map elem_key), <- (size_list_to_set (C := gset K)) by done.
  f_equal. apply set_eq. intros k. rewrite elem_of_dom, elem_of_list_to_set.
  change (map elem_key (lru_order c)) with (elem_key <$> lru_order c). rewrite list_elem_of_fmap. split.
  - intros [id (e & Hin & _ & <-)%He]. by exists e.
  - intros (e & -> & Hin). exists (el_id e). apply He. by exists e.
Qed.

Lemma New_wf capacity : lru_wf (NewBoundedLRU capacity).
Proof.
  split; simpl; [case_if; bprop; lia|constructor|constructor|set_solver| |case_if; bprop; lia].
  intros k id. rewrite lookup_empty. split; [done|]. intros (e & He & _). set_solver.
Qed.

(** A reordering keeps the invariant. *)
Lemma wf_reorder c order :
  lru_wf c → order ≡ₚ lru_order c → lru_wf (c <| lru_order := order |>).
Proof.
  intros [Hc Hi Hk Hf He Hb] Hp. split; cbn; [done|by rewrite Hp|by rewrite Hp| | |by rewrite (Permutation_length Hp)].
  - intros e. rewrite Hp. apply Hf.
  - intros k id. rewrite He. by setoid_rewrite Hp.
Qed.

Lemma wf_hit c k id :
  lru_wf c → lru_entries c !! k = Some id →
  ∃ e, e ∈ lru_order c ∧ el_id e = id ∧ elem_key e = k
       ∧ list_find_elem id (lru_order c) = Some e ∧ spec_find k (view c) = Some (el_entry e).
Proof.
  intros [_ Hi Hk _ He _] (e & Hin & <- & <-)%He. exists e. split_and!; try done.
  - by apply find_id.
  - by apply find_key.
Qed.

Lemma wf_miss c k : lru_wf c → lru_entries c !! k = None → spec_find k (view c) = None.
Proof.
  intros [_ _ _ _ He _] Hl. destruct (spec_find k (view c)) as [x|] eqn:E; [|done]. exfalso.
  apply List.find_some in E as [Hin Hk]. apply list_elem_of_In in Hin. unfold entry_is in Hk. bprop.
  unfold view in Hin. change (map el_entry (lru_order c)) with (el_entry <$> lru_order c) in Hin.
  apply list_elem_of_fmap in Hin as (e & -> & Hin).
  assert (lru_entries c !! k = Some (el_id e)) by (apply He; by exists e). congruence.
Qed.

Lemma hit_refines c k id :
  lru_wf c → lru_entries c !! k = Some id →
  let c' := c <| lru_order := MoveToFront id (lru_order c) |> in
  lru_wf c'
  ∧ ∃ e, spec_find k (view c) = Some e ∧ entry_value id (lru_order c) = Some (e_value e)
         ∧ view c' = e :: spec_remove k (view c).
Proof.
  intros Hw Hl c'. destruct (wf_hit c k id Hw Hl) as (e & Hin & <- & <- & Hf & Hs).
  destruct Hw as [Hc Hi Hk Hfr He Hb] eqn:Ew. clear Ew.
  assert (Hm : MoveToFront (el_id e) (lru_order c) = e :: list_Remove (el_id e) (lru_order c))
    by (unfold MoveToFront; by rewrite Hf).
  split.
  - apply wf_reorder; [done|]. rewrite Hm. by apply Remove_perm.
  - exists (el_entry e). split_and!; [done|unfold entry_value; by rewrite Hf|].
    unfold c', view. cbn. rewrite Hm. simpl. f_equal. by apply remove_view.
Qed.

Lemma delete_wf c k id :
  lru_wf c → lru_entries c !! k = Some id →
  lru_wf (c <| lru_entries := delete k (lru_entries c) |>
            <| lru_order := list_Remove id (lru_order c) |>).
Proof.
  intros Hw Hl. destruct (wf_hit c k id Hw Hl) as (e & Hin & <- & <- & _ & _).
  destruct Hw as [Hc Hi Hk Hfr He Hb].
  pose proof (Remove_perm (lru_order c) e Hi Hin) as Hp.
  set (l := list_Remove (el_id e) (lru_order c)) in *. clearbody l.
  rewrite <- Hp in Hi, Hk, Hb. simpl in *. apply NoDup_cons in Hi as [Hi1 Hi2].
  apply NoDup_cons in Hk as [Hk1 Hk2]. split; cbn; try done; [| |lia].
  - intros x Hx. apply Hfr. rewrite <- Hp. set_solver.
  - intros k id. destruct (decide (elem_key e = k)) as [<-|Hne].
    + rewrite lookup_delete_eq. split; [done|]. intros (x & Hx & _ & Hkx). exfalso. apply Hk1.
      rewrite <- Hkx. by apply (list_elem_of_fmap_2 elem_key).
    + rewrite lookup_delete_ne, He by done. setoid_rewrite <- Hp. split.
      * intros (x & [->|Hx]%elem_of_cons & ? & ?); [done|by exists x].
      * intros (x & Hx & ? & ?). exists x. set_solver.
Qed.

(** ** Sequences of operations *)

Inductive op : Type := OpGetOrAdd (key : K) (create : V) | OpGet (key : K) | OpDelete (key : K).

(** What the caller sees: the value, whether the key was there ([Delete]), and
    the entry the eviction callback gets. *)
Abbreviation answer := (option V * bool * option boundedLRUEntry)%type.

Definition step (cache : BoundedLRU) (o : op) : answer * BoundedLRU :=
  match o with
  | OpGetOrAdd k v => let '(r, c, ev) := GetOrAdd cache k v in ((r, false, ev), c)
  | OpGet k => let '(r, c) := Get cache k in ((r, bool_decide (is_Some r), None), c)
  | OpDelete k => let '(b, c, ev) := Delete cache k in ((None, b, ev), c)
  end.
Definition spec_step (cap : nat) (l : list boundedLRUEntry) (o : op) :
    answer * list boundedLRUEntry :=
  match o with
  | OpGetOrAdd k v => let '(r, l', ev) := spec_GetOrAdd cap l k v in ((Some r, false, ev), l')
  | OpGet k => let '(r, l') := spec_Get l k in ((r, bool_decide (is_Some r), None), l')
  | OpDelete k => let '(b, l', ev) := spec_Delete l k in ((None, b, ev), l')
  end.
Fixpoint run (cache : BoundedLRU) (ops : list op) : list answer * BoundedLRU :=
  match ops with
  | [] => ([], cache)
  | o :: ops => let '(a, c) := step cache o in let '(rest, c) := run c ops in (a :: rest, c)
  end.
Fixpoint spec_run (cap : nat) (l : list boundedLRUEntry) (ops : list op) :
    list answer * list boundedLRUEntry :=
  match ops with
  | [] => ([], l)
  | o :: ops => let '(a, l) := spec_step cap l o in let '(rest, l) := spec_run cap l ops in
                (a :: rest, l)
  end.

Lemma length_view c : length (view c) = length (lru_order c).
Proof. apply length_map. Qed.

Lemma add_wf c k v :
  lru_wf c → lru_entries c !! k = None →
  let e := {| el_id := lru_next c; el_entry := {| e_key := k; e_value := v |} |} in
  NoDup (map el_id (e :: lru_order c)) ∧ NoDup (map elem_key (e :: lru_order c))
  ∧ (∀ x, x ∈ e :: lru_order c → (el_id x < S (lru_next c))%nat)
  ∧ ∀ k' id, <[k := lru_next c]> (lru_entries c) !! k' = Some id ↔
       ∃ x, x ∈ e :: lru_order c ∧ el_id x = id ∧ elem_key x = k'.
Proof.
  intros [Hc Hi Hk Hf He Hb] Hl e. split_and!; simpl.
  - apply NoDup_cons. split; [|done]. change (map el_id (lru_order c)) with (el_id <$> lru_order c).
    intros (x & Hx & Hin)%list_elem_of_fmap. specialize (Hf x Hin). lia.
  - apply NoDup_cons. split; [|done].
    change (map elem_key (lru_order c)) with (elem_key <$> lru_order c).
    intros (x & Hx & Hin)%list_elem_of_fmap.
    assert (lru_entries c !! k = Some (el_id x)) by (apply He; by exists x). congruence.
  - intros x [->|Hx]%elem_of_cons; simpl; [lia|]. specialize (Hf x Hx). lia.
  - intros k' id. destruct (decide (k = k')) as [<-|Hne].
    + rewrite lookup_insert_eq. split.
      * intros [= <-]. exists e. set_solver.
      * intros (x & [->|Hx]%elem_of_cons & Hid & Hkx); [simpl in Hid; by f_equal|].
        assert (lru_entries c !! k = Some id) by (apply He; by exists x). congruence.
    + rewrite lookup_insert_ne, He by done. split.
      * intros (x & Hx & ? & ?). exists x. set_solver.
      * intros (x & [->|Hx]%elem_of_cons & ? & ?); [done|by exists x].
Qed.

Lemma GetOrAdd_refines c k v :
  lru_wf c →
  let '(r, c', ev) := GetOrAdd c k v in
  let '(r', l', ev') := spec_GetOrAdd (Z.to_nat (lru_capacity c)) (view c) k v in
  lru_wf c' ∧ lru_capacity c' = lru_capacity c ∧ view c' = l' ∧ r = Some r' ∧ ev = ev'.
Proof.
  intros Hw. unfold GetOrAdd, spec_GetOrAdd. destruct (lru_entries c !! k) as [id|] eqn:Hl.
  { destruct (hit_refines c k id Hw Hl) as (Hw' & e & -> & Hv & Hview). by split_and!. }
  rewrite (wf_miss c k Hw Hl). cbv zeta.
  destruct (add_wf c k v Hw Hl) as (Hi & Hk & Hf & He).
  set (e := {| el_id := lru_next c; el_entry := {| e_key := k; e_value := v |} |}) in *.
  assert (Hview : {| e_key := k; e_value := v |} :: view c = map el_entry (e :: lru_order c)) by done.
  pose proof (wf_capacity c Hw) as Hcap. pose proof (wf_bound c Hw) as Hb.
  set (order := e :: lru_order c) in *.
  assert (Hlen : length order = S (length (lru_order c))) by done.
  set (c1 := c <| lru_next := S (lru_next c) |> <| lru_entries := <[k := el_id e]> (lru_entries c) |>
               <| lru_order := order |>).
  change (lru_capacity (c <| lru_next := S (lru_next c) |>)) with (lru_capacity c). case_if; bprop.
  - destruct (last order) as [oldest|] eqn:Elast; [|by apply last_None in Elast].
    apply last_Some in Elast as [l Hl'].
    assert (Hin : oldest ∈ order) by (rewrite Hl'; set_solver).
    assert (Hcl : Z.to_nat (lru_capacity c) = length l).
    { rewrite Hl', length_app in Hlen. simpl in Hlen. rewrite Hl', length_app in E. simpl in E. lia. }
    assert (Hrem : list_Remove (el_id oldest) order = l) by (rewrite Hl' in *; by apply Remove_last).
    split_and!; [|done| |done|].
    + pose proof (Remove_perm order oldest Hi Hin) as Hp. rewrite Hrem in Hp.
      rewrite <- Hp in Hi, Hk. simpl in Hi, Hk. apply NoDup_cons in Hi as [_ Hi].
      apply NoDup_cons in Hk as [Hk1 Hk2]. change (el_id e) with (lru_next c).
      split; cbn -[order e]; rewrite ?Hrem; try done; [| |lia].
      * intros x Hx. apply Hf. rewrite Hl'. set_solver.
      * intros k' id. destruct (decide (elem_key oldest = k')) as [<-|Hne].
        -- rewrite lookup_delete_eq. split; [done|]. intros (x & Hx & _ & Hkx). exfalso. apply Hk1.
           rewrite <- Hkx. by apply (list_elem_of_fmap_2 elem_key).
        -- rewrite lookup_delete_ne, He by done. setoid_rewrite <- Hp. split.
           ++ intros (x & [->|Hx]%elem_of_cons & ? & ?); [done|by exists x].
           ++ intros (x & Hx & ? & ?). exists x. set_solver.
    + unfold view at 1. cbn -[order e]. rewrite Hrem, Hview, Hl', map_app, take_app_length'; [done|by rewrite length_map].
    + rewrite Hview, Hl', map_app, drop_app_length'; [done|by rewrite length_map].
  - split_and!; [|done| |done|].
    + split; cbn -[order e]; try done.
    + rewrite Hview, take_ge; [done|]. rewrite length_map. lia.
    + rewrite drop_ge; [done|]. rewrite Hview, length_map. lia.
Qed.

Lemma step_refines c o :
  lru_wf c →
  lru_wf (step c o).2 ∧ lru_capacity (step c o).2 = lru_capacity c
  ∧ (step c o).1 = (spec_step (Z.to_nat (lru_capacity c)) (view c) o).1
  ∧ view (step c o).2 = (spec_step (Z.to_nat (lru_capacity c)) (view c) o).2.
Proof.
  intros Hw. destruct o as [k v|k|k]; simpl.
  - pose proof (GetOrAdd_refines c k v Hw) as H. destruct (GetOrAdd c k v) as [[r c'] ev].
    destruct (spec_GetOrAdd _ _ _ _) as [[r' l'] ev']. simpl. destruct H as (? & ? & ? & -> & ->).
    by split_and!.
  - unfold Get, spec_Get. destruct (lru_entries c !! k) as [id|] eqn:Hl.
    + destruct (hit_refines c k id Hw Hl) as (Hw' & e & -> & -> & Hview). by split_and!.
    + rewrite (wf_miss c k Hw Hl). by split_and!.
  - unfold Delete, spec_Delete. destruct (lru_entries c !! k) as [id|] eqn:Hl.
    + pose proof (delete_wf c k id Hw Hl) as Hd.
      destruct (wf_hit c k id Hw Hl) as (e & Hin & Hid & Hk & Hf & Hs). rewrite Hs, Hf.
      split_and!; [exact Hd|done|done|]. unfold view at 1. cbn. rewrite <- Hid, <- Hk.
      apply remove_view; [apply (wf_ids _ Hw)|apply (wf_keys _ Hw)|done].
    + rewrite (wf_miss c k Hw Hl). by split_and!.
Qed.

Lemma run_refines ops c :
  lru_wf c →
  lru_wf (run c ops).2 ∧ lru_capacity (run c ops).2 = lru_capacity c
  ∧ (run c ops).1 = (spec_run (Z.to_nat (lru_capacity c)) (view c) ops).1
  ∧ view (run c ops).2 = (spec_run (Z.to_nat (lru_capacity c)) (view c) ops).2.
Proof.
  revert c. induction ops as [|o ops IH]; intros c Hw; simpl; [by split_and!|].
  destruct (step_refines c o Hw) as (Hw1 & Hc1 & Ha & Hv).
  destruct (step c o) as [a c1]. simpl in *.
  destruct (spec_step _ _ _) as [a' l1]. simpl in *. subst a' l1.
  specialize (IH c1 Hw1). rewrite Hc1 in IH. destruct IH as (Hw2 & Hc2 & Hr & Hv2).
  destruct (run c1 ops) as [rest c2]. destruct (spec_run _ _ ops) as [rest' l2]. simpl in *.
  subst. by split_and!.
Qed.

(** The cache implements its specification: over any sequence of calls it
    returns the values, and hands the eviction callback the entries, that a
    plain list of entries in order of last use would, cut at the capacity; the
    map and the list never disagree, and the size never exceeds the capacity. *)
Theorem lru_refines capacity ops :
  let cap := Z.max 1 capacity in
  let '(answers, cache) := run (NewBoundedLRU capacity) ops in
  let '(answers', l) := spec_run (Z.to_nat cap) [] ops in
  answers = answers' ∧ view cache = l
  ∧ Len cache = Z.of_nat (length l) ∧ Len cache ≤ cap
  ∧ (∀ k, is_Some (lru_entries cache !! k) ↔ is_Some (spec_find k l)).
Proof.
  intros cap. pose proof (run_refines ops (NewBoundedLRU capacity) (New_wf capacity)) as H.
  assert (Hcap : lru_capacity (NewBoundedLRU capacity) = cap)
    by (unfold cap; simpl; case_if; bprop; lia).
  rewrite Hcap in H. change (view (NewBoundedLRU capacity)) with (@nil boundedLRUEntry) in H.
  destruct (run _ ops) as [answers cache]. destruct (spec_run _ _ ops) as [answers' l].
  simpl in H. destruct H as (Hw & Hc & -> & <-). unfold Len. rewrite (wf_size _ Hw), length_view.
  split_and!; [done..|by rewrite <- Hc; apply wf_bound|]. intros k. split.
  - intros [id Hl]. destruct (wf_hit cache k id Hw Hl) as (e & _ & _ & _ & _ & ->). by eexists.
  - intros [e Hs]. destruct (lru_entries cache !! k) eqn:El; [by eexists|].
    by rewrite (wf_miss cache k Hw El) in Hs.
Qed.

(** ** The entries kept are the most recently used ones *)

(** The distinct keys of a list of accesses, last used first. *)
Definition drop_key (k : K) (l : list K) : list K := List.filter (fun x => negb (bool_decide (x = k))) l.
Definition touch (recent : list K) (k : K) : list K := k :: drop_key k recent.
Definition recency (keys : list K) : list K := foldl touch [] keys.

Lemma drop_key_elem k l x : x ∈ drop_key k l ↔ x ≠ k ∧ x ∈ l.
Proof.
  unfold drop_key. rewrite !list_elem_of_In, List.filter_In. rewrite negb_true_iff, bool_decide_eq_false.
  tauto.
Qed.
Lemma drop_key_notin k l : k ∉ l → drop_key k l = l.
Proof.
  induction l as [|x l IH]; [done|]. simpl. intros Hk. rewrite bool_decide_false by set_solver.
  simpl. rewrite IH; set_solver.
Qed.
Lemma recency_NoDup keys : NoDup (recency keys).
Proof.
  unfold recency. apply (foldl_invariant (NoDup (A := K))); [|constructor].
  intros r k _ Hr. apply NoDup_cons. split; [rewrite drop_key_elem; tauto|].
  unfold drop_key. apply NoDup_ListNoDup, List.NoDup_filter. by apply NoDup_ListNoDup.
Qed.

Lemma take_drop_key_out n k r : k ∉ take n r → take n (drop_key k r) = take n r.
Proof.
  revert n. induction r as [|x r IH]; intros n Hk; [done|]. destruct n as [|n]; [done|].
  simpl in Hk. simpl. rewrite bool_decide_false by set_solver. simpl. f_equal. apply IH. set_solver.
Qed.
Lemma take_drop_key_in n k r :
  NoDup r → k ∈ take (S n) r → drop_key k (take (S n) r) = take n (drop_key k r).
Proof.
  revert n. induction r as [|x r IH]; intros n Hnd Hk; [by apply elem_of_nil in Hk|].
  apply NoDup_cons in Hnd as [Hx Hnd]. rewrite firstn_cons in *. simpl.
  destruct (decide (x = k)) as [->|Hne].
  - rewrite bool_decide_true by done. simpl. rewrite !drop_key_notin; [done|done|].
    intros Hin. apply Hx. by eapply subseteq_take.
  - rewrite bool_decide_false by done. simpl. destruct n as [|n].
    + simpl in Hk. set_solver.
    + simpl. f_equal. apply IH; [done|]. set_solver.
Qed.

Lemma spec_find_keys k l : is_Some (spec_find k l) ↔ k ∈ map e_key l.
Proof.
  unfold spec_find, entry_is. induction l as [|x l IH]; simpl.
  - split; [by intros [? ?]|by intros ?%elem_of_nil].
  - case_bool_decide; rewrite elem_of_cons; [split; [by left|by eexists]|].
    rewrite IH. split; [by right|]. intros [->|]; done.
Qed.
Lemma spec_remove_keys k l : map e_key (spec_remove k l) = drop_key k (map e_key l).
Proof.
  unfold spec_remove, drop_key, entry_is. induction l as [|x l IH]; [done|]. simpl.
  case_bool_decide; simpl; by rewrite IH.
Qed.

Lemma spec_touch cap r l k v :
  (0 < cap)%nat → NoDup r → map e_key l = take cap r →
  map e_key (spec_GetOrAdd cap l k v).1.2 = take cap (touch r k).
Proof.
  intros Hcap Hr Hl. unfold spec_GetOrAdd, touch. destruct cap as [|n]; [lia|].
  destruct (spec_find k l) as [e|] eqn:Es; simpl.
  - assert (Hk : e_key e = k).
    { apply List.find_some in Es as [_ Hb]. unfold entry_is in Hb. by bprop. }
    rewrite Hk, spec_remove_keys, Hl. f_equal. apply take_drop_key_in; [done|].
    rewrite <- Hl. apply spec_find_keys. by eexists.
  - f_equal. rewrite <- firstn_map, Hl, take_take, Nat.min_l by lia.
    rewrite take_drop_key_out; [done|].
    intros Hin. assert (Hin' : k ∈ take (S n) r).
    { apply (subseteq_take n). by rewrite take_take, Nat.min_l by lia. }
    rewrite <- Hl in Hin'. apply spec_find_keys in Hin' as [? ?]. congruence.
Qed.

(** The cache keeps exactly the most recently used keys: after any sequence
    of accesses that fill it, its keys are the last distinct ones of the
    sequence, as many as the capacity, in that order. *)
Theorem lru_keeps_recent capacity accesses :
  let cache := (run (NewBoundedLRU capacity)
                  (map (fun p => OpGetOrAdd p.1 p.2) accesses)).2 in
  map e_key (view cache) = take (Z.to_nat (Z.max 1 capacity)) (recency (map fst accesses)).
Proof.
  intros cache.
  destruct (run_refines (map (fun p => OpGetOrAdd p.1 p.2) accesses) (NewBoundedLRU capacity)
              (New_wf capacity)) as (_ & _ & _ & Hv).
  unfold cache. rewrite Hv. change (view (NewBoundedLRU capacity)) with (@nil boundedLRUEntry).
  assert (Hcap : lru_capacity (NewBoundedLRU capacity) = Z.max 1 capacity)
    by (simpl; case_if; bprop; lia).
  rewrite Hcap. set (cap := Z.to_nat (Z.max 1 capacity)).
  assert (Hpos : (0 < cap)%nat) by lia. clearbody cap. clear cache Hv Hcap.
  enough (Hgen : ∀ l r, NoDup r → map e_key l = take cap r →
    map e_key (spec_run cap l (map (fun p => OpGetOrAdd p.1 p.2) accesses)).2
    = take cap (foldl touch r (map fst accesses))).
  { apply Hgen; [constructor|]. by rewrite take_nil. }
  induction accesses as [|[k v] accesses IH]; intros l r Hr Hl; simpl; [done|].
  pose proof (spec_touch cap r l k v Hpos Hr Hl) as Ht.
  destruct (spec_GetOrAdd cap l k v) as [[x l1] ev]. simpl in Ht.
  specialize (IH l1 (touch r k)). destruct (spec_run cap l1 _) as [rest l2]. simpl in *.
  apply IH; [|done]. unfold touch. apply NoDup_cons. split; [rewrite drop_key_elem; tauto|].
  unfold drop_key. apply NoDup_ListNoDup, List.NoDup_filter. by apply NoDup_ListNoDup.
Qed.

End LRU.
End BoundedLRU.
