(* ===== verification/UsageQueue.v ===== *)
(** * The usage queue: internal/redisqueue/queue.go

    The retained queue (a slice with a moving head, pruned by age and compacted)
    and its subscribers, buffered channels that get every payload until they
    fall behind.  The queue operations are atomic, each under the mutex; the
    channels a [clear] or [unsubscribe] has detached are closed after the mutex
    is released, by steps of their own that may interleave with anything. *)
From S2P Require Import Prelude.

Module UsageQueue.

Definition defaultRetentionSeconds : Z := 60.
Definition maxRetentionSeconds : Z := 3600.
Definition usageSubscriberBuffer : nat := 256.
Definition errorSubscriberBuffer : nat := 256.

Definition SetRetentionSeconds (value : Z) : Z :=
  if value <=? 0 then defaultRetentionSeconds
  else if maxRetentionSeconds <? value then maxRetentionSeconds else value.

Record queueItem : Type := { enqueuedAt : time; payload : string }.

(** A channel is a handle into the store of channels; [subscribers] maps
    identifiers to handles. *)
Record queue : Type := {
  q_items : list queueItem;
  q_head : nat;
  q_subscribers : gmap Z nat;
  q_nextSubscriberID : Z;
}.
#[global] Instance queue_eta : Eta queue := fun q =>
  {| q_items := q_items q; q_head := q_head q; q_subscribers := q_subscribers q;
     q_nextSubscriberID := q_nextSubscriberID q |}.
Definition empty_queue : queue :=
  {| q_items := []; q_head := 0; q_subscribers := ∅; q_nextSubscriberID := 0 |}.

(** ** The retained items *)

(** How many of the items are older than the cutoff, up to the first that is not. *)
Fixpoint expired_prefix (cutoff : time) (l : list queueItem) : nat :=
  match l with
  | item :: rest => if before (enqueuedAt item) cutoff then S (expired_prefix cutoff rest) else 0
  | [] => 0
  end.

Definition cutoff_at (retention : Z) (now : time) : time :=
  let windowSeconds := if retention <=? 0 then defaultRetentionSeconds else retention in
  now - windowSeconds * second.

Definition pruneLocked (retention : Z) (q : queue) (now : time) : queue :=
  if (length (q_items q) <=? q_head q)%nat then q <| q_items := [] |> <| q_head := 0%nat |>
  else q <| q_head := (q_head q + expired_prefix (cutoff_at retention now)
                                    (drop (q_head q) (q_items q)))%nat |>.

Definition maybeCompactLocked (q : queue) : queue :=
  if (q_head q =? 0)%nat then q
  else if (length (q_items q) <=? q_head q)%nat then q <| q_items := [] |> <| q_head := 0%nat |>
  else if (q_head q <? 1024)%nat && (q_head q * 2 <? length (q_items q))%nat then q
  else q <| q_items := drop (q_head q) (q_items q) |> <| q_head := 0%nat |>.

Definition enqueue (retention : Z) (q : queue) (data : string) (now : time) : queue :=
  let q := pruneLocked retention q now in
  maybeCompactLocked (q <| q_items := q_items q ++ [{| enqueuedAt := now; payload := data |}] |>).

(** [count] is positive ([PopOldest]). *)
Definition popOldest (retention : Z) (q : queue) (count : nat) (now : time) : list string * queue :=
  let q := pruneLocked retention q now in
  let available := (length (q_items q) - q_head q)%nat in
  if (available =? 0)%nat then ([], q <| q_items := [] |> <| q_head := 0%nat |>)
  else
    let count := if (available <? count)%nat then available else count in
    (map payload (take count (drop (q_head q) (q_items q))),
     maybeCompactLocked (q <| q_head := (q_head q + count)%nat |>)).

(** ** The package functions on the retained queue *)

Record package : Type := { pk_enabled : bool; pk_retention : Z; pk_queue : queue }.
Definition PopOldest (p : package) (count : Z) (now : time) : list string * package :=
  if negb (pk_enabled p) then ([], p)
  else if count <=? 0 then ([], p)
  else
    let '(out, q) := popOldest (pk_retention p) (pk_queue p) (Z.to_nat count) now in
    (out, {| pk_enabled := pk_enabled p; pk_retention := pk_retention p; pk_queue := q |}).

(** ** Specification of the retained queue *)

Definition live (q : queue) : list queueItem := drop (q_head q) (q_items q).
Definition prune (retention : Z) (now : time) (l : list queueItem) : list queueItem :=
  drop (expired_prefix (cutoff_at retention now) l) l.

(** The head never runs past the items, and is either at the start or, after
    less than 1024 pops, before the middle. *)
Definition queue_ok (q : queue) : Prop :=
  (q_head q = 0 ∨ q_head q < 1024 ∧ q_head q * 2 < length (q_items q))%nat.

Lemma queue_ok_head q : queue_ok q → (q_head q ≤ length (q_items q))%nat.
Proof. unfold queue_ok. lia. Qed.

Lemma expired_prefix_le cutoff l : (expired_prefix cutoff l ≤ length l)%nat.
Proof. induction l as [|x l IH]; simpl; [lia|]. case_if; lia. Qed.

Lemma pruneLocked_live retention q now :
  live (pruneLocked retention q now) = prune retention now (live q)
  ∧ (q_head (pruneLocked retention q now) ≤ length (q_items (pruneLocked retention q now)))%nat.
Proof.
  unfold pruneLocked, live, prune. destruct (Nat.leb_spec (length (q_items q)) (q_head q)) as [Hle|Hlt].
  - cbn. rewrite (drop_ge (q_items q)) by done. by rewrite drop_nil.
  - cbn. rewrite drop_drop. split; [done|].
    pose proof (expired_prefix_le (cutoff_at retention now) (drop (q_head q) (q_items q))) as H.
    rewrite length_drop in H. lia.
Qed.

Lemma maybeCompact_live q : live (maybeCompactLocked q) = live q ∧ queue_ok (maybeCompactLocked q).
Proof.
  unfold maybeCompactLocked, live, queue_ok.
  destruct (Nat.eqb_spec (q_head q) 0) as [->|Hn0]; [by auto|].
  destruct (Nat.leb_spec (length (q_items q)) (q_head q)) as [Hle|Hlt].
  - cbn. rewrite drop_ge by done. auto.
  - destruct (Nat.ltb_spec (q_head q) 1024), (Nat.ltb_spec (q_head q * 2) (length (q_items q)));
      cbn; rewrite ?drop_0; auto.
Qed.

Lemma enqueue_live retention q data now :
  live (enqueue retention q data now)
  = prune retention now (live q) ++ [{| enqueuedAt := now; payload := data |}]
  ∧ queue_ok (enqueue retention q data now).
Proof.
  unfold enqueue. destruct (pruneLocked_live retention q now) as [Hl Hh].
  set (q1 := pruneLocked retention q now) in *. clearbody q1.
  match goal with |- context [maybeCompactLocked ?x] =>
    destruct (maybeCompact_live x) as [-> Hok] end.
  split; [|done]. unfold live in *. cbn. by rewrite drop_app_le, Hl by done.
Qed.

Lemma popOldest_live retention q count now :
  let '(out, q') := popOldest retention q count now in
  out = map payload (take count (prune retention now (live q)))
  ∧ live q' = drop count (prune retention now (live q)) ∧ queue_ok q'.
Proof.
  unfold popOldest. destruct (pruneLocked_live retention q now) as [Hl Hh].
  set (q1 := pruneLocked retention q now) in *. clearbody q1. rewrite <- Hl. clear Hl.
  assert (Hlen : length (live q1) = (length (q_items q1) - q_head q1)%nat)
    by (unfold live; by rewrite length_drop).
  rewrite <- Hlen. destruct (Nat.eqb_spec (length (live q1)) 0) as [Hz|Hz].
  - apply length_zero_iff_nil in Hz. rewrite Hz, take_nil, drop_nil. by repeat split; left.
  - match goal with |- context [maybeCompactLocked ?x] =>
      destruct (maybeCompact_live x) as [-> Hok] end. fold (live q1).
    split_and!; [| |done].
    + destruct (Nat.ltb_spec (length (live q1)) count); [|done]. by rewrite !take_ge by lia.
    + destruct (Nat.ltb_spec (length (live q1)) count); unfold live at 1; cbn;
        rewrite <- drop_drop; fold (live q1); [|done]. by rewrite !drop_ge by lia.
Qed.

(** ** Sequences of operations *)

Inductive qop : Type := QEnqueue (data : string) (at_ : time) | QPop (count : nat) (at_ : time).
Definition op_time (o : qop) : time := match o with QEnqueue _ t => t | QPop _ t => t end.

Definition qstep (retention : Z) (q : queue) (o : qop) : list string * queue :=
  match o with
  | QEnqueue data now => ([], enqueue retention q data now)
  | QPop count now => popOldest retention q count now
  end.
Fixpoint qrun (retention : Z) (q : queue) (ops : list qop) : list string * queue :=
  match ops with
  | [] => ([], q)
  | o :: ops =>
      let '(out, q) := qstep retention q o in
      let '(rest, q) := qrun retention q ops in (out ++ rest, q)
  end.
Definition enqueued (ops : list qop) : list string :=
  omap (fun o => match o with QEnqueue data _ => Some data | _ => None end) ops.

#[global] Arguments enqueued : simpl never.

(** No item is older than the window at any operation. *)
Definition within_window (retention : Z) (start : time) (ops : list qop) : Prop :=
  ∀ o, o ∈ ops → start ≤ op_time o ∧ cutoff_at retention (op_time o) ≤ start.

Lemma prune_sublist retention now l : prune retention now l `sublist_of` l.
Proof. apply sublist_drop. Qed.
Lemma prune_young retention now start l :
  cutoff_at retention now ≤ start → (∀ x, x ∈ l → start ≤ enqueuedAt x) →
  prune retention now l = l.
Proof.
  intros Hc Hl. unfold prune. destruct l as [|x l]; [done|]. simpl.
  specialize (Hl x ltac:(set_solver)). case_if; [bprop; lia|done].
Qed.
Lemma map_sublist {A B} (f : A → B) l k : l `sublist_of` k → map f l `sublist_of` map f k.
Proof. induction 1; simpl; by constructor. Qed.

Lemma qrun_spec retention ops q :
  queue_ok q →
  let '(out, q') := qrun retention q ops in
  queue_ok q'
  ∧ out ++ map payload (live q') `sublist_of` map payload (live q) ++ enqueued ops
  ∧ (∀ start, within_window retention start ops → (∀ x, x ∈ live q → start ≤ enqueuedAt x) →
       out ++ map payload (live q') = map payload (live q) ++ enqueued ops).
Proof.
  revert q. induction ops as [|o ops IH]; intros q Hok; simpl; [by rewrite app_nil_r; split_and!|].
  destruct (qstep retention q o) as [out q1] eqn:Es.
  assert (Hstep : queue_ok q1
    ∧ out ++ map payload (live q1) `sublist_of`
        map payload (live q) ++ enqueued [o]
    ∧ (∀ start, start ≤ op_time o → cutoff_at retention (op_time o) ≤ start →
         (∀ x, x ∈ live q → start ≤ enqueuedAt x) →
         out ++ map payload (live q1) = map payload (live q) ++ enqueued [o]
         ∧ ∀ x, x ∈ live q1 → start ≤ enqueuedAt x)).
  { destruct o as [data now|count now]; simpl in Es.
    - injection Es as <- <-. destruct (enqueue_live retention q data now) as [Hl Hq].
      rewrite Hl, map_app. simpl. split_and!; [done| |].
      + apply sublist_app; [|done]. apply map_sublist, prune_sublist.
      + intros start Hs Hc Hx. rewrite (prune_young _ _ start) by done. split; [done|].
        intros x [Hin|Hin%list_elem_of_singleton]%elem_of_app; [by apply Hx|]. by subst x.
    - pose proof (popOldest_live retention q count now) as Hp. rewrite Es in Hp.
      destruct Hp as (-> & Hl & Hq). rewrite Hl, <- map_app, take_drop, app_nil_r.
      split_and!; [done|apply map_sublist, prune_sublist|]. simpl.
      intros start Hs Hc Hx. rewrite (prune_young _ _ start) by done. split; [done|].
      intros x Hin. apply Hx. by eapply subseteq_drop. }
  destruct Hstep as (Hq1 & Hsub & Hall). specialize (IH q1 Hq1).
  destruct (qrun retention q1 ops) as [rest q2]. destruct IH as (Hq2 & Hsub2 & Hall2).
  assert (Henq : enqueued (o :: ops) = enqueued [o] ++ enqueued ops) by apply (omap_app _ [o] ops).
  split_and!; [done| |].
  - rewrite Henq, <- app_assoc, (app_assoc (map payload (live q))).
    etransitivity; [apply (sublist_app out out _ _ ltac:(done) Hsub2)|].
    rewrite app_assoc. by apply sublist_app.
  - intros start Hw Hx. destruct (Hw o ltac:(set_solver)) as [Hw1 Hw2].
    destruct (Hall start Hw1 Hw2 Hx) as [He Hx1].
    rewrite <- app_assoc, (Hall2 start), app_assoc, He, Henq, <- app_assoc; [done| |done].
    intros o' Ho'. apply Hw. set_solver.
Qed.

(** The retained queue is a first-in first-out queue whatever the pruning
    and compaction of its slice: what is popped, followed by what is left, is
    always a subsequence of what was enqueued, in order and without duplicates,
    and is all of it as long as nothing exceeds the retention window; and the
    slice never wastes more room than it holds live items. *)
Theorem queue_fifo retention ops :
  let '(popped, q) := qrun retention empty_queue ops in
  popped ++ map payload (live q) `sublist_of` enqueued ops
  ∧ (∀ start, within_window retention start ops →
       popped ++ map payload (live q) = enqueued ops)
  ∧ (q_head q ≤ length (live q))%nat
  ∧ length (q_items q) = (q_head q + length (live q))%nat.
Proof.
  pose proof (qrun_spec retention ops empty_queue (or_introl eq_refl)) as H.
  destruct (qrun retention empty_queue ops) as [popped q]. destruct H as (Hok & Hsub & Hall).
  unfold live at 3 4. rewrite length_drop. pose proof (queue_ok_head q Hok).
  split_and!; [exact Hsub| | |lia].
  - intros start Hw. apply (Hall start Hw). intros x Hx. by apply elem_of_nil in Hx.
  - unfold queue_ok in Hok. lia.
Qed.

(** ** Subscribers *)

Record chan : Type := { ch_buffer : list string; ch_capacity : nat; ch_closed : bool }.

(** The queue, the store of channels with the next fresh handle, the channels
    detached but not closed yet, and whether a goroutine has panicked (a send on
    a closed channel, a second close). *)
Record world : Type := {
  w_queue : queue;
  w_chans : gmap nat chan;
  w_next : nat;
  w_closing : list nat;
  w_panicked : bool;
}.
#[global] Instance world_eta : Eta world := fun w =>
  {| w_queue := w_queue w; w_chans := w_chans w; w_next := w_next w; w_closing := w_closing w;
     w_panicked := w_panicked w |}.
Definition new_world : world :=
  {| w_queue := empty_queue; w_chans := ∅; w_next := 0; w_closing := []; w_panicked := false |}.

Definition set_subscribers (w : world) (subs : gmap Z nat) : world :=
  w <| w_queue := (w_queue w) <| q_subscribers := subs |> |>.

(** [close(c)]. *)
Definition close_chan (w : world) (h : nat) : world :=
  match w_chans w !! h with
  | Some c =>
      if ch_closed c then w <| w_panicked := true |>
      else w <| w_chans := <[h := {| ch_buffer := ch_buffer c; ch_capacity := ch_capacity c;
                                     ch_closed := true |}]> (w_chans w) |>
  | None => w <| w_panicked := true |>
  end.

(** The [select] of [publishToSubscribers]: send if there is room, otherwise
    drop the subscriber and close its channel. *)
Definition publish_one (data : string) (w : world) (sub : Z * nat) : world :=
  let '(id, h) := sub in
  match w_chans w !! h with
  | Some c =>
      if ch_closed c then w <| w_panicked := true |>
      else if (length (ch_buffer c) <? ch_capacity c)%nat then
        w <| w_chans := <[h := {| ch_buffer := ch_buffer c ++ [data]; ch_capacity := ch_capacity c;
                                  ch_closed := false |}]> (w_chans w) |>
      else close_chan (set_subscribers w (delete id (q_subscribers (w_queue w)))) h
  | None => w <| w_panicked := true |>
  end.
Definition publishToSubscribers (w : world) (data : string) : bool * world :=
  if bool_decide (q_subscribers (w_queue w) = ∅) then (false, w)
  else (true, foldl (publish_one data) w (map_to_list (q_subscribers (w_queue w)))).

(** The channel is created and primed before the mutex is taken: nobody else
    has it yet.  An empty payload is not sent. *)
Definition subscribe (w : world) (buffer : nat) (initialPayload : string) : (Z * nat) * world :=
  let h := w_next w in
  let c := {| ch_buffer := if String.eqb initialPayload "" then [] else [initialPayload];
              ch_capacity := buffer; ch_closed := false |} in
  let id := wrapu64 (q_nextSubscriberID (w_queue w) + 1) in
  let q := (w_queue w) <| q_nextSubscriberID := id |>
             <| q_subscribers := <[id := h]> (q_subscribers (w_queue w)) |> in
  ((id, h), w <| w_queue := q |> <| w_chans := <[h := c]> (w_chans w) |> <| w_next := S h |>).

(** The locked parts of [unsubscribe] and [clear]; the closing follows. *)
Definition unsubscribe (w : world) (id : Z) : world :=
  match q_subscribers (w_queue w) !! id with
  | Some h => (set_subscribers w (delete id (q_subscribers (w_queue w))))
                <| w_closing := h :: w_closing w |>
  | None => w
  end.
Definition clear (w : world) : world :=
  let q := w_queue w in
  w <| w_queue := q <| q_items := [] |> <| q_head := 0%nat |> <| q_subscribers := ∅ |> |>
    <| w_closing := map snd (map_to_list (q_subscribers q)) ++ w_closing w |>.

(** [Enqueue] of the package: publish, and retain only what nobody takes. *)
Definition Enqueue (enabled : bool) (retention : Z) (w : world) (data : string) (now : time) : world :=
  if negb enabled then w
  else if String.eqb data "" then w
  else
    let '(published, w) := publishToSubscribers w data in
    if published then w else w <| w_queue := enqueue retention (w_queue w) data now |>.

(** One goroutine's atomic step. *)
Inductive wstep (w : world) : world → Prop :=
| step_publish data : wstep w (publishToSubscribers w data).2
| step_enqueue retention data now :
    wstep w (w <| w_queue := enqueue retention (w_queue w) data now |>)
| step_pop retention count now :
    wstep w (w <| w_queue := (popOldest retention (w_queue w) count now).2 |>)
| step_subscribe buffer initialPayload :
    (0 < buffer)%nat → wstep w (subscribe w buffer initialPayload).2
| step_unsubscribe id : wstep w (unsubscribe w id)
| step_clear : wstep w (clear w)
| step_close before_ h after_ :
    w_closing w = before_ ++ h :: after_ →
    wstep w (close_chan (w <| w_closing := before_ ++ after_ |>) h)
| step_receive h c x rest :
    w_chans w !! h = Some c → ch_buffer c = x :: rest →
    wstep w (w <| w_chans := <[h := {| ch_buffer := rest; ch_capacity := ch_capacity c;
                                       ch_closed := ch_closed c |}]> (w_chans w) |>).

Definition open_chan (w : world) (h : nat) : Prop :=
  ∃ c, w_chans w !! h = Some c ∧ ch_closed c = false.

Record world_ok (w : world) : Prop := {
  ok_calm : w_panicked w = false;
  ok_subs : ∀ id h, q_subscribers (w_queue w) !! id = Some h → open_chan w h;
  ok_inj : ∀ i j h, q_subscribers (w_queue w) !! i = Some h →
             q_subscribers (w_queue w) !! j = Some h → i = j;
  ok_closing : ∀ h, h ∈ w_closing w → open_chan w h;
  ok_closing_nodup : NoDup (w_closing w);
  ok_disjoint : ∀ id h, q_subscribers (w_queue w) !! id = Some h → h ∉ w_closing w;
  ok_fresh : ∀ h c, w_chans w !! h = Some c → (h < w_next w)%nat;
  ok_room : ∀ h c, w_chans w !! h = Some c → (length (ch_buffer c) ≤ ch_capacity c)%nat;
}.

Lemma open_insert w h c h' :
  ch_closed c = false → open_chan w h' →
  open_chan (w <| w_chans := <[h := c]> (w_chans w) |>) h'.
Proof.
  intros Hc (c' & Hl & Ho). unfold open_chan. cbn. destruct (decide (h = h')) as [<-|Hne].
  - exists c. by rewrite lookup_insert_eq.
  - exists c'. by rewrite lookup_insert_ne.
Qed.

(** Replacing the contents of an open channel. *)
Lemma refill_ok w h c c' :
  world_ok w → w_chans w !! h = Some c → ch_closed c' = ch_closed c →
  (length (ch_buffer c') ≤ ch_capacity c')%nat →
  world_ok (w <| w_chans := <[h := c']> (w_chans w) |>).
Proof.
  intros [Hp Hs Hi Hc Hn Hd Hf Hr] Hl Hcl Hlen.
  assert (Hopen : ∀ h', open_chan w h' → open_chan (w <| w_chans := <[h := c']> (w_chans w) |>) h').
  { intros h' (x & Hx & Hxo). unfold open_chan. cbn. destruct (decide (h = h')) as [<-|Hne].
    - exists c'. rewrite lookup_insert_eq. split; [done|]. congruence.
    - exists x. by rewrite lookup_insert_ne. }
  split; cbn; try done; eauto.
  - intros h' x. destruct (decide (h = h')) as [<-|Hne].
    + intros _. by eapply Hf.
    + rewrite lookup_insert_ne by done. apply Hf.
  - intros h' x. destruct (decide (h = h')) as [<-|Hne].
    + rewrite lookup_insert_eq. by intros [= <-].
    + rewrite lookup_insert_ne by done. apply Hr.
Qed.

Lemma shrink_ok w subs : world_ok w → subs ⊆ q_subscribers (w_queue w) → world_ok (set_subscribers w subs).
Proof.
  intros [Hp Hs Hi Hc Hn Hd Hf Hr] Hsub.
  assert (Hin : ∀ id h, subs !! id = Some h → q_subscribers (w_queue w) !! id = Some h)
    by (intros; by eapply lookup_weaken).
  split; cbn; try done; eauto.
Qed.

Lemma close_ok w h :
  world_ok w → open_chan w h → (∀ id, q_subscribers (w_queue w) !! id ≠ Some h) →
  h ∉ w_closing w → world_ok (close_chan w h).
Proof.
  intros [Hp Hs Hi Hc Hn Hd Hf Hr] (c & Hl & Ho) Hns Hnc. unfold close_chan. rewrite Hl, Ho.
  assert (Hopen : ∀ h', h' ≠ h → open_chan w h' → open_chan (w <| w_chans :=
     <[h := {| ch_buffer := ch_buffer c; ch_capacity := ch_capacity c; ch_closed := true |}]>
       (w_chans w) |>) h').
  { intros h' Hne (x & Hx & Hxo). exists x. cbn. by rewrite lookup_insert_ne. }
  split; cbn; try done.
  - intros id h' Hid. apply Hopen; [|by eapply Hs]. intros ->. by apply (Hns id).
  - intros h' Hh'. apply Hopen; [|by apply Hc]. by intros ->.
  - intros h' x. destruct (decide (h = h')) as [<-|Hne].
    + intros _. by eapply Hf.
    + rewrite lookup_insert_ne by done. apply Hf.
  - intros h' x. destruct (decide (h = h')) as [<-|Hne].
    + rewrite lookup_insert_eq. intros [= <-]. exact (Hr h c Hl).
    + rewrite lookup_insert_ne by done. apply Hr.
Qed.

(** ** Publishing *)

(** What becomes of a subscriber's channel. *)
Definition delivered (data : string) (c : chan) : chan :=
  if (length (ch_buffer c) <? ch_capacity c)%nat
  then {| ch_buffer := ch_buffer c ++ [data]; ch_capacity := ch_capacity c; ch_closed := false |}
  else {| ch_buffer := ch_buffer c; ch_capacity := ch_capacity c; ch_closed := true |}.
Definition has_room (c : chan) : bool := (length (ch_buffer c) <? ch_capacity c)%nat.

Lemma publish_one_spec data w id h c :
  world_ok w → q_subscribers (w_queue w) !! id = Some h → w_chans w !! h = Some c →
  let w' := publish_one data w (id, h) in
  world_ok w'
  ∧ w_chans w' = <[h := delivered data c]> (w_chans w)
  ∧ q_subscribers (w_queue w')
    = (if has_room c then q_subscribers (w_queue w) else delete id (q_subscribers (w_queue w)))
  ∧ live (w_queue w') = live (w_queue w).
Proof.
  intros Hw Hid Hl w'. destruct (ok_subs w Hw id h Hid) as (c0 & Hl0 & Ho).
  rewrite Hl in Hl0. injection Hl0 as <-. unfold w', publish_one, delivered, has_room. rewrite Hl, Ho.
  destruct (Nat.ltb_spec (length (ch_buffer c)) (ch_capacity c)) as [Hlt|Hge].
  - split; [|done]. eapply refill_ok; [done|done|done|]. simpl. rewrite length_app. simpl. lia.
  - pose proof (shrink_ok w (delete id (q_subscribers (w_queue w))) Hw (delete_subseteq _ _)) as Hw1.
    split; [|unfold close_chan; cbn; by rewrite Hl, Ho].
    apply close_ok; [done| | |by apply (ok_disjoint w Hw id)].
    + exists c. split; [done|done].
    + cbn. intros j Hj. apply lookup_delete_Some in Hj as [Hne Hj].
      apply Hne. by apply (ok_inj w Hw id j h).
Qed.

Lemma publish_fold data l w :
  world_ok w → NoDup (map fst l) →
  (∀ id h, (id, h) ∈ l → q_subscribers (w_queue w) !! id = Some h) →
  let w' := foldl (publish_one data) w l in
  world_ok w' ∧ live (w_queue w') = live (w_queue w)
  ∧ (∀ id h c, (id, h) ∈ l → w_chans w !! h = Some c →
       w_chans w' !! h = Some (delivered data c)
       ∧ (q_subscribers (w_queue w') !! id = if has_room c then Some h else None))
  ∧ (∀ h, h ∉ map snd l → w_chans w' !! h = w_chans w !! h)
  ∧ (∀ id, id ∉ map fst l → q_subscribers (w_queue w') !! id = q_subscribers (w_queue w) !! id).
Proof.
  revert w. induction l as [|[id h] l IH]; intros w Hw Hnd Hin; cbn [foldl map].
  { split_and!; try done. by intros id h c ?%elem_of_nil. }
  apply NoDup_cons in Hnd as [Hid Hnd]. simpl in Hid.
  assert (Hsub : q_subscribers (w_queue w) !! id = Some h) by (apply Hin; set_solver).
  destruct (ok_subs w Hw id h Hsub) as (c & Hl & Ho).
  destruct (publish_one_spec data w id h c Hw Hsub Hl) as (Hw1 & Hc1 & Hs1 & Hv1).
  set (w1 := publish_one data w (id, h)) in *. clearbody w1.
  assert (Hother : ∀ j, j ≠ id → q_subscribers (w_queue w1) !! j = q_subscribers (w_queue w) !! j).
  { intros j Hj. rewrite Hs1. case_if; [done|]. by rewrite lookup_delete_ne. }
  assert (Hfst : ∀ j k, (j, k) ∈ l → j ≠ id).
  { intros j k Hjk ->. apply Hid. by apply (list_elem_of_fmap_2 fst _ (id, k)). }
  assert (Hsnd : h ∉ map snd l).
  { change (map snd l) with (snd <$> l). intros ([j k] & Hk & Hjk)%list_elem_of_fmap. simpl in Hk.
    subst k. apply (Hfst j h Hjk). apply (ok_inj w Hw j id h); [apply Hin; set_solver|done]. }
  destruct (IH w1) as (Hw2 & Hv2 & Hd2 & Hc2 & Hs2); [done|done| |].
  { intros j k Hjk. rewrite Hother by by eapply Hfst. apply Hin. set_solver. }
  split_and!; [done|congruence| | |].
  - intros j k c' [Heq|Hjk]%elem_of_cons Hc'.
    + injection Heq as -> ->. assert (c' = c) as -> by congruence.
      rewrite Hc2, Hs2, Hc1, Hs1, lookup_insert_eq by done. split; [done|].
      case_if; [done|]. by rewrite lookup_delete_eq.
    + apply Hd2; [done|]. rewrite Hc1, lookup_insert_ne; [done|]. intros ->. apply Hsnd.
      by apply (list_elem_of_fmap_2 snd _ (j, k)).
  - intros k Hk. rewrite Hc2 by set_solver. rewrite Hc1, lookup_insert_ne by set_solver. done.
  - intros j Hj. rewrite Hs2 by set_solver. apply Hother. set_solver.
Qed.

Lemma publish_spec data w :
  world_ok w →
  let w' := (publishToSubscribers w data).2 in
  world_ok w' ∧ live (w_queue w') = live (w_queue w)
  ∧ (∀ id h c, q_subscribers (w_queue w) !! id = Some h → w_chans w !! h = Some c →
       w_chans w' !! h = Some (delivered data c)
       ∧ (q_subscribers (w_queue w') !! id = if has_room c then Some h else None))
  ∧ (∀ h, (∀ id, q_subscribers (w_queue w) !! id ≠ Some h) → w_chans w' !! h = w_chans w !! h).
Proof.
  intros Hw w'. unfold w', publishToSubscribers. case_bool_decide as He; simpl.
  { split_and!; try done. intros id h c Hid. by rewrite He, lookup_empty in Hid. }
  destruct (publish_fold data (map_to_list (q_subscribers (w_queue w))) w Hw) as (H1 & H2 & H3 & H4 & _).
  - change (map fst ?l) with (fst <$> l). apply NoDup_fst_map_to_list.
  - intros id h. apply elem_of_map_to_list.
  - split_and!; [done|done| |].
    + intros id h c Hid. apply H3. by apply elem_of_map_to_list.
    + intros h Hn. apply H4. change (map snd ?l) with (snd <$> l).
      intros ([id k] & -> & Hin)%list_elem_of_fmap. apply elem_of_map_to_list in Hin.
      by apply (Hn id).
Qed.

(** ** Every interleaving *)

Lemma enqueue_subscribers retention q data now :
  q_subscribers (enqueue retention q data now) = q_subscribers q.
Proof.
  unfold enqueue, maybeCompactLocked, pruneLocked. cbv zeta.
  repeat match goal with |- context [if ?b then _ else _] => destruct b; cbn end; done.
Qed.
Lemma maybeCompact_subscribers q : q_subscribers (maybeCompactLocked q) = q_subscribers q.
Proof. unfold maybeCompactLocked. case_if; [done|]. case_if; [done|]. by case_if. Qed.
Lemma popOldest_subscribers retention q count now :
  q_subscribers (popOldest retention q count now).2 = q_subscribers q.
Proof.
  unfold popOldest. set (q1 := pruneLocked retention q now).
  assert (Hq : q_subscribers q1 = q_subscribers q) by (unfold q1, pruneLocked; by case_if).
  rewrite <- Hq. clearbody q1. case_if; [done|]. cbn [snd]. by rewrite maybeCompact_subscribers.
Qed.

(** Replacing the retained items. *)
Lemma requeue_ok w q :
  q_subscribers q = q_subscribers (w_queue w) → world_ok w → world_ok (w <| w_queue := q |>).
Proof. intros Hq [Hp Hs Hi Hc Hn Hd Hf Hr]. split; cbn; rewrite ?Hq; done. Qed.

Lemma subscribe_ok w buffer initial :
  (0 < buffer)%nat → world_ok w → world_ok (subscribe w buffer initial).2.
Proof.
  intros Hb [Hp Hs Hi Hc Hn Hd Hf Hr]. unfold subscribe. cbn [snd].
  set (c := {| ch_buffer := _; ch_capacity := buffer; ch_closed := false |}).
  set (id := wrapu64 _). set (h := w_next w).
  assert (Hfresh : w_chans w !! h = None).
  { destruct (w_chans w !! h) eqn:E; [|done]. apply Hf in E. unfold h in E. lia. }
  assert (Hlt : ∀ k, open_chan w k → k ≠ h).
  { intros k (x & Hx & _) ->. by rewrite Hfresh in Hx. }
  assert (Hopen : ∀ k, k = h ∨ open_chan w k → ∃ x, <[h := c]> (w_chans w) !! k = Some x ∧ ch_closed x = false).
  { intros k [->|Hk]; [exists c; by rewrite lookup_insert_eq|].
    destruct Hk as (x & Hx & Ho). exists x. rewrite lookup_insert_ne; [done|].
    intros <-. by rewrite Hfresh in Hx. }
  assert (Hcase : ∀ i k, <[id := h]> (q_subscribers (w_queue w)) !! i = Some k →
    (i = id ∧ k = h) ∨ (i ≠ id ∧ q_subscribers (w_queue w) !! i = Some k ∧ k ≠ h)).
  { intros i k [[-> ->]|[Hne Hl]]%lookup_insert_Some; [by left|right].
    split_and!; [done..|]. by eapply Hlt, Hs. }
  split; unfold open_chan; cbn.
  - done.
  - intros i k [[-> ->]|(_ & Hl & _)]%Hcase; apply Hopen; [by left|right; by eapply Hs].
  - intros i j k [[-> ->]|(Hi1 & Hl1 & Hk1)]%Hcase [[-> Hk2]|(Hi2 & Hl2 & Hk2)]%Hcase; try done.
    by eapply Hi.
  - intros k Hk. apply Hopen. right. by apply Hc.
  - done.
  - intros i k [[-> ->]|(_ & Hl & _)]%Hcase; [|by eapply Hd]. intros Hin. by apply (Hlt h); [apply Hc|].
  - intros k x [[<- <-]|[_ Hx]]%lookup_insert_Some; [lia|]. apply Hf in Hx. lia.
  - intros k x [[<- <-]|[_ Hx]]%lookup_insert_Some; [|by eapply Hr]. simpl. case_if; simpl; lia.
Qed.

Lemma detach_ok w subs detached :
  world_ok w → subs ⊆ q_subscribers (w_queue w) → NoDup detached →
  (∀ h, h ∈ detached → ∃ id, q_subscribers (w_queue w) !! id = Some h) →
  (∀ id h, subs !! id = Some h → h ∉ detached) →
  world_ok ((set_subscribers w subs) <| w_closing := detached ++ w_closing w |>).
Proof.
  intros Hw Hsub Hnd Hdet Hdis. pose proof (shrink_ok w subs Hw Hsub) as [Hp Hs Hi Hc Hn Hd Hf Hr].
  split; cbn; try done.
  - intros h [Hh|Hh]%elem_of_app; [|by apply Hc]. destruct (Hdet h Hh) as [id Hid].
    destruct (ok_subs w Hw id h Hid) as (c & Hl & Ho). by exists c.
  - apply NoDup_app. split_and!; [done| |done]. intros h Hh. destruct (Hdet h Hh) as [id Hid].
    by apply (ok_disjoint w Hw id).
  - intros id h Hl [Hh|Hh]%elem_of_app; [by eapply Hdis|by eapply Hd].
Qed.

Lemma wstep_ok w w' : wstep w w' → world_ok w → world_ok w'.
Proof.
  intros [data|retention data now|retention count now|buffer initial Hb|id| |pre h post Hcl
         |h c x rest Hl Hbuf] Hw.
  - by apply publish_spec.
  - apply requeue_ok; [apply enqueue_subscribers|done].
  - apply requeue_ok; [apply popOldest_subscribers|done].
  - by apply subscribe_ok.
  - unfold unsubscribe. destruct (q_subscribers (w_queue w) !! id) as [h|] eqn:Hid; [|done].
    apply (detach_ok w (delete id (q_subscribers (w_queue w))) [h]); [done| | | |].
    + apply delete_subseteq.
    + apply NoDup_singleton.
    + intros k ->%list_elem_of_singleton. by exists id.
    + intros j k [Hne Hj]%lookup_delete_Some ->%list_elem_of_singleton.
      apply Hne. by apply (ok_inj w Hw id j h).
  - unfold clear.
    assert (Hd : world_ok ((set_subscribers w ∅)
      <| w_closing := map snd (map_to_list (q_subscribers (w_queue w))) ++ w_closing w |>)).
    { apply detach_ok; [done|apply map_empty_subseteq| | |by intros id h; rewrite lookup_empty].
      - apply NoDup_fmap_2_strong; [|apply NoDup_map_to_list].
        intros [i k] [j k'] Hi Hj Hk. simpl in Hk. subst k'.
        apply elem_of_map_to_list in Hi, Hj. f_equal. by eapply (ok_inj w Hw).
      - intros h. change (map snd ?l) with (snd <$> l).
        intros ([id k] & -> & Hin)%list_elem_of_fmap. exists id. by apply elem_of_map_to_list. }
    by apply (requeue_ok _ ((w_queue w) <| q_items := [] |> <| q_head := 0%nat |>
                              <| q_subscribers := ∅ |>)) in Hd.
  - destruct Hw as [Hp Hs Hi Hc Hn Hd Hf Hr]. rewrite Hcl in Hn.
    assert (Hin : ∀ k, k ∈ pre ++ post → k ∈ w_closing w) by (rewrite Hcl; set_solver).
    apply close_ok.
    + split; cbn; try done.
      * intros k Hk. by apply Hc, Hin.
      * apply NoDup_app in Hn as (H1 & H2 & H3). apply NoDup_cons in H3 as [H3 H4].
        apply NoDup_app. split_and!; [done| |done]. intros k Hk Hk'. apply (H2 k Hk). set_solver.
      * intros id k Hid Hk. by apply (Hd id k Hid), Hin.
    + apply Hc. rewrite Hcl. set_solver.
    + cbn. intros id Hid. apply (Hd id h Hid). rewrite Hcl. set_solver.
    + cbn. apply NoDup_app in Hn as (H1 & H2 & H3). apply NoDup_cons in H3 as [H3 H4].
      intros [Hk|Hk]%elem_of_app; [|done]. apply (H2 h Hk). set_solver.
  - eapply refill_ok; [done|done|done|]. simpl. pose proof (ok_room w Hw h c Hl) as Hr.
    rewrite Hbuf in Hr. simpl in Hr. lia.
Qed.

Lemma new_world_ok : world_ok new_world.
Proof. split; cbn; try done; try (intros *; rewrite lookup_empty; done); [set_solver|constructor]. Qed.

(** However the goroutines interleave, nobody ever sends on a closed channel
    or closes one twice: no step panics, every subscribed channel is open, and
    no buffer exceeds its capacity. *)
Theorem subscribers_safe w :
  rtc wstep new_world w →
  w_panicked w = false
  ∧ (∀ id h, q_subscribers (w_queue w) !! id = Some h → open_chan w h)
  ∧ (∀ h c, w_chans w !! h = Some c → (length (ch_buffer c) ≤ ch_capacity c)%nat).
Proof.
  intros Hr. assert (Hw : world_ok w).
  { pose proof new_world_ok as H0. induction Hr as [|x y z Hxy _ IH]; [done|].
    by eapply IH, wstep_ok. }
  split_and!; [apply (ok_calm w Hw)|apply (ok_subs w Hw)|apply (ok_room w Hw)].
Qed.

(** A payload is never lost silently: with subscribers, every one with room
    gets it at the end of its buffer and the others are dropped and their
    channels closed; without subscribers it is retained at the end of the
    queue; and nobody else's channel is touched. *)
Theorem enqueue_delivers retention w data now :
  rtc wstep new_world w → data ≠ "" →
  let w' := Enqueue true retention w data now in
  (∀ id h c, q_subscribers (w_queue w) !! id = Some h → w_chans w !! h = Some c →
     if has_room c
     then w_chans w' !! h = Some {| ch_buffer := ch_buffer c ++ [data];
                                    ch_capacity := ch_capacity c; ch_closed := false |}
          ∧ q_subscribers (w_queue w') !! id = Some h
     else (ch_closed <$> w_chans w' !! h) = Some true ∧ q_subscribers (w_queue w') !! id = None)
  ∧ (∀ h, (∀ id, q_subscribers (w_queue w) !! id ≠ Some h) → w_chans w' !! h = w_chans w !! h)
  ∧ live (w_queue w')
    = (if bool_decide (q_subscribers (w_queue w) = ∅)
       then prune retention now (live (w_queue w)) ++ [{| enqueuedAt := now; payload := data |}]
       else live (w_queue w)).
Proof.
  intros Hr Hd w'. assert (Hw : world_ok w).
  { pose proof new_world_ok as H0. induction Hr as [|x y z Hxy _ IH]; [done|].
    by eapply IH, wstep_ok. }
  unfold w', Enqueue. rewrite (proj2 (String.eqb_neq _ _) Hd). cbn [negb].
  destruct (publish_spec data w Hw) as (_ & Hlive & Hsub & Hother).
  unfold publishToSubscribers in *. case_bool_decide as He; cbn [snd] in *.
  - split_and!; [|done|].
    + intros id h c Hid. by rewrite He, lookup_empty in Hid.
    + cbn. apply enqueue_live.
  - split_and!; [|done|done]. intros id h c Hid Hc. destruct (Hsub id h c Hid Hc) as [H1 H2].
    rewrite H1, H2. unfold delivered. fold (has_room c). by destruct (has_room c).
Qed.

Lemma subscribers_safe_witness :
  w_panicked (publishToSubscribers (subscribe new_world 1 "").2 "x").2 = false.
Proof.
  apply (subscribers_safe (publishToSubscribers (subscribe new_world 1 "").2 "x").2).
  eapply rtc_l; [apply (step_subscribe _ 1 ""); lia|]. apply rtc_once, step_publish.
Defined.

Lemma enqueue_delivers_witness :
  let w := (subscribe new_world 1 "").2 in
  w_chans (Enqueue true 60 w "x" 5) !! 0%nat
  = Some {| ch_buffer := ["x"]; ch_capacity := 1; ch_closed := false |}.
Proof.
  intros w. destruct (enqueue_delivers 60 w "x" 5) as [H _].
  - apply rtc_once, step_subscribe. lia.
  - discriminate.
  - apply (H 1 0%nat {| ch_buffer := []; ch_capacity := 1; ch_closed := false |});
      vm_compute; reflexivity.
Defined.

End UsageQueue.
