(* ===== verification/ExecRegistry.v ===== *)
(** * The execution registry: sdk/cliproxy/executionregistry

    Dispatches are reserved, installed as scopes that may own a resource, and
    ended; draining rejects new work and closes what is bound.  Each operation
    below is what one goroutine does while it holds the registry mutex; the
    operations that release the mutex in between ([EndWithRelease], [Drain],
    [Close], [SetReleaseSink]) are cut into such pieces, and the pieces of all
    goroutines interleave freely ([rstep]).  The state word is changed without
    the mutex, but a block that has read it under the mutex changes nothing
    others can see before it ends, so it may be taken to run as a whole at the
    moment of that read. *)
From S2P Require Import Prelude.

Module ExecRegistry.

Inductive State : Type := StateAccepting | StateDraining | StateClosed.
#[global] Instance State_eq_dec : EqDecision State.
Proof. solve_decision. Defined.
Definition state_is (a b : State) : bool := bool_decide (a = b).

Inductive registry_error : Type :=
| ErrRegistryNotAccepting | ErrRegistryClosed | ErrInvalidPendingDispatch
| ErrInvalidExecutionResource | ErrExecutionResourceAlreadyBound.

Record ScopeSpec : Type := {
  RequestID : string;
  CredentialID : string;
  ScopeModel : string;
  Kind : string;
  StartedAt : time;
  Accounted : bool;
}.
(** A release group: credential and model. *)
Abbreviation ReleaseGroup := (string * string)%type.
Definition group_of (spec : ScopeSpec) : ReleaseGroup := (CredentialID spec, ScopeModel spec).

(** A call of a release sink: which sink, for which group, with which sequence. *)
Abbreviation sink_call := (nat * ReleaseGroup * Z)%type.

(** [closeDone]: not made yet, made and still open, closed. *)
Inductive close_state : Type := CloseNotStarted | CloseRunning (resource : nat) | CloseFinished.

(** How far the one execution of [EndWithRelease]'s body has come. *)
Inductive end_phase : Type :=
| EndNotStarted
| EndDeactivated
| EndWaiting
| EndMarked (call : option sink_call)
| EndReleased
| EndDone.

Record Scope : Type := {
  s_spec : ScopeSpec;
  s_closeFn : option nat;
  s_closeDone : close_state;
  s_active : bool;
  s_phase : end_phase;
}.
#[global] Instance Scope_eta : Eta Scope := fun s =>
  {| s_spec := s_spec s; s_closeFn := s_closeFn s; s_closeDone := s_closeDone s;
     s_active := s_active s; s_phase := s_phase s |}.

(** [r_scopes] are the identifiers in the map of the code, [r_objects] all scope
    objects ever made.  [r_closers] are the scopes [Drain] and [Close] still
    have to close, [r_snapshotted] says that one of them has listed them;
    [r_replays] are the calls [SetReleaseSink] still has to make.  The history
    of the calls of the sink and of the resources' close functions comes last. *)
Record Registry : Type := {
  r_state : State;
  r_next : Z;
  r_snapshotRevision : Z;
  r_observedBarrier : Z;
  r_pendingBarrierSequence : Z;
  r_publishedBarrier : Z;
  r_pending : gset Z;
  r_scopes : gset Z;
  r_objects : gmap Z Scope;
  r_releaseSequences : gmap ReleaseGroup Z;
  r_releaseSink : option nat;
  r_closers : list Z;
  r_snapshotted : bool;
  r_replays : list sink_call;
  r_sinkCalls : list sink_call;
  r_closeCalls : list nat;
}.
#[global] Instance Registry_eta : Eta Registry := fun r =>
  {| r_state := r_state r; r_next := r_next r; r_snapshotRevision := r_snapshotRevision r;
     r_observedBarrier := r_observedBarrier r;
     r_pendingBarrierSequence := r_pendingBarrierSequence r;
     r_publishedBarrier := r_publishedBarrier r; r_pending := r_pending r; r_scopes := r_scopes r;
     r_objects := r_objects r; r_releaseSequences := r_releaseSequences r;
     r_releaseSink := r_releaseSink r; r_closers := r_closers r;
     r_snapshotted := r_snapshotted r; r_replays := r_replays r; r_sinkCalls := r_sinkCalls r;
     r_closeCalls := r_closeCalls r |}.

Definition New : Registry :=
  {| r_state := StateAccepting; r_next := 0; r_snapshotRevision := 0; r_observedBarrier := 0;
     r_pendingBarrierSequence := 0; r_publishedBarrier := 0; r_pending := ∅; r_scopes := ∅;
     r_objects := ∅; r_releaseSequences := ∅; r_releaseSink := None; r_closers := [];
     r_snapshotted := false; r_replays := []; r_sinkCalls := []; r_closeCalls := [] |}.

Definition accepting (r : Registry) : bool := state_is (r_state r) StateAccepting.
Definition set_scope (r : Registry) (id : Z) (s : Scope) : Registry :=
  r <| r_objects := <[id := s]> (r_objects r) |>.

(** ** Dispatches *)

Definition BeginDispatch (r : Registry) : outcome registry_error Z * Registry :=
  if negb (accepting r) then (Err ErrRegistryNotAccepting, r)
  else
    let next := wrapu64 (r_next r + 1) in
    (Ok next, r <| r_next := next |> <| r_pending := {[next]} ∪ r_pending r |>).

Definition PendingEnd (r : Registry) (id : Z) : Registry :=
  r <| r_pending := r_pending r ∖ {[id]} |>.

Definition Install (r : Registry) (id : Z) (spec : ScopeSpec) : outcome registry_error Z * Registry :=
  if negb (accepting r) then
    (Err ErrRegistryNotAccepting, r <| r_pending := r_pending r ∖ {[id]} |>)
  else if negb (bool_decide (id ∈ r_pending r)) then (Err ErrInvalidPendingDispatch, r)
  else
    let scope := {| s_spec := spec; s_closeFn := None; s_closeDone := CloseNotStarted;
                    s_active := true; s_phase := EndNotStarted |} in
    (Ok id,
     (set_scope r id scope) <| r_pending := r_pending r ∖ {[id]} |>
                            <| r_scopes := {[id]} ∪ r_scopes r |>).

(** ** Scopes *)

Definition Bind (r : Registry) (id : Z) (resource : nat) : option registry_error * Registry :=
  match r_objects r !! id with
  | None => (Some ErrInvalidExecutionResource, r)
  | Some s =>
      if negb (accepting r) || negb (s_active s) then (Some ErrRegistryNotAccepting, r)
      else match s_closeFn s, s_closeDone s with
           | None, CloseNotStarted => (None, set_scope r id (s <| s_closeFn := Some resource |>))
           | _, _ => (Some ErrExecutionResourceAlreadyBound, r)
           end
  end.

(** The resource of a scope is handed to a goroutine that calls its close
    function. *)
Definition startBoundResourceClose (r : Registry) (id : Z) (s : Scope) : Registry * Scope :=
  match s_closeDone s, s_closeFn s with
  | CloseNotStarted, Some resource =>
      let s := s <| s_closeFn := None |> <| s_closeDone := CloseRunning resource |> in
      ((set_scope r id s) <| r_closeCalls := resource :: r_closeCalls r |>, s)
  | _, _ => (r, s)
  end.

Definition markReleasedLocked (r : Registry) (spec : ScopeSpec) :
    Registry * option sink_call :=
  if negb (Accounted spec) then (r, None)
  else
    let group := group_of spec in
    let sequence := wrap64 (default 0 (r_releaseSequences r !! group) + 1) in
    (r <| r_releaseSequences := <[group := sequence]> (r_releaseSequences r) |>,
     (fun sink => (sink, group, sequence)) <$> r_releaseSink r).

(** [EndWithRelease], piece by piece, as far as scope [id] has come; [None] when
    the goroutine waits or the scope has ended. *)
Definition end_step (r : Registry) (id : Z) (s : Scope) : option Registry :=
  match s_phase s with
  | EndNotStarted => Some (set_scope r id (s <| s_active := false |> <| s_phase := EndDeactivated |>))
  | EndDeactivated =>
      let '(r, s) := startBoundResourceClose r id s in
      Some (set_scope r id (s <| s_phase := EndWaiting |>))
  | EndWaiting =>
      match s_closeDone s with
      | CloseRunning _ => None
      | _ =>
          let '(r, call) := markReleasedLocked r (s_spec s) in
          Some (set_scope r id (s <| s_phase := EndMarked call |>))
      end
  | EndMarked call =>
      let r := match call with
               | Some call =>
                   if 0 <? call.2 then r <| r_sinkCalls := call :: r_sinkCalls r |> else r
               | None => r
               end in
      Some (set_scope r id (s <| s_phase := EndReleased |>))
  | EndReleased =>
      Some ((set_scope r id (s <| s_phase := EndDone |>)) <| r_scopes := r_scopes r ∖ {[id]} |>)
  | EndDone => None
  end.

(** The close function of a scope's resource returns. *)
Definition close_returns (r : Registry) (id : Z) (s : Scope) : option Registry :=
  match s_closeDone s with
  | CloseRunning _ => Some (set_scope r id (s <| s_closeDone := CloseFinished |>))
  | _ => None
  end.

(** ** Draining and closing *)

Definition drain_start (r : Registry) : option registry_error * Registry :=
  match r_state r with
  | StateAccepting => (None, r <| r_state := StateDraining |>)
  | StateDraining => (None, r)
  | StateClosed => (Some ErrRegistryClosed, r)
  end.
Definition close_start (r : Registry) : Registry := r <| r_state := StateClosed |>.
(** The scopes listed under the mutex. *)
Definition list_scopes (r : Registry) : Registry :=
  r <| r_closers := elements (r_scopes r) ++ r_closers r |> <| r_snapshotted := true |>.
Definition close_next (r : Registry) (id : Z) (s : Scope) (rest : list Z) : Registry :=
  ((startBoundResourceClose r id s).1) <| r_closers := rest |>.
Definition drain_finish (r : Registry) : option Registry :=
  if bool_decide (r_pending r = ∅) && bool_decide (r_scopes r = ∅)
  then Some (r <| r_state := StateClosed |>) else None.

(** ** The release sink *)

(** [sink]: nil, or which function. *)
Definition SetReleaseSink (r : Registry) (sink : option nat) : Registry :=
  let r := r <| r_releaseSink := sink |> in
  match sink with
  | None => r
  | Some k =>
      r <| r_replays := map (fun p => (k, p.1, p.2)) (map_to_list (r_releaseSequences r)) ++ r_replays r |>
  end.
Definition replay (r : Registry) (call : sink_call) (rest : list sink_call) : Registry :=
  r <| r_replays := rest |>
    <| r_sinkCalls := if 0 <? call.2 then call :: r_sinkCalls r else r_sinkCalls r |>.

(** ** Observation (observation.go) *)

Definition ObserveBarrier (r : Registry) (revision : Z) : Registry :=
  if revision <=? 0 then r
  else if r_observedBarrier r <? revision then
    r <| r_observedBarrier := revision |> <| r_pendingBarrierSequence := r_next r |>
  else r.

Record Freeze : Type := {
  Revision : Z;
  BarrierRevision : Z;
  Executions : list ScopeSpec;
}.

Definition barrier_blocked (r : Registry) : bool :=
  existsb (fun sequence => sequence <=? r_pendingBarrierSequence r) (elements (r_pending r)).
Definition scope_specs (r : Registry) : list ScopeSpec :=
  omap (fun id => s_spec <$> r_objects r !! id) (elements (r_scopes r)).
Definition FreezeInFlight (r : Registry) : Freeze * Registry :=
  let r := if (r_publishedBarrier r <? r_observedBarrier r) && negb (barrier_blocked r)
           then r <| r_publishedBarrier := r_observedBarrier r |> else r in
  let r := r <| r_snapshotRevision := wrap64 (r_snapshotRevision r + 1) |> in
  ({| Revision := r_snapshotRevision r; BarrierRevision := r_publishedBarrier r;
      Executions := scope_specs r |}, r).

(** ** The step relation

    Fewer than [2 ^ 63] dispatches are ever begun. *)
Inductive rstep (r : Registry) : Registry → Prop :=
| step_begin : r_next r < max_int64 → rstep r (BeginDispatch r).2
| step_pending_end id : rstep r (PendingEnd r id)
| step_install id spec : rstep r (Install r id spec).2
| step_bind id resource : resource ∉ r_closeCalls r →
    (∀ id' s', r_objects r !! id' = Some s' → s_closeFn s' ≠ Some resource) →
    rstep r (Bind r id resource).2
| step_end id s r' : r_objects r !! id = Some s → end_step r id s = Some r' → rstep r r'
| step_close_returns id s r' :
    r_objects r !! id = Some s → close_returns r id s = Some r' → rstep r r'
| step_drain_start : rstep r (drain_start r).2
| step_close_start : rstep r (close_start r)
| step_list_scopes : r_state r ≠ StateAccepting → rstep r (list_scopes r)
| step_close_next before_ id s after_ :
    r_closers r = before_ ++ id :: after_ → r_objects r !! id = Some s →
    rstep r (close_next r id s (before_ ++ after_))
| step_drain_finish r' : r_state r ≠ StateAccepting → drain_finish r = Some r' → rstep r r'
| step_sink sink : rstep r (SetReleaseSink r sink)
| step_replay before_ call after_ :
    r_replays r = before_ ++ call :: after_ → rstep r (replay r call (before_ ++ after_))
| step_barrier revision : rstep r (ObserveBarrier r revision)
| step_freeze : rstep r (FreezeInFlight r).2.

(** ** The invariant *)

Definition released (s : Scope) : bool :=
  match s_phase s with EndMarked _ | EndReleased | EndDone => true | _ => false end.
Definition counts_for (group : ReleaseGroup) (s : Scope) : bool :=
  released s && Accounted (s_spec s) && bool_decide (group_of (s_spec s) = group).
Definition release_count (group : ReleaseGroup) (objects : gmap Z Scope) : Z :=
  Z.of_nat (size (filter (fun p : Z * Scope => counts_for group p.2 = true) objects)).
Definition sequence_of (r : Registry) (group : ReleaseGroup) : Z :=
  default 0 (r_releaseSequences r !! group).

Record scope_ok (s : Scope) : Prop := {
  so_active : s_active s = true ↔ s_phase s = EndNotStarted;
  so_taken : s_closeDone s ≠ CloseNotStarted → s_closeFn s = None;
  so_closing : s_phase s ≠ EndNotStarted → s_phase s ≠ EndDeactivated → s_closeFn s = None;
  so_closed : released s = true → ∀ resource, s_closeDone s ≠ CloseRunning resource;
}.

Definition call_ok (r : Registry) (call : sink_call) : Prop :=
  1 ≤ call.2 ≤ sequence_of r call.1.2.

Record registry_ok (r : Registry) : Prop := {
  ro_next : 0 ≤ r_next r ≤ max_int64;
  ro_pending : ∀ id, id ∈ r_pending r → 0 < id ≤ r_next r ∧ r_objects r !! id = None;
  ro_objects : ∀ id s, r_objects r !! id = Some s → 0 < id ≤ r_next r ∧ scope_ok s;
  ro_scopes : ∀ id, id ∈ r_scopes r ↔ ∃ s, r_objects r !! id = Some s ∧ s_phase s ≠ EndDone;
  ro_closeCalls : NoDup (r_closeCalls r);
  ro_unclosed : ∀ id s resource, r_objects r !! id = Some s → s_closeFn s = Some resource →
                  resource ∉ r_closeCalls r;
  ro_distinct : ∀ i j s s' resource, r_objects r !! i = Some s → r_objects r !! j = Some s' →
                  s_closeFn s = Some resource → s_closeFn s' = Some resource → i = j;
  ro_snapshot : r_snapshotted r = true →
                  r_state r ≠ StateAccepting
                  ∧ ∀ id s, r_objects r !! id = Some s → s_closeFn s ≠ None → id ∈ r_closers r;
  ro_sequences : ∀ group, sequence_of r group = release_count group (r_objects r);
  ro_marked : ∀ id s call, r_objects r !! id = Some s → s_phase s = EndMarked (Some call) →
                call_ok r call;
  ro_sinkCalls : ∀ call, call ∈ r_sinkCalls r → call_ok r call;
  ro_replays : ∀ call, call ∈ r_replays r → call.2 ≤ sequence_of r call.1.2;
  ro_barrier : r_publishedBarrier r ≤ r_observedBarrier r ∧ r_pendingBarrierSequence r ≤ r_next r;
}.

Lemma New_ok : registry_ok New.
Proof.
  split; cbn; try done; try set_solver. constructor.
Qed.

(** ** Counting released scopes *)

Lemma release_count_bound group objects n :
  (∀ id s, objects !! id = Some s → 0 < id ≤ n) → 0 ≤ n → 0 ≤ release_count group objects ≤ n.
Proof.
  intros Hb Hn. unfold release_count. split; [lia|].
  set (m := filter _ objects).
  assert (Hsub : dom m ⊆ list_to_set (C := gset Z) (seqZ 1 n)).
  { intros id Hid. apply elem_of_dom in Hid as [s Hs]. apply map_lookup_filter_Some in Hs as [Hs _].
    apply Hb in Hs. apply elem_of_list_to_set, elem_of_seqZ. lia. }
  apply subseteq_size in Hsub. rewrite size_dom, size_list_to_set, length_seqZ in Hsub by apply NoDup_seqZ.
  lia.
Qed.

Lemma release_count_same group objects id s s' :
  objects !! id = Some s → counts_for group s' = counts_for group s →
  release_count group (<[id := s']> objects) = release_count group objects.
Proof.
  intros Hl Hc. unfold release_count. f_equal.
  rewrite <- !size_dom. f_equal. apply set_eq. intros j. rewrite !elem_of_dom.
  destruct (decide (id = j)) as [<-|Hne].
  - split; intros [x Hx]; apply map_lookup_filter_Some in Hx as [Hx Hf]; simpl in Hf.
    + rewrite lookup_insert_eq in Hx. injection Hx as <-. exists s.
      apply map_lookup_filter_Some. simpl. by rewrite <- Hc.
    + rewrite Hl in Hx. injection Hx as <-. exists s'.
      apply map_lookup_filter_Some. rewrite lookup_insert_eq. simpl. by rewrite Hc.
  - split; intros [x Hx]; apply map_lookup_filter_Some in Hx as [Hx Hf]; exists x;
      apply map_lookup_filter_Some; split; try done; by rewrite lookup_insert_ne in *.
Qed.

Lemma release_count_new group objects id s :
  objects !! id = None → counts_for group s = false →
  release_count group (<[id := s]> objects) = release_count group objects.
Proof.
  intros Hl Hc. unfold release_count. rewrite map_filter_insert_False by (simpl; by rewrite Hc).
  by rewrite delete_id.
Qed.

Lemma release_count_up group objects id s s' :
  objects !! id = Some s → counts_for group s = false → counts_for group s' = true →
  release_count group (<[id := s']> objects) = release_count group objects + 1.
Proof.
  intros Hl Hs Hs'. unfold release_count. rewrite map_filter_insert_True by done.
  rewrite map_size_insert_None; [lia|]. apply map_lookup_filter_None. right.
  intros x Hx. simpl. rewrite Hl in Hx. injection Hx as <-. by rewrite Hs.
Qed.

Lemma release_count_lt group objects id s n :
  objects !! id = Some s → counts_for group s = false →
  (∀ j x, objects !! j = Some x → 0 < j ≤ n) → release_count group objects < n.
Proof.
  intros Hl Hc Hb. pose proof (Hb id s Hl) as Hid.
  set (s' := {| s_spec := {| RequestID := ""; CredentialID := group.1; ScopeModel := group.2;
                             Kind := ""; StartedAt := 0; Accounted := true |};
                s_closeFn := None; s_closeDone := CloseNotStarted; s_active := false;
                s_phase := EndDone |}).
  assert (Hs' : counts_for group s' = true).
  { unfold counts_for. cbn. apply bool_decide_eq_true. by destruct group. }
  pose proof (release_count_up group objects id s s' Hl Hc Hs') as Hup.
  assert (Hbound : 0 ≤ release_count group (<[id := s']> objects) ≤ n); [|lia].
  apply release_count_bound; [|lia].
  intros j x [[<- <-]|[_ Hx]]%lookup_insert_Some; [done|by eapply Hb].
Qed.

(** ** Preservation *)

Lemma call_ok_mono r r' call :
  (∀ group, sequence_of r group ≤ sequence_of r' group) → call_ok r call → call_ok r' call.
Proof. intros Hm [H1 H2]. split; [done|]. specialize (Hm call.1.2). lia. Qed.

(** A scope object is replaced by one that holds no new resource, and the
    release sequences follow the count. *)
Lemma set_scope_seq_ok r id s s' seqs :
  registry_ok r → r_objects r !! id = Some s → scope_ok s' →
  (s_closeFn s' = None ∨ s_closeFn s' = s_closeFn s) →
  (s_phase s' = EndDone ↔ s_phase s = EndDone) →
  let r' := set_scope (r <| r_releaseSequences := seqs |>) id s' in
  (∀ group, sequence_of r group ≤ sequence_of r' group) →
  (∀ group, sequence_of r' group = release_count group (<[id := s']> (r_objects r))) →
  (∀ call, s_phase s' = EndMarked (Some call) → call_ok r' call) →
  registry_ok r'.
Proof.
  intros Hr Hl Hs' Hfn Hdone r' Hmono Hcount Hcall.
  assert (Hcase : ∀ j x, <[id := s']> (r_objects r) !! j = Some x →
    (j = id ∧ x = s') ∨ (j ≠ id ∧ r_objects r !! j = Some x)).
  { intros j x [[<- <-]|[Hne Hx]]%lookup_insert_Some; auto. }
  assert (Hfn' : ∀ resource, s_closeFn s' = Some resource → s_closeFn s = Some resource).
  { intros resource Hres. destruct Hfn as [Hf|Hf]; congruence. }
  pose proof (call_ok_mono r r') as Hcm. destruct Hr.
  split; try done.
  - intros j Hj. destruct (ro_pending0 j Hj) as [Hb Hn]. split; [done|].
    cbn. rewrite lookup_insert_ne; [done|]. intros ->. congruence.
  - intros j x [[-> ->]|[_ Hx]]%Hcase; [|by eapply ro_objects0]. split; [|done].
    by apply (ro_objects0 id s).
  - intros j. cbn. rewrite ro_scopes0. split.
    + intros (x & Hx & Hp). destruct (decide (id = j)) as [<-|Hne].
      * exists s'. rewrite lookup_insert_eq. split; [done|]. rewrite Hdone. congruence.
      * exists x. by rewrite lookup_insert_ne.
    + intros (x & [[-> ->]|[_ Hx]]%Hcase & Hp); [|by exists x]. exists s. by rewrite <- Hdone.
  - intros j x resource [[-> ->]|[_ Hx]]%Hcase Hres; [|by eapply ro_unclosed0].
    by eapply (ro_unclosed0 id s); auto.
  - intros j k x y resource [[-> ->]|[_ Hx]]%Hcase [[-> ->]|[_ Hy]]%Hcase H1 H2; eauto.
  - intros Hsn. destruct (ro_snapshot0 Hsn) as [Hst Hcl]. split; [done|].
    intros j x [[-> ->]|[_ Hx]]%Hcase Hres; [|by eapply Hcl]. apply (Hcl id s Hl).
    destruct (s_closeFn s') eqn:Ef; [|done]. by rewrite (Hfn' _ eq_refl).
  - intros j x call [[-> ->]|[_ Hx]]%Hcase Hp; [by apply Hcall|]. apply Hcm; [done|].
    by eapply ro_marked0.
  - intros call Hc. apply Hcm; [done|]. by apply ro_sinkCalls0.
  - intros call Hc. specialize (Hmono call.1.2). specialize (ro_replays0 call Hc). lia.
Qed.

(** The same when no scope is released. *)
Lemma set_scope_ok r id s s' :
  registry_ok r → r_objects r !! id = Some s → scope_ok s' →
  (s_closeFn s' = None ∨ s_closeFn s' = s_closeFn s) →
  (s_phase s' = EndDone ↔ s_phase s = EndDone) →
  (∀ group, counts_for group s' = counts_for group s) →
  (∀ call, s_phase s' = EndMarked (Some call) → call_ok r call) →
  registry_ok (set_scope r id s').
Proof.
  intros Hr Hl Hs' Hfn Hdone Hcount Hcall.
  assert (Heq : set_scope r id s' = set_scope (r <| r_releaseSequences := r_releaseSequences r |>) id s')
    by by destruct r.
  rewrite Heq. apply (set_scope_seq_ok r id s s'); try done.
  intros group. rewrite (release_count_same group _ id s s') by done. apply (ro_sequences r Hr).
Qed.

Lemma begin_ok r : r_next r < max_int64 → registry_ok r → registry_ok (BeginDispatch r).2.
Proof.
  intros Hn []. unfold BeginDispatch. case_if; [done|]. cbn [snd].
  assert (Hw : wrapu64 (r_next r + 1) = r_next r + 1).
  { unfold wrapu64. apply Z.mod_small. unfold max_int64 in *. lia. }
  rewrite Hw. split; cbn; try done.
  - lia.
  - intros id [->%elem_of_singleton|Hid]%elem_of_union.
    + split; [lia|]. destruct (r_objects r !! _) as [x|] eqn:Ex; [|done].
      apply ro_objects0 in Ex as [? _]. lia.
    + destruct (ro_pending0 id Hid). split; [lia|done].
  - intros id x Hx. destruct (ro_objects0 id x Hx). split; [lia|done].
  - lia.
Qed.

Lemma shrink_pending_ok r pending :
  pending ⊆ r_pending r → registry_ok r → registry_ok (r <| r_pending := pending |>).
Proof. intros Hs []. split; cbn; try done. intros id Hid. apply ro_pending0. set_solver. Qed.

Lemma install_ok r id spec : registry_ok r → registry_ok (Install r id spec).2.
Proof.
  intros Hr. unfold Install. destruct (negb (accepting r)) eqn:Eacc; [apply shrink_pending_ok; [set_solver|done]|].
  destruct (bool_decide (id ∈ r_pending r)) eqn:Ein; [|done]. bprop. cbn [snd negb]. destruct Hr. destruct (ro_pending0 id Ein) as [Hb Hn].
  set (s := {| s_spec := spec; s_closeFn := None; s_closeDone := CloseNotStarted;
               s_active := true; s_phase := EndNotStarted |}).
  assert (Hcase : ∀ j x, <[id := s]> (r_objects r) !! j = Some x →
    (j = id ∧ x = s) ∨ (j ≠ id ∧ r_objects r !! j = Some x)).
  { intros j x [[<- <-]|[Hne Hx]]%lookup_insert_Some; auto. }
  split; cbn -[s]; try done.
  - intros j [Hj Hne]%elem_of_difference. destruct (ro_pending0 j Hj). split; [done|].
    rewrite lookup_insert_ne; [done|]. set_solver.
  - intros j x [[-> ->]|[_ Hx]]%Hcase; [|by eapply ro_objects0]. split; [done|]. by split.
  - intros j. rewrite elem_of_union, elem_of_singleton, ro_scopes0. split.
    + intros [->|(x & Hx & Hp)]; [exists s; by rewrite lookup_insert_eq|].
      exists x. rewrite lookup_insert_ne; [done|]. intros ->. congruence.
    + intros (x & [[-> ->]|[_ Hx]]%Hcase & Hp); [by left|right; by exists x].
  - intros j x resource [[-> ->]|[_ Hx]]%Hcase Hres; [done|by eapply ro_unclosed0].
  - intros j k x y resource [[-> ->]|[_ Hx]]%Hcase [[-> ->]|[_ Hy]]%Hcase H1 H2; try done. eauto.
  - intros Hsn. destruct (ro_snapshot0 Hsn) as [Hst Hcl]. split; [done|].
    intros j x [[-> ->]|[_ Hx]]%Hcase Hres; [done|by eapply Hcl].
  - intros group. unfold sequence_of. cbn -[s]. rewrite release_count_new by done. apply ro_sequences0.
  - intros j x call [[-> ->]|[_ Hx]]%Hcase Hp; [done|by eapply ro_marked0].
Qed.

Lemma bind_ok r id resource :
  resource ∉ r_closeCalls r →
  (∀ id' s', r_objects r !! id' = Some s' → s_closeFn s' ≠ Some resource) →
  registry_ok r → registry_ok (Bind r id resource).2.
Proof.
  intros Hfresh Hother Hr. unfold Bind. destruct (r_objects r !! id) as [s|] eqn:Hl; [|done].
  case_if; [done|]. bprop.
  destruct (s_closeFn s) eqn:Hf; [done|]. destruct (s_closeDone s) eqn:Hd; try done. cbn [snd].
  destruct Hr. destruct (ro_objects0 id s Hl) as [Hb Hs].
  assert (Hphase : s_phase s = EndNotStarted) by by apply (so_active s Hs).
  set (s' := s <| s_closeFn := Some resource |>).
  assert (Hcase : ∀ j x, <[id := s']> (r_objects r) !! j = Some x →
    (j = id ∧ x = s') ∨ (j ≠ id ∧ r_objects r !! j = Some x)).
  { intros j x [[<- <-]|[Hne Hx]]%lookup_insert_Some; auto. }
  split; cbn -[s']; try done.
  - intros j Hj. destruct (ro_pending0 j Hj). split; [done|]. rewrite lookup_insert_ne; [done|].
    intros ->. congruence.
  - intros j x [[-> ->]|[_ Hx]]%Hcase; [|by eapply ro_objects0]. split; [done|].
    destruct Hs. split; cbn; try done; intros; congruence.
  - intros j. rewrite ro_scopes0. split.
    + intros (x & Hx & Hp). destruct (decide (id = j)) as [<-|Hne].
      * exists s'. rewrite lookup_insert_eq. split; [done|]. cbn. congruence.
      * exists x. by rewrite lookup_insert_ne.
    + intros (x & [[-> ->]|[_ Hx]]%Hcase & Hp); [exists s; cbn in Hp|exists x]; done.
  - intros j x res [[-> ->]|[_ Hx]]%Hcase Hres; [cbn in Hres; congruence|by eapply ro_unclosed0].
  - intros j k x y res [[-> ->]|[_ Hx]]%Hcase [[-> ->]|[_ Hy]]%Hcase H1 H2; try done.
    + exfalso. cbn in H1. injection H1 as <-. by apply (Hother k y).
    + exfalso. cbn in H2. injection H2 as <-. by apply (Hother j x).
    + eauto.
  - intros Hsn. destruct (ro_snapshot0 Hsn) as [Hst _]. exfalso.
    unfold accepting, state_is in *. bprop. done.
  - intros group. unfold sequence_of. cbn -[s']. rewrite (release_count_same group _ id s s') by done.
    apply ro_sequences0.
  - intros j x call [[-> ->]|[_ Hx]]%Hcase Hp; [cbn in Hp; congruence|by eapply ro_marked0].
Qed.

(** The closing of a scope's resource. *)
Lemma start_close_ok r id s :
  registry_ok r → r_objects r !! id = Some s →
  let '(r', s') := startBoundResourceClose r id s in
  registry_ok r' ∧ r_objects r' !! id = Some s' ∧ s_closeFn s' = None ∧ s_phase s' = s_phase s
  ∧ s_spec s' = s_spec s ∧ s_active s' = s_active s ∧ r_closers r' = r_closers r
  ∧ (∀ j, j ≠ id → r_objects r' !! j = r_objects r !! j)
  ∧ (∀ resource, s_closeFn s = Some resource → resource ∈ r_closeCalls r').
Proof.
  intros Hr Hl. pose proof (ro_objects r Hr id s Hl) as [Hb Hs]. unfold startBoundResourceClose.
  assert (Hidle : s_closeFn s = None →
    registry_ok r ∧ r_objects r !! id = Some s ∧ s_closeFn s = None ∧ s_phase s = s_phase s
    ∧ s_spec s = s_spec s ∧ s_active s = s_active s ∧ r_closers r = r_closers r
    ∧ (∀ j, j ≠ id → r_objects r !! j = r_objects r !! j)
    ∧ (∀ resource, s_closeFn s = Some resource → resource ∈ r_closeCalls r)).
  { intros Hn. split_and!; try done. intros. congruence. }
  destruct (s_closeDone s) eqn:Hd; [|by apply Hidle, (so_taken s Hs); rewrite Hd..].
  destruct (s_closeFn s) as [resource|] eqn:Hf; [|rewrite Hf; by apply Hidle]. clear Hidle.
  set (s' := s <| s_closeFn := None |> <| s_closeDone := CloseRunning resource |>).
  assert (Hphase : s_phase s = EndNotStarted ∨ s_phase s = EndDeactivated).
  { pose proof (so_closing s Hs) as Hc. rewrite Hf in Hc.
    destruct (s_phase s); auto; exfalso; by (assert (Some resource = None) by by apply Hc). }
  assert (Hs' : scope_ok s').
  { destruct Hs. split; cbn; try done. unfold released. cbn.
    by destruct Hphase as [->| ->]. }
  assert (Hr1 : registry_ok (set_scope r id s')).
  { apply (set_scope_ok r id s s'); try done; [by left|].
    intros call. cbn. by destruct Hphase as [->| ->]. }
  split_and!; try done.
  - destruct Hr1. split; cbn -[s']; try done.
    + apply NoDup_cons. split; [|apply (ro_closeCalls r Hr)]. by eapply (ro_unclosed r Hr).
    + intros j x res Hx Hres [->|Hin]%elem_of_cons; [|by eapply ro_unclosed0].
      destruct (decide (id = j)) as [<-|Hne].
      * rewrite lookup_insert_eq in Hx. by injection Hx as <-.
      * rewrite lookup_insert_ne in Hx by done. apply Hne.
        by apply (ro_distinct r Hr id j s x resource).
  - cbn -[s']. by rewrite lookup_insert_eq.
  - intros j Hj. cbn -[s']. by rewrite lookup_insert_ne.
  - intros res [= <-]. cbn. set_solver.
Qed.

(** The sequence of a group goes up with the scope that is marked. *)
Lemma mark_ok r id s :
  registry_ok r → r_objects r !! id = Some s → s_phase s = EndWaiting →
  (∀ resource, s_closeDone s ≠ CloseRunning resource) →
  let '(r', call) := markReleasedLocked r (s_spec s) in
  registry_ok (set_scope r' id (s <| s_phase := EndMarked call |>)).
Proof.
  intros Hr Hl Hp Hcd. pose proof (ro_objects r Hr id s Hl) as [Hb Hs].
  set (ph := fun call => s <| s_phase := EndMarked call |>).
  assert (Hs' : ∀ call, scope_ok (ph call)).
  { intros call. destruct Hs. rewrite Hp in *. split; cbn; try done.
    - split; [by intros ?%so_active0|done].
    - intros _ _. by apply so_closing0. }
  unfold markReleasedLocked. destruct (Accounted (s_spec s)) eqn:Hacc; cbn [negb].
  2: { apply (set_scope_ok r id s (ph None)); try done; [by right| |].
       - cbn. rewrite Hp. done.
       - intros group. unfold counts_for, ph. cbn. by rewrite Hacc, !andb_false_r. }
  set (group := group_of (s_spec s)). fold (sequence_of r group).
  assert (Hidle : ∀ g, counts_for g s = false).
  { intros g. unfold counts_for, released. by rewrite Hp. }
  assert (Hbound : ∀ g, 0 ≤ release_count g (r_objects r) ≤ max_int64 - 1).
  { intros g. pose proof (ro_next r Hr). split; [unfold release_count; lia|].
    eapply (release_count_lt g (r_objects r) id s (r_next r)) in Hl; [lia|by apply Hidle|].
    intros j x Hx. by apply (ro_objects r Hr j x). }
  assert (Hw : wrap64 (sequence_of r group + 1) = sequence_of r group + 1).
  { apply wrap64_small. rewrite (ro_sequences r Hr). specialize (Hbound group).
    unfold in_int64, min_int64, max_int64 in *. lia. }
  assert (Hseq : ∀ g call, sequence_of (set_scope (r <| r_releaseSequences :=
      <[group := sequence_of r group + 1]> (r_releaseSequences r) |>) id (ph call)) g =
      sequence_of r g + (if bool_decide (g = group) then 1 else 0)).
  { intros g call. unfold sequence_of at 1. cbn. case_bool_decide as Hg.
    - subst g. by rewrite lookup_insert_eq.
    - rewrite lookup_insert_ne by done. unfold sequence_of. lia. }
  rewrite Hw. set (call := _ <$> r_releaseSink r). fold (ph call).
  apply (set_scope_seq_ok r id s (ph call)); try done.
  - by right.
  - cbn. by rewrite Hp.
  - intros g. rewrite Hseq. case_bool_decide; lia.
  - intros g. rewrite Hseq, (ro_sequences r Hr). symmetry. case_bool_decide as Hg.
    + apply (release_count_up _ _ id s); [done|by apply Hidle|]. unfold counts_for. cbn.
      rewrite Hacc. cbn. apply bool_decide_eq_true. done.
    + rewrite (release_count_same _ _ id s), Z.add_0_r; [done..|]. rewrite Hidle. unfold counts_for. cbn.
      rewrite Hacc. cbn. apply bool_decide_eq_false. intros He. by apply Hg.
  - intros c Hc. cbn in Hc. unfold call in Hc. destruct (r_releaseSink r) as [k|]; [|done].
    cbn in Hc. injection Hc as <-. split; cbn [fst snd]; [|rewrite Hseq, bool_decide_eq_true_2 by done; lia].
    specialize (Hbound group). rewrite (ro_sequences r Hr). lia.
Qed.

(** The invariant reads only some of the fields. *)
Lemma sinkCalls_ok r call :
  call_ok r call → registry_ok r → registry_ok (r <| r_sinkCalls := call :: r_sinkCalls r |>).
Proof.
  intros Hc []. split; cbn; try done. intros c [->|Hin]%elem_of_cons; [done|by apply ro_sinkCalls0].
Qed.

Lemma end_phase_ok r id s :
  registry_ok r → r_objects r !! id = Some s → s_phase s = EndReleased →
  registry_ok ((set_scope r id (s <| s_phase := EndDone |>)) <| r_scopes := r_scopes r ∖ {[id]} |>).
Proof.
  intros Hr Hl Hp. pose proof (ro_objects r Hr id s Hl) as [Hb Hs].
  set (s' := s <| s_phase := EndDone |>).
  assert (Hcase : ∀ j x, <[id := s']> (r_objects r) !! j = Some x →
    (j = id ∧ x = s') ∨ (j ≠ id ∧ r_objects r !! j = Some x)).
  { intros j x [[<- <-]|[Hne Hx]]%lookup_insert_Some; auto. }
  assert (Hfn : s_closeFn s = None) by (apply (so_closing s Hs); by rewrite Hp).
  destruct Hr. split; cbn -[s']; try done.
  - intros j Hj. destruct (ro_pending0 j Hj). split; [done|]. rewrite lookup_insert_ne; [done|].
    intros ->. congruence.
  - intros j x [[-> ->]|[_ Hx]]%Hcase; [|by eapply ro_objects0]. split; [done|].
    destruct Hs. rewrite Hp in *. split; cbn; try done.
    + split; [by intros ?%so_active0|done].
    + intros _. apply so_closed0. unfold released. by rewrite Hp.
  - intros j. rewrite elem_of_difference, elem_of_singleton, ro_scopes0. split.
    + intros [(x & Hx & Hx') Hne]. exists x. by rewrite lookup_insert_ne.
    + intros (x & [[-> ->]|[Hne Hx]]%Hcase & Hx'); [done|]. split; [by exists x|done].
  - intros j x res [[-> ->]|[_ Hx]]%Hcase Hres; [cbn in Hres; congruence|by eapply ro_unclosed0].
  - intros j k x y res [[-> ->]|[_ Hx]]%Hcase [[-> ->]|[_ Hy]]%Hcase H1 H2; try done;
      try (cbn in *; congruence). eauto.
  - intros Hsn. destruct (ro_snapshot0 Hsn) as [Hst Hcl]. split; [done|].
    intros j x [[-> ->]|[_ Hx]]%Hcase Hres; [done|by eapply Hcl].
  - intros group. unfold sequence_of. cbn -[s']. rewrite (release_count_same group _ id s s'); [apply ro_sequences0|done|].
    unfold counts_for, released. cbn. by rewrite Hp.
  - intros j x call [[-> ->]|[_ Hx]]%Hcase Hp'; [done|by eapply ro_marked0].
Qed.

(** A scope moves to a phase that changes neither whether it is released nor
    whether it is done. *)
Lemma phase_step_ok r id s phase :
  registry_ok r → r_objects r !! id = Some s →
  s_phase s ≠ EndNotStarted → s_phase s ≠ EndDone → phase ≠ EndNotStarted → phase ≠ EndDone →
  (∀ call, phase ≠ EndMarked call) →
  (phase ≠ EndDeactivated → s_closeFn s = None) →
  released s = released (s <| s_phase := phase |>) →
  registry_ok (set_scope r id (s <| s_phase := phase |>)).
Proof.
  intros Hr Hl H1 H2 H3 H4 H5 Hfn Hrel. pose proof (ro_objects r Hr id s Hl) as [Hb Hs].
  apply (set_scope_ok r id s); try done.
  - destruct Hs. split; cbn; try done.
    + by rewrite so_active0.
    + intros Hx. apply so_closed0. by rewrite Hrel.
  - by right.
  - intros group. unfold counts_for. by rewrite Hrel.
  - intros call Hx. by apply H5 in Hx.
Qed.

Lemma end_step_ok r id s r' :
  registry_ok r → r_objects r !! id = Some s → end_step r id s = Some r' → registry_ok r'.
Proof.
  intros Hr Hl He. pose proof (ro_objects r Hr id s Hl) as [Hb Hs]. unfold end_step in He.
  destruct (s_phase s) as [| | |call| |] eqn:Hp; [| | | | |done].
  - injection He as <-. apply (set_scope_ok r id s); try done.
    + destruct Hs. by split.
    + by right.
    + by rewrite Hp.
    + intros group. unfold counts_for, released. cbn. by rewrite Hp.
  - pose proof (start_close_ok r id s Hr Hl) as Hc.
    destruct (startBoundResourceClose r id s) as [r1 s1]. injection He as <-.
    destruct Hc as (Hr1 & Hl1 & Hf1 & Hp1 & Hspec & Hact & _).
    apply (phase_step_ok r1 id s1); try done; try (rewrite Hp1, Hp; done).
    unfold released. by rewrite Hp1, Hp.
  - pose proof (mark_ok r id s Hr Hl Hp) as Hm.
    destruct (s_closeDone s) eqn:Hd; [|done|];
      (destruct (markReleasedLocked r (s_spec s)) as [r1 call]; injection He as <-; by apply Hm).
  - assert (Hfn : s_closeFn s = None) by (apply (so_closing s Hs); by rewrite Hp).
    assert (Hset : ∀ r1, registry_ok r1 → r_objects r1 !! id = Some s →
      registry_ok (set_scope r1 id (s <| s_phase := EndReleased |>))).
    { intros r1 Hr1 Hl1. apply phase_step_ok; try done; try (by rewrite Hp).
      unfold released. by rewrite Hp. }
    injection He as <-. apply Hset.
    + destruct call as [call|]; [|done]. case_if; [|done].
      apply sinkCalls_ok; [|done]. by apply (ro_marked r Hr id s).
    + destruct call as [call|]; [|done]. by case_if.
  - injection He as <-. by apply end_phase_ok.
Qed.

Lemma close_returns_ok r id s r' :
  registry_ok r → r_objects r !! id = Some s → close_returns r id s = Some r' → registry_ok r'.
Proof.
  intros Hr Hl Hc. unfold close_returns in Hc. destruct (s_closeDone s) eqn:Hd; try done.
  injection Hc as <-. pose proof (ro_objects r Hr id s Hl) as [Hb Hs].
  apply (set_scope_ok r id s); try done.
  - destruct Hs. split; cbn; try done. intros _. apply so_taken0. by rewrite Hd.
  - by right.
  - intros call Hp. by apply (ro_marked r Hr id s).
Qed.

Lemma state_ok r st :
  st ≠ StateAccepting → registry_ok r → registry_ok (r <| r_state := st |>).
Proof.
  intros Hst []. split; cbn; try done. intros Hsn. destruct (ro_snapshot0 Hsn). done.
Qed.

Lemma list_scopes_ok r : r_state r ≠ StateAccepting → registry_ok r → registry_ok (list_scopes r).
Proof.
  intros Hst []. split; cbn; try done. intros _. split; [done|]. intros id s Hl Hf.
  apply elem_of_app. left. apply elem_of_elements, ro_scopes0. exists s. split; [done|].
  intros Hp. apply Hf. destruct (ro_objects0 id s Hl) as [_ Hs]. apply (so_closing s Hs); by rewrite Hp.
Qed.

Lemma close_next_ok r before_ id s after_ :
  registry_ok r → r_closers r = before_ ++ id :: after_ → r_objects r !! id = Some s →
  registry_ok (close_next r id s (before_ ++ after_)).
Proof.
  intros Hr Hcl Hl. pose proof (start_close_ok r id s Hr Hl) as Hc. unfold close_next.
  destruct (startBoundResourceClose r id s) as [r1 s1].
  destruct Hc as (Hr1 & Hl1 & Hf1 & _ & _ & _ & Hcl1 & Hother & _). cbn [fst].
  destruct Hr1. split; cbn; try done. intros Hsn. destruct (ro_snapshot0 Hsn) as [Hst Hin].
  split; [done|]. intros j x Hx Hf. specialize (Hin j x Hx Hf). rewrite Hcl1, Hcl in Hin.
  destruct (decide (j = id)) as [->|Hne]; [congruence|].
  apply elem_of_app in Hin as [Hin|Hin]; apply elem_of_app; [by left|].
  apply elem_of_cons in Hin as [->|Hin]; [done|by right].
Qed.

Lemma replays_ok r replays :
  registry_ok r → (∀ call, call ∈ replays → call.2 ≤ sequence_of r call.1.2) →
  registry_ok (r <| r_replays := replays |>).
Proof. intros [] Hc. by split. Qed.

Lemma sink_ok r sink : registry_ok r → registry_ok (SetReleaseSink r sink).
Proof.
  intros Hr. unfold SetReleaseSink. destruct sink as [k|]; [|by destruct Hr].
  assert (Hr1 : registry_ok (r <| r_releaseSink := Some k |>)) by by destruct Hr.
  apply (replays_ok _ _ Hr1). intros call Hc. apply elem_of_app in Hc as [Hc|Hc].
  - apply list_elem_of_fmap in Hc as ([group sequence] & -> & Hc).
    apply elem_of_map_to_list in Hc. cbn in Hc. unfold sequence_of. cbn. rewrite Hc. cbn. lia.
  - by apply (ro_replays r Hr).
Qed.

Lemma replay_ok r before_ call after_ :
  registry_ok r → r_replays r = before_ ++ call :: after_ → registry_ok (replay r call (before_ ++ after_)).
Proof.
  intros Hr He. pose proof (ro_replays r Hr) as Hrep. rewrite He in Hrep. unfold replay.
  assert (Hr1 : registry_ok (r <| r_replays := before_ ++ after_ |>)).
  { apply replays_ok; [done|]. intros c Hc. apply Hrep. set_solver. }
  destruct (0 <? call.2) eqn:Hpos; [|by destruct r, Hr1].
  apply (sinkCalls_ok _ call) in Hr1; [done|]. bprop. split; [lia|]. apply Hrep. set_solver.
Qed.

Lemma observe_barrier_ok r revision : registry_ok r → registry_ok (ObserveBarrier r revision).
Proof.
  intros []. unfold ObserveBarrier. case_if; [done|]. case_if; [|done]. bprop.
  split; cbn; try done. lia.
Qed.

Lemma freeze_ok r : registry_ok r → registry_ok (FreezeInFlight r).2.
Proof.
  intros []. unfold FreezeInFlight. case_if; cbn [snd]; split; cbn; try done. lia.
Qed.

(** The invariant holds in every state the registry can reach. *)
Lemma rstep_ok r r' : rstep r r' → registry_ok r → registry_ok r'.
Proof.
  intros Hstep Hr. destruct Hstep.
  - by apply begin_ok.
  - apply shrink_pending_ok; [set_solver|done].
  - by apply install_ok.
  - by apply bind_ok.
  - by eapply end_step_ok.
  - by eapply close_returns_ok.
  - unfold drain_start. destruct (r_state r); try done. by apply state_ok.
  - by apply state_ok.
  - by apply list_scopes_ok.
  - by apply close_next_ok.
  - unfold drain_finish in *. case_match; simplify_eq. by apply state_ok.
  - by apply sink_ok.
  - by apply replay_ok.
  - by apply observe_barrier_ok.
  - by apply freeze_ok.
Qed.

Definition reachable (r : Registry) : Prop := rtc rstep New r.

Lemma reachable_ok r : reachable r → registry_ok r.
Proof.
  intros Hr. unfold reachable in Hr. remember New as r0 eqn:H0.
  assert (Hok : registry_ok r0) by (subst; apply New_ok). clear H0.
  induction Hr as [|r1 r2 r3 Hs _ IH]; [done|]. apply IH. by eapply rstep_ok.
Qed.

(** ** What the steps leave alone *)

(** The part of the registry that only the dispatch, barrier and state
    operations change. *)
Definition control (r : Registry) : State * Z * gset Z * Z * Z * Z :=
  (r_state r, r_next r, r_pending r, r_observedBarrier r, r_pendingBarrierSequence r, r_publishedBarrier r).

Lemma start_close_control r id s : control (startBoundResourceClose r id s).1 = control r.
Proof. unfold startBoundResourceClose. by repeat case_match. Qed.

Lemma end_step_control r id s r' : end_step r id s = Some r' → control r' = control r.
Proof.
  unfold end_step. pose proof (start_close_control r id s) as Hc. intros He.
  destruct (s_phase s) as [| | |call| |].
  - by injection He as <-.
  - destruct (startBoundResourceClose r id s). by injection He as <-.
  - unfold markReleasedLocked in He. destruct (s_closeDone s); try done;
      (destruct (negb (Accounted (s_spec s))); by injection He as <-).
  - injection He as <-. destruct call as [call|]; [|done]. by case_if.
  - by injection He as <-.
  - done.
Qed.

Lemma close_returns_control r id s r' : close_returns r id s = Some r' → control r' = control r.
Proof. unfold close_returns. intros. by case_match; simplify_eq. Qed.

Lemma close_next_control r id s rest : control (close_next r id s rest) = control r.
Proof. apply (start_close_control r id s). Qed.

(** The possible changes of the dispatch state in one step. *)
Lemma rstep_pending r r' :
  rstep r r' → registry_ok r →
  (r_pending r' ⊆ r_pending r ∧ r_next r' = r_next r)
  ∨ (r_state r = StateAccepting ∧ r_next r' = r_next r + 1 ∧ r_pending r' = {[r_next r']} ∪ r_pending r).
Proof.
  assert (Hcontrol : ∀ r r', control r' = control r → r_pending r' ⊆ r_pending r ∧ r_next r' = r_next r).
  { unfold control. intros x y He. injection He as ? -> -> ? ? ?. done. }
  intros Hstep Hr. destruct Hstep.
  - unfold BeginDispatch. destruct (accepting r) eqn:Ea; [right|by left]. cbn.
    assert (Hw : wrapu64 (r_next r + 1) = r_next r + 1).
    { pose proof (ro_next r Hr). unfold wrapu64. apply Z.mod_small. unfold max_int64 in *. lia. }
    rewrite Hw. unfold accepting, state_is in Ea. by bprop.
  - left. cbn. split; [set_solver|done].
  - left. unfold Install. case_if; [cbn; split; [set_solver|done]|].
    case_if; [done|]. cbn. split; [set_solver|done].
  - left. unfold Bind. by repeat case_match.
  - left. by eapply Hcontrol, end_step_control.
  - left. by eapply Hcontrol, close_returns_control.
  - left. unfold drain_start. by destruct (r_state r).
  - by left.
  - by left.
  - left. apply Hcontrol, close_next_control.
  - left. unfold drain_finish in *. by case_match; simplify_eq.
  - left. by destruct sink.
  - left. unfold replay. by case_if.
  - left. unfold ObserveBarrier. by repeat case_if.
  - left. unfold FreezeInFlight. by case_if.
Qed.

(** The possible changes of the barrier state in one step. *)
Lemma rstep_barrier r r' :
  rstep r r' → registry_ok r →
  r_observedBarrier r ≤ r_observedBarrier r'
  ∧ (r_pendingBarrierSequence r' = r_pendingBarrierSequence r ∨ r_pendingBarrierSequence r' = r_next r)
  ∧ (r_publishedBarrier r' = r_publishedBarrier r
     ∨ (r_pending r' = r_pending r
        ∧ ∀ id, id ∈ r_pending r → r_pendingBarrierSequence r < id)).
Proof.
  assert (Hcontrol : ∀ r r', control r' = control r →
    r_observedBarrier r ≤ r_observedBarrier r'
    ∧ (r_pendingBarrierSequence r' = r_pendingBarrierSequence r ∨ r_pendingBarrierSequence r' = r_next r)
    ∧ (r_publishedBarrier r' = r_publishedBarrier r
       ∨ (r_pending r' = r_pending r ∧ ∀ id, id ∈ r_pending r → r_pendingBarrierSequence r < id))).
  { unfold control. intros x y He. injection He as ? ? ? -> -> ->. auto with lia. }
  assert (Hkeep : r_observedBarrier r ≤ r_observedBarrier r) by lia.
  intros Hstep Hr. destruct Hstep.
  - unfold BeginDispatch. case_if; auto.
  - cbn. auto.
  - unfold Install. repeat case_if; cbn; auto.
  - unfold Bind. repeat case_match; cbn; auto.
  - by eapply Hcontrol, end_step_control.
  - by eapply Hcontrol, close_returns_control.
  - unfold drain_start. destruct (r_state r); cbn; auto.
  - cbn. auto.
  - cbn. auto.
  - apply Hcontrol, close_next_control.
  - unfold drain_finish in *. case_match; simplify_eq. cbn. auto.
  - destruct sink; cbn; auto.
  - unfold replay. case_if; cbn; auto.
  - unfold ObserveBarrier. repeat case_if; bprop; cbn; auto with lia.
  - unfold FreezeInFlight. case_if; cbn; [|auto]. bprop. split_and!; [done|auto|right].
    split; [done|]. intros id Hid. unfold barrier_blocked in *.
    destruct (Z.le_gt_cases id (r_pendingBarrierSequence r)) as [Hle|]; [|done]. exfalso.
    assert (Ht : existsb (λ sequence : Z, sequence <=? r_pendingBarrierSequence r) (elements (r_pending r)) = true).
    { apply existsb_exists. exists id. split; [|by apply Z.leb_le].
      by apply list_elem_of_In, elem_of_elements. }
    congruence.
Qed.

Lemma rtc_rstep_ok r r' : rtc rstep r r' → registry_ok r → registry_ok r'.
Proof. intros Hr. induction Hr as [|r1 r2 r3 Hs _ IH]; [done|]. intros Hok. by apply IH, (rstep_ok r1). Qed.

(** ** Barriers *)

(** What the steps after [ObserveBarrier revision] keep, when [next] dispatches
    had been begun by then. *)
Definition barrier_inv (revision next : Z) (r : Registry) : Prop :=
  revision ≤ r_observedBarrier r ∧ next ≤ r_pendingBarrierSequence r ∧ next ≤ r_next r
  ∧ (revision ≤ r_publishedBarrier r → ∀ id, id ∈ r_pending r → next < id).

Lemma barrier_inv_step revision next r r' :
  rstep r r' → registry_ok r → barrier_inv revision next r → barrier_inv revision next r'.
Proof.
  intros Hs Hr (H1 & H2 & H3 & H4).
  destruct (rstep_pending r r' Hs Hr) as [[Hp Hn]|(_ & Hn & Hp)];
    destruct (rstep_barrier r r' Hs Hr) as (Ho & Hb & Hpub);
    (split_and!; [lia|destruct Hb as [-> | ->]; lia|lia|]); intros Hle id Hid.
  - destruct Hpub as [Hpub|[Hpe Hpub]]; [apply H4; [lia|set_solver]|].
    assert (id ∈ r_pending r) as Hin by set_solver. specialize (Hpub id Hin). lia.
  - rewrite Hp in Hid. apply elem_of_union in Hid as [->%elem_of_singleton|Hid]; [lia|].
    destruct Hpub as [Hpub|[Hpe _]]; [apply H4; [lia|done]|].
    exfalso. assert (Hin : r_next r' ∈ r_pending r) by (rewrite <- Hpe, Hp; set_solver).
    apply (ro_pending r Hr) in Hin as [Hin _]. lia.
Qed.

(** A published barrier is complete.  Suppose Home's barrier [revision] is
    newer than what the registry has observed.  In every state reached
    afterwards, by any interleaving of the operations, a snapshot whose
    [BarrierRevision] has come to [revision] or beyond is taken at a moment when
    none of the dispatches that were pending when the barrier was observed is
    pending any more: each has ended, or is a scope - and if that scope is still
    running it is one of the scopes the snapshot lists. *)
Theorem barrier_complete r0 revision r :
  reachable r0 → r_observedBarrier r0 < revision → 0 < revision →
  rtc rstep (ObserveBarrier r0 revision) r →
  revision ≤ BarrierRevision (FreezeInFlight r).1 →
  ∀ id, id ∈ r_pending r0 →
    id ∉ r_pending r
    ∧ ∀ s, r_objects r !! id = Some s → s_phase s ≠ EndDone →
        s_spec s ∈ Executions (FreezeInFlight r).1.
Proof.
  intros Hreach Hnew Hpos Hsteps Hpub id Hid. apply reachable_ok in Hreach as Hr0.
  assert (Hinit : barrier_inv revision (r_next r0) (ObserveBarrier r0 revision)).
  { unfold ObserveBarrier. rewrite (proj2 (Z.leb_gt _ _)), (proj2 (Z.ltb_lt _ _)) by lia.
    pose proof (ro_barrier r0 Hr0). split_and!; cbn; lia. }
  assert (Hr : registry_ok r ∧ barrier_inv revision (r_next r0) r).
  { assert (Hok : registry_ok (ObserveBarrier r0 revision)) by by apply observe_barrier_ok.
    clear Hpub. revert Hok Hinit. induction Hsteps as [|r1 r2 r3 Hs _ IH]; [done|].
    intros Hok Hinv. apply IH; [by apply (rstep_ok r1)|by apply (barrier_inv_step _ _ r1)]. }
  destruct Hr as [Hr Hinv].
  apply (barrier_inv_step _ _ _ _ (step_freeze r) Hr) in Hinv as (_ & _ & _ & Hpend).
  assert (Hfp : r_pending (FreezeInFlight r).2 = r_pending r) by (unfold FreezeInFlight; by case_if).
  rewrite Hfp in Hpend. split.
  - intros Hin. assert (BarrierRevision (FreezeInFlight r).1 = r_publishedBarrier (FreezeInFlight r).2)
      as Hbr by done. rewrite Hbr in Hpub.
    specialize (Hpend Hpub id Hin). destruct (ro_pending r0 Hr0 id Hid) as [Hb _]. lia.
  - intros s Hl Hp. assert (Hex : Executions (FreezeInFlight r).1 = scope_specs r)
      by (unfold FreezeInFlight; by case_if). rewrite Hex. apply list_elem_of_omap.
    exists id. split; [apply elem_of_elements, (ro_scopes r Hr); by exists s|]. by rewrite Hl.
Qed.

(** ** Draining *)

Definition state_rank (st : State) : Z :=
  match st with StateAccepting => 0 | StateDraining => 1 | StateClosed => 2 end.

(** The lifecycle only moves forward. *)
Lemma state_forward r r' : rstep r r' → state_rank (r_state r) ≤ state_rank (r_state r').
Proof.
  assert (Hcontrol : ∀ r r', control r' = control r → state_rank (r_state r) ≤ state_rank (r_state r')).
  { unfold control. intros x y He. injection He as -> ? ? ? ? ?. lia. }
  assert (Htop : ∀ st, state_rank st ≤ 2) by (intros []; cbn; lia).
  intros Hstep. destruct Hstep; try (cbn; lia).
  - unfold BeginDispatch. case_if; cbn; lia.
  - unfold Install. repeat case_if; cbn; lia.
  - unfold Bind. repeat case_match; cbn; lia.
  - by eapply Hcontrol, end_step_control.
  - by eapply Hcontrol, close_returns_control.
  - unfold drain_start. destruct (r_state r) eqn:Est; cbn; rewrite ?Est; cbn; lia.
  - apply Htop.
  - by eapply Hcontrol, close_next_control.
  - unfold drain_finish in *. case_match; simplify_eq. apply Htop.
  - destruct sink; cbn; lia.
  - unfold ObserveBarrier. repeat case_if; cbn; lia.
  - unfold FreezeInFlight. case_if; cbn; lia.
Qed.

Lemma end_step_scopes r id s r' : end_step r id s = Some r' → r_scopes r' ⊆ r_scopes r.
Proof.
  unfold end_step, startBoundResourceClose, markReleasedLocked. intros He.
  repeat case_match; simplify_eq; cbn; set_solver.
Qed.

(** Once the registry does not accept, no scope is added. *)
Lemma rstep_scopes r r' : rstep r r' → r_state r ≠ StateAccepting → r_scopes r' ⊆ r_scopes r.
Proof.
  intros Hstep Hst.
  assert (Ha : accepting r = false) by by apply bool_decide_eq_false.
  destruct Hstep; try done.
  - unfold BeginDispatch. by rewrite Ha.
  - unfold Install. by rewrite Ha.
  - unfold Bind. by repeat case_match.
  - by eapply end_step_scopes.
  - unfold close_returns in *. by case_match; simplify_eq.
  - unfold drain_start. by destruct (r_state r).
  - unfold close_next, startBoundResourceClose. by repeat case_match.
  - unfold drain_finish in *. by case_match; simplify_eq.
  - by destruct sink.
  - unfold ObserveBarrier. by repeat case_if.
  - unfold FreezeInFlight. by case_if.
Qed.

Definition quiet (r : Registry) : Prop :=
  r_state r = StateClosed ∧ r_pending r = ∅ ∧ r_scopes r = ∅.

Lemma quiet_step r r' : rstep r r' → registry_ok r → quiet r → quiet r'.
Proof.
  intros Hs Hr (Hst & Hp & Hsc). split_and!.
  - apply state_forward in Hs. rewrite Hst in Hs. cbn in Hs. by destruct (r_state r').
  - destruct (rstep_pending r r' Hs Hr) as [[Hsub _]|[Ha _]]; [set_solver|congruence].
  - apply rstep_scopes in Hs; [set_solver|congruence].
Qed.

(** A completed drain is final.  When [Drain] has found nothing pending and
    no scope left and has closed the registry, then whatever the goroutines do
    afterwards the registry stays closed, no dispatch can begin, nothing is ever
    pending or running again, and every scope there has been has ended with its
    resource closed: none is left bound and none is still being closed. *)
Theorem drained_is_final r r' r'' :
  reachable r → drain_finish r = Some r' → rtc rstep r' r'' →
  quiet r''
  ∧ (BeginDispatch r'').1 = Err ErrRegistryNotAccepting
  ∧ ∀ id s, r_objects r'' !! id = Some s →
      s_phase s = EndDone ∧ s_closeFn s = None ∧ ∀ resource, s_closeDone s ≠ CloseRunning resource.
Proof.
  intros Hreach Hd Hsteps. apply reachable_ok in Hreach as Hr. unfold drain_finish in Hd.
  case_match eqn:Hq; simplify_eq. bprop. set (r' := r <| r_state := StateClosed |>) in Hsteps.
  assert (Hr' : registry_ok r') by by apply state_ok.
  assert (Hq' : quiet r') by by split_and!.
  assert (Hfin : registry_ok r'' ∧ quiet r'').
  { clear Hr Hreach. clearbody r'. induction Hsteps as [|r1 r2 r3 Hs _ IH]; [done|].
    apply IH; [by apply (rstep_ok r1)|by apply (quiet_step r1)]. }
  destruct Hfin as [Hr'' Hquiet]. split; [done|]. destruct Hquiet as (Hst & _ & Hsc). split.
  - unfold BeginDispatch, accepting. by rewrite Hst.
  - intros id s Hl. destruct (ro_objects r'' Hr'' id s Hl) as [_ Hs].
    assert (Hp : s_phase s = EndDone).
    { destruct (decide (id ∈ r_scopes r'')) as [Hin|Hout]; [set_solver|].
      rewrite (ro_scopes r'' Hr'') in Hout. destruct (s_phase s) eqn:Hp; try done;
        (exfalso; apply Hout; exists s; by rewrite Hp). }
    split_and!; [done|apply (so_closing s Hs); by rewrite Hp|].
    apply (so_closed s Hs). unfold released. by rewrite Hp.
Qed.

(** ** What becomes of a scope *)

(** [calls] are the close functions called so far. *)
Record scope_keeps (calls : list nat) (s s' : Scope) : Prop := {
  sk_resource : ∀ resource, s_closeFn s = Some resource →
    s_closeFn s' = Some resource ∨ (resource ∈ calls ∧ s_closeDone s' ≠ CloseNotStarted);
  sk_closing : s_closeDone s ≠ CloseNotStarted → s_closeDone s' ≠ CloseNotStarted;
  sk_spec : s_spec s' = s_spec s;
  sk_released : released s = true → released s' = true;
}.

Definition scopes_kept (r r' : Registry) : Prop :=
  r_closeCalls r ⊆ r_closeCalls r'
  ∧ ∀ id s, r_objects r !! id = Some s →
      ∃ s', r_objects r' !! id = Some s' ∧ scope_keeps (r_closeCalls r') s s'.

Lemma scope_keeps_refl calls s : scope_keeps calls s s.
Proof. split; auto. Qed.

Lemma scopes_kept_same r r' :
  r_objects r' = r_objects r → r_closeCalls r' = r_closeCalls r → scopes_kept r r'.
Proof.
  intros Ho Hc. split; [by rewrite Hc|]. intros id s Hl. exists s. rewrite Ho.
  split; [done|apply scope_keeps_refl].
Qed.

#[global] Instance scopes_kept_preorder : PreOrder scopes_kept.
Proof.
  split; [intros r; by apply scopes_kept_same|]. intros r1 r2 r3 [Hc1 Hk1] [Hc2 Hk2].
  split; [by etrans|]. intros id s Hl. destruct (Hk1 id s Hl) as (s2 & Hl2 & H2).
  destruct (Hk2 id s2 Hl2) as (s3 & Hl3 & H3). exists s3. split; [done|]. destruct H2, H3.
  split; [|by auto|congruence|by auto]. intros res Hf.
  destruct (sk_resource0 res Hf) as [Hf2|[Hin Hd]]; [by apply sk_resource1|right; auto].
Qed.

(** One object changes, and what holds of the registry's other fields does not
    matter. *)
Lemma scopes_kept_set r r' id s s' :
  r_objects r !! id = Some s → r_objects r' = <[id := s']> (r_objects r) →
  r_closeCalls r ⊆ r_closeCalls r' → scope_keeps (r_closeCalls r') s s' → scopes_kept r r'.
Proof.
  intros Hl Ho Hc Hk. split; [done|]. intros j x Hx. rewrite Ho.
  destruct (decide (id = j)) as [<-|Hne].
  - exists s'. rewrite lookup_insert_eq. split; [done|]. congruence.
  - exists x. rewrite lookup_insert_ne by done. split; [done|apply scope_keeps_refl].
Qed.

Lemma start_close_kept r id s :
  r_objects r !! id = Some s → scopes_kept r (startBoundResourceClose r id s).1.
Proof.
  intros Hl. unfold startBoundResourceClose. destruct (s_closeDone s) eqn:Hd; [|done..].
  destruct (s_closeFn s) as [resource|] eqn:Hf; [|done].
  eapply (scopes_kept_set r _ id s); [done|done|cbn; set_solver|].
  split; cbn; try done. intros res Hres. right. split; [|done]. simplify_eq. set_solver.
Qed.

Lemma end_step_kept r id s r' :
  registry_ok r → r_objects r !! id = Some s → end_step r id s = Some r' → scopes_kept r r'.
Proof.
  intros Hr Hl He. unfold end_step in He. destruct (s_phase s) as [| | |call| |] eqn:Hp; [..|done].
  - injection He as <-. eapply (scopes_kept_set r _ id s); [done..|]. split; cbn; auto.
    unfold released. by rewrite Hp.
  - pose proof (start_close_kept r id s Hl) as Hk. pose proof (start_close_ok r id s Hr Hl) as Hc.
    destruct (startBoundResourceClose r id s) as [r1 s1]. injection He as <-. cbn [fst] in Hk.
    destruct Hc as (_ & Hl1 & Hf1 & Hp1 & _). etrans; [exact Hk|].
    eapply (scopes_kept_set r1 _ id s1); [done..|]. split; cbn; auto. unfold released. by rewrite Hp1, Hp.
  - unfold markReleasedLocked in He. destruct (s_closeDone s) eqn:Hd; try done;
      (destruct (negb (Accounted (s_spec s))); injection He as <-;
       (eapply (scopes_kept_set r _ id s); [done..|]; split; cbn; auto)).
  - assert (Hset : ∀ r1, r_objects r1 = r_objects r → r_closeCalls r1 = r_closeCalls r →
      scopes_kept r (set_scope r1 id (s <| s_phase := EndReleased |>))).
    { intros r1 Ho Hc. eapply (scopes_kept_set r _ id s); cbn; [done|by rewrite Ho|by rewrite Hc|].
      split; cbn; auto. }
    injection He as <-. apply Hset; by repeat case_match.
  - injection He as <-. eapply (scopes_kept_set r _ id s); [done..|]. split; cbn; auto.
Qed.

Lemma rstep_kept r r' : rstep r r' → registry_ok r → scopes_kept r r'.
Proof.
  intros Hstep Hr. destruct Hstep; try by apply scopes_kept_same.
  - unfold BeginDispatch. by case_if; apply scopes_kept_same.
  - unfold Install. case_if; [by apply scopes_kept_same|]. case_if; [done|]. bprop. split; [done|].
    intros j x Hx. exists x. cbn. split; [|apply scope_keeps_refl].
    rewrite lookup_insert_ne; [done|]. intros ->.
    match goal with Hin : j ∈ r_pending r |- _ => apply (ro_pending r Hr) in Hin as [_ Hn] end.
    congruence.
  - unfold Bind. destruct (r_objects r !! id) as [s|] eqn:Hl; [|done]. case_if; [done|].
    destruct (s_closeFn s) eqn:Hf, (s_closeDone s) eqn:Hd; try done.
    eapply (scopes_kept_set r _ id s); [done..|]. split; cbn; auto. intros. congruence.
  - by eapply end_step_kept.
  - unfold close_returns in *. destruct (s_closeDone s) eqn:Hd; simplify_eq.
    eapply (scopes_kept_set r _ id s); [done..|]. split; cbn; auto.
  - unfold drain_start. by destruct (r_state r); apply scopes_kept_same.
  - unfold close_next. etrans; [by apply (start_close_kept r id s)|]. by apply scopes_kept_same.
  - unfold drain_finish in *. case_match; simplify_eq. by apply scopes_kept_same.
  - by destruct sink; apply scopes_kept_same.
  - unfold ObserveBarrier. by repeat case_if; apply scopes_kept_same.
  - unfold FreezeInFlight. by case_if; apply scopes_kept_same.
Qed.

Lemma rtc_rstep_kept r r' : rtc rstep r r' → registry_ok r → scopes_kept r r'.
Proof.
  intros Hr. induction Hr as [|r1 r2 r3 Hs _ IH]; [done|]. intros Hok.
  etrans; [by apply rstep_kept|]. by apply IH, (rstep_ok r1).
Qed.

(** ** The release sink hears of every release *)

Definition marked (r : Registry) (call : sink_call) : Prop :=
  ∃ id s, r_objects r !! id = Some s ∧ s_phase s = EndMarked (Some call).
(** The call has been made, or somebody is about to make it. *)
Definition reported (r : Registry) (call : sink_call) : Prop :=
  call ∈ r_sinkCalls r ∨ call ∈ r_replays r ∨ marked r call.

Lemma marked_set r r' id s s' call :
  r_objects r !! id = Some s → r_objects r' = <[id := s']> (r_objects r) →
  (s_phase s = EndMarked (Some call) → s_phase s' = EndMarked (Some call)) →
  marked r call → marked r' call.
Proof.
  intros Hl Ho Hp (j & x & Hx & Hm). exists j. rewrite Ho. destruct (decide (id = j)) as [<-|Hne].
  - exists s'. rewrite lookup_insert_eq. split; [done|]. apply Hp. congruence.
  - exists x. by rewrite lookup_insert_ne.
Qed.

Lemma reported_mono r r' call :
  r_sinkCalls r ⊆ r_sinkCalls r' → r_replays r ⊆ r_replays r' → (marked r call → marked r' call) →
  reported r call → reported r' call.
Proof. intros Hs Hr Hm [?|[?|?]]; unfold reported; auto. Qed.

Lemma reported_set r r' id s s' call :
  r_objects r !! id = Some s → r_objects r' = <[id := s']> (r_objects r) →
  r_sinkCalls r' = r_sinkCalls r → r_replays r' = r_replays r →
  (s_phase s = EndMarked (Some call) → s_phase s' = EndMarked (Some call)) →
  reported r call → reported r' call.
Proof.
  intros Hl Ho Hs Hr Hp. apply reported_mono; [by rewrite Hs|by rewrite Hr|]. by eapply marked_set.
Qed.

Lemma start_close_reported r id s call :
  r_objects r !! id = Some s → reported r call → reported (startBoundResourceClose r id s).1 call.
Proof.
  intros Hl. unfold startBoundResourceClose. repeat case_match; try done.
  by eapply (reported_set r _ id s).
Qed.

Lemma end_step_reported r id s r' call :
  registry_ok r → r_objects r !! id = Some s → end_step r id s = Some r' → 0 < call.2 →
  reported r call → reported r' call.
Proof.
  intros Hr Hl He Hpos Hrep. unfold end_step in He. destruct (s_phase s) as [| | |made| |] eqn:Hp; [..|done].
  - injection He as <-. eapply (reported_set r _ id s); [done..| |done]; cbn; by rewrite ?Hp.
  - pose proof (start_close_reported r id s call Hl Hrep) as Hk.
    pose proof (start_close_ok r id s Hr Hl) as Hc.
    destruct (startBoundResourceClose r id s) as [r1 s1]. injection He as <-. cbn [fst] in Hk.
    destruct Hc as (_ & Hl1 & Hf1 & Hp1 & _).
    eapply (reported_set r1 _ id s1); [done..| |done]; cbn; by rewrite ?Hp1, ?Hp.
  - unfold markReleasedLocked in He. destruct (s_closeDone s) eqn:Hd; try done;
      (destruct (negb (Accounted (s_spec s))); injection He as <-;
       (eapply (reported_set r _ id s); [done|reflexivity|done|done| |done]); cbn; by rewrite ?Hp).
  - injection He as <-. destruct Hrep as [Hin|[Hin|(j & x & Hx & Hm)]].
    + left. repeat case_match; cbn; set_solver.
    + right; left. by repeat case_match.
    + destruct (decide (id = j)) as [<-|Hne].
      * left. assert (made = Some call) as -> by congruence.
        rewrite (proj2 (Z.ltb_lt _ _) Hpos). cbn. set_solver.
      * right; right. exists j, x. split; [|done].
        repeat case_match; cbn; by rewrite lookup_insert_ne.
  - injection He as <-. eapply (reported_set r _ id s); [done..| |done]; cbn; by rewrite ?Hp.
Qed.

Lemma rstep_reported r r' call :
  rstep r r' → registry_ok r → 0 < call.2 → reported r call → reported r' call.
Proof.
  intros Hstep Hr Hpos Hrep.
  assert (Hnew : ∀ r0 id s, r_objects r0 !! id = None → marked r0 call → marked (set_scope r0 id s) call).
  { intros r0 id s Hn (j & x & Hx & Hm). exists j, x. cbn. rewrite lookup_insert_ne; [done|]. congruence. }
  destruct Hstep; try done.
  - unfold BeginDispatch. by case_if.
  - unfold Install. case_if; [done|]. case_if; [done|]. bprop.
    match goal with Hin : id ∈ r_pending r |- _ => apply (ro_pending r Hr) in Hin as [_ Hn] end.
    eapply reported_mono; [..|exact Hrep]; try done. by apply (Hnew r id).
  - unfold Bind. destruct (r_objects r !! id) as [s|] eqn:Hl; [|done]. case_if; [done|].
    destruct (s_closeFn s), (s_closeDone s); try done. by eapply (reported_set r _ id s).
  - by eapply end_step_reported.
  - unfold close_returns in *. destruct (s_closeDone s); simplify_eq.
    by eapply (reported_set r _ id s).
  - unfold drain_start. by destruct (r_state r).
  - unfold close_next. by apply (start_close_reported r id s call) in Hrep.
  - unfold drain_finish in *. by case_match; simplify_eq.
  - destruct sink; [|done]. eapply reported_mono; [..|exact Hrep]; cbn; set_solver.
  - match goal with He : r_replays r = _ |- _ => rename He into Hre end.
    destruct Hrep as [Hin|[Hin|Hm]]; [left|rewrite Hre in Hin|by right; right].
    + unfold replay. cbn. case_if; set_solver.
    + destruct (decide (call = call0)) as [<-|Hne]; [left|right; left; cbn; set_solver].
      unfold replay. cbn. rewrite (proj2 (Z.ltb_lt _ _) Hpos). set_solver.
  - unfold ObserveBarrier. by repeat case_if.
  - unfold FreezeInFlight. by case_if.
Qed.

(** The release side changes only when a scope is marked or the sink is set. *)
Lemma rstep_release r r' :
  rstep r r' →
  (r_releaseSink r' = r_releaseSink r
   ∧ ∀ group, sequence_of r' group = sequence_of r group
       ∨ ∀ k, r_releaseSink r = Some k → marked r' (k, group, sequence_of r' group))
  ∨ ∃ sink, r' = SetReleaseSink r sink.
Proof.
  intros Hstep.
  assert (Hsame : ∀ r', r_releaseSink r' = r_releaseSink r → r_releaseSequences r' = r_releaseSequences r →
    (r_releaseSink r' = r_releaseSink r
     ∧ ∀ group, sequence_of r' group = sequence_of r group
         ∨ ∀ k, r_releaseSink r = Some k → marked r' (k, group, sequence_of r' group))
    ∨ ∃ sink, r' = SetReleaseSink r sink).
  { intros r0 H1 H2. left. split; [done|]. intros group. left. unfold sequence_of. by rewrite H2. }
  destruct Hstep; try (by apply Hsame).
  - apply Hsame; unfold BeginDispatch; by case_if.
  - apply Hsame; unfold Install; by repeat case_if.
  - apply Hsame; unfold Bind; by repeat case_match.
  - match goal with He : end_step _ _ _ = _ |- _ => rename He into Hend end. unfold end_step in Hend.
    destruct (s_phase s) as [| | |call| |] eqn:Hp; [..|done].
    + injection Hend as <-. by apply Hsame.
    + unfold startBoundResourceClose in Hend. repeat case_match; simplify_eq; by apply Hsame.
    + unfold markReleasedLocked in Hend. destruct (s_closeDone s); try done;
        (destruct (negb (Accounted (s_spec s))); injection Hend as <-; [by apply Hsame|]);
        (left; split; [done|]; intros group;
         destruct (decide (group = group_of (s_spec s))) as [->|Hne];
         [right; intros k Hk; eexists id, _; cbn; rewrite lookup_insert_eq; split; [done|];
          cbn; rewrite Hk; cbn; unfold sequence_of; cbn; by rewrite lookup_insert_eq
         |left; unfold sequence_of; cbn; by rewrite lookup_insert_ne]).
    + injection Hend as <-. apply Hsame; by repeat case_match.
    + injection Hend as <-. by apply Hsame.
  - unfold close_returns in *. case_match; simplify_eq. by apply Hsame.
  - apply Hsame; unfold drain_start; by destruct (r_state r).
  - apply Hsame; unfold close_next, startBoundResourceClose; by repeat case_match.
  - unfold drain_finish in *. case_match; simplify_eq. by apply Hsame.
  - right. by exists sink.
  - apply Hsame; unfold ObserveBarrier; by repeat case_if.
  - apply Hsame; unfold FreezeInFlight; by case_if.
Qed.

Definition sink_current (r : Registry) : Prop :=
  ∀ k group, r_releaseSink r = Some k → 0 < sequence_of r group →
    reported r (k, group, sequence_of r group).

Lemma sink_current_step r r' : rstep r r' → registry_ok r → sink_current r → sink_current r'.
Proof.
  intros Hs Hr Hcur k group Hk Hpos.
  destruct (rstep_release r r' Hs) as [[Hsink Hseq]|[sink ->]].
  - rewrite Hsink in Hk. destruct (Hseq group) as [He|Hm]; [|by right; right; eapply Hm; congruence].
    rewrite He in *. apply (rstep_reported r); [done..|]. by apply Hcur.
  - destruct sink as [k'|]; [|done]. cbn in Hk. injection Hk as ->. right; left.
    unfold SetReleaseSink, sequence_of in *. cbn in *.
    destruct (r_releaseSequences r !! group) as [sequence|] eqn:Hl; [|done]. cbn.
    apply elem_of_app. left. apply list_elem_of_fmap. exists (group, sequence).
    split; [done|]. by apply elem_of_map_to_list.
Qed.

(** The release sequences are exact and the sink hears of them.  In every
    reachable state the sequence of a credential-and-model group is the number of
    accounted scopes of that group that have been released so far, so it never
    counts a scope twice, loses one or wraps; every call a sink has received
    carries a sequence between 1 and the current one; and for the sink in place
    the current sequence of every group with a release has been sent to it or is
    about to be (an owner has it in hand, or a replay does). *)
Theorem release_sequences_exact r :
  reachable r → ∀ group,
  sequence_of r group = release_count group (r_objects r)
  ∧ (∀ k sequence, (k, group, sequence) ∈ r_sinkCalls r → 1 ≤ sequence ≤ sequence_of r group)
  ∧ (∀ k, r_releaseSink r = Some k → 0 < sequence_of r group →
       reported r (k, group, sequence_of r group)).
Proof.
  intros Hreach group. apply reachable_ok in Hreach as Hr. split_and!.
  - apply (ro_sequences r Hr).
  - intros k sequence Hin. by apply (ro_sinkCalls r Hr) in Hin.
  - clear Hr. assert (Hcur : sink_current r); [|by intros; apply Hcur].
    unfold reachable in Hreach. remember New as r0 eqn:H0.
    assert (Hinit : registry_ok r0 ∧ sink_current r0) by (subst; split; [apply New_ok|done]). clear H0.
    induction Hreach as [|r1 r2 r3 Hs _ IH]; [apply Hinit|]. apply IH.
    destruct Hinit. split; [by apply (rstep_ok r1)|by apply (sink_current_step r1)].
Qed.

(** A bound resource is closed exactly once.  Once a scope holds a resource,
    in every state reached afterwards, by any interleaving, the scope still exists
    with its specification; no close function has been called twice; the resource
    is still held and not closed, or its close function has been called; it has
    been called when the scope's owner has come past the closing in
    [EndWithRelease], and when a [Drain] or [Close] has gone through its list of
    scopes; and a released scope's close function has returned. *)
Theorem bound_resource_closed_once r0 id s0 resource r :
  reachable r0 → r_objects r0 !! id = Some s0 → s_closeFn s0 = Some resource → rtc rstep r0 r →
  NoDup (r_closeCalls r)
  ∧ ∃ s, r_objects r !! id = Some s ∧ s_spec s = s_spec s0
    ∧ (s_closeFn s = Some resource ∧ resource ∉ r_closeCalls r
       ∨ s_closeFn s = None ∧ resource ∈ r_closeCalls r)
    ∧ (s_phase s ≠ EndNotStarted → s_phase s ≠ EndDeactivated → resource ∈ r_closeCalls r)
    ∧ (r_snapshotted r = true → r_closers r = [] → resource ∈ r_closeCalls r)
    ∧ (released s = true → s_closeDone s = CloseFinished).
Proof.
  intros Hreach Hl0 Hf0 Hsteps. apply reachable_ok in Hreach as Hr0.
  pose proof (rtc_rstep_ok r0 r Hsteps Hr0) as Hr.
  destruct (rtc_rstep_kept r0 r Hsteps Hr0) as [_ Hk]. destruct (Hk id s0 Hl0) as (s & Hl & Hkeep).
  destruct (ro_objects r Hr id s Hl) as [_ Hs].
  assert (Hheld : s_closeFn s = None ∧ resource ∈ r_closeCalls r ∧ s_closeDone s ≠ CloseNotStarted
    ∨ s_closeFn s = Some resource ∧ resource ∉ r_closeCalls r).
  { destruct (sk_resource _ _ _ Hkeep resource Hf0) as [Hf|[Hin Hd]].
    - right. split; [done|]. by apply (ro_unclosed r Hr id s).
    - left. split_and!; [by apply (so_taken s Hs)|done..]. }
  assert (Hclosed : s_closeFn s = None → resource ∈ r_closeCalls r) by (intros; destruct Hheld; naive_solver).
  split; [apply (ro_closeCalls r Hr)|]. exists s. split_and!; [done|apply Hkeep|naive_solver| | |].
  - intros H1 H2. by apply Hclosed, (so_closing s Hs).
  - intros Hsn Hnil. apply Hclosed. destruct (s_closeFn s) eqn:Hf; [exfalso|done].
    destruct (ro_snapshot r Hr Hsn) as [_ Hin]. specialize (Hin id s Hl). rewrite Hnil, Hf in Hin.
    by apply elem_of_nil in Hin.
  - intros Hrel. pose proof (so_closed s Hs Hrel) as Hrun.
    assert (Hfn : s_closeFn s = None).
    { apply (so_closing s Hs); intros Hp; unfold released in Hrel; by rewrite Hp in Hrel. }
    destruct Hheld as [(_ & _ & Hd)|[Hf _]]; [|congruence].
    destruct (s_closeDone s); [done|by exfalso; eapply Hrun|done].
Qed.

(** ** A run of the registry *)

(** One step of scope [id]: its owner's, or the return of its close function. *)
Definition advance (r : Registry) (id : Z) : Registry :=
  match r_objects r !! id with
  | Some s =>
      match end_step r id s with
      | Some r' => r'
      | None => default r (close_returns r id s)
      end
  | None => r
  end.

Lemma advance_steps r id : rtc rstep r (advance r id).
Proof.
  unfold advance. destruct (r_objects r !! id) as [s|] eqn:Hl; [|done].
  destruct (end_step r id s) eqn:He; [by eapply rtc_once, step_end|].
  destruct (close_returns r id s) eqn:Hc; [by eapply rtc_once, step_close_returns|done].
Qed.

Lemma advance_n_steps n r id : rtc rstep r (Nat.iter n (fun r => advance r id) r).
Proof. induction n as [|n IH]; [done|]. etrans; [exact IH|apply advance_steps]. Qed.

Definition demo_spec : ScopeSpec :=
  {| RequestID := "r"; CredentialID := "c"; ScopeModel := "m"; Kind := "chat"; StartedAt := 1;
     Accounted := true |}.
Definition demo_begun : Registry := (BeginDispatch (SetReleaseSink New (Some 0%nat))).2.
Definition demo_running : Registry := (Bind (Install demo_begun 1 demo_spec).2 1 7%nat).2.
Definition demo_ended : Registry := Nat.iter 8 (fun r => advance r 1) demo_running.

Lemma demo_begun_reachable : reachable demo_begun.
Proof.
  eapply rtc_l; [apply (step_sink _ (Some 0%nat))|]. eapply rtc_once, step_begin. reflexivity.
Qed.
Lemma demo_running_reachable : reachable demo_running.
Proof.
  unfold reachable. etrans; [apply demo_begun_reachable|].
  eapply rtc_l; [apply (step_install _ 1 demo_spec)|]. eapply rtc_once, (step_bind _ 1 7%nat).
  - by apply not_elem_of_nil.
  - intros id s Hl Hf. assert (Ho : r_objects (Install demo_begun 1 demo_spec).2 =
      {[1 := {| s_spec := demo_spec; s_closeFn := None; s_closeDone := CloseNotStarted;
                s_active := true; s_phase := EndNotStarted |}]}) by reflexivity.
    rewrite Ho in Hl. apply lookup_singleton_Some in Hl as [_ <-]. done.
Qed.
Lemma demo_ended_reachable : reachable demo_ended.
Proof. unfold reachable. etrans; [apply demo_running_reachable|apply advance_n_steps]. Qed.

Lemma barrier_complete_witness :
  BarrierRevision (FreezeInFlight (PendingEnd (ObserveBarrier demo_begun 5) 1)).1 = 5
  ∧ 1 ∈ r_pending demo_begun
  ∧ 1 ∉ r_pending (PendingEnd (ObserveBarrier demo_begun 5) 1).
Proof.
  assert (Hin : 1 ∈ r_pending demo_begun) by (apply (bool_decide_unpack _); vm_compute; exact I).
  split; [reflexivity|]. split; [exact Hin|].
  apply (barrier_complete demo_begun 5 (PendingEnd (ObserveBarrier demo_begun 5) 1)
           demo_begun_reachable eq_refl eq_refl
           (rtc_once _ _ (step_pending_end _ 1)) ltac:(vm_compute; discriminate) 1 Hin).
Defined.

Lemma drained_is_final_witness :
  drain_finish (drain_start demo_ended).2 = Some (close_start (drain_start demo_ended).2)
  ∧ quiet (close_start (drain_start demo_ended).2).
Proof.
  assert (Hd : drain_finish (drain_start demo_ended).2 = Some (close_start (drain_start demo_ended).2))
    by (vm_compute; reflexivity).
  split; [exact Hd|].
  apply (drained_is_final (drain_start demo_ended).2 (close_start (drain_start demo_ended).2)
           (close_start (drain_start demo_ended).2)
           (rtc_r _ _ _ demo_ended_reachable (step_drain_start _)) Hd (rtc_refl _ _)).
Defined.

Lemma release_sequences_exact_witness :
  sequence_of demo_ended ("c", "m") = 1
  ∧ sequence_of demo_ended ("c", "m") = release_count ("c", "m") (r_objects demo_ended).
Proof.
  split; [vm_compute; reflexivity|].
  apply (release_sequences_exact demo_ended demo_ended_reachable ("c", "m")).
Defined.

Lemma bound_resource_closed_once_witness :
  ∃ s, r_objects demo_running !! 1 = Some s ∧ s_closeFn s = Some 7%nat
    ∧ NoDup (r_closeCalls demo_ended).
Proof.
  eexists. split; [vm_compute; reflexivity|]. split; [reflexivity|].
  eapply (bound_resource_closed_once demo_running 1 _ 7%nat demo_ended demo_running_reachable);
    [vm_compute; reflexivity|reflexivity|apply advance_n_steps].
Defined.

End ExecRegistry.
