(* ===== verification/SchedShard.v ===== *)
(** * One scheduler shard: sdk/cliproxy/auth/scheduler.go, [modelScheduler]

    The scheduler caches, for every provider and model, which credentials are
    ready, and picks among them without testing every credential again.  An
    entry is a pointer that the entry map, the ready views and the blocked queue
    share; the views are rebuilt whenever an entry leaves the map, so a pointer
    is represented by the identifier of its credential and followed through
    [m_entries].  Entries and credentials are never nil. *)
From S2P Require Import Prelude GoLib Weight Thinking AuthTypes Expiry Availability Selector.
Import AuthTypes Expiry Availability.

Module SchedShard.

Inductive schedulerStrategy : Type :=
| schedulerStrategyCurrent | schedulerStrategyCustom | schedulerStrategyRoundRobin
| schedulerStrategyFillFirst | schedulerStrategyWeightedRoundRobin.
#[global] Instance schedulerStrategy_eq_dec : EqDecision schedulerStrategy.
Proof. solve_decision. Defined.
Definition strategy_is (a b : schedulerStrategy) : bool := bool_decide (a = b).

Inductive scheduledState : Type :=
| scheduledStateReady | scheduledStateCooldown | scheduledStateBlocked | scheduledStateDisabled.
#[global] Instance scheduledState_eq_dec : EqDecision scheduledState.
Proof. solve_decision. Defined.
Definition sched_is (a b : scheduledState) : bool := bool_decide (a = b).

(** [sm_supportedModelSet]: [None] is the nil map. *)
Record scheduledAuthMeta : Type := {
  sm_auth : Auth;
  sm_providerKey : string;
  sm_priority : Z;
  sm_weight : Z;
  sm_websocketEnabled : bool;
  sm_supportedModelSet : option (gset string);
  sm_registryEpoch : Z;
}.

Record scheduledAuth : Type := {
  e_meta : scheduledAuthMeta;
  e_auth : Auth;
  e_state : scheduledState;
  e_nextRetryAt : time;
}.

Record readyView : Type := {
  rv_flat : list string;
  rv_lastPicked : string;
  rv_weightedState : Selector.smoothWeightedState;
}.
#[global] Instance readyView_eta : Eta readyView := fun v =>
  {| rv_flat := rv_flat v; rv_lastPicked := rv_lastPicked v; rv_weightedState := rv_weightedState v |}.

Record readyBucket : Type := { rb_all : readyView; rb_ws : readyView }.
#[global] Instance readyBucket_eta : Eta readyBucket := fun b =>
  {| rb_all := rb_all b; rb_ws := rb_ws b |}.

Record modelScheduler : Type := {
  m_modelKey : string;
  m_entries : gmap string scheduledAuth;
  m_priorityOrder : list Z;
  m_readyByPriority : gmap Z readyBucket;
  m_blocked : list string;
}.
#[global] Instance modelScheduler_eta : Eta modelScheduler := fun m =>
  {| m_modelKey := m_modelKey m; m_entries := m_entries m; m_priorityOrder := m_priorityOrder m;
     m_readyByPriority := m_readyByPriority m; m_blocked := m_blocked m |}.
Definition new_shard (modelKey : string) : modelScheduler :=
  {| m_modelKey := modelKey; m_entries := ∅; m_priorityOrder := []; m_readyByPriority := ∅;
     m_blocked := [] |}.

Abbreviation entry_pred := (scheduledAuth → bool).
Definition entry_id (e : scheduledAuth) : string := a_ID (e_auth e).
Definition entries_list (m : modelScheduler) : list scheduledAuth := map snd (map_to_list (m_entries m)).
(** The entries a view points to. *)
Definition view_entries (m : modelScheduler) (v : readyView) : list scheduledAuth :=
  omap (fun id => m_entries m !! id) (rv_flat v).

(** ** Weights *)

Definition any_entry : entry_pred := fun _ => true.

Definition scheduledWeightVectorMatching (entries : list scheduledAuth) (predicate : entry_pred) :
    gmap string Z :=
  foldl (fun weights entry =>
           if sm_weight (e_meta entry) <=? 0 then weights
           else if negb (predicate entry) then weights
           else <[entry_id entry := sm_weight (e_meta entry)]> weights) ∅ entries.
Definition scheduledWeightVector (entries : list scheduledAuth) : gmap string Z :=
  scheduledWeightVectorMatching entries any_entry.

(** The loop of [pickSmoothWeightedScheduled]. *)
Record sched_acc : Type := {
  sc_picked : option scheduledAuth;
  sc_pickedCurrent : Z;
  sc_totalWeight : Z;
  sc_current : gmap string Z;
}.
Definition sched_step (predicate : entry_pred) (acc : sched_acc) (entry : scheduledAuth) : sched_acc :=
  let weight := sm_weight (e_meta entry) in
  if weight <=? 0 then acc
  else if negb (predicate entry) then acc
  else
    let c := Selector.saturatingAddInt64 (default 0 (sc_current acc !! entry_id entry)) weight in
    let better := match sc_picked acc with None => true | Some _ => sc_pickedCurrent acc <? c end in
    {| sc_picked := if better then Some entry else sc_picked acc;
       sc_pickedCurrent := if better then c else sc_pickedCurrent acc;
       sc_totalWeight := Selector.saturatingAddInt64 (sc_totalWeight acc) weight;
       sc_current := <[entry_id entry := c]> (sc_current acc) |}.
Definition pickSmoothWeightedScheduled (entries : list scheduledAuth) (current : gmap string Z)
    (predicate : entry_pred) : option scheduledAuth * gmap string Z :=
  let acc := foldl (sched_step predicate)
               {| sc_picked := None; sc_pickedCurrent := 0; sc_totalWeight := 0;
                  sc_current := current |} entries in
  match sc_picked acc with
  | None => (None, sc_current acc)
  | Some p =>
      (Some p, <[entry_id p := Selector.saturatingAddInt64 (default 0 (sc_current acc !! entry_id p))
                                 (- sc_totalWeight acc)]> (sc_current acc))
  end.

(** ** Picking from a view *)

Definition pickFirst (entries : list scheduledAuth) (predicate : entry_pred) : option scheduledAuth :=
  List.find predicate entries.

Definition sched_after (entries : list scheduledAuth) (lastID : string) (i : nat) : bool :=
  match entries !! i with
  | Some entry => str_lt lastID (entry_id entry)
  | None => false
  end.
Definition scheduledSuccessorIndex (entries : list scheduledAuth) (lastID : string) : nat :=
  if String.eqb lastID "" then 0%nat
  else
    let n := length entries in
    let index := Selector.sort_Search (S n) (sched_after entries lastID) 0 n in
    if (n <=? index)%nat then 0%nat else index.

(** The loop over the offsets: [left] of them are still to come. *)
Fixpoint probe (entries : list scheduledAuth) (predicate : entry_pred) (start left : nat) :
    option scheduledAuth :=
  match left with
  | O => None
  | S left' =>
      let n := length entries in
      let index := ((start + (n - left)) mod n)%nat in
      match entries !! index with
      | Some entry => if predicate entry then Some entry else probe entries predicate start left'
      | None => probe entries predicate start left'
      end
  end.
Definition pickRoundRobin (entries : list scheduledAuth) (lastPicked : string) (predicate : entry_pred) :
    option scheduledAuth :=
  probe entries predicate (scheduledSuccessorIndex entries lastPicked) (length entries).

(** One pick with a strategy: the entry and the view with its cursors advanced. *)
Definition view_pick (entries : list scheduledAuth) (v : readyView) (strategy : schedulerStrategy)
    (predicate : entry_pred) : option scheduledAuth * readyView :=
  match strategy with
  | schedulerStrategyFillFirst => (pickFirst entries predicate, v)
  | schedulerStrategyWeightedRoundRobin =>
      match entries with
      | [] => (None, v)
      | _ =>
          let state := Selector.prepare (rv_weightedState v)
                         (scheduledWeightVectorMatching entries predicate) in
          let '(picked, current) :=
            pickSmoothWeightedScheduled entries (Selector.sw_current state) predicate in
          (picked, v <| rv_weightedState := {| Selector.sw_current := current;
                                               Selector.sw_weights := Selector.sw_weights state |} |>)
      end
  | _ =>
      match pickRoundRobin entries (rv_lastPicked v) predicate with
      | Some entry => (Some entry, v <| rv_lastPicked := entry_id entry |>)
      | None => (None, v)
      end
  end.

(** ** Which entries a request may use *)

Record authSelectionEligibility : Type := {
  requiredKind : string;
  credentialPolicy : string;
  disallowFreeAuth : bool;
}.

Definition credentialPolicyAllows (policy : string) (auth : Auth) : bool :=
  if negb (String.eqb policy "codex_alpha_search_v1") then false
  else if negb (equal_fold (trim_space (a_Provider auth)) "codex") then false
  else if String.eqb (AuthKind auth) AuthKindOAuth then true
  else if String.eqb (AuthKind auth) AuthKindAPIKey
  then equal_fold (authAttribute auth "codex_alpha_search") "true"
  else false.
Definition isFreeCodexAuth (auth : Auth) : bool :=
  equal_fold (trim_space (a_Provider auth)) "codex"
  && equal_fold (trim_space (default "" (a_Attributes auth !! "plan_type"))) "free".
Definition allows (e : authSelectionEligibility) (auth : Auth) : bool :=
  if negb (String.eqb (requiredKind e) "") && negb (String.eqb (AuthKind auth) (requiredKind e)) then false
  else if negb (String.eqb (credentialPolicy e) "")
          && negb (credentialPolicyAllows (credentialPolicy e) auth) then false
  else negb (disallowFreeAuth e) || negb (isFreeCodexAuth auth).

Definition scheduledAuthPredicate (eligibility : authSelectionEligibility) (tried : gset string)
    (pinnedAuthID : string) (requirePositiveWeight : bool) : entry_pred := fun entry =>
  if negb (allows eligibility (e_auth entry)) then false
  else if requirePositiveWeight && (sm_weight (e_meta entry) <=? 0) then false
  else if negb (String.eqb pinnedAuthID "") && negb (String.eqb (entry_id entry) pinnedAuthID) then false
  else negb (bool_decide (entry_id entry ∈ tried)).

(** ** The indexes *)

Definition buildReadyView (entries : list scheduledAuth) : readyView :=
  {| rv_flat := map entry_id entries; rv_lastPicked := ""; rv_weightedState := Selector.empty_smooth |}.
Definition buildReadyBucket (entries : list scheduledAuth) : readyBucket :=
  {| rb_all := buildReadyView entries;
     rb_ws := buildReadyView (List.filter (fun e => sm_websocketEnabled (e_meta e)) entries) |}.

(** [restoreReadyViewCursors], from the view that had the cursors;
    [entries] are those of the new view. *)
Definition restoreReadyViewCursors (entries : list scheduledAuth) (view old : readyView) : readyView :=
  let view := view <| rv_lastPicked := rv_lastPicked old |> in
  let weights := scheduledWeightVector entries in
  let state := rv_weightedState old in
  if bool_decide (Selector.sw_current state = ∅)
     || Selector.weightsConfigChanged (Selector.sw_weights state) weights then view
  else
    view <| rv_weightedState :=
      {| Selector.sw_current :=
           foldl (fun current entry =>
                    match Selector.sw_current state !! entry_id entry with
                    | Some val => <[entry_id entry := val]> current
                    | None => current
                    end) ∅ entries;
         Selector.sw_weights := weights |} |>.

Definition append_entry (buckets : gmap Z (list scheduledAuth)) (entry : scheduledAuth) :
    gmap Z (list scheduledAuth) :=
  if sched_is (e_state entry) scheduledStateReady then
    let priority := sm_priority (e_meta entry) in
    <[priority := default [] (buckets !! priority) ++ [entry]]> buckets
  else buckets.

(** The order of the blocked queue: by retry time, no time last, then by
    identifier. *)
Definition blocked_before (left right : scheduledAuth) : bool :=
  if time_eq (e_nextRetryAt left) (e_nextRetryAt right) then str_lt (entry_id left) (entry_id right)
  else if is_zero (e_nextRetryAt left) then false
  else if is_zero (e_nextRetryAt right) then true
  else before (e_nextRetryAt left) (e_nextRetryAt right).
Definition blocked_le (left right : scheduledAuth) : Prop := blocked_before right left = false.
#[global] Instance blocked_le_dec : RelDecision blocked_le.
Proof. intros x y. unfold blocked_le. apply _. Defined.
Definition priority_ge (left right : Z) : Prop := right ≤ left.
#[global] Instance priority_ge_dec : RelDecision priority_ge.
Proof. intros x y. unfold priority_ge. apply _. Defined.

Definition is_blocked_state (e : scheduledAuth) : bool :=
  sched_is (e_state e) scheduledStateCooldown || sched_is (e_state e) scheduledStateBlocked.

(** [old]: the bucket the priority had. *)
Definition rebuild_bucket (old : option readyBucket) (entries : list scheduledAuth) : readyBucket :=
  let sorted := sort_by entry_id entries in
  let bucket := buildReadyBucket sorted in
  match old with
  | Some cursors =>
      {| rb_all := restoreReadyViewCursors sorted (rb_all bucket) (rb_all cursors);
         rb_ws := restoreReadyViewCursors
                    (List.filter (fun e => sm_websocketEnabled (e_meta e)) sorted)
                    (rb_ws bucket) (rb_ws cursors) |}
  | None => bucket
  end.

Definition rebuildIndexesLocked (m : modelScheduler) : modelScheduler :=
  let priorityBuckets := foldl append_entry ∅ (entries_list m) in
  m <| m_readyByPriority :=
         map_imap (fun priority entries =>
                     Some (rebuild_bucket (m_readyByPriority m !! priority) entries)) priorityBuckets |>
    <| m_priorityOrder := merge_sort priority_ge (map fst (map_to_list priorityBuckets)) |>
    <| m_blocked := map entry_id (merge_sort blocked_le (List.filter is_blocked_state (entries_list m))) |>.

(** ** Entries *)

(** The [switch] that turns an answer of the block test into a state. *)
Definition classify (b : block) : scheduledState * time :=
  let '(blocked, reason, next) := b in
  if negb blocked then (scheduledStateReady, 0)
  else match reason with
       | blockReasonCooldown => (scheduledStateCooldown, next)
       | blockReasonDisabled => (scheduledStateDisabled, 0)
       | _ => (scheduledStateBlocked, next)
       end.
Definition set_state (e : scheduledAuth) (c : scheduledState * time) : scheduledAuth :=
  {| e_meta := e_meta e; e_auth := e_auth e; e_state := c.1; e_nextRetryAt := c.2 |}.

(** The cause of a failed pick. *)
Inductive cause : Type := CauseError (e : Error) | CauseMessage (message : string).
(** An error of a candidate with its time and the candidate's identifier. *)
Abbreviation dated_cause := (cause * time * string)%type.
(** [(total, cooldownCount, unauthorizedCount, earliest)]. *)
Abbreviation summary := (Z * Z * Z * time)%type.

Section Shard.
Context `{GP : GoParse}.

Definition evaluate (modelKey : string) (now : time) (e : scheduledAuth) : scheduledAuth :=
  set_state e (classify (isAuthBlockedForModel (e_auth e) modelKey now)).

Definition same_index (previous entry : scheduledAuth) : bool :=
  sched_is (e_state previous) (e_state entry)
  && time_eq (e_nextRetryAt previous) (e_nextRetryAt entry)
  && (sm_priority (e_meta previous) =? sm_priority (e_meta entry))
  && Bool.eqb (sm_websocketEnabled (e_meta previous)) (sm_websocketEnabled (e_meta entry)).

Definition upsertEntryLocked (m : modelScheduler) (meta : scheduledAuthMeta) (now : time) :
    modelScheduler :=
  let id := a_ID (sm_auth meta) in
  let entry := evaluate (m_modelKey m) now
                 {| e_meta := meta; e_auth := sm_auth meta; e_state := scheduledStateReady;
                    e_nextRetryAt := 0 |} in
  let m' := m <| m_entries := <[id := entry]> (m_entries m) |> in
  match m_entries m !! id with
  | Some previous => if same_index previous entry then m' else rebuildIndexesLocked m'
  | None => rebuildIndexesLocked m'
  end.

Definition removeEntryLocked (m : modelScheduler) (authID : string) : modelScheduler :=
  if String.eqb authID "" then m
  else match m_entries m !! authID with
       | None => m
       | Some _ => rebuildIndexesLocked (m <| m_entries := delete authID (m_entries m) |>)
       end.

(** A ready entry whose token has expired and that is blocked for it. *)
Definition must_demote (modelKey : string) (now : time) (e : scheduledAuth) : bool :=
  sched_is (e_state e) scheduledStateReady
  && match AccessTokenExpirationTime (e_auth e) with
     | Some exp => negb (is_zero exp) && negb (after exp now)
     | None => false
     end
  && (isAuthBlockedForModel (e_auth e) modelKey now).1.1.

Definition demoteExpiredTokensLocked (m : modelScheduler) (now : time) : bool * modelScheduler :=
  (existsb (must_demote (m_modelKey m) now) (entries_list m),
   m <| m_entries := (fun e => if must_demote (m_modelKey m) now e
                               then evaluate (m_modelKey m) now e else e) <$> m_entries m |>).

Definition promote_step (modelKey : string) (now : time) (acc : bool * gmap string scheduledAuth)
    (id : string) : bool * gmap string scheduledAuth :=
  let '(changed, entries) := acc in
  match entries !! id with
  | None => acc
  | Some entry =>
      if is_zero (e_nextRetryAt entry) || after (e_nextRetryAt entry) now then acc
      else (true, <[id := evaluate modelKey now entry]> entries)
  end.

Definition promoteExpiredLocked (m : modelScheduler) (now : time) : modelScheduler :=
  let '(changed, m) := demoteExpiredTokensLocked m now in
  let '(changed, entries) := foldl (promote_step (m_modelKey m) now) (changed, m_entries m) (m_blocked m) in
  let m := m <| m_entries := entries |> in
  if changed then rebuildIndexesLocked m else m.

(** ** Picking *)

Definition has_match (m : modelScheduler) (predicate : entry_pred) (v : readyView) : bool :=
  bool_decide (is_Some (pickFirst (view_entries m v) predicate)).

(** The first priority whose view matches. *)
Definition first_priority (m : modelScheduler) (view : readyBucket → readyView) (predicate : entry_pred) :
    option Z :=
  List.find (fun priority =>
               match m_readyByPriority m !! priority with
               | Some bucket => has_match m predicate (view bucket)
               | None => false
               end) (m_priorityOrder m).

Definition highestReadyPriorityLocked (m : modelScheduler) (preferWebsocket : bool)
    (predicate : entry_pred) : option Z :=
  match (if preferWebsocket then first_priority m rb_ws predicate else None) with
  | Some priority => Some priority
  | None => first_priority m rb_all predicate
  end.

Definition pickReadyAtPriorityLocked (m : modelScheduler) (preferWebsocket : bool) (priority : Z)
    (strategy : schedulerStrategy) (predicate : entry_pred) : option Auth * modelScheduler :=
  match m_readyByPriority m !! priority with
  | None => (None, m)
  | Some bucket =>
      let use_ws := preferWebsocket && has_match m predicate (rb_ws bucket) in
      let view := if use_ws then rb_ws bucket else rb_all bucket in
      let '(picked, view') := view_pick (view_entries m view) view strategy predicate in
      let bucket := if use_ws then bucket <| rb_ws := view' |> else bucket <| rb_all := view' |> in
      (e_auth <$> picked, m <| m_readyByPriority := <[priority := bucket]> (m_readyByPriority m) |>)
  end.

Definition pickReadyLocked (m : modelScheduler) (preferWebsocket : bool) (strategy : schedulerStrategy)
    (predicate : entry_pred) (now : time) : option Auth * modelScheduler :=
  let m := promoteExpiredLocked m now in
  match highestReadyPriorityLocked m preferWebsocket predicate with
  | None => (None, m)
  | Some priorityReady => pickReadyAtPriorityLocked m preferWebsocket priorityReady strategy predicate
  end.

Definition readyCountAtPriorityLocked (m : modelScheduler) (preferWebsocket : bool) (priority : Z)
    (predicate : entry_pred) : Z :=
  match m_readyByPriority m !! priority with
  | None => 0
  | Some bucket =>
      let view := if preferWebsocket && has_match m predicate (rb_ws bucket) then rb_ws bucket
                  else rb_all bucket in
      Z.of_nat (length (List.filter predicate (view_entries m view)))
  end.

(** ** Why nothing was picked *)

Inductive pick_error : Type :=
| SelectError (e : select_error) (c : option cause)
| TerminalAuthError (e : Error) (c : option cause).

Definition error_or_message (e : option Error) (message : string) : option cause :=
  match e with
  | Some e => Some (CauseError e)
  | None => if String.eqb (trim_space message) "" then None else Some (CauseMessage message)
  end.
Definition model_cause (auth : Auth) (model modelKey : string) : option (cause * time) :=
  let state := match a_ModelStates auth !! model with
               | Some (Some state) => Some state
               | _ => match a_ModelStates auth !! modelKey with
                      | Some (Some state) => Some state
                      | _ => None
                      end
               end in
  match state with
  | Some state =>
      (fun c => (c, if is_zero (ms_UpdatedAt state) then a_UpdatedAt auth else ms_UpdatedAt state))
        <$> error_or_message (ms_LastError state) (ms_StatusMessage state)
  | None => None
  end.
Definition auth_cause (auth : Auth) : option (cause * time) :=
  (fun c => (c, a_UpdatedAt auth)) <$> error_or_message (a_LastError auth) (a_StatusMessage auth).

(** The later of two dated causes; the larger identifier at equal times. *)
Definition later_cause (best : option dated_cause) (candidate : option dated_cause) : option dated_cause :=
  match best, candidate with
  | _, None => best
  | None, _ => candidate
  | Some (_, bestTime, bestID), Some (_, t, id) =>
      if after t bestTime || (time_eq t bestTime && str_lt bestID id) then candidate else best
  end.
Definition date_with (id : string) (c : option (cause * time)) : option dated_cause :=
  (fun p => (p.1, p.2, id)) <$> c.

(** [(modelErr, ...), (authErr, ...)]. *)
Definition candidateErrorsLocked (m : modelScheduler) (model : string) (predicate : entry_pred) :
    option dated_cause * option dated_cause :=
  foldl (fun '(modelErr, authErr) entry =>
           if negb (predicate entry) then (modelErr, authErr)
           else
             (later_cause modelErr
                (date_with (entry_id entry) (model_cause (e_auth entry) model (canonicalModelKey model))),
              later_cause authErr (date_with (entry_id entry) (auth_cause (e_auth entry)))))
    (None, None) (entries_list m).

Definition summary_step (predicate : entry_pred) (acc : summary) (entry : scheduledAuth) : summary :=
  let '(total, cooldownCount, unauthorizedCount, earliest) := acc in
  if negb (predicate entry) then acc
  else
    (total + 1,
     (if sched_is (e_state entry) scheduledStateCooldown then cooldownCount + 1 else cooldownCount),
     (if hasUnauthorizedAuthFailure (e_auth entry) then unauthorizedCount + 1 else unauthorizedCount),
     if is_blocked_state entry && negb (is_zero (e_nextRetryAt entry))
        && (is_zero earliest || before (e_nextRetryAt entry) earliest)
     then e_nextRetryAt entry else earliest).
Definition availabilitySummaryLocked (m : modelScheduler) (predicate : entry_pred) : summary :=
  foldl (summary_step predicate) (0, 0, 0, 0) (entries_list m).

Definition terminal_unavailable : Error :=
  {| err_Code := "auth_unavailable"; err_Message := "no auth available"; err_Retryable := false;
     err_HTTPStatus := 503 |}.

(** The choice of the error, once the candidates are summed up. *)
Definition summary_error (s : summary) (now : time) (model provider : string)
    (modelErr authErr : option cause) : pick_error :=
  let '(total, cooldownCount, unauthorizedCount, earliest) := s in
  let lastCandidateErr := match modelErr with Some _ => modelErr | None => authErr end in
  if total =? 0 then SelectError (PlainError (plain_error "auth_not_found" "no auth available")) lastCandidateErr
  else if (cooldownCount =? total) && negb (is_zero earliest) then
    let resetIn := time_sub earliest now in
    SelectError (newModelCooldownError model provider (if resetIn <? 0 then 0 else resetIn)) lastCandidateErr
  else if unauthorizedCount =? total then
    TerminalAuthError terminal_unavailable
      (match authErr with Some _ => authErr | None => lastCandidateErr end)
  else SelectError (newAuthUnavailableError earliest now) lastCandidateErr.

Definition cause_of (d : option dated_cause) : option cause := (fun p => p.1.1) <$> d.

Definition unavailableErrorLocked (m : modelScheduler) (provider model : string)
    (predicate : entry_pred) (now : time) : pick_error :=
  let '(modelErr, authErr) := candidateErrorsLocked m model predicate in
  summary_error (availabilitySummaryLocked m predicate) now model
    (if String.eqb provider "mixed" then "" else provider) (cause_of modelErr) (cause_of authErr).

End Shard.
End SchedShard.
