(* ===== verification/SchedShardProps.v ===== *)
(** * Properties of a scheduler shard

    The picks of a shard against the selectors, and the invariant that ties the
    cached states and views of a shard to the credentials. *)
From S2P Require Import Prelude GoLib Weight Thinking AuthTypes Expiry Availability Selector SchedShard.
Import AuthTypes Expiry Availability SchedShard.

Module SchedShardProps.

(** ** Picks from a list of entries *)

Lemma elem_of_List_filter {A} (f : A → bool) l x : x ∈ List.filter f l ↔ x ∈ l ∧ f x = true.
Proof. by rewrite !list_elem_of_In, filter_In. Qed.

Lemma not_nil_elem {A} (l : list A) : l ≠ [] → ∃ x, x ∈ l.
Proof. destruct l as [|x l]; [done|]. exists x. by left. Qed.

Lemma find_filter {A} (f : A → bool) l : List.find f l = head (List.filter f l).
Proof. induction l as [|x l IH]; simpl; [done|]. by destruct (f x). Qed.

Lemma find_app {A} (f : A → bool) l k :
  List.find f (l ++ k) = match List.find f l with Some x => Some x | None => List.find f k end.
Proof. induction l as [|x l IH]; simpl; [done|]. by destruct (f x). Qed.

Lemma find_none_filter {A} (f : A → bool) l : List.find f l = None ↔ List.filter f l = [].
Proof. rewrite find_filter. by destruct (List.filter f l). Qed.

Lemma filter_comm {A} (f g : A → bool) l :
  List.filter f (List.filter g l) = List.filter g (List.filter f l).
Proof.
  induction l as [|x l IH]; simpl; [done|].
  destruct (f x) eqn:Ef, (g x) eqn:Eg; simpl; rewrite ?Ef, ?Eg, IH; done.
Qed.

Lemma find_all_false {A} (f : A → bool) l : (∀ x, x ∈ l → f x = false) → List.find f l = None.
Proof.
  induction l as [|x l IH]; intros H; simpl; [done|]. rewrite (H x) by by left.
  apply IH. intros y Hy. apply H. by right.
Qed.

(** The loop visits the entries from [start] on, around the end. *)
Lemma probe_spec entries predicate start left :
  (start < length entries)%nat → (left ≤ length entries)%nat →
  probe entries predicate start left
  = List.find predicate (drop (length entries - left) (drop start entries ++ take start entries)).
Proof.
  intros Hs. induction left as [|left IH]; intros Hl.
  - rewrite Nat.sub_0_r, drop_ge; [done|]. rewrite length_app, length_drop, length_take. lia.
  - cbn [probe]. set (n := length entries) in *. set (k := (n - S left)%nat).
    assert (Hk : (k < n)%nat) by lia.
    assert (Hrot : (drop start entries ++ take start entries) !! k = entries !! ((start + k) mod n)%nat).
    { destruct (decide (start + k < n)%nat) as [Hlt|Hge].
      - rewrite lookup_app_l, lookup_drop by (rewrite length_drop; fold n; lia).
        by rewrite Nat.mod_small by lia.
      - rewrite lookup_app_r, length_drop by (rewrite length_drop; fold n; lia). fold n.
        replace ((start + k) mod n)%nat with (k - (n - start))%nat.
        + rewrite lookup_take_lt by lia. done.
        + apply (Nat.mod_unique _ _ 1); lia. }
    destruct (entries !! ((start + k) mod n)%nat) as [e|] eqn:Ee.
    + rewrite (drop_S _ e k Hrot). cbn [List.find].
      destruct (predicate e); [done|]. rewrite IH by lia. f_equal. f_equal. lia.
    + exfalso. apply lookup_ge_None in Hrot. rewrite length_app, length_drop, length_take in Hrot.
      fold n in Hrot. lia.
Qed.

(** The entry a ring yields after [lastID]: the first one past it, around the
    end. *)
Definition ring_next (lastID : string) (l : list Auth) : option Auth :=
  if String.eqb lastID "" then head l
  else match List.find (fun a => str_lt lastID (a_ID a)) l with
       | Some a => Some a
       | None => head l
       end.

Lemma sched_after_map entries lastID i :
  sched_after entries lastID i = Selector.id_after (map e_auth entries) lastID i.
Proof.
  unfold sched_after, Selector.id_after. change (map e_auth entries) with (e_auth <$> entries).
  rewrite list_lookup_fmap. by destruct (entries !! i).
Qed.

Lemma sort_Search_ext f g fuel i j : (∀ k, f k = g k) → Selector.sort_Search fuel f i j = Selector.sort_Search fuel g i j.
Proof.
  intros H. revert i j. induction fuel as [|fuel IH]; intros i j; [done|].
  cbn [Selector.sort_Search]. rewrite H, !IH. done.
Qed.

Lemma successor_map entries lastID :
  scheduledSuccessorIndex entries lastID = Selector.successorIndex (map e_auth entries) lastID.
Proof.
  unfold scheduledSuccessorIndex, Selector.successorIndex. rewrite length_map.
  by rewrite (sort_Search_ext _ (Selector.id_after (map e_auth entries) lastID))
    by apply sched_after_map.
Qed.

(** A ring cut at its successor index. *)
Lemma successor_cut (l : list Auth) lastID :
  Selector.ring l → l ≠ [] → lastID ≠ "" →
  let i := Selector.successorIndex l lastID in
  (i < length l)%nat
  ∧ ((∀ a, a ∈ take i l → str_lt lastID (a_ID a) = false)
     ∧ (∀ a, a ∈ drop i l → str_lt lastID (a_ID a) = true)
     ∨ i = 0%nat ∧ ∀ a, a ∈ l → str_lt lastID (a_ID a) = false).
Proof.
  intros Hr Hl Hid. destruct (Selector.successorIndex_spec l lastID Hr Hl Hid) as [Hi Hc].
  set (i := Selector.successorIndex l lastID) in *. clearbody i. split; [done|].
  destruct Hc as [[Hlo Hhi]|[-> Hnone]]; [left|right].
  - split; intros a (k & Ha)%list_elem_of_lookup.
    + apply lookup_take_Some in Ha as [Ha Hk]. specialize (Hlo k Hk).
      unfold Selector.id_after in Hlo. by rewrite Ha in Hlo.
    + rewrite lookup_drop in Ha.
      assert (Hik : Selector.id_after l lastID (i + k) = true).
      { apply (Selector.id_after_mono l lastID i); [done| |done].
        apply lookup_lt_Some in Ha. lia. }
      unfold Selector.id_after in Hik. by rewrite Ha in Hik.
  - split; [done|]. intros a (k & Ha)%list_elem_of_lookup. specialize (Hnone k).
    unfold Selector.id_after in Hnone. by rewrite Ha in Hnone.
Qed.

Lemma successor_next (l : list Auth) lastID :
  Selector.ring l → l !! Selector.successorIndex l lastID = ring_next lastID l.
Proof.
  intros Hr. unfold ring_next. destruct (String.eqb lastID "") eqn:E.
  - unfold Selector.successorIndex. rewrite E. by rewrite head_lookup.
  - apply String.eqb_neq in E. destruct l as [|x l'] eqn:El; [by rewrite lookup_nil|].
    rewrite <- El in *. assert (Hl : l ≠ []) by by subst.
    destruct (successor_cut l lastID Hr Hl E) as [Hi Hc].
    set (i := Selector.successorIndex l lastID) in *. clearbody i.
    destruct Hc as [[Hlo Hhi]|[-> Hnone]].
    + rewrite <- (take_drop i l) at 2. rewrite find_app, find_all_false by done.
      apply lookup_lt_is_Some in Hi as [a Ha]. rewrite (drop_S l a i Ha). cbn [List.find].
      rewrite Hhi; [done|]. rewrite (drop_S l a i Ha). by left.
    + rewrite find_all_false by done. by rewrite head_lookup.
Qed.

Lemma ring_filter f (l : list Auth) : Selector.ring l → Selector.ring (List.filter f l).
Proof.
  induction 1 as [|x l _ IH Hx]; simpl; [constructor|]. destruct (f x); [|done].
  constructor; [done|]. apply Forall_forall. intros y Hy. rewrite Forall_forall in Hx. apply Hx.
  apply list_elem_of_In, filter_In in Hy as [Hy _]. by apply list_elem_of_In.
Qed.

Lemma filter_map_auth (f : Auth → bool) entries :
  List.filter f (map e_auth entries) = map e_auth (List.filter (fun e => f (e_auth e)) entries).
Proof. induction entries as [|e l IH]; simpl; [done|]. by destruct (f (e_auth e)); simpl; rewrite IH. Qed.

Lemma find_map_auth (f : Auth → bool) entries :
  List.find f (map e_auth entries) = e_auth <$> List.find (fun e => f (e_auth e)) entries.
Proof. induction entries as [|e l IH]; simpl; [done|]. by destruct (f (e_auth e)). Qed.

Lemma head_map_auth entries : head (map e_auth entries) = e_auth <$> head entries.
Proof. by destruct entries. Qed.

(** Looking for a match around the ring is picking around the ring of the
    matches: the credentials skipped do not disturb the rotation. *)
Lemma pickRoundRobin_spec entries lastID (predicate : entry_pred) :
  Selector.ring (map e_auth entries) →
  e_auth <$> pickRoundRobin entries lastID predicate
  = ring_next lastID (map e_auth (List.filter predicate entries)).
Proof.
  intros Hr. unfold pickRoundRobin. destruct entries as [|e0 es] eqn:El.
  { unfold ring_next. simpl. by case_if. }
  rewrite <- El in *. assert (Hl : map e_auth entries ≠ []) by by subst.
  unfold ring_next. destruct (String.eqb lastID "") eqn:E.
  { assert (Hs : scheduledSuccessorIndex entries lastID = 0%nat)
      by (unfold scheduledSuccessorIndex; by rewrite E).
    rewrite Hs, probe_spec by (rewrite ?El; simpl; lia).
    rewrite Nat.sub_diag, !drop_0, take_0, app_nil_r, find_filter. by rewrite head_map_auth. }
  apply String.eqb_neq in E. rewrite successor_map.
  destruct (successor_cut (map e_auth entries) lastID Hr Hl E) as [Hi Hc].
  set (i := Selector.successorIndex (map e_auth entries) lastID) in *. clearbody i.
  rewrite length_map in Hi. rewrite probe_spec by lia.
  rewrite Nat.sub_diag, drop_0, find_app, find_map_auth. rewrite (head_map_auth (List.filter _ _)).
  destruct Hc as [[Hlo Hhi]|[-> Hnone]].
  - assert (Hsplit : List.filter predicate entries
      = List.filter predicate (take i entries) ++ List.filter predicate (drop i entries))
      by (by rewrite <- List.filter_app, take_drop).
    change (fun e => str_lt lastID (a_ID (e_auth e))) with (fun e => str_lt lastID (entry_id e)).
    rewrite Hsplit.
    assert (Hlo' : List.find (fun e => str_lt lastID (entry_id e)) (List.filter predicate (take i entries)) = None).
    { apply find_all_false. intros e [He _]%list_elem_of_In%filter_In. apply (Hlo (e_auth e)).
      rewrite firstn_map. apply list_elem_of_In, in_map, He. }
    rewrite find_app, Hlo'.
    assert (Hhi' : ∀ l, (∀ e, In e l → str_lt lastID (entry_id e) = true) →
      List.find (fun e => str_lt lastID (entry_id e)) (List.filter predicate l) = List.find predicate l).
    { induction l as [|e l IH]; intros He; simpl; [done|]. destruct (predicate e); simpl; [|apply IH; intros; apply He; by right].
      rewrite He by by left. done. }
    rewrite Hhi'.
    + destruct (List.find predicate (drop i entries)) eqn:Ef; [done|].
      apply find_none_filter in Ef. by rewrite Ef, app_nil_r, find_filter.
    + intros e He. apply (Hhi (e_auth e)). rewrite skipn_map. by apply list_elem_of_In, in_map.
  - rewrite drop_0, take_0. cbn [List.find].
    rewrite (find_all_false (fun e => str_lt lastID (a_ID (e_auth e))));
      [by rewrite find_filter; destruct (head (List.filter predicate entries))|].
    intros e [He _]%list_elem_of_In%filter_In. apply (Hnone (e_auth e)). by apply list_elem_of_In, in_map.
Qed.

(** ** Weighted picks *)

Definition weighed (entries : list scheduledAuth) : Prop :=
  ∀ e, e ∈ entries → sm_weight (e_meta e) = authWeight (e_auth e).

Definition smooth_view (acc : sched_acc) : Selector.smooth_acc :=
  {| Selector.sa_picked := e_auth <$> sc_picked acc; Selector.sa_pickedCurrent := sc_pickedCurrent acc;
     Selector.sa_totalWeight := sc_totalWeight acc; Selector.sa_current := sc_current acc |}.

Lemma sched_fold_view predicate entries acc :
  weighed entries →
  smooth_view (foldl (sched_step predicate) acc entries)
  = foldl Selector.smooth_step (smooth_view acc) (map e_auth (List.filter predicate entries)).
Proof.
  revert acc. induction entries as [|e l IH]; intros acc Hw; [done|]. simpl foldl.
  rewrite IH by (intros x Hx; apply Hw; by right). specialize (Hw e ltac:(by left)).
  simpl List.filter. unfold sched_step at 1. destruct (predicate e) eqn:Ep; cbn [negb].
  - simpl map. simpl foldl. f_equal. unfold Selector.smooth_step. rewrite <- Hw. case_if; [done|].
    unfold smooth_view. cbn. unfold entry_id. destruct (sc_picked acc); cbn; [|done]. by case_if.
  - by case_if.
Qed.

Lemma pickSmooth_spec entries current predicate :
  weighed entries →
  let p := pickSmoothWeightedScheduled entries current predicate in
  (e_auth <$> p.1, p.2)
  = Selector.pickSmoothWeightedAuth (map e_auth (List.filter predicate entries)) current.
Proof.
  intros Hw. unfold pickSmoothWeightedScheduled, Selector.pickSmoothWeightedAuth.
  match goal with |- context [foldl (sched_step predicate) ?a entries] =>
    pose proof (sched_fold_view predicate entries a Hw) as Hf;
    set (acc := foldl (sched_step predicate) a entries) in * end.
  unfold smooth_view in Hf at 2. cbn [sc_picked sc_pickedCurrent sc_totalWeight sc_current] in Hf.
  change (e_auth <$> None) with (@None Auth) in Hf. rewrite <- Hf. unfold smooth_view. cbn.
  by destruct (sc_picked acc).
Qed.

Lemma weights_spec_sched entries predicate :
  weighed entries →
  scheduledWeightVectorMatching entries predicate
  = Selector.authWeightVector (map e_auth (List.filter predicate entries)).
Proof.
  unfold scheduledWeightVectorMatching, Selector.authWeightVector.
  generalize (∅ : gmap string Z). induction entries as [|e l IH]; intros w Hw; [done|].
  simpl foldl. rewrite IH by (intros x Hx; apply Hw; by right). specialize (Hw e ltac:(by left)).
  rewrite Hw. simpl List.filter. destruct (predicate e); cbn [negb].
  - simpl map. simpl foldl. f_equal. unfold entry_id. repeat case_if; bprop; done || lia.
  - by case_if.
Qed.

(** ** The three strategies at once *)

(** What a selector that keeps the cursors of view [v] picks among [l]. *)
Definition reference_pick (strategy : schedulerStrategy) (v : readyView) (l : list Auth) : option Auth :=
  match strategy with
  | schedulerStrategyFillFirst => head l
  | schedulerStrategyWeightedRoundRobin => (Selector.smooth_pick (rv_weightedState v) l).1
  | _ => l !! Selector.successorIndex l (rv_lastPicked v)
  end.
(** The cursors it keeps afterwards. *)
Definition reference_cursors (strategy : schedulerStrategy) (v : readyView) (l : list Auth) : readyView :=
  match strategy with
  | schedulerStrategyFillFirst => v
  | schedulerStrategyWeightedRoundRobin =>
      v <| rv_weightedState := (Selector.smooth_pick (rv_weightedState v) l).2 |>
  | _ => match l !! Selector.successorIndex l (rv_lastPicked v) with
         | Some a => v <| rv_lastPicked := a_ID a |>
         | None => v
         end
  end.

Lemma ring_map_filter predicate entries :
  Selector.ring (map e_auth entries) → Selector.ring (map e_auth (List.filter predicate entries)).
Proof.
  induction entries as [|e es IH]; simpl; [done|]. intros [Hr Hall]%StronglySorted_inv.
  rewrite Forall_forall in Hall. specialize (IH Hr). destruct (predicate e); [|done]. simpl.
  constructor; [done|]. apply Forall_forall.
  intros a (x & <- & [Hx _]%filter_In)%list_elem_of_In%in_map_iff. apply Hall.
  by apply list_elem_of_In, in_map.
Qed.

Lemma view_pick_spec entries v strategy predicate :
  Selector.ring (map e_auth entries) → weighed entries → List.filter predicate entries ≠ [] →
  let l := map e_auth (List.filter predicate entries) in
  e_auth <$> (view_pick entries v strategy predicate).1 = reference_pick strategy v l
  ∧ (view_pick entries v strategy predicate).2 = reference_cursors strategy v l.
Proof.
  intros Hr Hw Hne l.
  assert (Hring : Selector.ring l) by by apply ring_map_filter.
  assert (Hrr : let p := pickRoundRobin entries (rv_lastPicked v) predicate in
    e_auth <$> p = l !! Selector.successorIndex l (rv_lastPicked v)).
  { cbv zeta. rewrite pickRoundRobin_spec by done. by rewrite successor_next. }
  unfold view_pick, reference_pick, reference_cursors.
  destruct strategy; try (rewrite <- Hrr; by destruct (pickRoundRobin entries _ predicate)).
  - split; [|done]. cbn [fst]. unfold pickFirst. rewrite find_filter. unfold l. by rewrite head_map_auth.
  - assert (Hcons : ∀ A (x y : A), match entries with [] => x | _ => y end = y)
      by (intros; by destruct entries).
    rewrite Hcons. unfold Selector.smooth_pick. rewrite weights_spec_sched by done. fold l.
    set (st := Selector.prepare (rv_weightedState v) (Selector.authWeightVector l)).
    pose proof (pickSmooth_spec entries (Selector.sw_current st) predicate Hw) as Hp. fold l in Hp.
    cbv zeta in Hp. destruct (pickSmoothWeightedScheduled entries (Selector.sw_current st) predicate) as [p cur].
    cbn [fst snd] in Hp. rewrite <- Hp. cbn. by destruct st.
Qed.

(** ** The indexes of a shard *)

Definition keyed (m : modelScheduler) : Prop :=
  ∀ id e, m_entries m !! id = Some e → entry_id e = id.

Definition strict_ids (l : list string) : Prop := StronglySorted (fun a b => str_lt a b = true) l.

(** A view lists, in the order of their identifiers, the entries that satisfy
    [P]. *)
Record flat_ok (m : modelScheduler) (flat : list string) (P : scheduledAuth → bool) : Prop := {
  fo_sorted : strict_ids flat;
  fo_elem : ∀ id, id ∈ flat ↔ ∃ e, m_entries m !! id = Some e ∧ P e = true;
}.

Definition in_bucket (p : Z) (e : scheduledAuth) : bool :=
  sched_is (e_state e) scheduledStateReady && (sm_priority (e_meta e) =? p).
Definition ws_entry (e : scheduledAuth) : bool := sm_websocketEnabled (e_meta e).

Record indexes_ok (m : modelScheduler) : Prop := {
  io_all : ∀ p b, m_readyByPriority m !! p = Some b → flat_ok m (rv_flat (rb_all b)) (in_bucket p);
  io_ws : ∀ p b, m_readyByPriority m !! p = Some b →
            flat_ok m (rv_flat (rb_ws b)) (fun e => in_bucket p e && ws_entry e);
  io_buckets : ∀ p, is_Some (m_readyByPriority m !! p) ↔
                 ∃ id e, m_entries m !! id = Some e ∧ in_bucket p e = true;
  io_sorted : StronglySorted (fun a b => b < a) (m_priorityOrder m);
  io_order : ∀ p, p ∈ m_priorityOrder m ↔ is_Some (m_readyByPriority m !! p);
  io_blocked : ∀ id, id ∈ m_blocked m ↔
                 ∃ e, m_entries m !! id = Some e ∧ is_blocked_state e = true;
}.

Lemma elem_entries_list m e :
  keyed m → e ∈ entries_list m ↔ m_entries m !! entry_id e = Some e.
Proof.
  intros Hk. unfold entries_list. split.
  - intros ([id x] & -> & Hin)%list_elem_of_fmap. apply elem_of_map_to_list in Hin. cbn.
    by rewrite (Hk id x).
  - intros Hl. apply list_elem_of_fmap. exists (entry_id e, e). split; [done|].
    by apply elem_of_map_to_list.
Qed.

Lemma nodup_entry_ids m : keyed m → NoDup (map entry_id (entries_list m)).
Proof.
  intros Hk. unfold entries_list. rewrite map_map.
  assert (Heq : map (fun p : string * scheduledAuth => entry_id p.2) (map_to_list (m_entries m))
    = map fst (map_to_list (m_entries m))).
  { apply map_ext_in. intros [id e] Hin. cbn. apply Hk. by apply elem_of_map_to_list, list_elem_of_In. }
  rewrite Heq. apply NoDup_fst_map_to_list.
Qed.

Lemma strict_of_sorted l :
  StronglySorted (key_le entry_id) l → NoDup (map entry_id l) → strict_ids (map entry_id l).
Proof.
  induction 1 as [|x l _ IH Hx]; intros Hnd; [constructor|]. simpl in *.
  apply NoDup_cons in Hnd as [Hnin Hnd]. constructor; [by apply IH|].
  rewrite Forall_forall in Hx. apply Forall_forall. intros id (y & <- & Hy)%list_elem_of_In%in_map_iff.
  apply list_elem_of_In in Hy. specialize (Hx y Hy). unfold key_le in Hx.
  destruct (str_lt (entry_id x) (entry_id y)) eqn:E; [done|exfalso].
  apply Hnin. rewrite (str_lt_total _ _ E Hx). by apply list_elem_of_In, in_map, list_elem_of_In.
Qed.

Lemma StronglySorted_filter {A} (R : A → A → Prop) f l :
  StronglySorted R l → StronglySorted R (List.filter f l).
Proof.
  induction 1 as [|x l _ IH Hx]; simpl; [constructor|]. destruct (f x); [|done].
  constructor; [done|]. rewrite Forall_forall in Hx. apply Forall_forall. intros y [Hy _]%list_elem_of_In%filter_In.
  by apply Hx, list_elem_of_In.
Qed.

Lemma NoDup_map_filter {A B} (k : A → B) f l : NoDup (map k l) → NoDup (map k (List.filter f l)).
Proof.
  induction l as [|x l IH]; simpl; [done|]. intros [Hx Hnd]%NoDup_cons.
  destruct (f x); simpl; [|by apply IH]. apply NoDup_cons. split; [|by apply IH].
  intros (y & Hy & [Hin _]%filter_In)%list_elem_of_In%in_map_iff. apply Hx. rewrite <- Hy.
  by apply list_elem_of_In, in_map.
Qed.

Lemma in_map_filter m l (f P : scheduledAuth → bool) id :
  keyed m → (∀ e, e ∈ l ↔ e ∈ entries_list m ∧ f e = true) →
  id ∈ map entry_id (List.filter P l) ↔
  ∃ e, m_entries m !! id = Some e ∧ f e && P e = true.
Proof.
  intros Hk Hl. split.
  - intros (e & <- & [Hin HP]%filter_In)%list_elem_of_In%in_map_iff.
    apply list_elem_of_In, Hl in Hin as [Hin Hf]. exists e. rewrite <- elem_entries_list by done.
    by rewrite Hf, HP.
  - intros (e & He & [Hf HP]%andb_true_iff). assert (Hid := Hk id e He). subst id.
    apply list_elem_of_In, in_map, filter_In. split; [|done]. apply list_elem_of_In, Hl.
    split; [|done]. by apply elem_entries_list.
Qed.

Lemma append_entry_spec es acc p :
  default [] (foldl append_entry acc es !! p)
  = default [] (acc !! p) ++ List.filter (in_bucket p) es.
Proof.
  revert acc. induction es as [|e es IH]; intros acc; simpl; [by rewrite app_nil_r|].
  rewrite IH. unfold append_entry, in_bucket. destruct (sched_is (e_state e) scheduledStateReady); simpl; [|done].
  destruct (sm_priority (e_meta e) =? p) eqn:E; bprop.
  - subst p. rewrite lookup_insert_eq. simpl. by rewrite <- app_assoc.
  - by rewrite lookup_insert_ne.
Qed.

Lemma append_entry_nonempty es acc :
  (∀ p l, acc !! p = Some l → l ≠ []) → ∀ p l, foldl append_entry acc es !! p = Some l → l ≠ [].
Proof.
  revert acc. induction es as [|e es IH]; intros acc Hacc; simpl; [done|]. apply IH.
  intros p l. unfold append_entry. case_if; [|apply Hacc].
  destruct (decide (sm_priority (e_meta e) = p)) as [<-|Hne].
  - rewrite lookup_insert_eq. intros [= <-]. by destruct (default [] _).
  - rewrite lookup_insert_ne by done. apply Hacc.
Qed.

Lemma restore_flat entries view old : rv_flat (restoreReadyViewCursors entries view old) = rv_flat view.
Proof. unfold restoreReadyViewCursors. by case_if. Qed.

Lemma rebuild_bucket_flats old es :
  rv_flat (rb_all (rebuild_bucket old es)) = map entry_id (sort_by entry_id es)
  ∧ rv_flat (rb_ws (rebuild_bucket old es)) = map entry_id (List.filter ws_entry (sort_by entry_id es)).
Proof. unfold rebuild_bucket. destruct old; cbn; rewrite ?restore_flat; done. Qed.

#[global] Instance priority_ge_total : Total priority_ge.
Proof. intros x y. unfold priority_ge. lia. Qed.
#[global] Instance priority_ge_trans : Transitive priority_ge.
Proof. intros x y z. unfold priority_ge. lia. Qed.

Lemma descending_of_sorted l :
  StronglySorted priority_ge l → NoDup l → StronglySorted (fun a b => b < a) l.
Proof.
  induction 1 as [|x l _ IH Hx]; intros Hnd; [constructor|]. apply NoDup_cons in Hnd as [Hnin Hnd].
  constructor; [by apply IH|]. rewrite Forall_forall in Hx. apply Forall_forall. intros y Hy.
  specialize (Hx y Hy). unfold priority_ge in Hx. assert (x ≠ y) by (intros ->; done). lia.
Qed.

(** The views of one priority, rebuilt. *)
Lemma rebuilt_flat m p (P : scheduledAuth → bool) :
  keyed m →
  flat_ok m (map entry_id (List.filter P (sort_by entry_id (List.filter (in_bucket p) (entries_list m)))))
    (fun e => in_bucket p e && P e).
Proof.
  intros Hk. set (es := List.filter (in_bucket p) (entries_list m)).
  assert (Hnd : NoDup (map entry_id (List.filter P (sort_by entry_id es)))).
  { apply NoDup_map_filter. change (map entry_id) with (fmap (M := list) entry_id).
    rewrite sort_by_perm. apply (NoDup_map_filter entry_id), nodup_entry_ids, Hk. }
  split.
  - apply strict_of_sorted; [|done]. apply StronglySorted_filter, sort_by_sorted.
  - intros id. apply (in_map_filter m); [done|]. intros e. rewrite elem_of_sort_by. unfold es.
    rewrite !list_elem_of_In, filter_In. done.
Qed.

Lemma rebuild_blocked m id :
  keyed m →
  id ∈ m_blocked (rebuildIndexesLocked m) ↔ ∃ e, m_entries m !! id = Some e ∧ is_blocked_state e = true.
Proof.
  intros Hk. cbn. change (map entry_id) with (fmap (M := list) entry_id).
  rewrite merge_sort_Permutation. split.
  - intros (e & -> & [He Hbl]%list_elem_of_In%filter_In)%list_elem_of_fmap.
    exists e. split; [|done]. by apply elem_entries_list, list_elem_of_In.
  - intros (e & He & Hbl). rewrite <- (Hk id e He). apply list_elem_of_fmap_2.
    apply list_elem_of_In, filter_In. split; [|done]. apply list_elem_of_In, elem_entries_list; [done|].
    by rewrite (Hk id e He).
Qed.

Lemma rebuild_indexes_ok m : keyed m → indexes_ok (rebuildIndexesLocked m).
Proof.
  intros Hk. set (buckets := foldl append_entry ∅ (entries_list m)).
  assert (Hb : ∀ p, default [] (buckets !! p) = List.filter (in_bucket p) (entries_list m))
    by (intros p; unfold buckets; rewrite append_entry_spec; by rewrite lookup_empty).
  assert (Hne : ∀ p l, buckets !! p = Some l → l ≠ []) by (by apply append_entry_nonempty).
  assert (Hl : ∀ p b, m_readyByPriority (rebuildIndexesLocked m) !! p = Some b →
    b = rebuild_bucket (m_readyByPriority m !! p) (List.filter (in_bucket p) (entries_list m))).
  { intros p b Hp. unfold rebuildIndexesLocked in Hp. cbn in Hp. fold buckets in Hp.
    rewrite map_lookup_imap in Hp. specialize (Hb p). destruct (buckets !! p); [|done]. cbn in *.
    by simplify_eq. }
  assert (Hsome : ∀ p, is_Some (m_readyByPriority (rebuildIndexesLocked m) !! p) ↔ is_Some (buckets !! p)).
  { intros p. unfold rebuildIndexesLocked. cbn. fold buckets. rewrite map_lookup_imap.
    destruct (buckets !! p); cbn; split; intros [x Hx]; done || by eexists. }
  split.
  - intros p b ->%Hl. destruct (rebuild_bucket_flats (m_readyByPriority m !! p)
      (List.filter (in_bucket p) (entries_list m))) as [-> _].
    pose proof (rebuilt_flat m p any_entry Hk) as Hf.
    assert (Hid : ∀ l : list scheduledAuth, List.filter any_entry l = l)
      by (induction l as [|x l IH]; simpl; congruence).
    rewrite Hid in Hf. destruct Hf as [H1 H2]. split; [done|]. intros id. rewrite H2.
    unfold any_entry. by setoid_rewrite andb_true_r.
  - intros p b ->%Hl. destruct (rebuild_bucket_flats (m_readyByPriority m !! p)
      (List.filter (in_bucket p) (entries_list m))) as [_ ->]. destruct (rebuilt_flat m p ws_entry Hk) as [H1 H2]. by split.
  - intros p. rewrite Hsome. specialize (Hb p). split.
    + intros [l Hp]. rewrite Hp in Hb. cbn in Hb. pose proof (Hne p l Hp) as Hnil.
      destruct l as [|e l]; [done|]. assert (He : e ∈ List.filter (in_bucket p) (entries_list m))
        by (rewrite <- Hb; by left).
      apply list_elem_of_In, filter_In in He as [He Hbu]. apply list_elem_of_In, elem_entries_list in He; [|done].
      by exists (entry_id e), e.
    + intros (id & e & He & Hbu). destruct (buckets !! p); [by eexists|exfalso]. cbn in Hb.
      assert (He' : e ∈ List.filter (in_bucket p) (entries_list m)).
      { apply list_elem_of_In, filter_In. split; [|done]. apply list_elem_of_In, elem_entries_list; [done|].
        by rewrite (Hk id e He). }
      rewrite <- Hb in He'. by apply elem_of_nil in He'.
  - apply descending_of_sorted.
    + apply Sorted_StronglySorted; [apply _|]. by apply Sorted_merge_sort; apply _.
    + cbn. rewrite merge_sort_Permutation. apply NoDup_fst_map_to_list.
  - intros p. rewrite Hsome. cbn. rewrite merge_sort_Permutation. fold buckets. split.
    + intros ([q l] & -> & Hin)%list_elem_of_fmap. apply elem_of_map_to_list in Hin. by eexists.
    + intros [l Hp]. apply list_elem_of_fmap. exists (p, l). split; [done|]. by apply elem_of_map_to_list.
  - intros id. exact (rebuild_blocked m id Hk).
Qed.

(** ** The cached states *)

Lemma availabilityBlock_unblocked_stays u e r q now t :
  0 ≤ now ≤ t → (availabilityBlock u e r q now).1.1 = false → (availabilityBlock u e r q t).1.1 = false.
Proof.
  intros Ht. rewrite !availabilityBlock_cases by lia. destruct (negb u && negb e); [done|].
  destruct (now <? Z.max r q) eqn:E1; [done|]. destruct (t <? Z.max r q) eqn:E2; [bprop; lia|]. done.
Qed.

Lemma classify_ready b : (classify b).1 = scheduledStateReady ↔ b.1.1 = false.
Proof. destruct b as [[[] []] next]; done. Qed.

Section Invariant.
Context `{GP : GoParse}.

(** A credential that is usable stays usable until its access token expires. *)
Lemma unblocked_stays ctx model now t auth :
  0 ≤ now ≤ t → blocked_for ctx model now auth = false → token_expired ctx auth t = false →
  blocked_for ctx model t auth = false.
Proof.
  intros Ht. rewrite !blocked_for_eq, !orb_false_iff. intros [[[[[H1 H2] H3] H4] H5] H6] H7.
  split_and!; try done.
  - unfold credential_quota_active in *. destruct (Exceeded _ && _); [|done]. simpl in *. bprop. lia.
  - destruct (negb (String.eqb model "") && has_states auth).
    + apply not_true_is_false. intros (p & Hp & Hk)%existsb_exists. apply not_true_iff_false in H6.
      apply H6, existsb_exists. exists p. split; [done|]. unfold key_blocks, state_blocks in *.
      apply andb_true_iff in Hk as [Hk1 Hk2]. rewrite Hk1. simpl.
      destruct (String.eqb (ms_Status p.2) StatusDisabled); [done|]. simpl in *.
      destruct ((state_block p.2 now).1.1) eqn:Eb; [done|]. unfold state_block in *.
      by rewrite (availabilityBlock_unblocked_stays _ _ _ _ now t) in Hk2.
    + by apply (availabilityBlock_unblocked_stays _ _ _ _ now t).
Qed.

Definition meta_ok (meta : scheduledAuthMeta) : Prop :=
  sm_priority meta = authPriority (sm_auth meta) ∧ sm_weight meta = authWeight (sm_auth meta)
  ∧ sm_websocketEnabled meta = authWebsocketsEnabled (sm_auth meta).

(** The state of an entry is what the block test answered at some moment up to
    [t]. *)
Record entry_ok (key : string) (t : time) (e : scheduledAuth) : Prop := {
  eo_auth : sm_auth (e_meta e) = e_auth e;
  eo_meta : meta_ok (e_meta e);
  eo_eval : ∃ te, 0 ≤ te ≤ t
    ∧ (e_state e, e_nextRetryAt e) = classify (isAuthBlockedForModel (e_auth e) key te);
}.

Record shard_ok (t : time) (m : modelScheduler) : Prop := {
  sh_keyed : keyed m;
  sh_entries : ∀ id e, m_entries m !! id = Some e → entry_ok (m_modelKey m) t e;
  sh_index : indexes_ok m;
}.

Lemma entry_ok_mono key t t' e : t ≤ t' → entry_ok key t e → entry_ok key t' e.
Proof. intros Ht [H1 H2 (te & Hte & He)]. split; [done..|]. exists te. split; [lia|done]. Qed.

Lemma evaluate_ok key now e :
  0 ≤ now → sm_auth (e_meta e) = e_auth e → meta_ok (e_meta e) → entry_ok key now (evaluate key now e).
Proof.
  intros Hn H1 H2. split; [done..|]. exists now. split; [lia|]. unfold evaluate, set_state. cbn.
  by destruct (classify _).
Qed.

Lemma new_shard_ok key t : shard_ok t (new_shard key).
Proof.
  assert (He : ∀ id e, m_entries (new_shard key) !! id = Some e → False)
    by (intros id e Hl; cbn in Hl; by rewrite lookup_empty in Hl).
  assert (Hb : ∀ p, ¬ is_Some (m_readyByPriority (new_shard key) !! p))
    by (intros p [b Hl]; cbn in Hl; by rewrite lookup_empty in Hl).
  split; [intros id e Hl; by apply He in Hl..|]. split.
  - intros p b Hp. exfalso. by apply (Hb p); eexists.
  - intros p b Hp. exfalso. by apply (Hb p); eexists.
  - intros p. split; [by intros ?%Hb|]. by intros (id & e & Hl%He & _).
  - constructor.
  - intros p. split; [by intros ?%elem_of_nil|by intros ?%Hb].
  - intros id. split; [by intros ?%elem_of_nil|]. by intros (e & Hl%He & _).
Qed.

Lemma rebuilt_ok t m :
  keyed m → (∀ id e, m_entries m !! id = Some e → entry_ok (m_modelKey m) t e) →
  shard_ok t (rebuildIndexesLocked m).
Proof. intros Hk He. split; [done|done|]. by apply rebuild_indexes_ok. Qed.

(** An entry replaced by one that the indexes cannot tell apart. *)
Lemma same_index_ok m id e e' :
  m_entries m !! id = Some e → same_index e e' = true → indexes_ok m →
  indexes_ok (m <| m_entries := <[id := e']> (m_entries m) |>).
Proof.
  intros Hl Hsame [H1 H2 H3 H4 H5 H6]. unfold same_index in Hsame.
  apply andb_true_iff in Hsame as [Hsame Hws%eqb_prop]. unfold sched_is in Hsame. bprop.
  assert (Hb : ∀ p, in_bucket p e' = in_bucket p e) by (intros; unfold in_bucket; congruence).
  assert (Hw : ws_entry e' = ws_entry e) by (unfold ws_entry; congruence).
  assert (Hbl : is_blocked_state e' = is_blocked_state e) by (unfold is_blocked_state; congruence).
  assert (Hex : ∀ P : scheduledAuth → bool, P e' = P e → ∀ j,
    (∃ x, <[id := e']> (m_entries m) !! j = Some x ∧ P x = true)
    ↔ ∃ x, m_entries m !! j = Some x ∧ P x = true).
  { intros P HP j. destruct (decide (id = j)) as [<-|Hne].
    - rewrite lookup_insert_eq, Hl. split; intros (x & [= <-] & Hx); eexists; (split; [done|]); congruence.
    - by rewrite lookup_insert_ne. }
  split; cbn; try done.
  - intros p b Hp. destruct (H1 p b Hp) as [Hs He]. split; [done|]. intros j. rewrite He. cbn.
    symmetry. by apply (Hex (in_bucket p)).
  - intros p b Hp. destruct (H2 p b Hp) as [Hs He]. split; [done|]. intros j. rewrite He. cbn.
    symmetry. apply (Hex (fun x => in_bucket p x && ws_entry x)). by rewrite Hb, Hw.
  - intros p. rewrite H3. split; intros (j & Hj); exists j.
    + by apply (Hex (in_bucket p)).
    + by apply (Hex (in_bucket p)) in Hj.
  - intros j. rewrite H6. symmetry. by apply Hex.
Qed.

Lemma upsert_ok t m meta now :
  0 ≤ t ≤ now → shard_ok t m → meta_ok meta → shard_ok now (upsertEntryLocked m meta now).
Proof.
  intros Ht [Hk He Hi] Hm. unfold upsertEntryLocked.
  match goal with |- context [evaluate ?k now ?x] => set (entry := evaluate k now x) end.
  assert (Hentry : entry_ok (m_modelKey m) now entry) by (apply evaluate_ok; [lia|done|done]).
  set (m' := m <| m_entries := <[a_ID (sm_auth meta) := entry]> (m_entries m) |>).
  assert (Hk' : keyed m').
  { intros id e Hx. apply (lookup_insert_Some (m_entries m)) in Hx as [[<- <-]|[_ Hl]]; [done|by apply Hk]. }
  assert (He' : ∀ id e, m_entries m' !! id = Some e → entry_ok (m_modelKey m') now e).
  { intros id e Hx. apply (lookup_insert_Some (m_entries m)) in Hx as [[<- <-]|[_ Hl]]; [done|]. eapply entry_ok_mono; [|by eapply He]. lia. }
  destruct (m_entries m !! a_ID (sm_auth meta)) as [previous|] eqn:Hl; [|by apply rebuilt_ok].
  destruct (same_index previous entry) eqn:Es; [|by apply rebuilt_ok].
  split; [done..|]. by apply (same_index_ok m _ previous).
Qed.

Lemma remove_ok t m authID : shard_ok t m → shard_ok t (removeEntryLocked m authID).
Proof.
  intros [Hk He Hi]. unfold removeEntryLocked. case_if; [done|].
  destruct (m_entries m !! authID); [|done]. apply rebuilt_ok.
  - intros id e Hx. apply (lookup_delete_Some (m_entries m)) in Hx as [_ Hl]. by apply Hk.
  - intros id e Hx. apply (lookup_delete_Some (m_entries m)) in Hx as [_ Hl]. by eapply He.
Qed.

(** ** Promotion *)

(** An entry says whether its credential is usable now. *)
Definition fresh (key : string) (now : time) (e : scheduledAuth) : Prop :=
  e_state e = scheduledStateReady ↔ blocked_for background key now (e_auth e) = false.

Lemma evaluate_fresh key now e : fresh key now (evaluate key now e).
Proof. unfold fresh, evaluate, set_state. cbn. by rewrite classify_ready. Qed.

Definition due (now : time) (e : scheduledAuth) : bool :=
  negb (is_zero (e_nextRetryAt e) || after (e_nextRetryAt e) now).

Lemma background_expiry a : AccessTokenExpirationTimeForRequest background a = AccessTokenExpirationTime a.
Proof.
  unfold AccessTokenExpirationTimeForRequest, IsCodexUseSIWCForRequest.
  by destruct (IsCodexUseSIWC a).
Qed.

Lemma must_demote_expired key now e :
  e_state e = scheduledStateReady → must_demote key now e = token_expired background (e_auth e) now.
Proof.
  intros Hs. unfold must_demote, token_expired. rewrite background_expiry, Hs. cbn.
  destruct (AccessTokenExpirationTime (e_auth e)) as [exp|] eqn:Ee; [|done].
  destruct (negb (is_zero exp) && negb (after exp now)) eqn:Ex; [|done].
  cbn [andb]. change (blocked_for background key now (e_auth e) = true). rewrite blocked_for_eq.
  assert (Ht : token_expired background (e_auth e) now = true)
    by (unfold token_expired; by rewrite background_expiry, Ee).
  rewrite Ht. by rewrite !orb_true_r.
Qed.

(** An entry that is neither demoted nor due is still right. *)
Lemma kept_fresh key t now e :
  entry_ok key t e → t ≤ now → must_demote key now e = false → due now e = false ∨ is_blocked_state e = false →
  fresh key now e.
Proof.
  intros [_ _ (te & Hte & He)] Ht Hd Hdue. unfold fresh.
  assert (Hst : e_state e = (classify (isAuthBlockedForModel (e_auth e) key te)).1) by by rewrite <- He.
  assert (Hne : e_nextRetryAt e = (classify (isAuthBlockedForModel (e_auth e) key te)).2) by by rewrite <- He.
  clear He. destruct (isAuthBlockedForModel (e_auth e) key te) as [[b reason] next] eqn:Eb.
  destruct b.
  - assert (Hstay : blocked_for background key now (e_auth e) = true).
    { assert (Hnext : next = 0 ∨ now < next).
      { destruct (decide (reason = blockReasonDisabled)) as [->|Hr];
          [left; by apply reason_disabled_next in Eb|].
        assert (Hbl : is_blocked_state e = true ∧ e_nextRetryAt e = next).
        { unfold is_blocked_state, sched_is. rewrite Hst, Hne. by destruct reason. }
        destruct Hbl as [Hbl Hn]. destruct Hdue as [Hdue|]; [|congruence].
        unfold due in Hdue. rewrite Hn in Hdue. apply negb_false_iff, orb_true_iff in Hdue.
        destruct Hdue as [Hz|Ha]; bprop; [by left|by right]. }
      apply (isAuthBlocked_stays background _ key te now reason next) in Eb as [_ Hs]; [|lia].
      by apply Hs. }
    rewrite Hstay, Hst. cbn. by destruct reason.
  - assert (Hready : e_state e = scheduledStateReady) by by rewrite Hst.
    split; [intros _|done]. rewrite must_demote_expired in Hd by done.
    apply (unblocked_stays _ _ te); [lia| |done]. unfold blocked_for.
    unfold isAuthBlockedForModel in Eb. by rewrite Eb.
Qed.

(** What the loop over the blocked queue does to the entries. *)
Lemma promote_fold key now ids changed entries :
  let r := foldl (promote_step key now) (changed, entries) ids in
  (∀ id, r.2 !! id = entries !! id ∨ ∃ e, entries !! id = Some e ∧ r.2 !! id = Some (evaluate key now e))
  ∧ (∀ id e, id ∈ ids → entries !! id = Some e → due now e = true → r.2 !! id = Some (evaluate key now e))
  ∧ (r.1 = false → changed = false ∧ r.2 = entries).
Proof.
  revert changed entries. induction ids as [|i ids IH]; intros changed entries; cbv zeta.
  { simpl. split_and!; [by left|by intros id e ?%elem_of_nil|done]. }
  cbn [foldl]. unfold promote_step at 2 4 6 8 10.
  destruct (entries !! i) as [ei|] eqn:Hi.
  2: { destruct (IH changed entries) as (H1 & H2 & H3). split_and!; [done| |done].
       intros id e [->|Hin]%elem_of_cons He Hd; [congruence|by apply H2]. }
  destruct (is_zero (e_nextRetryAt ei) || after (e_nextRetryAt ei) now) eqn:Ed.
  { destruct (IH changed entries) as (H1 & H2 & H3). split_and!; [done| |done].
    intros id e [->|Hin]%elem_of_cons He Hd; [|by apply H2]. simplify_eq.
    unfold due in Hd. by rewrite Ed in Hd. }
  destruct (IH true (<[i := evaluate key now ei]> entries)) as (H1 & H2 & H3).
  set (r := foldl (promote_step key now) (true, <[i := evaluate key now ei]> entries) ids) in *.
  assert (Hidem : evaluate key now (evaluate key now ei) = evaluate key now ei) by done.
  assert (Hat : r.2 !! i = Some (evaluate key now ei)).
  { destruct (H1 i) as [->|(e & He & ->)]; [by rewrite lookup_insert_eq|].
    rewrite lookup_insert_eq in He. injection He as <-. by rewrite Hidem. }
  split_and!.
  - intros id. destruct (decide (i = id)) as [<-|Hne]; [right; by exists ei|].
    destruct (H1 id) as [->|(e & He & ->)]; [left; by rewrite lookup_insert_ne|right].
    rewrite lookup_insert_ne in He by done. by exists e.
  - intros id e Hin He Hd. destruct (decide (i = id)) as [<-|Hne]; [simplify_eq; done|].
    apply elem_of_cons in Hin as [->|Hin]; [done|]. apply H2; [done|by rewrite lookup_insert_ne|done].
  - intros Hr. apply H3 in Hr as [? _]. done.
Qed.

(** An entry before and after a promotion. *)
Definition promoted (key : string) (now : time) (e e' : scheduledAuth) : Prop :=
  e_meta e' = e_meta e ∧ e_auth e' = e_auth e ∧ fresh key now e' ∧ entry_ok key now e'.

Definition demoted (key : string) (now : time) (e : scheduledAuth) : scheduledAuth :=
  if must_demote key now e then evaluate key now e else e.

Lemma demoted_ok key t now e :
  0 ≤ t ≤ now → entry_ok key t e → entry_ok key now (demoted key now e).
Proof.
  intros Ht He. unfold demoted. case_if; [|by eapply entry_ok_mono; [|done]; lia].
  apply evaluate_ok; [lia|apply He|apply He].
Qed.

Lemma demote_entries m now id e :
  m_entries m !! id = Some e →
  m_entries (demoteExpiredTokensLocked m now).2 !! id = Some (demoted (m_modelKey m) now e).
Proof. intros Hl. cbn. rewrite lookup_fmap, Hl. done. Qed.

Lemma demote_none m now :
  (demoteExpiredTokensLocked m now).1 = false → m_entries (demoteExpiredTokensLocked m now).2 = m_entries m.
Proof.
  cbn. intros He. apply map_eq. intros id. rewrite lookup_fmap.
  destruct (m_entries m !! id) as [e|] eqn:Hl; [|done]. cbn. f_equal.
  destruct (must_demote (m_modelKey m) now e) eqn:Ed; [|done]. exfalso.
  apply not_true_iff_false in He. apply He, existsb_exists. exists e. split; [|done].
  unfold entries_list. apply in_map_iff. exists (id, e). split; [done|].
  by apply list_elem_of_In, elem_of_map_to_list.
Qed.

(** The entries after both loops, before any rebuild. *)
Lemma promote_entries t m now :
  0 ≤ t ≤ now → shard_ok t m →
  let r := foldl (promote_step (m_modelKey m) now)
             ((demoteExpiredTokensLocked m now).1, m_entries (demoteExpiredTokensLocked m now).2)
             (m_blocked m) in
  (∀ id, match m_entries m !! id, r.2 !! id with
         | Some e, Some e' => promoted (m_modelKey m) now e e'
         | None, None => True
         | _, _ => False
         end)
  ∧ (r.1 = false → r.2 = m_entries m).
Proof.
  intros Ht [Hk He Hi] r. set (key := m_modelKey m) in *.
  destruct (promote_fold key now (m_blocked m) (demoteExpiredTokensLocked m now).1
              (m_entries (demoteExpiredTokensLocked m now).2)) as (H1 & H2 & H3).
  fold r in H1, H2, H3. split; [|by intros Hr; apply H3 in Hr as [Hd ->]; apply demote_none].
  intros id. specialize (H1 id). destruct (m_entries m !! id) as [e|] eqn:Hl.
  - pose proof (demote_entries m now id e Hl) as Hd. fold key in Hd. specialize (He id e Hl).
    pose proof (demoted_ok key t now e Ht He) as Hok.
    assert (Hmeta : e_meta (demoted key now e) = e_meta e ∧ e_auth (demoted key now e) = e_auth e)
      by (unfold demoted; by case_if).
    assert (Heval : promoted key now e (evaluate key now (demoted key now e))).
    { split; [apply Hmeta|]. split; [apply Hmeta|]. split; [apply evaluate_fresh|].
      apply evaluate_ok; [lia|apply Hok|apply Hok]. }
    destruct H1 as [Heq|(x & Hx & Heq)]; rewrite Heq; [|rewrite Hd in Hx; by simplify_eq].
    rewrite Hd. destruct (is_blocked_state (demoted key now e) && due now (demoted key now e)) eqn:Edue.
    + apply andb_true_iff in Edue as [Eb Edue].
      destruct (must_demote key now e) eqn:Em.
      * unfold demoted in *. rewrite Em in *. done.
      * unfold demoted in Eb, Edue, Hd, Heval |- *. rewrite Em in *.
        assert (Hin : id ∈ m_blocked m) by (apply (io_blocked m Hi); by exists e).
        specialize (H2 id e Hin Hd Edue). rewrite Heq, Hd in H2. injection H2 as H2.
        by rewrite H2 at 2.
    + split; [apply Hmeta|]. split; [apply Hmeta|]. split; [|done].
      unfold demoted in *. destruct (must_demote key now e) eqn:Em; [apply evaluate_fresh|].
      apply (kept_fresh key t); [done|lia|done|]. apply andb_false_iff in Edue. tauto.
  - destruct H1 as [->|(x & Hx & _)].
    + cbn. by rewrite lookup_fmap, Hl.
    + cbn in Hx. by rewrite lookup_fmap, Hl in Hx.
Qed.

Lemma promote_ok t m now :
  0 ≤ t ≤ now → shard_ok t m →
  let m' := promoteExpiredLocked m now in
  shard_ok now m' ∧ m_modelKey m' = m_modelKey m
  ∧ ∀ id, match m_entries m !! id, m_entries m' !! id with
          | Some e, Some e' => promoted (m_modelKey m) now e e'
          | None, None => True
          | _, _ => False
          end.
Proof.
  intros Ht Hm. pose proof (promote_entries t m now Ht Hm) as Hp. destruct Hm as [Hk He Hi].
  unfold promoteExpiredLocked.
  assert (Hpair : demoteExpiredTokensLocked m now
    = ((demoteExpiredTokensLocked m now).1, (demoteExpiredTokensLocked m now).2)) by done.
  rewrite Hpair. set (m1 := (demoteExpiredTokensLocked m now).2) in *.
  change (m_modelKey m1) with (m_modelKey m). change (m_blocked m1) with (m_blocked m).
  destruct (foldl (promote_step (m_modelKey m) now) ((demoteExpiredTokensLocked m now).1, m_entries m1)
              (m_blocked m)) as [changed entries]. cbn [fst snd] in Hp. destruct Hp as [Hall Hnone].
  assert (Hk' : ∀ id e, entries !! id = Some e → entry_id e = id ∧ entry_ok (m_modelKey m) now e).
  { intros id e' Hl'. specialize (Hall id). rewrite Hl' in Hall.
    destruct (m_entries m !! id) as [e|] eqn:Hl; [|done]. destruct Hall as (_ & Ha & _ & Hok).
    split; [|done]. unfold entry_id. rewrite Ha. by apply Hk. }
  destruct changed; (split; [|split; [done|exact Hall]]).
  - apply rebuilt_ok; intros id e Hl; apply (Hk' id e Hl).
  - rewrite (Hnone eq_refl) in *.
    assert (Heq : m1 <| m_entries := m_entries m |> = m) by (unfold m1; clear; by destruct m).
    rewrite Heq. split; [done|intros id e Hl; apply (Hk' id e Hl)|done].
Qed.

(** ** The candidates of a shard *)

Lemma view_entries_spec m v P :
  keyed m → flat_ok m (rv_flat v) P →
  map entry_id (view_entries m v) = rv_flat v
  ∧ ∀ e, e ∈ view_entries m v ↔ m_entries m !! entry_id e = Some e ∧ P e = true.
Proof.
  intros Hk [_ He]. unfold view_entries. split.
  - assert (Hall : ∀ id, id ∈ rv_flat v → is_Some (m_entries m !! id)).
    { intros id (e & Hl & _)%He. by eexists. }
    clear He. induction (rv_flat v) as [|id l IH]; [done|]. cbn.
    destruct (Hall id ltac:(by left)) as [e Hl]. rewrite Hl. cbn. f_equal; [by apply Hk|].
    apply IH. intros j Hj. apply Hall. by right.
  - intros e. rewrite list_elem_of_omap. split.
    + intros (id & Hid & Hl). rewrite (Hk id e Hl). split; [done|].
      apply He in Hid as (x & Hx & HP). congruence.
    + intros [Hl HP]. exists (entry_id e). split; [|done]. apply He. by exists e.
Qed.

Lemma view_ring m v P :
  keyed m → flat_ok m (rv_flat v) P → Selector.ring (map e_auth (view_entries m v)).
Proof.
  intros Hk Hf. destruct (view_entries_spec m v P Hk Hf) as [Hids _]. destruct Hf as [Hs _].
  rewrite <- Hids in Hs. clear Hids. induction (view_entries m v) as [|e l IH]; [constructor|].
  simpl in *. apply StronglySorted_inv in Hs as [Hs Hall]. constructor; [by apply IH|].
  rewrite Forall_forall in Hall. apply Forall_forall.
  intros a (x & <- & Hx)%list_elem_of_In%in_map_iff.
  by apply (Hall (entry_id x)), list_elem_of_In, in_map.
Qed.

(** The two views of a bucket and what they hold. *)
Definition bucket_view (ws : bool) (b : readyBucket) : readyView := if ws then rb_ws b else rb_all b.
Definition view_pred (ws : bool) (e : scheduledAuth) : bool := negb ws || ws_entry e.

Lemma bucket_view_ok m p b ws :
  indexes_ok m → m_readyByPriority m !! p = Some b →
  flat_ok m (rv_flat (bucket_view ws b)) (fun e => in_bucket p e && view_pred ws e).
Proof.
  intros Hi Hb. destruct ws; cbn; [by apply io_ws|]. destruct (io_all m Hi p b Hb) as [Hs He].
  split; [done|]. intros id. rewrite He. unfold view_pred. cbn. by setoid_rewrite andb_true_r.
Qed.

Lemma has_match_filter m predicate v :
  has_match m predicate v = true ↔ List.filter predicate (view_entries m v) ≠ [].
Proof.
  unfold has_match, pickFirst. rewrite bool_decide_eq_true, find_filter, head_is_Some. done.
Qed.

(** [first_priority] finds the best priority of a matching ready entry. *)
Lemma first_priority_spec m ws predicate :
  keyed m → indexes_ok m →
  match first_priority m (bucket_view ws) predicate with
  | Some p =>
      (∃ b, m_readyByPriority m !! p = Some b ∧ has_match m predicate (bucket_view ws b) = true)
      ∧ ∀ e, m_entries m !! entry_id e = Some e → e_state e = scheduledStateReady →
          view_pred ws e = true → predicate e = true → sm_priority (e_meta e) ≤ p
  | None =>
      ∀ e, m_entries m !! entry_id e = Some e → e_state e = scheduledStateReady →
        view_pred ws e = true → predicate e = false
  end.
Proof.
  intros Hk Hi.
  assert (Hin : ∀ e, m_entries m !! entry_id e = Some e → e_state e = scheduledStateReady →
    view_pred ws e = true → predicate e = true → ∃ b,
    m_readyByPriority m !! sm_priority (e_meta e) = Some b
    ∧ has_match m predicate (bucket_view ws b) = true ∧ sm_priority (e_meta e) ∈ m_priorityOrder m).
  { intros e Hl Hs Hw Hp.
    assert (Hbk : in_bucket (sm_priority (e_meta e)) e = true)
      by (unfold in_bucket, sched_is; by rewrite Hs, Z.eqb_refl).
    assert (Hsome : is_Some (m_readyByPriority m !! sm_priority (e_meta e)))
      by (apply (io_buckets m Hi); by exists (entry_id e), e).
    destruct Hsome as [b Hb]. exists b. split_and!; [done| |by apply (io_order m Hi); eexists].
    apply has_match_filter. intros Hnil. assert (Hin : e ∈ List.filter predicate (view_entries m (bucket_view ws b))).
    { apply list_elem_of_In, filter_In. split; [|done].
      apply list_elem_of_In, (view_entries_spec m _ _ Hk (bucket_view_ok m _ b ws Hi Hb)). by rewrite Hbk, Hw. }
    rewrite Hnil in Hin. by apply elem_of_nil in Hin. }
  unfold first_priority.
  set (f := fun p => match m_readyByPriority m !! p with
                     | Some b => has_match m predicate (bucket_view ws b) | None => false end).
  pose proof (io_sorted m Hi) as Hsort.
  assert (Hin' : ∀ e, m_entries m !! entry_id e = Some e → e_state e = scheduledStateReady →
    view_pred ws e = true → predicate e = true →
    f (sm_priority (e_meta e)) = true ∧ sm_priority (e_meta e) ∈ m_priorityOrder m).
  { intros e H1 H2 H3 H4. destruct (Hin e H1 H2 H3 H4) as (b & Hb & Hm & Ho). split; [|done].
    unfold f. by rewrite Hb. }
  destruct (List.find f (m_priorityOrder m)) as [p|] eqn:Ef.
  - split.
    + apply List.find_some in Ef as [_ Hf]. unfold f in Hf.
      destruct (m_readyByPriority m !! p) as [b|]; [|done]. by exists b.
    + intros e H1 H2 H3 H4. destruct (Hin' e H1 H2 H3 H4) as [Hf Ho]. clear Hin Hin'.
      induction Hsort as [|x l _ IH Hx]; [done|]. cbn in Ef. apply elem_of_cons in Ho.
      destruct (f x) eqn:Efx; [injection Ef as ->|].
      * rewrite Forall_forall in Hx. destruct Ho as [->|Ho]; [lia|]. specialize (Hx _ Ho). lia.
      * apply IH; [done|]. destruct Ho as [Ho|Ho]; [rewrite Ho in Hf; congruence|done].
  - intros e H1 H2 H3. destruct (predicate e) eqn:Ep; [|done]. exfalso.
    destruct (Hin' e H1 H2 H3 Ep) as [Hf Ho]. apply list_elem_of_In in Ho.
    by rewrite (List.find_none _ _ Ef _ Ho) in Hf.
Qed.

(** ** The reference: the selector's candidates, computed from scratch *)

Definition pool (m : modelScheduler) (ws : bool) (predicate : entry_pred) : list Auth :=
  map e_auth (List.filter (fun e => view_pred ws e && predicate e) (entries_list m)).
Definition reference (m : modelScheduler) (ws : bool) (predicate : entry_pred) (provider : string)
    (now : time) : outcome select_error (list Auth) :=
  getAvailableAuthsWithPriorityModeForRequest background (pool m ws predicate) provider
    (m_modelKey m) now false.

Record current (now : time) (m : modelScheduler) : Prop := {
  cu_ok : shard_ok now m;
  cu_fresh : ∀ id e, m_entries m !! id = Some e → fresh (m_modelKey m) now e;
}.

Lemma elem_pool m ws predicate a :
  keyed m → a ∈ pool m ws predicate ↔
  ∃ e, e_auth e = a ∧ m_entries m !! entry_id e = Some e ∧ view_pred ws e = true ∧ predicate e = true.
Proof.
  intros Hk. unfold pool. rewrite list_elem_of_In, in_map_iff. split.
  - intros (e & <- & [Hin Hp]%filter_In). apply list_elem_of_In, elem_entries_list in Hin; [|done].
    apply andb_true_iff in Hp as [H1 H2]. by exists e.
  - intros (e & <- & Hl & H1 & H2). exists e. split; [done|]. apply filter_In. rewrite H1, H2.
    split; [|done]. by apply list_elem_of_In, elem_entries_list.
Qed.

Lemma pool_nodup m ws predicate : keyed m → NoDup (map a_ID (pool m ws predicate)).
Proof.
  intros Hk. unfold pool. rewrite map_map. change (fun e => a_ID (e_auth e)) with entry_id.
  apply NoDup_map_filter. by apply nodup_entry_ids.
Qed.

(** Among the pool, being in the tier of [p] is being in its bucket. *)
Lemma in_tier_bucket m now p e :
  current now m → m_entries m !! entry_id e = Some e →
  in_tier background (m_modelKey m) now p (e_auth e) = in_bucket p e.
Proof.
  intros [Hok Hf] Hl. specialize (Hf _ e Hl). destruct (sh_entries now m Hok _ e Hl) as [Ha [Hp _] _].
  rewrite Ha in Hp. unfold in_tier, in_bucket, eligible, sched_is. rewrite Hp. f_equal.
  unfold fresh in Hf. case_bool_decide as Hs.
  - rewrite (proj1 Hf Hs). done.
  - destruct (blocked_for background (m_modelKey m) now (e_auth e)); [done|]. exfalso. by apply Hs, Hf.
Qed.

Lemma NoDup_map_inv {A B} (f : A → B) l : NoDup (map f l) → NoDup l.
Proof. apply (NoDup_fmap_1 f). Qed.

Lemma ring_key_le l : Selector.ring l → StronglySorted (key_le a_ID) l.
Proof.
  induction 1 as [|x l _ IH Hx]; constructor; [done|]. rewrite Forall_forall in Hx.
  apply Forall_forall. intros y Hy. unfold key_le. apply str_lt_asym. by apply Hx.
Qed.

Lemma ring_nodup l : Selector.ring l → NoDup l.
Proof.
  induction 1 as [|x l _ IH Hx]; constructor; [|done]. intros Hin. rewrite Forall_forall in Hx.
  specialize (Hx x Hin). unfold Selector.id_lt in Hx. by rewrite str_lt_irrefl in Hx.
Qed.

Lemma bucket_tier m ws predicate now p b a :
  current now m → m_readyByPriority m !! p = Some b →
  a ∈ map e_auth (List.filter predicate (view_entries m (bucket_view ws b)))
  ↔ a ∈ List.filter (in_tier background (m_modelKey m) now p) (pool m ws predicate).
Proof.
  intros Hcur Hb. pose proof (cu_ok _ _ Hcur) as [Hk _ Hi].
  pose proof (bucket_view_ok m p b ws Hi Hb) as Hflat.
  rewrite elem_of_List_filter, elem_pool by done. rewrite list_elem_of_In, in_map_iff. split.
  - intros (e & <- & [Hin Hp]%filter_In). apply list_elem_of_In in Hin.
    apply (view_entries_spec m _ _ Hk Hflat) in Hin as [Hl [Hbk Hw]%andb_true_iff].
    rewrite (in_tier_bucket m) by done. split; [by exists e|done].
  - intros [(e & <- & Hl & Hw & Hp) Ht]. rewrite (in_tier_bucket m) in Ht by done. exists e.
    split; [done|]. apply filter_In. split; [|done]. apply list_elem_of_In.
    apply (view_entries_spec m _ _ Hk Hflat). by rewrite Ht, Hw.
Qed.

(** Two lists of credentials in the order of their identifiers, with the same
    elements. *)
Lemma ring_unique l k (among : list Auth) :
  NoDup (map a_ID among) → (∀ x, x ∈ l → x ∈ among) →
  StronglySorted (key_le a_ID) l → NoDup l → Selector.ring k → (∀ x, x ∈ l ↔ x ∈ k) → l = k.
Proof.
  intros Hnd Ham Hl Hndl Hk He. apply (StronglySorted_unique_strong (key_le a_ID)).
  - intros x y Hx Hy H1 H2. apply (NoDup_map_inj a_ID among); [done|by apply Ham|by apply Ham, He|].
    unfold key_le in *. by apply str_lt_total.
  - done.
  - by apply ring_key_le.
  - apply NoDup_Permutation; [done|by apply ring_nodup|done].
Qed.

(** The matching entries of the best bucket are the selector's candidates. *)
Lemma reference_ok m ws predicate provider now p b :
  0 ≤ now → current now m →
  m_readyByPriority m !! p = Some b → has_match m predicate (bucket_view ws b) = true →
  (∀ e, m_entries m !! entry_id e = Some e → e_state e = scheduledStateReady →
     view_pred ws e = true → predicate e = true → sm_priority (e_meta e) ≤ p) →
  reference m ws predicate provider now
  = Ok (map e_auth (List.filter predicate (view_entries m (bucket_view ws b)))).
Proof.
  intros Hn Hcur Hb Hmatch Hmax. pose proof (cu_ok _ _ Hcur) as [Hk Hent Hi].
  pose proof (fun a => bucket_tier m ws predicate now p b a Hcur Hb) as Htarget.
  assert (Hring : Selector.ring (map e_auth (List.filter predicate (view_entries m (bucket_view ws b)))))
    by (by eapply ring_map_filter, view_ring, bucket_view_ok).
  apply has_match_filter in Hmatch. revert Htarget Hring. set (target := map e_auth _). intros Htarget Hring.
  assert (Hne : target ≠ []) by (by intros Hnil%map_eq_nil).
  assert (Hpoolmax : ∀ a, a ∈ pool m ws predicate →
    eligible background (m_modelKey m) now a = true → authPriority a ≤ p).
  { intros a (e & <- & Hl & Hw & Hp)%elem_pool Hel; [|done].
    destruct (Hent _ e Hl) as [Ha [Hpr _] _]. rewrite Ha in Hpr. rewrite <- Hpr. apply Hmax; [done| |done|done].
    apply (cu_fresh _ _ Hcur _ e Hl). unfold eligible in Hel. by apply negb_true_iff in Hel. }
  pose proof (candidates_correct background (pool m ws predicate) provider (m_modelKey m) now Hn) as Hc.
  fold (reference m ws predicate provider now) in Hc.
  assert (Ha0 : ∃ a, a ∈ pool m ws predicate ∧ eligible background (m_modelKey m) now a = true ∧ authPriority a = p).
  { destruct target as [|a0 rest]; [done|]. exists a0. assert (Hin : a0 ∈ a0 :: rest) by by left.
    apply Htarget, elem_of_List_filter in Hin as [Hin Ht]. unfold in_tier in Ht. by bprop. }
  destruct Ha0 as (a0 & Ha0 & Hel0 & Hp0). clear Hne.
  destruct (reference m ws predicate provider now) as [l|e].
  2: { exfalso. destruct Hc as [Hall _]. rewrite Forall_forall in Hall. specialize (Hall a0 Ha0).
       unfold eligible in Hel0. by rewrite Hall in Hel0. }
  destruct Hc as [(Hl & p' & Hmax' & Hperm) Hsorted]. f_equal. rewrite Forall_forall in Hmax'.
  assert (p' = p) as ->.
  { assert (p ≤ p') by (rewrite <- Hp0; by apply Hmax').
    destruct l as [|x l']; [done|]. assert (Hx : x ∈ x :: l') by by left.
    rewrite Hperm in Hx. apply elem_of_List_filter in Hx as [Hx Ht]. unfold in_tier in Ht. bprop.
    specialize (Hpoolmax x Hx ltac:(done)). lia. }
  apply (ring_unique _ _ (pool m ws predicate)); [by apply pool_nodup| |done| |done|].
  - intros x Hx. rewrite Hperm in Hx. by apply elem_of_List_filter in Hx as [Hx _].
  - rewrite Hperm. apply (NoDup_map_inv a_ID), NoDup_map_filter. by apply pool_nodup.
  - intros x. by rewrite Hperm, Htarget.
Qed.

(** No matching entry is ready: the selector has no candidate either. *)
Lemma reference_err m ws predicate provider now :
  0 ≤ now → current now m →
  (∀ e, m_entries m !! entry_id e = Some e → e_state e = scheduledStateReady →
     view_pred ws e = true → predicate e = false) →
  ∃ e, reference m ws predicate provider now = Err e.
Proof.
  intros Hn Hcur Hnone. pose proof (cu_ok _ _ Hcur) as [Hk _ _].
  pose proof (candidates_correct background (pool m ws predicate) provider (m_modelKey m) now Hn) as Hc.
  fold (reference m ws predicate provider now) in Hc.
  destruct (reference m ws predicate provider now) as [l|e]; [exfalso|by eexists].
  destruct Hc as [(Hl & p & _ & Hperm) _]. destruct l as [|x l']; [done|].
  assert (Hx : x ∈ x :: l') by by left. rewrite Hperm in Hx.
  apply elem_of_List_filter in Hx as [Hx Ht]. apply elem_pool in Hx as (e & <- & Hel & Hw & Hp); [|done].
  rewrite (in_tier_bucket m) in Ht by done. unfold in_bucket, sched_is in Ht. bprop.
  by rewrite Hnone in Hp.
Qed.

(** The candidates do not depend on the order of the pool. *)
Lemma candidates_perm auths auths' provider model now l :
  0 ≤ now → NoDup (map a_ID auths) → auths ≡ₚ auths' →
  getAvailableAuthsWithPriorityModeForRequest background auths provider model now false = Ok l →
  getAvailableAuthsWithPriorityModeForRequest background auths' provider model now false = Ok l.
Proof.
  intros Hn Hnd Hperm Hl. apply getAvailable_ok in Hl as [(Hne & p & Hmax & Hl) Hs]; [|done].
  pose proof (candidates_correct background auths' provider model now Hn) as Hc.
  rewrite Forall_forall in Hmax.
  assert (Hx : ∃ x, x ∈ auths ∧ eligible background model now x = true ∧ authPriority x = p).
  { destruct l as [|x l']; [done|]. exists x. assert (Hin : x ∈ x :: l') by by left.
    rewrite Hl in Hin. apply elem_of_List_filter in Hin as [Hin Ht]. unfold in_tier in Ht. by bprop. }
  destruct Hx as (x & Hx & Hel & Hp).
  destruct (getAvailableAuthsWithPriorityModeForRequest _ auths' _ _ _ _) as [k|e].
  2: { exfalso. destruct Hc as [Hall _]. rewrite Forall_forall in Hall. rewrite Hperm in Hx.
       specialize (Hall x Hx). unfold eligible in Hel. by rewrite Hall in Hel. }
  destruct Hc as [(Hne' & q & Hmaxq & Hk) Hs']. f_equal. rewrite Forall_forall in Hmaxq.
  assert (q = p) as ->.
  { assert (p ≤ q) by (rewrite <- Hp; apply Hmaxq; [by rewrite <- Hperm|done]).
    destruct k as [|y k']; [done|]. assert (Hy : y ∈ y :: k') by by left.
    rewrite Hk in Hy. apply elem_of_List_filter in Hy as [Hy Ht]. unfold in_tier in Ht. bprop.
    rewrite <- Hperm in Hy. specialize (Hmax y Hy ltac:(done)). lia. }
  apply (StronglySorted_unique_strong (key_le a_ID)); [|done|done|].
  - intros y z Hy Hz H1 H2. rewrite Hk in Hy. rewrite Hl in Hz.
    apply elem_of_List_filter in Hy as [Hy _], Hz as [Hz _]. rewrite <- Hperm in Hy.
    apply (NoDup_map_inj a_ID auths); [done..|]. unfold key_le in *. by apply str_lt_total.
  - rewrite Hk, Hl. symmetry. clear -Hperm. induction Hperm; cbn; repeat case_if; try done.
    + by constructor.
    + by constructor.
    + by etrans.
Qed.

(** A predicate that does not look at the state of an entry. *)
Definition state_blind (predicate : entry_pred) : Prop :=
  ∀ e e', e_meta e' = e_meta e → e_auth e' = e_auth e → predicate e' = predicate e.

Lemma scheduledAuthPredicate_blind eligibility tried pinned positive :
  state_blind (scheduledAuthPredicate eligibility tried pinned positive).
Proof. intros e e' Hm Ha. unfold scheduledAuthPredicate, entry_id. by rewrite Hm, Ha. Qed.

Lemma predicate_positive eligibility tried pinned e :
  scheduledAuthPredicate eligibility tried pinned true e = true → 0 < sm_weight (e_meta e).
Proof.
  unfold scheduledAuthPredicate. destruct (allows eligibility (e_auth e)); [|done]. cbn [negb andb].
  destruct (sm_weight (e_meta e) <=? 0) eqn:E; [done|]. intros _. by bprop.
Qed.

(** A promotion changes the states, not the pool. *)
Lemma pool_promote t m now ws predicate :
  0 ≤ t ≤ now → shard_ok t m → state_blind predicate →
  pool (promoteExpiredLocked m now) ws predicate ≡ₚ pool m ws predicate.
Proof.
  intros Ht Hm Hpred. destruct (promote_ok t m now Ht Hm) as (Hm' & _ & Hall).
  pose proof (sh_keyed _ _ Hm) as Hk. pose proof (sh_keyed _ _ Hm') as Hk'.
  apply NoDup_Permutation; [by apply (NoDup_map_inv a_ID), pool_nodup..|].
  assert (Hsame : ∀ e s, e_meta s = e_meta e → e_auth s = e_auth e → view_pred ws s = view_pred ws e)
    by (intros e s H1 _; unfold view_pred, ws_entry; by rewrite H1).
  intros a. rewrite !elem_pool by done. split; intros (e & <- & Hl & Hw & Hp);
    specialize (Hall (entry_id e)); rewrite Hl in Hall.
  - destruct (m_entries m !! entry_id e) as [s|] eqn:Hl'; [|done]. destruct Hall as (H1 & H2 & _).
    exists s. unfold entry_id in Hl' |- *. rewrite <- H2.
    by rewrite <- (Hsame s e), <- (Hpred s e).
  - destruct (m_entries (promoteExpiredLocked m now) !! entry_id e) as [s|] eqn:Hl'; [|done].
    destruct Hall as (H1 & H2 & _). exists s. unfold entry_id in Hl' |- *. rewrite H2.
    by rewrite (Hsame e s), (Hpred e s).
Qed.

Lemma promote_current t m now :
  0 ≤ t ≤ now → shard_ok t m → current now (promoteExpiredLocked m now).
Proof.
  intros Ht Hm. destruct (promote_ok t m now Ht Hm) as (Hm' & Hkey & Hall). split; [done|].
  intros id e Hl. rewrite Hkey. specialize (Hall id). rewrite Hl in Hall.
  destruct (m_entries m !! id); [|done]. by destruct Hall as (_ & _ & Hf & _).
Qed.

(** The candidates in terms of the shard as it was before the promotion. *)
Lemma reference_promote t m now ws predicate provider l :
  0 ≤ t ≤ now → shard_ok t m → state_blind predicate →
  reference (promoteExpiredLocked m now) ws predicate provider now = Ok l
  ↔ reference m ws predicate provider now = Ok l.
Proof.
  intros Ht Hm Hpred. pose proof (pool_promote t m now ws predicate Ht Hm Hpred) as Hperm.
  destruct (promote_ok t m now Ht Hm) as (Hm' & Hkey & _). unfold reference. rewrite Hkey.
  split; apply candidates_perm; try lia; try done; apply pool_nodup;
    [apply (sh_keyed _ _ Hm')|apply (sh_keyed _ _ Hm)].
Qed.

(** ** A pick of the shard is a pick of the selector *)

Definition set_view (ws : bool) (b : readyBucket) (v : readyView) : readyBucket :=
  if ws then b <| rb_ws := v |> else b <| rb_all := v |>.

(** [pickReadyAtPriorityLocked] on a bucket that matches. *)
Lemma pick_at_priority_spec m now preferWs priority strategy predicate b :
  current now m → m_readyByPriority m !! priority = Some b →
  let ws := preferWs && has_match m predicate (rb_ws b) in
  has_match m predicate (bucket_view ws b) = true →
  let v := bucket_view ws b in
  let l := map e_auth (List.filter predicate (view_entries m v)) in
  pickReadyAtPriorityLocked m preferWs priority strategy predicate
  = (reference_pick strategy v l,
     m <| m_readyByPriority := <[priority := set_view ws b (reference_cursors strategy v l)]>
                                 (m_readyByPriority m) |>).
Proof.
  intros Hcur Hb ws Hmatch v l. pose proof (cu_ok _ _ Hcur) as [Hk Hent Hi].
  pose proof (bucket_view_ok m priority b ws Hi Hb) as Hflat. fold v in Hflat.
  apply has_match_filter in Hmatch. fold v in Hmatch.
  assert (Hw : weighed (view_entries m v)).
  { intros e He. apply (view_entries_spec m v _ Hk Hflat) in He as [Hl _].
    destruct (Hent _ e Hl) as [Ha [_ [Hwt _]] _]. by rewrite Hwt, Ha. }
  destruct (view_pick_spec (view_entries m v) (bucket_view ws b) strategy predicate) as [H1 H2];
    [by eapply view_ring|done|done|].
  unfold pickReadyAtPriorityLocked. rewrite Hb. fold ws. fold (bucket_view ws b). fold v in H1, H2 |- *.
  destruct (view_pick (view_entries m v) v strategy predicate) as [picked v']. cbn [fst snd] in H1, H2.
  rewrite H2, H1. by destruct ws.
Qed.

Lemma reference_pick_some strategy v l :
  l ≠ [] → (strategy = schedulerStrategyWeightedRoundRobin → ∀ a, a ∈ l → 0 < authWeight a) →
  ∃ a, reference_pick strategy v l = Some a ∧ a ∈ l.
Proof.
  intros Hl Hw.
  assert (Hrr : ∃ a, l !! Selector.successorIndex l (rv_lastPicked v) = Some a ∧ a ∈ l).
  { pose proof (Selector.successorIndex_bound l (rv_lastPicked v) Hl) as Hi.
    apply lookup_lt_is_Some in Hi as [a Ha]. exists a. split; [done|]. by eapply list_elem_of_lookup_2. }
  destruct strategy; try exact Hrr; cbn.
  - destruct l as [|a l]; [done|]. exists a. split; [done|by left].
  - unfold Selector.smooth_pick. set (st := Selector.prepare _ _).
    destruct (Selector.pick_smooth_some l (Selector.sw_current st) Hl (Hw eq_refl)) as (p & c & -> & Hp).
    by exists p.
Qed.

(** Whether the websocket entries are chosen from. *)
Definition uses_ws (m : modelScheduler) (preferWs : bool) (predicate : entry_pred) (provider : string)
    (now : time) : bool := preferWs && is_ok (reference m true predicate provider now).

(** What the shard picks from: the best matching bucket. *)
Lemma pick_ready_spec m now preferWs predicate provider :
  0 ≤ now → current now m →
  let ws := uses_ws m preferWs predicate provider now in
  match reference m ws predicate provider now with
  | Err _ => highestReadyPriorityLocked m preferWs predicate = None
  | Ok l =>
      ∃ p b, highestReadyPriorityLocked m preferWs predicate = Some p
        ∧ m_readyByPriority m !! p = Some b ∧ preferWs && has_match m predicate (rb_ws b) = ws
        ∧ has_match m predicate (bucket_view ws b) = true
        ∧ l = map e_auth (List.filter predicate (view_entries m (bucket_view ws b)))
  end.
Proof.
  intros Hn Hcur. cbv zeta. pose proof (cu_ok _ _ Hcur) as [Hk _ Hi]. unfold highestReadyPriorityLocked.
  change rb_all with (bucket_view false).
  change (first_priority m rb_ws predicate) with (first_priority m (bucket_view true) predicate).
  pose proof (first_priority_spec m true predicate Hk Hi) as Hws.
  pose proof (first_priority_spec m false predicate Hk Hi) as Hall.
  assert (Hfalse : (∀ e, m_entries m !! entry_id e = Some e → e_state e = scheduledStateReady →
      view_pred true e = true → predicate e = false) ∨ preferWs = false →
    match reference m false predicate provider now with
    | Err _ => first_priority m (bucket_view false) predicate = None
    | Ok l => ∃ p b, first_priority m (bucket_view false) predicate = Some p
        ∧ m_readyByPriority m !! p = Some b ∧ preferWs && has_match m predicate (rb_ws b) = false
        ∧ has_match m predicate (bucket_view false b) = true
        ∧ l = map e_auth (List.filter predicate (view_entries m (bucket_view false b)))
    end).
  { intros Hno. destruct (first_priority m (bucket_view false) predicate) as [p|] eqn:Ef.
    - destruct Hall as [(b & Hb & Hm) Hmax].
      rewrite (reference_ok m false predicate provider now p b) by done.
      exists p, b. split_and!; try done. destruct preferWs; [|done]. destruct Hno as [Hno|]; [|done].
      apply not_true_is_false. intros (x & Hx)%has_match_filter%not_nil_elem.
      apply elem_of_List_filter in Hx as [Hx Hp].
      apply (view_entries_spec m _ _ Hk (io_ws m Hi p b Hb)) in Hx as [Hl Hbw].
      unfold in_bucket, sched_is in Hbw. bprop. by rewrite Hno in Hp.
    - by destruct (reference_err m false predicate provider now Hn Hcur Hall) as [e ->]. }
  destruct preferWs; cbn [andb uses_ws]; [|by apply Hfalse; right].
  destruct (first_priority m (bucket_view true) predicate) as [p|] eqn:Ef.
  - destruct Hws as [(b & Hb & Hm) Hmax]. unfold uses_ws.
    rewrite (reference_ok m true predicate provider now p b) by done. cbn [is_ok andb].
    rewrite (reference_ok m true predicate provider now p b) by done. by exists p, b.
  - unfold uses_ws. destruct (reference_err m true predicate provider now Hn Hcur Hws) as [e He].
    rewrite He. cbn [is_ok andb]. apply Hfalse. by left.
Qed.

(** A pick moves cursors only. *)
Lemma set_view_ok t m ws b p v :
  shard_ok t m → m_readyByPriority m !! p = Some b → rv_flat v = rv_flat (bucket_view ws b) →
  shard_ok t (m <| m_readyByPriority := <[p := set_view ws b v]> (m_readyByPriority m) |>).
Proof.
  intros [Hk He [H1 H2 H3 H4 H5 H6]] Hb Hflat.
  assert (Hall : rv_flat (rb_all (set_view ws b v)) = rv_flat (rb_all b)) by by destruct ws.
  assert (Hws : rv_flat (rb_ws (set_view ws b v)) = rv_flat (rb_ws b)) by by destruct ws.
  assert (Hdom : ∀ q, is_Some (<[p := set_view ws b v]> (m_readyByPriority m) !! q)
    ↔ is_Some (m_readyByPriority m !! q)).
  { intros q. destruct (decide (p = q)) as [<-|Hne]; [|by rewrite lookup_insert_ne].
    rewrite lookup_insert_eq, Hb. split; by eexists. }
  split; [done|done|]. split; try done.
  - intros q c Hq. cbn in Hq. apply lookup_insert_Some in Hq as [[<- <-]|[_ Hq]].
    + rewrite Hall. destruct (H1 p b Hb). by split.
    + destruct (H1 q c Hq). by split.
  - intros q c Hq. cbn in Hq. apply lookup_insert_Some in Hq as [[<- <-]|[_ Hq]].
    + rewrite Hws. destruct (H2 p b Hb). by split.
    + destruct (H2 q c Hq). by split.
  - intros q. cbn. by rewrite Hdom.
  - intros q. cbn. by rewrite Hdom.
Qed.

Lemma reference_cursors_flat strategy v l : rv_flat (reference_cursors strategy v l) = rv_flat v.
Proof. destruct strategy; cbn; repeat case_match; done. Qed.

Lemma uses_ws_promote t m now preferWs predicate provider :
  0 ≤ t ≤ now → shard_ok t m → state_blind predicate →
  uses_ws (promoteExpiredLocked m now) preferWs predicate provider now
  = uses_ws m preferWs predicate provider now.
Proof.
  intros Ht Hm Hb. unfold uses_ws. f_equal.
  pose proof (fun l => reference_promote t m now true predicate provider l Ht Hm Hb) as Hr.
  destruct (reference (promoteExpiredLocked m now) true predicate provider now) as [l|e].
  - by rewrite (proj1 (Hr l) eq_refl).
  - destruct (reference m true predicate provider now) as [l|e']; [|done].
    by pose proof (proj2 (Hr l) eq_refl).
Qed.

Lemma reference_positive m ws predicate provider now t l a :
  0 ≤ now → shard_ok t m → (∀ e, predicate e = true → 0 < sm_weight (e_meta e)) →
  reference m ws predicate provider now = Ok l → a ∈ l → 0 < authWeight a.
Proof.
  intros Hn [Hk He _] Hpos Hl Ha. apply getAvailable_ok in Hl as [(_ & p & _ & Hl) _]; [|done].
  rewrite Hl in Ha. apply elem_of_List_filter in Ha as [Ha _].
  apply elem_pool in Ha as (e & <- & Hle & _ & Hp); [|done].
  destruct (He _ e Hle) as [Hau [_ [Hw _]] _]. rewrite <- Hau, <- Hw. by apply Hpos.
Qed.

Lemma reference_nonempty m ws predicate provider now l :
  0 ≤ now → reference m ws predicate provider now = Ok l → l ≠ [].
Proof. intros Hn Hl. apply getAvailable_ok in Hl as [[Hne _] _]; done. Qed.

(** C5 The scheduler is the selector.  However old the cached states and
    indexes of a shard are, a pick from it at [now] is the pick the selector of
    the same strategy makes from scratch: among the credentials that the request
    may use and that the block test finds usable at that very moment, those of
    the highest priority in the order of their identifiers (with a preference
    for websockets, those with websockets if one is usable) are the candidates;
    fill-first takes the first, round robin the one after the last pick, weighted
    round robin the smooth weighted one, and the cursors advance as the selector's
    do, and no other cursor moves; when there is no candidate nothing is picked.
    The shard is as good for the next pick. *)
Theorem pick_matches_selector t m now preferWs strategy eligibility tried pinned provider :
  0 ≤ t ≤ now → shard_ok t m →
  let predicate := scheduledAuthPredicate eligibility tried pinned
                     (strategy_is strategy schedulerStrategyWeightedRoundRobin) in
  let ws := uses_ws m preferWs predicate provider now in
  let m' := promoteExpiredLocked m now in
  let r := pickReadyLocked m preferWs strategy predicate now in
  shard_ok now r.2
  ∧ match reference m ws predicate provider now with
    | Err _ => r = (None, m')
    | Ok l =>
        ∃ a p b, m_readyByPriority m' !! p = Some b ∧ a ∈ l
          ∧ reference_pick strategy (bucket_view ws b) l = Some a
          ∧ r = (Some a,
                 m' <| m_readyByPriority :=
                         <[p := set_view ws b (reference_cursors strategy (bucket_view ws b) l)]>
                           (m_readyByPriority m') |>)
    end.
Proof.
  intros Ht Hm predicate ws m' r.
  assert (Hblind : state_blind predicate) by apply scheduledAuthPredicate_blind.
  pose proof (promote_current t m now Ht Hm) as Hcur. fold m' in Hcur.
  pose proof (pick_ready_spec m' now preferWs predicate provider ltac:(lia) Hcur) as Hp.
  cbv zeta in Hp. pose proof (uses_ws_promote t m now preferWs predicate provider Ht Hm Hblind) as Huw.
  fold ws m' in Huw. rewrite Huw in Hp. pose proof (fun l => reference_promote t m now ws predicate provider l Ht Hm Hblind) as Hr.
  fold m' in Hr. unfold r, pickReadyLocked. fold m'.
  destruct (reference m' ws predicate provider now) as [l|e] eqn:El.
  - pose proof (proj1 (Hr l) eq_refl) as Hl. rewrite Hl.
    destruct Hp as (p & b & Hhigh & Hb & Hws & Hmatch & Heq). rewrite Hhigh.
    pose proof (pick_at_priority_spec m' now preferWs p strategy predicate b Hcur Hb) as Hpick.
    cbv zeta in Hpick. rewrite Hws in Hpick. specialize (Hpick Hmatch). rewrite <- Heq in Hpick. rewrite Hpick.
    destruct (reference_pick_some strategy (bucket_view ws b) l) as (a & Ha & Hin).
    { apply (reference_nonempty m' ws predicate provider now); [lia|done]. }
    { intros -> a Ha. apply (reference_positive m ws predicate provider now t l); try done; [lia|].
      apply (predicate_positive eligibility tried pinned). }
    rewrite Ha. cbn [snd]. split; [|by exists a, p, b].
    apply set_view_ok; [apply Hcur|done|apply reference_cursors_flat].
  - destruct (reference m ws predicate provider now) as [l|e']; [by pose proof (proj2 (Hr l) eq_refl)|].
    rewrite Hp. split; [apply Hcur|done].
Qed.

(** ** The error when nothing is picked *)

Lemma summary_spec predicate es acc :
  let '(total, cooldowns, unauthorized, earliest) := foldl (summary_step predicate) acc es in
  let '(total0, cooldowns0, unauthorized0, earliest0) := acc in
  total = total0 + Z.of_nat (length (List.filter predicate es))
  ∧ cooldowns = cooldowns0 + Z.of_nat (length (List.filter
                  (fun e => sched_is (e_state e) scheduledStateCooldown) (List.filter predicate es)))
  ∧ unauthorized = unauthorized0 + Z.of_nat (length (List.filter
                  (fun e => hasUnauthorizedAuthFailure (e_auth e)) (List.filter predicate es)))
  ∧ (earliest0 ≠ 0 → earliest ≠ 0 ∧ earliest ≤ earliest0)
  ∧ ∀ e, e ∈ es → predicate e = true → is_blocked_state e = true → e_nextRetryAt e ≠ 0 →
      earliest ≠ 0 ∧ earliest ≤ e_nextRetryAt e.
Proof.
  revert acc. induction es as [|x es IH]; intros [[[t0 c0] u0] e0].
  { simpl. split_and!; [lia..|done|]. by intros e ?%elem_of_nil. }
  cbn [foldl]. specialize (IH (summary_step predicate (t0, c0, u0, e0) x)).
  destruct (foldl (summary_step predicate) (summary_step predicate (t0, c0, u0, e0) x) es) as [[[t c] u] e].
  cbn [List.filter]. unfold summary_step in IH. destruct (predicate x) eqn:Ep; cbn [negb] in IH.
  - destruct IH as (-> & -> & -> & He & Hall). cbn [List.filter length].
    set (e1 := if is_blocked_state x && _ && _ then _ else e0) in *.
    assert (H1 : (e0 ≠ 0 → e1 ≠ 0 ∧ e1 ≤ e0)
      ∧ (is_blocked_state x = true → e_nextRetryAt x ≠ 0 → e1 ≠ 0 ∧ e1 ≤ e_nextRetryAt x)).
    { unfold e1. destruct (is_blocked_state x); cbn [andb]; [|split; [done|done]].
      destruct (is_zero (e_nextRetryAt x)) eqn:Ez; cbn [negb andb]; bprop; [by split|].
      destruct (is_zero e0) eqn:E0, (before (e_nextRetryAt x) e0) eqn:Eb; cbn [orb]; bprop; split; intros; lia. }
    split_and!; [lia|case_if; cbn [length]; lia|case_if; cbn [length]; lia| |].
    + intros H0. destruct (proj1 H1 H0) as [Ha Hb]. destruct (He Ha). lia.
    + intros y [->|Hy]%elem_of_cons Hp Hb Hn; [|by apply Hall].
      destruct (proj2 H1 Hb Hn) as [Ha Hc]. destruct (He Ha). lia.
  - destruct IH as (-> & -> & -> & He & Hall). split_and!; [done..|].
    intros y [->|Hy]%elem_of_cons Hp Hb Hn; [congruence|by apply Hall].
Qed.

Lemma filter_length_all {A} (f : A → bool) l x :
  length (List.filter f l) = length l → x ∈ l → f x = true.
Proof.
  induction l as [|y l IH]; [by intros _ ?%elem_of_nil|]. simpl. pose proof (List.filter_length_le f l).
  destruct (f y) eqn:E; simpl; intros Hlen; [|lia].
  intros [->|Hx]%elem_of_cons; [done|]. apply IH; [lia|done].
Qed.

(** The wait a pick error proposes. *)
Definition pick_hint (e : pick_error) : option duration :=
  match e with SelectError e _ => retry_hint e | TerminalAuthError _ _ => None end.

Lemma pool_length m predicate :
  length (pool m false predicate) = length (List.filter predicate (entries_list m)).
Proof. unfold pool. by rewrite length_map. Qed.

Lemma blocked_until_next now m e t :
  current now m → m_entries m !! entry_id e = Some e → e_state e ≠ scheduledStateReady → now ≤ t →
  (is_blocked_state e = true → e_nextRetryAt e ≠ 0 → t < e_nextRetryAt e) →
  blocked_for background (m_modelKey m) t (e_auth e) = true.
Proof.
  intros Hcur Hl Hs Ht Hn. destruct (sh_entries _ _ (cu_ok _ _ Hcur) _ e Hl) as [_ _ (te & Hte & He)].
  assert (Hst : e_state e = (classify (isAuthBlockedForModel (e_auth e) (m_modelKey m) te)).1) by by rewrite <- He.
  assert (Hne : e_nextRetryAt e = (classify (isAuthBlockedForModel (e_auth e) (m_modelKey m) te)).2) by by rewrite <- He.
  destruct (isAuthBlockedForModel (e_auth e) (m_modelKey m) te) as [[[] reason] next] eqn:Eb; [|done].
  pose proof Eb as Eb'. apply (isAuthBlocked_stays background _ _ te t reason next) in Eb as [_ Hstay]; [|lia].
  apply Hstay. destruct (decide (next = 0)) as [|Hz]; [by left|right].
  assert (Hr : reason ≠ blockReasonDisabled).
  { intros ->. apply reason_disabled_next in Eb'. done. }
  rewrite Hne in Hn. unfold is_blocked_state, sched_is in Hn. rewrite Hst in Hn.
  destruct reason; try done; by apply Hn.
Qed.

Lemma summary_error_cases total cooldowns unauthorized earliest now model provider c1 c2 :
  0 ≤ now →
  let err := summary_error (total, cooldowns, unauthorized, earliest) now model provider c1 c2 in
  ((∃ c, err = SelectError (PlainError (plain_error "auth_not_found" "no auth available")) c) ↔ total = 0)
  ∧ (∀ x c, err = TerminalAuthError x c → unauthorized = total)
  ∧ ∀ d, pick_hint err = Some d → 0 < d → earliest ≠ 0 ∧ now + d ≤ earliest.
Proof.
  intros Hn. unfold summary_error. set (c0 := match c1 with Some _ => c1 | None => c2 end).
  destruct (total =? 0) eqn:E1; bprop.
  { split_and!; [split; [done|by eexists]|done|]. by intros d. }
  assert (Hsub : ∀ d, 0 < d → d ≤ time_sub earliest now → now + d ≤ earliest)
    by (unfold time_sub, min_int64, max_int64; lia).
  destruct ((cooldowns =? total) && negb (is_zero earliest)) eqn:E2; bprop.
  { split_and!; [split; [by intros [c [=]]|done]|done|]. intros d Hd Hpos.
    unfold newModelCooldownError in Hd. cbn in Hd. injection Hd as Hd. split; [done|]. apply Hsub; [done|].
    rewrite <- Hd. repeat case_if; bprop; lia. }
  destruct (unauthorized =? total) eqn:E3; bprop.
  { split_and!; [split; [by intros [c [=]]|done]|done|done]. }
  unfold newAuthUnavailableError. destruct (after earliest now) eqn:E4; bprop.
  - split_and!; [split; [by intros [c [=]]|done]|done|]. intros d [= <-] Hpos. split; [lia|by apply Hsub].
  - split_and!; [split; [by intros [c [=]]|done]|done|done].
Qed.

(** The matching entries of a promoted shard whose reference has no candidate. *)
Lemma pool_not_ready t m now predicate provider err a :
  0 ≤ t ≤ now → shard_ok t m → state_blind predicate →
  reference m false predicate provider now = Err err → a ∈ pool m false predicate →
  let m' := promoteExpiredLocked m now in
  ∃ x, e_auth x = a ∧ m_entries m' !! entry_id x = Some x ∧ x ∈ entries_list m' ∧ predicate x = true
    ∧ e_state x ≠ scheduledStateReady.
Proof.
  intros Ht Hm Hblind Href Ha m'. pose proof (promote_current t m now Ht Hm) as Hcur. fold m' in Hcur.
  destruct (promote_ok t m now Ht Hm) as (_ & Hkey & _). fold m' in Hkey.
  pose proof (pool_promote t m now false predicate Ht Hm Hblind) as Hperm. fold m' in Hperm.
  pose proof (cu_ok _ _ Hcur) as [Hk _ _]. apply getAvailable_err in Href as [Hall _]; [|lia].
  rewrite Forall_forall in Hall. specialize (Hall a Ha). rewrite <- Hperm in Ha.
  apply elem_pool in Ha as (x & <- & Hl & _ & Hp); [|done]. exists x.
  split_and!; [done|done|by apply elem_entries_list|done|].
  intros Hs. apply (cu_fresh _ _ Hcur _ x Hl) in Hs. rewrite Hkey in Hs. congruence.
Qed.

(** The error of a failed pick tells the truth.  When the selector would have
    no candidate, so that the shard picks nothing, the error says that there is no
    credential exactly when no credential matches the request; it is final (an
    authentication failure, no retry) only when every matching credential has been
    refused as unauthorized; and a retry time or cooldown it reports is not too
    early: whoever waits less finds every matching credential still blocked. *)
Theorem unavailable_error_sound t m now now' provider model predicate e :
  0 ≤ t ≤ now → now ≤ now' → shard_ok t m → state_blind predicate →
  reference m false predicate provider now = Err e →
  let err := unavailableErrorLocked (promoteExpiredLocked m now) provider model predicate now' in
  ((∃ c, err = SelectError (PlainError (plain_error "auth_not_found" "no auth available")) c)
     ↔ pool m false predicate = [])
  ∧ (∀ x c, err = TerminalAuthError x c →
       ∀ a, a ∈ pool m false predicate → hasUnauthorizedAuthFailure a = true)
  ∧ ∀ d, pick_hint err = Some d → ∀ u a, now' ≤ u < now' + d → a ∈ pool m false predicate →
      blocked_for background (m_modelKey m) u a = true.
Proof.
  intros Ht Hn Hm Hblind Href err.
  pose proof (pool_not_ready t m now predicate provider e) as Hready.
  pose proof (pool_promote t m now false predicate Ht Hm Hblind) as Hperm.
  pose proof (promote_current t m now Ht Hm) as Hcur.
  destruct (promote_ok t m now Ht Hm) as (_ & Hkey & _).
  set (m' := promoteExpiredLocked m now) in *.
  assert (Hlen : length (List.filter predicate (entries_list m')) = length (pool m false predicate))
    by (rewrite <- Hperm; symmetry; apply pool_length).
  assert (Herr : ∃ c1 c2, err = summary_error (availabilitySummaryLocked m' predicate) now' model
    (if String.eqb provider "mixed" then "" else provider) c1 c2).
  { unfold err, unavailableErrorLocked. destruct (candidateErrorsLocked m' model predicate). by do 2 eexists. }
  destruct Herr as (c1 & c2 & Herr). clearbody err. unfold availabilitySummaryLocked in Herr.
  pose proof (summary_spec predicate (entries_list m') (0, 0, 0, 0)) as Hs.
  destruct (foldl (summary_step predicate) (0, 0, 0, 0) (entries_list m')) as [[[total cool] unauth] earliest].
  destruct Hs as (-> & -> & -> & _ & Hearliest). rewrite !Z.add_0_l in Herr.
  match type of Herr with _ = summary_error (?a, ?b, ?c, ?d) _ _ ?p _ _ =>
    destruct (summary_error_cases a b c d now' model p c1 c2 ltac:(lia)) as (H1 & H2 & H3) end.
  rewrite <- Herr in H1, H2, H3. rewrite Hlen in H1. split_and!.
  - rewrite H1. rewrite <- length_zero_iff_nil. lia.
  - intros x c Hx a Ha. apply H2 in Hx. destruct (Hready a Ht Hm Hblind Href Ha) as (y & <- & _ & Hin & Hp & _).
    apply (filter_length_all (fun e => hasUnauthorizedAuthFailure (e_auth e))
             (List.filter predicate (entries_list m'))); [lia|]. by apply elem_of_List_filter.
  - intros d Hd u a Hu Ha. destruct (Hready a Ht Hm Hblind Href Ha) as (y & <- & Hl & Hin & Hp & Hst).
    rewrite <- Hkey. apply (blocked_until_next now); [done|done|done|lia|].
    intros Hb Hne. destruct (H3 d Hd ltac:(lia)). destruct (Hearliest y Hin Hp Hb Hne). lia.
Qed.

End Invariant.

(** ** Witnesses *)

#[local] Existing Instance no_parse.

Definition sample_meta (a : Auth) : scheduledAuthMeta :=
  {| sm_auth := a; sm_providerKey := "p"; sm_priority := authPriority a; sm_weight := authWeight a;
     sm_websocketEnabled := authWebsocketsEnabled a; sm_supportedModelSet := None; sm_registryEpoch := 0 |}.
(** The better credential is blocked until 50. *)
Definition sample_shard : modelScheduler :=
  upsertEntryLocked (upsertEntryLocked (new_shard "") (sample_meta (sample "a" "1" 50)) 4)
    (sample_meta (sample "b" "0" 0)) 5.
Definition any_request : authSelectionEligibility :=
  {| requiredKind := ""; credentialPolicy := ""; disallowFreeAuth := false |}.

Lemma sample_shard_ok : shard_ok 5 sample_shard.
Proof.
  apply (upsert_ok 4); [lia| |done]. apply (upsert_ok 4); [lia| |done]. apply new_shard_ok.
Qed.

Lemma pick_matches_selector_witness :
  let predicate := scheduledAuthPredicate any_request ∅ "" false in
  let pick now := pickReadyLocked sample_shard false schedulerStrategyRoundRobin predicate now in
  (pick 20).1 = Some (sample "b" "0" 0) ∧ (pick 50).1 = Some (sample "a" "1" 50)
  ∧ shard_ok 50 (pick 50).2.
Proof.
  intros predicate pick. split_and!; [vm_compute; reflexivity..|].
  pose proof (pick_matches_selector 5 sample_shard 50 false schedulerStrategyRoundRobin any_request ∅ "" "p"
    ltac:(lia) sample_shard_ok) as H.
  apply H.
Defined.

Lemma unavailable_error_sound_witness :
  let predicate := scheduledAuthPredicate any_request {[ "b" ]} "" false in
  let err := unavailableErrorLocked (promoteExpiredLocked sample_shard 20) "p" "m" predicate 30 in
  pick_hint err = Some 20
  ∧ ∀ a, a ∈ pool sample_shard false predicate → blocked_for background "" 49 a = true.
Proof.
  intros predicate err.
  assert (Herr : pick_hint err = Some 20) by (vm_compute; reflexivity). split; [exact Herr|].
  assert (Hr : ∃ e, reference sample_shard false predicate "p" 20 = Err e) by (vm_compute; by eexists).
  destruct Hr as [e Hr]. intros a Ha.
  pose proof (unavailable_error_sound 5 sample_shard 20 30 "p" "m" predicate e ltac:(lia) ltac:(lia)
    sample_shard_ok (scheduledAuthPredicate_blind any_request {[ "b" ]} "" false) Hr) as (_ & _ & H).
  apply (H 20 Herr 49 a); [lia|exact Ha].
Defined.

End SchedShardProps.
