(* ===== verification/Scheduler.v ===== *)
(** * The scheduler: sdk/cliproxy/auth/scheduler.go, [authScheduler]

    Above the shards: a table of providers, each with the credentials it may
    schedule and one shard per model asked for so far, the version of each
    credential that was processed last, and the cursors of requests that mix
    providers.  A pointer to a provider or shard is followed through the tables.
    The mutex makes each operation atomic; every [time.Now()] is an argument. *)
From S2P Require Import Prelude GoLib Weight Thinking AuthTypes Expiry Availability Selector SchedShard.
Import AuthTypes Expiry Availability SchedShard.

(** What the scheduler asks the model registry: the identifiers of the models
    of a client and the epoch of its registration. *)
Class ClientCatalog (R : Type) := {
  GetModelsForClient : R → string → list string;
  ClientRegistrationEpoch : R → string → Z;
}.

Module Scheduler.

(** ** Provider keys *)

Definition OpenAICompatibleProviderKey (name : string) : string :=
  let name := to_lower (trim_space name) in
  if String.eqb name "" || String.eqb name "openai-compatibility" || has_prefix name "openai-compatible-"
  then if String.eqb name "" then "openai-compatibility" else name
  else "openai-compatible-" +:+ name.

Definition kimi_alias (lower : string) : string :=
  if String.eqb lower "kimi.com" then "kimi" else if String.eqb lower "kimi.ai" then "kimi-ai" else lower.
Definition canonicalSchedulingProvider (key : string) : string := kimi_alias (to_lower (trim_space key)).

Definition executorKeyFromAuth (auth : Auth) : string :=
  let providerKey := trim_space (default "" (a_Attributes auth !! "provider_key")) in
  let compatName := trim_space (default "" (a_Attributes auth !! "compat_name")) in
  if negb (String.eqb compatName "") then
    OpenAICompatibleProviderKey (if String.eqb providerKey "" then compatName else providerKey)
  else if equal_fold (trim_space (a_Provider auth)) "openai-compatibility" then
    let providerKey := trim_space (a_Label auth) in
    OpenAICompatibleProviderKey (if String.eqb providerKey "" then "openai-compatibility" else providerKey)
  else kimi_alias (to_lower (trim_space (a_Provider auth))).

Definition is_disabled (auth : Auth) : bool := a_Disabled auth || String.eqb (a_Status auth) StatusDisabled.

Definition isSchedulableAuth (auth : Auth) : option (string * string) :=
  if is_disabled auth then None
  else
    let authID := trim_space (a_ID auth) in
    if String.eqb authID "" then None
    else
      let providerKey := executorKeyFromAuth auth in
      if String.eqb providerKey "" then None else Some (authID, providerKey).

Definition providerPrefersWebsocketTransport (providerKey : string) : bool :=
  let key := to_lower (trim_space providerKey) in String.eqb key "codex" || String.eqb key "xai".

Definition normalize_provider (acc : gset string * list string) (provider : string) :
    gset string * list string :=
  let '(seen, out) := acc in
  let providerKey := canonicalSchedulingProvider provider in
  if String.eqb providerKey "" then acc
  else if bool_decide (providerKey ∈ seen) then acc
  else ({[ providerKey ]} ∪ seen, out ++ [providerKey]).
Definition normalizeProviderKeys (providers : list string) : list string :=
  (foldl normalize_provider (∅, []) providers).2.
Definition containsProvider (providers : list string) (provider : string) : bool :=
  existsb (String.eqb provider) providers.

(** ** State *)

Record scheduledGenerationMeta : Type := { g_epoch : Z; g_generation : Z; g_updatedAt : time }.

Record providerScheduler : Type := {
  p_providerKey : string;
  p_auths : gmap string scheduledAuthMeta;
  p_modelShards : gmap string modelScheduler;
}.
#[global] Instance providerScheduler_eta : Eta providerScheduler := fun p =>
  {| p_providerKey := p_providerKey p; p_auths := p_auths p; p_modelShards := p_modelShards p |}.

Record authScheduler : Type := {
  s_strategy : schedulerStrategy;
  s_providers : gmap string providerScheduler;
  s_authProviders : gmap string string;
  s_authGenerations : gmap string scheduledGenerationMeta;
  s_mixedCursors : gmap string Z;
  s_mixedWeightedStates : gmap string Selector.smoothWeightedState;
}.
#[global] Instance authScheduler_eta : Eta authScheduler := fun s =>
  {| s_strategy := s_strategy s; s_providers := s_providers s; s_authProviders := s_authProviders s;
     s_authGenerations := s_authGenerations s; s_mixedCursors := s_mixedCursors s;
     s_mixedWeightedStates := s_mixedWeightedStates s |}.

(** The dynamic type of a selector. *)
Inductive selector_kind : Type :=
| FillFirstSelector | WeightedRoundRobinSelector | RoundRobinSelector | NoSelector | OtherSelector.
Definition selectorStrategy (selector : selector_kind) : schedulerStrategy :=
  match selector with
  | FillFirstSelector => schedulerStrategyFillFirst
  | WeightedRoundRobinSelector => schedulerStrategyWeightedRoundRobin
  | NoSelector | RoundRobinSelector => schedulerStrategyRoundRobin
  | OtherSelector => schedulerStrategyCustom
  end.

Definition newAuthScheduler (selector : selector_kind) : authScheduler :=
  {| s_strategy := selectorStrategy selector; s_providers := ∅; s_authProviders := ∅;
     s_authGenerations := ∅; s_mixedCursors := ∅; s_mixedWeightedStates := ∅ |}.
Definition setSelector (s : authScheduler) (selector : selector_kind) : authScheduler :=
  s <| s_strategy := selectorStrategy selector |> <| s_mixedCursors := ∅ |>
    <| s_mixedWeightedStates := ∅ |>.

(** ** Versions of a credential *)

Definition version_of (auth : Auth) : scheduledGenerationMeta :=
  {| g_epoch := a_RegistrationEpoch auth; g_generation := a_Generation auth;
     g_updatedAt := a_UpdatedAt auth |}.

Definition isStaleScheduledAuth (s : authScheduler) (authID : string) (incoming : scheduledGenerationMeta) :
    bool :=
  match s_authGenerations s !! authID with
  | Some existing =>
      if g_epoch incoming <? g_epoch existing then true
      else if g_epoch existing =? g_epoch incoming then
        if g_generation incoming <? g_generation existing then true
        else (g_generation existing =? g_generation incoming)
             && after (g_updatedAt existing) (g_updatedAt incoming)
      else false
  | None => false
  end.
Definition set_generation (s : authScheduler) (authID : string) (g : scheduledGenerationMeta) :
    authScheduler := s <| s_authGenerations := <[authID := g]> (s_authGenerations s) |>.
Definition resetAuthGenerationLocked (s : authScheduler) (authID : string) : authScheduler :=
  s <| s_authGenerations := delete authID (s_authGenerations s) |>.
Definition ResetAuthGeneration (s : authScheduler) (authID : string) : authScheduler :=
  let authID := trim_space authID in
  if String.eqb authID "" then s else resetAuthGenerationLocked s authID.

(** ** One provider *)

Definition supportsModel (meta : scheduledAuthMeta) (modelKey : string) : bool :=
  let modelKey := canonicalModelKey modelKey in
  if String.eqb modelKey "" then true
  else
    let supported := default ∅ (sm_supportedModelSet meta) in
    if bool_decide (supported = ∅) then false else bool_decide (modelKey ∈ supported).

Definition new_provider (providerKey : string) : providerScheduler :=
  {| p_providerKey := providerKey; p_auths := ∅; p_modelShards := ∅ |}.
Definition set_provider (s : authScheduler) (providerKey : string) (p : providerScheduler) : authScheduler :=
  s <| s_providers := <[providerKey := p]> (s_providers s) |>.
Definition ensureProviderLocked (s : authScheduler) (providerKey : string) :
    providerScheduler * authScheduler :=
  match s_providers s !! providerKey with
  | Some p => (p, s)
  | None => (new_provider providerKey, set_provider s providerKey (new_provider providerKey))
  end.

(** [removeAuthLocked] of a provider. *)
Definition provider_remove (p : providerScheduler) (authID : string) : providerScheduler :=
  if String.eqb authID "" then p
  else p <| p_auths := delete authID (p_auths p) |>
         <| p_modelShards := (fun shard => removeEntryLocked shard authID) <$> p_modelShards p |>.

Definition remove_at (s : authScheduler) (providerKey authID : string) : authScheduler :=
  match s_providers s !! providerKey with
  | Some p => set_provider s providerKey (provider_remove p authID)
  | None => s
  end.

Definition removeAuthFromProvidersLocked (s : authScheduler) (authID : string) : authScheduler :=
  let providerKey := default "" (s_authProviders s !! authID) in
  if String.eqb providerKey "" then s
  else (remove_at s providerKey authID) <| s_authProviders := delete authID (s_authProviders s) |>.

(** The credential moves to [providerKey]: it leaves the provider it was with. *)
Definition leave_previous (s : authScheduler) (authID providerKey : string) : authScheduler :=
  let previousProvider := default "" (s_authProviders s !! authID) in
  if negb (String.eqb previousProvider "") && negb (String.eqb previousProvider providerKey)
  then remove_at s previousProvider authID else s.

Definition recordRemovalTombstoneLocked (s : authScheduler) (authID : string) (tombstoneEpoch : Z)
    (now : time) : authScheduler :=
  if String.eqb authID "" then s
  else
    let refused := match s_authGenerations s !! authID with
                   | Some existing => tombstoneEpoch <? g_epoch existing
                   | None => false
                   end in
    if refused then s
    else removeAuthFromProvidersLocked
           (set_generation s authID {| g_epoch := tombstoneEpoch; g_generation := 0; g_updatedAt := now |})
           authID.
Definition RecordRemovalTombstone (s : authScheduler) (authID : string) (tombstoneEpoch : Z) (now : time) :
    authScheduler :=
  let authID := trim_space authID in
  if String.eqb authID "" then s else recordRemovalTombstoneLocked s authID tombstoneEpoch now.

(** [removeAuthLocked] of the scheduler. *)
Definition removeAuthLocked (s : authScheduler) (authID : string) (now : time) : authScheduler :=
  if String.eqb authID "" then s
  else
    let epoch := match s_authGenerations s !! authID with
                 | Some existing => wrapu64 (g_epoch existing + 1)
                 | None => 1
                 end in
    removeAuthFromProvidersLocked
      (set_generation s authID {| g_epoch := epoch; g_generation := 0; g_updatedAt := now |}) authID.
Definition removeAuth (s : authScheduler) (authID : string) (now : time) : authScheduler :=
  let authID := trim_space authID in
  if String.eqb authID "" then s else removeAuthLocked s authID now.

Section Operations.
Context `{GP : GoParse} {R : Type} `{Catalog : ClientCatalog R}.

Definition supportedModelSetForAuth (reg : R) (authID : string) : option (gset string) :=
  let authID := trim_space authID in
  if String.eqb authID "" then None
  else match GetModelsForClient reg authID with
       | [] => None
       | models => Some (list_to_set (List.filter (fun key => negb (String.eqb key ""))
                                        (map canonicalModelKey models)))
       end.

Definition buildScheduledAuthMetaWithModelSet (auth : Auth) (modelSet : option (gset string)) (regEpoch : Z) :
    scheduledAuthMeta :=
  {| sm_auth := auth; sm_providerKey := executorKeyFromAuth auth; sm_priority := authPriority auth;
     sm_weight := authWeight auth; sm_websocketEnabled := authWebsocketsEnabled auth;
     sm_supportedModelSet := modelSet; sm_registryEpoch := regEpoch |}.

(** One shard brought up to date with a credential. *)
Definition sync_shard (meta : scheduledAuthMeta) (now : time) (modelKey : string) (shard : modelScheduler) :
    modelScheduler :=
  if supportsModel meta modelKey then upsertEntryLocked shard meta now
  else removeEntryLocked shard (a_ID (sm_auth meta)).
Definition sync_at (meta : scheduledAuthMeta) (now : time) (modelKey : string)
    (shards : gmap string modelScheduler) : gmap string modelScheduler :=
  match shards !! modelKey with
  | Some shard => <[modelKey := sync_shard meta now modelKey shard]> shards
  | None => shards
  end.
Definition target_step (meta : scheduledAuthMeta) (now : time)
    (acc : gset string * gmap string modelScheduler) (m : string) : gset string * gmap string modelScheduler :=
  let '(seen, shards) := acc in
  let modelKey := canonicalModelKey m in
  if bool_decide (modelKey ∈ seen) then acc
  else ({[ modelKey ]} ∪ seen, sync_at meta now modelKey shards).
Definition updateTargetShardsLocked (p : providerScheduler) (meta : scheduledAuthMeta)
    (targetModels : list string) (now : time) : providerScheduler :=
  p <| p_modelShards :=
         (foldl (target_step meta now) (∅, sync_at meta now "" (p_modelShards p)) targetModels).2 |>.
Definition upsertAuthForModelsLocked (p : providerScheduler) (meta : scheduledAuthMeta)
    (targetModels : list string) (credentialScoped : bool) (now : time) : providerScheduler :=
  let p := p <| p_auths := <[a_ID (sm_auth meta) := meta]> (p_auths p) |> in
  if credentialScoped || match targetModels with [] => true | _ => false end then
    p <| p_modelShards := map_imap (fun modelKey shard => Some (sync_shard meta now modelKey shard))
                            (p_modelShards p) |>
  else updateTargetShardsLocked p meta targetModels now.

Definition build_step (modelKey : string) (now : time) (shard : modelScheduler) (meta : scheduledAuthMeta) :
    modelScheduler :=
  if supportsModel meta modelKey then upsertEntryLocked shard meta now else shard.
Definition ensureModelLocked (p : providerScheduler) (modelKey : string) (now : time) :
    modelScheduler * providerScheduler :=
  let modelKey := canonicalModelKey modelKey in
  let shard := match p_modelShards p !! modelKey with
               | Some shard => promoteExpiredLocked shard now
               | None => foldl (build_step modelKey now) (new_shard modelKey)
                           (map snd (map_to_list (p_auths p)))
               end in
  (shard, p <| p_modelShards := <[modelKey := shard]> (p_modelShards p) |>).

(** ** Updates *)

(** The credential enters the provider [providerKey] with all its models. *)
Definition schedule_at (s : authScheduler) (reg : R) (authID providerKey : string) (auth : Auth) (now : time) :
    authScheduler :=
  let s := leave_previous s authID providerKey in
  let '(p, s) := ensureProviderLocked s providerKey in
  let meta := buildScheduledAuthMetaWithModelSet auth (supportedModelSetForAuth reg (a_ID auth))
                (ClientRegistrationEpoch reg authID) in
  set_provider (s <| s_authProviders := <[authID := providerKey]> (s_authProviders s) |>) providerKey
    (upsertAuthForModelsLocked p meta [] true now).

Definition upsertAuthLifecycleLocked (s : authScheduler) (reg : R) (auth : Auth) (now : time) : authScheduler :=
  let authID := trim_space (a_ID auth) in
  if String.eqb authID "" then s
  else if isStaleScheduledAuth s authID (version_of auth) then s
  else
    let s := set_generation s authID (version_of auth) in
    let providerKey := executorKeyFromAuth auth in
    if String.eqb providerKey "" || is_disabled auth then removeAuthFromProvidersLocked s authID
    else schedule_at s reg authID providerKey auth now.
Definition upsertAuth := upsertAuthLifecycleLocked.

Definition isCredentialBlocked (auth : Auth) (supportedModelCount : nat) (now : time) : bool :=
  if is_disabled auth then true
  else if hasUnauthorizedAuthFailure auth then true
  else if match AccessTokenExpirationTime auth with
          | Some exp => negb (is_zero exp) && negb (after exp now)
          | None => false
          end then true
  else if credential_quota_active auth now then true
  else if negb (has_states auth) then
    a_Unavailable auth || Exceeded (a_Quota auth)
    || (negb (is_zero (a_NextRetryAfter auth)) && after (a_NextRetryAfter auth) now)
  else if (0 <? supportedModelCount)%nat && (size (a_ModelStates auth) <? supportedModelCount)%nat then false
  else a_Unavailable auth.

Definition upsertAuthResultLocked (s : authScheduler) (reg : R) (auth : Auth) (targetModels : list string)
    (credentialScoped : bool) (now : time) : authScheduler :=
  let authID := trim_space (a_ID auth) in
  if String.eqb authID "" then s
  else
    let providerKey := executorKeyFromAuth auth in
    if isStaleScheduledAuth s authID (version_of auth) then
      if String.eqb providerKey "" then s
      else match s_providers s !! providerKey with
           | None => s
           | Some p =>
               match p_auths p !! authID with
               | None => s
               | Some latestMeta =>
                   set_provider s providerKey
                     (upsertAuthForModelsLocked p latestMeta targetModels credentialScoped now)
               end
           end
    else
      let s := set_generation s authID (version_of auth) in
      if String.eqb providerKey "" || is_disabled auth then removeAuthFromProvidersLocked s authID
      else
        let s := leave_previous s authID providerKey in
        let '(p, s) := ensureProviderLocked s providerKey in
        let currentRegEpoch := ClientRegistrationEpoch reg authID in
        let existingMeta := p_auths p !! authID in
        let cached := match existingMeta with
                      | Some meta => if sm_registryEpoch meta =? currentRegEpoch
                                     then sm_supportedModelSet meta else None
                      | None => None
                      end in
        let modelSetChanged := match cached with None => true | Some _ => false end in
        let modelSet := match cached with
                        | Some set => Some set
                        | None => supportedModelSetForAuth reg (a_ID auth)
                        end in
        let meta := buildScheduledAuthMetaWithModelSet auth modelSet currentRegEpoch in
        let s := s <| s_authProviders := <[authID := providerKey]> (s_authProviders s) |> in
        let modelCount := size (default ∅ modelSet) in
        let wasBlocked := match existingMeta with
                          | Some existing => isCredentialBlocked (sm_auth existing) modelCount now
                          | None => false
                          end in
        let credentialAvailabilityChanged :=
          negb (Bool.eqb wasBlocked (isCredentialBlocked auth modelCount now)) in
        set_provider s providerKey
          (if modelSetChanged || credentialScoped || credentialAvailabilityChanged
              || match targetModels with [] => true | _ => false end
           then upsertAuthForModelsLocked p meta [] true now
           else upsertAuthForModelsLocked p meta targetModels credentialScoped now).
Definition upsertAuthResult := upsertAuthResultLocked.

(** ** Rebuilding *)

Definition upsertAuthRebuildLocked (existingMetas : gmap string scheduledAuthMeta) (reg : R) (now : time)
    (s : authScheduler) (auth : Auth) : authScheduler :=
  let authID := trim_space (a_ID auth) in
  if String.eqb authID "" then s
  else
    let existing := s_authGenerations s !! authID in
    if match existing with Some g => a_RegistrationEpoch auth <? g_epoch g | None => false end then s
    else
      let newer := match existing with
                   | Some g => (g_epoch g =? a_RegistrationEpoch auth) && (a_Generation auth <? g_generation g)
                   | None => false
                   end in
      let chosen := if newer
                    then match existingMetas !! authID with
                         | Some meta => if is_disabled (sm_auth meta) then None else Some (sm_auth meta)
                         | None => None
                         end
                    else Some auth in
      match chosen with
      | None => s
      | Some authToSchedule =>
          let providerKey := executorKeyFromAuth authToSchedule in
          if String.eqb providerKey "" || is_disabled authToSchedule
          then removeAuthFromProvidersLocked s authID
          else
            let effective :=
              match existing with
              | Some g =>
                  if (g_epoch g =? a_RegistrationEpoch authToSchedule)
                     && (a_Generation authToSchedule <? g_generation g)
                  then {| g_epoch := a_RegistrationEpoch authToSchedule; g_generation := g_generation g;
                          g_updatedAt := if after (g_updatedAt g) (a_UpdatedAt authToSchedule)
                                         then g_updatedAt g else a_UpdatedAt authToSchedule |}
                  else version_of authToSchedule
              | None => version_of authToSchedule
              end in
            schedule_at (set_generation s authID effective) reg authID providerKey authToSchedule now
      end.

(** The metadata of all providers; a provider visited later wins. *)
Definition existing_metas (s : authScheduler) : gmap string scheduledAuthMeta :=
  foldl (fun metas p => p_auths p ∪ metas) ∅ (map snd (map_to_list (s_providers s))).
Definition rebuild (s : authScheduler) (reg : R) (auths : list Auth) (now : time) : authScheduler :=
  foldl (upsertAuthRebuildLocked (existing_metas s) reg now)
    {| s_strategy := s_strategy s; s_providers := ∅; s_authProviders := ∅;
       s_authGenerations := s_authGenerations s; s_mixedCursors := ∅; s_mixedWeightedStates := ∅ |} auths.

(** One credential of the manager that the scheduler does not reflect. *)
Definition out_of_sync (s : authScheduler) (reg : R) (auth : Auth) : bool :=
  match isSchedulableAuth auth with
  | None =>
      let rawID := trim_space (a_ID auth) in
      negb (String.eqb rawID "") && bool_decide (is_Some (s_authProviders s !! rawID))
  | Some (authID, providerKey) =>
      if negb (String.eqb (default "" (s_authProviders s !! authID)) providerKey) then true
      else match s_providers s !! providerKey with
           | None => true
           | Some p =>
               match p_auths p !! authID with
               | None => true
               | Some meta =>
                   match s_authGenerations s !! authID with
                   | None => true
                   | Some g => negb (g_epoch g =? a_RegistrationEpoch auth)
                               || negb (sm_registryEpoch meta =? ClientRegistrationEpoch reg authID)
                   end
               end
           end
  end.
Definition needsSyncFromMapLocked (s : authScheduler) (reg : R) (auths : list Auth) : bool :=
  let activeCount := length (List.filter (fun a => bool_decide (is_Some (isSchedulableAuth a))) auths) in
  negb (activeCount =? size (s_authProviders s))%nat || existsb (out_of_sync s reg) auths.

(** ** Picking *)

Definition auth_not_found : pick_error :=
  SelectError (PlainError (plain_error "auth_not_found" "no auth available")) None.
Definition provider_not_found : pick_error :=
  SelectError (PlainError (plain_error "provider_not_found" "no provider supplied")) None.

(** A request: what it may use and whether its client holds a websocket. *)
Record pick_request : Type := {
  q_model : string;
  q_pinned : string;
  q_eligibility : authSelectionEligibility;
  q_websocket : bool;
  q_tried : gset string;
}.
(** The readings of the clock of one pick: for the shards, for a pick that
    promotes again, and for the error. *)
Record clock : Type := { t_ensure : time; t_pick : time; t_error : time }.

Definition resolve_strategy (s : authScheduler) (strategy : schedulerStrategy) : schedulerStrategy :=
  if strategy_is strategy schedulerStrategyCurrent then s_strategy s else strategy.
Definition request_predicate (q : pick_request) (pinned : string) (strategy : schedulerStrategy) : entry_pred :=
  scheduledAuthPredicate (q_eligibility q) (q_tried q) pinned
    (strategy_is strategy schedulerStrategyWeightedRoundRobin).

Definition set_shard (s : authScheduler) (providerKey : string) (p : providerScheduler) (modelKey : string)
    (shard : modelScheduler) : authScheduler :=
  set_provider s providerKey (p <| p_modelShards := <[modelKey := shard]> (p_modelShards p) |>).

(** The common end of a pick from one shard of [providerKey]. *)
Definition pick_from_provider (s : authScheduler) (providerKey errorProvider : string) (preferWs : bool)
    (q : pick_request) (strategy : schedulerStrategy) (c : clock) :
    outcome pick_error Auth * authScheduler :=
  match s_providers s !! providerKey with
  | None => (Err auth_not_found, s)
  | Some p =>
      let modelKey := canonicalModelKey (q_model q) in
      let '(shard, p) := ensureModelLocked p modelKey (t_ensure c) in
      let predicate := request_predicate q (q_pinned q) strategy in
      let '(picked, shard) := pickReadyLocked shard preferWs strategy predicate (t_pick c) in
      let s := set_shard s providerKey p (canonicalModelKey modelKey) shard in
      match picked with
      | Some auth => (Ok auth, s)
      | None => (Err (unavailableErrorLocked shard errorProvider (q_model q) predicate (t_error c)), s)
      end
  end.

Definition pickSingleWithStrategy (s : authScheduler) (provider : string) (q : pick_request)
    (strategy : schedulerStrategy) (c : clock) : outcome pick_error Auth * authScheduler :=
  let providerKey := canonicalSchedulingProvider provider in
  let preferWebsocket := q_websocket q && providerPrefersWebsocketTransport providerKey
                         && String.eqb (q_pinned q) "" in
  pick_from_provider s providerKey provider preferWebsocket q (resolve_strategy s strategy) c.

(** The shard of a model at a provider, through the tables. *)
Definition shard_of (s : authScheduler) (modelKey providerKey : string) : option modelScheduler :=
  match s_providers s !! providerKey with
  | Some p => p_modelShards p !! canonicalModelKey modelKey
  | None => None
  end.

(** What the shard of one provider adds to the error. *)
Definition add_shard (model : string) (predicate : entry_pred) (shard : modelScheduler)
    (acc : summary * option dated_cause * option dated_cause) :
    summary * option dated_cause * option dated_cause :=
  let '(total, cooldownCount, unauthorizedCount, earliest, latestModel, latestAuth) := acc in
  let '(localTotal, localCooldownCount, localUnauthorizedCount, localEarliest) :=
    availabilitySummaryLocked shard predicate in
  let '(candModel, candAuth) := candidateErrorsLocked shard model predicate in
  (total + localTotal, cooldownCount + localCooldownCount, unauthorizedCount + localUnauthorizedCount,
   (if negb (is_zero localEarliest) && (is_zero earliest || before localEarliest earliest)
    then localEarliest else earliest),
   later_cause latestModel candModel, later_cause latestAuth candAuth).
Definition mixed_step (model : string) (predicate : entry_pred) (now : time)
    (acc : authScheduler * (summary * option dated_cause * option dated_cause)) (providerKey : string) :
    authScheduler * (summary * option dated_cause * option dated_cause) :=
  let '(s, totals) := acc in
  match s_providers s !! providerKey with
  | None => acc
  | Some p =>
      let '(shard, p) := ensureModelLocked p (canonicalModelKey model) now in
      (set_provider s providerKey p, add_shard model predicate shard totals)
  end.
Definition mixedUnavailableErrorLocked (s : authScheduler) (providers : list string) (model : string)
    (predicate : entry_pred) (now : time) : pick_error * authScheduler :=
  let '(s, (total, latestModel, latestAuth)) :=
    foldl (mixed_step model predicate now) (s, (0, 0, 0, 0, None, None)) providers in
  (summary_error total now model "" (cause_of latestModel) (cause_of latestAuth), s).

(** The shards of the providers are brought up to date, and the best priority
    one of them has ready. *)
Definition better_priority (best candidate : option Z) : option Z :=
  match candidate, best with
  | None, _ => best
  | Some _, None => candidate
  | Some priorityReady, Some bestPriority => if bestPriority <? priorityReady then candidate else best
  end.
Definition priority_step (modelKey : string) (predicate : entry_pred) (now : time)
    (acc : authScheduler * option Z) (providerKey : string) : authScheduler * option Z :=
  let '(s, best) := acc in
  match s_providers s !! providerKey with
  | None => acc
  | Some p =>
      let '(shard, p) := ensureModelLocked p modelKey now in
      (set_provider s providerKey p,
       better_priority best (highestReadyPriorityLocked shard false predicate))
  end.

(** A pick at one priority of one provider. *)
Definition pick_at (s : authScheduler) (modelKey providerKey : string) (priority : Z)
    (strategy : schedulerStrategy) (predicate : entry_pred) : option Auth * authScheduler :=
  match s_providers s !! providerKey with
  | None => (None, s)
  | Some p =>
      match p_modelShards p !! canonicalModelKey modelKey with
      | None => (None, s)
      | Some shard =>
          let '(picked, shard) := pickReadyAtPriorityLocked shard false priority strategy predicate in
          (picked, set_shard s providerKey p (canonicalModelKey modelKey) shard)
      end
  end.

(** Fill-first: the providers in the order of the request. *)
Fixpoint mixed_first (s : authScheduler) (modelKey : string) (priority : Z) (predicate : entry_pred)
    (providers : list string) : option (Auth * string) * authScheduler :=
  match providers with
  | [] => (None, s)
  | providerKey :: rest =>
      let '(picked, s) := pick_at s modelKey providerKey priority schedulerStrategyFillFirst predicate in
      match picked with
      | Some auth => (Some (auth, providerKey), s)
      | None => mixed_first s modelKey priority predicate rest
      end
  end.

(** Weighted: one smooth rotation over the entries of all providers. *)
Definition bucket_entries (s : authScheduler) (modelKey : string) (priority : Z) (providerKey : string) :
    list scheduledAuth :=
  match shard_of s modelKey providerKey with
  | None => []
  | Some shard => match m_readyByPriority shard !! priority with
                  | Some bucket => view_entries shard (rb_all bucket)
                  | None => []
                  end
  end.
Definition mixed_weighted (s : authScheduler) (modelKey cursorKey : string) (priority : Z)
    (predicate : entry_pred) (providers : list string) : option (Auth * string) * authScheduler :=
  let entries := sort_by entry_id (concat (map (bucket_entries s modelKey priority) providers)) in
  let state := Selector.prepare (default Selector.empty_smooth (s_mixedWeightedStates s !! cursorKey))
                 (scheduledWeightVectorMatching entries predicate) in
  let '(picked, current) := pickSmoothWeightedScheduled entries (Selector.sw_current state) predicate in
  ((fun entry => (e_auth entry, sm_providerKey (e_meta entry))) <$> picked,
   s <| s_mixedWeightedStates :=
          <[cursorKey := {| Selector.sw_current := current; Selector.sw_weights := Selector.sw_weights state |}]>
            (s_mixedWeightedStates s) |>).

(** Round robin: every provider owns a segment as long as its ready
    credentials; the cursor walks the segments. *)
Definition ready_count (s : authScheduler) (modelKey : string) (priority : Z) (predicate : entry_pred)
    (providerKey : string) : Z :=
  match shard_of s modelKey providerKey with
  | Some shard => readyCountAtPriorityLocked shard false priority predicate
  | None => 0
  end.
(** The provider whose segment holds the slot. *)
Fixpoint start_provider (weights : list Z) (index : nat) (segmentStart startSlot : Z) : option nat :=
  match weights with
  | [] => None
  | weight :: rest =>
      let segmentEnd := segmentStart + weight in
      if weight =? 0 then start_provider rest (S index) segmentEnd startSlot
      else if startSlot <? segmentEnd then Some index
      else start_provider rest (S index) segmentEnd startSlot
  end.
Definition segment_start (weights : list Z) (index : nat) : Z := zsum id (take index weights).
Fixpoint mixed_rotate (s : authScheduler) (modelKey cursorKey : string) (priority : Z)
    (predicate : entry_pred) (providers : list string) (weights : list Z) (start : nat) (slot : Z)
    (left : nat) : option (Auth * string) * authScheduler :=
  match left with
  | O => (None, s)
  | S left' =>
      let n := length providers in
      let index := ((start + (n - left)) mod n)%nat in
      let next := mixed_rotate s modelKey cursorKey priority predicate providers weights start in
      match providers !! index, weights !! index with
      | Some providerKey, Some weight =>
          if weight =? 0 then next slot left'
          else
            let slot := if Nat.eqb index start then slot else segment_start weights index in
            let '(picked, s) := pick_at s modelKey providerKey priority schedulerStrategyRoundRobin predicate in
            match picked with
            | Some auth =>
                (Some (auth, providerKey),
                 s <| s_mixedCursors := <[cursorKey := slot + 1]> (s_mixedCursors s) |>)
            | None => mixed_rotate s modelKey cursorKey priority predicate providers weights start slot left'
            end
      | _, _ => next slot left'
      end
  end.
Definition mixed_round_robin (s : authScheduler) (modelKey cursorKey : string) (priority : Z)
    (predicate : entry_pred) (providers : list string) : option (Auth * string) * authScheduler :=
  let weights := map (ready_count s modelKey priority predicate) providers in
  let totalWeight := zsum id weights in
  if totalWeight =? 0 then (None, s)
  else
    let startSlot := Z.rem (default 0 (s_mixedCursors s !! cursorKey)) totalWeight in
    match start_provider weights 0 0 startSlot with
    | None => (None, s)
    | Some start => mixed_rotate s modelKey cursorKey priority predicate providers weights start startSlot
                      (length providers)
    end.

Definition mixed_pick (s : authScheduler) (modelKey cursorKey : string) (priority : Z)
    (strategy : schedulerStrategy) (predicate : entry_pred) (providers : list string) :
    option (Auth * string) * authScheduler :=
  match strategy with
  | schedulerStrategyFillFirst => mixed_first s modelKey priority predicate providers
  | schedulerStrategyWeightedRoundRobin => mixed_weighted s modelKey cursorKey priority predicate providers
  | _ => mixed_round_robin s modelKey cursorKey priority predicate providers
  end.

Definition cursor_key (providers : list string) (modelKey : string) : string :=
  String.concat "," providers +:+ ":" +:+ modelKey.

(** At least two providers and no pinned credential. *)
Definition pick_among (s : authScheduler) (providers : list string) (q : pick_request)
    (strategy : schedulerStrategy) (c : clock) : outcome pick_error (Auth * string) * authScheduler :=
  let modelKey := canonicalModelKey (q_model q) in
  let predicate := request_predicate q "" strategy in
  let '(s, best) := foldl (priority_step modelKey predicate (t_ensure c)) (s, None) providers in
  let failed s := let '(e, s) := mixedUnavailableErrorLocked s providers (q_model q) predicate (t_error c) in
                  (Err e, s) in
  match best with
  | None => failed s
  | Some bestPriority =>
      let '(picked, s) := mixed_pick s modelKey (cursor_key providers modelKey) bestPriority strategy
                            predicate providers in
      match picked with
      | Some p => (Ok p, s)
      | None => failed s
      end
  end.

Definition with_provider (providerKey : string) (r : outcome pick_error Auth * authScheduler) :
    outcome pick_error (Auth * string) * authScheduler :=
  (match r.1 with Ok auth => Ok (auth, providerKey) | Err e => Err e end, r.2).

Definition pickMixedWithStrategy (s : authScheduler) (providers : list string) (q : pick_request)
    (strategy : schedulerStrategy) (c : clock) : outcome pick_error (Auth * string) * authScheduler :=
  match normalizeProviderKeys providers with
  | [] => (Err provider_not_found, s)
  | [providerKey] => with_provider providerKey (pickSingleWithStrategy s providerKey q strategy c)
  | normalized =>
      let strategy := resolve_strategy s strategy in
      if negb (String.eqb (q_pinned q) "") then
        let providerKey := default "" (s_authProviders s !! q_pinned q) in
        if String.eqb providerKey "" || negb (containsProvider normalized providerKey)
        then (Err auth_not_found, s)
        else with_provider providerKey (pick_from_provider s providerKey "mixed" false q strategy c)
      else pick_among s normalized q strategy c
  end.
Definition pickSingle s provider q := pickSingleWithStrategy s provider q schedulerStrategyCurrent.
Definition pickMixed s providers q := pickMixedWithStrategy s providers q schedulerStrategyCurrent.

End Operations.
End Scheduler.
