(* ===== verification/RefreshDue.v ===== *)
(** * When a credential is refreshed: sdk/cliproxy/auth/conductor_refresh.go,
    auto_refresh_loop.go and types.go

    The time of the next check of a credential, and whether it is to be refreshed now.
    The runtime of a credential, the registered lead times and [time.ParseDuration]
    are the class [RefreshRuntime]. *)
From S2P Require Import Prelude GoLib AuthTypes Expiry Classify MarkResult.
Import AuthTypes Expiry Classify.

(** [evaluator]: the answer of a runtime that decides on refreshes itself;
    [runtime_lead]: the lead time a runtime announces; [refreshLeadFactories]: the
    factory registered for a provider, with what it answers. *)
Class RefreshRuntime : Type := {
  ParseDuration : string → option duration;
  evaluator : Auth → option (time → bool);
  runtime_lead : Auth → option duration;
  refreshLeadFactories : string → option (option duration);
}.

Module RefreshDue.

(** ** Arithmetic of durations *)

(** The product of a float64 with one second, rounded to 53 bits, half to even, as a
    [time.Duration]. *)
Definition round53 (m e : Z) : Z * Z :=
  let bits := Z.log2 (Z.abs m) + 1 in
  if bits <=? 53 then (m, e)
  else
    let s := bits - 53 in
    let q := Z.shiftr (Z.abs m) s in
    let r := Z.abs m mod 2 ^ s in
    let half := 2 ^ (s - 1) in
    let q := if (half <? r) || ((r =? half) && Z.odd q) then q + 1 else q in
    (Z.sgn m * q, e + s).
Definition float_seconds (f : float) : duration :=
  match f with
  | FFin m e => let '(m, e) := round53 (m * second) e in float_to_int64 (FFin m e)
  | _ => float_to_int64 f
  end.
(** [f <= 0]. *)
Definition float_nonpos (f : float) : bool :=
  match f with FNaN => false | FInf negative => negative | FFin m _ => m <=? 0 end.
Definition float_pos (f : float) : bool :=
  match f with FNaN => false | FInf negative => negb negative | FFin m _ => 0 <? m end.

Section RefreshDue.
Context `{GP : GoParse} `{RT : RefreshRuntime}.

(** ** The preferred interval *)

Definition positive_seconds (secs : option float) : duration :=
  match secs with Some f => if float_pos f then float_seconds f else 0 | None => 0 end.
Definition parseDurationString (raw : string) : duration :=
  let s := trim_space raw in
  if String.eqb s "" then 0
  else match ParseDuration s with
       | Some dur => if 0 <? dur then dur else positive_seconds (number_Float64 s)
       | None => positive_seconds (number_Float64 s)
       end.
(** A [time.Duration] in the metadata is not among the modelled dynamic types. *)
Definition parseDurationValue (val : any) : duration :=
  match val with
  | AInt (KInt | KInt32 | KInt64) v => if v <=? 0 then 0 else wrap64 (v * second)
  | AUint (KUint | KUint32 | KUint64) v => if v =? 0 then 0 else wrap64 (v * second)
  | AFloat32 v | AFloat64 v => if float_nonpos v then 0 else float_seconds v
  | ANumber v =>
      match parse_int64 v with
      | Some i => if i <=? 0 then 0 else wrap64 (i * second)
      | None => positive_seconds (number_Float64 v)
      end
  | AStr v => parseDurationString v
  | _ => 0
  end.
Definition first_positive (durations : list duration) : duration :=
  default 0 (head (List.filter (fun dur => 0 <? dur) durations)).
Definition durationFromMetadata (meta : list (string * any)) (keys : list string) : duration :=
  first_positive (omap (fun key => parseDurationValue <$> mget meta key) keys).
Definition durationFromAttributes (attrs : gmap string string) (keys : list string) : duration :=
  first_positive (omap (fun key => parseDurationString <$> attrs !! key) keys).
Definition interval_keys : list string :=
  ["refresh_interval_seconds"; "refreshIntervalSeconds"; "refresh_interval"; "refreshInterval"].
Definition authPreferredInterval (a : Auth) : duration :=
  let d := durationFromMetadata (a_Metadata a) interval_keys in
  if 0 <? d then d
  else
    let d := durationFromAttributes (a_Attributes a) interval_keys in
    if 0 <? d then d else 0.

Definition last_refresh_keys : list string := ["last_refresh"; "lastRefresh"; "last_refreshed_at"; "lastRefreshedAt"].
Definition authLastRefreshTimestamp (a : Auth) : option time :=
  match lookupMetadataTime (a_Metadata a) last_refresh_keys with
  | Some ts => Some ts
  | None => head (omap (fun key =>
              let val := trim_space (default "" (a_Attributes a !! key)) in
              if String.eqb val "" then None else parseTimeValue (AStr val)) last_refresh_keys)
  end.

(** ** Who may be refreshed *)

Definition hasDisabledInvalidGrantFailure (a : Auth) : bool :=
  (a_Disabled a || String.eqb (a_Status a) StatusDisabled)
  && match a_LastError a with
     | Some e => isInvalidGrantResultError e || isInvalidGrantErrorMessage (err_Message e)
                 || isInvalidGrantErrorMessage (err_Code e)
     | None => false
     end.
Definition authHasUnchangedRejectedRefreshToken (a : Auth) : bool :=
  if negb (a_RequiresSignIn a) then false
  else
    let outerRT := authRefreshToken a in
    let siwcRT := authSIWCTokenField a "refresh_token" in
    let hasOuter := negb (String.eqb outerRT "") in
    let hasSIWC := negb (String.eqb siwcRT "") in
    if negb hasOuter && negb hasSIWC then true
    else if hasOuter && negb (String.eqb (a_RejectedRefreshToken a) outerRT) then false
    else negb (hasSIWC && negb (String.eqb (a_RejectedSIWCRefreshToken a) siwcRT)).
Definition CodexOuterRefreshLead : duration := 96 * 60 * minute.
(** Only a positive lead counts; a factory decides for its provider. *)
Definition positive (lead : option duration) : option duration :=
  match lead with Some l => if 0 <? l then Some l else None | None => None end.
Definition ProviderRefreshLead (provider : string) (a : Auth) : option duration :=
  let provider := to_lower (trim_space provider) in
  match positive (runtime_lead a) with
  | Some lead => Some lead
  | None =>
      match refreshLeadFactories provider with
      | Some lead => positive lead
      | None => if String.eqb provider "codex" then Some CodexOuterRefreshLead else None
      end
  end.

Definition min_time (candidates : list time) : time :=
  match candidates with
  | [] => 0
  | next :: rest => foldl (fun next candidate => if before candidate next then candidate else next) next rest
  end.

Definition CodexOuterNeedsRefresh (a : Auth) (now : time) : time * bool * bool :=
  if String.eqb (authRefreshToken a) "" then (0, false, false)
  else if negb (String.eqb (a_RejectedRefreshToken a) "") && String.eqb (authRefreshToken a) (a_RejectedRefreshToken a) then
    match some_nonzero (OuterExpirationTime a) with
    | Some expiry =>
        if after expiry now then (expiry, true, false)
        else if IsCodexUseSIWC a then (0, false, false)
        else (now, true, true)
    | None => (0, false, false)
    end
  else
    let outerToken := authOuterAccessToken a in
    if String.eqb outerToken ""
       || (negb (String.eqb (a_RejectedAccessToken a) "") && String.eqb (a_RejectedAccessToken a) outerToken)
    then (now, true, true)
    else
      let lastRefresh := match some_nonzero (authLastRefreshTimestamp a) with
                         | Some ts => ts
                         | None => a_LastRefreshedAt a
                         end in
      let expiry := some_nonzero (OuterExpirationTime a) in
      let pref := authPreferredInterval a in
      if 0 <? pref then
        if is_zero lastRefresh then (now, true, true)
        else due_at (min_time (match expiry with Some e => [e - pref] | None => [] end ++ [lastRefresh + pref])) now
      else
        let provider := to_lower (trim_space (a_Provider a)) in
        let provider := if String.eqb provider "" then to_lower (authMetadataString a "type") else provider in
        let lead := match ProviderRefreshLead provider a with
                    | Some lead => Some lead
                    | None => if String.eqb provider "codex" then Some CodexOuterRefreshLead else None
                    end in
        match lead with
        | None => (0, false, false)
        | Some lead =>
            if lead <=? 0 then
              match expiry with
              | Some expiry => if negb (after expiry now) then (now, true, true) else (expiry, true, false)
              | None => (0, false, false)
              end
            else match expiry with
                 | Some expiry => due_at (expiry - lead) now
                 | None => if negb (is_zero lastRefresh) then due_at (lastRefresh + lead) now else (now, true, true)
                 end
        end.

(** [homeEnabled]: [m.HomeEnabled()]. *)
Definition codexAutoRefreshUnavailable (homeEnabled : bool) (a : Auth) (now : time) : bool :=
  if negb (equal_fold (trim_space (a_Provider a)) "codex") || homeEnabled then false
  else match evaluator a with
       | Some _ => false
       | None => if negb (String.eqb (authMetadataString a "refresh_token") "") then false
                 else let '(_, hasSIWC, _) := CodexSIWCNeedsRefresh a now in negb hasSIWC
       end.

(** [a.LastRefreshedAt], or the time stamp the credential carries. *)
Definition last_refreshed (a : Auth) : time :=
  if is_zero (a_LastRefreshedAt a) then default 0 (authLastRefreshTimestamp a) else a_LastRefreshedAt a.

(** ** Refresh now? *)

Definition should_by_age (a : Auth) (now : time) : bool :=
  let lastRefresh := last_refreshed a in
  let expiry := some_nonzero (ExpirationTime a) in
  let interval := authPreferredInterval a in
  if 0 <? interval then
    if match expiry with Some e => negb (after e now) || (time_sub e now <=? interval) | None => false end then true
    else if is_zero lastRefresh then true
    else interval <=? time_sub now lastRefresh
  else
    match ProviderRefreshLead (to_lower (a_Provider a)) a with
    | None => false
    | Some lead =>
        if lead <=? 0 then match expiry with Some e => after now e | None => false end
        else match expiry with
             | Some e => time_sub e now <=? lead
             | None => if negb (is_zero lastRefresh) then lead <=? time_sub now lastRefresh else true
             end
    end.
Definition shouldRefresh (homeEnabled : bool) (a : Auth) (now : time) : bool :=
  if codexAutoRefreshUnavailable homeEnabled a now then false
  else if hasUnauthorizedAuthFailure a || hasDisabledInvalidGrantFailure a then false
  else if negb (is_zero (a_NextRefreshAfter a)) && before now (a_NextRefreshAfter a) then false
  else if authHasUnchangedRejectedRefreshToken a then
    if HasValidAccessToken a now then false
    else negb (a_Disabled a) && negb (String.eqb (a_Status a) StatusDisabled)
  else match evaluator a with
       | Some ShouldRefresh => ShouldRefresh now
       | None =>
           match MarkResult.devinQuotaRevalidateAt a now with
           | Some next => negb (after next now)
           | None =>
               let '(_, hasSIWC, needSIWC) := CodexSIWCNeedsRefresh a now in
               if hasSIWC then
                 if needSIWC then true
                 else let '(_, hasOuter, needOuter) := CodexOuterNeedsRefresh a now in
                      if hasOuter then needOuter else false
               else should_by_age a now
           end
       end.

(** ** When to look again *)

Definition refreshCheckInterval : duration := 5 * second.
(** [next], or [now] when it is past. *)
Definition not_before (now next : time) : time := if negb (after next now) then now else next.

Definition check_by_age (now : time) (a : Auth) : option time :=
  let lastRefresh := last_refreshed a in
  let expiry := some_nonzero (ExpirationTime a) in
  let pref := authPreferredInterval a in
  if 0 <? pref then
    if match expiry with Some e => negb (after e now) || (time_sub e now <=? pref) | None => false end then Some now
    else if is_zero lastRefresh then Some now
    else Some (not_before now (min_time (match expiry with Some e => [e - pref] | None => [] end ++ [lastRefresh + pref])))
  else
    match ProviderRefreshLead (to_lower (a_Provider a)) a with
    | None => None
    | Some lead =>
        match expiry with
        | Some e => Some (not_before now (e - lead))
        | None => if negb (is_zero lastRefresh) then Some (not_before now (lastRefresh + lead)) else Some now
        end
    end.
(** The checks after those of Devin quotas. *)
Definition check_token (now : time) (a : Auth) (interval : duration) : option time :=
  if negb (is_zero (a_NextRefreshAfter a)) && before now (a_NextRefreshAfter a) then Some (a_NextRefreshAfter a)
  else if authHasUnchangedRejectedRefreshToken a then
    if HasValidAccessToken a now then
      match some_nonzero (AccessTokenExpirationTime a) with
      | Some exp => if after exp now then Some exp else None
      | None => None
      end
    else if a_Disabled a || String.eqb (a_Status a) StatusDisabled then None
    else Some now
  else
    let '(siwcDueAt, hasSIWC, _) := CodexSIWCNeedsRefresh a now in
    if hasSIWC then
      let '(outerDueAt, hasOuter, _) := CodexOuterNeedsRefresh a now in
      Some (not_before now (if hasOuter && before outerDueAt siwcDueAt then outerDueAt else siwcDueAt))
    else if String.eqb (AuthKind a) AuthKindAPIKey then None
    else match evaluator a with
         | Some _ => Some (now + (if interval <=? 0 then refreshCheckInterval else interval))
         | None => check_by_age now a
         end.
Definition nextRefreshCheckAt (now : time) (a : Auth) (interval : duration) : option time :=
  if hasUnauthorizedAuthFailure a || hasDisabledInvalidGrantFailure a then None
  else match evaluator a, MarkResult.devinQuotaRevalidateAt a now with
       | None, Some next =>
           let next := if negb (is_zero (a_NextRefreshAfter a)) && after (a_NextRefreshAfter a) next
                       then a_NextRefreshAfter a else next in
           Some (not_before now next)
       | _, _ => check_token now a interval
       end.
(** [m.nextRefreshCheckAt]. *)
Definition manager_nextRefreshCheckAt (homeEnabled : bool) (now : time) (a : Auth) (interval : duration) : option time :=
  if codexAutoRefreshUnavailable homeEnabled a now then None else nextRefreshCheckAt now a interval.

(** ** A credential that is due is refreshed *)

(** Durations come from [int64]s. *)
Definition runtime_in_range : Prop :=
  (∀ s d, ParseDuration s = Some d → d ≤ max_int64) ∧ (∀ a d, runtime_lead a = Some d → d ≤ max_int64)
  ∧ (∀ p d, refreshLeadFactories p = Some (Some d) → d ≤ max_int64).

Lemma float_to_int64_max f : float_to_int64 f ≤ max_int64.
Proof.
  unfold float_to_int64. destruct f as [|?|m e]; try (unfold min_int64, max_int64; lia).
  destruct (in_int64b (float_trunc m e)) eqn:E; [apply in_int64b_spec in E; unfold in_int64 in E; lia|unfold min_int64, max_int64; lia].
Qed.
Lemma float_seconds_max f : float_seconds f ≤ max_int64.
Proof. unfold float_seconds. destruct f as [|?|m e]; [apply float_to_int64_max..|]. destruct (round53 _ _). apply float_to_int64_max. Qed.
Lemma wrap64_max z : wrap64 z ≤ max_int64.
Proof. pose proof (wrap64_range z) as H. unfold in_int64 in H. lia. Qed.
Lemma zero_max : 0 ≤ max_int64.
Proof. unfold max_int64. lia. Qed.

Create HintDb refresh.
#[local] Hint Resolve float_seconds_max wrap64_max zero_max : refresh.

Lemma positive_seconds_max o : positive_seconds o ≤ max_int64.
Proof. unfold positive_seconds. repeat case_match; auto with refresh. Qed.
#[local] Hint Resolve positive_seconds_max : refresh.

Section Range.
Hypothesis in_range : runtime_in_range.

Lemma parseDurationString_max s : parseDurationString s ≤ max_int64.
Proof.
  unfold parseDurationString. destruct (String.eqb _ ""); [auto with refresh|].
  destruct (ParseDuration _) as [d|] eqn:E; [|auto with refresh]. destruct (0 <? d); [|auto with refresh]. by apply (proj1 in_range (trim_space s)).
Qed.
Lemma parseDurationValue_max v : parseDurationValue v ≤ max_int64.
Proof. unfold parseDurationValue. repeat case_match; auto using parseDurationString_max with refresh. Qed.
Lemma first_positive_max l : (∀ d, d ∈ l → d ≤ max_int64) → first_positive l ≤ max_int64.
Proof.
  intros Hl. unfold first_positive. destruct (head _) as [d|] eqn:E; [|apply zero_max]. apply Hl.
  apply head_Some_elem_of in E. by apply list_elem_of_In, List.filter_In, proj1, list_elem_of_In in E.
Qed.
Lemma durations_max meta attrs keys : durationFromMetadata meta keys ≤ max_int64 ∧ durationFromAttributes attrs keys ≤ max_int64.
Proof.
  split; apply first_positive_max; intros d (k & _ & Hk)%list_elem_of_omap.
  - destruct (mget meta k); [|done]. injection Hk as <-. apply parseDurationValue_max.
  - destruct (attrs !! k); [|done]. injection Hk as <-. apply parseDurationString_max.
Qed.
Lemma authPreferredInterval_max a : authPreferredInterval a ≤ max_int64.
Proof.
  unfold authPreferredInterval. destruct (durations_max (a_Metadata a) (a_Attributes a) interval_keys) as [H1 H2].
  destruct (0 <? _); [exact H1|]. destruct (0 <? _); [exact H2|apply zero_max].
Qed.
Lemma ProviderRefreshLead_range p a lead : ProviderRefreshLead p a = Some lead → 0 < lead ≤ max_int64.
Proof.
  destruct in_range as (_ & H2 & H3). unfold ProviderRefreshLead, positive.
  destruct (runtime_lead a) as [d|] eqn:Ed.
  - destruct (0 <? d) eqn:E; bprop; [intros [= <-]; split; [lia|by eapply H2]|].
    destruct (refreshLeadFactories _) as [[d'|]|] eqn:Ef; [|done|].
    + destruct (0 <? d') eqn:E'; bprop; [|done]. intros [= <-]. split; [lia|by eapply H3].
    + destruct (String.eqb _ "codex"); [|done]. intros [= <-]. done.
  - destruct (refreshLeadFactories _) as [[d'|]|] eqn:Ef; [|done|].
    + destruct (0 <? d') eqn:E'; bprop; [|done]. intros [= <-]. split; [lia|by eapply H3].
    + destruct (String.eqb _ "codex"); [|done]. intros [= <-]. done.
Qed.

Lemma time_sub_le t u d : d ≤ max_int64 → t - u ≤ d → min_int64 ≤ d → time_sub t u ≤ d.
Proof. unfold time_sub. lia. Qed.
Lemma time_sub_ge t u d : d ≤ max_int64 → d ≤ t - u → d ≤ time_sub t u.
Proof. unfold time_sub. lia. Qed.
Lemma not_before_due now next : not_before now next ≤ now → next ≤ now.
Proof. unfold not_before. destruct (after next now) eqn:E; cbn; [done|]. by apply after_false in E. Qed.

(** The two tests by age agree. *)
Lemma age_due a now next : check_by_age now a = Some next → next ≤ now → should_by_age a now = true.
Proof.
  unfold check_by_age, should_by_age. pose proof (authPreferredInterval_max a) as Hp. set (pref := authPreferredInterval a) in *.
  set (expiry := some_nonzero (ExpirationTime a)). set (last := last_refreshed a). destruct (0 <? pref) eqn:E0; bprop.
  - destruct (match expiry with Some e => _ | None => false end) eqn:Ee; [done|]. destruct (is_zero last) eqn:El; [done|].
    intros [= <-] Hd%not_before_due. apply Z.leb_le, time_sub_ge; [done|]. destruct expiry as [e|]; cbn in Hd; [|lia].
    apply orb_false_iff in Ee as [Ea Es]. unfold before in Hd. destruct (last + pref <? e - pref) eqn:Eb; bprop; [lia|].
    unfold time_sub, max_int64, min_int64 in *. lia.
  - destruct (ProviderRefreshLead _ a) as [lead|] eqn:Hl; [|done]. apply ProviderRefreshLead_range in Hl as [Hl1 Hl2].
    rewrite (proj2 (Z.leb_gt lead 0)) by done. destruct expiry as [e|].
    + intros [= <-] Hd%not_before_due. apply Z.leb_le, time_sub_le; [done|lia|]. unfold min_int64. lia.
    + destruct (is_zero last) eqn:El; cbn; [done|]. intros [= <-] Hd%not_before_due. apply Z.leb_le, time_sub_ge; lia.
Qed.
Lemma due_at_spec d now d' has need : due_at d now = (d', has, need) → has = true ∧ need = negb (after d' now).
Proof.
  unfold due_at. destruct (after d now) eqn:E; cbn; intros [= <- <- <-]; split; try done; [by rewrite E|].
  symmetry. apply negb_true_iff, after_false. lia.
Qed.
Lemma now_due now : true = negb (after now now).
Proof. symmetry. apply negb_true_iff, after_false. lia. Qed.
Lemma siwc_due a now d need : CodexSIWCNeedsRefresh a now = (d, true, need) → need = negb (after d now).
Proof.
  unfold CodexSIWCNeedsRefresh. repeat case_match; intros H'; try (injection H' as <- <-); simplify_eq; try apply now_due;
    try (by eapply due_at_spec). by match goal with H : after _ _ = true |- _ => rewrite H end.
Qed.

Lemma outer_due a now d need : CodexOuterNeedsRefresh a now = (d, true, need) → need = negb (after d now).
Proof.
  unfold CodexOuterNeedsRefresh. repeat case_match; intros H'; try (injection H' as <- <-); simplify_eq; try apply now_due;
    try (by eapply due_at_spec);
    repeat match goal with H : negb _ = false |- _ => apply negb_false_iff in H end;
    by match goal with H : after _ _ = true |- _ => rewrite H end.
Qed.

(** A Devin credential over its quota whose sign-in was rejected, while its token
    counts as valid or it is disabled. *)
Definition devin_deadlock (a : Auth) (now : time) : Prop :=
  is_Some (MarkResult.devinQuotaRevalidateAt a now) ∧ authHasUnchangedRejectedRefreshToken a = true
  ∧ (HasValidAccessToken a now = true ∨ a_Disabled a || String.eqb (a_Status a) StatusDisabled = true).

Lemma token_due home a now interval next : codexAutoRefreshUnavailable home a now = false →
  hasUnauthorizedAuthFailure a || hasDisabledInvalidGrantFailure a = false → evaluator a = None →
  MarkResult.devinQuotaRevalidateAt a now = None → check_token now a interval = Some next → next ≤ now → shouldRefresh home a now = true.
Proof.
  intros Hc Hf He Hd. unfold check_token, shouldRefresh. rewrite Hc, Hf, He, Hd.
  destruct (negb (is_zero (a_NextRefreshAfter a)) && before now (a_NextRefreshAfter a)) eqn:Hn.
  { intros [= <-] Hle. apply andb_true_iff in Hn as [_ Hn]. bprop. lia. }
  destruct (authHasUnchangedRejectedRefreshToken a).
  - destruct (HasValidAccessToken a now).
    + destruct (some_nonzero _) as [exp|]; [|done]. destruct (after exp now) eqn:E; [|done]. intros [= <-] Hle. bprop. lia.
    + destruct (a_Disabled a); [done|]. by destruct (String.eqb (a_Status a) StatusDisabled).
  - destruct (CodexSIWCNeedsRefresh a now) as [[siwcDue hasSIWC] needSIWC] eqn:Es. destruct hasSIWC.
    + apply siwc_due in Es. destruct (CodexOuterNeedsRefresh a now) as [[outerDue hasOuter] needOuter] eqn:Eo.
      intros [= <-] Hle%not_before_due. destruct needSIWC; [done|]. symmetry in Es. apply negb_false_iff in Es. bprop.
      destruct hasOuter; cbn [andb] in Hle; [|lia]. apply outer_due in Eo. rewrite Eo. apply negb_true_iff, after_false.
      unfold before in Hle. destruct (outerDue <? siwcDue) eqn:?; bprop; lia.
    + destruct (String.eqb (AuthKind a) AuthKindAPIKey); [done|]. apply age_due.
Qed.

Lemma due_is_refreshed (home : bool) (a : Auth) (now next : time) (interval : duration) :
  evaluator a = None → ¬ devin_deadlock a now →
  manager_nextRefreshCheckAt home now a interval = Some next → next ≤ now → shouldRefresh home a now = true.
Proof.
  intros He Hdev. unfold manager_nextRefreshCheckAt, nextRefreshCheckAt.
  destruct (codexAutoRefreshUnavailable home a now) eqn:Hc; [done|].
  destruct (hasUnauthorizedAuthFailure a || hasDisabledInvalidGrantFailure a) eqn:Hf; [done|]. rewrite He.
  destruct (MarkResult.devinQuotaRevalidateAt a now) as [due|] eqn:Hd; [|by apply (token_due home a now interval next)].
  intros [= <-] Hle%not_before_due. unfold shouldRefresh. rewrite Hc, Hf, He, Hd.
  assert (negb (is_zero (a_NextRefreshAfter a)) && before now (a_NextRefreshAfter a) = false) as ->.
  { apply andb_false_iff. destruct (is_zero (a_NextRefreshAfter a)); [by left|right]. cbn [negb andb] in Hle.
    apply before_false. destruct (after (a_NextRefreshAfter a) due) eqn:E; [done|]. apply after_false in E. lia. }
  destruct (authHasUnchangedRejectedRefreshToken a) eqn:Hr.
  - destruct (HasValidAccessToken a now) eqn:Hv; [by destruct Hdev; split_and!; [eexists|done|left]|].
    destruct (a_Disabled a || String.eqb (a_Status a) StatusDisabled) eqn:Hs;
      [destruct Hdev; split_and!; [by eexists|done|by right]|]. by apply orb_false_iff in Hs as [-> ->].
  - apply negb_true_iff, after_false. destruct (negb _ && after _ _) eqn:E; [|done].
    apply andb_true_iff in E as [_ E]. bprop. lia.
Qed.
(** A credential that the schedule finds due now is one the refresh test accepts, so
    the loop does not come back to it at once; the one exception is a Devin credential
    over its quota whose sign-in was rejected. *)
Theorem due_credential_is_refreshed (home : bool) (a : Auth) (now next : time) (interval : duration) :
  evaluator a = None → ¬ devin_deadlock a now →
  manager_nextRefreshCheckAt home now a interval = Some next → next ≤ now → shouldRefresh home a now = true.
Proof. apply due_is_refreshed. Qed.

End Range.

End RefreshDue.

(** ** Examples *)

Definition plain_parse : GoParse :=
  {| time_Parse := fun _ _ => None; number_Float64 := fun _ => None; jwt_exp_claim := fun _ => None |}.
(** Claude credentials are refreshed four hours before they expire. *)
Definition plain_runtime : RefreshRuntime :=
  {| ParseDuration := fun _ => None; evaluator := fun _ => None; runtime_lead := fun _ => None;
     refreshLeadFactories := fun p => if String.eqb p "claude" then Some (Some (240 * minute)) else None |}.
Lemma plain_in_range : runtime_in_range (RT := plain_runtime).
Proof.
  split_and!; cbn; try done. intros p d. destruct (String.eqb p "claude"); [|done]. intros [= <-]. done.
Qed.

Definition claude_auth : Auth := (new_auth "c") <| a_Provider := "claude" |> <| a_LastRefreshedAt := 1000 |>.
Lemma due_credential_is_refreshed_witness :
  let now := 1000 + 300 * minute in
  ¬ devin_deadlock (GP := plain_parse) claude_auth now
  ∧ shouldRefresh (GP := plain_parse) (RT := plain_runtime) false claude_auth now = true.
Proof.
  cbv zeta. assert (¬ devin_deadlock (GP := plain_parse) claude_auth (1000 + 300 * minute)) as Hd
    by (intros [[x Hx] _]; vm_compute in Hx; discriminate).
  split; [exact Hd|].
  apply (due_credential_is_refreshed (GP := plain_parse) (RT := plain_runtime) plain_in_range false claude_auth
           (1000 + 300 * minute) (1000 + 300 * minute) refreshCheckInterval); [reflexivity|exact Hd|vm_compute; reflexivity|lia].
Defined.

(** The exception is real: the credential is due at every time, and never refreshed. *)
Definition devin_auth : Auth :=
  (new_auth "d") <| a_Provider := "devin" |> <| a_RequiresSignIn := true |> <| a_Metadata := [("access_token", AStr "t")] |>
               <| a_Quota := zero_quota <| Exceeded := true |> <| Reason := "credential_quota" |> <| NextRecoverAt := 1000 |> |>.
Example devin_due_but_not_refreshed :
  manager_nextRefreshCheckAt (GP := plain_parse) (RT := plain_runtime) false 500 devin_auth refreshCheckInterval = Some 500
  ∧ shouldRefresh (GP := plain_parse) (RT := plain_runtime) false devin_auth 500 = false.
Proof. vm_compute. split; reflexivity. Qed.

End RefreshDue.
