(* ===== verification/RefreshHeap.v ===== *)
(** * The queue of refresh checks: sdk/cliproxy/auth/auto_refresh_loop.go

    [refreshMinHeap] with the operations of [container/heap], and the index of its
    items.  An item is found under the identifier of its credential; queue and index
    share it, so [items] holds its fields for both. *)
From S2P Require Import Prelude.

Module RefreshHeap.

Record refreshHeapItem : Type := {
  hi_next : time;
  hi_index : Z;
}.
#[global] Instance refreshHeapItem_eta : Eta refreshHeapItem := fun h =>
  {| hi_next := hi_next h; hi_index := hi_index h |}.
Record refreshQueue : Type := {
  queue : list string;
  items : gmap string refreshHeapItem;
}.
#[global] Instance refreshQueue_eta : Eta refreshQueue := fun h => {| queue := queue h; items := items h |}.
Definition empty_queue : refreshQueue := {| queue := []; items := ∅ |}.

(** ** [heap.Interface] *)

Definition heap_Len (h : refreshQueue) : nat := length (queue h).
Definition next_of (h : refreshQueue) (id : string) : time :=
  match items h !! id with Some item => hi_next item | None => 0 end.
Definition next_at (h : refreshQueue) (i : nat) : time :=
  match queue h !! i with Some id => next_of h id | None => 0 end.
Definition heap_Less (h : refreshQueue) (i j : nat) : bool := before (next_at h i) (next_at h j).
Definition set_index (id : string) (i : Z) (h : refreshQueue) : refreshQueue :=
  h <| items := alter (fun item => item <| hi_index := i |>) id (items h) |>.
Definition heap_Swap (h : refreshQueue) (i j : nat) : refreshQueue :=
  match queue h !! i, queue h !! j with
  | Some a, Some b =>
      set_index a (Z.of_nat j) (set_index b (Z.of_nat i) (h <| queue := <[j := a]> (<[i := b]> (queue h)) |>))
  | _, _ => h
  end.
(** The method [Push]: the new item is the last. *)
Definition push_last (id : string) (next : time) (h : refreshQueue) : refreshQueue :=
  h <| queue := queue h ++ [id] |>
    <| items := <[id := {| hi_next := next; hi_index := Z.of_nat (heap_Len h) |}]> (items h) |>.
(** The method [Pop]: the last item. *)
Definition pop_last (h : refreshQueue) : option (refreshQueue * string) :=
  match last (queue h) with
  | None => None
  | Some id => Some (set_index id (-1) (h <| queue := removelast (queue h) |>), id)
  end.

(** ** [container/heap] *)

Fixpoint up (fuel : nat) (h : refreshQueue) (j : nat) : refreshQueue :=
  match fuel with
  | O => h
  | S fuel =>
      let i := ((j - 1) / 2)%nat in
      if (i =? j)%nat || negb (heap_Less h j i) then h else up fuel (heap_Swap h i j) i
  end.
Definition heap_up (h : refreshQueue) (j : nat) : refreshQueue := up (S j) h j.

(** The child to compare with: the smaller one of at most two. *)
Definition smaller_child (h : refreshQueue) (i n : nat) : nat :=
  let j1 := (2 * i + 1)%nat in
  let j2 := S j1 in
  if (j2 <? n)%nat && heap_Less h j2 j1 then j2 else j1.
Fixpoint down (fuel : nat) (h : refreshQueue) (i n : nat) : refreshQueue * nat :=
  match fuel with
  | O => (h, i)
  | S fuel =>
      if (n <=? 2 * i + 1)%nat then (h, i)
      else
        let j := smaller_child h i n in
        if negb (heap_Less h j i) then (h, i) else down fuel (heap_Swap h i j) j n
  end.
(** With the answer whether the item moved. *)
Definition heap_down (h : refreshQueue) (i0 n : nat) : refreshQueue * bool :=
  let '(h, i) := down (S n) h i0 n in (h, (i0 <? i)%nat).

Definition heap_Push (id : string) (next : time) (h : refreshQueue) : refreshQueue :=
  let h := push_last id next h in heap_up h (heap_Len h - 1).
Definition heap_Pop (h : refreshQueue) : option (refreshQueue * string) :=
  let n := (heap_Len h - 1)%nat in
  let h := heap_Swap h 0 n in
  pop_last (heap_down h 0 n).1.
Definition heap_Remove (h : refreshQueue) (i : nat) : option (refreshQueue * string) :=
  let n := (heap_Len h - 1)%nat in
  let h := if (n =? i)%nat then h
           else let h := heap_Swap h i n in
                let '(h, moved) := heap_down h i n in
                if moved then h else heap_up h i in
  pop_last h.
Definition heap_Fix (h : refreshQueue) (i : nat) : refreshQueue :=
  let '(h, moved) := heap_down h i (heap_Len h) in
  if moved then h else heap_up h i.

(** ** Order *)

Definition child (p c : nat) : Prop := (c = 2 * p + 1 ∨ c = 2 * p + 2)%nat.
Definition ordered (n : nat) (k : nat → time) : Prop := ∀ p c, child p c → (c < n)%nat → k p ≤ k c.
(** The edges at [i] may be out of order, those around it are not. *)
Definition hole (n i : nat) (k : nat → time) : Prop :=
  (∀ p c, child p c → (c < n)%nat → p ≠ i → c ≠ i → k p ≤ k c)
  ∧ (∀ p c, child p i → child i c → (c < n)%nat → k p ≤ k c).
Definition parent_ok (i : nat) (k : nat → time) : Prop := ∀ p, child p i → k p ≤ k i.
Definition children_ok (n i : nat) (k : nat → time) : Prop := ∀ c, child i c → (c < n)%nat → k i ≤ k c.
Definition swapped (i j : nat) (k k' : nat → time) : Prop :=
  k' i = k j ∧ k' j = k i ∧ ∀ x, x ≠ i → x ≠ j → k' x = k x.

Lemma hole_ordered n i k : hole n i k → parent_ok i k → children_ok n i k → ordered n k.
Proof.
  intros [H1 _] Hp Hc p c Hpc Hn. destruct (decide (p = i)) as [->|]; [by apply Hc|].
  destruct (decide (c = i)) as [->|]; [by apply Hp|]. by apply H1.
Qed.
Lemma ordered_hole n i k : ordered n k → hole n i k.
Proof.
  intros H. split; [intros; by apply H|]. intros p c Hp Hc Hn. transitivity (k i); apply H; try done. unfold child in *. lia.
Qed.

(** Moving down: the smaller child comes up. *)
Lemma sink n i j k k' : hole n i k → child i j → (j < n)%nat → (∀ c, child i c → (c < n)%nat → k j ≤ k c) → k j < k i →
  swapped i j k k' → hole n j k' ∧ parent_ok j k'.
Proof.
  intros [H1 H2] Hij Hj Hmin Hlt (E1 & E2 & E3).
  assert (i ≠ j) as Hne by (unfold child in *; lia).
  assert (∀ c, child j c → c ≠ i) as Hji by (intros c; unfold child in *; lia).
  split; [split|].
  - intros p c Hpc Hc Hpj Hcj. destruct (decide (p = i)) as [->|Hpi].
    + rewrite E1. destruct (decide (c = i)) as [->|]; [unfold child in *; lia|]. rewrite E3 by done. by apply Hmin.
    + rewrite (E3 p) by done. destruct (decide (c = i)) as [->|Hci]; [rewrite E1; by apply H2|]. rewrite E3 by done. by apply H1.
  - intros p c Hpj Hjc Hc. assert (p = i) as -> by (unfold child in *; lia). rewrite E1, E3 by (apply Hji || (unfold child in *; lia); done).
    apply H1; [done|done|congruence|by apply Hji].
  - intros p Hpj. assert (p = i) as -> by (unfold child in *; lia). rewrite E1, E2. lia.
Qed.
(** Moving up. *)
Lemma rise n i j k k' : hole n j k → children_ok n j k → child i j → (j < n)%nat → k j < k i → swapped i j k k' →
  hole n i k' ∧ children_ok n i k'.
Proof.
  intros [H1 H2] Hc Hij Hj Hlt (E1 & E2 & E3).
  assert (i ≠ j) as Hne by (unfold child in *; lia).
  split; [split|].
  - intros p c Hpc Hcn Hpi Hci. destruct (decide (p = j)) as [->|Hpj].
    + rewrite E2. rewrite E3 by (done || (unfold child in *; lia)). by apply H2.
    + rewrite (E3 p) by done. destruct (decide (c = j)) as [->|Hcj]; [unfold child in *; lia|]. rewrite E3 by done. by apply H1.
  - intros p c Hpi Hic Hcn. rewrite (E3 p) by (unfold child in *; lia). transitivity (k i).
    + apply H1; [done|unfold child in *; lia|unfold child in *; lia|done].
    + destruct (decide (c = j)) as [->|Hcj]; [by rewrite E2|]. rewrite E3 by (done || (unfold child in *; lia)).
      apply H1; [done|done|done|done].
  - intros c Hic Hcn. rewrite E1. destruct (decide (c = j)) as [->|Hcj]; [rewrite E2; lia|].
    rewrite E3 by (done || (unfold child in *; lia)). transitivity (k i); [lia|]. by apply H1.
Qed.

(** ** Queue and index *)

Record wf (h : refreshQueue) : Prop := {
  wf_nodup : NoDup (queue h);
  wf_items id : is_Some (items h !! id) ↔ id ∈ queue h;
  wf_index i id item : queue h !! i = Some id → items h !! id = Some item → hi_index item = Z.of_nat i;
}.
(** The same items with the same times, in another order. *)
Definition moved (h h' : refreshQueue) : Prop :=
  queue h' ≡ₚ queue h ∧ ∀ id, hi_next <$> items h' !! id = hi_next <$> items h !! id.
#[global] Instance moved_preorder : PreOrder moved.
Proof. split; [done|]. intros h1 h2 h3 [P1 N1] [P2 N2]. split; [by rewrite P2|]. intros id. by rewrite N2. Qed.
Lemma moved_len h h' : moved h h' → heap_Len h' = heap_Len h.
Proof. intros [P _]. by apply Permutation_length. Qed.
Lemma moved_next_of h h' id : moved h h' → next_of h' id = next_of h id.
Proof.
  intros [_ N]. specialize (N id). unfold next_of. destruct (items h' !! id), (items h !! id); cbn in N; by simplify_eq.
Qed.

Lemma next_of_set_index id i h id' : hi_next <$> items (set_index id i h) !! id' = hi_next <$> items h !! id'.
Proof.
  unfold set_index. cbn. destruct (decide (id' = id)) as [->|].
  - rewrite lookup_alter_eq. by destruct (items h !! id).
  - by rewrite lookup_alter_ne.
Qed.
Lemma set_index_lookup id i h id' : items (set_index id i h) !! id' =
  if bool_decide (id' = id) then (fun item => item <| hi_index := i |>) <$> items h !! id else items h !! id'.
Proof.
  unfold set_index. cbn. case_bool_decide as E; [subst; by rewrite lookup_alter_eq|by rewrite lookup_alter_ne].
Qed.

Section Swap.
Context (h : refreshQueue) (i j : nat).
Hypothesis wf_h : wf h.
Hypothesis i_lt : (i < heap_Len h)%nat.
Hypothesis j_lt : (j < heap_Len h)%nat.

Lemma swap_elements : ∃ a b, queue h !! i = Some a ∧ queue h !! j = Some b
  ∧ heap_Swap h i j = set_index a (Z.of_nat j) (set_index b (Z.of_nat i) (h <| queue := <[j := a]> (<[i := b]> (queue h)) |>)).
Proof.
  destruct (lookup_lt_is_Some_2 (queue h) i i_lt) as [a Ha]. destruct (lookup_lt_is_Some_2 (queue h) j j_lt) as [b Hb].
  exists a, b. unfold heap_Swap. by rewrite Ha, Hb.
Qed.
Lemma swap_lookup x : queue (heap_Swap h i j) !! x =
  if bool_decide (x = j) then queue h !! i else if bool_decide (x = i) then queue h !! j else queue h !! x.
Proof.
  destruct swap_elements as (a & b & Ha & Hb & ->). cbn. unfold heap_Len in *.
  case_bool_decide as E; [subst; rewrite list_lookup_insert_eq by (by rewrite length_insert); done|].
  rewrite list_lookup_insert_ne by congruence. case_bool_decide as E'; [subst; by rewrite list_lookup_insert_eq|].
  by rewrite list_lookup_insert_ne by congruence.
Qed.
Lemma swap_moved : moved h (heap_Swap h i j).
Proof.
  destruct swap_elements as (a & b & Ha & Hb & E). split.
  - rewrite E. cbn. clear E. destruct (decide (i = j)) as [<-|Hne].
    + simplify_eq. rewrite list_insert_insert_eq, list_insert_id by done. done.
    + apply Permutation_inj. split; [by rewrite !length_insert|].
      exists (fun x => if bool_decide (x = j) then i else if bool_decide (x = i) then j else x). split.
      * intros x y. repeat case_bool_decide; intros; congruence.
      * intros x. pose proof swap_lookup x as Hx. destruct swap_elements as (a' & b' & Ha' & Hb' & E'). rewrite E' in Hx. cbn in Hx.
        simplify_eq. rewrite Hx. by repeat case_bool_decide.
  - intros id. rewrite E, !next_of_set_index. done.
Qed.
Lemma swap_next_at x : next_at (heap_Swap h i j) x =
  if bool_decide (x = j) then next_at h i else if bool_decide (x = i) then next_at h j else next_at h x.
Proof.
  unfold next_at. rewrite swap_lookup. repeat case_bool_decide; case_match; try done; by rewrite (moved_next_of _ _ _ swap_moved).
Qed.
Lemma swap_swapped : swapped i j (next_at h) (next_at (heap_Swap h i j)).
Proof.
  split_and!; [|by rewrite swap_next_at, bool_decide_true|intros x Hi Hj; by rewrite swap_next_at, !bool_decide_false].
  rewrite swap_next_at. case_bool_decide as E; [by subst|]. by rewrite bool_decide_true.
Qed.
Lemma swap_wf : wf (heap_Swap h i j).
Proof.
  destruct swap_moved as [P N]. split.
  - rewrite P. apply wf_h.
  - intros id. rewrite P, <- (wf_items h wf_h id). specialize (N id).
    destruct (items (heap_Swap h i j) !! id), (items h !! id); cbn in N; try done; split; by eexists.
  - intros x id item Hx Hid. pose proof (wf_nodup h wf_h) as Hnd. rewrite swap_lookup in Hx.
    destruct swap_elements as (a & b & Ha & Hb & E). rewrite E in Hid.
    assert (∀ u v w, queue h !! u = Some w → queue h !! v = Some w → u = v) as Hinj by (intros; by eapply NoDup_lookup).
    rewrite !set_index_lookup in Hid. cbn [items set eta refreshQueue_eta] in Hid.
    repeat case_bool_decide; simplify_eq; try (apply fmap_Some in Hid as (y & Hy & ->); cbn; f_equal);
      try (apply fmap_Some in Hy as (z & Hz & ->)); cbn in *; try done; try (by eapply wf_index);
      first [by eapply Hinj|match goal with Ne : ?x ≠ ?y, H1 : queue h !! ?x = _, H2 : queue h !! ?y = _ |- _ => destruct (Ne (Hinj _ _ _ H1 H2)) end].
Qed.
End Swap.

(** ** The loops *)

(** What a loop below [n] does: it permutes the first [n] places. *)
Record permuted (n : nat) (h h' : refreshQueue) : Prop := {
  permuted_wf : wf h';
  permuted_moved : moved h h';
  permuted_rest x : (n ≤ x)%nat → queue h' !! x = queue h !! x;
}.
Lemma permuted_refl n h : wf h → permuted n h h.
Proof. by split. Qed.
Lemma permuted_trans n h1 h2 h3 : permuted n h1 h2 → permuted n h2 h3 → permuted n h1 h3.
Proof.
  intros [W1 M1 R1] [W2 M2 R2]. split; [done|by etransitivity|]. intros x Hx. by rewrite R2, R1.
Qed.
Lemma permuted_swap n h i j : wf h → (n ≤ heap_Len h)%nat → (i < n)%nat → (j < n)%nat → permuted n h (heap_Swap h i j).
Proof.
  intros Hw Hn Hi Hj. split; [apply swap_wf; done || lia|apply swap_moved; lia|].
  intros x Hx. rewrite swap_lookup by lia. by rewrite !bool_decide_false by lia.
Qed.

Lemma heap_Less_spec h i j : heap_Less h i j = true ↔ next_at h i < next_at h j.
Proof. unfold heap_Less. apply before_spec. Qed.
Lemma parent_of j : (0 < j)%nat → child ((j - 1) / 2) j.
Proof.
  intros Hj. unfold child. pose proof (Nat.div_mod_eq (j - 1) 2). pose proof (Nat.mod_upper_bound (j - 1) 2 ltac:(lia)). lia.
Qed.
Lemma parent_unique p q c : child p c → child q c → p = q.
Proof. unfold child. lia. Qed.

Lemma up_spec fuel h j n : wf h → (n ≤ heap_Len h)%nat → (j < n)%nat → (j < fuel)%nat →
  hole n j (next_at h) → children_ok n j (next_at h) →
  permuted n h (up fuel h j) ∧ ordered n (next_at (up fuel h j)).
Proof.
  revert h j. induction fuel as [|fuel IH]; intros h j Hw Hn Hj Hf Hh Hc; [lia|]. cbn [up].
  destruct ((_ =? j)%nat || negb _) eqn:Hstop.
  - split; [by apply permuted_refl|]. apply (hole_ordered n j); [done| |done]. intros p Hp.
    assert (0 < j)%nat as Hpos by (unfold child in Hp; lia). pose proof (parent_unique _ p j (parent_of j Hpos) Hp) as E.
    rewrite E in Hstop.
    apply orb_true_iff in Hstop as [Hs|Hs]; [apply Nat.eqb_eq in Hs; unfold child in Hp; lia|].
    apply negb_true_iff, not_true_iff_false in Hs. rewrite heap_Less_spec in Hs. lia.
  - apply orb_false_iff in Hstop as [Hs Hl]. apply Nat.eqb_neq in Hs. apply negb_false_iff, heap_Less_spec in Hl.
    assert (0 < j)%nat as Hpos by (destruct j; [done|lia]). pose proof (parent_of j Hpos) as Hp. set (i := ((j - 1) / 2)%nat) in *.
    assert (i < j)%nat as Hij by (unfold child in Hp; lia).
    pose proof (permuted_swap n h i j Hw Hn ltac:(lia) Hj) as Hps.
    destruct (rise n i j _ _ Hh Hc Hp Hj Hl (swap_swapped h i j ltac:(lia) ltac:(lia))) as [Hh' Hc'].
    destruct (IH (heap_Swap h i j) i) as [H1 H2]; try done; try lia; [apply Hps|by rewrite (moved_len _ _ (permuted_moved _ _ _ Hps))|].
    split; [by eapply permuted_trans|done].
Qed.

Lemma smaller_child_spec h i n : (2 * i + 1 < n)%nat →
  let j := smaller_child h i n in
  child i j ∧ (j < n)%nat ∧ ∀ c, child i c → (c < n)%nat → next_at h j ≤ next_at h c.
Proof.
  intros Hn. cbv zeta. unfold smaller_child. destruct ((_ <? n)%nat && _) eqn:E.
  - apply andb_true_iff in E as [E1 E2]. apply Nat.ltb_lt in E1. apply heap_Less_spec in E2. split; [right; lia|]. split; [lia|].
    intros c [->| ->] Hc; [lia|]. replace (S (2 * i + 1)) with (2 * i + 2)%nat by lia. done.
  - split; [by left|]. split; [done|]. intros c [->| ->] Hc; [done|].
    apply andb_false_iff in E as [E|E]; [apply Nat.ltb_ge in E; lia|].
    replace (S (2 * i + 1)) with (2 * i + 2)%nat in E by lia. apply not_true_iff_false in E. rewrite heap_Less_spec in E. lia.
Qed.

Lemma down_spec fuel h i n : wf h → (n ≤ heap_Len h)%nat → (i < n)%nat → (n < fuel + i)%nat → hole n i (next_at h) →
  let '(h', i') := down fuel h i n in
  permuted n h h' ∧ (i' < n)%nat ∧ hole n i' (next_at h') ∧ children_ok n i' (next_at h')
  ∧ ((i' = i ∧ h' = h) ∨ ((i < i')%nat ∧ parent_ok i' (next_at h'))).
Proof.
  revert h i. induction fuel as [|fuel IH]; intros h i Hw Hn Hi Hf Hh; [lia|]. cbn [down].
  destruct (n <=? 2 * i + 1)%nat eqn:Hleaf.
  { apply Nat.leb_le in Hleaf. split_and!; [by apply permuted_refl|done|done| |by left]. intros c Hc Hcn. unfold child in Hc. lia. }
  apply Nat.leb_gt in Hleaf. destruct (smaller_child_spec h i n Hleaf) as (Hij & Hj & Hmin). set (j := smaller_child h i n) in *.
  destruct (negb (heap_Less h j i)) eqn:Hl.
  { apply negb_true_iff, not_true_iff_false in Hl. rewrite heap_Less_spec in Hl.
    split_and!; [by apply permuted_refl|done|done| |by left]. intros c Hc Hcn. specialize (Hmin c Hc Hcn). lia. }
  apply negb_false_iff, heap_Less_spec in Hl. pose proof (permuted_swap n h i j Hw Hn Hi Hj) as Hps.
  destruct (sink n i j _ _ Hh Hij Hj Hmin Hl (swap_swapped h i j ltac:(lia) ltac:(lia))) as [Hh' Hp'].
  assert (i < j)%nat as Hlt by (unfold child in Hij; lia).
  specialize (IH (heap_Swap h i j) j). destruct (down fuel (heap_Swap h i j) j n) as [h' i'].
  destruct IH as (I1 & I2 & I3 & I4 & I5); [apply Hps|by rewrite (moved_len _ _ (permuted_moved _ _ _ Hps))|done|lia|done|].
  split_and!; [by eapply permuted_trans|done..|]. right. destruct I5 as [[-> ->]|[I5 I6]]; [done|]. split; [lia|done].
Qed.

(** Sifting an item whose time changed. *)
Definition sift (h : refreshQueue) (i n : nat) : refreshQueue :=
  let '(h, moved) := heap_down h i n in if moved then h else heap_up h i.
Lemma sift_spec h i n : wf h → (n ≤ heap_Len h)%nat → (i < n)%nat → hole n i (next_at h) →
  permuted n h (sift h i n) ∧ ordered n (next_at (sift h i n)).
Proof.
  intros Hw Hn Hi Hh. unfold sift, heap_down, heap_up. pose proof (down_spec (S n) h i n Hw Hn Hi ltac:(lia) Hh) as H.
  destruct (down (S n) h i n) as [h' i']. destruct H as (H1 & H2 & H3 & H4 & [[-> ->]|[H5 H6]]).
  - rewrite (proj2 (Nat.ltb_ge i i)) by lia. by apply up_spec; try done; lia.
  - rewrite (proj2 (Nat.ltb_lt i i')) by lia. split; [done|]. by apply (hole_ordered n i').
Qed.

(** ** The operations *)

(** What is scheduled, whatever the order of the queue. *)
Definition schedule (h : refreshQueue) : gmap string time := hi_next <$> items h.
Record heap_ok (h : refreshQueue) : Prop := {
  heap_wf : wf h;
  heap_ordered : ordered (heap_Len h) (next_at h);
}.
(** [delete(l.index, id)]. *)
Definition index_delete (id : string) (h : refreshQueue) : refreshQueue := h <| items := delete id (items h) |>.
(** [item.next = next]. *)
Definition set_next (id : string) (next : time) (h : refreshQueue) : refreshQueue :=
  h <| items := alter (fun item => item <| hi_next := next |>) id (items h) |>.

Lemma schedule_moved h h' : moved h h' → schedule h' = schedule h.
Proof. intros [_ N]. apply map_eq. intros id. unfold schedule. by rewrite !lookup_fmap. Qed.
Lemma schedule_spec h id : schedule h !! id = hi_next <$> items h !! id.
Proof. apply lookup_fmap. Qed.
Lemma schedule_next h id t : schedule h !! id = Some t → next_of h id = t.
Proof. rewrite schedule_spec. unfold next_of. destruct (items h !! id); cbn; naive_solver. Qed.
Lemma schedule_queue h id : wf h → id ∈ queue h ↔ is_Some (schedule h !! id).
Proof. intros Hw. rewrite <- (wf_items h Hw). rewrite schedule_spec. by rewrite fmap_is_Some. Qed.
Lemma schedule_at h i id : wf h → queue h !! i = Some id → schedule h !! id = Some (next_at h i).
Proof.
  intros Hw Hi. assert (is_Some (items h !! id)) as [item E] by (apply (wf_items h Hw); by eapply list_elem_of_lookup_2).
  rewrite schedule_spec. unfold next_at, next_of. by rewrite Hi, E.
Qed.
Lemma index_of h id item : wf h → items h !! id = Some item →
  ∃ i, hi_index item = Z.of_nat i ∧ (i < heap_Len h)%nat ∧ queue h !! i = Some id.
Proof.
  intros Hw E. destruct (list_elem_of_lookup_1 (queue h) id) as [i Hi]; [apply (wf_items h Hw); by eexists|].
  exists i. split; [by eapply wf_index|]. split; [by eapply lookup_lt_Some|done].
Qed.
Lemma child_lt p c : child p c → (p < c)%nat.
Proof. unfold child. lia. Qed.
Lemma no_parent_of_0 k : parent_ok 0 k.
Proof. intros p Hp. apply child_lt in Hp. lia. Qed.
(** The root is the earliest. *)
Lemma ordered_root n k i : ordered n k → (i < n)%nat → k 0%nat ≤ k i.
Proof.
  intros Ho. induction (lt_wf i) as [i _ IH]. intros Hi. destruct (decide (i = 0%nat)) as [->|]; [done|].
  pose proof (parent_of i ltac:(lia)) as Hp. transitivity (k ((i - 1) / 2)%nat); [|by apply Ho].
  apply child_lt in Hp. apply IH; lia.
Qed.
Lemma swap_hole n i k k' : ordered (S n) k → (i < n)%nat → swapped i n k k' → hole n i k'.
Proof.
  intros Ho Hi (E1 & E2 & E3). split.
  - intros p c Hpc Hc Hp Hci. apply child_lt in Hpc as Hlt. rewrite !E3 by lia. apply Ho; [done|lia].
  - intros p c Hpi Hic Hc. apply child_lt in Hpi as Hlt1. apply child_lt in Hic as Hlt2. rewrite !E3 by lia.
    transitivity (k i); apply Ho; try done; lia.
Qed.
Lemma ordered_ext n k k' : (∀ i, (i < n)%nat → k i = k' i) → ordered n k → ordered n k'.
Proof. intros E Ho p c Hpc Hc. apply child_lt in Hpc as Hlt. rewrite <- !E by lia. by apply Ho. Qed.

(** Taking the last item and dropping it from the index. *)
Lemma pop_last_ok h q id : wf h → queue h = q ++ [id] → ordered (length q) (next_at h) →
  pop_last h = Some (set_index id (-1) (h <| queue := q |>), id)
  ∧ let h' := index_delete id (set_index id (-1) (h <| queue := q |>)) in
    heap_ok h' ∧ schedule h' = delete id (schedule h).
Proof.
  intros Hw Hq Ho. unfold pop_last. rewrite Hq, last_snoc, removelast_last. split; [done|]. cbv zeta.
  set (h' := index_delete _ _). pose proof (wf_nodup h Hw) as Hnd. rewrite Hq in Hnd. apply NoDup_app in Hnd as (Hn1 & Hn2 & _).
  assert (∀ id', id' ∈ q → id' ≠ id) as Hne by (intros id' Hin ->; apply (Hn2 id Hin); by left).
  assert (items h' = delete id (items h)) as Hi by (unfold h', index_delete, set_index; cbn; by rewrite delete_alter_eq).
  assert (∀ i id', q !! i = Some id' → queue h !! i = Some id') as Hl by (intros; rewrite Hq; by apply lookup_app_l_Some).
  assert (schedule h' = delete id (schedule h)) as Hs by (unfold schedule; by rewrite Hi, fmap_delete).
  split; [|done]. split; [split; cbn [queue h']|].
  - done.
  - intros id'. rewrite Hi, lookup_delete_is_Some, (wf_items h Hw), Hq, elem_of_app, list_elem_of_singleton.
    change (queue h') with q. split; [naive_solver|]. intros Hin. split; [by apply not_eq_sym, Hne|by left].
  - intros i id' item Hx Hid. change (queue h') with q in Hx. rewrite Hi in Hid. apply lookup_delete_Some in Hid as [_ Hid].
    eapply (wf_index h Hw); [by apply Hl|done].
  - change (heap_Len h') with (length q). apply (ordered_ext _ (next_at h)); [|done]. intros i Hlt.
    destruct (lookup_lt_is_Some_2 q i Hlt) as [id' Hx]. pose proof (schedule_at h i id' Hw (Hl _ _ Hx)) as Hsa.
    unfold next_at at 2. change (queue h') with q. rewrite Hx. symmetry. apply schedule_next. rewrite Hs.
    apply list_elem_of_lookup_2 in Hx. rewrite lookup_delete_ne by (by apply not_eq_sym, Hne). done.
Qed.

Lemma last_place h : (0 < heap_Len h)%nat → ∃ q id, queue h = q ++ [id] ∧ length q = (heap_Len h - 1)%nat
  ∧ queue h !! (heap_Len h - 1)%nat = Some id.
Proof.
  unfold heap_Len. intros Hlt. destruct (queue h) as [|id q _] eqn:E using rev_ind; [cbn in Hlt; lia|].
  exists q, id.
  rewrite length_app. cbn. replace (length q + 1 - 1)%nat with (length q) by lia. split_and!; [done|done|]. by apply list_lookup_middle.
Qed.

(** What is common to taking an item out: it is moved last, and the others are put in order. *)
Lemma take_out h h' i id : heap_ok h → queue h !! i = Some id → permuted (heap_Len h) h h' →
  queue h' !! (heap_Len h - 1)%nat = Some id → ordered (heap_Len h - 1) (next_at h') →
  ∃ h'', pop_last h' = Some (h'', id) ∧ heap_ok (index_delete id h'')
    ∧ schedule (index_delete id h'') = delete id (schedule h).
Proof.
  intros [Hw Ho] Hi [Hw' Hm Hr] Hl Hord. pose proof (moved_len _ _ Hm) as Hlen.
  assert (0 < heap_Len h')%nat as Hpos by (apply lookup_lt_Some in Hl; unfold heap_Len in *; lia).
  destruct (last_place h' Hpos) as (q & id' & Hq & Hlq & Hid). rewrite Hlen, Hl in Hid. injection Hid as <-.
  destruct (pop_last_ok h' q id Hw' Hq) as (E & H1 & H2); [by rewrite Hlq, Hlen|].
  eexists. split; [done|]. split; [done|]. rewrite H2. f_equal. by apply schedule_moved.
Qed.

Lemma permuted_weaken n m h h' : (n ≤ m)%nat → permuted n h h' → permuted m h h'.
Proof. intros Hle [H1 H2 H3]. split; [done|done|]. intros x Hx. apply H3. lia. Qed.

Lemma heap_Remove_ok h i id : heap_ok h → queue h !! i = Some id →
  ∃ h', heap_Remove h i = Some (h', id) ∧ heap_ok (index_delete id h')
    ∧ schedule (index_delete id h') = delete id (schedule h).
Proof.
  intros Hok Hi. pose proof Hok as [Hw Ho]. pose proof (lookup_lt_Some _ _ _ Hi) as Hlt. fold (heap_Len h) in Hlt.
  unfold heap_Remove. set (n := (heap_Len h - 1)%nat). destruct (n =? i)%nat eqn:E.
  - apply Nat.eqb_eq in E. apply (take_out h h i id); [done|done|by apply permuted_refl|by fold n; rewrite E|].
    intros p c Hp Hc. apply Ho; [done|]. lia.
  - apply Nat.eqb_neq in E. assert (i < n)%nat as Hin by lia. assert (n < heap_Len h)%nat as Hn by lia.
    change (∃ h', pop_last (sift (heap_Swap h i n) i n) = Some (h', id) ∧ heap_ok (index_delete id h')
      ∧ schedule (index_delete id h') = delete id (schedule h)).
    pose proof (permuted_swap (heap_Len h) h i n Hw ltac:(lia) Hlt Hn) as Hs.
    pose proof (moved_len _ _ (permuted_moved _ _ _ Hs)) as Hlen.
    destruct (sift_spec (heap_Swap h i n) i n) as [Hp Hord]; [apply Hs|lia|done| |].
    { apply (swap_hole n i (next_at h)); [|done|by apply swap_swapped]. replace (S n) with (heap_Len h) by lia. done. }
    apply (take_out h _ i id); [done|done| | |done].
    + eapply permuted_trans; [done|]. by apply (permuted_weaken n); [lia|].
    + fold n. rewrite (permuted_rest _ _ _ Hp) by done. rewrite swap_lookup by done. by rewrite bool_decide_true.
Qed.

(** [Pop] gives an item with the earliest time. *)
Lemma heap_Pop_ok h id : heap_ok h → queue h !! 0%nat = Some id →
  ∃ h', heap_Pop h = Some (h', id) ∧ heap_ok (index_delete id h')
    ∧ schedule (index_delete id h') = delete id (schedule h).
Proof.
  intros Hok Hi. pose proof Hok as [Hw Ho]. pose proof (lookup_lt_Some _ _ _ Hi) as Hlt. fold (heap_Len h) in Hlt.
  unfold heap_Pop, heap_down. set (n := (heap_Len h - 1)%nat). assert (n < heap_Len h)%nat as Hn by lia.
  pose proof (permuted_swap (heap_Len h) h 0 n Hw ltac:(lia) Hlt Hn) as Hs.
  pose proof (moved_len _ _ (permuted_moved _ _ _ Hs)) as Hlen. assert (heap_Len h = S n) as HS by lia.
  assert (queue (heap_Swap h 0 n) !! n = Some id) as Hid by (rewrite swap_lookup by done; by rewrite bool_decide_true).
  destruct (decide (n = 0%nat)) as [En|].
  - apply (take_out h _ 0 id); [done|done| | |]; fold n; rewrite En in *; cbn; [done|done|]. intros p c _ Hc. lia.
  - pose proof (down_spec (S n) (heap_Swap h 0 n) 0 n (permuted_wf _ _ _ Hs) ltac:(lia) ltac:(lia) ltac:(lia)) as Hd.
    destruct (down (S n) (heap_Swap h 0 n) 0 n) as [h' i']. cbn [fst].
    destruct Hd as (Hp & Hi' & Hhole & Hc & Hend); [apply (swap_hole n 0 (next_at h)); [by rewrite <- HS|lia|by apply swap_swapped]|].
    apply (take_out h _ 0 id); [done|done| | |]; fold n.
    + eapply permuted_trans; [done|]. by apply (permuted_weaken n); [lia|].
    + by rewrite (permuted_rest _ _ _ Hp).
    + apply (hole_ordered n i'); [done| |done]. destruct Hend as [[-> ->]|[_ H]]; [apply no_parent_of_0|done].
Qed.

Lemma permuted_ok n h h' : permuted n h h' → ordered (heap_Len h) (next_at h') → heap_ok h' ∧ schedule h' = schedule h.
Proof.
  intros [Hw Hm _] Ho. split; [|by apply schedule_moved]. split; [done|]. by rewrite (moved_len _ _ Hm).
Qed.

Lemma push_last_wf h id next : wf h → items h !! id = None → wf (push_last id next h).
Proof.
  intros Hw Hid. assert (id ∉ queue h) as Hnot by (rewrite <- (wf_items h Hw), Hid; by intros [? [=]]).
  unfold push_last. split; cbn.
  - apply NoDup_app. split; [apply Hw|]. split; [|apply NoDup_singleton]. intros x Hx ->%list_elem_of_singleton. done.
  - intros id'. rewrite elem_of_app, list_elem_of_singleton, <- (wf_items h Hw).
    destruct (decide (id' = id)) as [->|]; [rewrite lookup_insert_eq; naive_solver|]. rewrite lookup_insert_ne by done. naive_solver.
  - intros i id' item Hx Hit. apply lookup_app_Some in Hx as [Hx|[Hle Hx]].
    + rewrite lookup_insert_ne in Hit by (intros <-; apply Hnot; by eapply list_elem_of_lookup_2). by eapply (wf_index h Hw).
    + apply list_lookup_singleton_Some in Hx as [Hx <-]. rewrite lookup_insert_eq in Hit. injection Hit as <-. cbn.
      unfold heap_Len. lia.
Qed.
Lemma heap_Push_ok h id next : heap_ok h → items h !! id = None →
  heap_ok (heap_Push id next h) ∧ schedule (heap_Push id next h) = <[id := next]> (schedule h).
Proof.
  intros [Hw Ho] Hid. unfold heap_Push, heap_up. pose proof (push_last_wf h id next Hw Hid) as Hw'.
  set (h' := push_last id next h) in *. set (n := heap_Len h).
  assert (heap_Len h' = S n) as Hlen by (unfold heap_Len, h', push_last; cbn; rewrite length_app; unfold n, heap_Len; cbn; lia).
  assert (schedule h' = <[id := next]> (schedule h)) as Hs by (unfold schedule, h', push_last; cbn; by rewrite fmap_insert).
  assert (∀ i, (i < n)%nat → next_at h i = next_at h' i) as Hk.
  { intros i Hi. destruct (lookup_lt_is_Some_2 (queue h) i Hi) as [id' Hx].
    assert (id' ≠ id) as Hne by (intros ->; apply list_elem_of_lookup_2, (wf_items h Hw) in Hx; rewrite Hid in Hx; by destruct Hx).
    unfold next_at. rewrite Hx. unfold h' at 1, push_last at 1. cbn [queue set eta refreshQueue_eta].
    rewrite lookup_app_l by done. rewrite Hx. symmetry. apply schedule_next. rewrite Hs, lookup_insert_ne by done.
    rewrite (schedule_at h i id' Hw Hx). unfold next_at. by rewrite Hx. }
  apply (ordered_ext _ _ _ Hk) in Ho. rewrite Hlen. replace (S n - 1)%nat with n by lia.
  destruct (up_spec (S n) h' n (S n) Hw') as [Hp Hord]; [lia|lia|lia| | |].
  - split; [|intros p c _ Hc%child_lt; lia]. intros p c Hpc Hc _ Hcn. apply Ho; [done|lia].
  - intros c Hc%child_lt. lia.
  - destruct (permuted_ok _ _ _ Hp) as [H1 H2]; [by rewrite Hlen|]. split; [done|]. by rewrite H2.
Qed.

Lemma set_next_lookup h id next id' : items (set_next id next h) !! id' =
  if bool_decide (id' = id) then (fun item => item <| hi_next := next |>) <$> items h !! id else items h !! id'.
Proof. unfold set_next. cbn. case_bool_decide as E; [subst; by rewrite lookup_alter_eq|by rewrite lookup_alter_ne]. Qed.
Lemma set_next_wf h id next : wf h → wf (set_next id next h).
Proof.
  intros Hw. split; [apply Hw| |].
  - intros id'. rewrite set_next_lookup. change (queue (set_next id next h)) with (queue h). rewrite <- (wf_items h Hw).
    case_bool_decide as E; [subst; by rewrite fmap_is_Some|done].
  - intros i id' item Hx. rewrite set_next_lookup. case_bool_decide as E; [|by apply (wf_index h Hw)]. subst.
    intros (y & Hy & ->)%fmap_Some. cbn. by eapply (wf_index h Hw).
Qed.
Lemma set_next_schedule h id next : is_Some (items h !! id) → schedule (set_next id next h) = <[id := next]> (schedule h).
Proof.
  intros [item E]. apply map_eq. intros id'. rewrite schedule_spec, set_next_lookup. case_bool_decide as Eid.
  - subst. by rewrite E, lookup_insert_eq.
  - by rewrite lookup_insert_ne, schedule_spec.
Qed.
Lemma heap_Fix_ok h i id next : heap_ok h → queue h !! i = Some id →
  let h' := heap_Fix (set_next id next h) i in heap_ok h' ∧ schedule h' = <[id := next]> (schedule h).
Proof.
  intros [Hw Ho] Hi. cbv zeta. pose proof (lookup_lt_Some _ _ _ Hi) as Hlt. fold (heap_Len h) in Hlt.
  assert (is_Some (items h !! id)) as Hid by (apply (wf_items h Hw); by eapply list_elem_of_lookup_2).
  pose proof (set_next_wf h id next Hw) as Hw'. pose proof (set_next_schedule h id next Hid) as Hs.
  set (h' := set_next id next h) in *. change (heap_Fix h' i) with (sift h' i (heap_Len h')).
  assert (∀ x, x ≠ i → (x < heap_Len h)%nat → next_at h x = next_at h' x) as Hk.
  { intros x Hx Hlx. destruct (lookup_lt_is_Some_2 (queue h) x Hlx) as [id' E]. pose proof (schedule_at h x id' Hw E) as Ex.
    assert (id' ≠ id) as Hne by (intros ->; apply Hx; by eapply (NoDup_lookup _ _ _ _ (wf_nodup h Hw))).
    unfold next_at at 2. change (queue h') with (queue h). rewrite E. symmetry. apply schedule_next. by rewrite Hs, lookup_insert_ne. }
  change (heap_Len h') with (heap_Len h). destruct (sift_spec h' i (heap_Len h)) as [Hp Hord]; try done.
  - split.
    + intros p c Hpc Hc Hp1 Hc1. apply child_lt in Hpc as Hltc. rewrite <- !Hk by lia. by apply Ho.
    + intros p c Hp1 Hc1 Hc. apply child_lt in Hp1 as Hl1. apply child_lt in Hc1 as Hl2. rewrite <- !Hk by lia.
      transitivity (next_at h i); apply Ho; try done; lia.
  - destruct (permuted_ok _ _ _ Hp Hord) as [H1 H2]. split; [done|]. by rewrite H2.
Qed.

Lemma empty_queue_ok : heap_ok empty_queue.
Proof.
  split; [split; cbn; [constructor|intros id; rewrite lookup_empty; split; [intros [? [=]]|by intros ?%not_elem_of_nil]|done]|].
  intros p c _ Hc. cbn in Hc. lia.
Qed.

End RefreshHeap.
