(* ===== verification/RefreshLoop.v ===== *)
(** * The refresh loop: sdk/cliproxy/auth/auto_refresh_loop.go and the refresh jobs
    of conductor_refresh.go

    The manager, its loops and its jobs are one state.  A job is a pointer into
    [jobs]: the manager and a channel may share it.  The loop reads a credential under
    one lock and acts on it under another: [read_due] and [act_due] are two steps, and
    [handleDueAuth] is one after the other. *)
From S2P Require Import Prelude GoLib AuthTypes Expiry Classify Scheduler RefreshDue RefreshHeap.
Import AuthTypes Expiry Classify Scheduler RefreshDue RefreshHeap.

Module RefreshLoop.

Definition maxRefreshTimerWait : duration := 30 * second.
Definition refreshMaxConcurrency : Z := 16.
Definition refreshPendingBackoff : duration := minute.

Record authRefreshJob : Type := {
  jb_id : string;
  jb_registrationEpoch : Z;
  jb_pendingUntil : time;
  jb_loop : nat;
  jb_running : bool;
}.
#[global] Instance authRefreshJob_eta : Eta authRefreshJob := fun j =>
  {| jb_id := jb_id j; jb_registrationEpoch := jb_registrationEpoch j; jb_pendingUntil := jb_pendingUntil j;
     jb_loop := jb_loop j; jb_running := jb_running j |}.

(** [lp_heap]: the fields [queue] and [index]; [lp_wake]: a message waits in [wakeCh]. *)
Record authAutoRefreshLoop : Type := {
  lp_interval : duration;
  lp_concurrency : Z;
  lp_heap : refreshQueue;
  lp_dirty : gset string;
  lp_wake : bool;
  lp_jobs : list nat;
  lp_buffer : Z;
}.
#[global] Instance authAutoRefreshLoop_eta : Eta authAutoRefreshLoop := fun l =>
  {| lp_interval := lp_interval l; lp_concurrency := lp_concurrency l; lp_heap := lp_heap l; lp_dirty := lp_dirty l;
     lp_wake := lp_wake l; lp_jobs := lp_jobs l; lp_buffer := lp_buffer l |}.

(** The part of the manager the loop uses; [working]: the jobs its workers hold. *)
Record refreshManager : Type := {
  auths : gmap string Auth;
  homeEnabled : bool;
  executors : gset string;
  refreshJobs : gmap string nat;
  jobs : gmap nat authRefreshJob;
  next_job : nat;
  loops : gmap nat authAutoRefreshLoop;
  refreshLoop : option nat;
  working : gset nat;
}.
#[global] Instance refreshManager_eta : Eta refreshManager := fun m =>
  {| auths := auths m; homeEnabled := homeEnabled m; executors := executors m; refreshJobs := refreshJobs m;
     jobs := jobs m; next_job := next_job m; loops := loops m; refreshLoop := refreshLoop m; working := working m |}.

Definition newAuthAutoRefreshLoop (interval : duration) (concurrency : Z) : authAutoRefreshLoop :=
  let interval := if interval <=? 0 then refreshCheckInterval else interval in
  let concurrency := if concurrency <=? 0 then refreshMaxConcurrency else concurrency in
  let jobBuffer := wrap64 (concurrency * 4) in
  let jobBuffer := if jobBuffer <? 64 then 64 else jobBuffer in
  {| lp_interval := interval; lp_concurrency := concurrency; lp_heap := empty_queue; lp_dirty := ∅; lp_wake := false;
     lp_jobs := []; lp_buffer := jobBuffer |}.

(** ** The queue of the loop *)

Definition queueReschedule (authID : string) (l : authAutoRefreshLoop) : authAutoRefreshLoop :=
  if String.eqb authID "" then l else l <| lp_dirty := {[authID]} ∪ lp_dirty l |> <| lp_wake := true |>.
Definition upsert_item (id : string) (next : time) (h : refreshQueue) : refreshQueue :=
  match items h !! id with
  | Some item => heap_Fix (set_next id next h) (Z.to_nat (hi_index item))
  | None => heap_Push id next h
  end.
Definition upsert (authID : string) (next : time) (l : authAutoRefreshLoop) : authAutoRefreshLoop :=
  if String.eqb authID "" || is_zero next then l else l <| lp_heap := upsert_item authID next (lp_heap l) |>.
Definition remove_item (id : string) (h : refreshQueue) : refreshQueue :=
  match items h !! id with
  | None => h
  | Some item =>
      index_delete id (match heap_Remove h (Z.to_nat (hi_index item)) with Some (h', _) => h' | None => h end)
  end.
Definition remove (authID : string) (l : authAutoRefreshLoop) : authAutoRefreshLoop :=
  if String.eqb authID "" then l
  else l <| lp_dirty := lp_dirty l ∖ {[authID]} |> <| lp_heap := remove_item authID (lp_heap l) |>.
Definition peek (h : refreshQueue) : option time := next_of h <$> head (queue h).
Definition nextWait (now : time) (h : refreshQueue) : option duration :=
  match peek h with
  | None => None
  | Some next =>
      let wait := time_sub next now in
      let wait := if wait <? 0 then 0 else wait in
      Some (if maxRefreshTimerWait <? wait then maxRefreshTimerWait else wait)
  end.
Fixpoint pop_while_due (fuel : nat) (now : time) (h : refreshQueue) : refreshQueue * list string :=
  match fuel with
  | O => (h, [])
  | S fuel =>
      match head (queue h) with
      | None => (h, [])
      | Some id =>
          if after (next_of h id) now then (h, [])
          else match heap_Pop h with
               | None => (h, [])
               | Some (h, popped) =>
                   let '(h, due) := pop_while_due fuel now (index_delete popped h) in (h, popped :: due)
               end
      end
  end.
Definition popDue (now : time) (h : refreshQueue) : refreshQueue * list string := pop_while_due (heap_Len h) now h.

(** ** Jobs *)

Definition modify_loop (l : nat) (f : authAutoRefreshLoop → authAutoRefreshLoop) (m : refreshManager) : refreshManager :=
  m <| loops := alter f l (loops m) |>.
Definition queueRefreshReschedule (authID : string) (m : refreshManager) : refreshManager :=
  match refreshLoop m with Some l => modify_loop l (queueReschedule authID) m | None => m end.
Definition queueRefreshUnschedule (authID : string) (m : refreshManager) : refreshManager :=
  match refreshLoop m with Some l => modify_loop l (remove authID) m | None => m end.
Definition set_next_refresh (next now : time) (a : Auth) : Auth :=
  a <| a_NextRefreshAfter := next |> <| a_Generation := wrapu64 (a_Generation a + 1) |> <| a_UpdatedAt := now |>.
Definition pending_refused (m : refreshManager) (id : string) (epoch : Z) (now : time) : bool :=
  match auths m !! id with
  | None => true
  | Some auth =>
      negb (a_RegistrationEpoch auth =? epoch) || hasUnauthorizedAuthFailure auth || hasDisabledInvalidGrantFailure auth
      || bool_decide (is_Some (refreshJobs m !! id))
      || (negb (is_zero (a_NextRefreshAfter auth)) && before now (a_NextRefreshAfter auth))
  end.
Definition markRefreshPending (l : nat) (id : string) (epoch : Z) (now : time) (m : refreshManager) :
    refreshManager * option nat :=
  if pending_refused m id epoch now then (m, None)
  else
    let j := next_job m in
    let job := {| jb_id := id; jb_registrationEpoch := epoch; jb_pendingUntil := now + refreshPendingBackoff; jb_loop := l;
                  jb_running := false |} in
    let m := m <| jobs := <[j := job]> (jobs m) |> <| next_job := S j |> <| refreshJobs := <[id := j]> (refreshJobs m) |>
               <| auths := alter (set_next_refresh (jb_pendingUntil job) now) id (auths m) |> in
    (queueRefreshReschedule id m, Some j).
(** [clock]: the time when the job is finished. *)
Definition finishRefreshJob (j : nat) (retryAt : time) (queuedOnly : bool) (clock : time) (m : refreshManager) : refreshManager :=
  match jobs m !! j with
  | None => m
  | Some job =>
      if bool_decide (refreshJobs m !! jb_id job ≠ Some j) || (queuedOnly && jb_running job) then m
      else
        let m := m <| refreshJobs := delete (jb_id job) (refreshJobs m) |> in
        let m := match auths m !! jb_id job with
                 | Some auth =>
                     if (a_RegistrationEpoch auth =? jb_registrationEpoch job)
                        && time_eq (a_NextRefreshAfter auth) (jb_pendingUntil job)
                     then m <| auths := <[jb_id job := set_next_refresh retryAt clock auth]> (auths m) |>
                     else m
                 | None => m
                 end in
        queueRefreshReschedule (jb_id job) m
  end.
Definition beginRefreshJob (ctx_done : bool) (j : nat) (m : refreshManager) : refreshManager * bool :=
  match jobs m !! j with
  | None => (m, false)
  | Some job =>
      let refused := match auths m !! jb_id job with
                     | None => true
                     | Some auth => negb (a_RegistrationEpoch auth =? jb_registrationEpoch job)
                     end in
      if ctx_done || bool_decide (refreshJobs m !! jb_id job ≠ Some j) || refused then (m, false)
      else (m <| jobs := <[j := job <| jb_running := true |>]> (jobs m) |>, true)
  end.

(** ** The handlers *)

(** The executor registered for a provider: its key. *)
Definition executorLocked (executors : gset string) (provider : string) : option string :=
  let provider := trim_space provider in
  let lowerProvider := to_lower provider in
  if String.eqb provider "" then None
  else if bool_decide (provider ∈ executors) then Some provider
  else if bool_decide (lowerProvider ∈ executors) then Some lowerProvider
  else if bool_decide (lowerProvider ∈ ["kimi-ai"; "kimi.ai"; "kimi.com"]) && bool_decide ("kimi" ∈ executors) then Some "kimi"
  else None.

Section RefreshLoop.
Context `{GP : GoParse} `{RT : RefreshRuntime}.

Definition loop_interval (l : nat) (m : refreshManager) : duration :=
  match loops m !! l with Some lp => lp_interval lp | None => 0 end.
(** [nextRefreshCheckAt] of the credential under an identifier. *)
Definition next_check (l : nat) (now : time) (id : string) (m : refreshManager) : option time :=
  auth ← auths m !! id; manager_nextRefreshCheckAt (homeEnabled m) now auth (loop_interval l m).
(** [upsert] or [remove], for the answer of [nextRefreshCheckAt]. *)
Definition reschedule (id : string) (next : option time) : authAutoRefreshLoop → authAutoRefreshLoop :=
  match next with Some next => upsert id next | None => remove id end.

(** What [handleDueAuth] reads under the lock of the manager. *)
Record due_reading : Type := {
  rd_next : option time;
  rd_shouldRefresh : bool;
  rd_exec : bool;
  rd_epoch : Z;
}.
Definition read_due (l : nat) (now : time) (id : string) (m : refreshManager) : option due_reading :=
  auth ← auths m !! id;
  Some {| rd_next := manager_nextRefreshCheckAt (homeEnabled m) now auth (loop_interval l m);
          rd_shouldRefresh := shouldRefresh (homeEnabled m) auth now;
          rd_exec := bool_decide (is_Some (executorLocked (executors m) (executorKeyFromAuth auth)));
          rd_epoch := a_RegistrationEpoch auth |}.
Definition has_room (l : nat) (m : refreshManager) : bool :=
  match loops m !! l with Some lp => Z.of_nat (length (lp_jobs lp)) <? lp_buffer lp | None => false end.
Definition send_job (j : nat) (lp : authAutoRefreshLoop) : authAutoRefreshLoop := lp <| lp_jobs := lp_jobs lp ++ [j] |>.
Definition act_due (l : nat) (ctx_done : bool) (now clock : time) (id : string) (r : due_reading) (m : refreshManager) :
    refreshManager :=
  let retryAt := now + loop_interval l m in
  match rd_next r with
  | None => modify_loop l (remove id) m
  | Some next =>
      if negb (rd_shouldRefresh r) then modify_loop l (upsert id next) m
      else if negb (rd_exec r) then modify_loop l (upsert id retryAt) m
      else
        let '(m, job) := markRefreshPending l id (rd_epoch r) now m in
        match job with
        | None =>
            modify_loop l (reschedule id ((fun next => if negb (after next now) then retryAt else next) <$> next_check l now id m)) m
        | Some j =>
            if negb ctx_done && has_room l m then modify_loop l (send_job j) m
            else modify_loop l (upsert id retryAt) (finishRefreshJob j retryAt false clock m)
        end
  end.
Definition handleDueAuth (l : nat) (ctx_done : bool) (now clock : time) (id : string) (m : refreshManager) : refreshManager :=
  if String.eqb id "" then m
  else match read_due l now id m with Some r => act_due l ctx_done now clock id r m | None => m end.
Definition pop_due_at (l : nat) (now : time) (m : refreshManager) : refreshManager * list string :=
  match loops m !! l with
  | None => (m, [])
  | Some lp => let '(h, due) := popDue now (lp_heap lp) in (modify_loop l (fun lp => lp <| lp_heap := h |>) m, due)
  end.
Definition handleDue (l : nat) (ctx_done : bool) (now clock : time) (m : refreshManager) : refreshManager :=
  let '(m, due) := pop_due_at l now m in
  foldl (fun m id => handleDueAuth l ctx_done now clock id m) m due.

(** [order]: in which order the runtime ranges over a map. *)
Definition applyDirty (order : gset string → list string) (l : nat) (now : time) (m : refreshManager) : refreshManager :=
  match loops m !! l with
  | None => m
  | Some lp =>
      let dirty := order (lp_dirty lp) in
      let m := modify_loop l (fun lp => lp <| lp_dirty := ∅ |>) m in
      foldl (fun m id => modify_loop l (reschedule id (next_check l now id m)) m) m dirty
  end.
Definition rebuild (order : gset string → list string) (l : nat) (now : time) (m : refreshManager) : refreshManager :=
  let entries := omap (fun id => next ← next_check l now id m; Some (id, next)) (order (dom (auths m))) in
  modify_loop l (fun lp => lp <| lp_heap := foldl (fun h e => heap_Push e.1 e.2 h) empty_queue entries |>) m.
Definition clear_wake (l : nat) : refreshManager → refreshManager := modify_loop l (fun lp => lp <| lp_wake := false |>).
(** The two cases of [loop]. *)
Definition on_wake (order : gset string → list string) (l : nat) (now : time) (m : refreshManager) : refreshManager :=
  applyDirty order l now (clear_wake l m).
Definition on_timer (order : gset string → list string) (l : nat) (ctx_done : bool) (now clock : time) (m : refreshManager) :
    refreshManager :=
  applyDirty order l now (handleDue l ctx_done now clock m).

(** ** Workers *)

(** A worker receives a job, and refreshes the credential when it may begin.  The receive from the
    channel, [beginRefreshJob] and the finish after a refused begin are one step here. *)
Definition worker_take (l : nat) (ctx_done : bool) (clock : time) (m : refreshManager) : refreshManager :=
  match loops m !! l with
  | None => m
  | Some lp =>
      match lp_jobs lp with
      | [] => m
      | j :: rest =>
          let '(m, begun) := beginRefreshJob ctx_done j (modify_loop l (fun lp => lp <| lp_jobs := rest |>) m) in
          if begun then m <| working := {[j]} ∪ working m |> else finishRefreshJob j 0 false clock m
      end
  end.
Definition worker_done (j : nat) (clock : time) (m : refreshManager) : refreshManager :=
  if bool_decide (j ∈ working m) then finishRefreshJob j 0 false clock (m <| working := working m ∖ {[j]} |>) else m.
Definition queued_jobs (l : nat) (m : refreshManager) : list nat :=
  List.filter (fun j => match jobs m !! j with Some job => (jb_loop job =? l)%nat && negb (jb_running job) | None => false end)
    (map snd (map_to_list (refreshJobs m))).
Definition releaseQueuedJobs (l : nat) (clock : time) (m : refreshManager) : refreshManager :=
  foldl (fun m j => finishRefreshJob j 0 true clock m) m (queued_jobs l m).

(** [l]: a loop not in use. *)
Definition StartAutoRefresh (order : gset string → list string) (l : nat) (interval : duration) (workers : Z) (now : time)
    (m : refreshManager) : refreshManager :=
  let interval := if interval <=? 0 then refreshCheckInterval else interval in
  rebuild order l now (m <| loops := <[l := newAuthAutoRefreshLoop interval workers]> (loops m) |> <| refreshLoop := Some l |>).
Definition StopAutoRefresh (m : refreshManager) : refreshManager := m <| refreshLoop := None |>.

End RefreshLoop.

(** ** The queue is a finite map *)

Lemma upsert_item_ok id next h : heap_ok h →
  heap_ok (upsert_item id next h) ∧ schedule (upsert_item id next h) = <[id := next]> (schedule h).
Proof.
  intros Hok. unfold upsert_item. destruct (items h !! id) as [item|] eqn:E; [|by apply heap_Push_ok].
  destruct (index_of h id item (heap_wf h Hok) E) as (i & -> & _ & Hi). rewrite Nat2Z.id. by apply heap_Fix_ok.
Qed.
Lemma remove_item_ok id h : heap_ok h → heap_ok (remove_item id h) ∧ schedule (remove_item id h) = delete id (schedule h).
Proof.
  intros Hok. unfold remove_item. destruct (items h !! id) as [item|] eqn:E.
  - destruct (index_of h id item (heap_wf h Hok) E) as (i & -> & _ & Hi). rewrite Nat2Z.id.
    by destruct (heap_Remove_ok h i id Hok Hi) as (h' & -> & H).
  - split; [done|]. rewrite delete_id; [done|]. by rewrite schedule_spec, E.
Qed.

Lemma root_earliest h id : heap_ok h → head (queue h) = Some id →
  schedule h !! id = Some (next_of h id) ∧ ∀ id' t, schedule h !! id' = Some t → next_of h id ≤ t.
Proof.
  intros Hok Hid. pose proof (heap_wf h Hok) as Hw. rewrite head_lookup in Hid.
  pose proof (schedule_at h 0 id Hw Hid) as H0. rewrite (schedule_next h id _ H0). split; [done|].
  intros id' t Ht. assert (id' ∈ queue h) as [i Hi]%list_elem_of_lookup_1 by (apply schedule_queue; [done|by eexists]).
  pose proof (schedule_at h i id' Hw Hi) as Hi'. rewrite Ht in Hi'. injection Hi' as ->.
  apply (ordered_root (heap_Len h)); [apply Hok|by apply lookup_lt_Some in Hi].
Qed.
Lemma no_root h : heap_ok h → head (queue h) = None → schedule h = ∅.
Proof.
  intros Hok Hn. apply map_eq. intros id. rewrite lookup_empty. destruct (schedule h !! id) as [t|] eqn:E; [|done].
  assert (id ∈ queue h) as Hin by (apply schedule_queue; [apply Hok|by eexists]). by destruct (queue h); [apply elem_of_nil in Hin|].
Qed.
Lemma schedule_size h : heap_ok h → size (schedule h) = heap_Len h.
Proof.
  intros Hok. pose proof (heap_wf h Hok) as Hw. rewrite <- size_dom. unfold heap_Len.
  rewrite <- (size_list_to_set (C := gset string) _ (wf_nodup h Hw)). f_equal. apply leibniz_equiv. intros id.
  by rewrite elem_of_dom, elem_of_list_to_set, schedule_queue.
Qed.

(** What is due at [now] goes, in the order of time; the rest stays. *)
Record due_taken (now : time) (h h' : refreshQueue) (due : list string) : Prop := {
  taken_ok : heap_ok h';
  taken_rest : schedule h' = filter (fun e => now < e.2) (schedule h);
  taken_due id : id ∈ due ↔ ∃ t, schedule h !! id = Some t ∧ t ≤ now;
  taken_once : NoDup due;
  taken_sorted : StronglySorted Z.le (map (next_of h) due);
}.
Lemma nothing_due now h : heap_ok h → (∀ id t, schedule h !! id = Some t → now < t) → due_taken now h h [].
Proof.
  intros Hok Hlate. split; [done| | |constructor|constructor].
  - symmetry. apply map_filter_id. intros id t Ht. by eapply Hlate.
  - intros id. split; [by intros ?%not_elem_of_nil|]. intros (t & Ht & Hle). apply Hlate in Ht. lia.
Qed.
Lemma one_taken now h h1 h' id due : heap_ok h → head (queue h) = Some id → next_of h id ≤ now →
  schedule h1 = delete id (schedule h) → due_taken now h1 h' due → due_taken now h h' (id :: due).
Proof.
  intros Hok Hid Hle Hs [T1 T2 T3 T4 T5]. destruct (root_earliest h id Hok Hid) as [H0 Hmin].
  assert (∀ x, x ∈ due → x ≠ id) as Hne by (intros x Hx ->; apply T3 in Hx as (t & Ht & _); by rewrite Hs, lookup_delete_eq in Ht).
  split; [done| | | |].
  - rewrite T2, Hs, map_filter_delete. apply delete_id. apply map_lookup_filter_None. right. intros t Ht. rewrite H0 in Ht.
    injection Ht as <-. cbn. lia.
  - intros x. rewrite elem_of_cons, T3, Hs. destruct (decide (x = id)) as [->|Hx].
    + split; [intros _; by exists (next_of h id)|by left].
    + rewrite lookup_delete_ne by done. naive_solver.
  - constructor; [|done]. intros Hin. by apply (Hne id).
  - cbn [map]. constructor.
    + rewrite (map_ext_in (next_of h) (next_of h1)); [done|]. intros x Hx%list_elem_of_In. pose proof (Hne x Hx) as Hxn.
      apply T3 in Hx as (t & Ht & _). rewrite (schedule_next h1 x t Ht). apply schedule_next.
      by rewrite Hs, lookup_delete_ne in Ht.
    + apply Forall_map, Forall_forall. intros x Hx. apply T3 in Hx as (t & Ht & _). rewrite Hs, lookup_delete_Some in Ht.
      destruct Ht as [_ Ht]. rewrite (schedule_next h x t Ht). by eapply Hmin.
Qed.
Lemma pop_while_due_ok now fuel h : heap_ok h → (heap_Len h ≤ fuel)%nat →
  due_taken now h (pop_while_due fuel now h).1 (pop_while_due fuel now h).2.
Proof.
  revert h. induction fuel as [|fuel IH]; intros h Hok Hf.
  { change (due_taken now h h []). apply nothing_due; [done|]. intros id t Ht. pose proof (schedule_size h Hok) as Hz. assert (schedule h = ∅) as E by (apply map_size_empty_inv; lia).
    by rewrite E, lookup_empty in Ht. }
  cbn [pop_while_due]. destruct (head (queue h)) as [id|] eqn:Hid.
  2: { change (due_taken now h h []). apply nothing_due; [done|]. intros id t Ht. by rewrite (no_root h Hok Hid), lookup_empty in Ht. }
  destruct (root_earliest h id Hok Hid) as [H0 Hmin]. destruct (after (next_of h id) now) eqn:Ha.
  { change (due_taken now h h []). bprop. apply nothing_due; [done|]. intros x t Ht%Hmin. lia. }
  apply after_false in Ha. rewrite head_lookup in Hid. destruct (heap_Pop_ok h id Hok Hid) as (h1 & -> & Hok1 & Hs).
  rewrite <- head_lookup in Hid.
  pose proof (schedule_size h Hok) as Hz. pose proof (schedule_size _ Hok1) as Hz1. rewrite Hs, map_size_delete_Some in Hz1 by eauto.
  specialize (IH (index_delete id h1) Hok1 ltac:(lia)). destruct (pop_while_due fuel now (index_delete id h1)) as [h' due].
  by apply (one_taken now h (index_delete id h1)).
Qed.
Lemma popDue_ok now h : heap_ok h → due_taken now h (popDue now h).1 (popDue now h).2.
Proof. intros Hok. by apply pop_while_due_ok. Qed.

End RefreshLoop.
