(* ===== verification/RefreshProps.v ===== *)
(** * The refresh loop makes progress and forgets no credential

    The queue of [auto_refresh_loop.go] against a finite map, and one wake-up of the
    loop, seen through what is scheduled and what is dirty. *)
From S2P Require Import Prelude GoLib AuthTypes Expiry Classify MarkResult Scheduler RefreshDue RefreshHeap RefreshLoop.
Import AuthTypes Expiry Classify Scheduler RefreshDue RefreshHeap RefreshLoop.

Module RefreshProps.

(** ** The queue and the map it stands for *)

Inductive queue_op : Type :=
| QUpsert (id : string) (next : time)
| QRemove (id : string)
| QPopDue (now : time).

Definition run_op (l : authAutoRefreshLoop) (o : queue_op) : authAutoRefreshLoop :=
  match o with
  | QUpsert id next => upsert id next l
  | QRemove id => remove id l
  | QPopDue now => l <| lp_heap := (popDue now (lp_heap l)).1 |>
  end.
(** The specification: a map from identifiers to times. *)
Definition map_op (s : gmap string time) (o : queue_op) : gmap string time :=
  match o with
  | QUpsert id next => if String.eqb id "" || is_zero next then s else <[id := next]> s
  | QRemove id => if String.eqb id "" then s else delete id s
  | QPopDue now => filter (fun e => now < e.2) s
  end.

Lemma loop_upsert_ok id next l : heap_ok (lp_heap l) →
  heap_ok (lp_heap (upsert id next l)) ∧ schedule (lp_heap (upsert id next l)) = map_op (schedule (lp_heap l)) (QUpsert id next).
Proof. intros Hok. unfold upsert. cbn [map_op]. destruct (_ || _); [done|]. by apply upsert_item_ok. Qed.
Lemma loop_remove_ok id l : heap_ok (lp_heap l) →
  heap_ok (lp_heap (remove id l)) ∧ schedule (lp_heap (remove id l)) = map_op (schedule (lp_heap l)) (QRemove id).
Proof. intros Hok. unfold remove. cbn [map_op]. destruct (String.eqb _ _); [done|]. by apply remove_item_ok. Qed.
Lemma run_op_ok l o : heap_ok (lp_heap l) →
  heap_ok (lp_heap (run_op l o)) ∧ schedule (lp_heap (run_op l o)) = map_op (schedule (lp_heap l)) o.
Proof.
  intros Hok. destruct o as [id next|id|now]; [by apply loop_upsert_ok|by apply loop_remove_ok|].
  destruct (popDue_ok now (lp_heap l) Hok) as [H1 H2 _ _ _]. by split.
Qed.
Lemma run_ops_ok ops l : heap_ok (lp_heap l) →
  heap_ok (lp_heap (foldl run_op l ops)) ∧ schedule (lp_heap (foldl run_op l ops)) = foldl map_op (schedule (lp_heap l)) ops.
Proof.
  revert l. induction ops as [|o ops IH]; intros l Hok; [done|]. cbn. destruct (run_op_ok l o Hok) as [H1 <-]. by apply IH.
Qed.

(** C26 The queue of a loop, a binary heap whose items know their places, is the map of
    the times of the next checks after any sequence of operations; and taking what is due
    at any time gives exactly the credentials due by then, each once and in the order of
    their times, and leaves the others. *)
Theorem refresh_queue_is_a_map (interval : duration) (concurrency : Z) (ops : list queue_op) (now : time) :
  let h := lp_heap (foldl run_op (newAuthAutoRefreshLoop interval concurrency) ops) in
  let s := foldl map_op ∅ ops in
  heap_ok h ∧ schedule h = s
  ∧ let '(h', due) := popDue now h in
    heap_ok h' ∧ schedule h' = filter (fun e => now < e.2) s ∧ NoDup due
    ∧ (∀ id, id ∈ due ↔ ∃ t, s !! id = Some t ∧ t ≤ now)
    ∧ StronglySorted Z.le (map (fun id => default 0 (s !! id)) due).
Proof.
  cbv zeta. destruct (run_ops_ok ops (newAuthAutoRefreshLoop interval concurrency) empty_queue_ok) as [Hok Hs].
  set (h := lp_heap _) in *. change (schedule (lp_heap (newAuthAutoRefreshLoop interval concurrency))) with (∅ : gmap string time) in Hs.
  split; [done|]. split; [done|]. destruct (popDue_ok now h Hok) as [T1 T2 T3 T4 T5]. rewrite Hs in T2, T3.
  destruct (popDue now h) as [h' due]. split_and!; [done..|]. cbn [snd] in *.
  rewrite (map_ext_in _ (next_of h)); [done|]. intros id (t & Ht & _)%list_elem_of_In%T3. rewrite Ht. symmetry.
  apply schedule_next. by rewrite Hs.
Qed.

Lemma nextWait_spec now h w : heap_ok h → nextWait now h = Some w →
  ∃ id t, schedule h !! id = Some t ∧ (∀ id' t', schedule h !! id' = Some t' → t ≤ t')
    ∧ w = Z.min maxRefreshTimerWait (Z.max 0 (t - now)).
Proof.
  intros Hok. unfold nextWait, peek. destruct (head (queue h)) as [id|] eqn:E; [|done]. cbn [fmap option_fmap option_map].
  destruct (root_earliest h id Hok E) as [H1 H2]. intros [= <-]. exists id, (next_of h id). split_and!; [done|done|].
  unfold time_sub, maxRefreshTimerWait, second, max_int64, min_int64. set (d := next_of h id - now) in *.
  destruct (_ <? 0) eqn:E1; bprop; [rewrite (proj2 (Z.ltb_ge _ 0)) by lia; lia|]. destruct (_ <? Z.max _ _) eqn:E2; bprop; lia.
Qed.

(** ** One wake-up *)

Section Wakeup.
Context `{GP : GoParse} `{RT : RefreshRuntime}.
Context (l : nat) (now : time).

(** What a loop has scheduled and what is dirty. *)
Definition sched (m : refreshManager) : gmap string time :=
  match loops m !! l with Some lp => schedule (lp_heap lp) | None => ∅ end.
Definition dirty (m : refreshManager) : gset string :=
  match loops m !! l with Some lp => lp_dirty lp | None => ∅ end.
(** The loop exists and is the one of the manager. *)
Record live (m : refreshManager) : Prop := {
  live_loop : ∃ lp, loops m !! l = Some lp ∧ heap_ok (lp_heap lp) ∧ 0 < lp_interval lp;
  live_current : refreshLoop m = Some l;
}.
(** What no handler changes: the setting, the interval, the executors. *)
Definition same_setting (m m' : refreshManager) : Prop :=
  homeEnabled m' = homeEnabled m ∧ loop_interval l m' = loop_interval l m ∧ executors m' = executors m.
(** Another identifier is not concerned. *)
Definition same_at (x : string) (m m' : refreshManager) : Prop :=
  auths m' !! x = auths m !! x ∧ sched m' !! x = sched m !! x ∧ (x ∈ dirty m' ↔ x ∈ dirty m).
Definition later (o : option time) : Prop := ∀ t, o = Some t → now < t.

#[global] Instance same_setting_preorder : PreOrder same_setting.
Proof. split; [done|]. intros m1 m2 m3 (?&?&?) (?&?&?). repeat split; congruence. Qed.
#[global] Instance same_at_preorder x : PreOrder (same_at x).
Proof. split; [done|]. intros m1 m2 m3 (E1&E2&E3) (E4&E5&E6). split_and!; [congruence|congruence|by rewrite E6]. Qed.

Lemma next_check_same m m' x : same_setting m m' → auths m' !! x = auths m !! x → next_check l now x m' = next_check l now x m.
Proof. intros (E1 & E2 & _) E. unfold next_check. by rewrite E, E1, E2. Qed.

(** *** Changing the loop only *)

Lemma modify_loop_view f m lp : loops m !! l = Some lp → loops (modify_loop l f m) !! l = Some (f lp).
Proof. intros E. unfold modify_loop. cbn. by rewrite lookup_alter_eq, E. Qed.
Lemma live_modify f m : live m → (∀ lp, heap_ok (lp_heap lp) → heap_ok (lp_heap (f lp)) ∧ lp_interval (f lp) = lp_interval lp) →
  live (modify_loop l f m) ∧ same_setting m (modify_loop l f m).
Proof.
  intros [(lp & E & Hok & Hi) Hc] Hf. destruct (Hf lp Hok) as [H1 H2]. pose proof (modify_loop_view f m lp E) as E'. split; [split|].
  - exists (f lp). split_and!; [done|done|lia].
  - done.
  - split_and!; [done| |done]. unfold loop_interval. by rewrite E, E'.
Qed.

Lemma upsert_frame id next m : live m → let m' := modify_loop l (upsert id next) m in
  live m' ∧ same_setting m m' ∧ auths m' = auths m ∧ dirty m' = dirty m
  ∧ sched m' = (if String.eqb id "" || is_zero next then sched m else <[id := next]> (sched m)).
Proof.
  intros Hl. cbv zeta. destruct (live_modify (upsert id next) m Hl) as [H1 H2].
  { intros lp Hok. split; [by apply loop_upsert_ok|]. unfold upsert. by destruct (_ || _). }
  split_and!; [done|done|done|..]; destruct (live_loop m Hl) as (lp & E & Hok & _);
    unfold sched, dirty; rewrite (modify_loop_view _ _ _ E), E; [unfold upsert; by destruct (_ || _)|by apply loop_upsert_ok].
Qed.
Lemma remove_frame id m : live m → let m' := modify_loop l (remove id) m in
  live m' ∧ same_setting m m' ∧ auths m' = auths m ∧ (dirty m' = if String.eqb id "" then dirty m else dirty m ∖ {[id]})
  ∧ sched m' = (if String.eqb id "" then sched m else delete id (sched m)).
Proof.
  intros Hl. cbv zeta. destruct (live_modify (remove id) m Hl) as [H1 H2].
  { intros lp Hok. split; [by apply loop_remove_ok|]. unfold remove. by destruct (String.eqb _ _). }
  split_and!; [done|done|done|..]; destruct (live_loop m Hl) as (lp & E & Hok & _);
    unfold sched, dirty; rewrite (modify_loop_view _ _ _ E), E; [unfold remove; by destruct (String.eqb _ _)|by apply loop_remove_ok].
Qed.

(** *** The answers of [nextRefreshCheckAt] *)

Lemma not_before_ge next : now ≤ not_before now next.
Proof. unfold not_before. destruct (after next now) eqn:E; cbn; bprop; lia. Qed.
Lemma next_check_ge a home interval t : manager_nextRefreshCheckAt home now a interval = Some t → now ≤ t.
Proof.
  unfold manager_nextRefreshCheckAt, nextRefreshCheckAt, check_token, check_by_age.
  repeat case_match; intros H'; simplify_eq; try apply not_before_ge; bprop; unfold refreshCheckInterval, second in *; lia.
Qed.
(** A credential that may not be refreshed before [t] is looked at later than now. *)
Lemma marked_later a home interval t clock : 0 < now → now < t →
  later (manager_nextRefreshCheckAt home now (set_next_refresh t clock a) interval).
Proof.
  intros Hn Ht u. unfold manager_nextRefreshCheckAt, nextRefreshCheckAt, check_token. destruct (codexAutoRefreshUnavailable _ _ _); [done|].
  destruct (_ || _); [done|]. set (a' := set_next_refresh t clock a). assert (a_NextRefreshAfter a' = t) as -> by done.
  assert (is_zero t = false) as -> by (apply is_zero_false; lia). assert (before now t = true) as -> by (apply before_spec; lia). cbn [negb andb].
  assert (∀ next, now < not_before now (if after t next then t else next)) as Hd.
  { intros next. destruct (after t next) eqn:E; bprop; unfold not_before.
    - rewrite (proj2 (after_spec t now)) by lia. cbn. lia.
    - rewrite (proj2 (after_spec next now)) by lia. cbn. lia. }
  destruct (evaluator a'); [by intros [= <-]|]. destruct (MarkResult.devinQuotaRevalidateAt a' now); intros [= <-]; [apply Hd|done].
Qed.

(** *** Jobs *)

Lemma reschedule_live m id : live m → refreshLoop (queueRefreshReschedule id m) = Some l
  ∧ live (queueRefreshReschedule id m) ∧ same_setting m (queueRefreshReschedule id m)
  ∧ auths (queueRefreshReschedule id m) = auths m ∧ sched (queueRefreshReschedule id m) = sched m
  ∧ (id ≠ "" → dirty (queueRefreshReschedule id m) = {[id]} ∪ dirty m).
Proof.
  intros Hl. unfold queueRefreshReschedule. rewrite (live_current m Hl).
  destruct (live_modify (queueReschedule id) m Hl) as [H1 H2]; [intros lp Hok; unfold queueReschedule; by destruct (String.eqb _ _)|].
  destruct (live_loop m Hl) as (lp & E & _). split_and!; [apply Hl|done|done|done|..]; unfold sched, dirty;
    rewrite (modify_loop_view _ _ _ E), E; unfold queueReschedule; [by destruct (String.eqb _ _)|].
  intros Hid. by destruct (String.eqb_spec id "").
Qed.

(** After a change that concerns the manager alone. *)
Lemma live_ext m m' : loops m' = loops m → refreshLoop m' = refreshLoop m → live m → live m'.
Proof. intros E1 E2 [H1 H2]. split; [by rewrite E1|by rewrite E2]. Qed.
Lemma views_ext m m' : loops m' = loops m → sched m' = sched m ∧ dirty m' = dirty m ∧ loop_interval l m' = loop_interval l m.
Proof. intros E. unfold sched, dirty, loop_interval. by rewrite E. Qed.

(** What marking a credential or finishing its job leaves: its mark is [t], it is dirty. *)
Record marked (id : string) (m m' : refreshManager) : Prop := {
  marked_live : live m';
  marked_setting : same_setting m m';
  marked_auth : ∃ t clock auth, auths m' !! id = Some (set_next_refresh t clock auth) ∧ now < t;
  marked_dirty : dirty m' = {[id]} ∪ dirty m;
  marked_sched : sched m' = sched m;
  marked_others x : x ≠ id → auths m' !! x = auths m !! x;
}.

Lemma markRefreshPending_ok m id epoch : live m → id ≠ "" →
  match markRefreshPending l id epoch now m with
  | (m', None) => m' = m
  | (m', Some j) => marked id m m' ∧ jobs m' !! j = Some {| jb_id := id; jb_registrationEpoch := epoch;
        jb_pendingUntil := now + refreshPendingBackoff; jb_loop := l; jb_running := false |}
      ∧ refreshJobs m' !! id = Some j
      ∧ ∃ auth, auths m !! id = Some auth ∧ auths m' !! id = Some (set_next_refresh (now + refreshPendingBackoff) now auth)
          ∧ a_RegistrationEpoch auth = epoch
  end.
Proof.
  intros Hl Hid. unfold markRefreshPending. destruct (pending_refused m id epoch now) eqn:Hr; [done|]. cbv zeta.
  unfold pending_refused in Hr. destruct (auths m !! id) as [auth|] eqn:Ha; [|done].
  set (m1 := set auths _ _). assert (live m1) as Hl1 by (by apply (live_ext m)).
  destruct (views_ext m m1 eq_refl) as (V1 & V2 & V3). destruct (reschedule_live m1 id Hl1) as (_ & R1 & R2 & R3 & R4 & R5).
  assert (auths m1 !! id = Some (set_next_refresh (now + refreshPendingBackoff) now auth)) as Hm
    by (unfold m1; cbn; by rewrite lookup_alter_eq, Ha).
  assert (∀ x, x ≠ id → auths m1 !! x = auths m !! x) as Ho by (intros x Hx; unfold m1; cbn; by rewrite lookup_alter_ne).
  split; [split|split; [|split]].
  - done.
  - transitivity m1; [|done]. by split_and!.
  - eexists _, _, auth. split; [by rewrite R3|]. unfold refreshPendingBackoff, minute, second. lia.
  - by rewrite R5, V2.
  - by rewrite R4.
  - intros x Hx. by rewrite R3, Ho.
  - unfold queueRefreshReschedule. case_match; unfold m1; cbn; by rewrite lookup_insert_eq.
  - unfold queueRefreshReschedule. case_match; unfold m1; cbn; by rewrite lookup_insert_eq.
  - exists auth. split; [done|]. split; [by rewrite R3|]. bprop. by repeat match goal with H : _ && _ = false |- _ => clear H end; bprop.
Qed.

Lemma finish_marked m m1 j id epoch retryAt clock auth : marked id m m1 → id ≠ "" → now < retryAt →
  jobs m1 !! j = Some {| jb_id := id; jb_registrationEpoch := epoch; jb_pendingUntil := now + refreshPendingBackoff; jb_loop := l;
                         jb_running := false |} → refreshJobs m1 !! id = Some j →
  auths m1 !! id = Some (set_next_refresh (now + refreshPendingBackoff) now auth) → a_RegistrationEpoch auth = epoch →
  marked id m (finishRefreshJob j retryAt false clock m1).
Proof.
  intros [M1 M2 M3 M4 M5 M6] Hid Ht Hj Hr Ha He. unfold finishRefreshJob. rewrite Hj. cbn [jb_id jb_registrationEpoch jb_pendingUntil].
  rewrite Hr, bool_decide_false by (intros H; by apply H). cbn [orb andb auths set eta refreshManager_eta]. rewrite Ha.
  cbn [a_RegistrationEpoch a_NextRefreshAfter set_next_refresh set eta Auth_eta]. rewrite He, Z.eqb_refl.
  unfold time_eq. rewrite Z.eqb_refl. cbn [andb].
  match goal with |- marked _ _ (queueRefreshReschedule _ ?x) => set (m2 := x) end.
  assert (live m2) as Hl2 by (by apply (live_ext m1)). destruct (views_ext m1 m2 eq_refl) as (V1 & V2 & V3).
  destruct (reschedule_live m2 id Hl2) as (_ & R1 & R2 & R3 & R4 & R5). split.
  - done.
  - transitivity m1; [done|]. transitivity m2; [|done]. by split_and!.
  - eexists retryAt, clock, _. rewrite R3. unfold m2. cbn [auths set eta refreshManager_eta]. by rewrite lookup_insert_eq.
  - rewrite R5, V2, M4 by done. set_solver.
  - by rewrite R4, V1.
  - intros x Hx. rewrite R3. unfold m2. cbn [auths set eta refreshManager_eta]. rewrite lookup_insert_ne by done. by apply M6.
Qed.
Lemma send_marked m m1 j id : marked id m m1 → marked id m (modify_loop l (send_job j) m1).
Proof.
  intros [M1 M2 M3 M4 M5 M6]. destruct (live_modify (send_job j) m1 M1) as [H1 H2]; [done|].
  destruct (live_loop m1 M1) as (lp & E & _). pose proof (modify_loop_view (send_job j) m1 lp E) as E'.
  split; [done|by transitivity m1|done| | |done]; unfold dirty, sched in *; by rewrite E', E in *.
Qed.

(** *** Handling one credential *)

(** The two facts that a wake-up establishes of an identifier. *)
Definition settled (m0 m : refreshManager) (x : string) : Prop :=
  later (sched m !! x) ∧ (x ∈ dirty m → x ∈ dirty m0 ∨ later (next_check l now x m)).
Definition tracked (m : refreshManager) (x : string) : Prop :=
  is_Some (next_check l now x m) → is_Some (sched m !! x) ∨ x ∈ dirty m.

Lemma same_settled m0 m m' x : same_setting m m' → same_at x m m' → settled m0 m x → settled m0 m' x.
Proof.
  intros Hs (E1 & E2 & E3) [H1 H2]. split; [by rewrite E2|]. intros Hd%E3. rewrite (next_check_same m m' x Hs E1). by apply H2.
Qed.
Lemma same_tracked m m' x : same_setting m m' → same_at x m m' → tracked m x → tracked m' x.
Proof. intros Hs (E1 & E2 & E3) H. unfold tracked. by rewrite (next_check_same m m' x Hs E1), E2, E3. Qed.

(** [R]: when the credential is known to settle. *)
Record handled (R : Prop) (m0 m m' : refreshManager) (id : string) : Prop := {
  handled_live : live m';
  handled_setting : same_setting m m';
  handled_others x : x ≠ id → same_at x m m';
  handled_settled : R → settled m0 m id → settled m0 m' id;
  handled_tracked : tracked m' id;
}.

Lemma upserted R m0 m id next : live m → id ≠ "" → 0 < next → (R → now < next) →
  handled R m0 m (modify_loop l (upsert id next) m) id.
Proof.
  intros Hl Hid Hn Hlt. destruct (upsert_frame id next m Hl) as (U1 & U2 & U3 & U4 & U5).
  rewrite (proj2 (String.eqb_neq id "") Hid), (proj2 (is_zero_false next)) in U5 by lia. cbn [orb] in U5.
  set (m' := modify_loop _ _ _) in *. split; [done|done| | |].
  - intros x Hx. split_and!; [by rewrite U3|by rewrite U5, lookup_insert_ne|by rewrite U4].
  - intros HR%Hlt [S1 S2]. split; [rewrite U5, lookup_insert_eq; by intros t [= <-]|].
    rewrite U4, (next_check_same m m') by (done || by rewrite U3). done.
  - intros _. left. rewrite U5, lookup_insert_eq. by eexists.
Qed.
Lemma removed R m0 m id : live m → id ≠ "" → next_check l now id m = None → handled R m0 m (modify_loop l (remove id) m) id.
Proof.
  intros Hl Hid Hn. destruct (remove_frame id m Hl) as (U1 & U2 & U3 & U4 & U5). rewrite (proj2 (String.eqb_neq id "") Hid) in U4, U5.
  set (m' := modify_loop _ _ _) in *. split; [done|done| | |].
  - intros x Hx. split_and!; [by rewrite U3|by rewrite U5, lookup_delete_ne|rewrite U4; set_solver].
  - intros _ _. split; [by rewrite U5, lookup_delete_eq|rewrite U4; set_solver].
  - unfold tracked. rewrite (next_check_same m m'), Hn by (done || by rewrite U3). by intros [? [=]].
Qed.
Lemma marked_handled R m0 m m' id : 0 < now → marked id m m' → handled R m0 m m' id.
Proof.
  intros Hn [M1 M2 M3 M4 M5 M6]. split; [done|done| | |].
  - intros x Hx. split_and!; [by apply M6|by rewrite M5|rewrite M4; set_solver].
  - intros _ [S1 S2]. split; [by rewrite M5|]. intros _. right. destruct M3 as (t & clock & auth & E & Ht). unfold next_check.
    rewrite E. cbn. by apply marked_later.
  - intros _. right. rewrite M4. set_solver.
Qed.
Lemma handled_trans R m0 m m1 m2 id : handled R m0 m m1 id → handled R m0 m1 m2 id → handled R m0 m m2 id.
Proof.
  intros [A1 A2 A3 A4 _] [B1 B2 B3 B4 B5]. split; [done|by transitivity m1| |by auto|done].
  intros x Hx. transitivity m1; [by apply A3|by apply B3].
Qed.

(** The credentials for which a check that is due means a refresh. *)
Definition regular (m : refreshManager) (id : string) : Prop :=
  ∀ a, auths m !! id = Some a → evaluator a = None ∧ ¬ devin_deadlock a now.

Context (ctx_done : bool) (clock : time).
Hypothesis in_range : runtime_in_range.
Hypothesis now_pos : 0 < now.

Lemma reschedule_handled R m0 m id next : live m → id ≠ "" → next = next_check l now id m →
  handled R m0 m (modify_loop l (reschedule id
    ((fun next => if negb (after next now) then now + loop_interval l m else next) <$> next)) m) id.
Proof.
  intros Hl Hid Hn. destruct (live_loop m Hl) as (lp & E & _ & Hi).
  assert (0 < loop_interval l m) as Hi' by (unfold loop_interval; by rewrite E).
  destruct next as [next|]; cbn [fmap option_fmap option_map reschedule].
  - destruct (after next now) eqn:Ha; cbn [negb]; bprop; apply upserted; try done; lia.
  - by apply removed.
Qed.
Lemma act_due_handled m0 m id auth r : live m → id ≠ "" → auths m !! id = Some auth → read_due l now id m = Some r →
  handled (regular m id) m0 m (act_due l ctx_done now clock id r m) id.
Proof.
  intros Hl Hid Ha. unfold read_due. rewrite Ha. intros [= <-]. unfold act_due.
  cbn [rd_next rd_shouldRefresh rd_exec rd_epoch]. destruct (live_loop m Hl) as (lp & E & _ & Hi).
  assert (0 < loop_interval l m) as Hi' by (unfold loop_interval; by rewrite E).
  destruct (manager_nextRefreshCheckAt _ now auth _) as [next|] eqn:Hn.
  2: { apply removed; [done|done|]. unfold next_check. by rewrite Ha. }
  apply next_check_ge in Hn as Hge. destruct (shouldRefresh _ auth now) eqn:Hsr; cbn [negb].
  2: { apply upserted; [done|done|lia|]. intros [Hev Hdl]%(fun H => H auth Ha). apply Z.nle_gt. intros Hle.
       by rewrite (due_is_refreshed in_range _ _ _ _ _ Hev Hdl Hn Hle) in Hsr. }
  destruct (bool_decide _); cbn [negb]; [|apply upserted; try done; lia].
  pose proof (markRefreshPending_ok m id (a_RegistrationEpoch auth) Hl Hid) as Hm.
  destruct (markRefreshPending _ _ _ _ _) as [m1 [j|]].
  - destruct Hm as (Hm & Hj & Hr & auth' & _ & Ha1 & He).
    destruct (negb ctx_done && has_room l m1); [by apply marked_handled, send_marked|].
    set (m2 := finishRefreshJob _ _ _ _ _). assert (marked id m m2) as Hm2 by (by eapply finish_marked; try done; lia).
    pose proof (marked_handled (regular m id) m0 m m2 id now_pos Hm2) as H2. eapply handled_trans; [exact H2|].
    apply upserted; [apply H2|done|lia|lia].
  - subst m1. by apply reschedule_handled.
Qed.

Lemma handleDueAuth_handled m0 m id : live m → id ≠ "" → handled (regular m id) m0 m (handleDueAuth l ctx_done now clock id m) id.
Proof.
  intros Hl Hid. unfold handleDueAuth. rewrite (proj2 (String.eqb_neq id "") Hid).
  destruct (auths m !! id) as [auth|] eqn:Ha.
  - destruct (read_due l now id m) as [r|] eqn:Hr; [by apply (act_due_handled m0 m id auth)|]. unfold read_due in Hr. by rewrite Ha in Hr.
  - unfold read_due. rewrite Ha. cbn. split; [done|done|done|done|]. unfold tracked, next_check. rewrite Ha. by intros [? [=]].
Qed.

(** A list of credentials, one after the other. *)
Definition handle_all (due : list string) (m : refreshManager) : refreshManager :=
  foldl (fun m id => handleDueAuth l ctx_done now clock id m) m due.
Lemma handle_all_ok m0 due m : live m → NoDup due →
  let m' := handle_all due m in
  live m' ∧ same_setting m m' ∧ (∀ x, x ∉ due → same_at x m m') ∧ (∀ x, x ∈ due → x ≠ "" → tracked m' x)
  ∧ ((∀ id, id ∈ due → regular m id) → (∀ id, settled m0 m id) → ∀ x, settled m0 m' x).
Proof.
  cbv zeta. revert m. induction due as [|id due IH]; intros m Hl Hnd.
  { split_and!; try done. by intros x ?%not_elem_of_nil. }
  apply NoDup_cons in Hnd as [Hnot Hnd]. unfold handle_all. cbn [foldl]. set (m1 := handleDueAuth _ _ _ _ _ _).
  assert (live m1 ∧ same_setting m m1 ∧ (∀ x, x ≠ id → same_at x m m1) ∧ (id ≠ "" → tracked m1 id)
    ∧ (regular m id → settled m0 m id → settled m0 m1 id)) as (A1 & A2 & A3 & A4 & A5).
  { destruct (decide (id = "")) as [->|Hid]; [unfold m1, handleDueAuth; by split_and!|].
    by destruct (handleDueAuth_handled m0 m id Hl Hid). }
  destruct (IH m1 A1 Hnd) as (B1 & B2 & B3 & B4 & B5). fold (handle_all due m1). split_and!; [done|by transitivity m1|..].
  - intros x Hx. transitivity m1; [apply A3|apply B3]; set_solver.
  - intros x [->|Hx]%elem_of_cons Hne; [|by apply B4]. apply (same_tracked m1); [done|by apply B3|by apply A4].
  - intros Hreg Hs. apply B5.
    + intros x Hx a. destruct (A3 x) as (E & _ & _); [by intros ->|]. rewrite E. apply Hreg. by right.
    + intros x. destruct (decide (x = id)) as [->|Hx]; [apply A5; [apply Hreg; by left|done]|].
      apply (same_settled m0 m); [done|by apply A3|done].
Qed.

(** *** The dirty credentials *)

Lemma next_check_now_le m x t : next_check l now x m = Some t → now ≤ t.
Proof. unfold next_check. destruct (auths m !! x); [|done]. cbn. apply next_check_ge. Qed.
Definition reschedule_all (ids : list string) (m : refreshManager) : refreshManager :=
  foldl (fun m id => modify_loop l (reschedule id (next_check l now id m)) m) m ids.
(** After a credential is rescheduled, the queue has the answer of [nextRefreshCheckAt]. *)
Lemma reschedule_one m id : live m → let m' := modify_loop l (reschedule id (next_check l now id m)) m in
  live m' ∧ same_setting m m' ∧ auths m' = auths m
  ∧ ∀ x, sched m' !! x = if bool_decide (x = id ∧ x ≠ "") then next_check l now x m else sched m !! x.
Proof.
  intros Hl. cbv zeta. destruct (next_check l now id m) as [t|] eqn:E; cbn [reschedule].
  - destruct (upsert_frame id t m Hl) as (U1 & U2 & U3 & _ & ->). split_and!; [done..|]. intros x.
    apply next_check_now_le in E as Ht. rewrite (proj2 (is_zero_false t)), orb_false_r by lia.
    destruct (String.eqb_spec id "") as [->|Hid]; [rewrite bool_decide_false by naive_solver; done|].
    case_bool_decide as Hx; [destruct Hx as [-> _]; by rewrite lookup_insert_eq|]. rewrite lookup_insert_ne; [done|naive_solver].
  - destruct (remove_frame id m Hl) as (U1 & U2 & U3 & _ & ->). split_and!; [done..|]. intros x.
    destruct (String.eqb_spec id "") as [->|Hid]; [rewrite bool_decide_false by naive_solver; done|].
    case_bool_decide as Hx; [destruct Hx as [-> _]; by rewrite lookup_delete_eq|]. rewrite lookup_delete_ne; [done|naive_solver].
Qed.
Lemma reschedule_all_ok ids m : live m → let m' := reschedule_all ids m in
  live m' ∧ same_setting m m' ∧ auths m' = auths m
  ∧ ∀ x, sched m' !! x = if bool_decide (x ∈ ids ∧ x ≠ "") then next_check l now x m else sched m !! x.
Proof.
  cbv zeta. revert m. induction ids as [|id ids IH]; intros m Hl.
  { split_and!; [done..|]. intros x. rewrite bool_decide_false; [done|]. by intros [?%not_elem_of_nil _]. }
  destruct (reschedule_one m id Hl) as (A1 & A2 & A3 & A4). unfold reschedule_all. cbn [foldl].
  set (m1 := modify_loop _ _ _) in *. destruct (IH m1 A1) as (B1 & B2 & B3 & B4).
  unfold reschedule_all in *. split_and!; [done|by transitivity m1|by rewrite B3|]. intros x. rewrite B4, A4.
  rewrite (next_check_same m m1 x A2) by (by rewrite A3).
  repeat case_bool_decide; try done; set_solver.
Qed.
Lemma applyDirty_ok order m : live m → (∀ s, order s ≡ₚ elements s) → let m' := applyDirty order l now m in
  live m' ∧ same_setting m m' ∧ auths m' = auths m
  ∧ ∀ x, sched m' !! x = if bool_decide (x ∈ dirty m ∧ x ≠ "") then next_check l now x m else sched m !! x.
Proof.
  intros Hl Ho. cbv zeta. unfold applyDirty. destruct (live_loop m Hl) as (lp & E & _). rewrite E.
  destruct (live_modify (fun lp => lp <| lp_dirty := ∅ |>) m Hl) as [H1 H2]; [done|].
  pose proof (modify_loop_view (fun lp => lp <| lp_dirty := ∅ |>) m lp E) as E1. set (m1 := modify_loop _ _ _) in *.
  destruct (reschedule_all_ok (order (lp_dirty lp)) m1 H1) as (B1 & B2 & B3 & B4).
  split_and!; [done|by transitivity m1|done|]. intros x. unfold reschedule_all in B4. rewrite B4.
  assert (sched m1 = sched m) as -> by (unfold sched; by rewrite E1, E). rewrite (next_check_same m m1 x H2) by done.
  assert (dirty m = lp_dirty lp) as -> by (unfold dirty; by rewrite E).
  rewrite (bool_decide_ext (x ∈ order (lp_dirty lp) ∧ x ≠ "") (x ∈ lp_dirty lp ∧ x ≠ "")); [done|]. by rewrite Ho, elem_of_elements.
Qed.

(** *** The timer *)

Lemma pop_due_at_ok m : live m → let m' := (pop_due_at l now m).1 in let due := (pop_due_at l now m).2 in
  live m' ∧ same_setting m m' ∧ auths m' = auths m ∧ dirty m' = dirty m ∧ sched m' = filter (fun e => now < e.2) (sched m)
  ∧ NoDup due ∧ ∀ id, id ∈ due ↔ ∃ t, sched m !! id = Some t ∧ t ≤ now.
Proof.
  intros Hl. cbv zeta. unfold pop_due_at. destruct (live_loop m Hl) as (lp & E & Hok & Hi). rewrite E.
  destruct (popDue_ok now (lp_heap lp) Hok) as [T1 T2 T3 T4 _]. destruct (popDue now (lp_heap lp)) as [h due]. cbn [fst snd] in *.
  pose proof (modify_loop_view (fun lp => lp <| lp_heap := h |>) m lp E) as E1.
  assert (sched m = schedule (lp_heap lp)) as Es by (unfold sched; by rewrite E).
  split_and!; [split; [by eexists|apply Hl]| |done| | |done|by rewrite Es].
  - split_and!; [done| |done]. unfold loop_interval. by rewrite E1, E.
  - unfold dirty. by rewrite E1, E.
  - rewrite Es, <- T2. unfold sched. by rewrite E1.
Qed.
Lemma handleDue_ok m : live m → let m' := handleDue l ctx_done now clock m in
  live m' ∧ same_setting m m'
  ∧ (∀ x, x ≠ "" → is_Some (sched m !! x) ∨ x ∈ dirty m → is_Some (sched m' !! x) ∨ x ∈ dirty m' ∨ next_check l now x m' = None)
  ∧ ((∀ id t, sched m !! id = Some t → t ≤ now → regular m id) → ∀ x, settled m m' x).
Proof.
  intros Hl. cbv zeta. destruct (pop_due_at_ok m Hl) as (P1 & P2 & P3 & P4 & P5 & P6 & P7). unfold handleDue.
  destruct (pop_due_at l now m) as [m1 due]. cbn [fst snd] in *. fold (handle_all due m1).
  destruct (handle_all_ok m due m1 P1 P6) as (B1 & B2 & B3 & B4 & B5).
  split_and!; [done|by transitivity m1| |].
  - intros x Hne Hx. destruct (decide (x ∈ due)) as [Hin|Hnot].
    + destruct (next_check l now x (handle_all due m1)) as [t|] eqn:En; [|by right; right].
      destruct (B4 x Hin Hne); [by rewrite En|by left|by right; left].
    + destruct (B3 x Hnot) as (_ & Es & Ed). rewrite Es, Ed, P4, P5. destruct Hx as [[t Ht]|Hx]; [left|by right; left].
      exists t. apply map_lookup_filter_Some. split; [done|]. cbn. apply Z.nle_gt. intros Hle. apply Hnot, P7. by exists t.
  - intros Hreg x. apply B5.
    + intros id (t & Ht & Hle)%P7 a. rewrite P3. by apply (Hreg id t).
    + intros id. split; [|rewrite P4; by left]. intros t. rewrite P5. by intros [_ Ht]%map_lookup_filter_Some.
Qed.

(** C13 After the timer of the loop fired at [now], whatever it still has scheduled for
    [now] or earlier was reported as changed by somebody else; when nothing was, the timer
    is set to a positive time of at most thirty seconds, so the loop does not spin.  The
    credentials that are due must have no evaluator of their own and must not be the exception
    of [due_credential_is_refreshed], a Devin credential over its quota whose sign-in was rejected. *)
Theorem refresh_loop_makes_progress (order : gset string → list string) (m : refreshManager) :
  live m → (∀ s, order s ≡ₚ elements s) → (∀ id t, sched m !! id = Some t → t ≤ now → regular m id) →
  let m' := on_timer order l ctx_done now clock m in
  live m' ∧ (∀ id t, sched m' !! id = Some t → t ≤ now → id ∈ dirty m)
  ∧ (dirty m = ∅ → ∀ lp w, loops m' !! l = Some lp → nextWait now (lp_heap lp) = Some w → 0 < w ≤ maxRefreshTimerWait).
Proof.
  intros Hl Ho Hreg. cbv zeta. unfold on_timer. destruct (handleDue_ok m Hl) as (A1 & A2 & _ & A4). specialize (A4 Hreg).
  set (m1 := handleDue _ _ _ _ m) in *. destruct (applyDirty_ok order m1 A1 Ho) as (B1 & B2 & B3 & B4).
  set (m2 := applyDirty _ _ _ m1) in *.
  assert (∀ id t, sched m2 !! id = Some t → t ≤ now → id ∈ dirty m) as Hlate.
  { intros id t. rewrite B4. destruct (A4 id) as [S1 S2]. case_bool_decide as Hd; intros Et Hle.
    - destruct (S2 (proj1 Hd)) as [|S3]; [done|]. specialize (S3 t Et). lia.
    - specialize (S1 t Et). lia. }
  split_and!; [done|done|]. intros Hempty lp w E Hw. destruct (live_loop m2 B1) as (lp' & E' & Hok & _).
  rewrite E in E'. injection E' as <-. destruct (nextWait_spec now _ w Hok Hw) as (id & t & Ht & _ & ->).
  assert (now < t) as Hlt.
  { apply Z.nle_gt. intros Hle. specialize (Hlate id t). unfold sched in Hlate. rewrite E, Hempty in Hlate. set_solver. }
  unfold maxRefreshTimerWait, second. lia.
Qed.

(** C31 The loop forgets no credential: what was scheduled or reported as changed before
    the timer fired is still scheduled afterwards, unless its next check says that it is
    not to be scheduled; and what was reported is scheduled for that next check. *)
Theorem refresh_loop_forgets_nothing (order : gset string → list string) (m : refreshManager) (id : string) :
  live m → (∀ s, order s ≡ₚ elements s) → id ≠ "" → is_Some (sched m !! id) ∨ id ∈ dirty m →
  let m' := on_timer order l ctx_done now clock m in
  (is_Some (next_check l now id m') → is_Some (sched m' !! id))
  ∧ (id ∈ dirty (handleDue l ctx_done now clock m) → sched m' !! id = next_check l now id m').
Proof.
  intros Hl Ho Hid Hin. cbv zeta. unfold on_timer. destruct (handleDue_ok m Hl) as (A1 & A2 & A3 & _). specialize (A3 id Hid Hin).
  set (m1 := handleDue _ _ _ _ m) in *. destruct (applyDirty_ok order m1 A1 Ho) as (B1 & B2 & B3 & B4).
  set (m2 := applyDirty _ _ _ m1) in *. rewrite (B4 id), (next_check_same m1 m2 id B2) by (by rewrite B3).
  case_bool_decide as Hd; [done|]. split; [|naive_solver]. destruct A3 as [H|[H|H]]; [done|naive_solver|]. rewrite H. by intros [? [=]].
Qed.

End Wakeup.

End RefreshProps.
