(* ===== verification/RefreshJobs.v ===== *)
(** * One refresh per credential: the jobs of the refresh loop

    Every interleaving of the loops, their workers and the rest of the program, as a
    step relation on the manager, and the invariant of its jobs. *)
From S2P Require Import Prelude GoLib AuthTypes Expiry Classify Scheduler RefreshDue RefreshHeap RefreshLoop.
Import AuthTypes Expiry Classify Scheduler RefreshDue RefreshHeap RefreshLoop.

Module RefreshJobs.

Section RefreshJobs.
Context `{GP : GoParse} `{RT : RefreshRuntime}.

(** ** Steps

    [loop_act]: a loop acts on what it read of a credential at any time before.
    [loop_release]: [releaseQueuedJobs] finishes one job, whichever it is.
    [loop_environment]: requests, refreshes and management change the credentials. *)
Inductive loop_step : refreshManager → refreshManager → Prop :=
| loop_act l ctx_done now clock id r m : loop_step m (act_due l ctx_done now clock id r m)
| loop_pop l now m : loop_step m (pop_due_at l now m).1
| loop_apply order l now m : loop_step m (applyDirty order l now m)
| loop_wake l m : loop_step m (clear_wake l m)
| loop_take l ctx_done clock m : loop_step m (worker_take l ctx_done clock m)
| loop_done j clock m : loop_step m (worker_done j clock m)
| loop_release j clock m : loop_step m (finishRefreshJob j 0 true clock m)
| loop_reschedule id m : loop_step m (queueRefreshReschedule id m)
| loop_unschedule id m : loop_step m (queueRefreshUnschedule id m)
| loop_start order l interval workers now m : loops m !! l = None → loop_step m (StartAutoRefresh order l interval workers now m)
| loop_stop m : loop_step m (StopAutoRefresh m)
| loop_environment auths home execs m :
    loop_step m (m <| RefreshLoop.auths := auths |> <| homeEnabled := home |> <| executors := execs |>).

(** No loop was started, no job exists. *)
Definition initial (m : refreshManager) : Prop :=
  refreshJobs m = ∅ ∧ jobs m = ∅ ∧ loops m = ∅ ∧ refreshLoop m = None ∧ working m = ∅.
Definition reachable (m : refreshManager) : Prop := ∃ m0, initial m0 ∧ rtc loop_step m0 m.

(** ** The invariant *)

(** The channel of a loop and its capacity. *)
Definition channels (m : refreshManager) : gmap nat (list nat * Z) := (fun lp => (lp_jobs lp, lp_buffer lp)) <$> loops m.
Definition in_channel (m : refreshManager) (l j : nat) : Prop := ∃ c, channels m !! l = Some c ∧ j ∈ c.1.

(** [except]: a job that is being finished. *)
Record jobs_ok (except : option nat) (m : refreshManager) : Prop := {
  ok_registered id j : refreshJobs m !! id = Some j → ∃ job, jobs m !! j = Some job ∧ jb_id job = id
    ∧ (Some j ≠ except → j ∈ working m ∨ in_channel m (jb_loop job) j);
  ok_working j : j ∈ working m → ∃ job, jobs m !! j = Some job ∧ jb_running job = true ∧ refreshJobs m !! jb_id job = Some j;
  ok_fresh j : is_Some (jobs m !! j) → (j < next_job m)%nat;
  ok_queued l j : in_channel m l j → ∃ job, jobs m !! j = Some job ∧ jb_running job = false ∧ jb_loop job = l;
  ok_channels l c : channels m !! l = Some c → NoDup c.1 ∧ Z.of_nat (length c.1) ≤ c.2 ∧ 64 ≤ c.2;
}.

Lemma initial_ok m : initial m → jobs_ok None m.
Proof.
  intros (E1 & E2 & E3 & _ & E5). assert (channels m = ∅) as Ec by (unfold channels; by rewrite E3, fmap_empty).
  split.
  - intros id j. by rewrite E1, lookup_empty.
  - intros j. rewrite E5. set_solver.
  - intros j. rewrite E2, lookup_empty. by intros [? [=]].
  - intros l j (c & Hc & _). by rewrite Ec, lookup_empty in Hc.
  - intros l c. by rewrite Ec, lookup_empty.
Qed.

(** A change that concerns no job. *)
Definition same_jobs (m m' : refreshManager) : Prop :=
  refreshJobs m' = refreshJobs m ∧ jobs m' = jobs m ∧ next_job m' = next_job m ∧ working m' = working m ∧ channels m' = channels m.
#[global] Instance same_jobs_preorder : PreOrder same_jobs.
Proof. split; [done|]. intros m1 m2 m3 (?&?&?&?&?) (?&?&?&?&?). repeat split; congruence. Qed.
Lemma same_jobs_ok except m m' : same_jobs m m' → jobs_ok except m → jobs_ok except m'.
Proof.
  intros (E1 & E2 & E3 & E4 & E5) [H1 H2 H3 H4 H5]. assert (∀ l j, in_channel m' l j ↔ in_channel m l j) as Ei by (intros; unfold in_channel; by rewrite E5).
  split.
  - intros id j. rewrite E1, E2, E4. setoid_rewrite Ei. apply H1.
  - intros j. rewrite E1, E2, E4. apply H2.
  - intros j. rewrite E2, E3. apply H3.
  - intros l j. rewrite E2, Ei. apply H4.
  - intros l c. rewrite E5. apply H5.
Qed.
Lemma modify_same_jobs l f m : (∀ lp, lp_jobs (f lp) = lp_jobs lp ∧ lp_buffer (f lp) = lp_buffer lp) → same_jobs m (modify_loop l f m).
Proof.
  intros Hf. split_and!; try done. unfold channels, modify_loop. cbn. apply map_eq. intros x. rewrite !lookup_fmap.
  destruct (decide (x = l)) as [->|Hx]; [|by rewrite lookup_alter_ne]. rewrite lookup_alter_eq.
  destruct (loops m !! l) as [lp|]; [|done]. cbn. by destruct (Hf lp) as [-> ->].
Qed.
Lemma queueReschedule_jobs id lp : lp_jobs (queueReschedule id lp) = lp_jobs lp ∧ lp_buffer (queueReschedule id lp) = lp_buffer lp.
Proof. unfold queueReschedule. by destruct (String.eqb _ _). Qed.
Lemma upsert_jobs id t lp : lp_jobs (upsert id t lp) = lp_jobs lp ∧ lp_buffer (upsert id t lp) = lp_buffer lp.
Proof. unfold upsert. by destruct (_ || _). Qed.
Lemma remove_jobs id lp : lp_jobs (remove id lp) = lp_jobs lp ∧ lp_buffer (remove id lp) = lp_buffer lp.
Proof. unfold remove. by destruct (String.eqb _ _). Qed.
Lemma reschedule_jobs id o lp : lp_jobs (reschedule id o lp) = lp_jobs lp ∧ lp_buffer (reschedule id o lp) = lp_buffer lp.
Proof. destruct o; [apply upsert_jobs|apply remove_jobs]. Qed.
Lemma queueRefreshReschedule_jobs id m : same_jobs m (queueRefreshReschedule id m).
Proof. unfold queueRefreshReschedule. destruct (refreshLoop m); [|done]. apply modify_same_jobs, queueReschedule_jobs. Qed.
Lemma queueRefreshUnschedule_jobs id m : same_jobs m (queueRefreshUnschedule id m).
Proof. unfold queueRefreshUnschedule. destruct (refreshLoop m); [|done]. apply modify_same_jobs, remove_jobs. Qed.

(** ** Finishing a job *)

Lemma unregistered_ok e j m : jobs_ok e m → e = None ∨ e = Some j → (∀ id, refreshJobs m !! id ≠ Some j) → jobs_ok None m.
Proof.
  intros [H1 H2 H3 H4 H5] He Hn. split; [|done..]. intros id k Hk. destruct (H1 id k Hk) as (job & E1 & E2 & E3).
  exists job. split_and!; [done|done|]. intros _. apply E3. destruct He as [->| ->]; [done|]. intros [= ->]. by destruct (Hn id).
Qed.
Lemma unregister_ok e j job m : jobs_ok e m → e = None ∨ e = Some j → jobs m !! j = Some job → refreshJobs m !! jb_id job = Some j →
  j ∉ working m → jobs_ok None (m <| refreshJobs := delete (jb_id job) (refreshJobs m) |>).
Proof.
  intros Hok He Hj Hr Hw. pose proof Hok as [H1 H2 H3 H4 H5]. apply (unregistered_ok e j); [|done|].
  - split; [| |done|done|done].
    + intros id k. cbn. intros [_ Hk]%lookup_delete_Some. by apply H1.
    + intros k Hk. destruct (H2 k Hk) as (job' & E1 & E2 & E3). exists job'. split_and!; [done|done|]. cbn.
      apply lookup_delete_Some. split; [|done]. intros E. rewrite <- E, Hr in E3. injection E3 as ->. done.
  - intros id. cbn. intros [Hne Hk]%lookup_delete_Some. destruct (H1 id j Hk) as (job' & E1 & E2 & _). by simplify_eq.
Qed.
Lemma finish_ok e j retryAt queuedOnly clock m : jobs_ok e m → e = None ∨ (e = Some j ∧ queuedOnly = false) →
  j ∉ working m ∨ queuedOnly = true → jobs_ok None (finishRefreshJob j retryAt queuedOnly clock m).
Proof.
  intros Hok He Hw. pose proof Hok as [H1 H2 _ _ _]. assert (e = None ∨ e = Some j) as He' by naive_solver. unfold finishRefreshJob.
  destruct (jobs m !! j) as [job|] eqn:Hj.
  2: { apply (unregistered_ok e j); [done|done|]. intros id (job & E & _)%H1. congruence. }
  case_bool_decide as Hr; cbn [orb].
  { apply (unregistered_ok e j); [done|done|]. intros id Hid. destruct (H1 id j Hid) as (job' & E & E' & _). apply Hr. by simplify_eq. }
  destruct (queuedOnly && jb_running job) eqn:Hq.
  { apply andb_true_iff in Hq as [-> _]. by destruct He as [->|[_ [=]]]. }
  assert (j ∉ working m) as Hnw.
  { destruct Hw as [|Hw]; [done|]. intros Hin. destruct (H2 j Hin) as (job' & E & Er & _). simplify_eq. by rewrite Er in Hq. }
  pose proof (unregister_ok e j job m Hok He' Hj Hr Hnw) as H'. refine (same_jobs_ok _ _ _ _ H').
  etransitivity; [|apply queueRefreshReschedule_jobs]. by repeat case_match.
Qed.

(** ** Acting on a credential that is due *)

Lemma mark_jobs_ok l id epoch now m : jobs_ok None m →
  match markRefreshPending l id epoch now m with
  | (m', None) => m' = m
  | (m', Some j) => jobs_ok (Some j) m' ∧ j ∉ working m' ∧ (∀ l', ¬ in_channel m' l' j)
      ∧ ∃ job, jobs m' !! j = Some job ∧ jb_running job = false ∧ jb_loop job = l
  end.
Proof.
  intros Hok. pose proof Hok as [H1 H2 H3 H4 H5]. unfold markRefreshPending. destruct (pending_refused m id epoch now) eqn:Hr; [done|]. cbv zeta.
  assert (refreshJobs m !! id = None) as Hid.
  { unfold pending_refused in Hr. destruct (auths m !! id); [|done]. apply orb_false_iff in Hr as [Hr _].
    apply orb_false_iff in Hr as [_ Hr]. bprop. by apply eq_None_not_Some. }
  set (j := next_job m). set (job := {| jb_id := id |}). set (m1 := set auths _ _).
  assert (jobs m !! j = None) as Hj.
  { apply eq_None_not_Some. intros ?%H3. unfold j in *. lia. }
  assert (j ∉ working m) as Hw by (intros (? & E & _)%H2; congruence).
  assert (∀ l', ¬ in_channel m l' j) as Hc by (intros l' (? & E & _)%H4; congruence).
  assert (∀ k job', jobs m !! k = Some job' → <[j := job]> (jobs m) !! k = Some job') as Hl.
  { intros k job' E. rewrite lookup_insert_ne; [done|]. intros <-. congruence. }
  pose proof (queueRefreshReschedule_jobs id m1) as Hs. pose proof Hs as (_ & S2 & _ & S4 & S5).
  split_and!; [apply (same_jobs_ok _ m1 _ Hs)|by rewrite S4|intros l'; unfold in_channel; rewrite S5; apply Hc|].
  - split.
    + intros id' k. unfold m1. cbn. destruct (decide (id' = id)) as [->|Hne].
      * rewrite lookup_insert_eq. intros [= <-]. exists job. rewrite lookup_insert_eq. by split_and!.
      * rewrite lookup_insert_ne by done. intros (job' & E1 & E2 & E3)%H1. exists job'. split_and!; [by apply Hl|done|]. intros _. by apply E3.
    + intros k (job' & E1 & E2 & E3)%H2. exists job'. unfold m1. cbn. split_and!; [by apply Hl|done|].
      rewrite lookup_insert_ne; [done|]. intros E. by rewrite <- E, Hid in E3.
    + intros k. unfold m1. cbn. fold j. destruct (decide (k = j)) as [->|Hk]; [lia|]. rewrite lookup_insert_ne by done. intros ?%H3. unfold j. lia.
    + intros l' k (job' & E1 & E2 & E3)%H4. exists job'. unfold m1. cbn. split_and!; [by apply Hl|done|done].
    + done.
  - exists job. rewrite S2. unfold m1. cbn. by rewrite lookup_insert_eq.
Qed.

Lemma channels_lookup m l : channels m !! l = (fun lp => (lp_jobs lp, lp_buffer lp)) <$> loops m !! l.
Proof. apply lookup_fmap. Qed.
Lemma channels_modify l f g m : (∀ lp, lp_jobs (f lp) = g (lp_jobs lp) ∧ lp_buffer (f lp) = lp_buffer lp) →
  channels (modify_loop l f m) = alter (fun c => (g c.1, c.2)) l (channels m).
Proof.
  intros Hf. apply map_eq. intros x. rewrite channels_lookup. unfold modify_loop. cbn [loops set eta refreshManager_eta].
  destruct (decide (x = l)) as [->|Hx]; [|by rewrite !lookup_alter_ne, channels_lookup].
  rewrite !lookup_alter_eq, channels_lookup. destruct (loops m !! l) as [lp|]; [|done]. cbn. by destruct (Hf lp) as [-> ->].
Qed.
Lemma in_channel_modify l f g m x j : (∀ lp, lp_jobs (f lp) = g (lp_jobs lp) ∧ lp_buffer (f lp) = lp_buffer lp) →
  in_channel (modify_loop l f m) x j ↔
  if bool_decide (x = l) then ∃ c, channels m !! l = Some c ∧ j ∈ g c.1 else in_channel m x j.
Proof.
  intros Hf. unfold in_channel. rewrite (channels_modify l f g m Hf). case_bool_decide as E.
  - subst x. rewrite lookup_alter_eq. split.
    + intros (c & (c' & E & ->)%fmap_Some & Hj). by exists c'.
    + intros (c & E & Hj). exists (g c.1, c.2). by rewrite E.
  - by rewrite lookup_alter_ne.
Qed.

(** A new job waits in the channel. *)
Lemma send_ok l j job m : jobs_ok (Some j) m → (∀ l', ¬ in_channel m l' j) → jobs m !! j = Some job → jb_running job = false →
  jb_loop job = l → has_room l m = true → jobs_ok None (modify_loop l (send_job j) m).
Proof.
  intros [H1 H2 H3 H4 H5] Hnot Hj Hrun Hl Hroom.
  assert (∀ lp, lp_jobs (send_job j lp) = lp_jobs lp ++ [j] ∧ lp_buffer (send_job j lp) = lp_buffer lp) as Hf by done.
  assert (∃ c, channels m !! l = Some c ∧ Z.of_nat (length c.1) < c.2) as (c & Hc & Hlen).
  { unfold has_room in Hroom. setoid_rewrite channels_lookup. destruct (loops m !! l) as [lp|]; [|done]. bprop. by eexists. }
  assert (∀ x k, in_channel (modify_loop l (send_job j) m) x k ↔ in_channel m x k ∨ (x = l ∧ k = j)) as Hi.
  { intros x k. rewrite (in_channel_modify l _ (fun q => q ++ [j]) m x k Hf). unfold in_channel. case_bool_decide as E; [subst x|naive_solver].
    rewrite Hc. split; [intros (? & [= <-] & [?|?%list_elem_of_singleton]%elem_of_app); naive_solver|].
    intros [(? & [= <-] & Hk)|[_ ->]]; exists c; split; try done; apply elem_of_app; [by left|right; by apply list_elem_of_singleton]. }
  split; [| exact H2|exact H3| |].
  - intros id k (job' & E1 & E2 & E3)%H1. exists job'. split_and!; [done|done|]. intros _.
    destruct (decide (k = j)) as [->|Hk]; [right; apply Hi; right; by simplify_eq|].
    destruct E3 as [|E3]; [by intros [= ->]|by left|right; apply Hi; by left].
  - intros x k [Hk|[-> ->]]%Hi; [by apply H4|by exists job].
  - intros x c'. rewrite (channels_modify l _ (fun q => q ++ [j]) m Hf). destruct (decide (x = l)) as [->|Hx].
    + rewrite lookup_alter_eq, Hc. intros [= <-]. cbn. destruct (H5 l c Hc) as (N1 & N2 & N3). rewrite length_app. cbn.
      split_and!; [|lia|done]. apply NoDup_app. split; [done|]. split; [|apply NoDup_singleton].
      intros k Hk ->%list_elem_of_singleton. apply (Hnot l). by exists c.
    + rewrite lookup_alter_ne by done. apply H5.
Qed.

Lemma act_due_ok l ctx_done now clock id r m : jobs_ok None m → jobs_ok None (act_due l ctx_done now clock id r m).
Proof.
  intros Hok. unfold act_due.
  assert (∀ f m', (∀ lp, lp_jobs (f lp) = lp_jobs lp ∧ lp_buffer (f lp) = lp_buffer lp) → jobs_ok None m' → jobs_ok None (modify_loop l f m')) as Hm
    by (intros f m' Hf; by apply same_jobs_ok, modify_same_jobs).
  destruct (rd_next r) as [next|]; [|apply Hm, Hok; apply remove_jobs].
  destruct (negb _); [apply Hm, Hok; apply upsert_jobs|]. destruct (negb _); [apply Hm, Hok; apply upsert_jobs|].
  pose proof (mark_jobs_ok l id (rd_epoch r) now m Hok) as Hmark. destruct (markRefreshPending _ _ _ _ _) as [m1 [j|]].
  - destruct Hmark as (M1 & M2 & M3 & job & M4 & M5 & M6). destruct (negb ctx_done && has_room l m1) eqn:E.
    + apply andb_true_iff in E as [_ E]. by eapply send_ok.
    + apply Hm; [apply upsert_jobs|]. apply (finish_ok (Some j)); [done|by right|by left].
  - subst m1. apply Hm, Hok. apply reschedule_jobs.
Qed.

(** ** Workers *)

Lemma take_channel l j rest lp m : jobs_ok None m → loops m !! l = Some lp → lp_jobs lp = j :: rest →
  let m1 := modify_loop l (fun lp => lp <| lp_jobs := rest |>) m in
  jobs_ok (Some j) m1 ∧ (∀ x, ¬ in_channel m1 x j) ∧ j ∉ working m1.
Proof.
  intros [H1 H2 H3 H4 H5] E Eq. cbv zeta. set (f := fun lp => lp <| lp_jobs := rest |>). set (m1 := modify_loop _ _ _).
  assert (channels m !! l = Some (j :: rest, lp_buffer lp)) as Hc by (rewrite channels_lookup, E; cbn; by rewrite Eq).
  destruct (H5 l _ Hc) as (N1 & N2 & N3). apply NoDup_cons in N1 as [N1 N1']. cbn [fst snd length] in N2.
  assert (∀ lp', lp_jobs (f lp') = (fun _ => rest) (lp_jobs lp') ∧ lp_buffer (f lp') = lp_buffer lp') as Hf by done.
  assert (in_channel m l j) as Hj by (exists (j :: rest, lp_buffer lp); split; [done|by left]).
  destruct (H4 l j Hj) as (job & J1 & J2 & J3).
  assert (∀ x k, in_channel m1 x k ↔ in_channel m x k ∧ k ≠ j) as Hi.
  { intros x k. unfold m1. rewrite (in_channel_modify l f (fun _ => rest) m x k Hf). case_bool_decide as Ex; [subst x|].
    - unfold in_channel. rewrite Hc. split.
      + intros (? & [= <-] & Hk). split; [exists (j :: rest, lp_buffer lp); split; [done|by right]|]. by intros ->.
      + intros [(? & [= <-] & [->|Hk]%elem_of_cons) Hne]; [done|]. by exists (j :: rest, lp_buffer lp).
    - split; [|by intros [? _]]. intros Hk. split; [done|]. intros ->. destruct (H4 x j Hk) as (? & ? & _ & ?). by simplify_eq. }
  split; [split; [|exact H2|exact H3| |]|split].
  - intros id k (job' & E1 & E2 & E3)%H1. exists job'. split_and!; [done|done|]. intros Hk.
    destruct E3 as [|E3]; [done|by left|right]. apply Hi. split; [done|]. by intros ->.
  - intros x k [Hk _]%Hi. by apply H4.
  - intros x c. unfold m1. rewrite (channels_modify l f (fun _ => rest) m Hf). destruct (decide (x = l)) as [->|Hx].
    + rewrite lookup_alter_eq, Hc. intros [= <-]. cbn. split_and!; [done|lia|done].
    + rewrite lookup_alter_ne by done. apply H5.
  - intros x [_ Hne]%Hi. by apply Hne.
  - intros Hw%H2. destruct Hw as (? & ? & ? & _). congruence.
Qed.

Lemma take_ok l ctx_done clock m : jobs_ok None m → jobs_ok None (worker_take l ctx_done clock m).
Proof.
  intros Hok. unfold worker_take. destruct (loops m !! l) as [lp|] eqn:E; [|done]. destruct (lp_jobs lp) as [|j rest] eqn:Eq; [done|].
  destruct (take_channel l j rest lp m Hok E Eq) as (T1 & T2 & T3). set (m1 := modify_loop _ _ _) in *. unfold beginRefreshJob.
  destruct (jobs m1 !! j) as [job|] eqn:Hj; [|apply (finish_ok (Some j)); [done|by right|by left]].
  destruct (_ || _) eqn:Hr; [apply (finish_ok (Some j)); [done|by right|by left]|].
  apply orb_false_iff in Hr as [Hr _]. apply orb_false_iff in Hr as [_ Hr]. bprop. apply dec_stable in Hr.
  pose proof T1 as [H1 H2 H3 H4 H5].
  assert (∀ k job', k ≠ j → jobs m1 !! k = Some job' → <[j := job <| jb_running := true |>]> (jobs m1) !! k = Some job') as Hl
    by (intros; by rewrite lookup_insert_ne).
  split.
  - intros id k Hk. destruct (decide (k = j)) as [->|Hne].
    + destruct (H1 id j Hk) as (job' & E1 & E2 & _). exists (job <| jb_running := true |>). cbn. rewrite lookup_insert_eq.
      split_and!; [done|by simplify_eq|]. intros _. left. set_solver.
    + destruct (H1 id k Hk) as (job' & E1 & E2 & E3). exists job'. split_and!; [by apply Hl|done|]. intros _.
      destruct E3 as [|E3]; [by intros [= ->]|left; cbn; set_solver|by right].
  - cbn. intros k Hk. destruct (decide (k = j)) as [->|Hne]; [exists (job <| jb_running := true |>); rewrite lookup_insert_eq; by split_and!|].
    destruct (H2 k) as (job' & E1 & E2 & E3); [set_solver|]. exists job'. split_and!; [by apply Hl|done|done].
  - cbn. intros k Hk. destruct (decide (k = j)) as [->|Hne]; [apply H3; by eexists|]. apply H3. by rewrite lookup_insert_ne in Hk.
  - intros x k Hk. destruct (decide (k = j)) as [->|Hne]; [by destruct (T2 x)|].
    destruct (H4 x k Hk) as (job' & E1 & E2 & E3). exists job'. split_and!; [by apply Hl|done|done].
  - exact H5.
Qed.
Lemma done_ok j clock m : jobs_ok None m → jobs_ok None (worker_done j clock m).
Proof.
  intros Hok. unfold worker_done. case_bool_decide as Hw; [|done]. pose proof Hok as [H1 H2 H3 H4 H5].
  apply (finish_ok (Some j)); [|by right|left; cbn; set_solver]. split; [| |done|done|done].
  - intros id k (job & E1 & E2 & E3)%H1. exists job. split_and!; [done|done|]. intros Hk. destruct E3 as [E3|E3]; [done|left|by right].
    cbn. assert (k ≠ j) by (by intros ->). set_solver.
  - cbn. intros k Hk. apply H2. set_solver.
Qed.

(** ** The other steps *)

Lemma pop_jobs l now m : same_jobs m (pop_due_at l now m).1.
Proof.
  unfold pop_due_at. destruct (loops m !! l); [|done]. destruct (popDue _ _). by apply modify_same_jobs.
Qed.
Lemma applyDirty_jobs order l now m : same_jobs m (applyDirty order l now m).
Proof.
  unfold applyDirty. destruct (loops m !! l) as [lp|]; [|done]. set (m1 := modify_loop _ _ _).
  assert (same_jobs m m1) as H by (by apply modify_same_jobs). revert H. generalize m1. generalize (order (lp_dirty lp)).
  intros ids. induction ids as [|id ids IH]; intros m2 H; [done|]. cbn. apply IH. etransitivity; [done|].
  apply modify_same_jobs, reschedule_jobs.
Qed.
Lemma buffer_ok interval concurrency : 64 ≤ lp_buffer (newAuthAutoRefreshLoop interval concurrency).
Proof. unfold newAuthAutoRefreshLoop. cbn. destruct (_ <? 64) eqn:E; bprop; lia. Qed.
Lemma start_ok order l interval workers now m : loops m !! l = None → jobs_ok None m →
  jobs_ok None (StartAutoRefresh order l interval workers now m).
Proof.
  intros Hl Hok. unfold StartAutoRefresh, rebuild. cbv zeta. set (lp := newAuthAutoRefreshLoop _ _).
  assert (64 ≤ lp_buffer lp) as Hb by apply buffer_ok. assert (lp_jobs lp = []) as Hj by done. clearbody lp.
  eapply same_jobs_ok; [by apply modify_same_jobs|]. pose proof Hok as [H1 H2 H3 H4 H5].
  set (m1 := set refreshLoop _ _). assert (channels m1 = <[l := ([], lp_buffer lp)]> (channels m)) as Hc
    by (unfold channels, m1; cbn; by rewrite fmap_insert, Hj).
  assert (channels m !! l = None) as Hn by (by rewrite channels_lookup, Hl).
  assert (∀ x k, in_channel m1 x k ↔ in_channel m x k) as Hi.
  { intros x k. unfold in_channel. rewrite Hc. destruct (decide (x = l)) as [->|Hx]; [|by rewrite lookup_insert_ne].
    rewrite lookup_insert_eq, Hn. split; [by intros (? & [= <-] & ?%not_elem_of_nil)|by intros (? & [=] & _)]. }
  split; [|done|done| |].
  - intros id k. setoid_rewrite Hi. apply H1.
  - intros x k. rewrite Hi. apply H4.
  - intros x c. rewrite Hc. destruct (decide (x = l)) as [->|Hx]; [|rewrite lookup_insert_ne by done; apply H5].
    rewrite lookup_insert_eq. intros [= <-]. cbn. split_and!; [apply NoDup_nil_2|lia|done].
Qed.
Lemma step_ok m m' : loop_step m m' → jobs_ok None m → jobs_ok None m'.
Proof.
  intros Hs Hok. destruct Hs.
  - by apply act_due_ok.
  - by eapply same_jobs_ok; [apply pop_jobs|].
  - by eapply same_jobs_ok; [apply applyDirty_jobs|].
  - by eapply same_jobs_ok; [by apply modify_same_jobs|].
  - by apply take_ok.
  - by apply done_ok.
  - apply (finish_ok None); [done|by left|by right].
  - by eapply same_jobs_ok; [apply queueRefreshReschedule_jobs|].
  - by eapply same_jobs_ok; [apply queueRefreshUnschedule_jobs|].
  - by apply start_ok.
  - by apply (same_jobs_ok None m).
  - by apply (same_jobs_ok None m).
Qed.
Lemma reachable_jobs_ok m : reachable m → jobs_ok None m.
Proof. intros (m0 & H0%initial_ok & Hs). induction Hs; [done|]. by apply IHHs, (step_ok x). Qed.

(** C21 Whatever the interleaving of loops, workers and the rest of the program, restarts
    of the loop included: two workers never refresh one credential at the same time; a
    credential whose job is registered has it with a worker or waiting in the channel of
    the loop that made it, so no job is lost; and no channel holds more than its
    capacity, so that sending never blocks. *)
Theorem one_refresh_per_credential (m : refreshManager) :
  reachable m →
  (∀ i j job job', i ∈ working m → j ∈ working m → jobs m !! i = Some job → jobs m !! j = Some job' → jb_id job = jb_id job' → i = j)
  ∧ (∀ id j, refreshJobs m !! id = Some j →
       ∃ job, jobs m !! j = Some job ∧ jb_id job = id
         ∧ (j ∈ working m ∨ ∃ lp, loops m !! jb_loop job = Some lp ∧ j ∈ lp_jobs lp))
  ∧ (∀ l lp, loops m !! l = Some lp → NoDup (lp_jobs lp) ∧ Z.of_nat (length (lp_jobs lp)) ≤ lp_buffer lp).
Proof.
  intros [H1 H2 H3 H4 H5]%reachable_jobs_ok. split_and!.
  - intros i j job job' Hi Hj E1 E2 E. destruct (H2 i Hi) as (? & ? & _ & R1). destruct (H2 j Hj) as (? & ? & _ & R2). simplify_eq.
    rewrite E in R1. by simplify_eq.
  - intros id j (job & E1 & E2 & E3)%H1. exists job. split_and!; [done|done|]. destruct E3 as [|(c & E & Hj)]; [done|by left|right].
    rewrite channels_lookup in E. apply fmap_Some in E as (lp & E & ->). by exists lp.
  - intros l lp E. destruct (H5 l (lp_jobs lp, lp_buffer lp)) as (N1 & N2 & _); [by rewrite channels_lookup, E|done].
Qed.

End RefreshJobs.
End RefreshJobs.
