(* ===== verification/RefreshDemo.v ===== *)
(** * A credential whose time has come, through the refresh loop *)
From S2P Require Import Prelude GoLib AuthTypes Expiry Classify Scheduler RefreshDue RefreshHeap RefreshLoop RefreshProps RefreshJobs.
Import AuthTypes Expiry Classify Scheduler RefreshDue RefreshHeap RefreshLoop RefreshProps RefreshJobs.

Module RefreshDemo.

#[local] Existing Instance plain_parse.
#[local] Existing Instance plain_runtime.

(** A Claude credential, an executor for it, and no loop yet. *)
Definition demo_manager : refreshManager :=
  {| auths := {["c" := claude_auth]}; homeEnabled := false; executors := {["claude"]}; refreshJobs := ∅; jobs := ∅; next_job := 0;
     loops := ∅; refreshLoop := None; working := ∅ |}.
Definition started : refreshManager := StartAutoRefresh elements 0 0 0 1000 demo_manager.
(** When the credential is refreshed: four hours after the last refresh. *)
Definition due_time : time := 1000 + 240 * minute.

Lemma claude_regular m id : auths m = {["c" := claude_auth]} → regular due_time m id.
Proof.
  intros E a Ha. rewrite E in Ha. apply lookup_singleton_Some in Ha as [<- <-]. split; [done|].
  intros [[x Hx] _]. vm_compute in Hx. discriminate.
Qed.
Definition started_loop : authAutoRefreshLoop :=
  (newAuthAutoRefreshLoop refreshCheckInterval 16) <| lp_heap := heap_Push "c" due_time empty_queue |>.
Lemma started_live : live 0 started.
Proof.
  split; [exists started_loop|vm_compute; reflexivity]. split; [vm_compute; reflexivity|].
  split; [apply heap_Push_ok; [apply empty_queue_ok|reflexivity]|reflexivity].
Qed.
Lemma started_sched : sched 0 started = {["c" := due_time]}.
Proof. apply (bool_decide_unpack _). vm_compute. exact I. Qed.

Lemma refresh_loop_makes_progress_witness :
  let m := on_timer elements 0 false due_time due_time started in
  live 0 started ∧ dirty 0 started = ∅ ∧ sched 0 m !! "c" = Some (due_time + minute)
  ∧ ∀ lp w, loops m !! 0%nat = Some lp → nextWait due_time (lp_heap lp) = Some w → 0 < w ≤ maxRefreshTimerWait.
Proof.
  cbv zeta. split; [exact started_live|]. assert (dirty 0 started = ∅) as Hd by (vm_compute; reflexivity).
  split; [exact Hd|]. split; [vm_compute; reflexivity|].
  refine (proj2 (proj2 (refresh_loop_makes_progress 0 due_time false due_time plain_in_range _ elements started started_live _ _)) Hd).
  - reflexivity.
  - intros s. reflexivity.
  - intros id t _ _. apply claude_regular. vm_compute. reflexivity.
Defined.

Lemma refresh_loop_forgets_nothing_witness :
  let m := on_timer elements 0 false due_time due_time started in
  next_check 0 due_time "c" m = Some (due_time + minute) ∧ is_Some (sched 0 m !! "c").
Proof.
  cbv zeta. assert (next_check 0 due_time "c" (on_timer elements 0 false due_time due_time started) = Some (due_time + minute)) as E
    by (vm_compute; reflexivity).
  split; [exact E|].
  refine (proj1 (refresh_loop_forgets_nothing 0 due_time false due_time plain_in_range _ elements started "c" started_live _ _ _) _).
  - reflexivity.
  - intros s. reflexivity.
  - discriminate.
  - left. rewrite started_sched. eexists. reflexivity.
  - rewrite E. eexists. reflexivity.
Defined.

(** The loop takes the credential, queues a job and a worker begins it. *)
Definition popped : refreshManager := (pop_due_at 0 due_time started).1.
Definition acted : refreshManager :=
  match read_due 0 due_time "c" popped with Some r => act_due 0 false due_time due_time "c" r popped | None => popped end.
Definition taken : refreshManager := worker_take 0 false due_time acted.
Lemma taken_reachable : reachable taken.
Proof.
  exists demo_manager. split; [vm_compute; done|]. eapply rtc_l; [by apply (loop_start elements 0 0 0 1000)|].
  eapply rtc_l; [apply (loop_pop 0 due_time)|]. eapply rtc_l; [|apply rtc_once, loop_take].
  fold started popped. unfold taken, acted. destruct (read_due 0 due_time "c" popped) as [r|] eqn:E; [apply loop_act|].
  vm_compute in E. discriminate.
Qed.
Lemma one_refresh_per_credential_witness :
  reachable taken ∧ working taken = {[0%nat]} ∧ refreshJobs taken !! "c" = Some 0%nat
  ∧ ∀ i j job job', i ∈ working taken → j ∈ working taken → jobs taken !! i = Some job → jobs taken !! j = Some job' →
      jb_id job = jb_id job' → i = j.
Proof.
  split; [exact taken_reachable|]. split; [apply (bool_decide_unpack _); vm_compute; exact I|]. split; [vm_compute; reflexivity|].
  exact (proj1 (one_refresh_per_credential taken taken_reachable)).
Defined.

End RefreshDemo.
