(* ===== verification/SchedTables.v ===== *)
(** * The tables of the scheduler stay consistent

    The invariant that ties credentials, providers and shards together, and that
    every update, removal and rebuild keeps it. *)
From S2P Require Import Prelude GoLib Weight Thinking AuthTypes Expiry Availability Selector SchedShard SchedShardProps Scheduler.
Import AuthTypes Expiry Availability SchedShard SchedShardProps Scheduler.

Module SchedTables.

Section Props.
Context `{GP : GoParse} {R : Type} `{Catalog : ClientCatalog R}.

(** ** What the shard operations do to the entries *)

Lemma rebuild_entries m : m_entries (rebuildIndexesLocked m) = m_entries m.
Proof. done. Qed.
Lemma rebuild_key m : m_modelKey (rebuildIndexesLocked m) = m_modelKey m.
Proof. done. Qed.

Definition entry_of (meta : scheduledAuthMeta) (modelKey : string) (now : time) : scheduledAuth :=
  evaluate modelKey now
    {| e_meta := meta; e_auth := sm_auth meta; e_state := scheduledStateReady; e_nextRetryAt := 0 |}.

Lemma upsert_entries m meta now :
  m_entries (upsertEntryLocked m meta now)
  = <[a_ID (sm_auth meta) := entry_of meta (m_modelKey m) now]> (m_entries m).
Proof. unfold upsertEntryLocked. destruct (m_entries m !! _); [case_if|]; done. Qed.

Lemma upsert_key m meta now : m_modelKey (upsertEntryLocked m meta now) = m_modelKey m.
Proof. unfold upsertEntryLocked. destruct (m_entries m !! _); [case_if|]; done. Qed.

Lemma remove_entries m id : id ≠ "" → m_entries (removeEntryLocked m id) = delete id (m_entries m).
Proof.
  intros Hid. unfold removeEntryLocked. rewrite (proj2 (String.eqb_neq _ _) Hid).
  destruct (m_entries m !! id) eqn:Hl; [done|]. by rewrite delete_id.
Qed.

Lemma remove_key m id : m_modelKey (removeEntryLocked m id) = m_modelKey m.
Proof. unfold removeEntryLocked. case_if; [done|]. by destruct (m_entries m !! id). Qed.

(** ** Providers *)

Definition offers (auths : gmap string scheduledAuthMeta) (modelKey id : string) : Prop :=
  ∃ meta, auths !! id = Some meta ∧ supportsModel meta modelKey = true.

(** Shard [m] of [modelKey] holds exactly the credentials of the provider that
    support the model. *)
Record shard_of_provider (t : time) (providerKey : string) (auths : gmap string scheduledAuthMeta)
    (modelKey : string) (m : modelScheduler) : Prop := {
  sp_key : m_modelKey m = modelKey;
  sp_ok : shard_ok t m;
  sp_members : ∀ id, is_Some (m_entries m !! id) ↔ offers auths modelKey id;
  sp_provider : ∀ id e, m_entries m !! id = Some e → executorKeyFromAuth (e_auth e) = providerKey
    ∧ sm_providerKey (e_meta e) = providerKey;
}.

Definition meta_of (providerKey id : string) (meta : scheduledAuthMeta) : Prop :=
  a_ID (sm_auth meta) = id ∧ id ≠ "" ∧ meta_ok meta
  ∧ (executorKeyFromAuth (sm_auth meta) = providerKey ∧ sm_providerKey meta = providerKey)
  ∧ is_disabled (sm_auth meta) = false ∧ trim_space id = id.

Record provider_ok (t : time) (providerKey : string) (p : providerScheduler) : Prop := {
  po_auths : ∀ id meta, p_auths p !! id = Some meta → meta_of providerKey id meta;
  po_shards : ∀ k m, p_modelShards p !! k = Some m → shard_of_provider t providerKey (p_auths p) k m;
}.

Lemma shard_ok_mono t t' m : t ≤ t' → shard_ok t m → shard_ok t' m.
Proof.
  intros Ht [H1 H2 H3]. split; try done. intros id e Hl. eapply entry_ok_mono; [exact Ht|by eapply H2].
Qed.

Lemma shard_of_provider_mono t t' pk auths k m :
  t ≤ t' → shard_of_provider t pk auths k m → shard_of_provider t' pk auths k m.
Proof. intros Ht [H1 H2 H3 H4]. split; try done. by eapply shard_ok_mono. Qed.

Lemma provider_ok_mono t t' pk p : t ≤ t' → provider_ok t pk p → provider_ok t' pk p.
Proof. intros Ht [H1 H2]. split; [done|]. intros k m Hm. eapply shard_of_provider_mono; [exact Ht|by apply H2]. Qed.

Lemma new_provider_ok t pk : provider_ok t pk (new_provider pk).
Proof. split; intros ? ? Hl; cbn in Hl; by rewrite lookup_empty in Hl. Qed.

(** The shard sees the tables through the offers only. *)
Lemma shard_offers_eq t pk auths auths' k m :
  (∀ id, offers auths' k id ↔ offers auths k id) →
  shard_of_provider t pk auths k m → shard_of_provider t pk auths' k m.
Proof. intros Ho [H1 H2 H3 H4]. split; try done. intros id. by rewrite H3, Ho. Qed.

Lemma offers_insert_ne auths k meta id id0 : id ≠ id0 → offers (<[id0 := meta]> auths) k id ↔ offers auths k id.
Proof. intros Hd. unfold offers. by rewrite lookup_insert_ne. Qed.
Lemma offers_insert auths k meta id0 : offers (<[id0 := meta]> auths) k id0 ↔ supportsModel meta k = true.
Proof. unfold offers. rewrite lookup_insert_eq. split; [by intros (x & [= <-] & Hx)|by eexists]. Qed.

(** A shard brought up to date with the new metadata of one credential. *)
Lemma sync_shard_ok t now pk auths meta k m :
  0 ≤ t ≤ now → shard_of_provider t pk auths k m → meta_of pk (a_ID (sm_auth meta)) meta →
  shard_of_provider now pk (<[a_ID (sm_auth meta) := meta]> auths) k (sync_shard meta now k m).
Proof.
  intros Ht [H1 H2 H3 H4] (_ & Hne & Hok & Hpk & _).
  unfold sync_shard. set (id0 := a_ID (sm_auth meta)) in *. destruct (supportsModel meta k) eqn:Es.
  - split; [by rewrite upsert_key|by apply (upsert_ok t)| |]; intros id; rewrite upsert_entries; fold id0.
    + destruct (decide (id = id0)) as [->|Hd].
      * rewrite lookup_insert_eq, offers_insert. split; by eauto.
      * by rewrite lookup_insert_ne, offers_insert_ne, H3.
    + intros e [[<- <-]|[_ Hl]]%lookup_insert_Some; [done|by eapply H4].
  - split; [by rewrite remove_key|apply remove_ok; eapply shard_ok_mono; [|done]; lia| |];
      intros id; rewrite remove_entries by done.
    + destruct (decide (id = id0)) as [->|Hd].
      * rewrite lookup_delete_eq, offers_insert, Es. split; [by intros []|done].
      * by rewrite lookup_delete_ne, offers_insert_ne, H3.
    + intros e [_ Hl]%lookup_delete_Some. by eapply H4.
Qed.

(** Every shard of a table is right for [auths]. *)
Definition shards_for (t : time) (pk : string) (auths : gmap string scheduledAuthMeta)
    (shards : gmap string modelScheduler) : Prop :=
  ∀ k m, shards !! k = Some m → shard_of_provider t pk auths k m.

Lemma sync_at_ok now pk auths meta k shards :
  0 ≤ now → meta_of pk (a_ID (sm_auth meta)) meta → auths !! a_ID (sm_auth meta) = Some meta →
  shards_for now pk auths shards → shards_for now pk auths (sync_at meta now k shards).
Proof.
  intros Hn Hm Hl Hs j m. unfold sync_at. destruct (shards !! k) as [shard|] eqn:Hk; [|by apply Hs].
  intros [[<- <-]|[_ Hj]]%lookup_insert_Some; [|by apply Hs].
  rewrite <- (insert_id auths (a_ID (sm_auth meta)) meta Hl).
  apply (sync_shard_ok now); [lia|by apply Hs|done].
Qed.

Lemma target_steps_ok now pk auths meta targets seen shards :
  0 ≤ now → meta_of pk (a_ID (sm_auth meta)) meta → auths !! a_ID (sm_auth meta) = Some meta →
  shards_for now pk auths shards →
  shards_for now pk auths (foldl (target_step meta now) (seen, shards) targets).2.
Proof.
  intros Hn Hm Hl. revert seen shards. induction targets as [|m targets IH]; intros seen shards Hs; [done|].
  cbn [foldl]. unfold target_step at 2. case_bool_decide; apply IH; [done|by apply sync_at_ok].
Qed.

(** The models of a credential are known to the shards that are not told of it. *)
Definition same_models (auths : gmap string scheduledAuthMeta) (meta : scheduledAuthMeta) : Prop :=
  ∃ old, auths !! a_ID (sm_auth meta) = Some old ∧ sm_supportedModelSet old = sm_supportedModelSet meta.

Lemma supports_same meta old k :
  sm_supportedModelSet old = sm_supportedModelSet meta → supportsModel old k = supportsModel meta k.
Proof. unfold supportsModel. by intros ->. Qed.

Lemma upsert_for_models_ok t now pk p meta targets scoped :
  0 ≤ t ≤ now → provider_ok t pk p → meta_of pk (a_ID (sm_auth meta)) meta →
  scoped = true ∨ targets = [] ∨ same_models (p_auths p) meta →
  provider_ok now pk (upsertAuthForModelsLocked p meta targets scoped now).
Proof.
  intros Ht [Ha Hs] Hm Hc. unfold upsertAuthForModelsLocked. set (id0 := a_ID (sm_auth meta)) in *.
  assert (Ha' : ∀ id x, <[id0 := meta]> (p_auths p) !! id = Some x → meta_of pk id x)
    by (intros id x [[<- <-]|[_ Hl]]%lookup_insert_Some; [done|by apply Ha]).
  destruct (scoped || match targets with [] => true | _ => false end) eqn:Eall.
  - split; cbn; [done|]. intros k m. rewrite map_lookup_imap. intros (m0 & Hl & [= <-])%bind_Some.
    apply (sync_shard_ok t); [done|by apply Hs|done].
  - destruct Hc as [->|[->|(old & Hold & Hset)]]; [done|by rewrite orb_true_r in Eall|].
    split; cbn; [done|]. apply target_steps_ok; [lia|done|by rewrite lookup_insert_eq|].
    apply sync_at_ok; [lia|done|by rewrite lookup_insert_eq|]. intros k m Hk.
    eapply shard_offers_eq; [|eapply shard_of_provider_mono; [|by apply Hs]; lia].
    intros id. destruct (decide (id = id0)) as [->|Hd]; [|by apply offers_insert_ne].
    rewrite offers_insert. unfold offers. fold id0 in Hold. rewrite Hold.
    rewrite <- (supports_same meta old k Hset). split; [by eexists|by intros (x & [= <-] & Hx)].
Qed.

Lemma provider_remove_ok t pk p id : provider_ok t pk p → provider_ok t pk (provider_remove p id).
Proof.
  intros [Ha Hs]. unfold provider_remove. destruct (String.eqb id "") eqn:E; [done|].
  apply String.eqb_neq in E. split; cbn.
  - intros j meta [_ Hl]%lookup_delete_Some. by apply Ha.
  - intros k m. rewrite lookup_fmap. intros (m0 & Hl & ->)%fmap_Some. destruct (Hs k m0 Hl) as [H1 H2 H3 H4].
    split; [by rewrite remove_key|by apply remove_ok| |]; intros j; rewrite remove_entries by done.
    + unfold offers. destruct (decide (j = id)) as [->|Hd].
      * rewrite !lookup_delete_eq. split; [by intros []|by intros (? & ? & _)].
      * rewrite !lookup_delete_ne by done. apply H3.
    + intros e [_ He]%lookup_delete_Some. by eapply H4.
Qed.

(** A shard built from the table. *)
Definition built (k : string) (now : time) (metas : list scheduledAuthMeta) (id : string)
    (before after : option scheduledAuth) : Prop :=
  (after = before ∧ ∀ meta, meta ∈ metas → a_ID (sm_auth meta) = id → supportsModel meta k = false)
  ∨ ∃ meta, meta ∈ metas ∧ a_ID (sm_auth meta) = id ∧ supportsModel meta k = true
      ∧ after = Some (entry_of meta k now).

Lemma build_entries k now metas m :
  m_modelKey m = k →
  let m' := foldl (build_step k now) m metas in
  m_modelKey m' = k ∧ ∀ id, built k now metas id (m_entries m !! id) (m_entries m' !! id).
Proof.
  revert m. induction metas as [|meta metas IH]; intros m Hk m'.
  { split; [done|]. intros id. left. split; [done|]. by intros ? ?%elem_of_nil. }
  subst m'. cbn [foldl]. unfold build_step at 2 4. destruct (supportsModel meta k) eqn:Es.
  - specialize (IH (upsertEntryLocked m meta now)). rewrite upsert_key in IH. destruct (IH Hk) as [Hk' Hall].
    split; [done|]. intros id. destruct (Hall id) as [[Heq Hno]|(x & Hin & Hid & Hx & Heq)].
    + rewrite Heq, upsert_entries, Hk. destruct (decide (a_ID (sm_auth meta) = id)) as [Hid|Hd].
      * right. exists meta. rewrite Hid, lookup_insert_eq. split_and!; [by left|done..].
      * left. rewrite lookup_insert_ne by done. split; [done|].
        intros x [->|Hx]%elem_of_cons Hxid; [done|by apply Hno].
    + right. exists x. split_and!; [by right|done..].
  - destruct (IH m Hk) as [Hk' Hall]. split; [done|]. intros id.
    destruct (Hall id) as [[Heq Hno]|(x & Hin & Hid & Hx & Heq)]; [left|right].
    + split; [done|]. intros x [->|Hx]%elem_of_cons Hxid; [done|by apply Hno].
    + exists x. split_and!; [by right|done..].
Qed.

Lemma build_shard_ok k now metas m :
  0 ≤ now → shard_ok now m → (∀ meta, meta ∈ metas → meta_ok meta) →
  shard_ok now (foldl (build_step k now) m metas).
Proof.
  intros Hn. revert m. induction metas as [|meta metas IH]; intros m Hm Hall; [done|]. cbn [foldl].
  apply IH; [|by intros x Hx; apply Hall; right]. unfold build_step. case_if; [|done].
  apply (upsert_ok now); [lia|done|by apply Hall; left].
Qed.

Lemma metas_list_spec (auths : gmap string scheduledAuthMeta) meta :
  (∀ id x, auths !! id = Some x → a_ID (sm_auth x) = id) →
  meta ∈ map snd (map_to_list auths) ↔ auths !! a_ID (sm_auth meta) = Some meta.
Proof.
  intros Hk. rewrite list_elem_of_In, in_map_iff. split.
  - intros ([id x] & <- & Hin). apply list_elem_of_In, elem_of_map_to_list in Hin. cbn. by rewrite (Hk id x).
  - intros Hl. exists (a_ID (sm_auth meta), meta). split; [done|]. by apply list_elem_of_In, elem_of_map_to_list.
Qed.

Lemma build_ok pk auths k now :
  0 ≤ now → (∀ id meta, auths !! id = Some meta → meta_of pk id meta) →
  let m := foldl (build_step k now) (new_shard k) (map snd (map_to_list auths)) in
  shard_of_provider now pk auths k m ∧ current now m.
Proof.
  intros Hn Ha m.
  assert (Hin : ∀ meta, meta ∈ map snd (map_to_list auths) ↔ auths !! a_ID (sm_auth meta) = Some meta).
  { intros meta. apply metas_list_spec. intros id x Hx. apply (Ha id x Hx). }
  assert (Hok : shard_ok now m).
  { apply build_shard_ok; [done|apply new_shard_ok|]. intros meta Hm%Hin. by apply Ha in Hm as (_ & _ & ? & _). }
  destruct (build_entries k now (map snd (map_to_list auths)) (new_shard k) eq_refl) as [Hk Hall].
  fold m in Hk, Hall.
  assert (Hent : ∀ id e, m_entries m !! id = Some e →
    ∃ meta, auths !! id = Some meta ∧ supportsModel meta k = true ∧ e = entry_of meta k now).
  { intros id e He. destruct (Hall id) as [[Heq _]|(meta & Hm%Hin & <- & Hs & Heq)].
    - cbn in Heq. rewrite lookup_empty in Heq. congruence.
    - exists meta. split_and!; [done..|congruence]. }
  split.
  - split; [done|done| |].
    + intros id. split.
      * intros [e (meta & Hm & Hs & _)%Hent]. by exists meta.
      * intros (meta & Hm & Hs). destruct (Hall id) as [[_ Hno]|(x & _ & _ & _ & ->)]; [|by eexists].
        pose proof (Ha id meta Hm) as (Hid & _). rewrite Hno in Hs; [done| |done]. apply Hin. by rewrite Hid.
    + intros id e (meta & Hm & _ & ->)%Hent. by apply Ha in Hm as (_ & _ & _ & H1 & _).
  - split; [done|]. intros id e (meta & _ & _ & ->)%Hent. rewrite Hk. apply evaluate_fresh.
Qed.

Lemma promote_shard_ok t now pk auths k m :
  0 ≤ t ≤ now → shard_of_provider t pk auths k m →
  shard_of_provider now pk auths k (promoteExpiredLocked m now).
Proof.
  intros Ht [H1 H2 H3 H4]. destruct (promote_ok t m now Ht H2) as (Hok & Hk & Hall).
  split; [congruence|done| |].
  - intros id. rewrite <- H3. specialize (Hall id).
    destruct (m_entries m !! id), (m_entries (promoteExpiredLocked m now) !! id); try done;
      split; try done; by intros [].
  - intros id e He. specialize (Hall id). rewrite He in Hall. destruct (m_entries m !! id) as [x|] eqn:Hx; [|done].
    destruct Hall as (Hm & Ha & _). rewrite Hm, Ha. by eapply H4.
Qed.

(** The shard a pick works on: it is up to date, and it is the provider's. *)
Lemma ensure_model_ok t now pk p modelKey :
  0 ≤ t ≤ now → provider_ok t pk p →
  let r := ensureModelLocked p modelKey now in
  provider_ok now pk r.2 ∧ p_auths r.2 = p_auths p
  ∧ p_modelShards r.2 !! canonicalModelKey modelKey = Some r.1
  ∧ shard_of_provider now pk (p_auths p) (canonicalModelKey modelKey) r.1 ∧ current now r.1.
Proof.
  intros Ht [Ha Hs]. unfold ensureModelLocked. cbv zeta. cbn [fst snd].
  set (k := canonicalModelKey modelKey). set (shard := match p_modelShards p !! k with Some _ => _ | None => _ end).
  assert (Hshard : shard_of_provider now pk (p_auths p) k shard ∧ current now shard).
  { unfold shard. destruct (p_modelShards p !! k) as [m|] eqn:Hm; [|apply build_ok; [lia|done]].
    specialize (Hs k m Hm). split; [by apply (promote_shard_ok t)|apply (promote_current t); [lia|apply Hs]]. }
  split_and!; [|done|by cbn; rewrite lookup_insert_eq|apply Hshard|apply Hshard].
  split; cbn; [done|]. intros j m [[<- <-]|[_ Hj]]%lookup_insert_Some; [apply Hshard|].
  eapply shard_of_provider_mono; [|by apply Hs]. lia.
Qed.

(** ** The tables *)

Definition at_home (s : authScheduler) (id providerKey : string) : Prop :=
  ∃ p, s_providers s !! providerKey = Some p ∧ is_Some (p_auths p !! id).

(** Every provider is consistent, and a credential is with the provider that
    [authProviders] says and with no other. *)
Record tables_ok (t : time) (s : authScheduler) : Prop := {
  so_providers : ∀ pk p, s_providers s !! pk = Some p → pk ≠ "" ∧ provider_ok t pk p;
  so_home : ∀ id pk, s_authProviders s !! id = Some pk ↔ at_home s id pk;
  so_cursors : ∀ key slot, s_mixedCursors s !! key = Some slot → 0 ≤ slot;
}.

Lemma tables_ok_mono t t' s : t ≤ t' → tables_ok t s → tables_ok t' s.
Proof.
  intros Ht [H1 H2 H3]. split; try done. intros pk p Hp. destruct (H1 pk p Hp). split; [done|].
  by eapply provider_ok_mono.
Qed.

Lemma new_tables_ok t selector : tables_ok t (newAuthScheduler selector).
Proof.
  split; [intros pk p Hl|intros id pk; split; [intros Hl|intros (p & Hl & _)]|intros key slot Hl];
    cbn in Hl; by rewrite lookup_empty in Hl.
Qed.

(** Fields the tables do not depend on. *)
Lemma tables_ok_ext t s s' :
  s_providers s' = s_providers s → s_authProviders s' = s_authProviders s →
  (∀ key slot, s_mixedCursors s' !! key = Some slot → 0 ≤ slot) →
  tables_ok t s → tables_ok t s'.
Proof.
  intros H1 H2 Hc [K1 K2 K3]. split; [by rewrite H1| |done]. unfold at_home. rewrite H1, H2. exact K2.
Qed.

Lemma set_generation_tables t s id g : tables_ok t s → tables_ok t (set_generation s id g).
Proof. intros H. apply (tables_ok_ext t s); [done|done|apply H|done]. Qed.

Lemma home_unique t s id pk pk' : tables_ok t s → at_home s id pk → at_home s id pk' → pk = pk'.
Proof. intros H Ha%(so_home t s H) Hb%(so_home t s H). congruence. Qed.

(** One provider replaced: who is with it changes as given. *)
Lemma provider_remove_auths p id : id ≠ "" → p_auths (provider_remove p id) = delete id (p_auths p).
Proof. intros Hid. unfold provider_remove. by rewrite (proj2 (String.eqb_neq _ _) Hid). Qed.

Lemma remove_from_providers_ok t s id :
  id ≠ "" → tables_ok t s →
  let s' := removeAuthFromProvidersLocked s id in
  tables_ok t s' ∧ s_authProviders s' = delete id (s_authProviders s).
Proof.
  intros Hid Hs s'. subst s'. unfold removeAuthFromProvidersLocked.
  destruct (s_authProviders s !! id) as [pk|] eqn:Hpk; cbn [default].
  2: { cbn. split; [done|]. by rewrite delete_id. }
  pose proof Hpk as Hhome%(so_home t s Hs). pose proof Hhome as (p & Hp & _). destruct (so_providers t s Hs pk p Hp) as [Hne Hok].
  cbn. rewrite (proj2 (String.eqb_neq _ _) Hne). unfold remove_at. rewrite Hp. split; [|done].
  split; cbn; [| |apply Hs].
  - intros qk q [[<- <-]|[_ Hq]]%lookup_insert_Some; [|by apply Hs]. split; [done|by apply provider_remove_ok].
  - intros j qk. unfold at_home. cbn. destruct (decide (j = id)) as [->|Hj].
    + rewrite lookup_delete_eq. split; [done|].
      intros (q & [[<- <-]|[Hne' Hq]]%lookup_insert_Some & Hin).
      * rewrite provider_remove_auths, lookup_delete_eq in Hin by done. by destruct Hin.
      * destruct Hne'. apply (home_unique t s id); [done..|by exists q].
    + rewrite lookup_delete_ne by done. rewrite (so_home t s Hs). unfold at_home.
      destruct (decide (qk = pk)) as [->|Hqk].
      * rewrite lookup_insert_eq, Hp. split; intros (q & [= <-] & Hin); eexists; (split; [done|]);
          rewrite provider_remove_auths, ?lookup_delete_ne in * by done; done.
      * by rewrite lookup_insert_ne by done.
Qed.

(** ** A credential enters a provider *)

Lemma leave_lookup s id pk qk :
  s_providers (leave_previous s id pk) !! qk
  = if bool_decide (qk ≠ pk ∧ qk ≠ "" ∧ s_authProviders s !! id = Some qk)
    then (fun p => provider_remove p id) <$> s_providers s !! qk else s_providers s !! qk.
Proof.
  unfold leave_previous. destruct (s_authProviders s !! id) as [prev|] eqn:Hp; cbn [default].
  2: { cbn. case_bool_decide as Hb; [by destruct Hb as (_ & _ & ?)|done]. }
  cbn. destruct (String.eqb prev "") eqn:E1, (String.eqb prev pk) eqn:E2; cbn [negb andb]; bprop;
    try (case_bool_decide as Hb; [destruct Hb as (? & ? & [= <-]); congruence|done]).
  unfold remove_at. case_bool_decide as Hb.
  - destruct Hb as (_ & _ & [= <-]). destruct (s_providers s !! prev) as [p|] eqn:Hs; [|done].
    cbn. by rewrite lookup_insert_eq.
  - destruct (s_providers s !! prev) as [p|] eqn:Hs; [|done]. cbn. rewrite lookup_insert_ne; [done|].
    intros <-. by apply Hb.
Qed.

Lemma leave_other s id pk :
  s_authProviders (leave_previous s id pk) = s_authProviders s
  ∧ s_authGenerations (leave_previous s id pk) = s_authGenerations s
  ∧ s_mixedCursors (leave_previous s id pk) = s_mixedCursors s.
Proof. unfold leave_previous, remove_at. repeat case_match; done. Qed.

(** The provider a credential enters, and the tables once it holds it. *)
Lemma ensure_provider_spec s pk :
  let r := ensureProviderLocked s pk in
  r.1 = default (new_provider pk) (s_providers s !! pk)
  ∧ s_authProviders r.2 = s_authProviders s ∧ s_authGenerations r.2 = s_authGenerations s
  ∧ s_mixedCursors r.2 = s_mixedCursors s
  ∧ ∀ qk, qk ≠ pk → s_providers r.2 !! qk = s_providers s !! qk.
Proof.
  unfold ensureProviderLocked. destruct (s_providers s !! pk) as [p|] eqn:Hp; [by rewrite ?Hp|].
  split_and!; try done. intros qk Hd. cbn. by rewrite lookup_insert_ne.
Qed.

Definition provider_or_new (s : authScheduler) (pk : string) : providerScheduler :=
  default (new_provider pk) (s_providers s !! pk).

Lemma entered_lookup t s id pk qk :
  tables_ok t s → qk ≠ pk →
  s_providers (ensureProviderLocked (leave_previous s id pk) pk).2 !! qk
  = if bool_decide (s_authProviders s !! id = Some qk)
    then (fun p => provider_remove p id) <$> s_providers s !! qk else s_providers s !! qk.
Proof.
  intros Hs Hd. destruct (ensure_provider_spec (leave_previous s id pk) pk) as (_ & _ & _ & _ & Ep).
  rewrite (Ep qk Hd), leave_lookup. case_bool_decide as Hb1; case_bool_decide as Hb2; try done.
  - by destruct Hb1 as (_ & _ & ?).
  - destruct (s_providers s !! qk) as [q|] eqn:Hq; [|done]. destruct Hb1. split_and!; [done| |done].
    by apply (so_providers t s Hs) in Hq as [? _].
Qed.

Lemma enter_ok t now s id pk meta p' :
  0 ≤ t ≤ now → id ≠ "" → pk ≠ "" → tables_ok t s →
  provider_ok now pk p' → p_auths p' = <[id := meta]> (p_auths (provider_or_new s pk)) →
  let s2 := (ensureProviderLocked (leave_previous s id pk) pk).2 in
  tables_ok now (set_provider (s2 <| s_authProviders := <[id := pk]> (s_authProviders s2) |>) pk p').
Proof.
  intros Ht Hid Hpk Hs Hp' Hauths s2.
  destruct (leave_other s id pk) as (La & Lg & Lc).
  destruct (ensure_provider_spec (leave_previous s id pk) pk) as (_ & Ea & _ & Ec & _). fold s2 in Ea, Ec.
  pose proof (entered_lookup t s id pk) as Hlook. fold s2 in Hlook. specialize (fun qk => Hlook qk Hs).
  split; cbn.
  - intros qk q [[<- <-]|[Hd Hq]]%lookup_insert_Some; [done|]. rewrite Hlook in Hq by done.
    assert (Hok : ∀ p, s_providers s !! qk = Some p → qk ≠ "" ∧ provider_ok now qk p).
    { intros p Hp. apply (so_providers t s Hs) in Hp as [? Hp]. split; [done|].
      eapply provider_ok_mono; [|done]. lia. }
    case_bool_decide; [|by apply Hok]. apply fmap_Some in Hq as (p & Hp & ->).
    destruct (Hok p Hp). split; [done|by apply provider_remove_ok].
  - intros j qk. unfold at_home. cbn. rewrite Ea, La. destruct (decide (qk = pk)) as [->|Hqk].
    + rewrite lookup_insert_eq. destruct (decide (j = id)) as [->|Hj].
      * rewrite lookup_insert_eq. split; [intros _|done]. exists p'. split; [done|].
        rewrite Hauths, lookup_insert_eq. by eexists.
      * rewrite lookup_insert_ne, (so_home t s Hs) by done. unfold at_home.
        split; intros (q & Hq & Hin).
        -- exists p'. split; [done|]. rewrite Hauths, lookup_insert_ne by done.
           unfold provider_or_new. by rewrite Hq.
        -- injection Hq as <-. rewrite Hauths, lookup_insert_ne in Hin by done. unfold provider_or_new in Hin.
           destruct (s_providers s !! pk) as [p|]; [by exists p|]. cbn in Hin. rewrite lookup_empty in Hin.
           by destruct Hin.
    + rewrite (lookup_insert_ne (s_providers s2)), Hlook by done. destruct (decide (j = id)) as [->|Hj].
      * rewrite lookup_insert_eq. split; [congruence|]. intros (q & Hq & Hin). exfalso.
        case_bool_decide as Hb.
        -- apply fmap_Some in Hq as (p & _ & ->). rewrite provider_remove_auths, lookup_delete_eq in Hin by done.
           by destruct Hin.
        -- apply Hb, (so_home t s Hs). by exists q.
      * rewrite lookup_insert_ne, (so_home t s Hs) by done. unfold at_home. case_bool_decide; [|done].
        split; intros (q & Hq & Hin).
        -- rewrite Hq. eexists. split; [done|]. by rewrite provider_remove_auths, lookup_delete_ne.
        -- apply fmap_Some in Hq as (p & Hp & ->). rewrite provider_remove_auths, lookup_delete_ne in Hin by done.
           by exists p.
  - rewrite Ec, Lc. apply Hs.
Qed.

Lemma build_meta_of auth set epoch :
  trim_space (a_ID auth) = a_ID auth → a_ID auth ≠ "" → is_disabled auth = false →
  meta_of (executorKeyFromAuth auth) (a_ID auth) (buildScheduledAuthMetaWithModelSet auth set epoch).
Proof. intros H1 H2 H3. split_and!; done. Qed.

Lemma provider_or_new_ok t s pk : tables_ok t s → provider_ok t pk (provider_or_new s pk).
Proof.
  intros Hs. unfold provider_or_new. destruct (s_providers s !! pk) as [p|] eqn:Hp; [|apply new_provider_ok].
  by apply (so_providers t s Hs).
Qed.

Lemma entered_provider s id pk :
  (ensureProviderLocked (leave_previous s id pk) pk).1 = provider_or_new s pk.
Proof.
  destruct (ensure_provider_spec (leave_previous s id pk) pk) as [-> _]. unfold provider_or_new.
  rewrite leave_lookup. case_bool_decide as Hb; [|done]. by destruct Hb.
Qed.

(** Identifiers without white space around them. *)
Definition well_named (auth : Auth) : Prop := trim_space (a_ID auth) = a_ID auth.

Lemma schedule_at_ok t now s reg auth :
  0 ≤ t ≤ now → tables_ok t s → well_named auth → a_ID auth ≠ "" → is_disabled auth = false →
  executorKeyFromAuth auth ≠ "" →
  tables_ok now (schedule_at s reg (a_ID auth) (executorKeyFromAuth auth) auth now).
Proof.
  intros Ht Hs Hw Hid Hd Hpk. unfold schedule_at. rewrite (surjective_pairing (ensureProviderLocked _ _)).
  rewrite entered_provider. cbv beta. eapply (enter_ok t); [done..| |].
  - apply (upsert_for_models_ok t); [done|by apply provider_or_new_ok|by apply build_meta_of|by left].
  - done.
Qed.

(** ** Updates keep the tables *)

Lemma upsert_auths p meta targets scoped now :
  p_auths (upsertAuthForModelsLocked p meta targets scoped now) = <[a_ID (sm_auth meta) := meta]> (p_auths p).
Proof. unfold upsertAuthForModelsLocked. by case_match. Qed.

Lemma replace_provider_ok t s pk p p' :
  tables_ok t s → s_providers s !! pk = Some p → provider_ok t pk p' →
  (∀ j, is_Some (p_auths p' !! j) ↔ is_Some (p_auths p !! j)) → tables_ok t (set_provider s pk p').
Proof.
  intros Hs Hp Hp' Hj. split; cbn; [| |apply Hs].
  - intros qk q [[<- <-]|[_ Hq]]%lookup_insert_Some; [|by apply Hs]. split; [|done].
    by apply (so_providers t s Hs) in Hp as [? _].
  - intros j qk. rewrite (so_home t s Hs). unfold at_home. cbn. destruct (decide (qk = pk)) as [->|Hd].
    + rewrite lookup_insert_eq, Hp. split; intros (q & [= <-] & Hin); eexists; (split; [done|]); by apply Hj.
    + by rewrite lookup_insert_ne.
Qed.

Lemma lifecycle_ok t now s reg auth :
  0 ≤ t ≤ now → tables_ok t s → well_named auth →
  tables_ok now (upsertAuthLifecycleLocked s reg auth now).
Proof.
  intros Ht Hs Hw. unfold upsertAuthLifecycleLocked. rewrite Hw.
  assert (Hs' : tables_ok now s) by (eapply tables_ok_mono; [|done]; lia).
  destruct (String.eqb (a_ID auth) "") eqn:E1; [done|]. bprop.
  destruct (isStaleScheduledAuth s (a_ID auth) (version_of auth)); [done|].
  destruct (String.eqb (executorKeyFromAuth auth) "" || is_disabled auth) eqn:E2; bprop.
  - apply remove_from_providers_ok; [done|by apply set_generation_tables].
  - apply (schedule_at_ok t); [done|by apply set_generation_tables|done..].
Qed.

Lemma result_ok t now s reg auth targets scoped :
  0 ≤ t ≤ now → tables_ok t s → well_named auth →
  tables_ok now (upsertAuthResultLocked s reg auth targets scoped now).
Proof.
  intros Ht Hs Hw. unfold upsertAuthResultLocked. rewrite Hw.
  assert (Hs' : tables_ok now s) by (eapply tables_ok_mono; [|done]; lia).
  destruct (String.eqb (a_ID auth) "") eqn:E1; [done|]. bprop.
  set (pk := executorKeyFromAuth auth). set (id := a_ID auth) in *.
  destruct (isStaleScheduledAuth s id (version_of auth)).
  { destruct (String.eqb pk "") eqn:E2; [done|]. bprop.
    destruct (s_providers s !! pk) as [p|] eqn:Hp; [|done]. destruct (p_auths p !! id) as [meta|] eqn:Hm; [|done].
    destruct (so_providers t s Hs pk p Hp) as [_ Hok]. pose proof (po_auths _ _ _ Hok id meta Hm) as Hmeta.
    apply (replace_provider_ok now s pk p); [done..| |].
    - apply (upsert_for_models_ok t); [done..|by destruct Hmeta as (-> & _); apply (po_auths _ _ _ Hok)|].
      right; right. exists meta. by destruct Hmeta as (-> & _).
    - intros j. rewrite upsert_auths. destruct Hmeta as (-> & _).
      destruct (decide (j = id)) as [->|Hj]; [|by rewrite lookup_insert_ne].
      rewrite lookup_insert_eq, Hm. split; by eexists. }
  destruct (String.eqb pk "" || is_disabled auth) eqn:E2; bprop.
  { apply remove_from_providers_ok; [done|by apply set_generation_tables]. }
  set (s1 := set_generation s id (version_of auth)).
  assert (Hs1 : tables_ok t s1) by by apply set_generation_tables.
  rewrite (surjective_pairing (ensureProviderLocked _ _)), entered_provider. cbv beta zeta.
  set (p := provider_or_new s1 pk).
  assert (Hp : provider_ok t pk p) by by apply provider_or_new_ok.
  set (cached := match p_auths p !! id with Some _ => _ | None => None end).
  set (meta := buildScheduledAuthMetaWithModelSet auth _ _).
  assert (Hmeta : meta_of pk (a_ID (sm_auth meta)) meta) by by apply build_meta_of.
  eapply (enter_ok t); [done..| |case_match; apply upsert_auths].
  destruct cached as [set|] eqn:Ec; [|apply (upsert_for_models_ok t); [done..|by left]].
  case_match; apply (upsert_for_models_ok t); try done; [by left|right; right].
  unfold same_models. subst cached meta. cbn. fold id. destruct (p_auths p !! id) as [old|]; [|done].
  exists old. split; [done|]. by destruct (sm_registryEpoch old =? ClientRegistrationEpoch reg id).
Qed.

Lemma tombstone_ok t now s id epoch :
  t ≤ now → tables_ok t s → tables_ok now (RecordRemovalTombstone s id epoch now).
Proof.
  intros Ht Hs. apply (tables_ok_mono t now) in Hs; [|done]. unfold RecordRemovalTombstone, recordRemovalTombstoneLocked.
  destruct (String.eqb (trim_space id) "") eqn:E; [done|]. bprop. case_if; [done|].
  apply remove_from_providers_ok; [done|by apply set_generation_tables].
Qed.

Lemma remove_auth_ok t now s id : t ≤ now → tables_ok t s → tables_ok now (removeAuth s id now).
Proof.
  intros Ht Hs. apply (tables_ok_mono t now) in Hs; [|done]. unfold removeAuth, removeAuthLocked.
  destruct (String.eqb (trim_space id) "") eqn:E; [done|]. bprop.
  apply remove_from_providers_ok; [done|by apply set_generation_tables].
Qed.

Lemma reset_generation_ok t s id : tables_ok t s → tables_ok t (ResetAuthGeneration s id).
Proof. intros Hs. unfold ResetAuthGeneration. case_if; [done|]. apply (tables_ok_ext t s); [done|done|apply Hs|done]. Qed.

Lemma set_selector_ok t s selector : tables_ok t s → tables_ok t (setSelector s selector).
Proof.
  intros Hs. apply (tables_ok_ext t s); [done|done| |done]. intros key slot Hl. cbn in Hl.
  by rewrite lookup_empty in Hl.
Qed.

(** ** A rebuild makes good tables *)

Lemma existing_metas_spec s id meta :
  existing_metas s !! id = Some meta →
  ∃ pk p, s_providers s !! pk = Some p ∧ p_auths p !! id = Some meta.
Proof.
  unfold existing_metas.
  assert (H : ∀ ps acc, foldl (fun metas p => p_auths p ∪ metas) acc ps !! id = Some meta →
    acc !! id = Some meta ∨ ∃ p, p ∈ ps ∧ p_auths p !! id = Some meta).
  { induction ps as [|p ps IH]; intros acc Hl; [by left|]. cbn in Hl.
    apply IH in Hl as [Hl|(q & Hq & Hl)]; [|right; exists q; split; [by right|done]].
    apply lookup_union_Some_raw in Hl as [Hl|[_ Hl]]; [right; exists p; split; [by left|done]|by left]. }
  intros [Hl|(p & Hp & Hl)]%H; [by rewrite lookup_empty in Hl|].
  apply list_elem_of_In, in_map_iff in Hp as ([pk q] & <- & Hin). exists pk, q. split; [|done].
  by apply elem_of_map_to_list, list_elem_of_In.
Qed.

Definition good_metas (metas : gmap string scheduledAuthMeta) : Prop :=
  ∀ id meta, metas !! id = Some meta → ∃ pk, meta_of pk id meta.

Lemma existing_metas_good t s : tables_ok t s → good_metas (existing_metas s).
Proof.
  intros Hs id meta (pk & p & Hp & Hm)%existing_metas_spec. exists pk.
  by apply (so_providers t s Hs) in Hp as [_ [Ha _]]; apply Ha.
Qed.

Lemma rebuild_step_ok metas reg now s auth :
  0 ≤ now → good_metas metas → tables_ok now s → well_named auth →
  tables_ok now (upsertAuthRebuildLocked metas reg now s auth).
Proof.
  intros Hn Hm Hs Hw. unfold upsertAuthRebuildLocked. rewrite Hw.
  destruct (String.eqb (a_ID auth) "") eqn:E1; [done|]. bprop. case_if; [done|].
  match goal with |- context [match ?c with Some _ => _ | None => s end] => destruct c as [a|] eqn:Ec end; [|done].
  assert (Ha : a_ID a = a_ID auth ∧ well_named a).
  { case_match; [|by injection Ec as <-]. destruct (metas !! a_ID auth) as [meta|] eqn:Hl; [|done].
    case_match; [done|]. injection Ec as <-. destruct (Hm _ _ Hl) as (pk & Hid & _ & _ & _ & _ & Htrim).
    unfold well_named. by rewrite Hid. }
  destruct Ha as [Hid Hwa]. destruct (String.eqb (executorKeyFromAuth a) "" || is_disabled a) eqn:E2; bprop.
  - by apply remove_from_providers_ok.
  - rewrite <- Hid. apply (schedule_at_ok now); [lia|by apply set_generation_tables|done|by rewrite Hid|done..].
Qed.

Lemma rebuild_ok t now s reg auths :
  0 ≤ now → tables_ok t s → Forall well_named auths → tables_ok now (rebuild s reg auths now).
Proof.
  intros Hn Hs Hw. unfold rebuild. pose proof (existing_metas_good t s Hs) as Hm.
  generalize (existing_metas s) Hm. intros metas Hmetas. clear Hm.
  match goal with |- context [foldl _ ?z auths] => assert (Hz : tables_ok now z) end.
  { split; [intros pk p Hl|intros id pk; split; [intros Hl|intros (p & Hl & _)]|intros key slot Hl];
      cbn in Hl; by rewrite lookup_empty in Hl. }
  revert Hz. match goal with |- tables_ok now ?z → _ => generalize z end. induction Hw as [|a l Ha _ IH]; intros z Hz; [done|].
  cbn [foldl]. by apply IH, rebuild_step_ok.
Qed.

End Props.
End SchedTables.
