(* ===== verification/SchedPicks.v ===== *)
(** * What the scheduler picks

    Picks from one provider, among several, and with a pinned credential, against
    the credentials that could have been picked; and the operations together. *)
From S2P Require Import Prelude GoLib Weight Thinking AuthTypes Expiry Availability Selector SchedShard SchedShardProps Scheduler SchedTables.
Import AuthTypes Expiry Availability SchedShard SchedShardProps Scheduler SchedTables.

Module SchedPicks.

Section Props.
Context `{GP : GoParse} {R : Type} `{Catalog : ClientCatalog R}.

(** ** What a pick from an up-to-date shard returns *)

Lemma view_pick_flat entries v strategy predicate :
  rv_flat (view_pick entries v strategy predicate).2 = rv_flat v.
Proof. unfold view_pick. destruct strategy; repeat case_match; done. Qed.

(** A strategy that picks by weight asks for positive weights. *)
Definition weight_safe (strategy : schedulerStrategy) (predicate : entry_pred) : Prop :=
  strategy = schedulerStrategyWeightedRoundRobin → ∀ e, predicate e = true → 0 < sm_weight (e_meta e).

Lemma view_pick_none entries v strategy predicate :
  Selector.ring (map e_auth entries) → weighed entries → List.filter predicate entries = [] →
  (view_pick entries v strategy predicate).1 = None.
Proof.
  intros Hr Hw Hnil.
  assert (Hrr : pickRoundRobin entries (rv_lastPicked v) predicate = None).
  { pose proof (pickRoundRobin_spec entries (rv_lastPicked v) predicate Hr) as H. rewrite Hnil in H.
    unfold ring_next in H. cbn in H. destruct (pickRoundRobin _ _ _); [|done]. by case_if_in H. }
  unfold view_pick. destruct strategy; try by rewrite Hrr.
  - cbn. by apply find_none_filter.
  - destruct entries as [|e0 es] eqn:Ee; [done|]. rewrite <- Ee in *.
    match goal with |- context [pickSmoothWeightedScheduled entries ?c predicate] =>
      pose proof (pickSmooth_spec entries c predicate Hw) as H;
      destruct (pickSmoothWeightedScheduled entries c predicate) as [picked current] end.
    cbn in H |- *. rewrite Hnil in H. cbn in H. by destruct picked.
Qed.

Lemma pick_at_priority_sound m now preferWs p strategy predicate :
  current now m → weight_safe strategy predicate →
  let r := pickReadyAtPriorityLocked m preferWs p strategy predicate in
  current now r.2 ∧ m_entries r.2 = m_entries m ∧ m_modelKey r.2 = m_modelKey m
  ∧ match r.1 with
    | Some a => ∃ e, m_entries m !! entry_id e = Some e ∧ e_auth e = a ∧ predicate e = true
                  ∧ e_state e = scheduledStateReady ∧ sm_priority (e_meta e) = p
    | None => ∀ e, m_entries m !! entry_id e = Some e → predicate e = true →
                e_state e = scheduledStateReady → sm_priority (e_meta e) ≠ p
    end.
Proof.
  intros Hcur Hsafe. pose proof (cu_ok _ _ Hcur) as [Hk Hent Hi]. unfold pickReadyAtPriorityLocked.
  destruct (m_readyByPriority m !! p) as [b|] eqn:Hb.
  2: { cbn. split_and!; try done. intros e Hl _ Hs <-.
       assert (Hsome : is_Some (m_readyByPriority m !! sm_priority (e_meta e))); [|rewrite Hb in Hsome; by destruct Hsome].
       apply (io_buckets m Hi). exists (entry_id e), e. unfold in_bucket, sched_is. by rewrite Hs, Z.eqb_refl. }
  set (ws := preferWs && has_match m predicate (rb_ws b)). fold (bucket_view ws b).
  pose proof (bucket_view_ok m p b ws Hi Hb) as Hflat. set (v := bucket_view ws b) in *.
  pose proof (view_entries_spec m v _ Hk Hflat) as [_ Hin].
  assert (Hring : Selector.ring (map e_auth (view_entries m v))) by by eapply view_ring.
  assert (Hw : weighed (view_entries m v)).
  { intros e [Hl _]%Hin. destruct (Hent _ e Hl) as [Ha [_ [Hwt _]] _]. by rewrite Hwt, Ha. }
  pose proof (view_pick_flat (view_entries m v) v strategy predicate) as Hvf.
  pose proof (view_pick_none (view_entries m v) v strategy predicate Hring Hw) as Hnone.
  pose proof (view_pick_spec (view_entries m v) v strategy predicate Hring Hw) as Hspec.
  destruct (view_pick (view_entries m v) v strategy predicate) as [picked v']. cbn [fst snd] in *.
  change (if ws then b <| rb_ws := v' |> else b <| rb_all := v' |>) with (set_view ws b v').
  pose proof (set_view_ok now m ws b p v' (cu_ok _ _ Hcur) Hb Hvf) as Hok.
  split_and!; [split; [done|exact (cu_fresh _ _ Hcur)]|done|done|].
  destruct (decide (List.filter predicate (view_entries m v) = [])) as [Hnil|Hne].
  - rewrite (Hnone Hnil). cbn. intros e Hl Hp Hs Hprio.
    assert (Hwf : ws = false).
    { destruct ws eqn:Ews; [|done]. unfold ws in Ews. apply andb_true_iff in Ews as [_ Em%has_match_filter].
      by destruct Em. }
    apply elem_of_nil with e. rewrite <- Hnil. apply elem_of_List_filter. split; [|done]. apply Hin.
    split; [done|]. unfold view_pred, in_bucket, sched_is. rewrite Hwf, Hs, Hprio, Z.eqb_refl. done.
  - destruct (Hspec Hne) as [Hp _]. destruct (reference_pick_some strategy v
      (map e_auth (List.filter predicate (view_entries m v)))) as (a & Ha & Hina).
    + by destruct (List.filter predicate (view_entries m v)).
    + intros Hst a (e & <- & [He Hpe]%filter_In)%list_elem_of_In%in_map_iff.
      rewrite <- (Hw e) by by apply list_elem_of_In. by apply Hsafe.
    + rewrite Hp, Ha. apply list_elem_of_In, in_map_iff in Hina as (e & <- & [He Hpe]%filter_In).
      exists e. apply list_elem_of_In, Hin in He as [Hl Hbk]. apply andb_true_iff in Hbk as [Hbk _].
      unfold in_bucket, sched_is in Hbk. bprop. split_and!; done.
Qed.

(** The best priority ready, with a preference for websockets or without. *)
Lemma highest_priority_sound m now preferWs predicate :
  current now m →
  match highestReadyPriorityLocked m preferWs predicate with
  | Some p =>
      (∃ e, m_entries m !! entry_id e = Some e ∧ predicate e = true ∧ e_state e = scheduledStateReady
         ∧ sm_priority (e_meta e) = p)
      ∧ (preferWs = false → ∀ e, m_entries m !! entry_id e = Some e → predicate e = true →
           e_state e = scheduledStateReady → sm_priority (e_meta e) ≤ p)
  | None => ∀ e, m_entries m !! entry_id e = Some e → predicate e = true → e_state e ≠ scheduledStateReady
  end.
Proof.
  intros Hcur. pose proof (cu_ok _ _ Hcur) as [Hk _ Hi].
  assert (Hex : ∀ ws p b, m_readyByPriority m !! p = Some b → has_match m predicate (bucket_view ws b) = true →
    ∃ e, m_entries m !! entry_id e = Some e ∧ predicate e = true ∧ e_state e = scheduledStateReady
      ∧ sm_priority (e_meta e) = p).
  { intros ws p b Hb Hm%has_match_filter. apply not_nil_elem in Hm as [e He].
    apply elem_of_List_filter in He as [He Hp]. exists e.
    apply (view_entries_spec m _ _ Hk (bucket_view_ok m p b ws Hi Hb)) in He as [Hl Hbk].
    apply andb_true_iff in Hbk as [Hbk _]. unfold in_bucket, sched_is in Hbk. bprop. done. }
  unfold highestReadyPriorityLocked. change rb_all with (bucket_view false).
  change (first_priority m rb_ws predicate) with (first_priority m (bucket_view true) predicate).
  pose proof (first_priority_spec m true predicate Hk Hi) as Hws.
  pose proof (first_priority_spec m false predicate Hk Hi) as Hall.
  assert (Hmain : match first_priority m (bucket_view false) predicate with
    | Some p => (∃ e, m_entries m !! entry_id e = Some e ∧ predicate e = true
        ∧ e_state e = scheduledStateReady ∧ sm_priority (e_meta e) = p)
        ∧ (preferWs = false → ∀ e, m_entries m !! entry_id e = Some e → predicate e = true →
             e_state e = scheduledStateReady → sm_priority (e_meta e) ≤ p)
    | None => ∀ e, m_entries m !! entry_id e = Some e → predicate e = true → e_state e ≠ scheduledStateReady
    end).
  { destruct (first_priority m (bucket_view false) predicate) as [p|].
    - destruct Hall as [(b & Hb & Hm) Hmax]. split; [by eapply Hex|]. intros _ e Hl Hp Hs. by apply Hmax.
    - intros e Hl Hp Hs. by rewrite (Hall e Hl Hs eq_refl) in Hp. }
  destruct preferWs; [|exact Hmain].
  destruct (first_priority m (bucket_view true) predicate) as [p|]; [|exact Hmain].
  destruct Hws as [(b & Hb & Hm) _]. split; [by eapply Hex|done].
Qed.

(** A pick from a shard that is up to date. *)
Lemma pick_ready_sound t m now preferWs strategy predicate :
  0 ≤ t ≤ now → shard_ok t m → weight_safe strategy predicate → state_blind predicate →
  let r := pickReadyLocked m preferWs strategy predicate now in
  current now r.2 ∧ m_entries r.2 = m_entries (promoteExpiredLocked m now) ∧ m_modelKey r.2 = m_modelKey m
  ∧ match r.1 with
    | Some a =>
        ∃ e, m_entries r.2 !! entry_id e = Some e ∧ e_auth e = a ∧ predicate e = true
          ∧ e_state e = scheduledStateReady
          ∧ (preferWs = false → ∀ e', m_entries r.2 !! entry_id e' = Some e' → predicate e' = true →
               e_state e' = scheduledStateReady → sm_priority (e_meta e') ≤ sm_priority (e_meta e))
    | None => ∀ e, m_entries r.2 !! entry_id e = Some e → predicate e = true → e_state e ≠ scheduledStateReady
    end.
Proof.
  intros Ht Hm Hsafe Hblind. pose proof (promote_current t m now Ht Hm) as Hcur.
  destruct (promote_ok t m now Ht Hm) as (_ & Hkey & _). unfold pickReadyLocked.
  set (m' := promoteExpiredLocked m now) in *. pose proof (highest_priority_sound m' now preferWs predicate Hcur) as Hh.
  destruct (highestReadyPriorityLocked m' preferWs predicate) as [p|]; [|by split_and!].
  pose proof (pick_at_priority_sound m' now preferWs p strategy predicate Hcur Hsafe) as (H1 & H2 & H3 & H4).
  split_and!; [done|done|congruence|]. rewrite H2. destruct Hh as [(e0 & Hl0 & Hp0 & Hs0 & Hprio0) Hmax].
  destruct (pickReadyAtPriorityLocked m' preferWs p strategy predicate).1 as [a|].
  - destruct H4 as (e & Hl & Ha & Hp & Hs & <-). exists e. split_and!; try done.
  - exfalso. by apply (H4 e0).
Qed.

(** ** The credentials a provider offers for a model *)

Definition offered_by (p : providerScheduler) (k : string) (a : Auth) : Prop :=
  match p_modelShards p !! k with
  | Some m => ∃ e, m_entries m !! a_ID a = Some e ∧ e_auth e = a
  | None => ∃ meta, p_auths p !! a_ID a = Some meta ∧ supportsModel meta k = true ∧ sm_auth meta = a
  end.
Definition offered (s : authScheduler) (k providerKey : string) (a : Auth) : Prop :=
  ∃ p, s_providers s !! providerKey = Some p ∧ offered_by p k a.

Definition holds (m : modelScheduler) (a : Auth) : Prop := ∃ e, m_entries m !! a_ID a = Some e ∧ e_auth e = a.

Lemma holds_promote t m now a :
  0 ≤ t ≤ now → shard_ok t m → holds (promoteExpiredLocked m now) a ↔ holds m a.
Proof.
  intros Ht Hm. destruct (promote_ok t m now Ht Hm) as (_ & _ & Hall). specialize (Hall (a_ID a)). unfold holds.
  destruct (m_entries m !! a_ID a) as [e|], (m_entries (promoteExpiredLocked m now) !! a_ID a) as [e'|]; try done.
  destruct Hall as (_ & Ha & _). split; intros (x & [= <-] & Hx); eexists; (split; [done|]); congruence.
Qed.

Lemma ensure_offers t now pk p modelKey a :
  0 ≤ t ≤ now → provider_ok t pk p →
  holds (ensureModelLocked p modelKey now).1 a ↔ offered_by p (canonicalModelKey modelKey) a.
Proof.
  intros Ht [Ha Hs]. unfold ensureModelLocked, offered_by. cbn [fst]. set (k := canonicalModelKey modelKey).
  destruct (p_modelShards p !! k) as [m|] eqn:Hm.
  { apply (holds_promote t); [done|]. by apply (Hs k m). }
  destruct (build_entries k now (map snd (map_to_list (p_auths p))) (new_shard k) eq_refl) as [_ Hall].
  specialize (Hall (a_ID a)). unfold holds.
  set (m := foldl (build_step k now) (new_shard k) (map snd (map_to_list (p_auths p)))) in *.
  assert (Hin : ∀ meta, meta ∈ map snd (map_to_list (p_auths p)) ↔ p_auths p !! a_ID (sm_auth meta) = Some meta).
  { intros meta. apply metas_list_spec. intros id x Hx. apply (Ha id x Hx). }
  split.
  - intros (e & He & <-). destruct Hall as [[Heq _]|(meta & Hm'%Hin & Hid & Hsup & Heq)].
    + cbn in Heq. rewrite lookup_empty in Heq. congruence.
    + exists meta. rewrite <- Hid. split_and!; [done|done|]. rewrite Heq in He. by injection He as <-.
  - intros (meta & Hl & Hsup & <-). destruct Hall as [[_ Hno]|(x & Hx%Hin & Hid & _ & Heq)].
    + rewrite Hno in Hsup; [done|by apply Hin|done].
    + exists (entry_of x k now). split; [done|]. rewrite Hid in Hx. cbn. congruence.
Qed.

Lemma offered_home t s k pk a : tables_ok t s → offered s k pk a → at_home s (a_ID a) pk.
Proof.
  intros Hs (p & Hp & Ho). exists p. split; [done|]. destruct (so_providers t s Hs pk p Hp) as [_ [Ha Hsh]].
  unfold offered_by in Ho. destruct (p_modelShards p !! k) as [m|] eqn:Hm.
  - destruct Ho as (e & He & _). destruct (proj1 (sp_members _ _ _ _ _ (Hsh k m Hm) (a_ID a))) as (meta & Hl & _);
      by eexists.
  - destruct Ho as (meta & Hl & _). by eexists.
Qed.

(** What a request may use, as a test of the credential. *)
Definition usable (q : pick_request) (pinned : string) (strategy : schedulerStrategy) (a : Auth) : bool :=
  allows (q_eligibility q) a
  && negb (strategy_is strategy schedulerStrategyWeightedRoundRobin && (authWeight a <=? 0))
  && (String.eqb pinned "" || String.eqb (a_ID a) pinned)
  && negb (bool_decide (a_ID a ∈ q_tried q)).

Lemma request_usable key t q pinned strategy e :
  entry_ok key t e → request_predicate q pinned strategy e = usable q pinned strategy (e_auth e).
Proof.
  intros [Ha (_ & Hw & _) _]. unfold request_predicate, scheduledAuthPredicate, usable, entry_id.
  rewrite Hw, Ha. destruct (allows (q_eligibility q) (e_auth e)); [|done]. cbn [negb andb].
  destruct (strategy_is strategy schedulerStrategyWeightedRoundRobin && (authWeight (e_auth e) <=? 0)); [done|].
  cbn [negb andb]. destruct (String.eqb pinned ""); cbn [negb andb orb]; [done|].
  by destruct (String.eqb (a_ID (e_auth e)) pinned).
Qed.

Lemma request_safe q pinned strategy : weight_safe strategy (request_predicate q pinned strategy).
Proof.
  intros -> e. unfold request_predicate. change (strategy_is _ _) with true. apply predicate_positive.
Qed.

Lemma request_blind q pinned strategy : state_blind (request_predicate q pinned strategy).
Proof. apply scheduledAuthPredicate_blind. Qed.

(** The shard a request for [model] is served from. *)
Definition shard_key (q : pick_request) : string := canonicalModelKey (canonicalModelKey (q_model q)).

(** A credential that a request could be given at [now]. *)
Definition candidate (s : authScheduler) (providers : list string) (q : pick_request) (pinned : string)
    (strategy : schedulerStrategy) (now : time) (providerKey : string) (a : Auth) : Prop :=
  providerKey ∈ providers ∧ offered s (shard_key q) providerKey a ∧ usable q pinned strategy a = true
  ∧ blocked_for background (shard_key q) now a = false.

(** The answer is a candidate, of the best priority unless websockets are
    preferred, and there is an answer unless there is no candidate. *)
Definition right_pick (s : authScheduler) (providers : list string) (q : pick_request) (pinned : string)
    (strategy : schedulerStrategy) (now : time) (any_priority : bool)
    (r : outcome pick_error (Auth * string)) : Prop :=
  match r with
  | Ok (a, providerKey) =>
      candidate s providers q pinned strategy now providerKey a ∧ executorKeyFromAuth a = providerKey
      ∧ (any_priority = false → ∀ pk b, candidate s providers q pinned strategy now pk b →
           authPriority b ≤ authPriority a)
  | Err _ => ∀ pk b, ¬ candidate s providers q pinned strategy now pk b
  end.

(** The entries of an up-to-date shard against the candidates. *)
Lemma entry_candidate m now e :
  current now m → m_entries m !! entry_id e = Some e →
  (e_state e = scheduledStateReady ↔ blocked_for background (m_modelKey m) now (e_auth e) = false)
  ∧ sm_priority (e_meta e) = authPriority (e_auth e) ∧ entry_ok (m_modelKey m) now e.
Proof.
  intros Hcur Hl. pose proof (sh_entries _ _ (cu_ok _ _ Hcur) _ e Hl) as He.
  split_and!; [exact (cu_fresh _ _ Hcur _ e Hl)| |done]. by destruct He as [<- (-> & _) _].
Qed.

(** The candidates of one provider are the ready entries of its shard. *)
Lemma candidate_entry t now s pk p q pinned strategy m a :
  0 ≤ t ≤ now → tables_ok t s → s_providers s !! pk = Some p → current now m → m_modelKey m = shard_key q →
  (∀ b, holds m b ↔ offered_by p (shard_key q) b) →
  candidate s [pk] q pinned strategy now pk a
  ↔ ∃ e, m_entries m !! entry_id e = Some e ∧ e_auth e = a ∧ request_predicate q pinned strategy e = true
       ∧ e_state e = scheduledStateReady.
Proof.
  intros Ht Hs Hp Hcur Hk Hh. split.
  - intros (_ & (p' & Hp' & Ho) & Hu & Hb). assert (p' = p) as -> by congruence.
    apply Hh in Ho as (e & Hl & Ha).
    assert (Hid : entry_id e = a_ID a) by (unfold entry_id; by rewrite Ha). rewrite <- Hid in Hl.
    destruct (entry_candidate m now e Hcur Hl) as (Hready & _ & Hok). exists e.
    split_and!; [done|done|by rewrite (request_usable _ _ _ _ _ _ Hok), Ha|].
    apply Hready. by rewrite Hk, Ha.
  - intros (e & Hl & <- & Hpr & Hst). destruct (entry_candidate m now e Hcur Hl) as (Hready & _ & Hok).
    split_and!; [by left| |by rewrite <- (request_usable _ _ _ _ _ _ Hok)|rewrite <- Hk; by apply Hready].
    exists p. split; [done|]. apply Hh. by exists e.
Qed.

(** A shard put back into its provider. *)
Lemma install_shard t now s pk p p1 k m :
  t ≤ now → tables_ok t s → s_providers s !! pk = Some p → provider_ok now pk p1 → p_auths p1 = p_auths p →
  shard_of_provider now pk (p_auths p) k m → tables_ok now (set_shard s pk p1 k m).
Proof.
  intros Ht Hs Hp [Ha Hsh] Hau Hm. apply (tables_ok_mono t now) in Hs; [|done].
  apply (replace_provider_ok now s pk p); [done..| |by cbn; rewrite Hau]. split; cbn; [done|].
  intros j x [[<- <-]|[_ Hx]]%lookup_insert_Some; [by rewrite Hau|by apply Hsh].
Qed.

(** A pick only moves cursors: the shard stays the provider's. *)
Lemma picked_shard t now pk auths k m m' :
  t ≤ now → shard_of_provider t pk auths k m → shard_ok now m' → m_entries m' = m_entries m →
  m_modelKey m' = m_modelKey m → shard_of_provider now pk auths k m'.
Proof. intros Ht [H1 H2 H3 H4] Hok He Hk. split; [congruence|done|by rewrite He|by rewrite He]. Qed.

(** From the answer of the shard to the answer of the provider. *)
Lemma right_pick_single t now s pk p q pinned strategy m any_priority (picked : option Auth) e0 :
  0 ≤ t ≤ now → tables_ok t s → s_providers s !! pk = Some p → current now m →
  shard_of_provider now pk (p_auths p) (shard_key q) m → (∀ b, holds m b ↔ offered_by p (shard_key q) b) →
  match picked with
  | Some a =>
      ∃ e, m_entries m !! entry_id e = Some e ∧ e_auth e = a ∧ request_predicate q pinned strategy e = true
        ∧ e_state e = scheduledStateReady
        ∧ (any_priority = false → ∀ e', m_entries m !! entry_id e' = Some e' →
             request_predicate q pinned strategy e' = true → e_state e' = scheduledStateReady →
             sm_priority (e_meta e') ≤ sm_priority (e_meta e))
  | None => ∀ e, m_entries m !! entry_id e = Some e → request_predicate q pinned strategy e = true →
              e_state e ≠ scheduledStateReady
  end →
  right_pick s [pk] q pinned strategy now any_priority
    match picked with Some a => Ok (a, pk) | None => Err e0 end.
Proof.
  intros Ht Hs Hp Hcur Hsp Hholds.
  assert (Hcand : ∀ a, candidate s [pk] q pinned strategy now pk a ↔ _)
    by (intros a; apply (candidate_entry t now s pk p q pinned strategy m a); [lia|done..|apply Hsp|done]).
  assert (Hpk : ∀ pk' b, candidate s [pk] q pinned strategy now pk' b → pk' = pk)
    by (intros pk' b (->%list_elem_of_singleton & _); done).
  destruct picked as [a|]; cbn.
  - intros (e & Hl & <- & Hpr & Hst & Hmax). split_and!.
    + apply Hcand. by exists e.
    + by apply (sp_provider _ _ _ _ _ Hsp (entry_id e)).
    + intros Hany pk' b Hb. rewrite (Hpk _ _ Hb) in Hb. apply Hcand in Hb as (e' & Hl' & <- & Hp' & Hs').
      destruct (entry_candidate m now e Hcur Hl) as (_ & <- & _).
      destruct (entry_candidate m now e' Hcur Hl') as (_ & <- & _). by apply Hmax.
  - intros Hnone pk' b Hb. rewrite (Hpk _ _ Hb) in Hb. apply Hcand in Hb as (e & Hl & _ & Hp' & Hs').
    by apply (Hnone e).
Qed.

Lemma pick_from_provider_sound t s pk errorProvider preferWs q strategy c :
  0 ≤ t ≤ t_ensure c → t_ensure c ≤ t_pick c → tables_ok t s →
  let r := pick_from_provider s pk errorProvider preferWs q strategy c in
  tables_ok (t_pick c) r.2
  ∧ right_pick s [pk] q (q_pinned q) strategy (t_pick c) preferWs (with_provider pk r).1.
Proof.
  intros Ht Hc Hs. unfold pick_from_provider. destruct (s_providers s !! pk) as [p|] eqn:Hp.
  2: { split; [eapply tables_ok_mono; [|done]; lia|]. cbn. intros pk' b (->%list_elem_of_singleton & (p & Hp' & _) & _).
       congruence. }
  destruct (so_providers t s Hs pk p Hp) as [_ Hok].
  destruct (ensure_model_ok t (t_ensure c) pk p (canonicalModelKey (q_model q)) Ht Hok) as (Hok1 & Hau & _ & Hsp & Hcur).
  pose proof (fun b => ensure_offers t (t_ensure c) pk p (canonicalModelKey (q_model q)) b Ht Hok) as Hoff.
  fold (shard_key q) in Hsp, Hoff |- *.
  destruct (ensureModelLocked p (canonicalModelKey (q_model q)) (t_ensure c)) as [m p1]. cbn [fst snd] in *.
  pose proof (pick_ready_sound (t_ensure c) m (t_pick c) preferWs strategy (request_predicate q (q_pinned q) strategy)
    ltac:(lia) (cu_ok _ _ Hcur) (request_safe _ _ _) (request_blind _ _ _)) as (Hcur2 & He2 & Hk2 & Hres).
  destruct (pickReadyLocked m preferWs strategy _ (t_pick c)) as [picked m2]. cbn [fst snd] in *.
  assert (Hsp2 : shard_of_provider (t_pick c) pk (p_auths p) (shard_key q) m2).
  { pose proof (promote_shard_ok (t_ensure c) (t_pick c) pk _ _ m ltac:(lia) Hsp) as Hsp'.
    destruct (promote_ok (t_ensure c) m (t_pick c) ltac:(lia) (cu_ok _ _ Hcur)) as (_ & Hkp & _).
    apply (picked_shard (t_pick c) _ _ _ _ (promoteExpiredLocked m (t_pick c))); try done; [apply Hcur2|congruence]. }
  assert (Hholds : ∀ b, holds m2 b ↔ offered_by p (shard_key q) b).
  { intros b. rewrite <- Hoff. unfold holds at 1. rewrite He2. by apply (holds_promote (t_ensure c)); [lia|apply Hcur]. }
  assert (Htab : tables_ok (t_pick c) (set_shard s pk p1 (shard_key q) m2)).
  { apply (install_shard t _ _ _ p); [lia|done..| |done|done]. eapply provider_ok_mono; [|done]. lia. }
  set (e0 := unavailableErrorLocked m2 errorProvider (q_model q) _ (t_error c)).
  pose proof (right_pick_single t (t_pick c) s pk p q (q_pinned q) strategy m2 preferWs picked e0 ltac:(lia)
    Hs Hp Hcur2 Hsp2 Hholds Hres) as Hright.
  by destruct picked as [a|].
Qed.

(** ** Picks among several providers *)

Definition ensured (s : authScheduler) (modelKey : string) (now : time) (pk : string) :
    option (modelScheduler * providerScheduler) :=
  (fun p => ensureModelLocked p modelKey now) <$> s_providers s !! pk.
Definition ready_priority (s : authScheduler) (modelKey : string) (predicate : entry_pred) (now : time)
    (pk : string) : option Z :=
  match ensured s modelKey now pk with
  | Some (m, _) => highestReadyPriorityLocked m false predicate
  | None => None
  end.

(** The loop that brings the shards up to date looks at each provider once. *)
Lemma priority_fold modelKey predicate now providers s best :
  NoDup providers →
  let r := foldl (priority_step modelKey predicate now) (s, best) providers in
  (∀ pk, s_providers r.1 !! pk
     = if decide (pk ∈ providers) then snd <$> ensured s modelKey now pk else s_providers s !! pk)
  ∧ r.2 = foldl better_priority best (map (ready_priority s modelKey predicate now) providers).
Proof.
  intros Hnd. revert s best. induction Hnd as [|pk l Hpk Hnd IH]; intros s best r.
  { split; [|done]. intros pk. by rewrite decide_False by apply not_elem_of_nil. }
  subst r. cbn [foldl map]. unfold priority_step at 2 4, ready_priority at 1, ensured at 2.
  destruct (s_providers s !! pk) as [p|] eqn:Hp; cbn [fmap option_fmap option_map].
  2: { destruct (IH s best) as [H1 H2]. split; [|exact H2]. intros qk. rewrite H1.
       destruct (decide (qk ∈ l)), (decide (qk ∈ pk :: l)); try done; try set_solver.
       assert (qk = pk) as -> by set_solver. unfold ensured. by rewrite Hp. }
  destruct (ensureModelLocked p modelKey now) as [m p1] eqn:Ee.
  destruct (IH (set_provider s pk p1) (better_priority best (highestReadyPriorityLocked m false predicate))) as [H1 H2].
  assert (Hother : ∀ qk, qk ≠ pk → s_providers (set_provider s pk p1) !! qk = s_providers s !! qk)
    by (intros qk Hd; cbn; by rewrite lookup_insert_ne).
  split.
  - intros qk. rewrite H1. destruct (decide (qk = pk)) as [->|Hd].
    + rewrite decide_False by done. rewrite decide_True by by left. unfold ensured. rewrite Hp.
      change (s_providers (set_provider s pk p1) !! pk = Some (ensureModelLocked p modelKey now).2).
      rewrite Ee. cbn. by rewrite lookup_insert_eq.
    + unfold ensured. rewrite Hother by done. rewrite (decide_ext (qk ∈ pk :: l) (qk ∈ l)); [done|]. rewrite elem_of_cons. naive_solver.
  - rewrite H2. f_equal. apply map_ext_in. intros qk Hq%list_elem_of_In. unfold ready_priority, ensured.
    rewrite Hother by by intros ->. done.
Qed.

Lemma better_fold l best :
  match foldl better_priority best l with
  | Some b => (best = Some b ∨ Some b ∈ l) ∧ (∀ x, best = Some x ∨ Some x ∈ l → x ≤ b)
  | None => best = None ∧ ∀ x, Some x ∉ l
  end.
Proof.
  revert best. induction l as [|c l IH]; intros best; cbn [foldl].
  { destruct best; [split; [by left|]; intros x [[= ->]|?%elem_of_nil]; [lia|done]|split; [done|]].
    by intros x ?%elem_of_nil. }
  specialize (IH (better_priority best c)). destruct (foldl better_priority (better_priority best c) l) as [b|].
  - destruct IH as [H1 H2]. unfold better_priority in H1, H2.
    assert (Hc : ∀ x, c = Some x → x ≤ b).
    { intros x ->. destruct best as [y|]; [|by apply H2; left]. destruct (y <? x) eqn:E; [by apply H2; left|].
      bprop. specialize (H2 y ltac:(by left)). lia. }
    assert (Hb : ∀ x, best = Some x → x ≤ b).
    { intros x ->. destruct c as [y|]; [|by apply H2; left]. destruct (x <? y) eqn:E; [|by apply H2; left].
      bprop. specialize (H2 y ltac:(by left)). lia. }
    split.
    + destruct H1 as [H1|H1]; [|right; by right]. destruct c as [y|]; [|by left].
      destruct best as [z|]; [destruct (z <? y)|]; [right; rewrite H1; by left|by left|right; rewrite H1; by left].
    + intros x [Hx|[Hx|Hx]%elem_of_cons]; [by apply Hb|by apply Hc|]. apply H2. by right.
  - destruct IH as [H1 H2]. destruct c as [y|], best as [w|]; try done; [by cbn in H1; destruct (w <? y)|].
    split; [done|]. intros x [Hx|Hx]%elem_of_cons; [done|]. by apply (H2 x).
Qed.

(** The tables once every shard of the request is up to date. *)
Record mixed_ready (now : time) (s : authScheduler) (modelKey : string) (providers : list string) : Prop := {
  mr_tables : tables_ok now s;
  mr_shards : ∀ pk p, pk ∈ providers → s_providers s !! pk = Some p →
    ∃ m, p_modelShards p !! canonicalModelKey modelKey = Some m ∧ current now m;
}.
Definition ready_entry (s : authScheduler) (modelKey : string) (predicate : entry_pred) (pk : string)
    (priority : Z) (e : scheduledAuth) : Prop :=
  ∃ m, shard_of s modelKey pk = Some m ∧ m_entries m !! entry_id e = Some e ∧ predicate e = true
    ∧ e_state e = scheduledStateReady ∧ sm_priority (e_meta e) = priority.

Lemma priority_fold_tables t modelKey predicate now providers s best :
  0 ≤ t ≤ now → tables_ok t s →
  tables_ok now (foldl (priority_step modelKey predicate now) (s, best) providers).1.
Proof.
  intros Ht Hs. apply (tables_ok_mono t now) in Hs; [|lia]. revert s best Hs.
  induction providers as [|pk l IH]; intros s best Hs; [done|]. cbn [foldl]. unfold priority_step at 2.
  destruct (s_providers s !! pk) as [p|] eqn:Hp; [|by apply IH].
  destruct (so_providers now s Hs pk p Hp) as [_ Hok].
  destruct (ensure_model_ok now now pk p modelKey ltac:(lia) Hok) as (H1 & H2 & _).
  destruct (ensureModelLocked p modelKey now) as [m p1]. cbn [fst snd] in *.
  apply IH. apply (replace_provider_ok now s pk p); [done..|by rewrite H2].
Qed.

Lemma shard_of_ready now s modelKey providers pk m :
  mixed_ready now s modelKey providers → pk ∈ providers → shard_of s modelKey pk = Some m →
  current now m ∧ ∃ p, s_providers s !! pk = Some p ∧ p_modelShards p !! canonicalModelKey modelKey = Some m
    ∧ shard_of_provider now pk (p_auths p) (canonicalModelKey modelKey) m.
Proof.
  intros [Hs Hsh] Hpk Hm. unfold shard_of in Hm. destruct (s_providers s !! pk) as [p|] eqn:Hp; [|done].
  destruct (Hsh pk p Hpk Hp) as (m' & Hm' & Hcur). assert (m' = m) as -> by congruence. split; [done|].
  exists p. split_and!; [done..|]. destruct (so_providers now s Hs pk p Hp) as [_ Hok]. by apply (po_shards _ _ _ Hok).
Qed.

(** What one of the mixed strategies does with up-to-date tables: they stay so,
    and it finds a ready entry of the priority if there is one. *)
Definition mixed_sound (now : time) (s : authScheduler) (modelKey : string) (predicate : entry_pred)
    (priority : Z) (providers : list string) (r : option (Auth * string) * authScheduler) : Prop :=
  tables_ok now r.2
  ∧ match r.1 with
    | Some (a, pk) => pk ∈ providers ∧ ∃ e, ready_entry s modelKey predicate pk priority e ∧ e_auth e = a
    | None => ∀ pk e, pk ∈ providers → ¬ ready_entry s modelKey predicate pk priority e
    end.

Lemma pick_at_sound now s modelKey providers pk priority strategy predicate :
  mixed_ready now s modelKey providers → pk ∈ providers → weight_safe strategy predicate →
  let r := pick_at s modelKey pk priority strategy predicate in
  mixed_ready now r.2 modelKey providers
  ∧ (∀ qk prio e, ready_entry r.2 modelKey predicate qk prio e ↔ ready_entry s modelKey predicate qk prio e)
  ∧ match r.1 with
    | Some a => ∃ e, ready_entry s modelKey predicate pk priority e ∧ e_auth e = a
    | None => ∀ e, ¬ ready_entry s modelKey predicate pk priority e
    end.
Proof.
  intros Hr Hpk Hsafe. unfold pick_at.
  destruct (s_providers s !! pk) as [p|] eqn:Hp.
  2: { split_and!; [done|done|]. intros e (m & Hm & _). unfold shard_of in Hm. by rewrite Hp in Hm. }
  destruct (mr_shards _ _ _ _ Hr pk p Hpk Hp) as (m & Hm & Hcur). rewrite Hm.
  set (K := canonicalModelKey modelKey) in *.
  pose proof (pick_at_priority_sound m now false priority strategy predicate Hcur Hsafe) as (Hcur2 & He2 & Hk2 & Hres).
  destruct (pickReadyAtPriorityLocked m false priority strategy predicate) as [picked m2]. cbn [fst snd] in *.
  pose proof (mr_tables _ _ _ _ Hr) as Htab. destruct (so_providers now s Htab pk p Hp) as [_ Hok].
  pose proof (po_shards _ _ _ Hok K m Hm) as Hsp.
  assert (Hshard : ∀ qk, shard_of (set_shard s pk p K m2) modelKey qk
    = if decide (qk = pk) then Some m2 else shard_of s modelKey qk).
  { intros qk. unfold shard_of, set_shard, set_provider. cbn. fold K. destruct (decide (qk = pk)) as [->|Hd].
    - rewrite lookup_insert_eq. cbn. by rewrite lookup_insert_eq.
    - by rewrite lookup_insert_ne. }
  split_and!.
  - split; [apply (install_shard now now s pk p p K m2); try done; apply (picked_shard now _ _ _ _ m); done || apply Hcur2|].
    intros qk q Hqk Hq. cbn in Hq. apply lookup_insert_Some in Hq as [[<- <-]|[_ Hq]]; [|by apply (mr_shards _ _ _ _ Hr qk)].
    exists m2. cbn. fold K. by rewrite lookup_insert_eq.
  - intros qk prio e. unfold ready_entry. rewrite Hshard. destruct (decide (qk = pk)) as [->|]; [|done].
    unfold shard_of. rewrite Hp. fold K. rewrite Hm.
    split; intros (x & [= <-] & Hl & Hx); eexists; (split; [done|]); rewrite He2 in *; done.
  - assert (Hs : shard_of s modelKey pk = Some m) by (unfold shard_of; by rewrite Hp).
    destruct picked as [a|].
    + destruct Hres as (e & Hl & Ha & Hpr & Hst & Hprio). exists e. split; [|done]. by exists m.
    + intros e (x & Hx & Hl & Hpr & Hst & Hprio). assert (x = m) as -> by congruence. by apply (Hres e).
Qed.

Lemma ready_entry_provider now s modelKey providers predicate pk priority e :
  mixed_ready now s modelKey providers → pk ∈ providers → ready_entry s modelKey predicate pk priority e →
  executorKeyFromAuth (e_auth e) = pk ∧ sm_providerKey (e_meta e) = pk.
Proof.
  intros Hr Hpk (m & Hm & Hl & _). destruct (shard_of_ready now s modelKey providers pk m Hr Hpk Hm) as (_ & p & _ & _ & Hsp).
  by apply (sp_provider _ _ _ _ _ Hsp (entry_id e)).
Qed.

Lemma mixed_first_sound now s modelKey providers priority predicate :
  mixed_ready now s modelKey providers → weight_safe schedulerStrategyFillFirst predicate →
  mixed_sound now s modelKey predicate priority providers (mixed_first s modelKey priority predicate providers).
Proof.
  intros Hr Hsafe. assert (Hsub : ∀ pk, pk ∈ providers → pk ∈ providers) by done. revert Hr Hsub.
  generalize providers at 1 3 as all. revert s. induction providers as [|pk l IH]; intros s all Hr Hsub.
  { split; [apply Hr|]. intros pk e ?%elem_of_nil. done. }
  cbn [mixed_first].
  pose proof (pick_at_sound now s modelKey all pk priority schedulerStrategyFillFirst predicate Hr
    (Hsub pk ltac:(by left)) Hsafe) as (Hr2 & Hsame & Hres).
  destruct (pick_at s modelKey pk priority schedulerStrategyFillFirst predicate) as [[a|] s2]; cbn [fst snd] in *.
  - split; [apply Hr2|]. split; [by left|done].
  - destruct (IH s2 all Hr2 (fun x Hx => Hsub x ltac:(by right))) as [Ht Hm]. split; [done|].
    destruct (mixed_first s2 modelKey priority predicate l).1 as [[a qk]|].
    + destruct Hm as (Hin & e & He%Hsame & Ha). split; [by right|]. by exists e.
    + intros qk e [->|Hqk]%elem_of_cons; [done|]. rewrite <- Hsame. by apply Hm.
Qed.

(** The entries of one priority at one provider. *)
Lemma bucket_entries_spec now s modelKey providers predicate pk priority e :
  mixed_ready now s modelKey providers → pk ∈ providers →
  e ∈ bucket_entries s modelKey priority pk ∧ predicate e = true ↔ ready_entry s modelKey predicate pk priority e.
Proof.
  intros Hr Hpk. unfold bucket_entries, ready_entry. destruct (shard_of s modelKey pk) as [m|] eqn:Hm.
  2: { split; [by intros [?%elem_of_nil _]|by intros (m & [=] & _)]. }
  destruct (shard_of_ready now s modelKey providers pk m Hr Hpk Hm) as [Hcur _].
  pose proof (cu_ok _ _ Hcur) as [Hk _ Hi]. destruct (m_readyByPriority m !! priority) as [b|] eqn:Hb.
  - rewrite (proj2 (view_entries_spec m _ _ Hk (bucket_view_ok m priority b false Hi Hb))).
    unfold in_bucket, sched_is, view_pred. cbn [negb orb]. rewrite andb_true_r, andb_true_iff, Z.eqb_eq.
    rewrite bool_decide_eq_true. split; [intros [[Hl [Hs Hq]] Hp]; by exists m|].
    by intros (x & [= <-] & Hl & Hp & Hs & Hq).
  - split; [by intros [?%elem_of_nil _]|]. intros (x & [= <-] & Hl & Hp & Hs & Hq). exfalso.
    assert (Hsome : is_Some (m_readyByPriority m !! priority)); [|rewrite Hb in Hsome; by destruct Hsome].
    apply (io_buckets m Hi). exists (entry_id e), e. unfold in_bucket, sched_is. by rewrite Hs, Hq, Z.eqb_refl.
Qed.

Lemma pick_smooth_elem entries current predicate e :
  (pickSmoothWeightedScheduled entries current predicate).1 = Some e → e ∈ entries ∧ predicate e = true.
Proof.
  unfold pickSmoothWeightedScheduled.
  match goal with |- context [foldl (sched_step predicate) ?a entries] =>
    assert (H : ∀ l acc, sc_picked (foldl (sched_step predicate) acc l) = Some e →
      sc_picked acc = Some e ∨ e ∈ l ∧ predicate e = true); [|specialize (H entries a)] end.
  { induction l as [|x l IH]; intros acc Hacc; [by left|]. cbn in Hacc.
    apply IH in Hacc as [Hacc|[Hin Hp]]; [|right; split; [by right|done]].
    unfold sched_step in Hacc. destruct (sm_weight (e_meta x) <=? 0); [by left|].
    destruct (predicate x) eqn:Ep; cbn in Hacc; [|by left]. case_if_in Hacc; [|by left].
    injection Hacc as ->. right. split; [by left|done]. }
  destruct (sc_picked _) eqn:E; cbn; [|done]. intros [= <-]. by destruct (H eq_refl).
Qed.

Lemma pick_smooth_nonempty entries current predicate :
  weighed entries → List.filter predicate entries ≠ [] →
  (∀ e, predicate e = true → 0 < sm_weight (e_meta e)) →
  is_Some (pickSmoothWeightedScheduled entries current predicate).1.
Proof.
  intros Hw Hne Hpos. pose proof (pickSmooth_spec entries current predicate Hw) as H. cbv zeta in H.
  destruct (Selector.pick_smooth_some (map e_auth (List.filter predicate entries)) current) as (p & c & Heq & _).
  - by destruct (List.filter predicate entries).
  - intros a (e & <- & [He Hp]%filter_In)%list_elem_of_In%in_map_iff.
    rewrite <- (Hw e) by by apply list_elem_of_In. by apply Hpos.
  - rewrite Heq in H. injection H as H _. destruct (pickSmoothWeightedScheduled entries current predicate).1; by eauto.
Qed.

Lemma mixed_weighted_sound now s modelKey cursorKey providers priority predicate :
  mixed_ready now s modelKey providers → weight_safe schedulerStrategyWeightedRoundRobin predicate →
  mixed_sound now s modelKey predicate priority providers
    (mixed_weighted s modelKey cursorKey priority predicate providers).
Proof.
  intros Hr Hsafe. specialize (Hsafe eq_refl). unfold mixed_weighted.
  set (entries := sort_by entry_id _). set (state := Selector.prepare _ _).
  assert (Hin : ∀ e, e ∈ entries ↔ ∃ pk, pk ∈ providers ∧ e ∈ bucket_entries s modelKey priority pk).
  { intros e. unfold entries. rewrite elem_of_sort_by, list_elem_of_In, in_concat. split.
    - intros (l & (pk & <- & Hpk)%in_map_iff & He). exists pk. by rewrite !list_elem_of_In.
    - intros (pk & Hpk & He). exists (bucket_entries s modelKey priority pk). split; [|by apply list_elem_of_In].
      by apply in_map, list_elem_of_In. }
  assert (Hspec : ∀ e, e ∈ entries → predicate e = true →
    ∃ pk, pk ∈ providers ∧ ready_entry s modelKey predicate pk priority e).
  { intros e (pk & Hpk & He)%Hin Hp. exists pk. split; [done|]. by apply (bucket_entries_spec now s modelKey providers). }
  assert (Htab : ∀ x, tables_ok now (s <| s_mixedWeightedStates := x |>)).
  { intros x. apply (tables_ok_ext now s); [done|done|apply Hr|apply Hr]. }
  pose proof (pick_smooth_elem entries (Selector.sw_current state) predicate) as Hel.
  pose proof (pick_smooth_nonempty entries (Selector.sw_current state) predicate) as Hsome.
  destruct (pickSmoothWeightedScheduled entries (Selector.sw_current state) predicate) as [[e|] current].
  - cbn. split; [apply Htab|]. destruct (Hel e eq_refl) as [He Hp]. destruct (Hspec e He Hp) as (pk & Hpk & Hre).
    destruct (ready_entry_provider now s modelKey providers predicate pk priority e Hr Hpk Hre) as [_ ->].
    split; [done|]. by exists e.
  - cbn. split; [apply Htab|]. intros pk e Hpk Hre. destruct Hsome as [x Hx]; [| |done|done].
    + intros x (qk & Hqk & Hx)%Hin. unfold bucket_entries in Hx. destruct (shard_of s modelKey qk) as [m|] eqn:Hm; [|by apply elem_of_nil in Hx].
      destruct (shard_of_ready now s modelKey providers qk m Hr Hqk Hm) as [Hcur _].
      pose proof (cu_ok _ _ Hcur) as [Hk Hent Hi]. destruct (m_readyByPriority m !! priority) as [b|] eqn:Hb; [|by apply elem_of_nil in Hx].
      apply (view_entries_spec m _ _ Hk (bucket_view_ok m priority b false Hi Hb)) in Hx as [Hl _].
      by destruct (Hent _ x Hl) as [Ha [_ [Hwt _]] _]; rewrite Hwt, Ha.
    + intros Hnil. apply elem_of_nil with e. rewrite <- Hnil. apply elem_of_List_filter.
      apply (bucket_entries_spec now s modelKey providers) in Hre as [He Hp]; [|done|done]. split; [|done].
      apply Hin. by exists pk.
Qed.

(** The segment a slot falls into. *)
Lemma start_provider_spec weights index segmentStart slot :
  (∀ w, w ∈ weights → 0 ≤ w) → segmentStart ≤ slot < segmentStart + zsum id weights →
  ∃ i w, start_provider weights index segmentStart slot = Some (index + i)%nat ∧ weights !! i = Some w ∧ 0 < w
    ∧ segmentStart + segment_start weights i ≤ slot < segmentStart + segment_start weights i + w.
Proof.
  unfold segment_start. revert index segmentStart. induction weights as [|w l IH]; intros index start Hnn Hs; [cbn in Hs; lia|].
  rewrite zsum_cons in Hs. cbn [start_provider]. pose proof (Hnn w ltac:(by left)) as Hw. unfold id at 1 in Hs.
  assert (Hrec : start + w ≤ slot → ∃ i w0, start_provider l (S index) (start + w) slot = Some (index + i)%nat
    ∧ (w :: l) !! i = Some w0 ∧ 0 < w0
    ∧ start + zsum id (take i (w :: l)) ≤ slot < start + zsum id (take i (w :: l)) + w0).
  { intros Hle. destruct (IH (S index) (start + w)) as (i & w0 & H1 & H2 & H3 & H4);
      [by intros x Hx; apply Hnn; right|lia|].
    exists (S i), w0. rewrite H1. cbn [take lookup list_lookup]. rewrite zsum_cons. unfold id at 1 3.
    split_and!; [f_equal; lia|done|done|lia|lia]. }
  destruct (w =? 0) eqn:E; bprop; [apply Hrec; lia|].
  destruct (slot <? start + w) eqn:Eb; bprop; [|apply Hrec; lia].
  exists 0%nat, w. cbn. split_and!; [f_equal; lia|done|lia|lia|lia].
Qed.

Lemma ready_count_spec now s modelKey providers predicate pk priority :
  mixed_ready now s modelKey providers → pk ∈ providers →
  0 ≤ ready_count s modelKey priority predicate pk
  ∧ (ready_count s modelKey priority predicate pk ≠ 0 ↔ ∃ e, ready_entry s modelKey predicate pk priority e).
Proof.
  intros Hr Hpk.
  assert (Hc : ready_count s modelKey priority predicate pk
    = Z.of_nat (length (List.filter predicate (bucket_entries s modelKey priority pk)))).
  { unfold ready_count, bucket_entries, readyCountAtPriorityLocked.
    destruct (shard_of s modelKey pk) as [m|]; [|done]. by destruct (m_readyByPriority m !! priority). }
  rewrite Hc. split; [lia|]. split.
  - intros Hne. destruct (List.filter predicate (bucket_entries s modelKey priority pk)) as [|e l] eqn:El; [done|].
    exists e. apply (bucket_entries_spec now s modelKey providers); [done..|].
    apply elem_of_List_filter. rewrite El. by left.
  - intros [e He]. apply (bucket_entries_spec now s modelKey providers) in He; [|done..].
    apply elem_of_List_filter in He. destruct (List.filter predicate _); [by apply elem_of_nil in He|]. cbn. lia.
Qed.

(** The rotation over the segments starts with a provider that has a match. *)
Lemma mixed_rotate_start now s modelKey cursorKey providers priority predicate weights start slot w pk :
  mixed_ready now s modelKey providers → weight_safe schedulerStrategyRoundRobin predicate →
  providers !! start = Some pk → weights !! start = Some w → w ≠ 0 → 0 ≤ slot →
  (∃ e, ready_entry s modelKey predicate pk priority e) →
  let r := mixed_rotate s modelKey cursorKey priority predicate providers weights start slot (length providers) in
  ∃ a s1, r = (Some (a, pk), s1 <| s_mixedCursors := <[cursorKey := slot + 1]> (s_mixedCursors s1) |>)
    ∧ pick_at s modelKey pk priority schedulerStrategyRoundRobin predicate = (Some a, s1)
    ∧ mixed_sound now s modelKey predicate priority providers r.
Proof.
  intros Hr Hsafe Hpk Hw Hwn Hslot [e0 He0]. pose proof (lookup_lt_Some _ _ _ Hpk) as Hlt.
  assert (Hin : pk ∈ providers) by by eapply list_elem_of_lookup_2.
  destruct (length providers) as [|n] eqn:El; [lia|]. cbn [mixed_rotate]. cbv zeta.
  rewrite El, Nat.sub_diag, Nat.add_0_r, Nat.mod_small by lia. rewrite Hpk, Hw.
  rewrite (proj2 (Z.eqb_neq _ _) Hwn), Nat.eqb_refl.
  destruct (pick_at_sound now s modelKey providers pk priority schedulerStrategyRoundRobin predicate Hr Hin Hsafe)
    as (Hr2 & _ & Hres).
  destruct (pick_at s modelKey pk priority schedulerStrategyRoundRobin predicate) as [[a|] s1]; cbn [fst snd] in *.
  - exists a, s1. split_and!; [done..|]. destruct Hr2 as [Ht2 _]. split; [|by split].
    apply (tables_ok_ext now s1); [done|done| |done]. cbn. intros key v [[<- <-]|[_ Hl]]%lookup_insert_Some; [lia|].
    by apply (so_cursors _ _ Ht2) in Hl.
  - exfalso. by apply (Hres e0).
Qed.

Lemma mixed_round_robin_sound now s modelKey cursorKey providers priority predicate :
  mixed_ready now s modelKey providers → weight_safe schedulerStrategyRoundRobin predicate →
  mixed_sound now s modelKey predicate priority providers
    (mixed_round_robin s modelKey cursorKey priority predicate providers).
Proof.
  intros Hr Hsafe. unfold mixed_round_robin.
  set (weights := map (ready_count s modelKey priority predicate) providers).
  assert (Hnn : ∀ w, w ∈ weights → 0 ≤ w).
  { intros w (pk & <- & Hpk%list_elem_of_In)%list_elem_of_In%in_map_iff.
    by apply (ready_count_spec now s modelKey providers). }
  destruct (zsum id weights =? 0) eqn:E; bprop.
  - split; [apply Hr|]. intros pk e Hpk He.
    assert (Hz : ready_count s modelKey priority predicate pk = 0).
    { apply (zsum_zero id weights Hnn E). apply list_elem_of_In.
      by apply (in_map (ready_count s modelKey priority predicate)), list_elem_of_In. }
    apply (ready_count_spec now s modelKey providers predicate pk priority Hr Hpk); [by exists e|done].
  - pose proof (zsum_nonneg id weights Hnn) as Hpos.
    set (cursor := default 0 (s_mixedCursors s !! cursorKey)).
    assert (Hc : 0 ≤ cursor).
    { unfold cursor. destruct (s_mixedCursors s !! cursorKey) as [c|] eqn:Ec; [|done].
      by apply (so_cursors _ _ (mr_tables _ _ _ _ Hr)) in Ec. }
    pose proof (Z.rem_bound_pos cursor (zsum id weights) Hc ltac:(lia)) as Hb.
    destruct (start_provider_spec weights 0 0 (Z.rem cursor (zsum id weights)) Hnn ltac:(lia))
      as (i & w & -> & Hi & Hw & _). cbn [Nat.add].
    unfold weights in Hi. change (map ?f ?l) with (f <$> l) in Hi. rewrite list_lookup_fmap in Hi.
    apply fmap_Some in Hi as (pk & Hpk & ->).
    assert (Hin : pk ∈ providers) by by eapply list_elem_of_lookup_2.
    destruct (mixed_rotate_start now s modelKey cursorKey providers priority predicate weights i
      (Z.rem cursor (zsum id weights)) (ready_count s modelKey priority predicate pk) pk) as (a & s1 & _ & _ & Hsound);
      try done; [|lia|lia|].
    + unfold weights. change (map ?f ?l) with (f <$> l). by rewrite list_lookup_fmap, Hpk.
    + apply (ready_count_spec now s modelKey providers); [done..|lia].
Qed.

Lemma mixed_pick_sound now s modelKey cursorKey providers priority strategy predicate :
  mixed_ready now s modelKey providers → weight_safe strategy predicate →
  mixed_sound now s modelKey predicate priority providers
    (mixed_pick s modelKey cursorKey priority strategy predicate providers).
Proof.
  intros Hr Hsafe. destruct strategy; cbn [mixed_pick].
  - by apply mixed_round_robin_sound.
  - by apply mixed_round_robin_sound.
  - by apply mixed_round_robin_sound.
  - by apply mixed_first_sound.
  - by apply mixed_weighted_sound.
Qed.

(** The tables of [s] after the loop over the providers of a request. *)
Lemma fold_ready t now modelKey predicate providers s :
  0 ≤ t ≤ now → tables_ok t s → NoDup providers →
  let s1 := (foldl (priority_step modelKey predicate now) (s, None) providers).1 in
  mixed_ready now s1 modelKey providers
  ∧ ∀ pk, pk ∈ providers → shard_of s1 modelKey pk = fst <$> ensured s modelKey now pk.
Proof.
  intros Ht Hs Hnd s1. destruct (priority_fold modelKey predicate now providers s None Hnd) as [Hp _]. fold s1 in Hp.
  assert (Hen : ∀ pk p, pk ∈ providers → s_providers s !! pk = Some p →
    s_providers s1 !! pk = Some (ensureModelLocked p modelKey now).2
    ∧ p_modelShards (ensureModelLocked p modelKey now).2 !! canonicalModelKey modelKey
      = Some (ensureModelLocked p modelKey now).1
    ∧ current now (ensureModelLocked p modelKey now).1).
  { intros pk p Hpk Hl. rewrite Hp, decide_True by done. unfold ensured. rewrite Hl.
    destruct (so_providers t s Hs pk p Hl) as [_ Hok].
    destruct (ensure_model_ok t now pk p modelKey Ht Hok) as (_ & _ & Hat & _ & Hcur). done. }
  split; [split|].
  - by apply (priority_fold_tables t).
  - intros pk p1 Hpk Hl. destruct (s_providers s !! pk) as [p|] eqn:Hl0.
    + destruct (Hen pk p Hpk Hl0) as (H1 & H2 & H3). rewrite H1 in Hl. injection Hl as <-. by eexists.
    + rewrite Hp, decide_True in Hl by done. unfold ensured in Hl. by rewrite Hl0 in Hl.
  - intros pk Hpk. unfold shard_of. destruct (s_providers s !! pk) as [p|] eqn:Hl0.
    + destruct (Hen pk p Hpk Hl0) as (H1 & H2 & H3). rewrite H1, H2. unfold ensured. by rewrite Hl0.
    + rewrite Hp, decide_True by done. unfold ensured. by rewrite Hl0.
Qed.

Lemma candidate_ready t now s q providers strategy predicate pk a :
  0 ≤ t ≤ now → tables_ok t s → NoDup providers → predicate = request_predicate q "" strategy →
  let modelKey := canonicalModelKey (q_model q) in
  let s1 := (foldl (priority_step modelKey predicate now) (s, None) providers).1 in
  candidate s providers q "" strategy now pk a
  ↔ pk ∈ providers ∧ ∃ e priority, ready_entry s1 modelKey predicate pk priority e ∧ e_auth e = a.
Proof.
  intros Ht Hs Hnd -> modelKey s1.
  destruct (fold_ready t now modelKey (request_predicate q "" strategy) providers s Ht Hs Hnd) as [Hr Hsh].
  fold s1 in Hr, Hsh. unfold candidate at 1. split; intros [Hpk Hrest]; (split; [done|]).
  - pose proof Hrest as ((p & Hp & _) & _). specialize (Hsh pk Hpk). unfold ensured in Hsh. rewrite Hp in Hsh. cbn in Hsh.
    destruct (so_providers t s Hs pk p Hp) as [_ Hok].
    destruct (ensure_model_ok t now pk p modelKey Ht Hok) as (_ & _ & _ & Hsp & Hcur).
    destruct (proj1 (candidate_entry t now s pk p q "" strategy (ensureModelLocked p modelKey now).1 a Ht Hs Hp Hcur
      (sp_key _ _ _ _ _ Hsp) (fun b => ensure_offers t now pk p modelKey b Ht Hok))) as (e & Hl & Ha & Hpr & Hst).
    { split; [by left|done]. }
    exists e, (sm_priority (e_meta e)). split; [|done]. by exists (ensureModelLocked p modelKey now).1.
  - destruct Hrest as (e & priority & (m & Hm & Hl & Hpr & Hst & _) & Ha). rewrite (Hsh pk Hpk) in Hm.
    unfold ensured in Hm. destruct (s_providers s !! pk) as [p|] eqn:Hp; [|done]. injection Hm as <-.
    destruct (so_providers t s Hs pk p Hp) as [_ Hok].
    destruct (ensure_model_ok t now pk p modelKey Ht Hok) as (_ & _ & _ & Hsp & Hcur).
    apply (candidate_entry t now s pk p q "" strategy (ensureModelLocked p modelKey now).1 a Ht Hs Hp Hcur
      (sp_key _ _ _ _ _ Hsp) (fun b => ensure_offers t now pk p modelKey b Ht Hok)).
    by exists e.
Qed.

(** The best priority of the loop. *)
Lemma fold_best t now modelKey predicate providers s :
  0 ≤ t ≤ now → tables_ok t s → NoDup providers →
  let r := foldl (priority_step modelKey predicate now) (s, None) providers in
  match r.2 with
  | Some best => (∃ pk e, pk ∈ providers ∧ ready_entry r.1 modelKey predicate pk best e)
      ∧ ∀ pk e priority, pk ∈ providers → ready_entry r.1 modelKey predicate pk priority e → priority ≤ best
  | None => ∀ pk e priority, pk ∈ providers → ¬ ready_entry r.1 modelKey predicate pk priority e
  end.
Proof.
  intros Ht Hs Hnd r. destruct (fold_ready t now modelKey predicate providers s Ht Hs Hnd) as [Hr Hsh]. fold r in Hr, Hsh.
  destruct (priority_fold modelKey predicate now providers s None Hnd) as [_ Hbest]. fold r in Hbest.
  assert (Hpri : ∀ pk, pk ∈ providers → match ready_priority s modelKey predicate now pk with
    | Some p => (∃ e, ready_entry r.1 modelKey predicate pk p e)
        ∧ ∀ e p', ready_entry r.1 modelKey predicate pk p' e → p' ≤ p
    | None => ∀ e p', ¬ ready_entry r.1 modelKey predicate pk p' e
    end).
  { intros pk Hpk. unfold ready_priority, ready_entry. rewrite (Hsh pk Hpk).
    destruct (ensured s modelKey now pk) as [[m p1]|] eqn:Ee; cbn [fmap option_fmap option_map]; [|by intros e p' (m & [=] & _)].
    assert (Hm : shard_of r.1 modelKey pk = Some m) by (rewrite (Hsh pk Hpk), Ee; done).
    destruct (shard_of_ready now r.1 modelKey providers pk m Hr Hpk Hm) as [Hcur _].
    pose proof (highest_priority_sound m now false predicate Hcur) as Hh.
    destruct (highestReadyPriorityLocked m false predicate) as [p|].
    - destruct Hh as [(e & He) Hmax]. split; [by exists e, m|].
      intros e' p' (x & [= <-] & Hl & Hp & Hst & <-). by apply Hmax.
    - intros e' p' (x & [= <-] & Hl & Hp & Hst & _). by apply (Hh e'). }
  assert (Hmem : ∀ x, Some x ∈ map (ready_priority s modelKey predicate now) providers
    ↔ ∃ pk, pk ∈ providers ∧ ready_priority s modelKey predicate now pk = Some x).
  { intros x. rewrite list_elem_of_In, in_map_iff. setoid_rewrite <- list_elem_of_In. naive_solver. }
  pose proof (better_fold (map (ready_priority s modelKey predicate now) providers) None) as Hb.
  rewrite <- Hbest in Hb. destruct r.2 as [best|].
  - destruct Hb as [[?|(pk & Hpk & Hx)%Hmem] Hmax]; [done|]. pose proof (Hpri pk Hpk) as Hp. rewrite Hx in Hp. split.
    + destruct Hp as [[e He] _]. by exists pk, e.
    + intros qk e p' Hqk He. specialize (Hpri qk Hqk). destruct (ready_priority s modelKey predicate now qk) as [y|] eqn:Ey.
      * transitivity y; [by apply (proj2 Hpri e)|]. apply Hmax. right. apply Hmem. by exists qk.
      * by apply Hpri in He.
  - destruct Hb as [_ Hno]. intros pk e p' Hpk He. specialize (Hpri pk Hpk).
    destruct (ready_priority s modelKey predicate now pk) as [y|] eqn:Ey; [|by apply Hpri in He].
    apply (Hno y), Hmem. by exists pk.
Qed.

Lemma mixed_error_tables t s providers model predicate now :
  0 ≤ t ≤ now → tables_ok t s → tables_ok now (mixedUnavailableErrorLocked s providers model predicate now).2.
Proof.
  intros Ht Hs. apply (tables_ok_mono t now) in Hs; [|lia]. unfold mixedUnavailableErrorLocked.
  assert (H : ∀ l s acc, tables_ok now s → tables_ok now (foldl (mixed_step model predicate now) (s, acc) l).1).
  { induction l as [|pk l IH]; intros s0 acc Hs0; [done|]. cbn [foldl]. unfold mixed_step at 2.
    destruct (s_providers s0 !! pk) as [p|] eqn:Hp; [|by apply IH].
    destruct (so_providers now s0 Hs0 pk p Hp) as [_ Hok].
    destruct (ensure_model_ok now now pk p (canonicalModelKey model) ltac:(lia) Hok) as (H1 & H2 & _).
    destruct (ensureModelLocked p (canonicalModelKey model) now) as [m p1]. cbn [fst snd] in *.
    apply IH, (replace_provider_ok now s0 pk p); [done..|by rewrite H2]. }
  specialize (H providers s (0, 0, 0, 0, None, None) Hs).
  by destruct (foldl (mixed_step model predicate now) _ providers) as [s1 [[? ?] ?]].
Qed.

Lemma normalize_NoDup providers :
  NoDup (normalizeProviderKeys providers) ∧ ∀ pk, pk ∈ normalizeProviderKeys providers → pk ≠ "".
Proof.
  unfold normalizeProviderKeys.
  assert (H : ∀ l acc, (NoDup acc.2 ∧ (∀ pk, pk ∈ acc.2 ↔ pk ∈ acc.1) ∧ ∀ pk, pk ∈ acc.2 → pk ≠ "") →
    NoDup (foldl normalize_provider acc l).2 ∧ ∀ pk, pk ∈ (foldl normalize_provider acc l).2 → pk ≠ "").
  { induction l as [|x l IH]; intros [seen out] (H1 & H2 & H3); [done|]. cbn [foldl fst snd] in *. apply IH.
    unfold normalize_provider. destruct (String.eqb (canonicalSchedulingProvider x) "") eqn:E; [done|]. bprop.
    case_bool_decide as Hin; [done|]. cbn. split_and!.
    - apply NoDup_app. split_and!; [done| |apply NoDup_singleton].
      intros pk Hpk ->%list_elem_of_singleton. by apply Hin, H2.
    - intros pk. rewrite elem_of_app, list_elem_of_singleton, H2. set_solver.
    - intros pk [Hpk| ->%list_elem_of_singleton]%elem_of_app; [by apply H3|done]. }
  apply H. cbn. split_and!; [constructor|set_solver|by intros pk ?%elem_of_nil].
Qed.

(** The readings of the clock come in their order. *)
Definition clock_ok (t : time) (c : clock) : Prop := 0 ≤ t ≤ t_ensure c ∧ t_ensure c ≤ t_pick c ≤ t_error c.

Lemma pick_among_sound t s providers q strategy c :
  clock_ok t c → tables_ok t s → NoDup providers →
  let r := pick_among s providers q strategy c in
  tables_ok (t_error c) r.2 ∧ right_pick s providers q "" strategy (t_ensure c) false r.1.
Proof.
  intros [Ht Hc] Hs Hnd. unfold pick_among.
  set (modelKey := canonicalModelKey (q_model q)). set (predicate := request_predicate q "" strategy).
  destruct (fold_ready t (t_ensure c) modelKey predicate providers s Ht Hs Hnd) as [Hr _].
  pose proof (fold_best t (t_ensure c) modelKey predicate providers s Ht Hs Hnd) as Hbest.
  pose proof (fun pk a => candidate_ready t (t_ensure c) s q providers strategy predicate pk a Ht Hs Hnd eq_refl) as Hcand.
  cbv zeta in Hcand. fold modelKey in Hcand.
  destruct (foldl (priority_step modelKey predicate (t_ensure c)) (s, None) providers) as [s1 best].
  cbn [fst snd] in *.
  assert (Herr : ∀ s2, tables_ok (t_ensure c) s2 →
    tables_ok (t_error c) (mixedUnavailableErrorLocked s2 providers (q_model q) predicate (t_error c)).2)
    by (intros s2 H2; apply (mixed_error_tables (t_ensure c)); [lia|done]).
  destruct best as [best|].
  2: { specialize (Herr s1 (mr_tables _ _ _ _ Hr)).
       destruct (mixedUnavailableErrorLocked s1 providers (q_model q) predicate (t_error c)) as [err s2].
       split; [exact Herr|]. cbn. intros pk a (Hpk & e & priority & He & _)%Hcand. by apply (Hbest pk e priority). }
  destruct Hbest as [(pk0 & e0 & Hpk0 & He0) Hmax].
  destruct (mixed_pick_sound (t_ensure c) s1 modelKey (cursor_key providers modelKey) providers best strategy predicate
    Hr (request_safe _ _ _)) as [Htab Hpick].
  destruct (mixed_pick s1 modelKey (cursor_key providers modelKey) best strategy predicate providers) as [[[a pk]|] s2];
    cbn [fst snd] in *; [|exfalso; by apply (Hpick pk0 e0)].
  split; [eapply tables_ok_mono; [|done]; lia|]. cbn. destruct Hpick as (Hpk & e & He & <-).
  destruct (ready_entry_provider _ _ _ _ _ _ _ _ Hr Hpk He) as [Hexec _]. split_and!; [|done|].
  - apply Hcand. split; [done|]. by exists e, best.
  - intros _ qk b (Hqk & e' & priority & He' & <-)%Hcand.
    assert (Hprio : ∀ x y k, k ∈ providers → ready_entry s1 modelKey predicate k y x → authPriority (e_auth x) = y).
    { intros x y k Hk (m & Hm & Hl & _ & _ & <-).
      destruct (shard_of_ready _ _ _ _ _ _ Hr Hk Hm) as [Hcur _].
      by destruct (entry_candidate m _ x Hcur Hl) as (_ & -> & _). }
    rewrite (Hprio _ _ _ Hpk He), (Hprio _ _ _ Hqk He'). by apply (Hmax qk e').
Qed.

Lemma pick_single_sound t s provider q strategy c :
  clock_ok t c → tables_ok t s →
  let pk := canonicalSchedulingProvider provider in
  let r := pickSingleWithStrategy s provider q strategy c in
  tables_ok (t_error c) r.2
  ∧ right_pick s [pk] q (q_pinned q) (resolve_strategy s strategy) (t_pick c) (q_websocket q) (with_provider pk r).1.
Proof.
  intros [Ht Hc] Hs. unfold pickSingleWithStrategy. set (pk := canonicalSchedulingProvider provider).
  match goal with |- context [pick_from_provider s pk provider ?ws q ?st c] =>
    destruct (pick_from_provider_sound t s pk provider ws q st c ltac:(lia) ltac:(lia) Hs) as [H1 H2];
    assert (Hws : q_websocket q = false → ws = false) by (by intros ->) end.
  split; [eapply tables_ok_mono; [|done]; lia|]. unfold right_pick in *.
  destruct (with_provider pk _).1 as [[a qk]|]; [|done]. destruct H2 as (Hc1 & Hc2 & Hc3).
  split_and!; [done..|]. intros Hq. by apply Hc3, Hws.
Qed.

(** A credential offered to a request that pins it is with the provider that
    [authProviders] names. *)
Lemma pinned_candidate t s providers q strategy now pk a :
  tables_ok t s → q_pinned q ≠ "" → candidate s providers q (q_pinned q) strategy now pk a →
  s_authProviders s !! q_pinned q = Some pk.
Proof.
  intros Hs Hp (_ & Ho & Hu & _). unfold usable in Hu. rewrite !andb_true_iff in Hu. destruct Hu as [[_ Hid] _].
  rewrite (proj2 (String.eqb_neq _ _) Hp) in Hid. cbn in Hid. apply String.eqb_eq in Hid.
  rewrite <- Hid. apply (so_home t s Hs). by eapply offered_home.
Qed.

Lemma right_pick_mono s l l' q pinned strategy now any r :
  (∀ pk, pk ∈ l → pk ∈ l') →
  (∀ pk a, candidate s l' q pinned strategy now pk a → pk ∈ l) →
  right_pick s l q pinned strategy now any r → right_pick s l' q pinned strategy now any r.
Proof.
  intros Hsub Hback. assert (Hc : ∀ pk a, candidate s l' q pinned strategy now pk a → candidate s l q pinned strategy now pk a).
  { intros pk a H. split; [by apply (Hback pk a)|apply H]. }
  destruct r as [[a pk]|e]; cbn.
  - intros ([Hpk Hrest] & Hx & Hmax). split_and!; [split; [by apply Hsub|done]|done|].
    intros Hany qk b Hb. by apply (Hmax Hany qk), Hc.
  - intros Hno pk b Hb. by apply (Hno pk b), Hc.
Qed.

Lemma containsProvider_spec providers pk : containsProvider providers pk = true ↔ pk ∈ providers.
Proof.
  unfold containsProvider. rewrite existsb_exists. setoid_rewrite <- list_elem_of_In.
  split; [by intros (x & Hx & ->%String.eqb_eq)|intros H; exists pk; by rewrite String.eqb_refl].
Qed.

Lemma pinned_mixed_sound t s providers q strategy c :
  clock_ok t c → tables_ok t s → q_pinned q ≠ "" →
  let providerKey := default "" (s_authProviders s !! q_pinned q) in
  let r := if String.eqb providerKey "" || negb (containsProvider providers providerKey)
           then (Err auth_not_found, s)
           else with_provider providerKey (pick_from_provider s providerKey "mixed" false q strategy c) in
  tables_ok (t_error c) r.2 ∧ right_pick s providers q (q_pinned q) strategy (t_pick c) false r.1.
Proof.
  intros [Ht Hc] Hs Hp providerKey r. subst r.
  assert (Hback : ∀ pk a, candidate s providers q (q_pinned q) strategy (t_pick c) pk a → pk = providerKey).
  { intros pk a Ha. apply (pinned_candidate t) in Ha; [|done..]. unfold providerKey. by rewrite Ha. }
  destruct (String.eqb providerKey "" || negb (containsProvider providers providerKey)) eqn:E.
  - split; [eapply tables_ok_mono; [|done]; lia|]. intros pk a Ha. pose proof (Hback pk a Ha) as Heq.
    apply orb_true_iff in E as [E|E]; bprop.
    + destruct Ha as (_ & Ho & _). apply (offered_home t) in Ho as (p & Hl & _); [|done].
      apply (so_providers t s Hs) in Hl as [Hne _]. congruence.
    + apply not_true_iff_false in E. apply E, containsProvider_spec. rewrite <- Heq. apply Ha.
  - apply orb_false_iff in E as [_ E%negb_false_iff%containsProvider_spec].
    destruct (pick_from_provider_sound t s providerKey "mixed" false q strategy c ltac:(lia) ltac:(lia) Hs) as [H1 H2].
    split; [cbn; eapply tables_ok_mono; [|done]; lia|].
    apply (right_pick_mono s [providerKey]); [by intros pk ->%list_elem_of_singleton| |done].
    intros pk a Ha. apply list_elem_of_singleton. by apply (Hback pk a).
Qed.

(** Provider keys that are in canonical form, as all the known ones are. *)
Definition canonical_keys (providers : list string) : Prop :=
  forallb (fun pk => String.eqb (canonicalSchedulingProvider pk) pk) (normalizeProviderKeys providers) = true.

Lemma pick_mixed_sound t s providers q strategy c :
  clock_ok t c → tables_ok t s → canonical_keys providers →
  let r := pickMixedWithStrategy s providers q strategy c in
  tables_ok (t_error c) r.2
  ∧ ∃ now, t_ensure c ≤ now ≤ t_pick c
      ∧ right_pick s (normalizeProviderKeys providers) q (q_pinned q) (resolve_strategy s strategy) now
          (q_websocket q) r.1.
Proof.
  intros Hclock Hs Hcan. pose proof Hclock as [Ht Hc]. unfold pickMixedWithStrategy, canonical_keys in *.
  destruct (normalize_NoDup providers) as [Hnd _].
  destruct (normalizeProviderKeys providers) as [|pk [|pk2 rest]].
  - split; [eapply tables_ok_mono; [|done]; lia|]. exists (t_pick c). split; [lia|].
    by intros pk a (?%elem_of_nil & _).
  - cbn in Hcan. apply andb_true_iff in Hcan as [Hcan%String.eqb_eq _].
    destruct (pick_single_sound t s pk q strategy c Hclock Hs) as [H1 H2]. rewrite Hcan in H2.
    split; [done|]. exists (t_pick c). split; [lia|done].
  - assert (Hweak : ∀ now r, right_pick s (pk :: pk2 :: rest) q (q_pinned q) (resolve_strategy s strategy) now false r →
      right_pick s (pk :: pk2 :: rest) q (q_pinned q) (resolve_strategy s strategy) now (q_websocket q) r).
    { intros now [[a k]|e]; cbn; [|done]. intros (H1 & H2 & H3). split_and!; [done..|]. intros _. by apply H3. }
    destruct (String.eqb (q_pinned q) "") eqn:Ep; cbn [negb]; bprop.
    + destruct (pick_among_sound t s (pk :: pk2 :: rest) q (resolve_strategy s strategy) c Hclock Hs Hnd) as [H1 H2].
      split; [done|]. exists (t_ensure c). split; [lia|]. apply Hweak. by rewrite Ep.
    + destruct (pinned_mixed_sound t s (pk :: pk2 :: rest) q (resolve_strategy s strategy) c Hclock Hs Ep) as [H1 H2].
      split; [done|]. exists (t_pick c). split; [lia|]. by apply Hweak.
Qed.

(** ** Every operation *)

Inductive sched_op : Type :=
| OpUpsert (reg : R) (auth : Auth)
| OpResult (reg : R) (auth : Auth) (targetModels : list string) (credentialScoped : bool)
| OpTombstone (authID : string) (epoch : Z)
| OpRemove (authID : string)
| OpResetGeneration (authID : string)
| OpRebuild (reg : R) (auths : list Auth)
| OpSetSelector (selector : selector_kind)
| OpPickSingle (provider : string) (q : pick_request) (strategy : schedulerStrategy)
| OpPickMixed (providers : list string) (q : pick_request) (strategy : schedulerStrategy).

Definition sched_exec (s : authScheduler) (ev : clock * sched_op) : authScheduler :=
  let c := ev.1 in
  match ev.2 with
  | OpUpsert reg auth => upsertAuth s reg auth (t_ensure c)
  | OpResult reg auth targets scoped => upsertAuthResult s reg auth targets scoped (t_ensure c)
  | OpTombstone authID epoch => RecordRemovalTombstone s authID epoch (t_ensure c)
  | OpRemove authID => removeAuth s authID (t_ensure c)
  | OpResetGeneration authID => ResetAuthGeneration s authID
  | OpRebuild reg auths => rebuild s reg auths (t_ensure c)
  | OpSetSelector selector => setSelector s selector
  | OpPickSingle provider q strategy => (pickSingleWithStrategy s provider q strategy c).2
  | OpPickMixed providers q strategy => (pickMixedWithStrategy s providers q strategy c).2
  end.

Definition op_ok (op : sched_op) : Prop :=
  match op with
  | OpUpsert _ auth | OpResult _ auth _ _ => well_named auth
  | OpRebuild _ auths => Forall well_named auths
  | OpPickMixed providers _ _ => canonical_keys providers
  | _ => True
  end.
(** Clocks that go on from one operation to the next. *)
Fixpoint history_ok (t : time) (evs : list (clock * sched_op)) : Prop :=
  match evs with
  | [] => True
  | (c, op) :: rest => clock_ok t c ∧ op_ok op ∧ history_ok (t_error c) rest
  end.
Fixpoint history_end (t : time) (evs : list (clock * sched_op)) : time :=
  match evs with [] => t | (c, _) :: rest => history_end (t_error c) rest end.

Lemma sched_exec_ok t s c op :
  clock_ok t c → op_ok op → tables_ok t s → tables_ok (t_error c) (sched_exec s (c, op)).
Proof.
  intros Hclock Hop Hs. pose proof Hclock as [Ht Hc]. unfold sched_exec. cbn [fst snd].
  assert (Hup : ∀ s', tables_ok (t_ensure c) s' → tables_ok (t_error c) s')
    by (intros s' H; eapply tables_ok_mono; [|done]; lia).
  assert (Hs' : tables_ok (t_ensure c) s) by (eapply tables_ok_mono; [|done]; lia).
  destruct op; cbn in Hop.
  - apply Hup. by apply (lifecycle_ok t).
  - apply Hup. by apply (result_ok t).
  - apply Hup. apply (tombstone_ok t); [lia|done].
  - apply Hup. apply (remove_auth_ok t); [lia|done].
  - apply Hup. by apply reset_generation_ok.
  - apply Hup. apply (rebuild_ok t); [lia|done|done].
  - apply Hup. by apply set_selector_ok.
  - by apply (pick_single_sound t).
  - by apply (pick_mixed_sound t).
Qed.

Lemma history_tables t s evs :
  history_ok t evs → tables_ok t s → tables_ok (history_end t evs) (foldl sched_exec s evs).
Proof.
  revert t s. induction evs as [|[c op] evs IH]; intros t s Hh Hs; [done|]. destruct Hh as (Hc & Hop & Hh).
  cbn [foldl history_end]. apply IH; [done|]. by apply (sched_exec_ok t).
Qed.

(** ** Picks do not change who is scheduled *)

Record same_credentials (s s' : authScheduler) : Prop := {
  sc_home : s_authProviders s' = s_authProviders s;
  sc_versions : s_authGenerations s' = s_authGenerations s;
  sc_auths : ∀ pk, p_auths <$> s_providers s' !! pk = p_auths <$> s_providers s !! pk;
}.
#[local] Instance same_credentials_preorder : PreOrder same_credentials.
Proof. split; [by split|]. intros x y z [H1 H2 H3] [K1 K2 K3]. split; [congruence..|]. intros pk. by rewrite K3, H3. Qed.

Lemma same_set_provider s pk p p' :
  s_providers s !! pk = Some p → p_auths p' = p_auths p → same_credentials s (set_provider s pk p').
Proof.
  intros Hp Ha. split; [done|done|]. intros qk. cbn. destruct (decide (qk = pk)) as [->|Hd].
  - rewrite lookup_insert_eq, Hp. cbn. congruence.
  - by rewrite lookup_insert_ne.
Qed.

Lemma same_set_shard s pk p k m :
  s_providers s !! pk = Some p → same_credentials s (set_shard s pk p k m).
Proof. intros Hp. by apply (same_set_provider s pk p). Qed.

Lemma same_pick_from_provider s pk errorProvider preferWs q strategy c :
  same_credentials s (pick_from_provider s pk errorProvider preferWs q strategy c).2.
Proof.
  unfold pick_from_provider. destruct (s_providers s !! pk) as [p|] eqn:Hp; [|done].
  destruct (ensureModelLocked p (canonicalModelKey (q_model q)) (t_ensure c)) as [m p1] eqn:Ee.
  destruct (pickReadyLocked m preferWs strategy _ (t_pick c)) as [[a|] m2]; cbn [snd];
    apply (same_set_provider s pk p); try done; cbn; by injection Ee as _ <-.
Qed.

Lemma same_pick_at s modelKey pk priority strategy predicate :
  same_credentials s (pick_at s modelKey pk priority strategy predicate).2.
Proof.
  unfold pick_at. destruct (s_providers s !! pk) as [p|] eqn:Hp; [|done].
  destruct (p_modelShards p !! canonicalModelKey modelKey) as [m|]; [|done].
  destruct (pickReadyAtPriorityLocked m false priority strategy predicate). by apply same_set_shard.
Qed.

Lemma same_mixed_first s modelKey priority predicate providers :
  same_credentials s (mixed_first s modelKey priority predicate providers).2.
Proof.
  revert s. induction providers as [|pk l IH]; intros s; [done|]. cbn [mixed_first].
  pose proof (same_pick_at s modelKey pk priority schedulerStrategyFillFirst predicate) as H.
  destruct (pick_at s modelKey pk priority schedulerStrategyFillFirst predicate) as [[a|] s2]; [done|]. by etrans.
Qed.

Lemma same_mixed_rotate s modelKey cursorKey priority predicate providers weights start slot left :
  same_credentials s (mixed_rotate s modelKey cursorKey priority predicate providers weights start slot left).2.
Proof.
  revert s slot. induction left as [|left IH]; intros s slot; [done|]. cbn [mixed_rotate]. cbv zeta.
  destruct (providers !! _) as [pk|]; [|apply IH]. destruct (weights !! _) as [w|]; [|apply IH].
  destruct (w =? 0); [apply IH|].
  pose proof (same_pick_at s modelKey pk priority schedulerStrategyRoundRobin predicate) as H.
  destruct (pick_at s modelKey pk priority schedulerStrategyRoundRobin predicate) as [[a|] s2]; [|by etrans].
  cbn in *. destruct H as [H1 H2 H3]. by split.
Qed.

Lemma same_mixed_pick s modelKey cursorKey priority strategy predicate providers :
  same_credentials s (mixed_pick s modelKey cursorKey priority strategy predicate providers).2.
Proof.
  assert (Hrr : same_credentials s (mixed_round_robin s modelKey cursorKey priority predicate providers).2).
  { unfold mixed_round_robin. case_if; [done|]. destruct (start_provider _ _ _ _); [apply same_mixed_rotate|done]. }
  destruct strategy; cbn [mixed_pick]; try exact Hrr; [apply same_mixed_first|].
  unfold mixed_weighted. destruct (pickSmoothWeightedScheduled _ _ _) as [picked current]. by split.
Qed.

Lemma same_step {A} (f : authScheduler * A → string → authScheduler * A) s acc providers :
  (∀ s acc pk, same_credentials s (f (s, acc) pk).1) → same_credentials s (foldl f (s, acc) providers).1.
Proof.
  intros Hf. revert s acc. induction providers as [|pk l IH]; intros s acc; [done|]. cbn [foldl].
  specialize (Hf s acc pk). destruct (f (s, acc) pk) as [s2 acc2]. by etrans.
Qed.

Lemma same_mixed_error s providers model predicate now :
  same_credentials s (mixedUnavailableErrorLocked s providers model predicate now).2.
Proof.
  unfold mixedUnavailableErrorLocked.
  pose proof (same_step (mixed_step model predicate now) s (0, 0, 0, 0, None, None) providers) as H.
  destruct (foldl (mixed_step model predicate now) _ providers) as [s1 [[? ?] ?]]. apply H. clear.
  intros s acc pk. unfold mixed_step. destruct (s_providers s !! pk) as [p|] eqn:Hp; [|done].
  destruct (ensureModelLocked p (canonicalModelKey model) now) as [m p1] eqn:Ee.
  apply (same_set_provider s pk p); [done|]. by injection Ee as _ <-.
Qed.

Lemma same_pick_among s providers q strategy c :
  same_credentials s (pick_among s providers q strategy c).2.
Proof.
  unfold pick_among. set (modelKey := canonicalModelKey (q_model q)). set (predicate := request_predicate q "" strategy).
  pose proof (same_step (priority_step modelKey predicate (t_ensure c)) s None providers) as H.
  destruct (foldl (priority_step modelKey predicate (t_ensure c)) (s, None) providers) as [s1 best].
  assert (Herr : ∀ s2, same_credentials s s2 → same_credentials s
    (let '(e, s) := mixedUnavailableErrorLocked s2 providers (q_model q) predicate (t_error c) in
     (@Err pick_error (Auth * string) e, s)).2).
  { intros s2 H2. pose proof (same_mixed_error s2 providers (q_model q) predicate (t_error c)) as He.
    destruct (mixedUnavailableErrorLocked s2 providers (q_model q) predicate (t_error c)). by etrans. }
  assert (H1 : same_credentials s s1).
  { apply H. clear. intros s acc pk. unfold priority_step. destruct (s_providers s !! pk) as [p|] eqn:Hp; [|done].
    destruct (ensureModelLocked p modelKey (t_ensure c)) as [m p1] eqn:Ee.
    apply (same_set_provider s pk p); [done|]. by injection Ee as _ <-. }
  destruct best as [best|]; [|by apply Herr].
  pose proof (same_mixed_pick s1 modelKey (cursor_key providers modelKey) best strategy predicate providers) as Hp.
  destruct (mixed_pick s1 modelKey (cursor_key providers modelKey) best strategy predicate providers) as [[p|] s2];
    [by etrans|]. apply Herr. by etrans.
Qed.

Lemma same_pick_mixed s providers q strategy c :
  same_credentials s (pickMixedWithStrategy s providers q strategy c).2.
Proof.
  unfold pickMixedWithStrategy. destruct (normalizeProviderKeys providers) as [|pk [|pk2 rest]]; [done|..].
  - apply same_pick_from_provider.
  - case_match; [|apply same_pick_among]. case_match; [done|apply same_pick_from_provider].
Qed.

(** C15 The tables of the scheduler are consistent after any sequence of
    operations: every scheduled credential is enabled and filed under its own
    identifier with the provider it belongs to, and with no other; every shard holds
    exactly the credentials of its provider that support its model, each with the
    state the block test gave it at some moment so far; and the views and queues of
    the shard agree with those states. *)
Theorem scheduler_consistent t selector evs :
  history_ok t evs →
  let s := foldl sched_exec (newAuthScheduler selector) evs in
  ∀ pk p, s_providers s !! pk = Some p →
  (∀ id meta, p_auths p !! id = Some meta →
     a_ID (sm_auth meta) = id ∧ executorKeyFromAuth (sm_auth meta) = pk ∧ is_disabled (sm_auth meta) = false
     ∧ s_authProviders s !! id = Some pk ∧ ∀ pk', at_home s id pk' → pk' = pk)
  ∧ ∀ modelKey m, p_modelShards p !! modelKey = Some m →
     (∀ id, is_Some (m_entries m !! id) ↔ ∃ meta, p_auths p !! id = Some meta ∧ supportsModel meta modelKey = true)
     ∧ (∀ id e, m_entries m !! id = Some e → entry_id e = id ∧ ∃ now, 0 ≤ now ≤ history_end t evs
          ∧ (e_state e, e_nextRetryAt e) = classify (isAuthBlockedForModel (e_auth e) modelKey now))
     ∧ indexes_ok m.
Proof.
  intros Hh s pk p Hp. pose proof (history_tables t _ evs Hh (new_tables_ok t selector)) as Hs. fold s in Hs.
  destruct (so_providers _ _ Hs pk p Hp) as [_ [Ha Hsh]]. split.
  - intros id meta Hm. destruct (Ha id meta Hm) as (Hid & _ & _ & (Hpk & _) & Hd & _).
    assert (Hhome : at_home s id pk) by (exists p; split; [done|by eexists]).
    split_and!; [done..|by apply (so_home _ _ Hs)|]. intros pk' H'. by apply (home_unique _ s id pk' pk Hs).
  - intros k m Hm. destruct (Hsh k m Hm) as [Hk [Hkey Hent Hidx] Hmem _]. split_and!; [done| |done].
    intros id e He. split; [by apply Hkey|]. rewrite <- Hk. by destruct (Hent id e He) as [_ _ Hev].
Qed.

(** C11 Whatever has happened to the scheduler, a pick is right: the credential it
    returns belongs to one of the providers asked for and supports the model, the
    request may use it (its kind and policy, the pinned credential, not tried yet,
    a positive weight for the weighted strategy), it is not blocked at a moment
    during the pick, and unless the client prefers websockets no other such
    credential of any of the providers has a higher priority; an error means that
    there is no such credential at that moment. *)
Theorem pick_finds_the_best t selector evs providers q strategy c :
  history_ok t evs → clock_ok (history_end t evs) c → canonical_keys providers →
  let s := foldl sched_exec (newAuthScheduler selector) evs in
  ∃ now, t_ensure c ≤ now ≤ t_pick c
    ∧ match (pickMixedWithStrategy s providers q strategy c).1 with
      | Ok (a, pk) =>
          candidate s (normalizeProviderKeys providers) q (q_pinned q) (resolve_strategy s strategy) now pk a
          ∧ executorKeyFromAuth a = pk
          ∧ (q_websocket q = false → ∀ pk' b,
               candidate s (normalizeProviderKeys providers) q (q_pinned q) (resolve_strategy s strategy) now pk' b →
               authPriority b ≤ authPriority a)
      | Err _ => ∀ pk b,
          ¬ candidate s (normalizeProviderKeys providers) q (q_pinned q) (resolve_strategy s strategy) now pk b
      end.
Proof.
  intros Hh Hc Hcan s. pose proof (history_tables t _ evs Hh (new_tables_ok t selector)) as Hs. fold s in Hs.
  by apply (pick_mixed_sound (history_end t evs)).
Qed.

End Props.
Arguments sched_op : clear implicits.

(** ** Witnesses *)

#[local] Existing Instance no_parse.
(** A catalogue in which every client has the same models. *)
Definition fixed_catalog : ClientCatalog (list string) :=
  {| GetModelsForClient := fun models _ => models; ClientRegistrationEpoch := fun _ _ => 1 |}.
#[local] Existing Instance fixed_catalog.

Definition sample_of (provider id priority : string) (until : time) (generation : Z) : Auth :=
  (sample id priority until) <| a_Provider := provider |> <| a_RegistrationEpoch := 1 |>
    <| a_Generation := generation |>.
Definition clock_at (t : time) : clock := {| t_ensure := t; t_pick := t; t_error := t |}.
Definition sample_request : pick_request :=
  {| q_model := "m"; q_pinned := ""; q_eligibility := any_request; q_websocket := false; q_tried := ∅ |}.
(** Two providers; the better credential is blocked until 50. *)
Definition sample_history : list (clock * sched_op (list string)) :=
  [(clock_at 1, OpUpsert ["m"] (sample_of "codex" "a" "1" 0 1));
   (clock_at 2, OpPickMixed ["codex"; "claude"] sample_request schedulerStrategyCurrent);
   (clock_at 3, OpUpsert ["m"] (sample_of "claude" "b" "2" 50 1));
   (clock_at 4, OpUpsert ["n"] (sample_of "claude" "c" "9" 0 1))].

Lemma sample_history_ok : history_ok 0 sample_history.
Proof.
  repeat split; cbn [t_ensure t_pick t_error clock_at]; try lia; vm_compute; reflexivity.
Qed.

Lemma scheduler_consistent_witness :
  let s := foldl sched_exec (newAuthScheduler NoSelector) sample_history in
  s_authProviders s !! "b" = Some "claude" ∧ ∀ pk', at_home s "b" pk' → pk' = "claude".
Proof.
  intros s. split; [vm_compute; reflexivity|].
  assert (Hp : ∃ p, s_providers s !! "claude" = Some p ∧ ∃ meta, p_auths p !! "b" = Some meta).
  { destruct (s_providers s !! "claude") as [p|] eqn:E; vm_compute in E; [|discriminate E].
    injection E as <-. eexists. split; [reflexivity|]. eexists. vm_compute. reflexivity. }
  destruct Hp as (p & Hp & meta & Hm).
  pose proof (scheduler_consistent 0 NoSelector sample_history sample_history_ok "claude" p Hp) as [H _].
  destruct (H "b" meta Hm) as (_ & _ & _ & _ & Hu). exact Hu.
Defined.

Lemma pick_finds_the_best_witness :
  let s := foldl sched_exec (newAuthScheduler NoSelector) sample_history in
  let pick t := (pickMixed s ["claude"; "codex"] sample_request (clock_at t)).1 in
  pick 20 = Ok (sample_of "codex" "a" "1" 0 1, "codex")
  ∧ pick 50 = Ok (sample_of "claude" "b" "2" 50 1, "claude")
  ∧ blocked_for background (shard_key sample_request) 50 (sample_of "claude" "b" "2" 50 1) = false.
Proof.
  intros s pick. split_and!; [vm_compute; reflexivity..|].
  assert (Hpick : pick 50 = Ok (sample_of "claude" "b" "2" 50 1, "claude")) by (vm_compute; reflexivity).
  destruct (pick_finds_the_best 0 NoSelector sample_history ["claude"; "codex"] sample_request
    schedulerStrategyCurrent (clock_at 50) sample_history_ok) as (now & Hnow & Hr).
  - split; cbn; lia.
  - vm_compute. reflexivity.
  - fold s in Hr. change (pickMixedWithStrategy s _ _ schedulerStrategyCurrent (clock_at 50)) with
      (pickMixed s ["claude"; "codex"] sample_request (clock_at 50)) in Hr. fold (pick 50) in Hr. rewrite Hpick in Hr.
    cbn in Hnow. assert (now = 50) as -> by lia. apply Hr.
Defined.

End SchedPicks.
