(* ===== verification/SchedVersions.v ===== *)
(** * The newest version of a credential wins

    Updates and removals reach the scheduler in any order: the version recorded
    for each credential decides which of them count. *)
From S2P Require Import Prelude GoLib Weight Thinking AuthTypes Expiry Availability Selector SchedShard SchedShardProps Scheduler SchedTables SchedPicks.
Import AuthTypes Expiry Availability SchedShard SchedShardProps Scheduler SchedTables SchedPicks.

Module SchedVersions.

Section Props.
Context `{GP : GoParse} {R : Type} `{Catalog : ClientCatalog R}.

(** ** Who is scheduled *)

Definition credential_at (s : authScheduler) (pk id : string) : option Auth :=
  (p_auths <$> s_providers s !! pk) ≫= fun auths => sm_auth <$> auths !! id.
(** The snapshot of a credential that the scheduler works with. *)
Definition scheduled (s : authScheduler) (id : string) : option Auth :=
  s_authProviders s !! id ≫= fun pk => credential_at s pk id.
Definition version (s : authScheduler) (id : string) : option scheduledGenerationMeta :=
  s_authGenerations s !! id.

Definition unchanged (s s' : authScheduler) (id : string) : Prop :=
  scheduled s' id = scheduled s id ∧ version s' id = version s id.

Lemma same_unchanged s s' id : same_credentials s s' → unchanged s s' id.
Proof.
  intros [H1 H2 H3]. unfold unchanged, scheduled, version, credential_at. rewrite H1, H2. split; [|done].
  destruct (s_authProviders s !! id) as [pk|]; [|done]. cbn. by rewrite H3.
Qed.

Lemma removed_scheduled t s id :
  tables_ok t s → id ≠ "" →
  let s' := removeAuthFromProvidersLocked s id in
  s_authGenerations s' = s_authGenerations s ∧ scheduled s' id = None
  ∧ ∀ j, j ≠ id → scheduled s' j = scheduled s j.
Proof.
  intros Hs Hid s'. destruct (remove_from_providers_ok t s id Hid Hs) as [_ Hh]. fold s' in Hh.
  assert (Hrest : s_authGenerations s' = s_authGenerations s
    ∧ ∀ pk j, j ≠ id → credential_at s' pk j = credential_at s pk j).
  { subst s'. unfold removeAuthFromProvidersLocked. case_if; [done|]. unfold remove_at.
    set (pk0 := default "" (s_authProviders s !! id)). destruct (s_providers s !! pk0) as [p|] eqn:Hp; [|done].
    split; [done|]. intros pk j Hj. unfold credential_at. cbn. destruct (decide (pk = pk0)) as [->|Hd].
    - rewrite lookup_insert_eq, Hp. cbn. by rewrite provider_remove_auths, lookup_delete_ne.
    - by rewrite lookup_insert_ne. }
  destruct Hrest as [Hg Hc]. split_and!; [done| |].
  - unfold scheduled. by rewrite Hh, lookup_delete_eq.
  - intros j Hj. unfold scheduled. rewrite Hh, lookup_delete_ne by done.
    destruct (s_authProviders s !! j) as [pk|]; [|done]. by apply Hc.
Qed.

Lemma entered_scheduled t s id pk p' meta :
  tables_ok t s → id ≠ "" → p_auths p' = <[id := meta]> (p_auths (provider_or_new s pk)) →
  let s2 := (ensureProviderLocked (leave_previous s id pk) pk).2 in
  let s' := set_provider (s2 <| s_authProviders := <[id := pk]> (s_authProviders s2) |>) pk p' in
  s_authGenerations s' = s_authGenerations s ∧ scheduled s' id = Some (sm_auth meta)
  ∧ ∀ j, j ≠ id → scheduled s' j = scheduled s j.
Proof.
  intros Hs Hid Ha s2 s'. destruct (leave_other s id pk) as (La & Lg & _).
  destruct (ensure_provider_spec (leave_previous s id pk) pk) as (_ & Ea & Eg & _). fold s2 in Ea, Eg.
  split_and!; [cbn; congruence| |].
  - unfold scheduled, credential_at. cbn. rewrite lookup_insert_eq. cbn. rewrite lookup_insert_eq. cbn.
    by rewrite Ha, lookup_insert_eq.
  - intros j Hj. unfold scheduled. cbn. rewrite Ea, La, lookup_insert_ne by done.
    destruct (s_authProviders s !! j) as [qk|] eqn:Hq; [|done]. cbn. unfold credential_at. cbn.
    destruct (decide (qk = pk)) as [->|Hd].
    + rewrite lookup_insert_eq. cbn. rewrite Ha, lookup_insert_ne by done. unfold provider_or_new.
      apply (so_home t s Hs) in Hq as (p & -> & _). done.
    + rewrite lookup_insert_ne by done. unfold s2. rewrite (entered_lookup t) by done.
      case_bool_decide; [|done]. destruct (s_providers s !! qk); [|done]. cbn.
      by rewrite provider_remove_auths, lookup_delete_ne.
Qed.

(** ** One delivery *)

Definition schedulable (auth : Auth) : option Auth :=
  match isSchedulableAuth auth with Some _ => Some auth | None => None end.
(** What an operation says of a credential: its version and, unless it removes
    or disables the credential, the snapshot to schedule. *)
Definition delivered (c : clock) (op : sched_op R) : option (string * scheduledGenerationMeta * option Auth) :=
  match op with
  | OpUpsert _ auth | OpResult _ auth _ _ =>
      if String.eqb (a_ID auth) "" then None
      else Some (a_ID auth, version_of auth, schedulable auth)
  | OpTombstone authID epoch =>
      if String.eqb (trim_space authID) "" then None
      else Some (trim_space authID, {| g_epoch := epoch; g_generation := 0; g_updatedAt := t_ensure c |}, None)
  | _ => None
  end.
Definition is_tombstone (op : sched_op R) : bool := match op with OpTombstone _ _ => true | _ => false end.
(** The operations of the manager between two rebuilds. *)
Definition incremental (op : sched_op R) : Prop :=
  match op with OpRemove _ | OpResetGeneration _ | OpRebuild _ _ => False | _ => True end.
(** Whether what is recorded makes the scheduler ignore an operation. *)
Definition refused (s : authScheduler) (id : string) (v : scheduledGenerationMeta) (op : sched_op R) : bool :=
  if is_tombstone op
  then match version s id with Some g => g_epoch v <? g_epoch g | None => false end
  else isStaleScheduledAuth s id v.

(** The effect of one delivery, on its credential and on the others. *)
Definition delivery_effect (s s' : authScheduler) (op : sched_op R)
    (d : string * scheduledGenerationMeta * option Auth) : Prop :=
  let '(id, v, a) := d in
  (if refused s id v op then unchanged s s' id else version s' id = Some v ∧ scheduled s' id = a)
  ∧ ∀ j, j ≠ id → unchanged s s' j.

Lemma set_generation_scheduled s id g j : scheduled (set_generation s id g) j = scheduled s j.
Proof. done. Qed.

(** A new version that takes the credential away. *)
Lemma drop_effect t s id v s' :
  tables_ok t s → id ≠ "" → s' = removeAuthFromProvidersLocked (set_generation s id v) id →
  (version s' id = Some v ∧ scheduled s' id = None) ∧ ∀ j, j ≠ id → unchanged s s' j.
Proof.
  intros Hs Hid ->.
  destruct (removed_scheduled t (set_generation s id v) id (set_generation_tables t s id v Hs) Hid) as (H1 & H2 & H3).
  unfold unchanged, version. rewrite H1. cbn. split_and!; [by rewrite lookup_insert_eq|done|].
  intros j Hj. rewrite H3, lookup_insert_ne by done. done.
Qed.

(** A new version that schedules it. *)
Lemma enter_effect t s id v pk p' meta s' :
  tables_ok t s → id ≠ "" → p_auths p' = <[id := meta]> (p_auths (provider_or_new s pk)) →
  (let s2 := (ensureProviderLocked (leave_previous (set_generation s id v) id pk) pk).2 in
   s' = set_provider (s2 <| s_authProviders := <[id := pk]> (s_authProviders s2) |>) pk p') →
  (version s' id = Some v ∧ scheduled s' id = Some (sm_auth meta)) ∧ ∀ j, j ≠ id → unchanged s s' j.
Proof.
  intros Hs Hid Ha ->.
  destruct (entered_scheduled t (set_generation s id v) id pk p' meta (set_generation_tables t s id v Hs) Hid Ha)
    as (H1 & H2 & H3).
  unfold unchanged, version. rewrite H1. cbn. split_and!; [by rewrite lookup_insert_eq|done|].
  intros j Hj. rewrite H3, lookup_insert_ne by done. done.
Qed.

Lemma schedulable_spec auth :
  well_named auth → a_ID auth ≠ "" →
  schedulable auth = if String.eqb (executorKeyFromAuth auth) "" || is_disabled auth then None else Some auth.
Proof.
  intros Hw Hid. unfold schedulable, isSchedulableAuth. rewrite Hw, (proj2 (String.eqb_neq _ _) Hid).
  by destruct (is_disabled auth), (String.eqb (executorKeyFromAuth auth) "").
Qed.

Lemma lifecycle_effect t s reg auth c :
  tables_ok t s → well_named auth → a_ID auth ≠ "" →
  delivery_effect s (upsertAuth s reg auth (t_ensure c)) (OpUpsert reg auth)
    (a_ID auth, version_of auth, schedulable auth).
Proof.
  intros Hs Hw Hid. unfold delivery_effect, refused, upsertAuth, upsertAuthLifecycleLocked. cbn [is_tombstone].
  rewrite Hw, (proj2 (String.eqb_neq _ _) Hid), (schedulable_spec auth Hw Hid).
  destruct (isStaleScheduledAuth s (a_ID auth) (version_of auth)); [done|].
  destruct (String.eqb (executorKeyFromAuth auth) "" || is_disabled auth).
  - by apply (drop_effect t).
  - unfold schedule_at. rewrite (surjective_pairing (ensureProviderLocked _ _)), entered_provider.
    match goal with |- context [upsertAuthForModelsLocked ?p ?meta [] true ?now] =>
      apply (enter_effect t s _ _ (executorKeyFromAuth auth) (upsertAuthForModelsLocked p meta [] true now) meta) end;
      [done|done|apply upsert_auths|done].
Qed.

Lemma result_effect t s reg auth targets scoped c :
  tables_ok t s → well_named auth → a_ID auth ≠ "" →
  delivery_effect s (upsertAuthResult s reg auth targets scoped (t_ensure c)) (OpResult reg auth targets scoped)
    (a_ID auth, version_of auth, schedulable auth).
Proof.
  intros Hs Hw Hid. unfold delivery_effect, refused, upsertAuthResult, upsertAuthResultLocked. cbn [is_tombstone].
  rewrite Hw, (proj2 (String.eqb_neq _ _) Hid), (schedulable_spec auth Hw Hid).
  destruct (isStaleScheduledAuth s (a_ID auth) (version_of auth)).
  - assert (H : ∀ s', same_credentials s s' → unchanged s s' (a_ID auth) ∧ ∀ j, j ≠ a_ID auth → unchanged s s' j)
      by (intros s' H; split; [|intros j _]; by apply same_unchanged).
    apply H. case_if; [done|]. destruct (s_providers s !! executorKeyFromAuth auth) as [p|] eqn:Hp; [|done].
    destruct (p_auths p !! a_ID auth) as [meta|] eqn:Hm; [|done].
    apply (same_set_provider s _ p); [done|]. rewrite upsert_auths.
    destruct (so_providers t s Hs _ p Hp) as [_ Hok]. destruct (po_auths _ _ _ Hok _ meta Hm) as [-> _].
    by rewrite insert_id.
  - destruct (String.eqb (executorKeyFromAuth auth) "" || is_disabled auth).
    + by apply (drop_effect t).
    + rewrite (surjective_pairing (ensureProviderLocked _ _)), entered_provider. cbv beta zeta.
      match goal with |- context [if ?b then upsertAuthForModelsLocked ?p ?meta [] true ?now else ?p2] =>
        apply (enter_effect t s _ _ (executorKeyFromAuth auth)
                 (if b then upsertAuthForModelsLocked p meta [] true now else p2) meta) end;
        [done|done|case_if; apply upsert_auths|done].
Qed.

Lemma tombstone_effect t s authID epoch c :
  tables_ok t s → trim_space authID ≠ "" →
  delivery_effect s (RecordRemovalTombstone s authID epoch (t_ensure c)) (OpTombstone authID epoch)
    (trim_space authID, {| g_epoch := epoch; g_generation := 0; g_updatedAt := t_ensure c |}, None).
Proof.
  intros Hs Hid. unfold delivery_effect, refused, RecordRemovalTombstone, recordRemovalTombstoneLocked, version.
  cbn [is_tombstone g_epoch]. rewrite !(proj2 (String.eqb_neq _ _) Hid).
  case_if; [done|]. by apply (drop_effect t).
Qed.

(** Every incremental operation: what it delivers takes effect, and no other
    credential is touched. *)
Lemma exec_effect t s c op :
  tables_ok t s → op_ok op → incremental op →
  match delivered c op with
  | Some d => delivery_effect s (sched_exec s (c, op)) op d
  | None => ∀ j, unchanged s (sched_exec s (c, op)) j
  end.
Proof.
  intros Hs Hop Hinc. unfold sched_exec. cbn [fst snd].
  assert (Hnil : ∀ auth, well_named auth → a_ID auth = "" → ∀ reg,
    upsertAuth s reg auth (t_ensure c) = s ∧ ∀ targets scoped, upsertAuthResult s reg auth targets scoped (t_ensure c) = s).
  { intros auth Hw Hid reg. unfold upsertAuth, upsertAuthLifecycleLocked, upsertAuthResult, upsertAuthResultLocked.
    by rewrite Hw, Hid. }
  destruct op; try done; cbn [delivered] in *.
  - destruct (String.eqb (a_ID auth) "") eqn:E; bprop.
    + by rewrite (proj1 (Hnil auth Hop E reg)).
    + by apply (lifecycle_effect t).
  - destruct (String.eqb (a_ID auth) "") eqn:E; bprop.
    + by rewrite (proj2 (Hnil auth Hop E reg)).
    + by apply (result_effect t).
  - destruct (String.eqb (trim_space authID) "") eqn:E; bprop.
    + unfold RecordRemovalTombstone. by rewrite E.
    + by apply (tombstone_effect t).
  - intros j. apply same_unchanged. apply same_pick_from_provider.
  - intros j. apply same_unchanged. apply same_pick_mixed.
Qed.

(** ** Any number of deliveries, in any order *)

(** [v'] is older than [v]; a removal is told apart by its epoch alone. *)
Definition older (removal : bool) (v' v : scheduledGenerationMeta) : Prop :=
  g_epoch v' < g_epoch v
  ∨ removal = false ∧ g_epoch v' = g_epoch v
    ∧ (g_generation v' < g_generation v
       ∨ g_generation v' = g_generation v ∧ g_updatedAt v' < g_updatedAt v).

Lemma accepts_newer s id v op g :
  version s id = Some g → older (is_tombstone op) g v → refused s id v op = false.
Proof.
  intros Hg Ho. unfold refused, isStaleScheduledAuth. unfold version in *. rewrite Hg. unfold older in Ho.
  destruct (is_tombstone op); [bprop; destruct Ho as [?|[[=] _]]; by apply Z.ltb_ge; lia|].
  destruct Ho as [Ho|(_ & Heq & Ho)].
  - rewrite (proj2 (Z.ltb_ge _ _)) by lia. by rewrite (proj2 (Z.eqb_neq _ _)) by lia.
  - rewrite (proj2 (Z.ltb_ge _ _)) by lia. rewrite (proj2 (Z.eqb_eq _ _)) by lia.
    destruct Ho as [Ho|[Heq' Ho]]; rewrite (proj2 (Z.ltb_ge (g_generation v) _)) by lia; apply andb_false_iff.
    + left. apply Z.eqb_neq. lia.
    + right. apply after_false. lia.
Qed.

Lemma refuses_older s id v op g :
  version s id = Some g → older (is_tombstone op) v g → refused s id v op = true.
Proof.
  intros Hg Ho. unfold refused, isStaleScheduledAuth. unfold version in *. rewrite Hg. unfold older in Ho.
  destruct (is_tombstone op); [destruct Ho as [?|[[=] _]]; apply Z.ltb_lt; lia|].
  destruct Ho as [Ho|(_ & Heq & Ho)].
  - by rewrite (proj2 (Z.ltb_lt _ _)) by lia.
  - rewrite (proj2 (Z.ltb_ge _ _)) by lia. rewrite (proj2 (Z.eqb_eq _ _)) by lia.
    destruct Ho as [Ho|[Heq' Ho]]; [by rewrite (proj2 (Z.ltb_lt _ _)) by lia|].
    rewrite (proj2 (Z.ltb_ge _ _)) by lia. rewrite (proj2 (Z.eqb_eq _ _)) by lia. apply after_spec. lia.
Qed.

Lemma older_weaken b b' v' v : older b v' v → (b' = true → b = true) → older b' v' v.
Proof.
  intros [?|(-> & ?)] Hb; [by left|right]. split; [|done]. destruct b'; [by discriminate Hb|done].
Qed.

(** The deliveries of [evs] on [id] are all older than [v]. *)
Definition all_older (evs : list (clock * sched_op R)) (id : string) (removal : bool)
    (v : scheduledGenerationMeta) : Prop :=
  ∀ c' op' v' a', (c', op') ∈ evs → delivered c' op' = Some (id, v', a') →
    older (removal || is_tombstone op') v' v.
Definition all_incremental (evs : list (clock * sched_op R)) : Prop := ∀ ev, ev ∈ evs → incremental ev.2.

Lemma before_newest t s evs id removal v :
  history_ok t evs → tables_ok t s → all_incremental evs → all_older evs id removal v →
  (∀ g, version s id = Some g → older removal g v) →
  ∀ g, version (foldl sched_exec s evs) id = Some g → older removal g v.
Proof.
  revert t s. induction evs as [|[c op] evs IH]; intros t s Hh Hs Hinc Hold Hg; [done|].
  destruct Hh as (Hc & Hop & Hh). cbn [foldl]. apply (IH (t_error c)); try done.
  - by apply (sched_exec_ok t).
  - intros ev Hev. apply Hinc. by right.
  - intros c' op' v' a' Hin. apply (Hold c' op' v' a'). by right.
  - pose proof (exec_effect t s c op Hs Hop (Hinc (c, op) ltac:(by left))) as He. intros g.
    destruct (delivered c op) as [[[j v'] a']|] eqn:Ed; [|destruct (He id) as [_ ->]; apply Hg].
    destruct He as [Hj Hothers]. destruct (decide (j = id)) as [->|Hd].
    + destruct (refused s id v' op); [destruct Hj as [_ ->]; apply Hg|]. destruct Hj as [-> _]. intros [= <-].
      apply (older_weaken (removal || is_tombstone op)); [|by intros ->].
      apply (Hold c op v' a'); [by left|done].
    + destruct (Hothers id) as [_ ->]; [congruence|]. apply Hg.
Qed.

Lemma after_newest t s evs id removal v :
  history_ok t evs → tables_ok t s → all_incremental evs → all_older evs id removal v →
  version s id = Some v → unchanged s (foldl sched_exec s evs) id.
Proof.
  revert t s. induction evs as [|[c op] evs IH]; intros t s Hh Hs Hinc Hold Hg; [done|].
  destruct Hh as (Hc & Hop & Hh). cbn [foldl].
  assert (Hu : unchanged s (sched_exec s (c, op)) id).
  { pose proof (exec_effect t s c op Hs Hop (Hinc (c, op) ltac:(by left))) as He.
    destruct (delivered c op) as [[[j v'] a']|] eqn:Ed; [|apply He].
    destruct He as [Hj Hothers]. destruct (decide (j = id)) as [->|Hd]; [|apply Hothers; congruence].
    rewrite (refuses_older s id v' op v) in Hj; [done|done|].
    apply (older_weaken (removal || is_tombstone op)); [|intros ->; apply orb_true_r].
    apply (Hold c op v' a'); [by left|done]. }
  destruct Hu as [H1 H2]. destruct (IH (t_error c) (sched_exec s (c, op))) as [H3 H4]; try done.
  - by apply (sched_exec_ok t).
  - intros ev Hev. apply Hinc. by right.
  - intros c' op' v' a' Hin. apply (Hold c' op' v' a'). by right.
  - congruence.
  - split; congruence.
Qed.

Lemma history_app t (evs1 evs2 : list (clock * sched_op R)) :
  history_ok t (evs1 ++ evs2) ↔ history_ok t evs1 ∧ history_ok (history_end t evs1) evs2.
Proof.
  revert t. induction evs1 as [|[c op] evs1 IH]; intros t; cbn; [tauto|]. rewrite IH. tauto.
Qed.

(** C7 The newest version of a credential wins, whatever the order in which
    updates, results and removals arrive.  If one delivery is newer than all the
    others on its credential (by registration epoch, then generation, then time of
    update; a removal by its epoch alone), then after all of them the scheduler
    works with exactly that delivery: the snapshot it brought, or no snapshot if it
    removed or disabled the credential, so that a late, outdated result neither
    brings a removed credential back nor undoes a newer state; picks in between
    make no difference. *)
Theorem newest_version_wins t selector evs1 c op evs2 id v a :
  0 ≤ t → history_ok t (evs1 ++ (c, op) :: evs2) → all_incremental (evs1 ++ (c, op) :: evs2) →
  delivered c op = Some (id, v, a) →
  all_older (evs1 ++ evs2) id (is_tombstone op) v →
  let s := foldl sched_exec (newAuthScheduler selector) (evs1 ++ (c, op) :: evs2) in
  scheduled s id = a ∧ version s id = Some v.
Proof.
  intros Ht Hh Hinc Hd Hold s. apply history_app in Hh as [Hh1 Hh2]. pose proof Hh2 as (Hc & Hop & Hh3).
  set (s0 := newAuthScheduler selector) in *. set (s1 := foldl sched_exec s0 evs1).
  assert (Hs1 : tables_ok (history_end t evs1) s1) by (apply history_tables; [done|apply new_tables_ok]).
  assert (Hv1 : ∀ g, version s1 id = Some g → older (is_tombstone op) g v).
  { apply (before_newest t s0 evs1); [done|apply new_tables_ok| | |].
    - intros ev Hev. apply Hinc. apply elem_of_app. by left.
    - intros c' op' v' a' Hin. apply (Hold c' op' v' a'). apply elem_of_app. by left.
    - intros g Hg. unfold version, s0 in Hg. cbn in Hg. by rewrite lookup_empty in Hg. }
  assert (Hin : (c, op) ∈ evs1 ++ (c, op) :: evs2) by (apply elem_of_app; right; by left).
  pose proof (exec_effect _ s1 c op Hs1 Hop (Hinc _ Hin)) as He. rewrite Hd in He. destruct He as [He _].
  assert (Hr : refused s1 id v op = false).
  { destruct (version s1 id) as [g|] eqn:Eg; [by apply (accepts_newer s1 id v op g); [|apply Hv1]|].
    unfold refused, isStaleScheduledAuth. unfold version in *. rewrite Eg. by destruct (is_tombstone op). }
  rewrite Hr in He. destruct He as [Hv Hsch].
  destruct (after_newest (t_error c) (sched_exec s1 (c, op)) evs2 id (is_tombstone op) v) as [H1 H2]; try done.
  - by apply (sched_exec_ok (history_end t evs1)).
  - intros ev Hev. apply Hinc. apply elem_of_app. right. by right.
  - intros c' op' v' a' Hi. apply (Hold c' op' v' a'). apply elem_of_app. by right.
  - unfold s. rewrite foldl_app. cbn [foldl]. fold s1. split; congruence.
Qed.

End Props.

(** ** Witness *)

#[local] Existing Instance no_parse.
#[local] Existing Instance fixed_catalog.

(** The result of generation 3 arrives before those of 2 and 1, then the removal
    of an earlier registration. *)
Lemma newest_version_wins_witness :
  let s := foldl sched_exec (newAuthScheduler NoSelector)
    [(clock_at 1, OpResult ["m"] (sample_of "codex" "a" "1" 0 2) ["m"] false);
     (clock_at 2, OpResult ["m"] (sample_of "codex" "a" "1" 50 3) ["m"] false);
     (clock_at 3, OpUpsert ["m"] (sample_of "codex" "a" "1" 0 1));
     (clock_at 4, OpTombstone "a" 0)] in
  scheduled s "a" = Some (sample_of "codex" "a" "1" 50 3)
  ∧ version s "a" = Some (version_of (sample_of "codex" "a" "1" 50 3)).
Proof.
  apply (newest_version_wins 0 NoSelector
    [(clock_at 1, OpResult ["m"] (sample_of "codex" "a" "1" 0 2) ["m"] false)]
    (clock_at 2) (OpResult ["m"] (sample_of "codex" "a" "1" 50 3) ["m"] false)
    [(clock_at 3, OpUpsert ["m"] (sample_of "codex" "a" "1" 0 1)); (clock_at 4, OpTombstone "a" 0)]).
  - lia.
  - repeat split; cbn; try lia; try reflexivity.
  - intros ev Hev. apply list_elem_of_In in Hev. destruct Hev as [<-|[<-|[<-|[<-|[]]]]]; exact I.
  - vm_compute. reflexivity.
  - intros c' op' v' a' Hin Hd. apply list_elem_of_In in Hin.
    destruct Hin as [[= <- <-]|[[= <- <-]|[[= <- <-]|[]]]]; vm_compute in Hd; injection Hd as <- <-.
    + right. split; [reflexivity|]. split; [reflexivity|]. left. reflexivity.
    + right. split; [reflexivity|]. split; [reflexivity|]. left. reflexivity.
    + left. reflexivity.
Defined.

(** Identifiers with white space around them are outside the theorems above, and
    for a reason: such a credential is filed under its identifier as it is but
    removed under the trimmed one, so it can still be picked once it is disabled. *)
Lemma padded_identifier_survives_disabling :
  let auth := sample_of "codex" " a" "1" 0 1 in
  let s := foldl sched_exec (newAuthScheduler NoSelector)
    [(clock_at 1, OpUpsert ["m"] auth);
     (clock_at 2, OpUpsert ["m"] (auth <| a_Disabled := true |> <| a_Generation := 2 |>))] in
  s_authProviders s = ∅ ∧ (pickMixed s ["codex"] sample_request (clock_at 3)).1 = Ok (auth, "codex").
Proof. split; vm_compute; reflexivity. Qed.

End SchedVersions.
