(* ===== verification/SessionCache.v ===== *)
(** * The session cache: sdk/cliproxy/auth/session_cache.go

    Which credential a conversation is bound to.  The identifiers of one logical
    session (its aliases) form a group with a common binding and expiry; a group is
    stored under its first alias, and every alias points to a copy of it.  The
    eviction list holds the primary keys, oldest first, as elements of
    container/list, which are handles here ([c_next] is the next fresh one).  An
    operation holds the lock, and takes the time it reads; [Get] gives up its read lock
    for the write lock, and reads the time under both. *)
From S2P Require Import Prelude GoLib.

Module SessionCache.

Definition maxStableSessionAliases : Z := 64.
Definition defaultMaxSessionEntries : Z := 65536.

Record sessionBinding : Type := {
  b_sessionID : string;
  b_provider : string;
  b_sequence : Z;
}.
Definition no_binding : sessionBinding := {| b_sessionID := ""; b_provider := ""; b_sequence := 0 |}.

Record sessionEntry : Type := {
  en_authID : string;
  en_expiresAt : time;
  en_aliases : list string;
  en_binding : sessionBinding;
}.
#[global] Instance sessionBinding_eq_dec : EqDecision sessionBinding.
Proof. solve_decision. Defined.
#[global] Instance sessionEntry_eq_dec : EqDecision sessionEntry.
Proof. solve_decision. Defined.

Record cache : Type := {
  c_entries : gmap string sessionEntry;
  c_groups : gmap string sessionEntry;
  c_evictionOrder : list (nat * string);
  c_evictionElements : gmap string nat;
  c_next : nat;
  c_maxEntries : Z;
  c_ttl : duration;
  c_sessionGroups : gmap string (gset string);
  c_bindingSequence : Z;
}.
#[global] Instance cache_eta : Eta cache := fun c =>
  {| c_entries := c_entries c; c_groups := c_groups c; c_evictionOrder := c_evictionOrder c;
     c_evictionElements := c_evictionElements c; c_next := c_next c; c_maxEntries := c_maxEntries c;
     c_ttl := c_ttl c; c_sessionGroups := c_sessionGroups c; c_bindingSequence := c_bindingSequence c |}.

Definition NewSessionCacheWithCapacity (ttl : duration) (maxEntries : Z) : cache :=
  {| c_entries := ∅; c_groups := ∅; c_evictionOrder := []; c_evictionElements := ∅; c_next := 0;
     c_maxEntries := if maxEntries <=? 0 then defaultMaxSessionEntries else maxEntries;
     c_ttl := if ttl <=? 0 then 30 * minute else ttl;
     c_sessionGroups := ∅; c_bindingSequence := 0 |}.
Definition NewSessionCache (ttl : duration) : cache := NewSessionCacheWithCapacity ttl defaultMaxSessionEntries.

(** ** Aliases *)

Definition equalSessionAliases (left right : list string) : bool := bool_decide (left = right).

Definition sameSessionEntryGroup (left right : sessionEntry) : bool :=
  String.eqb (en_authID left) (en_authID right) && time_eq (en_expiresAt left) (en_expiresAt right)
  && equalSessionAliases (en_aliases left) (en_aliases right).

(** The part after the first "::" ([strings.Cut]). *)
Fixpoint cut_colons (s : string) : option string :=
  match s with
  | String a ((String b rest) as tail) => if byte_is 58 a && byte_is 58 b then Some rest else cut_colons tail
  | _ => None
  end.
Definition isLocalPromptCacheSessionAlias (alias : string) : bool :=
  if has_prefix alias "pck:" then true
  else match cut_colons alias with Some sessionAndModel => has_prefix sessionAndModel "pck:" | None => false end.
Definition isHomePromptCacheAlias (alias : string) : bool := has_prefix alias "pck:".

Definition compact_step (isPromptCacheAlias : string → bool) (acc : list string * bool * Z) (alias : string) :
    list string * bool * Z :=
  let '(compacted, hasPromptCacheKey, stableAliases) := acc in
  if isPromptCacheAlias alias then
    if hasPromptCacheKey then acc else (compacted ++ [alias], true, stableAliases)
  else if maxStableSessionAliases <=? stableAliases then acc
  else (compacted ++ [alias], hasPromptCacheKey, stableAliases + 1).
Definition compactSessionAliasesWith (aliases : list string) (isPromptCacheAlias : string → bool) : list string :=
  (foldl (compact_step isPromptCacheAlias) ([], false, 0) aliases).1.1.
Definition compactSessionAliases (aliases : list string) : list string :=
  compactSessionAliasesWith aliases isLocalPromptCacheSessionAlias.
Definition compactHomeSessionAliases (aliases : list string) : list string :=
  compactSessionAliasesWith aliases isHomePromptCacheAlias.

Definition add_alias (acc : list string * gset string) (alias : string) : list string * gset string :=
  let '(aliases, seen) := acc in
  if String.eqb alias "" then acc
  else if bool_decide (alias ∈ seen) then acc
  else (aliases ++ [alias], {[ alias ]} ∪ seen).
Definition mergeSessionAliases (existing candidates : list string) : list string :=
  (foldl add_alias (foldl add_alias ([], ∅) existing) candidates).1.

(** ** Groups *)

Definition drop_session_group (groups : gmap string (gset string)) (sessionID primaryKey : string) :
    gmap string (gset string) :=
  match groups !! sessionID with
  | None => groups
  | Some keys =>
      let keys := keys ∖ {[ primaryKey ]} in
      if bool_decide (keys = ∅) then delete sessionID groups else <[sessionID := keys]> groups
  end.

(** [evictionOrder.Remove] of an element. *)
Definition remove_element (element : nat) (order : list (nat * string)) : list (nat * string) :=
  List.filter (fun p => negb (Nat.eqb p.1 element)) order.
Definition drop_element (c : cache) (primaryKey : string) : cache :=
  match c_evictionElements c !! primaryKey with
  | None => c
  | Some elem => c <| c_evictionOrder := remove_element elem (c_evictionOrder c) |>
                   <| c_evictionElements := delete primaryKey (c_evictionElements c) |>
  end.

Definition drop_alias (entry : sessionEntry) (entries : gmap string sessionEntry) (alias : string) :
    gmap string sessionEntry :=
  match entries !! alias with
  | None => entries
  | Some current => if sameSessionEntryGroup current entry then delete alias entries else entries
  end.

Definition removeAliasGroupLocked (c : cache) (entry : sessionEntry) : cache :=
  match en_aliases entry with
  | [] => c
  | primaryKey :: _ =>
      let current := match c_groups c !! primaryKey with
                     | Some currentGroup => sameSessionEntryGroup currentGroup entry
                     | None => false
                     end in
      let c := if current
               then drop_element
                      (c <| c_groups := delete primaryKey (c_groups c) |>
                         <| c_sessionGroups := drop_session_group (c_sessionGroups c)
                                                 (b_sessionID (en_binding entry)) primaryKey |>) primaryKey
               else c in
      c <| c_entries := foldl (drop_alias entry) (c_entries c) (en_aliases entry) |>
  end.

(** The loop of [evictExcessLocked]; [fuel] bounds its rounds. *)
Fixpoint evictExcess (fuel : nat) (c : cache) : cache :=
  match fuel with
  | O => c
  | S fuel' =>
      if Z.of_nat (size (c_entries c)) <=? c_maxEntries c then c
      else match c_evictionOrder c with
           | [] => c
           | (oldest, primaryKey) :: _ =>
               match c_groups c !! primaryKey with
               | None =>
                   evictExcess fuel'
                     (c <| c_evictionOrder := remove_element oldest (c_evictionOrder c) |>
                        <| c_evictionElements := delete primaryKey (c_evictionElements c) |>)
               | Some group => evictExcess fuel' (removeAliasGroupLocked c group)
               end
           end
  end.
Definition evictExcessLocked (c : cache) : cache := evictExcess (length (c_evictionOrder c)) c.

Definition add_session_group (groups : gmap string (gset string)) (binding : sessionBinding)
    (primaryKey : string) : gmap string (gset string) :=
  if b_sequence binding =? 0 then groups
  else <[b_sessionID binding := {[ primaryKey ]} ∪ default ∅ (groups !! b_sessionID binding)]> groups.

(** The new group is put in place of the old ones. *)
Definition install_group (c : cache) (entry : sessionEntry) (primaryKey : string) : cache :=
  c <| c_groups := <[primaryKey := entry]> (c_groups c) |>
    <| c_sessionGroups := add_session_group (c_sessionGroups c) (en_binding entry) primaryKey |>
    <| c_entries := foldl (fun entries alias => <[alias := entry]> entries) (c_entries c) (en_aliases entry) |>
    <| c_evictionOrder := c_evictionOrder c ++ [(c_next c, primaryKey)] |>
    <| c_evictionElements := <[primaryKey := c_next c]> (c_evictionElements c) |>
    <| c_next := S (c_next c) |>.

Definition replaceAliasGroupsLocked (c : cache) (authID : string) (expiresAt : time) (aliases : list string)
    (binding : sessionBinding) (previousGroups : list sessionEntry) : cache :=
  let c := foldl removeAliasGroupLocked c previousGroups in
  match aliases with
  | [] => c
  | primaryKey :: _ =>
      let c := match c_groups c !! primaryKey with
               | Some existing => removeAliasGroupLocked c existing
               | None => c
               end in
      let c := install_group c {| en_authID := authID; en_expiresAt := expiresAt; en_aliases := aliases;
                                  en_binding := binding |} primaryKey in
      if (0 <? c_maxEntries c) && (c_maxEntries c <? Z.of_nat (size (c_entries c)))
      then evictExcessLocked c else c
  end.

(** ** Operations *)

(** The fast path of [Get], under the read lock: [None] says that the slow path
    is to be taken. *)
Definition Get_read (c : cache) (sessionID : string) (now : time) : option (option string) :=
  if String.eqb sessionID "" then Some None
  else match c_entries c !! sessionID with
       | Some entry => if before now (en_expiresAt entry) then Some (Some (en_authID entry)) else None
       | None => Some None
       end.
(** The slow path, which drops an expired group. *)
Definition Get_expire (c : cache) (sessionID : string) (now : time) : option string * cache :=
  match c_entries c !! sessionID with
  | None => (None, c)
  | Some entry => if before now (en_expiresAt entry) then (Some (en_authID entry), c)
                  else (None, removeAliasGroupLocked c entry)
  end.
Definition Get (c : cache) (sessionID : string) (now now' : time) : option string * cache :=
  match Get_read c sessionID now with
  | Some answer => (answer, c)
  | None => Get_expire c sessionID now'
  end.

(** A live group gets a new expiry, the identifier it was found by first. *)
Definition refresh_group (c : cache) (sessionID : string) (entry : sessionEntry) (now : time) : cache :=
  replaceAliasGroupsLocked c (en_authID entry) (now + c_ttl c)
    (compactSessionAliases (mergeSessionAliases [sessionID] (en_aliases entry))) (en_binding entry) [entry].

Definition GetAndRefresh (c : cache) (sessionID : string) (now : time) : option string * cache :=
  if String.eqb sessionID "" then (None, c)
  else match c_entries c !! sessionID with
       | None => (None, c)
       | Some entry =>
           if before now (en_expiresAt entry) then (Some (en_authID entry), refresh_group c sessionID entry now)
           else (None, removeAliasGroupLocked c entry)
       end.

(** The groups the identifiers belong to so far, and all their aliases. *)
Definition gather_step (now : time) (acc : cache * list string * list sessionEntry) (sessionID : string) :
    cache * list string * list sessionEntry :=
  let '(c, aliases, previousGroups) := acc in
  match c_entries c !! sessionID with
  | None => acc
  | Some entry =>
      if before now (en_expiresAt entry)
      then (c, mergeSessionAliases aliases (en_aliases entry), previousGroups ++ [entry])
      else (removeAliasGroupLocked c entry, aliases, previousGroups)
  end.
Definition latest_binding (binding : sessionBinding) (previousGroups : list sessionEntry) : sessionBinding :=
  foldl (fun binding previous => if b_sequence binding <? b_sequence (en_binding previous)
                                 then en_binding previous else binding) binding previousGroups.

(** A real selection takes the next sequence number; any other binding keeps the
    latest selection of the groups it replaces. *)
Definition select_binding (c : cache) (binding : sessionBinding) (previousGroups : list sessionEntry) :
    cache * sessionBinding :=
  if negb (String.eqb (b_sessionID binding) "") && negb (String.eqb (b_provider binding) "") then
    let sequence := wrapu64 (c_bindingSequence c + 1) in
    (c <| c_bindingSequence := sequence |>,
     {| b_sessionID := b_sessionID binding; b_provider := b_provider binding; b_sequence := sequence |})
  else (c, latest_binding binding previousGroups).

Definition setAliases (c : cache) (authID : string) (binding : sessionBinding) (sessionIDs : list string)
    (now : time) : cache :=
  if String.eqb authID "" then c
  else
    let '(c, aliases, previousGroups) :=
      foldl (gather_step now) (c, mergeSessionAliases [] sessionIDs, []) sessionIDs in
    match compactSessionAliases aliases with
    | [] => c
    | aliases =>
        let '(c, binding) := select_binding c binding previousGroups in
        replaceAliasGroupsLocked c authID (now + c_ttl c) aliases binding previousGroups
    end.
Definition SetAliases (c : cache) (authID : string) (sessionIDs : list string) (now : time) : cache :=
  setAliases c authID no_binding sessionIDs now.
Definition Set_ (c : cache) (sessionID authID : string) (now : time) : cache :=
  SetAliases c authID [sessionID] now.
Definition setSessionAliases (c : cache) (authID provider sessionID : string) (keys : list string) (now : time) :
    cache :=
  setAliases c authID {| b_sessionID := sessionID; b_provider := provider; b_sequence := 0 |} keys now.

Definition Touch (c : cache) (sessionID expectedAuthID : string) (now : time) : bool * cache :=
  if String.eqb sessionID "" || String.eqb expectedAuthID "" then (false, c)
  else match c_entries c !! sessionID with
       | None => (false, c)
       | Some entry =>
           if negb (String.eqb (en_authID entry) expectedAuthID) || negb (before now (en_expiresAt entry))
           then (false, c)
           else (true, refresh_group c sessionID entry now)
       end.

(** One identifier leaves its group. *)
Definition leave_group (c : cache) (sessionID : string) (entry : sessionEntry) : cache :=
  let c := removeAliasGroupLocked c entry in
  match List.filter (fun alias => negb (String.eqb alias sessionID)) (en_aliases entry) with
  | [] => c
  | surviving => replaceAliasGroupsLocked c (en_authID entry) (en_expiresAt entry) surviving (en_binding entry) []
  end.
Definition CompareAndDelete (c : cache) (sessionID expectedAuthID : string) : bool * cache :=
  if String.eqb sessionID "" || String.eqb expectedAuthID "" then (false, c)
  else match c_entries c !! sessionID with
       | None => (false, c)
       | Some entry => if negb (String.eqb (en_authID entry) expectedAuthID) then (false, c)
                       else (true, leave_group c sessionID entry)
       end.
Definition Invalidate (c : cache) (sessionID : string) : cache :=
  if String.eqb sessionID "" then c
  else match c_entries c !! sessionID with
       | None => c
       | Some entry => leave_group c sessionID entry
       end.

(** A loop over the groups that removes some of them on the way. *)
Definition remove_groups (test : sessionEntry → bool) (c : cache) : cache :=
  foldl (fun c key => match c_groups c !! key with
                      | Some group => if test group then removeAliasGroupLocked c group else c
                      | None => c
                      end) c (map fst (map_to_list (c_groups c))).
Definition InvalidateAuth (c : cache) (authID : string) : cache :=
  if String.eqb authID "" then c else remove_groups (fun group => String.eqb (en_authID group) authID) c.
Definition cleanup (c : cache) (now : time) : cache :=
  remove_groups (fun group => negb (before now (en_expiresAt group))) c.

Definition Len (c : cache) : Z := Z.of_nat (size (c_entries c)).

Definition zero_entry : sessionEntry :=
  {| en_authID := ""; en_expiresAt := 0; en_aliases := []; en_binding := no_binding |}.
Definition latest_step (c : cache) (providers : gset string) (now : time) (latest : sessionEntry) (key : string) :
    sessionEntry :=
  let entry := default zero_entry (c_groups c !! key) in
  if bool_decide (b_provider (en_binding entry) ∉ providers) || negb (before now (en_expiresAt entry)) then latest
  else if b_sequence (en_binding latest) <? b_sequence (en_binding entry) then entry else latest.
Definition latestSessionAuth (c : cache) (sessionID : string) (providers : gset string) (now : time) : string :=
  if String.eqb sessionID "" || bool_decide (providers = ∅) then ""
  else en_authID (foldl (latest_step c providers now) zero_entry
                    (elements (default ∅ (c_sessionGroups c !! sessionID)))).

End SessionCache.
