(* ===== verification/SessionProps.v ===== *)
(** * Properties of the session cache

    The invariant that ties aliases, groups, the eviction list and the index of
    sessions together, its preservation, and what a binding is good for. *)
From S2P Require Import Prelude GoLib SessionCache.
Import SessionCache.

Module SessionProps.

(** ** Lists of aliases *)

Lemma add_alias_spec aliases seen alias :
  (∀ a, a ∈ aliases ↔ a ∈ seen) → NoDup aliases → "" ∉ aliases →
  let r := add_alias (aliases, seen) alias in
  (∀ a, a ∈ r.1 ↔ a ∈ r.2) ∧ NoDup r.1 ∧ "" ∉ r.1
  ∧ ∀ a, a ∈ r.1 ↔ a ∈ aliases ∨ a = alias ∧ a ≠ "".
Proof.
  intros Hs Hn He. unfold add_alias. destruct (String.eqb alias "") eqn:E; bprop.
  { cbn. split_and!; try done. intros a. naive_solver. }
  case_bool_decide as Hin; cbn.
  - split_and!; try done. intros a. split; [by left|]. intros [?|[-> _]]; [done|by apply Hs].
  - split_and!.
    + intros a. rewrite elem_of_app, list_elem_of_singleton, Hs. set_solver.
    + apply NoDup_app. split_and!; [done| |apply NoDup_singleton].
      intros x Hx ->%list_elem_of_singleton. by apply Hin, Hs.
    + rewrite elem_of_app, list_elem_of_singleton. intros [?|?]; [done|congruence].
    + intros a. rewrite elem_of_app, list_elem_of_singleton. naive_solver.
Qed.

Lemma add_aliases_spec l aliases seen :
  (∀ a, a ∈ aliases ↔ a ∈ seen) → NoDup aliases → "" ∉ aliases →
  let r := foldl add_alias (aliases, seen) l in
  (∀ a, a ∈ r.1 ↔ a ∈ r.2) ∧ NoDup r.1 ∧ "" ∉ r.1
  ∧ ∀ a, a ∈ r.1 ↔ a ∈ aliases ∨ a ∈ l ∧ a ≠ "".
Proof.
  revert aliases seen. induction l as [|x l IH]; intros aliases seen Hs Hn He; cbv zeta; cbn [foldl].
  { split_and!; try done. intros a. rewrite elem_of_nil. naive_solver. }
  destruct (add_alias_spec aliases seen x Hs Hn He) as (H1 & H2 & H3 & H4).
  destruct (add_alias (aliases, seen) x) as [aliases' seen']. cbn [fst snd] in *.
  destruct (IH aliases' seen' H1 H2 H3) as (K1 & K2 & K3 & K4). split_and!; [done..|].
  intros a. rewrite K4, H4, elem_of_cons. naive_solver.
Qed.

Lemma merge_spec existing candidates :
  let l := mergeSessionAliases existing candidates in
  NoDup l ∧ "" ∉ l ∧ ∀ a, a ∈ l ↔ a ≠ "" ∧ (a ∈ existing ∨ a ∈ candidates).
Proof.
  unfold mergeSessionAliases. rewrite <- foldl_app.
  destruct (add_aliases_spec (existing ++ candidates) [] ∅) as (_ & H2 & H3 & H4);
    [set_solver|constructor|set_solver|].
  split_and!; [done..|]. intros a. rewrite H4, elem_of_app, elem_of_nil. naive_solver.
Qed.

(** Merging puts the first identifier first. *)
Lemma add_aliases_prefix l acc : ∃ k, (foldl add_alias acc l).1 = acc.1 ++ k.
Proof.
  revert acc. induction l as [|x l IH]; intros acc; [exists []; by rewrite app_nil_r|]. cbn [foldl].
  destruct (IH (add_alias acc x)) as [k ->]. destruct acc as [aliases seen]. unfold add_alias.
  destruct (String.eqb x ""); [by exists k|]. case_bool_decide; [by exists k|].
  exists (x :: k). cbn. by rewrite <- app_assoc.
Qed.

Lemma merge_head id l : id ≠ "" → ∃ k, mergeSessionAliases [id] l = id :: k.
Proof.
  intros Hid. unfold mergeSessionAliases. rewrite <- foldl_app. cbn [app foldl].
  assert (Ha : add_alias ([], ∅) id = ([id], {[ id ]} ∪ ∅)).
  { unfold add_alias. rewrite (proj2 (String.eqb_neq _ _) Hid). by rewrite bool_decide_false by set_solver. }
  rewrite Ha. destruct (add_aliases_prefix l ([id], {[ id ]} ∪ ∅)) as [k Hk]. exists k. exact Hk.
Qed.

Lemma merge_nil_head id l : id ≠ "" → ∃ k, mergeSessionAliases [] (id :: l) = id :: k.
Proof. intros Hid. destruct (merge_head id l Hid) as [k Hk]. exists k. exact Hk. Qed.

(** Compaction keeps a sublist of bounded length, and the first alias. *)
Lemma compact_fold f l compacted pck stable :
  0 ≤ stable ≤ maxStableSessionAliases →
  Z.of_nat (length compacted) = stable + (if pck : bool then 1 else 0) →
  let r := foldl (compact_step f) (compacted, pck, stable) l in
  (∃ k, r.1.1 = compacted ++ k ∧ k `sublist_of` l)
  ∧ Z.of_nat (length r.1.1) ≤ maxStableSessionAliases + 1.
Proof.
  revert compacted pck stable. unfold maxStableSessionAliases.
  induction l as [|x l IH]; intros compacted pck stable Hs Hlen; cbv zeta; cbn [foldl].
  { cbn. split; [exists []; by rewrite app_nil_r|]. destruct pck; lia. }
  unfold compact_step at 2 4. unfold maxStableSessionAliases.
  assert (Hskip : ∀ c p st, 0 ≤ st ≤ 64 → Z.of_nat (length c) = st + (if p : bool then 1 else 0) →
    c = compacted → (∃ k, (foldl (compact_step f) (c, p, st) l).1.1 = compacted ++ k ∧ k `sublist_of` x :: l)
      ∧ Z.of_nat (length (foldl (compact_step f) (c, p, st) l).1.1) ≤ 64 + 1).
  { intros c p st H1 H2 ->. destruct (IH compacted p st H1 H2) as [(k & -> & Hk) Hl]. split; [|done].
    exists k. split; [done|]. by constructor. }
  assert (Htake : ∀ p st, 0 ≤ st ≤ 64 → Z.of_nat (length (compacted ++ [x])) = st + (if p : bool then 1 else 0) →
    (∃ k, (foldl (compact_step f) (compacted ++ [x], p, st) l).1.1 = compacted ++ k ∧ k `sublist_of` x :: l)
      ∧ Z.of_nat (length (foldl (compact_step f) (compacted ++ [x], p, st) l).1.1) ≤ 64 + 1).
  { intros p st H1 H2. destruct (IH (compacted ++ [x]) p st H1 H2) as [(k & -> & Hk) Hl]. split; [|done].
    exists (x :: k). split; [by rewrite <- app_assoc|]. by constructor. }
  destruct (f x).
  - destruct pck; [by apply Hskip|]. apply Htake; [done|]. rewrite length_app. cbn. lia.
  - destruct (64 <=? stable) eqn:E; bprop; [by apply Hskip|]. apply Htake; [lia|]. rewrite length_app. cbn. lia.
Qed.

Lemma compact_spec f l :
  let k := compactSessionAliasesWith l f in
  k `sublist_of` l ∧ Z.of_nat (length k) ≤ maxStableSessionAliases + 1 ∧ ∀ x l', l = x :: l' → ∃ k', k = x :: k'.
Proof.
  unfold compactSessionAliasesWith. destruct (compact_fold f l [] false 0) as [(k & Hk & Hs) Hl]; [done..|].
  cbv zeta in *. rewrite Hk in Hl |- *. cbn [app] in *. split_and!; [done..|]. intros x l' ->.
  assert (Hone : foldl (compact_step f) ([], false, 0) (x :: l')
            = foldl (compact_step f) ([x], f x, if f x then 0 else 1) l').
  { cbn [foldl]. unfold compact_step at 2. by destruct (f x). }
  rewrite Hone in Hk. destruct (compact_fold f l' [x] (f x) (if f x then 0 else 1)) as [(k1 & Hk1 & _) _].
  { unfold maxStableSessionAliases. destruct (f x); lia. }
  { by destruct (f x). }
  exists k1. rewrite <- Hk. exact Hk1.
Qed.

Lemma compact_aliases l :
  let k := compactSessionAliases l in
  (∀ a, a ∈ k → a ∈ l) ∧ (NoDup l → NoDup k) ∧ Z.of_nat (length k) ≤ maxStableSessionAliases + 1
  ∧ ∀ x l', l = x :: l' → ∃ k', k = x :: k'.
Proof.
  destruct (compact_spec isLocalPromptCacheSessionAlias l) as (Hs & Hl & Hh). split_and!; [|intros; by eapply sublist_NoDup|done..].
  intros a Ha. by eapply sublist_subseteq.
Qed.

(** ** The invariant *)

(** A group is stored under its first alias. *)
Definition group_ok (key : string) (e : sessionEntry) : Prop :=
  (∃ l, en_aliases e = key :: l) ∧ NoDup (en_aliases e) ∧ "" ∉ en_aliases e ∧ en_authID e ≠ "".

Record cache_ok (c : cache) : Prop := {
  ok_entry : ∀ a e, c_entries c !! a = Some e ↔ ∃ k, c_groups c !! k = Some e ∧ a ∈ en_aliases e;
  ok_group : ∀ k e, c_groups c !! k = Some e → group_ok k e;
  ok_elem : ∀ k h, c_evictionElements c !! k = Some h ↔ (h, k) ∈ c_evictionOrder c;
  ok_handles : NoDup (map fst (c_evictionOrder c));
  ok_fresh : ∀ h k, (h, k) ∈ c_evictionOrder c → (h < c_next c)%nat;
  ok_listed : ∀ k, is_Some (c_evictionElements c !! k) ↔ is_Some (c_groups c !! k);
  ok_session : ∀ sid k, k ∈ default ∅ (c_sessionGroups c !! sid) ↔
      ∃ e, c_groups c !! k = Some e ∧ b_sequence (en_binding e) ≠ 0 ∧ b_sessionID (en_binding e) = sid;
  ok_session_used : ∀ sid keys, c_sessionGroups c !! sid = Some keys → keys ≠ ∅;
  ok_sequence : ∀ k e, c_groups c !! k = Some e → 0 ≤ b_sequence (en_binding e) ≤ c_bindingSequence c;
  ok_distinct : ∀ k k' e e', c_groups c !! k = Some e → c_groups c !! k' = Some e' →
      b_sequence (en_binding e) = b_sequence (en_binding e') → b_sequence (en_binding e) ≠ 0 → k = k';
}.

(** The bounds of a cache: it is within its capacity, and its parameters are sane. *)
Definition cache_sized (c : cache) : Prop :=
  Z.of_nat (size (c_entries c)) ≤ c_maxEntries c ∧ 0 < c_maxEntries c ∧ 0 < c_ttl c ∧ 0 ≤ c_bindingSequence c.

Lemma same_group_spec l r :
  sameSessionEntryGroup l r = true ↔
  en_authID l = en_authID r ∧ en_expiresAt l = en_expiresAt r ∧ en_aliases l = en_aliases r.
Proof.
  unfold sameSessionEntryGroup, equalSessionAliases.
  rewrite !andb_true_iff, String.eqb_eq, time_eq_spec, bool_decide_eq_true. tauto.
Qed.
Lemma same_group_refl e : sameSessionEntryGroup e e = true.
Proof. by apply same_group_spec. Qed.

Section cache_facts.
Context {c : cache} (Hok : cache_ok c).

(** A group is known by its aliases. *)
Lemma group_key k k' e e' a :
  c_groups c !! k = Some e → c_groups c !! k' = Some e' → a ∈ en_aliases e → a ∈ en_aliases e' → k = k' ∧ e = e'.
Proof.
  intros Hk Hk' Ha Ha'.
  assert (c_entries c !! a = Some e) as H1 by (apply (ok_entry c Hok); eauto).
  assert (c_entries c !! a = Some e') as H2 by (apply (ok_entry c Hok); eauto).
  assert (e = e') as -> by congruence. split; [|done].
  destruct (ok_group c Hok k e' Hk) as [[l Hl] _], (ok_group c Hok k' e' Hk') as [[l' Hl'] _]. congruence.
Qed.

Lemma group_head k e : c_groups c !! k = Some e → k ∈ en_aliases e.
Proof. intros Hk. destruct (ok_group c Hok k e Hk) as [[l ->] _]. set_solver. Qed.

Lemma entry_group a e : c_entries c !! a = Some e → ∃ k, c_groups c !! k = Some e ∧ a ∈ en_aliases e.
Proof. apply (ok_entry c Hok). Qed.

Lemma entries_of_alias k e a : c_groups c !! k = Some e → a ∈ en_aliases e → c_entries c !! a = Some e.
Proof. intros. apply (ok_entry c Hok). eauto. Qed.

End cache_facts.

(** ** Removal of a group *)

Lemma drop_aliases_lookup e l entries a :
  foldl (drop_alias e) entries l !! a =
  if bool_decide (a ∈ l) && match entries !! a with Some x => sameSessionEntryGroup x e | None => false end
  then None else entries !! a.
Proof.
  revert entries. induction l as [|x l IH]; intros entries; cbn [foldl].
  { by rewrite bool_decide_false by set_solver. }
  rewrite IH. unfold drop_alias. destruct (decide (a = x)) as [->|Hne].
  - rewrite (bool_decide_true (x ∈ x :: l)) by set_solver. cbn [andb].
    destruct (entries !! x) as [cur|] eqn:Hx; [|rewrite Hx; by destruct (bool_decide _)].
    destruct (sameSessionEntryGroup cur e) eqn:Hs.
    + rewrite lookup_delete_eq. by destruct (bool_decide _).
    + rewrite Hx, Hs. by destruct (bool_decide _).
  - assert (Hsame : match entries !! x with
      | Some cur => if sameSessionEntryGroup cur e then delete x entries else entries
      | None => entries end !! a = entries !! a).
    { destruct (entries !! x); [|done]. destruct (sameSessionEntryGroup _ _); [|done]. by rewrite lookup_delete_ne. }
    rewrite Hsame. assert (bool_decide (a ∈ x :: l) = bool_decide (a ∈ l)) as ->; [|done].
    apply bool_decide_ext. set_solver.
Qed.

Lemma drop_session_member groups sid key s k :
  k ∈ default ∅ (drop_session_group groups sid key !! s) ↔ k ∈ default ∅ (groups !! s) ∧ ¬ (s = sid ∧ k = key).
Proof.
  unfold drop_session_group. destruct (groups !! sid) as [keys|] eqn:Hg.
  - case_bool_decide as He; (destruct (decide (s = sid)) as [->|Hne];
      [rewrite ?lookup_delete_eq, ?lookup_insert_eq, Hg; cbn; set_solver
      |rewrite ?lookup_delete_ne, ?lookup_insert_ne by done; naive_solver]).
  - split; [|naive_solver]. intros Hk. split; [done|]. intros [-> ->]. rewrite Hg in Hk. cbn in Hk. set_solver.
Qed.

Lemma drop_session_used groups sid key :
  (∀ s keys, groups !! s = Some keys → keys ≠ ∅) →
  ∀ s keys, drop_session_group groups sid key !! s = Some keys → keys ≠ ∅.
Proof.
  intros Hu s keys. unfold drop_session_group. destruct (groups !! sid) as [keys'|] eqn:Hg; [|apply Hu].
  case_bool_decide as He; [rewrite lookup_delete_Some; naive_solver|].
  rewrite lookup_insert_Some. naive_solver.
Qed.

Lemma remove_element_elem h order p : p ∈ remove_element h order ↔ p ∈ order ∧ p.1 ≠ h.
Proof.
  unfold remove_element. rewrite !list_elem_of_In, filter_In, negb_true_iff, Nat.eqb_neq. tauto.
Qed.
Lemma remove_element_sublist h order : remove_element h order `sublist_of` order.
Proof. unfold remove_element. induction order as [|p l IH]; cbn; [done|]. by destruct (negb _); constructor. Qed.

Lemma remove_element_handles h order : NoDup (map fst order) → NoDup (map fst (remove_element h order)).
Proof.
  intros Hn. eapply sublist_NoDup; [exact Hn|]. unfold remove_element. clear Hn.
  induction order as [|p l IH]; cbn; [done|]. by destruct (negb _); constructor.
Qed.

Lemma nodup_fst_functional (l : list (nat * string)) h k k' :
  NoDup (map fst l) → (h, k) ∈ l → (h, k') ∈ l → k = k'.
Proof.
  induction l as [|[h1 k1] l IH]; cbn [map]; intros Hn; [set_solver|].
  inversion Hn as [|? ? Hnot Hn']; subst. rewrite !elem_of_cons.
  assert (Hno : ∀ x, (h1, x) ∉ l) by (intros x Hx; apply Hnot, list_elem_of_fmap; by exists (h1, x)).
  intros [H1|H1] [H2|H2]; simplify_eq; [done|by apply Hno in H2|by apply Hno in H1|by apply IH].
Qed.

Lemma remove_element_length h k order :
  NoDup (map fst order) → (h, k) ∈ order → length order = S (length (remove_element h order)).
Proof.
  induction order as [|[h' k'] l IH]; cbn [map]; intros Hn Hin; [set_solver|].
  inversion Hn as [|? ? Hnot Hn']; subst. unfold remove_element. cbn [List.filter fst].
  destruct (Nat.eqb_spec h' h) as [->|Hne]; cbn [negb length].
  - f_equal. f_equal. symmetry. apply (List.forallb_filter_id (fun p => negb (Nat.eqb p.1 h))).
    apply forallb_forall. intros [h2 k2] Hp%list_elem_of_In. cbn. apply negb_true_iff, Nat.eqb_neq. intros ->.
    apply Hnot, list_elem_of_fmap. by exists (h, k2).
  - f_equal. apply IH; [done|]. set_solver.
Qed.

(** [c'] is [c] without the groups of which [P] holds. *)
Definition without (P : sessionEntry → Prop) (c c' : cache) : Prop :=
  cache_ok c' ∧ (∀ k e, c_groups c' !! k = Some e ↔ c_groups c !! k = Some e ∧ ¬ P e)
  ∧ c_evictionOrder c' `sublist_of` c_evictionOrder c
  ∧ c_maxEntries c' = c_maxEntries c ∧ c_ttl c' = c_ttl c ∧ c_bindingSequence c' = c_bindingSequence c.

(** Removal of a current group, as the record it gives. *)
Lemma remove_group_eq c k e h :
  cache_ok c → c_groups c !! k = Some e → c_evictionElements c !! k = Some h →
  removeAliasGroupLocked c e =
    {| c_entries := foldl (drop_alias e) (c_entries c) (en_aliases e); c_groups := delete k (c_groups c);
       c_evictionOrder := remove_element h (c_evictionOrder c);
       c_evictionElements := delete k (c_evictionElements c); c_next := c_next c;
       c_maxEntries := c_maxEntries c; c_ttl := c_ttl c;
       c_sessionGroups := drop_session_group (c_sessionGroups c) (b_sessionID (en_binding e)) k;
       c_bindingSequence := c_bindingSequence c |}.
Proof.
  intros Hok Hk Hh. destruct (ok_group c Hok k e Hk) as [[l Hl] _].
  unfold removeAliasGroupLocked. rewrite Hl, Hk, same_group_refl. unfold drop_element. cbn. by rewrite Hh.
Qed.

Section removal.
Context (c : cache) (Hok : cache_ok c) (k : string) (e : sessionEntry) (Hk : c_groups c !! k = Some e).

Lemma group_listed : ∃ h, c_evictionElements c !! k = Some h.
Proof using Hok Hk. destruct (proj2 (ok_listed c Hok k)) as [h Hh]; eauto. Qed.

Lemma drop_entries_lookup a e' :
  foldl (drop_alias e) (c_entries c) (en_aliases e) !! a = Some e' ↔ c_entries c !! a = Some e' ∧ a ∉ en_aliases e.
Proof using Hok Hk.
  rewrite drop_aliases_lookup. case_bool_decide as Ha; cbn [andb]; [|tauto].
  rewrite (entries_of_alias Hok k e a Hk Ha), same_group_refl. naive_solver.
Qed.

Lemma other_group k' e' : c_groups c !! k' = Some e' → k' ≠ k ↔ e' ≠ e.
Proof using Hok Hk.
  intros Hk'. split; [|naive_solver]. intros Hne ->. apply Hne.
  by destruct (group_key Hok k' k e e k) as [-> _]; [done..|eapply group_head|eapply group_head|].
Qed.

Lemma delete_group_lookup k' e' : delete k (c_groups c) !! k' = Some e' ↔ c_groups c !! k' = Some e' ∧ e' ≠ e.
Proof using Hok Hk.
  rewrite lookup_delete_Some. split; intros [H1 H2].
  - split; [done|]. apply (other_group k' e'); done.
  - split; [|done]. intros <-. by rewrite H1 in Hk; injection Hk.
Qed.

Lemma element_removed h k' h' :
  c_evictionElements c !! k = Some h →
  delete k (c_evictionElements c) !! k' = Some h' ↔ (h', k') ∈ remove_element h (c_evictionOrder c).
Proof using Hok Hk.
  intros Hh. rewrite lookup_delete_Some, remove_element_elem, <- (ok_elem c Hok). cbn [fst]. split.
  - intros [Hne Hh']. split; [done|]. intros ->. apply Hne.
    apply (ok_elem c Hok) in Hh, Hh'.
    by eapply (nodup_fst_functional (c_evictionOrder c)); [apply (ok_handles c Hok)|..].
  - intros [Hh' Hne]. split; [|done]. intros ->. congruence.
Qed.

Lemma remove_group_spec :
  without (.= e) c (removeAliasGroupLocked c e)
  ∧ length (c_evictionOrder c) = S (length (c_evictionOrder (removeAliasGroupLocked c e))).
Proof using Hok Hk.
  destruct group_listed as [h Hh]. rewrite (remove_group_eq c k e h Hok Hk Hh). unfold without. cbn.
  split; [split_and!; [|intros; apply delete_group_lookup|apply remove_element_sublist|done..]|].
  - constructor; cbn.
    + intros a e'. rewrite drop_entries_lookup, (ok_entry c Hok). setoid_rewrite delete_group_lookup.
      split; [intros [(k' & Hk' & Ha) Hna]; exists k'; naive_solver|].
      intros (k' & [Hk' Hne] & Ha). split; [by exists k'|]. intros Hae. by destruct (group_key Hok k' k e' e a).
    + intros k' e' [Hk' _]%delete_group_lookup. by apply (ok_group c Hok).
    + intros k' h'. by apply element_removed.
    + by apply remove_element_handles, (ok_handles c Hok).
    + intros h' k' [Hin _]%remove_element_elem. by apply (ok_fresh c Hok) in Hin.
    + intros k'. destruct (decide (k' = k)) as [->|Hne]; [by rewrite !lookup_delete_eq|].
      rewrite !lookup_delete_ne by done. apply (ok_listed c Hok).
    + intros sid k'. rewrite drop_session_member, (ok_session c Hok). setoid_rewrite delete_group_lookup.
      split.
      * intros [(e' & Hk' & Hseq & Hsid) Hnot]. exists e'. split_and!; try done. intros ->. apply Hnot.
        split; [done|]. destruct (decide (k' = k)) as [|Hne]; [done|]. by apply (other_group k' e) in Hne.
      * intros (e' & [Hk' Hne] & Hseq & Hsid). split; [by exists e'|]. intros [_ ->]. congruence.
    + apply drop_session_used, (ok_session_used c Hok).
    + intros k' e' [Hk' _]%delete_group_lookup. by eapply (ok_sequence c Hok).
    + intros k1 k2 e1 e2 [H1 _]%delete_group_lookup [H2 _]%delete_group_lookup. by apply (ok_distinct c Hok).
  - eapply remove_element_length; [apply (ok_handles c Hok)|]. by apply (ok_elem c Hok).
Qed.

End removal.

(** A group that is gone is removed without effect. *)
Lemma remove_gone c k e :
  cache_ok c → group_ok k e → c_groups c !! k = None → removeAliasGroupLocked c e = c.
Proof.
  intros Hok [[l Hl] _] Hk.
  assert (He : foldl (drop_alias e) (c_entries c) (en_aliases e) = c_entries c).
  { apply map_eq. intros a. rewrite drop_aliases_lookup.
    destruct (c_entries c !! a) as [x|] eqn:Hx; [|by rewrite andb_false_r].
    destruct (sameSessionEntryGroup x e) eqn:Hs; [|by rewrite andb_false_r].
    apply same_group_spec in Hs as (_ & _ & Ha). destruct (entry_group Hok a x Hx) as (k' & Hk' & _).
    destruct (ok_group c Hok k' x Hk') as [[l' Hl'] _]. congruence. }
  unfold removeAliasGroupLocked. rewrite Hl, Hk, <- Hl, He. by destruct c.
Qed.

Lemma without_refl P c : cache_ok c → (∀ k e, c_groups c !! k = Some e → ¬ P e) → without P c c.
Proof. intros Hok HP. unfold without. split_and!; try done. intros k e. naive_solver. Qed.

Lemma without_trans P Q R c c' c'' :
  without P c c' → without Q c' c'' → (∀ k e, c_groups c !! k = Some e → R e ↔ P e ∨ Q e) → without R c c''.
Proof.
  intros (H1 & H2 & H3 & H4 & H5 & H6) (K1 & K2 & K3 & K4 & K5 & K6) HR. unfold without.
  split_and!; [done| |by etrans|congruence..].
  intros k e. rewrite K2, H2. pose proof (HR k e). naive_solver.
Qed.

(** The entries go with their groups. *)
Lemma without_entries P c c' a e :
  cache_ok c → without P c c' → c_entries c' !! a = Some e ↔ c_entries c !! a = Some e ∧ ¬ P e.
Proof.
  intros Hok (Hok' & Hg & _). rewrite (ok_entry c' Hok'), (ok_entry c Hok). setoid_rewrite Hg. naive_solver.
Qed.
Lemma without_entries_none P c c' a :
  cache_ok c → without P c c' → (∀ e, c_entries c !! a = Some e → P e) → c_entries c' !! a = None.
Proof.
  intros Hok Hw HP. apply eq_None_not_Some. intros [e He].
  apply (without_entries P c c' a e Hok Hw) in He as [He Hn]. by apply Hn, HP.
Qed.
Lemma without_groups_none P c c' k e :
  without P c c' → c_groups c !! k = Some e → P e → c_groups c' !! k = None.
Proof.
  intros (_ & Hg & _) Hk HP. apply eq_None_not_Some. intros [e' He']. apply Hg in He'. naive_solver.
Qed.

Lemma without_size P c c' : cache_ok c → without P c c' → (size (c_entries c') ≤ size (c_entries c))%nat.
Proof.
  intros Hok Hw. apply map_subseteq_size, map_subseteq_spec. intros a x Hx.
  by eapply without_entries in Hx as [? _].
Qed.

Lemma without_sized P c c' : cache_ok c → without P c c' → cache_sized c → cache_sized c'.
Proof.
  intros Hok Hw Hs. pose proof Hw as (_ & _ & _ & Hm & Ht & Hb). unfold cache_sized in *.
  rewrite Hm, Ht, Hb. split; [|tauto].
  pose proof (without_size P c c' Hok Hw). lia.
Qed.

(** Removal of several groups, which may be listed more than once. *)
Lemma remove_list_spec l c :
  cache_ok c →
  (∀ e, e ∈ l → ∃ k, group_ok k e ∧ (c_groups c !! k = Some e ∨ c_groups c !! k = None)) →
  without (.∈ l) c (foldl removeAliasGroupLocked c l).
Proof.
  revert c. induction l as [|e l IH]; intros c Hok Hl; cbn [foldl].
  { apply without_refl; [done|]. set_solver. }
  destruct (Hl e) as (k & Hge & [Hk|Hk]); [set_solver| |].
  - destruct (remove_group_spec c Hok k e Hk) as [Hw _]. eapply without_trans; [exact Hw|apply IH|].
    + apply Hw.
    + intros e' He'. destruct (Hl e') as (k' & Hge' & Hk'); [set_solver|]. exists k'. split; [done|].
      destruct Hk' as [Hk'|Hk'].
      * destruct (decide (e' = e)) as [->|Hne]; [right|left; by apply Hw].
        by eapply without_groups_none.
      * right. apply eq_None_not_Some. intros [x Hx]. apply Hw in Hx. naive_solver.
    + set_solver.
  - rewrite (remove_gone c k e Hok Hge Hk). destruct (IH c Hok) as (H1 & H2 & H3); [set_solver|].
    unfold without. split_and!; try apply H3; [done|]. intros k' e'. rewrite H2. split; [|set_solver].
    intros [Hk' Hn]. split; [done|]. intros [->|]%elem_of_cons; [|done].
    destruct (ok_group c Hok k' e Hk') as [[l1 H11] _], Hge as [[l2 H22] _]. congruence.
Qed.

(** A loop over the stored groups removes exactly those the test selects. *)
Lemma remove_keys_spec test keys c :
  cache_ok c →
  without (λ e, test e = true ∧ ∃ k, k ∈ keys ∧ k ∈ en_aliases e ∧ c_groups c !! k = Some e) c
    (foldl (fun c key => match c_groups c !! key with
                         | Some group => if test group then removeAliasGroupLocked c group else c
                         | None => c
                         end) c keys).
Proof.
  revert c. induction keys as [|k keys IH]; intros c Hok; cbn [foldl].
  { apply without_refl; [done|]. set_solver. }
  destruct (c_groups c !! k) as [g|] eqn:Hk; [destruct (test g) eqn:Ht|].
  - destruct (remove_group_spec c Hok k g Hk) as [Hw _].
    eapply without_trans; [exact Hw|apply IH, Hw|]. intros k' e Hk'. cbv beta. split.
    + intros [He (k2 & [->|Hin]%elem_of_cons & Ha & Hk2)]; [left; congruence|].
      destruct (decide (e = g)) as [|Hne]; [by left|]. right. split; [done|]. exists k2. split_and!; try done. by apply Hw.
    + intros [->|(He & k2 & Hin & Ha & Hk2)].
      * split; [done|]. exists k. split_and!; [set_solver|by eapply group_head|done].
      * split; [done|]. apply Hw in Hk2 as [Hk2 _]. exists k2. set_solver.
  - eapply without_trans; [apply (without_refl (λ _, False)); naive_solver|by apply IH|].
    intros k' e Hk'. cbv beta. split; [|set_solver].
    intros [He (k2 & [->|Hin]%elem_of_cons & Ha & Hk2)]; [congruence|]. right. eauto.
  - eapply without_trans; [apply (without_refl (λ _, False)); naive_solver|by apply IH|].
    intros k' e Hk'. cbv beta. split; [|set_solver].
    intros [He (k2 & [->|Hin]%elem_of_cons & Ha & Hk2)]; [congruence|]. right. eauto.
Qed.

Lemma remove_groups_spec test c : cache_ok c → without (λ e, test e = true) c (remove_groups test c).
Proof.
  intros Hok. eapply without_trans; [apply (without_refl (λ _, False)); [done|naive_solver]
                                    |apply remove_keys_spec, Hok|].
  intros k e Hk. cbv beta. split; [|naive_solver]. intros He. right. split; [done|]. exists k.
  split_and!; [|by eapply group_head|done].
  apply list_elem_of_fmap. exists (k, e). split; [done|]. by apply elem_of_map_to_list.
Qed.

(** ** Eviction *)

Lemma remove_front h k order : NoDup (map fst ((h, k) :: order)) → remove_element h ((h, k) :: order) = order.
Proof.
  intros Hn. inversion Hn as [|? ? Hnot _]; subst. unfold remove_element. cbn [List.filter fst].
  rewrite Nat.eqb_refl. cbn [negb]. apply List.forallb_filter_id, forallb_forall.
  intros [h' k'] Hp%list_elem_of_In. cbn. apply negb_true_iff, Nat.eqb_neq. intros ->.
  apply Hnot, list_elem_of_fmap. by exists (h, k').
Qed.

(** With no group listed there is no entry. *)
Lemma unlisted_empty c : cache_ok c → c_evictionOrder c = [] → size (c_entries c) = 0%nat.
Proof.
  intros Hok Ho. apply map_size_empty_iff, map_eq_iff. intros a. rewrite lookup_empty.
  apply eq_None_not_Some. intros [e He]. destruct (entry_group Hok a e He) as (k & Hk & _).
  destruct (proj2 (ok_listed c Hok k)) as [h Hh]; [eauto|]. apply (ok_elem c Hok) in Hh. rewrite Ho in Hh. set_solver.
Qed.

(** A round on a well-formed cache removes the group at the front of the list. *)
Lemma evict_round c h k order :
  cache_ok c → c_evictionOrder c = (h, k) :: order →
  ∃ e, c_groups c !! k = Some e ∧ without (.= e) c (removeAliasGroupLocked c e)
       ∧ c_evictionOrder (removeAliasGroupLocked c e) = order.
Proof.
  intros Hok Ho.
  assert (Hh : c_evictionElements c !! k = Some h) by (apply (ok_elem c Hok); rewrite Ho; set_solver).
  destruct (proj1 (ok_listed c Hok k)) as [e He]; [eauto|]. exists e. split_and!; [done|by apply (remove_group_spec c Hok k)|].
  rewrite (remove_group_eq c k e h) by done. cbn. rewrite Ho. apply remove_front. rewrite <- Ho. apply (ok_handles c Hok).
Qed.

Lemma evict_spec n c :
  cache_ok c → (length (c_evictionOrder c) ≤ n)%nat → 0 ≤ c_maxEntries c →
  let r := evictExcess n c in
  Z.of_nat (size (c_entries r)) ≤ c_maxEntries r ∧ c_evictionOrder r `suffix_of` c_evictionOrder c
  ∧ ∃ P, without P c r.
Proof.
  revert c. induction n as [|n IH]; intros c Hok Hn Hmax; cbv zeta; cbn [evictExcess].
  - assert (Ho : c_evictionOrder c = []) by (destruct (c_evictionOrder c); [done|cbn in Hn; lia]).
    rewrite (unlisted_empty c Hok Ho). split_and!; [done|done|]. exists (λ _, False). by apply without_refl; [|naive_solver].
  - destruct (_ <=? _) eqn:Hsz; bprop.
    { split_and!; [done|done|]. exists (λ _, False). by apply without_refl; [|naive_solver]. }
    destruct (c_evictionOrder c) as [|[h k] order] eqn:Ho.
    { rewrite (unlisted_empty c Hok Ho) in Hsz. lia. }
    destruct (evict_round c h k order Hok Ho) as (e & -> & Hw & Hrest).
    destruct (IH (removeAliasGroupLocked c e)) as (H1 & H2 & P & H3).
    { apply Hw. }
    { rewrite Hrest. cbn in Hn. lia. }
    { destruct Hw as (_ & _ & _ & -> & _). done. }
    split_and!; [done| |].
    + rewrite Hrest in H2. by apply suffix_cons_r.
    + exists (λ x, x = e ∨ P x). by eapply without_trans.
Qed.

(** More fuel than there are groups changes nothing. *)
Lemma evict_enough n c :
  cache_ok c → 0 ≤ c_maxEntries c → (length (c_evictionOrder c) ≤ n)%nat → evictExcess n c = evictExcessLocked c.
Proof.
  unfold evictExcessLocked. remember (length (c_evictionOrder c)) as m eqn:Hm. revert c n Hm.
  induction m as [|m IH]; intros c n Hm Hok Hmax Hn.
  - assert (Ho : c_evictionOrder c = []) by (destruct (c_evictionOrder c); [done|discriminate]).
    destruct n; cbn [evictExcess]; [done|]. rewrite (unlisted_empty c Hok Ho), (proj2 (Z.leb_le _ _)); [done|lia].
  - destruct n as [|n]; [lia|]. cbn [evictExcess]. destruct (_ <=? _); [done|].
    destruct (c_evictionOrder c) as [|[h k] order] eqn:Ho; [done|].
    destruct (evict_round c h k order Hok Ho) as (e & -> & Hw & Hrest). cbn in Hm.
    apply IH; [rewrite Hrest; lia|apply Hw| |lia]. destruct Hw as (_ & _ & _ & -> & _). done.
Qed.

(** A group that is alone has all the entries. *)
Lemma alone_size c h k e :
  cache_ok c → c_evictionOrder c = [(h, k)] → c_groups c !! k = Some e →
  size (c_entries c) = length (en_aliases e).
Proof.
  intros Hok Ho Hk. destruct (ok_group c Hok k e Hk) as (_ & Hn & _).
  assert (Hdom : dom (c_entries c) = list_to_set (C := gset string) (en_aliases e)).
  { apply set_eq. intros a. rewrite elem_of_dom, elem_of_list_to_set. split.
    - intros [e' He']. destruct (entry_group Hok a e' He') as (k' & Hk' & Ha).
      destruct (proj2 (ok_listed c Hok k')) as [h' Hh']; [eauto|]. apply (ok_elem c Hok) in Hh'.
      rewrite Ho, list_elem_of_singleton in Hh'. injection Hh' as -> ->. congruence.
    - intros Ha. exists e. by apply (entries_of_alias Hok k). }
  rewrite <- size_dom, Hdom. by apply size_list_to_set.
Qed.

(** A key is listed once. *)
Lemma listed_once c h k h' order :
  cache_ok c → c_evictionOrder c = (h', k) :: order → (h, k) ∉ order.
Proof.
  intros Hok Ho Hin.
  assert (c_evictionElements c !! k = Some h') as H1 by (apply (ok_elem c Hok); rewrite Ho; set_solver).
  assert (c_evictionElements c !! k = Some h) as H2 by (apply (ok_elem c Hok); rewrite Ho; set_solver).
  assert (h = h') as -> by congruence. pose proof (ok_handles c Hok) as Hn. rewrite Ho in Hn. cbn in Hn.
  inversion Hn as [|? ? Hnot _]; subst. apply Hnot, list_elem_of_fmap. by exists (h', k).
Qed.

(** The group at the back of the list survives when it fits. *)
Lemma evict_keeps_newest n c h k e order :
  cache_ok c → c_evictionOrder c = order ++ [(h, k)] → c_groups c !! k = Some e →
  Z.of_nat (length (en_aliases e)) ≤ c_maxEntries c → c_groups (evictExcess n c) !! k = Some e.
Proof.
  revert c order. induction n as [|n IH]; intros c order Hok Ho Hk Hfit; cbn [evictExcess]; [done|].
  destruct (_ <=? _) eqn:Hsz; bprop; [done|]. destruct order as [|[h0 k0] order]; cbn in Ho; rewrite Ho.
  { rewrite (alone_size c h k e Hok Ho Hk) in Hsz. lia. }
  destruct (evict_round c h0 k0 _ Hok Ho) as (e0 & Hk0 & Hw & Hrest). rewrite Hk0.
  eapply IH; [apply Hw|exact Hrest| |].
  - apply Hw. split; [done|]. intros ->.
    destruct (group_key Hok k k0 e0 e0 k0) as [-> _]; [done..|by eapply group_head|by eapply group_head|].
    by apply (listed_once c h k0 h0 _ Hok Ho), elem_of_app; right; apply list_elem_of_singleton.
  - destruct Hw as (_ & _ & _ & -> & _). done.
Qed.

(** What is listed is kept. *)
Lemma without_listed P c c' k e :
  without P c c' → c_groups c !! k = Some e → k ∈ map snd (c_evictionOrder c') → c_groups c' !! k = Some e.
Proof.
  intros (Hok & Hg & _) Hk (p & -> & Hin)%list_elem_of_fmap. destruct p as [h k]. cbn in *.
  apply (ok_elem c' Hok) in Hin. destruct (proj1 (ok_listed c' Hok k)) as [e' He']; [eauto|].
  rewrite He'. apply Hg in He'. naive_solver.
Qed.

(** ** Installation of a group *)

Lemma insert_aliases_lookup (e : sessionEntry) (l : list string) (entries : gmap string sessionEntry) a :
  foldl (fun entries alias => <[alias := e]> entries) entries l !! a
  = if bool_decide (a ∈ l) then Some e else entries !! a.
Proof.
  revert entries. induction l as [|x l IH]; intros entries; cbn [foldl].
  { by rewrite bool_decide_false by set_solver. }
  rewrite IH. destruct (decide (a = x)) as [->|Hne].
  - rewrite lookup_insert_eq, (bool_decide_true (x ∈ x :: l)) by set_solver. by destruct (bool_decide _).
  - rewrite lookup_insert_ne by done. assert (bool_decide (a ∈ x :: l) = bool_decide (a ∈ l)) as ->; [|done].
    apply bool_decide_ext. set_solver.
Qed.

Lemma add_session_member groups b key s k :
  k ∈ default ∅ (add_session_group groups b key !! s) ↔
  k ∈ default ∅ (groups !! s) ∨ b_sequence b ≠ 0 ∧ s = b_sessionID b ∧ k = key.
Proof.
  unfold add_session_group. destruct (Z.eqb_spec (b_sequence b) 0) as [|Hb]; [naive_solver|].
  destruct (decide (s = b_sessionID b)) as [->|Hne].
  - rewrite lookup_insert_eq. cbn. set_solver.
  - rewrite lookup_insert_ne by done. naive_solver.
Qed.
Lemma add_session_used groups b key :
  (∀ s keys, groups !! s = Some keys → keys ≠ ∅) →
  ∀ s keys, add_session_group groups b key !! s = Some keys → keys ≠ ∅.
Proof.
  intros Hu s keys. unfold add_session_group. destruct (b_sequence b =? 0); [apply Hu|].
  rewrite lookup_insert_Some. set_solver.
Qed.

Section install.
Context (c : cache) (Hok : cache_ok c) (k : string) (e : sessionEntry) (Hge : group_ok k e).
Context (Hfree : ∀ a, a ∈ en_aliases e → c_entries c !! a = None).

Lemma install_new : c_groups c !! k = None ∧ c_evictionElements c !! k = None.
Proof using Hok Hge Hfree.
  destruct Hge as [[l Hl] _]. assert (Hke : c_entries c !! k = None) by (apply Hfree; rewrite Hl; set_solver).
  assert (Hk : c_groups c !! k = None).
  { apply eq_None_not_Some. intros [x Hx]. pose proof (group_head Hok k x Hx) as Hin.
    rewrite (entries_of_alias Hok k x k Hx Hin) in Hke. done. }
  split; [done|]. apply eq_None_not_Some. intros Hs%(ok_listed c Hok). rewrite Hk in Hs. by destruct Hs.
Qed.

Lemma install_groups k' e' :
  <[k := e]> (c_groups c) !! k' = Some e' ↔ c_groups c !! k' = Some e' ∨ k' = k ∧ e' = e.
Proof using Hok Hge Hfree.
  destruct install_new as [Hn _]. rewrite lookup_insert_Some. split; [naive_solver|].
  intros [Hk'|[-> ->]]; [|by left]. right. split; [|done]. intros <-. congruence.
Qed.

Context (Hseq : 0 ≤ b_sequence (en_binding e) ≤ c_bindingSequence c).
Context (Hdist : ∀ k' e', c_groups c !! k' = Some e' → b_sequence (en_binding e') = b_sequence (en_binding e) →
                  b_sequence (en_binding e) = 0).

Lemma install_group_ok : cache_ok (install_group c e k).
Proof using Hok Hge Hfree Hseq Hdist.
  destruct install_new as [Hng Hne]. unfold install_group. constructor; cbn.
  - intros a e'. rewrite insert_aliases_lookup. setoid_rewrite install_groups. case_bool_decide as Ha.
    + split; [intros [= <-]; exists k; auto|]. intros (k' & [Hk'|[-> ->]] & Ha'); [|done].
      exfalso. specialize (Hfree a Ha). rewrite (proj2 (ok_entry c Hok a e')) in Hfree; [done|eauto].
    + rewrite (ok_entry c Hok). naive_solver.
  - intros k' e' [Hk'|[-> ->]]%install_groups; [by apply (ok_group c Hok)|done].
  - intros k' h. rewrite elem_of_app, list_elem_of_singleton, lookup_insert_Some, <- (ok_elem c Hok). naive_solver.
  - rewrite map_app. apply NoDup_app. split_and!; [apply (ok_handles c Hok)| |apply NoDup_singleton].
    cbn. intros h (p & -> & Hp)%list_elem_of_fmap Hh%list_elem_of_singleton. destruct p as [h k']. cbn in Hh.
    apply (ok_fresh c Hok) in Hp. lia.
  - intros h k' [Hin|Hin%list_elem_of_singleton]%elem_of_app; [apply (ok_fresh c Hok) in Hin; lia|]. injection Hin. lia.
  - intros k'. destruct (decide (k' = k)) as [->|Hd]; [rewrite !lookup_insert_eq; split; eauto|].
    rewrite !lookup_insert_ne by done. apply (ok_listed c Hok).
  - intros sid k'. rewrite add_session_member, (ok_session c Hok). setoid_rewrite install_groups. naive_solver.
  - apply add_session_used, (ok_session_used c Hok).
  - intros k' e' [Hk'|[-> ->]]%install_groups; [by apply (ok_sequence c Hok k')|done].
  - intros k1 k2 e1 e2 [H1|[-> ->]]%install_groups [H2|[-> ->]]%install_groups Heq Hnz; [|exfalso..|done].
    + by apply (ok_distinct c Hok k1 k2 e1 e2).
    + apply Hnz. rewrite Heq. eauto.
    + apply Hnz. eauto.
Qed.

End install.

(** ** Replacement of groups *)

(** The aliases of the new group belong to nobody but the old groups. *)
Record replaceable (c : cache) (authID : string) (aliases : list string) (binding : sessionBinding)
    (previous : list sessionEntry) : Prop := {
  rp_previous : ∀ e, e ∈ previous → ∃ k, c_groups c !! k = Some e;
  rp_auth : authID ≠ "";
  rp_nodup : NoDup aliases;
  rp_named : "" ∉ aliases;
  rp_covered : ∀ a e, a ∈ aliases → c_entries c !! a = Some e → e ∈ previous;
  rp_sequence : 0 ≤ b_sequence binding ≤ c_bindingSequence c;
  rp_distinct : ∀ k e, c_groups c !! k = Some e → b_sequence (en_binding e) = b_sequence binding →
      b_sequence binding ≠ 0 → e ∈ previous;
}.

(** What a replacement gives: the old groups are gone, the new one is there, and the
    oldest of the others make room when there are too many aliases. *)
Record replaced (c : cache) (e : sessionEntry) (previous : list sessionEntry) (r : cache) : Prop := {
  rd_ok : cache_ok r;
  rd_bound : 0 < c_maxEntries c → Z.of_nat (size (c_entries r)) ≤ c_maxEntries c;
  rd_params : c_maxEntries r = c_maxEntries c ∧ c_ttl r = c_ttl c ∧ c_bindingSequence r = c_bindingSequence c;
  rd_groups : ∀ k' e', c_groups r !! k' = Some e' →
      (c_groups c !! k' = Some e' ∧ e' ∉ previous) ∨ (head (en_aliases e) = Some k' ∧ e' = e);
  rd_new : Z.of_nat (length (en_aliases e)) ≤ c_maxEntries c →
      ∃ k, head (en_aliases e) = Some k ∧ c_groups r !! k = Some e;
  rd_room : Z.of_nat (size (c_entries c)) + Z.of_nat (length (en_aliases e)) ≤ c_maxEntries c →
      ∀ k' e', c_groups c !! k' = Some e' → e' ∉ previous → c_groups r !! k' = Some e';
}.

Lemma install_size c e k :
  (size (c_entries (install_group c e k)) ≤ size (c_entries c) + length (en_aliases e))%nat.
Proof.
  unfold install_group. cbn. generalize (c_entries c). induction (en_aliases e) as [|a l IH]; intros entries; cbn; [lia|].
  etrans; [apply IH|]. destruct (decide (is_Some (entries !! a))) as [Hs|Hn%eq_None_not_Some].
  - rewrite map_size_insert_Some by done. lia.
  - rewrite map_size_insert_None by done. lia.
Qed.

(** When there are too many aliases, the eviction list loses its front. *)
Lemma trim_spec ci e k h order :
  cache_ok ci → c_groups ci !! k = Some e → c_evictionOrder ci = order ++ [(h, k)] →
  let r := if (0 <? c_maxEntries ci) && (c_maxEntries ci <? Z.of_nat (size (c_entries ci)))
           then evictExcessLocked ci else ci in
  (∃ P, without P ci r) ∧ (0 < c_maxEntries ci → Z.of_nat (size (c_entries r)) ≤ c_maxEntries ci)
  ∧ (Z.of_nat (length (en_aliases e)) ≤ c_maxEntries ci → c_groups r !! k = Some e)
  ∧ (Z.of_nat (size (c_entries ci)) ≤ c_maxEntries ci → r = ci).
Proof.
  intros Hok Hk Ho. cbv zeta. destruct (_ && _) eqn:Hc; bprop.
  - destruct (evict_spec (length (c_evictionOrder ci)) ci) as (Hsz & _ & P & Hw); [done..|lia|].
    pose proof Hw as (_ & _ & _ & Hm & _). split_and!.
    + by exists P.
    + intros _. rewrite Hm in Hsz. exact Hsz.
    + intros Hfit. by eapply evict_keeps_newest.
    + lia.
  - split_and!; [|intros Hpos|done..].
    + exists (λ _, False). by apply without_refl; [|naive_solver].
    + apply andb_false_iff in Hc as [Hc|Hc]; bprop; lia.
Qed.

Lemma installed_spec c c1 e k l previous :
  cache_ok c → without (.∈ previous) c c1 → en_aliases e = k :: l →
  replaceable c (en_authID e) (en_aliases e) (en_binding e) previous →
  c_groups c1 !! k = None ∧ cache_ok (install_group c1 e k)
  ∧ (∀ k' e', c_groups (install_group c1 e k) !! k' = Some e' ↔
       (c_groups c !! k' = Some e' ∧ e' ∉ previous) ∨ k' = k ∧ e' = e)
  ∧ (size (c_entries (install_group c1 e k)) ≤ size (c_entries c) + length (en_aliases e))%nat.
Proof.
  intros Hok Hw Hal [Hp Ha Hn Hem Hcov Hseq Hdist]. pose proof Hw as (Hok1 & Hg1 & _ & _ & _ & Hb1).
  assert (Hge : group_ok k e) by (split_and!; [by exists l|done..]).
  assert (Hfree : ∀ a, a ∈ en_aliases e → c_entries c1 !! a = None).
  { intros a Hin. eapply without_entries_none; [exact Hok|exact Hw|]. intros x. by apply Hcov. }
  split_and!.
  - by apply (install_new c1 Hok1 k e Hge Hfree).
  - apply install_group_ok; [done..|rewrite Hb1; exact Hseq|]. intros k' e' [Hk' Hnp]%Hg1 Heq.
    destruct (decide (b_sequence (en_binding e) = 0)) as [|Hnz]; [done|]. destruct Hnp. by eapply Hdist.
  - intros k' e'. cbn [install_group c_groups]. by rewrite (install_groups c1 Hok1 k e Hge Hfree k' e'), Hg1.
  - pose proof (install_size c1 e k). pose proof (without_size _ c c1 Hok Hw). lia.
Qed.

Lemma replace_spec c authID expiresAt aliases binding previous :
  cache_ok c → aliases ≠ [] → replaceable c authID aliases binding previous →
  replaced c {| en_authID := authID; en_expiresAt := expiresAt; en_aliases := aliases; en_binding := binding |}
    previous (replaceAliasGroupsLocked c authID expiresAt aliases binding previous).
Proof.
  intros Hok Hne Hrp. unfold replaceAliasGroupsLocked. destruct aliases as [|k l]; [done|].
  set (e := {| en_authID := authID; en_expiresAt := expiresAt; en_aliases := k :: l; en_binding := binding |}).
  assert (Hw : without (.∈ previous) c (foldl removeAliasGroupLocked c previous)).
  { apply remove_list_spec; [done|]. intros x Hx. destruct (rp_previous _ _ _ _ _ Hrp x Hx) as [kx Hkx].
    exists kx. split; [by apply (ok_group c Hok)|by left]. }
  set (c1 := foldl removeAliasGroupLocked c previous) in *. pose proof Hw as (_ & _ & _ & Hm1 & Ht1 & Hb1).
  destruct (installed_spec c c1 e k l previous Hok Hw eq_refl Hrp) as (-> & Hoki & Hgi & Hsz).
  destruct (trim_spec (install_group c1 e k) e k (c_next c1) (c_evictionOrder c1) Hoki) as ((P & Hwr) & Hb & Hnew & Hroom);
    [apply Hgi; by right|done|].
  assert (Hmi : c_maxEntries (install_group c1 e k) = c_maxEntries c) by exact Hm1.
  pose proof Hwr as (Hokr & Hgr & _ & Hmr & Htr & Hbr). constructor.
  - exact Hokr.
  - rewrite <- Hmi. exact Hb.
  - split_and!; [exact (eq_trans Hmr Hm1)|exact (eq_trans Htr Ht1)|exact (eq_trans Hbr Hb1)].
  - intros k' e' [[Hk'|[-> ->]]%Hgi _]%Hgr; [by left|by right].
  - rewrite <- Hmi. intros Hfit. exists k. split; [done|]. apply Hnew, Hfit.
  - intros Hfit k' e' Hk' Hnp. change (en_aliases e) with (k :: l) in Hfit, Hsz.
    rewrite Hroom by (rewrite Hmi; lia). apply Hgi. by left.
Qed.

End SessionProps.
