(* ===== verification/SessionBindings.v ===== *)
(** * Session bindings: what the operations of the session cache promise

    Every operation keeps the invariant and the capacity of the cache, a binding
    answers until its time to live is over, and each removal takes exactly what its
    name says. *)
From S2P Require Import Prelude GoLib SessionCache SessionProps.
Import SessionCache SessionProps.

Module SessionBindings.

(** ** The operations as replacements *)

Lemma refresh_replaceable c sid e :
  cache_ok c → c_entries c !! sid = Some e →
  replaceable c (en_authID e) (compactSessionAliases (mergeSessionAliases [sid] (en_aliases e))) (en_binding e) [e].
Proof.
  intros Hok He. destruct (entry_group Hok sid e He) as (k & Hk & Hsid).
  destruct (ok_group c Hok k e Hk) as (_ & Hn & Hem & Ha).
  destruct (merge_spec [sid] (en_aliases e)) as (Hmn & Hme & Hm).
  destruct (compact_aliases (mergeSessionAliases [sid] (en_aliases e))) as (Hc & Hcn & _ & _).
  assert (Hin : ∀ a, a ∈ compactSessionAliases (mergeSessionAliases [sid] (en_aliases e)) → a ∈ en_aliases e).
  { intros a [_ [->%list_elem_of_singleton|]]%Hc%Hm; done. }
  constructor.
  - intros e' ->%list_elem_of_singleton. by exists k.
  - done.
  - by apply Hcn.
  - intros Habs%Hc. done.
  - intros a e' Hina He'. rewrite (entries_of_alias Hok k e a Hk (Hin a Hina)) in He'. set_solver.
  - by apply (ok_sequence c Hok k).
  - intros k' e' Hk' Heq Hnz. rewrite <- Heq in Hnz. assert (k' = k) as -> by (by eapply (ok_distinct c Hok)). set_solver.
Qed.

Lemma refresh_spec c sid e now :
  cache_ok c → c_entries c !! sid = Some e →
  ∃ e', en_authID e' = en_authID e ∧ en_expiresAt e' = now + c_ttl c ∧ en_binding e' = en_binding e
    ∧ (∃ l, en_aliases e' = sid :: l) ∧ (∀ a, a ∈ en_aliases e' → a ∈ en_aliases e)
    ∧ Z.of_nat (length (en_aliases e')) ≤ maxStableSessionAliases + 1
    ∧ replaced c e' [e] (refresh_group c sid e now).
Proof.
  intros Hok He. destruct (entry_group Hok sid e He) as (k & Hk & Hsid).
  destruct (ok_group c Hok k e Hk) as (_ & _ & Hem & _).
  assert (Hne : sid ≠ "") by (intros ->; done).
  destruct (compact_aliases (mergeSessionAliases [sid] (en_aliases e))) as (Hc & _ & Hlen & Hhead).
  destruct (merge_head sid (en_aliases e) Hne) as [l1 Hl1]. destruct (Hhead _ _ Hl1) as [l Hl].
  eexists. split_and!; cycle 6.
  - unfold refresh_group. apply replace_spec; [done|by rewrite Hl|by apply refresh_replaceable].
  - done.
  - done.
  - done.
  - by exists l.
  - intros a Ha%Hc. destruct (merge_spec [sid] (en_aliases e)) as (_ & _ & Hm).
    apply Hm in Ha as [_ [->%list_elem_of_singleton|]]; done.
  - exact Hlen.
Qed.

(** An identifier that leaves its group leaves the others bound as they were. *)
Lemma leave_replaceable c c1 k e aliases :
  cache_ok c → c_groups c !! k = Some e → without (.= e) c c1 → aliases `sublist_of` en_aliases e →
  replaceable c1 (en_authID e) aliases (en_binding e) [].
Proof.
  intros Hok Hk Hw Hs. destruct (ok_group c Hok k e Hk) as (_ & Hn & Hem & Ha).
  assert (Hin : ∀ a, a ∈ aliases → a ∈ en_aliases e) by (intros a Hina; by eapply sublist_subseteq).
  pose proof Hw as (_ & Hg & _ & _ & _ & Hb). constructor.
  - set_solver.
  - done.
  - by eapply sublist_NoDup.
  - intros Habs%Hin. done.
  - intros a e' Hina He'. apply (without_entries _ c c1 a e' Hok Hw) in He' as [He' Hne].
    rewrite (entries_of_alias Hok k e a Hk (Hin a Hina)) in He'. congruence.
  - rewrite Hb. by apply (ok_sequence c Hok k).
  - intros k' e' [Hk' Hne]%Hg Heq Hnz. rewrite <- Heq in Hnz.
    assert (k' = k) as -> by (by eapply (ok_distinct c Hok)). congruence.
Qed.

(** What [Get] answers, whether or not the entry expires between its two looks. *)
Lemma get_answer c sid now now' :
  cache_ok c → now ≤ now' →
  (Get c sid now now').1 = match c_entries c !! sid with
                           | Some e => if before now (en_expiresAt e) then Some (en_authID e) else None
                           | None => None
                           end.
Proof.
  intros Hok Hle. unfold Get, Get_read, Get_expire. destruct (String.eqb sid "") eqn:Hs; bprop.
  - subst. destruct (c_entries c !! "") as [e|] eqn:He; [|done].
    destruct (entry_group Hok "" e He) as (k & Hk & Hin). by destruct (ok_group c Hok k e Hk) as (_ & _ & Hem & _).
  - destruct (c_entries c !! sid) as [e|] eqn:He; [|done].
    destruct (before now (en_expiresAt e)) eqn:Hb; [done|]. bprop.
    by rewrite (proj2 (before_false _ _)) by lia.
Qed.

(** Two entries that answer alike. *)
Definition answers_alike (x y : option sessionEntry) : Prop :=
  option_map en_authID x = option_map en_authID y ∧ option_map en_expiresAt x = option_map en_expiresAt y.
Lemma answers_get c c' sid now now' :
  cache_ok c → cache_ok c' → now ≤ now' → answers_alike (c_entries c' !! sid) (c_entries c !! sid) →
  (Get c' sid now now').1 = (Get c sid now now').1.
Proof.
  intros Hok Hok' Hle [Ha He]. rewrite !get_answer by done.
  destruct (c_entries c' !! sid) as [x|], (c_entries c !! sid) as [y|]; cbn in *; try done.
  injection Ha as ->. by injection He as ->.
Qed.

Lemma removed_size c c1 k e :
  cache_ok c → c_groups c !! k = Some e → without (.= e) c c1 →
  (size (c_entries c1) + length (en_aliases e) = size (c_entries c))%nat.
Proof.
  intros Hok Hk Hw. destruct (ok_group c Hok k e Hk) as (_ & Hn & _).
  assert (Hd : dom (c_entries c) = dom (c_entries c1) ∪ list_to_set (C := gset string) (en_aliases e)).
  { apply set_eq. intros a. rewrite elem_of_union, elem_of_list_to_set, !elem_of_dom. split.
    - intros [x Hx]. destruct (decide (x = e)) as [->|Hne].
      + right. destruct (entry_group Hok a e Hx) as (k' & Hk' & Ha). done.
      + left. exists x. by apply (without_entries _ c c1 a x Hok Hw).
    - intros [[x Hx]|Ha]; [exists x; by apply (without_entries _ c c1 a x Hok Hw) in Hx as [? _]|].
      exists e. by apply (entries_of_alias Hok k). }
  rewrite <- !size_dom, Hd, size_union, size_list_to_set; [done|done|].
  intros a [x Hx]%elem_of_dom Ha%elem_of_list_to_set.
  apply (without_entries _ c c1 a x Hok Hw) in Hx as [Hx Hne].
  rewrite (entries_of_alias Hok k e a Hk Ha) in Hx. congruence.
Qed.

Lemma filter_sublist (f : string → bool) l : List.filter f l `sublist_of` l.
Proof. induction l as [|x l IH]; cbn; [done|]. by destruct (f x); constructor. Qed.

(** With room for the new aliases, a replacement touches the old groups only. *)
Lemma replaced_lookup c e previous r a :
  cache_ok c → replaced c e previous r →
  Z.of_nat (size (c_entries c)) + Z.of_nat (length (en_aliases e)) ≤ c_maxEntries c →
  c_entries r !! a = if bool_decide (a ∈ en_aliases e) then Some e
                     else x ← c_entries c !! a; if bool_decide (x ∈ previous) then None else Some x.
Proof.
  intros Hok Hr Hroom. pose proof (rd_ok _ _ _ _ Hr) as Hokr.
  destruct (rd_new _ _ _ _ Hr) as (k & Hk & Hgk); [lia|]. case_bool_decide as Ha.
  { by apply (entries_of_alias Hokr k). }
  apply option_eq. intros x. rewrite bind_Some. split.
  - intros Hx. destruct (entry_group Hokr a x Hx) as (k' & Hk' & Hax).
    destruct (rd_groups _ _ _ _ Hr k' x Hk') as [[Hc Hn]|[_ ->]]; [|done]. exists x.
    split; [by apply (entries_of_alias Hok k')|]. by rewrite bool_decide_false.
  - intros (y & Hy & Hxy). case_bool_decide as Hn; [done|]. injection Hxy as <-.
    destruct (entry_group Hok a y Hy) as (k' & Hk' & Hay).
    apply (entries_of_alias Hokr k'); [|done]. by apply (rd_room _ _ _ _ Hr).
Qed.

Lemma leave_surviving sid e a :
  a ∈ List.filter (λ alias, negb (String.eqb alias sid)) (en_aliases e) ↔ a ∈ en_aliases e ∧ a ≠ sid.
Proof. by rewrite !list_elem_of_In, filter_In, negb_true_iff, String.eqb_neq. Qed.

Lemma replaced_sized c e previous r : cache_sized c → replaced c e previous r → cache_sized r.
Proof.
  intros (_ & Hm & Ht & Hb) Hr. destruct (rd_params _ _ _ _ Hr) as (Hmr & Htr & Hbr). unfold cache_sized.
  rewrite Hmr, Htr, Hbr. split_and!; [by apply (rd_bound _ _ _ _ Hr)|done..].
Qed.

Lemma removed_lookup c c1 e a :
  cache_ok c → without (.= e) c c1 →
  c_entries c1 !! a = x ← c_entries c !! a; if decide (x = e) then None else Some x.
Proof.
  intros Hok Hw. apply option_eq. intros x. rewrite (without_entries _ c c1 a x Hok Hw), bind_Some. split.
  - intros [Hx Hne]. exists x. by rewrite decide_False.
  - intros (y & Hy & Hxy). by case_decide; simplify_eq.
Qed.

(** Who remains of the group is bound as before. *)
Lemma leave_answers c c1 r e sid surviving a :
  cache_ok c → cache_ok c1 → without (.= e) c c1 →
  (∀ a, a ∈ surviving ↔ c_entries c !! a = Some e ∧ a ≠ sid) →
  Z.of_nat (size (c_entries c1)) + Z.of_nat (length surviving) ≤ c_maxEntries c1 →
  replaced c1 {| en_authID := en_authID e; en_expiresAt := en_expiresAt e; en_aliases := surviving;
                 en_binding := en_binding e |} [] r →
  a ≠ sid → answers_alike (c_entries r !! a) (c_entries c !! a).
Proof.
  intros Hok Hok1 Hw Hs Hroom Hr Ha. rewrite (replaced_lookup c1 _ _ r a Hok1 Hr Hroom). cbn [en_aliases].
  case_bool_decide as Hin.
  - apply Hs in Hin as [-> _]. by split.
  - rewrite (removed_lookup c c1 e a Hok Hw). destruct (c_entries c !! a) as [x|] eqn:Hx; cbn; [|by split].
    case_decide as Hd; [|by split]. subst x. exfalso. by apply Hin, Hs.
Qed.

(** What one operation keeps. *)
Definition step_ok (c c' : cache) : Prop :=
  cache_ok c' ∧ cache_sized c' ∧ c_bindingSequence c ≤ c_bindingSequence c' ≤ c_bindingSequence c + 1
  ∧ c_maxEntries c' = c_maxEntries c ∧ c_ttl c' = c_ttl c.

Lemma leave_group_spec c sid e :
  cache_ok c → cache_sized c → c_entries c !! sid = Some e →
  let r := leave_group c sid e in
  step_ok c r
  ∧ c_entries r !! sid = None ∧ ∀ a, a ≠ sid → answers_alike (c_entries r !! a) (c_entries c !! a).
Proof.
  intros Hok Hsz He. destruct (entry_group Hok sid e He) as (k & Hk & Hsid). unfold leave_group.
  destruct (remove_group_spec c Hok k e Hk) as [Hw _]. pose proof (removed_size c _ k e Hok Hk Hw) as Hsize.
  set (c1 := removeAliasGroupLocked c e) in *.
  pose proof Hw as (Hok1 & _ & _ & Hm1 & Ht1 & Hb1). pose proof (without_sized _ c c1 Hok Hw Hsz) as Hsz1.
  set (surviving := List.filter (λ alias, negb (String.eqb alias sid)) (en_aliases e)).
  assert (Hsur : ∀ a, a ∈ surviving ↔ c_entries c !! a = Some e ∧ a ≠ sid).
  { intros a. unfold surviving. rewrite leave_surviving. split; intros [Hx Hne]; (split; [|done]).
    - by apply (entries_of_alias Hok k).
    - by destruct (entry_group Hok a e Hx) as (k' & Hk' & Ha). }
  destruct (decide (surviving = [])) as [Hnil|Hne].
  { rewrite Hnil. split; [split_and!; [done..|lia|lia|done|done]|]. split.
    - rewrite (removed_lookup c c1 e sid Hok Hw), He. cbn. by rewrite decide_True.
    - intros a Ha. rewrite (removed_lookup c c1 e a Hok Hw).
      destruct (c_entries c !! a) as [x|] eqn:Hx; [cbn|done]. case_decide; [subst x|done].
      assert (a ∈ surviving) as Hin by (by apply Hsur). rewrite Hnil in Hin. set_solver. }
  pose proof (replace_spec c1 (en_authID e) (en_expiresAt e) surviving (en_binding e) [] Hok1 Hne
    (leave_replaceable c c1 k e surviving Hok Hk Hw (filter_sublist _ _))) as Hr.
  assert (Hroom : Z.of_nat (size (c_entries c1)) + Z.of_nat (length surviving) ≤ c_maxEntries c1).
  { pose proof (filter_length_le (λ alias, negb (String.eqb alias sid)) (en_aliases e)). fold surviving in H.
    rewrite Hm1. destruct Hsz as [Hsz _]. lia. }
  destruct surviving as [|k2 l2] eqn:Hs; [done|]. rewrite <- Hs in *. split_and!.
  - pose proof (rd_params _ _ _ _ Hr) as (H1 & H2 & H3).
    split_and!; [apply Hr|by eapply replaced_sized|lia|lia|congruence..].
  - rewrite (replaced_lookup c1 _ _ _ sid Hok1 Hr Hroom). cbn [en_aliases].
    rewrite bool_decide_false by (intros [_ Habs]%Hsur; done).
    rewrite (removed_lookup c c1 e sid Hok Hw), He. cbn. by rewrite decide_True.
  - intros a Ha. by eapply leave_answers.
Qed.

(** ** Binding identifiers *)

(** While the identifiers are looked up: [rest] are those still to come. *)
Record gathered (now : time) (c : cache) (rest : list string) (c' : cache) (aliases : list string)
    (previous : list sessionEntry) : Prop := {
  ga_without : ∃ P, without P c c' ∧ ∀ e, P e → before now (en_expiresAt e) = false;
  ga_nodup : NoDup aliases;
  ga_named : "" ∉ aliases;
  ga_previous : ∀ e, e ∈ previous → before now (en_expiresAt e) = true ∧ ∃ k, c_groups c' !! k = Some e;
  ga_covered : ∀ a e, a ∈ aliases → c_entries c' !! a = Some e → e ∈ previous ∨ a ∈ rest;
}.

Lemma gather_step_spec now c sid rest c' aliases previous :
  gathered now c (sid :: rest) c' aliases previous →
  let '(c'', aliases', previous') := gather_step now (c', aliases, previous) sid in
  gathered now c rest c'' aliases' previous'.
Proof.
  intros [(P & Hw & HP) Hn Hem Hp Hcov]. unfold gather_step. pose proof Hw as (Hok & _).
  destruct (c_entries c' !! sid) as [e|] eqn:He; [destruct (before now (en_expiresAt e)) eqn:Hb|].
  - destruct (merge_spec aliases (en_aliases e)) as (Hmn & Hme & Hm).
    destruct (entry_group Hok sid e He) as (k & Hk & Hsid). constructor; [by exists P|done|done| |].
    + intros x [Hx| ->%list_elem_of_singleton]%elem_of_app; [by apply Hp|]. by split; [|exists k].
    + intros a x [_ [Ha|Ha]]%Hm Hx; rewrite elem_of_app, list_elem_of_singleton.
      * destruct (Hcov a x Ha Hx) as [|[->|]%elem_of_cons]; [by left; left| |by right].
        left. right. congruence.
      * rewrite (entries_of_alias Hok k e a Hk Ha) in Hx. left. right. congruence.
  - destruct (entry_group Hok sid e He) as (k & Hk & Hsid).
    destruct (remove_group_spec c' Hok k e Hk) as [Hw' _]. constructor; [|done|done| |].
    + exists (λ x, P x ∨ x = e). split; [by eapply without_trans|]. intros x [| ->]; auto.
    + intros x Hx. destruct (Hp x Hx) as [Hxb [kx Hkx]]. split; [done|]. exists kx. apply Hw'.
      split; [done|]. intros ->. congruence.
    + intros a x Ha Hx. apply (without_entries _ _ _ a x Hok Hw') in Hx as [Hx Hne].
      destruct (Hcov a x Ha Hx) as [|[->|]%elem_of_cons]; [by left|congruence|by right].
  - constructor; [by exists P|done|done|done|]. intros a x Ha Hx.
    destruct (Hcov a x Ha Hx) as [|[->|]%elem_of_cons]; [by left|congruence|by right].
Qed.

Lemma gather_spec now c rest c' aliases previous :
  gathered now c rest c' aliases previous →
  let '(c'', aliases', previous') := foldl (gather_step now) (c', aliases, previous) rest in
  gathered now c [] c'' aliases' previous'.
Proof.
  revert c' aliases previous. induction rest as [|sid rest IH]; intros c' aliases previous Hg; cbn [foldl]; [done|].
  apply gather_step_spec in Hg. destruct (gather_step now (c', aliases, previous) sid) as [[c2 a2] p2]. by apply IH.
Qed.

Lemma gather_start now c sids : cache_ok c → gathered now c sids c (mergeSessionAliases [] sids) [].
Proof.
  intros Hok. destruct (merge_spec [] sids) as (Hn & He & Hm). constructor; [|done|done|set_solver|].
  - exists (λ _, False). split; [|done]. by apply without_refl; [|naive_solver].
  - intros a e Ha _. right. apply Hm in Ha as [_ [?%elem_of_nil|]]; done.
Qed.

(** The first identifier stays first. *)
Lemma gather_head now sid sids c aliases previous :
  sid ≠ "" → (∃ l, aliases = sid :: l) →
  ∃ l, (foldl (gather_step now) (c, aliases, previous) sids).1.2 = sid :: l.
Proof.
  intros Hne. revert c aliases previous. induction sids as [|x sids IH]; intros c aliases previous [l ->]; cbn [foldl];
    [by exists l|].
  unfold gather_step at 2. destruct (c_entries c !! x) as [e|]; [|apply IH; by exists l].
  destruct (before now (en_expiresAt e)); apply IH; [|by exists l].
  unfold mergeSessionAliases. rewrite <- foldl_app. destruct (merge_head sid (l ++ en_aliases e) Hne) as [k Hk].
  exists k. exact Hk.
Qed.

Lemma latest_binding_spec b previous :
  latest_binding b previous = b ∨ ∃ e, e ∈ previous ∧ latest_binding b previous = en_binding e.
Proof.
  unfold latest_binding. revert b. induction previous as [|e l IH]; intros b; cbn [foldl]; [by left|].
  destruct (_ <? _).
  - right. destruct (IH (en_binding e)) as [->|(x & Hx & ->)]; [exists e|exists x]; set_solver.
  - destruct (IH b) as [->|(x & Hx & ->)]; [by left|]. right. exists x. set_solver.
Qed.

Lemma raise_sequence_ok c s :
  cache_ok c → c_bindingSequence c ≤ s → cache_ok (c <| c_bindingSequence := s |>).
Proof.
  intros [] Hs. constructor; cbn; try done. intros k e Hk.
  pose proof (ok_sequence0 k e Hk). lia.
Qed.

Lemma select_spec c b previous :
  cache_ok c → 0 ≤ c_bindingSequence c → c_bindingSequence c + 1 < 2 ^ 64 → b_sequence b = 0 →
  (∀ e, e ∈ previous → ∃ k, c_groups c !! k = Some e) →
  let '(c2, b2) := select_binding c b previous in
  cache_ok c2 ∧ c_entries c2 = c_entries c ∧ c_groups c2 = c_groups c ∧ c_maxEntries c2 = c_maxEntries c
  ∧ c_ttl c2 = c_ttl c ∧ c_bindingSequence c ≤ c_bindingSequence c2 ≤ c_bindingSequence c + 1
  ∧ 0 ≤ b_sequence b2 ≤ c_bindingSequence c2
  ∧ ∀ k e, c_groups c !! k = Some e → b_sequence (en_binding e) = b_sequence b2 → b_sequence b2 ≠ 0 → e ∈ previous.
Proof.
  intros Hok H0 H1 Hb Hp. unfold select_binding. destruct (_ && _).
  - assert (Hw : wrapu64 (c_bindingSequence c + 1) = c_bindingSequence c + 1) by (unfold wrapu64; apply Z.mod_small; lia).
    rewrite Hw. cbn. split_and!; try done; try lia; [apply raise_sequence_ok; [done|lia]|].
    intros k e Hk Heq _. pose proof (ok_sequence c Hok k e Hk). lia.
  - split_and!; try done; try lia.
    + destruct (latest_binding_spec b previous) as [->|(e & He & ->)]; [lia|].
      destruct (Hp e He) as [k Hk]. pose proof (ok_sequence c Hok k e Hk). lia.
    + destruct (latest_binding_spec b previous) as [->|(e & He & ->)]; [lia|].
      destruct (Hp e He) as [k Hk]. pose proof (ok_sequence c Hok k e Hk). lia.
    + intros k e Hk Heq Hnz. destruct (latest_binding_spec b previous) as [Hl|(x & Hx & Hl)]; rewrite Hl in *; [done|].
      destruct (Hp x Hx) as [kx Hkx]. assert (k = kx) as -> by (eapply (ok_distinct c Hok); [done..|congruence]).
      congruence.
Qed.

(** Binding identifiers: nothing, or the replacement of their groups by one. *)
Record bound (now : time) (c : cache) (authID : string) (sids : list string) (r : cache) (c2 : cache)
    (e : sessionEntry) (previous : list sessionEntry) : Prop := {
  bd_before : ∃ c1 P, without P c c1 ∧ (∀ x, P x → before now (en_expiresAt x) = false)
      ∧ c_entries c2 = c_entries c1 ∧ c_groups c2 = c_groups c1;
  bd_ok : cache_ok c2;
  bd_params : c_maxEntries c2 = c_maxEntries c ∧ c_ttl c2 = c_ttl c
      ∧ c_bindingSequence c ≤ c_bindingSequence c2 ≤ c_bindingSequence c + 1;
  bd_entry : en_authID e = authID ∧ en_expiresAt e = now + c_ttl c
      ∧ Z.of_nat (length (en_aliases e)) ≤ maxStableSessionAliases + 1;
  bd_head : ∀ sid rest, sids = sid :: rest → sid ≠ "" → ∃ l, en_aliases e = sid :: l;
  bd_replaced : replaced c2 e previous r;
}.

Lemma setAliases_spec c authID b sids now :
  cache_ok c → 0 ≤ c_bindingSequence c → c_bindingSequence c + 1 < 2 ^ 64 → b_sequence b = 0 → authID ≠ "" →
  let r := setAliases c authID b sids now in
  (∃ P, without P c r) ∧ (∀ sid, head sids = Some sid → sid = "")
  ∨ ∃ c2 e previous, bound now c authID sids r c2 e previous.
Proof.
  intros Hok H0 H1 Hb Ha. unfold setAliases. rewrite (proj2 (String.eqb_neq _ _) Ha).
  pose proof (gather_spec now c sids c _ [] (gather_start now c sids Hok)) as Hg.
  assert (Hhd : ∀ sid rest, sids = sid :: rest → sid ≠ "" →
    ∃ l, (foldl (gather_step now) (c, mergeSessionAliases [] sids, []) sids).1.2 = sid :: l).
  { intros sid rest -> Hne. apply gather_head; [done|]. by apply merge_nil_head. }
  destruct (foldl _ _ sids) as [[c1 aliases] previous]. cbn [fst snd] in Hhd.
  destruct Hg as [(P & Hw & HP) Hn Hem Hp Hcov]. pose proof Hw as (Hok1 & _ & _ & Hm1 & Ht1 & Hb1).
  destruct (compact_aliases aliases) as (Hc & Hcn & Hcl & Hch).
  destruct (compactSessionAliases aliases) as [|k l] eqn:Hk.
  { left. split; [by exists P|]. destruct sids as [|sid rest]; cbn; [done|]. intros ? [= <-].
    destruct (decide (sid = "")) as [|Hne]; [done|]. destruct (Hhd _ _ eq_refl Hne) as [l ->].
    by destruct (Hch _ _ eq_refl). }
  right. pose proof (select_spec c1 b previous Hok1) as Hs. rewrite Hb1 in Hs.
  specialize (Hs H0 H1 Hb (λ e He, proj2 (Hp e He))). destruct (select_binding c1 b previous) as [c2 b2].
  destruct Hs as (Hok2 & He2 & Hg2 & Hm2 & Ht2 & Hb2 & Hseq & Hdist).
  exists c2. eexists. exists previous. constructor; cycle 5.
  - apply replace_spec; [done|done|]. constructor; [|done|by apply Hcn| |..].
    + intros e He. rewrite Hg2. apply Hp, He.
    + intros Habs%Hc. done.
    + intros a e Hin%Hc Hx. rewrite He2 in Hx. destruct (Hcov a e Hin Hx) as [|[]%elem_of_nil]; done.
    + done.
    + rewrite Hg2. exact Hdist.
  - exists c1, P. done.
  - done.
  - split_and!; [congruence|congruence|lia..].
  - cbn [en_authID en_expiresAt en_aliases]. rewrite Ht2, Ht1. done.
  - cbn [en_aliases]. intros sid rest Hsids Hne. destruct (Hhd sid rest Hsids Hne) as [l1 ->]. by apply (Hch sid l1).
Qed.

(** ** Every operation *)

Inductive session_op : Type :=
| op_Get (sessionID : string) (now now' : time)
| op_GetAndRefresh (sessionID : string) (now : time)
| op_SetAliases (authID : string) (sessionIDs : list string) (now : time)
| op_setSessionAliases (authID provider sessionID : string) (keys : list string) (now : time)
| op_Touch (sessionID expectedAuthID : string) (now : time)
| op_CompareAndDelete (sessionID expectedAuthID : string)
| op_Invalidate (sessionID : string)
| op_InvalidateAuth (authID : string)
| op_cleanup (now : time).

Definition session_exec (c : cache) (op : session_op) : cache :=
  match op with
  | op_Get sid now now' => (Get c sid now now').2
  | op_GetAndRefresh sid now => (GetAndRefresh c sid now).2
  | op_SetAliases authID sids now => SetAliases c authID sids now
  | op_setSessionAliases authID provider sid keys now => setSessionAliases c authID provider sid keys now
  | op_Touch sid authID now => (Touch c sid authID now).2
  | op_CompareAndDelete sid authID => (CompareAndDelete c sid authID).2
  | op_Invalidate sid => Invalidate c sid
  | op_InvalidateAuth authID => InvalidateAuth c authID
  | op_cleanup now => cleanup c now
  end.

Section steps.
Context (c : cache) (Hok : cache_ok c) (Hsz : cache_sized c).

Lemma step_same : step_ok c c.
Proof using Hok Hsz. split_and!; try done; lia. Qed.
Lemma step_without P c' : without P c c' → step_ok c c'.
Proof using Hok Hsz.
  intros Hw. pose proof (without_sized P c c' Hok Hw Hsz) as Hs. destruct Hw as (H1 & _ & _ & H4 & H5 & H6).
  split_and!; try done; lia.
Qed.
Lemma step_remove sid e : c_entries c !! sid = Some e → step_ok c (removeAliasGroupLocked c e).
Proof using Hok Hsz.
  intros He. destruct (entry_group Hok sid e He) as (k & Hk & _).
  eapply step_without, (remove_group_spec c Hok k e Hk).
Qed.
Lemma step_refresh sid e now : c_entries c !! sid = Some e → step_ok c (refresh_group c sid e now).
Proof using Hok Hsz.
  intros He. destruct (refresh_spec c sid e now Hok He) as (e' & _ & _ & _ & _ & _ & _ & Hr).
  pose proof (rd_params _ _ _ _ Hr) as (H1 & H2 & H3). split_and!; [apply Hr|by eapply replaced_sized|lia|lia|done..].
Qed.
Lemma step_set authID b sids now :
  c_bindingSequence c + 1 < 2 ^ 64 → b_sequence b = 0 → step_ok c (setAliases c authID b sids now).
Proof using Hok Hsz.
  intros H1 Hb. pose proof Hsz as (Hs1 & Hs2 & Hs3 & H0). destruct (decide (authID = "")) as [->|Ha]; [apply step_same|].
  destruct (setAliases_spec c authID b sids now Hok H0 H1 Hb Ha) as [[[P Hw] _]|(c2 & e & previous & Hbd)].
  { by eapply step_without. }
  destruct Hbd as [(c1 & P & Hw & _ & He2 & _) _ (Hm & Ht & Hq) _ _ Hr].
  pose proof (rd_params _ _ _ _ Hr) as (Hrm & Hrt & Hrb).
  assert (Hs : cache_sized c2).
  { unfold cache_sized. rewrite Hm, Ht, He2. pose proof (without_size P c c1 Hok Hw). split_and!; lia. }
  split_and!; [apply Hr|by eapply replaced_sized|lia|lia|congruence..].
Qed.
Lemma step_leave sid e : c_entries c !! sid = Some e → step_ok c (leave_group c sid e).
Proof using Hok Hsz. intros He. apply (leave_group_spec c sid e Hok Hsz He). Qed.

Lemma step_op op : c_bindingSequence c + 1 < 2 ^ 64 → step_ok c (session_exec c op).
Proof using Hok Hsz.
  intros Hseq. pose proof step_same as Hsame. pose proof step_remove as Hrem. pose proof step_refresh as Href.
  pose proof step_leave as Hlv. destruct op; cbn [session_exec].
  - unfold Get. destruct (Get_read _ _ _); [done|]. unfold Get_expire.
    destruct (c_entries c !! _) eqn:He; [|done]. destruct (before _ _); [done|by eapply Hrem].
  - unfold GetAndRefresh. destruct (String.eqb _ _); [done|]. destruct (c_entries c !! _) eqn:He; [|done].
    destruct (before _ _); [by apply Href|by eapply Hrem].
  - by apply step_set.
  - by apply step_set.
  - unfold Touch. destruct (_ || _); [done|]. destruct (c_entries c !! _) eqn:He; [|done].
    destruct (_ || _); [done|by apply Href].
  - unfold CompareAndDelete. destruct (_ || _); [done|]. destruct (c_entries c !! _) eqn:He; [|done].
    destruct (negb _); [done|by apply Hlv].
  - unfold Invalidate. destruct (String.eqb _ _); [done|]. destruct (c_entries c !! _) eqn:He; [by apply Hlv|done].
  - unfold InvalidateAuth. destruct (String.eqb _ _); [done|]. by eapply step_without, remove_groups_spec.
  - unfold cleanup. by eapply step_without, remove_groups_spec.
Qed.

End steps.

Lemma new_ok ttl maxEntries :
  cache_ok (NewSessionCacheWithCapacity ttl maxEntries) ∧ cache_sized (NewSessionCacheWithCapacity ttl maxEntries).
Proof.
  split.
  - constructor; cbn; try set_solver.
    + constructor.
    + intros k. by rewrite !lookup_empty.
  - unfold cache_sized, NewSessionCacheWithCapacity. cbn [c_entries c_maxEntries c_ttl c_bindingSequence].
    rewrite map_size_empty. unfold defaultMaxSessionEntries, minute, second.
    destruct (maxEntries <=? 0) eqn:E1, (ttl <=? 0) eqn:E2; bprop; lia.
Qed.

Lemma exec_ok ops c :
  cache_ok c → cache_sized c → c_bindingSequence c + Z.of_nat (length ops) < 2 ^ 64 →
  let r := foldl session_exec c ops in
  cache_ok r ∧ cache_sized r ∧ c_maxEntries r = c_maxEntries c ∧ c_ttl r = c_ttl c.
Proof.
  revert c. induction ops as [|op ops IH]; intros c Hok Hsz Hlen; cbv zeta; cbn [foldl]; [done|].
  cbn [length] in Hlen. destruct (step_op c Hok Hsz op) as (H1 & H2 & H3 & H4 & H5); [lia|].
  destruct (IH (session_exec c op)) as (K1 & K2 & K3 & K4); [done|done|lia|]. split_and!; congruence || done.
Qed.

(** ** The cache as a whole *)

(** C34 Whatever sequence of lookups, bindings, refreshes, removals and cleanups a
    cache goes through, its parts agree: every alias points at exactly one stored
    group that lists it, every group is stored under its first alias and listed once
    for eviction, the index of sessions holds exactly the selected groups, no two
    groups carry the same selection number, and there are never more aliases than the
    capacity. *)
Theorem session_cache_invariant (ttl : duration) (maxEntries : Z) (ops : list session_op)
    (Hlen : Z.of_nat (length ops) < 2 ^ 64) :
  let c0 := NewSessionCacheWithCapacity ttl maxEntries in
  let c := foldl session_exec c0 ops in
  cache_ok c ∧ Len c ≤ c_maxEntries c0 ∧ c_maxEntries c = c_maxEntries c0 ∧ c_ttl c = c_ttl c0
  ∧ 0 < c_maxEntries c0 ∧ 0 < c_ttl c0.
Proof.
  cbv zeta. destruct (new_ok ttl maxEntries) as [Hok Hsz].
  destruct (exec_ok ops _ Hok Hsz) as (H1 & H2 & H3 & H4); [exact Hlen|].
  destruct Hsz as (_ & Hm & Ht & _). unfold Len. rewrite <- H3 at 1. split_and!; [done|apply H2|done..].
Qed.

(** A run on a cache of three aliases: two conversations share a group, a third one
    pushes the oldest group out, and an identifier leaves. *)
Definition sample_ops : list session_op :=
  [op_SetAliases "auth-a" ["s1"; "s2"] 0; op_setSessionAliases "auth-b" "claude" "conv" ["s3"] 1;
   op_Touch "s2" "auth-a" 2; op_setSessionAliases "auth-c" "claude" "conv" ["s4"; "s5"] 3;
   op_Invalidate "s5"; op_cleanup 4].
Definition sample_cache : cache := foldl session_exec (NewSessionCacheWithCapacity 100 3) sample_ops.
Lemma session_cache_invariant_witness :
  cache_ok sample_cache ∧ map snd (c_evictionOrder sample_cache) = ["s4"].
Proof.
  split; [|vm_compute; reflexivity].
  apply (session_cache_invariant 100 3 sample_ops). vm_compute. reflexivity.
Defined.

(** The eviction loop ends: one round per listed group is enough whatever the
    cache holds, more rounds change nothing, and then the aliases are within the
    capacity.  The groups that remain are the newest ones, untouched. *)
Theorem eviction_terminates (c : cache) (rounds : nat) (Hok : cache_ok c) (Hmax : 0 ≤ c_maxEntries c)
    (Hr : (length (c_evictionOrder c) ≤ rounds)%nat) :
  let r := evictExcessLocked c in
  evictExcess rounds c = r ∧ Len r ≤ c_maxEntries c ∧ cache_ok r
  ∧ c_evictionOrder r `suffix_of` c_evictionOrder c
  ∧ ∀ k, c_groups r !! k = if bool_decide (k ∈ map snd (c_evictionOrder r)) then c_groups c !! k else None.
Proof.
  cbv zeta. rewrite (evict_enough rounds c Hok Hmax Hr). unfold evictExcessLocked.
  destruct (evict_spec (length (c_evictionOrder c)) c Hok (le_n _) Hmax) as (Hsz & Hsuf & P & Hw).
  fold (evictExcessLocked c) in *. pose proof Hw as (Hokr & Hg & _ & Hm & _). unfold Len. rewrite Hm in Hsz.
  split_and!; [done..|]. intros k. case_bool_decide as Hk.
  - assert (Hs : is_Some (c_groups (evictExcessLocked c) !! k)).
    { apply list_elem_of_fmap in Hk as ([h k'] & -> & Hin). apply (ok_listed _ Hokr). exists h.
      by apply (ok_elem _ Hokr). }
    destruct Hs as [e He]. rewrite He. symmetry. by apply Hg in He as [? _].
  - apply eq_None_not_Some. intros Hs%(ok_listed _ Hokr). destruct Hs as [h Hh]. apply Hk.
    apply list_elem_of_fmap. exists (h, k). split; [done|]. by apply (ok_elem _ Hokr).
Qed.

Lemma resize_ok c m : cache_ok c → cache_ok (c <| c_maxEntries := m |>).
Proof. by intros []; constructor. Qed.

Lemma eviction_terminates_witness :
  let c := foldl session_exec (NewSessionCacheWithCapacity 100 3)
             [op_SetAliases "auth-a" ["s1"; "s2"] 0; op_SetAliases "auth-b" ["s3"] 1] in
  let full := c <| c_maxEntries := 1 |> in
  Len full = 3 ∧ Len (evictExcessLocked full) ≤ 1.
Proof.
  intros c full. split; [vm_compute; reflexivity|].
  destruct (eviction_terminates full 2) as (_ & H & _); [| | |exact H].
  - apply resize_ok. apply (exec_ok _ _ (proj1 (new_ok 100 3)) (proj2 (new_ok 100 3))). vm_compute. reflexivity.
  - vm_compute. discriminate.
  - vm_compute. lia.
Defined.

Lemma set_answers (c : cache) (authID : string) (b : sessionBinding) (sid : string)
    (rest : list string) (now t t' : time) (Hok : cache_ok c) (Hsz : cache_sized c)
    (Hcap : maxStableSessionAliases + 1 ≤ c_maxEntries c) (Hseq : c_bindingSequence c + 1 < 2 ^ 64)
    (Hb : b_sequence b = 0) (Ha : authID ≠ "") (Hsid : sid ≠ "") (Ht : t ≤ t') :
  (Get (setAliases c authID b (sid :: rest) now) sid t t').1
  = if before t (now + c_ttl c) then Some authID else None.
Proof.
  pose proof Hsz as (_ & _ & _ & H0).
  destruct (setAliases_spec c authID b (sid :: rest) now Hok H0 Hseq Hb Ha) as [[_ Hno]|(c2 & e & previous & Hbd)].
  { by destruct Hsid; apply Hno. }
  destruct Hbd as [_ _ (Hm & _) (He1 & He2 & He3) Hhead Hr]. destruct (Hhead sid rest eq_refl Hsid) as [l Hl].
  destruct (rd_new _ _ _ _ Hr) as (k & Hk & Hg); [rewrite Hm; lia|]. pose proof (rd_ok _ _ _ _ Hr) as Hokr.
  rewrite get_answer by done. rewrite (entries_of_alias Hokr k e sid Hg) by (rewrite Hl; set_solver).
  by rewrite He1, He2.
Qed.

(** A conversation that is bound to a credential finds it again: from then on,
    the first identifier it was bound under answers with the credential until the time
    to live is over, and with nothing afterwards, even when the binding made the cache
    evict others.  [Get] may see the entry expire between its two looks. *)
Theorem binding_lasts_its_ttl (c : cache) (authID : string) (b : sessionBinding) (sid : string)
    (rest : list string) (now t t' : time) (Hok : cache_ok c) (Hsz : cache_sized c)
    (Hcap : maxStableSessionAliases + 1 ≤ c_maxEntries c) (Hseq : c_bindingSequence c + 1 < 2 ^ 64)
    (Hb : b_sequence b = 0) (Ha : authID ≠ "") (Hsid : sid ≠ "") (Ht : t ≤ t') :
  (Get (setAliases c authID b (sid :: rest) now) sid t t').1
  = if before t (now + c_ttl c) then Some authID else None.
Proof. by apply set_answers. Qed.

Lemma binding_lasts_its_ttl_witness :
  (Get (setAliases (NewSessionCacheWithCapacity 100 65) "auth-a" no_binding ["s1"; "s2"] 7) "s1" 106 107).1 = Some "auth-a".
Proof.
  apply (binding_lasts_its_ttl (NewSessionCacheWithCapacity 100 65) "auth-a" no_binding "s1" ["s2"] 7 106 107);
    try apply new_ok; vm_compute; done.
Defined.

Lemma remove_groups_lookup test c a :
  cache_ok c → c_entries (remove_groups test c) !! a = x ← c_entries c !! a; if test x then None else Some x.
Proof.
  intros Hok. apply option_eq. intros x.
  rewrite (without_entries _ c _ a x Hok (remove_groups_spec test c Hok)), bind_Some, not_true_iff_false. split.
  - intros [Hx Ht]. exists x. by rewrite Ht.
  - intros (y & Hy & Hxy). destruct (test y) eqn:Ht; [done|]. by injection Hxy as <-.
Qed.

Lemma CompareAndDelete_spec c sid authID a t t' :
  cache_ok c → cache_sized c → sid ≠ "" → authID ≠ "" → t ≤ t' →
  let deleted := CompareAndDelete c sid authID in
  (deleted.1 = true ↔ ∃ e, c_entries c !! sid = Some e ∧ en_authID e = authID)
  ∧ (Get deleted.2 a t t').1 = if deleted.1 && String.eqb a sid then None else (Get c a t t').1.
Proof.
  intros Hok Hsz Hs Ha Ht. cbv zeta. unfold CompareAndDelete.
  rewrite (proj2 (String.eqb_neq _ _) Hs), (proj2 (String.eqb_neq _ _) Ha). cbn [orb].
  destruct (c_entries c !! sid) as [e|] eqn:He; [destruct (String.eqb (en_authID e) authID) eqn:Hauth; bprop|].
  - cbn [negb fst snd andb]. split; [split; [by exists e|done]|].
    destruct (leave_group_spec c sid e Hok Hsz He) as ((Hokr & _) & Hgone & Hkept).
    destruct (String.eqb a sid) eqn:Has; bprop.
    + subst. by rewrite get_answer, Hgone.
    + by apply answers_get, Hkept.
  - cbn. split; [|done]. split; [done|]. intros (x & [= <-] & Hx). congruence.
  - cbn. split; [|done]. split; [done|]. by intros (x & Hx & _).
Qed.

(** Removals take exactly what they name.  [CompareAndDelete] succeeds exactly
    when the identifier is bound to the expected credential, and then forgets that
    identifier and no other alias of the conversation; [InvalidateAuth] forgets every
    identifier bound to the credential, and no other; [cleanup] changes no answer from
    the time it runs at on. *)
Theorem removals_exact (c : cache) (sid authID : string) (a : string) (now t t' : time)
    (Hok : cache_ok c) (Hsz : cache_sized c) (Hsid : sid ≠ "") (Ha : authID ≠ "") (Hn : now ≤ t) (Ht : t ≤ t') :
  let answer c := (Get c a t t').1 in
  let deleted := CompareAndDelete c sid authID in
  (deleted.1 = true ↔ ∃ e, c_entries c !! sid = Some e ∧ en_authID e = authID)
  ∧ answer deleted.2 = (if deleted.1 && String.eqb a sid then None else answer c)
  ∧ answer (InvalidateAuth c authID) = (x ← answer c; if String.eqb x authID then None else Some x)
  ∧ answer (cleanup c now) = answer c.
Proof.
  pose proof (CompareAndDelete_spec c sid authID a t t' Hok Hsz Hsid Ha Ht) as [Hd1 Hd2]. cbv zeta.
  assert (Hrem : ∀ test, (Get (remove_groups test c) a t t').1
    = match (x ← c_entries c !! a; if test x then None else Some x) with
      | Some e => if before t (en_expiresAt e) then Some (en_authID e) else None | None => None end).
  { intros test. rewrite get_answer, remove_groups_lookup; [done|done|apply (remove_groups_spec test c Hok)|done]. }
  split_and!; [exact Hd1|exact Hd2| |].
  - unfold InvalidateAuth. rewrite (proj2 (String.eqb_neq _ _) Ha), Hrem, get_answer by done.
    destruct (c_entries c !! a) as [x|]; cbn; [|done].
    destruct (before t _) eqn:Hb; cbn; destruct (String.eqb (en_authID x) authID); cbn; by rewrite ?Hb.
  - unfold cleanup. rewrite Hrem, get_answer by done.
    destruct (c_entries c !! a) as [x|]; cbn; [|done]. destruct (before now _) eqn:Hb; cbn; [done|].
    bprop. by rewrite (proj2 (before_false _ _)) by lia.
Qed.

Lemma removals_exact_witness :
  sample_cache.(c_maxEntries) = 3 ∧ (CompareAndDelete sample_cache "s4" "auth-c").1 = true
  ∧ (Get (CompareAndDelete sample_cache "s4" "auth-c").2 "s4" 5 6).1 = None.
Proof.
  assert (Hc : cache_ok sample_cache ∧ cache_sized sample_cache).
  { destruct (exec_ok sample_ops _ (proj1 (new_ok 100 3)) (proj2 (new_ok 100 3))) as (H1 & H2 & _);
      [vm_compute; reflexivity|done]. }
  destruct (removals_exact sample_cache "s4" "auth-c" "s4" 5 5 6) as (_ & H & _);
    [apply Hc|apply Hc|done|done|done|done|].
  split; [vm_compute; reflexivity|]. split; [vm_compute; reflexivity|].
  rewrite H. vm_compute. reflexivity.
Defined.

(** ** The latest selection *)

(** A group [latestSessionAuth] may answer with. *)
Definition selectable (sid : string) (providers : gset string) (now : time) (e : sessionEntry) : Prop :=
  b_sessionID (en_binding e) = sid ∧ b_sequence (en_binding e) ≠ 0 ∧ b_provider (en_binding e) ∈ providers
  ∧ before now (en_expiresAt e) = true.

Lemma latest_fold c providers now keys latest :
  let r := foldl (latest_step c providers now) latest keys in
  let live e := b_provider (en_binding e) ∈ providers ∧ before now (en_expiresAt e) = true in
  (r = latest ∨ ∃ k, k ∈ keys ∧ r = default zero_entry (c_groups c !! k) ∧ live r
                     ∧ b_sequence (en_binding latest) < b_sequence (en_binding r))
  ∧ b_sequence (en_binding latest) ≤ b_sequence (en_binding r)
  ∧ ∀ k, k ∈ keys → live (default zero_entry (c_groups c !! k)) →
      b_sequence (en_binding (default zero_entry (c_groups c !! k))) ≤ b_sequence (en_binding r).
Proof.
  revert latest. induction keys as [|k keys IH]; intros latest; cbv zeta; cbn [foldl].
  { split_and!; [by left|lia|set_solver]. }
  set (e := default zero_entry (c_groups c !! k)).
  assert (Hstep : latest_step c providers now latest k = latest
      ∧ (b_provider (en_binding e) ∈ providers ∧ before now (en_expiresAt e) = true →
         b_sequence (en_binding e) ≤ b_sequence (en_binding latest))
    ∨ latest_step c providers now latest k = e ∧ b_provider (en_binding e) ∈ providers
      ∧ before now (en_expiresAt e) = true ∧ b_sequence (en_binding latest) < b_sequence (en_binding e)).
  { unfold latest_step. fold e. destruct (bool_decide _ || negb _) eqn:Hl.
    - left. split; [done|]. intros [Hp Hb]. rewrite Hb, orb_false_r, bool_decide_eq_true in Hl. done.
    - bprop. apply dec_stable in H. destruct (_ <? _) eqn:Hs; bprop; [right; split_and!; bprop; done|left; by split]. }
  specialize (IH (latest_step c providers now latest k)). cbv zeta in IH.
  destruct IH as (IH1 & IH2 & IH3). destruct Hstep as [[Hs Hle]|(Hs & Hp & Hb & Hlt)]; rewrite Hs in *.
  - split_and!; [|done|].
    + destruct IH1 as [|(k' & Hk' & H)]; [by left|]. right. exists k'. split; [by right|done].
    + intros k' [->|Hk']%elem_of_cons Hl; [|by apply IH3]. specialize (Hle Hl). fold e. lia.
  - split_and!; [|lia|].
    + right. destruct IH1 as [->|(k' & Hk' & H1 & H2 & H3)]; [exists k; split_and!; [by left|done..]|].
      exists k'. split_and!; [by right|apply H1|apply H2|apply H2|lia].
    + intros k' [->|Hk']%elem_of_cons Hl; [exact IH2|by apply IH3].
Qed.

(** The latest selection of a conversation: the answer is the credential of the
    live group of that conversation, on one of the providers asked for, that was
    selected last, and there is one such group only; without such a group the answer
    is empty. *)
Theorem latestSessionAuth_spec (c : cache) (sid : string) (providers : gset string) (now : time)
    (Hok : cache_ok c) (Hsid : sid ≠ "") :
  let r := latestSessionAuth c sid providers now in
  (r = "" ∧ ∀ k e, c_groups c !! k = Some e → ¬ selectable sid providers now e)
  ∨ ∃ k e, c_groups c !! k = Some e ∧ selectable sid providers now e ∧ r = en_authID e
      ∧ ∀ k' e', c_groups c !! k' = Some e' → selectable sid providers now e' → k' ≠ k →
          b_sequence (en_binding e') < b_sequence (en_binding e).
Proof.
  cbv zeta. unfold latestSessionAuth. rewrite (proj2 (String.eqb_neq _ _) Hsid). cbn [orb]. case_bool_decide as Hp.
  { left. split; [done|]. intros k e _ (_ & _ & Hin & _). set_solver. }
  set (keys := elements (default ∅ (c_sessionGroups c !! sid))).
  assert (Hkeys : ∀ k, k ∈ keys ↔ ∃ e, c_groups c !! k = Some e ∧ b_sequence (en_binding e) ≠ 0
                                        ∧ b_sessionID (en_binding e) = sid).
  { intros k. unfold keys. rewrite elem_of_elements. apply (ok_session c Hok). }
  destruct (latest_fold c providers now keys zero_entry) as (H1 & _ & H3). cbv zeta in *.
  destruct H1 as [Hz|(k & Hk & Hr & [Hlp Hlb] & Hlt)].
  - left. rewrite Hz in *. split; [done|]. intros k e Hk (Hs & Hnz & Hin & Hb).
    specialize (H3 k). rewrite Hk in H3. cbn in H3. pose proof (ok_sequence c Hok k e Hk).
    enough (b_sequence (en_binding e) ≤ 0) by lia. apply H3; [apply Hkeys; by exists e|done].
  - right. destruct (proj1 (Hkeys k) Hk) as (e & He & Hnz & Hs). rewrite He in Hr. cbn in Hr.
    rewrite Hr in *. exists k, e. split_and!; [done..|]. intros k' e' Hk' (Hs' & Hnz' & Hin' & Hb') Hne.
    assert (Hle : b_sequence (en_binding e') ≤ b_sequence (en_binding e)).
    { specialize (H3 k'). rewrite Hk' in H3. apply H3; [apply Hkeys; by exists e'|done]. }
    enough (b_sequence (en_binding e') ≠ b_sequence (en_binding e)) by lia.
    intros Heq. apply Hne. by apply (ok_distinct c Hok k' k e' e).
Qed.

Lemma latestSessionAuth_witness :
  let r := latestSessionAuth sample_cache "conv" {[ "claude" ]} 50 in
  r = "auth-c" ∧ ∃ k e, c_groups sample_cache !! k = Some e ∧ r = en_authID e.
Proof.
  cbv zeta. split; [vm_compute; reflexivity|].
  destruct (latestSessionAuth_spec sample_cache "conv" {[ "claude" ]} 50) as [[H _]|(k & e & Hk & _ & Hr & _)].
  - destruct (exec_ok sample_ops _ (proj1 (new_ok 100 3)) (proj2 (new_ok 100 3))) as (H1 & _);
      [vm_compute; reflexivity|done].
  - discriminate.
  - vm_compute in H. discriminate.
  - exists k, e. split; [exact Hk|exact Hr].
Defined.

End SessionBindings.
