(* ===== verification/LcpKeys.v ===== *)
(** * Fingerprints of a conversation and their rolling keys: sdk/cliproxy/session/lcp.go

    A turn is hashed as a sequence of length-prefixed fields; the prefixes of a
    conversation are named by a chain of hashes.  Nothing here depends on which hash it
    is: [Sha256] is any function of the bytes.  The reading of turns out of JSON and the
    masking of their text are not modelled: turns come here normalised. *)
From stdpp Require Import pretty.
From S2P Require Import Prelude GoLib.
#[local] Open Scope Z_scope.

(** [sha256.Sum256] and [hash.Sum], as bytes. *)
Class Sha256 : Type := sha256 : string → string.

Module LcpKeys.

Definition canonicalTurnVersion : string := "cpa-session-turn-v1".
Definition largePartThreshold : Z := 16 * 1024.
Definition sparseFingerprintBytes : Z := 12 * 1024.
Definition defaultMatcherMaxTurns : Z := 1024.
Definition defaultMatcherMaxGroups : Z := 4096.
Definition defaultMatcherMaxPrefixes : Z := 262144.
Definition maxCanonicalTurns : nat := 4096.
Definition maxCanonicalPartsPerTurn : Z := 256.
Definition minCompactionOverlapTurns : nat := 2.
Definition maxCompactionProbeWindow : nat := 32.
Definition maxTailsPerKey : nat := 16.

Record CanonicalPart : Type := {
  cp_Kind : string;
  cp_MIME : string;
  cp_Value : string;
  cp_Digest : string;
  cp_OriginalSize : Z;
  cp_Sampled : bool;
}.
Record CanonicalTurn : Type := {
  ct_Role : string;
  ct_Parts : list CanonicalPart;
}.
#[global] Instance CanonicalPart_eta : Eta CanonicalPart := fun p =>
  {| cp_Kind := cp_Kind p; cp_MIME := cp_MIME p; cp_Value := cp_Value p; cp_Digest := cp_Digest p;
     cp_OriginalSize := cp_OriginalSize p; cp_Sampled := cp_Sampled p |}.
#[global] Instance CanonicalPart_eq_dec : EqDecision CanonicalPart.
Proof. solve_decision. Defined.

(** [strconv.Itoa] and the length of a string. *)
Definition itoa (n : Z) : string := pretty n.
Definition strlen (s : string) : Z := Z.of_nat (String.length s).
Definition nul : string := String (Ascii.ascii_of_N 0) "".

(** ** The bytes of a turn *)

Definition substring_from (s : string) (start n : Z) : string := String.substring (Z.to_nat start) (Z.to_nat n) s.
Definition sparseSample (value : string) (limit : Z) : string :=
  if (limit <=? 0) || (strlen value <=? limit) then value
  else
    let head := limit / 3 in
    let middle := limit / 3 in
    let tail := limit - head - middle in
    let middleStart := (strlen value - middle) / 2 in
    substring_from value 0 head +:+ substring_from value middleStart middle
      +:+ substring_from value (strlen value - tail) tail.
Definition writeFingerprintField (value : string) : string := itoa (strlen value) +:+ ":" +:+ value +:+ nul.
Definition sampled_value (part : CanonicalPart) : string :=
  if negb (cp_Sampled part) && ((largePartThreshold <? cp_OriginalSize part) || (largePartThreshold <? strlen (cp_Value part)))
  then sparseSample (cp_Value part) sparseFingerprintBytes else cp_Value part.
Definition part_fields (role : string) (part : CanonicalPart) : list string :=
  [cp_Kind part; cp_MIME part; itoa (cp_OriginalSize part)]
  ++ (if negb (String.eqb role "system") || negb (cp_Sampled part) then [cp_Digest part] else [])
  ++ [sampled_value part].
Definition turn_fields (turn : CanonicalTurn) : list string :=
  canonicalTurnVersion :: ct_Role turn :: concat (map (part_fields (ct_Role turn)) (ct_Parts turn)).
Definition write_fields (fields : list string) : string := String.concat "" (map writeFingerprintField fields).

Definition canonicalRole (role : string) : string :=
  let r := to_lower (trim_space role) in
  if String.eqb r "system" || String.eqb r "developer" then "system"
  else if String.eqb r "assistant" || String.eqb r "model" || String.eqb r "ai" then "assistant"
  else if String.eqb r "tool" || String.eqb r "function" then "tool"
  else if String.eqb r "user" then "user"
  else r.

(** [hex.EncodeToString]. *)
Definition hex_digit (n : N) : Ascii.ascii := Ascii.ascii_of_N (if (n <? 10)%N then 48 + n else 87 + n).
Fixpoint hex (s : string) : string :=
  match s with
  | EmptyString => EmptyString
  | String c rest => let n := Ascii.N_of_ascii c in String (hex_digit (n / 16)) (String (hex_digit (n mod 16)) (hex rest))
  end.

Section Keys.
Context `{H : Sha256}.

(** Of a normalised turn. *)
Definition FastTurnFingerprint (turn : CanonicalTurn) : string := hex (sha256 (write_fields (turn_fields turn))).
Definition EnvironmentDigest (turns : list CanonicalTurn) : string :=
  let system := List.filter (fun turn => String.eqb (canonicalRole (ct_Role turn)) "system") turns in
  if bool_decide (system = []) then "" else hex (sha256 (write_fields (map FastTurnFingerprint system))).
(** [fallbackEnvironmentDigest] and [environmentDigest] are the same function. *)
Definition environmentDigest (fingerprints : list string) (minPrefixLength : Z) : string :=
  if (minPrefixLength <=? 1) || bool_decide (fingerprints = []) then ""
  else hex (sha256 (write_fields (take (Z.to_nat (minPrefixLength - 1)) fingerprints))).
(** The last turns. *)
Definition last_window {A} (l : list A) : list A :=
  if (maxCompactionProbeWindow <? length l)%nat then drop (length l - maxCompactionProbeWindow) l else l.
Definition tailFingerprints (turns : list CanonicalTurn) : list string := map FastTurnFingerprint (last_window turns).
Definition extractTailFingerprints (fingerprints : list string) : list string := last_window fingerprints.
Definition turn_fingerprints (turns : list CanonicalTurn) : list string :=
  map FastTurnFingerprint (take maxCanonicalTurns turns).
Fixpoint first_user (index : Z) (turns : list CanonicalTurn) : Z :=
  match turns with
  | [] => 0
  | turn :: rest => if negb (String.eqb (canonicalRole (ct_Role turn)) "system") then index + 1 else first_user (index + 1) rest
  end.
Definition minimumAffinityPrefixLength (turns : list CanonicalTurn) : Z := first_user 0 turns.
Definition PrepareExt (turns : list CanonicalTurn) : list string * Z * list string * string :=
  (turn_fingerprints turns, minimumAffinityPrefixLength turns, tailFingerprints turns, EnvironmentDigest turns).

(** ** Rolling keys *)

Fixpoint zeros (n : nat) : string := match n with O => "" | S n => String (Ascii.ascii_of_N 0) (zeros n) end.
Fixpoint rolling (index : Z) (previous : string) (fingerprints : list string) : list string :=
  match fingerprints with
  | [] => []
  | fingerprint :: rest =>
      let previous := sha256 (previous +:+ nul +:+ fingerprint) in
      (itoa (index + 1) +:+ ":" +:+ hex previous) :: rolling (index + 1) previous rest
  end.
Definition rollingPrefixKeys (fingerprints : list string) : list string := rolling 0 (zeros 32) fingerprints.
Definition sequenceKey (fingerprints : list string) : string := default "" (last (rollingPrefixKeys fingerprints)).
Definition newLCPSessionID (namespace firstPrefix : string) : string :=
  "lcp:v1:" +:+ hex (sha256 ("cli-proxy-api:lcp-session:v1" +:+ nul +:+ namespace +:+ nul +:+ firstPrefix)).
Definition newLCPCompactionSessionID (namespace parentSessionID seqKey : string) : string :=
  "lcp:v1:" +:+ hex (sha256 ("cli-proxy-api:lcp-compaction-session:v1" +:+ nul +:+ namespace +:+ nul +:+ parentSessionID +:+ nul +:+ seqKey)).

(** ** Facts *)

Lemma rolling_length i p fps : length (rolling i p fps) = length fps.
Proof. revert i p. induction fps as [|f fps IH]; intros i p; [done|]. cbn. by rewrite IH. Qed.
Lemma rolling_take i p fps n : take n (rolling i p fps) = rolling i p (take n fps).
Proof. revert i p n. induction fps as [|f fps IH]; intros i p [|n]; [done..|]. cbn. by rewrite IH. Qed.
Lemma rolling_keys_length fps : length (rollingPrefixKeys fps) = length fps.
Proof. apply rolling_length. Qed.
Lemma rolling_keys_take fps n : take n (rollingPrefixKeys fps) = rollingPrefixKeys (take n fps).
Proof. apply rolling_take. Qed.
(** Equal prefixes have equal keys. *)
Lemma rolling_keys_lookup a b n i : take n a = take n b → (i < n)%nat → rollingPrefixKeys a !! i = rollingPrefixKeys b !! i.
Proof.
  intros He Hi. rewrite <- (lookup_take_lt (rollingPrefixKeys a) n i Hi), <- (lookup_take_lt (rollingPrefixKeys b) n i Hi).
  by rewrite !rolling_keys_take, He.
Qed.

End Keys.

End LcpKeys.
