(* ===== verification/HomeConcurrency.v ===== *)
(** * What a Home says about concurrency: sdk/cliproxy/auth/home_concurrency.go

    The tuple under which a Home accounts an execution, its model key, the errors a Home
    answers with and the headers a client may see of them.  The reading of the JSON of a
    response is not modelled: its error object comes as a [error_field].  Lower case is
    that of ASCII letters. *)
From S2P Require Import Prelude GoLib Utf8 AuthTypes ExecRegistry LcpKeys.
Import AuthTypes ExecRegistry.

Module HomeConcurrency.

Definition maxHomeConcurrencyTupleFieldLength : Z := 256.

(** ** The key of a model *)

Fixpoint trim_ascii_left (s : string) : string :=
  match s with
  | String a r => if ascii_space a then trim_ascii_left r else s
  | EmptyString => s
  end.
(** [strings.Trim(s, asciiWhitespace)]. *)
Definition trim_ascii (s : string) : string := srev (trim_ascii_left (srev (trim_ascii_left s))).
Definition digit (c : Ascii.ascii) : bool := byte_in 48 57 c.
Fixpoint parse_suffix (parsed : Z) (value : string) : bool :=
  match value with
  | EmptyString => true
  | String c rest =>
      if digit c then
        let parsed := parsed * 10 + (Z.of_N (Ascii.N_of_ascii c) - 48) in
        if 2147483647 <? parsed then false else parse_suffix parsed rest
      else false
  end.
Definition recognizedHomeConcurrencySuffix (value : string) : bool :=
  if String.eqb value "-1" then true
  else if existsb (String.eqb (to_lower value)) ["none"; "auto"; "minimal"; "low"; "medium"; "high"; "xhigh"; "max"] then true
  else if String.eqb value "" || (10 <? LcpKeys.strlen value) then false
  else parse_suffix 0 value.
(** The text before the last parenthesis and the one after it. *)
Definition last_open (s : string) : option (string * string) := split_last (Ascii.ascii_of_N 40) s.
Definition canonicalHomeConcurrencyModelKey (model : string) : string :=
  if negb (utf8_valid model) then ""
  else
    let trimmed := to_lower (trim_ascii model) in
    if negb (has_suffix trimmed ")") then trimmed
    else match last_open trimmed with
         | None => trimmed
         | Some (pre, post) =>
             if negb (recognizedHomeConcurrencySuffix (drop_last post)) then trimmed
             else let base := trim_ascii pre in if String.eqb base "" then trimmed else base
         end.
Definition validCanonicalHomeConcurrencyModelKey (model : string) : string * bool :=
  let key := canonicalHomeConcurrencyModelKey model in
  (key, negb (String.eqb key "") && utf8_valid key && (LcpKeys.strlen key <=? maxHomeConcurrencyTupleFieldLength)).

(** ** The tuple *)

Record homeConcurrencyTuple : Type := { ct_Accounted : bool; ct_CredentialID : string; ct_Model : string }.
Definition validHomeConcurrencyTupleField (value : string) : bool :=
  negb (String.eqb value "") && utf8_valid value && String.eqb (trim_space value) value
  && (LcpKeys.strlen value <=? maxHomeConcurrencyTupleFieldLength).
(** [true] for a nil error, [false] for [ErrMalformedHomeConcurrencyTuple]. *)
Definition validateAccountedHomeConcurrencyTuple (tuple : homeConcurrencyTuple) : bool :=
  let '(model, validModel) := validCanonicalHomeConcurrencyModelKey (ct_Model tuple) in
  ct_Accounted tuple && validHomeConcurrencyTupleField (ct_CredentialID tuple) && validModel && String.eqb (ct_Model tuple) model.
Inductive install_error : Type :=
| Malformed
| NotInstalled (e : registry_error).
(** Of a registry and a pending dispatch that are there. *)
Definition installHomeConcurrencyScope (r : Registry) (pending : Z) (tuple : homeConcurrencyTuple) (base : ScopeSpec) :
    outcome install_error Z * Registry :=
  let install spec := match Install r pending spec with
                      | (Ok id, r) => (Ok id, r)
                      | (Err e, r) => (Err (NotInstalled e), r)
                      end in
  if negb (ct_Accounted tuple) then
    install {| RequestID := RequestID base; CredentialID := CredentialID base; ScopeModel := ScopeModel base; Kind := Kind base;
               StartedAt := StartedAt base; Accounted := false |}
  else if negb (validateAccountedHomeConcurrencyTuple tuple) then (Err Malformed, r)
  else
    install {| RequestID := RequestID base; CredentialID := ct_CredentialID tuple; ScopeModel := ct_Model tuple; Kind := Kind base;
               StartedAt := StartedAt base; Accounted := true |}.

(** ** Errors *)

Record homeErrorDetail : Type := {
  hd_Type : string;
  hd_Message : string;
  hd_Code : string;
  hd_Retryable : bool;
  hd_RetryAfterMS : Z;
  hd_RequestRetry : option Z;
}.
(** The error object of a response: none, one that is not readable, one that is. *)
Inductive error_field : Type :=
| NoErrorField
| BadErrorField
| ErrorField (d : homeErrorDetail).
(** [*Error], [*homeDispatchRetryAfterError], [*HomeConcurrencyBusyError]. *)
Inductive home_error : Type :=
| PlainHomeError (e : Error)
| HomeCooldown (e : Error) (retryAfter : duration) (requestRetry : option Z)
| HomeBusy (e : Error) (retryAfter : duration).
Definition auth_error (code message : string) (retryable : bool) (status : Z) : Error :=
  {| err_Code := code; err_Message := message; err_Retryable := retryable; err_HTTPStatus := status |}.
Definition NewHomeConcurrencyBusyError (message : string) (retryAfter : duration) : home_error :=
  let message := trim_space message in
  let message := if String.eqb message "" then "credential concurrency limit exceeded" else message in
  HomeBusy (auth_error "credential_concurrency_exceeded" message true 429) retryAfter.
(** The status of the other codes. *)
Definition home_status (code : string) : Z :=
  let one_of := existsb (String.eqb (to_lower code)) in
  if one_of ["model_not_found"] then 404
  else if one_of ["model_cooldown"] then 429
  else if one_of ["authentication_error"; "unauthorized"; "no_credentials"; "invalid_credential"] then 401
  else if one_of ["credential_concurrency_exceeded"; "credential_model_concurrency_exceeded"] then 429
  else if one_of ["user_credits_insufficient"] then 402
  else if one_of ["user_period_limit_exceeded"] then 429
  else if one_of ["auth_not_found"; "auth_unavailable"; "refresh_temporarily_unavailable"; "home_unavailable";
                  "concurrency_protocol_required"; "concurrency_tracker_unavailable"; "concurrency_node_unavailable"] then 503
  else 502.
Definition malformed_payload : home_error := PlainHomeError (auth_error "invalid_auth" "home returned malformed error payload" false 502).
Definition decodeHomeDispatchError (field : error_field) : option home_error :=
  match field with
  | NoErrorField => None
  | BadErrorField => Some malformed_payload
  | ErrorField d =>
      let code := trim_space (hd_Type d) in
      let code := if String.eqb code "" then trim_space (hd_Code d) else code in
      if String.eqb code "" then Some malformed_payload
      else
        let message := trim_space (hd_Message d) in
        let message := if String.eqb message "" then "home returned error" else message in
        let result := auth_error code message (hd_Retryable d) (home_status code) in
        let retryAfter := wrap64 (hd_RetryAfterMS d * millisecond) in
        let lower := to_lower code in
        Some (if String.eqb lower "model_cooldown" then
                HomeCooldown result (if 0 <? hd_RetryAfterMS d then retryAfter else 0)
                  (match hd_RequestRetry d with Some n => if 0 <=? n then Some n else None | None => None end)
              else if String.eqb lower "credential_concurrency_exceeded" || String.eqb lower "credential_model_concurrency_exceeded" then
                HomeBusy result retryAfter
              else PlainHomeError result)
  end.
Definition canonicalHomeDispatchModel (responseModel requestedModel : string) : string :=
  let model := trim_space responseModel in if String.eqb model "" then requestedModel else model.
Definition invalidHomeConcurrencyResponse (message : string) : Error := auth_error "invalid_home_concurrency" message false 502.
(** [None]: nil error. *)
Definition verifyAccountedHomeConcurrencyIdentity (tuple : homeConcurrencyTuple) (auth : option Auth) (authIndex : string) : option Error :=
  if negb (ct_Accounted tuple) then None
  else match auth with
       | Some auth =>
           if String.eqb (a_ID auth) (ct_CredentialID tuple) && String.eqb authIndex (ct_CredentialID tuple) then None
           else Some (invalidHomeConcurrencyResponse "Home concurrency identity does not match dispatched auth")
       | None => Some (invalidHomeConcurrencyResponse "Home concurrency identity does not match dispatched auth")
       end.
(** [RetryAfter] of both errors. *)
Definition home_retry_after (e : home_error) : option duration :=
  match e with
  | PlainHomeError _ => None
  | HomeCooldown _ d _ | HomeBusy _ d => if d <=? 0 then None else Some d
  end.
(** The value of the [Retry-After] header. *)
Definition safeRetryAfterHeader (retryAfter : duration) : option Z :=
  if retryAfter <=? 0 then None
  else
    let seconds := Z.quot retryAfter second in
    let seconds := if Z.rem retryAfter second =? 0 then seconds else seconds + 1 in
    Some (if seconds <? 1 then 1 else seconds).

(** ** Facts *)

(** The header asks for at least the wait and for less than a second more. *)
Lemma retry_header_covers d n : safeRetryAfterHeader d = Some n → 1 ≤ n ∧ d ≤ n * second < d + second.
Proof.
  unfold safeRetryAfterHeader. destruct (Z.leb_spec d 0); [done|]. pose proof (Z.quot_rem' d second) as Hq. pose proof (Z.rem_bound_pos d second ltac:(lia) ltac:(done)) as Hr.
  assert (second = 1000000000) as Es by done. rewrite Es in *. 
  destruct (Z.eqb_spec (Z.rem d 1000000000) 0); intros [= <-]; match goal with |- context [?x <? 1] => destruct (Z.ltb_spec x 1) end; lia.
Qed.
(** Only the last suffix is taken off: the key of a model may have a shorter key itself. *)
Lemma canonical_key_not_final : canonicalHomeConcurrencyModelKey "m(low)(high)" = "m(low)" ∧ canonicalHomeConcurrencyModelKey "m(low)" = "m".
Proof. split; vm_compute; reflexivity. Qed.
(** The key a Home may account under is its own key. *)
Lemma accepted_tuple tuple : validateAccountedHomeConcurrencyTuple tuple = true →
  ct_Accounted tuple = true ∧ ct_CredentialID tuple ≠ "" ∧ ct_Model tuple ≠ "" ∧ canonicalHomeConcurrencyModelKey (ct_Model tuple) = ct_Model tuple.
Proof.
  unfold validateAccountedHomeConcurrencyTuple, validCanonicalHomeConcurrencyModelKey, validHomeConcurrencyTupleField.
  rewrite !andb_true_iff, !negb_true_iff, !String.eqb_eq, !String.eqb_neq. intros [[[H1 [[[H2 _] _] _]] [[H3 _] _]] H4]. split_and!; try done. by rewrite H4.
Qed.

End HomeConcurrency.
