(* ===== verification/InFlight.v ===== *)
(** * Snapshots of what is in flight: sdk/cliproxy/auth/home_in_flight_publisher.go

    A freeze of the execution registry is counted by credential and model and packed, with
    the single executions, into frames of bounded size for a Home.  How many bytes a frame
    has as JSON is the class [FrameCodec]. *)
From S2P Require Import Prelude GoLib Utf8 ExecRegistry LcpKeys HomeConcurrency.
Import ExecRegistry HomeConcurrency.

Record InFlightAggregate : Type := { ag_CredentialID : string; ag_Model : string; ag_Status : string; ag_Count : Z }.
Record InFlightRequestDetail : Type := {
  dt_RequestID : string;
  dt_CredentialID : string;
  dt_Model : string;
  dt_RequestKind : string;
  dt_StartedAt : time;
}.
Record InFlightSnapshotFrame : Type := {
  fr_Kind : string;
  fr_Revision : Z;
  fr_ObservedAt : time;
  fr_BarrierRevision : Z;
  fr_PartIndex : option Z;
  fr_PartCount : option Z;
  fr_DetailsTruncated : bool;
  fr_Aggregates : list InFlightAggregate;
  fr_Details : list InFlightRequestDetail;
  fr_AggregateGroupCount : Z;
}.
#[global] Instance InFlightSnapshotFrame_eta : Eta InFlightSnapshotFrame := fun f =>
  {| fr_Kind := fr_Kind f; fr_Revision := fr_Revision f; fr_ObservedAt := fr_ObservedAt f; fr_BarrierRevision := fr_BarrierRevision f;
     fr_PartIndex := fr_PartIndex f; fr_PartCount := fr_PartCount f; fr_DetailsTruncated := fr_DetailsTruncated f;
     fr_Aggregates := fr_Aggregates f; fr_Details := fr_Details f; fr_AggregateGroupCount := fr_AggregateGroupCount f |}.
(** [json.Marshal]: the length of its bytes, or an error. *)
Class FrameCodec : Type := marshal_length : InFlightSnapshotFrame → option Z.

Module InFlight.

Definition InFlightFramePart : string := "part".
Definition InFlightFrameOverflow : string := "overflow".
Definition homeInFlightStatus (accounted : bool) : string := if accounted then "accounted" else "unaccounted".

(** ** Bounds *)

Record HomeInFlightPublisherConfig : Type := {
  SnapshotInterval : duration;
  MaxPartBytes : Z;
  MaxPartCount : Z;
  MaxRevisionBytes : Z;
  MaxAggregateGroups : Z;
  MaxDetails : Z;
  MaxStringBytes : Z;
}.
Definition DefaultInFlightMaxPartBytes : Z := 256 * 1024.
Definition DefaultInFlightMaxPartCount : Z := 64.
Definition DefaultInFlightMaxRevisionBytes : Z := 16 * 1024 * 1024.
Definition DefaultInFlightMaxAggregateGroups : Z := 100000.
Definition DefaultInFlightMaxDetails : Z := 10000.
Definition DefaultInFlightMaxStringBytes : Z := 256.
Definition validHomeInFlightPublisherConfig (cfg : HomeInFlightPublisherConfig) : bool :=
  if (SnapshotInterval cfg <=? 0) || (MaxPartBytes cfg <? 1024) || (MaxPartCount cfg <=? 0) || (DefaultInFlightMaxPartCount <? MaxPartCount cfg)
     || (MaxRevisionBytes cfg <? MaxPartBytes cfg) || (DefaultInFlightMaxRevisionBytes <? MaxRevisionBytes cfg)
     || (MaxAggregateGroups cfg <=? 0) || (DefaultInFlightMaxAggregateGroups <? MaxAggregateGroups cfg)
     || (MaxDetails cfg <? 0) || (DefaultInFlightMaxDetails <? MaxDetails cfg)
     || (MaxStringBytes cfg <=? 0) || (DefaultInFlightMaxStringBytes <? MaxStringBytes cfg) then false
  else Z.quot (MaxRevisionBytes cfg + MaxPartBytes cfg - 1) (MaxPartBytes cfg) <=? MaxPartCount cfg.
Definition validHomeInFlightPublisherBounds (cfg : HomeInFlightPublisherConfig) : bool :=
  (0 <? MaxPartBytes cfg) && (0 <? MaxPartCount cfg) && (MaxPartBytes cfg <=? MaxRevisionBytes cfg)
  && (0 <? MaxAggregateGroups cfg) && (0 <=? MaxDetails cfg) && (0 <? MaxStringBytes cfg).
(** The snapshot of the configuration that [ApplyHomeInFlightPublisherConfig] stores. *)
Definition ApplyHomeInFlightPublisherConfig (stored : option HomeInFlightPublisherConfig) (cfg : HomeInFlightPublisherConfig) :
    option HomeInFlightPublisherConfig :=
  if validHomeInFlightPublisherConfig cfg then Some cfg else stored.

(** ** Counting *)

Definition homeInFlightObservationModel (observation : ScopeSpec) : string :=
  if Accounted observation then ScopeModel observation
  else let '(model, valid) := validCanonicalHomeConcurrencyModelKey (ScopeModel observation) in if valid then model else "unknown".
(** [homeInFlightAggregateKey]. *)
Definition aggregate_key (observation : ScopeSpec) : string * string * bool :=
  (CredentialID observation, homeInFlightObservationModel observation, Accounted observation).
Definition count_step (counts : gmap (string * string * bool) Z) (observation : ScopeSpec) : gmap (string * string * bool) Z :=
  <[aggregate_key observation := default 0 (counts !! aggregate_key observation) + 1]> counts.
Definition aggregate_counts (executions : list ScopeSpec) : gmap (string * string * bool) Z := foldl count_step ∅ executions.
Definition aggregate_of (e : string * string * bool * Z) : InFlightAggregate :=
  {| ag_CredentialID := e.1.1.1; ag_Model := e.1.1.2; ag_Status := homeInFlightStatus e.1.2; ag_Count := e.2 |}.
(** [sort.Slice] by a comparison. *)
Definition not_after {A} (less : A → A → bool) (x y : A) : Prop := less y x = false.
#[global] Instance not_after_dec {A} (less : A → A → bool) : RelDecision (not_after less).
Proof. intros x y. unfold not_after. apply _. Defined.
Definition sort_slice {A} (less : A → A → bool) (l : list A) : list A := merge_sort (not_after less) l.
Definition aggregate_less (left right : InFlightAggregate) : bool :=
  if negb (String.eqb (ag_CredentialID left) (ag_CredentialID right)) then str_lt (ag_CredentialID left) (ag_CredentialID right)
  else if negb (String.eqb (ag_Model left) (ag_Model right)) then str_lt (ag_Model left) (ag_Model right)
  else str_lt (ag_Status left) (ag_Status right).
Definition aggregates_of (executions : list ScopeSpec) : list InFlightAggregate :=
  sort_slice aggregate_less (map aggregate_of (map_to_list (aggregate_counts executions))).
Definition aggregate_keys_valid (cfg : HomeInFlightPublisherConfig) (executions : list ScopeSpec) : bool :=
  forallb (fun observation => negb ((MaxStringBytes cfg <? LcpKeys.strlen (CredentialID observation))
    || (MaxStringBytes cfg <? LcpKeys.strlen (homeInFlightObservationModel observation)))) executions.

(** ** Details *)

Definition homeInFlightTruncateString (value : string) (maxBytes : Z) : string :=
  if (maxBytes <=? 0) || (LcpKeys.strlen value <=? maxBytes) then value
  else let value := LcpKeys.substring_from value 0 maxBytes in drop_broken (String.length value) value.
Definition homeInFlightBoundDetail (detail : InFlightRequestDetail) (maxBytes : Z) : InFlightRequestDetail * bool :=
  let bound value := homeInFlightTruncateString value maxBytes in
  ({| dt_RequestID := bound (dt_RequestID detail); dt_CredentialID := bound (dt_CredentialID detail); dt_Model := bound (dt_Model detail);
      dt_RequestKind := bound (dt_RequestKind detail); dt_StartedAt := dt_StartedAt detail |},
   existsb (fun value => negb (String.eqb (bound value) value)) [dt_RequestID detail; dt_CredentialID detail; dt_Model detail; dt_RequestKind detail]).
Definition valid_string (maxStringBytes : Z) (value : string) : bool :=
  utf8_valid value && negb (String.eqb (trim_space value) "") && (LcpKeys.strlen value <=? maxStringBytes).
(** The times are in UTC. *)
Definition validHomeInFlightDetail (detail : InFlightRequestDetail) (maxStringBytes : Z) : bool :=
  forallb (valid_string maxStringBytes) [dt_RequestID detail; dt_CredentialID detail; dt_Model detail; dt_RequestKind detail]
  && negb (is_zero (dt_StartedAt detail)).
Definition detail_of (observation : ScopeSpec) : InFlightRequestDetail :=
  {| dt_RequestID := RequestID observation; dt_CredentialID := CredentialID observation; dt_Model := homeInFlightObservationModel observation;
     dt_RequestKind := Kind observation; dt_StartedAt := StartedAt observation |}.
Definition detail_step (cfg : HomeInFlightPublisherConfig) (acc : list InFlightRequestDetail * bool) (observation : ScopeSpec) :
    list InFlightRequestDetail * bool :=
  let '(details, truncated) := acc in
  let '(detail, bounded) := homeInFlightBoundDetail (detail_of observation) (MaxStringBytes cfg) in
  if negb (validHomeInFlightDetail detail (MaxStringBytes cfg)) then (details, true) else (details ++ [detail], truncated || bounded).
Definition detail_less (left right : InFlightRequestDetail) : bool :=
  if negb (time_eq (dt_StartedAt left) (dt_StartedAt right)) then before (dt_StartedAt left) (dt_StartedAt right)
  else if negb (String.eqb (dt_RequestID left) (dt_RequestID right)) then str_lt (dt_RequestID left) (dt_RequestID right)
  else if negb (String.eqb (dt_CredentialID left) (dt_CredentialID right)) then str_lt (dt_CredentialID left) (dt_CredentialID right)
  else if negb (String.eqb (dt_Model left) (dt_Model right)) then str_lt (dt_Model left) (dt_Model right)
  else str_lt (dt_RequestKind left) (dt_RequestKind right).
(** At most [MaxDetails] of them, and whether something is left out. *)
Definition details_of (cfg : HomeInFlightPublisherConfig) (executions : list ScopeSpec) : list InFlightRequestDetail * bool :=
  let '(details, truncated) := foldl (detail_step cfg) ([], false) executions in
  let details := sort_slice detail_less details in
  if MaxDetails cfg <? Z.of_nat (length details) then (take (Z.to_nat (MaxDetails cfg)) details, true) else (details, truncated).

(** ** Packing *)

Section Pack.
Context `{FC : FrameCodec} (freeze : Freeze) (observedAt : time) (cfg : HomeInFlightPublisherConfig).
Implicit Types (frames : list InFlightSnapshotFrame) (current : InFlightSnapshotFrame).

Definition homeInFlightPartFrame (partCount : Z) (detailsTruncated : bool) : InFlightSnapshotFrame :=
  {| fr_Kind := InFlightFramePart; fr_Revision := Revision freeze; fr_ObservedAt := observedAt; fr_BarrierRevision := BarrierRevision freeze;
     fr_PartIndex := Some 0; fr_PartCount := Some partCount; fr_DetailsTruncated := detailsTruncated; fr_Aggregates := []; fr_Details := [];
     fr_AggregateGroupCount := 0 |}.
Definition homeInFlightOverflow (aggregateGroupCount : Z) : list InFlightSnapshotFrame :=
  [{| fr_Kind := InFlightFrameOverflow; fr_Revision := Revision freeze; fr_ObservedAt := observedAt; fr_BarrierRevision := BarrierRevision freeze;
      fr_PartIndex := None; fr_PartCount := None; fr_DetailsTruncated := false; fr_Aggregates := []; fr_Details := [];
      fr_AggregateGroupCount := aggregateGroupCount |}].
Definition homeInFlightFrameWithinPartLimit (frame : InFlightSnapshotFrame) (maxPartBytes : Z) : bool :=
  match marshal_length frame with Some n => n <=? maxPartBytes | None => false end.
Fixpoint within_total (total : Z) frames : bool :=
  match frames with
  | [] => true
  | frame :: rest =>
      match marshal_length frame with
      | None => false
      | Some n =>
          if MaxPartBytes cfg <? n then false
          else if MaxRevisionBytes cfg <? total + n then false
          else within_total (total + n) rest
      end
  end.
Definition homeInFlightFramesWithinBounds frames : bool :=
  if bool_decide (frames = []) || (MaxPartCount cfg <? Z.of_nat (length frames)) then false else within_total 0 frames.

Definition empty_frame current : bool := bool_decide (fr_Aggregates current = []) && bool_decide (fr_Details current = []).
Definition add_aggregate (aggregate : InFlightAggregate) current : InFlightSnapshotFrame :=
  current <| fr_Aggregates := fr_Aggregates current ++ [aggregate] |>.
Definition add_detail (detail : InFlightRequestDetail) current : InFlightSnapshotFrame :=
  current <| fr_Details := fr_Details current ++ [detail] |>.
Definition fits current : bool := homeInFlightFrameWithinPartLimit current (MaxPartBytes cfg).
(** The closure [appendCurrent]. *)
Definition append_current (truncated : bool) frames current : option (list InFlightSnapshotFrame * InFlightSnapshotFrame) :=
  if MaxPartCount cfg <=? Z.of_nat (length frames) then None
  else Some (frames ++ [current], homeInFlightPartFrame (MaxPartCount cfg) truncated).
Fixpoint pack_aggregates (truncated : bool) (aggregates : list InFlightAggregate) frames current :
    option (list InFlightSnapshotFrame * InFlightSnapshotFrame) :=
  match aggregates with
  | [] => Some (frames, current)
  | aggregate :: rest =>
      let candidate := add_aggregate aggregate current in
      if fits candidate then pack_aggregates truncated rest frames candidate
      else if empty_frame current then None
      else match append_current truncated frames current with
           | None => None
           | Some (frames, current) =>
               let candidate := add_aggregate aggregate current in
               if fits candidate then pack_aggregates truncated rest frames candidate else None
           end
  end.
(** The loop over the details: [inr] when it returns from the whole function. *)
Fixpoint pack_details (truncated : bool) (details : list InFlightRequestDetail) frames current (included : Z) :
    (list InFlightSnapshotFrame * InFlightSnapshotFrame * Z) + (list InFlightSnapshotFrame * Z) :=
  match details with
  | [] => inl (frames, current, included)
  | detail :: rest =>
      let candidate := add_detail detail current in
      if fits candidate then pack_details truncated rest frames candidate (included + 1)
      else if empty_frame current then inr (frames, included)
      else match append_current truncated frames current with
           | None => inr (frames, included - Z.of_nat (length (fr_Details current)))
           | Some (frames, current) =>
               let candidate := add_detail detail current in
               if fits candidate then pack_details truncated rest frames candidate (included + 1) else inr (frames, included)
           end
  end.
Definition number_frames frames : list InFlightSnapshotFrame :=
  imap (fun index frame => frame <| fr_PartIndex := Some (Z.of_nat index) |> <| fr_PartCount := Some (Z.of_nat (length frames)) |>) frames.
Definition packHomeInFlightFrames (aggregates : list InFlightAggregate) (details : list InFlightRequestDetail) (detailsTruncated : bool) :
    list InFlightSnapshotFrame * bool * Z :=
  match pack_aggregates detailsTruncated aggregates [] (homeInFlightPartFrame (MaxPartCount cfg) detailsTruncated) with
  | None => ([], false, 0)
  | Some (frames, current) =>
      match pack_details detailsTruncated details frames current 0 with
      | inr (frames, included) => (frames, true, included)
      | inl (frames, current, included) =>
          if negb (empty_frame current) || bool_decide (frames = []) then
            match append_current detailsTruncated frames current with
            | None => if negb (bool_decide (fr_Aggregates current = [])) then ([], false, 0)
                      else (frames, true, included - Z.of_nat (length (fr_Details current)))
            | Some (frames, _) => (number_frames frames, true, included)
            end
          else (number_frames frames, true, included)
      end
  end.

(** The loop of [encodeHomeInFlightFreeze]; [None] when the fuel is used up. *)
Fixpoint encode_loop (fuel : nat) (aggregates : list InFlightAggregate) (details : list InFlightRequestDetail) (detailsTruncated : bool) :
    option (list InFlightSnapshotFrame) :=
  match fuel with
  | O => None
  | S fuel =>
      let '(frames, aggregatesPacked, includedDetails) := packHomeInFlightFrames aggregates details detailsTruncated in
      if negb aggregatesPacked then Some (homeInFlightOverflow (Z.of_nat (length aggregates)))
      else if includedDetails <? Z.of_nat (length details) then
        encode_loop fuel aggregates (take (Z.to_nat includedDetails) details) true
      else if homeInFlightFramesWithinBounds frames then Some frames
      else if bool_decide (details = []) then Some (homeInFlightOverflow (Z.of_nat (length aggregates)))
      else encode_loop fuel aggregates (take (length details - 1) details) true
  end.
Definition encodeHomeInFlightFreeze : option (list InFlightSnapshotFrame) :=
  let aggregates := aggregates_of (Executions freeze) in
  if negb (validHomeInFlightPublisherBounds cfg) || negb (aggregate_keys_valid cfg (Executions freeze))
     || (MaxAggregateGroups cfg <? Z.of_nat (length aggregates))
  then Some (homeInFlightOverflow (Z.of_nat (length aggregates)))
  else
    let '(details, detailsTruncated) := details_of cfg (Executions freeze) in
    encode_loop (S (length details)) aggregates details detailsTruncated.
End Pack.

(** ** Publishing *)

Section Publish.
Context `{FC : FrameCodec}.

Definition zero_config : HomeInFlightPublisherConfig :=
  {| SnapshotInterval := 0; MaxPartBytes := 0; MaxPartCount := 0; MaxRevisionBytes := 0; MaxAggregateGroups := 0; MaxDetails := 0; MaxStringBytes := 0 |}.
Definition stored_config (stored : option HomeInFlightPublisherConfig) : HomeInFlightPublisherConfig := default zero_config stored.
Definition publish_interval (cfg : HomeInFlightPublisherConfig) : duration :=
  if SnapshotInterval cfg <=? 0 then 2 * second else SnapshotInterval cfg.
(** The frames that are handed to the transport; the first failure ends it. *)
Fixpoint push_frames (push : InFlightSnapshotFrame → bool) (frames : list InFlightSnapshotFrame) : list InFlightSnapshotFrame :=
  match frames with
  | [] => []
  | frame :: rest => if bool_decide (marshal_length frame = None) then [] else frame :: (if push frame then push_frames push rest else [])
  end.
(** One firing of the timer of [StartHomeInFlightPublisher]: what is pushed, the registry
    after it and the interval the timer is reset to. *)
Definition publish_tick (stored : option HomeInFlightPublisherConfig) (heartbeat : bool) (push : InFlightSnapshotFrame → bool) (observedAt : time)
    (r : Registry) : list InFlightSnapshotFrame * Registry * duration :=
  let cfg := stored_config stored in
  let next := publish_interval cfg in
  if negb heartbeat then ([], r, next)
  else
    let '(freeze, r) := FreezeInFlight r in
    (push_frames push (default [] (encodeHomeInFlightFreeze freeze observedAt cfg)), r, next).
End Publish.

End InFlight.
