(* ===== verification/InFlightProps.v ===== *)
(** * What a snapshot of what is in flight promises

    The encoding of a freeze ends; its frames are within all bounds and hold every group of
    executions once with its exact count, and single executions as far as there is room. *)
From S2P Require Import Prelude GoLib Utf8 ExecRegistry LcpKeys HomeConcurrency InFlight.
Import ExecRegistry HomeConcurrency InFlight.

Module InFlightProps.

(** ** Counts *)

Definition count_of (executions : list ScopeSpec) (key : string * string * bool) : Z :=
  Z.of_nat (length (List.filter (fun o => bool_decide (aggregate_key o = key)) executions)).
Lemma counts_fold executions counts key : (∀ k n, counts !! k = Some n → 0 < n) →
  foldl count_step counts executions !! key
  = let n := default 0 (counts !! key) + count_of executions key in if bool_decide (n = 0) then None else Some n.
Proof.
  revert counts. induction executions as [|o executions IH]; intros counts Hpos; cbn [foldl].
  { unfold count_of. cbn. destruct (counts !! key) as [n|] eqn:E; cbn; [|done]. pose proof (Hpos _ _ E). rewrite Z.add_0_r, bool_decide_false by lia. done. }
  assert (0 ≤ default 0 (counts !! aggregate_key o)) as Hd by (destruct (counts !! aggregate_key o) as [n|] eqn:E; cbn; [by apply Hpos in E; lia|lia]).
  rewrite IH.
  - unfold count_step, count_of. cbn [List.filter]. destruct (decide (aggregate_key o = key)) as [<-|Hne].
    + rewrite lookup_insert_eq, (bool_decide_true (aggregate_key o = aggregate_key o)) by done. cbn [default length]. cbv zeta. rewrite Nat2Z.inj_succ.
      set (x := default 0 _). set (y := Z.of_nat _). change (id (x + 1)) with (x + 1). replace (x + 1 + y) with (x + Z.succ y) by lia. done.
    + by rewrite lookup_insert_ne, (bool_decide_false (aggregate_key o = key)) by done.
  - intros k n. unfold count_step. destruct (decide (aggregate_key o = k)) as [<-|Hne]; [rewrite lookup_insert_eq|rewrite lookup_insert_ne by done]; [|apply Hpos].
    intros [= <-]. lia.
Qed.
Lemma counts_spec executions key : aggregate_counts executions !! key = if bool_decide (count_of executions key = 0) then None else Some (count_of executions key).
Proof. unfold aggregate_counts. rewrite counts_fold by (intros k n; by rewrite lookup_empty). by rewrite lookup_empty. Qed.
Lemma status_inj a b : homeInFlightStatus a = homeInFlightStatus b → a = b.
Proof. by destruct a, b. Qed.
(** The groups are those of the executions, each once and with its count. *)
Definition exact_groups (executions : list ScopeSpec) (aggregates : list InFlightAggregate) : Prop :=
  NoDup aggregates ∧ ∀ g, g ∈ aggregates ↔
    0 < ag_Count g ∧ ∃ accounted, ag_Status g = homeInFlightStatus accounted ∧ ag_Count g = count_of executions (ag_CredentialID g, ag_Model g, accounted).
#[local] Instance aggregate_of_inj : Inj (=) (=) aggregate_of.
Proof. intros [[[c m] a] n] [[[c' m'] a'] n'] [= -> -> ?%status_inj ->]. by subst. Qed.
Lemma aggregates_exact executions : exact_groups executions (aggregates_of executions).
Proof.
  assert (aggregates_of executions ≡ₚ map aggregate_of (map_to_list (aggregate_counts executions))) as Hp by apply merge_sort_Permutation.
  split; [rewrite Hp; apply (NoDup_fmap_2 aggregate_of), NoDup_map_to_list|].
  intros [c m st n]. rewrite Hp, list_elem_of_fmap. cbn. split.
  - intros ([[[c' m'] a] n'] & [= -> -> -> ->] & Hin%elem_of_map_to_list). cbn. rewrite counts_spec in Hin. case_bool_decide as E; [done|].
    injection Hin as <-. split; [unfold count_of in *; lia|]. by exists a.
  - intros [Hn (a & -> & ->)]. exists (c, m, a, count_of executions (c, m, a)). split; [done|]. apply elem_of_map_to_list. rewrite counts_spec.
    by rewrite bool_decide_false by lia.
Qed.

(** ** Details *)

Section Details.
Context (cfg : HomeInFlightPublisherConfig).
(** The detail of an execution as it is sent. *)
Definition sent_detail (o : ScopeSpec) : InFlightRequestDetail := (homeInFlightBoundDetail (detail_of o) (MaxStringBytes cfg)).1.
Lemma unbounded_detail d n : (homeInFlightBoundDetail d n).2 = false → (homeInFlightBoundDetail d n).1 = d.
Proof.
  destruct d as [r c m k t]. cbn. rewrite !orb_false_iff, !negb_false_iff, !String.eqb_eq. by intros (-> & -> & -> & -> & _).
Qed.
Lemma details_fold executions l b : let r := foldl (detail_step cfg) (l, b) executions in
  (∃ k, r.1 = l ++ k ∧ k ⊆+ map sent_detail executions ∧ (∀ d, d ∈ k → validHomeInFlightDetail d (MaxStringBytes cfg) = true)
    ∧ (r.2 = false → k = map detail_of executions)) ∧ (r.2 = false → b = false).
Proof.
  revert l b. induction executions as [|o executions IH]; intros l b; cbv zeta; cbn [foldl].
  { split; [|done]. exists []. rewrite app_nil_r. split; [done|]. split; [done|]. split; [by intros d ?%not_elem_of_nil|done]. }
  unfold detail_step at 2 4 6. unfold sent_detail in *. pose proof (unbounded_detail (detail_of o) (MaxStringBytes cfg)) as Hu. cbn [map].
  destruct (homeInFlightBoundDetail (detail_of o) (MaxStringBytes cfg)) as [d bounded]. cbn [fst snd] in *.
  destruct (validHomeInFlightDetail d (MaxStringBytes cfg)) eqn:E; cbn [negb].
  - destruct (IH (l ++ [d]) (b || bounded)) as [(k & H1 & H2 & H3 & H4) H5]. split.
    + exists (d :: k). rewrite H1, <- app_assoc. split; [done|]. split; [by apply submseteq_skip|]. split.
      * intros d' [->|Hd]%elem_of_cons; [done|by apply H3].
      * intros Ht. pose proof (H5 Ht) as [_ Hb]%orb_false_iff. rewrite (Hu Hb). f_equal. by apply H4.
    + intros Ht. by apply H5, orb_false_iff in Ht as [? _].
  - destruct (IH l true) as [(k & H1 & H2 & H3 & H4) H5]. split; [|intros Ht; by apply H5 in Ht].
    exists k. split; [done|]. split; [by apply submseteq_cons|]. split; [done|]. intros Ht. by apply H5 in Ht.
Qed.
(** What a snapshot says of single executions. *)
Definition true_details (executions : list ScopeSpec) (details : list InFlightRequestDetail) (truncated : bool) : Prop :=
  details ⊆+ map sent_detail executions ∧ (∀ d, d ∈ details → validHomeInFlightDetail d (MaxStringBytes cfg) = true)
  ∧ (truncated = false → details ≡ₚ map detail_of executions).
Lemma true_details_take executions details truncated n b : true_details executions details truncated → (b = false → truncated = false ∧ take n details = details) →
  true_details executions (take n details) b.
Proof.
  intros (H1 & H2 & H3) Hb. split; [|split].
  - etransitivity; [|exact H1]. apply sublist_submseteq, sublist_take.
  - intros d Hd. apply H2. by eapply elem_of_take in Hd as (i & Hd & _); apply list_elem_of_lookup; exists i.
  - intros Ht. destruct (Hb Ht) as [Hf ->]. by apply H3.
Qed.
Lemma details_true executions : let r := details_of cfg executions in true_details executions r.1 r.2.
Proof.
  cbv zeta. unfold details_of. pose proof (details_fold executions [] false) as [(k & H1 & H2 & H3 & H4) _].
  destruct (foldl _ _ _) as [details truncated]. cbn [fst snd app] in H1, H4. subst k.
  assert (sort_slice detail_less details ≡ₚ details) as Hp by apply merge_sort_Permutation.
  assert (true_details executions (sort_slice detail_less details) truncated) as Ht.
  { split; [by rewrite Hp|]. split; [intros d Hd; apply H3; by rewrite <- Hp|]. intros E. rewrite Hp. by rewrite H4. }
  destruct (_ <? _); cbn [fst snd]; [|done]. by apply (true_details_take _ _ truncated).
Qed.
End Details.

(** ** Packing *)

Section Pack.
Context `{FC : FrameCodec} (freeze : Freeze) (observedAt : time) (cfg : HomeInFlightPublisherConfig).
Implicit Types (frames : list InFlightSnapshotFrame) (current : InFlightSnapshotFrame).
#[local] Abbreviation part_frame := (homeInFlightPartFrame freeze observedAt (MaxPartCount cfg)).
#[local] Abbreviation pack := (packHomeInFlightFrames freeze observedAt cfg).

(** A frame under way: its content apart it is the empty one. *)
Definition part_of (truncated : bool) current : Prop := current <| fr_Aggregates := [] |> <| fr_Details := [] |> = part_frame truncated.
Definition all_aggregates frames current : list InFlightAggregate := concat (map fr_Aggregates frames) ++ fr_Aggregates current.
Definition all_details frames current : list InFlightRequestDetail := concat (map fr_Details frames) ++ fr_Details current.
Record packing (truncated : bool) frames current : Prop := {
  pk_current : part_of truncated current;
  pk_frames : Forall (part_of truncated) frames;
}.
Lemma part_frame_ok truncated : packing truncated [] (part_frame truncated).
Proof. by split. Qed.
Lemma add_aggregate_part truncated a frames current : packing truncated frames current → packing truncated frames (add_aggregate a current).
Proof. intros [H1 H2]. by split. Qed.
Lemma add_detail_part truncated d frames current : packing truncated frames current → packing truncated frames (add_detail d current).
Proof. intros [H1 H2]. by split. Qed.
Lemma append_some truncated frames current frames' current' : append_current freeze observedAt cfg truncated frames current = Some (frames', current') →
  frames' = frames ++ [current] ∧ current' = part_frame truncated ∧ Z.of_nat (length frames) < MaxPartCount cfg
  ∧ (packing truncated frames current → packing truncated frames' current')
  ∧ all_aggregates frames' current' = all_aggregates frames current ∧ all_details frames' current' = all_details frames current.
Proof.
  unfold append_current. destruct (Z.leb_spec (MaxPartCount cfg) (Z.of_nat (length frames))); [done|]. intros [= <- <-]. split_and!; try done.
  - intros [H1 H2]. split; [done|]. by apply Forall_app_2; [|constructor].
  - unfold all_aggregates. rewrite map_app, concat_app. cbn. by rewrite !app_nil_r.
  - unfold all_details. rewrite map_app, concat_app. cbn. by rewrite !app_nil_r.
Qed.
Lemma aggregates_packed truncated aggregates frames current frames' current' : packing truncated frames current →
  pack_aggregates freeze observedAt cfg truncated aggregates frames current = Some (frames', current') →
  packing truncated frames' current' ∧ all_aggregates frames' current' = all_aggregates frames current ++ aggregates
  ∧ all_details frames' current' = all_details frames current.
Proof.
  revert frames current. induction aggregates as [|a aggregates IH]; intros frames current Hp; cbn [pack_aggregates].
  { intros [= <- <-]. by rewrite app_nil_r. }
  assert (∀ f c, all_aggregates f (add_aggregate a c) = all_aggregates f c ++ [a]) as Ha by (intros; unfold all_aggregates; cbn; by rewrite app_assoc).
  destruct (fits cfg _).
  - intros E. apply IH in E as (H1 & H2 & H3); [|by apply add_aggregate_part]. split; [done|]. split; [|by rewrite H3]. by rewrite H2, Ha, <- app_assoc.
  - destruct (empty_frame current); [done|]. destruct (append_current _ _ _ _ _ _) as [[f c]|] eqn:Ea; [|done].
    apply append_some in Ea as (_ & _ & _ & A1 & A2 & A3). destruct (fits cfg _); [|done]. intros E.
    apply IH in E as (H1 & H2 & H3); [|by apply add_aggregate_part, A1]. split; [done|]. split; [|by rewrite H3, <- A3]. by rewrite H2, Ha, <- app_assoc, A2.
Qed.
Lemma details_packed truncated details frames current included : packing truncated frames current → Z.of_nat (length (fr_Details current)) ≤ included →
  match pack_details freeze observedAt cfg truncated details frames current included with
  | inl (frames', current', included') => packing truncated frames' current' ∧ all_aggregates frames' current' = all_aggregates frames current
      ∧ all_details frames' current' = all_details frames current ++ details ∧ included' = included + Z.of_nat (length details)
      ∧ Z.of_nat (length (fr_Details current')) ≤ included' ∧ (fr_Aggregates current' = [] ∨ frames' = frames ∧ fr_Aggregates current' = fr_Aggregates current)
  | inr (frames', included') => 0 ≤ included' < included + Z.of_nat (length details)
  end.
Proof.
  revert frames current included. induction details as [|d details IH]; intros frames current included Hp Hi; cbn [pack_details].
  { rewrite app_nil_r. cbn. rewrite Z.add_0_r. split_and!; try done. by right. }
  assert (∀ f c, all_details f (add_detail d c) = all_details f c ++ [d]) as Hd by (intros; unfold all_details; cbn; by rewrite app_assoc).
  assert (∀ c : InFlightSnapshotFrame, length (fr_Details (add_detail d c)) = S (length (fr_Details c))) as Hl by (intros c; cbn; rewrite length_app; cbn; lia).
  cbn [length]. destruct (fits cfg _).
  - specialize (IH frames (add_detail d current) (included + 1) ltac:(by apply add_detail_part)). rewrite Hl in IH. specialize (IH ltac:(lia)).
    destruct (pack_details _ _ _ _ _ _ _ _) as [[[f c] i]|[f i]]; [|lia]. destruct IH as (H1 & H2 & H3 & H4 & H5 & H6).
    split; [done|]. split; [done|]. split; [by rewrite H3, Hd, <- app_assoc|]. split; [lia|]. split; [lia|]. exact H6.
  - destruct (empty_frame current); [lia|]. destruct (append_current _ _ _ _ _ _) as [[f c]|] eqn:Ea; [|lia].
    apply append_some in Ea as (-> & -> & _ & A1 & A2 & A3). destruct (fits cfg _); [|lia].
    specialize (IH (frames ++ [current]) (add_detail d (part_frame truncated)) (included + 1) ltac:(by apply add_detail_part, A1)). rewrite Hl in IH.
    cbn [part_frame fr_Details homeInFlightPartFrame length] in IH. specialize (IH ltac:(lia)).
    destruct (pack_details _ _ _ _ _ _ _ _) as [[[f c] i]|[f i]]; [|lia]. destruct IH as (H1 & H2 & H3 & H4 & H5 & H6).
    split; [done|]. split; [by rewrite H2, <- A2|]. split; [by rewrite H3, Hd, <- app_assoc, A3|]. split; [lia|]. split; [lia|].
    left. by destruct H6 as [?|[_ ->]].
Qed.
(** What it takes for a packing of everything: numbered parts that hold it all in order. *)
Definition packed_all (truncated : bool) (aggregates : list InFlightAggregate) (details : list InFlightRequestDetail) frames : Prop :=
  ∃ parts, frames = number_frames parts ∧ Forall (part_of truncated) parts
    ∧ concat (map fr_Aggregates parts) = aggregates ∧ concat (map fr_Details parts) = details.
Lemma empty_frame_spec current : empty_frame current = true ↔ fr_Aggregates current = [] ∧ fr_Details current = [].
Proof. unfold empty_frame. by rewrite andb_true_iff, !bool_decide_eq_true. Qed.
Lemma pack_all truncated aggregates details frames included : pack aggregates details truncated = (frames, true, included) →
  0 ≤ included ≤ Z.of_nat (length details) ∧ (Z.of_nat (length details) ≤ included → packed_all truncated aggregates details frames).
Proof.
  unfold packHomeInFlightFrames. destruct (pack_aggregates _ _ _ _ _ _ _) as [[f c]|] eqn:Ea; [|done].
  apply aggregates_packed in Ea as (Hp & Ha & Hd); [|apply part_frame_ok].
  assert (fr_Details c = []) as Hdc by (unfold all_details in Hd; cbn in Hd; by apply app_eq_nil in Hd as [_ ?]).
  pose proof (details_packed truncated details f c 0 Hp ltac:(by rewrite Hdc)) as Hk.
  destruct (pack_details _ _ _ _ _ _ _ _) as [[[f2 c2] i]|[f2 i]]; [|intros [= <- <-]; lia].
  destruct Hk as ([P1 P2] & K2 & K3 & K4 & K5 & _). rewrite Ha in K2. rewrite Hd in K3. cbn in K2, K3, K4.
  destruct (_ || _) eqn:E.
  - destruct (append_current _ _ _ _ _ _) as [[f3 c3]|] eqn:Eap.
    + apply append_some in Eap as (-> & _ & _ & _ & A2 & A3). intros [= <- <-]. split; [lia|]. intros _. exists (f2 ++ [c2]). split; [done|].
      split; [by apply Forall_app_2; [|constructor]|]. unfold all_aggregates, all_details in *. rewrite !map_app, !concat_app. cbn. rewrite !app_nil_r. done.
    + destruct (bool_decide (fr_Aggregates c2 = [])) eqn:Eb; [|done]. apply bool_decide_eq_true in Eb. intros [= <- <-]. split; [lia|]. intros Hle.
      assert (fr_Details c2 = []) as Hdc2 by (apply length_zero_iff_nil; lia). rewrite (proj2 (empty_frame_spec c2)) in E by done. cbn in E. apply bool_decide_eq_true in E as ->.
      exists []. split; [done|]. split; [constructor|]. unfold all_aggregates, all_details in *. cbn in *. by rewrite <- K2, <- K3, Eb, Hdc2.
  - intros [= <- <-]. split; [lia|]. intros _. apply orb_false_iff in E as [E%negb_false_iff%empty_frame_spec _]. destruct E as [E1 E2].
    exists f2. split; [done|]. split; [done|]. unfold all_aggregates, all_details in *. rewrite E1, E2, !app_nil_r in *. done.
Qed.
(** The aggregates alone do not fit. *)
Definition too_much (truncated : bool) (aggregates : list InFlightAggregate) : Prop :=
  (pack aggregates [] truncated).1.2 = false ∨ homeInFlightFramesWithinBounds cfg (pack aggregates [] truncated).1.1 = false.
Lemma pack_fails_alone truncated aggregates details frames included : pack aggregates details truncated = (frames, false, included) → too_much truncated aggregates.
Proof.
  intros E. left. revert E. unfold packHomeInFlightFrames. destruct (pack_aggregates _ _ _ _ _ _ _) as [[f c]|] eqn:Ea; [|done].
  apply aggregates_packed in Ea as (Hp & _ & Hd); [|apply part_frame_ok].
  assert (fr_Details c = []) as Hdc by (unfold all_details in Hd; cbn in Hd; by apply app_eq_nil in Hd as [_ ?]).
  pose proof (details_packed truncated details f c 0 Hp ltac:(by rewrite Hdc)) as Hk.
  destruct (pack_details _ _ _ _ details _ _ _) as [[[f2 c2] i]|[f2 i]]; [|done]. destruct Hk as (_ & _ & _ & _ & _ & Hor).
  destruct (_ || _); [|done]. destruct (append_current _ _ _ _ f2 c2) as [[f3 c3]|] eqn:Eap; [done|].
  destruct (bool_decide (fr_Aggregates c2 = [])) eqn:Eb; [done|]. apply bool_decide_eq_false in Eb. intros _. destruct Hor as [?|[-> Hc]]; [done|].
  rewrite Hc in Eb. cbn [pack_details]. assert (empty_frame c = false) as -> by (apply not_true_iff_false; by rewrite empty_frame_spec; intros [? _]).
  cbn [negb orb]. unfold append_current in Eap |- *. destruct (_ <=? _); [|done]. by rewrite bool_decide_false.
Qed.

(** ** The loop *)

Lemma loop_ends fuel aggregates details truncated : (length details < fuel)%nat → ∃ frames,
  encode_loop freeze observedAt cfg fuel aggregates details truncated = Some frames
  ∧ (frames = homeInFlightOverflow freeze observedAt (Z.of_nat (length aggregates)) ∧ (∃ truncated', too_much truncated' aggregates)
     ∨ ∃ n truncated', (truncated' = false → truncated = false ∧ take n details = details)
         ∧ packed_all truncated' aggregates (take n details) frames ∧ homeInFlightFramesWithinBounds cfg frames = true).
Proof.
  revert details truncated. induction fuel as [|fuel IH]; intros details truncated Hf; [lia|]. cbn [encode_loop].
  assert (∀ k, (k < length details)%nat → ∃ frames, encode_loop freeze observedAt cfg fuel aggregates (take k details) true = Some frames
    ∧ (frames = homeInFlightOverflow freeze observedAt (Z.of_nat (length aggregates)) ∧ (∃ truncated', too_much truncated' aggregates)
       ∨ ∃ n truncated', (truncated' = false → truncated = false ∧ take n details = details)
         ∧ packed_all truncated' aggregates (take n details) frames ∧ homeInFlightFramesWithinBounds cfg frames = true)) as Hnext.
  { intros k Hk. destruct (IH (take k details) true) as (frames & E & H); [rewrite length_take; lia|]. exists frames. split; [done|].
    destruct H as [?|(n & t & H1 & H2 & H3)]; [by left|]. right. exists (n `min` k)%nat, t. rewrite take_take in H2. split; [|done].
    intros Ht. by apply H1 in Ht as [? _]. }
  destruct (pack aggregates details truncated) as [[frames packed] included] eqn:E. destruct packed; cbn [negb].
  - pose proof (pack_all _ _ _ _ _ E) as [H1 H2]. destruct (Z.ltb_spec included (Z.of_nat (length details))) as [Hlt|Hge]; [apply Hnext; lia|].
    specialize (H2 Hge). destruct (homeInFlightFramesWithinBounds cfg frames) eqn:Ew.
    + exists frames. split; [done|]. right. exists (length details), truncated. rewrite take_ge by done. by split_and!.
    + case_bool_decide as Hd; [|apply Hnext; destruct details; [done|cbn; lia]]. eexists. split; [done|]. left. split; [done|]. exists truncated.
      right. by rewrite <- Hd, E.
  - eexists. split; [done|]. left. split; [done|]. exists truncated. by eapply pack_fails_alone.
Qed.

(** ** The snapshot *)

(** The frames are within every bound. *)
Definition within_bounds frames : Prop :=
  0 < Z.of_nat (length frames) ≤ MaxPartCount cfg
  ∧ (∀ f, f ∈ frames → ∃ n, marshal_length f = Some n ∧ n ≤ MaxPartBytes cfg)
  ∧ zsum (fun f => default 0 (marshal_length f)) frames ≤ MaxRevisionBytes cfg.
Lemma within_total_spec total frames : within_total cfg total frames = true →
  (∀ f, f ∈ frames → ∃ n, marshal_length f = Some n ∧ n ≤ MaxPartBytes cfg)
  ∧ (frames = [] ∨ total + zsum (fun f => default 0 (marshal_length f)) frames ≤ MaxRevisionBytes cfg).
Proof.
  revert total. induction frames as [|f frames IH]; intros total; cbn [within_total]; [intros _; split; [by intros f ?%not_elem_of_nil|by left]|].
  destruct (marshal_length f) as [n|] eqn:E; [|done]. destruct (Z.ltb_spec (MaxPartBytes cfg) n); [done|].
  destruct (Z.ltb_spec (MaxRevisionBytes cfg) (total + n)); [done|]. intros [H1 H2]%IH. split.
  - intros g [->|Hg]%elem_of_cons; [by exists n|by apply H1].
  - right. rewrite zsum_cons, E. cbn. destruct H2 as [->|H2]; [cbn; lia|]. change (id n) with n. lia.
Qed.
Lemma within_bounds_spec frames : homeInFlightFramesWithinBounds cfg frames = true → within_bounds frames.
Proof.
  unfold homeInFlightFramesWithinBounds, within_bounds. destruct (_ || _) eqn:E; [done|]. apply orb_false_iff in E as [E1%bool_decide_eq_false E2%Z.ltb_ge].
  intros [H1 [->|H2]]%within_total_spec; [done|]. split_and!; [destruct frames; [done|cbn; lia]|done|done|lia].
Qed.
(** The frames of a snapshot, in order. *)
Definition numbered (truncated : bool) frames : Prop := ∀ i f, frames !! i = Some f →
  fr_Kind f = InFlightFramePart ∧ fr_Revision f = Revision freeze ∧ fr_BarrierRevision f = BarrierRevision freeze ∧ fr_ObservedAt f = observedAt
  ∧ fr_PartIndex f = Some (Z.of_nat i) ∧ fr_PartCount f = Some (Z.of_nat (length frames)) ∧ fr_DetailsTruncated f = truncated.
Lemma packed_numbered truncated aggregates details frames : packed_all truncated aggregates details frames →
  numbered truncated frames ∧ concat (map fr_Aggregates frames) = aggregates ∧ concat (map fr_Details frames) = details.
Proof.
  intros (parts & -> & Hp & Ha & Hd). unfold number_frames. set (g := fun (index : nat) (frame : InFlightSnapshotFrame) => _). split.
  - intros i f Hf. rewrite list_lookup_imap in Hf. destruct (parts !! i) as [q|] eqn:E; [|done]. injection Hf as <-.
    rewrite Forall_lookup in Hp. specialize (Hp i q E). rewrite length_imap. cbn. injection Hp as P1 P2 P3 P4 _ _ P7 _. by split_and!.
  - assert (∀ (B : Type) (h : InFlightSnapshotFrame → B), (∀ i f, h (g i f) = h f) → map h (imap g parts) = map h parts) as Hm.
    { intros B h Hh. apply list_eq. intros i. rewrite !list_lookup_fmap, list_lookup_imap. destruct (parts !! i); cbn; [by rewrite Hh|done]. }
    by rewrite !Hm.
Qed.
(** C19 A snapshot is always made and is exact within its bounds: either one overflow frame
    with the number of groups, and then the bounds are not set, or a name is too long, or the
    groups are too many or do not fit even without details; or numbered parts, within the
    bounds on their number, their sizes and their sum, that hold every group of executions
    once with its exact count, and details that are all true, with none left out or
    shortened unless every frame says so. *)
Theorem snapshot_is_exact : ∃ frames, encodeHomeInFlightFreeze freeze observedAt cfg = Some frames ∧
  let groups := aggregates_of (Executions freeze) in
  (frames = homeInFlightOverflow freeze observedAt (Z.of_nat (length groups))
   ∧ (validHomeInFlightPublisherBounds cfg = false ∨ aggregate_keys_valid cfg (Executions freeze) = false
      ∨ MaxAggregateGroups cfg < Z.of_nat (length groups) ∨ ∃ truncated, too_much truncated groups)
   ∨ ∃ truncated, numbered truncated frames ∧ within_bounds frames
       ∧ exact_groups (Executions freeze) (concat (map fr_Aggregates frames))
       ∧ true_details cfg (Executions freeze) (concat (map fr_Details frames)) truncated).
Proof.
  unfold encodeHomeInFlightFreeze. cbv zeta. set (groups := aggregates_of (Executions freeze)). destruct (_ || _) eqn:E.
  - eexists. split; [done|]. left. split; [done|]. rewrite !orb_true_iff, !negb_true_iff, Z.ltb_lt in E. tauto.
  - pose proof (details_true cfg (Executions freeze)) as Hd. destruct (details_of cfg (Executions freeze)) as [details truncated].
    destruct (loop_ends (S (length details)) groups details truncated) as (frames & -> & [[-> Ht]|(n & t & H1 & H2 & H3)]); [lia|..]; eexists; (split; [done|]).
    + left. by auto.
    + right. exists t. apply packed_numbered in H2 as (N1 & N2 & N3). split; [done|]. split; [by apply within_bounds_spec|].
      rewrite N2, N3. split; [apply aggregates_exact|]. by eapply true_details_take.
Qed.
End Pack.

End InFlightProps.
