(* ===== verification/LcpFrame.v ===== *)
(** * The bytes of a turn tell the turn

    The length-prefixed fields of [FastTurnFingerprint] can be read back, so two turns have
    the same fingerprint only if they agree in all that is hashed, or the hash collides. *)
From stdpp Require Import pretty.
From S2P Require Import Prelude GoLib LcpKeys.
Import LcpKeys.
#[local] Open Scope Z_scope.

Module LcpFrame.

(** ** Decimal numbers have no colon *)

Fixpoint no_colon (s : string) : bool :=
  match s with
  | EmptyString => true
  | String c rest => negb (Ascii.eqb c (Ascii.ascii_of_N 58)) && no_colon rest
  end.
Lemma digit_colon n : negb (Ascii.eqb (pretty_N_char n) (Ascii.ascii_of_N 58)) = true.
Proof. unfold pretty_N_char. repeat case_match; reflexivity. Qed.
Lemma digits_colon n s : no_colon s = true → no_colon (pretty_N_go n s) = true.
Proof.
  revert s. induction (N.lt_wf_0 n) as [n _ IH]; intros s Hs. destruct (decide (n = 0%N)) as [->|Hn]; [done|].
  rewrite pretty_N_go_step by lia. apply IH; [apply N.div_lt; lia|]. cbn [no_colon]. by rewrite digit_colon.
Qed.
Lemma itoa_colon z : no_colon (itoa z) = true.
Proof.
  assert (∀ n : N, no_colon (pretty n) = true) as Hn by (intros n; unfold pretty, pretty_N; destruct (decide _); [done|by apply digits_colon]).
  destruct z as [|p|p]; [reflexivity|exact (Hn (Npos p))|]. exact (Hn (Npos p)).
Qed.
#[export] Instance itoa_inj : Inj (=) (=) itoa.
Proof. exact pretty_Z_inj. Qed.

(** ** Fields *)

Lemma colon_split a b s t : no_colon a = true → no_colon b = true → a +:+ (":" +:+ s) = b +:+ (":" +:+ t) → a = b ∧ s = t.
Proof.
  revert b. induction a as [|c a IH]; intros [|d b] Ha Hb E; cbn in *.
  - by injection E.
  - injection E as <- E. by cbn in Hb.
  - injection E as -> E. by cbn in Ha.
  - injection E as -> E. apply andb_true_iff in Ha as [_ Ha], Hb as [_ Hb]. by destruct (IH b Ha Hb E) as [-> ->].
Qed.
Lemma length_split a b s t : String.length a = String.length b → a +:+ s = b +:+ t → a = b ∧ s = t.
Proof.
  revert b. induction a as [|c a IH]; intros [|d b] Hl E; cbn in *; try done. injection E as -> E. by destruct (IH b ltac:(lia) E) as [-> ->].
Qed.
Lemma append_assoc (a b c : string) : (a +:+ b) +:+ c = a +:+ (b +:+ c).
Proof. induction a as [|x a IH]; [done|]. cbn. by rewrite IH. Qed.
Lemma append_nil (a : string) : a +:+ "" = a.
Proof. induction a as [|x a IH]; [done|]. cbn. by rewrite IH. Qed.
Lemma field_split a b s t : writeFingerprintField a +:+ s = writeFingerprintField b +:+ t → a = b ∧ s = t.
Proof.
  unfold writeFingerprintField. rewrite !append_assoc. intros E.
  apply colon_split in E as [El E]; [|apply itoa_colon..]. apply (inj itoa) in El. unfold strlen in El.
  apply length_split in E as [-> E]; [|lia]. split; [done|]. unfold nul in E. cbn in E. by injection E.
Qed.
Lemma write_fields_cons f fs : write_fields (f :: fs) = writeFingerprintField f +:+ write_fields fs.
Proof. unfold write_fields. destruct fs as [|g fs]; [symmetry; apply append_nil|done]. Qed.
Lemma field_some f s : writeFingerprintField f +:+ s ≠ "".
Proof. unfold writeFingerprintField. rewrite append_assoc. by destruct (itoa (strlen f)). Qed.
#[export] Instance write_fields_inj : Inj (=) (=) write_fields.
Proof.
  intros l. induction l as [|x l IH]; intros [|y k] E; [done|..]; rewrite ?write_fields_cons in E.
  - by apply symmetry, field_some in E.
  - by apply field_some in E.
  - apply field_split in E as [-> E]. f_equal. by apply IH.
Qed.

(** ** Turns *)

(** What the fingerprint looks at.  The digest of a sampled part of a system turn is not. *)
Definition part_view (role : string) (part : CanonicalPart) : string * string * Z * option string * string :=
  (cp_Kind part, cp_MIME part, cp_OriginalSize part,
   if String.eqb role "system" && cp_Sampled part then None else Some (cp_Digest part), sampled_value part).
Definition turn_view (turn : CanonicalTurn) : string * list (string * string * Z * option string * string) :=
  (ct_Role turn, map (part_view (ct_Role turn)) (ct_Parts turn)).
(** A normalised part has a value; only a sampled one has a digest. *)
Definition part_wf (part : CanonicalPart) : Prop := cp_Value part ≠ "" ∧ (cp_Sampled part = false → cp_Digest part = "").

Lemma sampled_some part : cp_Sampled part = true → sampled_value part = cp_Value part.
Proof. intros E. unfold sampled_value. by rewrite E. Qed.
Lemma part_fields_split role p q s t : part_wf p → part_wf q → part_fields role p ++ s = part_fields role q ++ t →
  part_view role p = part_view role q ∧ s = t.
Proof.
  intros [Vp Dp] [Vq Dq]. pose proof (sampled_some p) as Sp. pose proof (sampled_some q) as Sq. unfold part_fields, part_view.
  destruct (String.eqb role "system"), (cp_Sampled p) eqn:Ep, (cp_Sampled q) eqn:Eq; cbn [negb orb andb app];
    intros E; injection E as E1 E2 E3; apply (inj itoa) in E3; try (split; congruence).
  - specialize (Sp eq_refl). specialize (Dq eq_refl). exfalso. congruence.
  - specialize (Sq eq_refl). specialize (Dp eq_refl). exfalso. congruence.
Qed.
Lemma parts_split role ps qs : Forall part_wf ps → Forall part_wf qs →
  concat (map (part_fields role) ps) = concat (map (part_fields role) qs) → map (part_view role) ps = map (part_view role) qs.
Proof.
  intros Hp. revert qs. induction Hp as [|p ps Hp Hps IH]; intros qs Hq E; destruct Hq as [|q qs Hq Hqs]; [done|done|done|].
  cbn [map concat] in *. apply part_fields_split in E as [-> E]; [|done..]. f_equal. by apply IH.
Qed.
(** C36 Two normalised turns that are written as the same bytes agree in their role and, part
    by part, in the kind, the type, the size, the digest and the value that are hashed: no
    text can move from one field or part into the next. *)
Theorem turn_bytes_tell_turns t t' : Forall part_wf (ct_Parts t) → Forall part_wf (ct_Parts t') →
  write_fields (turn_fields t) = write_fields (turn_fields t') → turn_view t = turn_view t'.
Proof.
  intros Ht Ht' E. apply (inj write_fields) in E. unfold turn_fields in E. injection E as Er E. unfold turn_view.
  rewrite <- Er in *. f_equal. by apply parts_split.
Qed.
Lemma turn_bytes_witness :
  turn_view {| ct_Role := "user"; ct_Parts := [{| cp_Kind := "text"; cp_MIME := ""; cp_Value := "hi:0"; cp_Digest := ""; cp_OriginalSize := 4; cp_Sampled := false |}] |}
  = turn_view {| ct_Role := "user"; ct_Parts := [{| cp_Kind := "text"; cp_MIME := ""; cp_Value := "hi:0"; cp_Digest := ""; cp_OriginalSize := 4; cp_Sampled := false |}] |}.
Proof. apply turn_bytes_tell_turns; [by repeat constructor|by repeat constructor|reflexivity]. Defined.

End LcpFrame.
