(* ===== verification/LcpMatcher.v ===== *)
(** * The Merkle prefix matcher: sdk/cliproxy/session/lcp.go

    Which credential the longest known beginning of a conversation is bound to.  A bound
    conversation is a group, found under the key of its whole sequence, under the keys of
    all its prefixes and under its last two turns; groups live on one list, least recently
    used first.  Groups are shared by pointer: here they live in a heap under handles that
    are never reused.  An element of the list is named by the group it holds, which has at
    most one; [lruElements] has the same members as the list and is left out.  Every
    operation holds the lock and takes the time it reads. *)
From S2P Require Import Prelude GoLib LcpKeys.
Import LcpKeys.

Module LcpMatcher.

Record MerklePrefixMatch : Type := {
  mt_AuthID : string;
  mt_SessionID : string;
  mt_ParentSessionID : string;
  mt_PrefixLength : Z;
  mt_IsFork : bool;
  mt_IsCompaction : bool;
  mt_NodeKind : string;
  mt_AccessNumber : Z;
}.
Record MerklePrefixBindResult : Type := {
  br_SessionID : string;
  br_ParentSessionID : string;
  br_IsFork : bool;
  br_IsCompaction : bool;
  br_NodeKind : string;
  br_AccessNumber : Z;
}.
Definition no_bind : MerklePrefixBindResult :=
  {| br_SessionID := ""; br_ParentSessionID := ""; br_IsFork := false; br_IsCompaction := false; br_NodeKind := "";
     br_AccessNumber := 0 |}.

Abbreviation gid := nat.
Record lcpGroup : Type := {
  lg_key : string;
  lg_namespace : string;
  lg_authID : string;
  lg_sessionID : string;
  lg_parentSessionID : string;
  lg_minPrefixLength : Z;
  lg_isFork : bool;
  lg_isCompaction : bool;
  lg_nodeKind : string;
  lg_environmentDigest : string;
  lg_fingerprints : list string;
  lg_tailFingerprints : list string;
  lg_prefixKeys : list string;
  lg_expiresAt : time;
  lg_lastAccessNumber : Z;
}.
#[global] Instance lcpGroup_eta : Eta lcpGroup := fun g =>
  {| lg_key := lg_key g; lg_namespace := lg_namespace g; lg_authID := lg_authID g; lg_sessionID := lg_sessionID g;
     lg_parentSessionID := lg_parentSessionID g; lg_minPrefixLength := lg_minPrefixLength g; lg_isFork := lg_isFork g;
     lg_isCompaction := lg_isCompaction g; lg_nodeKind := lg_nodeKind g; lg_environmentDigest := lg_environmentDigest g;
     lg_fingerprints := lg_fingerprints g; lg_tailFingerprints := lg_tailFingerprints g; lg_prefixKeys := lg_prefixKeys g;
     lg_expiresAt := lg_expiresAt g; lg_lastAccessNumber := lg_lastAccessNumber g |}.
Record lcpNamespace : Type := {
  ns_groups : gmap string gid;
  ns_prefixes : gmap string (gmap string gid);
  ns_tails : gmap string (gset gid);
}.
#[global] Instance lcpNamespace_eta : Eta lcpNamespace := fun n =>
  {| ns_groups := ns_groups n; ns_prefixes := ns_prefixes n; ns_tails := ns_tails n |}.
Definition empty_namespace : lcpNamespace := {| ns_groups := ∅; ns_prefixes := ∅; ns_tails := ∅ |}.
Record matcher : Type := {
  m_ttl : duration;
  m_maxTurns : Z;
  m_maxGroups : Z;
  m_maxPrefixes : Z;
  m_heap : gmap gid lcpGroup;
  m_next : gid;
  m_groups : gmap string lcpNamespace;
  m_lru : list gid;
  m_groupCount : Z;
  m_prefixCount : Z;
  m_accessCounter : Z;
  m_operations : Z;
}.
#[global] Instance matcher_eta : Eta matcher := fun m =>
  {| m_ttl := m_ttl m; m_maxTurns := m_maxTurns m; m_maxGroups := m_maxGroups m; m_maxPrefixes := m_maxPrefixes m;
     m_heap := m_heap m; m_next := m_next m; m_groups := m_groups m; m_lru := m_lru m; m_groupCount := m_groupCount m;
     m_prefixCount := m_prefixCount m; m_accessCounter := m_accessCounter m; m_operations := m_operations m |}.

Definition or_default (n d : Z) : Z := if n <=? 0 then d else n.
Definition NewMerklePrefixMatcherWithConfig (ttl : duration) (maxTurns maxGroups maxPrefixes : Z) : matcher :=
  let maxTurns := or_default maxTurns defaultMatcherMaxTurns in
  let maxPrefixes := or_default maxPrefixes defaultMatcherMaxPrefixes in
  {| m_ttl := or_default ttl (60 * minute); m_maxTurns := maxTurns;
     m_maxGroups := or_default maxGroups defaultMatcherMaxGroups;
     m_maxPrefixes := if maxPrefixes <? maxTurns then maxTurns else maxPrefixes;
     m_heap := ∅; m_next := 0; m_groups := ∅; m_lru := []; m_groupCount := 0; m_prefixCount := 0;
     m_accessCounter := 0; m_operations := 0 |}.
Definition NewMerklePrefixMatcher (ttl : duration) : matcher := NewMerklePrefixMatcherWithConfig ttl 0 0 0.

(** ** Pointers *)

Definition deref (m : matcher) (g : gid) : option lcpGroup := m_heap m !! g.
Definition update_group (g : gid) (f : lcpGroup → lcpGroup) (m : matcher) : matcher := m <| m_heap := alter f g (m_heap m) |>.
Definition namespace_of (m : matcher) (name : string) : lcpNamespace := default empty_namespace (m_groups m !! name).
Definition on_namespace (name : string) (f : lcpNamespace → lcpNamespace) (m : matcher) : matcher :=
  m <| m_groups := alter f name (m_groups m) |>.
(** A namespace that is there from now on. *)
Definition namespaceLocked (name : string) (m : matcher) : matcher :=
  m <| m_groups := <[name := namespace_of m name]> (m_groups m) |>.
Definition nextAccessNumberLocked (m : matcher) : matcher * Z :=
  let n := wrapu64 (m_accessCounter m + 1) in (m <| m_accessCounter := n |>, n).
Definition remove_element (g : gid) (lru : list gid) : list gid := List.filter (fun x => negb (Nat.eqb x g)) lru.
Definition move_to_back (g : gid) (lru : list gid) : list gid :=
  if bool_decide (g ∈ lru) then remove_element g lru ++ [g] else lru.

Section Matcher.
Context `{H : Sha256}.

(** ** Removing and adding a group *)

Definition group_tails (group : lcpGroup) : list string :=
  if bool_decide (lg_tailFingerprints group = []) then lg_fingerprints group else lg_tailFingerprints group.
Definition pair_key (a b : string) : string := a +:+ nul +:+ b.
(** The last two, when there are two. *)
Definition tail_key (tails : list string) : option string :=
  match last tails, last (removelast tails) with
  | Some b, Some a => Some (pair_key a b)
  | _, _ => None
  end.
Definition drop_bucket {A} (empty : A → bool) (key : string) (bucket : A) (buckets : gmap string A) : gmap string A :=
  if empty bucket then delete key buckets else <[key := bucket]> buckets.
Definition drop_prefix (key : string) (prefixes : gmap string (gmap string gid)) (prefix : string) : gmap string (gmap string gid) :=
  match prefixes !! prefix with
  | None => prefixes
  | Some bucket => drop_bucket (fun b : gmap string gid => bool_decide (b = ∅)) prefix (delete key bucket) prefixes
  end.
Definition drop_tail (g : gid) (tails : gmap string (gset gid)) (key : string) : gmap string (gset gid) :=
  match tails !! key with
  | None => tails
  | Some bucket => drop_bucket (fun b : gset gid => bool_decide (b = ∅)) key (bucket ∖ {[g]}) tails
  end.
Definition unlink (g : gid) (group : lcpGroup) (ns : lcpNamespace) : lcpNamespace :=
  let ns := if bool_decide (ns_groups ns !! lg_key group = Some g) then ns <| ns_groups := delete (lg_key group) (ns_groups ns) |> else ns in
  let ns := ns <| ns_prefixes := foldl (drop_prefix (lg_key group)) (ns_prefixes ns) (lg_prefixKeys group) |> in
  match tail_key (group_tails group) with
  | Some key => ns <| ns_tails := drop_tail g (ns_tails ns) key |>
  | None => ns
  end.
Definition unlink_in (g : gid) (group : lcpGroup) (groups : gmap string lcpNamespace) : gmap string lcpNamespace :=
  match groups !! lg_namespace group with
  | None => groups
  | Some ns =>
      let ns := unlink g group ns in
      if bool_decide (ns_groups ns = ∅) then delete (lg_namespace group) groups else <[lg_namespace group := ns]> groups
  end.
Definition key_count (group : lcpGroup) : Z := Z.of_nat (length (lg_prefixKeys group)).
Definition removeGroupLocked (g : gid) (m : matcher) : matcher :=
  match deref m g with
  | None => m
  | Some group =>
      m <| m_groups := unlink_in g group (m_groups m) |> <| m_lru := remove_element g (m_lru m) |>
        <| m_groupCount := if 0 <? m_groupCount m then m_groupCount m - 1 else m_groupCount m |>
        <| m_prefixCount := if key_count group <=? m_prefixCount m then m_prefixCount m - key_count group else 0 |>
  end.
Definition add_prefix (key : string) (g : gid) (prefixes : gmap string (gmap string gid)) (prefix : string) :
    gmap string (gmap string gid) :=
  <[prefix := <[key := g]> (default ∅ (prefixes !! prefix))]> prefixes.
Definition link (g : gid) (group : lcpGroup) (ns : lcpNamespace) : lcpNamespace :=
  let ns := ns <| ns_groups := <[lg_key group := g]> (ns_groups ns) |>
               <| ns_prefixes := foldl (add_prefix (lg_key group) g) (ns_prefixes ns) (lg_prefixKeys group) |> in
  match tail_key (group_tails group) with
  | Some key => ns <| ns_tails := <[key := {[g]} ∪ default ∅ (ns_tails ns !! key)]> (ns_tails ns) |>
  | None => ns
  end.
(** One element of the list per turn; the bound is its length. *)
Fixpoint evict (fuel : nat) (m : matcher) : matcher :=
  match fuel, m_lru m with
  | S fuel, oldest :: _ =>
      if (m_maxGroups m <? m_groupCount m) || (m_maxPrefixes m <? m_prefixCount m)
      then evict fuel (removeGroupLocked oldest m) else m
  | _, _ => m
  end.
Definition with_keys (group : lcpGroup) : lcpGroup :=
  if bool_decide (lg_prefixKeys group = []) then group <| lg_prefixKeys := rollingPrefixKeys (lg_fingerprints group) |> else group.
(** Of the group at [g]. *)
Definition addGroupLocked (g : gid) (m : matcher) : matcher :=
  match deref m g with
  | None => m
  | Some group =>
      let group := with_keys group in
      let m := on_namespace (lg_namespace group) (link g group) (namespaceLocked (lg_namespace group) m) in
      let '(m, access) := nextAccessNumberLocked m in
      let m := m <| m_heap := <[g := group <| lg_lastAccessNumber := access |>]> (m_heap m) |>
                 <| m_lru := m_lru m ++ [g] |> <| m_groupCount := m_groupCount m + 1 |>
                 <| m_prefixCount := m_prefixCount m + key_count group |> in
      evict (length (m_lru m)) m
  end.
(** A new group and its handle. *)
Definition new_group (group : lcpGroup) (m : matcher) : matcher * gid :=
  (m <| m_heap := <[m_next m := group]> (m_heap m) |> <| m_next := S (m_next m) |>, m_next m).
(** A group that was used now. *)
Definition refresh (g : gid) (now : time) (m : matcher) : matcher :=
  let '(m, access) := nextAccessNumberLocked m in
  update_group g (fun group => group <| lg_expiresAt := now + m_ttl m |> <| lg_lastAccessNumber := access |>)
    (m <| m_lru := move_to_back g (m_lru m) |>).
Definition live (now : time) (group : lcpGroup) : bool := before now (lg_expiresAt group).

(** ** Matching *)

(** The groups of a bucket, in the order of the iteration. *)
Definition deref_all (m : matcher) (gs : list gid) : list (gid * lcpGroup) := omap (fun g => (g,.) <$> deref m g) gs.
Definition same_prefix (group : lcpGroup) (fingerprints : list string) : bool :=
  bool_decide (take (length fingerprints) (lg_fingerprints group) = fingerprints).
Definition newer_group (group best : lcpGroup) : bool :=
  (length (lg_fingerprints best) <? length (lg_fingerprints group))%nat
  || (length (lg_fingerprints group) =? length (lg_fingerprints best))%nat
     && ((lg_lastAccessNumber best <? lg_lastAccessNumber group)
         || (lg_lastAccessNumber group =? lg_lastAccessNumber best) && after (lg_expiresAt group) (lg_expiresAt best)).
Definition matches_now (fingerprints : list string) (now : time) (group : lcpGroup) : bool :=
  live now group && (lg_minPrefixLength group <=? Z.of_nat (length fingerprints))
  && (length fingerprints <=? length (lg_fingerprints group))%nat && same_prefix group fingerprints.
Definition newest_step (fingerprints : list string) (now : time) (best : option (gid * lcpGroup)) (entry : gid * lcpGroup) :
    option (gid * lcpGroup) :=
  if negb (matches_now fingerprints now entry.2) then best
  else match best with
       | None => Some entry
       | Some (_, group) => if newer_group entry.2 group then Some entry else best
       end.
Definition newestMatchingGroup (m : matcher) (bucket : gmap string gid) (fingerprints : list string) (now : time) :
    option (gid * lcpGroup) :=
  foldl (newest_step fingerprints now) None (deref_all m (map snd (map_to_list bucket))).

(** The binary search for the longest prefix, from [low] to [high]. *)
Definition candidate_at (m : matcher) (ns : lcpNamespace) (fingerprints prefixKeys : list string) (now : time) (middle : Z) :
    option (gid * lcpGroup) :=
  let prefix := default "" (prefixKeys !! Z.to_nat (middle - 1)) in
  newestMatchingGroup m (default ∅ (ns_prefixes ns !! prefix)) (take (Z.to_nat middle) fingerprints) now.
Fixpoint search_prefix (fuel : nat) (candidate : Z → option (gid * lcpGroup)) (low high : Z)
    (best : option (gid * lcpGroup)) (bestLength : Z) : option (gid * lcpGroup) * Z :=
  match fuel with
  | O => (best, bestLength)
  | S fuel =>
      if low <=? high then
        let middle := low + (high - low) / 2 in
        match candidate middle with
        | None => search_prefix fuel candidate low (middle - 1) best bestLength
        | Some found => search_prefix fuel candidate (middle + 1) high (Some found) middle
        end
      else (best, bestLength)
  end.

(** ** Compaction *)

(** How many turns agree before [candEnd] and [parentEnd], looking back. *)
Fixpoint overlap_from (fuel : nat) (cand parent : list string) (candEnd parentEnd : nat) : nat :=
  match fuel with
  | O => 0
  | S fuel =>
      match cand !! candEnd, parent !! parentEnd with
      | Some a, Some b =>
          if String.eqb a b then
            S (match candEnd, parentEnd with
               | S candEnd, S parentEnd => overlap_from fuel cand parent candEnd parentEnd
               | _, _ => 0
               end)
          else 0
      | _, _ => 0
      end
  end.
Definition calculateOverlap (cand parent : list string) (candEnd parentEnd : nat) : nat :=
  overlap_from maxCompactionProbeWindow cand parent candEnd parentEnd.
Definition isCompactionOverlap (fullCandLen candTailLen candEnd fullParentLen parentTailLen parentEnd overlap minPrefixLength bestLength : Z) : bool :=
  let candStartInTail := candEnd - overlap + 1 in
  let parentStart := fullParentLen - 1 - (parentTailLen - 1 - parentEnd) - overlap + 1 in
  let allowedStart := if minPrefixLength <? bestLength + 1 then bestLength + 1 else minPrefixLength in
  let candStartInFull := fullCandLen - 1 - (candTailLen - 1 - candEnd) - overlap + 1 in
  if (0 <? candStartInTail) && (allowedStart <? candStartInFull) then false
  else (0 <? candEnd - overlap + 1) || (0 <? parentStart).
Definition parent_session (m : matcher) (ns : lcpNamespace) (sessionID : string) : string :=
  default "" (head (omap (fun e : gid * lcpGroup =>
    if String.eqb (lg_sessionID e.2) sessionID && negb (String.eqb (lg_parentSessionID e.2) "") then Some (lg_parentSessionID e.2) else None)
    (deref_all m (map snd (map_to_list (ns_groups ns)))))).
Fixpoint ancestor_within (depth : nat) (m : matcher) (ns : lcpNamespace) (ancestorID currID : string) : bool :=
  match depth with
  | O => false
  | S depth =>
      let parentID := parent_session m ns currID in
      if String.eqb parentID "" then false
      else if String.eqb parentID ancestorID then true
      else ancestor_within depth m ns ancestorID parentID
  end.
Definition isAncestorSession (m : matcher) (ns : lcpNamespace) (ancestorID descendantID : string) : bool :=
  if String.eqb ancestorID "" || String.eqb descendantID "" || String.eqb ancestorID descendantID then false
  else ancestor_within 32 m ns ancestorID descendantID.
(** [(maxCandidates, bestOverlap)]. *)
Definition overlap_step (candTail : list string) (envDigest : string) (fullLen minPrefixLength bestLength : Z) (candEnd : nat)
    (acc : list (gid * lcpGroup) * nat) (entry : gid * lcpGroup) : list (gid * lcpGroup) * nat :=
  let '(maxCandidates, bestOverlap) := acc in
  let group := entry.2 in
  let tails := group_tails group in
  let tLen := length tails in
  if negb (String.eqb (lg_environmentDigest group) envDigest) || (tLen <? minCompactionOverlapTurns)%nat then acc
  else
    let overlap := calculateOverlap candTail tails candEnd (tLen - 1) in
    if (minCompactionOverlapTurns <=? overlap)%nat
       && isCompactionOverlap fullLen (Z.of_nat (length candTail)) (Z.of_nat candEnd)
            (Z.of_nat (length (lg_fingerprints group))) (Z.of_nat tLen) (Z.of_nat tLen - 1) (Z.of_nat overlap) minPrefixLength bestLength
    then
      if (bestOverlap <? overlap)%nat then ([entry], overlap)
      else if (overlap =? bestOverlap)%nat && negb (existsb (fun e => String.eqb (lg_sessionID e.2) (lg_sessionID group)) maxCandidates)
      then (maxCandidates ++ [entry], bestOverlap) else acc
    else acc.
(** One end of the tail: the namespace with its bucket pruned, the candidates, and whether a
    bucket was too full. *)
Definition probe_step (m : matcher) (now : time) (candTail : list string) (envDigest : string) (fullLen minPrefixLength bestLength : Z)
    (acc : lcpNamespace * (list (gid * lcpGroup) * nat) * bool) (candEnd : nat) : lcpNamespace * (list (gid * lcpGroup) * nat) * bool :=
  let '(ns, found, hasOverflow) := acc in
  let tailKey := pair_key (default "" (candTail !! (candEnd - 1)%nat)) (default "" (candTail !! candEnd)) in
  match ns_tails ns !! tailKey with
  | None => acc
  | Some bucket =>
      let alive := List.filter (fun e => live now e.2) (deref_all m (elements bucket)) in
      let bucket := list_to_set (map fst alive) : gset gid in
      let ns := ns <| ns_tails := drop_bucket (fun b : gset gid => bool_decide (b = ∅)) tailKey bucket (ns_tails ns) |> in
      if bool_decide (alive = []) then (ns, found, hasOverflow)
      else if (maxTailsPerKey <? length alive)%nat then (ns, found, true)
      else (ns, foldl (overlap_step candTail envDigest fullLen minPrefixLength bestLength candEnd) found alive, hasOverflow)
  end.
(** The ends from the last down to the second. *)
Definition tail_ends (n : nat) : list nat := reverse (seq 1 (n - 1)).
Definition is_leaf (m : matcher) (ns : lcpNamespace) (all : list (gid * lcpGroup)) (c1 : gid * lcpGroup) : bool :=
  negb (existsb (fun c2 => negb (String.eqb (lg_sessionID c1.2) (lg_sessionID c2.2))
                           && isAncestorSession m ns (lg_sessionID c1.2) (lg_sessionID c2.2)) all).
Definition matchCompactionLocked (namespace : string) (fingerprints tailFingerprints : list string) (envDigest : string)
    (minPrefixLength bestLength : Z) (now : time) (m : matcher) : matcher * option MerklePrefixMatch :=
  let candTail := if bool_decide (tailFingerprints = []) then extractTailFingerprints fingerprints else tailFingerprints in
  if (length candTail <? minCompactionOverlapTurns)%nat then (m, None)
  else
    let '(ns, (maxCandidates, bestOverlap), hasOverflow) :=
      foldl (probe_step m now candTail envDigest (Z.of_nat (length fingerprints)) minPrefixLength bestLength)
        (namespace_of m namespace, ([], 0%nat), false) (tail_ends (length candTail)) in
    let m := on_namespace namespace (fun _ => ns) m in
    if hasOverflow || bool_decide (length maxCandidates = 0%nat) then (m, None)
    else
      match List.filter (is_leaf m ns maxCandidates) maxCandidates with
      | [(g, best)] =>
          let m := refresh g now m in
          let parentSessionID := lg_sessionID best in
          (m, Some {| mt_AuthID := lg_authID best;
                      mt_SessionID := newLCPCompactionSessionID namespace parentSessionID (sequenceKey fingerprints);
                      mt_ParentSessionID := parentSessionID; mt_PrefixLength := Z.of_nat bestOverlap; mt_IsFork := false;
                      mt_IsCompaction := true; mt_NodeKind := "compaction"; mt_AccessNumber := m_accessCounter m |})
      | _ => (m, None)
      end.

(** ** The longest known prefix *)

Definition matchLocked (namespace : string) (fingerprints tailFingerprints : list string) (envDigest : string) (minPrefixLength : Z)
    (now : time) (m : matcher) : matcher * option MerklePrefixMatch :=
  match m_groups m !! namespace with
  | None => (m, None)
  | Some ns =>
      if bool_decide (fingerprints = []) || (minPrefixLength <=? 0) || (Z.of_nat (length fingerprints) <? minPrefixLength) then (m, None)
      else
        let prefixKeys := rollingPrefixKeys fingerprints in
        let n := Z.of_nat (length fingerprints) in
        let '(best, bestLength) := search_prefix (length fingerprints) (candidate_at m ns fingerprints prefixKeys now) minPrefixLength n None 0 in
        match best with
        | None => matchCompactionLocked namespace fingerprints tailFingerprints envDigest minPrefixLength 0 now m
        | Some (g, best) =>
            let m := refresh g now m in
            let access := m_accessCounter m in
            let found (parent session : string) (isFork : bool) (kind : string) :=
              {| mt_AuthID := lg_authID best; mt_SessionID := session; mt_ParentSessionID := parent; mt_PrefixLength := bestLength;
                 mt_IsFork := isFork; mt_IsCompaction := lg_isCompaction best && negb isFork; mt_NodeKind := kind;
                 mt_AccessNumber := access |} in
            if (bestLength <? Z.of_nat (length (lg_fingerprints best))) && (bestLength <? n) then
              match matchCompactionLocked namespace fingerprints tailFingerprints envDigest minPrefixLength bestLength now m with
              | (m, Some compaction) => (m, Some compaction)
              | (m, None) =>
                  let key i := default "" (prefixKeys !! Z.to_nat i) in
                  (m, Some (found (newLCPSessionID namespace (key (bestLength - 1))) (newLCPSessionID namespace (key bestLength)) true "fork"))
              end
            else (m, Some (found (lg_parentSessionID best) (lg_sessionID best) false (lg_nodeKind best)))
        end
  end.

(** ** Binding *)

Definition find_group (m : matcher) (namespace key : string) : option (gid * lcpGroup) :=
  g ← ns_groups (namespace_of m namespace) !! key; (g,.) <$> deref m g.
Definition bind_result (m : matcher) (g : gid) : MerklePrefixBindResult :=
  match deref m g with
  | Some group => {| br_SessionID := lg_sessionID group; br_ParentSessionID := lg_parentSessionID group; br_IsFork := lg_isFork group;
                     br_IsCompaction := lg_isCompaction group; br_NodeKind := lg_nodeKind group;
                     br_AccessNumber := lg_lastAccessNumber group |}
  | None => no_bind
  end.
Definition add_new (group : lcpGroup) (m : matcher) : matcher * MerklePrefixBindResult :=
  let '(m, access) := nextAccessNumberLocked m in
  let '(m, g) := new_group (group <| lg_lastAccessNumber := access |>) m in
  let m := addGroupLocked g m in
  (m, bind_result m g).
(** A group for a sequence that is not known. *)
Definition bind_new (namespace : string) (fingerprints tailFingerprints : list string) (envDigest : string) (minPrefixLength : Z)
    (authID : string) (now : time) (m : matcher) : matcher * MerklePrefixBindResult :=
  let '(m, found) := matchLocked namespace fingerprints tailFingerprints envDigest minPrefixLength now m in
  let authID := match found with
                | Some f => if mt_IsCompaction f && negb (String.eqb (mt_AuthID f) "") && String.eqb authID "" then mt_AuthID f else authID
                | None => authID
                end in
  let prefixKeys := rollingPrefixKeys fingerprints in
  let targetIndex := if (0 <? minPrefixLength) && (minPrefixLength <=? Z.of_nat (length prefixKeys)) then minPrefixLength - 1 else 0 in
  let sessionID := match found with Some f => mt_SessionID f | None => "" end in
  let sessionID := if String.eqb sessionID "" then newLCPSessionID namespace (default "" (prefixKeys !! Z.to_nat targetIndex)) else sessionID in
  add_new {| lg_key := sequenceKey fingerprints; lg_namespace := namespace; lg_authID := authID; lg_sessionID := sessionID;
             lg_parentSessionID := match found with Some f => mt_ParentSessionID f | None => "" end;
             lg_minPrefixLength := minPrefixLength; lg_isFork := match found with Some f => mt_IsFork f | None => false end;
             lg_isCompaction := match found with Some f => mt_IsCompaction f | None => false end;
             lg_nodeKind := match found with Some f => mt_NodeKind f | None => "" end; lg_environmentDigest := envDigest;
             lg_fingerprints := fingerprints; lg_tailFingerprints := tailFingerprints; lg_prefixKeys := prefixKeys;
             lg_expiresAt := now + m_ttl m; lg_lastAccessNumber := 0 |} m.
Definition bindLocked (namespace : string) (fingerprints tailFingerprints : list string) (envDigest : string) (minPrefixLength : Z)
    (authID : string) (now : time) (m : matcher) : matcher * MerklePrefixBindResult :=
  let tailFingerprints := if bool_decide (tailFingerprints = []) then extractTailFingerprints fingerprints else tailFingerprints in
  let envDigest := if String.eqb envDigest "" then environmentDigest fingerprints minPrefixLength else envDigest in
  let m := namespaceLocked namespace m in
  match find_group m namespace (sequenceKey fingerprints) with
  | Some (g, existing) =>
      let m := removeGroupLocked g m in
      if live now existing then
        add_new (existing <| lg_key := sequenceKey fingerprints |> <| lg_namespace := namespace |> <| lg_authID := authID |>
                   <| lg_minPrefixLength := minPrefixLength |> <| lg_environmentDigest := envDigest |>
                   <| lg_fingerprints := fingerprints |> <| lg_tailFingerprints := tailFingerprints |>
                   <| lg_expiresAt := now + m_ttl m |>) m
      else bind_new namespace fingerprints tailFingerprints envDigest minPrefixLength authID now m
  | None => bind_new namespace fingerprints tailFingerprints envDigest minPrefixLength authID now m
  end.
Definition touchLocked (namespace : string) (fingerprints tailFingerprints : list string) (envDigest : string) (minPrefixLength : Z)
    (authID : string) (now : time) (m : matcher) : matcher * bool :=
  let m := namespaceLocked namespace m in
  match find_group m namespace (sequenceKey fingerprints) with
  | Some (g, existing) =>
      if negb (live now existing) then
        ((bindLocked namespace fingerprints tailFingerprints envDigest minPrefixLength authID now (removeGroupLocked g m)).1, true)
      else if negb (String.eqb (lg_authID existing) authID)
              && negb (String.eqb (lg_authID existing) "home-pending" || String.eqb (lg_authID existing) "")
      then (m, false)
      else
        let '(m, access) := nextAccessNumberLocked m in
        let m := update_group g (fun group => group <| lg_authID := authID |> <| lg_expiresAt := now + m_ttl m |>
                                                    <| lg_lastAccessNumber := access |> <| lg_environmentDigest := envDigest |>) m in
        let m := if negb (bool_decide (tailFingerprints = [])) && negb (bool_decide (lg_tailFingerprints existing = tailFingerprints))
                 then addGroupLocked g (update_group g (fun group => group <| lg_tailFingerprints := tailFingerprints |>) (removeGroupLocked g m))
                 else m in
        (m <| m_lru := move_to_back g (m_lru m) |>, true)
  | None => ((bindLocked namespace fingerprints tailFingerprints envDigest minPrefixLength authID now m).1, true)
  end.

(** ** The operations *)

(** All groups, in the order of the iteration. *)
Definition all_groups (m : matcher) : list (gid * lcpGroup) :=
  concat (map (fun e => deref_all m (map snd (map_to_list (ns_groups e.2)))) (map_to_list (m_groups m))).
Definition remove_all (gs : list gid) (m : matcher) : matcher := foldl (fun m g => removeGroupLocked g m) m gs.
Definition cleanupLocked (now : time) (m : matcher) : matcher :=
  remove_all (map fst (List.filter (fun e => negb (live now e.2)) (all_groups m))) m.
Definition prepareLocked (now : time) (m : matcher) : matcher :=
  let operations := wrapu64 (m_operations m + 1) in
  let m := m <| m_operations := operations |> in
  if operations mod 128 =? 0 then cleanupLocked now m else m.
Definition max_turns (m : matcher) : Z := if m_maxTurns m <=? 0 then defaultMatcherMaxTurns else m_maxTurns m.
Definition sanitizeFingerprints (m : matcher) (fingerprints : list string) (minPrefixLength : Z) : option (list string * Z) :=
  let n := Z.of_nat (length fingerprints) in
  if bool_decide (fingerprints = []) || (minPrefixLength <=? 0) || (n <? minPrefixLength) then None
  else if max_turns m <? n then
    if max_turns m <? minPrefixLength then None else Some (take (Z.to_nat (max_turns m)) fingerprints, minPrefixLength)
  else Some (fingerprints, minPrefixLength).
(** The tail and the digest a request comes with, or those of its fingerprints. *)
Definition context_of (fingerprints tailFingerprints : list string) (envDigest : string) (minPrefixLength : Z) : list string * string :=
  (if bool_decide (tailFingerprints = []) then extractTailFingerprints fingerprints else tailFingerprints,
   if String.eqb envDigest "" then environmentDigest fingerprints minPrefixLength else envDigest).
Definition MatchFingerprintsWithContext (namespace : string) (fingerprints tailFingerprints : list string) (envDigest : string)
    (minPrefixLength : Z) (now : time) (m : matcher) : matcher * option MerklePrefixMatch :=
  if String.eqb namespace "" then (m, None)
  else
    let '(tails, digest) := context_of fingerprints tailFingerprints envDigest minPrefixLength in
    match sanitizeFingerprints m fingerprints minPrefixLength with
    | None => (m, None)
    | Some (fingerprints, minPrefixLength) => matchLocked namespace fingerprints tails digest minPrefixLength now (prepareLocked now m)
    end.
Definition BindFingerprintsWithContext (namespace : string) (fingerprints tailFingerprints : list string) (envDigest : string)
    (minPrefixLength : Z) (authID : string) (now : time) (m : matcher) : matcher * MerklePrefixBindResult :=
  if String.eqb (trim_space namespace) "" || String.eqb (trim_space authID) "" then (m, no_bind)
  else
    let '(tails, digest) := context_of fingerprints tailFingerprints envDigest minPrefixLength in
    match sanitizeFingerprints m fingerprints minPrefixLength with
    | None => (m, no_bind)
    | Some (fingerprints, minPrefixLength) =>
        bindLocked namespace fingerprints tails digest minPrefixLength (trim_space authID) now (prepareLocked now m)
    end.
Definition TouchFingerprintsWithContext (namespace : string) (fingerprints tailFingerprints : list string) (envDigest : string)
    (minPrefixLength : Z) (authID : string) (now : time) (m : matcher) : matcher * bool :=
  if String.eqb (trim_space namespace) "" || String.eqb (trim_space authID) "" then (m, false)
  else
    let '(tails, digest) := context_of fingerprints tailFingerprints envDigest minPrefixLength in
    match sanitizeFingerprints m fingerprints minPrefixLength with
    | None => (m, false)
    | Some (fingerprints, minPrefixLength) =>
        touchLocked namespace fingerprints tails digest minPrefixLength (trim_space authID) now (prepareLocked now m)
    end.
(** The group was used after the generation the caller knows. *)
Definition used_since (maxGeneration : Z) (group : lcpGroup) : bool := (0 <? maxGeneration) && (maxGeneration <? lg_lastAccessNumber group).
Definition RemoveFingerprintsBefore (namespace : string) (fingerprints : list string) (authID : string) (maxGeneration : Z) (now : time)
    (m : matcher) : matcher * bool :=
  if String.eqb namespace "" || String.eqb authID "" || bool_decide (fingerprints = []) then (m, false)
  else
    let fingerprints := if max_turns m <? Z.of_nat (length fingerprints) then take (Z.to_nat (max_turns m)) fingerprints else fingerprints in
    let m := prepareLocked now m in
    match find_group m namespace (sequenceKey fingerprints) with
    | Some (g, group) =>
        if negb (String.eqb (lg_authID group) authID) || used_since maxGeneration group then (m, false) else (removeGroupLocked g m, true)
    | None => (m, false)
    end.
Definition RemoveFingerprints (namespace : string) (fingerprints : list string) (authID : string) (now : time) (m : matcher) : matcher * bool :=
  RemoveFingerprintsBefore namespace fingerprints authID 0 now m.
Definition groups_of (m : matcher) (namespace : string) : list (gid * lcpGroup) :=
  deref_all m (map snd (map_to_list (ns_groups (namespace_of m namespace)))).
Definition RemoveSessionBefore (namespace sessionID authID : string) (maxGeneration : Z) (now : time) (m : matcher) : matcher * bool :=
  if String.eqb namespace "" || String.eqb sessionID "" || String.eqb authID "" then (m, false)
  else
    let m := prepareLocked now m in
    let toRemove := List.filter (fun e => String.eqb (lg_sessionID e.2) sessionID && String.eqb (lg_authID e.2) authID
                                          && negb (used_since maxGeneration e.2)) (groups_of m namespace) in
    (remove_all (map fst toRemove) m, negb (bool_decide (toRemove = []))).
Definition InvalidateAuth (authID : string) (m : matcher) : matcher :=
  if String.eqb authID "" then m
  else remove_all (map fst (List.filter (fun e => String.eqb (lg_authID e.2) authID) (all_groups m))) m.
Definition Clear (m : matcher) : matcher :=
  m <| m_groups := ∅ |> <| m_lru := [] |> <| m_groupCount := 0 |> <| m_prefixCount := 0 |>.
(** The credentials of a session, sorted, and the namespace of one of its groups. *)
Definition LookupSession (sessionID : string) (now : time) (m : matcher) : matcher * list string * string :=
  if String.eqb sessionID "" then (m, [], "")
  else
    let mine := List.filter (fun e => String.eqb (lg_sessionID e.2) sessionID) (all_groups m) in
    let active := List.filter (fun e => live now e.2) mine in
    let m := remove_all (map fst (List.filter (fun e => negb (live now e.2)) mine)) m in
    (m, sort_by (fun s => s) (elements (list_to_set (List.filter (fun s => negb (String.eqb s "")) (map (fun e => lg_authID e.2) active)) : gset string)),
     default "" (head (map (fun e => lg_namespace e.2) active))).

End Matcher.

End LcpMatcher.
