(* ===== verification/LcpInv.v ===== *)
(** * The indexes of the prefix matcher agree

    The invariant of [LcpMatcher]: the groups, the buckets of their prefixes and tails,
    the list and the counters say the same, within the bounds; and that every operation
    keeps it. *)
From S2P Require Import Prelude GoLib LcpKeys LcpMatcher.
Import LcpKeys LcpMatcher.

(** What the callers promise of the fingerprints and the minimal length they pass. *)
Class Promise : Type := promise : list string → Z → Prop.

Module LcpInv.
Section Inv.
Context `{H : Sha256, P : Promise}.
Implicit Types (m : matcher) (ns : lcpNamespace) (g : gid) (gr : lcpGroup).

(** ** One namespace *)

Definition pref (ns : lcpNamespace) (p k : string) : option gid := default ∅ (ns_prefixes ns !! p) !! k.
(** The parts of a group that name each other. *)
Record shape (gr : lcpGroup) : Prop := {
  sh_keys : lg_prefixKeys gr = rollingPrefixKeys (lg_fingerprints gr);
  sh_key : lg_key gr = sequenceKey (lg_fingerprints gr);
  sh_some : lg_fingerprints gr ≠ [];
  sh_promise : promise (lg_fingerprints gr) (lg_minPrefixLength gr);
}.
Record ns_ok (heap : gmap gid lcpGroup) (name : string) (ns : lcpNamespace) : Prop := {
  nk_group : ∀ k g, ns_groups ns !! k = Some g → ∃ gr, heap !! g = Some gr ∧ lg_namespace gr = name ∧ lg_key gr = k ∧ shape gr;
  nk_prefix : ∀ p k g, pref ns p k = Some g ↔ ns_groups ns !! k = Some g ∧ ∃ gr, heap !! g = Some gr ∧ p ∈ lg_prefixKeys gr;
  nk_tail : ∀ t g, g ∈ default ∅ (ns_tails ns !! t) →
    ∃ gr, heap !! g = Some gr ∧ ns_groups ns !! lg_key gr = Some g ∧ tail_key (group_tails gr) = Some t;
}.
Lemma empty_ok heap name : ns_ok heap name empty_namespace.
Proof.
  split; cbn; intros; [by rewrite lookup_empty in *| |by rewrite lookup_empty in *].
  unfold pref. cbn. rewrite lookup_empty. cbn. rewrite !lookup_empty. split; [done|by intros [? _]].
Qed.

Lemma drop_prefix_pref key prefixes p p' k :
  default ∅ (drop_prefix key prefixes p !! p') !! k = if bool_decide (p' = p ∧ k = key) then None else default ∅ (prefixes !! p') !! k.
Proof.
  unfold drop_prefix, drop_bucket. destruct (decide (p' = p)) as [->|Hp].
  2: { rewrite bool_decide_eq_false_2 by naive_solver. destruct (prefixes !! p) as [b|]; [|done].
       destruct (bool_decide _); [by rewrite lookup_delete_ne|by rewrite lookup_insert_ne]. }
  destruct (prefixes !! p) as [b|] eqn:E.
  2: { rewrite E. cbn. rewrite lookup_empty. by destruct (bool_decide _). }
  assert (default ∅ ((if bool_decide (delete key b = ∅) then delete p prefixes else <[p:=delete key b]> prefixes) !! p) = delete key b) as ->.
  { case_bool_decide as He; [by rewrite lookup_delete_eq, He|by rewrite lookup_insert_eq]. }
  destruct (decide (k = key)) as [->|Hk]; [rewrite bool_decide_eq_true_2 by done; apply lookup_delete_eq|].
  rewrite bool_decide_eq_false_2 by naive_solver. by apply lookup_delete_ne.
Qed.
Lemma drop_prefixes_pref key ps prefixes p' k :
  default ∅ (foldl (drop_prefix key) prefixes ps !! p') !! k
  = if bool_decide (p' ∈ ps ∧ k = key) then None else default ∅ (prefixes !! p') !! k.
Proof.
  revert prefixes. induction ps as [|p ps IH]; intros prefixes; cbn [foldl]; [by rewrite bool_decide_eq_false_2 by set_solver|].
  rewrite IH, drop_prefix_pref. repeat case_bool_decide; set_solver.
Qed.
Lemma add_prefixes_pref key g ps prefixes p' k :
  default ∅ (foldl (add_prefix key g) prefixes ps !! p') !! k
  = if bool_decide (p' ∈ ps ∧ k = key) then Some g else default ∅ (prefixes !! p') !! k.
Proof.
  revert prefixes. induction ps as [|p ps IH]; intros prefixes; cbn [foldl]; [by rewrite bool_decide_eq_false_2 by set_solver|].
  rewrite IH. unfold add_prefix. destruct (decide (p' = p)) as [->|Hp].
  - rewrite lookup_insert_eq. cbn. destruct (decide (k = key)) as [->|Hk].
    + rewrite lookup_insert_eq. rewrite (bool_decide_eq_true_2 (p ∈ p :: ps ∧ _)) by set_solver. by case_bool_decide.
    + rewrite lookup_insert_ne by done. rewrite !bool_decide_eq_false_2 by naive_solver. done.
  - rewrite lookup_insert_ne by done. repeat case_bool_decide; set_solver.
Qed.

Lemma drop_tail_elem g tails t t' g' : g' ∈ default ∅ (drop_tail g tails t !! t') →
  g' ∈ default ∅ (tails !! t') ∧ (t' = t → g' ≠ g).
Proof.
  unfold drop_tail, drop_bucket. destruct (tails !! t) as [b|] eqn:E.
  - destruct (decide (t' = t)) as [->|Ht].
    + rewrite E. case_bool_decide; [rewrite lookup_delete_eq|rewrite lookup_insert_eq]; cbn; set_solver.
    + case_bool_decide; [rewrite lookup_delete_ne by done|rewrite lookup_insert_ne by done]; naive_solver.
  - intros Hg. split; [done|]. intros ->. rewrite E in Hg. cbn in Hg. set_solver.
Qed.

(** What the indexes read of a group. *)
Definition index_view (gr : lcpGroup) :=
  (lg_namespace gr, lg_key gr, lg_fingerprints gr, lg_prefixKeys gr, lg_tailFingerprints gr, lg_minPrefixLength gr).
Lemma index_shape gr gr' : index_view gr' = index_view gr → shape gr → shape gr'.
Proof. intros [= H1 H2 H3 H4 H5 H6] [A B C D]. split; congruence. Qed.
Lemma index_tails gr gr' : index_view gr' = index_view gr → group_tails gr' = group_tails gr.
Proof. intros [= H1 H2 H3 H4 H5 H6]. unfold group_tails. by rewrite H3, H5. Qed.
Lemma ns_ok_heap heap heap' name ns : ns_ok heap name ns →
  (∀ k g gr, ns_groups ns !! k = Some g → heap !! g = Some gr → ∃ gr', heap' !! g = Some gr' ∧ index_view gr' = index_view gr) →
  ns_ok heap' name ns.
Proof.
  intros [A B C] Hh. split.
  - intros k g Hg. destruct (A k g Hg) as (gr & H1 & H2 & H3 & H4). destruct (Hh k g gr Hg H1) as (gr' & H5 & H6).
    exists gr'. split; [done|]. pose proof (index_shape gr gr' H6 H4). injection H6 as -> -> _ _ _ _. done.
  - intros p k g. rewrite B. split; intros [Hg (gr & H1 & H2)]; (split; [done|]).
    + destruct (Hh k g gr Hg H1) as (gr' & H5 & [= _ _ _ H6 _ _]). exists gr'. by rewrite H6.
    + destruct (A k g Hg) as (gr0 & H3 & _). destruct (Hh k g gr0 Hg H3) as (gr' & H5 & [= _ _ _ H6 _ _]). exists gr0.
      rewrite H5 in H1. injection H1 as ->. by rewrite <- H6.
  - intros t g Hg. destruct (C t g Hg) as (gr & H1 & H2 & H3). destruct (Hh _ g gr H2 H1) as (gr' & H5 & H6). exists gr'.
    rewrite (index_tails gr gr' H6). injection H6 as _ -> _ _ _ _. done.
Qed.

Lemma unlink_ok heap name ns g gr : ns_ok heap name ns → heap !! g = Some gr → ns_groups ns !! lg_key gr = Some g →
  ns_groups (unlink g gr ns) = delete (lg_key gr) (ns_groups ns) ∧ ns_ok heap name (unlink g gr ns).
Proof.
  intros [A B C] Hh Hg. unfold unlink. cbv zeta. rewrite bool_decide_eq_true_2 by done.
  match goal with |- context [set ns_prefixes (fun _ => foldl _ (ns_prefixes ?n) _) ?n] => set (ns1 := set ns_prefixes (fun _ => foldl (drop_prefix (lg_key gr)) (ns_prefixes n) (lg_prefixKeys gr)) n) end.
  assert (ns_groups ns1 = delete (lg_key gr) (ns_groups ns)) as E1 by done. assert (ns_tails ns1 = ns_tails ns) as E2 by done.
  assert (∀ p k, pref ns1 p k = if bool_decide (p ∈ lg_prefixKeys gr ∧ k = lg_key gr) then None else pref ns p k) as E3
    by (intros p k; apply drop_prefixes_pref).
  set (ns2 := match tail_key (group_tails gr) with Some t => _ | None => _ end).
  assert (ns_groups ns2 = delete (lg_key gr) (ns_groups ns)) as F1 by (unfold ns2; by destruct (tail_key _)).
  assert (∀ p k, pref ns2 p k = pref ns1 p k) as F3 by (intros p k; unfold ns2; by destruct (tail_key _)).
  assert (∀ t g', g' ∈ default ∅ (ns_tails ns2 !! t) → g' ∈ default ∅ (ns_tails ns !! t) ∧ g' ≠ g) as F2.
  { intros t g' Hg'. assert (g' ∈ default ∅ (ns_tails ns !! t) ∧ (tail_key (group_tails gr) = Some t → g' ≠ g)) as [Ho Hn].
    { unfold ns2 in Hg'. destruct (tail_key (group_tails gr)) as [t0|]; [|by rewrite <- E2].
      apply drop_tail_elem in Hg' as [Ho Hn]. split; [by rewrite <- E2|]. intros [= ->]. by apply Hn. }
    split; [done|]. intros ->. destruct (C t g Ho) as (gr' & H1 & _ & H3). rewrite Hh in H1. injection H1 as <-. by apply Hn. }
  clearbody ns1 ns2. split; [done|]. split.
  - intros k g'. rewrite F1. intros [_ Hk]%lookup_delete_Some. by apply A.
  - intros p k g'. rewrite F1, F3, E3, lookup_delete_Some. case_bool_decide as Hb.
    + destruct Hb as [_ ->]. naive_solver.
    + rewrite B. split; [|naive_solver]. intros [H1 (gr' & H2 & H3)]. split; [|by exists gr']. split; [|done]. intros <-.
      apply Hb. rewrite Hg in H1. injection H1 as ->. rewrite Hh in H2. by injection H2 as ->.
  - intros t g' Hg'. destruct (F2 t g' Hg') as [Ho Hne]. destruct (C t g' Ho) as (gr' & H1 & H2 & H3). exists gr'. split; [done|]. split; [|done].
    rewrite F1. apply lookup_delete_Some. split; [|done]. intros E. rewrite <- E in H2. congruence.
Qed.
Lemma link_ok heap name ns g gr : ns_ok heap name ns → heap !! g = Some gr → lg_namespace gr = name → shape gr →
  ns_groups ns !! lg_key gr = None →
  ns_groups (link g gr ns) = <[lg_key gr := g]> (ns_groups ns) ∧ ns_ok heap name (link g gr ns).
Proof.
  intros [A B C] Hh Hn Hs Hg. unfold link. cbv zeta.
  match goal with |- context [set ns_prefixes (fun _ => foldl _ _ _) ?n] => set (ns1 := set ns_prefixes (fun _ => foldl (add_prefix (lg_key gr) g) (ns_prefixes ns) (lg_prefixKeys gr)) n) end.
  assert (ns_groups ns1 = <[lg_key gr := g]> (ns_groups ns)) as E1 by done. assert (ns_tails ns1 = ns_tails ns) as E2 by done.
  assert (∀ p k, pref ns1 p k = if bool_decide (p ∈ lg_prefixKeys gr ∧ k = lg_key gr) then Some g else pref ns p k) as E3
    by (intros p k; apply add_prefixes_pref).
  set (ns2 := match tail_key (group_tails gr) with Some t => _ | None => _ end).
  assert (ns_groups ns2 = <[lg_key gr := g]> (ns_groups ns)) as F1 by (unfold ns2; by destruct (tail_key _)).
  assert (∀ p k, pref ns2 p k = pref ns1 p k) as F3 by (intros p k; unfold ns2; by destruct (tail_key _)).
  assert (∀ t g', g' ∈ default ∅ (ns_tails ns2 !! t) → g' ∈ default ∅ (ns_tails ns !! t) ∨ g' = g ∧ tail_key (group_tails gr) = Some t) as F2.
  { intros t g' Hg'. unfold ns2 in Hg'. destruct (tail_key (group_tails gr)) as [t0|]; [|left; by rewrite <- E2].
    change (g' ∈ default ∅ (<[t0:={[g]} ∪ default ∅ (ns_tails ns1 !! t0)]> (ns_tails ns1) !! t)) in Hg'. rewrite E2 in Hg'.
    destruct (decide (t = t0)) as [->|]; [rewrite lookup_insert_eq in Hg'; cbn in Hg'; set_solver|]. left. by rewrite lookup_insert_ne in Hg'. }
  clearbody ns1 ns2. split; [done|]. split.
  - intros k g'. rewrite F1. intros [[<- <-]|[_ Hk]]%lookup_insert_Some; [by exists gr|by apply A].
  - intros p k g'. rewrite F1, F3, E3, lookup_insert_Some. case_bool_decide as Hb.
    + destruct Hb as [Hp ->]. split; [intros [= <-]; split; [by left|by exists gr]|]. intros [[[_ ->]|[? _]] _]; done.
    + rewrite B. split; [intros [H1 H2]; split; [|done]; right; split; [|done]; intros <-; congruence|].
      intros [[[<- <-]|[H1 H2]] H3]; [|done]. destruct H3 as (gr' & H3 & H4). rewrite Hh in H3. injection H3 as <-. exfalso. by apply Hb.
  - intros t g' Hg'. destruct (F2 t g' Hg') as [Ho|[-> Ht]].
    + destruct (C t g' Ho) as (gr' & H1 & H2 & H3). exists gr'. split; [done|]. split; [|done]. rewrite F1, lookup_insert_ne; [done|]. congruence.
    + exists gr. split; [done|]. split; [|done]. by rewrite F1, lookup_insert_eq.
Qed.

(** ** The whole matcher *)

Definition group_at (m : matcher) (name key : string) (g : gid) : Prop := ns_groups (namespace_of m name) !! key = Some g.
Definition count_of (heap : gmap gid lcpGroup) (g : gid) : Z := match heap !! g with Some gr => key_count gr | None => 0 end.
Definition config_of (m : matcher) := (m_ttl m, m_maxTurns m, m_maxGroups m, m_maxPrefixes m).
Record minv (m : matcher) : Prop := {
  mi_ns : ∀ name, ns_ok (m_heap m) name (namespace_of m name);
  mi_nodup : NoDup (m_lru m);
  mi_member : ∀ g, g ∈ m_lru m ↔ ∃ name key, group_at m name key g;
  mi_count : m_groupCount m = Z.of_nat (length (m_lru m));
  mi_prefixes : m_prefixCount m = zsum (count_of (m_heap m)) (m_lru m);
  mi_fresh : ∀ g gr, m_heap m !! g = Some gr → (g < m_next m)%nat;
}.
Definition bounded (m : matcher) : Prop := m_groupCount m ≤ m_maxGroups m ∧ m_prefixCount m ≤ m_maxPrefixes m.

Lemma count_nonneg heap g : 0 ≤ count_of heap g.
Proof. unfold count_of, key_count. destruct (heap !! g); lia. Qed.
Lemma group_at_heap m name key g : minv m → group_at m name key g →
  ∃ gr, deref m g = Some gr ∧ lg_namespace gr = name ∧ lg_key gr = key ∧ shape gr.
Proof. intros Hm Hg. by apply (nk_group _ _ _ (mi_ns m Hm name)). Qed.
Lemma member_heap m g : minv m → g ∈ m_lru m → ∃ gr, deref m g = Some gr ∧ shape gr ∧ group_at m (lg_namespace gr) (lg_key gr) g.
Proof.
  intros Hm (name & key & Hg)%(mi_member m Hm). destruct (group_at_heap m name key g Hm Hg) as (gr & H1 & H2 & H3 & H4).
  exists gr. split; [done|]. split; [done|]. by rewrite H2, H3.
Qed.
Lemma lru_remove_elem g l x : x ∈ remove_element g l ↔ x ∈ l ∧ x ≠ g.
Proof.
  unfold remove_element. rewrite list_elem_of_In, List.filter_In, <- list_elem_of_In, negb_true_iff, Nat.eqb_neq. done.
Qed.
Lemma remove_element_nodup g l : NoDup l → NoDup (remove_element g l).
Proof. rewrite !NoDup_ListNoDup. apply List.NoDup_filter. Qed.
Lemma remove_element_other g l : g ∉ l → remove_element g l = l.
Proof.
  intros Hg. induction l as [|x l IH]; [done|]. apply not_elem_of_cons in Hg as [Hx Hg]. cbn.
  rewrite (proj2 (Nat.eqb_neq x g)) by done. cbn. f_equal. by apply IH.
Qed.
Lemma remove_element_perm g l : NoDup l → g ∈ l → l ≡ₚ g :: remove_element g l.
Proof.
  induction l as [|x l IH]; intros Hn Hg; [by apply not_elem_of_nil in Hg|]. apply NoDup_cons in Hn as [Hx Hn]. cbn.
  destruct (Nat.eqb_spec x g) as [->|Hne]; cbn.
  - change (g :: l ≡ₚ g :: remove_element g l). by rewrite remove_element_other.
  - change (x :: l ≡ₚ g :: x :: remove_element g l). apply elem_of_cons in Hg as [->|Hg]; [done|]. rewrite (IH Hn Hg) at 1. apply Permutation_swap.
Qed.
Lemma zsum_perm {A} (f : A → Z) l1 l2 : l1 ≡ₚ l2 → zsum f l1 = zsum f l2.
Proof. induction 1; rewrite ?zsum_cons; try lia; done. Qed.
Lemma zsum_remove (f : gid → Z) g l : NoDup l → g ∈ l → zsum f (remove_element g l) = zsum f l - f g.
Proof. intros Hn Hg. rewrite (zsum_perm f _ _ (remove_element_perm g l Hn Hg)), zsum_cons. lia. Qed.

Lemma namespace_insert m groups name ns name' : namespace_of (m <| m_groups := <[name := ns]> groups |>) name' =
  if bool_decide (name' = name) then ns else default empty_namespace (groups !! name').
Proof.
  unfold namespace_of. cbn. case_bool_decide as E; [by rewrite E, lookup_insert_eq|by rewrite lookup_insert_ne].
Qed.
Lemma unlink_in_spec m g gr : m_groups m !! lg_namespace gr ≠ None →
  ∀ name, let ns' := default empty_namespace (unlink_in g gr (m_groups m) !! name) in
  let ns0 := unlink g gr (namespace_of m name) in
  if bool_decide (name = lg_namespace gr) then ns' = ns0 ∨ ns_groups ns0 = ∅ ∧ ns' = empty_namespace else ns' = namespace_of m name.
Proof.
  intros Hs name. cbv zeta. unfold unlink_in, namespace_of. destruct (m_groups m !! lg_namespace gr) as [ns|] eqn:E; [|done].
  destruct (decide (name = lg_namespace gr)) as [->|Hn].
  - rewrite bool_decide_eq_true_2 by done. rewrite E. cbn. case_bool_decide as He; [right; by rewrite lookup_delete_eq|left; by rewrite lookup_insert_eq].
  - rewrite bool_decide_eq_false_2 by done. case_bool_decide; [by rewrite lookup_delete_ne|by rewrite lookup_insert_ne].
Qed.
Lemma group_remove_ok m g : minv m → g ∈ m_lru m → let m' := removeGroupLocked g m in
  minv m' ∧ m_lru m' = remove_element g (m_lru m) ∧ m_heap m' = m_heap m ∧ m_next m' = m_next m ∧ config_of m' = config_of m
  ∧ (∀ name key g', group_at m' name key g' ↔ group_at m name key g' ∧ g' ≠ g)
  ∧ m_prefixCount m' = m_prefixCount m - count_of (m_heap m) g ∧ m_accessCounter m' = m_accessCounter m.
Proof.
  intros Hm Hg. destruct (member_heap m g Hm Hg) as (gr & Hd & Hs & Hat). cbv zeta. unfold removeGroupLocked. rewrite Hd.
  set (m' := set m_prefixCount _ _).
  assert (m_lru m' = remove_element g (m_lru m)) as L by done.
  assert (m_groupCount m' = Z.of_nat (length (m_lru m')) ∧ m_prefixCount m' = m_prefixCount m - count_of (m_heap m) g) as [L2 L3].
  { pose proof (mi_count m Hm) as Hc. pose proof (mi_prefixes m Hm) as Hp.
    pose proof (remove_element_perm g (m_lru m) (mi_nodup m Hm) Hg) as Hperm.
    assert (count_of (m_heap m) g = key_count gr) as Hk by (unfold count_of; unfold deref in Hd; by rewrite Hd).
    assert (key_count gr ≤ m_prefixCount m) as Hle by (rewrite Hp, <- Hk; by apply zsum_elem_le; [intros; apply count_nonneg|]).
    split; [|unfold m'; cbn; rewrite Hk; destruct (Z.leb_spec (key_count gr) (m_prefixCount m)); lia].
    rewrite L. change (m_groupCount m') with (if 0 <? m_groupCount m then m_groupCount m - 1 else m_groupCount m).
    apply Permutation_length in Hperm. cbn in Hperm. destruct (Z.ltb_spec 0 (m_groupCount m)); lia. }
  assert (∀ name, let ns0 := unlink g gr (namespace_of m name) in
    if bool_decide (name = lg_namespace gr) then namespace_of m' name = ns0 ∨ ns_groups ns0 = ∅ ∧ namespace_of m' name = empty_namespace
    else namespace_of m' name = namespace_of m name) as Hns.
  { apply unlink_in_spec. intros E. unfold group_at, namespace_of in Hat. by rewrite E in Hat. }
  assert (m_heap m' = m_heap m ∧ m_next m' = m_next m ∧ config_of m' = config_of m ∧ m_accessCounter m' = m_accessCounter m) as (F1 & F2 & F3 & F4) by done. clearbody m'.
  destruct (unlink_ok _ _ _ g gr (mi_ns m Hm (lg_namespace gr)) Hd Hat) as [U1 U2].
  assert (∀ name key g', group_at m' name key g' ↔ group_at m name key g' ∧ g' ≠ g) as G.
  { intros name key g'. specialize (Hns name). cbv zeta in Hns. unfold group_at. destruct (decide (name = lg_namespace gr)) as [->|Hne].
    - rewrite bool_decide_eq_true_2 in Hns by done.
      assert (ns_groups (namespace_of m' (lg_namespace gr)) = delete (lg_key gr) (ns_groups (namespace_of m (lg_namespace gr)))) as ->.
      { destruct Hns as [->|[E1 ->]]; [done|]. by rewrite <- U1, E1. }
      rewrite lookup_delete_Some. unfold group_at in Hat. split; [intros [H1 H2]; split; [done|]|intros [H1 H2]; split; [|done]].
      + intros ->. destruct (nk_group _ _ _ (mi_ns m Hm _) _ _ H2) as (gr' & H3 & _ & H4 & _). unfold deref in Hd. rewrite Hd in H3. congruence.
      + intros <-. congruence.
    - rewrite bool_decide_eq_false_2 in Hns by done. rewrite Hns. split; [|by intros [? _]]. intros Hk. split; [done|]. intros ->.
      destruct (nk_group _ _ _ (mi_ns m Hm _) _ _ Hk) as (gr' & H3 & H4 & _). unfold deref in Hd. rewrite Hd in H3. congruence. }
  split_and!; [|done..]. split.
  - intros name. rewrite F1. specialize (Hns name). cbv zeta in Hns. destruct (decide (name = lg_namespace gr)) as [->|Hne].
    + rewrite bool_decide_eq_true_2 in Hns by done. destruct Hns as [->|[_ ->]]; [done|apply empty_ok].
    + rewrite bool_decide_eq_false_2 in Hns by done. rewrite Hns. apply mi_ns, Hm.
  - rewrite L. by apply remove_element_nodup, mi_nodup.
  - intros g'. rewrite L, lru_remove_elem, (mi_member m Hm). setoid_rewrite G. naive_solver.
  - exact L2.
  - rewrite F1, L, L3, zsum_remove, (mi_prefixes m Hm); [done|by apply mi_nodup|done].
  - intros g' gr'. rewrite F1, F2. apply (mi_fresh m Hm).
Qed.

(** What is left after some groups were removed. *)
Record shrunk (m m' : matcher) : Prop := {
  sk_inv : minv m';
  sk_heap : m_heap m' = m_heap m;
  sk_next : m_next m' = m_next m;
  sk_config : config_of m' = config_of m;
  sk_access : m_accessCounter m' = m_accessCounter m;
  sk_groups : ∀ name key g, group_at m' name key g ↔ group_at m name key g ∧ g ∈ m_lru m';
  sk_lru : m_lru m' `sublist_of` m_lru m;
  sk_count : m_groupCount m' ≤ m_groupCount m;
  sk_prefixes : m_prefixCount m' ≤ m_prefixCount m;
}.
Lemma shrunk_refl m : minv m → shrunk m m.
Proof.
  intros Hm. split; try done. intros name key g. split; [|by intros [? _]]. intros Hg. split; [done|]. apply (mi_member m Hm). eauto.
Qed.
Lemma shrunk_trans m1 m2 m3 : shrunk m1 m2 → shrunk m2 m3 → shrunk m1 m3.
Proof.
  intros [A1 A2 A3 A4 A5 A6 A7 A8 A9] [B1 B2 B3 B4 B5 B6 B7 B8 B9].
  split; [done|congruence..| |by etransitivity|lia|lia]. intros name key g. rewrite B6, A6. split; [naive_solver|].
  intros [H1 H2]. split; [split; [done|]|done]. by eapply elem_of_sublist.
Qed.
Lemma lru_remove_sublist g l : remove_element g l `sublist_of` l.
Proof. induction l as [|x l IH]; [done|]. cbn. destruct (negb _); by constructor. Qed.
Lemma remove_shrunk m g : minv m → g ∈ m_lru m → shrunk m (removeGroupLocked g m) ∧ m_lru (removeGroupLocked g m) = remove_element g (m_lru m).
Proof.
  intros Hm Hg. destruct (group_remove_ok m g Hm Hg) as (R1 & R2 & R3 & R4 & R5 & R6 & R7 & R8). split; [|done]. split; [done..| | | |].
  - intros name key g'. rewrite R6, R2, lru_remove_elem. split; [intros [H1 H2]; split; [done|]; split; [|done]; apply (mi_member m Hm); eauto|naive_solver].
  - rewrite R2. apply lru_remove_sublist.
  - rewrite (mi_count _ R1), (mi_count m Hm), R2. apply inj_le, sublist_length, lru_remove_sublist.
  - rewrite R7. pose proof (count_nonneg (m_heap m) g). lia.
Qed.
Definition over (m : matcher) : bool := (m_maxGroups m <? m_groupCount m) || (m_maxPrefixes m <? m_prefixCount m).
Lemma over_false m : over m = false ↔ bounded m.
Proof. unfold over, bounded. rewrite orb_false_iff, !Z.ltb_ge. done. Qed.
Lemma evict_ok fuel m l g : minv m → m_lru m = l ++ [g] → (length (m_lru m) ≤ fuel)%nat → 1 ≤ m_maxGroups m →
  count_of (m_heap m) g ≤ m_maxPrefixes m → shrunk m (evict fuel m) ∧ bounded (evict fuel m) ∧ g ∈ m_lru (evict fuel m).
Proof.
  revert m l. induction fuel as [|fuel IH]; intros m l Hm Hl Hf Hg Hp.
  { rewrite Hl, length_app in Hf. cbn in Hf. lia. }
  cbn [evict]. destruct l as [|x l].
  - rewrite Hl. cbn [app]. assert (over m = false) as Ho.
    { apply over_false. split; [rewrite (mi_count m Hm), Hl; cbn; lia|]. rewrite (mi_prefixes m Hm), Hl. cbn. lia. }
    unfold over in Ho. rewrite Ho. split; [by apply shrunk_refl|]. split; [by apply over_false|]. rewrite Hl. set_solver.
  - rewrite Hl. cbn [app]. fold (over m). destruct (over m) eqn:Ho.
    2: { split; [by apply shrunk_refl|]. split; [by apply over_false|]. rewrite Hl. set_solver. }
    assert (x ∈ m_lru m) as Hx by (rewrite Hl; left). destruct (remove_shrunk m x Hm Hx) as [S1 S2].
    assert (m_lru (removeGroupLocked x m) = l ++ [g]) as E.
    { rewrite S2, Hl. pose proof (mi_nodup m Hm) as Hn. rewrite Hl in Hn. cbn in Hn. apply NoDup_cons in Hn as [Hn _]. cbn. rewrite Nat.eqb_refl. cbn.
      change (remove_element x (l ++ [g]) = l ++ [g]). by apply remove_element_other. }
    pose proof (sk_config _ _ S1) as [= C1 C2 C3 C4]. destruct (IH (removeGroupLocked x m) l) as (I1 & I2 & I3).
    + apply S1.
    + exact E.
    + rewrite E. rewrite Hl in Hf. cbn in Hf. lia.
    + by rewrite C3.
    + by rewrite C4, (sk_heap _ _ S1).
    + split; [by eapply shrunk_trans|]. by split.
Qed.

Lemma with_keys_same gr : shape gr → with_keys gr = gr.
Proof.
  intros [H1 H2 H3 _]. unfold with_keys. rewrite bool_decide_eq_false_2; [done|]. rewrite H1. intros E. apply H3.
  apply length_zero_iff_nil. by rewrite <- rolling_keys_length, E.
Qed.
(** What adding the group at [g] gives. *)
Record added (m : matcher) (g : gid) (gr : lcpGroup) (m' : matcher) : Prop := {
  ad_inv : minv m';
  ad_bounded : bounded m';
  ad_config : config_of m' = config_of m;
  ad_next : m_next m' = m_next m;
  ad_heap : ∃ access, m_heap m' = <[g := gr <| lg_lastAccessNumber := access |>]> (m_heap m);
  ad_here : group_at m' (lg_namespace gr) (lg_key gr) g;
  ad_groups : ∀ name key g', group_at m' name key g' → g' = g ∨ group_at m name key g';
}.
Lemma add_ok m g gr : minv m → deref m g = Some gr → shape gr → g ∉ m_lru m →
  ns_groups (namespace_of m (lg_namespace gr)) !! lg_key gr = None → 1 ≤ m_maxGroups m → key_count gr ≤ m_maxPrefixes m →
  added m g gr (addGroupLocked g m).
Proof.
  intros Hm Hd Hs Hg Hk H1 H2. unfold addGroupLocked. rewrite Hd. cbv zeta. rewrite (with_keys_same gr Hs).
  set (m0 := on_namespace _ _ _). unfold nextAccessNumberLocked. set (access := wrapu64 (m_accessCounter m0 + 1)). cbv iota beta.
  set (m2 := set m_prefixCount _ _). destruct (link_ok (m_heap m) (lg_namespace gr) (namespace_of m (lg_namespace gr)) g gr (mi_ns m Hm _) Hd eq_refl Hs Hk) as [L1 L2].
  assert (∀ name, namespace_of m2 name = if bool_decide (name = lg_namespace gr) then link g gr (namespace_of m (lg_namespace gr)) else namespace_of m name) as Hns.
  { intros name. unfold namespace_of. change (m_groups m2) with (alter (link g gr) (lg_namespace gr) (<[lg_namespace gr := namespace_of m (lg_namespace gr)]> (m_groups m))).
    destruct (decide (name = lg_namespace gr)) as [->|Hne].
    - rewrite bool_decide_eq_true_2 by done. by rewrite lookup_alter_eq, lookup_insert_eq.
    - rewrite bool_decide_eq_false_2 by done. by rewrite lookup_alter_ne, lookup_insert_ne. }
  set (gr' := gr <| lg_lastAccessNumber := access |>).
  assert (m_heap m2 = <[g := gr']> (m_heap m) ∧ m_lru m2 = m_lru m ++ [g] ∧ m_next m2 = m_next m ∧ config_of m2 = config_of m
    ∧ m_groupCount m2 = m_groupCount m + 1 ∧ m_prefixCount m2 = m_prefixCount m + key_count gr) as (F1 & F2 & F3 & F4 & F5 & F6) by done.
  clearbody m2. clearbody access. clear m0. assert (∀ x, x ≠ g → m_heap m2 !! x = m_heap m !! x) as Hx by (intros x Hx; rewrite F1; by rewrite lookup_insert_ne).
  assert (m_heap m2 !! g = Some gr') as Hg' by (rewrite F1; apply lookup_insert_eq).
  assert (∀ name key g', group_at m2 name key g' ↔ (name = lg_namespace gr ∧ key = lg_key gr ∧ g' = g) ∨ group_at m name key g') as G.
  { intros name key g'. unfold group_at. rewrite Hns. destruct (decide (name = lg_namespace gr)) as [->|Hne].
    - rewrite bool_decide_eq_true_2 by done. rewrite L1, lookup_insert_Some. split; [naive_solver|]. intros [(_ & -> & ->)|Ho]; [by left|].
      right. split; [|done]. intros <-. congruence.
    - rewrite bool_decide_eq_false_2 by done. naive_solver. }
  assert (minv m2) as Hm2.
  { assert (∀ x y, deref m x = Some y → ∃ y', m_heap m2 !! x = Some y' ∧ index_view y' = index_view y) as Hheap.
    { intros x y Hy. destruct (decide (x = g)) as [->|Hne]; [|exists y; by rewrite Hx]. exists gr'. split; [done|]. rewrite Hd in Hy. by injection Hy as <-. }
    split.
    - intros name. rewrite Hns. case_bool_decide as E; [rewrite E; apply (ns_ok_heap (m_heap m)); [done|intros k x y _ Hy; by eapply Hheap]|].
      apply (ns_ok_heap (m_heap m)); [apply mi_ns, Hm|intros k x y _ Hy; by eapply Hheap].
    - rewrite F2. apply NoDup_app. split; [by apply mi_nodup|]. split; [set_solver|apply NoDup_singleton].
    - intros x. rewrite F2, elem_of_app, list_elem_of_singleton, (mi_member m Hm). setoid_rewrite G. naive_solver.
    - rewrite F5, F2, length_app, (mi_count m Hm). cbn. lia.
    - rewrite F6, F2, (mi_prefixes m Hm). assert (∀ l1 l2, zsum (count_of (m_heap m2)) (l1 ++ l2) = zsum (count_of (m_heap m2)) l1 + zsum (count_of (m_heap m2)) l2) as ->.
      { intros l1 l2. induction l1; cbn [app]; rewrite ?zsum_cons; cbn; lia. }
      cbn. assert (count_of (m_heap m2) g = key_count gr) as -> by (unfold count_of; by rewrite Hg').
      rewrite (zsum_ext (count_of (m_heap m2)) (count_of (m_heap m))); [lia|]. intros x Hin. unfold count_of. rewrite Hx; [done|]. by intros ->.
    - intros x y. rewrite F3. destruct (decide (x = g)) as [->|Hne]; [intros _; by eapply (mi_fresh m Hm)|]. rewrite Hx by done. apply (mi_fresh m Hm). }
  injection F4 as C1 C2 C3 C4. destruct (evict_ok (length (m_lru m2)) m2 (m_lru m) g Hm2 F2) as (E1 & E2 & E3); [done|lia| |].
  { unfold count_of. rewrite Hg'. change (key_count gr') with (key_count gr). lia. }
  split; [apply E1|done|rewrite (sk_config _ _ E1); unfold config_of; congruence|by rewrite (sk_next _ _ E1)|exists access; by rewrite (sk_heap _ _ E1)| |].
  - apply (sk_groups _ _ E1). split; [|done]. apply G. by left.
  - intros name key g' [Hat _]%(sk_groups _ _ E1). apply G in Hat. naive_solver.
Qed.

End Inv.
End LcpInv.
