(* ===== verification/LcpSteps.v ===== *)
(** * Every operation of the prefix matcher keeps its indexes

    The steps of [LcpMatcher] that leave the indexes alone, those that remove and those that
    add a group; then the operations, and what holds after any run of them. *)
From S2P Require Import Prelude GoLib LcpKeys LcpMatcher LcpInv.
Import LcpKeys LcpMatcher LcpInv.

Module LcpSteps.
Section Steps.
Context `{H : Sha256, P : Promise}.
Implicit Types (m : matcher) (ns : lcpNamespace) (g : gid) (gr : lcpGroup).

(** ** Steps that leave the indexes alone *)

Record benign (m m' : matcher) : Prop := {
  bn_config : config_of m' = config_of m;
  bn_next : m_next m' = m_next m;
  bn_lru : m_lru m' ≡ₚ m_lru m;
  bn_count : m_groupCount m' = m_groupCount m;
  bn_prefixes : m_prefixCount m' = m_prefixCount m;
  bn_heap : ∀ g, index_view <$> deref m' g = index_view <$> deref m g;
  bn_groups : ∀ name, ns_groups (namespace_of m' name) = ns_groups (namespace_of m name);
  bn_pref : ∀ name, ns_prefixes (namespace_of m' name) = ns_prefixes (namespace_of m name);
  bn_tails : ∀ name t g, g ∈ default ∅ (ns_tails (namespace_of m' name) !! t) → g ∈ default ∅ (ns_tails (namespace_of m name) !! t);
}.
#[export] Instance benign_preorder : PreOrder benign.
Proof.
  split; [by intros m; split|]. intros m1 m2 m3 [A1 A2 A3 A4 A5 A6 A7 A8 A9] [B1 B2 B3 B4 B5 B6 B7 B8 B9].
  split; [congruence|congruence|by etransitivity|congruence|congruence|intros g; by rewrite B6|intros n; by rewrite B7|intros n; by rewrite B8|].
  intros n t g Hg. by apply A9, B9.
Qed.
Lemma benign_at m m' name key g : benign m m' → group_at m' name key g ↔ group_at m name key g.
Proof. intros Hb. unfold group_at. by rewrite (bn_groups _ _ Hb). Qed.
Lemma benign_deref m m' g gr : benign m m' → deref m g = Some gr → ∃ gr', deref m' g = Some gr' ∧ index_view gr' = index_view gr.
Proof.
  intros Hb E. pose proof (bn_heap _ _ Hb g) as Hh. rewrite E in Hh. destruct (deref m' g) as [gr'|]; [|done]. exists gr'. split; [done|]. by apply (inj Some) in Hh.
Qed.
Lemma benign_inv m m' : benign m m' → minv m → minv m'.
Proof.
  intros Hb Hm. assert (∀ g, count_of (m_heap m') g = count_of (m_heap m) g) as Hc.
  { intros g. pose proof (bn_heap _ _ Hb g) as E. unfold deref in E. unfold count_of. destruct (m_heap m' !! g), (m_heap m !! g); try done.
    cbn in E. injection E as _ _ _ E _ _. unfold key_count. by rewrite E. }
  split.
  - intros name. assert (ns_ok (m_heap m') name (namespace_of m name)) as [A B C].
    { apply (ns_ok_heap (m_heap m)); [apply mi_ns, Hm|]. intros k g gr _ Hg. by apply (benign_deref m m'). }
    split.
    + intros k g. rewrite (bn_groups _ _ Hb). apply A.
    + intros p k g. unfold pref. rewrite (bn_pref _ _ Hb), (bn_groups _ _ Hb). apply B.
    + intros t g Hg. rewrite (bn_groups _ _ Hb). by apply C, (bn_tails _ _ Hb).
  - rewrite (bn_lru _ _ Hb). by apply mi_nodup.
  - intros g. rewrite (bn_lru _ _ Hb), (mi_member m Hm). setoid_rewrite (benign_at m m' _ _ g Hb). done.
  - rewrite (bn_count _ _ Hb), (bn_lru _ _ Hb). by apply mi_count.
  - rewrite (bn_prefixes _ _ Hb), (mi_prefixes m Hm), (zsum_perm _ _ _ (bn_lru _ _ Hb)). apply zsum_ext. intros g _. by rewrite Hc.
  - intros g gr Hg. rewrite (bn_next _ _ Hb). pose proof (bn_heap _ _ Hb g) as E. unfold deref in E. rewrite Hg in E.
    destruct (m_heap m !! g) as [gr0|] eqn:E0; [|done]. by eapply (mi_fresh m Hm).
Qed.
Lemma benign_bounded m m' : benign m m' → bounded m → bounded m'.
Proof. intros Hb. unfold bounded. pose proof (bn_config _ _ Hb) as [= _ _ E3 E4]. by rewrite (bn_count _ _ Hb), (bn_prefixes _ _ Hb), E3, E4. Qed.

Lemma move_to_back_perm g l : NoDup l → move_to_back g l ≡ₚ l.
Proof.
  intros Hn. unfold move_to_back. case_bool_decide as Hg; [|done]. rewrite (remove_element_perm g l Hn Hg) at 2.
  symmetry. apply Permutation_cons_append.
Qed.
Lemma update_benign m g f : (∀ gr, index_view (f gr) = index_view gr) → benign m (update_group g f m).
Proof.
  intros Hf. split; try done. intros x. unfold deref, update_group. cbn. destruct (decide (x = g)) as [->|Hne].
  - rewrite lookup_alter_eq. destruct (m_heap m !! g); [|done]. cbn. by rewrite Hf.
  - by rewrite lookup_alter_ne.
Qed.
Lemma lru_benign m l : l ≡ₚ m_lru m → benign m (m <| m_lru := l |>).
Proof. intros Hl. by split. Qed.
Lemma access_benign m : benign m (nextAccessNumberLocked m).1.
Proof. by split. Qed.
Lemma refresh_benign m g now : NoDup (m_lru m) → benign m (refresh g now m).
Proof.
  intros Hn. unfold refresh. pose proof (access_benign m) as Ha. assert (m_lru (nextAccessNumberLocked m).1 = m_lru m) as El by done.
  destruct (nextAccessNumberLocked m) as [m1 access]. cbn [fst] in Ha, El.
  etransitivity; [exact Ha|]. etransitivity; [apply (lru_benign m1 (move_to_back g (m_lru m1)))|by apply update_benign].
  rewrite El. by apply move_to_back_perm.
Qed.
Lemma namespace_benign m name : benign m (namespaceLocked name m).
Proof.
  assert (∀ n, namespace_of (namespaceLocked name m) n = namespace_of m n) as E.
  { intros n. unfold namespace_of at 1. cbn. destruct (decide (n = name)) as [->|]; [by rewrite lookup_insert_eq|by rewrite lookup_insert_ne]. }
  split; try done; intros; by rewrite ?E in *.
Qed.
(** A namespace with smaller tails. *)
Definition pruned (ns ns' : lcpNamespace) : Prop :=
  ns_groups ns' = ns_groups ns ∧ ns_prefixes ns' = ns_prefixes ns
  ∧ ∀ t g, g ∈ default ∅ (ns_tails ns' !! t) → g ∈ default ∅ (ns_tails ns !! t).
Lemma pruned_benign m name ns : pruned (namespace_of m name) ns → benign m (on_namespace name (fun _ => ns) m).
Proof.
  intros (P1 & P2 & P3). assert (∀ n, namespace_of (on_namespace name (fun _ => ns) m) n = namespace_of m n
    ∨ n = name ∧ namespace_of (on_namespace name (fun _ => ns) m) n = ns) as E.
  { intros n. unfold namespace_of. cbn. destruct (decide (n = name)) as [->|]; [rewrite lookup_alter_eq|left; by rewrite lookup_alter_ne].
    destruct (m_groups m !! name); [by right|by left]. }
  split; try done; intros n; destruct (E n) as [->|[-> ->]]; done.
Qed.

(** ** What a match gives *)

Lemma deref_all_elem m gs e : e ∈ deref_all m gs ↔ e.1 ∈ gs ∧ deref m e.1 = Some e.2.
Proof.
  unfold deref_all. rewrite list_elem_of_omap. split.
  - intros (g & Hg & He). destruct (deref m g) as [gr|] eqn:E; [|done]. cbn in He. by injection He as <-.
  - destruct e as [g gr]. intros [Hg E]. cbn [fst snd] in *. exists g. by rewrite E.
Qed.
Lemma filter_elem {A} (f : A → bool) l x : x ∈ List.filter f l ↔ x ∈ l ∧ f x = true.
Proof. rewrite !list_elem_of_In. apply List.filter_In. Qed.
(** A live group of the namespace [name]. *)
Definition live_in (m : matcher) (name : string) (now : time) (e : gid * lcpGroup) : Prop :=
  group_at m name (lg_key e.2) e.1 ∧ deref m e.1 = Some e.2 ∧ live now e.2 = true.

Lemma newest_spec m bucket fps now : match newestMatchingGroup m bucket fps now with
  | Some e => (∃ k, bucket !! k = Some e.1) ∧ deref m e.1 = Some e.2 ∧ matches_now fps now e.2 = true
  | None => ∀ k g gr, bucket !! k = Some g → deref m g = Some gr → matches_now fps now gr = false
  end.
Proof.
  unfold newestMatchingGroup. set (l := deref_all _ _).
  assert (∀ e, e ∈ l ↔ (∃ k, bucket !! k = Some e.1) ∧ deref m e.1 = Some e.2) as Hl.
  { intros e. unfold l. rewrite deref_all_elem. enough (e.1 ∈ map snd (map_to_list bucket) ↔ ∃ k, bucket !! k = Some e.1) as -> by done.
    rewrite list_elem_of_fmap. split; [intros ([k g] & -> & Hk%elem_of_map_to_list); by exists k|].
    intros [k Hk]. exists (k, e.1). by rewrite elem_of_map_to_list. }
  assert (∀ best, match foldl (newest_step fps now) best l with
    | Some e => best = Some e ∨ e ∈ l ∧ matches_now fps now e.2 = true
    | None => best = None ∧ ∀ e, e ∈ l → matches_now fps now e.2 = false end) as Hf.
  { clear Hl. induction l as [|x l IH]; intros best; cbn [foldl]; [destruct best; [by left|by split; [|intros e ?%not_elem_of_nil]]|].
    specialize (IH (newest_step fps now best x)). destruct (foldl _ _ _) as [e|].
    - destruct IH as [IH|[H1 H2]]; [|right; split; [by right|done]]. unfold newest_step in IH.
      destruct (matches_now fps now x.2) eqn:E; cbn in IH; [|by left]. destruct best as [[g gr]|].
      + destruct (newer_group _ _); [|by left]. injection IH as <-. right. split; [by left|done].
      + injection IH as <-. right. split; [by left|done].
    - destruct IH as [H1 H2]. unfold newest_step in H1. destruct (matches_now fps now x.2) eqn:E; cbn in H1.
      + destruct best as [[g gr]|]; [destruct (newer_group _ _)|]; done.
      + split; [done|]. intros e [->|He]%elem_of_cons; [done|by apply H2]. }
  specialize (Hf None). destruct (foldl _ _ _) as [e|].
  - destruct Hf as [?|[H1 H2]]; [done|]. apply Hl in H1 as [H3 H4]. done.
  - destruct Hf as [_ Hf]. intros k g gr Hk Hg. apply (Hf (g, gr)), Hl. split; [by exists k|done].
Qed.

Lemma newer_group_spec a b : newer_group a b = true ↔
  (length (lg_fingerprints b) < length (lg_fingerprints a))%nat
  ∨ length (lg_fingerprints a) = length (lg_fingerprints b)
    ∧ (lg_lastAccessNumber b < lg_lastAccessNumber a ∨ lg_lastAccessNumber a = lg_lastAccessNumber b ∧ lg_expiresAt b < lg_expiresAt a).
Proof.
  unfold newer_group, after. rewrite orb_true_iff, andb_true_iff, orb_true_iff, andb_true_iff, !Z.ltb_lt, Nat.ltb_lt, Nat.eqb_eq, Z.eqb_eq. done.
Qed.
Lemma not_newer_trans a b c : newer_group a b = false → newer_group b c = false → newer_group a c = false.
Proof. rewrite <- !not_true_iff_false, !newer_group_spec. lia. Qed.
Lemma newer_asym a b : newer_group a b = true → newer_group b a = false.
Proof. rewrite <- !not_true_iff_false, !newer_group_spec. lia. Qed.
Lemma not_newer_refl a : newer_group a a = false.
Proof. rewrite <- !not_true_iff_false, !newer_group_spec. lia. Qed.
Lemma newest_max m bucket fps now e : newestMatchingGroup m bucket fps now = Some e →
  ∀ k g gr, bucket !! k = Some g → deref m g = Some gr → matches_now fps now gr = true → newer_group gr e.2 = false.
Proof.
  unfold newestMatchingGroup. set (l := deref_all _ _). intros He k g gr Hk Hg Hmt.
  assert ((g, gr) ∈ l) as Hin.
  { unfold l. rewrite deref_all_elem. split; [|done]. apply list_elem_of_fmap. exists (k, g). by rewrite elem_of_map_to_list. }
  assert (∀ l best, foldl (newest_step fps now) best l = Some e →
    (∀ x, best = Some x → newer_group x.2 e.2 = false) ∧ ∀ x, x ∈ l → matches_now fps now x.2 = true → newer_group x.2 e.2 = false) as Hf.
  { clear. intros l. induction l as [|x l IH]; intros best Hf; cbn [foldl] in Hf.
    { subst best. split; [intros x [= ->]; apply not_newer_refl|by intros x ?%not_elem_of_nil]. }
    apply IH in Hf as [F1 F2]. assert ((∀ y, best = Some y → newer_group y.2 e.2 = false) ∧ (matches_now fps now x.2 = true → newer_group x.2 e.2 = false)) as [G1 G2].
    { unfold newest_step in F1. destruct (matches_now fps now x.2); cbn [negb] in F1; [|by split].
      destruct best as [[h best]|]; [|split; [done|intros _; by apply F1]]. destruct (newer_group x.2 best) eqn:En.
      - pose proof (F1 x eq_refl) as Fx. split; [|done]. intros y [= <-]. cbn. eapply not_newer_trans; [by apply newer_asym|done].
      - pose proof (F1 _ eq_refl) as Fx. split; [by intros y [= <-]|]. intros _. by eapply not_newer_trans. }
    split; [done|]. intros y [->|Hy]%elem_of_cons; [done|by apply F2]. }
  by apply (proj2 (Hf l None He) (g, gr)).
Qed.

(** What the probing of the tails keeps. *)
Definition probe_ok m (now : time) (ns0 : lcpNamespace) (acc : lcpNamespace * (list (gid * lcpGroup) * nat) * bool) : Prop :=
  pruned ns0 acc.1.1
  ∧ ∀ e, e ∈ acc.1.2.1 → (∃ t, e.1 ∈ default ∅ (ns_tails ns0 !! t)) ∧ deref m e.1 = Some e.2 ∧ live now e.2 = true.
Lemma overlap_step_elem candTail env full minp best candEnd acc entry e :
  e ∈ (overlap_step candTail env full minp best candEnd acc entry).1 → e = entry ∨ e ∈ acc.1.
Proof.
  unfold overlap_step. destruct acc as [cands n]. cbv zeta. cbn [fst]. repeat case_match; cbn [fst];
    rewrite ?elem_of_app, ?list_elem_of_singleton; tauto.
Qed.
Lemma overlaps_elem candTail env full minp best candEnd l acc e :
  e ∈ (foldl (overlap_step candTail env full minp best candEnd) acc l).1 → e ∈ l ∨ e ∈ acc.1.
Proof.
  revert acc. induction l as [|x l IH]; intros acc He; [by right|]. cbn in He. apply IH in He as [He|He]; [left; by right|].
  apply overlap_step_elem in He as [->|He]; [left; by left|by right].
Qed.
Lemma probe_step_ok m now candTail env full minp best ns0 acc candEnd :
  probe_ok m now ns0 acc → probe_ok m now ns0 (probe_step m now candTail env full minp best acc candEnd).
Proof.
  destruct acc as [[ns found] ov]. intros [[P1 [P2 P3]] Hc]. cbn [fst snd] in *. unfold probe_step. set (key := pair_key _ _).
  destruct (ns_tails ns !! key) as [bucket|] eqn:Eb; [|by split].
  set (alive := List.filter _ _). cbv zeta. set (ns' := set ns_tails _ _).
  assert (∀ e, e ∈ alive → e.1 ∈ bucket ∧ deref m e.1 = Some e.2 ∧ live now e.2 = true) as Ha.
  { intros e [He Hl]%filter_elem. apply deref_all_elem in He as [H1 H2]. by rewrite elem_of_elements in H1. }
  assert (pruned ns0 ns') as Hp.
  { split; [done|]. split; [done|]. intros t g Hg. apply P3. unfold ns' in Hg. cbn in Hg. unfold drop_bucket in Hg.
    destruct (decide (t = key)) as [->|Hne].
    - rewrite Eb. assert (g ∈ (list_to_set (map fst alive) : gset gid)) as Hin.
      { destruct (bool_decide _); [rewrite lookup_delete_eq in Hg|rewrite lookup_insert_eq in Hg]; [by apply not_elem_of_empty in Hg|done]. }
      apply elem_of_list_to_set, list_elem_of_fmap in Hin as (e & -> & He). by apply Ha.
    - destruct (bool_decide _); [by rewrite lookup_delete_ne in Hg|by rewrite lookup_insert_ne in Hg]. }
  clearbody ns'. destruct (bool_decide _); [by split|]. destruct (_ <? _)%nat; [by split|]. split; [done|]. cbn [fst snd]. intros e [He|He]%overlaps_elem; [|by apply Hc].
  destruct (Ha e He) as [H1 H2]. split; [|done]. exists key. apply P3. by rewrite Eb.
Qed.
Lemma probes_ok m now candTail env full minp best ns0 ends acc :
  probe_ok m now ns0 acc → probe_ok m now ns0 (foldl (probe_step m now candTail env full minp best) acc ends).
Proof. revert acc. induction ends as [|e ends IH]; intros acc Ha; [done|]. cbn. by apply IH, probe_step_ok. Qed.

Lemma pruned_refl ns : pruned ns ns.
Proof. by split. Qed.
Lemma tail_live m name now e t : minv m → e.1 ∈ default ∅ (ns_tails (namespace_of m name) !! t) → deref m e.1 = Some e.2 →
  live now e.2 = true → live_in m name now e.
Proof.
  intros Hm Ht Hd Hl. destruct (nk_tail _ _ _ (mi_ns m Hm name) t e.1 Ht) as (gr & H1 & H2 & _). unfold deref in Hd. rewrite H1 in Hd.
  injection Hd as ->. by split.
Qed.
(** What a match gives and changes. *)
Definition match_fine (m : matcher) (name : string) (now : time) (r : matcher * option MerklePrefixMatch) : Prop :=
  benign m r.1 ∧ ∀ f, r.2 = Some f → ∃ e, live_in m name now e ∧ mt_AuthID f = lg_authID e.2.
Lemma compaction_fine name fps tails env minp best now m : minv m →
  match_fine m name now (matchCompactionLocked name fps tails env minp best now m)
  ∧ ∀ f, (matchCompactionLocked name fps tails env minp best now m).2 = Some f → mt_IsCompaction f = true ∧ mt_NodeKind f = "compaction".
Proof.
  intros Hm. assert (match_fine m name now (m, None)) as Hnone by (split; done).
  unfold matchCompactionLocked. cbv zeta. set (candTail := if bool_decide _ then _ else _).
  destruct (_ <? _)%nat; [by split|].
  pose proof (probes_ok m now candTail env (Z.of_nat (length fps)) minp best (namespace_of m name) (tail_ends (length candTail))
    (namespace_of m name, ([], 0%nat), false)) as Hp.
  destruct (foldl _ _ _) as [[ns [cands n]] ov]. destruct Hp as [P1 P2].
  { split; [apply pruned_refl|]. intros e ?%not_elem_of_nil. done. }
  cbn [fst snd] in P1, P2. pose proof (pruned_benign m name ns P1) as Hb. set (m1 := on_namespace _ _ m) in *.
  assert (match_fine m name now (m1, None)) as Hnone1 by (split; done).
  destruct (ov || _); [by split|]. pose proof (filter_elem (is_leaf m1 ns cands) cands) as Hf.
  destruct (List.filter _ _) as [|[g gr] [|? ?]]; [by split| |by split].
  destruct (P2 (g, gr)) as ([t Ht] & Hd & Hl); [apply Hf; by left|]. split; [split|].
  - etransitivity; [exact Hb|]. apply refresh_benign. change (m_lru m1) with (m_lru m). by apply mi_nodup.
  - intros f [= <-]. exists (g, gr). split; [by eapply tail_live|done].
  - by intros f [= <-].
Qed.

Lemma search_found fuel cand low high best n : let r := search_prefix fuel cand low high best n in
  r = (best, n) ∨ ∃ e, r.1 = Some e ∧ cand r.2 = Some e ∧ low ≤ r.2 ≤ high.
Proof.
  cbv zeta. revert low high best n. induction fuel as [|fuel IH]; intros low high best n; cbn [search_prefix]; [by left|].
  destruct (Z.leb_spec low high) as [Hle|]; [|by left]. set (middle := low + (high - low) / 2).
  assert (low ≤ middle ≤ high) as Hmid.
  { unfold middle. pose proof (Z.div_pos (high - low) 2). pose proof (Z.div_le_upper_bound (high - low) 2 (high - low)). lia. }
  destruct (cand middle) as [e|] eqn:E.
  - right. destruct (IH (middle + 1) high (Some e) middle) as [->|(e' & H1 & H2 & H3)]; [exists e; done|exists e'; split_and!; [done|done|lia..]].
  - destruct (IH low (middle - 1) best n) as [->|(e' & H1 & H2 & H3)]; [by left|right; exists e'; split_and!; [done|done|lia..]].
Qed.
(** A candidate is a live group of the namespace that has the prefix. *)
Lemma candidate_spec m name fps now L e : minv m →
  candidate_at m (namespace_of m name) fps (rollingPrefixKeys fps) now L = Some e →
  live_in m name now e ∧ matches_now (take (Z.to_nat L) fps) now e.2 = true.
Proof.
  intros Hm. unfold candidate_at. cbv zeta. intros He.
  match type of He with newestMatchingGroup _ ?b ?f _ = _ => pose proof (newest_spec m b f now) as Hs end.
  rewrite He in Hs. destruct Hs as ([k Hk] & Hd & Hn). split; [|done].
  apply (nk_prefix _ _ _ (mi_ns m Hm name)) in Hk as [Hg _]. destruct (nk_group _ _ _ (mi_ns m Hm name) k e.1 Hg) as (gr & H1 & H2 & H3 & H4).
  unfold deref in Hd. rewrite Hd in H1. injection H1 as <-. split; [by rewrite <- H3 in Hg|]. split; [done|].
  unfold matches_now in Hn. by repeat (apply andb_true_iff in Hn as [Hn _]).
Qed.
Lemma refresh_deref m g now x : deref (refresh g now m) x =
  (if bool_decide (x = g) then fun gr => gr <| lg_expiresAt := now + m_ttl m |> <| lg_lastAccessNumber := wrapu64 (m_accessCounter m + 1) |> else id)
    <$> deref m x.
Proof.
  unfold refresh, deref. cbn. destruct (decide (x = g)) as [->|Hne].
  - rewrite bool_decide_eq_true_2 by done. by rewrite lookup_alter_eq.
  - rewrite bool_decide_eq_false_2 by done. rewrite lookup_alter_ne by done. by rewrite option_fmap_id.
Qed.
Lemma refresh_back m name now e0 e : live_in m name now e0 → live_in (refresh e0.1 now m) name now e →
  ∃ e', live_in m name now e' ∧ lg_authID e.2 = lg_authID e'.2.
Proof.
  intros H0 (H1 & H2 & H3). rewrite refresh_deref in H2. change (group_at m name (lg_key e.2) e.1) in H1.
  case_bool_decide as Hx; [|rewrite option_fmap_id in H2; by exists e].
  exists e0. split; [done|]. destruct H0 as (_ & Hd & _). rewrite Hx, Hd in H2. cbn in H2. by injection H2 as <-.
Qed.
Lemma match_ok name fps tails env minp now m : minv m → match_fine m name now (matchLocked name fps tails env minp now m).
Proof.
  intros Hm. assert (match_fine m name now (m, None)) as Hnone by (split; done).
  unfold matchLocked. destruct (m_groups m !! name) as [ns|] eqn:En; [|done].
  assert (ns = namespace_of m name) as -> by (unfold namespace_of; by rewrite En).
  destruct (_ || _); [done|]. cbv zeta. set (cand := candidate_at _ _ _ _ _).
  pose proof (search_found (length fps) cand minp (Z.of_nat (length fps)) None 0) as Hs. cbv zeta in Hs.
  destruct (search_prefix _ _ _ _ _ _) as [best n]. destruct best as [[g gr]|]; [|by apply compaction_fine].
  destruct Hs as [?|(e & H1 & H2 & H3)]; [done|]. cbn [fst snd] in H1, H2, H3. injection H1 as <-.
  apply candidate_spec in H2 as [Hlive _]; [|done]. pose proof (refresh_benign m g now (mi_nodup m Hm)) as Hr.
  set (m1 := refresh g now m) in *. pose proof (benign_inv m m1 Hr Hm) as Hm1.
  destruct (_ && _).
  - pose proof (compaction_fine name fps tails env minp n now m1 Hm1) as [[C1 C2] _].
    destruct (matchCompactionLocked _ _ _ _ _ _ _ _) as [m2 [f|]]; cbn [fst snd] in C1, C2.
    + split; [by etransitivity|]. intros f' [= <-]. destruct (C2 f eq_refl) as (e & He & E4).
      destruct (refresh_back m name now (g, gr) e Hlive He) as (e' & He' & E5). exists e'. by rewrite E4.
    + split; [by etransitivity|]. intros f' [= <-]. by exists (g, gr).
  - split; [done|]. intros f' [= <-]. by exists (g, gr).
Qed.

End Steps.
End LcpSteps.
