(* ===== verification/LcpBind.v ===== *)
(** * Binding and touching a sequence

    What the operations of the matcher that write do to its groups: the sequence they are
    given is bound as asked, and every other group that is left is as it was. *)
From S2P Require Import Prelude GoLib LcpKeys LcpMatcher LcpInv LcpSteps.
Import LcpKeys LcpMatcher LcpInv LcpSteps.

Module LcpBind.
Section Bind.
Context `{H : Sha256, P : Promise}.
Implicit Types (m : matcher) (g : gid) (gr : lcpGroup).

(** ** Groups that stay as they were *)

Record kept (m m' : matcher) : Prop := {
  kp_config : config_of m' = config_of m;
  kp_groups : ∀ name key g, group_at m' name key g → group_at m name key g ∧ index_view <$> deref m' g = index_view <$> deref m g;
}.
#[export] Instance kept_preorder : PreOrder kept.
Proof.
  split; [by intros m; split|]. intros m1 m2 m3 [A1 A2] [B1 B2]. split; [congruence|]. intros name key g Hg.
  apply B2 in Hg as [Hg ->]. by apply A2.
Qed.
Lemma benign_kept m m' : benign m m' → kept m m'.
Proof. intros Hb. split; [apply Hb|]. intros name key g Hg. split; [by apply (benign_at m m')|by apply Hb]. Qed.
Lemma shrunk_kept m m' : shrunk m m' → kept m m'.
Proof. intros Hs. split; [apply Hs|]. intros name key g [Hg _]%(sk_groups _ _ Hs). split; [done|]. unfold deref. by rewrite (sk_heap _ _ Hs). Qed.
(** The same, but for one sequence. *)
Record kept_but (name key : string) (m m' : matcher) : Prop := {
  kb_config : config_of m' = config_of m;
  kb_groups : ∀ name' key' g, group_at m' name' key' g →
    name' = name ∧ key' = key ∨ group_at m name' key' g ∧ index_view <$> deref m' g = index_view <$> deref m g;
}.
Lemma kept_kept_but name key m m' : kept m m' → kept_but name key m m'.
Proof. intros [A B]. split; [done|]. intros name' key' g Hg. right. by apply B. Qed.
Lemma kept_but_trans name key m1 m2 m3 : kept_but name key m1 m2 → kept_but name key m2 m3 → kept_but name key m1 m3.
Proof.
  intros [A1 A2] [B1 B2]. split; [congruence|]. intros name' key' g Hg. apply B2 in Hg as [?|[Hg ->]]; [by left|]. by apply A2.
Qed.

Record config_ok (m : matcher) : Prop := {
  co_ttl : 0 < m_ttl m;
  co_groups : 1 ≤ m_maxGroups m;
  co_turns : 1 ≤ m_maxTurns m ≤ m_maxPrefixes m;
}.
Record well (m : matcher) : Prop := {
  wl_inv : minv m;
  wl_bounded : bounded m;
  wl_config : config_ok m;
}.
Lemma config_same m m' : config_of m' = config_of m → config_ok m → config_ok m'.
Proof. intros [= A1 A2 A3 A4] [B1 B2 B3]. split; congruence. Qed.
Lemma benign_well m m' : benign m m' → well m → well m'.
Proof.
  intros Hb [A B C]. split; [by eapply benign_inv|by eapply benign_bounded|]. eapply config_same; [apply Hb|done].
Qed.
Lemma shrunk_well m m' : shrunk m m' → well m → well m'.
Proof.
  intros Hs [A B C]. split; [apply Hs| |eapply config_same; [apply Hs|done]]. destruct B as [B1 B2]. pose proof (sk_config _ _ Hs) as [= _ _ E3 E4].
  pose proof (sk_count _ _ Hs). pose proof (sk_prefixes _ _ Hs). split; lia.
Qed.

(** ** A group that was found, a group that is gone *)

Lemma group_at_fun m name key g g' : group_at m name key g → group_at m name key g' → g = g'.
Proof. unfold group_at. congruence. Qed.
Lemma find_group_spec m name key : minv m → match find_group m name key with
  | Some e => group_at m name key e.1 ∧ deref m e.1 = Some e.2
  | None => ∀ g, ¬ group_at m name key g
  end.
Proof.
  intros Hm. unfold find_group, group_at. destruct (ns_groups (namespace_of m name) !! key) as [g|] eqn:E; cbn; [|done].
  destruct (group_at_heap m name key g Hm E) as (gr & Hd & _). by rewrite Hd.
Qed.
Lemma removed_slot m name key g : minv m → group_at m name key g → ∀ g', ¬ group_at (removeGroupLocked g m) name key g'.
Proof.
  intros Hm Hg g' Hg'. assert (g ∈ m_lru m) as Hin by (apply (mi_member m Hm); eauto).
  destruct (group_remove_ok m g Hm Hin) as (_ & _ & _ & _ & _ & R & _). apply R in Hg' as [Hg' Hne]. apply Hne. by eapply group_at_fun.
Qed.
Lemma at_member m name key g : minv m → group_at m name key g → g ∈ m_lru m.
Proof. intros Hm Hg. apply (mi_member m Hm). eauto. Qed.
Lemma removed_well m name key g : well m → group_at m name key g → shrunk m (removeGroupLocked g m).
Proof. intros Hm Hg. apply remove_shrunk; [apply Hm|]. eapply at_member; [apply Hm|done]. Qed.

(** ** A new group *)

Lemma new_group_inv m gr : minv m → let m' := (new_group gr m).1 in
  minv m' ∧ m_lru m' = m_lru m ∧ deref m' (m_next m) = Some gr ∧ (∀ g, g ≠ m_next m → deref m' g = deref m g)
  ∧ (∀ name, namespace_of m' name = namespace_of m name) ∧ config_of m' = config_of m ∧ m_next m ∉ m_lru m.
Proof.
  intros Hm. cbv zeta. assert (deref m (m_next m) = None) as Hf.
  { destruct (deref m (m_next m)) eqn:E; [|done]. apply (mi_fresh m Hm) in E. lia. }
  assert (m_next m ∉ m_lru m) as Hn by (intros Hin; destruct (member_heap m _ Hm Hin) as (gr' & E & _); congruence).
  set (m' := (new_group gr m).1). assert (m_heap m' = <[m_next m := gr]> (m_heap m)) as F1 by done.
  assert (m_lru m' = m_lru m ∧ (∀ name, namespace_of m' name = namespace_of m name) ∧ config_of m' = config_of m ∧ m_next m' = S (m_next m)
    ∧ m_groupCount m' = m_groupCount m ∧ m_prefixCount m' = m_prefixCount m) as (F2 & F3 & F4 & F5 & F6 & F7) by done. clearbody m'.
  assert (∀ g, g ≠ m_next m → m_heap m' !! g = m_heap m !! g) as Fo by (intros g Hg; rewrite F1; by rewrite lookup_insert_ne).
  split_and!; try done; [|unfold deref; rewrite F1; apply lookup_insert_eq]. split.
  - intros name. rewrite F3. apply (ns_ok_heap (m_heap m)); [apply mi_ns, Hm|]. intros k g gr' _ Hg. exists gr'. split; [|done].
    rewrite Fo; [done|]. intros ->. unfold deref in Hf. congruence.
  - rewrite F2. by apply mi_nodup.
  - intros g. rewrite F2, (mi_member m Hm). unfold group_at. by setoid_rewrite F3.
  - rewrite F6, F2. by apply mi_count.
  - rewrite F7, F2, (mi_prefixes m Hm). apply zsum_ext. intros g Hg. unfold count_of. rewrite Fo; [done|]. by intros ->.
  - intros g gr'. rewrite F5. destruct (decide (g = m_next m)) as [->|Hne]; [lia|]. rewrite Fo by done. intros Hg. apply (mi_fresh m Hm) in Hg. lia.
Qed.

Lemma added_kept_but m g gr m' : added m g gr m' → kept_but (lg_namespace gr) (lg_key gr) m m'.
Proof.
  intros Ha. split; [apply Ha|]. intros name key g' Hg. destruct (ad_heap _ _ _ _ Ha) as [access Hh].
  destruct (decide (g' = g)) as [->|Hne].
  - left. destruct (group_at_heap m' name key g (ad_inv _ _ _ _ Ha) Hg) as (gr' & E & <- & <- & _). unfold deref in E.
    rewrite Hh, lookup_insert_eq in E. by injection E as <-.
  - right. destruct (ad_groups _ _ _ _ Ha name key g' Hg) as [?|Hat]; [done|]. split; [done|]. unfold deref. by rewrite Hh, lookup_insert_ne.
Qed.
(** The sequence [fps] is bound to [auth] until a ttl after [now], under the session [session]. *)
Record bound (m : matcher) (name : string) (fps : list string) (minp : Z) (auth : string) (now : time) (session : string) (g : gid) (gr : lcpGroup) : Prop := {
  bd_at : group_at m name (sequenceKey fps) g;
  bd_deref : deref m g = Some gr;
  bd_fingerprints : lg_fingerprints gr = fps;
  bd_min : lg_minPrefixLength gr = minp;
  bd_auth : lg_authID gr = auth;
  bd_expires : lg_expiresAt gr = now + m_ttl m;
  bd_session : lg_sessionID gr = session;
}.
(** What a new binding does. *)
Definition bind_fine (m : matcher) (name : string) (fps : list string) (minp : Z) (auth : string) (now : time)
    (r : matcher * MerklePrefixBindResult) : Prop :=
  well r.1 ∧ kept_but name (sequenceKey fps) m r.1 ∧ ∃ g gr, bound r.1 name fps minp auth now (br_SessionID r.2) g gr.
Lemma access_kept m : benign m (nextAccessNumberLocked m).1.
Proof. by split. Qed.
Lemma add_new_ok m gr name fps minp auth now : well m → shape gr → (∀ g, ¬ group_at m name (sequenceKey fps) g) →
  (Z.of_nat (length fps) ≤ m_maxTurns m) → lg_namespace gr = name → lg_fingerprints gr = fps → lg_minPrefixLength gr = minp →
  lg_authID gr = auth → lg_expiresAt gr = now + m_ttl m → bind_fine m name fps minp auth now (add_new gr m).
Proof.
  intros Hm Hs Hno Hlen E1 E2 E3 E4 E5. unfold add_new. pose proof (benign_well m _ (access_kept m) Hm) as Hm1.
  assert (∀ g, ¬ group_at (nextAccessNumberLocked m).1 name (sequenceKey fps) g) as Hno1 by done.
  assert (config_of (nextAccessNumberLocked m).1 = config_of m) as Hc1 by done.
  pose proof (benign_kept m _ (access_kept m)) as Hk1.
  destruct (nextAccessNumberLocked m) as [m1 access]. cbn [fst] in *. set (gr1 := gr <| lg_lastAccessNumber := access |>).
  assert (shape gr1) as Hs1 by (by apply (index_shape gr)). pose proof (new_group_inv m1 gr1 (wl_inv m1 Hm1)) as Hn. cbv zeta in Hn.
  change (new_group gr1 m1) with ((new_group gr1 m1).1, m_next m1). set (m2 := (new_group gr1 m1).1) in *. set (g := m_next m1) in *.
  destruct Hn as (N1 & N2 & N3 & N4 & N5 & N6 & N7). cbv iota beta. clearbody m2.
  pose proof (sh_key gr Hs) as Ek. pose proof (sh_keys gr Hs) as Eks.
  destruct Hm1 as [W1 W2 W3]. pose proof (config_same _ _ N6 W3) as [C1 C2 C3].
  assert (config_of m2 = config_of m) as Hc by congruence.
  assert (added m2 g gr1 (addGroupLocked g m2)) as Ha.
  { apply add_ok; [done|done|done|by rewrite N2| |done|].
    - change (lg_namespace gr1) with (lg_namespace gr). change (lg_key gr1) with (lg_key gr). rewrite N5, Ek, E1, E2.
      destruct (ns_groups _ !! _) eqn:E; [|done]. by apply Hno1 in E.
    - change (key_count gr1) with (key_count gr). unfold key_count. rewrite Eks, rolling_keys_length, E2. injection Hc as _ Ht _ _. lia. }
  assert (kept m1 m2) as Hk2.
  { split; [done|]. intros name' key g' Hg. unfold group_at in *. rewrite N5 in Hg. split; [done|]. rewrite N4; [done|]. intros ->.
    apply N7. eapply (at_member m1); [done|exact Hg]. }
  pose proof (added_kept_but _ _ _ _ Ha) as Hk3. change (lg_namespace gr1) with (lg_namespace gr) in Hk3. change (lg_key gr1) with (lg_key gr) in Hk3.
  rewrite E1, Ek, E2 in Hk3. set (m3 := addGroupLocked g m2) in *. destruct Ha as [A1 A2 A3 A4 [acc A5] A6 A7].
  assert (config_of m3 = config_of m) as Hc3 by congruence.
  assert (deref m3 g = Some (gr1 <| lg_lastAccessNumber := acc |>)) as Hd by (unfold deref; rewrite A5; apply lookup_insert_eq).
  split; [split; [done|done|eapply config_same; [exact A3|by split]]|]. split.
  - cbn [fst]. eapply kept_but_trans; [apply kept_kept_but; etransitivity; [exact Hk1|exact Hk2]|exact Hk3].
  - exists g, (gr1 <| lg_lastAccessNumber := acc |>). cbn [fst snd]. split; try done.
    + change (group_at m3 (lg_namespace gr) (lg_key gr) g) in A6. by rewrite E1, Ek, E2 in A6.
    + change (lg_expiresAt gr = now + m_ttl m3). injection Hc3 as -> _ _ _. done.
    + unfold bind_result. by rewrite Hd.
Qed.

Lemma bind_fine_kept m m1 name fps minp auth now r : kept m m1 → bind_fine m1 name fps minp auth now r → bind_fine m name fps minp auth now r.
Proof. intros Hk (B1 & B2 & B3). split; [done|]. split; [|done]. eapply kept_but_trans; [by apply kept_kept_but|done]. Qed.
(** The arguments of a call that writes. *)
Record call_ok (m : matcher) (name : string) (fps : list string) (minp : Z) : Prop := {
  ca_some : fps ≠ [];
  ca_promise : promise fps minp;
  ca_length : Z.of_nat (length fps) ≤ m_maxTurns m;
  ca_collision : ∀ g gr, group_at m name (sequenceKey fps) g → deref m g = Some gr → lg_fingerprints gr = fps;
}.
Lemma call_kept m m' name fps minp : kept m m' → call_ok m name fps minp → call_ok m' name fps minp.
Proof.
  intros [K1 K2] [A B C D]. split; [done..| |].
  - injection K1 as _ -> _ _. done.
  - intros g gr Hg Hd. apply K2 in Hg as [Hg E]. rewrite Hd in E. destruct (deref m g) as [gr0|] eqn:E0; [|done].
    apply (inj Some) in E. injection E as _ _ E _ _ _. rewrite E. by eapply D.
Qed.
Lemma bind_new_ok m name fps tails env minp auth now : well m → call_ok m name fps minp → auth ≠ "" →
  (∀ g, ¬ group_at m name (sequenceKey fps) g) → bind_fine m name fps minp auth now (bind_new name fps tails env minp auth now m).
Proof.
  intros Hm Hc Ha Hno. unfold bind_new. destruct (match_ok name fps tails env minp now m (wl_inv m Hm)) as [Hb _].
  destruct (matchLocked name fps tails env minp now m) as [m1 found]. cbn [fst] in Hb.
  assert ((match found with
           | Some f => if mt_IsCompaction f && negb (String.eqb (mt_AuthID f) "") && String.eqb auth "" then mt_AuthID f else auth
           | None => auth end) = auth) as ->.
  { destruct found as [f|]; [|done]. rewrite (proj2 (String.eqb_neq auth "")) by done. by rewrite andb_false_r. }
  cbv zeta. match goal with |- context [if String.eqb ?x "" then ?y else _] => set (session := if String.eqb x "" then y else _) end.
  clearbody session. pose proof (benign_kept _ _ Hb) as Hk. destruct (call_kept _ _ _ _ _ Hk Hc) as [C1 C2 C3 C4].
  apply (bind_fine_kept m m1); [done|]. apply add_new_ok; try done; [by eapply benign_well|].
  intros g Hg. by apply (benign_at m m1) in Hg; [apply Hno in Hg|].
Qed.
Lemma sequence_bind_ok m name fps tails env minp auth now : well m → call_ok m name fps minp → auth ≠ "" →
  bind_fine m name fps minp auth now (bindLocked name fps tails env minp auth now m).
Proof.
  intros Hm Hc Ha. unfold bindLocked. cbv zeta. set (tl := if bool_decide _ then _ else _). set (ev := if String.eqb env "" then _ else _).
  pose proof (namespace_benign m name) as Hb. set (m1 := namespaceLocked name m) in *. clearbody m1 tl ev.
  pose proof (benign_kept _ _ Hb) as Hk. pose proof (benign_well _ _ Hb Hm) as Hm1. pose proof (call_kept _ _ _ _ _ Hk Hc) as Hc1.
  apply (bind_fine_kept m m1); [done|]. clear m Hb Hk Hm Hc. pose proof (find_group_spec m1 name (sequenceKey fps) (wl_inv _ Hm1)) as Hf.
  destruct (find_group _ _ _) as [[g gr]|]; [|by apply bind_new_ok]. destruct Hf as [Hat Hd]. cbn [fst snd] in Hat, Hd.
  pose proof (removed_well m1 _ _ g Hm1 Hat) as Hs. pose proof (removed_slot m1 _ _ g (wl_inv _ Hm1) Hat) as Hslot.
  pose proof (shrunk_well _ _ Hs Hm1) as Hm2. pose proof (shrunk_kept _ _ Hs) as Hk. pose proof (call_kept _ _ _ _ _ Hk Hc1) as Hc2.
  set (m2 := removeGroupLocked g m1) in *. clearbody m2. apply (bind_fine_kept m1 m2); [done|].
  destruct (live now gr); [|by apply bind_new_ok].
  destruct (group_at_heap m1 name _ g (wl_inv _ Hm1) Hat) as (gr0 & E0 & _ & _ & Hsh). rewrite Hd in E0. injection E0 as <-.
  pose proof (ca_collision _ _ _ _ Hc1 g gr Hat Hd) as Hfp. apply add_new_ok; try done; [|apply Hc2].
  destruct Hsh as [S1 S2 S3 S4]. split; cbn; [by rewrite <- Hfp|done|by rewrite <- Hfp|apply Hc2].
Qed.

(** ** Touching *)

Lemma update_deref m g f x : deref (update_group g f m) x = (if bool_decide (x = g) then f else id) <$> deref m x.
Proof.
  unfold deref, update_group. cbn. destruct (decide (x = g)) as [->|Hne].
  - rewrite bool_decide_eq_true_2 by done. apply lookup_alter_eq.
  - rewrite bool_decide_eq_false_2 by done. by rewrite lookup_alter_ne, option_fmap_id.
Qed.
(** A group that is in no index can change. *)
Lemma detached_update m g f : minv m → g ∉ m_lru m → minv (update_group g f m) ∧ kept m (update_group g f m).
Proof.
  intros Hm Hg. assert (∀ x, x ≠ g → deref (update_group g f m) x = deref m x) as Ho.
  { intros x Hx. rewrite update_deref, bool_decide_eq_false_2 by done. by rewrite option_fmap_id. }
  assert (∀ name key x, group_at m name key x → x ≠ g) as Hx by (intros name key x Hx ->; apply Hg; by eapply at_member).
  split; [|split; [done|]; intros name key x Hat; split; [done|]; by rewrite (Ho x) by (eapply Hx, Hat)]. split.
  - intros name. change (namespace_of (update_group g f m) name) with (namespace_of m name).
    apply (ns_ok_heap (m_heap m)); [apply mi_ns, Hm|]. intros k x gr Hat Hd. exists gr. split; [|done]. rewrite <- Hd. apply Ho. by eapply (Hx name k).
  - by apply (mi_nodup m).
  - apply (mi_member m Hm).
  - apply (mi_count m Hm).
  - change (m_prefixCount (update_group g f m)) with (m_prefixCount m). rewrite (mi_prefixes m Hm). apply zsum_ext. intros x Hin. unfold count_of.
    change (m_heap m !! x) with (deref m x). change (m_heap (update_group g f m) !! x) with (deref (update_group g f m) x). by rewrite Ho by (by intros ->).
  - intros x gr E. change (deref (update_group g f m) x = Some gr) in E. rewrite update_deref in E. destruct (deref m x) eqn:E1; [|done].
    by apply (mi_fresh m Hm) in E1.
Qed.
(** The same group with other tails. *)
Definition retail (g : gid) (tails : list string) (m : matcher) : matcher :=
  addGroupLocked g (update_group g (fun group => group <| lg_tailFingerprints := tails |>) (removeGroupLocked g m)).
Lemma retail_ok m name fps minp auth now session g gr tails : well m → Z.of_nat (length fps) ≤ m_maxTurns m →
  bound m name fps minp auth now session g gr →
  well (retail g tails m) ∧ kept_but name (sequenceKey fps) m (retail g tails m)
  ∧ ∃ gr', bound (retail g tails m) name fps minp auth now session g gr'.
Proof.
  intros Hm Hlen [B1 B2 B3 B4 B5 B6 B7]. unfold retail. pose proof (removed_well m _ _ g Hm B1) as Hs.
  pose proof (removed_slot m _ _ g (wl_inv _ Hm) B1) as Hslot.
  pose proof (shrunk_well _ _ Hs Hm) as Hm1. pose proof (shrunk_kept _ _ Hs) as Hk. pose proof (sk_heap _ _ Hs) as Hh.
  destruct (remove_shrunk m g (wl_inv _ Hm) (at_member m _ _ g (wl_inv _ Hm) B1)) as [_ Hl].
  set (m1 := removeGroupLocked g m) in *. clearbody m1. clear Hs.
  destruct (group_at_heap m name _ g (wl_inv _ Hm) B1) as (gr0 & E0 & Hname & Hkey & Hsh). rewrite B2 in E0. injection E0 as <-.
  assert (g ∉ m_lru m1) as Hg by (rewrite Hl, lru_remove_elem; tauto).
  set (f := fun group => group <| lg_tailFingerprints := tails |>). destruct (detached_update m1 g f (wl_inv _ Hm1) Hg) as [U1 U2].
  assert (deref (update_group g f m1) g = Some (f gr)) as Ud.
  { rewrite update_deref, bool_decide_eq_true_2 by done. unfold deref. rewrite Hh. unfold deref in B2. by rewrite B2. }
  assert (m_lru (update_group g f m1) = m_lru m1 ∧ (∀ n, namespace_of (update_group g f m1) n = namespace_of m1 n)) as [U3 U4] by done.
  set (m2 := update_group g f m1) in *. clearbody m2. assert (config_of m2 = config_of m) as Hc by (rewrite (kp_config _ _ U2); apply Hk).
  pose proof (config_same _ _ Hc (wl_config _ Hm)) as C. assert (m_maxTurns m2 = m_maxTurns m) as Ht by (by injection Hc).
  assert (added m2 g (f gr) (addGroupLocked g m2)) as Ha.
  { apply add_ok; [done|done| |by rewrite U3| |apply C|].
    - destruct Hsh as [S1 S2 S3 S4]. by split.
    - change (lg_namespace (f gr)) with (lg_namespace gr). change (lg_key (f gr)) with (lg_key gr). rewrite Hname, Hkey, U4.
      destruct (ns_groups _ !! _) eqn:E; [|done]. by apply Hslot in E.
    - change (key_count (f gr)) with (key_count gr). unfold key_count. rewrite (sh_keys _ Hsh), rolling_keys_length, B3. pose proof (co_turns _ C). lia. }
  pose proof (added_kept_but _ _ _ _ Ha) as Hb. change (lg_namespace (f gr)) with (lg_namespace gr) in Hb. change (lg_key (f gr)) with (lg_key gr) in Hb.
  rewrite Hname, Hkey in Hb. destruct Ha as [A1 A2 A3 A4 [acc A5] A6 A7]. assert (config_of (addGroupLocked g m2) = config_of m) as Hc3 by congruence.
  split; [split; [done|done|by eapply config_same; [exact Hc3|apply Hm]]|]. split.
  - eapply kept_but_trans; [apply kept_kept_but; etransitivity; [exact Hk|exact U2]|exact Hb].
  - exists (f gr <| lg_lastAccessNumber := acc |>). split; try done.
    + change (group_at (addGroupLocked g m2) (lg_namespace gr) (lg_key gr) g) in A6. by rewrite Hname, Hkey in A6.
    + unfold deref. rewrite A5. apply lookup_insert_eq.
    + change (lg_expiresAt gr = now + m_ttl (addGroupLocked g m2)). assert (m_ttl (addGroupLocked g m2) = m_ttl m) as -> by (by injection Hc3). done.
Qed.

Lemma bound_benign m m' name fps minp auth now session g gr : benign m m' → deref m' g = deref m g →
  bound m name fps minp auth now session g gr → bound m' name fps minp auth now session g gr.
Proof.
  intros Hb Hd [B1 B2 B3 B4 B5 B6 B7]. split; try done; [by apply (benign_at m m')|by rewrite Hd|].
  rewrite B6. assert (m_ttl m' = m_ttl m) as ->; [|done]. pose proof (bn_config _ _ Hb) as E. by injection E.
Qed.
(** What touching does: the sequence is bound, or it stays with another credential. *)
Definition touch_fine (m : matcher) (name : string) (fps : list string) (auth : string) (now : time) (r : matcher * bool) : Prop :=
  well r.1 ∧ kept_but name (sequenceKey fps) m r.1
  ∧ if r.2 then ∃ minp session g gr, bound r.1 name fps minp auth now session g gr
    else benign m r.1 ∧ ∃ g gr, group_at m name (sequenceKey fps) g ∧ deref m g = Some gr ∧ live now gr = true ∧ lg_authID gr ≠ auth.
Lemma bind_touch m m1 name fps minp auth now r : kept m m1 → bind_fine m1 name fps minp auth now r → touch_fine m name fps auth now (r.1, true).
Proof.
  intros Hk Hb. apply (bind_fine_kept m m1) in Hb as (B1 & B2 & g & gr & B3); [|done]. split; [done|]. split; [done|]. cbn. eauto.
Qed.
Lemma touch_fine_kept m m1 name fps auth now r : benign m m1 → (∀ x, deref m1 x = deref m x) →
  touch_fine m1 name fps auth now r → touch_fine m name fps auth now r.
Proof.
  intros Hb Hx (T1 & T2 & T3). split; [done|]. split; [eapply kept_but_trans; [by apply kept_kept_but, benign_kept|done]|].
  destruct r.2; [done|]. destruct T3 as (T3 & g & gr & T4 & T5 & T6). split; [by etransitivity|]. exists g, gr.
  rewrite <- Hx. split; [by apply (benign_at m m1)|done].
Qed.
Lemma retake_ok m name fps g gr tails env auth now : well m → call_ok m name fps (lg_minPrefixLength gr) →
  group_at m name (sequenceKey fps) g → deref m g = Some gr →
  touch_fine m name fps auth now
   (let '(m, access) := nextAccessNumberLocked m in
    let m := update_group g (fun group => group <| lg_authID := auth |> <| lg_expiresAt := now + m_ttl m |>
                                                <| lg_lastAccessNumber := access |> <| lg_environmentDigest := env |>) m in
    let m := if negb (bool_decide (tails = [])) && negb (bool_decide (lg_tailFingerprints gr = tails)) then retail g tails m else m in
    (m <| m_lru := move_to_back g (m_lru m) |>, true)).
Proof.
  intros Hm Hc Hat Hd. pose proof (access_kept m) as Hb. assert (deref (nextAccessNumberLocked m).1 g = Some gr) as Hd1 by done.
  destruct (nextAccessNumberLocked m) as [m1 access]. cbn [fst] in Hb, Hd1. set (f := fun group : lcpGroup => _).
  assert (benign m (update_group g f m1)) as Hb2 by (etransitivity; [exact Hb|by apply update_benign]).
  assert (deref (update_group g f m1) g = Some (f gr)) as Hd2 by (rewrite update_deref, Hd1; by rewrite bool_decide_eq_true_2).
  cbv zeta. set (m2 := update_group g f m1) in *.
  assert (bound m2 name fps (lg_minPrefixLength gr) auth now (lg_sessionID gr) g (f gr)) as B.
  { split; [by apply (benign_at m m2)|done|exact (ca_collision _ _ _ _ Hc g gr Hat Hd)|done..]. }
  clearbody m2. pose proof (benign_well _ _ Hb2 Hm) as Hm2. pose proof (benign_kept _ _ Hb2) as Hk.
  set (m3 := if _ && _ then retail g tails m2 else m2).
  assert (well m3 ∧ kept_but name (sequenceKey fps) m2 m3 ∧ ∃ gr', bound m3 name fps (lg_minPrefixLength gr) auth now (lg_sessionID gr) g gr') as (M1 & M2 & gr' & M3).
  { unfold m3. destruct (_ && _).
    - apply (retail_ok m2 name fps _ auth now _ g (f gr) tails); [done| |done]. eapply ca_length, call_kept; [exact Hk|exact Hc].
    - split; [done|]. split; [by apply kept_kept_but|by exists (f gr)]. }
  clearbody m3. assert (benign m3 (m3 <| m_lru := move_to_back g (m_lru m3) |>)) as Hb3 by (apply lru_benign, move_to_back_perm, mi_nodup, M1).
  split; [by eapply benign_well|]. split.
  - eapply kept_but_trans; [by apply kept_kept_but|]. eapply kept_but_trans; [exact M2|]. by apply kept_kept_but, benign_kept.
  - cbn [fst snd]. exists (lg_minPrefixLength gr), (lg_sessionID gr), g, gr'. by eapply bound_benign; [exact Hb3| |exact M3].
Qed.
Lemma touch_ok name fps tails env minp auth now m : well m → call_ok m name fps minp → auth ≠ "" →
  touch_fine m name fps auth now (touchLocked name fps tails env minp auth now m).
Proof.
  intros Hm Hc Ha. unfold touchLocked. cbv zeta. pose proof (namespace_benign m name) as Hb. assert (∀ x, deref (namespaceLocked name m) x = deref m x) as Hx by done.
  set (m1 := namespaceLocked name m) in *. clearbody m1.
  pose proof (benign_kept _ _ Hb) as Hk. pose proof (benign_well _ _ Hb Hm) as Hm1. pose proof (call_kept _ _ _ _ _ Hk Hc) as Hc1.
  pose proof (find_group_spec m1 name (sequenceKey fps) (wl_inv _ Hm1)) as Hf.
  destruct (find_group _ _ _) as [[g gr]|]; [|eapply bind_touch; [exact Hk|by apply sequence_bind_ok]]. destruct Hf as [Hat Hd]. cbn [fst snd] in Hat, Hd.
  destruct (group_at_heap m1 name _ g (wl_inv _ Hm1) Hat) as (gr0 & E0 & _ & _ & Hsh). rewrite Hd in E0. injection E0 as <-.
  destruct (live now gr) eqn:Hl; cbn [negb].
  2: { pose proof (removed_well m1 _ _ g Hm1 Hat) as Hs. eapply bind_touch; [etransitivity; [exact Hk|by apply shrunk_kept]|].
       apply sequence_bind_ok; [by apply (shrunk_well m1)|by apply (call_kept m1); [apply shrunk_kept|]|done]. }
  destruct (_ && _) eqn:E.
  - apply andb_true_iff in E as [E _]. apply negb_true_iff, String.eqb_neq in E. split; [done|]. split; [by apply kept_kept_but|].
    split; [done|]. exists g, gr. rewrite <- Hx. split; [by apply (benign_at m m1)|]. done.
  - destruct Hc1 as [C1 C2 C3 C4]. pose proof (C4 g gr Hat Hd) as Hfp. apply (touch_fine_kept m m1); [done..|].
    apply (retake_ok m1 name fps g gr tails env auth now); [done| |done|done]. split; try done. rewrite <- Hfp. apply (sh_promise _ Hsh).
Qed.

End Bind.
End LcpBind.
