(* ===== verification/LcpRemove.v ===== *)
(** * Removing groups, and every run of the matcher

    Each removal of [LcpMatcher] takes away exactly the groups it names; and what holds
    after any sequence of operations. *)
From S2P Require Import Prelude GoLib LcpKeys LcpMatcher LcpInv LcpSteps LcpBind.
Import LcpKeys LcpMatcher LcpInv LcpSteps LcpBind.

Module LcpRemove.
Section Remove.
Context `{H : Sha256, P : Promise}.
Implicit Types (m : matcher) (g : gid) (gr : lcpGroup) (p : lcpGroup → bool).

Lemma remove_all_ok m gs : minv m → NoDup gs → (∀ g, g ∈ gs → g ∈ m_lru m) →
  shrunk m (remove_all gs m) ∧ ∀ g, g ∈ m_lru (remove_all gs m) ↔ g ∈ m_lru m ∧ g ∉ gs.
Proof.
  unfold remove_all. revert m. induction gs as [|x gs IH]; intros m Hm Hn Hg; cbn [foldl].
  { split; [by apply shrunk_refl|]. intros g. pose proof (not_elem_of_nil g). tauto. }
  apply NoDup_cons in Hn as [Hx Hn]. destruct (remove_shrunk m x Hm (Hg x ltac:(left))) as [S1 S2].
  destruct (IH (removeGroupLocked x m)) as [I1 I2]; [apply S1|done| |].
  - intros g Hin. rewrite S2, lru_remove_elem. split; [apply Hg; by right|by intros ->].
  - split; [by eapply shrunk_trans|]. intros g. rewrite I2, S2, lru_remove_elem, not_elem_of_cons. tauto.
Qed.
(** The groups for which [p] holds are gone; nothing else changed. *)
Definition removes (p : lcpGroup → bool) (m m' : matcher) : Prop :=
  shrunk m m' ∧ ∀ name key g, group_at m' name key g ↔ group_at m name key g ∧ ∀ gr, deref m g = Some gr → p gr = false.
Lemma remove_all_removes m gs p : minv m → NoDup gs →
  (∀ g, g ∈ gs ↔ ∃ name key gr, group_at m name key g ∧ deref m g = Some gr ∧ p gr = true) → removes p m (remove_all gs m).
Proof.
  intros Hm Hn Hg. destruct (remove_all_ok m gs Hm Hn) as [R1 R2].
  { intros g (name & key & gr & Hat & _)%Hg. by eapply at_member. }
  split; [done|]. intros name key g. rewrite (sk_groups _ _ R1), R2. split; intros [Hat Hgone]; (split; [done|]).
  - intros gr Hd. destruct (p gr) eqn:E; [|done]. exfalso. apply (proj2 Hgone), Hg. eauto 6.
  - split; [by eapply at_member|]. intros (name' & key' & gr & _ & Hd & Hp)%Hg. by rewrite (Hgone gr Hd) in Hp.
Qed.

(** ** The lists of groups *)

Lemma groups_list_nodup m name : minv m → NoDup (map snd (map_to_list (ns_groups (namespace_of m name)))).
Proof.
  intros Hm. apply NoDup_fmap_2_strong; [|apply NoDup_map_to_list]. intros [k1 g1] [k2 g2] H1 H2 E. cbn in E. subst g2.
  apply elem_of_map_to_list in H1, H2. destruct (nk_group _ _ _ (mi_ns m Hm name) _ _ H1) as (gr & E1 & _ & <- & _).
  destruct (nk_group _ _ _ (mi_ns m Hm name) _ _ H2) as (gr2 & E2 & _ & <- & _). congruence.
Qed.
Lemma deref_all_fst m gs : (∀ g, g ∈ gs → is_Some (deref m g)) → map fst (deref_all m gs) = gs.
Proof.
  induction gs as [|g gs IH]; intros Hg; [done|]. unfold deref_all. cbn. destruct (Hg g ltac:(left)) as [gr ->]. cbn. f_equal.
  apply IH. intros x Hx. apply Hg. by right.
Qed.
Lemma groups_list_elem m name g : g ∈ map snd (map_to_list (ns_groups (namespace_of m name))) ↔ ∃ key, group_at m name key g.
Proof.
  rewrite list_elem_of_fmap. split; [intros ([k x] & -> & Hk%elem_of_map_to_list); by exists k|].
  intros [k Hk]. exists (k, g). by rewrite elem_of_map_to_list.
Qed.
Lemma groups_of_spec m name : minv m → NoDup (map fst (groups_of m name))
  ∧ ∀ e, e ∈ groups_of m name ↔ (∃ key, group_at m name key e.1) ∧ deref m e.1 = Some e.2.
Proof.
  intros Hm. unfold groups_of. split.
  - rewrite deref_all_fst; [by apply groups_list_nodup|]. intros g [key Hat]%groups_list_elem.
    destruct (group_at_heap m name key g Hm Hat) as (gr & -> & _). by exists gr.
  - intros e. by rewrite deref_all_elem, groups_list_elem.
Qed.
Lemma concat_bind {A B} (f : A → list B) l : concat (map f l) = l ≫= f.
Proof. induction l as [|x l IH]; [done|]. cbn. by rewrite IH. Qed.
Lemma all_groups_spec m : minv m → NoDup (map fst (all_groups m))
  ∧ ∀ e, e ∈ all_groups m ↔ (∃ name key, group_at m name key e.1) ∧ deref m e.1 = Some e.2.
Proof.
  intros Hm. unfold all_groups. rewrite concat_bind.
  set (f := fun e : string * lcpNamespace => _).
  assert (∀ name ns, (name, ns) ∈ map_to_list (m_groups m) → f (name, ns) = groups_of m name) as Hf.
  { intros name ns Hn%elem_of_map_to_list. unfold f, groups_of, namespace_of. cbn. by rewrite Hn. }
  split.
  - assert (map fst (map_to_list (m_groups m) ≫= f) = map_to_list (m_groups m) ≫= (fun e => map fst (f e))) as ->.
    { generalize (map_to_list (m_groups m)). intros l. induction l as [|x l IH]; [done|]. cbn. by rewrite map_app, IH. }
    apply NoDup_bind; [|intros [name ns] Hn; rewrite (Hf name ns Hn); by apply groups_of_spec|apply NoDup_map_to_list].
    intros [n1 ns1] [n2 ns2] y H1 H2. rewrite (Hf _ _ H1), (Hf _ _ H2). intros Y1 Y2.
    apply list_elem_of_fmap in Y1 as (e1 & -> & [[k1 A1] B1]%(groups_of_spec m n1 Hm)).
    apply list_elem_of_fmap in Y2 as (e2 & E & [[k2 A2] B2]%(groups_of_spec m n2 Hm)).
    rewrite <- E in A2. destruct (group_at_heap m _ _ _ Hm A1) as (gr & D1 & N1 & _). destruct (group_at_heap m _ _ _ Hm A2) as (gr2 & D2 & N2 & _).
    assert (n1 = n2) as <- by congruence. apply elem_of_map_to_list in H1, H2. by rewrite H1 in H2; injection H2 as ->.
  - intros e. rewrite list_elem_of_bind. split.
    + intros ([name ns] & He & Hn). rewrite (Hf _ _ Hn) in He. apply (groups_of_spec m name Hm) in He as [[k Hk] Hd]. eauto.
    + intros [(name & key & Hat) Hd]. assert (∃ ns, m_groups m !! name = Some ns) as [ns En].
      { unfold group_at, namespace_of in Hat. destruct (m_groups m !! name) as [ns|]; [by exists ns|]. cbn in Hat. by rewrite lookup_empty in Hat. }
      exists (name, ns). assert ((name, ns) ∈ map_to_list (m_groups m)) as Hin by (by apply elem_of_map_to_list). split; [|done].
      rewrite (Hf _ _ Hin). apply (groups_of_spec m name Hm). split; [by exists key|done].
Qed.
Lemma filter_fst_nodup (f : gid * lcpGroup → bool) l : NoDup (map fst l) → NoDup (map fst (List.filter f l)).
Proof.
  intros Hn. eapply sublist_NoDup; [exact Hn|]. apply (fmap_sublist fst). clear Hn. induction l as [|x l IH]; [done|]. cbn.
  destruct (f x); by constructor.
Qed.
Lemma removes_where m p (f : gid * lcpGroup → bool) : minv m → (∀ e, f e = p e.2) →
  removes p m (remove_all (map fst (List.filter f (all_groups m))) m).
Proof.
  intros Hm Hf. destruct (all_groups_spec m Hm) as [A1 A2]. apply remove_all_removes; [done|by apply filter_fst_nodup|].
  intros g. rewrite list_elem_of_fmap. split.
  - intros (e & -> & [He Hp]%filter_elem). apply A2 in He as [(name & key & Hat) Hd]. rewrite Hf in Hp. eauto 6.
  - intros (name & key & gr & Hat & Hd & Hp). exists (g, gr). split; [done|]. apply filter_elem. rewrite Hf. split; [|done]. apply A2. eauto.
Qed.

(** ** Before an operation *)

Record prepared (now : time) (m m' : matcher) : Prop := {
  pp_well : well m';
  pp_heap : m_heap m' = m_heap m;
  pp_config : config_of m' = config_of m;
  pp_groups : ∀ name key g, group_at m' name key g → group_at m name key g;
  pp_live : ∀ name key g gr, group_at m name key g → deref m g = Some gr → live now gr = true → group_at m' name key g;
}.
Lemma removes_prepared now p m m' : well m → removes p m m' → (∀ gr, live now gr = true → p gr = false) → prepared now m m'.
Proof.
  intros Hm [Hs Hr] Hp. split; [by eapply shrunk_well|apply Hs|apply Hs|by intros name key g [? _]%Hr|].
  intros name key g gr Hat Hd Hl. apply Hr. split; [done|]. intros gr' Hd'. apply Hp. congruence.
Qed.
Lemma cleanup_removes now m : minv m → removes (fun gr => negb (live now gr)) m (cleanupLocked now m).
Proof. intros Hm. by apply removes_where. Qed.
Lemma operations_benign m n : benign m (m <| m_operations := n |>).
Proof. by split. Qed.
Lemma prepare_ok now m : well m → prepared now m (prepareLocked now m).
Proof.
  intros Hm. unfold prepareLocked. cbv zeta. set (m1 := m <| m_operations := _ |>).
  assert (well m1) as Hm1 by (eapply benign_well; [apply operations_benign|done]).
  assert (prepared now m1 (if wrapu64 (m_operations m + 1) mod 128 =? 0 then cleanupLocked now m1 else m1)) as [P1 P2 P3 P4 P5].
  { destruct (_ =? 0); [|by split]. eapply removes_prepared; [done|apply cleanup_removes, Hm1|]. intros gr E; cbv beta; by rewrite E. }
  by split.
Qed.
Lemma prepared_kept now m m' : prepared now m m' → kept m m'.
Proof. intros [P1 P2 P3 P4 P5]. split; [done|]. intros name key g Hg. split; [by apply P4|]. unfold deref. by rewrite P2. Qed.
Lemma max_turns_eq m : config_ok m → max_turns m = m_maxTurns m.
Proof. intros [_ _ C]. unfold max_turns. destruct (Z.leb_spec (m_maxTurns m) 0); lia. Qed.
Lemma sanitize_spec m fps minp fps' minp' : config_ok m → sanitizeFingerprints m fps minp = Some (fps', minp') →
  fps' = take (Z.to_nat (m_maxTurns m)) fps ∧ minp' = minp ∧ fps' ≠ [] ∧ 0 < minp ≤ Z.of_nat (length fps') ∧ Z.of_nat (length fps') ≤ m_maxTurns m.
Proof.
  intros Hc. unfold sanitizeFingerprints. cbv zeta. rewrite (max_turns_eq m Hc). pose proof (co_turns _ Hc) as Ht.
  destruct (_ || _) eqn:E; [done|]. rewrite !orb_false_iff, bool_decide_eq_false, Z.leb_gt, Z.ltb_ge in E. destruct E as [[E1 E2] E3].
  destruct (Z.ltb_spec (m_maxTurns m) (Z.of_nat (length fps))) as [Hlt|Hge].
  - destruct (Z.ltb_spec (m_maxTurns m) minp); [done|]. intros [= <- <-].
    assert (length (take (Z.to_nat (m_maxTurns m)) fps) = Z.to_nat (m_maxTurns m)) as El by (rewrite length_take; lia).
    split_and!; [done|done| |lia..]. intros Hn. rewrite Hn in El. cbn in El. lia.
  - intros [= <- <-]. split_and!; [|done..|lia|lia|done]. rewrite take_ge; [done|lia].
Qed.

(** ** The operations that write *)

(** What a caller must see to: its promise, and that the hash does not make two sequences one. *)
Definition write_ok (m : matcher) (name : string) (fps : list string) (minp : Z) : Prop := ∀ fps' minp',
  sanitizeFingerprints m fps minp = Some (fps', minp') →
  promise fps' minp' ∧ ∀ g gr, group_at m name (sequenceKey fps') g → deref m g = Some gr → lg_fingerprints gr = fps'.
Lemma write_call m name fps minp fps' minp' : well m → write_ok m name fps minp →
  sanitizeFingerprints m fps minp = Some (fps', minp') → call_ok m name fps' minp'.
Proof.
  intros Hm Hw Hs. destruct (Hw _ _ Hs) as [W1 W2]. destruct (sanitize_spec _ _ _ _ _ (wl_config _ Hm) Hs) as (S1 & S2 & S3 & S4 & S5). by split.
Qed.
Lemma trimmed_some s : String.eqb (trim_space s) "" = false → trim_space s ≠ "".
Proof. apply String.eqb_neq. Qed.
Lemma Bind_ok name fps tails env minp auth now m : well m → write_ok m name fps minp →
  let r := BindFingerprintsWithContext name fps tails env minp auth now m in
  r = (m, no_bind) ∧ (trim_space name = "" ∨ trim_space auth = "" ∨ sanitizeFingerprints m fps minp = None) ∨ ∃ fps', sanitizeFingerprints m fps minp = Some (fps', minp)
    ∧ bind_fine (prepareLocked now m) name fps' minp (trim_space auth) now r.
Proof.
  intros Hm Hw. cbv zeta. unfold BindFingerprintsWithContext. destruct (_ || _) eqn:E.
  { left. split; [done|]. rewrite orb_true_iff, !String.eqb_eq in E. tauto. }
  apply orb_false_iff in E as [_ E].
  destruct (context_of _ _ _ _) as [tl env']. destruct (sanitizeFingerprints m fps minp) as [[fps' minp']|] eqn:Es; [|left; by auto]. right.
  pose proof (prepare_ok now m Hm) as Hp. destruct (sanitize_spec _ _ _ _ _ (wl_config _ Hm) Es) as (_ & -> & _). exists fps'. split; [done|].
  apply sequence_bind_ok; [apply Hp| |by apply trimmed_some]. eapply call_kept; [by eapply prepared_kept|by eapply write_call].
Qed.
Lemma Touch_ok name fps tails env minp auth now m : well m → write_ok m name fps minp →
  let r := TouchFingerprintsWithContext name fps tails env minp auth now m in
  r = (m, false) ∨ ∃ fps', sanitizeFingerprints m fps minp = Some (fps', minp)
    ∧ touch_fine (prepareLocked now m) name fps' (trim_space auth) now r.
Proof.
  intros Hm Hw. cbv zeta. unfold TouchFingerprintsWithContext. destruct (_ || _) eqn:E; [by left|]. apply orb_false_iff in E as [_ E].
  destruct (context_of _ _ _ _) as [tl env']. destruct (sanitizeFingerprints m fps minp) as [[fps' minp']|] eqn:Es; [|by left]. right.
  pose proof (prepare_ok now m Hm) as Hp. destruct (sanitize_spec _ _ _ _ _ (wl_config _ Hm) Es) as (_ & -> & _). exists fps'. split; [done|].
  apply touch_ok; [apply Hp| |by apply trimmed_some]. eapply call_kept; [by eapply prepared_kept|by eapply write_call].
Qed.
Lemma Match_ok name fps tails env minp now m : well m →
  let r := MatchFingerprintsWithContext name fps tails env minp now m in
  r = (m, None) ∨ match_fine (prepareLocked now m) name now r.
Proof.
  intros Hm. cbv zeta. unfold MatchFingerprintsWithContext. destruct (String.eqb name ""); [by left|].
  destruct (context_of _ _ _ _) as [tl env']. destruct (sanitizeFingerprints m fps minp) as [[fps' minp']|]; [|by left]. right.
  apply match_ok, (prepare_ok now m Hm).
Qed.

End Remove.
End LcpRemove.
