(* ===== verification/LcpLongest.v ===== *)
(** * The binary search finds the longest known prefix

    The search of [matchLocked] over the prefix buckets against its reference: of all live
    groups of the namespace, one that shares the most turns with the request. *)
From S2P Require Import Prelude GoLib LcpKeys LcpMatcher LcpInv LcpSteps LcpBind LcpRemove.
Import LcpKeys LcpMatcher LcpInv LcpSteps LcpBind LcpRemove.

(** Sequences that begin alike have the same minimal length. *)
Class Coherent (P : Promise) : Prop :=
  promise_alike : ∀ a b i j, promise a i → promise b j → 0 < i ≤ Z.of_nat (length a) → take (Z.to_nat i) a = take (Z.to_nat i) b → j = i.

Module LcpLongest.

(** ** The binary search *)

Section Search.
Context (cand : Z → option (gid * lcpGroup)) (first final : Z).
Context (down : ∀ L L', first ≤ L' ≤ L → L ≤ final → is_Some (cand L) → is_Some (cand L')).

(** The largest length that has a candidate. *)
Definition largest (r : option (gid * lcpGroup) * Z) : Prop :=
  match r.1 with
  | Some e => first ≤ r.2 ≤ final ∧ cand r.2 = Some e ∧ ∀ L, r.2 < L ≤ final → cand L = None
  | None => ∀ L, first ≤ L ≤ final → cand L = None
  end.
Lemma search_largest fuel low high best n : first ≤ low → high ≤ final → low ≤ high + 1 → high - low < Z.of_nat fuel →
  (∀ L, high < L ≤ final → cand L = None) →
  match best with Some e => first ≤ n ∧ low = n + 1 ∧ cand n = Some e | None => low = first end →
  largest (search_prefix fuel cand low high best n).
Proof.
  revert low high best n. induction fuel as [|fuel IH]; intros low high best n Hl Hh Hlh Hf Hhigh Hbest; cbn [search_prefix].
  - unfold largest. destruct best as [e|]; cbn [fst snd].
    + split; [lia|]. split; [apply Hbest|]. intros L HL. apply Hhigh. lia.
    + intros L HL. apply Hhigh. lia.
  - destruct (Z.leb_spec low high) as [Hle|Hgt].
    2: { unfold largest. destruct best as [e|]; cbn [fst snd].
         + split; [lia|]. split; [apply Hbest|]. intros L HL. apply Hhigh. lia.
         + intros L HL. apply Hhigh. lia. }
    set (middle := low + (high - low) / 2).
    assert (low ≤ middle ≤ high) as Hmid.
    { unfold middle. pose proof (Z.div_pos (high - low) 2). pose proof (Z.div_le_upper_bound (high - low) 2 (high - low)). lia. }
    destruct (cand middle) as [e|] eqn:Em.
    + apply IH; try lia; [done|]. split_and!; [lia|lia|done].
    + apply IH; try lia; [|exact Hbest]. intros L HL. destruct (Z_lt_le_dec high L); [apply Hhigh; lia|].
      destruct (cand L) eqn:EL; [|done]. destruct (down L middle) as [? Hd]; [lia|lia|by exists p|]. congruence.
Qed.
End Search.

Section Longest.
Context `{H : Sha256, P : Promise, HP : !Coherent P}.
Implicit Types (m : matcher) (e : gid * lcpGroup).

(** ** The reference *)

(** The live group [e] begins with the first [L] turns of the request. *)
Definition shares (m : matcher) (name : string) (now : time) (fps : list string) (minp L : Z) (e : gid * lcpGroup) : Prop :=
  live_in m name now e ∧ minp ≤ L ≤ Z.of_nat (length fps) ∧ L ≤ Z.of_nat (length (lg_fingerprints e.2))
  ∧ take (Z.to_nat L) (lg_fingerprints e.2) = take (Z.to_nat L) fps.
(** None shares more; of those that share as much, none is preferred to [e]. *)
Definition is_longest (m : matcher) (name : string) (now : time) (fps : list string) (minp L : Z) (e : gid * lcpGroup) : Prop :=
  shares m name now fps minp L e
  ∧ ∀ L' e', shares m name now fps minp L' e' → L' ≤ L ∧ (L' = L → newer_group e'.2 e.2 = false).

Lemma shares_down m name now fps minp L L' e : shares m name now fps minp L e → 0 < minp → minp ≤ L' ≤ L → shares m name now fps minp L' e.
Proof.
  intros (S1 & S2 & S3 & S4) Hp HL. split_and!; [done|lia..|].
  assert (take (Z.to_nat L') (lg_fingerprints e.2) = take (Z.to_nat L') (take (Z.to_nat L) (lg_fingerprints e.2))) as -> by (rewrite take_take; f_equal; lia).
  rewrite S4, take_take. f_equal. lia.
Qed.
Lemma matches_shares m name now fps minp L e : minv m → promise fps minp → 0 < minp → minp ≤ L ≤ Z.of_nat (length fps) →
  live_in m name now e → matches_now (take (Z.to_nat L) fps) now e.2 = true ↔ shares m name now fps minp L e.
Proof.
  intros Hm Hp Hpos HL Hlive. destruct Hlive as (Hat & Hd & Hl). assert (length (take (Z.to_nat L) fps) = Z.to_nat L) as El by (rewrite length_take; lia).
  unfold matches_now, same_prefix. rewrite El, !andb_true_iff, Z.leb_le, Nat.leb_le, bool_decide_eq_true. split.
  - intros (((M1 & M2) & M3) & M4). split_and!; [done|lia..|done].
  - intros S. pose proof (shares_down _ _ _ _ _ _ minp _ S Hpos ltac:(lia)) as (_ & _ & S1 & S2). destruct S as (_ & S3 & S4 & S5).
    split; [split; [split; [done|]|lia]|done].
    destruct (group_at_heap m name _ e.1 Hm Hat) as (gr & Hd' & _ & _ & Hs). rewrite Hd in Hd'. injection Hd' as <-.
    rewrite (promise_alike fps (lg_fingerprints e.2) minp (lg_minPrefixLength e.2)); [lia|done|apply Hs|lia|done].
Qed.

(** ** The candidates *)

Lemma prefix_key_in fps gr L : lg_prefixKeys gr = rollingPrefixKeys (lg_fingerprints gr) → 0 < L ≤ Z.of_nat (length (lg_fingerprints gr)) →
  take (Z.to_nat L) (lg_fingerprints gr) = take (Z.to_nat L) fps → default "" (rollingPrefixKeys fps !! Z.to_nat (L - 1)) ∈ lg_prefixKeys gr.
Proof.
  intros -> HL He. rewrite <- (rolling_keys_lookup (lg_fingerprints gr) fps (Z.to_nat L)) by (done || lia).
  destruct (lookup_lt_is_Some_2 (rollingPrefixKeys (lg_fingerprints gr)) (Z.to_nat (L - 1))) as [k Hk]; [rewrite rolling_keys_length; lia|].
  rewrite Hk. cbn. by eapply list_elem_of_lookup_2.
Qed.
Lemma candidate_shares m name now fps minp L : minv m → promise fps minp → 0 < minp → minp ≤ L ≤ Z.of_nat (length fps) →
  match candidate_at m (namespace_of m name) fps (rollingPrefixKeys fps) now L with
  | Some e => shares m name now fps minp L e ∧ ∀ e', shares m name now fps minp L e' → newer_group e'.2 e.2 = false
  | None => ∀ e, ¬ shares m name now fps minp L e
  end.
Proof.
  intros Hm Hp Hpos HL. pose proof (candidate_spec m name fps now L) as Hc. unfold candidate_at in *. cbv zeta in *.
  match goal with |- context [newestMatchingGroup _ ?b ?f _] => pose proof (newest_spec m b f now) as Hs; pose proof (newest_max m b f now) as Hx;
    set (bucket := b) in *; set (fL := f) in * end.
  assert (∀ e, shares m name now fps minp L e → bucket !! lg_key e.2 = Some e.1 ∧ deref m e.1 = Some e.2 ∧ matches_now fL now e.2 = true) as Hin.
  { intros e S. pose proof S as ((Hat & Hd & Hl) & S2 & S3 & S4). split; [|split; [done|by apply (matches_shares m name now fps minp)]].
    destruct (group_at_heap m name _ e.1 Hm Hat) as (gr & Hd' & _ & _ & Hsh). rewrite Hd in Hd'. injection Hd' as <-.
    apply (nk_prefix _ _ _ (mi_ns m Hm name)). split; [done|]. exists e.2. split; [done|]. apply prefix_key_in; [apply Hsh|lia|done]. }
  destruct (newestMatchingGroup m bucket fL now) as [e|].
  - destruct (Hc e Hm eq_refl) as [Hlive Hmt]. split; [by apply (matches_shares m)|]. intros e' S. destruct (Hin e' S) as (B1 & B2 & B3).
    by eapply (Hx e eq_refl).
  - intros e S. destruct (Hin e S) as (B1 & B2 & B3). by rewrite (Hs _ _ _ B1 B2) in B3.
Qed.
Lemma search_longest m name now fps minp : minv m → promise fps minp → 0 < minp ≤ Z.of_nat (length fps) →
  let r := search_prefix (length fps) (candidate_at m (namespace_of m name) fps (rollingPrefixKeys fps) now) minp (Z.of_nat (length fps)) None 0 in
  match r.1 with Some e => is_longest m name now fps minp r.2 e | None => ∀ L e, ¬ shares m name now fps minp L e end.
Proof.
  intros Hm Hp Hpos. cbv zeta. set (cand := candidate_at _ _ _ _ _).
  assert (∀ L, minp ≤ L ≤ Z.of_nat (length fps) → is_Some (cand L) ↔ ∃ e, shares m name now fps minp L e) as Hc.
  { intros L HL. pose proof (candidate_shares m name now fps minp L Hm Hp ltac:(lia) HL) as Hs. fold cand in Hs.
    destruct (cand L) as [e|]; [split; [intros _; exists e; apply Hs|by eexists]|]. split; [by intros [? ?]|]. intros [e He]. by apply Hs in He. }
  pose proof (search_largest cand minp (Z.of_nat (length fps))) as Hl. specialize (Hl ltac:(intros L L' H1 H2 H3; apply Hc in H3 as [e H3]; [|lia];
    apply Hc; [lia|]; exists e; apply (shares_down _ _ _ _ _ L); [done|lia..]) (length fps) minp (Z.of_nat (length fps)) None 0).
  specialize (Hl ltac:(lia) ltac:(lia) ltac:(lia) ltac:(lia) ltac:(lia) ltac:(done)).
  destruct (search_prefix _ _ _ _ _ _) as [[e|] n]; unfold largest in Hl; cbn [fst snd] in *.
  - destruct Hl as (H1 & H2 & H3). pose proof (candidate_shares m name now fps minp n Hm Hp ltac:(lia) ltac:(lia)) as Hs. fold cand in Hs. rewrite H2 in Hs.
    split; [apply Hs|]. intros L' e' S. destruct (decide (n < L')) as [Hlt|Hge]; [|split; [lia|intros ->; by apply Hs]].
    assert (is_Some (cand L')) as [x Hx] by (apply Hc; [apply S|by exists e']). rewrite H3 in Hx; [done|]. split; [done|apply S].
  - intros L e S. assert (is_Some (cand L)) as [x Hx] by (apply Hc; [apply S|by exists e]). rewrite Hl in Hx; [done|apply S].
Qed.

(** ** The whole match *)

(** What a match gives when [e] shares the most turns, [L] of them. *)
Definition prefix_match (name : string) (fps : list string) (L : Z) (e : gid * lcpGroup) (f : MerklePrefixMatch) : Prop :=
  mt_AuthID f = lg_authID e.2 ∧ mt_PrefixLength f = L
  ∧ mt_IsFork f = (L <? Z.of_nat (length (lg_fingerprints e.2))) && (L <? Z.of_nat (length fps))
  ∧ mt_SessionID f = (if mt_IsFork f then newLCPSessionID name (default "" (rollingPrefixKeys fps !! Z.to_nat L)) else lg_sessionID e.2)
  ∧ mt_ParentSessionID f = (if mt_IsFork f then newLCPSessionID name (default "" (rollingPrefixKeys fps !! Z.to_nat (L - 1))) else lg_parentSessionID e.2).
Definition diverges (fps : list string) (L : Z) (e : gid * lcpGroup) : bool :=
  (L <? Z.of_nat (length (lg_fingerprints e.2))) && (L <? Z.of_nat (length fps)).
(** The longest prefix, unless the conversation left it and looks like a compaction of one that is known. *)
Definition match_spec (m : matcher) (name : string) (now : time) (fps : list string) (minp : Z) (r : option MerklePrefixMatch) : Prop :=
  match r with
  | Some f => (∃ L e, is_longest m name now fps minp L e ∧ prefix_match name fps L e f)
      ∨ mt_NodeKind f = "compaction" ∧ ∀ L e, is_longest m name now fps minp L e → diverges fps L e = true
  | None => ∀ L e, ¬ shares m name now fps minp L e
  end.
Lemma longest_diverges m name now fps minp L e L' e' : is_longest m name now fps minp L e → is_longest m name now fps minp L' e' →
  diverges fps L e = diverges fps L' e'.
Proof.
  intros [S1 M1] [S2 M2]. destruct (M1 _ _ S2) as [A1 N1], (M2 _ _ S1) as [A2 N2]. assert (L' = L) as -> by lia.
  specialize (N1 eq_refl). specialize (N2 eq_refl). unfold diverges.
  apply not_true_iff_false in N1, N2. rewrite newer_group_spec in N1, N2.
  assert (length (lg_fingerprints e.2) = length (lg_fingerprints e'.2)) as -> by lia. done.
Qed.
Lemma matchLocked_spec name fps tails env minp now m : minv m → promise fps minp → 0 < minp ≤ Z.of_nat (length fps) →
  match_spec m name now fps minp (matchLocked name fps tails env minp now m).2.
Proof.
  intros Hm Hp Hpos. unfold matchLocked. destruct (m_groups m !! name) as [ns|] eqn:En.
  2: { intros L e ((Hat & _) & _). unfold group_at, namespace_of in Hat. rewrite En in Hat. cbn in Hat. by rewrite lookup_empty in Hat. }
  assert (ns = namespace_of m name) as -> by (unfold namespace_of; by rewrite En).
  assert (bool_decide (fps = []) || (minp <=? 0) || (Z.of_nat (length fps) <? minp) = false) as ->.
  { rewrite !orb_false_iff, bool_decide_eq_false, Z.leb_gt, Z.ltb_ge. split; [split; [|lia]|lia]. intros ->. cbn in Hpos. lia. }
  cbv zeta. pose proof (search_longest m name now fps minp Hm Hp Hpos) as Hs. cbv zeta in Hs.
  destruct (search_prefix _ _ _ _ _ _) as [best n]. cbn [fst snd] in Hs. destruct best as [[g gr]|].
  2: { pose proof (compaction_fine name fps tails env minp 0 now m Hm) as [_ Hf].
       destruct (matchCompactionLocked _ _ _ _ _ _ _ _).2 as [f|]; [|exact Hs]. right. split; [by apply Hf|].
       intros L e [S _]. by apply Hs in S. }
  set (m1 := refresh g now m).
  change ((n <? Z.of_nat (length (lg_fingerprints gr))) && (n <? Z.of_nat (length fps))) with (diverges fps n (g, gr)).
  destruct (diverges fps n (g, gr)) eqn:Ed.
  - pose proof (compaction_fine name fps tails env minp n now m1 (benign_inv m m1 (refresh_benign m g now (mi_nodup m Hm)) Hm)) as [_ Hf].
    destruct (matchCompactionLocked _ _ _ _ _ _ _ _) as [m2 [f|]]; cbn [snd] in Hf |- *.
    + right. split; [by apply Hf|]. intros L e Hl. by rewrite <- Ed, (longest_diverges _ _ _ _ _ _ _ _ _ Hl Hs).
    + left. exists n, (g, gr). split; [done|]. unfold prefix_match. cbn. unfold diverges in Ed. cbn in Ed. by rewrite Ed.
  - left. exists n, (g, gr). split; [done|]. unfold prefix_match. cbn. unfold diverges in Ed. cbn in Ed. by rewrite Ed.
Qed.

End Longest.
End LcpLongest.
