(* ===== verification/LcpRuns.v ===== *)
(** * Every run of the prefix matcher

    The operations of the matcher as steps, and what holds after any sequence of them. *)
From S2P Require Import Prelude GoLib LcpKeys LcpMatcher LcpInv LcpSteps LcpBind LcpRemove LcpLongest.
Import LcpKeys LcpMatcher LcpInv LcpSteps LcpBind LcpRemove LcpLongest.

Module LcpRuns.

(** ** The promise of the callers that prepare turns *)

Section Role.
Context (is_system : string → bool).

(** The position of the first turn that is not a system turn, from one. *)
Fixpoint user_from (index : Z) (fps : list string) : Z :=
  match fps with
  | [] => 0
  | f :: rest => if is_system f then user_from (index + 1) rest else index + 1
  end.
Definition by_role : Promise := fun fps minp => minp = user_from 0 fps.

Lemma user_from_take i fps n : user_from i fps = 0 ∨ i < user_from i fps ≤ i + Z.of_nat (length fps)
  ∧ (user_from i fps ≤ i + Z.of_nat n → user_from i (take n fps) = user_from i fps).
Proof.
  revert i n. induction fps as [|f fps IH]; intros i n; cbn [user_from length]; [by left|]. destruct (is_system f) eqn:E.
  - destruct n as [|n].
    + destruct (IH (i + 1) 0%nat) as [->|[H1 H2]]; [by left|]. right. split; [lia|]. lia.
    + cbn [take user_from]. rewrite E. destruct (IH (i + 1) n) as [->|[H1 H2]]; [by left|]. right. split; [lia|]. intros H3. apply H2. lia.
  - right. split; [lia|]. intros H3. destruct n as [|n]; [lia|]. cbn [take user_from]. by rewrite E.
Qed.
#[export] Instance by_role_coherent : Coherent by_role.
Proof.
  intros a b i j Ha Hb Hi E. unfold promise, by_role in *. destruct (user_from_take 0 a (Z.to_nat i)) as [?|[A1 A2]]; [lia|].
  rewrite <- Ha in A1, A2. specialize (A2 ltac:(lia)). rewrite E in A2.
  assert (length (take (Z.to_nat i) b) = Z.to_nat i) as El by (rewrite <- E, length_take; lia).
  destruct (user_from_take 0 (take (Z.to_nat i) b) (Z.to_nat i)) as [?|[B1 _]]; [lia|].
  rewrite Hb. rewrite length_take in El. clear Ha E. assert (∀ k, 0 < user_from k (take (Z.to_nat i) b) → 0 ≤ k → user_from k b = user_from k (take (Z.to_nat i) b)) as Hall.
  { clear. generalize (Z.to_nat i). intros n. revert n. induction b as [|f b IH]; intros n k Hpos Hk; [by rewrite take_nil|]. destruct n as [|n]; [cbn in Hpos; lia|].
    cbn [take user_from] in *. destruct (is_system f); [|done]. apply IH; lia. }
  rewrite (Hall 0); lia.
Qed.
End Role.

Section Prepare.
Context `{H : Sha256}.
(** The fingerprint of a turn tells whether it is a system turn. *)
Definition tells_role (is_system : string → bool) (turns : list CanonicalTurn) : Prop :=
  ∀ turn, turn ∈ turns → is_system (FastTurnFingerprint turn) = String.eqb (canonicalRole (ct_Role turn)) "system".
Lemma first_user_from is_system turns i : tells_role is_system turns → first_user i turns = user_from is_system i (map FastTurnFingerprint turns).
Proof.
  revert i. induction turns as [|turn turns IH]; intros i Hr; [done|]. cbn. rewrite Hr by left.
  destruct (String.eqb _ _); [apply IH; intros t Ht; apply Hr; by right|done].
Qed.
End Prepare.

(** ** Steps *)

Inductive lcp_op : Type :=
| OpMatch (name : string) (fps tails : list string) (env : string) (minp : Z) (now : time)
| OpBind (name : string) (fps tails : list string) (env : string) (minp : Z) (authID : string) (now : time)
| OpTouch (name : string) (fps tails : list string) (env : string) (minp : Z) (authID : string) (now : time)
| OpRemove (name : string) (fps : list string) (authID : string) (maxGeneration : Z) (now : time)
| OpRemoveSession (name sessionID authID : string) (maxGeneration : Z) (now : time)
| OpInvalidate (authID : string)
| OpClear
| OpLookup (sessionID : string) (now : time).

Section Runs.
Context `{H : Sha256, P : Promise}.
Implicit Types (m : matcher).

Definition lcp_step (op : lcp_op) (m : matcher) : matcher :=
  match op with
  | OpMatch name fps tails env minp now => (MatchFingerprintsWithContext name fps tails env minp now m).1
  | OpBind name fps tails env minp authID now => (BindFingerprintsWithContext name fps tails env minp authID now m).1
  | OpTouch name fps tails env minp authID now => (TouchFingerprintsWithContext name fps tails env minp authID now m).1
  | OpRemove name fps authID maxGeneration now => (RemoveFingerprintsBefore name fps authID maxGeneration now m).1
  | OpRemoveSession name sessionID authID maxGeneration now => (RemoveSessionBefore name sessionID authID maxGeneration now m).1
  | OpInvalidate authID => InvalidateAuth authID m
  | OpClear => Clear m
  | OpLookup sessionID now => (LookupSession sessionID now m).1.1
  end.
Definition op_ok (m : matcher) (op : lcp_op) : Prop :=
  match op with
  | OpBind name fps _ _ minp _ _ | OpTouch name fps _ _ minp _ _ => write_ok m name fps minp
  | _ => True
  end.
Inductive lcp_run : matcher → list lcp_op → matcher → Prop :=
| run_nil m : lcp_run m [] m
| run_cons m op ops m' : op_ok m op → lcp_run (lcp_step op m) ops m' → lcp_run m (op :: ops) m'.

Lemma new_well ttl maxTurns maxGroups maxPrefixes : well (NewMerklePrefixMatcherWithConfig ttl maxTurns maxGroups maxPrefixes).
Proof.
  assert (∀ n d, 0 < d → 0 < or_default n d) as Hd by (intros n d ?; unfold or_default; destruct (Z.leb_spec n 0); lia).
  pose proof (Hd maxTurns defaultMatcherMaxTurns ltac:(reflexivity)). pose proof (Hd maxGroups defaultMatcherMaxGroups ltac:(reflexivity)).
  pose proof (Hd maxPrefixes defaultMatcherMaxPrefixes ltac:(reflexivity)). pose proof (Hd ttl (60 * minute) ltac:(reflexivity)).
  unfold NewMerklePrefixMatcherWithConfig. cbv zeta. set (mp := if _ <? _ then _ else _).
  assert (or_default maxTurns defaultMatcherMaxTurns ≤ mp) by (unfold mp; destruct (Z.ltb_spec (or_default maxPrefixes defaultMatcherMaxPrefixes) (or_default maxTurns defaultMatcherMaxTurns)); lia).
  split; [split|split|split]; cbn; try lia; try done.
  - intros name. unfold namespace_of. cbn. rewrite lookup_empty. apply empty_ok.
  - constructor.
  - intros g. split; [by intros ?%not_elem_of_nil|]. intros (name & key & Hat). unfold group_at, namespace_of in Hat. cbn in Hat. rewrite lookup_empty in Hat. cbn in Hat. by rewrite lookup_empty in Hat.
Qed.
Lemma clear_well m : well m → well (Clear m).
Proof.
  intros [A B C]. assert (∀ name, namespace_of (Clear m) name = empty_namespace) as En by (intros name; unfold namespace_of; cbn; by rewrite lookup_empty).
  split; [split|split|by apply (config_same m)]; try done.
  - intros name. rewrite En. apply empty_ok.
  - constructor.
  - intros g. split; [by intros ?%not_elem_of_nil|]. intros (name & key & Hat). unfold group_at in Hat. rewrite En in Hat. cbn in Hat. by rewrite lookup_empty in Hat.
  - apply (mi_fresh m A).
  - pose proof (co_groups _ C). cbn. lia.
  - pose proof (co_turns _ C). cbn. lia.
Qed.
(** ** What each removal takes away *)

Definition named_session (name sessionID authID : string) (maxGeneration : Z) (gr : lcpGroup) : bool :=
  String.eqb (lg_namespace gr) name && (String.eqb (lg_sessionID gr) sessionID && String.eqb (lg_authID gr) authID && negb (used_since maxGeneration gr)).
Lemma removes_none m p : well m → (∀ name key g gr, group_at m name key g → deref m g = Some gr → p gr = false) → removes p m m.
Proof.
  intros Hm Hp. split; [by apply shrunk_refl, Hm|]. intros name key g. split; [|by intros [? _]]. intros Hat. split; [done|]. eauto.
Qed.
Lemma invalidate_removes authID m : well m → removes (fun gr => negb (String.eqb authID "") && String.eqb (lg_authID gr) authID) m (InvalidateAuth authID m).
Proof.
  intros Hm. unfold InvalidateAuth. destruct (String.eqb authID ""); [by apply removes_none|]. cbn [negb andb]. apply removes_where; [apply Hm|done].
Qed.
Lemma session_removes name sessionID authID maxGeneration now m : well m →
  let r := RemoveSessionBefore name sessionID authID maxGeneration now m in
  r = (m, false) ∧ (name = "" ∨ sessionID = "" ∨ authID = "")
  ∨ (name ≠ "" ∧ sessionID ≠ "" ∧ authID ≠ "") ∧ removes (named_session name sessionID authID maxGeneration) (prepareLocked now m) r.1.
Proof.
  intros Hm. cbv zeta. unfold RemoveSessionBefore. destruct (_ || _) eqn:E.
  { left. split; [done|]. rewrite !orb_true_iff, !String.eqb_eq in E. tauto. }
  right. rewrite !orb_false_iff, !String.eqb_neq in E. split; [tauto|]. pose proof (wl_inv _ (pp_well _ _ _ (prepare_ok now m Hm))) as Hp.
  set (m1 := prepareLocked now m) in *. cbv zeta. cbn [fst]. destruct (groups_of_spec m1 name Hp) as [G1 G2].
  apply remove_all_removes; [done|by apply filter_fst_nodup|]. unfold named_session.
  intros g. rewrite list_elem_of_fmap. split.
  - intros (e & -> & [He Hf]%filter_elem). apply G2 in He as [[key Hat] Hd]. exists name, key, e.2. split; [done|]. split; [done|].
    destruct (group_at_heap m1 name key e.1 Hp Hat) as (gr & Hd' & Hn & _). rewrite Hd in Hd'. injection Hd' as <-. by rewrite Hn, String.eqb_refl.
  - intros (name' & key & gr & Hat & Hd & Hf). apply andb_true_iff in Hf as [Hn Hf]. apply String.eqb_eq in Hn. exists (g, gr). split; [done|].
    apply filter_elem. split; [|done]. apply G2. split; [|done]. destruct (group_at_heap m1 name' key g Hp Hat) as (gr' & Hd' & Hn' & _).
    assert (gr' = gr) as -> by congruence. rewrite <- Hn, Hn'. by exists key.
Qed.
Definition named_sequence (name : string) (fps : list string) (authID : string) (maxGeneration : Z) (gr : lcpGroup) : bool :=
  String.eqb (lg_namespace gr) name && String.eqb (lg_key gr) (sequenceKey fps)
  && (String.eqb (lg_authID gr) authID && negb (used_since maxGeneration gr)).
Lemma sequence_removes name fps authID maxGeneration now m : well m →
  let r := RemoveFingerprintsBefore name fps authID maxGeneration now m in
  r = (m, false) ∧ (name = "" ∨ authID = "" ∨ fps = [])
  ∨ (name ≠ "" ∧ authID ≠ "" ∧ fps ≠ [])
    ∧ removes (named_sequence name (take (Z.to_nat (m_maxTurns m)) fps) authID maxGeneration) (prepareLocked now m) r.1.
Proof.
  intros Hm. cbv zeta. unfold RemoveFingerprintsBefore. destruct (_ || _) eqn:E.
  { left. split; [done|]. rewrite !orb_true_iff, !String.eqb_eq, bool_decide_eq_true in E. tauto. }
  right. rewrite !orb_false_iff, !String.eqb_neq, bool_decide_eq_false in E. split; [tauto|]. clear E. pose proof (pp_well _ _ _ (prepare_ok now m Hm)) as Hw.
  rewrite (max_turns_eq m (wl_config _ Hm)).
  assert ((if m_maxTurns m <? Z.of_nat (length fps) then take (Z.to_nat (m_maxTurns m)) fps else fps) = take (Z.to_nat (m_maxTurns m)) fps) as ->.
  { destruct (Z.ltb_spec (m_maxTurns m) (Z.of_nat (length fps))); [done|]. rewrite take_ge; [done|lia]. }
  set (fps' := take _ fps). set (m1 := prepareLocked now m) in *. cbv zeta. pose proof (find_group_spec m1 name (sequenceKey fps') (wl_inv _ Hw)) as Hf.
  assert (∀ n k g gr, group_at m1 n k g → deref m1 g = Some gr → named_sequence name fps' authID maxGeneration gr = true →
    group_at m1 name (sequenceKey fps') g) as Hnamed.
  { intros n k g gr Hat Hd Hn. unfold named_sequence in Hn. rewrite !andb_true_iff, !String.eqb_eq in Hn. destruct Hn as [[N1 N2] _].
    destruct (group_at_heap m1 n k g (wl_inv _ Hw) Hat) as (gr' & Hd' & E1 & E2 & _). rewrite Hd in Hd'. injection Hd' as <-. congruence. }
  destruct (find_group _ _ _) as [[g gr]|].
  2: { apply removes_none; [done|]. intros n k g gr Hat Hd. apply not_true_iff_false. intros Hn. by eapply Hf, Hnamed. }
  cbn [fst snd] in Hf. destruct Hf as [Hat Hd]. destruct (group_at_heap m1 _ _ g (wl_inv _ Hw) Hat) as (gr' & Hd' & E1 & E2 & _).
  rewrite Hd in Hd'. injection Hd' as <-.
  assert (named_sequence name fps' authID maxGeneration gr = negb (negb (String.eqb (lg_authID gr) authID) || used_since maxGeneration gr)) as En.
  { unfold named_sequence. rewrite E1, E2, !String.eqb_refl. by rewrite negb_orb, negb_involutive. }
  assert (∀ n k g' gr', group_at m1 n k g' → deref m1 g' = Some gr' → named_sequence name fps' authID maxGeneration gr' = true → g' = g) as Hg.
  { intros n k g' gr' Ha' Hd' Hn. eapply group_at_fun; [|exact Hat]. by eapply Hnamed. }
  destruct (negb _ || _); cbn [fst negb] in En |- *.
  - apply removes_none; [done|]. intros n k g' gr' Ha' Hd'. apply not_true_iff_false. intros Hn. pose proof (Hg _ _ _ _ Ha' Hd' Hn) as ->. congruence.
  - split; [by eapply removed_well|]. intros n k g'. destruct (group_remove_ok m1 g (wl_inv _ Hw) (at_member _ _ _ _ (wl_inv _ Hw) Hat)) as (_ & _ & _ & _ & _ & R & _).
    rewrite R. split; intros [Ha' Hx]; (split; [done|]).
    + intros gr' Hd'. apply not_true_iff_false. intros Hn. by apply Hx; eapply Hg.
    + intros ->. rewrite (Hx gr Hd) in En. done.
Qed.
Lemma lookup_removes sessionID now m : well m → removes (fun gr => negb (String.eqb sessionID "") && (String.eqb (lg_sessionID gr) sessionID && negb (live now gr))) m (LookupSession sessionID now m).1.1.
Proof.
  intros Hm. unfold LookupSession. destruct (String.eqb sessionID ""); [by apply removes_none|]. cbv zeta. cbn [fst negb andb].
  assert (∀ l : list (gid * lcpGroup), List.filter (fun e => negb (live now e.2)) (List.filter (fun e => String.eqb (lg_sessionID e.2) sessionID) l)
    = List.filter (fun e => String.eqb (lg_sessionID e.2) sessionID && negb (live now e.2)) l) as ->.
  { intros l. induction l as [|x l IH]; [done|]. cbn. destruct (String.eqb _ _); cbn; [|done]. destruct (negb _); [by f_equal|done]. }
  by apply removes_where; [apply Hm|].
Qed.

(** ** The invariant of every run *)

Lemma step_well op m : well m → op_ok m op → well (lcp_step op m).
Proof.
  intros Hm Ho. pose proof (fun now => pp_well _ _ _ (prepare_ok now m Hm)) as Hp. destruct op; cbn [lcp_step op_ok] in *.
  - destruct (Match_ok name fps tails env minp now m Hm) as [->|[Hb _]]; [done|]. by eapply benign_well.
  - destruct (Bind_ok name fps tails env minp authID now m Hm Ho) as [[-> _]|(fps' & _ & Hb)]; [done|apply Hb].
  - destruct (Touch_ok name fps tails env minp authID now m Hm Ho) as [->|(fps' & _ & Hb)]; [done|apply Hb].
  - destruct (sequence_removes name fps authID maxGeneration now m Hm) as [[-> _]|[_ [Hs _]]]; [done|by eapply shrunk_well].
  - destruct (session_removes name sessionID authID maxGeneration now m Hm) as [[-> _]|[_ [Hs _]]]; [done|by eapply shrunk_well].
  - destruct (invalidate_removes authID m Hm) as [Hs _]. by eapply shrunk_well.
  - by apply clear_well.
  - destruct (lookup_removes sessionID now m Hm) as [Hs _]. by eapply shrunk_well.
Qed.
Lemma run_well m ops m' : well m → lcp_run m ops m' → well m'.
Proof. intros Hm Hr. induction Hr as [|m op ops m' Ho Hr IH]; [done|]. by apply IH, step_well. Qed.
End Runs.
End LcpRuns.
