(* ===== verification/LcpProps.v ===== *)
(** * What the prefix matcher promises

    The properties of the matcher over its runs: its indexes agree and stay within their
    bounds, a match is the longest known prefix, a conversation that was bound comes back to
    its credential, and the removals take away what they name. *)
From S2P Require Import Prelude GoLib LcpKeys LcpMatcher LcpInv LcpSteps LcpBind LcpRemove LcpLongest LcpRuns.
Import LcpKeys LcpMatcher LcpInv LcpSteps LcpBind LcpRemove LcpLongest LcpRuns.

Module LcpProps.
Section Props.
Context `{H : Sha256, P : Promise}.
Implicit Types (m : matcher).

(** C16 After any sequence of operations on a new matcher: every group under a sequence's key
    is that sequence's, every prefix bucket holds exactly the groups that have the prefix,
    every tail bucket only groups that end so, the list names every group once, the two
    counters are the sizes of what they count, and neither is over its bound. *)
Theorem prefix_indexes_agree ttl maxTurns maxGroups maxPrefixes ops m :
  lcp_run (NewMerklePrefixMatcherWithConfig ttl maxTurns maxGroups maxPrefixes) ops m → well m.
Proof. apply run_well, new_well. Qed.

Lemma live_prepared now m m' name e : prepared now m m' → live_in m' name now e ↔ live_in m name now e.
Proof.
  intros [P1 P2 P3 P4 P5]. unfold live_in, deref. rewrite P2. split; intros (H1 & H2 & H3); split_and!; try done; [by apply P4|by eapply P5].
Qed.
Lemma shares_prepared now m m' name fps minp L e : prepared now m m' → shares m' name now fps minp L e ↔ shares m name now fps minp L e.
Proof. intros Hp. unfold shares. by rewrite (live_prepared now m m'). Qed.
Lemma match_spec_prepared now m m' name fps minp r : prepared now m m' → match_spec m' name now fps minp r → match_spec m name now fps minp r.
Proof.
  intros Hp. unfold match_spec, is_longest. assert (∀ L e, shares m' name now fps minp L e ↔ shares m name now fps minp L e) as E
    by (intros; by apply shares_prepared). destruct r as [f|]; setoid_rewrite E; done.
Qed.
Lemma match_longest `{!Coherent P} name fps fps' tails env minp now m : well m → name ≠ "" →
  sanitizeFingerprints m fps minp = Some (fps', minp) → promise fps' minp →
  match_spec m name now fps' minp (MatchFingerprintsWithContext name fps tails env minp now m).2.
Proof.
  intros Hm Hn Hs Hp. unfold MatchFingerprintsWithContext. rewrite (proj2 (String.eqb_neq name "") Hn).
  destruct (context_of _ _ _ _) as [tl env']. rewrite Hs. pose proof (prepare_ok now m Hm) as Hpr. apply (match_spec_prepared now m _ _ _ _ _ Hpr).
  destruct (sanitize_spec _ _ _ _ _ (wl_config _ Hm) Hs) as (_ & _ & _ & S4 & _). apply matchLocked_spec; [apply Hpr|done|done].
Qed.
(** C8 What a match gives, in every reachable state, is what looking at every live group of
    the namespace would give: the credential and the session of a group that shares the most
    turns with the request, the preferred one of those, with a fork exactly where both go on
    and differ; nothing only when no live group shares enough; and a compaction only where
    there is no such group or the request has left the longest. *)
Theorem match_finds_longest_prefix `{!Coherent P} ttl maxTurns maxGroups maxPrefixes ops m name fps fps' tails env minp now :
  lcp_run (NewMerklePrefixMatcherWithConfig ttl maxTurns maxGroups maxPrefixes) ops m → name ≠ "" →
  sanitizeFingerprints m fps minp = Some (fps', minp) → promise fps' minp →
  match_spec m name now fps' minp (MatchFingerprintsWithContext name fps tails env minp now m).2.
Proof. intros Hr. apply match_longest. eapply run_well; [apply new_well|exact Hr]. Qed.

Lemma sanitize_fits m fps minp : config_ok m → 0 < minp ≤ Z.of_nat (length fps) → Z.of_nat (length fps) ≤ m_maxTurns m →
  sanitizeFingerprints m fps minp = Some (fps, minp).
Proof.
  intros Hc Hm Hl. unfold sanitizeFingerprints. cbv zeta. rewrite (max_turns_eq m Hc).
  assert (bool_decide (fps = []) || (minp <=? 0) || (Z.of_nat (length fps) <? minp) = false) as ->.
  { rewrite !orb_false_iff, bool_decide_eq_false, Z.leb_gt, Z.ltb_ge. split; [split; [|lia]|lia]. intros ->. cbn in Hm. lia. }
  by destruct (Z.ltb_spec (m_maxTurns m) (Z.of_nat (length fps))); [lia|].
Qed.

(** ** A conversation comes back *)

(** The only group of the namespace that begins with [fps] is that of [fps]. *)
Definition only_group (m : matcher) (name : string) (fps : list string) : Prop := ∀ key g gr,
  group_at m name key g → deref m g = Some gr → take (length fps) (lg_fingerprints gr) = fps → lg_fingerprints gr = fps.
Lemma bound_is_longest `{!Coherent P} m name fps ext minp auth now now' session g gr : well m → only_group m name fps → 0 < minp ≤ Z.of_nat (length fps) →
  bound m name fps minp auth now session g gr → before now' (now + m_ttl m) = true →
  is_longest m name now' (fps ++ ext) minp (Z.of_nat (length fps)) (g, gr)
  ∧ ∀ L e, is_longest m name now' (fps ++ ext) minp L e → L = Z.of_nat (length fps) ∧ e = (g, gr).
Proof.
  intros Hm Ho Hmin [B1 B2 B3 B4 B5 B6 B7] Hb. destruct (group_at_heap m name _ g (wl_inv _ Hm) B1) as (gr0 & E0 & _ & Ek & _).
  rewrite B2 in E0. injection E0 as <-.
  assert (shares m name now' (fps ++ ext) minp (Z.of_nat (length fps)) (g, gr)) as S.
  { split_and!; cbn [fst snd].
    - split_and!; cbn [fst snd]; [by rewrite Ek|done|]. unfold live. by rewrite B6.
    - lia.
    - rewrite length_app. lia.
    - by rewrite B3.
    - rewrite B3, Nat2Z.id, take_app_length, take_ge; done. }
  assert (∀ L e, shares m name now' (fps ++ ext) minp L e → Z.of_nat (length fps) ≤ L → L = Z.of_nat (length fps) ∧ e = (g, gr)) as Honly.
  { intros L [x grx] S' HL. pose proof (shares_down _ _ _ _ _ _ (Z.of_nat (length fps)) _ S' ltac:(lia) ltac:(lia)) as ((Hat & Hd & _) & _ & _ & Ht).
    cbn [fst snd] in Hat, Hd, Ht. rewrite Nat2Z.id, take_app_length in Ht. pose proof (Ho _ _ _ Hat Hd Ht) as Hf.
    destruct S' as (_ & _ & Hlen & _). cbn [snd] in Hlen. rewrite Hf in Hlen. split; [lia|].
    destruct (group_at_heap m name _ x (wl_inv _ Hm) Hat) as (gr1 & E1 & _ & Ek1 & Hsh). rewrite Hd in E1. injection E1 as <-.
    assert (lg_key grx = sequenceKey fps) as Ekx by (rewrite <- Hf; apply Hsh). rewrite Ekx in Hat. pose proof (group_at_fun _ _ _ _ _ Hat B1) as ->.
    rewrite B2 in Hd. by injection Hd as ->. }
  split.
  - split; [done|]. intros L' e' S'. destruct (Z_le_gt_dec (Z.of_nat (length fps)) L') as [Hle|]; [|split; [lia|lia]].
    destruct (Honly L' e' S' Hle) as [-> ->]. split; [lia|]. intros _. apply not_newer_refl.
  - intros L e [S' M]. destruct (M _ _ S) as [HL _]. by apply Honly.
Qed.
Lemma conversation_returns `{!Coherent P} m name fps fps' tails env minp auth now ext tails' env' now' :
  well m → write_ok m name fps minp → trim_space name ≠ "" → trim_space auth ≠ "" →
  sanitizeFingerprints m fps minp = Some (fps', minp) → only_group m name fps' →
  Z.of_nat (length (fps' ++ ext)) ≤ m_maxTurns m → promise (fps' ++ ext) minp → before now' (now + m_ttl m) = true →
  let '(m1, b) := BindFingerprintsWithContext name fps tails env minp auth now m in
  ∃ f, (MatchFingerprintsWithContext name (fps' ++ ext) tails' env' minp now' m1).2 = Some f
    ∧ mt_AuthID f = trim_space auth ∧ mt_SessionID f = br_SessionID b
    ∧ mt_PrefixLength f = Z.of_nat (length fps') ∧ mt_IsFork f = false.
Proof.
  intros Hm Hw Hn Ha Hs Ho Hlen Hp Hb. pose proof (Bind_ok name fps tails env minp auth now m Hm Hw) as Hbind. cbv zeta in Hbind.
  destruct (sanitize_spec _ _ _ _ _ (wl_config _ Hm) Hs) as (_ & _ & S3 & S4 & S5).
  destruct (BindFingerprintsWithContext name fps tails env minp auth now m) as [m1 b]. destruct Hbind as [[_ [?|[?|?]]]|(fps0 & Es & B1 & B2 & g & gr & B3)];
    [done|done|congruence|]. cbn [fst snd] in B1, B2, B3. assert (fps0 = fps') as -> by congruence.
  assert (config_of m1 = config_of m) as Hc by (rewrite (kb_config _ _ _ _ B2); apply prepare_ok, Hm).
  assert (only_group m1 name fps') as Ho1.
  { intros key x grx Hat Hd Ht. destruct (kb_groups _ _ _ _ B2 _ _ _ Hat) as [[_ ->]|[Hat' Ei]].
    - pose proof (group_at_fun _ _ _ _ _ Hat (bd_at _ _ _ _ _ _ _ _ _ B3)) as ->. rewrite (bd_deref _ _ _ _ _ _ _ _ _ B3) in Hd.
      injection Hd as <-. apply B3.
    - rewrite Hd in Ei. destruct (deref (prepareLocked now m) x) as [gr0|] eqn:E0; [|done]. apply (inj Some) in Ei. injection Ei as _ _ Ef _ _ _.
      pose proof (prepare_ok now m Hm) as [_ Q2 _ Q4 _]. rewrite Ef in Ht |- *. eapply Ho; [by apply Q4|unfold deref in *; by rewrite <- Q2|done]. }
  assert (m_ttl m1 = m_ttl m ∧ m_maxTurns m1 = m_maxTurns m) as [Httl Hturns] by (by injection Hc).
  assert (sanitizeFingerprints m1 (fps' ++ ext) minp = Some (fps' ++ ext, minp)) as Hs1.
  { apply sanitize_fits; [apply B1|rewrite length_app; lia|by rewrite Hturns]. }
  rewrite <- Httl in Hb. destruct (bound_is_longest m1 name fps' ext minp _ now now' _ g gr B1 Ho1 S4 B3 Hb) as [L1 L2].
  assert (name ≠ "") as Hne by (by intros ->).
  pose proof (match_longest name (fps' ++ ext) _ tails' env' minp now' m1 B1 Hne Hs1 Hp) as Hspec.
  destruct (MatchFingerprintsWithContext _ _ _ _ _ _ _).2 as [f|]; [|by destruct (Hspec _ _ (proj1 L1))]. exists f. split; [done|].
  destruct Hspec as [(L & e & HL & F)|[_ Hdiv]].
  - destruct (L2 L e HL) as [-> ->]. destruct F as (F1 & F2 & F3 & F4 & F5). cbn [snd] in F1, F3, F4.
    rewrite (bd_fingerprints _ _ _ _ _ _ _ _ _ B3), Z.ltb_irrefl in F3. cbn [andb] in F3. rewrite F3 in F4.
    split_and!; [by rewrite F1; apply B3|by rewrite F4; apply B3|done|done].
  - specialize (Hdiv _ _ L1). unfold diverges in Hdiv. cbn [snd] in Hdiv. by rewrite (bd_fingerprints _ _ _ _ _ _ _ _ _ B3), Z.ltb_irrefl in Hdiv.
Qed.

(** A conversation that was bound and goes on comes back: after [Bind], until the ttl has
    passed, a match of the same turns followed by any others gives the credential and the
    session of the binding, over exactly the bound turns and without a fork, when no other
    group of the namespace begins with those turns. *)
Theorem bound_conversation_returns `{!Coherent P} m name fps fps' tails env minp auth now ext tails' env' now' :
  well m → write_ok m name fps minp → trim_space name ≠ "" → trim_space auth ≠ "" →
  sanitizeFingerprints m fps minp = Some (fps', minp) → only_group m name fps' →
  Z.of_nat (length (fps' ++ ext)) ≤ m_maxTurns m → promise (fps' ++ ext) minp → before now' (now + m_ttl m) = true →
  let '(m1, b) := BindFingerprintsWithContext name fps tails env minp auth now m in
  ∃ f, (MatchFingerprintsWithContext name (fps' ++ ext) tails' env' minp now' m1).2 = Some f
    ∧ mt_AuthID f = trim_space auth ∧ mt_SessionID f = br_SessionID b
    ∧ mt_PrefixLength f = Z.of_nat (length fps') ∧ mt_IsFork f = false.
Proof. apply conversation_returns. Qed.

(** ** Removals *)

Lemma and_iff_compat (A B C : Prop) : (A → B ↔ C) → A ∧ B ↔ A ∧ C.
Proof. tauto. Qed.

(** The group [gr] is there under [name] and [key] and has not expired. *)
Definition lives (m : matcher) (now : time) (name key : string) (gr : lcpGroup) : Prop :=
  ∃ g, group_at m name key g ∧ deref m g = Some gr ∧ live now gr = true.
Lemma removes_lives p m m' now name key gr : removes p m m' → lives m' now name key gr ↔ lives m now name key gr ∧ p gr = false.
Proof.
  intros [Hs Hr]. unfold lives, deref. rewrite (sk_heap _ _ Hs). split.
  - intros (g & Hat & Hd & Hl). apply Hr in Hat as [Hat Hp]. split; [by exists g|]. by apply Hp.
  - intros [(g & Hat & Hd & Hl) Hp]. exists g. split; [|done]. apply Hr. split; [done|]. unfold deref. intros gr' Hd'. congruence.
Qed.
Lemma prepared_lives now m m' name key gr : prepared now m m' → lives m' now name key gr ↔ lives m now name key gr.
Proof.
  intros [P1 P2 P3 P4 P5]. unfold lives, deref in *. rewrite P2. split; intros (g & Hat & Hd & Hl); exists g; split; try done; [by apply P4|by eapply P5].
Qed.
Lemma lives_namespace m now name key gr : minv m → lives m now name key gr → lg_namespace gr = name ∧ lg_key gr = key.
Proof. intros Hm (g & Hat & Hd & _). destruct (group_at_heap m name key g Hm Hat) as (gr' & Hd' & E1 & E2 & _). rewrite Hd in Hd'. injection Hd' as <-. done. Qed.
Lemma not_used_since n gr : negb (used_since n gr) = true ↔ n ≤ 0 ∨ lg_lastAccessNumber gr ≤ n.
Proof. unfold used_since. rewrite negb_true_iff, andb_false_iff, !Z.ltb_ge. done. Qed.
(** C25 The removals take away what they name and nothing else.  Of the groups that have not
    expired, [InvalidateAuth] keeps exactly those of other credentials; [RemoveSessionBefore]
    keeps exactly those that are not of the session and credential or were used after the
    generation the caller knows; [RemoveFingerprintsBefore] likewise for one sequence, cut to
    the turns the matcher looks at.  What they keep is unchanged. *)
Theorem removals_are_exact m now authID name sessionID fps maxGeneration namespace key gr : well m →
  (authID ≠ "" → lives (InvalidateAuth authID m) now namespace key gr ↔ lives m now namespace key gr ∧ lg_authID gr ≠ authID)
  ∧ (name ≠ "" → sessionID ≠ "" → authID ≠ "" →
     lives (RemoveSessionBefore name sessionID authID maxGeneration now m).1 now namespace key gr ↔
     lives m now namespace key gr
     ∧ ¬ (namespace = name ∧ lg_sessionID gr = sessionID ∧ lg_authID gr = authID
            ∧ (maxGeneration ≤ 0 ∨ lg_lastAccessNumber gr ≤ maxGeneration)))
  ∧ (name ≠ "" → authID ≠ "" → fps ≠ [] →
     lives (RemoveFingerprintsBefore name fps authID maxGeneration now m).1 now namespace key gr ↔
     lives m now namespace key gr
     ∧ ¬ (namespace = name ∧ key = sequenceKey (take (Z.to_nat (m_maxTurns m)) fps) ∧ lg_authID gr = authID
            ∧ (maxGeneration ≤ 0 ∨ lg_lastAccessNumber gr ≤ maxGeneration))).
Proof.
  intros Hm. pose proof (prepare_ok now m Hm) as Hp. split_and!.
  - intros Ha. rewrite (removes_lives _ _ _ now namespace key gr (invalidate_removes authID m Hm)), (proj2 (String.eqb_neq authID "") Ha).
    cbn [negb andb]. by rewrite String.eqb_neq.
  - intros Hn Hs Ha. destruct (session_removes name sessionID authID maxGeneration now m Hm) as [[_ ?]|[_ Hr]]; [tauto|].
    rewrite (removes_lives _ _ _ now namespace key gr Hr), (prepared_lives now m) by done. apply and_iff_compat.
    intros Hl. apply (lives_namespace m) in Hl as [<- _]; [|apply Hm].
    rewrite <- not_true_iff_false. apply not_iff_compat. unfold named_session. rewrite !andb_true_iff, !String.eqb_eq, not_used_since. tauto.
  - intros Hn Ha Hf. destruct (sequence_removes name fps authID maxGeneration now m Hm) as [[_ ?]|[_ Hr]]; [tauto|].
    rewrite (removes_lives _ _ _ now namespace key gr Hr), (prepared_lives now m) by done. apply and_iff_compat.
    intros Hl. apply (lives_namespace m) in Hl as [<- <-]; [|apply Hm].
    rewrite <- not_true_iff_false. apply not_iff_compat. unfold named_sequence. rewrite !andb_true_iff, !String.eqb_eq, not_used_since. tauto.
Qed.

End Props.
End LcpProps.
