(* ===== verification/LcpDemo.v ===== *)
(** * The prefix matcher on a small conversation

    The properties of [LcpProps] at a concrete run: the hash is the identity, fingerprints
    that begin with s are those of system turns. *)
From S2P Require Import Prelude GoLib LcpKeys LcpMatcher LcpInv LcpSteps LcpBind LcpRemove LcpLongest LcpRuns LcpProps.
Import LcpKeys LcpMatcher LcpInv LcpSteps LcpBind LcpRemove LcpLongest LcpRuns LcpProps.

Module LcpDemo.

#[local] Instance demo_hash : Sha256 := fun s => s.
Definition is_sys (f : string) : bool := String.prefix "s" f.
#[local] Instance demo_promise : Promise := by_role is_sys.
#[local] Instance demo_coherent : Coherent demo_promise := by_role_coherent is_sys.

Definition talk : list string := ["s1"; "u1"; "a1"].
Definition talk_on : list string := ["s1"; "u1"; "a1"; "u2"].
Definition talk_off : list string := ["s1"; "u1"; "a9"; "u3"].
Definition fresh : matcher := NewMerklePrefixMatcherWithConfig (100 * second) 8 2 0.
Definition demo_ops : list lcp_op :=
  [OpBind "ns" talk [] "" 2 "alpha" 0; OpTouch "ns" talk_on [] "" 2 "alpha" 1; OpMatch "ns" talk_off [] "" 2 2;
   OpBind "ns" talk_off [] "" 2 "beta" 3].
Definition demo : matcher := foldl (fun m op => lcp_step op m) fresh demo_ops.

(** Two groups are left of three: the oldest went. *)
Example demo_groups : (m_groupCount demo, m_prefixCount demo, map (fun e => (lg_authID e.2, lg_fingerprints e.2)) (groups_of demo "ns"))
  = (2, 8, [("beta", talk_off); ("alpha", talk_on)]).
Proof. vm_compute. reflexivity. Qed.

Ltac write_tac := let f := fresh "f" in let i := fresh "i" in let E := fresh "E" in
  intros f i E; vm_compute in E; injection E as <- <-; split; [reflexivity|];
  let g := fresh "g" in let gr := fresh "gr" in let Hat := fresh "Hat" in let Hd := fresh "Hd" in
  intros g gr Hat Hd; vm_compute in Hat; first [discriminate Hat|injection Hat as <-; vm_compute in Hd; injection Hd as <-; reflexivity].
Lemma talk_run : lcp_run fresh demo_ops demo.
Proof.
  apply run_cons; [write_tac|]. apply run_cons; [write_tac|]. apply run_cons; [done|]. apply run_cons; [write_tac|].
  apply run_nil.
Qed.
Lemma demo_sanitized : sanitizeFingerprints demo talk_off 2 = Some (talk_off, 2).
Proof. vm_compute. reflexivity. Qed.

Lemma prefix_indexes_witness : lcp_run fresh demo_ops demo ∧ well demo.
Proof. split; [exact talk_run|]. exact (prefix_indexes_agree (100 * second) 8 2 0 demo_ops demo talk_run). Defined.
Lemma match_longest_witness : match_spec demo "ns" 4 talk_off 2 (MatchFingerprintsWithContext "ns" talk_off [] "" 2 4 demo).2.
Proof. apply (match_finds_longest_prefix (100 * second) 8 2 0 demo_ops demo "ns" talk_off talk_off [] "" 2 4 talk_run); [done|exact demo_sanitized|reflexivity]. Defined.

(** The fork and the continuation, as they come out. *)
Example demo_fork : (fun f => (mt_AuthID f, mt_PrefixLength f, mt_IsFork f)) <$>
  (MatchFingerprintsWithContext "ns" ["s1"; "u1"; "x"] [] "" 2 4 demo).2 = Some ("beta", 2, true).
Proof. vm_compute. reflexivity. Qed.

Definition once : matcher := lcp_step (OpBind "ns" ["s7"; "u7"] [] "" 2 "gamma" 0) fresh.
Lemma once_well : well once.
Proof. apply step_well; [apply new_well|write_tac]. Qed.
Lemma bound_returns_witness : let '(m1, b) := BindFingerprintsWithContext "ns" talk [] "" 2 " alpha " 5 once in
  ∃ f, (MatchFingerprintsWithContext "ns" (talk ++ ["u2"]) [] "" 2 6 m1).2 = Some f
    ∧ mt_AuthID f = "alpha" ∧ mt_SessionID f = br_SessionID b ∧ mt_PrefixLength f = 3 ∧ mt_IsFork f = false.
Proof.
  apply (bound_conversation_returns once "ns" talk talk [] "" 2 " alpha " 5 ["u2"] [] "" 6 once_well); try done; [write_tac|].
  intros key g gr Hat Hd Ht. destruct (groups_of_spec once "ns" (wl_inv _ once_well)) as [_ G].
  assert ((g, gr) ∈ groups_of once "ns") as Hin by (apply G; eauto).
  assert (Forall (fun e => take 3 (lg_fingerprints e.2) ≠ talk) (groups_of once "ns")) as Hall.
  { vm_compute. repeat constructor. discriminate. }
  rewrite Forall_forall in Hall. by apply Hall in Hin.
Defined.
(** The group of a handle, where there is one. *)
Lemma demo_alpha : ∃ gr, lg_authID gr = "alpha" ∧ lg_sessionID gr ≠ "" ∧ lives demo 4 "ns" (sequenceKey talk_on) gr.
Proof. eexists. split_and!; [|shelve|exists 1%nat; split_and!; vm_compute; reflexivity]. reflexivity. Unshelve. discriminate. Qed.
Lemma removals_witness : ∃ gr, lg_authID gr = "alpha" ∧ lives (InvalidateAuth "beta" demo) 4 "ns" (sequenceKey talk_on) gr
  ∧ ¬ lives (InvalidateAuth "alpha" demo) 4 "ns" (sequenceKey talk_on) gr
  ∧ ¬ lives (RemoveSessionBefore "ns" (lg_sessionID gr) "alpha" 0 4 demo).1 4 "ns" (sequenceKey talk_on) gr
  ∧ ¬ lives (RemoveFingerprintsBefore "ns" talk_on "alpha" 0 4 demo).1 4 "ns" (sequenceKey talk_on) gr.
Proof.
  destruct demo_alpha as (gr & Ha & Hs & Hl). exists gr. pose proof (run_well fresh demo_ops demo (new_well _ _ _ _) talk_run) as Hw.
  assert ("alpha" ≠ "" ∧ "beta" ≠ "" ∧ "ns" ≠ "" ∧ talk_on ≠ []) as (N1 & N2 & N3 & N4) by done.
  assert (lg_authID gr ≠ "beta") as Hb by (by rewrite Ha). assert (0 ≤ 0 ∨ lg_lastAccessNumber gr ≤ 0) as Hu by (left; lia). set (key := sequenceKey talk_on) in *.
  destruct (removals_are_exact demo 4 "beta" "ns" (lg_sessionID gr) talk_on 0 "ns" key gr Hw) as (B1 & _ & _).
  destruct (removals_are_exact demo 4 "alpha" "ns" (lg_sessionID gr) talk_on 0 "ns" key gr Hw) as (R1 & R2 & R3).
  split; [exact Ha|]. split; [exact (proj2 (B1 N2) (conj Hl Hb))|]. split; [intros Hx; exact (proj2 (proj1 (R1 N1) Hx) Ha)|].
  split; intros Hx.
  - exact (proj2 (proj1 (R2 N3 Hs N1) Hx) (conj eq_refl (conj eq_refl (conj Ha Hu)))).
  - refine (proj2 (proj1 (R3 N3 N1 N4) Hx) (conj eq_refl (conj _ (conj Ha Hu)))). vm_compute. reflexivity.
Defined.

End LcpDemo.
