(* ===== verification/Affinity.v ===== *)
(** * The session-affinity selector: sdk/cliproxy/auth/selector.go

    A selector around another one: a conversation goes back to the credential it is bound
    to, by its explicit identity over the session cache, or by its turns over the prefix
    matcher.  The wrapped selector is the class [Fallback].  What is read out of a request's
    JSON is a field of the [request]; the metadata that the selector writes and reads back
    are a record, and every reading of the clock is a field of [readings]. *)
From S2P Require Import Prelude GoLib Utf8 Weight AuthTypes Expiry Availability Selector Classify Scheduler SessionCache LcpKeys LcpMatcher.
Import AuthTypes Expiry Availability Selector Classify.

(** A selector as another one uses it.  [None] is a nil credential without an error. *)
Class Fallback (S : Type) : Type := {
  fb_pick : S → ReqCtx → string → string → list Auth → time → option picked * S;
  (** It is a [WeightedRoundRobinSelector]. *)
  fb_weighted : bool;
}.

Module Affinity.
Import SessionCache (cache, SetAliases, setSessionAliases, Get, GetAndRefresh, CompareAndDelete, latestSessionAuth, NewSessionCache).
Import Scheduler (canonicalSchedulingProvider, executorKeyFromAuth).
Import LcpKeys LcpMatcher (MerklePrefixMatch, mt_AuthID, mt_SessionID, mt_ParentSessionID, mt_IsFork, mt_IsCompaction, mt_AccessNumber,
  MerklePrefixBindResult, br_SessionID, br_ParentSessionID, br_IsFork, br_IsCompaction, br_AccessNumber,
  matcher, NewMerklePrefixMatcher, MatchFingerprintsWithContext, BindFingerprintsWithContext, TouchFingerprintsWithContext,
  RemoveFingerprintsBefore, RemoveSessionBefore, LookupSession).

(** ** Identities *)

(** The fields that the selector reads. *)
Record SessionInfo : Type := {
  si_SessionID : string;
  si_ParentSessionID : string;
  si_IsFork : bool;
  si_ClientType : string;
}.
(** The fingerprints in the metadata: a slice of strings, or one of values. *)
Inductive fingerprints_value : Type :=
| StringSlice (l : list string)
| AnySlice (l : list (option string)).
Record metadata : Type := {
  md_affinityProvider : option string;
  md_affinityModel : option string;
  md_callerScope : option string;
  md_canonicalSessionID : option string;
  md_parentSessionID : option string;
  md_lcpSessionID : option string;
  md_lcpGeneration : option Z;
  md_isFork : option bool;
  md_isCompaction : option bool;
  md_nodeKind : option string;
  md_fingerprints : option fingerprints_value;
  md_minPrefixLength : option Z;
  md_tailFingerprints : option (list string);
  md_environmentDigest : option string;
}.
#[global] Instance metadata_eta : Eta metadata := fun m =>
  {| md_affinityProvider := md_affinityProvider m; md_affinityModel := md_affinityModel m; md_callerScope := md_callerScope m;
     md_canonicalSessionID := md_canonicalSessionID m; md_parentSessionID := md_parentSessionID m; md_lcpSessionID := md_lcpSessionID m;
     md_lcpGeneration := md_lcpGeneration m; md_isFork := md_isFork m; md_isCompaction := md_isCompaction m; md_nodeKind := md_nodeKind m;
     md_fingerprints := md_fingerprints m; md_minPrefixLength := md_minPrefixLength m; md_tailFingerprints := md_tailFingerprints m;
     md_environmentDigest := md_environmentDigest m |}.
Record request : Type := {
  ar_ctx : ReqCtx;
  (** The credentials that earlier rounds of the request found in a passing state. *)
  ar_transient : gset string;
  ar_headers : list (string * list string);
  ar_payload : bool;
  (** What [ExtractSessionInfo] reads; it looks at the metadata too. *)
  ar_info : metadata → option SessionInfo;
  ar_conversation : string;
  ar_derived : string;
  ar_messages : string * string;
  ar_turns : list CanonicalTurn;
}.
(** The times one call reads from the clock. *)
Record readings : Type := {
  rd_now : time;
  rd_lookup : time;
  rd_guardian : time;
  rd_get : time;
  rd_get' : time;
  rd_match : time;
  rd_pick : time;
  rd_bind : time;
}.

(** The bytes before the first colon. *)
Fixpoint before_colon (s : string) : option string :=
  match s with
  | EmptyString => None
  | String a r => if byte_is 58 a then Some EmptyString else String a <$> before_colon r
  end.
Definition isHierarchyParent (primary fallback : string) : bool :=
  if String.eqb fallback "" || String.eqb primary "" || String.eqb primary fallback then false
  else if contains primary ":agent:" then true
  else match before_colon primary, before_colon fallback with
       | Some a, Some b => negb (String.eqb a "") && negb (String.eqb b "") && String.eqb a b
       | None, None => true
       | _, _ => false
       end.
Definition isSubagentSession (primaryID fallbackID : string) : bool :=
  if contains primaryID ":agent:" then true
  else if String.eqb fallbackID "" || String.eqb primaryID "" || String.eqb primaryID fallbackID then false
  else isHierarchyParent primaryID fallbackID.
(** Of the first header of that name the map gives. *)
Fixpoint isGuardianRequest (headers : list (string * list string)) : bool :=
  match headers with
  | [] => false
  | (key, value :: _) :: rest => if equal_fold key "X-Openai-Subagent" then equal_fold (trim_space value) "guardian" else isGuardianRequest rest
  | _ :: rest => isGuardianRequest rest
  end.
Definition extractExplicitSessionIDs (rq : request) (md : metadata) : string * string * metadata :=
  match ar_info rq md with
  | None => ("", "", md)
  | Some info =>
      if String.eqb (si_ClientType info) "lcp" then ("", "", md)
      else
        let md := if si_IsFork info then md <| md_isFork := Some true |> else md in
        let md := if negb (String.eqb (si_ParentSessionID info) "") then md <| md_parentSessionID := Some (si_ParentSessionID info) |> else md in
        let fallback := if String.eqb (si_ParentSessionID info) "" && has_prefix (si_SessionID info) "pck:" && ar_payload rq
                        then ar_conversation rq else si_ParentSessionID info in
        (si_SessionID info, fallback, md)
  end.
Definition extractSessionIDs (rq : request) (md : metadata) : string * string * metadata :=
  let '(primaryID, fallbackID, md) := extractExplicitSessionIDs rq md in
  if negb (String.eqb primaryID "") then (primaryID, fallbackID, md)
  else if negb (String.eqb (ar_derived rq) "") then ("derived:" +:+ ar_derived rq, "", md)
  else if negb (ar_payload rq) then ("", "", md)
  else (ar_messages rq, md).

(** ** Namespaces of the matcher *)

Definition canonicalLCPProvider (provider : string) : string :=
  let provider := to_lower (trim_space provider) in
  if existsb (String.eqb provider) ["google"; "gemini"; "vertex"; "aistudio"] then "google"
  else if existsb (String.eqb provider) ["codex"; "openai"] then "openai"
  else if existsb (String.eqb provider) ["claude"; "anthropic"] then "claude"
  else if String.eqb provider "devin" then "devin"
  else provider.
Definition sessionMetadataString (value : option string) : string := trim_space (default "" value).
Definition lcpAffinityNamespace (provider model : string) (md : metadata) : string :=
  let provider := canonicalLCPProvider provider in
  let model := canonicalModelKey model in
  let callerScope := sessionMetadataString (md_callerScope md) in
  if String.eqb provider "" || String.eqb callerScope "" then ""
  else String.concat "::" ["lcp:v1"; provider; model; callerScope].
(** [strings.Cut(s, "::")] and the cut at [strings.LastIndex(s, "::")]. *)
Fixpoint cut_first (s : string) : option (string * string) :=
  match s with
  | String a ((String b rest) as tail) =>
      if byte_is 58 a && byte_is 58 b then Some (EmptyString, rest)
      else match cut_first tail with Some (pre, post) => Some (String a pre, post) | None => None end
  | _ => None
  end.
Fixpoint cut_last (s : string) : option (string * string) :=
  match s with
  | String a ((String b rest) as tail) =>
      match cut_last tail with
      | Some (pre, post) => Some (String a pre, post)
      | None => if byte_is 58 a && byte_is 58 b then Some (EmptyString, rest) else None
      end
  | _ => None
  end.
(** [(provider, model, callerScope)]. *)
Definition parseLCPNamespace (ns : string) : option (string * string * string) :=
  if negb (has_prefix ns "lcp:v1::") then None
  else match cut_first (String.substring 8 (String.length ns - 8) ns) with
       | None => None
       | Some (nsProvider, rest) =>
           match cut_last rest with
           | None => Some (nsProvider, rest, "")
           | Some (nsModel, nsCallerScope) => Some (nsProvider, nsModel, nsCallerScope)
           end
       end.
Definition lcpFingerprintsFromMetadata (md : metadata) : list string * Z :=
  match md_fingerprints md with
  | None => ([], 0)
  | Some v =>
      (match v with
       | StringSlice l => l
       | AnySlice l => omap (fun item => match item with Some s => if String.eqb s "" then None else Some s | None => None end) l
       end, default 0 (md_minPrefixLength md))
  end.

(** ** When a binding survives *)

Section Rebind.
Context `{GP : GoParse, EB : ErrorBodies}.

Definition isStateBlockedByQuotaOrAuth (unavailable : bool) (quota : QuotaState) (nextRetryAfter : time) (lastErr : option Error) (now : time) : bool :=
  if Exceeded quota && (is_zero (NextRecoverAt quota) || after (NextRecoverAt quota) now) then true
  else
    let '(blocked, _, _) := availabilityBlock unavailable (Exceeded quota) nextRetryAfter (NextRecoverAt quota) now in
    if negb blocked then bool_decide (is_Some lastErr) && shouldRebindSessionAffinityOnError lastErr
    else if bool_decide (is_Some lastErr) then shouldRebindSessionAffinityOnError lastErr
    else is_zero nextRetryAfter && is_zero (NextRecoverAt quota).
Definition isAuthBlockedByQuotaOrAuthForModelForRequest (ctx : ReqCtx) (auth : Auth) (model : string) (now : time) : bool :=
  if a_Disabled auth || String.eqb (a_Status auth) StatusDisabled then true
  else if hasUnauthorizedAuthFailure auth then true
  else if token_expired ctx auth now then true
  else if Exceeded (a_Quota auth) && String.eqb (Reason (a_Quota auth)) "credential_quota"
          && (is_zero (NextRecoverAt (a_Quota auth)) || after (NextRecoverAt (a_Quota auth)) now) then true
  else if negb (String.eqb model "") && has_states auth then
    existsb (fun p : string * ModelState =>
      String.eqb (canonicalModelKey p.1) (canonicalModelKey model)
      && (String.eqb (ms_Status p.2) StatusDisabled
          || isStateBlockedByQuotaOrAuth (ms_Unavailable p.2) (ms_Quota p.2) (ms_NextRetryAfter p.2) (ms_LastError p.2) now)) (model_states auth)
  else
    let quota := if has_states auth && negb (String.eqb (Reason (a_Quota auth)) "credential_quota") && negb (a_Unavailable auth)
                 then (a_Quota auth) <| Exceeded := false |> else a_Quota auth in
    isStateBlockedByQuotaOrAuth (a_Unavailable auth) quota (a_NextRetryAfter auth) (a_LastError auth) now.

End Rebind.

(** ** The selector *)

Definition SessionAffinityRebindOnAny : string := "any".
Definition SessionAffinityRebindOnQuota : string := "quota".
Definition normalizeSessionAffinityRebindOn (value : string) : string :=
  if String.eqb (to_lower (trim_space value)) SessionAffinityRebindOnQuota then SessionAffinityRebindOnQuota else SessionAffinityRebindOnAny.

Record affinity (S : Type) : Type := {
  af_fallback : S;
  af_cache : cache;
  af_matcher : matcher;
  af_subagentAffinity : bool;
  af_rebindOnQuotaOnly : bool;
}.
#[global] Arguments af_fallback {S} _.
#[global] Arguments af_cache {S} _.
#[global] Arguments af_matcher {S} _.
#[global] Arguments af_subagentAffinity {S} _.
#[global] Arguments af_rebindOnQuotaOnly {S} _.
#[global] Instance affinity_eta {S} : Eta (affinity S) := fun s =>
  {| af_fallback := af_fallback s; af_cache := af_cache s; af_matcher := af_matcher s;
     af_subagentAffinity := af_subagentAffinity s; af_rebindOnQuotaOnly := af_rebindOnQuotaOnly s |}.
Definition NewSessionAffinitySelectorWithConfig {S} (fallback : S) (ttl : duration) (subagentAffinity : option bool) (rebindOn : string) : affinity S :=
  let ttl := if ttl <=? 0 then hour else ttl in
  {| af_fallback := fallback; af_cache := NewSessionCache ttl; af_matcher := NewMerklePrefixMatcher ttl;
     af_subagentAffinity := default true subagentAffinity;
     af_rebindOnQuotaOnly := String.eqb (normalizeSessionAffinityRebindOn rebindOn) SessionAffinityRebindOnQuota |}.
Definition NewSessionAffinitySelector {S} (fallback : S) : affinity S := NewSessionAffinitySelectorWithConfig fallback hour None "".

Definition find_auth (id : string) (auths : list Auth) : option Auth := List.find (fun a => String.eqb (a_ID a) id) auths.
(** What kind of node the request is, in the metadata. *)
Definition mark_node (isFork isCompaction : bool) (md : metadata) : metadata :=
  if isFork then md <| md_isFork := Some true |> <| md_isCompaction := None |> <| md_nodeKind := Some "fork" |>
  else if isCompaction then md <| md_isCompaction := Some true |> <| md_isFork := None |> <| md_nodeKind := Some "compaction" |>
  else md <| md_isFork := None |> <| md_isCompaction := None |> <| md_nodeKind := None |>.
Definition mark_lcp (sessionID parentSessionID : string) (access : Z) (md : metadata) : metadata :=
  let md := if String.eqb sessionID "" then md else md <| md_lcpSessionID := Some sessionID |> <| md_canonicalSessionID := Some sessionID |> in
  let md := md <| md_parentSessionID := if String.eqb parentSessionID "" then None else Some parentSessionID |> in
  if 0 <? access then md <| md_lcpGeneration := Some access |> else md.

Section Selector.
Context {S : Type} `{F : Fallback S, GP : GoParse, EB : ErrorBodies, H : Sha256}.
Implicit Types (s : affinity S) (rq : request) (md : metadata).

(** Of at most 256 bytes, cut between characters. *)
Definition BoundSessionIdentity (id : string) : string :=
  if strlen id <=? 256 then id
  else
    let hashHex := hex (sha256 id) in
    let prefixLen := 255 - 1 - strlen hashHex in
    let prefixLen := if strlen id <? prefixLen then strlen id else prefixLen in
    let prefix := substring_from id 0 prefixLen in
    drop_broken (String.length prefix) prefix +:+ "#" +:+ hashHex.

Definition shouldPreserveBindingWhenUnavailable s rq (candidates : list Auth) (model authID : string) (now : time) : bool :=
  if negb (af_rebindOnQuotaOnly s) || String.eqb authID "" then false
  else if ctx_prevalidated (ar_ctx rq) then bool_decide (authID ∈ ar_transient rq)
  else match find_auth authID candidates with
       | Some candidate => negb (isAuthBlockedByQuotaOrAuthForModelForRequest (ar_ctx rq) candidate model now)
       | None => false
       end.
Definition availability_candidates (auths : list Auth) : list Auth := if fb_weighted then positiveWeightAuths auths else auths.
Definition getSelectorAvailableAuthsAcrossPriorities (ctx : ReqCtx) (auths : list Auth) (provider model : string) (now : time) :
    outcome select_error (list Auth) :=
  getSelectorAvailableAuthsWithPriorityMode ctx auths provider model now true.
(** The wrapped selector picks, and what it picked is bound by [bind]. *)
Definition reselect (rd : readings) rq (provider model : string) (auths : list Auth) (bind : Auth → affinity S → affinity S) s :
    option picked * affinity S :=
  let '(answer, fallback) := fb_pick (af_fallback s) (ar_ctx rq) provider model auths (rd_pick rd) in
  let s := s <| af_fallback := fallback |> in
  match answer with
  | Some (Picked auth) => (answer, bind auth s)
  | _ => (answer, s)
  end.

(** ** By the turns of the conversation *)

Definition lcp_hit (f : MerklePrefixMatch) md : metadata :=
  mark_node (mt_IsFork f) (mt_IsCompaction f) (mark_lcp (mt_SessionID f) (mt_ParentSessionID f) (mt_AccessNumber f) md).
Definition lcp_bound (r : MerklePrefixBindResult) (preservedAuthID : string) md : metadata :=
  if String.eqb (br_SessionID r) "" then md
  else mark_node (String.eqb preservedAuthID "" && br_IsFork r) (br_IsCompaction r)
         (mark_lcp (br_SessionID r) (br_ParentSessionID r) (br_AccessNumber r) md).
(** [None]: not handled. *)
Definition pickLCP (rd : readings) (provider model : string) rq md (auths : list Auth) s : option (option picked * metadata * affinity S) :=
  let namespace := lcpAffinityNamespace provider model md in
  if String.eqb namespace "" || bool_decide (ar_turns rq = []) then None
  else
    let '(fingerprints, minPrefixLength, tailFingerprints, envDigest) := PrepareExt (ar_turns rq) in
    if bool_decide (fingerprints = []) || (minPrefixLength <=? 0) || (Z.of_nat (length fingerprints) <? minPrefixLength) then None
    else
      let md := md <| md_fingerprints := Some (StringSlice fingerprints) |> <| md_minPrefixLength := Some minPrefixLength |>
                   <| md_tailFingerprints := Some tailFingerprints |> <| md_environmentDigest := Some envDigest |> in
      let candidates := availability_candidates auths in
      match getSelectorAvailableAuthsAcrossPriorities (ar_ctx rq) candidates provider model (rd_now rd) with
      | Err e => Some (Some (NotPicked e), md, s)
      | Ok available =>
          let '(m, found) := MatchFingerprintsWithContext namespace fingerprints tailFingerprints envDigest minPrefixLength (rd_match rd) (af_matcher s) in
          let s := s <| af_matcher := m |> in
          match (f ← found; (f,.) <$> find_auth (mt_AuthID f) available) with
          | Some (f, auth) => Some (Some (Picked auth), lcp_hit f md, s)
          | None =>
              let preservedAuthID :=
                match found with
                | Some f => if negb (mt_IsFork f) && shouldPreserveBindingWhenUnavailable s rq candidates model (mt_AuthID f) (rd_now rd)
                            then mt_AuthID f else ""
                | None => ""
                end in
              let '(answer, fallback) := fb_pick (af_fallback s) (ar_ctx rq) provider model (highestPriorityAuths available) (rd_pick rd) in
              let s := s <| af_fallback := fallback |> in
              match answer with
              | Some (Picked auth) =>
                  let bindAuthID := if String.eqb preservedAuthID "" then a_ID auth else preservedAuthID in
                  let '(m, r) := BindFingerprintsWithContext namespace fingerprints tailFingerprints envDigest minPrefixLength bindAuthID
                                   (rd_bind rd) (af_matcher s) in
                  Some (answer, lcp_bound r preservedAuthID md, s <| af_matcher := m |>)
              | None => Some (Some (NotPicked (PlainError (plain_error "auth_not_found" "selector returned no auth"))), md, s)
              | Some _ => Some (answer, md, s)
              end
          end
      end.

(** ** By the identity of the session *)

Definition session_key (provider sessionID modelKey : string) : string := provider +:+ "::" +:+ sessionID +:+ "::" +:+ modelKey.
Definition binding_provider (provider : string) (auths : list Auth) (authID : string) : string :=
  match find_auth authID auths with
  | Some candidate =>
      let candidateProvider := canonicalSchedulingProvider (executorKeyFromAuth candidate) in
      if String.eqb candidateProvider "" then canonicalSchedulingProvider provider else candidateProvider
  | None => canonicalSchedulingProvider provider
  end.
(** The closure [bind] of [Pick]. *)
Definition bind_session (rd : readings) (provider primaryID : string) (keys : list string) (auths : list Auth) (authID : string)
    (recordSelection : bool) s : affinity S :=
  s <| af_cache := if recordSelection
                   then setSessionAliases (af_cache s) authID (binding_provider provider auths authID) primaryID keys (rd_bind rd)
                   else SetAliases (af_cache s) authID keys (rd_bind rd) |>.
(** The providers among the candidates whose selections a guardian may inherit. *)
Definition guardian_providers (provider : string) (available : list Auth) : gset string :=
  let schedulingProvider := canonicalSchedulingProvider provider in
  list_to_set (omap (fun candidate =>
    let candidateProvider := canonicalSchedulingProvider (executorKeyFromAuth candidate) in
    let candidateProvider := if String.eqb candidateProvider "" then schedulingProvider else candidateProvider in
    if String.eqb schedulingProvider "mixed" || String.eqb candidateProvider schedulingProvider then Some candidateProvider else None) available).
Definition guardian_parent (rd : readings) rq (provider fallbackID : string) (isSubagent : bool) (available : list Auth) s : option Auth :=
  if isSubagent && af_subagentAffinity s && isGuardianRequest (ar_headers rq) then
    let parentAuthID := latestSessionAuth (af_cache s) fallbackID (guardian_providers provider available) (rd_guardian rd) in
    if String.eqb parentAuthID "" then None else find_auth parentAuthID available
  else None.
(** With a session and its available credentials. *)
Definition pick_session (rd : readings) (provider model : string) rq (primaryID fallbackID : string) (isFork : bool)
    (auths candidates available : list Auth) s : option picked * affinity S :=
  let fallbackAuths := highestPriorityAuths available in
  let modelKey := canonicalModelKey model in
  let cacheKey := session_key provider primaryID modelKey in
  let isSubagent := negb isFork && isSubagentSession primaryID fallbackID in
  let fallbackKey := if negb (String.eqb fallbackID "") && negb (String.eqb fallbackID primaryID) then session_key provider fallbackID modelKey else "" in
  let keys := cacheKey :: (if negb (String.eqb fallbackKey "") && negb isSubagent && negb isFork then [fallbackKey] else []) in
  let bind := bind_session rd provider primaryID keys auths in
  let bind_picked auth := bind (a_ID auth) true in
  let preserve s authID := shouldPreserveBindingWhenUnavailable s rq candidates model authID (rd_now rd) in
  let '(cached, c) := GetAndRefresh (af_cache s) cacheKey (rd_lookup rd) in
  let s := s <| af_cache := c |> in
  match cached with
  | Some cachedAuthID =>
      match find_auth cachedAuthID available with
      | Some auth => (Some (Picked auth), bind_picked auth s)
      | None => reselect rd rq provider model fallbackAuths
                  (fun auth s => if preserve s cachedAuthID then bind cachedAuthID false s else bind_picked auth s) s
      end
  | None =>
      match guardian_parent rd rq provider fallbackID isSubagent available s with
      | Some auth => (Some (Picked auth), bind_picked auth s)
      | None =>
          let '(cached, c) := if String.eqb fallbackKey "" then (None, af_cache s) else Get (af_cache s) fallbackKey (rd_get rd) (rd_get' rd) in
          let s := s <| af_cache := c |> in
          match cached with
          | None => reselect rd rq provider model fallbackAuths bind_picked s
          | Some cachedAuthID =>
              match (if negb isSubagent || af_subagentAffinity s then find_auth cachedAuthID available else None) with
              | Some auth => (Some (Picked auth), bind_picked auth s)
              | None =>
                  if negb isSubagent && negb isFork && preserve s cachedAuthID
                  then reselect rd rq provider model fallbackAuths (fun _ => bind cachedAuthID false) s
                  else reselect rd rq provider model fallbackAuths bind_picked s
              end
          end
      end
  end.

(** The one identity of a request, as other parts of the program ask for it. *)
Definition ExtractSessionID rq md : string := (extractSessionIDs rq md).1.1.
Definition CanonicalSessionID rq md : string :=
  let '(explicitID, _, md) := extractExplicitSessionIDs rq md in
  let canonicalID := sessionMetadataString (md_canonicalSessionID md) in
  let lcpID := sessionMetadataString (md_lcpSessionID md) in
  if negb (String.eqb explicitID "") then BoundSessionIdentity explicitID
  else if negb (String.eqb canonicalID "") then BoundSessionIdentity canonicalID
  else if negb (String.eqb lcpID "") then BoundSessionIdentity lcpID
  else BoundSessionIdentity (ExtractSessionID rq md).

(** [Pick], and what it leaves in the metadata. *)
Definition explicit_marks (explicitFallbackID : string) md : metadata :=
  let md := md <| md_lcpSessionID := None |> <| md_lcpGeneration := None |> <| md_isCompaction := None |> <| md_nodeKind := None |>
               <| md_parentSessionID := if String.eqb explicitFallbackID "" then None else Some (BoundSessionIdentity explicitFallbackID) |> in
  if bool_decide (md_isFork md = Some true) then md else md <| md_isFork := None |>.
(** Without the prefix matcher. *)
Definition pick_identified (rd : readings) (provider model : string) rq (explicitID explicitFallbackID : string) md (auths : list Auth) s :
    option picked * metadata * affinity S :=
  let '(primaryID, fallbackID, md) := if String.eqb explicitID "" then extractSessionIDs rq md else (explicitID, explicitFallbackID, md) in
  let candidates := availability_candidates auths in
  if String.eqb primaryID "" then
    match getSelectorAvailableAuths (ar_ctx rq) candidates provider model (rd_now rd) with
    | Err e => (Some (NotPicked e), md, s)
    | Ok fallbackAuths =>
        let '(answer, s) := reselect rd rq provider model fallbackAuths (fun _ s => s) s in (answer, md, s)
    end
  else
    let primaryID := BoundSessionIdentity primaryID in
    let fallbackID := if String.eqb fallbackID "" then "" else BoundSessionIdentity fallbackID in
    let md := md <| md_canonicalSessionID := Some primaryID |> in
    match getSelectorAvailableAuthsAcrossPriorities (ar_ctx rq) candidates provider model (rd_now rd) with
    | Err e => (Some (NotPicked e), md, s)
    | Ok available =>
        let '(answer, s) := pick_session rd provider model rq primaryID fallbackID (bool_decide (md_isFork md = Some true)) auths candidates available s in
        (answer, md, s)
    end.
Definition Pick (rd : readings) (provider model : string) rq md (auths : list Auth) s : option picked * metadata * affinity S :=
  let md := md <| md_affinityProvider := Some provider |> <| md_affinityModel := Some model |> in
  let '(explicitID, explicitFallbackID, md) := extractExplicitSessionIDs rq md in
  if String.eqb explicitID "" then
    match pickLCP rd provider model rq md auths s with
    | Some r => r
    | None => pick_identified rd provider model rq "" explicitFallbackID md auths s
    end
  else pick_identified rd provider model rq explicitID explicitFallbackID (explicit_marks explicitFallbackID md) auths s.

(** ** What becomes of a binding *)

(** A result of a request, with the metadata [Pick] left. *)
Definition OnResult_lcp (namespace : string) (success : bool) (authID : string) rq md (now : time) s : affinity S :=
  let '(fingerprints, minPrefixLength) := lcpFingerprintsFromMetadata md in
  let '(fingerprints, minPrefixLength, tailFingerprints, envDigest) :=
    if bool_decide (fingerprints = []) then PrepareExt (ar_turns rq)
    else (fingerprints, minPrefixLength, default [] (md_tailFingerprints md), default "" (md_environmentDigest md)) in
  if bool_decide (fingerprints = []) || (minPrefixLength <=? 0) || (Z.of_nat (length fingerprints) <? minPrefixLength) then s
  else if success then
    s <| af_matcher := (TouchFingerprintsWithContext namespace fingerprints tailFingerprints envDigest minPrefixLength authID now (af_matcher s)).1 |>
  else
    let generation := default 0 (md_lcpGeneration md) in
    let '(m, removed) := RemoveFingerprintsBefore namespace fingerprints authID generation now (af_matcher s) in
    let lcpSessionID := sessionMetadataString (md_lcpSessionID md) in
    s <| af_matcher := if removed || bool_decide (md_isFork md = Some true) || String.eqb lcpSessionID "" then m
                       else (RemoveSessionBefore namespace lcpSessionID authID generation now m).1 |>.
Definition OnResult_cache (ns nsModel primaryID fallbackID : string) (success : bool) (authID : string) (now : time) s : affinity S :=
  if String.eqb primaryID "" && String.eqb fallbackID "" then s
  else
    let primaryID := if String.eqb primaryID "" then "" else BoundSessionIdentity primaryID in
    let fallbackID := if String.eqb fallbackID "" then "" else BoundSessionIdentity fallbackID in
    let cacheKey := session_key ns primaryID nsModel in
    let keys := cacheKey :: (if negb (String.eqb fallbackID "") && negb (String.eqb fallbackID primaryID) && negb (isSubagentSession primaryID fallbackID)
                             then [session_key ns fallbackID nsModel] else []) in
    s <| af_cache := foldl (fun c key => if success then (SessionCache.Touch c key authID now).2 else (CompareAndDelete c key authID).2)
                       (af_cache s) keys |>.
Definition OnResult (authID provider model : string) (success : bool) (err : option Error) rq md (now : time) s : affinity S :=
  if String.eqb authID "" then s
  else
    let '(explicitID, explicitFallbackID, md) := extractExplicitSessionIDs rq md in
    let explicitID := if String.eqb explicitID "" then "" else BoundSessionIdentity explicitID in
    let explicitFallbackID := if String.eqb explicitID "" || String.eqb explicitFallbackID "" then explicitFallbackID
                              else BoundSessionIdentity explicitFallbackID in
    let ns := match md_affinityProvider md with Some raw => if String.eqb raw "" then provider else raw | None => provider end in
    let nsModel := match md_affinityModel md with
                   | Some raw => if String.eqb raw "" then canonicalModelKey model else canonicalModelKey raw
                   | None => canonicalModelKey model
                   end in
    if shouldSkipCredentialCooldown err then s
    else if negb success && af_rebindOnQuotaOnly s && negb (shouldRebindSessionAffinityOnError err) then s
    else
      let namespace := lcpAffinityNamespace ns nsModel md in
      let s := if String.eqb explicitID "" && negb (String.eqb namespace "") then OnResult_lcp namespace success authID rq md now s else s in
      if String.eqb explicitID "" && bool_decide (is_Some (md_lcpSessionID md)) then s
      else
        let '(primaryID, fallbackID, _) := if String.eqb explicitID "" then extractSessionIDs rq md else (explicitID, explicitFallbackID, md) in
        OnResult_cache ns nsModel primaryID fallbackID success authID now s.
Definition InvalidateAuth (authID : string) s : affinity S :=
  s <| af_cache := SessionCache.InvalidateAuth (af_cache s) authID |> <| af_matcher := LcpMatcher.InvalidateAuth authID (af_matcher s) |>.
(** The cache's goroutine aside. *)
Definition Stop s : affinity S := s <| af_matcher := LcpMatcher.Clear (af_matcher s) |>.

(** ** Looking a binding up *)

Definition CandidateSessionPrefixes : list string :=
  ["lcp:v1:"; "lcp:"; "codex:"; "claude:"; "header:"; "session:"; "affinity:"; "slot:"; "task:"; "conv:"; "thread:"; "clientreq:";
   "geminicache:"; "pck:"; "user:"; "execution:"; "agy:"; "derived:"].
Definition lookup_candidates (sessionID : string) : list string :=
  if existsb (has_prefix sessionID) CandidateSessionPrefixes then [sessionID]
  else sessionID :: map (fun p => p +:+ sessionID) CandidateSessionPrefixes.
Definition lookup_cache_step (modelKey : string) (allowed : string → bool) (now : time) (acc : gset string * affinity S) (at_ : string * string) :
    gset string * affinity S :=
  let '(found, s) := acc in
  let '(answer, c) := Get (af_cache s) (session_key at_.1 (BoundSessionIdentity at_.2) modelKey) now now in
  let s := s <| af_cache := c |> in
  match answer with
  | Some authID => if String.eqb authID "" || negb (allowed authID) then (found, s) else ({[authID]} ∪ found, s)
  | None => (found, s)
  end.
Definition matches_namespace (provider modelKey ns : string) : bool :=
  match parseLCPNamespace ns with
  | Some (nsProvider, nsModel, _) =>
      negb ((negb (String.eqb provider "mixed") && negb (String.eqb nsProvider "mixed")
             && negb (String.eqb (canonicalLCPProvider nsProvider) (canonicalLCPProvider provider)))
            || (negb (String.eqb modelKey "") && negb (String.eqb nsModel modelKey)))
  | None => true
  end.
Definition lookup_matcher_step (provider modelKey : string) (allowed : string → bool) (now : time) (acc : gset string * affinity S) (sessionID : string) :
    gset string * affinity S :=
  let '(found, s) := acc in
  let '(m, authIDs, ns) := LookupSession sessionID now (af_matcher s) in
  let s := s <| af_matcher := m |> in
  if matches_namespace provider modelKey ns then (list_to_set (List.filter allowed authIDs) ∪ found, s) else (found, s).
Definition LookupAffinity (provider model sessionID : string) (allowed : string → bool) (now : time) s : string * string * affinity S :=
  let provider := trim_space provider in
  let model := trim_space model in
  let sessionID := trim_space sessionID in
  if String.eqb provider "" || String.eqb model "" || String.eqb sessionID "" then ("", "unbound", s)
  else
    let modelKey := if String.eqb (canonicalModelKey model) "" then model else canonicalModelKey model in
    let providers := provider :: (if String.eqb provider "mixed" then [] else ["mixed"]) in
    let candidates := lookup_candidates sessionID in
    let acc := foldl (lookup_cache_step modelKey allowed now) (∅, s) (concat (map (fun p => map (p,.) candidates) providers)) in
    let '(found, s) := foldl (lookup_matcher_step provider modelKey allowed now) acc candidates in
    match elements found with
    | [] => ("", "unbound", s)
    | [authID] => (authID, "bound", s)
    | _ => ("", "ambiguous", s)
    end.

End Selector.

(** ** The selectors of this package *)

Section Instances.
Context `{GP : GoParse}.

#[export] Instance round_robin_fallback : Fallback RoundRobinSelector :=
  {| fb_pick s ctx provider model auths now := let '(answer, s) := RoundRobin_Pick s ctx provider model auths now in (Some answer, s);
     fb_weighted := false |}.
#[export] Instance weighted_fallback : Fallback WeightedRoundRobinSelector :=
  {| fb_pick s ctx provider model auths now := let '(answer, s) := Weighted_Pick s ctx provider model auths now in (Some answer, s);
     fb_weighted := true |}.
#[export] Instance fill_first_fallback : Fallback unit :=
  {| fb_pick s ctx provider model auths now := (Some (FillFirst_Pick ctx provider model auths now), s);
     fb_weighted := false |}.
End Instances.

End Affinity.
