(* ===== verification/SessionIdentity.v ===== *)
(** * Identities of bounded size: [BoundSessionIdentity] of sdk/cliproxy/session/info.go

    What the key of a session is made of: at most 256 bytes, valid text, the same however
    often it is taken, and told apart by the hash. *)
From S2P Require Import Prelude GoLib Utf8 LcpKeys Affinity.
Import LcpKeys Affinity.

Module SessionIdentity.

(** ** The hash in hexadecimal *)

Lemma hex_digit_code n : (n < 16)%N → Ascii.N_of_ascii (hex_digit n) = if (n <? 10)%N then (48 + n)%N else (87 + n)%N.
Proof. intros Hn. unfold hex_digit. apply Ascii.N_ascii_embedding. destruct (N.ltb_spec n 10); lia. Qed.
Lemma nibbles c : let n := Ascii.N_of_ascii c in (n / 16 < 16)%N ∧ (n mod 16 < 16)%N.
Proof.
  cbv zeta. pose proof (Ascii.N_ascii_bounded c). split; [apply N.Div0.div_lt_upper_bound; lia|by apply N.mod_lt].
Qed.
Lemma hex_digit_ascii n : (n < 16)%N → byte_in 0 127 (hex_digit n) = true.
Proof. intros Hn. unfold byte_in. rewrite hex_digit_code by done. apply andb_true_iff. rewrite !N.leb_le. destruct (N.ltb_spec n 10); lia. Qed.
Lemma hex_digit_inj n k : (n < 16)%N → (k < 16)%N → hex_digit n = hex_digit k → n = k.
Proof.
  intros Hn Hk E. apply (f_equal Ascii.N_of_ascii) in E. rewrite !hex_digit_code in E by done.
  destruct (N.ltb_spec n 10), (N.ltb_spec k 10); lia.
Qed.
Lemma hex_length s : String.length (hex s) = (2 * String.length s)%nat.
Proof. induction s as [|c s IH]; cbn in *; lia. Qed.
Lemma hex_valid s : utf8_valid (hex s) = true.
Proof.
  induction s as [|c s IH]; [done|]. cbn [hex]. cbv zeta. destruct (nibbles c) as [H1 H2].
  by apply utf8_ascii; [apply hex_digit_ascii|apply utf8_ascii; [apply hex_digit_ascii|]].
Qed.
Lemma hex_inj s t : hex s = hex t → s = t.
Proof.
  revert t. induction s as [|c s IH]; intros [|d t]; [done..|]. cbn [hex]. cbv zeta. intros E.
  injection E as E1 E2 E3. destruct (nibbles c) as [H1 H2], (nibbles d) as [H3 H4].
  apply hex_digit_inj in E1, E2; [|done..]. f_equal; [|by apply IH].
  rewrite <- (Ascii.ascii_N_embedding c), <- (Ascii.ascii_N_embedding d). f_equal.
  rewrite (N.div_mod (Ascii.N_of_ascii c) 16), (N.div_mod (Ascii.N_of_ascii d) 16) by done. by rewrite E1, E2.
Qed.

(** ** The bound *)

Section Bound.
Context `{H : Sha256} (Hlen : ∀ s, String.length (sha256 s) = 32%nat).

Lemma bound_long id : 256 < strlen id → ∃ p, BoundSessionIdentity id = p +:+ "#" +:+ hex (sha256 id) ∧ utf8_valid p = true ∧ (String.length p ≤ 190)%nat.
Proof.
  intros Hid. unfold BoundSessionIdentity. rewrite (proj2 (Z.leb_gt _ _) Hid). cbv zeta. eexists. split; [reflexivity|].
  set (n := if _ <? _ then _ else _). assert (Z.to_nat n ≤ 190)%nat as Hn.
  { unfold n, strlen in *. rewrite hex_length, Hlen. clear n. destruct (_ <? _) eqn:E; bprop; lia. }
  pose proof (substring_length 0 (Z.to_nat n) id) as Hs. unfold substring_from. change (Z.to_nat 0) with 0%nat.
  destruct (drop_broken_ok _ (String.substring 0 (Z.to_nat n) id) (le_n _)) as [H1 H2]. split; [done|lia].
Qed.
Lemma bound_le id : strlen (BoundSessionIdentity id) ≤ 256.
Proof.
  destruct (Z.le_gt_cases (strlen id) 256) as [Hs|Hs]; [by unfold BoundSessionIdentity; rewrite (proj2 (Z.leb_le _ _) Hs)|].
  destruct (bound_long id ltac:(lia)) as (p & -> & _ & Hp). unfold strlen. rewrite !length_append, hex_length, Hlen. cbn. lia.
Qed.
Lemma bound_twice id : BoundSessionIdentity (BoundSessionIdentity id) = BoundSessionIdentity id.
Proof. unfold BoundSessionIdentity at 1. by rewrite (proj2 (Z.leb_le _ _) (bound_le id)). Qed.
Lemma bound_some id : id ≠ "" → BoundSessionIdentity id ≠ "".
Proof.
  intros Hid. destruct (Z.le_gt_cases (strlen id) 256) as [Hs|Hs]; [by unfold BoundSessionIdentity; rewrite (proj2 (Z.leb_le _ _) Hs)|].
  destruct (bound_long id ltac:(lia)) as (p & -> & _ & _). by destruct p.
Qed.
(** C38 A bounded identity has at most 256 bytes and is bounded already; short ones are
    kept, long ones become valid text, whatever bytes they are made of, and two long ones
    that become the same have the same hash. *)
Theorem identity_is_bounded id id' :
  strlen (BoundSessionIdentity id) ≤ 256
  ∧ BoundSessionIdentity (BoundSessionIdentity id) = BoundSessionIdentity id
  ∧ (strlen id ≤ 256 → BoundSessionIdentity id = id)
  ∧ (256 < strlen id → utf8_valid (BoundSessionIdentity id) = true)
  ∧ (256 < strlen id → 256 < strlen id' → BoundSessionIdentity id = BoundSessionIdentity id' → sha256 id = sha256 id').
Proof.
  split_and!; [apply bound_le|apply bound_twice| | |].
  - intros Hs. unfold BoundSessionIdentity. by rewrite (proj2 (Z.leb_le _ _) Hs).
  - intros Hs. destruct (bound_long id Hs) as (p & -> & Hp & _). apply utf8_app; [|done]. apply utf8_ascii; [done|apply hex_valid].
  - intros Hs Hs' E. destruct (bound_long id Hs) as (p & Ep & _), (bound_long id' Hs') as (q & Eq & _). rewrite Ep, Eq in E.
    apply append_tail in E; [|cbn; by rewrite !hex_length, !Hlen]. injection E as E. by apply hex_inj.
Qed.
End Bound.

End SessionIdentity.
