(* ===== verification/HomeAlias.v ===== *)
(** * The names of a session at a Home: sdk/cliproxy/auth/home_session_alias.go

    A client may name one session in several ways; a Home knows it by one.  The cache maps
    the names to that one, with expiry and a bound on their number.  A key of the eviction
    order is an element of container/list, a handle here, as in [SessionCache].  A call
    holds the lock. *)
From S2P Require Import Prelude GoLib SessionCache.
Import SessionCache (mergeSessionAliases, compactHomeSessionAliases, remove_element).

Module HomeAlias.

Definition defaultHomeSessionAliasTTL : duration := hour.
Definition homeSessionAliasCleanupOps : Z := 256.
Definition homeSessionAliasSoftLimit : Z := 4096.

Record homeSessionAliasEntry : Type := {
  he_canonical : string;
  he_expiresAt : time;
  he_aliases : list string;
}.
#[global] Instance homeSessionAliasEntry_eq_dec : EqDecision homeSessionAliasEntry.
Proof. solve_decision. Defined.
Record homeSessionAliasCache : Type := {
  hc_entries : gmap string homeSessionAliasEntry;
  hc_groups : gmap string homeSessionAliasEntry;
  hc_order : list (nat * string);
  hc_elements : gmap string nat;
  hc_next : nat;
  hc_ops : Z;
}.
#[global] Instance homeSessionAliasCache_eta : Eta homeSessionAliasCache := fun c =>
  {| hc_entries := hc_entries c; hc_groups := hc_groups c; hc_order := hc_order c; hc_elements := hc_elements c; hc_next := hc_next c;
     hc_ops := hc_ops c |}.
(** Nil maps are made before use. *)
Definition empty_cache : homeSessionAliasCache :=
  {| hc_entries := ∅; hc_groups := ∅; hc_order := []; hc_elements := ∅; hc_next := 0; hc_ops := 0 |}.
Implicit Types (c : homeSessionAliasCache).

Definition sameHomeSessionAliasGroup (left right : homeSessionAliasEntry) : bool := bool_decide (left = right).
Definition drop_alias (current : homeSessionAliasEntry) (entries : gmap string homeSessionAliasEntry) (alias : string) :
    gmap string homeSessionAliasEntry :=
  match entries !! alias with
  | Some mapped => if sameHomeSessionAliasGroup mapped current then delete alias entries else entries
  | None => entries
  end.
Definition drop_element (canonical : string) c : homeSessionAliasCache :=
  match hc_elements c !! canonical with
  | Some element => c <| hc_order := remove_element element (hc_order c) |> <| hc_elements := delete canonical (hc_elements c) |>
  | None => c
  end.
Definition removeGroupLocked (entry : homeSessionAliasEntry) c : homeSessionAliasCache :=
  match hc_groups c !! he_canonical entry with
  | None => c
  | Some current =>
      if negb (sameHomeSessionAliasGroup current entry) then c
      else drop_element (he_canonical current)
             (c <| hc_entries := foldl (drop_alias current) (hc_entries c) (he_aliases current) |>
                <| hc_groups := delete (he_canonical current) (hc_groups c) |>)
  end.
Definition entryLocked (alias : string) (now : time) c : option homeSessionAliasEntry * homeSessionAliasCache :=
  match hc_entries c !! alias with
  | None => (None, c)
  | Some entry =>
      if before now (he_expiresAt entry) then (Some entry, c)
      else
        let drop := (None, c <| hc_entries := delete alias (hc_entries c) |>) in
        match hc_groups c !! he_canonical entry with
        | Some group => if sameHomeSessionAliasGroup group entry then (None, removeGroupLocked group c) else drop
        | None => drop
        end
  end.
Definition groupLocked (canonical : string) (now : time) c : option homeSessionAliasEntry * homeSessionAliasCache :=
  match hc_groups c !! canonical with
  | None => (None, c)
  | Some entry => if before now (he_expiresAt entry) then (Some entry, c) else (None, removeGroupLocked entry c)
  end.
Definition setGroupLocked (entry : homeSessionAliasEntry) c : homeSessionAliasCache :=
  let c := match hc_groups c !! he_canonical entry with Some existing => removeGroupLocked existing c | None => c end in
  c <| hc_groups := <[he_canonical entry := entry]> (hc_groups c) |>
    <| hc_entries := foldl (fun entries alias => <[alias := entry]> entries) (hc_entries c) (he_aliases entry) |>
    <| hc_order := hc_order c ++ [(hc_next c, he_canonical entry)] |>
    <| hc_elements := <[he_canonical entry := hc_next c]> (hc_elements c) |>
    <| hc_next := S (hc_next c) |>.
(** The loop of [enforceLimitLocked]; [fuel] bounds its rounds. *)
Fixpoint enforce (fuel : nat) (limit : Z) c : homeSessionAliasCache :=
  match fuel with
  | O => c
  | S fuel =>
      if Z.of_nat (size (hc_entries c)) <=? limit then c
      else match hc_order c with
           | [] => c
           | (oldest, canonical) :: _ =>
               match hc_groups c !! canonical with
               | None => enforce fuel limit (c <| hc_order := remove_element oldest (hc_order c) |>
                                               <| hc_elements := delete canonical (hc_elements c) |>)
               | Some entry => enforce fuel limit (removeGroupLocked entry c)
               end
           end
  end.
Definition enforceLimitLocked (limit : Z) c : homeSessionAliasCache :=
  if limit <=? 0 then c else enforce (length (hc_order c)) limit c.
Definition cleanup_step (now : time) c (entry : homeSessionAliasEntry) : homeSessionAliasCache :=
  if before now (he_expiresAt entry) then c else removeGroupLocked entry c.
(** The groups that are still there when the range over the map comes to them. *)
Definition cleanupLocked (now : time) c : homeSessionAliasCache :=
  foldl (cleanup_step now) c (map snd (map_to_list (hc_groups c))).

Definition remember (entry : option homeSessionAliasEntry) (acc : gmap string homeSessionAliasEntry * list string) :
    gmap string homeSessionAliasEntry * list string :=
  match entry with
  | Some existing => (<[he_canonical existing := existing]> acc.1, mergeSessionAliases acc.2 (he_aliases existing))
  | None => acc
  end.
Definition canonical (primary fallback : string) (ttl : duration) (now : time) c : string * homeSessionAliasCache :=
  let primary := trim_space primary in
  let fallback := trim_space fallback in
  if String.eqb primary "" then ("", c)
  else
    let ttl := if ttl <=? 0 then defaultHomeSessionAliasTTL else ttl in
    let c := c <| hc_ops := wrapu64 (hc_ops c + 1) |> in
    let c := if hc_ops c mod homeSessionAliasCleanupOps =? 0 then cleanupLocked now c else c in
    let acc := (∅, mergeSessionAliases [] [primary; fallback]) in
    let '(byPrimary, c) := entryLocked primary now c in
    let acc := remember byPrimary acc in
    let '(byFallback, c) := if negb (String.eqb fallback "") && negb (String.eqb fallback primary) then entryLocked fallback now c else (None, c) in
    let acc := remember byFallback acc in
    match byPrimary, byFallback with
    | None, None =>
        let '(group, c) := groupLocked primary now c in
        if bool_decide (is_Some group) then (primary, c)
        else
          let aliases := compactHomeSessionAliases (mergeSessionAliases acc.2 [primary]) in
          (primary, enforceLimitLocked homeSessionAliasSoftLimit
                      (setGroupLocked {| he_canonical := primary; he_expiresAt := now + ttl; he_aliases := aliases |} c))
    | _, _ =>
        let name := match byPrimary with Some existing => he_canonical existing | None => match byFallback with Some existing => he_canonical existing | None => primary end end in
        let '(group, c) := groupLocked name now c in
        let acc := remember group acc in
        let aliases := compactHomeSessionAliases (mergeSessionAliases acc.2 [name]) in
        let c := foldl (fun c previous => removeGroupLocked previous c) c (map snd (map_to_list acc.1)) in
        (name, enforceLimitLocked homeSessionAliasSoftLimit
                 (setGroupLocked {| he_canonical := name; he_expiresAt := now + ttl; he_aliases := aliases |} c))
    end.
(** [clear]. *)
Definition clear c : homeSessionAliasCache := c <| hc_entries := ∅ |> <| hc_groups := ∅ |> <| hc_order := [] |> <| hc_elements := ∅ |> <| hc_ops := 0 |>.
(** The configured duration as text, and what [time.ParseDuration] makes of it. *)
Definition homeSessionAliasTTL (raw : option string) (parsed : string → option duration) : duration :=
  match raw with
  | None => defaultHomeSessionAliasTTL
  | Some raw =>
      let raw := trim_space raw in
      if String.eqb raw "" then defaultHomeSessionAliasTTL
      else match parsed raw with
           | Some d => if d <=? 0 then defaultHomeSessionAliasTTL else d
           | None => defaultHomeSessionAliasTTL
           end
  end.

End HomeAlias.
