(* ===== verification/HomeAliasProps.v ===== *)
(** * What the names of a session promise

    Every operation keeps the cache consistent and bounded, and the names a client gives for
    one session lead to one identity until its time is over. *)
From S2P Require Import Prelude GoLib SessionCache SessionProps HomeAlias.
Import SessionCache (mergeSessionAliases, compactHomeSessionAliases, compactSessionAliasesWith, compact_step, add_alias, maxStableSessionAliases, isHomePromptCacheAlias, remove_element).
Import SessionProps (merge_spec, merge_nil_head, add_aliases_prefix, compact_spec, compact_fold).
Import HomeAlias.

Module HomeAliasProps.
Implicit Types (c : homeSessionAliasCache) (e : homeSessionAliasEntry).

(** ** The invariant *)

Record alias_ok c : Prop := {
  al_entry : ∀ a e, hc_entries c !! a = Some e → hc_groups c !! he_canonical e = Some e ∧ a ∈ he_aliases e;
  al_group : ∀ k e, hc_groups c !! k = Some e → he_canonical e = k;
  al_elem : ∀ k h, hc_elements c !! k = Some h ↔ (h, k) ∈ hc_order c;
  al_handles : NoDup (map fst (hc_order c));
  al_fresh : ∀ h k, (h, k) ∈ hc_order c → (h < hc_next c)%nat;
  al_listed : ∀ k, is_Some (hc_elements c !! k) ↔ is_Some (hc_groups c !! k);
}.
Lemma clear_ok c : alias_ok (clear c).
Proof.
  split; cbn; intros *; rewrite ?lookup_empty; try done; try constructor; rewrite ?elem_of_nil; try done; by intros [? ?].
Qed.
Lemma empty_alias_ok : alias_ok empty_cache.
Proof. exact (clear_ok empty_cache). Qed.

(** ** Removing groups *)

Lemma drop_names_lookup e l entries a : foldl (drop_alias e) entries l !! a
  = x ← entries !! a; if bool_decide (x = e ∧ a ∈ l) then None else Some x.
Proof.
  revert entries. induction l as [|b l IH]; intros entries; cbn [foldl].
  { destruct (entries !! a); cbn; [|done]. rewrite bool_decide_false; [done|]. by intros [_ ?%not_elem_of_nil]. }
  rewrite IH. assert (drop_alias e entries b !! a = x ← entries !! a; if bool_decide (x = e ∧ a = b) then None else Some x) as ->.
  { unfold drop_alias, sameHomeSessionAliasGroup. destruct (entries !! b) as [m|] eqn:E.
    - destruct (decide (a = b)) as [->|Hne].
      + rewrite E. cbn. case_bool_decide as Hm; [rewrite lookup_delete_eq, bool_decide_true by done; done|]. rewrite E, bool_decide_false by tauto. done.
      + case_bool_decide; [rewrite lookup_delete_ne by done|]; destruct (entries !! a); cbn; try done; by rewrite bool_decide_false by tauto.
    - destruct (entries !! a) as [x|] eqn:Ea; cbn; [|done]. rewrite bool_decide_false; [done|]. intros [_ ->]. congruence. }
  destruct (entries !! a) as [x|]; cbn; [|done]. destruct (decide (x = e)) as [->|Hne].
  - destruct (decide (a = b)) as [->|Hab].
    + rewrite (bool_decide_true (e = e ∧ b = b)) by done. rewrite bool_decide_true; [done|]. split; [done|by left].
    + rewrite (bool_decide_false (e = e ∧ a = b)) by tauto. cbn. rewrite (bool_decide_ext (e = e ∧ a ∈ l) (e = e ∧ a ∈ b :: l)); [done|]. rewrite elem_of_cons. tauto.
  - rewrite (bool_decide_false (x = e ∧ a = b)) by tauto. cbn. by rewrite !bool_decide_false by tauto.
Qed.
(** What is left when the groups [P] go. *)
Record without (P : homeSessionAliasEntry → Prop) c c' : Prop := {
  wo_ok : alias_ok c';
  wo_groups : ∀ k x, hc_groups c' !! k = Some x ↔ hc_groups c !! k = Some x ∧ ¬ P x;
  wo_entries : ∀ a x, hc_entries c' !! a = Some x ↔ hc_entries c !! a = Some x ∧ ¬ P x;
  wo_order : hc_order c' `sublist_of` hc_order c;
}.
Lemma filter_pairs (f : nat * string → bool) l p : p ∈ List.filter f l ↔ p ∈ l ∧ f p = true.
Proof. by rewrite !list_elem_of_In, filter_In. Qed.
Lemma filter_order (f : nat * string → bool) l : List.filter f l `sublist_of` l.
Proof. induction l as [|x l IH]; [done|]. cbn. destruct (f x); by constructor. Qed.
Lemma filter_handles (f : nat * string → bool) l : NoDup (map fst l) → NoDup (map fst (List.filter f l)).
Proof.
  intros Hn. eapply sublist_NoDup; [exact Hn|]. apply (fmap_sublist fst), filter_order.
Qed.
Definition other_names (k : string) (p : nat * string) : bool := negb (String.eqb p.2 k).
Lemma order_without c h k : alias_ok c → hc_elements c !! k = Some h → remove_element h (hc_order c) = List.filter (other_names k) (hc_order c).
Proof.
  intros Hc Hh. unfold remove_element. apply filter_ext_in. intros [h' k'] Hin%list_elem_of_In. unfold other_names. cbn. f_equal.
  pose proof (proj1 (al_elem c Hc _ _) Hh) as Hin2. destruct (Nat.eqb_spec h' h) as [->|Hne]; symmetry.
  - apply String.eqb_eq. pose proof (al_handles c Hc) as Hn. apply list_elem_of_lookup in Hin as [i Hi], Hin2 as [j Hj].
    assert (i = j) as -> by (eapply NoDup_lookup; [exact Hn| |]; rewrite list_lookup_fmap; [by rewrite Hi|by rewrite Hj]). congruence.
  - apply String.eqb_neq. intros ->. apply (al_elem c Hc) in Hin. congruence.
Qed.
(** The removal of a group that is there, in full. *)
Lemma remove_eq c e h : alias_ok c → hc_groups c !! he_canonical e = Some e → hc_elements c !! he_canonical e = Some h →
  removeGroupLocked e c = c <| hc_entries := foldl (drop_alias e) (hc_entries c) (he_aliases e) |> <| hc_groups := delete (he_canonical e) (hc_groups c) |>
    <| hc_order := List.filter (other_names (he_canonical e)) (hc_order c) |> <| hc_elements := delete (he_canonical e) (hc_elements c) |>.
Proof.
  intros Hc He Hh. unfold removeGroupLocked. rewrite He. unfold sameHomeSessionAliasGroup. rewrite bool_decide_true by done. cbn [negb].
  unfold drop_element. cbn. rewrite Hh. rewrite <- (order_without c h) by done. reflexivity.
Qed.
Lemma listed_group c k x : alias_ok c → hc_groups c !! k = Some x → ∃ h, hc_elements c !! k = Some h.
Proof. intros Hc Hx. apply (al_listed c Hc). by rewrite Hx. Qed.
Lemma remove_there c e : alias_ok c → hc_groups c !! he_canonical e = Some e → without (eq e) c (removeGroupLocked e c).
Proof.
  intros Hc He. destruct (listed_group c _ _ Hc He) as [h Hh]. rewrite (remove_eq c e h) by done.
  assert (∀ a x, foldl (drop_alias e) (hc_entries c) (he_aliases e) !! a = Some x ↔ hc_entries c !! a = Some x ∧ e ≠ x) as Hent.
  { intros a x. rewrite drop_names_lookup. destruct (hc_entries c !! a) as [y|] eqn:Ea; cbn; [|naive_solver]. apply (al_entry c Hc) in Ea as [_ Ea].
    case_bool_decide; naive_solver. }
  split; [|intros k x; cbn|intros a x; cbn; apply Hent|apply filter_order].
  - split; cbn.
    + intros a x [Ea Hne]%Hent. apply (al_entry c Hc) in Ea as [Eg Ea]. split; [|done]. apply lookup_delete_Some. split; [|done]. intros Heq. rewrite <- Heq in Eg. congruence.
    + intros k x [_ Hx]%lookup_delete_Some. by apply (al_group c Hc).
    + intros k h'. rewrite filter_pairs, lookup_delete_Some, (al_elem c Hc). unfold other_names. cbn. rewrite negb_true_iff, String.eqb_neq. split; intros [? ?]; split; congruence.
    + apply filter_handles, (al_handles c Hc).
    + intros h' k. rewrite filter_pairs. intros [Hin _]. by eapply (al_fresh c Hc).
    + intros k. destruct (decide (he_canonical e = k)) as [<-|Hne]; [by rewrite !lookup_delete_eq|rewrite !lookup_delete_ne by done; apply (al_listed c Hc)].
  - rewrite lookup_delete_Some. split; intros [H1 H2]; (split; [|done || idtac]).
    + done.
    + intros ->. apply H1. by apply (al_group c Hc).
    + intros Heq. apply H2. rewrite <- Heq in H1. congruence.
Qed.
Lemma without_none (P : homeSessionAliasEntry → Prop) c : alias_ok c → (∀ x, hc_groups c !! he_canonical x = Some x → ¬ P x) → without P c c.
Proof.
  intros Hc HP. split; [done| | |done].
  - intros k x. split; [|tauto]. intros Hx. split; [done|]. apply HP. by rewrite (al_group c Hc k x Hx).
  - intros a x. split; [|tauto]. intros Hx. split; [done|]. apply HP. by apply (al_entry c Hc a x).
Qed.
Lemma remove_spec c e : alias_ok c → without (eq e) c (removeGroupLocked e c).
Proof.
  intros Hc. destruct (decide (hc_groups c !! he_canonical e = Some e)) as [He|Hne]; [by apply remove_there|].
  assert (removeGroupLocked e c = c) as ->; [|apply without_none; [done|]; by intros x Hx <-].
  unfold removeGroupLocked, sameHomeSessionAliasGroup. destruct (hc_groups c !! he_canonical e) as [x|]; [|done]. rewrite bool_decide_false; [done|]. congruence.
Qed.
Lemma without_ext (P Q : homeSessionAliasEntry → Prop) c c' : alias_ok c → (∀ x, hc_groups c !! he_canonical x = Some x → P x ↔ Q x) → without P c c' → without Q c c'.
Proof.
  intros Hc HPQ [Hok Hg He Ho]. split; [done| | |done].
  - intros k x. rewrite Hg. split; intros [Hx ?]; (split; [done|]); rewrite HPQ in *; try done; by rewrite (al_group c Hc k x Hx).
  - intros a x. rewrite He. split; intros [Hx ?]; (split; [done|]); rewrite HPQ in *; try done; by apply (al_entry c Hc a x).
Qed.
Lemma without_both (P Q : homeSessionAliasEntry → Prop) c c' c'' : without P c c' → without Q c' c'' → without (λ x, P x ∨ Q x) c c''.
Proof. intros [? Hg He Ho] [? Hg' He' Ho']. split; [done|intros; rewrite Hg', Hg; tauto|intros; rewrite He', He; tauto|by etrans]. Qed.
Lemma without_groups_keep P c c' k x : without P c c' → hc_groups c !! k = Some x → ¬ P x → hc_groups c' !! k = Some x.
Proof. intros [_ Hg _ _] ??. by apply Hg. Qed.
Lemma without_fewer P c c' : without P c c' → (size (hc_entries c') ≤ size (hc_entries c))%nat.
Proof.
  intros [_ _ He _]. rewrite <- !size_dom. apply subseteq_size. intros a. rewrite !elem_of_dom. intros [x Hx]. exists x. by apply He in Hx as [? _].
Qed.
Lemma remove_all_spec l c : alias_ok c → without (.∈ l) c (foldl (fun c previous => removeGroupLocked previous c) c l).
Proof.
  revert c. induction l as [|e l IH]; intros c Hc; cbn [foldl]; [apply without_none; [done|]; intros x _; apply not_elem_of_nil|].
  pose proof (remove_spec c e Hc) as H1. eapply without_ext; [done| |exact (without_both _ _ _ _ _ H1 (IH _ (wo_ok _ _ _ H1)))].
  intros x _. cbn. rewrite elem_of_cons. naive_solver.
Qed.

(** ** What is out of date goes *)

Definition expired (now : time) e : Prop := before now (he_expiresAt e) = false.
Definition pruned (now : time) c c' : Prop := ∃ P, (∀ x, P x → expired now x) ∧ without P c c'.
Lemma pruned_self now c : alias_ok c → pruned now c c.
Proof. intros Hc. exists (λ _, False). split; [done|]. by apply without_none; [|tauto]. Qed.
Lemma pruned_trans now c c' c'' : pruned now c c' → pruned now c' c'' → pruned now c c''.
Proof. intros (P & HP & H1) (Q & HQ & H2). exists (λ x, P x ∨ Q x). split; [naive_solver|]. by eapply without_both. Qed.
Lemma pruned_ok now c c' : pruned now c c' → alias_ok c'.
Proof. intros (P & _ & H). exact (wo_ok _ _ _ H). Qed.
Lemma pruned_size now c c' : pruned now c c' → (size (hc_entries c') ≤ size (hc_entries c))%nat.
Proof. intros (P & _ & H). exact (without_fewer _ _ _ H). Qed.
Lemma pruned_entry now c c' a x : pruned now c c' → hc_entries c !! a = Some x → before now (he_expiresAt x) = true → hc_entries c' !! a = Some x.
Proof. intros (P & HP & H) Hx Hb. apply (wo_entries _ _ _ H). split; [done|]. intros Hp%HP. unfold expired in Hp. congruence. Qed.
Lemma pruned_group now c c' k x : pruned now c c' → hc_groups c !! k = Some x → before now (he_expiresAt x) = true → hc_groups c' !! k = Some x.
Proof. intros (P & HP & H) Hx Hb. apply (wo_groups _ _ _ H). split; [done|]. intros Hp%HP. unfold expired in Hp. congruence. Qed.
Lemma pruned_entry_back now c c' a x : pruned now c c' → hc_entries c' !! a = Some x → hc_entries c !! a = Some x.
Proof. intros (P & HP & H) Hx. by apply (wo_entries _ _ _ H) in Hx as [? _]. Qed.
Lemma pruned_group_back now c c' k x : pruned now c c' → hc_groups c' !! k = Some x → hc_groups c !! k = Some x.
Proof. intros (P & HP & H) Hx. by apply (wo_groups _ _ _ H) in Hx as [? _]. Qed.
Lemma remove_pruned now c e : alias_ok c → expired now e → pruned now c (removeGroupLocked e c).
Proof. intros Hc He. exists (eq e). split; [by intros x <-|by apply remove_spec]. Qed.
Lemma cleanup_pruned now c : alias_ok c → pruned now c (cleanupLocked now c).
Proof.
  unfold cleanupLocked. generalize (map snd (map_to_list (hc_groups c))). intros l. revert c. induction l as [|e l IH]; intros c Hc; cbn [foldl]; [by apply pruned_self|].
  assert (pruned now c (cleanup_step now c e)) as H1.
  { unfold cleanup_step. destruct (before now (he_expiresAt e)) eqn:E; [by apply pruned_self|by apply remove_pruned]. }
  eapply pruned_trans; [exact H1|]. apply IH. by eapply pruned_ok.
Qed.
Lemma pruned_none now c c' a : pruned now c c' → hc_entries c !! a = None → hc_entries c' !! a = None.
Proof. intros H Hn. apply eq_None_not_Some. intros [x Hx]. apply (pruned_entry_back now c c' a x H) in Hx. congruence. Qed.
(** A look-up answers what is there and in date; a name without an answer has no entry left. *)
Lemma entry_spec a now c o c' : alias_ok c → entryLocked a now c = (o, c') →
  pruned now c c' ∧ hc_entries c' !! a = o ∧ ∀ x, o = Some x → before now (he_expiresAt x) = true.
Proof.
  intros Hc. unfold entryLocked. destruct (hc_entries c !! a) as [e|] eqn:E; [|intros [= <- <-]; split_and!; [by apply pruned_self|done|done]].
  destruct (before now (he_expiresAt e)) eqn:Eb; [intros [= <- <-]; split_and!; [by apply pruned_self|done|naive_solver]|].
  destruct (al_entry c Hc a e E) as [Hg _]. rewrite Hg. unfold sameHomeSessionAliasGroup. rewrite bool_decide_true by done. intros [= <- <-].
  split_and!; [by apply remove_pruned| |done]. apply eq_None_not_Some. intros [x Hx]. apply (wo_entries _ _ _ (remove_spec c e Hc)) in Hx as [Hx Hne]. congruence.
Qed.
Lemma group_spec k now c o c' : alias_ok c → groupLocked k now c = (o, c') →
  pruned now c c' ∧ hc_groups c' !! k = o ∧ ∀ x, o = Some x → before now (he_expiresAt x) = true.
Proof.
  intros Hc. unfold groupLocked. destruct (hc_groups c !! k) as [e|] eqn:E; [|intros [= <- <-]; split_and!; [by apply pruned_self|done|done]].
  destruct (before now (he_expiresAt e)) eqn:Eb; [intros [= <- <-]; split_and!; [by apply pruned_self|done|naive_solver]|].
  intros [= <- <-]. split_and!; [by apply remove_pruned| |done]. apply eq_None_not_Some. intros [x Hx].
  apply (wo_groups _ _ _ (remove_spec c e Hc)) in Hx as [Hx Hne]. congruence.
Qed.

(** ** A new group *)

Lemma insert_names_lookup e l (entries : gmap string homeSessionAliasEntry) a :
  foldl (fun entries alias => <[alias := e]> entries) entries l !! a = if bool_decide (a ∈ l) then Some e else entries !! a.
Proof.
  revert entries. induction l as [|b l IH]; intros entries; cbn [foldl]; [rewrite bool_decide_false; [done|apply not_elem_of_nil]|].
  rewrite IH. destruct (decide (a ∈ l)) as [Hin|Hnin]; [by rewrite !bool_decide_true by (try done; by right)|]. rewrite bool_decide_false by done.
  destruct (decide (a = b)) as [->|Hne]; [by rewrite lookup_insert_eq, bool_decide_true by (by left)|].
  rewrite lookup_insert_ne by done. rewrite bool_decide_false; [done|]. rewrite elem_of_cons. tauto.
Qed.
Definition freed e c : homeSessionAliasCache := match hc_groups c !! he_canonical e with Some existing => removeGroupLocked existing c | None => c end.
Lemma freed_spec e c : alias_ok c → without (λ x, he_canonical x = he_canonical e) c (freed e c).
Proof.
  intros Hc. unfold freed. destruct (hc_groups c !! he_canonical e) as [x|] eqn:E.
  - eapply without_ext; [done| |apply (remove_spec c x Hc)]. intros y Hy. split; [intros <-; by apply (al_group c Hc)|]. intros Heq. rewrite Heq in Hy. congruence.
  - apply without_none; [done|]. intros y Hy Heq. rewrite Heq in Hy. congruence.
Qed.
Lemma freed_free e c : alias_ok c → hc_groups (freed e c) !! he_canonical e = None ∧ hc_elements (freed e c) !! he_canonical e = None.
Proof.
  intros Hc. pose proof (freed_spec e c Hc) as [Hok Hg _ _].
  assert (hc_groups (freed e c) !! he_canonical e = None) as Hn.
  { apply eq_None_not_Some. intros [x [Hx Hne]%Hg]. apply Hne. by apply (al_group c Hc). }
  split; [done|]. apply eq_None_not_Some. rewrite (al_listed _ Hok), Hn. by intros [? ?].
Qed.
Lemma set_spec e c : alias_ok c → let c' := setGroupLocked e c in
  alias_ok c' ∧ hc_groups c' !! he_canonical e = Some e ∧ (∀ a, a ∈ he_aliases e → hc_entries c' !! a = Some e)
  ∧ hc_order c' = hc_order (freed e c) ++ [(hc_next (freed e c), he_canonical e)]
  ∧ (∀ k x, k ≠ he_canonical e → hc_groups c' !! k = Some x ↔ hc_groups c !! k = Some x)
  ∧ ∀ a x, a ∉ he_aliases e → he_canonical x ≠ he_canonical e → hc_entries c !! a = Some x → hc_entries c' !! a = Some x.
Proof.
  intros Hc c'. destruct (freed_free e c Hc) as [Hfg Hfe]. pose proof (freed_spec e c Hc) as [Hok Hg He Ho].
  assert (∀ a, hc_entries c' !! a = if bool_decide (a ∈ he_aliases e) then Some e else hc_entries (freed e c) !! a) as Hent.
  { intros a. unfold c', setGroupLocked. cbn. apply insert_names_lookup. }
  split_and!.
  - split; unfold c', setGroupLocked; cbn.
    + intros a x Hx. change (hc_entries c' !! a = Some x) in Hx. rewrite Hent in Hx. case_bool_decide as Hin; [injection Hx as <-; by rewrite lookup_insert_eq|].
      apply (al_entry _ Hok) in Hx as [Hx Ha]. split; [|done]. rewrite lookup_insert_ne; [done|]. intros Heq. fold (freed e c) in *. rewrite <- Heq in Hx. congruence.
    + intros k x. fold (freed e c). rewrite lookup_insert_Some. intros [[<- <-]|[_ Hx]]; [done|by apply (al_group _ Hok)].
    + intros k h. fold (freed e c). rewrite elem_of_app, list_elem_of_singleton, lookup_insert_Some, (al_elem _ Hok). split.
      * intros [[<- <-]|[? ?]]; auto.
      * intros [Hin|[= -> ->]]; [|by left]. right. split; [|done]. intros <-. apply (al_elem _ Hok) in Hin. congruence.
    + fold (freed e c). rewrite map_app. apply NoDup_app. split_and!; [apply (al_handles _ Hok)| |apply NoDup_singleton].
      intros h Hin ->%list_elem_of_singleton. cbn in Hin. apply list_elem_of_fmap in Hin as ([h' k] & Heq & Hin). cbn in Heq.
      apply (al_fresh _ Hok) in Hin. lia.
    + intros h k. fold (freed e c). rewrite elem_of_app, list_elem_of_singleton. intros [Hin%(al_fresh _ Hok)|[= -> ->]]; lia.
    + intros k. fold (freed e c). destruct (decide (he_canonical e = k)) as [<-|Hne]; [rewrite !lookup_insert_eq; split; eauto|].
      rewrite !lookup_insert_ne by done. apply (al_listed _ Hok).
  - unfold c', setGroupLocked. cbn. apply lookup_insert_eq.
  - intros a Ha. rewrite Hent. by rewrite bool_decide_true.
  - reflexivity.
  - intros k x Hk. unfold c', setGroupLocked. cbn. fold (freed e c). rewrite lookup_insert_ne by done. rewrite Hg. split; [tauto|]. intros Hx. split; [done|].
    rewrite (al_group c Hc k x Hx). done.
  - intros a x Ha Hne Hx. rewrite Hent, bool_decide_false by done. by apply He.
Qed.

(** ** The limit *)

Lemma unlisted_no_entries c : alias_ok c → hc_order c = [] → size (hc_entries c) = 0%nat.
Proof.
  intros Hc Ho. apply map_size_empty_iff, map_empty. intros a. apply eq_None_not_Some. intros [x [Hg _]%(al_entry c Hc)].
  destruct (listed_group c _ _ Hc Hg) as [h Hh%(al_elem c Hc)]. rewrite Ho in Hh. by apply not_elem_of_nil in Hh.
Qed.
(** The oldest of the order has a group, and its removal shortens the order. *)
Lemma oldest_group c h k order : alias_ok c → hc_order c = (h, k) :: order →
  ∃ x, hc_groups c !! k = Some x ∧ he_canonical x = k ∧ hc_order (removeGroupLocked x c) = List.filter (other_names k) order.
Proof.
  intros Hc Ho. assert (hc_elements c !! k = Some h) as Hh by (apply (al_elem c Hc); rewrite Ho; by left).
  destruct (proj1 (al_listed c Hc k)) as [x Hx]; [by rewrite Hh|]. pose proof (al_group c Hc k x Hx) as Hk. exists x. split_and!; [done..|].
  rewrite (remove_eq c x h) by (by rewrite ?Hk). cbn. rewrite Hk, Ho. cbn. unfold other_names at 1. cbn. by rewrite String.eqb_refl.
Qed.
Lemma enforce_spec limit fuel c : alias_ok c → 0 ≤ limit → (length (hc_order c) ≤ fuel)%nat →
  alias_ok (enforce fuel limit c) ∧ Z.of_nat (size (hc_entries (enforce fuel limit c))) ≤ limit.
Proof.
  intros Hc Hl. revert c Hc. induction fuel as [|fuel IH]; intros c Hc Hf; cbn [enforce].
  { split; [done|]. rewrite (unlisted_no_entries c Hc); [done|]. destruct (hc_order c); [done|cbn in Hf; lia]. }
  destruct (Z.leb_spec (Z.of_nat (size (hc_entries c))) limit) as [|Hbig]; [done|].
  destruct (hc_order c) as [|[h k] order] eqn:Eo; [rewrite (unlisted_no_entries c Hc Eo) in Hbig; lia|].
  destruct (oldest_group c h k order Hc Eo) as (x & Hx & Hk & Hord). rewrite Hx. apply IH; [exact (wo_ok _ _ _ (remove_spec c x Hc))|].
  rewrite Hord. etrans; [apply filter_length_le|]. cbn in Hf. lia.
Qed.
Lemma size_names (l : list string) : (size (list_to_set l : gset string) ≤ length l)%nat.
Proof.
  induction l as [|x l IH]; cbn; [by rewrite size_empty|]. rewrite size_union_alt, size_singleton. apply le_n_S.
  etrans; [|exact IH]. apply subseteq_size. set_solver.
Qed.
(** The last group of the order stays, unless it alone is past the limit. *)
Lemma alone_names c h k e : alias_ok c → hc_order c = [(h, k)] → hc_groups c !! k = Some e → (size (hc_entries c) ≤ length (he_aliases e))%nat.
Proof.
  intros Hc Ho He. rewrite <- size_dom. etrans; [apply (subseteq_size _ (list_to_set (he_aliases e)))|].
  - intros a. rewrite elem_of_dom, elem_of_list_to_set. intros [x [Hg Ha]%(al_entry c Hc)].
    destruct (listed_group c _ _ Hc Hg) as [h' Hh%(al_elem c Hc)]. rewrite Ho in Hh. apply list_elem_of_singleton in Hh as [= -> Hk]. rewrite Hk in Hg. congruence.
  - apply size_names.
Qed.
Lemma name_listed_once c h h' k order : alias_ok c → hc_order c = (h, k) :: order → (h', k) ∉ order.
Proof.
  intros Hc Ho Hin. assert (hc_elements c !! k = Some h) as H1 by (apply (al_elem c Hc); rewrite Ho; by left).
  assert (hc_elements c !! k = Some h') as H2 by (apply (al_elem c Hc); rewrite Ho; by right).
  pose proof (al_handles c Hc) as Hn. rewrite Ho in Hn. apply NoDup_cons in Hn as [Hn _]. apply Hn. assert (h' = h) as -> by congruence.
  exact (list_elem_of_fmap_2 fst order (h, k) Hin).
Qed.
Lemma enforce_keeps limit fuel c h e order : alias_ok c → hc_order c = order ++ [(h, he_canonical e)] → hc_groups c !! he_canonical e = Some e →
  Z.of_nat (length (he_aliases e)) ≤ limit → hc_groups (enforce fuel limit c) !! he_canonical e = Some e
  ∧ ∀ a, hc_entries c !! a = Some e → hc_entries (enforce fuel limit c) !! a = Some e.
Proof.
  intros Hc Ho He Hlen. revert c order Hc Ho He. induction fuel as [|fuel IH]; intros c order Hc Ho He; cbn [enforce]; [done|].
  destruct (Z.leb_spec (Z.of_nat (size (hc_entries c))) limit) as [|Hbig]; [done|]. rewrite Ho. destruct order as [|[h0 k] order]; cbn [app] in *.
  { pose proof (alone_names c h _ e Hc Ho He). lia. }
  destruct (oldest_group c h0 k _ Hc Ho) as (x & Hx & Hk & Hord). rewrite Hx. pose proof (remove_spec c x Hc) as Hw.
  assert (k ≠ he_canonical e) as Hne by (intros ->; apply (name_listed_once c h0 h _ _ Hc Ho); apply elem_of_app; right; by left).
  assert (x ≠ e) as Hxe by congruence.
  destruct (IH (removeGroupLocked x c) (List.filter (other_names k) order)) as [H1 H2].
  - exact (wo_ok _ _ _ Hw).
  - rewrite Hord, List.filter_app. cbn. unfold other_names at 2. cbn. by rewrite (proj2 (String.eqb_neq _ _)) by done.
  - by apply (wo_groups _ _ _ Hw).
  - split; [done|]. intros a Ha. apply H2. by apply (wo_entries _ _ _ Hw).
Qed.
(** A group is stored within the limit. *)
Lemma store_spec e c : alias_ok c → Z.of_nat (length (he_aliases e)) ≤ homeSessionAliasSoftLimit →
  let c' := enforceLimitLocked homeSessionAliasSoftLimit (setGroupLocked e c) in
  alias_ok c' ∧ Z.of_nat (size (hc_entries c')) ≤ homeSessionAliasSoftLimit
  ∧ hc_groups c' !! he_canonical e = Some e ∧ ∀ a, a ∈ he_aliases e → hc_entries c' !! a = Some e.
Proof.
  intros Hc Hlen. cbv zeta. unfold enforceLimitLocked, homeSessionAliasSoftLimit in *. cbn [Z.leb Z.compare].
  destruct (set_spec e c Hc) as (Hok & Hg & Hent & Ho & _).
  destruct (enforce_spec 4096 (length (hc_order (setGroupLocked e c))) _ Hok) as [H1 H2]; [done..|].
  destruct (enforce_keeps 4096 (length (hc_order (setGroupLocked e c))) _ _ e _ Hok Ho Hg Hlen) as [H3 H4]. split_and!; auto.
Qed.

(** ** The names of a call *)

(** A list of names that starts with [base]. *)
Definition names_from (base l : list string) : Prop := NoDup l ∧ "" ∉ l ∧ ∃ k, l = base ++ k.
Lemma add_names l base seen : (∀ a, a ∈ base ↔ a ∈ seen) → NoDup (base ++ l) → "" ∉ l → (foldl add_alias (base, seen) l).1 = base ++ l.
Proof.
  revert base seen. induction l as [|x l IH]; intros base seen Hs Hn He; cbn [foldl]; [by rewrite app_nil_r|].
  assert (x ≠ "" ∧ "" ∉ l) as [Hx He'] by (rewrite elem_of_cons in He; naive_solver).
  assert (x ∉ seen) as Hxs. { rewrite <- Hs. intros Hin. apply NoDup_app in Hn as (_ & Hn & _). apply (Hn x Hin). by left. }
  unfold add_alias at 2. rewrite (proj2 (String.eqb_neq _ _) Hx), bool_decide_false by done.
  rewrite IH; [by rewrite <- app_assoc| |by rewrite <- app_assoc|done].
  intros a. rewrite elem_of_app, list_elem_of_singleton, Hs. set_solver.
Qed.
Lemma merge_grows base l more : names_from base l → names_from base (mergeSessionAliases l more).
Proof.
  intros (Hn & He & k & ->). destruct (merge_spec (base ++ k) more) as (H1 & H2 & _). split_and!; [done..|].
  destruct (add_aliases_prefix more (foldl add_alias ([], ∅) (base ++ k))) as [k' Hk']. exists (k ++ k'). unfold mergeSessionAliases. rewrite Hk', add_names; [|set_solver|done|done].
  cbn [app]. by rewrite <- app_assoc.
Qed.
Lemma start_names primary fallback : names_from (mergeSessionAliases [] [primary; fallback]) (mergeSessionAliases [] [primary; fallback]).
Proof. destruct (merge_spec [] [primary; fallback]) as (H1 & H2 & _). split_and!; [done..|]. exists []. by rewrite app_nil_r. Qed.
Lemma remember_grows base entry acc : names_from base acc.2 → names_from base (remember entry acc).2.
Proof. intros H. destruct entry; cbn; [by apply merge_grows|done]. Qed.
Lemma start_two primary fallback : primary ≠ "" → fallback ≠ "" → fallback ≠ primary → mergeSessionAliases [] [primary; fallback] = [primary; fallback].
Proof.
  intros Hp Hf Hne. unfold mergeSessionAliases. change (foldl add_alias ([], ∅) []) with (@nil string, ∅ : gset string). rewrite add_names; [done|set_solver| |].
  - apply NoDup_cons. split; [|apply NoDup_singleton]. rewrite list_elem_of_singleton. congruence.
  - rewrite !elem_of_cons, elem_of_nil. naive_solver.
Qed.
Lemma start_one primary fallback : primary ≠ "" → ∃ k, mergeSessionAliases [] [primary; fallback] = primary :: k.
Proof. apply merge_nil_head. Qed.
(** Compaction keeps the first name, and the second unless both are prompt-cache names. *)
Lemma compact_two x y l : isHomePromptCacheAlias x && isHomePromptCacheAlias y = false → ∃ k, compactHomeSessionAliases (x :: y :: l) = x :: y :: k.
Proof.
  intros Hxy. unfold compactHomeSessionAliases, compactSessionAliasesWith. set (f := isHomePromptCacheAlias) in *.
  assert (foldl (compact_step f) ([], false, 0) (x :: y :: l)
    = foldl (compact_step f) ([x; y], f x || f y, (if f x then 0 else 1) + (if f y then 0 else 1)) l) as ->.
  { cbn [foldl]. f_equal. unfold compact_step. destruct (f x), (f y); done. }
  destruct (compact_fold f l [x; y] (f x || f y) ((if f x then 0 else 1) + (if f y then 0 else 1))) as [(k & -> & _) _].
  - unfold maxStableSessionAliases. destruct (f x), (f y); lia.
  - by destruct (f x), (f y).
  - by exists k.
Qed.

(** ** The name of a session *)

Definition time_to_live (ttl : duration) : duration := if ttl <=? 0 then defaultHomeSessionAliasTTL else ttl.
Lemma time_to_live_pos ttl : 0 < time_to_live ttl.
Proof. unfold time_to_live, defaultHomeSessionAliasTTL. destruct (Z.leb_spec ttl 0); [done|lia]. Qed.
(** What is in date under a name. *)
Definition in_date now (found : option homeSessionAliasEntry) : option homeSessionAliasEntry := x ← found; if before now (he_expiresAt x) then Some x else None.
(** The name a call gives: that of the primary identifier's group, then the fallback's, then the primary identifier itself. *)
Definition fallback_entry now (primary fallback : string) c : option homeSessionAliasEntry :=
  if negb (String.eqb fallback "") && negb (String.eqb fallback primary) then in_date now (hc_entries c !! fallback) else None.
Definition name_of now (primary fallback : string) c : string :=
  match in_date now (hc_entries c !! primary), fallback_entry now primary fallback c with
  | Some e, _ => he_canonical e
  | None, Some e => he_canonical e
  | None, None => primary
  end.
(** What a call leaves for the name [n] it gives: a group good until [until] with entries for the names
    [kept], or a group of the name itself when neither identifier has an entry. *)
Definition settled n primary fallback (kept : list string) (until : time) c : Prop :=
  alias_ok c ∧ Z.of_nat (size (hc_entries c)) ≤ homeSessionAliasSoftLimit
  ∧ ∃ g, hc_groups c !! n = Some g ∧ until ≤ he_expiresAt g
    ∧ (hc_entries c !! primary = Some g ∨ n = primary ∧ hc_entries c !! primary = None ∧ (fallback ≠ "" → hc_entries c !! fallback = None))
    ∧ ∀ a, a ∈ kept → hc_entries c !! a = Some g.
(** The names a new group has. *)
Definition first_names (primary fallback : string) : list string :=
  if bool_decide (fallback = "") || isHomePromptCacheAlias primary && isHomePromptCacheAlias fallback then [primary] else [primary; fallback].
Lemma first_stays x l : x ∈ compactHomeSessionAliases (x :: l).
Proof.
  unfold compactHomeSessionAliases. destruct (compact_spec isHomePromptCacheAlias (x :: l)) as (_ & _ & H). destruct (H x l eq_refl) as [k ->]. by left.
Qed.
Lemma first_kept primary fallback l : primary ≠ "" → names_from (mergeSessionAliases [] [primary; fallback]) l →
  ∀ a, a ∈ first_names primary fallback → a ∈ compactHomeSessionAliases l.
Proof.
  intros Hp (_ & _ & k & ->) a Ha. destruct (decide (fallback = primary ∨ fallback = "")) as [Hsame|Hne].
  - assert (a = primary) as ->. { unfold first_names in Ha. case_bool_decide; destruct (_ && _); cbn in Ha; rewrite ?elem_of_cons, ?elem_of_nil in Ha; naive_solver. }
    destruct (start_one primary fallback Hp) as [k1 ->]. apply first_stays.
  - rewrite start_two by tauto. cbn [app]. unfold first_names in Ha. rewrite bool_decide_false in Ha by tauto. cbn [orb] in Ha.
    destruct (isHomePromptCacheAlias primary && isHomePromptCacheAlias fallback) eqn:E.
    + apply list_elem_of_singleton in Ha as ->. apply first_stays.
    + destruct (compact_two primary fallback k E) as [k2 ->]. rewrite elem_of_cons in *. set_solver.
Qed.
Lemma compact_short l : Z.of_nat (length (compactHomeSessionAliases l)) ≤ homeSessionAliasSoftLimit.
Proof.
  destruct (compact_spec isHomePromptCacheAlias l) as (_ & H & _). unfold compactHomeSessionAliases, homeSessionAliasSoftLimit, maxStableSessionAliases in *. lia.
Qed.
Lemma ticked_ok c n : alias_ok c → alias_ok (c <| hc_ops := n |>).
Proof. by intros []. Qed.
Lemma entry_in_date a now c : alias_ok c → ∃ c', entryLocked a now c = (in_date now (hc_entries c !! a), c') ∧ pruned now c c'
  ∧ hc_entries c' !! a = in_date now (hc_entries c !! a).
Proof.
  intros Hc. destruct (entryLocked a now c) as [o c'] eqn:E. destruct (entry_spec a now c o c' Hc E) as (H1 & H2 & H3).
  assert (o = in_date now (hc_entries c !! a)) as <-; [|by exists c'].
  unfold entryLocked in E. unfold in_date. destruct (hc_entries c !! a) as [e|]; cbn; [|by injection E].
  destruct (before now (he_expiresAt e)); [by injection E|]. destruct (hc_groups c !! he_canonical e); [destruct (sameHomeSessionAliasGroup _ _)|]; by injection E.
Qed.
Lemma pruned_in_date now c c' a : pruned now c c' → in_date now (hc_entries c' !! a) = in_date now (hc_entries c !! a).
Proof.
  intros Hp. unfold in_date. destruct (hc_entries c !! a) as [x|] eqn:E; cbn.
  - destruct (before now (he_expiresAt x)) eqn:Eb; [by rewrite (pruned_entry now c c' a x) by done; cbn; rewrite Eb|].
    destruct (hc_entries c' !! a) as [y|] eqn:E'; cbn; [|done]. apply (pruned_entry_back now c c') in E'; [|done]. rewrite E in E'. injection E' as <-. by rewrite Eb.
  - destruct (hc_entries c' !! a) as [y|] eqn:E'; [|done]. apply (pruned_entry_back now c c') in E'; [|done]. congruence.
Qed.
(** The start of a call: a tick, at times a cleanup. *)
Definition ticked now c : homeSessionAliasCache :=
  let c := c <| hc_ops := wrapu64 (hc_ops c + 1) |> in
  if hc_ops c mod homeSessionAliasCleanupOps =? 0 then cleanupLocked now c else c.
Lemma ticked_pruned now c : alias_ok c → pruned now c (ticked now c).
Proof.
  intros Hc. pose proof (ticked_ok c (wrapu64 (hc_ops c + 1)) Hc) as Hk. unfold ticked.
  assert (pruned now (c <| hc_ops := wrapu64 (hc_ops c + 1) |>) (if hc_ops (c <| hc_ops := wrapu64 (hc_ops c + 1) |>) mod homeSessionAliasCleanupOps =? 0
    then cleanupLocked now (c <| hc_ops := wrapu64 (hc_ops c + 1) |>) else c <| hc_ops := wrapu64 (hc_ops c + 1) |>)) as (P & HP & H).
  { destruct (_ =? 0); [by apply cleanup_pruned|by apply pruned_self]. }
  exists P. split; [done|]. destruct H as [H1 H2 H3 H4]. by split.
Qed.
Lemma fallback_in_date p f now c : alias_ok c → ∃ c',
  (if negb (String.eqb f "") && negb (String.eqb f p) then entryLocked f now c else (None, c)) = (fallback_entry now p f c, c') ∧ pruned now c c'
  ∧ (f ≠ "" → f ≠ p → hc_entries c' !! f = fallback_entry now p f c).
Proof.
  intros Hc. unfold fallback_entry. destruct (String.eqb_spec f "") as [->|Hf]; cbn [negb andb]; [exists c; split_and!; [done|by apply pruned_self|done]|].
  destruct (String.eqb_spec f p) as [->|Hfp]; cbn [negb]; [exists c; split_and!; [done|by apply pruned_self|done]|].
  destruct (entry_in_date f now c Hc) as (c' & H1 & H2 & H3). by exists c'.
Qed.
Lemma pruned_fallback now p f c c' : pruned now c c' → fallback_entry now p f c' = fallback_entry now p f c.
Proof. intros H. unfold fallback_entry. by rewrite (pruned_in_date now c c'). Qed.
(** ** What a call does *)

(** What a call has remembered: names from its identifiers and from the groups [J]. *)
Record gathered (p f : string) (J : homeSessionAliasEntry → Prop) (acc : gmap string homeSessionAliasEntry * list string) : Prop := {
  ga_names : names_from (mergeSessionAliases [] [p; f]) acc.2;
  ga_from : ∀ a, a ∈ acc.2 → a ≠ "" ∧ (a = p ∨ a = f ∨ ∃ x, J x ∧ a ∈ he_aliases x);
  ga_all : ∀ x a, J x → a ∈ he_aliases x → a ≠ "" → a ∈ acc.2;
  ga_groups : ∀ k x, acc.1 !! k = Some x → J x;
}.
Lemma gathered_start p f : gathered p f (λ _, False) (∅, mergeSessionAliases [] [p; f]).
Proof.
  split; cbn; [apply start_names| |done|intros k x; by rewrite lookup_empty].
  intros a Ha. apply (merge_spec [] [p; f]) in Ha as [Hne [Ha|Ha]]; [by apply not_elem_of_nil in Ha|]. rewrite !elem_of_cons, elem_of_nil in Ha. naive_solver.
Qed.
Lemma gathered_more p f J acc entry : gathered p f J acc → gathered p f (λ x, J x ∨ entry = Some x) (remember entry acc).
Proof.
  intros [H1 H2 H3 H4]. destruct entry as [e|]; cbn; [|split; naive_solver]. split; cbn; [by apply merge_grows| | |].
  - intros a Ha. apply (merge_spec acc.2 (he_aliases e)) in Ha as [Hne [Ha|Ha]]; [|naive_solver]. apply H2 in Ha. naive_solver.
  - intros x a Hx Ha Hne. apply (merge_spec acc.2 (he_aliases e)). naive_solver.
  - intros k x [[_ <-]|[_ Hx]]%lookup_insert_Some; [by right|]. left. by eapply H4.
Qed.
Lemma gathered_ext p f J J' acc : (∀ x, J x ↔ J' x) → gathered p f J acc → gathered p f J' acc.
Proof. intros HJ [H1 H2 H3 H4]. split; [done| |intros; eapply H3; naive_solver|intros; apply HJ; by eapply H4]. intros a Ha. destruct (H2 a Ha). naive_solver. Qed.
(** The groups a call joins: those of its identifiers. *)
Definition joined now p f c x : Prop := in_date now (hc_entries c !! p) = Some x ∨ fallback_entry now p f c = Some x.
(** The group a call stores, over what is left of the cache. *)
Record stored now p f (ttl : duration) c (e : homeSessionAliasEntry) c2 : Prop := {
  st_name : he_canonical e = name_of now p f c;
  st_until : he_expiresAt e = now + time_to_live ttl;
  st_list : ∃ l, he_aliases e = compactHomeSessionAliases l ∧ names_from (mergeSessionAliases [] [p; f]) l
    ∧ (∀ a, a ∈ l → a ≠ "" ∧ (a = p ∨ a = f ∨ a = he_canonical e ∨ ∃ x, joined now p f c x ∧ a ∈ he_aliases x))
    ∧ ∀ x a, joined now p f c x → a ∈ he_aliases x → a ≠ "" → a ∈ l;
  st_left : ∃ gone, (∀ x, gone x → expired now x ∨ joined now p f c x) ∧ without gone c c2;
}.
Lemma in_date_some now o x : in_date now o = Some x → o = Some x ∧ before now (he_expiresAt x) = true.
Proof. unfold in_date. destruct o as [y|]; cbn; [|done]. by destruct (before now (he_expiresAt y)) eqn:E; [intros [= <-]|]. Qed.
Lemma joined_group now p f c x : alias_ok c → joined now p f c x → hc_groups c !! he_canonical x = Some x ∧ before now (he_expiresAt x) = true.
Proof.
  intros Hc [[Hx Hb]%in_date_some|Hx]; [split; [by apply (al_entry c Hc p x)|done]|]. unfold fallback_entry in Hx. destruct (_ && _); [|done].
  apply in_date_some in Hx as [Hx Hb]. split; [by apply (al_entry c Hc f x)|done].
Qed.
(** When an identifier has a group in date, the group of the name is that of the identifier, and all go. *)
Lemma joins now ttl p f c c2 e : alias_ok c → pruned now c c2 →
  joined now p f c e → he_canonical e = name_of now p f c →
  let acc := remember (fallback_entry now p f c) (remember (in_date now (hc_entries c !! p)) (∅, mergeSessionAliases [] [p; f])) in
  let '(group, c3) := groupLocked (he_canonical e) now c2 in
  stored now p f ttl c {| he_canonical := he_canonical e; he_expiresAt := now + time_to_live ttl;
      he_aliases := compactHomeSessionAliases (mergeSessionAliases (remember group acc).2 [he_canonical e]) |}
    (foldl (fun c previous => removeGroupLocked previous c) c3 (map snd (map_to_list (remember group acc).1))).
Proof.
  intros Hc P2 Hj Hn acc. destruct (groupLocked (he_canonical e) now c2) as [o c3] eqn:Eg.
  destruct (group_spec (he_canonical e) now c2 o c3 (pruned_ok _ _ _ P2) Eg) as (P3 & Hg & _). pose proof (pruned_trans _ _ _ _ P2 P3) as P03.
  destruct (joined_group now p f c e Hc Hj) as [He Hb]. rewrite (pruned_group now c c3 _ e P03 He Hb) in Hg. subst o.
  assert (gathered p f (joined now p f c) (remember (Some e) acc)) as [H1 H2 H3 H4].
  { eapply gathered_ext; [|apply gathered_more, gathered_more, gathered_more, gathered_start]. intros x. cbn. unfold joined in *. naive_solver. }
  split; cbn -[remember]; [done|done| |].
  - eexists. split; [reflexivity|]. split; [by apply merge_grows|]. split.
    + intros a Ha. apply merge_spec in Ha as [Hne [Ha|Ha]]; [apply H2 in Ha; naive_solver|]. apply list_elem_of_singleton in Ha. naive_solver.
    + intros x a Hx Ha Hne. apply merge_spec. split; [done|]. left. by eapply H3.
  - destruct P03 as (P & HP & Hw). exists (λ x, P x ∨ x ∈ map snd (map_to_list (remember (Some e) acc).1)). split.
    + intros x [Hx|Hx]; [left; by apply HP|]. right. apply list_elem_of_fmap in Hx as ([k y] & -> & Hx). apply elem_of_map_to_list in Hx. by eapply H4.
    + eapply without_both; [exact Hw|]. by apply remove_all_spec, (wo_ok _ _ _ Hw).
Qed.
(** When none has, the group is new. *)
Lemma starts now ttl p f c c3 : in_date now (hc_entries c !! p) = None → fallback_entry now p f c = None → pruned now c c3 →
  stored now p f ttl c {| he_canonical := p; he_expiresAt := now + time_to_live ttl;
      he_aliases := compactHomeSessionAliases (mergeSessionAliases (remember None (remember None (∅, mergeSessionAliases [] [p; f]))).2 [p]) |} c3.
Proof.
  intros Hp Hf (P & HP & Hw). split; cbn; [unfold name_of; by rewrite Hp, Hf|done| |exists P; split; [naive_solver|done]].
  destruct (gathered_start p f) as [H1 H2 _ _]. eexists. split; [reflexivity|]. split; [by apply merge_grows|]. split.
  - intros a Ha. apply merge_spec in Ha as [Hne [Ha|Ha]]; [apply H2 in Ha; naive_solver|]. apply list_elem_of_singleton in Ha. naive_solver.
  - intros x a Hx. unfold joined in Hx. rewrite Hp, Hf in Hx. naive_solver.
Qed.
(** A call finds a group of its own name and leaves it, or stores a group. *)
Lemma canonical_effect primary fallback ttl now c : alias_ok c → trim_space primary ≠ "" →
  let p := trim_space primary in let f := trim_space fallback in let r := canonical primary fallback ttl now c in
  r.1 = name_of now p f c
  ∧ ((∃ e c2, stored now p f ttl c e c2 ∧ r.2 = enforceLimitLocked homeSessionAliasSoftLimit (setGroupLocked e c2))
     ∨ r.1 = p ∧ pruned now c r.2 ∧ hc_entries r.2 !! p = None ∧ (f ≠ "" → hc_entries r.2 !! f = None)
       ∧ ∃ g, hc_groups r.2 !! p = Some g ∧ before now (he_expiresAt g) = true).
Proof.
  intros Hc Hp. cbv zeta. unfold canonical. rewrite (proj2 (String.eqb_neq _ _) Hp). fold (time_to_live ttl). fold (ticked now c).
  set (p := trim_space primary) in *. set (f := trim_space fallback).
  pose proof (ticked_pruned now c Hc) as P0. set (c0 := ticked now c) in *.
  destruct (entry_in_date p now c0) as (c1 & -> & P1 & E1); [by eapply pruned_ok|].
  rewrite (pruned_in_date now c c0 p P0) in E1 |- *. pose proof (pruned_trans _ _ _ _ P0 P1) as P01. pose proof (pruned_ok _ _ _ P01) as Hc1.
  destruct (fallback_in_date p f now c1 Hc1) as (c2 & -> & P2 & E2). rewrite (pruned_fallback now p f c c1 P01) in E2 |- *.
  pose proof (pruned_trans _ _ _ _ P01 P2) as P02.
  pose proof (λ e, joins now ttl p f c c2 e Hc P02) as Hjoins. unfold joined, name_of in Hjoins. unfold name_of.
  destruct (in_date now (hc_entries c !! p)) as [e|] eqn:Ep; [|destruct (fallback_entry now p f c) as [e|] eqn:Ef].
  - specialize (Hjoins e (or_introl eq_refl) eq_refl). cbv zeta in Hjoins. destruct (groupLocked (he_canonical e) now c2) as [o c3]. split; [done|]. left. eexists _, _. by split; [exact Hjoins|].
  - specialize (Hjoins e (or_intror eq_refl) eq_refl). cbv zeta in Hjoins. destruct (groupLocked (he_canonical e) now c2) as [o c3]. split; [done|]. left. eexists _, _. by split; [exact Hjoins|].
  - pose proof (pruned_ok _ _ _ P02) as Hc2. destruct (groupLocked p now c2) as [o c3] eqn:Eg. destruct (group_spec p now c2 o c3 Hc2 Eg) as (P3 & Hg & Hlive).
    pose proof (pruned_trans _ _ _ _ P02 P3) as P03. pose proof (pruned_none _ _ _ p (pruned_trans _ _ _ _ P2 P3) E1) as Hn. destruct o as [g|].
    + rewrite bool_decide_true by eauto. split; [done|]. right. split_and!; [done..| |by eauto].
      intros Hf. destruct (decide (f = p)) as [->|Hfp]; [done|]. by eapply pruned_none, E2.
    + rewrite bool_decide_false by (by intros []). split; [done|]. left. eexists _, c3. split; [|reflexivity]. by apply starts.
Qed.

Lemma stored_ok now p f ttl c e c2 : stored now p f ttl c e c2 → alias_ok c2.
Proof. intros [_ _ _ (gone & _ & Hw)]. exact (wo_ok _ _ _ Hw). Qed.
Lemma stored_short now p f ttl c e c2 : stored now p f ttl c e c2 → Z.of_nat (length (he_aliases e)) ≤ homeSessionAliasSoftLimit.
Proof. intros [_ _ (l & -> & _) _]. apply compact_short. Qed.
Lemma canonical_spec primary fallback ttl now c : alias_ok c → Z.of_nat (size (hc_entries c)) ≤ homeSessionAliasSoftLimit → trim_space primary ≠ "" →
  let p := trim_space primary in let f := trim_space fallback in let r := canonical primary fallback ttl now c in
  r.1 = name_of now p f c
  ∧ (settled r.1 p f (first_names p f) (now + time_to_live ttl) r.2
     ∨ is_Some (hc_groups c !! p) ∧ settled r.1 p f [] (now + 1) r.2).
Proof.
  intros Hc Hsize Hp. cbv zeta. destruct (canonical_effect primary fallback ttl now c Hc Hp) as [-> H]. split; [done|].
  destruct H as [(e & c2 & Hs & ->)|(-> & Hpr & Hn & Hf & g & Hg & Hb)].
  - left. destruct (store_spec e c2 (stored_ok _ _ _ _ _ _ _ Hs) (stored_short _ _ _ _ _ _ _ Hs)) as (H1 & H2 & H3 & H4).
    destruct Hs as [Hname Hu (l & Hl & Hnames & _) _]. rewrite Hname in H3.
    assert (∀ a, a ∈ first_names (trim_space primary) (trim_space fallback) → hc_entries (enforceLimitLocked homeSessionAliasSoftLimit (setGroupLocked e c2)) !! a = Some e) as Hk.
    { intros a Ha. apply H4. rewrite Hl. by eapply first_kept. }
    split_and!; [done..|]. exists e. split_and!; [done|lia| |done]. left. apply Hk. unfold first_names. case_bool_decide; destruct (_ && _); by left.
  - right. split; [exists g; by eapply pruned_group_back|]. pose proof (pruned_size _ _ _ Hpr). unfold before in Hb.
    split_and!; [by eapply pruned_ok|lia|]. exists g. split_and!; [done|lia|by right|by intros a ?%not_elem_of_nil].
Qed.

(** ** The cache over time *)

Lemma blank_call fallback ttl now c primary : trim_space primary = "" → canonical primary fallback ttl now c = ("", c).
Proof. intros Hp. unfold canonical. by rewrite Hp. Qed.
(** The caches calls and resets build from an empty one. *)
Inductive used : homeSessionAliasCache → Prop :=
  | used_new : used empty_cache
  | used_call c primary fallback ttl now : used c → used (canonical primary fallback ttl now c).2
  | used_clear c : used c → used (clear c).
Lemma used_ok c : used c → alias_ok c ∧ Z.of_nat (size (hc_entries c)) ≤ homeSessionAliasSoftLimit.
Proof.
  induction 1 as [|c p f ttl now _ [Hc Hs]|c _ _]; [by split; [apply empty_alias_ok|]| |by split; [apply clear_ok|]].
  destruct (decide (trim_space p = "")) as [Hp|Hp]; [by rewrite blank_call|].
  by destruct (canonical_spec p f ttl now c Hc Hs Hp) as (_ & [(? & ? & _)|(_ & ? & ? & _)]).
Qed.
Lemma name_found now p f c g n : alias_ok c → hc_groups c !! n = Some g → now < he_expiresAt g → hc_entries c !! p = Some g → name_of now p f c = n.
Proof.
  intros Hc Hg Hn He. unfold name_of, in_date. rewrite He. cbn. unfold before. rewrite (proj2 (Z.ltb_lt _ _)) by done. by apply (al_group c Hc).
Qed.
(** A settled cache gives the same name to the same call, and to each name kept. *)
Lemma settled_name n p f kept until now c : settled n p f kept until c → now < until → name_of now p f c = n.
Proof.
  intros (Hc & _ & g & Hg & Hu & Hp & _) Hn. destruct Hp as [He|(-> & Hp & Hf)]; [apply (name_found now p f c g); [done|done|lia|done]|].
  unfold name_of, fallback_entry, in_date. rewrite Hp. cbn. destruct (String.eqb_spec f "") as [|Hne]; [done|]. rewrite Hf by done. by destruct (negb _ && _).
Qed.
Lemma settled_kept n p f kept until now c a f' : settled n p f kept until c → now < until → a ∈ kept → name_of now a f' c = n.
Proof. intros (Hc & _ & g & Hg & Hu & _ & Hk) Hn Ha. apply (name_found now a f' c g); [done|done|lia|by apply Hk]. Qed.
Lemma canonical_name primary fallback ttl now c : alias_ok c → Z.of_nat (size (hc_entries c)) ≤ homeSessionAliasSoftLimit → trim_space primary ≠ "" →
  (canonical primary fallback ttl now c).1 = name_of now (trim_space primary) (trim_space fallback) c.
Proof. intros Hc Hs Hp. by destruct (canonical_spec primary fallback ttl now c Hc Hs Hp). Qed.
Lemma first_not_blank p f a : p ≠ "" → a ∈ first_names p f → a ≠ "".
Proof. intros Hp. unfold first_names. case_bool_decide; cbn [orb]; [|destruct (_ && _)]; rewrite ?elem_of_cons, ?elem_of_nil; naive_solver. Qed.

(** Each call whose own identifier is a kept name of the first follows it, until the time to live is over. *)
Lemma names_follow primary fallback ttl now ttl' c a fallback' now' : used c → trim_space primary ≠ "" → hc_groups c !! trim_space primary = None →
  trim_space a ∈ first_names (trim_space primary) (trim_space fallback) → now' < now + time_to_live ttl →
  (canonical a fallback' ttl' now' (canonical primary fallback ttl now c).2).1 = (canonical primary fallback ttl now c).1.
Proof.
  intros Hu Hp Hg Ha Hn. destruct (used_ok c Hu) as [Hc Hs]. destruct (used_ok _ (used_call c primary fallback ttl now Hu)) as [Hc' Hs'].
  destruct (canonical_spec primary fallback ttl now c Hc Hs Hp) as (_ & H). rewrite canonical_name; [|done|done|by eapply first_not_blank].
  destruct H as [H|[Hsome _]]; [by eapply settled_kept|]. rewrite Hg in Hsome. by destruct Hsome.
Qed.
(** The names of a session agree.  In a cache that calls and resets have built, the identifiers of a
    call lead to one name: the same call right after it gives the name again; and when no earlier session
    bears the name of the primary identifier, so does every call whose own primary identifier is one of
    the two, until the time to live is over (the fallback is left out when both are prompt-cache keys, of
    which a session keeps one).  The cache never holds more than its limit of names. *)
Theorem session_names_agree primary fallback ttl now ttl' c : used c → trim_space primary ≠ "" →
  let r := canonical primary fallback ttl now c in
  (canonical primary fallback ttl' now r.2).1 = r.1
  ∧ (hc_groups c !! trim_space primary = None → ∀ a fallback' now', trim_space a ∈ first_names (trim_space primary) (trim_space fallback) →
       now' < now + time_to_live ttl → (canonical a fallback' ttl' now' r.2).1 = r.1)
  ∧ Z.of_nat (size (hc_entries r.2)) ≤ homeSessionAliasSoftLimit.
Proof.
  intros Hu Hp. cbv zeta. destruct (used_ok c Hu) as [Hc Hs]. destruct (used_ok _ (used_call c primary fallback ttl now Hu)) as [Hc' Hs'].
  destruct (canonical_spec primary fallback ttl now c Hc Hs Hp) as (_ & H). split_and!; [| |done].
  - rewrite canonical_name by done. pose proof (time_to_live_pos ttl). destruct H as [H|[_ H]]; eapply settled_name; [exact H|lia|exact H|lia].
  - intros Hg a f' now' Ha Hn. by apply names_follow.
Qed.
Lemma session_names_agree_witness :
  let r := canonical " s1 " "s2" 0 5 empty_cache in
  r.1 = "s1" ∧ (canonical "s2" "" 0 (hour + 4) r.2).1 = r.1 ∧ (canonical " s1 " "s2" 7 5 r.2).1 = r.1.
Proof.
  pose proof (session_names_agree " s1 " "s2" 0 5 7 empty_cache used_new) as H. pose proof (session_names_agree " s1 " "s2" 0 5 0 empty_cache used_new) as H0.
  cbv zeta in *. split_and!; [by vm_compute| |].
  - apply (proj1 (proj2 (H0 ltac:(by vm_compute)))); [by vm_compute| |by vm_compute]. apply (bool_decide_unpack _). by vm_compute.
  - exact (proj1 (H ltac:(by vm_compute))).
Defined.

End HomeAliasProps.
