(* ===== verification/HomeIdentity.v ===== *)
(** * The session a dispatch to a Home names: [homeDispatchSessionIDs]

    Of sdk/cliproxy/auth/home_session_alias.go: the identity of a request and of the session
    it comes from, by explicit identifiers, by the metadata, by the turns over the prefix
    matcher of the selector, or by its messages, then reconciled by the cache of names. *)
From S2P Require Import Prelude GoLib Utf8 Weight AuthTypes Expiry Availability Selector Classify SessionCache LcpKeys LcpMatcher Affinity SessionIdentity SessionProps HomeAlias HomeAliasProps.
Import LcpKeys Affinity HomeAlias HomeAliasProps.
Import LcpMatcher (MatchFingerprintsWithContext, BindFingerprintsWithContext, MerklePrefixMatch, mt_SessionID, mt_ParentSessionID, mt_IsFork, mt_IsCompaction, br_SessionID).

Module HomeIdentity.

Definition providerFromSourceFormat (format : string) : string :=
  if equal_fold format "gemini" || equal_fold format "antigravity" then "google"
  else if equal_fold format "claude" then "claude"
  else if equal_fold format "interactions" then "devin"
  else "openai".
(** What a request brings besides [Affinity.request]: its format, the model in the metadata, and the
    configured time to live, as [homeSessionAliasTTL] reads it. *)
Record dispatch : Type := {
  hd_format : string;
  hd_requestedModel : option string;
  hd_ttl : duration;
  hd_match : time;
  hd_bind : time;
  hd_now : time;
}.

(** The metadata after a match. *)
Definition match_marks (f : MerklePrefixMatch) (md : metadata) : metadata :=
  let md := if String.eqb (mt_ParentSessionID f) "" then md else md <| md_parentSessionID := Some (mt_ParentSessionID f) |> in
  let md := md <| md_lcpSessionID := Some (mt_SessionID f) |> <| md_canonicalSessionID := Some (mt_SessionID f) |> in
  if mt_IsFork f then md <| md_isFork := Some true |> <| md_isCompaction := None |> <| md_nodeKind := Some "fork" |>
  else if mt_IsCompaction f then md <| md_isCompaction := Some true |> <| md_isFork := None |> <| md_nodeKind := Some "compaction" |>
  else md.

Section Dispatch.
Context {S : Type} `{H : Sha256}.
Implicit Types (s : affinity S) (rq : request) (md : metadata) (d : dispatch) (c : homeSessionAliasCache).

(** By the turns, when no identity is known: the primary identifier and the fallback.  Nil metadata have no
    caller scope, hence no namespace: they are the empty ones, whose marks nobody reads. *)
Definition match_turns d rq (fallback : string) md s : string * string * metadata * affinity S :=
  let provider := sessionMetadataString (md_affinityProvider md) in
  let provider := canonicalLCPProvider (if String.eqb provider "" then providerFromSourceFormat (hd_format d) else provider) in
  let md := if String.eqb provider "" then md else md <| md_affinityProvider := Some provider |> in
  let model := sessionMetadataString (md_affinityModel md) in
  let model := if String.eqb model "" then sessionMetadataString (hd_requestedModel d) else model in
  let namespace := lcpAffinityNamespace provider model md in
  if String.eqb namespace "" || bool_decide (ar_turns rq = []) then ("", fallback, md, s)
  else
    let '(fingerprints, minPrefixLength, tailFingerprints, envDigest) := PrepareExt (ar_turns rq) in
    if bool_decide (fingerprints = []) || (minPrefixLength <=? 0) || (Z.of_nat (length fingerprints) <? minPrefixLength) then ("", fallback, md, s)
    else
      let '(m, found) := MatchFingerprintsWithContext namespace fingerprints tailFingerprints envDigest minPrefixLength (hd_match d) (af_matcher s) in
      let s := s <| af_matcher := m |> in
      match found with
      | Some f => (mt_SessionID f, if String.eqb (mt_ParentSessionID f) "" then fallback else mt_ParentSessionID f, match_marks f md, s)
      | None =>
          let '(m, r) := BindFingerprintsWithContext namespace fingerprints tailFingerprints envDigest minPrefixLength "home-pending" (hd_bind d) (af_matcher s) in
          let s := s <| af_matcher := m |> in
          if String.eqb (br_SessionID r) "" then ("", fallback, md, s)
          else (br_SessionID r, fallback, md <| md_lcpSessionID := Some (br_SessionID r) |> <| md_canonicalSessionID := Some (br_SessionID r) |>, s)
      end.
(** The identifiers of a request, whether they are its own, and what is left of metadata and selector.
    The selector is [None] when it is not the session-affinity one. *)
Definition dispatch_identity d rq md (selector : option (affinity S)) : string * string * bool * metadata * option (affinity S) :=
  let '(primary, fallback, md) := extractExplicitSessionIDs rq md in
  let hasAuthoritativeInput := negb (String.eqb primary "") in
  let primary := if negb (String.eqb primary "") then primary
                 else let canonicalID := sessionMetadataString (md_canonicalSessionID md) in
                      if negb (String.eqb canonicalID "") then canonicalID else sessionMetadataString (md_lcpSessionID md) in
  let '(primary, fallback, md, selector) :=
    match selector with
    | Some s => if String.eqb primary "" then let '(primary, fallback, md, s) := match_turns d rq fallback md s in (primary, fallback, md, Some s)
                else (primary, fallback, md, selector)
    | None => (primary, fallback, md, selector)
    end in
  if String.eqb primary "" then
    let '(primary, fallback, md) := extractSessionIDs rq md in (primary, fallback, negb (String.eqb primary ""), md, selector)
  else (primary, fallback, hasAuthoritativeInput, md, selector).
(** The fallback as the session the request comes from, or as another name of its own. *)
Definition split_fallback (primary fallback : string) : string * string :=
  if String.eqb fallback "" || String.eqb fallback primary then ("", "")
  else if isHierarchyParent primary fallback then (fallback, "") else ("", fallback).
Definition relatives (primary fallback : string) (hasAuthoritativeInput : bool) md : string * string :=
  let '(parentSessionID, aliasFallback) := split_fallback primary fallback in
  (if negb hasAuthoritativeInput && String.eqb parentSessionID "" then sessionMetadataString (md_parentSessionID md) else parentSessionID, aliasFallback).
Definition dispatch_names d (primary fallback : string) (hasAuthoritativeInput : bool) md c : string * string * homeSessionAliasCache :=
  let '(parentSessionID, aliasFallback) := relatives primary fallback hasAuthoritativeInput md in
  let '(name, c) := canonical primary aliasFallback (hd_ttl d) (hd_now d) c in
  let '(parentSessionID, c) :=
    if String.eqb parentSessionID "" then ("", c)
    else if String.eqb parentSessionID name || String.eqb parentSessionID primary || (negb (String.eqb aliasFallback "") && String.eqb parentSessionID aliasFallback) then ("", c)
    else let '(parent, c) := canonical parentSessionID "" (hd_ttl d) (hd_now d) c in
         (if String.eqb parent name then "" else parent, c) in
  let name := BoundSessionIdentity name in
  let parentSessionID := if String.eqb parentSessionID "" then "" else BoundSessionIdentity parentSessionID in
  (name, if String.eqb name parentSessionID then "" else parentSessionID, c).
Definition homeDispatchSessionIDs d rq md (selector : option (affinity S)) c :
    string * string * metadata * option (affinity S) * homeSessionAliasCache :=
  let '(primary, fallback, hasAuthoritativeInput, md, selector) := dispatch_identity d rq md selector in
  if String.eqb primary "" then ("", "", md, selector, c)
  else let '(name, parentSessionID, c) := dispatch_names d primary fallback hasAuthoritativeInput md c in
       (name, parentSessionID, md, selector, c).
Definition homeDispatchSessionID d rq md (selector : option (affinity S)) c : string := (homeDispatchSessionIDs d rq md selector c).1.1.1.1.

End Dispatch.

(** ** What the names of a dispatch promise *)

Section Promises.
Context {S : Type} `{H : Sha256}.
Hypothesis Hlen : ∀ s, String.length (sha256 s) = 32%nat.
Implicit Types (s : affinity S) (rq : request) (md : metadata) (d : dispatch) (c : homeSessionAliasCache).

(** The name of a dispatch, and the calls of the cache it makes. *)
Lemma names_name d primary fallback own md c :
  (dispatch_names d primary fallback own md c).1.1 = BoundSessionIdentity (canonical primary (relatives primary fallback own md).2 (hd_ttl d) (hd_now d) c).1.
Proof.
  unfold dispatch_names. destruct (relatives primary fallback own md) as [parent alias]. cbn [snd].
  destruct (canonical primary alias (hd_ttl d) (hd_now d) c) as [n c1]. cbn [fst].
  destruct (String.eqb parent ""); [done|]. destruct (_ || _ || _); [done|]. by destruct (canonical parent "" _ _ _).
Qed.
Lemma dispatch_calls d primary fallback own md c :
  let '(parent, alias) := relatives primary fallback own md in
  let c1 := (canonical primary alias (hd_ttl d) (hd_now d) c).2 in
  let c' := (dispatch_names d primary fallback own md c).2 in
  c' = c1 ∨ c' = (canonical parent "" (hd_ttl d) (hd_now d) c1).2.
Proof.
  unfold dispatch_names. destruct (relatives primary fallback own md) as [parent alias]. destruct (canonical primary alias (hd_ttl d) (hd_now d) c) as [n c1]. cbn [snd].
  destruct (String.eqb parent ""); [by left|]. destruct (_ || _ || _); [by left|]. right. by destruct (canonical parent "" _ _ c1).
Qed.
Lemma names_used d primary fallback own md c : used c → used (dispatch_names d primary fallback own md c).2.
Proof.
  intros Hu. pose proof (dispatch_calls d primary fallback own md c) as Hcases. destruct (relatives primary fallback own md) as [parent alias]. cbv zeta in Hcases.
  destruct Hcases as [-> | ->]; auto using used_call.
Qed.
Lemma names_bounded d primary fallback own md c : let '(name, parent, _) := dispatch_names d primary fallback own md c in
  strlen name ≤ 256 ∧ strlen parent ≤ 256 ∧ (parent = "" ∨ parent ≠ name).
Proof.
  unfold dispatch_names. destruct (relatives primary fallback own md) as [parent alias]. destruct (canonical primary alias _ _ c) as [n c1].
  match goal with |- context [if ?b then ("", c1) else ?y] => destruct (if b then ("", c1) else y) as [parent' c2] end. cbv beta iota.
  split_and!; [by apply SessionIdentity.bound_le| |].
  - destruct (String.eqb _ _); [done|]. destruct (String.eqb parent' ""); [done|by apply SessionIdentity.bound_le].
  - destruct (String.eqb_spec (BoundSessionIdentity n) (if String.eqb parent' "" then "" else BoundSessionIdentity parent')); [by left|right; congruence].
Qed.
(** A dispatch names a session and the one it comes from by at most 256 bytes each, never the same, and
    leaves a cache that calls built. *)
Theorem dispatch_names_bounded d rq md (selector : option (affinity S)) c : used c →
  let '(name, parent, _, _, c') := homeDispatchSessionIDs d rq md selector c in
  strlen name ≤ 256 ∧ strlen parent ≤ 256 ∧ (parent = "" ∨ parent ≠ name) ∧ used c'.
Proof.
  intros Hu. unfold homeDispatchSessionIDs. destruct (dispatch_identity d rq md selector) as [[[[p f] own] md'] sel'].
  destruct (String.eqb p ""); [by split_and!; [..|left|]|].
  pose proof (names_bounded d p f own md' c) as Hb. pose proof (names_used d p f own md' c Hu) as Hu'.
  destruct (dispatch_names d p f own md' c) as [[name parent] c']. cbn [snd] in Hu'. naive_solver.
Qed.

End Promises.
End HomeIdentity.
