(* ===== verification/AffinityProps.v ===== *)
(** * What the session-affinity selector promises

    A pick is a usable credential, of the best priority or one a conversation is bound to;
    a session that is bound stays with its credential, or leaves it only as the settings
    say; and which results release a binding. *)
From S2P Require Import Prelude GoLib Weight AuthTypes Expiry Availability Selector Classify Scheduler SessionCache SessionProps SessionBindings LcpKeys LcpMatcher LcpInv LcpSteps LcpBind LcpRemove LcpLongest LcpRuns LcpProps Affinity.
Import AuthTypes Expiry Availability Selector Classify SessionCache SessionProps SessionBindings.
Import Affinity.
Import LcpMatcher (matcher, deref, lg_authID, mt_AuthID, MatchFingerprintsWithContext, BindFingerprintsWithContext).
Import LcpKeys (PrepareExt).
Import LcpInv (group_at) LcpBind (well) LcpRemove (Match_ok, prepare_ok, pp_groups, pp_heap).

(** What the affinity selector relies on: the wrapped selector picks one of the best of the
    usable credentials it is given, and says it has none only when that is so. *)
Class FallbackOk (S : Type) `{F : Fallback S, GP : GoParse} : Prop :=
  fallback_sound : ∀ s ctx provider model auths now, 0 ≤ now → ctx_prevalidated ctx = false →
    ∃ p, (fb_pick s ctx provider model auths now).1 = Some p
      ∧ sound ctx model now (if fb_weighted then positiveWeightAuths auths else auths) p.

Module AffinityProps.

(** ** The selectors of the package keep the promise *)

Section Instances.
Context `{GP : GoParse}.
#[export] Instance round_robin_ok : FallbackOk RoundRobinSelector.
Proof.
  intros s ctx provider model auths now Hn Hp. cbn. destruct (RoundRobin_Pick _ _ _ _ _ _) as [p s'] eqn:E. exists p. split; [done|].
  destruct (picks_sound ctx provider model auths now s {| wr_states := ∅; wr_maxKeys := 0 |} Hn Hp) as [H _]. by rewrite E in H.
Qed.
#[export] Instance weighted_ok : FallbackOk WeightedRoundRobinSelector.
Proof.
  intros s ctx provider model auths now Hn Hp. cbn. destruct (Weighted_Pick _ _ _ _ _ _) as [p s'] eqn:E. exists p. split; [done|].
  destruct (picks_sound ctx provider model auths now {| rr_lastPicked := ∅; rr_maxKeys := 0 |} s Hn Hp) as (_ & _ & H). by rewrite E in H.
Qed.
#[export] Instance fill_first_ok : FallbackOk unit.
Proof. intros s ctx provider model auths now Hn Hp. cbn. eexists. split; [done|]. by apply (picks_sound ctx provider model auths now {| rr_lastPicked := ∅; rr_maxKeys := 0 |} {| wr_states := ∅; wr_maxKeys := 0 |}). Qed.
End Instances.

(** ** The candidates *)

Section Candidates.
Context `{GP : GoParse}.

Definition at_tier (p : Z) (a : Auth) : bool := authPriority a =? p.
Lemma at_tier_elem p l a : a ∈ List.filter (at_tier p) l ↔ a ∈ l ∧ authPriority a = p.
Proof. rewrite !list_elem_of_In, filter_In. unfold at_tier. by rewrite Z.eqb_eq. Qed.
Lemma at_tier_none p l : (∀ b, b ∈ l → authPriority b ≠ p) → List.filter (at_tier p) l = [].
Proof.
  intros Hl. destruct (List.filter (at_tier p) l) as [|a k] eqn:E; [done|]. assert (a ∈ List.filter (at_tier p) l) as Ha by (rewrite E; left).
  apply at_tier_elem in Ha as [Ha Hp]. by apply Hl in Ha.
Qed.
(** The best priority of [l] and how many have it. *)
Definition tier_of (l : list Auth) (best : Z * Z) : Prop :=
  l = [] ∧ best = (0, 0)
  ∨ (∃ a, a ∈ l ∧ authPriority a = best.1) ∧ (∀ b, b ∈ l → authPriority b ≤ best.1) ∧ best.2 = Z.of_nat (length (List.filter (at_tier best.1) l)).
Lemma tier_of_step l best x : tier_of l best → tier_of (l ++ [x]) (tier_step best x).
Proof.
  intros Ht. right. unfold tier_step. destruct best as [bp bc]. destruct Ht as [[-> [= -> ->]]|((a & Ha & Hp) & Hmax & Hc)]; cbn [fst snd] in *.
  { cbn. split; [exists x; split; [left|done]|]. unfold at_tier. rewrite Z.eqb_refl. split; [|done]. by intros b ->%list_elem_of_singleton. }
  assert (0 < bc) as Hpos.
  { assert (a ∈ List.filter (at_tier bp) l) as Hin by (by apply at_tier_elem). destruct (List.filter (at_tier bp) l); [by apply not_elem_of_nil in Hin|cbn in Hc; lia]. }
  rewrite (proj2 (Z.eqb_neq bc 0)) by lia. cbn [orb]. setoid_rewrite elem_of_app. setoid_rewrite list_elem_of_singleton.
  destruct (Z.ltb_spec bp (authPriority x)) as [Hlt|Hge]; [|destruct (Z.eqb_spec (authPriority x) bp) as [He|He]]; cbn [fst snd]; rewrite List.filter_app, length_app; cbn [List.filter].
  - split; [exists x; auto|]. split; [intros b [Hb| ->]; [apply Hmax in Hb; lia|lia]|]. rewrite at_tier_none by (intros b Hb; apply Hmax in Hb; lia).
    unfold at_tier. by rewrite Z.eqb_refl.
  - split; [exists a; auto|]. split; [intros b [Hb| ->]; [by apply Hmax|lia]|]. unfold at_tier at 2. rewrite (proj2 (Z.eqb_eq _ _) He). cbn [length]. lia.
  - split; [exists a; auto|]. split; [intros b [Hb| ->]; [by apply Hmax|lia]|]. unfold at_tier at 2. rewrite (proj2 (Z.eqb_neq _ _) He). cbn [length]. lia.
Qed.
Lemma tier_of_fold l k best : tier_of k best → tier_of (k ++ l) (foldl tier_step best l).
Proof.
  revert k best. induction l as [|x l IH]; intros k best Ht; cbn [foldl]; [by rewrite app_nil_r|].
  replace (k ++ x :: l) with ((k ++ [x]) ++ l) by (by rewrite <- app_assoc). by apply IH, tier_of_step.
Qed.
Lemma filter_full {A} (f : A → bool) l : length (List.filter f l) = length l → List.filter f l = l.
Proof.
  induction l as [|x l IH]; [done|]. cbn. destruct (f x); cbn; [intros [= E]; by rewrite IH|]. pose proof (filter_length_le f l). lia.
Qed.
(** The best of a list, whatever their number. *)
Lemma highest_spec l : (l ≠ [] → highestPriorityAuths l ≠ [])
  ∧ ∀ a, a ∈ highestPriorityAuths l ↔ a ∈ l ∧ ∀ b, b ∈ l → authPriority b ≤ authPriority a.
Proof.
  destruct l as [|x [|y l]]; [split; [done|]; intros a; split; [|by intros [? _]]; by intros ?%not_elem_of_nil| |].
  { split; [done|]. intros a. cbn. split; [|by intros [? _]]. intros Ha. split; [done|]. apply list_elem_of_singleton in Ha as ->. by intros b ->%list_elem_of_singleton. }
  set (l' := x :: y :: l). pose proof (tier_of_fold l' [] (0, 0) ltac:(by left)) as Ht. cbn [app] in Ht.
  change (highestPriorityAuths l') with (let '(bestPriority, bestCount) := foldl tier_step (0, 0) l' in
    if bestCount =? Z.of_nat (length l') then l' else List.filter (at_tier bestPriority) l').
  destruct (foldl tier_step (0, 0) l') as [bp bc]. destruct Ht as [[? _]|((a0 & Ha0 & Hp0) & Hmax & Hc)]; [done|]. cbn [fst snd] in *.
  assert ((if bc =? Z.of_nat (length l') then l' else List.filter (at_tier bp) l') = List.filter (at_tier bp) l') as ->.
  { destruct (Z.eqb_spec bc (Z.of_nat (length l'))) as [E|]; [|done]. symmetry. apply filter_full. lia. }
  split.
  - intros _ E. assert (a0 ∈ List.filter (at_tier bp) l') as Hin by (by apply at_tier_elem). rewrite E in Hin. by apply not_elem_of_nil in Hin.
  - intros a. rewrite at_tier_elem. split.
    + intros [Ha <-]. by split.
    + intros [Ha Hb]. split; [done|]. specialize (Hb a0 Ha0). specialize (Hmax a Ha). lia.
Qed.

Lemma across_spec ctx auths provider model now : 0 ≤ now → ctx_prevalidated ctx = false →
  match getSelectorAvailableAuthsAcrossPriorities ctx auths provider model now with
  | Err e => nobody_until ctx model now auths e
  | Ok l => l ≠ [] ∧ ∀ a, a ∈ l ↔ a ∈ auths ∧ blocked_for ctx model now a = false
  end.
Proof.
  intros Hn Hp. unfold getSelectorAvailableAuthsAcrossPriorities, getSelectorAvailableAuthsWithPriorityMode. rewrite Hp.
  assert (match auths with [] => getAvailableAuthsWithPriorityModeForRequest ctx auths provider model now true
    | _ => getAvailableAuthsWithPriorityModeForRequest ctx auths provider model now true end
    = getAvailableAuthsWithPriorityModeForRequest ctx auths provider model now true) as -> by (by destruct auths).
  destruct (getAvailableAuthsWithPriorityModeForRequest _ _ _ _ _ _) as [l|e] eqn:E; [|by eapply getAvailable_err].
  unfold getAvailableAuthsWithPriorityModeForRequest in E. destruct auths as [|a0 rest]; [done|]. set (auths := a0 :: rest) in *.
  pose proof (collect_ok ctx auths model now Hn) as Hc. destruct (collectAvailableByPriorityForRequest ctx auths model now) as [[av n] e0].
  case_bool_decide as Hav; [case_if_in E; done|]. injection E as <-. destruct Hc as [Hb Hne _ _]. cbn [fst snd] in *.
  assert (∀ a, a ∈ availableAuthsFromPriorityBuckets av true ↔ a ∈ auths ∧ blocked_for ctx model now a = false) as Hin.
  { intros a. unfold availableAuthsFromPriorityBuckets. cbv zeta. rewrite sort_by_perm, list_elem_of_In, in_concat.
    assert (∀ p, a ∈ bucket av p ↔ (a ∈ auths ∧ blocked_for ctx model now a = false) ∧ authPriority a = p) as Hbk.
    { intros p. rewrite Hb, list_elem_of_In, filter_In, <- list_elem_of_In. unfold in_tier, eligible.
      rewrite andb_true_iff, negb_true_iff, Z.eqb_eq. tauto. }
    split.
    - intros (l & Hl & Ha). apply in_map_iff in Hl as ([p l'] & <- & Hl). apply list_elem_of_In, elem_of_map_to_list in Hl.
      apply list_elem_of_In in Ha. apply (Hbk p). unfold bucket. by rewrite Hl.
    - intros Ha. pose proof (proj2 (Hbk (authPriority a)) (conj Ha eq_refl)) as Hx. unfold bucket in Hx.
      destruct (av !! authPriority a) as [l|] eqn:El; [|by apply not_elem_of_nil in Hx]. exists l. split; [|by apply list_elem_of_In].
      apply in_map_iff. exists (authPriority a, l). split; [done|]. by apply list_elem_of_In, elem_of_map_to_list. }
  split; [|done]. intros Hnil. rewrite Hnil in Hin. apply Hav. apply map_empty. intros p. destruct (av !! p) as [l|] eqn:El; [|done].
  destruct l as [|a l]; [by destruct (Hne _ _ El)|]. exfalso. apply (not_elem_of_nil a), Hin.
  assert (a ∈ bucket av p) as Ha by (unfold bucket; rewrite El; left). rewrite Hb in Ha. apply list_elem_of_In, filter_In in Ha as [Ha Ht].
  apply list_elem_of_In in Ha. unfold in_tier, eligible in Ht. bprop. done.
Qed.
Lemma candidates_facts ctx auths provider model now : 0 ≤ now →
  match getAvailableAuthsWithPriorityModeForRequest ctx auths provider model now false with
  | Ok l => best_tier ctx model now auths l
  | Err e => nobody_until ctx model now auths e
  end.
Proof.
  intros Hn. destruct (getAvailableAuthsWithPriorityModeForRequest _ _ _ _ _ _) eqn:E; [by eapply getAvailable_ok|by eapply getAvailable_err].
Qed.
Lemma find_auth_spec id l a : find_auth id l = Some a → a ∈ l ∧ a_ID a = id.
Proof. intros E. apply List.find_some in E as [Hin He]. apply list_elem_of_In in Hin. by apply String.eqb_eq in He. Qed.
End Candidates.

(** ** Every pick is sound *)

Section Sound.
Context {S : Type} `{F : Fallback S, GP : GoParse, EB : ErrorBodies, H : Sha256, P : Promise, FO : !FallbackOk S}.
Implicit Types (s : affinity S) (rq : request) (md : metadata) (rd : readings).

(** Some conversation is bound to the credential [id]. *)
Definition names_binding s (id : string) : Prop :=
  (∃ k e, c_groups (af_cache s) !! k = Some e ∧ en_authID e = id)
  ∨ ∃ name key g gr, group_at (af_matcher s) name key g ∧ deref (af_matcher s) g = Some gr
      ∧ lg_authID gr = id.
Definition answer_ok rd rq (model : string) (candidates : list Auth) (named : string → Prop) (answer : option picked) : Prop :=
  match answer with
  | Some (Picked a) => a ∈ candidates ∧ blocked_for (ar_ctx rq) model (rd_now rd) a = false
      ∧ (best_choice (ar_ctx rq) model (rd_now rd) candidates a ∨ named (a_ID a))
  | Some (NotPicked e) => nobody_until (ar_ctx rq) model (rd_now rd) candidates e
      ∨ ∃ l, l ≠ [] ∧ (∀ a, a ∈ l ↔ best_choice (ar_ctx rq) model (rd_now rd) candidates a) ∧ nobody_until (ar_ctx rq) model (rd_pick rd) l e
  | _ => False
  end.
(** The best of the usable candidates. *)
Definition top_of rd rq (model : string) (candidates l : list Auth) : Prop :=
  l ≠ [] ∧ ∀ a, a ∈ l ↔ best_choice (ar_ctx rq) model (rd_now rd) candidates a.

Lemma positive_candidates (l auths : list Auth) : (∀ a, a ∈ l → a ∈ availability_candidates auths) → (if fb_weighted then positiveWeightAuths l else l) = l.
Proof.
  unfold availability_candidates. destruct fb_weighted; [|done]. intros Hl. unfold positiveWeightAuths. apply forallb_filter_id, forallb_forall.
  intros a Ha. apply list_elem_of_In in Ha. apply Hl in Ha. unfold positiveWeightAuths in Ha. apply list_elem_of_In, filter_In in Ha as [_ Ha]. done.
Qed.
Lemma pick_top_ok rd rq provider model auths l (fallback : S) named : 0 ≤ rd_pick rd → ctx_prevalidated (ar_ctx rq) = false →
  top_of rd rq model (availability_candidates auths) l →
  answer_ok rd rq model (availability_candidates auths) named (fb_pick fallback (ar_ctx rq) provider model l (rd_pick rd)).1.
Proof.
  intros Hn Hp [Hne Hl]. destruct (fallback_sound fallback (ar_ctx rq) provider model l (rd_pick rd) Hn Hp) as (p & -> & Hs).
  rewrite (positive_candidates l auths) in Hs by (intros a Ha; by apply Hl in Ha as [Ha _]). destruct p as [a|e|]; cbn in *; [|right; by exists l|done].
  destruct Hs as [Ha _]. apply Hl in Ha. split; [apply Ha|]. split; [apply Ha|]. by left.
Qed.
Lemma reselect_ok rd rq provider model auths l bind s named : 0 ≤ rd_pick rd → ctx_prevalidated (ar_ctx rq) = false →
  top_of rd rq model (availability_candidates auths) l →
  answer_ok rd rq model (availability_candidates auths) named (reselect rd rq provider model l bind s).1.
Proof.
  intros Hn Hp Ht. pose proof (pick_top_ok rd rq provider model auths l (af_fallback s) named Hn Hp Ht) as Ho. unfold reselect.
  destruct (fb_pick _ _ _ _ _ _) as [answer f]. by destruct answer as [[a|e|]|].
Qed.
Lemma highest_top rd rq provider model candidates available : 0 ≤ rd_now rd → ctx_prevalidated (ar_ctx rq) = false →
  getSelectorAvailableAuthsAcrossPriorities (ar_ctx rq) candidates provider model (rd_now rd) = Ok available →
  (∀ a, a ∈ available ↔ a ∈ candidates ∧ blocked_for (ar_ctx rq) model (rd_now rd) a = false)
  ∧ top_of rd rq model candidates (highestPriorityAuths available).
Proof.
  intros Hn Hp E. pose proof (across_spec (ar_ctx rq) candidates provider model (rd_now rd) Hn Hp) as Ha. rewrite E in Ha. destruct Ha as [Hne Ha].
  destruct (highest_spec available) as [Hh1 Hh2]. split; [done|]. split; [by apply Hh1|]. intros a. rewrite Hh2, Ha. unfold best_choice. split.
  - intros [[H1 H2] H3]. split_and!; [done|done|]. intros b Hb1 Hb2. by apply H3, Ha.
  - intros (H1 & H2 & H3). split; [done|]. intros b [Hb1 Hb2]%Ha. by apply H3.
Qed.
Lemma hit_ok rd rq model candidates available (named : string → Prop) id a :
  (∀ a, a ∈ available ↔ a ∈ candidates ∧ blocked_for (ar_ctx rq) model (rd_now rd) a = false) →
  find_auth id available = Some a → named id → answer_ok rd rq model candidates named (Some (Picked a)).
Proof. intros Ha [Hin <-]%find_auth_spec Hn. apply Ha in Hin as [H1 H2]. cbn. auto. Qed.

(** ** Where the bound credentials come from *)

Lemma refresh_found c k now : cache_ok c → match (GetAndRefresh c k now).1 with
  | Some id => ∃ k' e, c_groups c !! k' = Some e ∧ en_authID e = id
  | None => cache_ok (GetAndRefresh c k now).2 ∧ ∀ k' e, c_groups (GetAndRefresh c k now).2 !! k' = Some e → c_groups c !! k' = Some e
  end.
Proof.
  intros Hok. unfold GetAndRefresh. destruct (String.eqb k ""); [done|]. destruct (c_entries c !! k) as [e|] eqn:E; [|done].
  destruct (entry_group Hok k e E) as (k' & Hk & _). destruct (before now _); cbn [fst snd]; [eauto|].
  destruct (remove_group_spec c Hok k' e Hk) as [Hw _]. split; [apply Hw|]. intros k2 e2 Hg. apply Hw in Hg. apply Hg.
Qed.
Lemma get_found c k now now' : cache_ok c → match (Get c k now now').1 with Some id => ∃ k' e, c_groups c !! k' = Some e ∧ en_authID e = id | None => True end.
Proof.
  intros Hok. unfold Get, Get_read, Get_expire. destruct (String.eqb k ""); [done|]. destruct (c_entries c !! k) as [e|] eqn:E; [|done].
  destruct (entry_group Hok k e E) as (k' & Hk & _). destruct (before now _); cbn; [eauto|]. destruct (before now' _); cbn; eauto.
Qed.
Lemma latest_found c sid providers now : latestSessionAuth c sid providers now ≠ "" →
  ∃ k e, c_groups c !! k = Some e ∧ en_authID e = latestSessionAuth c sid providers now.
Proof.
  unfold latestSessionAuth. destruct (_ || _); [done|]. intros Hne.
  destruct (latest_fold c providers now (elements (default ∅ (c_sessionGroups c !! sid))) zero_entry) as [[E|(k & _ & E & _)] _]; [by rewrite E in Hne|].
  destruct (c_groups c !! k) as [e|] eqn:Eg; cbn in E; [|by rewrite E in Hne]. exists k, e. by rewrite E.
Qed.
Lemma match_named name fps tails env minp now (m : matcher) f : well m →
  (MatchFingerprintsWithContext name fps tails env minp now m).2 = Some f →
  ∃ n key g gr, group_at m n key g ∧ deref m g = Some gr ∧ lg_authID gr = mt_AuthID f.
Proof.
  intros Hm E. destruct (Match_ok name fps tails env minp now m Hm) as [Er|[_ Hf]]; [by rewrite Er in E|].
  destruct (Hf f E) as (e & (Hat & Hd & _) & Ha). pose proof (prepare_ok now m Hm) as Hp.
  eexists name, _, e.1, e.2. split; [by eapply pp_groups|]. split; [|done].
  unfold deref in *. by rewrite <- (pp_heap _ _ _ Hp).
Qed.
Lemma names_cache s id : (∃ k e, c_groups (af_cache s) !! k = Some e ∧ en_authID e = id) → names_binding s id.
Proof. by left. Qed.
Lemma guardian_found rd rq provider fallbackID isSubagent available s a : guardian_parent rd rq provider fallbackID isSubagent available s = Some a →
  find_auth (a_ID a) available = Some a ∧ ∃ k e, c_groups (af_cache s) !! k = Some e ∧ en_authID e = a_ID a.
Proof.
  unfold guardian_parent. destruct (_ && _); [|done]. cbv zeta. set (id := latestSessionAuth _ _ _ _). destruct (String.eqb id "") eqn:E; [done|].
  intros Hf. destruct (find_auth_spec _ _ _ Hf) as [_ Hid]. rewrite Hid. split; [done|]. apply latest_found. by apply String.eqb_neq.
Qed.
Lemma pick_session_ok rd rq provider model primaryID fallbackID isFork auths available s : 0 ≤ rd_now rd → 0 ≤ rd_pick rd →
  ctx_prevalidated (ar_ctx rq) = false → cache_ok (af_cache s) →
  getSelectorAvailableAuthsAcrossPriorities (ar_ctx rq) (availability_candidates auths) provider model (rd_now rd) = Ok available →
  answer_ok rd rq model (availability_candidates auths) (names_binding s)
    (pick_session rd provider model rq primaryID fallbackID isFork auths (availability_candidates auths) available s).1.
Proof.
  intros Hn1 Hn2 Hp Hok Ha. destruct (highest_top rd rq provider model _ available Hn1 Hp Ha) as [Hav Htop].
  assert (∀ bind s', answer_ok rd rq model (availability_candidates auths) (names_binding s)
    (reselect rd rq provider model (highestPriorityAuths available) bind s').1) as Hre by (intros; by apply reselect_ok).
  unfold pick_session. cbv zeta. generalize (negb isFork && isSubagentSession primaryID fallbackID). intros isSubagent. set (key := session_key _ _ _). pose proof (refresh_found (af_cache s) key (rd_lookup rd) Hok) as Hg.
  destruct (GetAndRefresh (af_cache s) key (rd_lookup rd)) as [[id|] c]; cbn [fst snd] in Hg.
  { destruct (find_auth id available) as [a|] eqn:Ef; [|apply Hre]. cbn [fst]. eapply hit_ok; [done|exact Ef|]. by apply names_cache. }
  destruct Hg as [Hokc Hsub]. set (s1 := s <| af_cache := c |>).
  destruct (guardian_parent _ _ _ _ _ _ _) as [a|] eqn:Eg.
  { apply guardian_found in Eg as [Ef (k & e & Hk & He)]. cbn [fst]. eapply hit_ok; [done|exact Ef|]. apply names_cache. exists k, e. split; [by apply Hsub|done]. }
  set (fallbackKey := if _ && _ then _ else _). clearbody fallbackKey.
  assert (match (if String.eqb fallbackKey "" then (None, af_cache s1) else Get (af_cache s1) fallbackKey (rd_get rd) (rd_get' rd)).1 with
    | Some id => names_binding s id | None => True end) as Hget.
  { destruct (String.eqb fallbackKey ""); [done|]. pose proof (get_found c fallbackKey (rd_get rd) (rd_get' rd) Hokc) as Hg. change (af_cache s1) with c.
    destruct (Get c _ _ _).1; [|done]. destruct Hg as (k & e & Hk & He). apply names_cache. exists k, e. split; [by apply Hsub|done]. }
  destruct (if String.eqb fallbackKey "" then _ else _) as [[id|] c2]; cbn [fst] in Hget; [|apply Hre].
  destruct (if negb _ || _ then find_auth id available else None) as [a|] eqn:Ef.
  - destruct (_ || _); [|done]. cbn [fst]. by eapply hit_ok.
  - match goal with |- context [if ?b then reselect _ _ _ _ _ _ _ else _] => destruct b end; apply Hre.
Qed.
Lemma pick_lcp_ok rd rq provider model md auths s r : 0 ≤ rd_now rd → 0 ≤ rd_pick rd →
  ctx_prevalidated (ar_ctx rq) = false → well (af_matcher s) → pickLCP rd provider model rq md auths s = Some r →
  answer_ok rd rq model (availability_candidates auths) (names_binding s) r.1.1.
Proof.
  intros Hn1 Hn2 Hp Hm. unfold pickLCP. cbv zeta. set (ns := lcpAffinityNamespace _ _ _). destruct (_ || _); [done|].
  destruct (PrepareExt _) as [[[fps minp] tails] env]. destruct (_ || _); [done|]. set (md1 := _ <| md_environmentDigest := _ |>).
  destruct (getSelectorAvailableAuthsAcrossPriorities _ _ _ _ _) as [available|e] eqn:Ea.
  2: { intros [= <-]. cbn. left. pose proof (across_spec (ar_ctx rq) (availability_candidates auths) provider model (rd_now rd) Hn1 Hp) as Hx. by rewrite Ea in Hx. }
  destruct (highest_top rd rq provider model _ available Hn1 Hp Ea) as [Hav Htop].
  pose proof (match_named ns fps tails env minp (rd_match rd) (af_matcher s)) as Hmt.
  destruct (MatchFingerprintsWithContext _ _ _ _ _ _ _) as [m found]. cbn [snd] in Hmt.
  destruct (f ← found; (f,.) <$> find_auth (mt_AuthID f) available) as [[f a]|] eqn:Ef.
  { intros [= <-]. cbn [fst]. destruct found as [f0|]; [|done]. cbn in Ef. destruct (find_auth _ _) as [a0|] eqn:Efa; [|done]. injection Ef as -> ->.
    eapply hit_ok; [done|exact Efa|]. right. by apply Hmt. }
  set (preserved := match found with Some f => _ | None => _ end). clearbody preserved.
  pose proof (pick_top_ok rd rq provider model auths _ (af_fallback (s <| af_matcher := m |>)) (names_binding s) Hn2 Hp Htop) as Ho.
  destruct (fb_pick _ _ _ _ _ _) as [answer fb]. cbn [fst] in Ho. destruct answer as [[a|e|]|].
  - destruct (BindFingerprintsWithContext _ _ _ _ _ _ _ _) as [m2 res]. by intros [= <-].
  - by intros [= <-].
  - by intros [= <-].
  - done.
Qed.
Lemma tier_top rd rq model candidates l : best_tier (ar_ctx rq) model (rd_now rd) candidates l → top_of rd rq model candidates l.
Proof.
  intros Hb. split; [apply Hb|]. intros a. split; [by apply best_tier_choice|]. intros (H1 & H2 & H3). destruct Hb as (Hne & p & Hmax & Hp).
  destruct l as [|x l]; [done|]. assert (x ∈ List.filter (in_tier (ar_ctx rq) model (rd_now rd) p) candidates) as Hx by (rewrite <- Hp; left).
  apply list_elem_of_In, filter_In in Hx as [Hx1 Hx2]. apply list_elem_of_In in Hx1. unfold in_tier, eligible in Hx2. bprop.
  rewrite Hp. apply list_elem_of_In, filter_In. split; [by apply list_elem_of_In|]. unfold in_tier, eligible. rewrite H2. cbn.
  rewrite Forall_forall in Hmax. pose proof (Hmax a H1) as Hle. unfold eligible in Hle. rewrite H2 in Hle. specialize (Hle eq_refl).
  pose proof (H3 x Hx1 ltac:(done)). apply Z.eqb_eq. lia.
Qed.
Lemma pick_identified_ok rd rq provider model explicitID explicitFallbackID md auths s : 0 ≤ rd_now rd → 0 ≤ rd_pick rd →
  ctx_prevalidated (ar_ctx rq) = false → cache_ok (af_cache s) →
  answer_ok rd rq model (availability_candidates auths) (names_binding s) (pick_identified rd provider model rq explicitID explicitFallbackID md auths s).1.1.
Proof.
  intros Hn1 Hn2 Hp Hok. unfold pick_identified. destruct (if String.eqb explicitID "" then _ else _) as [[primaryID fallbackID] md1]. cbv zeta.
  destruct (String.eqb primaryID "").
  - pose proof (candidates_facts (ar_ctx rq) (availability_candidates auths) provider model (rd_now rd) Hn1) as Hc.
    unfold getSelectorAvailableAuths, getSelectorAvailableAuthsWithPriorityMode. rewrite Hp.
    assert (∀ (x : outcome select_error (list Auth)), match availability_candidates auths with [] => x | _ => x end = x) as -> by (by destruct (availability_candidates auths)).
    destruct (getAvailableAuthsWithPriorityModeForRequest _ _ _ _ _ _) as [l|e]; [|by left].
    pose proof (reselect_ok rd rq provider model auths l (fun _ s => s) s (names_binding s) Hn2 Hp (tier_top _ _ _ _ _ Hc)) as Ho.
    by destruct (reselect _ _ _ _ _ _ _).
  - destruct (getSelectorAvailableAuthsAcrossPriorities _ _ _ _ _) as [available|e] eqn:Ea.
    + match goal with |- context [pick_session rd provider model rq ?p ?f ?k ?a ?c ?v ?s] => pose proof (pick_session_ok rd rq provider model p f k a v s Hn1 Hn2 Hp Hok Ea) as Ho end.
      by destruct (pick_session _ _ _ _ _ _ _ _ _ _ _).
    + left. pose proof (across_spec (ar_ctx rq) (availability_candidates auths) provider model (rd_now rd) Hn1 Hp) as Hx. by rewrite Ea in Hx.
Qed.
(** C10 Whatever sessions are bound to what, a pick of the affinity selector is a usable
    credential of the candidates (those of positive weight under the weighted selector), of
    the best usable priority unless some conversation is bound to it; it fails only when no
    candidate is usable, or those of the best priority became unusable meanwhile, and never
    answers with nothing. *)
Theorem affinity_pick_sound rd provider model rq md auths s : 0 ≤ rd_now rd → 0 ≤ rd_pick rd → ctx_prevalidated (ar_ctx rq) = false →
  cache_ok (af_cache s) → well (af_matcher s) →
  answer_ok rd rq model (availability_candidates auths) (names_binding s) (Pick rd provider model rq md auths s).1.1.
Proof.
  intros Hn1 Hn2 Hp Hok Hm. unfold Pick. cbv zeta. destruct (extractExplicitSessionIDs _ _) as [[explicitID explicitFallbackID] md1].
  destruct (String.eqb explicitID ""); [|by apply pick_identified_ok].
  destruct (pickLCP _ _ _ _ _ _ _) as [r|] eqn:El; [by eapply pick_lcp_ok|by apply pick_identified_ok].
Qed.
End Sound.

(** ** A bound session stays *)

Section Sticky.
Context {S : Type} `{F : Fallback S, GP : GoParse, EB : ErrorBodies, H : Sha256}.
Implicit Types (s : affinity S) (rq : request) (md : metadata) (rd : readings).

(** What a cache is like that bindings can be added to. *)
Definition cache_fit (c : cache) (room : Z) : Prop :=
  cache_ok c ∧ cache_sized c ∧ maxStableSessionAliases + 1 ≤ c_maxEntries c ∧ c_bindingSequence c + room < 2 ^ 64.
Lemma session_key_some provider sessionID modelKey : session_key provider sessionID modelKey ≠ "".
Proof. unfold session_key. by destruct provider. Qed.
Lemma refresh_fit c key now n : cache_fit c (n + 1) → cache_fit (GetAndRefresh c key now).2 n ∧ c_ttl (GetAndRefresh c key now).2 = c_ttl c.
Proof.
  intros (H1 & H2 & H3 & H4). unfold GetAndRefresh.
  assert (∀ c', step_ok c c' → cache_fit c' n ∧ c_ttl c' = c_ttl c) as Hs.
  { intros c' (S1 & S2 & S3 & S4 & S5). split; [|done]. split_and!; [done|done|lia|lia]. }
  destruct (String.eqb key ""); [by apply Hs, step_same|]. destruct (c_entries c !! key) as [e|] eqn:E; [|by apply Hs, step_same].
  destruct (before now _); apply Hs; [by apply step_refresh|by apply (step_remove c H1 H2 key)].
Qed.
(** From now on the cache answers for [key] with [id], until the ttl is over. *)
Definition answers_until (c : cache) (key id : string) (until : time) : Prop :=
  ∀ t t', t ≤ t' → (Get c key t t').1 = if before t until then Some id else None.
Lemma bind_answers rd provider primaryID key rest auths id record s : cache_fit (af_cache s) 1 → key ≠ "" → id ≠ "" →
  answers_until (af_cache (bind_session rd provider primaryID (key :: rest) auths id record s)) key id (rd_bind rd + c_ttl (af_cache s)).
Proof.
  intros (H1 & H2 & H3 & H4) Hk Hid t t' Ht. unfold bind_session. cbn [af_cache set]. change (af_cache (s <| af_cache := ?c |>)) with c.
  destruct record; by apply set_answers.
Qed.
(** C9 A session with an identity of its own that is bound stays with its credential while
    that is usable for the model, whatever its priority and whatever the wrapped selector
    would pick, which is not asked; the binding starts its time anew.  When the credential
    is not usable, the session moves to the one picked instead, or, when bindings are only
    to move for quotas and this is a passing state, stays bound where it was. *)
Theorem session_is_sticky rd provider model rq md auths s primaryID fallbackID md1 id available :
  cache_fit (af_cache s) 2 →
  extractExplicitSessionIDs rq (md <| md_affinityProvider := Some provider |> <| md_affinityModel := Some model |>) = (primaryID, fallbackID, md1) →
  primaryID ≠ "" → id ≠ "" →
  let key := session_key provider (BoundSessionIdentity primaryID) (canonicalModelKey model) in
  (Get (af_cache s) key (rd_lookup rd) (rd_lookup rd)).1 = Some id →
  getSelectorAvailableAuthsAcrossPriorities (ar_ctx rq) (availability_candidates auths) provider model (rd_now rd) = Ok available →
  let '(answer, _, s') := Pick rd provider model rq md auths s in
  let until := rd_bind rd + c_ttl (af_cache s) in
  af_matcher s' = af_matcher s
  ∧ match find_auth id available with
    | Some a => answer = Some (Picked a) ∧ af_fallback s' = af_fallback s ∧ answers_until (af_cache s') key id until
    | None => ∀ a, answer = Some (Picked a) → a_ID a ≠ "" →
        answers_until (af_cache s') key
          (if shouldPreserveBindingWhenUnavailable s rq (availability_candidates auths) model id (rd_now rd) then id else a_ID a) until
    end.
Proof.
  intros Hfit Hx Hp Hid key Hget Hav. unfold Pick. cbv zeta. rewrite Hx, (proj2 (String.eqb_neq _ _) Hp). cbv iota beta.
  unfold pick_identified. rewrite (proj2 (String.eqb_neq _ _) Hp). cbv iota beta zeta. rewrite (proj2 (String.eqb_neq _ _) Hp), Hav.
  set (isFork := bool_decide _). set (fb := if String.eqb fallbackID "" then _ else _). unfold pick_session. cbv zeta. fold key.
  set (keys := key :: _). destruct (refresh_fit (af_cache s) key (rd_lookup rd) 1 Hfit) as [Hfit1 Httl].
  assert ((GetAndRefresh (af_cache s) key (rd_lookup rd)).1 = Some id) as Hg.
  { destruct Hfit as (Hok & _). rewrite get_answer in Hget by (done || lia). unfold GetAndRefresh. assert (String.eqb key "" = false) as -> by apply String.eqb_neq, session_key_some.
    destruct (c_entries (af_cache s) !! key) as [e|]; [|done]. by destruct (before _ _). }
  destruct (GetAndRefresh (af_cache s) key (rd_lookup rd)) as [cached c]. cbn [fst snd] in Hg, Hfit1, Httl. subst cached. set (s1 := s <| af_cache := c |>).
  rewrite <- Httl. destruct (find_auth id available) as [a|] eqn:Ef.
  - destruct (find_auth_spec _ _ _ Ef) as [_ Ha]. split; [done|]. split; [done|]. split; [done|]. rewrite Ha.
    apply (bind_answers rd provider _ key _ auths id true s1); [done|apply session_key_some|done].
  - unfold reselect. destruct (fb_pick _ _ _ _ _ _) as [answer f]. set (s2 := s1 <| af_fallback := f |>).
    change (shouldPreserveBindingWhenUnavailable s1 rq) with (shouldPreserveBindingWhenUnavailable s rq).
    change (shouldPreserveBindingWhenUnavailable s2 rq) with (shouldPreserveBindingWhenUnavailable s rq).
    destruct answer as [[a|e|]|]; [|by split..]. split; [by destruct (shouldPreserveBindingWhenUnavailable _ _ _ _ _ _)|].
    intros a' [= <-] Hne. destruct (shouldPreserveBindingWhenUnavailable _ _ _ _ _ _).
    + apply (bind_answers rd provider _ key _ auths id false s2); [done|apply session_key_some|done].
    + apply (bind_answers rd provider _ key _ auths (a_ID a) true s2); [done|apply session_key_some|done].
Qed.
End Sticky.

End AffinityProps.
