(* ===== verification/AffinityResults.v ===== *)
(** * Results and bindings: [OnResult] of the session-affinity selector

    Which results release the binding of a session, and that they release no other. *)
From S2P Require Import Prelude GoLib Weight AuthTypes Expiry Availability Selector Classify Scheduler SessionCache SessionProps SessionBindings LcpKeys LcpMatcher Affinity SessionIdentity.
Import AuthTypes Availability Classify SessionCache SessionProps SessionBindings.
Import Affinity SessionIdentity.
Import LcpMatcher (RemoveFingerprintsBefore).

Module AffinityResults.

(** ** Deleting bindings that are still there *)

Section Deletes.
Implicit Types (c : cache) (authID key : string).

Lemma delete_step c key authID a t t' : cache_ok c → cache_sized c → key ≠ "" → authID ≠ "" → t ≤ t' →
  (Get (CompareAndDelete c key authID).2 a t t').1
  = (x ← (Get c a t t').1; if String.eqb a key && String.eqb x authID then None else Some x).
Proof.
  intros Hok Hsz Hk Ha Ht. destruct (CompareAndDelete_spec c key authID a t t' Hok Hsz Hk Ha Ht) as [Hd ->].
  rewrite (get_answer c) by done. destruct (String.eqb a key) eqn:E; bprop; [subst a|by rewrite andb_false_r; destruct (c_entries c !! a); [destruct (before _ _)|]].
  rewrite andb_true_r. destruct (CompareAndDelete c key authID).1 eqn:Ed.
  - destruct (proj1 Hd eq_refl) as (e & -> & <-). destruct (before _ _); [|done]. cbn. by rewrite String.eqb_refl.
  - destruct (c_entries c !! key) as [e|] eqn:He; [|done]. destruct (before _ _); [|done]. cbn.
    destruct (String.eqb (en_authID e) authID) eqn:E; [|done]. bprop. discriminate (proj2 Hd (ex_intro _ e (conj eq_refl E))).
Qed.
Lemma delete_ok c key authID : cache_ok c → cache_sized c → cache_ok (CompareAndDelete c key authID).2 ∧ cache_sized (CompareAndDelete c key authID).2.
Proof.
  intros Hok Hsz. assert (step_ok c (CompareAndDelete c key authID).2) as (H1 & H2 & _); [|done].
  unfold CompareAndDelete. destruct (_ || _); [by apply step_same|]. destruct (c_entries c !! key) as [e|] eqn:E; [|by apply step_same].
  destruct (negb _); [by apply step_same|by apply step_leave].
Qed.
Lemma deletes_answer keys c authID a t t' : cache_ok c → cache_sized c → "" ∉ keys → authID ≠ "" → t ≤ t' →
  (Get (foldl (fun c key => (CompareAndDelete c key authID).2) c keys) a t t').1
  = (x ← (Get c a t t').1; if bool_decide (a ∈ keys) && String.eqb x authID then None else Some x).
Proof.
  intros Hok Hsz Hk Ha Ht. induction keys as [|key keys IH] in c, Hok, Hsz, Hk |- *; cbn [foldl].
  { rewrite bool_decide_false by set_solver. by destruct (Get c a t t').1. }
  destruct (delete_ok c key authID Hok Hsz) as [Hok' Hsz']. rewrite IH, delete_step; try done; try set_solver.
  destruct (Get c a t t').1 as [x|]; [|done]. cbn. destruct (String.eqb_spec a key) as [->|Hne]; cbn.
  - rewrite (bool_decide_true (key ∈ key :: keys)) by left. destruct (String.eqb x authID) eqn:E; cbn; [done|]. by rewrite E, andb_false_r.
  - rewrite (bool_decide_ext (a ∈ key :: keys) (a ∈ keys)); [done|]. rewrite elem_of_cons. tauto.
Qed.
End Deletes.

(** ** Which result says what *)

Section Results.
Context {S : Type} `{F : Fallback S, GP : GoParse, EB : ErrorBodies, H : Sha256}.
Implicit Types (s : affinity S) (rq : request) (md : metadata).

Lemma explicit_fields rq md p f md1 : extractExplicitSessionIDs rq md = (p, f, md1) →
  md_affinityProvider md1 = md_affinityProvider md ∧ md_affinityModel md1 = md_affinityModel md.
Proof.
  unfold extractExplicitSessionIDs. destruct (ar_info rq md) as [info|]; [|by intros [= <- <- <-]].
  destruct (String.eqb _ "lcp"); [by intros [= <- <- <-]|]. intros [= <- <- <-]. by destruct (si_IsFork info), (negb (String.eqb _ "")).
Qed.
(** A failure that says nothing about the binding. *)
Definition passing s (err : option Error) : bool :=
  shouldSkipCredentialCooldown err || (af_rebindOnQuotaOnly s && negb (shouldRebindSessionAffinityOnError err)).
Lemma lcp_keeps namespace success authID rq md now s :
  let s' := OnResult_lcp namespace success authID rq md now s in af_fallback s' = af_fallback s ∧ af_cache s' = af_cache s.
Proof.
  unfold OnResult_lcp. destruct (lcpFingerprintsFromMetadata md) as [fps minp].
  destruct (if bool_decide (fps = []) then _ else _) as [[[fps' minp'] tails] env]. destruct (_ || _); [done|]. destruct success; [done|].
  by destruct (RemoveFingerprintsBefore _ _ _ _ _ _).
Qed.
Lemma key_some ns id mdl : session_key ns id mdl ≠ "".
Proof. unfold session_key. by destruct ns. Qed.
(** The answers after a failure was charged to the bindings of some keys. *)
Lemma cache_released ns mdl p f authID now s : cache_ok (af_cache s) → cache_sized (af_cache s) → authID ≠ "" →
  let s' := OnResult_cache ns mdl p f false authID now s in
  af_fallback s' = af_fallback s ∧ af_matcher s' = af_matcher s
  ∧ ∃ keys : list string, (p ≠ "" → session_key ns (BoundSessionIdentity p) mdl ∈ keys) ∧ ∀ a t t', t ≤ t' →
      (Get (af_cache s') a t t').1 = (x ← (Get (af_cache s) a t t').1; if bool_decide (a ∈ keys) && String.eqb x authID then None else Some x).
Proof.
  intros Hok Hsz Ha. unfold OnResult_cache. destruct (String.eqb p "" && String.eqb f "") eqn:E; cbv zeta.
  { bprop. split; [done|]. split; [done|]. exists []. split; [done|]. intros a t t' _. rewrite bool_decide_false by set_solver. by destruct (Get _ _ _ _).1. }
  set (keys := _ :: _). split; [done|]. split; [done|]. exists keys. split.
  - intros Hp. unfold keys. rewrite (proj2 (String.eqb_neq _ _) Hp). left.
  - intros a t t' Ht. apply deletes_answer; try done. unfold keys. intros [E'|E']%elem_of_cons; [by apply (key_some _ _ _ (eq_sym E'))|].
    destruct (_ && _) in E'; [|set_solver]. apply list_elem_of_singleton in E'. by apply (key_some _ _ _ (eq_sym E')).
Qed.
Lemma release_cases (o : option string) (b : bool) authID :
  let o' := x ← o; if b && String.eqb x authID then None else Some x in o' = o ∨ o = Some authID ∧ o' = None.
Proof. destruct o as [x|], b; cbn; auto. destruct (String.eqb_spec x authID) as [->|]; auto. Qed.
(** C18 A failed request releases bindings only as the settings say and only its own: a
    failure of the request itself, and a passing one when bindings move for quotas only,
    change nothing; any other takes from the cache bindings to the credential that failed
    and no others; and it does take that of the session, which is the key the session was
    bound under, while conversations without an identity keep theirs. *)
Theorem failures_release_bindings authID provider model err rq md now s :
  (∀ b, String.length (sha256 b) = 32%nat) →
  cache_ok (af_cache s) → cache_sized (af_cache s) → authID ≠ "" →
  let s' := OnResult authID provider model false err rq md now s in
  let answer s key t t' := (Get (af_cache s) key t t').1 in
  af_fallback s' = af_fallback s
  ∧ (passing s err = true → s' = s)
  ∧ (∀ key t t', t ≤ t' → answer s' key t t' = answer s key t t' ∨ answer s key t t' = Some authID ∧ answer s' key t t' = None)
  ∧ ∀ primaryID fallbackID md1 provider' model', passing s err = false →
      extractExplicitSessionIDs rq md = (primaryID, fallbackID, md1) → primaryID ≠ "" →
      md_affinityProvider md = Some provider' → provider' ≠ "" → md_affinityModel md = Some model' → model' ≠ "" →
      af_matcher s' = af_matcher s
      ∧ ∀ t t', t ≤ t' →
          let key := session_key provider' (BoundSessionIdentity primaryID) (canonicalModelKey model') in
          answer s' key t t' = (x ← answer s key t t'; if String.eqb x authID then None else Some x).
Proof.
  intros Hlen Hok Hsz Ha. cbv zeta. unfold OnResult. rewrite (proj2 (String.eqb_neq _ _) Ha). unfold passing.
  destruct (extractExplicitSessionIDs rq md) as [[p f] md1] eqn:Ex. cbn [negb andb]. destruct (shouldSkipCredentialCooldown err); cbn [orb].
  { split; [done|]. split; [done|]. split; [by left|done]. }
  destruct (_ && _); [split; [done|]; split; [done|]; split; [by left|done]|].
  set (ns := match md_affinityProvider md1 with Some _ => _ | None => _ end). set (mdl := match md_affinityModel md1 with Some _ => _ | None => _ end).
  set (pid := if String.eqb p "" then "" else BoundSessionIdentity p). set (fid := if String.eqb pid "" || String.eqb f "" then f else BoundSessionIdentity f).
  set (s1 := if String.eqb pid "" && _ then _ else s).
  assert (af_fallback s1 = af_fallback s ∧ af_cache s1 = af_cache s) as [Hs1 Hs2] by (unfold s1; destruct (_ && _); [apply lcp_keeps|done]).
  destruct (String.eqb pid "" && bool_decide _) eqn:Elcp.
  { split; [done|]. split; [done|]. split; [intros; left; by rewrite Hs2|]. intros ? ? ? ? ? _ [= -> -> ->] Hp. apply andb_true_iff in Elcp as [Ep%String.eqb_eq _].
    unfold pid in Ep. rewrite (proj2 (String.eqb_neq _ _) Hp) in Ep. by apply bound_some in Ep. }
  destruct (if String.eqb pid "" then extractSessionIDs rq md1 else (pid, fid, md1)) as [[p2 f2] md2] eqn:E2.
  destruct (cache_released ns mdl p2 f2 authID now s1) as (Hc1 & Hc2 & keys & Hkey & Hc3); rewrite ?Hs2; [done..|]. rewrite Hs2 in Hc3.
  split; [by rewrite Hc1|]. split; [done|]. split.
  - intros key t t' Ht. rewrite Hc3 by done. apply release_cases.
  - intros ? ? ? provider' model' _ [= -> -> ->] Hp Hpr Hpr' Hmo Hmo'.
    assert (pid = BoundSessionIdentity primaryID) as Hpid by (unfold pid; by rewrite (proj2 (String.eqb_neq _ _) Hp)).
    assert (pid ≠ "") as Hpid' by (rewrite Hpid; by apply bound_some).
    assert (s1 = s) as E1 by (unfold s1; by rewrite (proj2 (String.eqb_neq _ _) Hpid')). split; [by rewrite Hc2, E1|]. intros t t' Ht.
    rewrite Hc3 by done. rewrite (proj2 (String.eqb_neq _ _) Hpid') in E2. injection E2 as <- _ _. specialize (Hkey Hpid').
    rewrite Hpid, bound_twice in Hkey by done. unfold ns, mdl in Hkey. destruct (explicit_fields _ _ _ _ _ Ex) as [Hf1 Hf2].
    rewrite Hf1, Hf2, Hpr, Hmo, (proj2 (String.eqb_neq _ _) Hpr'), (proj2 (String.eqb_neq _ _) Hmo') in Hkey. by rewrite bool_decide_true.
Qed.
End Results.

End AffinityResults.
