(* ===== verification/AffinityReturn.v ===== *)
(** * A conversation without an identity comes back

    The affinity selector over the prefix matcher: what [Pick] binds to the turns of a
    conversation, a later [Pick] finds again when the conversation has gone on. *)
From S2P Require Import Prelude GoLib Weight AuthTypes Expiry Availability Selector Classify Scheduler LcpKeys LcpMatcher LcpInv LcpSteps LcpBind LcpRemove LcpLongest LcpRuns LcpProps Affinity.
Import AuthTypes Availability Selector Classify Affinity.
Import LcpKeys LcpMatcher LcpInv LcpSteps LcpBind LcpRemove LcpLongest LcpRuns LcpProps.

Module AffinityReturn.

(** ** More turns *)

Section Turns.
Context `{H : Sha256}.
Lemma first_user_app i turns ext : first_user i turns ≠ 0 → first_user i (turns ++ ext) = first_user i turns.
Proof.
  revert i. induction turns as [|turn turns IH]; intros i Hi; [done|]. cbn in *. destruct (negb _); [done|by apply IH].
Qed.
Lemma fingerprints_app turns ext : (length (turns ++ ext) ≤ maxCanonicalTurns)%nat →
  turn_fingerprints (turns ++ ext) = turn_fingerprints turns ++ map FastTurnFingerprint ext.
Proof.
  intros Hl. unfold turn_fingerprints. rewrite !take_ge; [by rewrite map_app|rewrite length_app in Hl; lia|done].
Qed.
Lemma fingerprints_length turns : (length turns ≤ maxCanonicalTurns)%nat → length (turn_fingerprints turns) = length turns.
Proof. intros Hl. unfold turn_fingerprints. by rewrite length_map, take_ge. Qed.
Lemma told_promise is_system turns : (length turns ≤ maxCanonicalTurns)%nat → tells_role is_system turns →
  by_role is_system (turn_fingerprints turns) (minimumAffinityPrefixLength turns).
Proof. intros Hl Ht. unfold by_role, turn_fingerprints, minimumAffinityPrefixLength. rewrite take_ge by done. by apply first_user_from. Qed.
Lemma first_user_le i turns : 0 ≤ i → 0 ≤ first_user i turns ≤ i + Z.of_nat (length turns).
Proof.
  revert i. induction turns as [|turn turns IH]; intros i Hi; cbn [first_user length]; [lia|]. destruct (negb _); [lia|].
  specialize (IH (i + 1)). lia.
Qed.
End Turns.

Section Return.
Context {S : Type} `{F : Fallback S, GP : GoParse, EB : ErrorBodies, H : Sha256}.
Implicit Types (s : affinity S) (rq : request) (md : metadata) (rd : readings).

(** The request is without an identity of its own: the turns count, in the namespace [ns]. *)
Definition by_turns (provider model : string) rq md (ns : string) : Prop :=
  let r := extractExplicitSessionIDs rq (md <| md_affinityProvider := Some provider |> <| md_affinityModel := Some model |>) in
  r.1.1 = "" ∧ lcpAffinityNamespace provider model md = ns ∧ trim_space ns ≠ "".
Lemma explicit_scope rq md : let md' := (extractExplicitSessionIDs rq md).2 in
  md_callerScope md' = md_callerScope md ∧ md_lcpSessionID md' = md_lcpSessionID md.
Proof.
  unfold extractExplicitSessionIDs. destruct (ar_info rq md) as [info|]; [|done]. destruct (String.eqb _ "lcp"); [done|].
  by destruct (si_IsFork info), (negb (String.eqb (si_ParentSessionID info) "")).
Qed.
(** [Pick] then is [pickLCP]. *)
Lemma pick_by_turns rd provider model rq md auths s ns :
  by_turns provider model rq md ns → ∃ md1, lcpAffinityNamespace provider model md1 = ns ∧ md_lcpSessionID md1 = md_lcpSessionID md
    ∧ ∀ r, pickLCP rd provider model rq md1 auths s = Some r → Pick rd provider model rq md auths s = r.
Proof.
  intros (Hx & Hns & _). unfold Pick. cbv zeta in *. set (md0 := md <| md_affinityProvider := Some provider |> <| md_affinityModel := Some model |>) in *.
  pose proof (explicit_scope rq md0) as [Hs Hi]. destruct (extractExplicitSessionIDs rq md0) as [[p f] md1]. cbn [fst snd] in *. subst p. exists md1. split_and!.
  - unfold lcpAffinityNamespace in *. by rewrite Hs.
  - by rewrite Hi.
  - by intros r ->.
Qed.
(** The turns are enough to go by. *)
Definition enough (turns : list CanonicalTurn) : Prop := 0 < minimumAffinityPrefixLength turns ∧ (length turns ≤ maxCanonicalTurns)%nat.
Lemma enough_guard turns : enough turns → turns ≠ []
  ∧ bool_decide (turn_fingerprints turns = []) || (minimumAffinityPrefixLength turns <=? 0)
    || (Z.of_nat (length (turn_fingerprints turns)) <? minimumAffinityPrefixLength turns) = false.
Proof.
  intros [H1 H2]. pose proof (first_user_le 0 turns ltac:(lia)) as H3. fold (minimumAffinityPrefixLength turns) in H3.
  split; [intros ->; cbn in H1; lia|]. rewrite !orb_false_iff, bool_decide_eq_false, Z.leb_gt, Z.ltb_ge, fingerprints_length by done.
  split; [split; [|done]|lia]. intros E. apply (f_equal length) in E. rewrite fingerprints_length in E by done. cbn in E. lia.
Qed.
(** The match and the binding of a conversation of these turns. *)
Definition match_turns rd ns (turns : list CanonicalTurn) s :=
  MatchFingerprintsWithContext ns (turn_fingerprints turns) (tailFingerprints turns) (LcpKeys.EnvironmentDigest turns)
    (minimumAffinityPrefixLength turns) (rd_match rd) (af_matcher s).
Definition bind_turns rd ns (turns : list CanonicalTurn) (authID : string) (m : matcher) :=
  BindFingerprintsWithContext ns (turn_fingerprints turns) (tailFingerprints turns) (LcpKeys.EnvironmentDigest turns)
    (minimumAffinityPrefixLength turns) authID (rd_bind rd) m.
#[local] Opaque MatchFingerprintsWithContext BindFingerprintsWithContext turn_fingerprints minimumAffinityPrefixLength tailFingerprints LcpKeys.EnvironmentDigest getSelectorAvailableAuthsAcrossPriorities.
Lemma pick_binds rd provider model rq md auths s ns a md1 s1 :
  by_turns provider model rq md ns → enough (ar_turns rq) → (match_turns rd ns (ar_turns rq) s).2 = None →
  Pick rd provider model rq md auths s = (Some (Picked a), md1, s1) →
  let '(m, b) := bind_turns rd ns (ar_turns rq) (a_ID a) (match_turns rd ns (ar_turns rq) s).1 in
  af_matcher s1 = m ∧ af_cache s1 = af_cache s
  ∧ md_lcpSessionID md1 = if String.eqb (br_SessionID b) "" then md_lcpSessionID md else Some (br_SessionID b).
Proof.
  intros Hby He Hn Hp. destruct (pick_by_turns rd provider model rq md auths s ns Hby) as (md0 & Hns & Hid & Hpick).
  destruct (enough_guard _ He) as [Hne Hg]. destruct Hby as (_ & _ & Hnb). unfold bind_turns, match_turns in *.
  unfold pickLCP in Hpick. rewrite Hns in Hpick. unfold PrepareExt in Hpick. cbv zeta beta iota in Hpick.
  assert (String.eqb ns "" = false) as En by (apply String.eqb_neq; by intros ->).
  rewrite En, (bool_decide_false (ar_turns rq = [])), Hg in Hpick by done. cbn [orb] in Hpick.
  destruct (getSelectorAvailableAuthsAcrossPriorities _ _ _ _ _) as [available|e]; [|rewrite (Hpick _ eq_refl) in Hp; discriminate Hp].
  destruct (MatchFingerprintsWithContext _ _ _ _ _ _ _) as [m found]. cbn [fst snd] in Hn |- *. subst found. cbn [mbind option_bind] in Hpick.
  destruct (fb_pick _ _ _ _ _ _) as [[[x|e|]|] f]; cbn [String.eqb] in Hpick; [|rewrite (Hpick _ eq_refl) in Hp; discriminate Hp..].
  change (af_matcher (s <| af_matcher := m |> <| af_fallback := f |>)) with m in Hpick.
  destruct (BindFingerprintsWithContext ns _ _ _ _ (a_ID x) _ m) as [m' b] eqn:Eb. specialize (Hpick _ eq_refl). rewrite Hp in Hpick.
  injection Hpick as -> -> ->. rewrite Eb. split; [done|]. split; [done|]. unfold lcp_bound. destruct (String.eqb (br_SessionID b) "") eqn:Es; [by rewrite <- Hid|].
  unfold mark_node, mark_lcp. rewrite Es. by destruct (_ && _), (br_IsCompaction b), (0 <? _).
Qed.
Lemma pick_hits rd provider model rq md auths s ns available f a :
  by_turns provider model rq md ns → enough (ar_turns rq) →
  getSelectorAvailableAuthsAcrossPriorities (ar_ctx rq) (availability_candidates auths) provider model (rd_now rd) = Ok available →
  (match_turns rd ns (ar_turns rq) s).2 = Some f → find_auth (mt_AuthID f) available = Some a →
  let '(answer, md1, s1) := Pick rd provider model rq md auths s in
  answer = Some (Picked a) ∧ af_fallback s1 = af_fallback s ∧ af_cache s1 = af_cache s
  ∧ md_lcpSessionID md1 = if String.eqb (mt_SessionID f) "" then md_lcpSessionID md else Some (mt_SessionID f).
Proof.
  intros Hby He Hav Hn Hf. destruct (pick_by_turns rd provider model rq md auths s ns Hby) as (md0 & Hns & Hid & Hpick).
  destruct (enough_guard _ He) as [Hne Hg]. destruct Hby as (_ & _ & Hnb). unfold match_turns in *.
  unfold pickLCP in Hpick. rewrite Hns in Hpick. unfold PrepareExt in Hpick. cbv zeta beta iota in Hpick.
  assert (String.eqb ns "" = false) as En by (apply String.eqb_neq; by intros ->).
  rewrite En, (bool_decide_false (ar_turns rq = [])), Hg, Hav in Hpick by done. cbn [orb] in Hpick.
  destruct (MatchFingerprintsWithContext _ _ _ _ _ _ _) as [m found]. cbn [fst snd] in Hn. subst found. cbn [mbind option_bind] in Hpick.
  rewrite Hf in Hpick. cbn [fmap option_fmap option_map] in Hpick. rewrite (Hpick _ eq_refl). split; [done|]. split; [done|]. split; [done|].
  unfold lcp_hit, mark_node, mark_lcp. destruct (String.eqb (mt_SessionID f) ""); [rewrite <- Hid|]; by destruct (mt_IsFork f), (mt_IsCompaction f), (0 <? _).
Qed.
#[local] Transparent MatchFingerprintsWithContext BindFingerprintsWithContext turn_fingerprints minimumAffinityPrefixLength tailFingerprints LcpKeys.EnvironmentDigest getSelectorAvailableAuthsAcrossPriorities.
Lemma match_kept `{P : Promise} rd ns turns s : well (af_matcher s) → let m := (match_turns rd ns turns s).1 in well m ∧ kept (af_matcher s) m.
Proof.
  intros Hm. cbv zeta. destruct (Match_ok ns (turn_fingerprints turns) (tailFingerprints turns) (LcpKeys.EnvironmentDigest turns)
    (minimumAffinityPrefixLength turns) (rd_match rd) (af_matcher s) Hm) as [E|[Hb _]]; unfold match_turns; [by rewrite E|].
  pose proof (prepare_ok (rd_match rd) (af_matcher s) Hm) as Hp. split; [eapply benign_well; [exact Hb|apply Hp]|].
  etransitivity; [by eapply prepared_kept|by apply benign_kept].
Qed.
Lemma only_group_kept m m' ns fps : kept m m' → only_group m ns fps → only_group m' ns fps.
Proof.
  intros [_ K] Ho key g gr Hat Hd Ht. apply K in Hat as [Hat E]. rewrite Hd in E. destruct (deref m g) as [gr0|] eqn:E0; [|done].
  apply (inj Some) in E. injection E as _ _ E _ _ _. rewrite E in Ht |- *. by eapply Ho.
Qed.
(** C17 A conversation that names no session comes back to its credential: the one [Pick]
    gave it when its turns matched nothing, a later [Pick] with those turns and any more
    gives again, from the matcher, without asking the wrapped selector and with the session
    of the first, while the credential is usable and within the ttl, when no group of the
    namespace begins with its turns and hashes do not collide. *)
Theorem conversation_is_sticky is_system rd rd' provider model rq rq' md md' auths auths' s ns ext a md1 s1 available a' :
  let fps := turn_fingerprints (ar_turns rq) in
  well (P := by_role is_system) (af_matcher s) →
  by_turns provider model rq md ns → by_turns provider model rq' md' ns →
  ar_turns rq' = ar_turns rq ++ ext → enough (ar_turns rq) → tells_role is_system (ar_turns rq') →
  (length (ar_turns rq') ≤ maxCanonicalTurns)%nat → Z.of_nat (length (ar_turns rq')) ≤ m_maxTurns (af_matcher s) →
  only_group (af_matcher s) ns fps →
  md_lcpSessionID md' = md_lcpSessionID md →
  (∀ g gr, group_at (af_matcher s) ns (sequenceKey fps) g → deref (af_matcher s) g = Some gr → lg_fingerprints gr = fps) →
  (match_turns rd ns (ar_turns rq) s).2 = None →
  Pick rd provider model rq md auths s = (Some (Picked a), md1, s1) → trim_space (a_ID a) ≠ "" →
  before (rd_match rd') (rd_bind rd + m_ttl (af_matcher s)) = true →
  getSelectorAvailableAuthsAcrossPriorities (ar_ctx rq') (availability_candidates auths') provider model (rd_now rd') = Ok available →
  find_auth (trim_space (a_ID a)) available = Some a' →
  let '(answer, md2, s2) := Pick rd' provider model rq' md' auths' s1 in
  answer = Some (Picked a') ∧ af_fallback s2 = af_fallback s1 ∧ af_cache s2 = af_cache s ∧ md_lcpSessionID md2 = md_lcpSessionID md1.
Proof.
  intros fps Hm Hby Hby' Hturns Hen Htell Hl Hmax Ho Hid Hcol Hnone Hpick Ha Hb Hav Hf.
  pose proof (pick_binds _ _ _ _ _ _ _ _ _ _ _ Hby Hen Hnone Hpick) as Hbind. destruct (match_kept (P := by_role is_system) rd ns (ar_turns rq) s Hm) as [Hm0 Hk].
  set (m0 := (match_turns rd ns (ar_turns rq) s).1) in *. set (minp := minimumAffinityPrefixLength (ar_turns rq)) in *.
  pose proof Hen as [Hmin Hlen]. pose proof (kp_config _ _ Hk) as Hc. assert (m_ttl m0 = m_ttl (af_matcher s) ∧ m_maxTurns m0 = m_maxTurns (af_matcher s)) as [Httl Hturn] by (by injection Hc).
  pose proof (fingerprints_app (ar_turns rq) ext ltac:(by rewrite <- Hturns)) as Hfp. rewrite <- Hturns in Hfp. fold fps in Hfp.
  assert (minimumAffinityPrefixLength (ar_turns rq') = minp) as Hmin' by (rewrite Hturns; unfold minimumAffinityPrefixLength, minp in *; apply first_user_app; lia).
  assert (length fps = length (ar_turns rq)) as Hfl by (by apply fingerprints_length).
  assert (length (ar_turns rq') = (length (ar_turns rq) + length ext)%nat) as Hl' by (by rewrite Hturns, length_app).
  pose proof (first_user_le 0 (ar_turns rq) ltac:(lia)) as Hle. change (first_user 0 (ar_turns rq)) with minp in Hle.
  pose proof (conversation_returns (P := by_role is_system) m0 ns fps fps (tailFingerprints (ar_turns rq)) (LcpKeys.EnvironmentDigest (ar_turns rq)) minp (a_ID a) (rd_bind rd)
    (map FastTurnFingerprint ext) (tailFingerprints (ar_turns rq')) (LcpKeys.EnvironmentDigest (ar_turns rq')) (rd_match rd')) as Hret.
  rewrite <- Hfp, Httl, Hturn in Hret. unfold bind_turns in Hbind. fold fps minp in Hbind.
  destruct (BindFingerprintsWithContext _ _ _ _ _ _ _ _) as [m b]. destruct Hbind as (Hs1 & Hs2 & Hs3).
  assert (sanitizeFingerprints m0 fps minp = Some (fps, minp)) as Hsan by (apply sanitize_fits; [apply Hm0|lia|lia]).
  destruct Hret as (f & Hf1 & Hf2 & Hf3 & _); try done.
  - intros ? ? E. rewrite Hsan in E. injection E as <- <-. split.
    + apply told_promise; [done|]. intros t Ht. apply Htell. rewrite Hturns. apply elem_of_app. by left.
    + intros g gr Hat Hd. destruct Hk as [_ K]. apply K in Hat as [Hat E]. rewrite Hd in E. destruct (deref (af_matcher s) g) as [gr0|] eqn:E0; [|done].
      apply (inj Some) in E. injection E as _ _ E _ _ _. rewrite E. by eapply Hcol.
  - by destruct Hby as (_ & _ & ?).
  - by eapply only_group_kept.
  - rewrite fingerprints_length by done. lia.
  - rewrite <- Hmin'. by apply told_promise.
  - assert (enough (ar_turns rq')) as Hen' by (split; [by rewrite Hmin'|done]).
    pose proof (pick_hits rd' provider model rq' md' auths' s1 ns available f a' Hby' Hen' Hav) as Hhit. unfold match_turns in Hhit. rewrite Hs1, Hmin' in Hhit.
    specialize (Hhit Hf1). rewrite Hf2 in Hhit. specialize (Hhit Hf). destruct (Pick rd' provider model rq' md' auths' s1) as [[answer md2] s2].
    destruct Hhit as (H1 & H2 & H3 & H4). split_and!; [done|done|by rewrite H3|]. by rewrite H4, Hs3, Hf3, Hid.
Qed.
End Return.

End AffinityReturn.
