(* ===== verification/AffinityDemo.v ===== *)
(** * The session-affinity selector on small sessions

    The properties of the affinity selector at concrete requests: two credentials of which
    the wrapped selector always picks the first, and a hash of 32 bytes. *)
From S2P Require Import Prelude GoLib Utf8 AuthTypes Availability Selector Classify SessionCache SessionProps SessionBindings LcpKeys LcpMatcher LcpInv LcpSteps LcpBind LcpRemove LcpLongest LcpRuns LcpProps Affinity SessionIdentity AffinityProps AffinityResults AffinityReturn.
Import AuthTypes Availability Selector Classify SessionCache SessionProps SessionBindings Affinity SessionIdentity AffinityProps AffinityResults AffinityReturn.
Import LcpKeys LcpMatcher LcpInv LcpSteps LcpBind LcpRemove LcpLongest LcpRuns LcpProps.

Module AffinityDemo.

#[local] Existing Instance no_parse.
#[local] Existing Instance no_bodies.
(** The first 32 bytes. *)
#[local] Instance first_bytes : Sha256 := fun s => String.substring 0 32 (s +:+ zeros 32).
Lemma first_bytes_length s : String.length (sha256 s) = 32%nat.
Proof.
  assert (∀ n t u, String.length u = n → String.length (String.substring 0 n (t +:+ u)) = n) as Hs; [|by apply (Hs 32%nat s (zeros 32))].
  assert (∀ n t, (n ≤ String.length t)%nat → String.length (String.substring 0 n t) = n) as Hn.
  { induction n as [|n IH]; intros [|c t] Hl; cbn in *; [done..|lia|]. rewrite IH; lia. }
  intros n t u Hu. apply Hn. rewrite length_append. lia.
Qed.

Definition no_marks : metadata :=
  {| md_affinityProvider := None; md_affinityModel := None; md_callerScope := Some "caller"; md_canonicalSessionID := None;
     md_parentSessionID := None; md_lcpSessionID := None; md_lcpGeneration := None; md_isFork := None; md_isCompaction := None;
     md_nodeKind := None; md_fingerprints := None; md_minPrefixLength := None; md_tailFingerprints := None; md_environmentDigest := None |}.
Definition at_time (t : time) : readings :=
  {| rd_now := t; rd_lookup := t; rd_guardian := t; rd_get := t; rd_get' := t; rd_match := t; rd_pick := t; rd_bind := t |}.
Definition named (session : string) : request :=
  {| ar_ctx := background; ar_transient := ∅; ar_headers := []; ar_payload := true;
     ar_info := fun _ => Some {| si_SessionID := session; si_ParentSessionID := ""; si_IsFork := false; si_ClientType := "claude" |};
     ar_conversation := ""; ar_derived := ""; ar_messages := ("", ""); ar_turns := [] |}.
Definition unnamed (turns : list CanonicalTurn) : request :=
  {| ar_ctx := background; ar_transient := ∅; ar_headers := []; ar_payload := true; ar_info := fun _ => None;
     ar_conversation := ""; ar_derived := ""; ar_messages := ("", ""); ar_turns := turns |}.

Definition alpha : Auth := (new_auth "alpha") <| a_Provider := "claude" |>.
Definition beta : Auth := (new_auth "beta") <| a_Provider := "claude" |>.
Definition fresh : affinity unit := NewSessionAffinitySelector tt.
(** The session was bound when there was only [beta]. *)
Definition held : affinity unit := (Pick (at_time 10) "claude" "m" (named "claude:s") no_marks [beta] fresh).2.
Definition held_key : string := session_key "claude" "claude:s" "m".

Definition held_cache : cache := (GetAndRefresh (NewSessionCache hour) held_key 10).2.
Lemma held_is : af_cache held = setSessionAliases held_cache "beta" "claude" "claude:s" [held_key] 10.
Proof. vm_compute. reflexivity. Qed.

Lemma held_fit : cache_ok (af_cache held) ∧ cache_sized (af_cache held).
Proof.
  rewrite held_is. pose proof (new_ok hour defaultMaxSessionEntries) as [H1 H2].
  destruct (exec_ok [op_GetAndRefresh held_key 10; op_setSessionAliases "beta" "claude" "claude:s" [held_key] 10] _ H1 H2) as (H3 & H4 & _); [vm_compute; reflexivity|].
  done.
Qed.

#[local] Instance nobody_promise : Promise := by_role (fun _ => false).
Lemma held_well : well (af_matcher held).
Proof. exact (new_well hour 0 0 0). Qed.
Lemma pick_sound_witness : answer_ok (at_time 20) (named "claude:s") "m" (availability_candidates [alpha; beta]) (names_binding held)
  (Pick (at_time 20) "claude" "m" (named "claude:s") no_marks [alpha; beta] held).1.1.
Proof. apply (affinity_pick_sound (at_time 20) "claude" "m" (named "claude:s") no_marks [alpha; beta] held); [by vm_compute|by vm_compute|done|apply held_fit|apply held_well]. Defined.

(** What the session picks, and what it would without the binding. *)
Example held_pick : a_ID <$> (match (Pick (at_time 20) "claude" "m" (named "claude:s") no_marks [alpha; beta] held).1.1 with Some (Picked a) => Some a | _ => None end) = Some "beta"
  ∧ a_ID <$> (match (Pick (at_time 20) "claude" "m" (named "claude:t") no_marks [alpha; beta] held).1.1 with Some (Picked a) => Some a | _ => None end) = Some "alpha".
Proof. vm_compute. done. Qed.

Definition marked : metadata := no_marks <| md_affinityProvider := Some "claude" |> <| md_affinityModel := Some "m" |>.
Lemma session_sticky_witness : let '(answer, _, s') := Pick (at_time 20) "claude" "m" (named "claude:s") no_marks [alpha; beta] held in
  answer = Some (Picked beta) ∧ answers_until (af_cache s') held_key "beta" (20 + hour).
Proof.
  assert (cache_fit (af_cache held) 2) as H1 by (split_and!; [apply held_fit|apply held_fit|vm_compute; discriminate|by vm_compute]).
  assert (extractExplicitSessionIDs (named "claude:s") marked = ("claude:s", "", marked)) as H2 by reflexivity.
  assert ((Get (af_cache held) (session_key "claude" (BoundSessionIdentity "claude:s") (canonicalModelKey "m")) 20 20).1 = Some "beta") as H3 by (vm_compute; reflexivity).
  assert (getSelectorAvailableAuthsAcrossPriorities background (availability_candidates [alpha; beta]) "claude" "m" 20 = Ok [alpha; beta]) as H4 by (vm_compute; reflexivity).
  assert ("claude:s" ≠ "" ∧ "beta" ≠ "") as [N1 N2] by (split; discriminate).
  pose proof (session_is_sticky (at_time 20) "claude" "m" (named "claude:s") no_marks [alpha; beta] held "claude:s" "" marked "beta" [alpha; beta] H1 H2 N1 N2 H3 H4) as Hs.
  destruct (Pick _ _ _ _ _ _ _) as [[answer md] s']. destruct Hs as [_ H]. change (find_auth "beta" [alpha; beta]) with (Some beta) in H.
  destruct H as (A1 & _ & A2). split; [exact A1|exact A2].
Defined.

Lemma identity_witness : strlen (BoundSessionIdentity "claude:s") ≤ 256.
Proof. exact (proj1 (identity_is_bounded first_bytes_length "claude:s" "claude:t")). Defined.

(** A failure that is charged to the credential. *)
Definition unauthorized : Error := {| err_Code := ""; err_Message := "unauthorized"; err_Retryable := false; err_HTTPStatus := 401 |}.
Lemma released_witness : let answer s := (Get (af_cache s) held_key 40 40).1 in
  answer held = Some "beta" ∧ answer (OnResult "beta" "claude" "m" false (Some unauthorized) (named "claude:s") marked 30 held) = None.
Proof.
  destruct held_fit as [F1 F2]. assert ("beta" ≠ "" ∧ "claude:s" ≠ "" ∧ "claude" ≠ "" ∧ "m" ≠ "") as (N1 & N2 & N3 & N4) by (split_and!; discriminate).
  destruct (failures_release_bindings "beta" "claude" "m" (Some unauthorized) (named "claude:s") marked 30 held first_bytes_length F1 F2 N1) as (_ & _ & _ & H).
  assert (passing held (Some unauthorized) = false) as P by (vm_compute; reflexivity).
  destruct (H "claude:s" "" marked "claude" "m" P eq_refl N2 eq_refl N3 eq_refl N4) as [_ A]. specialize (A 40 40 (Z.le_refl 40)).
  assert ((Get (af_cache held) held_key 40 40).1 = Some "beta") as G by (vm_compute; reflexivity). split; [exact G|].
  change (session_key "claude" (BoundSessionIdentity "claude:s") (canonicalModelKey "m")) with held_key in A. cbv zeta in A |- *. rewrite A, G. reflexivity.
Defined.

(** A conversation that names no session. *)
Definition turn (role : string) : CanonicalTurn :=
  {| ct_Role := role; ct_Parts := [{| cp_Kind := "text"; cp_MIME := ""; cp_Value := "hi"; cp_Digest := ""; cp_OriginalSize := 2; cp_Sampled := false |}] |}.
Definition begun : list CanonicalTurn := [turn "system"; turn "user"].
Definition gone_on : list CanonicalTurn := begun ++ [turn "assistant"; turn "user"].
Definition role_of (f : string) : bool := String.eqb f (FastTurnFingerprint (turn "system")).
(** It began when there was only [beta]. *)
Definition first_pick := Pick (at_time 10) "claude" "m" (unnamed begun) no_marks [beta] fresh.
Definition begun_state : affinity unit := first_pick.2.
Definition ns : string := lcpAffinityNamespace "claude" "m" no_marks.
Lemma none_known key g : ¬ group_at (af_matcher fresh) ns key g.
Proof. unfold group_at. intros H. vm_compute in H. discriminate H. Qed.
Lemma conversation_sticky_witness : let '(answer, md, _) := Pick (at_time 20) "claude" "m" (unnamed gone_on) no_marks [alpha; beta] begun_state in
  answer = Some (Picked beta) ∧ md_lcpSessionID md = md_lcpSessionID first_pick.1.2.
Proof.
  assert (well (P := by_role role_of) (af_matcher fresh)) as H1 by exact (new_well hour 0 0 0).
  assert (by_turns "claude" "m" (unnamed begun) no_marks ns ∧ by_turns "claude" "m" (unnamed gone_on) no_marks ns) as [H2 H3]
    by (split; (split_and!; [reflexivity|reflexivity|vm_compute; discriminate])).
  assert (enough begun) as H4 by (split; [vm_compute; reflexivity|cbn; unfold maxCanonicalTurns; lia]).
  assert (tells_role role_of gone_on) as H5.
  { intros t Ht. unfold gone_on, begun in Ht. cbn [app] in Ht. repeat (apply elem_of_cons in Ht as [->|Ht]; [vm_compute; reflexivity|]). by apply not_elem_of_nil in Ht. }
  assert ((length gone_on ≤ maxCanonicalTurns)%nat ∧ Z.of_nat (length gone_on) ≤ m_maxTurns (af_matcher fresh)) as [H6 H7] by (split; [cbn; unfold maxCanonicalTurns; lia|vm_compute; discriminate]).
  assert (only_group (af_matcher fresh) ns (turn_fingerprints begun)) as H8 by (intros key g gr Hat; by apply none_known in Hat).
  assert (∀ g gr, group_at (af_matcher fresh) ns (sequenceKey (turn_fingerprints begun)) g → deref (af_matcher fresh) g = Some gr → lg_fingerprints gr = turn_fingerprints begun)
    as H9 by (intros g gr Hat; by apply none_known in Hat).
  assert ((match_turns (at_time 10) ns begun fresh).2 = None) as H10 by (vm_compute; reflexivity).
  assert (first_pick = (Some (Picked beta), first_pick.1.2, begun_state)) as H11 by (vm_compute; reflexivity).
  assert (trim_space (a_ID beta) ≠ "" ∧ before 20 (10 + m_ttl (af_matcher fresh)) = true) as [H12 H13] by (split; [vm_compute; discriminate|vm_compute; reflexivity]).
  assert (getSelectorAvailableAuthsAcrossPriorities background (availability_candidates [alpha; beta]) "claude" "m" 20 = Ok [alpha; beta]) as H14 by (vm_compute; reflexivity).
  assert (find_auth (trim_space (a_ID beta)) [alpha; beta] = Some beta) as H15 by (vm_compute; reflexivity).
  pose proof (conversation_is_sticky role_of (at_time 10) (at_time 20) "claude" "m" (unnamed begun) (unnamed gone_on) no_marks no_marks [beta] [alpha; beta] fresh ns
    [turn "assistant"; turn "user"] beta first_pick.1.2 begun_state [alpha; beta] beta H1 H2 H3 eq_refl H4 H5 H6 H7 H8 eq_refl H9 H10 H11 H12 H13 H14 H15) as Hs.
  destruct (Pick _ _ _ _ _ _ _) as [[answer md] s']. destruct Hs as (A1 & _ & _ & A2). split; [exact A1|exact A2].
Defined.

End AffinityDemo.
