(* ===== verification/HomeHistory.v ===== *)
(** * The names of a session over histories

    Requests of all sessions arrive one after the other at one cache of names, as
    [homeDispatchSessionIDs] of sdk/cliproxy/auth/home_session_alias.go takes them.
    [HomeAliasRuns] is about the calls of the cache: the session's own move its group to the
    end of the order with all its names, those of others pass it by, and the limit spares it
    while few names, or few groups behind it, are kept.  [HomeHistory] is about dispatches:
    what a history must be like for a session to keep its name is a program, [undisturbed].
    [HomeIdentityDemo] has small histories. *)
From S2P Require Import Prelude GoLib AuthTypes Availability Selector Classify SessionCache SessionProps LcpKeys LcpMatcher Affinity AffinityDemo HomeAlias HomeAliasProps HomeIdentity.

Module HomeAliasRuns.
Import SessionCache (mergeSessionAliases, compactHomeSessionAliases, compactSessionAliasesWith, compact_step, maxStableSessionAliases, isHomePromptCacheAlias).
Import SessionProps (merge_spec, compact_spec).
Import HomeAlias HomeAliasProps.
Implicit Types (c : homeSessionAliasCache) (e g : homeSessionAliasEntry) (I K U : gset string) (a k n : string).

(** ** Lists that compaction keeps whole *)

Definition plain_count (l : list string) : Z := Z.of_nat (length (List.filter (fun a => negb (isHomePromptCacheAlias a)) l)).
Definition prompt_count (l : list string) : Z := Z.of_nat (length (List.filter isHomePromptCacheAlias l)).
(** The names of one session: at most 64, and one prompt-cache key. *)
Definition fits I : bool := (plain_count (elements I) <=? maxStableSessionAliases) && (prompt_count (elements I) <=? 1).
Lemma compact_whole l compacted (pck : bool) stable :
  stable + plain_count l ≤ maxStableSessionAliases → (if pck then 1 else 0) + prompt_count l ≤ 1 →
  (foldl (compact_step isHomePromptCacheAlias) (compacted, pck, stable) l).1.1 = compacted ++ l.
Proof.
  unfold plain_count, prompt_count. revert compacted pck stable. induction l as [|x l IH]; intros compacted pck stable Hs Hp; cbn [foldl]; [by rewrite app_nil_r|].
  cbn [List.filter] in Hs, Hp. unfold compact_step at 2. destruct (isHomePromptCacheAlias x) eqn:Ex; cbn [negb length] in Hs, Hp.
  - destruct pck; [lia|]. rewrite IH by lia. by rewrite <- app_assoc.
  - rewrite (proj2 (Z.leb_gt maxStableSessionAliases stable)) by lia. rewrite IH by lia. by rewrite <- app_assoc.
Qed.
Lemma filter_within (f : string → bool) l I : NoDup l → (∀ a, a ∈ l → a ∈ I) → (length (List.filter f l) ≤ length (List.filter f (elements I)))%nat.
Proof.
  intros Hn Hl. apply NoDup_incl_length; [by apply List.NoDup_filter, NoDup_ListNoDup|].
  intros a. rewrite !filter_In, <- !list_elem_of_In. intros [Ha ?]. split; [by apply elem_of_elements, Hl|done].
Qed.
Lemma fits_whole I l : fits I = true → NoDup l → (∀ a, a ∈ l → a ∈ I) → compactHomeSessionAliases l = l.
Proof.
  intros Hf Hn Hl. unfold fits in Hf. bprop. unfold compactHomeSessionAliases, compactSessionAliasesWith.
  pose proof (filter_within (fun a => negb (isHomePromptCacheAlias a)) l I Hn Hl). pose proof (filter_within isHomePromptCacheAlias l I Hn Hl).
  unfold plain_count, prompt_count, maxStableSessionAliases in *. apply (compact_whole l [] false 0); unfold plain_count, prompt_count, maxStableSessionAliases; lia.
Qed.

(** ** Groups behind a group *)

Definition group_limit : Z := maxStableSessionAliases + 1.
(** How many of the order come after the first of that name. *)
Fixpoint behind k (order : list (nat * string)) : Z :=
  match order with
  | [] => 0
  | (_, k') :: rest => if String.eqb k' k then Z.of_nat (length rest) else behind k rest
  end.
Lemma behind_length k order : 0 ≤ behind k order ∧ ((∃ h, (h, k) ∈ order) → behind k order < Z.of_nat (length order)).
Proof.
  induction order as [|[h k'] order [IH1 IH2]]; cbn -[Z.of_nat]; [split; [done|]; by intros [h ?%not_elem_of_nil]|].
  destruct (String.eqb_spec k' k) as [->|Hne]; [lia|]. split; [done|]. intros [h' [[= <- <-]|Hin]%elem_of_cons]; [done|].
  assert (∃ h, (h, k) ∈ order) as H by eauto. specialize (IH2 H). lia.
Qed.
Lemma behind_sublist k order order' : order' `sublist_of` order → (∃ h, (h, k) ∈ order') → behind k order' ≤ behind k order.
Proof.
  induction 1 as [|[h k'] order' order Hs IH|[h k'] order' order Hs IH]; intros Hin; cbn -[Z.of_nat]; [done| |].
  - destruct (String.eqb_spec k' k) as [->|Hne]; [apply sublist_length in Hs; lia|]. apply IH. destruct Hin as [h' [[= <- <-]|Hin]%elem_of_cons]; [done|eauto].
  - destruct (String.eqb_spec k' k) as [->|Hne]; [|by apply IH]. apply sublist_length in Hs. destruct (behind_length k order') as [_ Hb]. specialize (Hb Hin). lia.
Qed.
Lemma behind_snoc k order h k' : (∃ h, (h, k) ∈ order) → behind k (order ++ [(h, k')]) = behind k order + 1.
Proof.
  intros Hin. induction order as [|[h0 k0] order IH]; [by destruct Hin as [? ?%not_elem_of_nil]|]. cbn -[Z.of_nat].
  destruct (String.eqb_spec k0 k) as [->|Hne]; [rewrite length_app; cbn -[Z.of_nat]; lia|]. apply IH. destruct Hin as [h' [[= <- <-]|Hin]%elem_of_cons]; [done|eauto].
Qed.
Lemma behind_last k order h : (∀ h', (h', k) ∉ order) → behind k (order ++ [(h, k)]) = 0.
Proof.
  intros Hn. induction order as [|[h0 k0] order IH]; cbn; [by rewrite String.eqb_refl|]. destruct (String.eqb_spec k0 k) as [->|Hne]; [exfalso; apply (Hn h0); by left|].
  apply IH. intros h' Hin. apply (Hn h'). by right.
Qed.
Lemma group_ordered c k g : alias_ok c → hc_groups c !! k = Some g → ∃ h, (h, k) ∈ hc_order c.
Proof. intros Hc Hg. destruct (listed_group c k g Hc Hg) as [h Hh]. exists h. by apply (al_elem c Hc). Qed.

(** ** Caches of few names *)

(** Groups are small, and all names are of [U]. *)
Record sound U c : Prop := {
  so_ok : alias_ok c;
  so_small : ∀ k g, hc_groups c !! k = Some g → Z.of_nat (length (he_aliases g)) ≤ group_limit;
  so_within : ∀ k g, hc_groups c !! k = Some g → k ∈ U ∧ ∀ a, a ∈ he_aliases g → a ∈ U;
}.
Lemma without_sound U P c c' : sound U c → without P c c' → sound U c'.
Proof. intros [H1 H2 H3] [Hok Hg _ _]. split; [done| |]; intros k g [Hk _]%Hg; eauto. Qed.
Lemma pruned_sound U now c c' : sound U c → pruned now c c' → sound U c'.
Proof. intros Hs (P & _ & Hw). by eapply without_sound. Qed.
Lemma sound_size U c : sound U c → (size (hc_entries c) ≤ size U)%nat.
Proof.
  intros [Hc _ Hw]. rewrite <- size_dom. apply subseteq_size. intros a. rewrite elem_of_dom. intros [x [Hg Ha]%(al_entry c Hc)]. by eapply Hw.
Qed.
(** The names of the groups in the order are all there are. *)
Lemma order_size U c : sound U c → Z.of_nat (size (hc_entries c)) ≤ group_limit * Z.of_nat (length (hc_order c)).
Proof.
  intros [Hc Hsmall _]. set (names := concat (map (fun p : nat * string => match hc_groups c !! p.2 with Some g => he_aliases g | None => [] end) (hc_order c))).
  assert (size (hc_entries c) ≤ length names)%nat as H1.
  { rewrite <- size_dom. etrans; [|apply (size_names names)]. apply subseteq_size. intros a. rewrite elem_of_dom, elem_of_list_to_set. intros [x [Hg Ha]%(al_entry c Hc)].
    destruct (group_ordered c _ _ Hc Hg) as [h Hh]. unfold names. apply list_elem_of_In, in_concat. exists (he_aliases x). rewrite <- !list_elem_of_In. split; [|done].
    apply list_elem_of_In, in_map_iff. exists (h, he_canonical x). cbn. rewrite Hg. split; [done|]. by apply list_elem_of_In. }
  assert (Z.of_nat (length names) ≤ group_limit * Z.of_nat (length (hc_order c))) as H2; [|lia].
  unfold names. clear H1 names. induction (hc_order c) as [|[h k] order IH]; [cbn; lia|]. cbn [map concat snd length]. rewrite length_app.
  destruct (hc_groups c !! k) as [g|] eqn:Hg; [pose proof (Hsmall k g Hg)|cbn [length]; unfold group_limit, maxStableSessionAliases in *]; lia.
Qed.
(** The limit takes groups away, and none that has room. *)
Lemma enforce_without limit fuel c : alias_ok c → ∃ P, without P c (enforce fuel limit c).
Proof.
  revert c. induction fuel as [|fuel IH]; intros c Hc; cbn [enforce]; [exists (λ _, False); apply without_none; tauto|].
  destruct (_ <=? limit); [exists (λ _, False); apply without_none; tauto|]. destruct (hc_order c) as [|[h k] order] eqn:Eo; [exists (λ _, False); apply without_none; tauto|].
  destruct (oldest_group c h k order Hc Eo) as (x & Hx & _). rewrite Hx. pose proof (remove_spec c x Hc) as Hw.
  destruct (IH (removeGroupLocked x c) (wo_ok _ _ _ Hw)) as [P HP]. eexists. by eapply without_both.
Qed.
Lemma enforce_few limit fuel c : Z.of_nat (size (hc_entries c)) ≤ limit → enforce fuel limit c = c.
Proof. intros Hs. destruct fuel; cbn; [done|]. by rewrite (proj2 (Z.leb_le _ _) Hs). Qed.
Lemma enforce_spares U limit fuel c n g : sound U c → hc_groups c !! n = Some g → group_limit * (1 + behind n (hc_order c)) ≤ limit →
  hc_groups (enforce fuel limit c) !! n = Some g.
Proof.
  intros Hs Hg Hroom. revert c Hs Hg Hroom. induction fuel as [|fuel IH]; intros c Hs Hg Hroom; cbn [enforce]; [done|].
  destruct (Z.leb_spec (Z.of_nat (size (hc_entries c))) limit) as [|Hbig]; [done|]. pose proof (so_ok _ _ Hs) as Hc.
  destruct (hc_order c) as [|[h k] order] eqn:Eo; [done|]. destruct (oldest_group c h k order Hc Eo) as (x & Hx & Hk & Hord). rewrite Hx.
  pose proof (remove_spec c x Hc) as Hw. assert (k ≠ n) as Hne.
  { intros ->. pose proof (order_size U c Hs) as Hsize. rewrite Eo in Hsize. cbn -[Z.of_nat] in Hroom, Hsize. rewrite String.eqb_refl in Hroom. lia. }
  assert (hc_groups (removeGroupLocked x c) !! n = Some g) as Hg'.
  { apply (wo_groups _ _ _ Hw). split; [done|]. intros ->. apply Hne. by rewrite <- Hk, (al_group c Hc n g). }
  apply IH; [by eapply without_sound|done|]. pose proof (group_ordered _ _ _ (wo_ok _ _ _ Hw) Hg') as Hin.
  pose proof (behind_sublist n _ _ (wo_order _ _ _ Hw) Hin) as Hb. rewrite Eo in Hb. unfold group_limit, maxStableSessionAliases in *. lia.
Qed.
(** There is room while few names are known, or few groups are behind. *)
Definition room (few : bool) (idle : Z) : bool := few || (group_limit * (1 + idle) <=? homeSessionAliasSoftLimit).
Definition few_names U : bool := Z.of_nat (size U) <=? homeSessionAliasSoftLimit.
Lemma limit_spares U c n g idle : sound U c → hc_groups c !! n = Some g → behind n (hc_order c) ≤ idle → room (few_names U) idle = true →
  hc_groups (enforceLimitLocked homeSessionAliasSoftLimit c) !! n = Some g.
Proof.
  intros Hs Hg Hb Hr. unfold enforceLimitLocked. change (homeSessionAliasSoftLimit <=? 0) with false. cbv iota. unfold room, few_names in Hr. apply orb_true_iff in Hr as [Hr|Hr]; bprop.
  - rewrite enforce_few; [done|]. pose proof (sound_size U c Hs). lia.
  - eapply enforce_spares; [done|done|]. unfold group_limit, maxStableSessionAliases in *. lia.
Qed.
Lemma limit_without c : alias_ok c → ∃ P, without P c (enforceLimitLocked homeSessionAliasSoftLimit c).
Proof. intros Hc. by apply enforce_without. Qed.

(** ** One call *)

Lemma name_cases now p f c : (∃ x, joined now p f c x ∧ name_of now p f c = he_canonical x) ∨ (∀ x, ¬ joined now p f c x) ∧ name_of now p f c = p.
Proof.
  unfold joined, name_of. destruct (in_date now (hc_entries c !! p)) as [x|]; [left; eauto|]. destruct (fallback_entry now p f c) as [x|]; [left; eauto|]. right. split; [naive_solver|done].
Qed.
(** A group has a property when its identifiers and the groups it joins have it. *)
Lemma stored_names (P : string → Prop) now p f ttl c e c2 : alias_ok c → stored now p f ttl c e c2 → P p → (f ≠ "" → P f) →
  (∀ x, joined now p f c x → P (he_canonical x) ∧ ∀ a, a ∈ he_aliases x → P a) → P (he_canonical e) ∧ ∀ a, a ∈ he_aliases e → P a.
Proof.
  intros Hc [Hn _ (l & Hl & _ & Hfrom & _) _] Hp Hf Hj.
  assert (P (he_canonical e)) as Hname by (rewrite Hn; destruct (name_cases now p f c) as [(x & Hx & ->)|[_ ->]]; [by apply Hj|done]).
  split; [done|]. intros a Ha. rewrite Hl in Ha. eapply elem_of_sublist in Ha; [|apply (compact_spec isHomePromptCacheAlias l)].
  apply Hfrom in Ha as [Hne [->|[->|[->|(x & Hx & Ha)]]]]; [done|by apply Hf|done|by apply (Hj x)].
Qed.
Lemma set_sound U e c : sound U c → Z.of_nat (length (he_aliases e)) ≤ group_limit → he_canonical e ∈ U → (∀ a, a ∈ he_aliases e → a ∈ U) → sound U (setGroupLocked e c).
Proof.
  intros [H1 H2 H3] Hlen Hn Ha. destruct (set_spec e c H1) as (Hok & Hg & _ & _ & Hother & _).
  split; [done| |]; intros k g Hk; (destruct (decide (k = he_canonical e)) as [->|Hne]; [rewrite Hg in Hk; injection Hk as <-; done|apply Hother in Hk; [|done]; eauto]).
Qed.
Lemma stored_small now p f ttl c e c2 : stored now p f ttl c e c2 → Z.of_nat (length (he_aliases e)) ≤ group_limit.
Proof. intros [_ _ (l & -> & _) _]. apply (compact_spec isHomePromptCacheAlias l). Qed.
Lemma stored_left_sound U now p f ttl c e c2 : sound U c → stored now p f ttl c e c2 → sound U c2.
Proof. intros Hs [_ _ _ (gone & _ & Hw)]. by eapply without_sound. Qed.
Lemma joined_within U now p f c x : sound U c → joined now p f c x → he_canonical x ∈ U ∧ ∀ a, a ∈ he_aliases x → a ∈ U.
Proof. intros [Hc _ Hw] Hj. destruct (joined_group now p f c x Hc Hj) as [Hx _]. eauto. Qed.
Lemma stored_sound U now p f ttl c e c2 : sound U c → stored now p f ttl c e c2 → p ∈ U → (f ≠ "" → f ∈ U) → sound U (setGroupLocked e c2).
Proof.
  intros Hs Hst Hp Hf. destruct (stored_names (.∈ U) now p f ttl c e c2 (so_ok _ _ Hs) Hst Hp Hf) as [H1 H2]; [intros x Hx; by eapply joined_within|].
  apply set_sound; [by eapply stored_left_sound|by eapply stored_small|done|done].
Qed.
Lemma call_sound U primary fallback ttl now c : sound U c → (trim_space primary ≠ "" → trim_space primary ∈ U) → (trim_space fallback ≠ "" → trim_space fallback ∈ U) →
  sound U (canonical primary fallback ttl now c).2.
Proof.
  intros Hs Hp Hf. destruct (decide (trim_space primary = "")) as [Hb|Hb]; [by rewrite blank_call|].
  destruct (canonical_effect primary fallback ttl now c (so_ok _ _ Hs) Hb) as [_ [(e & c2 & Hst & ->)|(_ & Hpr & _)]]; [|by eapply pruned_sound].
  pose proof (stored_sound U _ _ _ _ _ _ _ Hs Hst (Hp Hb) Hf) as Hs'. destruct (limit_without _ (so_ok _ _ Hs')) as [P HP]. by eapply without_sound.
Qed.

(** *** Other sessions *)

Definition outside I g : Prop := he_canonical g ∉ I ∧ ∀ a, a ∈ he_aliases g → a ∉ I.
(** The names [I] are not known. *)
Definition unknown I c : Prop := ∀ k g, hc_groups c !! k = Some g → outside I g.
Lemma without_unknown I P c c' : unknown I c → without P c c' → unknown I c'.
Proof. intros Hu [_ Hg _ _] k g [Hk _]%Hg. eauto. Qed.
Lemma unknown_call I primary fallback ttl now c : alias_ok c → unknown I c → trim_space primary ∉ I → trim_space fallback ∉ I →
  unknown I (canonical primary fallback ttl now c).2.
Proof.
  intros Hc Hu Hp Hf. destruct (decide (trim_space primary = "")) as [Hb|Hb]; [by rewrite blank_call|].
  destruct (canonical_effect primary fallback ttl now c Hc Hb) as [_ [(e & c2 & Hst & ->)|(_ & (P & _ & Hw) & _)]]; [|by eapply without_unknown].
  destruct (stored_names (.∉ I) _ _ _ _ _ _ _ Hc Hst Hp (λ _, Hf)) as [H1 H2].
  { intros x Hx. destruct (joined_group _ _ _ _ _ Hc Hx) as [Hx' _]. by apply Hu in Hx'. }
  destruct (set_spec e c2 (stored_ok _ _ _ _ _ _ _ Hst)) as (Hok & Hg & _ & _ & Hother & _). destruct (limit_without _ Hok) as [P HP].
  eapply without_unknown; [|exact HP]. intros k g Hk. destruct (decide (k = he_canonical e)) as [->|Hne]; [rewrite Hg in Hk; by injection Hk as <-|].
  apply Hother in Hk; [|done]. destruct Hst as [_ _ _ (gone & _ & Hw)]. apply (wo_groups _ _ _ Hw) in Hk as [Hk _]. by eapply Hu.
Qed.
(** The group [n] of the session [I], known by the names [K], with at most [idle] groups behind it. *)
Record bound I K n (until : time) (idle : Z) c : Prop := {
  bd_name : n ∈ I;
  bd_others : ∀ k g, hc_groups c !! k = Some g → k ≠ n → outside I g;
  bd_group : ∃ g, hc_groups c !! n = Some g ∧ until ≤ he_expiresAt g ∧ (∀ a, a ∈ he_aliases g → a ∈ I) ∧ ∀ a, a ∈ K → hc_entries c !! a = Some g;
  bd_idle : behind n (hc_order c) ≤ idle;
}.
(** A group of a name of the session is the session's. *)
Lemma bound_joined I K n until idle now p f c x : alias_ok c → bound I K n until idle c → joined now p f c x →
  (hc_groups c !! n = Some x ∧ he_canonical x = n) ∨ outside I x ∧ he_canonical x ≠ n.
Proof.
  intros Hc [Hn Ho (g & Hg & _) _] Hj. destruct (joined_group now p f c x Hc Hj) as [Hx _]. destruct (decide (he_canonical x = n)) as [Heq|Hne]; [left|right; split; [by eapply Ho|done]].
  by rewrite Heq in Hx.
Qed.
Lemma joined_name now p f c x : alias_ok c → joined now p f c x → p ∈ he_aliases x ∨ f ∈ he_aliases x ∧ f ≠ "".
Proof.
  intros Hc [[Hx _]%in_date_some|Hx]; [left; by apply (al_entry c Hc p x)|]. unfold fallback_entry in Hx. destruct (String.eqb_spec f "") as [|Hf]; [done|]. cbn in Hx.
  destruct (negb _); [|done]. apply in_date_some in Hx as [Hx _]. right. split; [by apply (al_entry c Hc f x)|done].
Qed.
(** The group of the session stays where it is while others come behind it. *)
Lemma bound_without I K n until idle P c c' : alias_ok c → bound I K n until idle c → without P c c' → (∀ g, hc_groups c !! n = Some g → ¬ P g) → bound I K n until idle c'.
Proof.
  intros Hc [Hn Ho (g & Hg & Hu & Ha & Hk) Hi] Hw HP. pose proof (proj2 (wo_groups _ _ _ Hw n g) (conj Hg (HP g Hg))) as Hg'. split; [done| | |].
  - intros k x [Hx _]%(wo_groups _ _ _ Hw). by apply Ho.
  - exists g. split_and!; [done..|]. intros a Hak. apply (wo_entries _ _ _ Hw). auto.
  - etrans; [|exact Hi]. apply behind_sublist; [exact (wo_order _ _ _ Hw)|]. eapply group_ordered; [exact (wo_ok _ _ _ Hw)|done].
Qed.
Lemma bound_set I K n until idle e c : alias_ok c → bound I K n until idle c → outside I e → bound I K n until (idle + 1) (setGroupLocked e c).
Proof.
  intros Hc Hb He. pose proof (freed_spec e c Hc) as Hw. destruct (set_spec e c Hc) as (Hok & Hg & _ & Hord & Hother & Hent). destruct He as [He1 He2].
  pose proof Hb as [Hn Ho (g & Hgn & Hu & Ha & Hk) Hi]. assert (n ≠ he_canonical e) as Hne by (intros ->; done). split; [done| | |].
  - intros k x Hx Hkn. destruct (decide (k = he_canonical e)) as [->|Hke]; [rewrite Hg in Hx; by injection Hx as <-|]. apply Hother in Hx; [|done]. by eapply Ho.
  - exists g. split_and!; [by apply Hother|done..|]. intros a Hak. apply Hent; [|by rewrite (al_group c Hc n g)|auto].
    intros Hin. apply (He2 a Hin), Ha. by apply (al_entry c Hc a g), Hk.
  - assert (bound I K n until idle (freed e c)) as Hb'.
    { eapply bound_without; [exact Hc|exact Hb|exact Hw|]. intros x Hx Heq. rewrite Hgn in Hx. injection Hx as <-. rewrite (al_group c Hc n g Hgn) in Heq. done. }
    rewrite Hord, behind_snoc; [pose proof (bd_idle _ _ _ _ _ _ Hb'); lia|]. destruct (bd_group _ _ _ _ _ _ Hb') as (x & Hx & _). eapply group_ordered; [exact (wo_ok _ _ _ Hw)|done].
Qed.
(** A call of another session. *)
Lemma bound_other U I K n until idle primary fallback ttl now c : sound U c → bound I K n until idle c → trim_space primary ∉ I → trim_space fallback ∉ I → now < until →
  (trim_space primary ≠ "" → trim_space primary ∈ U) → (trim_space fallback ≠ "" → trim_space fallback ∈ U) → room (few_names U) (idle + 1) = true →
  bound I K n until (idle + 1) (canonical primary fallback ttl now c).2.
Proof.
  intros Hs Hb Hp Hf Hnow HpU HfU Hroom. pose proof (so_ok _ _ Hs) as Hc.
  assert (∀ idle', bound I K n until idle c → idle ≤ idle' → bound I K n until idle' c) as Hmore by (intros idle' [? ? ? ?] ?; split; [done..|lia]).
  destruct (decide (trim_space primary = "")) as [Hblank|Hblank]; [rewrite blank_call by done; apply Hmore; [done|lia]|].
  destruct (bd_group _ _ _ _ _ _ Hb) as (g & Hg & Hu & Ha & _).
  assert (∀ x, expired now x → hc_groups c !! n ≠ Some x) as Hlive by (intros x Hx Hx'; unfold expired, before in Hx; assert (x = g) as -> by congruence; lia).
  destruct (canonical_effect primary fallback ttl now c Hc Hblank) as [_ [(e & c2 & Hst & ->)|(_ & (P & HP & Hw) & _)]].
  - assert (∀ x, joined now (trim_space primary) (trim_space fallback) c x → outside I x ∧ hc_groups c !! n ≠ Some x) as Hj.
    { intros x Hx. destruct (bound_joined _ _ _ _ _ _ _ _ _ _ Hc Hb Hx) as [[Hxn _]|[Hox Hne]]; [|split; [done|]; intros Hxn; apply Hne; by apply (al_group c Hc)].
      assert (x = g) as -> by congruence. exfalso. destruct (joined_name _ _ _ _ _ Hc Hx) as [Hin|[Hin _]]; [by apply Hp, Ha|by apply Hf, Ha]. }
    destruct (stored_names (.∉ I) _ _ _ _ _ _ _ Hc Hst Hp (λ _, Hf)) as [H1 H2]; [intros x Hx; by apply Hj|].
    pose proof (stored_sound U _ _ _ _ _ _ _ Hs Hst (HpU Hblank) HfU) as Hs'. destruct Hst as [_ _ _ (gone & Hgone & Hw)].
    assert (bound I K n until (idle + 1) (setGroupLocked e c2)) as Hb'.
    { apply bound_set; [exact (wo_ok _ _ _ Hw)| |by split]. eapply bound_without; [exact Hc|exact Hb|exact Hw|]. intros x Hx [Hx'|Hx']%Hgone; [by eapply Hlive|by eapply Hj]. }
    destruct (limit_without _ (so_ok _ _ Hs')) as [P HP]. eapply bound_without; [exact (so_ok _ _ Hs')|exact Hb'|exact HP|].
    destruct (bd_group _ _ _ _ _ _ Hb') as (g' & Hg' & _). intros x Hx. pose proof (limit_spares U _ n g' (idle + 1) Hs' Hg' (bd_idle _ _ _ _ _ _ Hb') Hroom) as Hstay.
    apply (wo_groups _ _ _ HP) in Hstay as [_ Hstay]. by assert (x = g') as -> by congruence.
  - eapply bound_without; [exact Hc|apply Hmore; [exact Hb|lia]|exact Hw|]. intros x Hx Hx'%HP. by eapply Hlive.
Qed.

(** *** The session's own calls *)

Definition known K (p f : string) : gset string := {[p]} ∪ (if String.eqb f "" then ∅ else {[f]}) ∪ K.
Lemma known_elem K p f a : a ∈ known K p f ↔ a = p ∨ a = f ∧ f ≠ "" ∨ a ∈ K.
Proof. unfold known. destruct (String.eqb_spec f ""); set_solver. Qed.
(** The group a call stores is the session's and has all its names. *)
Lemma stored_bound U I K n now p f ttl c e c2 : sound U c → stored now p f ttl c e c2 → fits I = true → "" ∉ I → n ∈ I → he_canonical e = n → p ∈ I → (f ≠ "" → f ∈ I) →
  (∀ k g, hc_groups c !! k = Some g → k ≠ n → outside I g) →
  (∀ x, joined now p f c x → ∀ a, a ∈ he_aliases x → a ∈ I) → (∀ a, a ∈ K → ∃ x, joined now p f c x ∧ a ∈ he_aliases x) →
  bound I (known K p f) n (now + time_to_live ttl) 0 (enforceLimitLocked homeSessionAliasSoftLimit (setGroupLocked e c2)).
Proof.
  intros Hs Hst Hfit Hblank Hn He Hp Hf Hothers Hours HK. pose proof (stored_ok _ _ _ _ _ _ _ Hst) as Hok2.
  destruct (store_spec e c2 Hok2 (stored_short _ _ _ _ _ _ _ Hst)) as (Hok & _ & Hg & Hent). destruct (set_spec e c2 Hok2) as (Hok' & Hg' & _ & Hord & Hother & _).
  destruct (limit_without _ Hok') as [P HP]. destruct Hst as [_ Hu (l & Hl & (Hnd & _ & k0 & Hk0) & Hfrom & Hall) (gone & _ & Hw)].
  assert (∀ a, a ∈ l → a ∈ I) as HlI. { intros a Ha. apply Hfrom in Ha as [Hne [->|[->|[->|(x & Hx & Ha)]]]]; [done|by apply Hf|by rewrite He|by eapply Hours]. }
  rewrite (fits_whole I l Hfit Hnd HlI) in Hl. rewrite He in *. split; [done| | |].
  - intros k g Hk Hkn. apply (wo_groups _ _ _ HP) in Hk as [Hk _]. apply Hother in Hk; [|done]. apply (wo_groups _ _ _ Hw) in Hk as [Hk _]. by eapply Hothers.
  - exists e. rewrite Hl. split_and!; [done|lia|done|]. intros a Ha. apply Hent. rewrite Hl. apply known_elem in Ha as [->|[[-> Hne]|(x & Hx & Ha)%HK]].
    + rewrite Hk0. apply elem_of_app. left. apply (merge_spec [] [p; f]). split; [by intros ->|]. right. by left.
    + rewrite Hk0. apply elem_of_app. left. apply (merge_spec [] [p; f]). split; [done|]. right. right. by left.
    + apply (Hall x a Hx Ha). intros ->. by eapply Hblank, Hours.
  - assert (∃ h, (h, n) ∈ hc_order (enforceLimitLocked homeSessionAliasSoftLimit (setGroupLocked e c2))) as Hin by (by eapply group_ordered).
    etrans; [by apply (behind_sublist n _ _ (wo_order _ _ _ HP))|]. rewrite Hord, behind_last; [done|].
    intros h Hh. pose proof (wo_ok _ _ _ (freed_spec e c2 Hok2)) as Hokf. apply (al_elem _ Hokf) in Hh. destruct (freed_free e c2 Hok2) as [_ Hfe]. rewrite He in Hfe. congruence.
Qed.
(** The first call of a session whose names are not known. *)
Lemma bound_first U I primary fallback ttl now c : sound U c → unknown I c → fits I = true → "" ∉ I → trim_space primary ∈ I → (trim_space fallback ≠ "" → trim_space fallback ∈ I) →
  let r := canonical primary fallback ttl now c in
  r.1 = trim_space primary ∧ bound I (known ∅ (trim_space primary) (trim_space fallback)) (trim_space primary) (now + time_to_live ttl) 0 r.2.
Proof.
  intros Hs Hunk Hfit Hblank Hp Hf. cbv zeta. set (p := trim_space primary) in *. set (f := trim_space fallback) in *. pose proof (so_ok _ _ Hs) as Hc.
  assert (p ≠ "") as Hpn by (by intros Heq; rewrite Heq in Hp).
  assert (∀ x, ¬ joined now p f c x) as Hj.
  { intros x Hx. destruct (joined_group _ _ _ _ _ Hc Hx) as [Hg _]. apply Hunk in Hg as [_ Hg]. destruct (joined_name _ _ _ _ _ Hc Hx) as [Hin|[Hin Hne]]; [by apply (Hg p)|by apply (Hg f Hin), Hf]. }
  pose proof (canonical_effect primary fallback ttl now c Hc Hpn) as Heff. cbv zeta in Heff. fold p f in Heff.
  destruct Heff as [Hname [(e & c2 & Hst & ->)|(_ & Hpr & _ & _ & g & Hg & _)]].
  - assert (name_of now p f c = p) as Hnp by (destruct (name_cases now p f c) as [(x & Hx & _)|[_ ?]]; [by destruct (Hj x)|done]).
    rewrite Hname. split; [exact Hnp|]. eapply stored_bound; [exact Hs|exact Hst|done|done|done|by rewrite (st_name _ _ _ _ _ _ _ Hst)|done|done| | |].
    + intros k g Hk _. by eapply Hunk.
    + intros x Hx. by destruct (Hj x).
    + intros a Ha. by apply not_elem_of_empty in Ha.
  - exfalso. pose proof (pruned_group_back _ _ _ _ _ Hpr Hg) as Hg'. apply (Hunk p g) in Hg' as Ho. destruct Ho as [Ho _]. apply Ho. by rewrite (al_group c Hc p g Hg').
Qed.
(** A later one, by names of which one is known to be the session's. *)
Lemma bound_own U I K n until idle primary fallback ttl now c : sound U c → bound I K n until idle c → fits I = true → "" ∉ I → trim_space primary ∈ I →
  (trim_space fallback ≠ "" → trim_space fallback ∈ I) → trim_space primary ∈ K ∨ trim_space fallback ∈ K → now < until →
  let r := canonical primary fallback ttl now c in
  r.1 = n ∧ bound I (known K (trim_space primary) (trim_space fallback)) n (now + time_to_live ttl) 0 r.2.
Proof.
  intros Hs Hb Hfit Hblank Hp Hf HK Hnow. cbv zeta. set (p := trim_space primary) in *. set (f := trim_space fallback) in *. pose proof (so_ok _ _ Hs) as Hc.
  assert (p ≠ "") as Hpn by (by intros Heq; rewrite Heq in Hp). destruct (bd_group _ _ _ _ _ _ Hb) as (g & Hg & Hu & Ha & HKg).
  assert (before now (he_expiresAt g) = true) as Hlive by (unfold before; lia).
  assert (∀ x, joined now p f c x → x = g) as Hj.
  { intros x Hx. destruct (bound_joined _ _ _ _ _ _ _ _ _ _ Hc Hb Hx) as [[Hxn _]|[[_ Ho] _]]; [congruence|]. exfalso.
    destruct (joined_name _ _ _ _ _ Hc Hx) as [Hin|[Hin Hne]]; [by apply (Ho p)|by apply (Ho f Hin), Hf]. }
  assert (joined now p f c g) as Hjg.
  { unfold joined, fallback_entry. destruct (decide (p ∈ K)) as [Hpk|Hpk]; [left; unfold in_date; rewrite (HKg p Hpk); cbn; by rewrite Hlive|].
    destruct HK as [|Hfk]; [done|]. right. rewrite (proj2 (String.eqb_neq f "")), (proj2 (String.eqb_neq f p)); [unfold in_date; rewrite (HKg f Hfk); cbn; by rewrite Hlive|by intros ->|].
    intros Heq. apply Hblank, Ha. rewrite <- Heq. by apply (al_entry c Hc f g), HKg. }
  assert (name_of now p f c = n) as Hn. { destruct (name_cases now p f c) as [(x & Hx & ->)|[Hno _]]; [rewrite (Hj x Hx); by apply (al_group c Hc)|by destruct (Hno g)]. }
  pose proof (canonical_effect primary fallback ttl now c Hc Hpn) as Heff. cbv zeta in Heff. fold p f in Heff.
  destruct Heff as [Hname [(e & c2 & Hst & ->)|(_ & Hpr & Hnone & Hfnone & _)]]; rewrite ?Hname; (split; [exact Hn|]).
  - eapply stored_bound; [exact Hs|exact Hst|done|done|exact (bd_name _ _ _ _ _ _ Hb)|by rewrite (st_name _ _ _ _ _ _ _ Hst)|done|done|exact (bd_others _ _ _ _ _ _ Hb)| |].
    + intros x Hx. by rewrite (Hj x Hx).
    + intros a Hak. exists g. split; [done|]. by apply (al_entry c Hc a g), HKg.
  - exfalso. destruct HK as [Hk|Hk]; [pose proof (pruned_entry _ _ _ _ _ Hpr (HKg p Hk) Hlive); congruence|].
    pose proof (pruned_entry _ _ _ _ _ Hpr (HKg f Hk) Hlive) as Hx. rewrite Hfnone in Hx; [done|]. intros Heq. apply Hblank, Ha. rewrite <- Heq. by apply (al_entry c Hc f g), HKg.
Qed.

End HomeAliasRuns.

Module HomeHistory.
Import SessionCache (maxStableSessionAliases).
Import LcpKeys Affinity HomeAlias HomeAliasProps HomeAliasRuns HomeIdentity.

(** A request as it arrives, with the selector of that moment. *)
Record arrival {S : Type} : Type := {
  av_dispatch : dispatch;
  av_request : request;
  av_metadata : metadata;
  av_selector : option (affinity S);
}.
Arguments arrival S : clear implicits.

Section History.
Context {S : Type} `{H : Sha256}.
Implicit Types (v : arrival S) (vs : list (arrival S)) (c : homeSessionAliasCache) (I K U : gset string).

Definition identity_of v : string * string * bool * metadata * option (affinity S) := dispatch_identity (av_dispatch v) (av_request v) (av_metadata v) (av_selector v).
(** The identifier of the session, its other one, and the session it comes from. *)
Definition identifiers v : string * string * string :=
  let '(primary, fallback, own, md, _) := identity_of v in
  let '(parent, alias) := relatives primary fallback own md in
  (trim_space primary, trim_space alias, trim_space parent).
Definition dispatched v c : string := homeDispatchSessionID (av_dispatch v) (av_request v) (av_metadata v) (av_selector v) c.
Definition serve c v : homeSessionAliasCache := (homeDispatchSessionIDs (av_dispatch v) (av_request v) (av_metadata v) (av_selector v) c).2.
Definition run vs c : homeSessionAliasCache := foldl serve c vs.

(** The request is of other sessions than that with the names [I], or of this one. *)
Definition of_others I v : bool :=
  let '(primary, alias, parent) := identifiers v in bool_decide (primary ∉ I) && bool_decide (alias ∉ I) && bool_decide (parent ∉ I).
Definition of_session I v : bool :=
  let '(primary, alias, parent) := identifiers v in
  bool_decide (primary ∈ I) && (String.eqb alias "" || bool_decide (alias ∈ I)) && bool_decide (parent ∉ I).
Definition names_known I K v : bool := let '(primary, alias, _) := identifiers v in bool_decide (primary ∈ K) || bool_decide (alias ∈ K).
Definition learn K v : gset string := let '(primary, alias, _) := identifiers v in known K primary alias.
Definition lasts_until v : time := hd_now (av_dispatch v) + time_to_live (hd_ttl (av_dispatch v)).
(** Every request comes before the session's time is over, which each of its own extends; its own
    use a name already used; and those of others in between leave room. *)
Fixpoint undisturbed I (few : bool) K (until : time) (idle : Z) vs : bool :=
  match vs with
  | [] => true
  | v :: rest =>
      (hd_now (av_dispatch v) <? until)
      && if of_others I v then room few (idle + 2) && undisturbed I few K until (idle + 2) rest
         else of_session I v && names_known I K v && undisturbed I few (learn K v) (lasts_until v) 1 rest
  end.
(** All identifiers of a history. *)
Definition all_identifiers vs : gset string := list_to_set (flat_map (fun v => let '(primary, alias, parent) := identifiers v in [primary; alias; parent]) vs).

(** ** One request *)

Definition named_in U v : Prop := let '(primary, alias, parent) := identifiers v in primary ∈ U ∧ alias ∈ U ∧ parent ∈ U.
(** A request without identity changes nothing; another calls the cache once or twice. *)
Lemma serve_cases v c : let '(primary, fallback, own, md, _) := identity_of v in let '(parent, alias) := relatives primary fallback own md in
  let d := av_dispatch v in let r := canonical primary alias (hd_ttl d) (hd_now d) c in
  (primary = "" ∧ serve c v = c) ∨ primary ≠ "" ∧ dispatched v c = BoundSessionIdentity r.1 ∧ (serve c v = r.2 ∨ serve c v = (canonical parent "" (hd_ttl d) (hd_now d) r.2).2).
Proof.
  unfold serve, dispatched, homeDispatchSessionID, homeDispatchSessionIDs, identity_of.
  destruct (dispatch_identity _ _ _ _) as [[[[primary fallback] own] md] selector]. destruct (relatives primary fallback own md) as [parent alias] eqn:Er. cbv zeta.
  destruct (String.eqb_spec primary "") as [->|Hne]; [by left|]. right. split; [done|].
  pose proof (names_name (av_dispatch v) primary fallback own md c) as Hn. pose proof (dispatch_calls (av_dispatch v) primary fallback own md c) as Hc. rewrite Er in Hn, Hc.
  destruct (dispatch_names (av_dispatch v) primary fallback own md c) as [[name parent'] c']. done.
Qed.
Lemma blank_trim : trim_space "" = "".
Proof. done. Qed.
Lemma serve_sound U v c : sound U c → named_in U v → sound U (serve c v).
Proof.
  intros Hs Hn. unfold named_in, identifiers in Hn. pose proof (serve_cases v c) as Hcases. destruct (identity_of v) as [[[[primary fallback] own] md] selector].
  destruct (relatives primary fallback own md) as [parent alias]. cbv zeta in Hcases. destruct Hn as (Hp & Ha & Hq).
  assert (sound U (canonical primary alias (hd_ttl (av_dispatch v)) (hd_now (av_dispatch v)) c).2) as Hs1 by (by apply call_sound).
  destruct Hcases as [[_ ->]|(_ & _ & [-> | ->])]; [done..|]. by apply call_sound; [|by intros|rewrite blank_trim].
Qed.
Lemma serve_unknown I U v c : sound U c → unknown I c → of_others I v = true → "" ∉ I → named_in U v → unknown I (serve c v).
Proof.
  intros Hs Hu Ho Hblank Hn. unfold named_in, of_others, identifiers in *. pose proof (serve_cases v c) as Hcases. destruct (identity_of v) as [[[[primary fallback] own] md] selector].
  destruct (relatives primary fallback own md) as [parent alias]. cbv zeta in Hcases. destruct Hn as (Hp & Ha & Hq). rewrite !andb_true_iff, !bool_decide_eq_true in Ho. destruct Ho as [[Hop Hoa] Hoq].
  assert (unknown I (canonical primary alias (hd_ttl (av_dispatch v)) (hd_now (av_dispatch v)) c).2) as Hu1 by (by apply unknown_call; [apply (so_ok _ _ Hs)|..]).
  assert (sound U (canonical primary alias (hd_ttl (av_dispatch v)) (hd_now (av_dispatch v)) c).2) as Hs1 by (by apply call_sound).
  destruct Hcases as [[_ ->]|(_ & _ & [-> | ->])]; [done..|]. by apply unknown_call; [apply (so_ok _ _ Hs1)|..].
Qed.
Lemma room_less few idle idle' : room few idle' = true → idle ≤ idle' → room few idle = true.
Proof. unfold room, group_limit, maxStableSessionAliases, homeSessionAliasSoftLimit. destruct few; [done|]. cbn [orb]. rewrite !Z.leb_le. lia. Qed.
Lemma bound_idle I K n until idle idle' c : bound I K n until idle c → idle ≤ idle' → bound I K n until idle' c.
Proof. intros [? ? ? ?] ?. split; [done..|lia]. Qed.
(** What follows a call of another session, or the session's own: perhaps one more, of another. *)
Lemma serve_other I K U n until idle v c : sound U c → bound I K n until idle c → of_others I v = true → "" ∉ I → named_in U v → hd_now (av_dispatch v) < until →
  room (few_names U) (idle + 2) = true → bound I K n until (idle + 2) (serve c v).
Proof.
  intros Hs Hb Ho Hblank Hn Hnow Hroom. unfold named_in, of_others, identifiers in *. pose proof (serve_cases v c) as Hcases. destruct (identity_of v) as [[[[primary fallback] own] md] selector].
  destruct (relatives primary fallback own md) as [parent alias]. cbv zeta in Hcases. destruct Hn as (Hp & Ha & Hq). rewrite !andb_true_iff, !bool_decide_eq_true in Ho. destruct Ho as [[Hop Hoa] Hoq].
  assert (sound U (canonical primary alias (hd_ttl (av_dispatch v)) (hd_now (av_dispatch v)) c).2) as Hs1 by (by apply call_sound).
  assert (bound I K n until (idle + 1) (canonical primary alias (hd_ttl (av_dispatch v)) (hd_now (av_dispatch v)) c).2) as Hb1.
  { apply (bound_other U); try done. eapply room_less; [exact Hroom|lia]. }
  destruct Hcases as [[_ ->]|(_ & _ & [-> | ->])]; [eapply bound_idle; [done|lia]..|]. replace (idle + 2) with (idle + 1 + 1) in * by lia.
  by apply (bound_other U).
Qed.
Lemma serve_parent I K U n until v c c1 : sound U c1 → bound I K n until 0 c1 → "" ∉ I → named_in U v → hd_now (av_dispatch v) < until →
  (let '(_, _, parent) := identifiers v in parent ∉ I) →
  (serve c v = c1 ∨ let '(primary, fallback, own, md, _) := identity_of v in let '(parent, _) := relatives primary fallback own md in
     serve c v = (canonical parent "" (hd_ttl (av_dispatch v)) (hd_now (av_dispatch v)) c1).2) → bound I K n until 1 (serve c v).
Proof.
  intros Hs Hb Hblank Hn Hnow Hq Hcases. unfold named_in, identifiers in *. destruct (identity_of v) as [[[[primary fallback] own] md] selector].
  destruct (relatives primary fallback own md) as [parent alias]. destruct Hcases as [-> | ->]; [eapply bound_idle; [done|lia]|].
  apply (bound_other U I K n until 0); try done; [by destruct Hn as (_ & _ & ?)|]. unfold room. by rewrite orb_true_r.
Qed.
Lemma session_parts I v : of_session I v = true → let '(primary, alias, parent) := identifiers v in primary ∈ I ∧ (alias ≠ "" → alias ∈ I) ∧ parent ∉ I.
Proof.
  unfold of_session. destruct (identifiers v) as [[primary alias] parent]. rewrite !andb_true_iff, orb_true_iff, !bool_decide_eq_true, String.eqb_eq. naive_solver.
Qed.
Lemma lasts_later v : hd_now (av_dispatch v) < lasts_until v.
Proof. unfold lasts_until. pose proof (time_to_live_pos (hd_ttl (av_dispatch v))). lia. Qed.
(** The session's first request, and each later one. *)
Lemma serve_first I U v c : sound U c → unknown I c → fits I = true → "" ∉ I → of_session I v = true → named_in U v →
  let '(primary, _, _) := identifiers v in
  dispatched v c = BoundSessionIdentity primary ∧ bound I (learn ∅ v) primary (lasts_until v) 1 (serve c v).
Proof.
  intros Hs Hu Hfit Hblank Ho Hn. pose proof (session_parts I v Ho) as Hparts. pose proof (serve_cases v c) as Hcases.
  pose proof (serve_parent I (learn ∅ v) U (identifiers v).1.1 (lasts_until v) v c) as Hparent. pose proof (lasts_later v) as Hlater.
  unfold named_in, learn, identifiers, lasts_until in *. destruct (identity_of v) as [[[[primary fallback] own] md] selector]. destruct (relatives primary fallback own md) as [parent alias].
  cbv zeta in Hcases. cbn [fst] in Hparent. destruct Hparts as (Hp & Ha & Hq).
  destruct (bound_first U I primary alias (hd_ttl (av_dispatch v)) (hd_now (av_dispatch v)) c Hs Hu Hfit Hblank Hp Ha) as [Hname Hb].
  destruct Hcases as [[-> _]|(_ & Hd & Hcases)]; [done|]. rewrite Hd, Hname. split; [done|].
  apply (Hparent _ (call_sound U primary alias _ _ c Hs (λ _, proj1 Hn) (λ _, proj1 (proj2 Hn))) Hb); done.
Qed.
Lemma serve_own I K U n until idle v c : sound U c → bound I K n until idle c → fits I = true → "" ∉ I → of_session I v = true → named_in U v → names_known I K v = true →
  hd_now (av_dispatch v) < until →
  dispatched v c = BoundSessionIdentity n ∧ bound I (learn K v) n (lasts_until v) 1 (serve c v).
Proof.
  intros Hs Hb Hfit Hblank Ho Hn Hk Hnow. pose proof (session_parts I v Ho) as Hparts. pose proof (serve_cases v c) as Hcases.
  pose proof (serve_parent I (learn K v) U n (lasts_until v) v c) as Hparent. pose proof (lasts_later v) as Hlater.
  unfold named_in, learn, names_known, identifiers, lasts_until in *. destruct (identity_of v) as [[[[primary fallback] own] md] selector]. destruct (relatives primary fallback own md) as [parent alias].
  cbv zeta in Hcases. destruct Hparts as (Hp & Ha & Hq). rewrite orb_true_iff, !bool_decide_eq_true in Hk.
  destruct (bound_own U I K n until idle primary alias (hd_ttl (av_dispatch v)) (hd_now (av_dispatch v)) c Hs Hb Hfit Hblank Hp Ha Hk Hnow) as [Hname Hb'].
  destruct Hcases as [[-> _]|(_ & Hd & Hcases)]; [done|]. rewrite Hd, Hname. split; [done|].
  apply (Hparent _ (call_sound U primary alias _ _ c Hs (λ _, proj1 Hn) (λ _, proj1 (proj2 Hn))) Hb'); done.
Qed.

(** ** A history *)

Lemma run_unknown I U vs c : sound U c → unknown I c → "" ∉ I → Forall (λ v, of_others I v = true) vs → Forall (named_in U) vs → sound U (run vs c) ∧ unknown I (run vs c).
Proof.
  intros Hs Hu Hblank Ho Hn. revert c Hs Hu. induction vs as [|v vs IH]; intros c Hs Hu; [done|]. apply Forall_cons in Ho as [Ho1 Ho], Hn as [Hn1 Hn]. cbn.
  apply IH; [done..|by apply serve_sound|by eapply serve_unknown].
Qed.
Lemma run_bound I K U n until idle vs c : sound U c → bound I K n until idle c → fits I = true → "" ∉ I → Forall (named_in U) vs →
  undisturbed I (few_names U) K until idle vs = true →
  ∀ i v, vs !! i = Some v → of_others I v = false → dispatched v (run (take i vs) c) = BoundSessionIdentity n.
Proof.
  intros Hs Hb Hfit Hblank Hn. revert c K until idle Hs Hb. induction vs as [|w vs IH]; intros c K until idle Hs Hb Hun i v Hi Hv; [done|].
  apply Forall_cons in Hn as [Hn1 Hn]. cbn [undisturbed] in Hun. apply andb_true_iff in Hun as [Hnow%Z.ltb_lt Hun].
  pose proof (serve_sound U w c Hs Hn1) as Hs'. destruct (of_others I w) eqn:Ew.
  - apply andb_true_iff in Hun as [Hroom Hun]. destruct i as [|i]; [injection Hi as <-; congruence|]. cbn [take run foldl].
    eapply (IH Hn); [exact Hs'|by eapply serve_other|done..].
  - rewrite !andb_true_iff in Hun. destruct Hun as [[Ho Hk] Hun]. destruct (serve_own I K U n until idle w c Hs Hb Hfit Hblank Ho Hn1 Hk Hnow) as [Hd Hb'].
    destruct i as [|i]; [by injection Hi as <-|]. cbn [take run foldl]. eapply (IH Hn); [exact Hs'|exact Hb'|done..].
Qed.
Lemma all_named vs U : all_identifiers vs ⊆ U → Forall (named_in U) vs.
Proof.
  intros Hsub. apply Forall_forall. intros v Hv. assert (∀ x, x ∈ (let '(primary, alias, parent) := identifiers v in [primary; alias; parent]) → x ∈ U) as Hall.
  { intros x Hx. apply Hsub. unfold all_identifiers. apply elem_of_list_to_set, list_elem_of_In, in_flat_map. exists v. by rewrite <- !list_elem_of_In. }
  unfold named_in. destruct (identifiers v) as [[primary alias] parent]. split_and!; apply Hall; set_solver.
Qed.
Lemma clear_sound U I c : sound U (clear c) ∧ unknown I (clear c).
Proof. split; [split; [apply clear_ok|..]|]; intros k g Hk; cbn in Hk; by rewrite lookup_empty in Hk. Qed.

(** C35 A session keeps its name at a Home.  In any history of requests since the cache of names was made or
    reset, let [I] be the names of one session, at most 64 and one prompt-cache key, which requests before its
    first one do not use.  Its first request is dispatched under its primary identifier.  Every later one is
    dispatched under the same name, provided that each request of the history names the session by its names
    only or not at all, also as the session it comes from; that each of the session's own uses a name already
    used and comes before the time to live of the one before is over, as do the requests in between; and that
    the history has fewer than 4096 identifiers, or at most thirty requests come in between (the session may
    be evicted otherwise: the cache keeps the sessions used last). *)
Theorem home_session_is_one I before first after c :
  let U := all_identifiers (before ++ first :: after) in
  let start := run before (clear c) in
  fits I = true → "" ∉ I → Forall (λ v, of_others I v = true) before → of_session I first = true →
  undisturbed I (few_names U) (learn ∅ first) (lasts_until first) 1 after = true →
  dispatched first start = BoundSessionIdentity (identifiers first).1.1
  ∧ ∀ i v, after !! i = Some v → of_others I v = false → dispatched v (run (first :: take i after) start) = dispatched first start.
Proof.
  intros U start Hfit Hblank Hbefore Hfirst Hafter. pose proof (all_named (before ++ first :: after) U ltac:(done)) as Hn.
  apply Forall_app in Hn as [Hn1 Hn2]. apply Forall_cons in Hn2 as [Hn2 Hn3]. destruct (clear_sound U I c) as [Hs Hu].
  destruct (run_unknown I U before (clear c) Hs Hu Hblank Hbefore Hn1) as [Hs1 Hu1]. fold start in Hs1, Hu1.
  pose proof (serve_first I U first start Hs1 Hu1 Hfit Hblank Hfirst Hn2) as Hserve. pose proof (serve_sound U first start Hs1 Hn2) as Hs2.
  destruct (identifiers first) as [[primary alias] parent]. destruct Hserve as [Hd Hb]. cbn [fst]. split; [done|].
  intros i v Hi Hv. rewrite Hd. cbn [run foldl]. by eapply run_bound.
Qed.

End History.
End HomeHistory.

Module HomeIdentityDemo.
Import AuthTypes Availability Selector Classify LcpKeys Affinity AffinityDemo HomeAlias HomeAliasProps HomeAliasRuns HomeIdentity HomeHistory.

#[local] Existing Instance first_bytes.
Definition dispatch_at (t : time) : dispatch := {| hd_format := "openai"; hd_requestedModel := Some "m"; hd_ttl := 0; hd_match := t; hd_bind := t; hd_now := t |}.
(** A prompt-cache key, and the conversation in the payload. *)
Definition cached (key conversation : string) : request :=
  {| ar_ctx := background; ar_transient := ∅; ar_headers := []; ar_payload := true;
     ar_info := fun _ => Some {| si_SessionID := key; si_ParentSessionID := ""; si_IsFork := false; si_ClientType := "codex" |};
     ar_conversation := conversation; ar_derived := ""; ar_messages := ("", ""); ar_turns := [] |}.
(** An agent of a session. *)
Definition agent (session parent : string) : request :=
  {| ar_ctx := background; ar_transient := ∅; ar_headers := []; ar_payload := true;
     ar_info := fun _ => Some {| si_SessionID := session; si_ParentSessionID := parent; si_IsFork := false; si_ClientType := "claude" |};
     ar_conversation := ""; ar_derived := ""; ar_messages := ("", ""); ar_turns := [] |}.

(** Three sessions share the cache: that of ["pck:k"] and ["conv:7"], an agent with its parent, and one more. *)
Definition at_ (t : time) (rq : request) : arrival unit := {| av_dispatch := dispatch_at t; av_request := rq; av_metadata := no_marks; av_selector := Some fresh |}.
Definition names : gset string := {[ "pck:k"; "conv:7"; "conv:8" ]}.
Definition before : list (arrival unit) := [at_ 1 (named "other")].
Definition first : arrival unit := at_ 5 (cached "pck:k" "conv:7").
Definition after : list (arrival unit) := [at_ 6 (agent "claude:a:agent:b" "claude:a"); at_ 7 (cached "pck:k" "conv:8"); at_ (hour + 5) (named "other"); at_ (hour + 6) (named "conv:8")].
Lemma home_session_is_one_witness :
  let start := run before (clear empty_cache) in
  dispatched first start = "pck:k" ∧ dispatched (at_ (hour + 6) (named "conv:8")) (run (first :: take 3 after) start) = "pck:k".
Proof.
  intros start. destruct (home_session_is_one names before first after empty_cache) as [Hfirst Hlater].
  - by vm_compute.
  - apply (bool_decide_unpack _). by vm_compute.
  - apply (bool_decide_unpack _). by vm_compute.
  - by vm_compute.
  - by vm_compute.
  - assert (BoundSessionIdentity (identifiers first).1.1 = "pck:k") as Hname by (by vm_compute). rewrite Hname in Hfirst.
    split; [exact Hfirst|]. rewrite <- Hfirst. apply (Hlater 3%nat); by vm_compute.
Defined.
(** The agent's session keeps its name, and its parent comes along. *)
Example agent_has_parent :
  let '(name, parent, _, _, _) := homeDispatchSessionIDs (dispatch_at 5) (agent "claude:a:agent:b" "claude:a") no_marks (None : option (affinity unit)) empty_cache in
  (name, parent) = ("claude:a:agent:b", "claude:a").
Proof. by vm_compute. Qed.
(** Without identifiers, the turns name the session, and the next request's turns continue it. *)
Example turns_name_session :
  let '(name, _, _, selector, c) := homeDispatchSessionIDs (dispatch_at 5) (unnamed begun) no_marks (Some fresh) empty_cache in
  negb (String.eqb name "") = true
  ∧ homeDispatchSessionID (dispatch_at 6) (unnamed gone_on) no_marks selector c = name.
Proof. vm_compute. done. Qed.

End HomeIdentityDemo.
