(* ===== verification/ErrorChain.v ===== *)
(** * Chains of errors: errors.go, conductor_cooldown.go, conductor_execution.go,
    conductor_request_scoped_errors.go

    The errors an execution meets: what an executor returns ([Leaf]), the [*Error] of
    this package, and the wrappers put around them on the way.  A [leaf] lists the
    answers of an error to every question the code asks it ([errors.As] to an
    interface, [errors.Is] to a sentinel); the questions to a chain are functions
    here, which look at the outermost error that can answer.  [ChainBodies] is the
    reading of response bodies and texts (internal/clienterror, encoding/json,
    regexp). *)
From S2P Require Import Prelude GoLib AuthTypes Thinking Classify.
Import AuthTypes Classify.

Class ChainBodies : Type := {
  (** [isStructuredModelNotFoundError(message, requestedModel)] *)
  body_model_not_found : string → string → bool;
  (** status, [err.Error()] and [ResponseBody()] *)
  body_credit : Z → string → option string → bool;
  body_fault : Z → string → option string → bool;
  body_not_persisted : string → bool;
  (** [ExtractUpstreamErrorSummary] *)
  body_summary : string → string;
  (** [regexp.Compile] and [MatchString]; [None] when the pattern does not compile *)
  regexp_match : string → string → option bool;
}.

(** The bodies of an [*Error], which has no [ResponseBody]. *)
#[global] Instance error_bodies `{ChainBodies} : ErrorBodies :=
  {| isStructuredModelNotFoundError := fun message => body_model_not_found message "";
     IsCreditBalanceTooLow := fun status text => body_credit status text None;
     IsRequestFault := fun status text => body_fault status text None;
     IsItemNotPersisted := body_not_persisted |}.

Module ErrorChain.

(** The answers of an error that is not of this package. *)
Record leaf : Type := {
  le_text : string;
  le_status : option Z;
  le_code : option string;
  le_retryAfter : option (option duration);
  le_body : option string;
  le_terminated : bool;
  le_websocketTurn : bool;
  le_credentialScoped : bool;
  le_requestScoped : bool;
  le_streamTruncated : bool;
  le_transientRateLimit : bool;
  le_canceled : bool;
  le_deadlineExceeded : bool;
  le_eof : bool;
  le_unsupported : bool;
  le_tlsHandshakeTimeout : bool;
  le_dnsTransient : bool;
  le_netTimeout : bool;
  le_transientErrno : bool;
  le_netOp : bool;
  le_closeCode : option Z;
  le_homeBusy : bool;
  (** a [homeDispatchRetryAfterError], and its [RequestRetryLimit] *)
  le_homeCooldown : option (option Z);
}.

(** A [requestStopError], an [upstreamExecutionAttemptError], a
    [homeRetryRoundExhaustedError], a [trustedRetryAfterError], a
    [streamBootstrapError], and [fmt.Errorf] with [%w].  An [authUnavailableError] is
    told from an [*Error] or an [errorWithCause] by its headers only. *)
Inductive go_error : Type :=
| Leaf (l : leaf)
| AuthError (e : Error)
| WithCause (base : Error) (cause : go_error)
| Wrapped (text : string) (cause : go_error)
| UpstreamAttempt (cause : go_error)
| RequestStop (cause : go_error)
| RoundExhausted (retryAfter : option duration) (retryNow : bool) (cause : go_error)
| TrustedRetryAfter (deadline : time) (cause : go_error)
| StreamBootstrap (cause : go_error).

(** [fmt.Errorf] without [%w]: a text that answers no question. *)
Definition bare_leaf (text : string) : leaf :=
  {| le_text := text; le_status := None; le_code := None; le_retryAfter := None; le_body := None;
     le_terminated := false; le_websocketTurn := false; le_credentialScoped := false; le_requestScoped := false;
     le_streamTruncated := false; le_transientRateLimit := false; le_canceled := false; le_deadlineExceeded := false;
     le_eof := false; le_unsupported := false; le_tlsHandshakeTimeout := false; le_dnsTransient := false;
     le_netTimeout := false; le_transientErrno := false; le_netOp := false; le_closeCode := None;
     le_homeBusy := false; le_homeCooldown := None |}.
Definition errorf (text : string) : go_error := Leaf (bare_leaf text).

(** ** Questions to a chain *)

Definition unwrap (err : go_error) : option go_error :=
  match err with
  | Leaf _ | AuthError _ => None
  | WithCause _ c | Wrapped _ c | UpstreamAttempt c | RequestStop c | RoundExhausted _ _ c
  | TrustedRetryAfter _ c | StreamBootstrap c => Some c
  end.

(** [errors.As(err, **Error)]. *)
Fixpoint as_Error (err : go_error) : option Error :=
  match err with
  | Leaf _ => None
  | AuthError e | WithCause e _ => Some e
  | Wrapped _ c | UpstreamAttempt c | RequestStop c | RoundExhausted _ _ c | TrustedRetryAfter _ c
  | StreamBootstrap c => as_Error c
  end.

Fixpoint statusCodeFromError (err : go_error) : Z :=
  match err with
  | Leaf l => default 0 (le_status l)
  | AuthError e | WithCause e _ => err_HTTPStatus e
  | Wrapped _ c | UpstreamAttempt c | RequestStop c | RoundExhausted _ _ c | TrustedRetryAfter _ c
  | StreamBootstrap c => statusCodeFromError c
  end.

(** [errors.As] to an interface with [ErrorCode]. *)
Fixpoint as_code (err : go_error) : option string :=
  match err with
  | Leaf l => le_code l
  | AuthError e => Some (err_Code e)
  | WithCause _ c | Wrapped _ c | UpstreamAttempt c | RequestStop c | RoundExhausted _ _ c
  | TrustedRetryAfter _ c | StreamBootstrap c => as_code c
  end.

Definition errorCodeFromError (err : go_error) : string :=
  let from_code := match as_code err with Some code => trim_space code | None => "" end in
  match as_Error err with
  | Some e => if String.eqb (trim_space (err_Code e)) "" then from_code else trim_space (err_Code e)
  | None => from_code
  end.

(** An answer only a leaf can give. *)
Fixpoint leaf_answer (f : leaf → bool) (err : go_error) : bool :=
  match err with
  | Leaf l => f l
  | AuthError _ => false
  | WithCause _ c | Wrapped _ c | UpstreamAttempt c | RequestStop c | RoundExhausted _ _ c
  | TrustedRetryAfter _ c | StreamBootstrap c => leaf_answer f c
  end.
Fixpoint leaf_value {A} (f : leaf → option A) (err : go_error) : option A :=
  match err with
  | Leaf l => f l
  | AuthError _ => None
  | WithCause _ c | Wrapped _ c | UpstreamAttempt c | RequestStop c | RoundExhausted _ _ c
  | TrustedRetryAfter _ c | StreamBootstrap c => leaf_value f c
  end.
Definition is_canceled : go_error → bool := leaf_answer le_canceled.
Definition is_deadline_exceeded : go_error → bool := leaf_answer le_deadlineExceeded.
Definition IsUpstreamWebsocketTurnError : go_error → bool := leaf_answer le_websocketTurn.
Definition isRequestTerminatedError (err : go_error) : bool :=
  leaf_answer le_terminated err || IsUpstreamWebsocketTurnError err.
Definition isCredentialScopedError : go_error → bool := leaf_answer le_credentialScoped.
Definition is_home_busy : go_error → bool := leaf_answer le_homeBusy.

Fixpoint isRequestStopError (err : go_error) : bool :=
  match err with
  | RequestStop _ => true
  | Leaf _ | AuthError _ => false
  | WithCause _ c | Wrapped _ c | UpstreamAttempt c | RoundExhausted _ _ c | TrustedRetryAfter _ c
  | StreamBootstrap c => isRequestStopError c
  end.

Fixpoint as_requestScoped (err : go_error) : bool :=
  match err with
  | Leaf l => le_requestScoped l
  | AuthError e | WithCause e _ => String.eqb (err_Code e) ErrorCodeRequestScoped
  | Wrapped _ c | UpstreamAttempt c | RequestStop c | RoundExhausted _ _ c | TrustedRetryAfter _ c
  | StreamBootstrap c => as_requestScoped c
  end.
Definition isRequestScopedError (err : go_error) : bool :=
  if isRequestTerminatedError err && negb (isCredentialScopedError err) then true
  else as_requestScoped err.

Definition has_code (code : string) (err : go_error) : bool :=
  match as_Error err with Some e => String.eqb (err_Code e) code | None => false end.
Definition isStreamTruncatedError (err : go_error) : bool :=
  if leaf_answer le_streamTruncated err then true else has_code ErrorCodeStreamTruncated err.
Definition isTransientRateLimitError (err : go_error) : bool :=
  if isCredentialScopedError err then false
  else if leaf_answer le_transientRateLimit err then true
  else has_code ErrorCodeTransientRateLimit err.

(** ** Retry hints *)

(** The first wrapper of a kind in the chain. *)
Fixpoint as_exhausted (err : go_error) : option (option duration * bool * go_error) :=
  match err with
  | RoundExhausted retryAfter retryNow c => Some (retryAfter, retryNow, c)
  | Leaf _ | AuthError _ => None
  | WithCause _ c | Wrapped _ c | UpstreamAttempt c | RequestStop c | TrustedRetryAfter _ c
  | StreamBootstrap c => as_exhausted c
  end.
Fixpoint as_trusted (err : go_error) : option time :=
  match err with
  | TrustedRetryAfter deadline _ => Some deadline
  | Leaf _ | AuthError _ => None
  | WithCause _ c | Wrapped _ c | UpstreamAttempt c | RequestStop c | RoundExhausted _ _ c
  | StreamBootstrap c => as_trusted c
  end.

Definition trusted_RetryAfter (deadline now : time) : option duration :=
  if is_zero deadline then None else Some (time_sub deadline now).
Definition trustedRetryAfterFromError (err : go_error) (now : time) : option duration :=
  match as_trusted err with
  | Some deadline => match trusted_RetryAfter deadline now with
                     | Some remaining => if 0 <? remaining then Some remaining else None
                     | None => None
                     end
  | None => None
  end.

(** [errors.As] to an interface with [RetryAfter], and its answer. *)
Fixpoint as_retryAfter (err : go_error) (now : time) : option (option duration) :=
  match err with
  | Leaf l => le_retryAfter l
  | AuthError _ => None
  | RoundExhausted retryAfter _ _ => Some retryAfter
  | TrustedRetryAfter deadline _ => Some (trusted_RetryAfter deadline now)
  | WithCause _ c | Wrapped _ c | UpstreamAttempt c | RequestStop c | StreamBootstrap c => as_retryAfter c now
  end.

Definition trustedRetryAfterHint (err : go_error) (now : time) : option duration :=
  match trustedRetryAfterFromError err now with
  | Some trusted => Some trusted
  | None => default None (as_retryAfter err now)
  end.

(** Whether the first error that answers [RetryAfter] is a trusted one. *)
Fixpoint retry_is_trusted (err : go_error) : bool :=
  match err with
  | TrustedRetryAfter _ _ => true
  | Leaf _ | AuthError _ | RoundExhausted _ _ _ => false
  | WithCause _ c | Wrapped _ c | UpstreamAttempt c | RequestStop c | StreamBootstrap c => retry_is_trusted c
  end.

Fixpoint retryAfterFromError (err : go_error) (now : time) : option duration :=
  match as_exhausted err with
  | Some (retryAfter, _, _) => retryAfter
  | None =>
      match trustedRetryAfterFromError err now with
      | Some trusted => Some trusted
      | None =>
          if retry_is_trusted err then
            match err with
            | Leaf _ | AuthError _ => None
            | WithCause _ c | Wrapped _ c | UpstreamAttempt c | RequestStop c | RoundExhausted _ _ c
            | TrustedRetryAfter _ c | StreamBootstrap c => retryAfterFromError c now
            end
          else default None (as_retryAfter err now)
      end
  end.

(** ** Marks and wrappers *)

Fixpoint hasUpstreamExecutionAttempt (err : go_error) : bool :=
  match err with
  | UpstreamAttempt _ => true
  | Leaf _ | AuthError _ => false
  | WithCause _ c | Wrapped _ c | RequestStop c | RoundExhausted _ _ c | TrustedRetryAfter _ c
  | StreamBootstrap c => hasUpstreamExecutionAttempt c
  end.
Definition markUpstreamExecutionAttempt (err : go_error) : go_error :=
  if hasUpstreamExecutionAttempt err then err else UpstreamAttempt err.
(** [attempted]: the tracker of the context says that the transport was reached. *)
Definition markUpstreamExecutionAttemptFromContext (attempted : bool) (err : go_error) : go_error :=
  if negb attempted then err else markUpstreamExecutionAttempt err.
Definition unwrapUpstreamExecutionAttempt (err : go_error) : go_error :=
  match err with UpstreamAttempt c => c | _ => err end.

(** What the first [requestStopError] of the chain holds. *)
Fixpoint as_stop (err : go_error) : option go_error :=
  match err with
  | RequestStop c => Some c
  | Leaf _ | AuthError _ => None
  | WithCause _ c | Wrapped _ c | UpstreamAttempt c | RoundExhausted _ _ c | TrustedRetryAfter _ c
  | StreamBootstrap c => as_stop c
  end.
Definition unwrapRequestStopError (err : go_error) : go_error := default err (as_stop err).
Definition wrapRequestStopError (err : go_error) : go_error := RequestStop (unwrapRequestStopError err).
Definition unwrapExecutionBoundaryError (err : go_error) : go_error :=
  unwrapUpstreamExecutionAttempt (unwrapRequestStopError err).

Definition preferredExecutionAttemptError (fallback : go_error) (upstream : option go_error) : go_error :=
  if is_canceled fallback || is_deadline_exceeded fallback then fallback
  else match upstream with
       | None => fallback
       | Some upstream =>
           match as_exhausted fallback with
           | Some (retryAfter, retryNow, _) =>
               let upstream := unwrapUpstreamExecutionAttempt upstream in
               let upstream := match as_exhausted upstream with
                               | Some (_, _, cause) => cause
                               | None => upstream
                               end in
               markUpstreamExecutionAttempt (RoundExhausted retryAfter retryNow upstream)
           | None => markUpstreamExecutionAttempt upstream
           end
       end.

Fixpoint withTrustedRetryAfter (err : go_error) (retryAfter : option duration) (now : time) : go_error :=
  match retryAfter with
  | None => err
  | Some d =>
      if d <=? 0 then err
      else match err with
           | UpstreamAttempt c => markUpstreamExecutionAttempt (withTrustedRetryAfter c retryAfter now)
           | StreamBootstrap c => StreamBootstrap (withTrustedRetryAfter c retryAfter now)
           | RequestStop c => RequestStop (withTrustedRetryAfter c retryAfter now)
           | _ => match as_trusted err with
                  | Some _ => err
                  | None => TrustedRetryAfter (now + d) err
                  end
           end
  end.
Definition annotateTrustedRetryAfterByHint (err : go_error) (now : time) : go_error :=
  withTrustedRetryAfter err (trustedRetryAfterHint err now) now.

(** The first bootstrap wrapper of the chain gets another cause. *)
Fixpoint map_bootstrap (f : go_error → go_error) (err : go_error) : option go_error :=
  match err with
  | StreamBootstrap c => Some (StreamBootstrap (f c))
  | Leaf _ | AuthError _ => None
  | WithCause base c => option_map (WithCause base) (map_bootstrap f c)
  | Wrapped text c => option_map (Wrapped text) (map_bootstrap f c)
  | UpstreamAttempt c => option_map UpstreamAttempt (map_bootstrap f c)
  | RequestStop c => option_map RequestStop (map_bootstrap f c)
  | RoundExhausted r n c => option_map (RoundExhausted r n) (map_bootstrap f c)
  | TrustedRetryAfter d c => option_map (TrustedRetryAfter d) (map_bootstrap f c)
  end.
Definition syncPreferredUpstreamError (upstreamErr : option go_error) (errExec : go_error) (now : time) :
    option go_error :=
  if negb (hasUpstreamExecutionAttempt errExec) then upstreamErr
  else
    let annotate cause :=
      match trustedRetryAfterHint errExec now with
      | Some hint => if 0 <? hint then withTrustedRetryAfter cause (Some hint) now else cause
      | None => cause
      end in
    match upstreamErr with
    | None => Some errExec
    | Some upstream => match map_bootstrap annotate upstream with
                       | Some annotated => Some annotated
                       | None => Some errExec
                       end
    end.

(** ** Classification *)

Section Classification.
Context `{CB : ChainBodies}.

Fixpoint error_text (err : go_error) : string :=
  match err with
  | Leaf l => le_text l
  | AuthError e => Error_text e
  | Wrapped text _ => text
  | WithCause base c =>
      let baseText := Error_text base in
      let summary := body_summary (error_text c) in
      if negb (String.eqb summary "") && negb (contains baseText summary)
      then baseText +:+ " (last upstream error: " +:+ summary +:+ ")" else baseText
  | UpstreamAttempt c | RequestStop c | RoundExhausted _ _ c | TrustedRetryAfter _ c | StreamBootstrap c =>
      error_text c
  end.
Definition response_body : go_error → option string := leaf_value le_body.

(** [clienterror.IsCreditBalanceTooLow] and [IsRequestFault] on a chain. *)
Definition credit_too_low (status : Z) (err : go_error) : bool :=
  body_credit status (error_text err) (response_body err).
Definition request_fault (status : Z) (err : go_error) : bool :=
  body_fault status (error_text err) (response_body err).

Definition not_found_here (err : go_error) (requestedModel : string) : bool :=
  if isModelNotFoundIdentifier (errorCodeFromError err) then true
  else match as_Error err with
       | Some e => isModelNotFoundIdentifier (err_Code e)
                   || body_model_not_found (err_Message e) requestedModel
                   || body_model_not_found (Error_text e) requestedModel
       | None => body_model_not_found (error_text err) requestedModel
       end.
Fixpoint isExplicitModelNotFoundError (err : go_error) (requestedModel : string) : bool :=
  if not_found_here err requestedModel then true
  else match err with
       | Leaf _ | AuthError _ => false
       | WithCause _ c | Wrapped _ c | UpstreamAttempt c | RequestStop c | RoundExhausted _ _ c
       | TrustedRetryAfter _ c | StreamBootstrap c => isExplicitModelNotFoundError c requestedModel
       end.

Definition isModelSupportError (err : go_error) : bool :=
  if isExplicitModelNotFoundError err "" then true
  else if negb (client_status (statusCodeFromError err)) then false
  else isModelSupportErrorMessage (error_text err).
Definition isInvalidGrantError (err : go_error) : bool :=
  isInvalidGrantErrorMessage (error_text err) && grant_status (statusCodeFromError err).
Definition isCloudflareChallengeError (err : go_error) : bool :=
  (statusCodeFromError err <? 500) && isCloudflareChallengeErrorMessage (error_text err).

(** A judgement on the chain, or else on the bare message of its [*Error]. *)
Definition or_bare_message (judge : Z → string → option string → bool) (err : go_error) : bool :=
  if judge (statusCodeFromError err) (error_text err) (response_body err) then true
  else match as_Error err with
       | Some e => negb (String.eqb (err_Message e) "") && judge (statusCodeFromError err) (err_Message e) None
       | None => false
       end.
Definition isCreditBalanceTooLowError (err : go_error) : bool := or_bare_message body_credit err.

Definition isRequestInvalidError (err : go_error) : bool :=
  if isStreamTruncatedError err then true
  else if isRequestScopedError err then true
  else if isCloudflareChallengeError err then false
  else if isInvalidGrantError err then false
  else if isCreditBalanceTooLowError err then false
  else if isModelSupportError err then false
  else or_bare_message body_fault err.

Definition isUnauthorizedError (err : go_error) : bool :=
  if statusCodeFromError err =? 401 then true
  else contains_any (to_lower (error_text err)) ["status 401"; "401 unauthorized"; "(401)"].

Definition isConfiguredTLSHandshakeTimeoutError (err : go_error) : bool :=
  if negb (statusCodeFromError err =? 0) then false else leaf_answer le_tlsHandshakeTimeout err.

Definition close_lifecycle (code : Z) : bool := (code =? 1000) || (code =? 1001) || (code =? 1006).
Definition isConnectionLifecycleError (err : go_error) : bool :=
  if match leaf_value le_closeCode err with Some code => close_lifecycle code | None => false end then true
  else if negb (statusCodeFromError err =? 0) then false
  else if isConfiguredTLSHandshakeTimeoutError err then false
  else if is_canceled err || is_deadline_exceeded err || leaf_answer le_eof err then true
  else isConnectionLifecycleMessage (error_text err).

Definition isTransientTransportError (err : go_error) : bool :=
  if negb (statusCodeFromError err =? 0) then false
  else if isConfiguredTLSHandshakeTimeoutError err then true
  else if is_canceled err || is_deadline_exceeded err then false
  else if leaf_answer le_eof err then true
  else if leaf_answer le_dnsTransient err then true
  else if leaf_answer le_netTimeout err then true
  else if leaf_answer le_transientErrno err then true
  else if leaf_answer le_netOp err then true
  else isTransientTransportMessage (error_text err).

(** What a result records of an error. *)
Definition set_code (code : string) (e : Error) : Error :=
  {| err_Code := code; err_Message := err_Message e; err_Retryable := err_Retryable e;
     err_HTTPStatus := err_HTTPStatus e |}.
Definition set_status (status : Z) (e : Error) : Error :=
  {| err_Code := err_Code e; err_Message := err_Message e; err_Retryable := err_Retryable e;
     err_HTTPStatus := status |}.
Definition code_unless_other (code : string) (e : Error) : Error :=
  if String.eqb (err_Code e) "" || String.eqb (err_Code e) code then set_code code e else e.

Definition resultErrorFromError (err : go_error) : Error :=
  let resultErr := match as_Error err with
                   | Some sourceErr => sourceErr
                   | None => {| err_Code := ""; err_Message := error_text err; err_Retryable := false;
                                err_HTTPStatus := 0 |}
                   end in
  let resultErr := if String.eqb (err_Code resultErr) "" then set_code (errorCodeFromError err) resultErr
                   else resultErr in
  let resultErr := if err_HTTPStatus resultErr =? 0 then set_status (statusCodeFromError err) resultErr
                   else resultErr in
  if isStreamTruncatedError err then set_code ErrorCodeStreamTruncated resultErr
  else if isTransientRateLimitError err then set_code ErrorCodeTransientRateLimit resultErr
  else if isExplicitModelNotFoundError err "" then
    (if String.eqb (err_Code resultErr) "" || String.eqb (err_Code resultErr) ErrorCodeRequestScoped
     then set_code "model_not_found" resultErr else resultErr)
  else if isRequestScopedError err || isRequestInvalidError err then set_code ErrorCodeRequestScoped resultErr
  else if isConfiguredTLSHandshakeTimeoutError err then code_unless_other ErrorCodeTransientTransport resultErr
  else if isConnectionLifecycleError err then code_unless_other ErrorCodeConnectionLifecycle resultErr
  else if isTransientTransportError err then code_unless_other ErrorCodeTransientTransport resultErr
  else resultErr.

(** ** Rules of a credential *)

Record RequestScopedErrorRule : Type := {
  rule_Status : Z;
  rule_Match : list string;
  rule_MatchRegexr : list string;
  rule_Action : string;
}.
Inductive rule_action : Type := ActionStop | ActionStopAndCooldown | ActionContinue | ActionContinueAndCooldown.
Definition parse_action (raw : string) : option rule_action :=
  let action := to_lower (trim_space raw) in
  if String.eqb action "stop" then Some ActionStop
  else if String.eqb action "stop-and-cooldown" then Some ActionStopAndCooldown
  else if String.eqb action "continue" then Some ActionContinue
  else if String.eqb action "continue-and-cooldown" then Some ActionContinueAndCooldown
  else None.

Definition extractErrorBody (err : go_error) : string :=
  let or_message := match as_Error err with
                    | Some e => if negb (String.eqb (err_Message e) "") then err_Message e else error_text err
                    | None => error_text err
                    end in
  match response_body err with
  | Some body => if String.eqb body "" then or_message else body
  | None => or_message
  end.
Definition rule_matches (rule : RequestScopedErrorRule) (body : string) : bool :=
  existsb (fun substr => negb (String.eqb substr "") && contains body substr) (rule_Match rule)
  || existsb (fun pattern => negb (String.eqb pattern "") && default false (regexp_match pattern body))
       (rule_MatchRegexr rule).
Fixpoint first_action (rules : list RequestScopedErrorRule) (statusCode : Z) (body : string) : option rule_action :=
  match rules with
  | [] => None
  | rule :: rest =>
      if (rule_Status rule <=? 0) || negb (rule_Status rule =? statusCode) then first_action rest statusCode body
      else if rule_matches rule body then
        match parse_action (rule_Action rule) with
        | Some action => Some action
        | None => first_action rest statusCode body
        end
      else first_action rest statusCode body
  end.
(** [rules]: those configured for the credential. *)
Definition matchRequestScopedErrorAction (rules : list RequestScopedErrorRule) (err : go_error) : option rule_action :=
  if IsUpstreamWebsocketTurnError err then None
  else first_action rules (statusCodeFromError err) (extractErrorBody err).
Definition isRequestScopedStop (action : option rule_action) : bool :=
  match action with Some ActionStop | Some ActionStopAndCooldown => true | _ => false end.
(** The action decides the code of the error a result records. *)
Definition apply_action (action : option rule_action) (e : Error) : Error :=
  match action with
  | None => e
  | Some ActionStop | Some ActionContinue => set_code ErrorCodeRequestScoped e
  | Some ActionStopAndCooldown | Some ActionContinueAndCooldown => set_code ErrorCodeForceCooldown e
  end.

(** ** Endpoints with errors of their own *)

(** [compact]: the request is for "responses/compact". *)
Definition credential_trouble (err : go_error) : bool :=
  isCredentialScopedError err || isCloudflareChallengeError err || isInvalidGrantError err
  || isCreditBalanceTooLowError err.
Definition isResponsesCompactRequestFaultError (compact : bool) (err : go_error) : bool :=
  if negb compact then false
  else if credential_trouble err then false
  else if request_fault (statusCodeFromError err) err then true
  else existsb (Z.eqb (statusCodeFromError err)) [400; 404; 405; 409; 413; 422; 501].
Definition isResponsesCompactAvailabilityNeutralError (compact : bool) (err : go_error) (resultErr : Error) : bool :=
  if negb compact then false
  else if String.eqb (err_Code resultErr) ErrorCodeForceCooldown then false
  else if credential_trouble err then false
  else if isCloudflareChallengeResultError resultErr || isInvalidGrantResultError resultErr
          || isCreditBalanceTooLowResultError resultErr then false
  else
    let status := if statusCodeFromError err =? 0 then err_HTTPStatus resultErr else statusCodeFromError err in
    negb (existsb (Z.eqb status) [401; 402; 403; 429]).

Definition isCountTokensUnsupportedErrorCode (value : string) : bool :=
  existsb (String.eqb (underscores (to_lower (trim_space value))))
    ["not_implemented"; "count_tokens_unsupported"; "count_tokens_not_supported"; "unsupported_operation";
     "unsupported_capability"; "method_not_implemented"].
Definition isCountTokensEndpointNotFoundError (err : go_error) (requestedModel : string) : bool :=
  let baseModel := Thinking.ModelName (Thinking.ParseSuffix requestedModel) in
  if isExplicitModelNotFoundError err baseModel then false
  else if statusCodeFromError err =? 404 then true
  else if isCredentialScopedError err || isCloudflareChallengeError err || isInvalidGrantError err
          || isCreditBalanceTooLowError err || isModelSupportErrorMessage (error_text err) then false
  else if statusCodeFromError err =? 501 then true
  else if statusCodeFromError err =? 0
  then isCountTokensUnsupportedErrorCode (errorCodeFromError err) || leaf_answer le_unsupported err
  else false.

End Classification.

End ErrorChain.
