(* ===== verification/ErrorProps.v ===== *)
(** * Properties of error chains

    The wrappers an execution puts around an error (the mark of an attempt, the stop
    of a request, the trusted retry time) do not change what the error is taken for,
    and the boundary gives the caller the error the executor returned. *)
From S2P Require Import Prelude GoLib AuthTypes Classify ErrorChain.
Import AuthTypes Classify ErrorChain.

Module ErrorProps.

(** ** Transparent questions *)

(** [f] sees through the wrappers of the execution. *)
Record transparent {A} (f : go_error → A) : Prop := {
  through_attempt c : f (UpstreamAttempt c) = f c;
  through_stop c : f (RequestStop c) = f c;
  through_bootstrap c : f (StreamBootstrap c) = f c;
  through_trusted d c : f (TrustedRetryAfter d c) = f c;
}.
#[local] Hint Constructors transparent : core.

Lemma mark_same {A} (f : go_error → A) e : transparent f → f (markUpstreamExecutionAttempt e) = f e.
Proof. intros [? _ _ _]. unfold markUpstreamExecutionAttempt. by destruct (hasUpstreamExecutionAttempt e). Qed.

Lemma withTrustedRetryAfter_same {A} (f : go_error → A) e d now :
  transparent f → f (withTrustedRetryAfter e d now) = f e.
Proof.
  intros Hf. destruct d as [d|]; [|by destruct e]. destruct (d <=? 0) eqn:Hd.
  - destruct e; cbn [withTrustedRetryAfter]; by rewrite Hd.
  - induction e as [l|e|base e IH|text e IH|e IH|e IH|r n e IH|t e IH|e IH]; cbn [withTrustedRetryAfter]; rewrite Hd;
      try (destruct (as_trusted _); [done|apply (through_trusted f Hf)]).
    + by rewrite mark_same, IH, (through_attempt f Hf).
    + by rewrite !(through_stop f Hf).
    + by rewrite !(through_bootstrap f Hf).
Qed.

Lemma annotate_same {A} (f : go_error → A) e now : transparent f → f (annotateTrustedRetryAfterByHint e now) = f e.
Proof. apply withTrustedRetryAfter_same. Qed.

Lemma as_stop_same {A} (f : go_error → A) e : transparent f → ∀ c, as_stop e = Some c →
  (∀ base c, f (WithCause base c) = f c) → (∀ text c, f (Wrapped text c) = f c) →
  (∀ r n c, f (RoundExhausted r n c) = f c) → f c = f e.
Proof.
  intros Hf c Hc Hb Ht Hr. induction e; cbn in Hc; try done;
    rewrite ?Hb, ?Ht, ?Hr, ?(through_attempt f Hf), ?(through_stop f Hf), ?(through_bootstrap f Hf), ?(through_trusted f Hf);
    auto. by injection Hc as ->.
Qed.

(** ** The questions of the execution *)

Lemma leaf_answer_transparent p : transparent (leaf_answer p).
Proof. done. Qed.
Lemma leaf_value_transparent {A} (p : leaf → option A) : transparent (leaf_value p).
Proof. done. Qed.
Lemma as_Error_transparent : transparent as_Error.
Proof. done. Qed.
Lemma status_transparent : transparent statusCodeFromError.
Proof. done. Qed.
Lemma code_transparent : transparent errorCodeFromError.
Proof. done. Qed.
Lemma requestScoped_transparent : transparent isRequestScopedError.
Proof. done. Qed.
Lemma truncated_transparent : transparent isStreamTruncatedError.
Proof. done. Qed.
Lemma rate_limit_transparent : transparent isTransientRateLimitError.
Proof. done. Qed.
#[export] Hint Resolve leaf_answer_transparent leaf_value_transparent as_Error_transparent status_transparent
  code_transparent requestScoped_transparent truncated_transparent rate_limit_transparent : core.

Section Classified.
Context `{CB : ChainBodies}.

Lemma text_transparent : transparent error_text.
Proof. done. Qed.

Lemma not_found_head e m : not_found_here e m = true → isExplicitModelNotFoundError e m = true.
Proof. intros Hh. by destruct e; cbn [isExplicitModelNotFoundError]; rewrite Hh. Qed.
Lemma not_found_step e c m : unwrap e = Some c → not_found_here e m = not_found_here c m →
  isExplicitModelNotFoundError e m = isExplicitModelNotFoundError c m.
Proof.
  intros Hu Hh. assert (isExplicitModelNotFoundError e m =
    if not_found_here e m then true else isExplicitModelNotFoundError c m) as -> by (by destruct e; cbn in Hu; simplify_eq).
  rewrite Hh. destruct (not_found_here c m) eqn:Hc; [|done]. by rewrite (not_found_head c m Hc).
Qed.
Lemma not_found_transparent m : transparent (fun e => isExplicitModelNotFoundError e m).
Proof. split; intros; by apply not_found_step. Qed.

Lemma support_transparent : transparent isModelSupportError.
Proof.
  split; intros; unfold isModelSupportError;
    rewrite (not_found_step _ c); done.
Qed.
Lemma invalid_transparent : transparent isRequestInvalidError.
Proof.
  destruct support_transparent as [H1 H2 H3 H4].
  split; intros; unfold isRequestInvalidError; rewrite ?H1, ?H2, ?H3, ?H4; done.
Qed.
Lemma unauthorized_transparent : transparent isUnauthorizedError.
Proof. done. Qed.
Lemma compact_fault_transparent b : transparent (isResponsesCompactRequestFaultError b).
Proof. done. Qed.
Lemma result_error_transparent : transparent resultErrorFromError.
Proof.
  destruct invalid_transparent as [H1 H2 H3 H4].
  split; intros; unfold resultErrorFromError; rewrite (not_found_step _ c) by done; rewrite ?H1, ?H2, ?H3, ?H4; done.
Qed.

Lemma skip_code code r : code = ErrorCodeStreamTruncated ∨ code = ErrorCodeRequestScoped →
  shouldSkipCredentialCooldown (Some (set_code code r)) = true.
Proof.
  intros [->| ->]; unfold shouldSkipCredentialCooldown, on_error, skip_cooldown, isRequestScopedResultError,
    IsRequestScoped, Classify.isRequestInvalidError, isStreamTruncatedResultError, set_code; cbn [err_Code].
  - by rewrite orb_true_r.
  - done.
Qed.
(** A fault of the request is recorded so that no credential pays for it. *)
Lemma fault_skips e :
  isRequestInvalidError e = true → isTransientRateLimitError e = false → isExplicitModelNotFoundError e "" = false →
  shouldSkipCredentialCooldown (Some (resultErrorFromError e)) = true.
Proof.
  intros Hi Ht Hn. unfold resultErrorFromError. rewrite Ht, Hn, Hi, orb_true_r.
  destruct (isStreamTruncatedError e); apply skip_code; auto.
Qed.

(** ** The boundary *)

Lemma annotate_mark e now :
  hasUpstreamExecutionAttempt e = false →
  annotateTrustedRetryAfterByHint (UpstreamAttempt e) now = UpstreamAttempt (annotateTrustedRetryAfterByHint e now).
Proof.
  intros He. unfold annotateTrustedRetryAfterByHint.
  assert (trustedRetryAfterHint (UpstreamAttempt e) now = trustedRetryAfterHint e now) as -> by done.
  destruct (trustedRetryAfterHint e now) as [d|]; cbn [withTrustedRetryAfter]; [|by destruct e].
  destruct (d <=? 0) eqn:Hd; [by destruct e; cbn [withTrustedRetryAfter]; rewrite Hd|].
  unfold markUpstreamExecutionAttempt. enough (∀ x, hasUpstreamExecutionAttempt x = false →
    hasUpstreamExecutionAttempt (withTrustedRetryAfter x (Some d) now) = false) as -> by done.
  clear e He. intros e. induction e; intros He; cbn [withTrustedRetryAfter]; rewrite Hd; cbn in *; try done;
    try (by destruct (as_trusted _)); auto.
Qed.
Lemma annotate_no_stop e now : as_stop e = None → as_stop (annotateTrustedRetryAfterByHint e now) = None.
Proof.
  unfold annotateTrustedRetryAfterByHint. destruct (trustedRetryAfterHint e now) as [d|]; [|by destruct e].
  destruct (d <=? 0) eqn:Hd; [by destruct e; cbn [withTrustedRetryAfter]; rewrite Hd|].
  induction e; intros He; cbn [withTrustedRetryAfter]; rewrite Hd; cbn in *; try done; try (by destruct (as_trusted _)).
  - unfold markUpstreamExecutionAttempt. destruct (hasUpstreamExecutionAttempt _); [|cbn]; auto.
  - auto.
Qed.
Lemma annotate_no_attempt e now :
  hasUpstreamExecutionAttempt e = false → unwrapUpstreamExecutionAttempt (annotateTrustedRetryAfterByHint e now)
                                          = annotateTrustedRetryAfterByHint e now.
Proof.
  unfold annotateTrustedRetryAfterByHint. destruct (trustedRetryAfterHint e now) as [d|]; [|by destruct e].
  destruct e; intros He; cbn [withTrustedRetryAfter]; destruct (d <=? 0); try done;
    cbn in *; try (by destruct (as_trusted _)).
Qed.

(** The boundary gives back what went in: an error of an executor, marked as an
    attempt, given its trusted retry time and wrapped to stop the request or not,
    reaches the caller with its retry time only, and reads the same: status, code,
    text, body and the error recorded for it. *)
Theorem boundary_roundtrip (attempted stop : bool) (e : go_error) (now : time)
    (Hstop : as_stop e = None) (Hattempt : hasUpstreamExecutionAttempt e = false) :
  let inside := annotateTrustedRetryAfterByHint (markUpstreamExecutionAttemptFromContext attempted e) now in
  let outside := unwrapExecutionBoundaryError (if stop then wrapRequestStopError inside else inside) in
  outside = annotateTrustedRetryAfterByHint e now
  ∧ statusCodeFromError outside = statusCodeFromError e ∧ errorCodeFromError outside = errorCodeFromError e
  ∧ error_text outside = error_text e ∧ response_body outside = response_body e
  ∧ resultErrorFromError outside = resultErrorFromError e.
Proof.
  cbv zeta. assert (unwrapExecutionBoundaryError (let inside := annotateTrustedRetryAfterByHint
    (markUpstreamExecutionAttemptFromContext attempted e) now in if stop then wrapRequestStopError inside else inside)
    = annotateTrustedRetryAfterByHint e now) as Hout.
  - cbv zeta. unfold markUpstreamExecutionAttemptFromContext, markUpstreamExecutionAttempt. rewrite Hattempt.
    unfold unwrapExecutionBoundaryError, unwrapRequestStopError, wrapRequestStopError, unwrapRequestStopError.
    pose proof (annotate_no_stop e now Hstop) as Hs. pose proof (annotate_no_attempt e now Hattempt) as Ha.
    destruct attempted, stop; cbn [negb]; rewrite ?(annotate_mark e now Hattempt); cbn [as_stop default];
      rewrite ?Hs; cbn [default unwrapUpstreamExecutionAttempt as_stop]; rewrite ?Hs; cbn [default]; rewrite ?Ha; done.
  - cbv zeta in Hout. rewrite Hout. split; [done|]. split_and!; apply annotate_same; auto using text_transparent, result_error_transparent.
Qed.

End Classified.

(** ** Witness *)

Definition plain_bodies : ChainBodies :=
  {| body_model_not_found := fun _ _ => false; body_credit := fun _ _ _ => false;
     body_fault := fun status _ _ => (status =? 400) || (status =? 422); body_not_persisted := fun _ => false;
     body_summary := fun s => s; regexp_match := fun _ _ => None |}.
(** What an executor returns for an answer with an error status. *)
Definition upstream (status : Z) (text : string) (retryAfter : option (option duration)) : go_error :=
  Leaf {| le_text := text; le_status := Some status; le_code := None; le_retryAfter := retryAfter; le_body := None;
          le_terminated := false; le_websocketTurn := false; le_credentialScoped := false; le_requestScoped := false;
          le_streamTruncated := false; le_transientRateLimit := false; le_canceled := false;
          le_deadlineExceeded := false; le_eof := false; le_unsupported := false; le_tlsHandshakeTimeout := false;
          le_dnsTransient := false; le_netTimeout := false; le_transientErrno := false; le_netOp := false;
          le_closeCode := None; le_homeBusy := false; le_homeCooldown := None |}.
#[local] Existing Instance plain_bodies.

Lemma boundary_roundtrip_witness :
  let e := upstream 429 "slow down" (Some (Some (5 * second))) in
  unwrapExecutionBoundaryError
    (wrapRequestStopError (annotateTrustedRetryAfterByHint (markUpstreamExecutionAttemptFromContext true e) 1000))
  = TrustedRetryAfter (1000 + 5 * second) e.
Proof.
  intros e. destruct (boundary_roundtrip true true e 1000 eq_refl eq_refl) as [-> _]. reflexivity.
Defined.

End ErrorProps.
