(* ===== verification/Retry.v ===== *)
(** * Retry rounds: sdk/cliproxy/auth/conductor_selection.go

    When a round of attempts has failed: is another round worth it, and after which
    wait.  [shouldRetryAfterErrorWithAttempted] asks whether some credential has
    retries left and may recover, and for the earliest time one of them does.  The
    resolution of model aliases ([selectionModelForAuth]) and the model registry
    ([ClientSupportsModel]) are arguments. *)
From S2P Require Import Prelude GoLib AuthTypes Expiry Availability Classify Cooldown SchedShard Scheduler ErrorChain.
Import AuthTypes Availability Classify Cooldown SchedShard Scheduler ErrorChain.

Module Retry.

(** A negative override counts as unset. *)
Definition RequestRetryOverride (a : Auth) : option Z :=
  let read key := mget (a_Metadata a) key ≫= parseIntAny in
  let unset_negative parsed := if parsed <? 0 then None else Some parsed in
  match read "request_retry" with
  | Some parsed => unset_negative parsed
  | None => match read "request-retry" with
            | Some parsed => unset_negative parsed
            | None => None
            end
  end.

Definition effectiveRequestRetryLimit (auth : Auth) (defaultRetry : Z) : Z :=
  default (Z.max 0 defaultRetry) (RequestRetryOverride auth).

Definition requestRetryRoundExclusions (auths : gmap string Auth) (retryRound defaultRequestRetry : Z) : gset string :=
  if retryRound <=? 0 then ∅
  else foldl (fun excluded auth =>
                if String.eqb (trim_space (a_ID auth)) "" then excluded
                else if effectiveRequestRetryLimit auth (Z.max 0 defaultRequestRetry) <? retryRound
                then {[ a_ID auth ]} ∪ excluded else excluded)
         ∅ (map snd (map_to_list auths)).

Definition isCredentialRetryRoundStatus (status : Z) : bool :=
  existsb (Z.eqb status) [403; 408; 429; 500; 502; 503; 504].
Definition isRequestRetryRoundError (err : option go_error) `{ChainBodies} : bool :=
  match err with
  | None => false
  | Some err => isCredentialRetryRoundStatus (statusCodeFromError err) || isTransientTransportError err
  end.

Definition credentialRetryRoundStateEligible (lastErr : option Error) (quotaExceeded : bool) : bool :=
  match lastErr with
  | None => quotaExceeded
  | Some e => isCredentialRetryRoundStatus (err_HTTPStatus e)
  end.

Definition quotaLive (quota : QuotaState) (now : time) : bool :=
  Exceeded quota && (is_zero (NextRecoverAt quota) || after (NextRecoverAt quota) now).
Definition hasLiveQuotaCooldown (auth : Auth) (model : string) (now : time) : bool :=
  if String.eqb (Reason (a_Quota auth)) "credential_quota" && quotaLive (a_Quota auth) now then true
  else
    let modelKey := canonicalModelKey model in
    if String.eqb modelKey "" then quotaLive (a_Quota auth) now
    else existsb (fun p => String.eqb (canonicalModelKey p.1) modelKey && quotaLive (ms_Quota p.2) now)
           (model_states auth).

Definition hasTransientZeroWaitEligibility (auth : Auth) (model : string) : bool :=
  let modelKey := canonicalModelKey model in
  let last_error := if negb (String.eqb modelKey "") then
                      match mjoin (a_ModelStates auth !! modelKey) with
                      | Some state => ms_LastError state
                      | None => a_LastError auth
                      end
                    else a_LastError auth in
  on_error isTransientRateLimitResultError last_error.

(** The loop over the model states: [None] when it returns that the credential is
    not eligible, else whether a state of the model blocks. *)
Fixpoint scan_retry (modelKey : string) (now : time) (matchedBlocked : bool) (states : list (string * ModelState)) :
    option bool :=
  match states with
  | [] => Some matchedBlocked
  | (stateModel, state) :: rest =>
      if negb (String.eqb (canonicalModelKey stateModel) modelKey) then scan_retry modelKey now matchedBlocked rest
      else if String.eqb (ms_Status state) StatusDisabled then None
      else
        let '(stateBlocked, _, stateNext) := state_block state now in
        if negb stateBlocked then scan_retry modelKey now matchedBlocked rest
        else if is_zero stateNext
                || negb (credentialRetryRoundStateEligible (ms_LastError state) (Exceeded (ms_Quota state)))
        then None
        else scan_retry modelKey now true rest
  end.

Section Retry.
Context `{GP : GoParse} `{CB : ChainBodies}.

Definition retryRoundAvailabilityForAuthForRequest (ctx : ReqCtx) (auth : Auth) (model : string) (now : time) :
    bool * time :=
  let '(blocked, reason, next) := isAuthBlockedForModelForRequest ctx auth model now in
  if negb blocked then (true, 0)
  else if is_zero next || reason_is reason blockReasonDisabled then (false, 0)
  else if credential_quota_active auth now
  then (credentialRetryRoundStateEligible (a_LastError auth) true, next)
  else
    let own_state := if credentialRetryRoundStateEligible (a_LastError auth) (Exceeded (a_Quota auth))
                     then (true, next) else (false, 0) in
    let modelKey := canonicalModelKey model in
    if negb (String.eqb modelKey "") && has_states auth then
      match scan_retry modelKey now false (model_states auth) with
      | None => (false, 0)
      | Some true => (true, next)
      | Some false => own_state
      end
    else own_state.

(** What a request brings to the decision. *)
Record retry_request : Type := {
  rq_ctx : ReqCtx;
  rq_providers : list string;
  rq_model : string;
  rq_eligibility : authSelectionEligibility;
  rq_pinned : string;
}.

Context (client_supports : string → string → bool) (selection_model : Auth → string → string).
Context (cfg : CoolingConfig).

Definition selectionModelKeyForAuth (auth : Auth) (routeModel : string) : string :=
  canonicalModelKey (selection_model auth routeModel).
Definition authSupportsRouteModel (auth : Auth) (routeModel : string) : bool :=
  let routeKey := canonicalModelKey routeModel in
  if String.eqb routeKey "" then true
  else if client_supports (a_ID auth) routeKey then true
  else
    let selectionKey := selectionModelKeyForAuth auth routeModel in
    negb (String.eqb selectionKey "") && negb (String.eqb selectionKey routeKey)
    && client_supports (a_ID auth) selectionKey.

Definition provider_set (providers : list string) : gset string :=
  list_to_set (List.filter (fun key => negb (String.eqb key ""))
                 (map (fun p => trim_space (to_lower p)) providers)).

(** The credentials the loops of [retryAllowedForRequest] and of
    [closestCooldownWaitWithAttemptedForRequest] do not pass over. *)
Definition may_retry (rq : retry_request) (attempt defaultRequestRetry : Z) (auth : Auth) : bool :=
  negb (is_disabled auth)
  && (String.eqb (rq_pinned rq) "" || String.eqb (a_ID auth) (rq_pinned rq))
  && allows (rq_eligibility rq) auth
  && bool_decide (executorKeyFromAuth auth ∈ provider_set (rq_providers rq))
  && (String.eqb (rq_model rq) "" || authSupportsRouteModel auth (rq_model rq))
  && (attempt <? effectiveRequestRetryLimit auth (Z.max 0 defaultRequestRetry)).
Definition check_model (rq : retry_request) (auth : Auth) : string :=
  if negb (String.eqb (trim_space (rq_model rq)) "") then selection_model auth (rq_model rq) else rq_model rq.
Definition round_availability (rq : retry_request) (auth : Auth) (now : time) : bool * time :=
  retryRoundAvailabilityForAuthForRequest (rq_ctx rq) auth (check_model rq auth) now.

Definition retryAllowedForRequest (auths : gmap string Auth) (rq : retry_request) (attempt defaultRequestRetry : Z)
    (now : time) : bool :=
  if attempt <? 0 then false
  else if bool_decide (provider_set (rq_providers rq) = ∅) then false
  else existsb (fun auth => may_retry rq attempt defaultRequestRetry auth && (round_availability rq auth now).1)
         (map snd (map_to_list auths)).

(** Whether a credential waits for its own deadline, without the floor. *)
Definition waits_exactly (rq : retry_request) (status : Z) (attempted : gset string) (auth : Auth) (now : time) : bool :=
  let checkModel := check_model rq auth in
  let transientZeroWait := negb (hasLiveQuotaCooldown auth checkModel now)
                           && hasTransientZeroWaitEligibility auth checkModel in
  negb (bool_decide (a_ID auth ∈ attempted)) || quotaCooldownDisabledForAuthWithConfig auth cfg
  || negb (status =? 429) || transientZeroWait.
Definition min_wait (best : option duration) (wait : duration) : option duration :=
  match best with
  | None => Some wait
  | Some minWait => if wait <? minWait then Some wait else best
  end.
Fixpoint closest_wait (rq : retry_request) (attempt defaultRequestRetry status : Z) (attempted : gset string)
    (now : time) (best : option duration) (auths : list Auth) : option duration :=
  match auths with
  | [] => best
  | auth :: rest =>
      let continue best := closest_wait rq attempt defaultRequestRetry status attempted now best rest in
      if negb (may_retry rq attempt defaultRequestRetry auth) then continue best
      else
        let '(retryEligible, next) := round_availability rq auth now in
        if negb retryEligible then continue best
        else if waits_exactly rq status attempted auth now then
          if is_zero next then Some 0
          else
            let wait := time_sub next now in
            if wait <? 0 then continue best else continue (min_wait best wait)
        else
          let wait := if is_zero next then minQuotaCooldownFloor
                      else Z.max minQuotaCooldownFloor (time_sub next now) in
          continue (min_wait best wait)
  end.
Definition closestCooldownWaitWithAttemptedForRequest (auths : gmap string Auth) (rq : retry_request)
    (attempt defaultRequestRetry status : Z) (attempted : gset string) (now : time) : option duration :=
  match rq_providers rq with
  | [] => None
  | _ => closest_wait rq attempt defaultRequestRetry status attempted now None (map snd (map_to_list auths))
  end.

(** ** Home *)

Definition homeRetryAllowed (home : bool) (requestRetry attempt retryLimit : Z) : bool :=
  if negb home || (attempt <? 0) then false
  else
    let retryLimit := if retryLimit <? 0 then Z.max 0 requestRetry else retryLimit in
    attempt <? retryLimit.
Definition observeHomeCooldownRetryLimit (remoteLimit : option Z) (retryLimit : Z) (acceptRemoteRetryLimit : bool) : Z :=
  if negb acceptRemoteRetryLimit then retryLimit else default retryLimit remoteLimit.

(** A hint is waited for when it is within the longest wait allowed. *)
Definition accept_wait (retryAfter maxWait : duration) : option duration :=
  if (retryAfter <? 0) || ((0 <? retryAfter) && ((maxWait <=? 0) || (maxWait <? retryAfter))) then None
  else Some retryAfter.

Definition retry_with_home (rq : retry_request) (requestRetry : Z) (err : go_error) (attempt : Z) (maxWait : duration)
    (homeRetryLimit : Z) (now : time) : option duration :=
  let homeRetryLimit :=
    match leaf_value le_homeCooldown err with
    | Some remoteLimit => observeHomeCooldownRetryLimit remoteLimit homeRetryLimit (String.eqb (rq_pinned rq) "")
    | None => homeRetryLimit
    end in
  match as_exhausted err with
  | Some (_, retryNow, _) =>
      if negb (isRequestRetryRoundError (Some err)) || negb (homeRetryAllowed true requestRetry attempt homeRetryLimit)
      then None
      else if retryNow then Some 0
      else match retryAfterFromError err now with
           | Some retryAfter => accept_wait retryAfter maxWait
           | None => Some 0
           end
  | None =>
      if negb (statusCodeFromError err =? 429) || negb (homeRetryAllowed true requestRetry attempt homeRetryLimit)
      then None
      else match retryAfterFromError err now with
           | Some retryAfter =>
               if (retryAfter <=? 0) || (maxWait <=? 0) || (maxWait <? retryAfter) then None else Some retryAfter
           | None => None
           end
  end.

(** [None] says not to retry, [Some wait] to wait and try another round.  The clock
    is read by each of the three steps. *)
Definition shouldRetryAfterErrorWithAttempted (home : bool) (requestRetry : Z) (auths : gmap string Auth)
    (rq : retry_request) (err : option go_error) (attempt : Z) (maxWait : duration) (homeRetryLimit : Z)
    (defaultRequestRetry : Z) (attempted : gset string) (now1 now2 now3 : time) : option duration :=
  match err with
  | None => None
  | Some e =>
      if is_home_busy e then None
      else
        let status := statusCodeFromError e in
        if status =? 200 then None
        else if isRequestInvalidError e || isRequestStopError e then None
        else if home then retry_with_home rq requestRetry e attempt maxWait homeRetryLimit now3
        else if negb (isRequestRetryRoundError err)
                || negb (retryAllowedForRequest auths rq attempt defaultRequestRetry now1) then None
        else match closestCooldownWaitWithAttemptedForRequest auths rq attempt defaultRequestRetry status attempted now2 with
             | Some wait => if (0 <? wait) && ((maxWait <=? 0) || (maxWait <? wait)) then None else Some wait
             | None => match retryAfterFromError e now3 with
                       | Some retryAfter => accept_wait retryAfter maxWait
                       | None => Some 0
                       end
             end
  end.

(** ** Waiting *)

Definition cooldownWaitJitterCap : duration := 2 * second.
(** [random] is what [rand.N] draws below its bound. *)
Definition jitteredCooldownWait (wait maxWait : duration) (random : duration → duration) : duration :=
  if wait <=? 0 then wait
  else
    let jitterRange := Z.min (Z.quot wait 4) cooldownWaitJitterCap in
    let jitterRange := if (0 <? maxWait) && (maxWait - wait <? jitterRange) then maxWait - wait else jitterRange in
    if jitterRange <=? 0 then wait else wait + random jitterRange.

End Retry.

End Retry.
