(* ===== verification/RetryProps.v ===== *)
(** * Properties of retry rounds

    A round is granted only when a credential is left that the next round may try,
    the wait is the shortest that can help, and waiting stays within its limits. *)
From S2P Require Import Prelude GoLib AuthTypes Expiry Availability Classify Cooldown SchedShard Scheduler ErrorChain ErrorProps Retry.
Import AuthTypes Availability Classify Cooldown SchedShard Scheduler ErrorChain ErrorProps Retry.

Module RetryProps.

(** ** Rounds *)

Lemma exclusions_fold (test : Auth → bool) (l : list Auth) (acc : gset string) id :
  id ∈ foldl (fun excluded auth => if String.eqb (trim_space (a_ID auth)) "" then excluded
                                   else if test auth then {[ a_ID auth ]} ∪ excluded else excluded) acc l
  ↔ id ∈ acc ∨ ∃ auth, auth ∈ l ∧ a_ID auth = id ∧ trim_space id ≠ "" ∧ test auth = true.
Proof.
  revert acc. induction l as [|a l IH]; intros acc; cbn [foldl]; [set_solver|]. rewrite IH. clear IH.
  destruct (String.eqb (trim_space (a_ID a)) "") eqn:Ht; bprop; [|destruct (test a) eqn:Hs].
  - set_solver.
  - rewrite elem_of_union, elem_of_singleton. setoid_rewrite elem_of_cons. split.
    + intros [[->|?]|(x & Hx & H)]; [|by left|]; right; [exists a; naive_solver|exists x; naive_solver].
    + intros [?|(x & [->|Hx] & <- & H)]; [by left; right|left; by left|]. right. exists x. naive_solver.
  - setoid_rewrite elem_of_cons. split.
    + intros [?|(x & Hx & H)]; [by left|]. right. exists x. naive_solver.
    + intros [?|(x & [->|Hx] & H)]; [by left|destruct H as (_ & _ & H); congruence|]. right. exists x. naive_solver.
Qed.

(** A round leaves out the credentials whose retries are used up. *)
Lemma exclusions_spec auths retryRound defaultRetry id :
  id ∈ requestRetryRoundExclusions auths retryRound defaultRetry ↔
  0 < retryRound ∧ ∃ k auth, auths !! k = Some auth ∧ a_ID auth = id ∧ trim_space id ≠ ""
                       ∧ effectiveRequestRetryLimit auth (Z.max 0 defaultRetry) < retryRound.
Proof.
  unfold requestRetryRoundExclusions. destruct (retryRound <=? 0) eqn:Hr; bprop; [split; [set_solver|lia]|].
  rewrite exclusions_fold. setoid_rewrite list_elem_of_fmap. setoid_rewrite Z.ltb_lt. split.
  - intros [?|(auth & ([k a] & -> & Hk%elem_of_map_to_list) & H)]; [set_solver|]. split; [done|]. exists k, a. done.
  - intros [_ (k & auth & Hk & H)]. right. exists auth. split; [|done]. exists (k, auth). split; [done|].
    by apply elem_of_map_to_list.
Qed.

Section Props.
Context `{GP : GoParse} `{CB : ChainBodies}.
Context (client_supports : string → string → bool) (selection_model : Auth → string → string).
Context (cfg : CoolingConfig).
Abbreviation may_retry := (may_retry client_supports selection_model).
Abbreviation round_availability := (round_availability selection_model).
Abbreviation waits_exactly := (waits_exactly selection_model cfg).
Abbreviation closest_wait := (closest_wait client_supports selection_model cfg).

(** What a credential that may recover answers: unblocked now, or blocked until a
    known time. *)
Lemma availability_spec ctx auth model now next :
  0 ≤ now → retryRoundAvailabilityForAuthForRequest ctx auth model now = (true, next) →
  (next = 0 ∧ blocked_for ctx model now auth = false)
  ∨ (now < next ∧ ∀ t, now ≤ t < next → blocked_for ctx model t auth = true).
Proof.
  intros Hn. unfold retryRoundAvailabilityForAuthForRequest, blocked_for.
  destruct (isAuthBlockedForModelForRequest ctx auth model now) as [[blocked reason] nx] eqn:Hb.
  destruct blocked; cbn [negb]; [|intros [= <-]; left; by rewrite ?Hb].
  destruct (is_zero nx || reason_is reason blockReasonDisabled) eqn:Hz; [done|]. bprop. intros Hr. right.
  assert (next = nx) as ->.
  { repeat (case_match; simplify_eq; try done). }
  pose proof (isAuthBlocked_stays ctx auth model now now reason nx) as Hstay.
  split.
  - destruct Hstay as [[?|?] _]; try done; lia.
  - intros t Ht. by apply (isAuthBlocked_stays ctx auth model now t reason nx); [lia|..]; auto; lia.
Qed.

(** The wait a credential asks for, and who asks. *)
Definition wait_of (rq : retry_request) (status : Z) (attempted : gset string) (now : time) (auth : Auth) : duration :=
  let next := (round_availability rq auth now).2 in
  if waits_exactly rq status attempted auth now then (if is_zero next then 0 else time_sub next now)
  else if is_zero next then minQuotaCooldownFloor else Z.max minQuotaCooldownFloor (time_sub next now).
Definition retryable (rq : retry_request) (attempt defaultRetry : Z) (now : time) (auth : Auth) : Prop :=
  may_retry rq attempt defaultRetry auth = true ∧ (round_availability rq auth now).1 = true.

Lemma time_sub_pos t u : u < t → 0 < time_sub t u ∧ time_sub t u ≤ t - u.
Proof. unfold time_sub, min_int64, max_int64. lia. Qed.

Lemma wait_of_nonneg rq attempt defaultRetry status attempted now auth :
  0 ≤ now → retryable rq attempt defaultRetry now auth → 0 ≤ wait_of rq status attempted now auth.
Proof.
  intros Hn [_ Hr]. unfold wait_of. destruct (round_availability rq auth now) as [e next] eqn:Ha. cbn in Hr. subst e. cbn [snd].
  destruct (availability_spec _ _ _ _ _ Hn Ha) as [[-> _]|[Hlt _]].
  - unfold is_zero. cbn. by destruct (waits_exactly _ _ _ _ _).
  - pose proof (time_sub_pos next now Hlt). unfold minQuotaCooldownFloor, second.
    destruct (waits_exactly _ _ _ _ _), (is_zero next); lia.
Qed.

(** One round of the loop. *)
Lemma closest_wait_cons rq attempt defaultRetry status attempted now best auth rest :
  0 ≤ now →
  closest_wait rq attempt defaultRetry status attempted now best (auth :: rest)
  = closest_wait rq attempt defaultRetry status attempted now best rest
    ∧ ¬ retryable rq attempt defaultRetry now auth
  ∨ retryable rq attempt defaultRetry now auth
    ∧ (closest_wait rq attempt defaultRetry status attempted now best (auth :: rest) = Some 0
         ∧ wait_of rq status attempted now auth = 0
       ∨ closest_wait rq attempt defaultRetry status attempted now best (auth :: rest)
         = closest_wait rq attempt defaultRetry status attempted now
             (min_wait best (wait_of rq status attempted now auth)) rest).
Proof.
  intros Hn. cbn [Retry.closest_wait]. unfold retryable.
  destruct (may_retry rq attempt defaultRetry auth) eqn:Hm; cbn [negb]; [|left; naive_solver].
  pose proof (λ H, wait_of_nonneg rq attempt defaultRetry status attempted now auth Hn H) as Hpos. unfold retryable in Hpos.
  unfold wait_of in *. destruct (round_availability rq auth now) as [eligible next]. cbn [fst snd] in *.
  destruct eligible; cbn [negb]; [|left; naive_solver]. right. split; [done|].
  destruct (waits_exactly rq status attempted auth now); [|by right].
  destruct (is_zero next); [by left|]. right. destruct (_ <? 0) eqn:Hw; [|done]. bprop. specialize (Hpos (conj Hm eq_refl)). lia.
Qed.

Lemma min_wait_spec best w :
  ∃ m, min_wait best w = Some m ∧ m ≤ w ∧ (∀ b, best = Some b → m ≤ b) ∧ (m = w ∨ best = Some m).
Proof.
  unfold min_wait. destruct best as [b|]; [|exists w; naive_solver lia].
  destruct (w <? b) eqn:E; bprop; [exists w|exists b]; split_and!; try done; try lia; naive_solver lia.
Qed.

Lemma closest_wait_spec rq attempt defaultRetry status attempted now best auths :
  0 ≤ now → (∀ b, best = Some b → 0 ≤ b) →
  match closest_wait rq attempt defaultRetry status attempted now best auths with
  | None => best = None ∧ ∀ a, a ∈ auths → ¬ retryable rq attempt defaultRetry now a
  | Some w => 0 ≤ w ∧ (∀ b, best = Some b → w ≤ b)
      ∧ (∀ a, a ∈ auths → retryable rq attempt defaultRetry now a → w ≤ wait_of rq status attempted now a)
      ∧ (best = Some w ∨ ∃ a, a ∈ auths ∧ retryable rq attempt defaultRetry now a
                               ∧ wait_of rq status attempted now a = w)
  end.
Proof.
  intros Hn. revert best. induction auths as [|a auths IH]; intros best Hb.
  { cbn. destruct best as [b|]; [|split; [done|set_solver]]. specialize (Hb b eq_refl).
    split_and!; [done|naive_solver lia|set_solver|by left]. }
  destruct (closest_wait_cons rq attempt defaultRetry status attempted now best a auths Hn)
    as [[-> Hno]|[Hyes [[-> Hz]|Hmin]]].
  - specialize (IH best Hb). destruct (closest_wait _ _ _ _ _ _ best auths) as [w|].
    + destruct IH as (H1 & H2 & H3 & H4). split_and!; [done|done| |].
      * intros x [->|Hx]%elem_of_cons Hr; [done|by apply H3].
      * destruct H4 as [?|(x & Hx & H)]; [by left|]. right. exists x. split; [by right|done].
    + destruct IH as [H1 H2]. split; [done|]. intros x [->|Hx]%elem_of_cons; [done|by apply H2].
  - split_and!; [done|naive_solver lia| |].
    + intros x _ Hr. by eapply wait_of_nonneg.
    + right. exists a. split; [by left|done].
  - rewrite Hmin. pose proof (wait_of_nonneg rq attempt defaultRetry status attempted now a Hn Hyes) as Ha.
    destruct (min_wait_spec best (wait_of rq status attempted now a)) as (m & Hm & Hma & Hmb & Hor). rewrite Hm.
    specialize (IH (Some m)). destruct (closest_wait _ _ _ _ _ _ (Some m) auths) as [w|].
    + destruct IH as (H1 & H2 & H3 & H4); [intros b [= <-]; destruct Hor as [->|Hor]; auto|].
      specialize (H2 m eq_refl). split_and!; [done|intros b Hbb; specialize (Hmb b Hbb); lia| |].
      * intros x [->|Hx]%elem_of_cons Hr; [lia|by apply H3].
      * destruct H4 as [[= ->]|(x & Hx & H)]; [|right; exists x; split; [by right|done]].
        destruct Hor as [->|Hor]; [|by left]. right. exists a. split; [by left|done].
    + destruct IH as [H1 _]; [intros b [= <-]; destruct Hor as [->|Hor]; auto|done].
Qed.

Lemma retry_allowed_spec auths rq attempt defaultRetry now :
  retryAllowedForRequest client_supports selection_model auths rq attempt defaultRetry now = true →
  0 ≤ attempt ∧ ∃ k auth, auths !! k = Some auth ∧ retryable rq attempt defaultRetry now auth.
Proof.
  unfold retryAllowedForRequest. destruct (attempt <? 0) eqn:Ha; [done|]. case_bool_decide; [done|].
  intros (auth & Hin%list_elem_of_In & Hr)%existsb_exists. bprop. split; [done|].
  apply list_elem_of_fmap in Hin as ([k a] & -> & Hk%elem_of_map_to_list). exists k, a. split; [done|]. by split.
Qed.

Lemma may_retry_limit rq attempt defaultRetry auth :
  may_retry rq attempt defaultRetry auth = true → attempt < effectiveRequestRetryLimit auth (Z.max 0 defaultRetry).
Proof. unfold Retry.may_retry. intros H. bprop. done. Qed.

(** A credential that may be tried again is not left out of the next round. *)
Lemma next_round_keeps auths rq attempt defaultRetry now k auth :
  (∀ k a, auths !! k = Some a → a_ID a = k) → auths !! k = Some auth → retryable rq attempt defaultRetry now auth →
  a_ID auth ∉ requestRetryRoundExclusions auths (attempt + 1) defaultRetry.
Proof.
  intros Hids Hk [Hm _] (_ & k' & a' & Hk' & Hid & _ & Hlim)%exclusions_spec.
  assert (k' = k) as -> by (rewrite <- (Hids k' a' Hk'), Hid; by apply Hids).
  assert (a' = auth) as -> by congruence. pose proof (may_retry_limit _ _ _ _ Hm). lia.
Qed.

Lemma providers_given auths rq attempt defaultRetry now :
  retryAllowedForRequest client_supports selection_model auths rq attempt defaultRetry now = true →
  rq_providers rq ≠ [].
Proof.
  unfold retryAllowedForRequest. destruct (attempt <? 0); [done|]. case_bool_decide as Hp; [done|].
  intros _ Hnil. apply Hp. by rewrite Hnil.
Qed.

Lemma closest_spec auths rq attempt defaultRetry status attempted now :
  0 ≤ now → rq_providers rq ≠ [] →
  match closestCooldownWaitWithAttemptedForRequest client_supports selection_model cfg auths rq attempt defaultRetry
          status attempted now with
  | None => ∀ k a, auths !! k = Some a → ¬ retryable rq attempt defaultRetry now a
  | Some w => 0 ≤ w ∧ ∀ k a, auths !! k = Some a → retryable rq attempt defaultRetry now a →
                        w ≤ wait_of rq status attempted now a
  end.
Proof.
  intros Hn Hp. unfold closestCooldownWaitWithAttemptedForRequest. destruct (rq_providers rq); [done|].
  pose proof (closest_wait_spec rq attempt defaultRetry status attempted now None (map snd (map_to_list auths)) Hn) as H.
  assert (Hin : ∀ k a, auths !! k = Some a → a ∈ map snd (map_to_list auths)).
  { intros k a Hk. apply list_elem_of_fmap. exists (k, a). split; [done|]. by apply elem_of_map_to_list. }
  destruct (closest_wait _ _ _ _ _ _ None _) as [w|].
  - destruct H as (H1 & _ & H3 & _); [done|]. split; [done|]. intros k a Hk. by eapply H3, Hin.
  - destruct H as (_ & H2); [done|]. intros k a Hk. by eapply H2, Hin.
Qed.

Lemma accept_wait_spec d maxWait w : accept_wait d maxWait = Some w → 0 ≤ w ∧ (0 < w → w ≤ maxWait).
Proof.
  unfold accept_wait. destruct (d <? 0) eqn:Hd; cbn [orb]; [done|]. bprop.
  destruct (0 <? d) eqn:H0; cbn [andb].
  - destruct ((maxWait <=? 0) || (maxWait <? d)) eqn:Hm; [done|]. intros [= <-]. bprop. lia.
  - intros [= <-]. bprop. lia.
Qed.

(** Until the wait is over, a credential that waits for its own deadline is blocked. *)
Lemma wait_blocks rq attempt defaultRetry status attempted now auth w t :
  0 ≤ now → retryable rq attempt defaultRetry now auth → waits_exactly rq status attempted auth now = true →
  w ≤ wait_of rq status attempted now auth → now ≤ t < now + w →
  blocked_for (rq_ctx rq) (check_model selection_model rq auth) t auth = true.
Proof.
  intros Hn [_ Hr] He Hw Ht. unfold wait_of in Hw. rewrite He in Hw.
  unfold Retry.round_availability in Hr, Hw.
  destruct (retryRoundAvailabilityForAuthForRequest (rq_ctx rq) auth (check_model selection_model rq auth) now)
    as [eligible next] eqn:Ha. cbn in Hr, Hw. subst eligible.
  destruct (availability_spec _ _ _ _ _ Hn Ha) as [[-> _]|[Hlt Hb]]; [cbn in Hw; lia|].
  apply Hb. pose proof (time_sub_pos next now Hlt). destruct (is_zero next) eqn:Hz; bprop; lia.
Qed.

(** C23 Another round is granted only when it can help and only within the limits:
    never for a fault of the request, only while some credential of the request has
    retries left and is usable or will be at a known time, which the next round then
    does not leave out; a positive wait is at most the longest one allowed; and no
    wait asked for by the credentials is too long: until it is over every credential
    that waits for its own deadline is blocked. *)
Theorem retry_round_sound (requestRetry : Z) (auths : gmap string Auth) (rq : retry_request) (e : go_error)
    (attempt : Z) (maxWait : duration) (homeRetryLimit defaultRetry : Z) (attempted : gset string)
    (now1 now2 now3 : time) (w : duration) (Hn : 0 ≤ now2) (Hids : ∀ k a, auths !! k = Some a → a_ID a = k)
    (Hretry : shouldRetryAfterErrorWithAttempted client_supports selection_model cfg false requestRetry auths rq (Some e)
                attempt maxWait homeRetryLimit defaultRetry attempted now1 now2 now3 = Some w) :
  isRequestInvalidError e = false ∧ isRequestStopError e = false ∧ isRequestRetryRoundError (Some e) = true
  ∧ 0 ≤ w ∧ (0 < w → w ≤ maxWait)
  ∧ (∃ k auth, auths !! k = Some auth ∧ retryable rq attempt defaultRetry now1 auth
       ∧ a_ID auth ∉ requestRetryRoundExclusions auths (attempt + 1) defaultRetry)
  ∧ ∀ k auth t, auths !! k = Some auth → retryable rq attempt defaultRetry now2 auth →
      waits_exactly rq (statusCodeFromError e) attempted auth now2 = true → now2 ≤ t < now2 + w →
      blocked_for (rq_ctx rq) (check_model selection_model rq auth) t auth = true.
Proof.
  unfold shouldRetryAfterErrorWithAttempted in Hretry. destruct (is_home_busy e); [done|].
  destruct (statusCodeFromError e =? 200); [done|].
  destruct (isRequestInvalidError e || isRequestStopError e) eqn:Hi; [done|]. bprop.
  destruct (negb (isRequestRetryRoundError (Some e)) || _) eqn:Hr; [done|]. bprop.
  destruct (retry_allowed_spec _ _ _ _ _ H2) as (Ha & k & auth & Hk & Hra).
  pose proof (closest_spec auths rq attempt defaultRetry (statusCodeFromError e) attempted now2 Hn
                (providers_given _ _ _ _ _ H2)) as Hc.
  split_and!; [done..| | | |].
  - destruct (closestCooldownWaitWithAttemptedForRequest _ _ _ _ _ _ _ _ _ _) as [w'|].
    + destruct (_ && _); [done|]. injection Hretry as <-. apply Hc.
    + destruct (retryAfterFromError e now3); [by apply accept_wait_spec in Hretry as [? _]|]. by injection Hretry as <-.
  - destruct (closestCooldownWaitWithAttemptedForRequest _ _ _ _ _ _ _ _ _ _) as [w'|].
    + intros Hpos. destruct (_ && _) eqn:Hm; [done|]. injection Hretry as ->.
      destruct (0 <? w) eqn:Hw0; bprop; [|lia]. cbn [andb] in Hm. bprop. lia.
    + destruct (retryAfterFromError e now3); [by apply accept_wait_spec in Hretry as [_ ?]|]. injection Hretry as <-. lia.
  - exists k, auth. split_and!; [done|done|]. by eapply next_round_keeps.
  - intros k' a t Hk' Hra' Hex Ht.
    destruct (closestCooldownWaitWithAttemptedForRequest _ _ _ _ _ _ _ _ _ _) as [w'|]; [|by destruct (Hc k' a Hk')].
    destruct (_ && _); [done|]. injection Hretry as ->. destruct Hc as [_ Hc].
    apply (wait_blocks rq attempt defaultRetry (statusCodeFromError e) attempted now2 a w t);
      [done|done|done|by apply (Hc k')|done].
Qed.

(** Jitter delays a wait by at most a quarter and two seconds, never past the
    longest wait allowed. *)
Lemma jitter_bounds (wait maxWait : duration) (random : duration → duration)
    (Hrandom : ∀ d, 0 < d → 0 ≤ random d < d) :
  let w := jitteredCooldownWait wait maxWait random in
  wait ≤ w ∧ (0 < wait → w ≤ wait + wait / 4 ∧ w ≤ wait + cooldownWaitJitterCap)
  ∧ (0 < maxWait → wait ≤ maxWait → w ≤ maxWait).
Proof.
  cbv zeta. unfold jitteredCooldownWait. destruct (wait <=? 0) eqn:H0; bprop; [lia|].
  rewrite Z.quot_div_nonneg by lia. unfold cooldownWaitJitterCap, second.
  set (r := Z.min _ _). pose proof (Hrandom r) as H1. pose proof (Hrandom (maxWait - wait)) as H2.
  pose proof (Z.div_pos wait 4). destruct (0 <? maxWait) eqn:Hm; cbn [andb]; bprop.
  - destruct (maxWait - wait <? r) eqn:Hr; bprop;
      (destruct (_ <=? 0) eqn:E; bprop; subst r; split_and!; lia).
  - destruct (_ <=? 0) eqn:E; bprop; subst r; split_and!; lia.
Qed.

End Props.

(** ** Witness *)

#[local] Existing Instance no_parse.
#[local] Existing Instance plain_bodies.

(** A credential whose model cools down until 5000 after a rate limit. *)
Definition limited : ModelState :=
  active_state <| ms_Unavailable := true |> <| ms_NextRetryAfter := 5000 |>
    <| ms_LastError := Some {| err_Code := ""; err_Message := "slow down"; err_Retryable := false; err_HTTPStatus := 429 |} |>.
Definition limited_auth : Auth :=
  (new_auth "a") <| a_Provider := "p" |> <| a_ModelStates := {["m" := Some limited]} |>.
Definition retry_config : CoolingConfig :=
  {| cfg_home_enabled := false; cfg_provider_override := fun _ => None; cfg_disable_cooling := false;
     quotaCooldownDisabled := false; transientErrorCooldownSeconds := 0 |}.
Definition limited_request : retry_request :=
  {| rq_ctx := background; rq_providers := ["p"]; rq_model := "m";
     rq_eligibility := {| requiredKind := ""; credentialPolicy := ""; disallowFreeAuth := false |}; rq_pinned := "" |}.

(** The request waits for the 4000 nanoseconds the credential is blocked. *)
Lemma retry_round_sound_witness :
  shouldRetryAfterErrorWithAttempted (fun _ _ => true) (fun _ m => m) retry_config false 2 {["a" := limited_auth]}
    limited_request (Some (upstream 503 "down" None)) 0 second (-1) 2 ∅ 1000 1000 1000 = Some 4000
  ∧ 4000 ≤ second ∧ blocked_for background "m" 4999 limited_auth = true.
Proof.
  assert (Hr : shouldRetryAfterErrorWithAttempted (fun _ _ => true) (fun _ m => m) retry_config false 2
    {["a" := limited_auth]} limited_request (Some (upstream 503 "down" None)) 0 second (-1) 2 ∅ 1000 1000 1000 = Some 4000)
    by (vm_compute; reflexivity).
  destruct (retry_round_sound (fun _ _ => true) (fun _ m => m) retry_config 2 {["a" := limited_auth]} limited_request
    (upstream 503 "down" None) 0 second (-1) 2 ∅ 1000 1000 1000 4000 ltac:(lia)
    ltac:(intros k a [<- <-]%lookup_singleton_Some; reflexivity) Hr) as (_ & _ & _ & _ & Hmax & _ & Hblock).
  split; [exact Hr|]. split; [exact (Hmax eq_refl)|].
  refine (Hblock "a" limited_auth 4999 eq_refl _ ltac:(vm_compute; reflexivity) ltac:(lia)).
  split; vm_compute; reflexivity.
Defined.

End RetryProps.
