(* ===== verification/Conduct.v ===== *)
(** * Execution of a request: sdk/cliproxy/auth/conductor_execution.go

    [executeMixedOnce] and [executeCountMixedOnce] are one round: pick a credential,
    prepare it, call the executor for each of its models, record the result, and on
    failure go on with the next credential.  [Execute] and [ExecuteCount] run rounds
    until one answers or no retry is worth it.  The two variants are one definition
    here with the [exec_kind] as argument, which says where they differ.

    Everything outside the loop is a [Host]: the manager with its credentials, the
    executors and the clock.  Its state [W] may change at every call, also by other
    requests.  A panic is an outcome of its own. *)
From S2P Require Import Prelude GoLib AuthTypes Expiry Availability Classify Cooldown MarkResult SchedShard Scheduler ErrorChain Retry.
Import AuthTypes Expiry Availability Classify Cooldown MarkResult SchedShard Scheduler ErrorChain Retry.

Inductive exec_kind : Type := Completion | CountTokens.
Definition is_count (k : exec_kind) : bool := match k with CountTokens => true | Completion => false end.

(** What the selection is told in a Home: the round, the number of credentials used so
    far, and the credentials to leave out. *)
Record pick_opts : Type := {
  po_retryRound : Z;
  po_authCount : Z;
  po_excluded : gset string;
}.

(** [host_prepare] and [host_execute] also give the errors of executors;
    [host_execute] says whether the transport was reached. *)
Class Host (W Resp : Type) : Type := {
  host_clock : W → time;
  host_auths : W → gmap string Auth;
  host_home : W → bool;
  (** [requestRetry], [maxRetryCredentials] and [maxRetryInterval] *)
  host_retry_settings : W → Z * Z * duration;
  host_cooling : W → CoolingConfig;
  (** the configuration allows Antigravity credits *)
  host_antigravity_credits : W → bool;
  host_supports : W → string → string → bool;
  host_random : W → duration → duration;
  host_ctx_err : W → option go_error;
  host_rules : W → Auth → list RequestScopedErrorRule;
  host_state_model : W → Auth → string → bool → string;
  host_selection_model : W → Auth → string → string;
  host_candidates : W → Auth → W * (list string * bool);
  host_pick : W → option pick_opts → gset string → W * outcome go_error (Auth * string);
  host_prepare : W → Auth → W * (option Auth * option go_error);
  host_intercept : W → Auth → string → W * option go_error;
  host_sequence : W → W * Z;
  host_execute : exec_kind → W → Auth → string → W * (bool * outcome go_error Resp);
  host_reject_token : W → string → string → W;
  host_refresh : W → string → string → W * option Auth;
  host_mark : W → Result → W;
  host_neutral : W → Result → W;
  host_completed : Resp → bool;
  host_rewrite : W → Auth → string → Resp → Resp;
  (** waits for the timer or the end of the request, and gives [ctx.Err()] *)
  host_sleep : W → duration → W * option go_error;
  host_execute_home : exec_kind → W → list string → W * outcome go_error Resp;
  (** [tryAntigravityCreditsExecute]: [None] when it was not tried *)
  host_credits : W → W * option (outcome go_error Resp);
}.

Module Conduct.

Section Conduct.
Context `{GP : GoParse} `{CB : ChainBodies} {W Resp : Type} `{H : Host W Resp}.

(** What a request brings along. *)
Record exec_request : Type := {
  xr_ctx : ReqCtx;
  xr_routeModel : string;
  (** [req.Model] of the executor's request, when it is not the upstream model *)
  xr_executionModel : option string;
  xr_compact : bool;
  xr_kind : exec_kind;
  xr_eligibility : authSelectionEligibility;
  xr_pinned : string;
}.

Inductive finish : Type :=
| Answer (o : outcome go_error Resp)
| Panicked.
Definition fail (err : go_error) : finish := Answer (Err err).

Definition auth_not_found : go_error := AuthError (plain_error "auth_not_found" "no auth available").
Definition provider_not_found : go_error := AuthError (plain_error "provider_not_found" "no provider supplied").

(** [err] is nil when the execution succeeded. *)
Definition claudeOAuthRequestCancellation (w : W) (auth : option Auth) (err : option go_error) : option go_error :=
  match auth with
  | None => None
  | Some auth =>
      if negb (equal_fold (trim_space (a_Provider auth)) "claude")
         || negb (equal_fold (trim_space (default "" (a_Attributes auth !! "auth_kind"))) "oauth") then None
      else
        let own := match err with Some e => if is_canceled e then Some e else None | None => None end in
        match host_ctx_err w with
        | Some c => if is_canceled c then Some c else own
        | None => own
        end
  end.

Definition isHomeRequestRetryExceededError (err : go_error) : bool :=
  match as_Error err with
  | Some e => equal_fold (trim_space (err_Code e)) "request_retry_exceeded"
  | None => false
  end.
Definition shouldReturnLastErrorOnPickFailure (homeMode : bool) (lastErr : option go_error) (errPick : go_error) : bool :=
  match lastErr with
  | None => false
  | Some _ =>
      if isRequestStopError errPick then false
      else if negb homeMode then true
      else if isHomeRequestRetryExceededError errPick then true
      else match as_Error errPick with
           | Some e => existsb (String.eqb (to_lower (trim_space (err_Code e)))) ["auth_not_found"; "auth_unavailable"]
           | None => false
           end
  end.

(** [filterExecutionModelsForRequest] and [preparedExecutionModelsWithAliasForRequest]. *)
Definition filterExecutionModelsForRequest (rq : exec_request) (w : W) (auth : Auth) (candidates : list string)
    (pooled : bool) : list string :=
  List.filter (fun upstreamModel =>
      negb (blocked_for (xr_ctx rq) (host_state_model w auth upstreamModel pooled) (host_clock w) auth)) candidates.
Definition preparedExecutionModelsWithAliasForRequest (rq : exec_request) (w : W) (auth : Auth) :
    W * (list string * bool) :=
  let '(w, (candidates, pooled)) := host_candidates w auth in
  (w, (filterExecutionModelsForRequest rq w auth candidates pooled, pooled)).

(** ** One call of the executor *)

Definition note_attempt (upstreamErr : option go_error) (errExec : go_error) : option go_error :=
  if hasUpstreamExecutionAttempt errExec then Some errExec else upstreamErr.

Definition call_executor (rq : exec_request) (w : W) (auth : Auth) (upstreamModel : string) :
    W * Z * outcome go_error Resp :=
  let '(w, executionSeq) := host_sequence w in
  let '(w, (attempted, answer)) := host_execute (xr_kind rq) w auth upstreamModel in
  (w, executionSeq, match answer with
                    | Ok resp => Ok resp
                    | Err err => Err (markUpstreamExecutionAttemptFromContext attempted err)
                    end).

Definition tryRefreshAfterUnauthorized (rq : exec_request) (w : W) (auth : Auth) (execErr : go_error)
    (alreadyTried : bool) : W * option Auth :=
  if isRequestScopedError execErr || negb (isUnauthorizedError execErr) then (w, None)
  else match matchRequestScopedErrorAction (host_rules w auth) execErr with
       | Some _ => (w, None)
       | None =>
           let failedToken := authAccessTokenForRequest (xr_ctx rq) auth in
           let w := if negb (String.eqb failedToken "") then host_reject_token w (a_ID auth) failedToken else w in
           if alreadyTried || negb (authHasRefreshCredential auth (host_clock w)) || hasUnauthorizedAuthFailure auth
           then (w, None)
           else
             let '(w, refreshed) := host_refresh w (a_ID auth) failedToken in
             match refreshed with
             | None => (w, None)
             | Some refreshed =>
                 if negb (String.eqb failedToken "")
                    && String.eqb (authAccessTokenForRequest (xr_ctx rq) refreshed) failedToken
                    && (String.eqb (a_RejectedAccessToken refreshed) failedToken
                        || String.eqb (a_RejectedSIWCAccessToken refreshed) failedToken)
                 then (w, None) else (w, Some refreshed)
             end
       end.

(** Where a call leaves its credential: an early end, or the credential (refreshed or
    not), the sequence number, the answer and the last upstream error. *)
Inductive called : Type :=
| CallEnded (f : finish)
| CallAnswered (auth : Auth) (didRefresh : bool) (executionSeq : Z) (answer : outcome go_error Resp)
    (upstreamErr : option go_error).

Definition call_with_refresh (rq : exec_request) (w : W) (auth : Auth) (didRefresh : bool) (upstreamModel : string)
    (upstreamErr : option go_error) : W * called :=
  let '(w, executionSeq, answer) := call_executor rq w auth upstreamModel in
  match answer with
  | Ok resp => (w, CallAnswered auth didRefresh executionSeq (Ok resp) upstreamErr)
  | Err errExec =>
      let upstreamErr := note_attempt upstreamErr errExec in
      match host_ctx_err w with
      | Some errCtx => (w, CallEnded (fail errCtx))
      | None =>
          let '(w, refreshed) := tryRefreshAfterUnauthorized rq w auth errExec didRefresh in
          match refreshed with
          | None => (w, CallAnswered auth didRefresh executionSeq (Err errExec) upstreamErr)
          | Some auth =>
              let '(w, executionSeq, answer) := call_executor rq w auth upstreamModel in
              match answer with
              | Ok resp => (w, CallAnswered auth true executionSeq (Ok resp) upstreamErr)
              | Err errExec =>
                  let upstreamErr := note_attempt upstreamErr errExec in
                  match host_ctx_err w with
                  | Some errCtx => (w, CallEnded (fail errCtx))
                  | None => (w, CallAnswered auth true executionSeq (Err errExec) upstreamErr)
                  end
              end
          end
      end
  end.

(** ** The result of a call *)

Definition base_result (rq : exec_request) (w : W) (auth : Auth) (provider model : string) (executionSeq : Z) : Result :=
  {| AuthID := a_ID auth; Provider := provider; Model := model; RouteModel := xr_routeModel rq;
     Success := false; CompletedResponse := false; RetryAfter := None; CredentialScope := false;
     ResultError := None; SkipQuotaObservation := is_count (xr_kind rq);
     AccessToken := authAccessTokenForRequest (xr_ctx rq) auth; CredentialVersion := a_CredentialVersion auth;
     RegistrationEpoch := a_RegistrationEpoch auth; ExecutionSeq := executionSeq |}.
Definition success_result (rq : exec_request) (base : Result) (completed : bool) : Result :=
  {| AuthID := AuthID base; Provider := Provider base; Model := Model base; RouteModel := RouteModel base;
     Success := true; CompletedResponse := negb (is_count (xr_kind rq)) && completed; RetryAfter := None;
     CredentialScope := false; ResultError := None; SkipQuotaObservation := SkipQuotaObservation base;
     AccessToken := AccessToken base; CredentialVersion := CredentialVersion base;
     RegistrationEpoch := RegistrationEpoch base; ExecutionSeq := ExecutionSeq base |}.
Definition failure_result (base : Result) (err : Error) (retryAfter : option duration) (credentialScope : bool) :
    Result :=
  {| AuthID := AuthID base; Provider := Provider base; Model := Model base; RouteModel := RouteModel base;
     Success := false; CompletedResponse := false; RetryAfter := retryAfter; CredentialScope := credentialScope;
     ResultError := Some err; SkipQuotaObservation := SkipQuotaObservation base;
     AccessToken := AccessToken base; CredentialVersion := CredentialVersion base;
     RegistrationEpoch := RegistrationEpoch base; ExecutionSeq := ExecutionSeq base |}.

(** What a failed call leaves: the round ends, or the credential is left with an
    error, at once ([break]) or after its other models ([continue]). *)
Inductive settled : Type :=
| SettledEnd (f : finish)
| SettledBreak (authErr : go_error) (upstreamErr : option go_error)
| SettledContinue (authErr : go_error) (upstreamErr : option go_error).

(** Whether the failure is recorded without touching the availability. *)
Definition availability_neutral (rq : exec_request) (upstreamModel : string) (errExec : go_error) (resultErr : Error) :
    bool :=
  if is_count (xr_kind rq)
  then isCountTokensEndpointNotFoundError errExec (default upstreamModel (xr_executionModel rq))
       && negb (String.eqb (err_Code resultErr) ErrorCodeForceCooldown)
  else isResponsesCompactAvailabilityNeutralError (xr_compact rq) errExec resultErr.
Definition stops_request (rq : exec_request) (errExec : go_error) : bool :=
  (negb (is_count (xr_kind rq)) && isResponsesCompactRequestFaultError (xr_compact rq) errExec)
  || isRequestInvalidError errExec.

Definition settle_failure (rq : exec_request) (w : W) (auth : Auth) (base : Result) (upstreamModel : string)
    (errExec : go_error) (upstreamErr : option go_error) : W * settled :=
  let action := matchRequestScopedErrorAction (host_rules w auth) errExec in
  let resultErr := apply_action action (resultErrorFromError errExec) in
  let neutral := availability_neutral rq upstreamModel errExec resultErr in
  let credentialScope := if is_count (xr_kind rq) && neutral then false else isCredentialScopedError errExec in
  let result := failure_result base resultErr (retryAfterFromError errExec (host_clock w)) credentialScope in
  let w := if neutral then host_neutral w result else host_mark w result in
  let now := host_clock w in
  let errExec := if neutral then errExec else annotateTrustedRetryAfterByHint errExec now in
  let upstreamErr := if neutral then upstreamErr else syncPreferredUpstreamError upstreamErr errExec now in
  let leave := if credentialScope then SettledBreak errExec upstreamErr else SettledContinue errExec upstreamErr in
  (w, match action with
      | Some _ => if isRequestScopedStop action then SettledEnd (fail (wrapRequestStopError errExec)) else leave
      | None => if stops_request rq errExec then SettledEnd (fail errExec) else leave
      end).

(** The loop over the models of one credential. *)
Inductive models_end : Type :=
| ModelsEnded (f : finish)
| ModelsLeft (auth : Auth) (authErr upstreamErr : option go_error).
Fixpoint run_models (rq : exec_request) (w : W) (auth : Auth) (provider : string) (pooled didRefresh : bool)
    (models : list string) (authErr upstreamErr : option go_error) : W * models_end :=
  match models with
  | [] => (w, ModelsLeft auth authErr upstreamErr)
  | upstreamModel :: rest =>
      let resultModel := host_state_model w auth upstreamModel pooled in
      let '(w, errIntercept) := host_intercept w auth upstreamModel in
      match errIntercept with
      | Some err => (w, ModelsEnded (fail err))
      | None =>
          let '(w, call) := call_with_refresh rq w auth didRefresh upstreamModel upstreamErr in
          match call with
          | CallEnded f => (w, ModelsEnded f)
          | CallAnswered auth didRefresh executionSeq answer upstreamErr =>
              let errExec := match answer with Ok _ => None | Err err => Some err end in
              match claudeOAuthRequestCancellation w (Some auth) errExec with
              | Some errCancel => (w, ModelsEnded (fail errCancel))
              | None =>
                  let base := base_result rq w auth provider resultModel executionSeq in
                  match answer with
                  | Ok resp =>
                      let w := host_mark w (success_result rq base (host_completed resp)) in
                      (w, ModelsEnded (Answer (Ok (host_rewrite w auth upstreamModel resp))))
                  | Err errExec =>
                      let '(w, settled) := settle_failure rq w auth base upstreamModel errExec upstreamErr in
                      match settled with
                      | SettledEnd f => (w, ModelsEnded f)
                      | SettledBreak authErr upstreamErr => (w, ModelsLeft auth (Some authErr) upstreamErr)
                      | SettledContinue authErr upstreamErr =>
                          run_models rq w auth provider pooled didRefresh rest (Some authErr) upstreamErr
                      end
                  end
              end
          end
      end
  end.

(** ** Preparing a credential

    [PrepareRequestAuth] with the executor's answers ([should], [prepare]), the
    credentials registered and [UpdatePreparedAuth]; the lock of the credential makes
    it one step.  Meta credentials must stay registered. *)
Definition is_meta (auth : Auth) : bool := equal_fold (trim_space (a_Provider auth)) "meta".
Definition PrepareRequestAuth (should : Auth → bool) (prepare : Auth → option Auth * option go_error)
    (registered : gmap string Auth) (update : Auth → Auth → option Auth * option go_error) (auth : Auth) :
    option Auth * option go_error :=
  if negb (should auth) then (Some auth, None)
  else
    let id := trim_space (a_ID auth) in
    if String.eqb id "" then prepare auth
    else
      let current := registered !! id in
      let target := default auth current in
      if bool_decide (current = None) && is_meta auth
      then (None, Some (errorf "prepare meta auth: credential no longer registered"))
      else if negb (should target) then (Some target, None)
      else
        match prepare target with
        | (_, Some errPrepare) => (Some auth, Some errPrepare)
        | (None, None) => (Some target, None)
        | (Some updated, None) =>
            match update target updated with
            | (_, Some errUpdate) => (None, Some errUpdate)
            | (Some saved, None) => (Some saved, None)
            | (None, None) =>
                if is_meta auth then (None, Some (errorf "prepare meta auth: credential removed during mint"))
                else (Some target, None)
            end
        end.

(** ** One round *)

(** [r_published]: what the tracker of [withAttemptedAuthTracker] has been told. *)
Record round : Type := {
  r_homeAuthCount : Z;
  r_tried : gset string;
  r_attempted : gset string;
  r_published : gset string;
  r_lastErr : option go_error;
  r_upstreamErr : option go_error;
}.
#[global] Instance round_eta : Eta round := fun r =>
  {| r_homeAuthCount := r_homeAuthCount r; r_tried := r_tried r; r_attempted := r_attempted r;
     r_published := r_published r; r_lastErr := r_lastErr r; r_upstreamErr := r_upstreamErr r |}.

(** The error of the round when no credential is left. *)
Definition last_or (r : round) (err : go_error) : finish :=
  fail (match r_lastErr r with
        | Some lastErr => preferredExecutionAttemptError lastErr (r_upstreamErr r)
        | None => err
        end).

(** The request is prepared for a credential; a failure is recorded and the round
    goes on, unless the caller has gone.  An error without a credential makes the
    code read the identifier of a nil pointer. *)
Definition prepare_failed (rq : exec_request) (w : W) (provider : string) (prepared : option Auth)
    (errPrepare : go_error) (r : round) : W * round * option finish :=
  match claudeOAuthRequestCancellation w prepared (Some errPrepare) with
  | Some errCancel => (w, r, Some (fail errCancel))
  | None =>
      match prepared with
      | None => (w, r, Some Panicked)
      | Some auth =>
          let stateModel := selectionModelKeyForAuth (host_selection_model w) auth (xr_routeModel rq) in
          let stateModel := if String.eqb stateModel "" then canonicalModelKey (xr_routeModel rq) else stateModel in
          let base := base_result rq w auth provider stateModel 0 in
          let w := host_mark w (failure_result base (resultErrorFromError errPrepare) None false) in
          (w, r <| r_lastErr := Some errPrepare |>, None)
      end
  end.

(** After the models of a credential: the same tests once more on its last error. *)
Definition after_models (rq : exec_request) (homeMode : bool) (w : W) (auth : Auth) (authErr : option go_error)
    (r : round) : round * option finish :=
  match authErr with
  | None => (r, None)
  | Some authErr =>
      let next := (r <| r_lastErr := Some authErr |>
                     <| r_homeAuthCount := if homeMode then r_homeAuthCount r + 1 else r_homeAuthCount r |>, None) in
      match matchRequestScopedErrorAction (host_rules w auth) authErr with
      | Some action =>
          if isRequestScopedStop (Some action) then (r, Some (fail (wrapRequestStopError authErr))) else next
      | None => if stops_request rq authErr then (r, Some (fail authErr)) else next
      end
  end.

(** [publishSelectedAuthMetadata] and the entry in [tried]. *)
Definition select (auth : Auth) (r : round) : round :=
  let id := trim_space (a_ID auth) in
  r <| r_published := if String.eqb id "" then r_published r else {[ id ]} ∪ r_published r |>
    <| r_tried := {[ a_ID auth ]} ∪ r_tried r |>.

(** What is done with the credential picked. *)
Definition try_credential (rq : exec_request) (homeMode : bool) (w : W) (auth : Auth) (provider : string) (r : round) :
    W * round * option finish :=
  let '(w, (models, pooled)) := preparedExecutionModelsWithAliasForRequest rq w auth in
  match models with
  | [] => (w, r, None)
  | _ =>
      let r := r <| r_attempted := {[ a_ID auth ]} ∪ r_attempted r |> in
      let '(w, (prepared, errPrepare)) := host_prepare w auth in
      match errPrepare with
      | Some errPrepare => prepare_failed rq w provider prepared errPrepare r
      | None =>
          match prepared with
          | None => (w, r, Some Panicked)
          | Some auth =>
              let '(w, ended) := run_models rq w auth provider pooled false models None (r_upstreamErr r) in
              match ended with
              | ModelsEnded f => (w, r, Some f)
              | ModelsLeft auth authErr upstreamErr =>
                  let '(r, ended) := after_models rq homeMode w auth authErr (r <| r_upstreamErr := upstreamErr |>) in
                  (w, r, ended)
              end
          end
      end
  end.

(** One turn of the loop: the round ends, or goes on. *)
Definition round_step (rq : exec_request) (homeMode : bool) (maxRetryCredentials retryRound : Z) (w : W) (r : round) :
    W * round * option finish :=
  if (0 <? maxRetryCredentials) && (maxRetryCredentials <=? Z.of_nat (size (r_attempted r)))
  then (w, r, Some (last_or r auth_not_found))
  else
    let opts := if homeMode then Some {| po_retryRound := retryRound; po_authCount := r_homeAuthCount r;
                                         po_excluded := r_tried r |} else None in
    let '(w, picked) := host_pick w opts (r_tried r) in
    match picked with
    | Err errPick =>
        (w, r, Some (if shouldReturnLastErrorOnPickFailure homeMode (r_lastErr r) errPick
                     then last_or r errPick else fail errPick))
    | Ok (auth, provider) => try_credential rq homeMode w auth provider (select auth r)
    end.

(** The loop of [executeMixedOnce]; [fuel] bounds its turns, [None] says that it was
    too small. *)
Fixpoint run_round (fuel : nat) (rq : exec_request) (homeMode : bool) (maxRetryCredentials retryRound : Z) (w : W)
    (r : round) : option (W * round * finish) :=
  match fuel with
  | O => None
  | S fuel' =>
      let '(w, r, ended) := round_step rq homeMode maxRetryCredentials retryRound w r in
      match ended with
      | Some f => Some (w, r, f)
      | None => run_round fuel' rq homeMode maxRetryCredentials retryRound w r
      end
  end.

(** [executeMixedOnce] and [executeCountMixedOnce], with the credentials published. *)
Definition executeMixedOnce (fuel : nat) (rq : exec_request) (providers : list string) (maxRetryCredentials retryRound
    defaultRequestRetry : Z) (w : W) : option (W * gset string * finish) :=
  match providers with
  | [] => Some (w, ∅, fail provider_not_found)
  | _ =>
      let homeMode := host_home w in
      let tried := if homeMode then ∅ else requestRetryRoundExclusions (host_auths w) retryRound defaultRequestRetry in
      '(w, r, f) ← run_round fuel rq homeMode maxRetryCredentials retryRound w
        {| r_homeAuthCount := 1; r_tried := tried; r_attempted := ∅; r_published := ∅; r_lastErr := None;
           r_upstreamErr := None |};
      Some (w, r_published r, f)
  end.

(** The same for a request to count tokens. *)
Definition count_request (rq : exec_request) : exec_request :=
  {| xr_ctx := xr_ctx rq; xr_routeModel := xr_routeModel rq; xr_executionModel := xr_executionModel rq;
     xr_compact := xr_compact rq; xr_kind := CountTokens; xr_eligibility := xr_eligibility rq;
     xr_pinned := xr_pinned rq |}.
Definition executeCountMixedOnce (fuel : nat) (rq : exec_request) : list string → Z → Z → Z → W →
    option (W * gset string * finish) := executeMixedOnce fuel (count_request rq).

(** ** Rounds *)

Definition normalizeProviders (providers : list string) : list string :=
  foldl (fun result provider =>
           let p := trim_space (to_lower provider) in
           if String.eqb p "" then result
           else if bool_decide (p ∈ result) then result else result ++ [p]) [] providers.

Definition waitForCooldown (w : W) (wait maxWait : duration) : W * option go_error :=
  if wait <=? 0 then (w, None) else host_sleep w (jitteredCooldownWait wait maxWait (host_random w)).

Definition hasAntigravityProvider (providers : list string) : bool :=
  existsb (fun p => equal_fold (trim_space p) "antigravity") providers.
(** A [modelCooldownError] has status 429, so it is no case of status 0. *)
Definition shouldAttemptAntigravityCreditsFallback (w : W) (lastErr : go_error) : bool :=
  if isRequestTerminatedError lastErr || isRequestStopError lastErr then false
  else if host_home w then false
  else if negb (host_antigravity_credits w) then false
  else
    let status := statusCodeFromError lastErr in
    if (status =? 429) || (status =? 503) then true
    else if status =? 0 then
      match as_Error lastErr with
      | Some authErr => existsb (String.eqb (err_Code authErr)) ["auth_not_found"; "auth_unavailable"; "model_cooldown"]
      | None => false
      end
    else false.

Definition is_completion (k : exec_kind) : bool := negb (is_count k).
(** The end of [Execute] and [ExecuteCount], when no further round is worth it. *)
Definition give_up_rounds (rq : exec_request) (providers : list string) (w : W) (lastErr : go_error)
    (preferredUpstreamErr : option go_error) : W * finish :=
  match host_ctx_err w with
  | Some errCtx => (w, fail errCtx)
  | None =>
      let lastErr := unwrapExecutionBoundaryError (preferredExecutionAttemptError lastErr preferredUpstreamErr) in
      if is_completion (xr_kind rq) && hasAntigravityProvider providers
         && shouldAttemptAntigravityCreditsFallback w lastErr
      then
        let '(w, credits) := host_credits w in
        match credits with
        | Some answer => (w, Answer answer)
        | None => (w, fail lastErr)
        end
      else (w, fail lastErr)
  end.

(** Whether another round follows, decided on the state the round left. *)
Definition next_round (rq : exec_request) (providers : list string) (w : W) (errExec : go_error) (attempt : Z)
    (maxWait : duration) (defaultRequestRetry : Z) (published : gset string) : option duration :=
  let '(requestRetry, _, _) := host_retry_settings w in
  let now := host_clock w in
  shouldRetryAfterErrorWithAttempted (host_supports w) (host_selection_model w) (host_cooling w) (host_home w)
    requestRetry (host_auths w)
    {| rq_ctx := xr_ctx rq; rq_providers := providers; rq_model := xr_routeModel rq;
       rq_eligibility := xr_eligibility rq; rq_pinned := xr_pinned rq |}
    (Some errExec) attempt maxWait (-1) defaultRequestRetry published now now now.

(** The loop of [Execute] and [ExecuteCount], from round [attempt] on. *)
Fixpoint rounds (fuel turns : nat) (rq : exec_request) (providers : list string) (defaultRequestRetry
    maxRetryCredentials : Z) (maxWait : duration) (attempt : Z) (preferredUpstreamErr : option go_error) (w : W) :
    option (W * finish) :=
  match fuel with
  | O => None
  | S fuel' =>
      '(w, published, f) ← executeMixedOnce turns rq providers maxRetryCredentials attempt defaultRequestRetry w;
      match f with
      | Panicked => Some (w, Panicked)
      | Answer (Ok resp) => Some (w, Answer (Ok resp))
      | Answer (Err errExec) =>
          if isRequestTerminatedError errExec || isRequestStopError errExec
          then Some (w, fail (unwrapExecutionBoundaryError errExec))
          else
            let preferredUpstreamErr := note_attempt preferredUpstreamErr errExec in
            match next_round rq providers w errExec attempt maxWait defaultRequestRetry published with
            | None => Some (give_up_rounds rq providers w errExec preferredUpstreamErr)
            | Some wait =>
                let '(w, errWait) := waitForCooldown w wait maxWait in
                match errWait with
                | Some errWait => Some (w, fail errWait)
                | None => rounds fuel' turns rq providers defaultRequestRetry maxRetryCredentials maxWait
                            (attempt + 1) preferredUpstreamErr w
                end
            end
      end
  end.

(** [Execute] and [ExecuteCount]; [fuel] bounds the rounds, [turns] the turns of each. *)
Definition Execute (fuel turns : nat) (rq : exec_request) (providers : list string) (w : W) : option (W * finish) :=
  let normalized := normalizeProviders providers in
  match normalized with
  | [] => Some (w, fail provider_not_found)
  | _ =>
      if host_home w then
        let '(w, answer) := host_execute_home (xr_kind rq) w normalized in
        Some (w, Answer (match answer with
                         | Ok resp => Ok resp
                         | Err errHome => Err (unwrapExecutionBoundaryError errHome)
                         end))
      else
        let '(defaultRequestRetry, maxRetryCredentials, maxWait) := host_retry_settings w in
        rounds fuel turns rq normalized defaultRequestRetry maxRetryCredentials maxWait 0 None w
  end.

Definition ExecuteCount (fuel turns : nat) (rq : exec_request) : list string → W → option (W * finish) :=
  Execute fuel turns (count_request rq).

End Conduct.

End Conduct.
