(* ===== verification/ConductProps.v ===== *)
(** * Properties of the execution of a request

    A round ends, the rounds end with the last retry a credential grants, and so every
    request ends.  The last section is a host made of the modelled parts. *)
From S2P Require Import Prelude GoLib AuthTypes Expiry Availability Classify Cooldown MarkResult CooldownEnds SchedShard Scheduler ErrorChain ErrorProps Retry RetryProps Conduct.
Import AuthTypes Expiry Availability Classify Cooldown MarkResult CooldownEnds SchedShard Scheduler ErrorChain ErrorProps Retry RetryProps Conduct.

(** What the execution relies on: a pick is a credential of [known] not tried before,
    and preparing or refreshing a credential does not turn it into another one. *)
Class HostLaws {W Resp} (H : Host W Resp) (known : gset string) : Prop := {
  pick_new w opts tried w' auth provider :
    host_pick w opts tried = (w', Ok (auth, provider)) → a_ID auth ∈ known ∧ a_ID auth ∉ tried;
  prepare_same w auth w' auth' err : host_prepare w auth = (w', (Some auth', err)) → a_ID auth' = a_ID auth;
  refresh_same w id token w' auth : host_refresh w id token = (w', Some auth) → a_ID auth = id;
}.

Module ConductProps.

(** ** Termination *)

Section Termination.
Context `{GP : GoParse} `{CB : ChainBodies} {W Resp : Type} {H : Host W Resp} {known : gset string}.
Context {Laws : HostLaws H known}.

Lemma after_models_tried rq homeMode w auth authErr r r' ended :
  after_models (H := H) rq homeMode w auth authErr r = (r', ended) →
  r_tried r' = r_tried r ∧ r_attempted r' = r_attempted r ∧ r_published r' = r_published r.
Proof.
  unfold after_models. destruct authErr as [e|]; [|by intros [= <- _]].
  destruct (matchRequestScopedErrorAction _ e) as [a|]; [destruct (isRequestScopedStop _)|destruct (stops_request _ _)];
    by intros [= <- _].
Qed.
Lemma prepare_failed_tried rq w provider prepared err r w' r' ended :
  prepare_failed (H := H) rq w provider prepared err r = (w', r', ended) →
  r_tried r' = r_tried r ∧ r_attempted r' = r_attempted r ∧ r_published r' = r_published r.
Proof.
  unfold prepare_failed. destruct (claudeOAuthRequestCancellation _ _ _); [by intros [= _ <- _]|].
  destruct prepared; by intros [= _ <- _].
Qed.

(** A credential is entered in [attempted] when it is tried at all. *)
Lemma try_credential_tried rq homeMode w auth provider r w' r' ended :
  try_credential (H := H) rq homeMode w auth provider r = (w', r', ended) →
  r_tried r' = r_tried r ∧ r_published r' = r_published r
  ∧ (r_attempted r' = r_attempted r ∨ r_attempted r' = {[ a_ID auth ]} ∪ r_attempted r).
Proof.
  unfold try_credential. destruct (preparedExecutionModelsWithAliasForRequest rq w auth) as [w1 [models pooled]].
  destruct models as [|m models]; [intros [= _ <- _]; auto|]. destruct (host_prepare w1 auth) as [w2 [prepared err]].
  destruct err as [err|]; [intros Hp%prepare_failed_tried; naive_solver|].
  destruct prepared as [auth'|]; [|intros [= _ <- _]; cbn; auto].
  destruct (run_models _ _ _ _ _ _ _ _) as [w3 [f|auth'' authErr upErr]]; [intros [= _ <- _]; cbn; auto|].
  destruct (after_models _ _ _ _ _ _) as [r1 e1] eqn:Ha. intros [= _ <- _].
  apply after_models_tried in Ha. naive_solver.
Qed.

Lemma round_step_tried rq homeMode max retryRound w r w' r' :
  round_step (H := H) rq homeMode max retryRound w r = (w', r', None) →
  ∃ id, id ∈ known ∧ id ∉ r_tried r ∧ r_tried r' = {[ id ]} ∪ r_tried r.
Proof.
  unfold round_step. destruct (_ && _); [done|].
  destruct (host_pick w _ (r_tried r)) as [w1 [[auth provider]|err]] eqn:Hp; [|done].
  apply pick_new in Hp as [Hk Ht]. intros Hs%try_credential_tried. exists (a_ID auth). naive_solver.
Qed.

Lemma run_round_total rq homeMode max retryRound fuel w r :
  (size (known ∖ r_tried r) < fuel)%nat →
  is_Some (run_round (H := H) fuel rq homeMode max retryRound w r).
Proof.
  revert w r. induction fuel as [|fuel IH]; intros w r Hf; [lia|]. cbn [run_round].
  destruct (round_step rq homeMode max retryRound w r) as [[w' r'] [f|]] eqn:Hs; [by eexists|].
  apply round_step_tried in Hs as (id & Hk & Ht & Hr). apply IH. rewrite Hr.
  assert (size (known ∖ ({[id]} ∪ r_tried r)) < size (known ∖ r_tried r))%nat; [|lia].
  apply subset_size. set_solver.
Qed.

Lemma executeMixedOnce_total rq providers max retryRound defaultRetry fuel w :
  (size known < fuel)%nat → is_Some (executeMixedOnce (H := H) fuel rq providers max retryRound defaultRetry w).
Proof.
  intros Hf. unfold executeMixedOnce. destruct providers; [by eexists|].
  set (r := Build_round _ _ _ _ _ _).
  destruct (run_round_total rq (host_home w) max retryRound fuel w r) as [[[w' r'] f] ->]; [|by eexists].
  pose proof (subseteq_size (known ∖ r_tried r) known ltac:(set_solver)). lia.
Qed.

(** No credential grants more than [limit] retries, whatever the default, and execution is local: no Home is
    in use, now or later. *)
Definition retries_bounded (limit : Z) : Prop :=
  (∀ w, host_home w = false)
  ∧ ∀ w w0 k auth, host_auths w !! k = Some auth →
      effectiveRequestRetryLimit auth (Z.max 0 (host_retry_settings w0).1.1) ≤ limit.

Lemma next_round_limit rq providers w err attempt maxWait w0 published limit wait :
  retries_bounded limit →
  next_round (H := H) rq providers w err attempt maxWait (host_retry_settings w0).1.1 published = Some wait →
  attempt < limit.
Proof.
  intros [Hhome Hlimit]. unfold next_round. destruct (host_retry_settings w) as [[requestRetry x] y].
  rewrite Hhome. intros Hs. unfold shouldRetryAfterErrorWithAttempted in Hs.
  destruct (is_home_busy err); [done|]. destruct (_ =? 200); [done|].
  destruct (isRequestInvalidError err || _); [done|].
  destruct (negb (isRequestRetryRoundError (Some err)) || _) eqn:Hr; [done|]. bprop.
  match goal with Ha : retryAllowedForRequest _ _ _ _ _ _ _ = true |- _ =>
    apply retry_allowed_spec in Ha as (_ & k & auth & Hk & Hm & _) end.
  apply may_retry_limit in Hm. specialize (Hlimit w w0 k auth Hk). lia.
Qed.

Lemma rounds_total rq providers w0 limit fuel turns max maxWait attempt upErr w :
  retries_bounded limit → (size known < turns)%nat → attempt ≤ limit → limit - attempt < Z.of_nat fuel →
  is_Some (rounds (H := H) fuel turns rq providers (host_retry_settings w0).1.1 max maxWait attempt upErr w).
Proof.
  intros Hb Ht. revert attempt upErr w. induction fuel as [|fuel IH]; intros attempt upErr w Ha Hf; [lia|].
  cbn [rounds]. destruct (executeMixedOnce_total rq providers max attempt (host_retry_settings w0).1.1 turns w Ht)
    as [[[w1 published] f] ->]. cbn.
  destruct f as [[resp|err]|]; [by eexists| |by eexists]. destruct (_ || _); [by eexists|].
  destruct (next_round _ _ _ _ _ _ _ _) as [wait|] eqn:Hn; [|by eexists].
  destruct (waitForCooldown w1 wait maxWait) as [w2 [e|]]; [by eexists|].
  apply next_round_limit with (limit := limit) in Hn; [|done]. apply IH; lia.
Qed.

(** C29 Every request ends.  A round takes at most one turn per credential and one
    more, and there are at most [limit + 1] rounds, when no credential grants more
    than [limit] retries and execution does not go through a Home. *)
Theorem Execute_terminates (limit : Z) (rq : exec_request) (providers : list string) (w : W)
    (Hlimit : 0 ≤ limit) (Hbound : retries_bounded limit) :
  is_Some (Execute (H := H) (S (Z.to_nat limit)) (S (size known)) rq providers w).
Proof.
  unfold Execute. destruct (normalizeProviders providers) as [|p ps]; [by eexists|].
  rewrite (proj1 Hbound w). destruct (host_retry_settings w) as [[retry max] maxWait] eqn:Hs.
  assert (retry = (host_retry_settings w).1.1) as -> by by rewrite Hs.
  apply (rounds_total _ _ _ limit); [done|lia|lia|lia].
Qed.

End Termination.

(** ** A credential that disappears *)

Section Prepare.
Context `{GP : GoParse} `{CB : ChainBodies} {W Resp : Type} {H : Host W Resp}.

(** Two ways to an error without a credential: a Meta credential that is gone, and an
    update that fails. *)
Lemma prepare_without_credential should prepare registered update auth :
  should auth = true → trim_space (a_ID auth) ≠ "" →
  (registered !! trim_space (a_ID auth) = None ∧ is_meta auth = true)
  ∨ (∃ target updated err x, registered !! trim_space (a_ID auth) = Some target ∧ should target = true
       ∧ prepare target = (Some updated, None) ∧ update target updated = (x, Some err)) →
  ∃ err, PrepareRequestAuth should prepare registered update auth = (None, Some err).
Proof.
  intros Hs Hid%String.eqb_neq [[Hr Hm]|(target & updated & err & x & Hr & Ht & Hp & Hu)];
    unfold PrepareRequestAuth; rewrite Hs, Hid, Hr.
  - case_bool_decide; [|done]. rewrite Hm. by eexists.
  - case_bool_decide; [done|]. cbn. rewrite Ht, Hp. cbn. rewrite Hu. destruct x; by eexists.
Qed.

(** The round then reads the identifier of a nil credential. *)
Lemma prepare_error_panics rq homeMode w auth provider r w1 m models pooled w2 err :
  preparedExecutionModelsWithAliasForRequest (H := H) rq w auth = (w1, (m :: models, pooled)) →
  host_prepare w1 auth = (w2, (None, Some err)) →
  ∃ r', try_credential (H := H) rq homeMode w auth provider r = (w2, r', Some Panicked).
Proof. intros H1 H2. unfold try_credential. rewrite H1, H2. by eexists. Qed.

End Prepare.

(** ** A host

    Credentials are picked in the order of a list, skipping those tried and those
    blocked; results are recorded by [MarkResult]; an executor answers by a table. *)

#[local] Existing Instance no_parse.
#[local] Existing Instance plain_bodies.

Record world : Type := {
  mw_manager : Manager;
  mw_now : time;
}.

Section Demo.
Context (ids : list string) (answers : string → string → bool * outcome go_error string).

Definition demo_ready (w : world) (model : string) (tried : gset string) (id : string) : bool :=
  negb (bool_decide (id ∈ tried))
  && match auths (mw_manager w) !! id with
     | Some auth => String.eqb (a_ID auth) id && negb (blocked_for background model (mw_now w) auth)
     | None => false
     end.
Definition demo_pick (w : world) (tried : gset string) : outcome go_error (Auth * string) :=
  match List.find (demo_ready w "m" tried) ids with
  | Some id => match auths (mw_manager w) !! id with
               | Some auth => Ok (auth, "p")
               | None => Err auth_not_found
               end
  | None => Err auth_not_found
  end.

Definition demo_host : Host world string := {|
  host_clock := mw_now;
  host_auths := fun w => filter (fun p => RequestRetryOverride p.2 = None) (auths (mw_manager w));
  host_home := fun _ => false;
  host_retry_settings := fun _ => (1, 2, 30 * second);
  host_cooling := fun _ => default_config;
  host_antigravity_credits := fun _ => false;
  host_supports := fun _ _ _ => true;
  host_random := fun _ _ => 0;
  host_ctx_err := fun _ => None;
  host_rules := fun _ _ => [];
  host_state_model := fun _ _ model _ => model;
  host_selection_model := fun _ _ model => model;
  host_candidates := fun w _ => (w, (["m"], false));
  host_pick := fun w _ tried => (w, demo_pick w tried);
  host_prepare := fun w auth => (w, (Some auth, None));
  host_intercept := fun w _ _ => (w, None);
  host_sequence := fun w =>
    ({| mw_manager := (mw_manager w) <| executionSeq := executionSeq (mw_manager w) + 1 |>; mw_now := mw_now w |},
     executionSeq (mw_manager w) + 1);
  host_execute := fun _ w auth model => (w, answers (a_ID auth) model);
  host_reject_token := fun w _ _ => w;
  host_refresh := fun w _ _ => (w, None);
  host_mark := fun w r =>
    {| mw_manager := (MarkResult default_config (fun _ m => m) None (mw_manager w) background ∅ r (mw_now w) (mw_now w)).1;
       mw_now := mw_now w + 1 |};
  host_neutral := fun w r =>
    {| mw_manager := recordAvailabilityNeutralResult (mw_manager w) r (mw_now w); mw_now := mw_now w + 1 |};
  host_completed := fun _ => true;
  host_rewrite := fun _ _ _ resp => resp;
  host_sleep := fun w d => ({| mw_manager := mw_manager w; mw_now := mw_now w + d |}, None);
  host_execute_home := fun _ w _ => (w, Err auth_not_found);
  host_credits := fun w => (w, None);
|}.

#[export] Instance demo_laws : HostLaws demo_host (list_to_set ids).
Proof.
  split; cbn.
  - intros w _ tried w' auth provider [= <- Hp]. unfold demo_pick in Hp.
    destruct (List.find _ ids) as [id|] eqn:Hf; [|done]. apply List.find_some in Hf as [Hin Hr].
    unfold demo_ready in Hr. destruct (auths (mw_manager w) !! id) as [a|]; [|by rewrite andb_false_r in Hr].
    injection Hp as <- _. bprop. subst id. split; [|done]. by apply elem_of_list_to_set, list_elem_of_In.
  - by intros w auth w' auth' err [= _ -> _].
  - done.
Qed.
Lemma demo_retries : retries_bounded (H := demo_host) 1.
Proof.
  split; [done|]. intros w w0 k auth [_ Hn]%map_lookup_filter_Some. cbn in Hn. unfold effectiveRequestRetryLimit.
  by rewrite Hn.
Qed.

End Demo.

(** A rate limit for "a"; "b" answers. *)
Definition demo_answers (id _ : string) : bool * outcome go_error string :=
  (true, if String.eqb id "a" then Err (upstream 429 "slow down" None) else Ok "hello").
Definition demo_auth (id : string) : Auth := (new_auth id) <| a_Provider := "p" |>.
Definition demo_world : world :=
  {| mw_manager := {| auths := {["a" := demo_auth "a"; "b" := demo_auth "b"]}; executionSeq := 0 |}; mw_now := 1000 |}.
Definition demo_request : exec_request :=
  {| xr_ctx := background; xr_routeModel := "m"; xr_executionModel := None; xr_compact := false;
     xr_kind := Completion; xr_eligibility := {| requiredKind := ""; credentialPolicy := ""; disallowFreeAuth := false |};
     xr_pinned := "" |}.
Definition demo : Host world string := demo_host ["a"; "b"] demo_answers.

(** The rate-limited credential is left, cools down, and the other one answers. *)
Example demo_run :
  match Execute (H := demo) 2 3 demo_request ["p"] demo_world with
  | Some (w, Answer (Ok resp)) =>
      String.eqb resp "hello"
      && (match auths (mw_manager w) !! "a" with Some a => blocked_for background "m" (mw_now w) a | None => false end)
      && negb (match auths (mw_manager w) !! "b" with Some b => blocked_for background "m" (mw_now w) b | None => true end)
  | _ => false
  end = true.
Proof. vm_compute. reflexivity. Qed.

Lemma Execute_terminates_witness : is_Some (Execute (H := demo) 2 3 demo_request ["p"] demo_world).
Proof.
  pose proof (Execute_terminates (H := demo) (known := {["a"; "b"]}) (Laws := demo_laws ["a"; "b"] demo_answers) 1
                demo_request ["p"] demo_world) as Ht.
  change (S (size ({["a"; "b"]} : gset string))) with 3%nat in Ht. exact (Ht ltac:(lia) (demo_retries _ _)).
Defined.

End ConductProps.
