(* ===== verification/ConductTrace.v ===== *)
(** * What a round does, as a trace

    Every round follows a grammar of picks, calls and records; a success is recorded
    once, for the call that answered, no credential is called that was not picked, and
    a fault of the request ends the round and is charged to nobody. *)
From S2P Require Import Prelude GoLib AuthTypes Expiry Availability Classify Cooldown MarkResult CooldownEnds SchedShard Scheduler ErrorChain ErrorProps Retry RetryProps Conduct ConductProps.
Import AuthTypes Expiry Availability Classify Cooldown MarkResult CooldownEnds SchedShard Scheduler ErrorChain ErrorProps Retry RetryProps Conduct ConductProps.

Module ConductTrace.

(** ** What a round does, as a trace *)

Inductive event : Type :=
| EvPick (id : string)
| EvCall (id upstreamModel : string) (err : option go_error)
| EvMark (r : Result)
| EvNeutral (r : Result).

(** The host, writing down what it is asked to do. *)
#[global] Instance logged {W Resp} (H : Host W Resp) : Host (W * list event) Resp := {
  host_clock '(w, _) := host_clock w;
  host_auths '(w, _) := host_auths w;
  host_home '(w, _) := host_home w;
  host_retry_settings '(w, _) := host_retry_settings w;
  host_cooling '(w, _) := host_cooling w;
  host_antigravity_credits '(w, _) := host_antigravity_credits w;
  host_supports '(w, _) := host_supports w;
  host_random '(w, _) := host_random w;
  host_ctx_err '(w, _) := host_ctx_err w;
  host_rules '(w, _) := host_rules w;
  host_state_model '(w, _) := host_state_model w;
  host_selection_model '(w, _) := host_selection_model w;
  host_candidates '(w, l) auth := let '(w, c) := host_candidates w auth in ((w, l), c);
  host_pick '(w, l) opts tried :=
    let '(w, picked) := host_pick w opts tried in
    (w, match picked with Ok (auth, _) => l ++ [EvPick (a_ID auth)] | Err _ => l end, picked);
  host_prepare '(w, l) auth := let '(w, p) := host_prepare w auth in ((w, l), p);
  host_intercept '(w, l) auth m := let '(w, e) := host_intercept w auth m in ((w, l), e);
  host_sequence '(w, l) := let '(w, n) := host_sequence w in ((w, l), n);
  host_execute k '(w, l) auth m :=
    let '(w, (attempted, answer)) := host_execute k w auth m in
    (w, l ++ [EvCall (a_ID auth) m match answer with
                                   | Ok _ => None
                                   | Err e => Some (markUpstreamExecutionAttemptFromContext attempted e)
                                   end], (attempted, answer));
  host_reject_token '(w, l) id token := (host_reject_token w id token, l);
  host_refresh '(w, l) id token := let '(w, a) := host_refresh w id token in ((w, l), a);
  host_mark '(w, l) r := (host_mark w r, l ++ [EvMark r]);
  host_neutral '(w, l) r := (host_neutral w r, l ++ [EvNeutral r]);
  host_completed := host_completed;
  host_rewrite '(w, _) := host_rewrite w;
  host_sleep '(w, l) d := let '(w, e) := host_sleep w d in ((w, l), e);
  host_execute_home k '(w, l) ps := let '(w, a) := host_execute_home k w ps in ((w, l), a);
  host_credits '(w, l) := let '(w, a) := host_credits w in ((w, l), a);
}.

(** ** The grammar of the traces *)

Section Trace.
Context `{GP : GoParse} `{CB : ChainBodies} {W Resp : Type} {H : Host W Resp} {known : gset string}.
Context {Laws : HostLaws H known}.
Context (rq : exec_request).

Definition failed (f : finish (Resp := Resp)) : Prop := match f with Answer (Ok _) => False | _ => True end.
(** No rule of a credential decides about the error. *)
Definition unruled (e : go_error) : Prop := ∀ w auth, matchRequestScopedErrorAction (host_rules w auth) e = None.
(** The error ends the request. *)
Definition fatal (e : go_error) : Prop := unruled e ∧ stops_request rq e = true.

(** The calls for one model: a refused token may be refreshed once. *)
Inductive calls (id : string) (err : option go_error) : list event → Prop :=
| call_once m : calls id err [EvCall id m err]
| call_refreshed m e : isUnauthorizedError e = true → calls id err [EvCall id m (Some e); EvCall id m err].

(** What is recorded of a failed call. *)
Inductive recorded (id : string) (e : go_error) : event → Prop :=
| Recorded r ev : ev = EvMark r ∨ ev = EvNeutral r → Success r = false → AuthID r = id →
    (unruled e → ResultError r = Some (resultErrorFromError e)) → recorded id e ev.

(** The work with the models of one credential. *)
Inductive models_trace (id : string) : list event → option (finish (Resp := Resp)) → Prop :=
| mt_left : models_trace id [] None
| mt_ended f : failed f → models_trace id [] (Some f)
| mt_interrupted err l f : calls id err l → failed f → models_trace id l (Some f)
| mt_answered l r resp : calls id None l → Success r = true → AuthID r = id →
    models_trace id (l ++ [EvMark r]) (Some (Answer (Ok resp)))
| mt_failed e l ev l' o : calls id (Some e) l → recorded id e ev → models_trace id l' o →
    (fatal e → l' = [] ∧ ∃ f, o = Some f) → models_trace id (l ++ ev :: l') o.

(** The work with one credential; the flag says whether it counts as attempted. *)
Inductive cred_trace (id : string) : bool → list event → option (finish (Resp := Resp)) → Prop :=
| ct_no_models : cred_trace id false [] None
| ct_prepare_ended f : failed f → cred_trace id true [] (Some f)
| ct_prepare_failed r : Success r = false → AuthID r = id → cred_trace id true [EvMark r] None
| ct_models l o : models_trace id l o → cred_trace id true l o
| ct_after l f : models_trace id l None → failed f → cred_trace id true l (Some f).

(** A round, from the credentials tried and attempted so far. *)
Inductive round_trace (max : Z) (tried attempted : gset string) : list event → finish (Resp := Resp) → Prop :=
| rt_end f : failed f → round_trace max tried attempted [] f
| rt_last id used l f : id ∉ tried → (0 < max → Z.of_nat (size attempted) < max) →
    cred_trace id used l (Some f) → round_trace max tried attempted (EvPick id :: l) f
| rt_next id (used : bool) l l' f : id ∉ tried → (0 < max → Z.of_nat (size attempted) < max) →
    cred_trace id used l None →
    round_trace max ({[ id ]} ∪ tried) (if used then {[ id ]} ∪ attempted else attempted) l' f →
    round_trace max tried attempted (EvPick id :: l ++ l') f.

(** *** Every round follows it *)

Definition answer_err (answer : outcome go_error Resp) : option go_error :=
  match answer with Ok _ => None | Err e => Some e end.

Lemma call_executor_trace w l auth m w' seq answer :
  call_executor rq (w, l) auth m = (w', seq, answer) →
  ∃ v, w' = (v, l ++ [EvCall (a_ID auth) m (answer_err answer)]).
Proof.
  unfold call_executor. cbn. destruct (host_sequence w) as [w1 n]. cbn.
  destruct (host_execute _ w1 auth m) as [w2 [attempted [resp|e]]]; intros [= <- _ <-]; by eexists.
Qed.
Lemma refresh_trace w l auth e tried w' refreshed :
  tryRefreshAfterUnauthorized rq (w, l) auth e tried = (w', refreshed) →
  (∃ v, w' = (v, l)) ∧ ∀ auth', refreshed = Some auth' → a_ID auth' = a_ID auth ∧ isUnauthorizedError e = true.
Proof.
  unfold tryRefreshAfterUnauthorized. destruct (_ || _) eqn:Hu; [intros [= <- <-]; naive_solver|].
  destruct (matchRequestScopedErrorAction _ _); [intros [= <- <-]; naive_solver|]. bprop.
  assert (∀ (b : bool) token, ∃ v, (if b then host_reject_token (w, l) (a_ID auth) token else (w, l)) = (v, l)) as Hv
    by (intros [] token; by eexists).
  edestruct Hv as [v ->]. destruct (_ || _); [intros [= <- <-]; naive_solver|]. cbn.
  destruct (host_refresh v _ _) as [v' [auth'|]] eqn:Hr; [|intros [= <- <-]; naive_solver].
  apply refresh_same in Hr. destruct (_ && _); intros [= <- <-]; split; try naive_solver.
Qed.

Lemma call_with_refresh_trace w l auth didRefresh m upErr w' call :
  call_with_refresh rq (w, l) auth didRefresh m upErr = (w', call) →
  ∃ v l', w' = (v, l ++ l') ∧
    match call with
    | CallEnded f => failed f ∧ ∃ err, calls (a_ID auth) err l'
    | CallAnswered auth' _ _ answer _ => a_ID auth' = a_ID auth ∧ calls (a_ID auth) (answer_err answer) l'
    end.
Proof.
  unfold call_with_refresh. destruct (call_executor rq (w, l) auth m) as [[w1 seq] answer] eqn:Hc.
  apply call_executor_trace in Hc as [v ->].
  destruct answer as [resp|e]; [intros [= <- <-]; do 2 eexists; do 2 (split; [done|]); constructor|].
  destruct (host_ctx_err _); [intros [= <- <-]; do 2 eexists; do 2 (split; [done|]); eexists; constructor|].
  destruct (tryRefreshAfterUnauthorized rq _ auth e didRefresh) as [w2 [auth'|]] eqn:Hr;
    apply refresh_trace in Hr as [[v2 ->] Hr];
    [|intros [= <- <-]; do 2 eexists; do 2 (split; [done|]); constructor].
  destruct (Hr auth' eq_refl) as [Hid Hu].
  destruct (call_executor rq (v2, _) auth' m) as [[w3 seq3] answer3] eqn:Hc.
  apply call_executor_trace in Hc as [v3 ->]. rewrite <- app_assoc, Hid.
  destruct answer3 as [resp|e3]; [|destruct (host_ctx_err _)]; intros [= <- <-]; do 2 eexists; (split; [done|]);
    split; try done; try eexists; by constructor.
Qed.

Lemma stops_transparent : transparent (stops_request rq).
Proof.
  destruct invalid_transparent as [H1 H2 H3 H4].
  split; intros; unfold stops_request; rewrite ?H1, ?H2, ?H3, ?H4; done.
Qed.

Lemma settle_failure_trace w l auth base m e upErr w' settled :
  settle_failure rq (w, l) auth base m e upErr = (w', settled) →
  ∃ v ev, w' = (v, l ++ [ev]) ∧ recorded (AuthID base) e ev
    ∧ match settled with SettledEnd f => failed f | _ => ¬ fatal e end.
Proof.
  unfold settle_failure. change (host_rules (w, l) auth) with (host_rules w auth).
  set (action := matchRequestScopedErrorAction (host_rules w auth) e).
  set (neutral := availability_neutral _ _ _ _). set (scope := if _ && neutral then _ else _).
  set (r := failure_result _ _ _ _). set (w1 := if neutral then _ else _).
  set (e' := if neutral then e else _). intros [= <- <-].
  assert (∃ v ev, w1 = (v, l ++ [ev]) ∧ (ev = EvMark r ∨ ev = EvNeutral r)) as (v & ev & -> & Hev)
    by (unfold w1; destruct neutral; do 2 eexists; eauto).
  exists v, ev. split; [done|]. split.
  - apply (Recorded _ _ r); [done|done|done|]. intros Hu. cbn. unfold action. by rewrite Hu.
  - assert (stops_request rq e' = stops_request rq e) as Hs
      by (unfold e'; destruct neutral; [done|apply annotate_same, stops_transparent]).
    destruct action as [a|] eqn:Ha; [destruct (isRequestScopedStop _)|destruct (stops_request rq e') eqn:Hse];
      try done; destruct scope; intros [Hu Hst]; unfold action in Ha; rewrite ?Hu in Ha; congruence.
Qed.

Lemma run_models_trace provider pooled models w l auth didRefresh authErr upErr w' ended :
  run_models rq (w, l) auth provider pooled didRefresh models authErr upErr = (w', ended) →
  ∃ v l', w' = (v, l ++ l') ∧
    models_trace (a_ID auth) l' match ended with ModelsEnded f => Some f | ModelsLeft _ _ _ => None end.
Proof.
  revert w l auth didRefresh authErr upErr. induction models as [|m models IH]; intros w l auth didRefresh authErr upErr;
    cbn [run_models]; [intros [= <- <-]; exists w, []; rewrite app_nil_r; split; [done|constructor]|].
  cbn [host_intercept logged]. destruct (host_intercept w auth m) as [w1 [e|]];
    [intros [= <- <-]; exists w1, []; rewrite app_nil_r; split; [done|by constructor]|].
  destruct (call_with_refresh rq (w1, l) auth didRefresh m upErr) as [w2 call] eqn:Hc.
  apply call_with_refresh_trace in Hc as (v & lc & -> & Hc). destruct call as [f|auth' dr seq answer up].
  { intros [= <- <-]. destruct Hc as [Hf [err Hc]]. exists v, lc. split; [done|]. by eapply mt_interrupted. }
  destruct Hc as [Hid Hc]. destruct (claudeOAuthRequestCancellation _ _ _).
  { intros [= <- <-]. exists v, lc. split; [done|]. by eapply mt_interrupted. }
  destruct answer as [resp|e].
  { intros [= <- <-]. do 2 eexists. rewrite <- app_assoc. split; [done|]. by apply mt_answered. }
  destruct (settle_failure _ _ _ _ _ _ _) as [w3 settled] eqn:Hs.
  apply settle_failure_trace in Hs as (v3 & ev & -> & Hrec & Hset). cbn [AuthID base_result] in Hrec. rewrite Hid in Hrec.
  rewrite <- app_assoc. destruct settled as [f|e' up'|e' up'].
  - intros [= <- <-]. do 2 eexists. split; [done|]. eapply mt_failed; [done|done|by apply mt_ended|]. naive_solver.
  - intros [= <- <-]. do 2 eexists. split; [done|]. eapply mt_failed; [done|done|apply mt_left|]. naive_solver.
  - intros Hr. apply IH in Hr as (v4 & l4 & -> & Hm). rewrite Hid in Hm. exists v4, (lc ++ ev :: l4).
    rewrite <- !app_assoc. split; [done|]. eapply mt_failed; [done|done|done|]. naive_solver.
Qed.

Lemma after_models_failed homeMode w auth authErr r r' f :
  after_models rq homeMode w auth authErr r = (r', Some f) → failed f.
Proof.
  unfold after_models. destruct authErr; [|done]. destruct (matchRequestScopedErrorAction _ _);
    [destruct (isRequestScopedStop _)|destruct (stops_request _ _)]; by intros [= _ <-].
Qed.

Lemma try_credential_trace homeMode w l auth provider r w' r' ended :
  try_credential rq homeMode (w, l) auth provider r = (w', r', ended) →
  ∃ v l' used, w' = (v, l ++ l') ∧ cred_trace (a_ID auth) used l' ended
    ∧ r_attempted r' = if used then {[ a_ID auth ]} ∪ r_attempted r else r_attempted r.
Proof.
  unfold try_credential, preparedExecutionModelsWithAliasForRequest. cbn [host_candidates logged].
  destruct (host_candidates w auth) as [w1 [models pooled]].
  destruct (filterExecutionModelsForRequest _ _ _ _ _) as [|m models'].
  { intros [= <- <- <-]. exists w1, [], false. rewrite app_nil_r. split_and!; [done|constructor|done]. }
  cbn [host_prepare logged]. destruct (host_prepare w1 auth) as [w2 [prepared err]] eqn:Hp. destruct err as [e|].
  - unfold prepare_failed. destruct (claudeOAuthRequestCancellation _ _ _).
    { intros [= <- <- <-]. exists w2, [], true. rewrite app_nil_r. split_and!; [done|by apply ct_prepare_ended|done]. }
    destruct prepared as [auth'|]; intros [= <- <- <-].
    + apply prepare_same in Hp. do 2 eexists. exists true. split; [done|]. split; [|done]. by apply ct_prepare_failed.
    + exists w2, [], true. rewrite app_nil_r. split_and!; [done|by apply ct_prepare_ended|done].
  - destruct prepared as [auth'|]; [|intros [= <- <- <-]; exists w2, [], true; rewrite app_nil_r;
                                     split_and!; [done|by apply ct_prepare_ended|done]].
    apply prepare_same in Hp. destruct (run_models _ _ _ _ _ _ _ _) as [w3 ended'] eqn:Hr.
    apply run_models_trace in Hr as (v & l' & -> & Hm). rewrite Hp in Hm. destruct ended' as [f|auth'' ae ue].
    + intros [= <- <- <-]. exists v, l', true. split_and!; [done|by apply ct_models|done].
    + destruct (after_models _ _ _ _ _ _) as [r1 e1] eqn:Ha. intros [= <- <- <-]. exists v, l', true.
      pose proof (after_models_tried _ _ _ _ _ _ _ _ Ha) as (_ & Hat & _). split_and!; [done| |done].
      destruct e1; [|by apply ct_models]. apply after_models_failed in Ha. by apply ct_after.
Qed.

Lemma last_or_failed r e : failed (last_or r e).
Proof. done. Qed.

Lemma run_round_trace homeMode max retryRound fuel w l r w' r' f :
  run_round fuel rq homeMode max retryRound (w, l) r = Some (w', r', f) →
  ∃ v l', w' = (v, l ++ l') ∧ round_trace max (r_tried r) (r_attempted r) l' f.
Proof.
  revert w l r. induction fuel as [|fuel IH]; intros w l r; cbn [run_round]; [done|]. unfold round_step.
  destruct (_ && _) eqn:Hm; [intros [= <- <- <-]; exists w, []; rewrite app_nil_r; split; [done|by constructor]|].
  assert (0 < max → Z.of_nat (size (r_attempted r)) < max) as Hmax by (intros; bprop; lia).
  cbn [host_pick logged]. destruct (host_pick w _ (r_tried r)) as [w1 [[auth provider]|e]] eqn:Hp;
    [|intros [= <- <- <-]; exists w1, []; rewrite app_nil_r; split; [done|constructor; by destruct (shouldReturnLastErrorOnPickFailure _ _ _)]].
  apply pick_new in Hp as [_ Hnew].
  destruct (try_credential _ _ _ _ _ _) as [[w2 r2] ended] eqn:Ht.
  pose proof (try_credential_tried _ _ _ _ _ _ _ _ _ Ht) as (Htried & _ & _).
  apply try_credential_trace in Ht as (v & l' & used & -> & Hc & Hatt). cbn in Htried, Hatt.
  destruct ended as [f'|].
  - intros [= <- <- <-]. do 2 eexists. rewrite <- app_assoc. split; [done|]. by eapply rt_last.
  - intros Hr. apply IH in Hr as (v' & l2 & -> & Htr). exists v', (EvPick (a_ID auth) :: l' ++ l2).
    rewrite <- !app_assoc. split; [done|]. rewrite Htried, Hatt in Htr. by eapply rt_next.
Qed.

(** ** What the grammar says *)

Definition picked (l : list event) : list string :=
  omap (fun ev => match ev with EvPick id => Some id | _ => None end) l.
Definition called (l : list event) : gset string :=
  list_to_set (omap (fun ev => match ev with EvCall id _ _ => Some id | _ => None end) l).
Definition about (id : string) (ev : event) : Prop :=
  match ev with
  | EvPick _ => False
  | EvCall id' _ _ => id' = id
  | EvMark r | EvNeutral r => AuthID r = id
  end.

Lemma calls_about id err l : calls id err l → Forall (about id) l.
Proof. by intros []; repeat constructor. Qed.
Lemma models_about id l o : models_trace id l o → Forall (about id) l.
Proof.
  induction 1 as [| |? ? ? ?%calls_about|l r resp ?%calls_about|e l ev l' o ?%calls_about Hrec]; try done.
  - apply Forall_app. split; [done|]. by repeat constructor.
  - apply Forall_app. split; [done|]. constructor; [|done]. by destruct Hrec as [r ev [->| ->]].
Qed.
Lemma cred_about id used l o : cred_trace id used l o → Forall (about id) l ∧ (used = false → l = []).
Proof. destruct 1 as [| | |l o Hm|l f Hm]; try (by repeat constructor); split; try done; by eapply models_about. Qed.

Lemma picked_app l l' : picked (l ++ l') = picked l ++ picked l'.
Proof. apply omap_app. Qed.
Lemma called_app l l' : called (l ++ l') = called l ∪ called l'.
Proof. unfold called. by rewrite omap_app, list_to_set_app_L. Qed.
Lemma about_none id l : Forall (about id) l → picked l = [].
Proof. by induction 1 as [|[] l Hx _ IH]; cbn. Qed.
Lemma about_called id l : Forall (about id) l → called l ⊆ {[ id ]}.
Proof. induction 1 as [|[] l Hx _ IH]; unfold called in *; cbn in *; set_solver. Qed.

Lemma round_picks max tried attempted l f :
  round_trace max tried attempted l f → (0 < max → Z.of_nat (size attempted) ≤ max) →
  NoDup (picked l) ∧ (∀ id, id ∈ picked l → id ∉ tried) ∧ called l ⊆ list_to_set (picked l)
  ∧ (0 < max → Z.of_nat (size (called l ∪ attempted)) ≤ max).
Proof.
  assert (∀ x (X : gset string), (size ({[ x ]} ∪ X) ≤ 1 + size X)%nat) as Hsize.
  { intros x X. rewrite size_union_alt, size_singleton. pose proof (subseteq_size (X ∖ {[x]}) X ltac:(set_solver)). lia. }
  induction 1 as [tried attempted f Hf|tried attempted id used l f Hid Hmax Hc|tried attempted id used l l' f Hid Hmax Hc Hr IH];
    intros Hsz.
  - split_and!; [constructor|set_solver|set_solver|]. intros Hm. specialize (Hsz Hm). change (called []) with (∅ : gset string).
    by rewrite (left_id_L ∅ (∪)).
  - apply cred_about in Hc as [Hc _]. pose proof (about_none id l Hc) as Hp. pose proof (about_called id l Hc) as Hcl.
    change (picked (EvPick id :: l)) with (id :: picked l). change (called (EvPick id :: l)) with (called l). rewrite Hp.
    split_and!; [by apply NoDup_singleton|set_solver|set_solver|]. intros Hm. specialize (Hmax Hm).
    pose proof (subseteq_size (called l ∪ attempted) ({[id]} ∪ attempted) ltac:(set_solver)). specialize (Hsize id attempted). lia.
  - apply cred_about in Hc as [Hc Hu]. pose proof (about_none id l Hc) as Hp. pose proof (about_called id l Hc) as Hcl.
    change (picked (EvPick id :: l ++ l')) with (id :: picked (l ++ l')).
    change (called (EvPick id :: l ++ l')) with (called (l ++ l')). rewrite picked_app, called_app, Hp. cbn [app].
    destruct IH as (H1 & H2 & H3 & H4).
    { intros Hm. specialize (Hmax Hm). destruct used; [|lia]. specialize (Hsize id attempted). lia. }
    split_and!; [constructor; [|done]; intros Hin; specialize (H2 id Hin); set_solver|set_solver|set_solver|].
    intros Hm. specialize (H4 Hm). destruct used; [|rewrite (Hu eq_refl); change (called []) with (∅ : gset string); by rewrite (left_id_L ∅ (∪))].
    pose proof (subseteq_size (called l ∪ called l' ∪ attempted) (called l' ∪ ({[id]} ∪ attempted)) ltac:(set_solver)). lia.
Qed.

(** No success is recorded. *)
Definition no_success (l : list event) : Prop :=
  Forall (fun ev => match ev with EvMark r | EvNeutral r => Success r = false | _ => True end) l.
Lemma no_success_app l l' : no_success (l ++ l') ↔ no_success l ∧ no_success l'.
Proof. apply Forall_app. Qed.

Lemma calls_no_success id err l : calls id err l → no_success l.
Proof. by intros []; repeat constructor. Qed.
Lemma recorded_no_success id e ev l : recorded id e ev → no_success l → no_success (ev :: l).
Proof. intros [r ev' [->| ->] Hs _ _] Hl; by constructor. Qed.

(** What an end of the work leaves in the trace: one success, at the end and for
    the last call, when it answers; none otherwise. *)
Definition answered_once (l : list event) (o : option (finish (Resp := Resp))) : Prop :=
  match o with
  | Some (Answer (Ok _)) =>
      ∃ l0 m r, l = l0 ++ [EvCall (AuthID r) m None; EvMark r] ∧ Success r = true ∧ no_success l0
  | _ => no_success l
  end.
Lemma answered_once_failed l f : failed f → no_success l → answered_once l (Some f).
Proof. by destruct f as [[|]|]. Qed.
Lemma answered_once_app l l' o : no_success l → answered_once l' o → answered_once (l ++ l') o.
Proof.
  intros Hl. unfold answered_once.
  destruct o as [[[resp|e]|]|]; try (intros; by apply no_success_app).
  intros (l0 & m & r & -> & Hs & H0). exists (l ++ l0), m, r. rewrite no_success_app, app_assoc. done.
Qed.

Lemma models_answered id l o : models_trace id l o → answered_once l o.
Proof.
  induction 1 as [|f Hf|err l f Hc Hf|l r resp Hc Hs Hid|e l ev l' o Hc Hrec _ IH _].
  - constructor.
  - by apply answered_once_failed; [|constructor].
  - by eapply answered_once_failed, calls_no_success.
  - subst id. destruct Hc as [m|m e Hu]; [exists [], m, r|exists [EvCall (AuthID r) m (Some e)], m, r];
      (split; [done|]); split; try done; repeat constructor.
  - apply answered_once_app; [by eapply calls_no_success|]. apply (answered_once_app [ev]); [|done].
    by eapply recorded_no_success; [|constructor].
Qed.
Lemma cred_answered id used l o : cred_trace id used l o → answered_once l o.
Proof.
  destruct 1 as [|f Hf|r Hs _|l o Hm|l f Hm Hf].
  - constructor.
  - by apply answered_once_failed; [|constructor].
  - by repeat constructor.
  - by eapply models_answered.
  - apply answered_once_failed; [done|]. by apply models_answered in Hm.
Qed.
Lemma round_answered max tried attempted l f : round_trace max tried attempted l f → answered_once l (Some f).
Proof.
  induction 1 as [tried attempted f Hf|tried attempted id used l f _ _ Hc|tried attempted id used l l' f _ _ Hc _ IH].
  - by apply answered_once_failed; [|constructor].
  - apply (answered_once_app [EvPick id]); [by repeat constructor|]. by eapply cred_answered.
  - apply (answered_once_app [EvPick id]); [by repeat constructor|]. apply answered_once_app; [|done].
    by apply cred_answered in Hc.
Qed.

(** *** Faults *)

Context (e : go_error) (Hfatal : fatal e) (Hauth : isUnauthorizedError e = false).

(** [Q] holds of what follows a call that failed with [e]. *)
Fixpoint after_fault (Q : list event → Prop) (l : list event) : Prop :=
  match l with
  | [] => True
  | EvCall _ _ (Some e') :: rest => (e' = e → Q rest) ∧ after_fault Q rest
  | _ :: rest => after_fault Q rest
  end.
Lemma after_fault_split Q l id m l' : after_fault Q (l ++ EvCall id m (Some e) :: l') → Q l'.
Proof. induction l as [|[| ? ? [] | |] l IH]; cbn; naive_solver. Qed.
Lemma after_fault_calls Q id err l l' :
  calls id err l → (err = Some e → Q l') → after_fault Q l' → after_fault Q (l ++ l').
Proof.
  intros [m|m e1 Hu] HQ Hl; destruct err as [e2|]; cbn; split_and?; try done; try congruence; intros ->; auto; congruence.
Qed.

(** At most one record follows the fault. *)
Definition settled_once (l : list event) : Prop := l = [] ∨ ∃ id ev, l = [ev] ∧ recorded id e ev.
Lemma models_fault id l o : models_trace id l o → after_fault settled_once l ∧ (o = None → after_fault (fun _ => False) l).
Proof.
  induction 1 as [|f Hf|err l f Hc Hf|l r resp Hc Hs Hid|e' l ev l' o Hc Hrec _ [IH1 IH2] Hend]; try done.
  - split; [|done]. rewrite <- (app_nil_r l). by eapply after_fault_calls; [done|by left|].
  - split; [|done]. by eapply after_fault_calls.
  - assert (∀ Q, after_fault Q l' → after_fault Q (ev :: l')) as Hev by (by destruct Hrec as [r ev [->| ->]]).
    split.
    + eapply after_fault_calls; [done| |by apply Hev]. intros [= ->]. destruct (Hend Hfatal) as [-> _].
      right. by exists id, ev.
    + intros ->. eapply after_fault_calls; [done| |by apply Hev, IH2]. intros [= ->].
      destruct (Hend Hfatal) as [_ [f ?]]. done.
Qed.
Lemma after_fault_app Q l l' : after_fault (fun _ => False) l → after_fault Q l' → after_fault Q (l ++ l').
Proof. induction l as [|[| ? ? [] | |] l IH]; cbn; naive_solver. Qed.
Lemma cred_fault id used l o : cred_trace id used l o →
  after_fault settled_once l ∧ (o = None → after_fault (fun _ => False) l).
Proof. destruct 1 as [| | |l o Hm|l f Hm Hf]; try done; apply models_fault in Hm; naive_solver. Qed.
Lemma round_fault max tried attempted l f : round_trace max tried attempted l f → after_fault settled_once l.
Proof.
  induction 1 as [tried attempted f Hf|tried attempted id used l f _ _ Hc|tried attempted id used l l' f _ _ Hc _ IH]; [done| |];
    apply cred_fault in Hc as [H1 H2]; cbn; [done|]. by apply after_fault_app; [apply H2|].
Qed.

End Trace.

(** ** The properties of a round *)

Section Claims.
Context `{GP : GoParse} `{CB : ChainBodies} {W Resp : Type} {H : Host W Resp} {known : gset string}.
Context {Laws : HostLaws H known}.

Lemma executed_trace rq fuel providers max retryRound defaultRetry w w' l published f :
  executeMixedOnce (H := logged H) fuel rq providers max retryRound defaultRetry (w, []) = Some ((w', l), published, f) →
  ∃ tried, round_trace (H := H) rq max tried ∅ l f
    ∧ (providers ≠ [] → host_home w = false → tried = requestRetryRoundExclusions (host_auths w) retryRound defaultRetry).
Proof.
  unfold executeMixedOnce. destruct providers as [|p ps].
  { intros [= <- <- <- <-]. exists ∅. split; [by constructor|done]. }
  set (r := Build_round _ _ _ _ _ _).
  destruct (run_round fuel rq _ max retryRound (w, []) r) as [[[w1 r1] f1]|] eqn:Hr; cbn; [|done].
  intros [= -> _ ->]. apply run_round_trace in Hr as (v & l' & [= _ ->] & Ht). exists (r_tried r). split; [done|].
  intros _ Hhome. cbn. by rewrite Hhome.
Qed.

(** C6 A round takes no credential twice and none whose retries are used up, calls
    executors for credentials it took only, and calls them for at most the number of
    credentials the configuration allows. *)
Theorem round_attempts_bounded (rq : exec_request) (fuel : nat) (providers : list string)
    (maxRetryCredentials retryRound defaultRetry : Z) (w w' : W) (l : list event) (published : gset string)
    (f : finish (Resp := Resp))
    (Hrun : executeMixedOnce (H := logged H) fuel rq providers maxRetryCredentials retryRound defaultRetry (w, [])
            = Some ((w', l), published, f)) :
  NoDup (picked l)
  ∧ (providers ≠ [] → host_home w = false → ∀ id, id ∈ picked l →
      id ∉ requestRetryRoundExclusions (host_auths w) retryRound defaultRetry)
  ∧ called l ⊆ list_to_set (picked l)
  ∧ (0 < maxRetryCredentials → Z.of_nat (size (called l)) ≤ maxRetryCredentials).
Proof.
  apply executed_trace in Hrun as (tried & Ht & Htried).
  apply round_picks in Ht as (H1 & H2 & H3 & H4); [|by rewrite size_empty; lia].
  rewrite (right_id_L ∅ (∪)) in H4. split_and!; [done| |done|done].
  intros Hp Hh id Hin. rewrite <- (Htried Hp Hh). by apply H2.
Qed.

(** C28 A success is recorded once: a round that answers ends with the call that
    answered and the record of that success, for that credential; no other record of
    the round is a success, and a round that fails records none. *)
Theorem success_recorded_once (rq : exec_request) (fuel : nat) (providers : list string)
    (maxRetryCredentials retryRound defaultRetry : Z) (w w' : W) (l : list event) (published : gset string)
    (f : finish (Resp := Resp))
    (Hrun : executeMixedOnce (H := logged H) fuel rq providers maxRetryCredentials retryRound defaultRetry (w, [])
            = Some ((w', l), published, f)) :
  match f with
  | Answer (Ok _) => ∃ l0 upstreamModel r,
      l = l0 ++ [EvCall (AuthID r) upstreamModel None; EvMark r] ∧ Success r = true ∧ no_success l0
  | _ => no_success l
  end.
Proof.
  apply executed_trace in Hrun as (tried & Ht & _). apply round_answered in Ht. by destruct f as [[|]|].
Qed.

(** C12 A fault of the request ends it and is charged to nobody: after a call that
    failed with a fault no rule of a credential decides about, the round calls no
    executor and takes no credential, it fails, and at most one result is recorded,
    whose error no cooldown follows from. *)
Theorem request_fault_ends_round (rq : exec_request) (fuel : nat) (providers : list string)
    (maxRetryCredentials retryRound defaultRetry : Z) (w w' : W) (l1 l2 : list event) (id upstreamModel : string)
    (e : go_error) (published : gset string) (f : finish (Resp := Resp))
    (Hrun : executeMixedOnce (H := logged H) fuel rq providers maxRetryCredentials retryRound defaultRetry (w, [])
            = Some ((w', l1 ++ EvCall id upstreamModel (Some e) :: l2), published, f))
    (Hinvalid : isRequestInvalidError e = true) (Hauth : isUnauthorizedError e = false) (Hrules : unruled (H := H) e)
    (Hrate : isTransientRateLimitError e = false) (Hmodel : isExplicitModelNotFoundError e "" = false) :
  failed f ∧ (l2 = [] ∨ ∃ r, (l2 = [EvMark r] ∨ l2 = [EvNeutral r]) ∧ Success r = false
                          ∧ ResultError r = Some (resultErrorFromError e)
                          ∧ shouldSkipCredentialCooldown (ResultError r) = true).
Proof.
  apply executed_trace in Hrun as (tried & Ht & _). pose proof (round_answered _ _ _ _ _ _ Ht) as Ha.
  assert (fatal (H := H) rq e) as Hf by (split; [done|]; unfold stops_request; by rewrite Hinvalid, orb_true_r).
  apply (round_fault rq e Hf Hauth) in Ht. apply after_fault_split in Ht.
  assert (l2 = [] ∨ ∃ r, (l2 = [EvMark r] ∨ l2 = [EvNeutral r]) ∧ Success r = false
            ∧ ResultError r = Some (resultErrorFromError e)) as Hl2.
  { destruct Ht as [->|(id' & ev & -> & [r ev' Hev Hs _ Hr])]; [by left|]. right. exists r.
    split_and!; [destruct Hev as [->| ->]; auto|done|by apply Hr]. }
  split.
  - destruct f as [[resp|]|]; [|done..]. destruct Ha as (l0 & m & r & Hl & Hs & _).
    assert (∀ (x : list event) c z, x ++ [c; z] = (x ++ [c]) ++ [z]) as Hsnoc by (intros; by rewrite <- app_assoc).
    rewrite Hsnoc in Hl. destruct Hl2 as [->|(r' & [->| ->] & Hr' & _)]; rewrite ?Hsnoc in Hl;
      apply app_inj_tail in Hl as [_ [= ->]]; congruence.
  - destruct Hl2 as [?|(r & H1 & H2 & H3)]; [by left|]. right. exists r. rewrite H3. split_and!; try done.
    by apply fault_skips.
Qed.

End Claims.

(** ** Witnesses *)

#[local] Existing Instance no_parse.
#[local] Existing Instance plain_bodies.

Definition traced (H : Host world string) : option ((world * list event) * gset string * finish (Resp := string)) :=
  executeMixedOnce (H := logged H) 3 demo_request ["p"] 2 0 1 (demo_world, []).
Definition trace_of (o : option ((world * list event) * gset string * finish (Resp := string))) : list event :=
  match o with Some ((_, l), _, _) => l | None => [] end.
Definition answered_by (o : option ((world * list event) * gset string * finish (Resp := string))) : bool :=
  match o with Some (_, _, Answer (Ok _)) => true | _ => false end.

Lemma round_attempts_bounded_witness :
  NoDup (picked (trace_of (traced demo))) ∧ Z.of_nat (size (called (trace_of (traced demo)))) ≤ 2.
Proof.
  destruct (traced demo) as [[[[w' l] published] f]|] eqn:Hrun; [|split; [constructor|vm_compute; discriminate]].
  destruct (round_attempts_bounded (Laws := demo_laws ["a"; "b"] demo_answers) demo_request 3 ["p"] 2 0 1 demo_world w' l
              published f Hrun) as (H1 & _ & _ & H4).
  split; [exact H1|exact (H4 eq_refl)].
Defined.

Lemma success_recorded_once_witness :
  ∃ l0 id m r, trace_of (traced demo) = l0 ++ [EvCall id m None; EvMark r] ∧ Success r = true ∧ no_success l0.
Proof.
  assert (Hok : answered_by (traced demo) = true) by (vm_compute; reflexivity).
  destruct (traced demo) as [[[[w' l] published] f]|] eqn:Hrun; [|discriminate Hok].
  pose proof (success_recorded_once (Laws := demo_laws ["a"; "b"] demo_answers) demo_request 3 ["p"] 2 0 1 demo_world w' l
                published f Hrun) as Hf.
  destruct f as [[resp|e]|]; [|discriminate Hok|discriminate Hok].
  destruct Hf as (l0 & m & r & Hl & Hs & Hn). exists l0, (AuthID r), m, r. exact (conj Hl (conj Hs Hn)).
Defined.

(** The request is at fault, whatever the credential. *)
Definition fault_answers (_ _ : string) : bool * outcome go_error string := (true, Err (upstream 400 "bad request" None)).
Definition fault_demo : Host world string := demo_host ["a"; "b"] fault_answers.
Definition fault_shape (l : list event) : bool :=
  match l with
  | [EvPick _; EvCall _ _ (Some e); _] =>
      isRequestInvalidError e && negb (isUnauthorizedError e) && negb (isTransientRateLimitError e)
      && negb (isExplicitModelNotFoundError e "")
  | _ => false
  end.

Lemma request_fault_ends_round_witness :
  match trace_of (traced fault_demo) with
  | [EvPick _; EvCall _ _ (Some _); ev] =>
      ∃ r, (ev = EvMark r ∨ ev = EvNeutral r) ∧ shouldSkipCredentialCooldown (ResultError r) = true
  | _ => False
  end.
Proof.
  assert (Hs : fault_shape (trace_of (traced fault_demo)) = true) by (vm_compute; reflexivity).
  destruct (traced fault_demo) as [[[[w' l] published] f]|] eqn:Hrun; [cbn [trace_of] in *|discriminate Hs].
  destruct l as [|[p| | |] [|[|id m [e|]| |] [|ev []]]]; try discriminate Hs. cbn [fault_shape] in Hs.
  apply andb_true_iff in Hs as [[[Hi Hu%negb_true_iff]%andb_true_iff Hr%negb_true_iff]%andb_true_iff Hm%negb_true_iff].
  destruct (request_fault_ends_round (Laws := demo_laws ["a"; "b"] fault_answers) demo_request 3 ["p"] 2 0 1 demo_world w'
    [EvPick p] [ev] id m e published f Hrun Hi Hu
    ltac:(intros w auth; unfold matchRequestScopedErrorAction; cbn; destruct (IsUpstreamWebsocketTurnError e); reflexivity)
    Hr Hm) as [_ [Hl|(r & Hl & _ & _ & Hskip)]]; [discriminate Hl|].
  exists r. split; [|exact Hskip]. destruct Hl as [Hl|Hl]; injection Hl as Hl; [left|right]; exact Hl.
Defined.

End ConductTrace.
