(* ===== verification/Registry.v ===== *)
(** * The model registry: internal/registry/model_registry.go

    Which clients (credentials) offer which models.  Every model has a registration
    with the number of clients behind it, in all and by provider, the clients over
    their quota and those suspended; every client has its list of models, with
    repetitions, and its own metadata.  Two indexes count the clients that offer web
    search.  All operations run under one mutex and are functions of the state.

    [cloneModelInfo] copies, so a value is enough for a pointer; the registrations,
    infos and maps the code tests for nil are never nil.  Counters of clients do not
    wrap: they stay below the number of registered models. *)
From S2P Require Import Prelude GoLib Thinking MarkResult.
Import MarkResult.

Module Registry.

(** ** Data *)

Record NativeCapabilities : Type := {
  WebSearch : option bool;
  ToolSearch : option bool;
}.

Record ModelInfo : Type := {
  mi_ID : string;
  mi_MetadataModelID : string;
  mi_ExplicitThinking : bool;
  mi_ExplicitInputModalities : bool;
  mi_Object : string;
  mi_Created : Z;
  mi_OwnedBy : string;
  mi_Type : string;
  mi_DisplayName : string;
  mi_Name : string;
  mi_Version : string;
  mi_Description : string;
  mi_InputTokenLimit : Z;
  mi_OutputTokenLimit : Z;
  mi_SupportedGenerationMethods : list string;
  mi_ContextLength : Z;
  mi_MaxContextLength : Z;
  mi_MaxCompletionTokens : Z;
  mi_SupportedParameters : list string;
  mi_SupportedInputModalities : list string;
  mi_SupportedOutputModalities : list string;
  mi_SupportsWebSearch : bool;
  mi_SupportConfigurationUpdate : bool;
  mi_NativeCapabilities : option NativeCapabilities;
  mi_Thinking : option Thinking.ThinkingSupport;
  (** [Config.OverrideHeader] *)
  mi_Config : option (gmap string string);
  mi_UserDefined : bool;
  mi_IsCompat : bool;
}.
#[global] Instance ModelInfo_eta : Eta ModelInfo := fun m =>
  {| mi_ID := mi_ID m; mi_MetadataModelID := mi_MetadataModelID m; mi_ExplicitThinking := mi_ExplicitThinking m;
     mi_ExplicitInputModalities := mi_ExplicitInputModalities m; mi_Object := mi_Object m; mi_Created := mi_Created m;
     mi_OwnedBy := mi_OwnedBy m; mi_Type := mi_Type m; mi_DisplayName := mi_DisplayName m; mi_Name := mi_Name m;
     mi_Version := mi_Version m; mi_Description := mi_Description m; mi_InputTokenLimit := mi_InputTokenLimit m;
     mi_OutputTokenLimit := mi_OutputTokenLimit m; mi_SupportedGenerationMethods := mi_SupportedGenerationMethods m;
     mi_ContextLength := mi_ContextLength m; mi_MaxContextLength := mi_MaxContextLength m;
     mi_MaxCompletionTokens := mi_MaxCompletionTokens m; mi_SupportedParameters := mi_SupportedParameters m;
     mi_SupportedInputModalities := mi_SupportedInputModalities m;
     mi_SupportedOutputModalities := mi_SupportedOutputModalities m; mi_SupportsWebSearch := mi_SupportsWebSearch m;
     mi_SupportConfigurationUpdate := mi_SupportConfigurationUpdate m;
     mi_NativeCapabilities := mi_NativeCapabilities m; mi_Thinking := mi_Thinking m; mi_Config := mi_Config m;
     mi_UserDefined := mi_UserDefined m; mi_IsCompat := mi_IsCompat m |}.
Definition with_web (web : bool) (info : ModelInfo) : ModelInfo := info <| mi_SupportsWebSearch := web |>.

Record ModelRegistration : Type := {
  mr_Info : ModelInfo;
  mr_InfoByProvider : gmap string ModelInfo;
  mr_Count : Z;
  mr_LastUpdated : time;
  mr_QuotaExceededClients : gmap string time;
  mr_Providers : gmap string Z;
  mr_SuspendedClients : gmap string string;
}.
#[global] Instance ModelRegistration_eta : Eta ModelRegistration := fun m =>
  {| mr_Info := mr_Info m; mr_InfoByProvider := mr_InfoByProvider m; mr_Count := mr_Count m;
     mr_LastUpdated := mr_LastUpdated m; mr_QuotaExceededClients := mr_QuotaExceededClients m;
     mr_Providers := mr_Providers m; mr_SuspendedClients := mr_SuspendedClients m |}.

(** [rg_cache]: the rendered models and their time of expiry, per handler type. *)
Record ModelRegistry : Type := {
  rg_models : gmap string ModelRegistration;
  rg_clientModels : gmap string (list string);
  rg_clientModelInfos : gmap string (gmap string ModelInfo);
  rg_clientProviders : gmap string string;
  rg_clientEpochs : gmap string Z;
  rg_clientGenerations : gmap string Z;
  rg_cache : gmap string (list (list (string * any)) * time);
  rg_webSearchClientCounts : gmap string Z;
  rg_webSearchProviderCounts : gmap string (gmap string Z);
  rg_generation : Z;
  rg_registrationEpoch : Z;
}.
#[global] Instance ModelRegistry_eta : Eta ModelRegistry := fun r =>
  {| rg_models := rg_models r; rg_clientModels := rg_clientModels r; rg_clientModelInfos := rg_clientModelInfos r;
     rg_clientProviders := rg_clientProviders r; rg_clientEpochs := rg_clientEpochs r;
     rg_clientGenerations := rg_clientGenerations r; rg_cache := rg_cache r;
     rg_webSearchClientCounts := rg_webSearchClientCounts r;
     rg_webSearchProviderCounts := rg_webSearchProviderCounts r; rg_generation := rg_generation r;
     rg_registrationEpoch := rg_registrationEpoch r |}.

(** [GetGlobalRegistry] at first use. *)
Definition empty_registry : ModelRegistry :=
  {| rg_models := ∅; rg_clientModels := ∅; rg_clientModelInfos := ∅; rg_clientProviders := ∅; rg_clientEpochs := ∅;
     rg_clientGenerations := ∅; rg_cache := ∅; rg_webSearchClientCounts := ∅; rg_webSearchProviderCounts := ∅;
     rg_generation := 0; rg_registrationEpoch := 0 |}.

Definition invalidateAvailableModelsCacheLocked (r : ModelRegistry) : ModelRegistry :=
  r <| rg_generation := incr64 (rg_generation r) |> <| rg_cache := ∅ |>.

Definition epoch_of (r : ModelRegistry) (clientID : string) : Z := default 0 (rg_clientEpochs r !! clientID).
Definition generation_of (r : ModelRegistry) (clientID : string) : Z := default 0 (rg_clientGenerations r !! clientID).
Definition provider_of (r : ModelRegistry) (clientID : string) : string := default "" (rg_clientProviders r !! clientID).
Definition models_of (r : ModelRegistry) (clientID : string) : list string := default [] (rg_clientModels r !! clientID).
Definition infos_of (r : ModelRegistry) (clientID : string) : gmap string ModelInfo :=
  default ∅ (rg_clientModelInfos r !! clientID).

(** ** The index of web search *)

Definition offers_web (r : ModelRegistry) (clientID modelID : string) : bool :=
  match infos_of r clientID !! modelID with Some info => mi_SupportsWebSearch info | None => false end.

Definition web_clients (r : ModelRegistry) (modelID : string) : Z := default 0 (rg_webSearchClientCounts r !! modelID).
Definition web_providers (r : ModelRegistry) (modelID : string) : gmap string Z :=
  default ∅ (rg_webSearchProviderCounts r !! modelID).

Definition hasClientSupportingWebSearchLocked (r : ModelRegistry) (modelID provider excludeClientID : string) : bool :=
  if negb (String.eqb provider "") then
    let count := default 0 (web_providers r modelID !! provider) in
    if count <=? 0 then false
    else
      let count := if String.eqb (provider_of r excludeClientID) provider && offers_web r excludeClientID modelID
                   then count - 1 else count in
      0 <? count
  else
    let count := web_clients r modelID in
    if count <=? 0 then false
    else
      let count := if offers_web r excludeClientID modelID then count - 1 else count in
      0 <? count.

Definition incrementWebSearchCountLocked (r : ModelRegistry) (modelID provider : string) : ModelRegistry :=
  if String.eqb modelID "" then r
  else
    let r := r <| rg_webSearchClientCounts := <[modelID := web_clients r modelID + 1]> (rg_webSearchClientCounts r) |> in
    if String.eqb provider "" then r
    else
      let counts := web_providers r modelID in
      let counts := <[provider := default 0 (counts !! provider) + 1]> counts in
      r <| rg_webSearchProviderCounts := <[modelID := counts]> (rg_webSearchProviderCounts r) |>.

(** A counter that reaches zero is deleted. *)
Definition take_one (key : string) (counts : gmap string Z) : gmap string Z :=
  let count := default 0 (counts !! key) in
  if 1 <? count then <[key := count - 1]> counts else delete key counts.

Definition decrementWebSearchCountLocked (r : ModelRegistry) (modelID provider : string) : ModelRegistry :=
  if String.eqb modelID "" then r
  else
    let r := r <| rg_webSearchClientCounts := take_one modelID (rg_webSearchClientCounts r) |> in
    if String.eqb provider "" then r
    else match rg_webSearchProviderCounts r !! modelID with
         | None => r
         | Some counts =>
             let counts := take_one provider counts in
             r <| rg_webSearchProviderCounts :=
                    if bool_decide (counts = ∅) then delete modelID (rg_webSearchProviderCounts r)
                    else <[modelID := counts]> (rg_webSearchProviderCounts r) |>
         end.

(** One contribution of a client, and all of them. *)
Definition drop_web (provider : string) (r : ModelRegistry) (p : string * ModelInfo) : ModelRegistry :=
  if mi_SupportsWebSearch p.2 then decrementWebSearchCountLocked r p.1 provider else r.
Definition add_web (provider : string) (r : ModelRegistry) (p : string * ModelInfo) : ModelRegistry :=
  if mi_SupportsWebSearch p.2 then incrementWebSearchCountLocked r p.1 provider else r.
Definition dropClientWebSearchCountsLocked (r : ModelRegistry) (clientID : string) : ModelRegistry :=
  foldl (drop_web (provider_of r clientID)) r (map_to_list (infos_of r clientID)).
Definition addClientWebSearchCountsLocked (r : ModelRegistry) (clientID : string) : ModelRegistry :=
  foldl (add_web (provider_of r clientID)) r (map_to_list (infos_of r clientID)).

(** ** Registrations *)

Definition alter_model (modelID : string) (f : option ModelRegistration → option ModelRegistration) (r : ModelRegistry) :
    ModelRegistry := r <| rg_models := partial_alter f modelID (rg_models r) |>.

(** [delete(registration.Providers, provider)] with its info, or a smaller count. *)
Definition release_provider (provider : string) (n : Z) (reg : ModelRegistration) : ModelRegistration :=
  match mr_Providers reg !! provider with
  | None => reg
  | Some count =>
      if count <=? n
      then reg <| mr_Providers := delete provider (mr_Providers reg) |>
               <| mr_InfoByProvider := delete provider (mr_InfoByProvider reg) |>
      else reg <| mr_Providers := <[provider := count - n]> (mr_Providers reg) |>
  end.
(** The info of a provider, when there is one, gets its web-search flag anew. *)
Definition refresh_provider_info (provider : string) (web : bool) (reg : ModelRegistration) : ModelRegistration :=
  reg <| mr_InfoByProvider := alter (with_web web) provider (mr_InfoByProvider reg) |>.
Definition refresh_info (web : bool) (reg : ModelRegistration) : ModelRegistration :=
  reg <| mr_Info := with_web web (mr_Info reg) |>.
Definition forget_client (clientID : string) (reg : ModelRegistration) : ModelRegistration :=
  reg <| mr_QuotaExceededClients := delete clientID (mr_QuotaExceededClients reg) |>
      <| mr_SuspendedClients := delete clientID (mr_SuspendedClients reg) |>.

Definition added (r : ModelRegistry) (modelID provider : string) (model : ModelInfo) (now : time) (excludeClientID : string)
    (o : option ModelRegistration) : option ModelRegistration :=
  let web p := mi_SupportsWebSearch model || hasClientSupportingWebSearchLocked r modelID p excludeClientID in
  Some match o with
    | Some existing =>
        let existing := existing <| mr_Count := mr_Count existing + 1 |> <| mr_LastUpdated := now |>
                                 <| mr_Info := with_web (web "") model |> in
        if String.eqb provider "" then existing
        else existing <| mr_Providers := <[provider := default 0 (mr_Providers existing !! provider) + 1]> (mr_Providers existing) |>
                      <| mr_InfoByProvider := <[provider := with_web (web provider) model]> (mr_InfoByProvider existing) |>
    | None =>
        {| mr_Info := model;
           mr_InfoByProvider := if String.eqb provider "" then ∅ else {[provider := model]};
           mr_Count := 1; mr_LastUpdated := now; mr_QuotaExceededClients := ∅;
           mr_Providers := if String.eqb provider "" then ∅ else {[provider := 1]};
           mr_SuspendedClients := ∅ |}
    end.
Definition addModelRegistration (modelID provider : string) (model : ModelInfo) (now : time) (excludeClientID : string)
    (r : ModelRegistry) : ModelRegistry :=
  if String.eqb modelID "" then r else alter_model modelID (added r modelID provider model now excludeClientID) r.

(** The flags of a registration that lost a client. *)
Definition refresh_after_loss (r : ModelRegistry) (modelID provider clientID : string) (reg : ModelRegistration) :
    ModelRegistration :=
  let reg := refresh_info (hasClientSupportingWebSearchLocked r modelID "" clientID) reg in
  if String.eqb provider "" then reg
  else refresh_provider_info provider (hasClientSupportingWebSearchLocked r modelID provider clientID) reg.

Definition removed (r : ModelRegistry) (clientID modelID provider : string) (now : time) (preserveState : bool)
    (o : option ModelRegistration) : option ModelRegistration :=
  registration ← o;
  let registration := registration <| mr_Count := mr_Count registration - 1 |> <| mr_LastUpdated := now |> in
  let registration := if preserveState then registration else forget_client clientID registration in
  let registration := if mr_Count registration <? 0 then registration <| mr_Count := 0 |> else registration in
  let registration := if String.eqb provider "" then registration else release_provider provider 1 registration in
  if mr_Count registration <=? 0 then None
  else Some (refresh_after_loss r modelID provider clientID registration).
Definition removeModelRegistration (clientID modelID provider : string) (now : time) (preserveState : bool)
    (r : ModelRegistry) : ModelRegistry :=
  alter_model modelID (removed r clientID modelID provider now preserveState) r.

(** Clients without a list of models: only metadata may be left. *)
Definition orphaned (r : ModelRegistry) (clientID modelID : string) (reg : ModelRegistration) : ModelRegistration :=
  let reg := refresh_info (hasClientSupportingWebSearchLocked r modelID "" clientID) reg in
  match rg_clientProviders r !! clientID with
  | Some provider =>
      refresh_provider_info provider (hasClientSupportingWebSearchLocked r modelID provider clientID) reg
  | None => reg
  end.
Definition refresh_orphan (clientID : string) (r : ModelRegistry) (modelID : string) : ModelRegistry :=
  alter_model modelID (fmap (orphaned r clientID modelID)) r.
Definition clearOrphanedClientModelInfosLocked (clientID : string) (r : ModelRegistry) : ModelRegistry :=
  let r := foldl (refresh_orphan clientID) r (map fst (map_to_list (infos_of r clientID))) in
  let r := dropClientWebSearchCountsLocked r clientID in
  r <| rg_clientModelInfos := delete clientID (rg_clientModelInfos r) |>.

(** ** Unregistering *)

Definition unregistered (r : ModelRegistry) (clientID : string) (provider : option string) (now : time) (modelID : string)
    (o : option ModelRegistration) : option ModelRegistration :=
  registration ← o;
  let registration := registration <| mr_Count := mr_Count registration - 1 |> <| mr_LastUpdated := now |> in
  let registration := forget_client clientID registration in
  let registration := match provider with Some p => release_provider p 1 registration | None => registration end in
  if mr_Count registration <=? 0 then None
  else
    let registration := refresh_info (hasClientSupportingWebSearchLocked r modelID "" clientID) registration in
    Some match provider with
         | Some p => refresh_provider_info p (hasClientSupportingWebSearchLocked r modelID p clientID) registration
         | None => registration
         end.
Definition unregister_model (clientID : string) (provider : option string) (now : time) (r : ModelRegistry)
    (modelID : string) : ModelRegistry := alter_model modelID (unregistered r clientID provider now modelID) r.

Definition bump_epoch (clientID : string) (r : ModelRegistry) : ModelRegistry :=
  r <| rg_clientEpochs := <[clientID := incr64 (epoch_of r clientID)]> (rg_clientEpochs r) |>
    <| rg_registrationEpoch := incr64 (rg_registrationEpoch r) |>.

Definition unregisterClientInternal (clientID : string) (now : time) (r : ModelRegistry) : ModelRegistry :=
  let r := bump_epoch clientID r in
  let r := r <| rg_clientGenerations := <[clientID := incr64 (generation_of r clientID)]> (rg_clientGenerations r) |> in
  let provider := rg_clientProviders r !! clientID in
  match rg_clientModels r !! clientID with
  | None =>
      let r := clearOrphanedClientModelInfosLocked clientID r in
      r <| rg_clientProviders := delete clientID (rg_clientProviders r) |>
  | Some models =>
      let r := foldl (unregister_model clientID provider now) r models in
      let r := dropClientWebSearchCountsLocked r clientID in
      r <| rg_clientModels := delete clientID (rg_clientModels r) |>
        <| rg_clientModelInfos := delete clientID (rg_clientModelInfos r) |>
        <| rg_clientProviders := delete clientID (rg_clientProviders r) |>
  end.

Definition UnregisterClient (clientID : string) (now : time) (r : ModelRegistry) : ModelRegistry :=
  invalidateAvailableModelsCacheLocked (unregisterClientInternal clientID now r).

(** ** Registering *)

(** The identifiers of a list of models, each at its first place. *)
Definition unique_ids (ids : list string) : list string :=
  foldl (fun seen id => if bool_decide (id ∈ seen) then seen else seen ++ [id]) [] ids.
Definition occurrences (id : string) (ids : list string) : nat := length (List.filter (String.eqb id) ids).

Definition valid_models (models : list (option ModelInfo)) : list ModelInfo :=
  List.filter (fun model => negb (String.eqb (mi_ID model) "")) (omap (fun o => o) models).
(** The first of the models with an identifier counts. *)
Definition first_models (models : list ModelInfo) : gmap string ModelInfo :=
  foldl (fun known model => match known !! mi_ID model with
                            | Some _ => known
                            | None => <[mi_ID model := model]> known
                            end) ∅ models.

(** The metadata and the lists of the client, with its part in the web index. *)
Definition store_client (clientID provider : string) (rawModelIDs : list string) (newModels : gmap string ModelInfo)
    (r : ModelRegistry) : ModelRegistry :=
  let r := r <| rg_clientModels := <[clientID := rawModelIDs]> (rg_clientModels r) |>
             <| rg_clientModelInfos := <[clientID := newModels]> (rg_clientModelInfos r) |>
             <| rg_clientProviders := if String.eqb provider "" then delete clientID (rg_clientProviders r)
                                      else <[clientID := provider]> (rg_clientProviders r) |> in
  addClientWebSearchCountsLocked r clientID.

(** A model both lists have, when the provider changed: the old one gives it up. *)
Definition handed_over (r : ModelRegistry) (clientID oldProvider : string) (toRemove : nat) (id : string)
    (reg : ModelRegistration) : ModelRegistration :=
  match mr_Providers reg !! oldProvider with
  | None => reg
  | Some count =>
      let kept := release_provider oldProvider (Z.of_nat toRemove) reg in
      if count <=? Z.of_nat toRemove then kept
      else refresh_provider_info oldProvider (hasClientSupportingWebSearchLocked r id oldProvider clientID) kept
  end.
Definition hand_over (clientID oldProvider : string) (oldModels rawModelIDs : list string) (r : ModelRegistry)
    (id : string) : ModelRegistry :=
  let toRemove := Nat.min (occurrences id rawModelIDs) (occurrences id oldModels) in
  if (toRemove =? 0)%nat then r else alter_model id (fmap (handed_over r clientID oldProvider toRemove id)) r.

Definition remove_times (clientID id provider : string) (now : time) (preserveState : bool) (n : nat) (r : ModelRegistry) :
    ModelRegistry := Nat.iter n (removeModelRegistration clientID id provider now preserveState) r.
Definition add_times (id provider : string) (model : ModelInfo) (now : time) (clientID : string) (n : nat)
    (r : ModelRegistry) : ModelRegistry := Nat.iter n (addModelRegistration id provider model now clientID) r.

(** The metadata of a model that stays with the client or is new to it. *)
Definition updated (r : ModelRegistry) (clientID provider oldProvider : string) (preserveState : bool)
    (oldCount newCount : nat) (model : ModelInfo) (now : time) (id : string) (reg : ModelRegistration) : ModelRegistration :=
  let providerChanged := negb (String.eqb oldProvider provider) in
  let web p := hasClientSupportingWebSearchLocked r id p clientID in
  let reg := reg <| mr_Info := with_web (mi_SupportsWebSearch model || web "") model |> in
  let reg := if String.eqb provider "" then reg
             else reg <| mr_InfoByProvider := <[provider := with_web (mi_SupportsWebSearch model || web provider) model]>
                                                (mr_InfoByProvider reg) |> in
  let reg := if providerChanged && negb (String.eqb oldProvider "")
             then refresh_provider_info oldProvider (web oldProvider) reg else reg in
  let reg := reg <| mr_LastUpdated := now |> in
  let reg := if negb preserveState || providerChanged || (oldCount =? 0)%nat then forget_client clientID reg else reg in
  let overlap := Z.of_nat (Nat.min newCount oldCount) in
  if providerChanged && negb (String.eqb provider "") && (0 <? overlap)
  then reg <| mr_Providers := <[provider := default 0 (mr_Providers reg !! provider) + overlap]> (mr_Providers reg) |>
  else reg.
Definition update_kept (clientID provider oldProvider : string) (preserveState : bool) (oldModels rawModelIDs : list string)
    (newModels : gmap string ModelInfo) (now : time) (r : ModelRegistry) (id : string) : ModelRegistry :=
  match newModels !! id with
  | None => r
  | Some model =>
      alter_model id (fmap (updated r clientID provider oldProvider preserveState (occurrences id oldModels)
                              (occurrences id rawModelIDs) model now id)) r
  end.

(** The stages of a reconciliation, for one model each. *)
Definition remove_gone (clientID oldProvider : string) (oldModels rawModelIDs : list string) (now : time)
    (r : ModelRegistry) (id : string) : ModelRegistry :=
  if (occurrences id rawModelIDs =? 0)%nat
  then remove_times clientID id oldProvider now false (occurrences id oldModels) r else r.
Definition remove_excess (clientID oldProvider : string) (oldModels rawModelIDs : list string) (now : time)
    (preserveState : bool) (r : ModelRegistry) (id : string) : ModelRegistry :=
  let newCount := occurrences id rawModelIDs in
  let oldCount := occurrences id oldModels in
  if (newCount =? 0)%nat || (oldCount <=? newCount)%nat then r
  else remove_times clientID id oldProvider now preserveState (oldCount - newCount) r.
Definition add_missing (clientID provider : string) (oldModels rawModelIDs : list string) (newModels : gmap string ModelInfo)
    (now : time) (r : ModelRegistry) (id : string) : ModelRegistry :=
  match newModels !! id with
  | None => r
  | Some model => add_times id provider model now clientID (occurrences id rawModelIDs - occurrences id oldModels) r
  end.

Definition reconcile (clientID provider oldProvider : string) (preserveState : bool) (oldModels rawModelIDs : list string)
    (newModels : gmap string ModelInfo) (now : time) (r : ModelRegistry) : ModelRegistry :=
  let providerChanged := negb (String.eqb oldProvider provider) in
  let uniqueModelIDs := unique_ids rawModelIDs in
  let oldIDs := unique_ids oldModels in
  let r := if providerChanged && negb (String.eqb oldProvider "")
           then foldl (hand_over clientID oldProvider oldModels rawModelIDs) r uniqueModelIDs else r in
  let r := foldl (remove_gone clientID oldProvider oldModels rawModelIDs now) r oldIDs in
  let r := foldl (remove_excess clientID oldProvider oldModels rawModelIDs now (preserveState && negb providerChanged))
             r oldIDs in
  let r := foldl (add_missing clientID provider oldModels rawModelIDs newModels now) r uniqueModelIDs in
  foldl (update_kept clientID provider oldProvider preserveState oldModels rawModelIDs newModels now) r uniqueModelIDs.

Definition registerClientLocked (clientID clientProvider : string) (models : list (option ModelInfo)) (preserveState : bool)
    (now : time) (r : ModelRegistry) : ModelRegistry :=
  let provider := to_lower clientProvider in
  let valid := valid_models models in
  let rawModelIDs := map mi_ID valid in
  let newModels := first_models valid in
  match rawModelIDs with
  | [] =>
      let r := unregisterClientInternal clientID now r in
      invalidateAvailableModelsCacheLocked
        (r <| rg_clientModels := delete clientID (rg_clientModels r) |>
           <| rg_clientModelInfos := delete clientID (rg_clientModelInfos r) |>
           <| rg_clientProviders := delete clientID (rg_clientProviders r) |>)
  | _ =>
      let old := rg_clientModels r !! clientID in
      let oldProvider := provider_of r clientID in
      let r := bump_epoch clientID r in
      let r := if negb preserveState || bool_decide (old = None) || negb (String.eqb oldProvider provider)
               then r <| rg_clientGenerations := <[clientID := 0]> (rg_clientGenerations r) |> else r in
      let r :=
        match old with
        | None =>
            let r := clearOrphanedClientModelInfosLocked clientID r in
            foldl (fun r modelID => match newModels !! modelID with
                                    | Some model => addModelRegistration modelID provider model now clientID r
                                    | None => r
                                    end) r rawModelIDs
        | Some oldModels =>
            let r := reconcile clientID provider oldProvider preserveState oldModels rawModelIDs newModels now r in
            dropClientWebSearchCountsLocked r clientID
        end in
      invalidateAvailableModelsCacheLocked (store_client clientID provider rawModelIDs newModels r)
  end.

Definition RegisterClient (clientID clientProvider : string) (models : list (option ModelInfo)) (now : time)
    (r : ModelRegistry) : ModelRegistry := registerClientLocked clientID clientProvider models false now r.

(** [publish]: the answer of the callback, [None] when there is none. *)
Definition RegisterClientIfEpochCurrent (clientID clientProvider : string) (expectedEpoch : Z)
    (models : list (option ModelInfo)) (publish : option bool) (now : time) (r : ModelRegistry) : ModelRegistry * bool :=
  if negb (epoch_of r clientID =? expectedEpoch) || negb (default false publish) then (r, false)
  else (registerClientLocked clientID clientProvider models false now r, true).
Definition UnregisterClientIfEpochCurrent (clientID : string) (expectedEpoch : Z) (publish : option bool) (now : time)
    (r : ModelRegistry) : ModelRegistry * bool :=
  if negb (epoch_of r clientID =? expectedEpoch) || negb (default false publish) then (r, false)
  else (UnregisterClient clientID now r, true).
Definition ReplaceClientModels (clientID clientProvider : string) (expectedEpoch : Z) (models : list (option ModelInfo))
    (now : time) (r : ModelRegistry) : ModelRegistry * (Z * bool) :=
  if negb (epoch_of r clientID =? expectedEpoch) then (r, (0, false))
  else
    let r := registerClientLocked clientID clientProvider models true now r in
    (r, (epoch_of r clientID, true)).

(** ** Quota and suspension *)

Definition SetModelQuotaExceeded (clientID modelID : string) (now : time) (r : ModelRegistry) : ModelRegistry :=
  match rg_models r !! modelID with
  | None => r
  | Some reg =>
      invalidateAvailableModelsCacheLocked (alter_model modelID (fun _ => Some
        (reg <| mr_QuotaExceededClients := <[clientID := now]> (mr_QuotaExceededClients reg) |>)) r)
  end.
Definition ClearModelQuotaExceeded (clientID modelID : string) (r : ModelRegistry) : ModelRegistry :=
  match rg_models r !! modelID with
  | None => r
  | Some reg =>
      invalidateAvailableModelsCacheLocked (alter_model modelID (fun _ => Some
        (reg <| mr_QuotaExceededClients := delete clientID (mr_QuotaExceededClients reg) |>)) r)
  end.

Definition SuspendClientModel (clientID modelID reason : string) (now : time) (r : ModelRegistry) : ModelRegistry :=
  if String.eqb clientID "" || String.eqb modelID "" then r
  else match rg_models r !! modelID with
       | None => r
       | Some reg =>
           match mr_SuspendedClients reg !! clientID with
           | Some _ => r
           | None =>
               invalidateAvailableModelsCacheLocked (alter_model modelID (fun _ => Some
                 (reg <| mr_SuspendedClients := <[clientID := reason]> (mr_SuspendedClients reg) |>
                      <| mr_LastUpdated := now |>)) r)
           end
       end.
Definition ResumeClientModel (clientID modelID : string) (now : time) (r : ModelRegistry) : ModelRegistry :=
  if String.eqb clientID "" || String.eqb modelID "" then r
  else match rg_models r !! modelID with
       | None => r
       | Some reg =>
           match mr_SuspendedClients reg !! clientID with
           | None => r
           | Some _ =>
               invalidateAvailableModelsCacheLocked (alter_model modelID (fun _ => Some
                 (reg <| mr_SuspendedClients := delete clientID (mr_SuspendedClients reg) |>
                      <| mr_LastUpdated := now |>)) r)
           end
       end.

Record ClientModelProjection : Type := {
  pr_ModelID : string;
  pr_Suspended : bool;
  pr_SuspendReason : string;
  pr_QuotaExceeded : bool;
}.

(** One projection on a registration, and whether something changed. *)
Definition project_suspended (clientID : string) (proj : ClientModelProjection) (now : time) (reg : ModelRegistration) :
    ModelRegistration * bool :=
  if pr_Suspended proj then
    if match mr_SuspendedClients reg !! clientID with
       | Some currentReason => negb (String.eqb currentReason (pr_SuspendReason proj))
       | None => true
       end
    then (reg <| mr_SuspendedClients := <[clientID := pr_SuspendReason proj]> (mr_SuspendedClients reg) |>
              <| mr_LastUpdated := now |>, true)
    else (reg, false)
  else match mr_SuspendedClients reg !! clientID with
       | Some _ => (reg <| mr_SuspendedClients := delete clientID (mr_SuspendedClients reg) |>
                        <| mr_LastUpdated := now |>, true)
       | None => (reg, false)
       end.
Definition project_quota (clientID : string) (proj : ClientModelProjection) (now : time) (reg : ModelRegistration) :
    ModelRegistration * bool :=
  match pr_QuotaExceeded proj, mr_QuotaExceededClients reg !! clientID with
  | true, None => (reg <| mr_QuotaExceededClients := <[clientID := now]> (mr_QuotaExceededClients reg) |>
                       <| mr_LastUpdated := now |>, true)
  | false, Some _ => (reg <| mr_QuotaExceededClients := delete clientID (mr_QuotaExceededClients reg) |>
                          <| mr_LastUpdated := now |>, true)
  | _, _ => (reg, false)
  end.

(** The registration a projection is for, when the client owns the model. *)
Definition projected (registered : list string) (r : ModelRegistry) (proj : ClientModelProjection) :
    option (string * ModelRegistration) :=
  let modelID := trim_space (pr_ModelID proj) in
  if String.eqb modelID "" then None
  else if negb (existsb (fun m => String.eqb (trim_space m) modelID) registered) then None
  else reg ← rg_models r !! modelID; Some (modelID, reg).
Definition project_one (clientID : string) (registered : list string) (now : time) (acc : ModelRegistry * bool)
    (proj : ClientModelProjection) : ModelRegistry * bool :=
  let '(r, changed) := acc in
  match projected registered r proj with
  | None => acc
  | Some (modelID, reg) =>
      let '(reg, changed1) := project_suspended clientID proj now reg in
      let '(reg, changed2) := project_quota clientID proj now reg in
      (alter_model modelID (fun _ => Some reg) r, changed || changed1 || changed2)
  end.

Definition ApplyClientModelProjections (clientID : string) (epoch generation : Z) (projections : list ClientModelProjection)
    (now : time) (r : ModelRegistry) : ModelRegistry * bool :=
  let clientID := trim_space clientID in
  if String.eqb clientID "" then (r, false)
  else
    let registered := models_of r clientID in
    match registered with
    | [] => (r, false)
    | _ =>
        if negb (epoch =? epoch_of r clientID) then (r, false)
        else if generation <? generation_of r clientID then (r, false)
        else if forallb (fun proj => bool_decide (projected registered r proj = None)) projections then (r, false)
        else
          let r := r <| rg_clientGenerations := <[clientID := generation]> (rg_clientGenerations r) |> in
          let '(r, changed) := foldl (project_one clientID registered now) (r, false) projections in
          (if changed then invalidateAvailableModelsCacheLocked r else r, true)
    end.

(** [mutate] may change an info in any way. *)
Definition apply_capability (clientID provider : string) (mutate : string → ModelInfo → ModelInfo) (r : ModelRegistry)
    (p : string * ModelInfo) : ModelRegistry :=
  let '(id, info) := p in
  let info := mutate id info in
  let r := r <| rg_clientModelInfos := <[clientID := <[id := info]> (infos_of r clientID)]> (rg_clientModelInfos r) |> in
  let r := if mi_SupportsWebSearch info then incrementWebSearchCountLocked r id provider else r in
  alter_model id (fmap (fun reg =>
    let reg := refresh_info (hasClientSupportingWebSearchLocked r id "" "") reg in
    if String.eqb provider "" then reg
    else refresh_provider_info provider (hasClientSupportingWebSearchLocked r id provider "") reg)) r.
Definition ApplyClientModelCapabilities (clientID : string) (expectedEpoch : Z) (mutate : string → ModelInfo → ModelInfo)
    (r : ModelRegistry) : ModelRegistry * bool :=
  let clientID := trim_space clientID in
  if String.eqb clientID "" then (r, false)
  else if negb (epoch_of r clientID =? expectedEpoch) then (r, false)
  else
    let infos := infos_of r clientID in
    if bool_decide (infos = ∅) then (r, false)
    else
      let provider := provider_of r clientID in
      let r := dropClientWebSearchCountsLocked r clientID in
      let r := foldl (apply_capability clientID provider mutate) r (map_to_list infos) in
      (invalidateAvailableModelsCacheLocked r, true).

Definition modelQuotaExceededWindow : duration := 5 * minute.

Definition CleanupExpiredQuotas (now : time) (r : ModelRegistry) : ModelRegistry :=
  let live (p : string * time) := negb (modelQuotaExceededWindow <=? time_sub now p.2) in
  let cleaned reg := reg <| mr_QuotaExceededClients := filter (fun p => live p = true) (mr_QuotaExceededClients reg) |> in
  let invalidated := existsb (fun p => existsb (fun q => negb (live q)) (map_to_list (mr_QuotaExceededClients p.2)))
                       (map_to_list (rg_models r)) in
  let r := r <| rg_models := cleaned <$> rg_models r |> in
  if invalidated then invalidateAvailableModelsCacheLocked r else r.

End Registry.
