(* ===== verification/RegistryViews.v ===== *)
(** * What the model registry answers: internal/registry/model_registry.go

    Availability of a model, its providers and metadata, the models of a provider or
    a client, and the rendered list with its cache.  A list the code builds by
    iterating over a map is in the order of [map_to_list] here.  The format of a time
    stamp ([time.Format]) is an argument. *)
From S2P Require Import Prelude GoLib Thinking MarkResult Scheduler Registry.
Import MarkResult Registry.

Module RegistryViews.

Definition count_map {A} (P : string → A → bool) (m : gmap string A) : Z :=
  Z.of_nat (length (List.filter (fun p => P p.1 p.2) (map_to_list m))).

(** ** Availability *)

Definition isQuotaSuspension (reason : string) : bool := equal_fold reason "quota" || equal_fold reason "credential_quota".

Definition recovery (quotaTime : time) : time := quotaTime + modelQuotaExceededWindow.
Definition quota_live (now : time) (quotaTime : time) : bool := before now (recovery quotaTime).
Definition over_quota (now : time) (reg : ModelRegistration) (clientID : string) : bool :=
  match mr_QuotaExceededClients reg !! clientID with Some quotaTime => quota_live now quotaTime | None => false end.
Definition earliest (expiresAt t : time) : time := if is_zero expiresAt || before t expiresAt then t else expiresAt.

(** The four counters, over the clients that [who] admits. *)
Definition expiredClients (now : time) (who : string → bool) (reg : ModelRegistration) : Z :=
  count_map (fun c quotaTime => who c && quota_live now quotaTime) (mr_QuotaExceededClients reg).
Definition cooldownSuspended (who : string → bool) (reg : ModelRegistration) : Z :=
  count_map (fun c reason => who c && isQuotaSuspension reason) (mr_SuspendedClients reg).
Definition otherSuspended (who : string → bool) (reg : ModelRegistration) : Z :=
  count_map (fun c reason => who c && negb (isQuotaSuspension reason)) (mr_SuspendedClients reg).
Definition quotaAndSuspended (now : time) (who : string → bool) (reg : ModelRegistration) : Z :=
  count_map (fun c (_ : string) => who c && over_quota now reg c) (mr_SuspendedClients reg).
(** Whether [availableClients] clients make the model available. *)
Definition available_with (now : time) (who : string → bool) (availableClients : Z) (reg : ModelRegistration) : bool :=
  let expired := expiredClients now who reg in
  let cooldown := cooldownSuspended who reg in
  let other := otherSuspended who reg in
  let effectiveClients := Z.max 0 (availableClients - expired - cooldown - other + quotaAndSuspended now who reg) in
  (0 <? effectiveClients)
  || ((0 <? availableClients) && ((0 <? expired) || (0 <? cooldown)) && (other =? 0)).

Definition modelRegistrationAvailability (reg : ModelRegistration) (now : time) : bool * time :=
  let expiresAt := foldl (fun expiresAt p => if quota_live now p.2 then earliest expiresAt (recovery p.2) else expiresAt)
                     0 (map_to_list (mr_QuotaExceededClients reg)) in
  (available_with now (fun _ => true) (mr_Count reg) reg, expiresAt).

Definition GetAvailableModelInfos (now : time) (r : ModelRegistry) : list ModelInfo :=
  sort_by (fun info => trim_space (mi_ID info))
    (map mr_Info (List.filter (fun reg => (modelRegistrationAvailability reg now).1) (map snd (map_to_list (rg_models r))))).

Definition GetModelCount (modelID : string) (now : time) (r : ModelRegistry) : Z :=
  match rg_models r !! modelID with
  | None => 0
  | Some reg =>
      let expired := count_map (fun _ quotaTime => time_sub now quotaTime <? modelQuotaExceededWindow)
                       (mr_QuotaExceededClients reg) in
      let suspended := count_map (fun c (_ : string) => negb (over_quota now reg c)) (mr_SuspendedClients reg) in
      let result := mr_Count reg - expired - suspended in
      if result <? 0 then 0 else result
  end.

(** ** Clients and providers of a model *)

Definition ClientSupportsModel (clientID modelID : string) (r : ModelRegistry) : bool :=
  let clientID := trim_space clientID in
  let modelID := trim_space modelID in
  if String.eqb clientID "" || String.eqb modelID "" then false
  else existsb (fun id => equal_fold (trim_space id) modelID) (models_of r clientID).
Definition IsModelSuspendedForClient (clientID modelID : string) (r : ModelRegistry) : bool :=
  let clientID := trim_space clientID in
  let modelID := trim_space modelID in
  if String.eqb clientID "" || String.eqb modelID "" then false
  else match rg_models r !! modelID with
       | Some reg => bool_decide (is_Some (mr_SuspendedClients reg !! clientID))
       | None => false
       end.
Definition IsModelQuotaExceededForClient (clientID modelID : string) (r : ModelRegistry) : bool :=
  let clientID := trim_space clientID in
  let modelID := trim_space modelID in
  if String.eqb clientID "" || String.eqb modelID "" then false
  else match rg_models r !! modelID with
       | Some reg => bool_decide (is_Some (mr_QuotaExceededClients reg !! clientID))
       | None => false
       end.

(** More clients first, then by name. *)
Definition provider_le (x y : string * Z) : Prop := y.2 < x.2 ∨ (x.2 = y.2 ∧ str_lt y.1 x.1 = false).
#[global] Instance provider_le_dec : RelDecision provider_le.
Proof. unfold provider_le. intros x y. apply _. Defined.
Definition GetModelProviders (modelID : string) (r : ModelRegistry) : list string :=
  match rg_models r !! modelID with
  | None => []
  | Some reg => map fst (merge_sort provider_le (List.filter (fun p => 0 <? p.2) (map_to_list (mr_Providers reg))))
  end.

Definition GetModelInfo (modelID provider : string) (r : ModelRegistry) : option ModelInfo :=
  reg ← rg_models r !! modelID;
  if negb (String.eqb provider "") && (0 <? default 0 (mr_Providers reg !! provider))
  then match mr_InfoByProvider reg !! provider with
       | Some info => Some info
       | None => Some (mr_Info reg)
       end
  else Some (mr_Info reg).

Definition GetModelsAndEpochForClient (clientID : string) (r : ModelRegistry) : list ModelInfo * Z :=
  (omap (fun modelID => match infos_of r clientID !! modelID with
                        | Some info => Some info
                        | None => mr_Info <$> rg_models r !! modelID
                        end) (unique_ids (models_of r clientID)),
   epoch_of r clientID).
Definition GetModelsForClient (clientID : string) (r : ModelRegistry) : list ModelInfo :=
  (GetModelsAndEpochForClient clientID r).1.

(** The registry as the scheduler sees it. *)
#[global] Instance registry_catalog : ClientCatalog ModelRegistry :=
  {| Scheduler.GetModelsForClient := fun r clientID => map mi_ID (GetModelsForClient clientID r);
     Scheduler.ClientRegistrationEpoch := epoch_of |}.

(** ** Models of a provider *)

(** The count of a model among the clients of a provider, and its first info. *)
Definition provider_entry (r : ModelRegistry) (clientID : string) (entries : gmap string (Z * option ModelInfo))
    (modelID : string) : gmap string (Z * option ModelInfo) :=
  let modelID := trim_space modelID in
  if String.eqb modelID "" then entries
  else
    let '(count, info) := default (0, None) (entries !! modelID) in
    let info := match info with
                | Some _ => info
                | None => match infos_of r clientID !! modelID with
                          | Some own => Some own
                          | None => mr_Info <$> rg_models r !! modelID
                          end
                end in
    <[modelID := (count + 1, info)]> entries.
Definition GetAvailableModelsByProvider (provider : string) (now : time) (r : ModelRegistry) : list ModelInfo :=
  let provider := to_lower (trim_space provider) in
  if String.eqb provider "" then []
  else
    let clients := List.filter (fun p => String.eqb p.2 provider) (map_to_list (rg_clientProviders r)) in
    let entries := foldl (fun entries p => foldl (provider_entry r p.1) entries (models_of r p.1)) ∅ clients in
    let who c := negb (String.eqb c "") && bool_decide (rg_clientProviders r !! c = Some provider) in
    omap (fun e => let '(modelID, (count, info)) := e in
                   let registration := rg_models r !! modelID in
                   let available := match registration with
                                    | Some reg => available_with now who count reg
                                    | None => 0 <? count
                                    end in
                   if available then match info with Some _ => info | None => mr_Info <$> registration end else None)
      (map_to_list entries).

(** ** Native web search *)

Definition responsesWebSearchProviderPathSupport (provider : string) : option bool :=
  let provider := to_lower (trim_space provider) in
  if existsb (String.eqb provider) ["codex"; "xai"; "claude"; "antigravity"] then Some true
  else if existsb (String.eqb provider)
            ["openai"; "openai-compatibility"; "gemini"; "aistudio"; "vertex"; "kimi"; "kimi-ai"; "kimi.ai"; "kimi.com";
             "interactions"; "gemini-interactions"] then Some false
  else if has_prefix provider "openai-compatible-" then Some false else None.

(** [None] is the answer nil: not known. *)
Definition declared (capabilities : option NativeCapabilities) : option bool := capabilities ≫= WebSearch.
Fixpoint resolve_routes (hasUnknown : bool) (routes : list (string * option NativeCapabilities)) : option bool :=
  match routes with
  | [] => if hasUnknown then None else Some true
  | (provider, capabilities) :: rest =>
      match declared capabilities with
      | Some false => Some false
      | _ => match responsesWebSearchProviderPathSupport provider with
             | None => resolve_routes true rest
             | Some false => Some false
             | Some true => resolve_routes (hasUnknown || bool_decide (declared capabilities = None)) rest
             end
      end
  end.
Definition ResolveResponsesWebSearchCapability (routes : list (string * option NativeCapabilities)) : option bool :=
  match routes with [] => None | _ => resolve_routes false routes end.
Definition client_routes (r : ModelRegistry) (modelID : string) (p : string * list string) :
    list (string * option NativeCapabilities) :=
  map (fun registeredID => (provider_of r p.1, infos_of r p.1 !! registeredID ≫= mi_NativeCapabilities))
    (List.filter (fun registeredID => String.eqb (trim_space registeredID) modelID) p.2).
Definition GetResponsesWebSearchCapability (modelID : string) (r : ModelRegistry) : option bool :=
  let modelID := trim_space modelID in
  if String.eqb modelID "" then None
  else ResolveResponsesWebSearchCapability (flat_map (client_routes r modelID) (map_to_list (rg_clientModels r))).

(** ** The rendered list *)

Section Rendered.
Context (format_rfc3339 : Z → string).

Definition DefaultClaudeMaxInputTokens : Z := 200000.
Definition DefaultClaudeMaxOutputTokens : Z := 64000.

Definition str_field (key value : string) : list (string * any) :=
  if String.eqb value "" then [] else [(key, AStr value)].
Definition int_field (key : string) (value : Z) : list (string * any) :=
  if 0 <? value then [(key, AInt KInt value)] else [].
Definition list_field (key : string) (value : list string) : list (string * any) :=
  match value with [] => [] | _ => [(key, AList (map AStr value))] end.
Definition or_else (value other : Z) : Z := if value <=? 0 then other else value.

Definition convertModelToMap (model : ModelInfo) (handlerType : string) : list (string * any) :=
  if String.eqb handlerType "openai" then
    [("id", AStr (mi_ID model)); ("object", AStr "model"); ("owned_by", AStr (mi_OwnedBy model))]
    ++ (if 0 <? mi_Created model then [("created", AInt KInt64 (mi_Created model))] else [])
    ++ str_field "type" (mi_Type model) ++ str_field "display_name" (mi_DisplayName model)
    ++ str_field "version" (mi_Version model) ++ str_field "description" (mi_Description model)
    ++ int_field "context_length" (mi_ContextLength model) ++ int_field "max_context_length" (mi_MaxContextLength model)
    ++ int_field "max_completion_tokens" (mi_MaxCompletionTokens model)
    ++ list_field "supported_parameters" (mi_SupportedParameters model)
  else if String.eqb handlerType "claude" then
    [("id", AStr (mi_ID model)); ("object", AStr "model"); ("owned_by", AStr (mi_OwnedBy model))]
    ++ (if 0 <? mi_Created model then [("created_at", AStr (format_rfc3339 (mi_Created model)))] else [])
    ++ [("type", AStr "model");
        ("display_name", AStr (if String.eqb (mi_DisplayName model) "" then mi_ID model else mi_DisplayName model));
        ("max_input_tokens", AInt KInt (or_else (mi_ContextLength model) DefaultClaudeMaxInputTokens));
        ("max_tokens", AInt KInt (or_else (mi_MaxCompletionTokens model) DefaultClaudeMaxOutputTokens))]
  else if String.eqb handlerType "gemini" then
    [("name", AStr (if String.eqb (mi_Name model) "" then mi_ID model else mi_Name model))]
    ++ str_field "version" (mi_Version model) ++ str_field "displayName" (mi_DisplayName model)
    ++ str_field "description" (mi_Description model)
    ++ int_field "inputTokenLimit" (or_else (mi_InputTokenLimit model) (mi_ContextLength model))
    ++ int_field "outputTokenLimit" (or_else (mi_OutputTokenLimit model) (mi_MaxCompletionTokens model))
    ++ list_field "supportedGenerationMethods" (mi_SupportedGenerationMethods model)
    ++ list_field "supportedInputModalities" (mi_SupportedInputModalities model)
    ++ list_field "supportedOutputModalities" (mi_SupportedOutputModalities model)
  else
    [("id", AStr (mi_ID model)); ("object", AStr "model")]
    ++ str_field "owned_by" (mi_OwnedBy model) ++ str_field "type" (mi_Type model)
    ++ (if negb (mi_Created model =? 0) then [("created", AInt KInt64 (mi_Created model))] else []).

Definition build_step (handlerType : string) (now : time) (acc : list (list (string * any)) * time)
    (p : string * ModelRegistration) : list (list (string * any)) * time :=
  let '(models, expiresAt) := acc in
  let '(available, registrationExpiresAt) := modelRegistrationAvailability p.2 now in
  let expiresAt := if negb (is_zero registrationExpiresAt) then earliest expiresAt registrationExpiresAt else expiresAt in
  if negb available then (models, expiresAt)
  else (models ++ [convertModelToMap (mr_Info p.2) handlerType], expiresAt).
Definition buildAvailableModelsLocked (handlerType : string) (now : time) (r : ModelRegistry) :
    list (list (string * any)) * time :=
  foldl (build_step handlerType now) ([], 0) (map_to_list (rg_models r)).

(** [now] is read once, before the locks. *)
Definition cached (handlerType : string) (now : time) (r : ModelRegistry) : option (list (list (string * any))) :=
  match rg_cache r !! handlerType with
  | Some (models, expiresAt) => if is_zero expiresAt || before now expiresAt then Some models else None
  | None => None
  end.
Definition GetAvailableModels (handlerType : string) (now : time) (r : ModelRegistry) :
    ModelRegistry * list (list (string * any)) :=
  match cached handlerType now r with
  | Some models => (r, models)
  | None =>
      let '(models, expiresAt) := buildAvailableModelsLocked handlerType now r in
      (r <| rg_cache := <[handlerType := (models, expiresAt)]> (rg_cache r) |>, models)
  end.

End Rendered.

End RegistryViews.
