(* ===== verification/RegistryProps.v ===== *)
(** * Properties of the model registry: the counters

    Whatever is registered, replaced and unregistered, the counters of every model
    are the sums over the clients: in all, by provider, and in the two indexes of web
    search.  A step on one model is a function of its registration; the loops of a
    reconciliation are iterations of such functions. *)
From S2P Require Import Prelude GoLib Thinking MarkResult Scheduler Registry.
Import MarkResult Registry.

Module RegistryProps.

(** ** Sums over maps *)

Section Sums.
Context {A : Type}.
Implicit Types (f g : string → A → Z) (m : gmap string A).

Definition msum f m : Z := map_fold (fun k x acc => f k x + acc) 0 m.

Lemma msum_empty f : msum f ∅ = 0.
Proof. apply map_fold_empty. Qed.
Lemma msum_insert_new f m k x : m !! k = None → msum f (<[k := x]> m) = f k x + msum f m.
Proof. intros Hk. unfold msum. rewrite (map_fold_insert_L (fun k x acc => f k x + acc) 0 k x m); [done|intros; lia|done]. Qed.
Lemma msum_delete f m k x : m !! k = Some x → msum f m = f k x + msum f (delete k m).
Proof.
  intros Hk. rewrite <- (insert_delete_id m k x Hk) at 1. apply msum_insert_new, lookup_delete_eq.
Qed.
Lemma msum_insert f m k x : msum f (<[k := x]> m) = f k x + msum f (delete k m).
Proof. rewrite (msum_delete f _ k x) by apply lookup_insert_eq. by rewrite delete_insert_eq. Qed.
Lemma msum_ext f g m : (∀ k x, m !! k = Some x → f k x = g k x) → msum f m = msum g m.
Proof.
  induction m as [|k x m Hk IH] using map_ind; intros Hfg; [done|]. rewrite !msum_insert_new by done.
  rewrite (Hfg k x), IH; [done| |by rewrite lookup_insert_eq].
  intros k' x' Hk'. apply Hfg. rewrite lookup_insert_ne; [done|congruence].
Qed.
Lemma msum_le f g m : (∀ k x, m !! k = Some x → f k x ≤ g k x) → msum f m ≤ msum g m.
Proof.
  induction m as [|k x m Hk IH] using map_ind; intros Hfg; [done|]. rewrite !msum_insert_new by done.
  pose proof (Hfg k x ltac:(by rewrite lookup_insert_eq)). enough (msum f m ≤ msum g m) by lia.
  apply IH. intros k' x' Hk'. apply Hfg. rewrite lookup_insert_ne; [done|congruence].
Qed.
Lemma msum_zero m : msum (fun _ _ => 0) m = 0.
Proof. induction m as [|k x m Hk IH] using map_ind; [done|]. rewrite msum_insert_new by done. lia. Qed.
Lemma msum_nonneg f m : (∀ k x, m !! k = Some x → 0 ≤ f k x) → 0 ≤ msum f m.
Proof. intros Hf. rewrite <- (msum_zero m). by apply msum_le. Qed.
Lemma msum_pos f m : (∀ k x, m !! k = Some x → 0 ≤ f k x) → (0 < msum f m ↔ ∃ k x, m !! k = Some x ∧ 0 < f k x).
Proof.
  intros Hf. split.
  - intros Hs. destruct (decide (map_Forall (fun k x => ¬ 0 < f k x) m)) as [Hall|Hnot].
    + pose proof (msum_le f (fun _ _ => 0) m) as Hle. rewrite msum_zero in Hle.
      enough (msum f m ≤ 0) by lia. apply Hle. intros k x Hk. specialize (Hall k x Hk). cbn in Hall. lia.
    + apply map_not_Forall in Hnot as (k & x & Hk & Hx); [|apply _]. exists k, x. split; [done|]. cbn in Hx. lia.
  - intros (k & x & Hk & Hx). rewrite (msum_delete f m k x Hk). enough (0 ≤ msum f (delete k m)) by lia.
    apply msum_nonneg. intros k' x' [_ Hk']%lookup_delete_Some. by apply Hf in Hk'.
Qed.
End Sums.

(** ** Occurrences *)

Lemma occurrences_cons id x l : occurrences id (x :: l) = ((if String.eqb id x then 1 else 0) + occurrences id l)%nat.
Proof. unfold occurrences. cbn. by destruct (String.eqb id x). Qed.
Lemma occurrences_app id l l' : occurrences id (l ++ l') = (occurrences id l + occurrences id l')%nat.
Proof. unfold occurrences. by rewrite List.filter_app, length_app. Qed.
Lemma occurrences_pos id l : (0 < occurrences id l)%nat ↔ id ∈ l.
Proof.
  induction l as [|x l IH]; [split; [cbn; lia|by intros ?%elem_of_nil]|]. rewrite occurrences_cons, elem_of_cons.
  destruct (String.eqb id x) eqn:Hx; bprop; [subst; split; [by left|lia]|]. rewrite <- IH. split; [by right|].
  intros [?|?]; [done|lia].
Qed.
Lemma occurrences_zero id l : occurrences id l = 0%nat ↔ id ∉ l.
Proof. rewrite <- occurrences_pos. lia. Qed.

Definition keep_first (seen : list string) (id : string) : list string :=
  if bool_decide (id ∈ seen) then seen else seen ++ [id].
Lemma unique_ids_fold l seen id :
  occurrences id (foldl keep_first seen l) =
  if bool_decide (id ∈ seen) then occurrences id seen else if bool_decide (id ∈ l) then 1%nat else 0%nat.
Proof.
  revert seen. induction l as [|x l IH]; intros seen; cbn [foldl].
  - case_bool_decide as Hin; [done|]. by apply occurrences_zero.
  - rewrite IH. destruct (decide (x ∈ seen)) as [Hx|Hx];
      [assert (keep_first seen x = seen) as -> by (unfold keep_first; by rewrite bool_decide_true)
      |assert (keep_first seen x = seen ++ [x]) as -> by (unfold keep_first; by rewrite bool_decide_false)].
    + destruct (decide (id ∈ seen)); [by rewrite !(bool_decide_true (id ∈ seen))|].
      rewrite !(bool_decide_false (id ∈ seen)) by done.
      rewrite (bool_decide_ext (id ∈ x :: l) (id ∈ l)); [done|]. rewrite elem_of_cons. naive_solver.
    + destruct (decide (id ∈ seen)) as [Hs|Hs].
      * rewrite (bool_decide_true (id ∈ seen)), (bool_decide_true (id ∈ seen ++ [x])) by (rewrite ?elem_of_app; auto).
        rewrite occurrences_app, occurrences_cons.
        destruct (String.eqb id x) eqn:E; bprop; [by subst|]. cbn. lia.
      * rewrite (bool_decide_false (id ∈ seen)) by done. destruct (decide (id = x)) as [->|Hne].
        -- rewrite (bool_decide_true (x ∈ seen ++ [x])), (bool_decide_true (x ∈ x :: l))
             by (rewrite ?elem_of_app; auto using list_elem_of_here).
           rewrite occurrences_app, occurrences_cons, String.eqb_refl. apply occurrences_zero in Hs. cbn. lia.
        -- rewrite (bool_decide_false (id ∈ seen ++ [x])); [|rewrite elem_of_app, list_elem_of_singleton; naive_solver].
           rewrite (bool_decide_ext (id ∈ x :: l) (id ∈ l)); [done|]. rewrite elem_of_cons. naive_solver.
Qed.
Lemma unique_ids_occurrences id l : occurrences id (unique_ids l) = if bool_decide (id ∈ l) then 1%nat else 0%nat.
Proof. unfold unique_ids. fold keep_first. by rewrite unique_ids_fold, bool_decide_false by (by intros ?%elem_of_nil). Qed.

(** ** Steps on one model *)

Definition frame (r : ModelRegistry) : ModelRegistry := r <| rg_models := ∅ |>.

(** [step] changes the registration of one model, as a function [G] of the rest of
    the state. *)
Record local_step (G : string → ModelRegistry → option ModelRegistration → option ModelRegistration)
    (step : ModelRegistry → string → ModelRegistry) : Prop := {
  step_here r id : rg_models (step r id) !! id = G id (frame r) (rg_models r !! id);
  step_there r id id' : id' ≠ id → rg_models (step r id) !! id' = rg_models r !! id';
  step_frame r id : frame (step r id) = frame r;
}.

Lemma fold_local G step ids r : local_step G step →
  (∀ id, rg_models (foldl step r ids) !! id = Nat.iter (occurrences id ids) (G id (frame r)) (rg_models r !! id))
  ∧ frame (foldl step r ids) = frame r.
Proof.
  intros Hl. revert r. induction ids as [|x ids IH]; intros r; cbn [foldl]; [done|].
  destruct (IH (step r x)) as [H1 H2]. rewrite (step_frame _ _ Hl) in H1, H2. split; [|done]. intros id.
  rewrite H1, occurrences_cons. destruct (String.eqb id x) eqn:E; bprop; [subst x|].
  - rewrite (step_here _ _ Hl). cbn [Nat.add]. by rewrite Nat.iter_succ_r.
  - by rewrite (step_there _ _ Hl).
Qed.
Lemma iter_local G step n r id : local_step G step →
  (∀ id', rg_models (Nat.iter n (fun r => step r id) r) !! id' =
          if bool_decide (id' = id) then Nat.iter n (G id (frame r)) (rg_models r !! id) else rg_models r !! id')
  ∧ frame (Nat.iter n (fun r => step r id) r) = frame r.
Proof.
  intros Hl. induction n as [|n [IH1 IH2]]; [split; [|done]; intros id'; case_bool_decide; by subst|].
  rewrite !Nat.iter_succ. split; [|by rewrite (step_frame _ _ Hl)]. intros id'. case_bool_decide as Hid.
  - subst id'. rewrite (step_here _ _ Hl), IH2, IH1. by rewrite bool_decide_true.
  - rewrite (step_there _ _ Hl), IH1 by done. by rewrite bool_decide_false.
Qed.
Lemma iter_step_local G step (n : string → nat) : local_step G step →
  local_step (fun id r => Nat.iter (n id) (G id r)) (fun r id => Nat.iter (n id) (fun r => step r id) r).
Proof.
  intros Hl. split; intros; destruct (iter_local G step (n id) r id Hl) as [H1 H2]; [..|done];
    rewrite H1; [by rewrite bool_decide_true|by rewrite bool_decide_false].
Qed.
Lemma when_local (b : string → bool) G step : local_step G step →
  local_step (fun id r o => if b id then G id r o else o) (fun r id => if b id then step r id else r).
Proof. intros [H1 H2 H3]. split; intros; by destruct (b id); auto. Qed.
Lemma local_step_ext G step G' step' : local_step G step →
  (∀ r id, step' r id = step r id) → (∀ id r o, G' id (frame r) o = G id (frame r) o) → local_step G' step'.
Proof. intros [H1 H2 H3] Hs HG. split; intros; rewrite Hs; [rewrite HG|..]; auto. Qed.

(** ** Counters of one registration *)

(** [m] counts [f]: a key is present when its count is positive. *)
Definition counts (m : gmap string Z) (f : string → Z) (k : string) : Prop := m !! k = if 0 <? f k then Some (f k) else None.

(** [n] clients in all, [pr p] of provider [p]; without clients there is no
    registration. *)
Definition counted (o : option ModelRegistration) (n : Z) (pr : string → Z) : Prop :=
  match o with
  | None => n = 0 ∧ ∀ p, p ≠ "" → pr p = 0
  | Some reg => mr_Count reg = n ∧ 0 < n ∧ mr_Providers reg !! "" = None ∧ ∀ p, p ≠ "" → counts (mr_Providers reg) pr p
  end.
Definition share (p : string) (k : Z) (q : string) : Z := if String.eqb p q then k else 0.

Lemma counted_ext o n n' pr pr' : counted o n pr → n' = n → (∀ p, p ≠ "" → pr' p = pr p) → counted o n' pr'.
Proof.
  unfold counted, counts. intros Ho -> Hpr. destruct o as [reg|].
  - destruct Ho as (H1 & H2 & H3 & H4). split_and!; [done..|]. intros p Hp. by rewrite Hpr, H4.
  - destruct Ho as [H1 H2]. split; [done|]. intros p Hp. rewrite Hpr by done. auto.
Qed.

Lemma counts_default m f k : counts m f k → 0 ≤ f k → default 0 (m !! k) = f k.
Proof. unfold counts. intros -> Hf. destruct (0 <? f k) eqn:E; bprop; cbn; lia. Qed.

Lemma counts_ext m f g k : g k = f k → counts m f k → counts m g k.
Proof. unfold counts. by intros ->. Qed.
Lemma share_self p k : share p k p = k.
Proof. unfold share. by rewrite String.eqb_refl. Qed.
Lemma share_other p k q : p ≠ q → share p k q = 0.
Proof. intros Hne. unfold share. by rewrite (proj2 (String.eqb_neq p q)). Qed.

(** Case analysis on whether a provider is the one that changes. *)
Ltac provider_case p q :=
  destruct (decide (p = q)) as [->|?]; [rewrite ?share_self|rewrite ?share_other by congruence].

(** A counter set to a new value. *)
Lemma counts_put m f g k x : f k = x → 0 < x → (∀ q, q ≠ "" → q ≠ k → f q = g q) → (∀ q, q ≠ "" → counts m g q) →
  ∀ q, q ≠ "" → counts (<[k := x]> m) f q.
Proof.
  intros Hf Hx Hfg Hm q Hq. unfold counts. destruct (decide (q = k)) as [->|Hne].
  - rewrite lookup_insert_eq, Hf. destruct (0 <? x) eqn:?; bprop; [done|lia].
  - rewrite lookup_insert_ne, Hfg by done. by apply Hm.
Qed.
Lemma counts_drop m f g k : f k ≤ 0 → (∀ q, q ≠ "" → q ≠ k → f q = g q) → (∀ q, q ≠ "" → counts m g q) →
  ∀ q, q ≠ "" → counts (delete k m) f q.
Proof.
  intros Hf Hfg Hm q Hq. unfold counts. destruct (decide (q = k)) as [->|Hne].
  - rewrite lookup_delete_eq. destruct (0 <? f k) eqn:?; bprop; [lia|done].
  - rewrite lookup_delete_ne, Hfg by done. by apply Hm.
Qed.

Lemma added_counted r id p model now c o n pr :
  counted o n pr → 0 ≤ n → (∀ q, q ≠ "" → 0 ≤ pr q) →
  counted (added r id p model now c o) (n + 1) (fun q => pr q + share p 1 q).
Proof.
  intros Ho Hn Hpr. unfold added. destruct o as [reg|]; cbn.
  - destruct Ho as (H1 & H2 & H3 & H4). destruct (String.eqb p "") eqn:Hp; bprop; cbn; split_and!; try lia; try done.
    + intros q Hq. apply (counts_ext _ pr); [|auto]. rewrite share_other by congruence. lia.
    + by rewrite lookup_insert_ne.
    + apply counts_put with pr; [|pose proof (Hpr p Hp)| |done].
      * rewrite share_self. by rewrite (counts_default _ pr) by auto.
      * rewrite (counts_default _ pr) by auto. lia.
      * intros q _ Hq. rewrite share_other by congruence. lia.
  - destruct Ho as [-> H2]. destruct (String.eqb p "") eqn:Hp; bprop; cbn; split_and!; try lia; try done.
    + intros q Hq. unfold counts. rewrite H2, share_other by congruence. done.
    + apply lookup_singleton_ne. congruence.
    + rewrite <- insert_empty. apply counts_put with (fun _ => 0); [|done| |done].
      * by rewrite H2, share_self.
      * intros q Hq Hne. by rewrite H2, share_other.
Qed.

(** Giving up [k] clients of a provider. *)
Lemma release_counts reg p k pr : mr_Providers reg !! "" = None → p ≠ "" → 0 < k →
  (∀ q, q ≠ "" → counts (mr_Providers reg) pr q) →
  mr_Count (release_provider p k reg) = mr_Count reg ∧ mr_Providers (release_provider p k reg) !! "" = None
  ∧ ∀ q, q ≠ "" → counts (mr_Providers (release_provider p k reg)) (fun q => pr q - share p k q) q.
Proof.
  intros H0 Hp Hk Hc. unfold release_provider. pose proof (Hc p Hp) as Hpp. unfold counts in Hpp. rewrite Hpp.
  assert (∀ q, q ≠ "" → q ≠ p → pr q - share p k q = pr q) as Hother by (intros q _ Hq; rewrite share_other by congruence; lia).
  destruct (0 <? pr p) eqn:Hpos; bprop.
  - destruct (pr p <=? k) eqn:Hle; bprop; cbn; split_and!; try done; try (by rewrite ?lookup_delete_ne, ?lookup_insert_ne).
    + apply counts_drop with pr; [rewrite share_self; lia|done|done].
    + apply counts_put with pr; [by rewrite share_self|lia|done|done].
  - split_and!; [done..|]. intros q Hq. destruct (decide (q = p)) as [->|Hne]; [|by apply (counts_ext _ pr); auto].
    unfold counts. rewrite Hpp, share_self. destruct (0 <? pr p - k) eqn:?; bprop; [lia|done].
Qed.

(** Fields the refreshing of flags leaves alone. *)
Lemma forget_client_counts c reg :
  mr_Count (forget_client c reg) = mr_Count reg ∧ mr_Providers (forget_client c reg) = mr_Providers reg.
Proof. done. Qed.
Lemma refresh_after_loss_counts r id p c reg :
  mr_Count (refresh_after_loss r id p c reg) = mr_Count reg
  ∧ mr_Providers (refresh_after_loss r id p c reg) = mr_Providers reg.
Proof. unfold refresh_after_loss. by destruct (String.eqb p ""). Qed.

(** Losing one client of provider [p] ("" when it has none). *)
Lemma lose_counted reg p n pr :
  mr_Providers reg !! "" = None → (∀ q, q ≠ "" → counts (mr_Providers reg) pr q) → mr_Count reg = n - 1 →
  (∀ q, q ≠ "" → 0 ≤ pr q - share p 1 q ≤ n - 1) →
  let reg' := if String.eqb p "" then reg else release_provider p 1 reg in
  mr_Count reg' = n - 1 ∧ (0 < n - 1 → counted (Some reg') (n - 1) (fun q => pr q - share p 1 q))
  ∧ (n - 1 ≤ 0 → 0 ≤ n - 1 → counted None (n - 1) (fun q => pr q - share p 1 q)).
Proof.
  intros H0 Hc Hn Hb. cbv zeta. destruct (String.eqb p "") eqn:Hp; bprop.
  - split_and!; [done| |].
    + intros Hpos. cbn. split_and!; try done. intros q Hq. apply (counts_ext _ pr); [|auto].
      rewrite share_other by congruence. lia.
    + intros. cbn. split; [lia|]. intros q Hq. specialize (Hb q Hq). lia.
  - destruct (release_counts reg p 1 pr H0 Hp ltac:(lia) Hc) as (E1 & E2 & E3). rewrite E1.
    split_and!; [done| |].
    + intros Hpos. cbn. rewrite E1. done.
    + intros. cbn. split; [lia|]. intros q Hq. specialize (Hb q Hq). lia.
Qed.

Lemma removed_counted r c id p now keep o n pr :
  counted o n pr → 0 < n → (∀ q, q ≠ "" → 0 ≤ pr q - share p 1 q ≤ n - 1) →
  counted (removed r c id p now keep o) (n - 1) (fun q => pr q - share p 1 q).
Proof.
  intros Ho Hn Hb. unfold removed. destruct o as [reg|]; cbn [mbind option_bind]; [|destruct Ho; lia].
  destruct Ho as (H1 & _ & H3 & H4). set (reg1 := if keep then _ else _).
  assert (mr_Count reg1 = n - 1 ∧ mr_Providers reg1 = mr_Providers reg) as [Hc1 Hp1] by (subst reg1; destruct keep; cbn; auto with lia).
  rewrite Hc1. rewrite (proj2 (Z.ltb_ge (n - 1) 0)) by lia.
  destruct (lose_counted reg1 p n pr) as (E1 & E2 & E3); rewrite ?Hp1; try done.
  set (reg2 := if String.eqb p "" then reg1 else _) in *. rewrite E1. destruct (n - 1 <=? 0) eqn:Hz; bprop; [auto with lia|].
  specialize (E2 ltac:(lia)). destruct (refresh_after_loss_counts r id p c reg2) as [F1 F2].
  unfold counted in *. by rewrite F1, F2.
Qed.
Lemma unregistered_counted r c p now id o n pr :
  counted o n pr → 0 < n → p ≠ Some "" → (∀ q, q ≠ "" → 0 ≤ pr q - share (default "" p) 1 q ≤ n - 1) →
  counted (unregistered r c p now id o) (n - 1) (fun q => pr q - share (default "" p) 1 q).
Proof.
  intros Ho Hn Hne Hb. unfold unregistered. destruct o as [reg|]; cbn [mbind option_bind]; [|destruct Ho; lia].
  destruct Ho as (H1 & _ & H3 & H4). set (reg1 := forget_client c _).
  assert (mr_Count reg1 = n - 1 ∧ mr_Providers reg1 = mr_Providers reg) as [Hc1 Hp1] by (subst reg1; cbn; auto with lia).
  destruct (lose_counted reg1 (default "" p) n pr) as (E1 & E2 & E3); rewrite ?Hp1; try done.
  assert ((if String.eqb (default "" p) "" then reg1 else release_provider (default "" p) 1 reg1)
          = match p with Some p => release_provider p 1 reg1 | None => reg1 end) as Heq.
  { destruct p as [p|]; [|done]. cbn. by destruct (String.eqb p "") eqn:E; bprop; [subst|]. }
  rewrite Heq in *. set (reg2 := match p with Some p => _ | None => _ end) in *. rewrite E1.
  destruct (n - 1 <=? 0) eqn:Hz; bprop; [auto with lia|]. specialize (E2 ltac:(lia)). by destruct p.
Qed.

Lemma iter_lose (G : option ModelRegistration → option ModelRegistration) p k o n pr :
  (∀ o n pr, counted o n pr → 0 < n → (∀ q, q ≠ "" → 0 ≤ pr q - share p 1 q ≤ n - 1) →
     counted (G o) (n - 1) (fun q => pr q - share p 1 q)) →
  counted o n pr → Z.of_nat k ≤ n → (∀ q, q ≠ "" → 0 ≤ pr q - share p (Z.of_nat k) q ≤ n - Z.of_nat k) →
  counted (Nat.iter k G o) (n - Z.of_nat k) (fun q => pr q - share p (Z.of_nat k) q).
Proof.
  intros HG. revert o n pr. induction k as [|k IH]; intros o n pr Ho Hk Hb.
  - eapply counted_ext; [done|lia|]. intros q _. unfold share. destruct (String.eqb p q); cbn; lia.
  - rewrite Nat.iter_succ_r. assert (∀ q, share p (Z.of_nat (S k)) q = share p 1 q + share p (Z.of_nat k) q) as Hs
      by (intros q; unfold share; destruct (String.eqb p q); lia).
    assert (∀ q, 0 ≤ share p (Z.of_nat k) q ≤ Z.of_nat k) as Hr by (intros q; unfold share; destruct (String.eqb p q); lia).
    eapply counted_ext; [apply (IH (G o) (n - 1) (fun q => pr q - share p 1 q))|lia|].
    + apply HG; [done|lia|]. intros q Hq. specialize (Hb q Hq). rewrite Hs in Hb. specialize (Hr q). lia.
    + lia.
    + intros q Hq. specialize (Hb q Hq). rewrite Hs in Hb. lia.
    + intros q Hq. cbn. rewrite Hs. lia.
Qed.
Lemma iter_added r id p model now c k o n pr :
  counted o n pr → 0 ≤ n → (∀ q, q ≠ "" → 0 ≤ pr q) →
  counted (Nat.iter k (added r id p model now c) o) (n + Z.of_nat k) (fun q => pr q + share p (Z.of_nat k) q).
Proof.
  revert o n pr. induction k as [|k IH]; intros o n pr Ho Hn Hpr.
  - eapply counted_ext; [done|lia|]. intros q _. unfold share. destruct (String.eqb p q); cbn; lia.
  - rewrite Nat.iter_succ_r. eapply counted_ext; [apply (IH _ (n + 1) (fun q => pr q + share p 1 q))|lia|].
    + by apply added_counted.
    + lia.
    + intros q Hq. specialize (Hpr q Hq). unfold share. destruct (String.eqb p q); lia.
    + intros q Hq. unfold share. destruct (String.eqb p q); cbn; lia.
Qed.

Lemma handed_over_counted r c p k id o n pr :
  counted o n pr → (0 < k)%nat → p ≠ "" → (∀ q, q ≠ "" → 0 ≤ pr q - share p (Z.of_nat k) q) →
  counted (handed_over r c p k id <$> o) n (fun q => pr q - share p (Z.of_nat k) q).
Proof.
  intros Ho Hk Hp Hb. destruct o as [reg|]; cbn.
  - destruct Ho as (H1 & H2 & H3 & H4).
    destruct (release_counts reg p (Z.of_nat k) pr H3 Hp ltac:(lia) H4) as (E1 & E2 & E3).
    unfold handed_over. pose proof (H4 p Hp) as Hpp. unfold counts in Hpp. rewrite Hpp.
    pose proof (Hb p Hp) as Hbp. rewrite share_self in Hbp. destruct (0 <? pr p) eqn:?; bprop; [|lia].
    destruct (pr p <=? Z.of_nat k); cbn; rewrite E1; done.
  - destruct Ho as [H1 H2]. split; [done|]. intros q Hq. specialize (Hb q Hq). specialize (H2 q Hq).
    revert Hb. unfold share. destruct (String.eqb p q); lia.
Qed.
Definition overlap (old new : string) (k : nat) (q : string) : Z :=
  if negb (String.eqb old new) then share new (Z.of_nat k) q else 0.
Lemma updated_counted r c new old keep oc nc model now id o n pr :
  counted o n pr → (∀ q, q ≠ "" → 0 ≤ pr q) → ((0 < nc)%nat → 0 < n) →
  counted (updated r c new old keep oc nc model now id <$> o) n (fun q => pr q + overlap old new (Nat.min nc oc) q).
Proof.
  intros Ho Hpr Hn. destruct o as [reg|]; cbn [fmap option_fmap option_map].
  - destruct Ho as (H1 & H2 & H3 & H4). unfold updated. set (reg1 := reg <| mr_Info := _ |>).
    set (reg2 := if String.eqb new "" then reg1 else _). set (reg3 := if _ && _ then _ else reg2).
    set (reg4 := reg3 <| mr_LastUpdated := now |>). set (reg5 := if _ || _ then _ else reg4).
    assert (mr_Count reg5 = n ∧ mr_Providers reg5 = mr_Providers reg) as [E1 E2]
      by (subst reg5 reg4 reg3 reg2 reg1; split; repeat case_match; done).
    clearbody reg5. clear reg1 reg2 reg3 reg4. unfold overlap.
    destruct (negb (String.eqb old new)); cbn [andb].
    + destruct (negb (String.eqb new "") && (0 <? Z.of_nat (Nat.min nc oc))) eqn:Hc; bprop; cbn [counted mr_Count mr_Providers set eta ModelRegistration_eta].
      * cbn. rewrite E1, E2. split_and!; [done|done|by rewrite lookup_insert_ne|].
        apply counts_put with pr; [|pose proof (Hpr new H)| |done]; rewrite ?(counts_default _ pr) by auto.
        -- by rewrite share_self.
        -- lia.
        -- intros q _ Hq. rewrite share_other by congruence. lia.
      * rewrite E1, E2. split_and!; [done..|]. intros q Hq. apply (counts_ext _ pr); [|auto].
        apply andb_false_iff in Hc as [Hc|Hc]; bprop; [rewrite share_other by congruence|unfold share; destruct (String.eqb new q)]; lia.
    + cbn. rewrite E1, E2. split_and!; [done..|]. intros q Hq. apply (counts_ext _ pr); [|auto]. lia.
  - destruct Ho as [H1 H2]. split; [done|]. intros q Hq. rewrite H2 by done. unfold overlap, share.
    destruct (negb _); [|done]. destruct (String.eqb new q); [|done]. destruct nc; [done|]. lia.
Qed.

(** ** A reconciliation, one model at a time *)

Lemma alter_local (G : string → ModelRegistry → option ModelRegistration → option ModelRegistration) :
  (∀ r id o, G id (frame r) o = G id r o) → local_step G (fun r id => alter_model id (G id r) r).
Proof.
  intros HG. split; intros; unfold alter_model; cbn; [rewrite lookup_partial_alter_eq; by rewrite HG| |done].
  by rewrite lookup_partial_alter_ne.
Qed.

Section Reconcile.
Context (c new old : string) (keep : bool) (oldModels raw : list string) (newModels : gmap string ModelInfo) (now : time).
Local Abbreviation o id := (occurrences id oldModels).
Local Abbreviation k id := (occurrences id raw).

Definition G_hand id r : option ModelRegistration → option ModelRegistration :=
  if (Nat.min (k id) (o id) =? 0)%nat then (fun x => x) else fmap (handed_over r c old (Nat.min (k id) (o id)) id).
Lemma hand_local : local_step G_hand (hand_over c old oldModels raw).
Proof.
  apply (local_step_ext _ _ _ _ (when_local (fun id => negb (Nat.min (k id) (o id) =? 0)%nat) _ _
    (alter_local (fun id r => fmap (handed_over r c old (Nat.min (k id) (o id)) id)) ltac:(done)))).
  - intros r id. unfold hand_over. by destruct (_ =? 0)%nat.
  - intros id r x. unfold G_hand. by destruct (_ =? 0)%nat.
Qed.

Lemma removed_local keep' : local_step (fun id r => removed r c id old now keep')
  (fun r id => removeModelRegistration c id old now keep' r).
Proof. by apply alter_local. Qed.
Definition n_gone id : nat := if (k id =? 0)%nat then o id else 0%nat.
Definition n_excess id : nat := if (k id =? 0)%nat || (o id <=? k id)%nat then 0%nat else (o id - k id)%nat.
Lemma gone_local : local_step (fun id r => Nat.iter (n_gone id) (removed r c id old now false)) (remove_gone c old oldModels raw now).
Proof.
  apply (local_step_ext _ _ _ _ (iter_step_local _ _ n_gone (removed_local false))); [|done].
  intros r id. unfold remove_gone, n_gone. by destruct (_ =? 0)%nat.
Qed.
Lemma excess_local keep' :
  local_step (fun id r => Nat.iter (n_excess id) (removed r c id old now keep')) (remove_excess c old oldModels raw now keep').
Proof.
  apply (local_step_ext _ _ _ _ (iter_step_local _ _ n_excess (removed_local keep'))); [|done].
  intros r id. unfold remove_excess, n_excess. by destruct (_ || _).
Qed.

Definition G_add id r : option ModelRegistration → option ModelRegistration :=
  match newModels !! id with
  | Some model => Nat.iter (k id - o id) (added r id new model now c)
  | None => fun x => x
  end.
Lemma missing_local : newModels !! "" = None → local_step G_add (add_missing c new oldModels raw newModels now).
Proof.
  intros H0. split; intros; unfold add_missing, G_add; destruct (newModels !! id) as [model|] eqn:Hm; try done;
    assert (String.eqb id "" = false) as Hid by (apply String.eqb_neq; congruence);
    pose proof (iter_local (fun id r => added r id new model now c) (fun r id => alter_model id (added r id new model now c) r)
                  (k id - o id) r id ltac:(by apply alter_local)) as [H1 H2];
    unfold add_times, addModelRegistration; rewrite Hid; [rewrite H1..|done];
    [by rewrite bool_decide_true|by rewrite bool_decide_false].
Qed.

Definition G_update id r : option ModelRegistration → option ModelRegistration :=
  match newModels !! id with
  | Some model => fmap (updated r c new old keep (o id) (k id) model now id)
  | None => fun x => x
  end.
Lemma update_local : local_step G_update (update_kept c new old keep oldModels raw newModels now).
Proof.
  split; intros; unfold update_kept, G_update; destruct (newModels !! id) as [model|]; try done; unfold alter_model; cbn.
  - by rewrite lookup_partial_alter_eq.
  - by rewrite lookup_partial_alter_ne.
Qed.

Lemma iter_unique (G : option ModelRegistration → option ModelRegistration) id ids x :
  Nat.iter (occurrences id (unique_ids ids)) G x = if bool_decide (id ∈ ids) then G x else x.
Proof. rewrite unique_ids_occurrences. by case_bool_decide. Qed.

(** What a reconciliation makes of one registration. *)
Definition G_reconcile id fr (x : option ModelRegistration) : option ModelRegistration :=
  let changed := negb (String.eqb old new) in
  let x := if changed && negb (String.eqb old "") && bool_decide (id ∈ raw) then G_hand id fr x else x in
  let x := if bool_decide (id ∈ oldModels) then Nat.iter (n_gone id) (removed fr c id old now false) x else x in
  let x := if bool_decide (id ∈ oldModels)
           then Nat.iter (n_excess id) (removed fr c id old now (keep && negb changed)) x else x in
  let x := if bool_decide (id ∈ raw) then G_add id fr x else x in
  if bool_decide (id ∈ raw) then G_update id fr x else x.

Lemma reconcile_models r : newModels !! "" = None →
  (∀ id, rg_models (reconcile c new old keep oldModels raw newModels now r) !! id = G_reconcile id (frame r) (rg_models r !! id))
  ∧ frame (reconcile c new old keep oldModels raw newModels now r) = frame r.
Proof.
  intros H0. unfold reconcile. set (changed := negb (String.eqb old new)).
  set (r1 := if changed && _ then _ else r).
  assert ((∀ id, rg_models r1 !! id = if changed && negb (String.eqb old "") && bool_decide (id ∈ raw)
                                      then G_hand id (frame r) (rg_models r !! id) else rg_models r !! id)
          ∧ frame r1 = frame r) as [E1 F1].
  { subst r1. destruct (changed && negb (String.eqb old "")); [|done].
    destruct (fold_local _ _ (unique_ids raw) r hand_local) as [E F]. split; [|done]. intros id. rewrite E. apply iter_unique. }
  destruct (fold_local _ _ (unique_ids oldModels) r1 gone_local) as [E2 F2]. set (r2 := foldl _ r1 _) in *.
  destruct (fold_local _ _ (unique_ids oldModels) r2 (excess_local (keep && negb changed))) as [E3 F3]. set (r3 := foldl _ r2 _) in *.
  destruct (fold_local _ _ (unique_ids raw) r3 (missing_local H0)) as [E4 F4]. set (r4 := foldl _ r3 _) in *.
  destruct (fold_local _ _ (unique_ids raw) r4 update_local) as [E5 F5]. split; [|congruence].
  intros id. rewrite E5, F4, F3, F2, F1, E4, F3, F2, F1, E3, F2, F1, E2, F1, E1, !iter_unique. done.
Qed.

Lemma n_gone_excess id : (n_gone id + n_excess id = o id - Nat.min (k id) (o id))%nat.
Proof.
  unfold n_gone, n_excess. destruct (k id =? 0)%nat eqn:E; cbn [orb]; [apply Nat.eqb_eq in E; lia|].
  destruct (o id <=? k id)%nat eqn:E'; [apply Nat.leb_le in E'|apply Nat.leb_gt in E']; lia.
Qed.

Lemma iter_removed fr id keep' j x n pr : counted x n pr → Z.of_nat j ≤ n →
  (∀ q, q ≠ "" → 0 ≤ pr q - share old (Z.of_nat j) q ≤ n - Z.of_nat j) →
  counted (Nat.iter j (removed fr c id old now keep') x) (n - Z.of_nat j) (fun q => pr q - share old (Z.of_nat j) q).
Proof. apply iter_lose. intros. by apply removed_counted. Qed.

(** What the old provider has given up before the removals. *)
Definition given_up id q : Z :=
  if negb (String.eqb old new) && negb (String.eqb old "") then share old (Z.of_nat (Nat.min (k id) (o id))) q else 0.

Lemma reconcile_start id fr x n pr :
  0 ≤ n → (∀ q, q ≠ "" → 0 ≤ pr q ≤ n) →
  counted x (n + Z.of_nat (o id)) (fun q => pr q + share old (Z.of_nat (o id)) q) →
  counted (if negb (String.eqb old new) && negb (String.eqb old "") && bool_decide (id ∈ raw) then G_hand id fr x else x)
    (n + Z.of_nat (o id)) (fun q => pr q + share old (Z.of_nat (o id)) q - given_up id q).
Proof.
  intros Hn Hpr Hx. unfold given_up. destruct (negb (String.eqb old new) && negb (String.eqb old "")) eqn:Hc; cbn [andb].
  2: { eapply counted_ext; [done|done|]. intros q _. cbn. lia. }
  assert (∀ q, share old (Z.of_nat (Nat.min (k id) (o id))) q ≤ share old (Z.of_nat (o id)) q) as Hle
    by (intros q; unfold share; destruct (String.eqb old q); lia).
  bprop. case_bool_decide as Hin.
  - unfold G_hand. destruct (Nat.min (k id) (o id) =? 0)%nat eqn:Hz; [apply Nat.eqb_eq in Hz|apply Nat.eqb_neq in Hz].
    + eapply counted_ext; [done|done|]. intros q _. rewrite Hz. unfold share. destruct (String.eqb old q); cbn; lia.
    + apply handed_over_counted; [done|lia|done|]. intros q Hq. specialize (Hpr q Hq). specialize (Hle q). lia.
  - apply occurrences_zero in Hin. eapply counted_ext; [done|done|]. intros q _. rewrite Hin. cbn.
    unfold share. destruct (String.eqb old q); cbn; lia.
Qed.

Lemma reconcile_middle id fr x n pr :
  0 ≤ n → (∀ q, q ≠ "" → 0 ≤ pr q ≤ n) →
  counted x (n + Z.of_nat (o id)) (fun q => pr q + share old (Z.of_nat (o id)) q - given_up id q) →
  ∀ keep', counted (let x := if bool_decide (id ∈ oldModels) then Nat.iter (n_gone id) (removed fr c id old now false) x else x in
                    if bool_decide (id ∈ oldModels) then Nat.iter (n_excess id) (removed fr c id old now keep') x else x)
    (n + Z.of_nat (Nat.min (k id) (o id)))
    (fun q => pr q + share old (Z.of_nat (Nat.min (k id) (o id))) q - given_up id q).
Proof.
  intros Hn Hpr Hx keep'. cbv zeta. pose proof (n_gone_excess id) as Hge.
  assert (∀ q j, 0 ≤ share old (Z.of_nat j) q ≤ Z.of_nat j) as Hb by (intros q j; unfold share; destruct (String.eqb old q); lia).
  assert (∀ q i j, share old (Z.of_nat (i + j)) q = share old (Z.of_nat i) q + share old (Z.of_nat j) q) as Hadd
    by (intros q i j; unfold share; destruct (String.eqb old q); lia).
  set (m := Nat.min (k id) (o id)) in *.
  assert (o id = n_gone id + n_excess id + m)%nat as Ho by lia.
  assert (∀ q, q ≠ "" → 0 ≤ share old (Z.of_nat m) q - given_up id q ≤ Z.of_nat m) as Hg.
  { intros q Hq. specialize (Hb q m). unfold given_up. destruct (_ && _); fold m; lia. }
  case_bool_decide as Hin.
  - assert (counted (Nat.iter (n_gone id) (removed fr c id old now false) x) (n + Z.of_nat (n_excess id + m))
             (fun q => pr q + share old (Z.of_nat (n_excess id + m)) q - given_up id q)) as H1.
    { eapply counted_ext; [apply iter_removed; [done|lia|]|cbn; lia|].
      - intros q Hq. cbn. specialize (Hpr q Hq). specialize (Hg q Hq). pose proof (Hb q (n_excess id)).
        rewrite Ho, !Hadd. lia.
      - intros q Hq. cbn. rewrite Ho, !Hadd. lia. }
    eapply counted_ext; [apply iter_removed; [done|lia|]|cbn; lia|].
    + intros q Hq. cbn. specialize (Hpr q Hq). specialize (Hg q Hq). rewrite !Hadd. lia.
    + intros q Hq. cbn. rewrite !Hadd. lia.
  - apply occurrences_zero in Hin. eapply counted_ext; [done|cbn; lia|]. intros q Hq. cbn.
    assert (m = 0%nat) as -> by lia. by rewrite Hin.
Qed.

Lemma reconcile_counted id fr x n pr :
  (∀ id, is_Some (newModels !! id) ↔ id ∈ raw) → 0 ≤ n → (∀ q, q ≠ "" → 0 ≤ pr q ≤ n) →
  counted x (n + Z.of_nat (o id)) (fun q => pr q + share old (Z.of_nat (o id)) q) →
  counted (G_reconcile id fr x) (n + Z.of_nat (k id)) (fun q => pr q + share new (Z.of_nat (k id)) q).
Proof.
  intros Hraw Hn Hpr Hx. unfold G_reconcile. cbv zeta.
  apply (reconcile_start id fr) in Hx; [|done..]. set (x1 := if _ && _ && _ then _ else x) in *.
  pose proof (reconcile_middle id fr x1 n pr Hn Hpr Hx (keep && negb (negb (String.eqb old new)))) as H2. cbv zeta in H2.
  set (x3 := if bool_decide (id ∈ oldModels) then Nat.iter (n_excess id) _ _ else _) in *. clearbody x3. clear Hx x1.
  set (m := Nat.min (k id) (o id)) in *.
  assert (∀ q j, 0 ≤ share old (Z.of_nat j) q ≤ Z.of_nat j) as Hb by (intros q j; unfold share; destruct (String.eqb old q); lia).
  case_bool_decide as Hin.
  - destruct (proj2 (Hraw id) Hin) as [model Hm]. unfold G_add, G_update. rewrite Hm. apply occurrences_pos in Hin.
    assert (∀ q, q ≠ "" → 0 ≤ pr q + share old (Z.of_nat m) q - given_up id q) as Hnn.
    { intros q Hq. specialize (Hpr q Hq). specialize (Hb q m). unfold given_up. destruct (_ && _); fold m; lia. }
    assert (H3 := iter_added fr id new model now c (k id - o id) x3 _ _ H2 ltac:(lia) Hnn).
    eapply counted_ext; [apply updated_counted; [exact H3| |]|cbn; lia|].
    + intros q Hq. specialize (Hnn q Hq). unfold share at 2. destruct (String.eqb new q); lia.
    + cbn in Hin. lia.
    + intros q Hq. cbn. fold m. unfold overlap, given_up. fold m.
      destruct (decide (old = new)) as [->|Hne]; [rewrite String.eqb_refl; cbn|].
      * assert (k id = m + (k id - o id))%nat as -> by lia. unfold share. destruct (String.eqb new q); lia.
      * rewrite (proj2 (String.eqb_neq old new)) by done. cbn. unfold share.
        destruct (String.eqb new q) eqn:E1, (String.eqb old q) eqn:E2, (String.eqb old "") eqn:E3; bprop; subst; try done; cbn; lia.
  - apply occurrences_zero in Hin. assert (m = 0%nat) as Em by (cbn in Hin; lia). rewrite Em in H2. cbn in Hin.
    eapply counted_ext; [done|cbn; lia|]. intros q Hq. cbn. rewrite Hin. unfold given_up. fold m. rewrite Em. unfold share.
    destruct (_ && _), (String.eqb new q), (String.eqb old q); cbn; lia.
Qed.

End Reconcile.

End RegistryProps.
