(* ===== verification/RegistryInv.v ===== *)
(** * Properties of the model registry: its invariant

    The counters of every model and of the web-search index are sums over the
    clients, whatever sequence of operations ran; a client with metadata has a list
    with the same models. *)
From S2P Require Import Prelude GoLib Thinking MarkResult Scheduler Registry RegistryViews RegistryProps.
Import MarkResult Registry RegistryViews RegistryProps.

Module RegistryInv.

(** ** Sums by client and by provider *)

Section Totals.
Context {A : Type} (w : A → Z) (cp : gmap string string).
Implicit Types m : gmap string A.

Definition total m : Z := msum (fun _ x => w x) m.
Definition total_by m (q : string) : Z := msum (fun c x => share (default "" (cp !! c)) (w x) q) m.
Definition weight (o : option A) : Z := match o with Some x => w x | None => 0 end.

Lemma total_split m c : total m = weight (m !! c) + total (delete c m).
Proof.
  destruct (m !! c) as [x|] eqn:Hc; cbn; [by apply (msum_delete (fun _ x => w x))|]. by rewrite delete_id.
Qed.
Lemma total_by_split m c q :
  total_by m q = share (default "" (cp !! c)) (weight (m !! c)) q + total_by (delete c m) q.
Proof.
  destruct (m !! c) as [x|] eqn:Hc; cbn; [by apply (msum_delete (fun c x => share _ (w x) q))|].
  rewrite delete_id by done. unfold share. by destruct (String.eqb _ q).
Qed.
Lemma total_bounds m q : (∀ x, 0 ≤ w x) → 0 ≤ total_by m q ≤ total m.
Proof.
  intros Hw. split; [apply msum_nonneg|apply msum_le]; intros c x _; specialize (Hw x); unfold share;
    destruct (String.eqb _ q); lia.
Qed.
End Totals.

Lemma total_by_ext {A} (w : A → Z) cp cp' (m : gmap string A) q :
  (∀ c, is_Some (m !! c) → cp' !! c = cp !! c) → total_by w cp' m q = total_by w cp m q.
Proof. intros Hcp. apply msum_ext. intros c x Hc. by rewrite Hcp. Qed.

Definition in_list (id : string) (ids : list string) : Z := Z.of_nat (occurrences id ids).
Definition flag (id : string) (infos : gmap string ModelInfo) : Z :=
  match infos !! id with Some info => if mi_SupportsWebSearch info then 1 else 0 | None => 0 end.
Lemma flag_nonneg id infos : 0 ≤ flag id infos.
Proof. unfold flag. repeat case_match; lia. Qed.
Lemma flag_offers r c id : flag id (infos_of r c) = if offers_web r c id then 1 else 0.
Proof. unfold flag, offers_web. by destruct (infos_of r c !! id) as [info|]; [destruct (mi_SupportsWebSearch info)|]. Qed.
Lemma flag_weight r c id : weight (flag id) (rg_clientModelInfos r !! c) = flag id (infos_of r c).
Proof. unfold infos_of. destruct (rg_clientModelInfos r !! c); [done|]. cbn [default from_option weight]. unfold flag. by rewrite lookup_empty. Qed.

(** ** The web-search index *)

Definition web_counted (f : string → Z) (g : string → string → Z) (r : ModelRegistry) : Prop :=
  ∀ id, id ≠ "" → counts (rg_webSearchClientCounts r) f id ∧ ∀ p, p ≠ "" → counts (web_providers r id) (g id) p.
(** The state without the index. *)
Definition unindexed (r : ModelRegistry) : ModelRegistry :=
  r <| rg_webSearchClientCounts := ∅ |> <| rg_webSearchProviderCounts := ∅ |>.

Lemma web_counted_ext f g f' g' r r' : web_counted f g r →
  rg_webSearchClientCounts r' = rg_webSearchClientCounts r → rg_webSearchProviderCounts r' = rg_webSearchProviderCounts r →
  (∀ id, id ≠ "" → f' id = f id) → (∀ id p, id ≠ "" → p ≠ "" → g' id p = g id p) → web_counted f' g' r'.
Proof.
  intros Hw E1 E2 Hf Hg id Hid. destruct (Hw id Hid) as [H1 H2]. unfold web_providers in *. rewrite E1, E2. split.
  - apply (counts_ext _ f); auto.
  - intros p Hp. apply (counts_ext _ (g id)); auto.
Qed.

Lemma take_one_counts m f k : counts m f k → counts (take_one k m) (fun k => f k - 1) k.
Proof.
  intros Hc. unfold take_one. unfold counts in *. rewrite Hc. destruct (0 <? f k) eqn:E; bprop; cbn.
  - destruct (1 <? f k) eqn:E'; bprop; [rewrite lookup_insert_eq|rewrite lookup_delete_eq];
      destruct (0 <? f k - 1) eqn:?; bprop; done || lia.
  - rewrite lookup_delete_eq. destruct (0 <? f k - 1) eqn:?; bprop; [lia|done].
Qed.
Lemma take_one_ne m k k' : k' ≠ k → take_one k m !! k' = m !! k'.
Proof.
  intros Hne. unfold take_one. destruct (1 <? _); [by rewrite lookup_insert_ne|by rewrite lookup_delete_ne].
Qed.
Lemma put_one_counts m f k : counts m f k → 0 ≤ f k → counts (<[k := default 0 (m !! k) + 1]> m) (fun k => f k + 1) k.
Proof.
  intros Hc Hf. rewrite (counts_default _ f) by done. unfold counts. rewrite lookup_insert_eq.
  destruct (0 <? f k + 1) eqn:?; bprop; [done|lia].
Qed.

(** One more or one less model of a client of provider [p]. *)
Definition one (x y : string) (d : Z) : Z := if String.eqb x y then d else 0.
Lemma one_same x d : one x x d = d. Proof. unfold one. by rewrite String.eqb_refl. Qed.
Lemma one_other x y d : x ≠ y → one x y d = 0. Proof. intros. unfold one. by rewrite (proj2 (String.eqb_neq x y)). Qed.

Lemma decrement_web f g r id p : web_counted f g r →
  web_counted (fun x => f x - one id x 1) (fun x q => g x q - one id x (share p 1 q)) (decrementWebSearchCountLocked r id p).
Proof.
  intros Hw x Hx. unfold decrementWebSearchCountLocked. destruct (Hw x Hx) as [H1 H2].
  destruct (String.eqb id "") eqn:Hid; bprop.
  { split; [apply (counts_ext _ f)|intros q Hq; apply (counts_ext _ (g x))]; auto; cbv beta; rewrite one_other by congruence; lia. }
  set (r1 := r <| rg_webSearchClientCounts := _ |>). split.
  - replace (rg_webSearchClientCounts _) with (take_one id (rg_webSearchClientCounts r))
      by (subst r1; destruct (String.eqb p ""); [done|]; cbn; by case_match).
    destruct (decide (id = x)) as [->|Hne].
    + apply (counts_ext _ (fun k => f k - 1)); [cbv beta; by rewrite one_same|by apply take_one_counts].
    + unfold counts. rewrite take_one_ne by done. rewrite one_other, Z.sub_0_r by done. exact H1.
  - intros q Hq. destruct (String.eqb p "") eqn:Hp; bprop.
    { apply (counts_ext _ (g x)); [|apply (H2 q Hq)]. unfold one. rewrite share_other by congruence. destruct (String.eqb id x); lia. }
    assert (rg_webSearchProviderCounts r1 = rg_webSearchProviderCounts r) as -> by done.
    destruct (decide (id = x)) as [->|Hne];
      [apply (counts_ext _ (fun q => g x q - share p 1 q)); [cbv beta; by rewrite one_same|]|].
    2: { apply (counts_ext _ (g x)); [cbv beta; rewrite one_other by done; lia|]. specialize (H2 q Hq). unfold web_providers in *.
         destruct (rg_webSearchProviderCounts r !! id); [|exact H2]. cbn.
         case_bool_decide; [rewrite lookup_delete_ne by done|rewrite lookup_insert_ne by done]; exact H2. }
    assert (counts (take_one p (web_providers r x)) (fun q => g x q - share p 1 q) q) as H3.
    { destruct (decide (q = p)) as [->|Hne].
      - apply (counts_ext _ (fun q => g x q - 1)); [cbv beta; by rewrite share_self|]. apply take_one_counts, (H2 p Hp).
      - unfold counts. rewrite take_one_ne by done. rewrite share_other, Z.sub_0_r by congruence. apply (H2 q Hq). }
    unfold web_providers in *. destruct (rg_webSearchProviderCounts r !! x) as [m|] eqn:Hm; cbn [default from_option id] in *.
    + cbn. case_bool_decide as He; [rewrite lookup_delete_eq|by rewrite lookup_insert_eq]. by rewrite He in H3.
    + unfold r1. cbn. rewrite Hm. cbn. unfold take_one in H3. rewrite lookup_empty in H3. cbn in H3.
      rewrite delete_empty in H3. exact H3.
Qed.

Lemma increment_web f g r id p : web_counted f g r → (∀ x, 0 ≤ f x) → (∀ x q, 0 ≤ g x q) →
  web_counted (fun x => f x + one id x 1) (fun x q => g x q + one id x (share p 1 q)) (incrementWebSearchCountLocked r id p).
Proof.
  intros Hw Hf Hg x Hx. unfold incrementWebSearchCountLocked. destruct (Hw x Hx) as [H1 H2].
  destruct (String.eqb id "") eqn:Hid; bprop.
  { split; [apply (counts_ext _ f)|intros q Hq; apply (counts_ext _ (g x))]; auto; cbv beta; rewrite one_other by congruence; lia. }
  set (r1 := r <| rg_webSearchClientCounts := _ |>). split.
  - replace (rg_webSearchClientCounts _) with (<[id := web_clients r id + 1]> (rg_webSearchClientCounts r))
      by (subst r1; by destruct (String.eqb p "")).
    destruct (decide (id = x)) as [->|Hne].
    + apply (counts_ext _ (fun k => f k + 1)); [cbv beta; by rewrite one_same|by apply put_one_counts].
    + unfold counts. rewrite lookup_insert_ne by done. rewrite one_other, Z.add_0_r by done. exact H1.
  - intros q Hq. destruct (String.eqb p "") eqn:Hp; bprop.
    { apply (counts_ext _ (g x)); [|apply (H2 q Hq)]. unfold one. rewrite share_other by congruence. destruct (String.eqb id x); lia. }
    assert (web_providers r1 id = web_providers r id) as -> by done. unfold web_providers in *. cbn.
    destruct (decide (id = x)) as [->|Hne];
      [apply (counts_ext _ (fun q => g x q + share p 1 q)); [cbv beta; by rewrite one_same|]; rewrite lookup_insert_eq|].
    2: { rewrite lookup_insert_ne by done. apply (counts_ext _ (g x)); [cbv beta; rewrite one_other by done; lia|exact (H2 q Hq)]. }
    cbn. destruct (decide (q = p)) as [->|Hne].
    + apply (counts_ext _ (fun q => g x q + 1)); [cbv beta; by rewrite share_self|]. apply put_one_counts; auto.
    + unfold counts. rewrite lookup_insert_ne by done. rewrite share_other, Z.add_0_r by congruence. apply (H2 q Hq).
Qed.

Definition webs (l : list (string * ModelInfo)) : list string :=
  map fst (List.filter (fun p => mi_SupportsWebSearch p.2) l).
Lemma webs_cons id info l x :
  in_list x (webs ((id, info) :: l)) = (if mi_SupportsWebSearch info then one id x 1 else 0) + in_list x (webs l).
Proof.
  unfold webs, in_list. cbn [List.filter snd]. destruct (mi_SupportsWebSearch info); [|done]. cbn [map fst].
  rewrite occurrences_cons, String.eqb_sym. unfold one. destruct (String.eqb id x); lia.
Qed.
Lemma webs_nonneg l x : 0 ≤ in_list x (webs l).
Proof. unfold in_list. lia. Qed.
(** Without repeated models, the list has the flag of each. *)
Lemma webs_flag l x : NoDup l.*1 → in_list x (webs l) = flag x (list_to_map l).
Proof.
  induction l as [|[id info] l IH]; intros Hnd; [unfold flag; cbn; by rewrite lookup_empty|].
  apply NoDup_cons in Hnd as [Hid Hnd]. rewrite webs_cons, IH by done. unfold flag. cbn [list_to_map foldr uncurry fst snd].
  destruct (decide (id = x)) as [->|Hne].
  - rewrite one_same, lookup_insert_eq. rewrite (not_elem_of_list_to_map_1 l x) by done.
    destruct (mi_SupportsWebSearch info); lia.
  - rewrite one_other, lookup_insert_ne by done. by destruct (mi_SupportsWebSearch info).
Qed.
Lemma webs_map_flag m x : in_list x (webs (map_to_list m)) = flag x m.
Proof. rewrite webs_flag by apply NoDup_fst_map_to_list. by rewrite list_to_map_to_list. Qed.

Lemma drop_web_counted p l f g r : web_counted f g r →
  web_counted (fun x => f x - in_list x (webs l)) (fun x q => g x q - share p (in_list x (webs l)) q) (foldl (drop_web p) r l).
Proof.
  revert f g r. induction l as [|[id info] l IH]; intros f g r Hw; cbn [foldl].
  - eapply web_counted_ext; [done..| |]; intros; unfold in_list, share; cbn; [lia|]. repeat destruct (String.eqb _ _); lia.
  - assert (web_counted (fun x => f x - (if mi_SupportsWebSearch info then one id x 1 else 0))
              (fun x q => g x q - share p (if mi_SupportsWebSearch info then one id x 1 else 0) q) (drop_web p r (id, info))) as H1.
    { unfold drop_web. cbn. destruct (mi_SupportsWebSearch info);
        [apply (web_counted_ext _ _ _ _ _ _ (decrement_web f g r id p Hw)); try done
        |apply (web_counted_ext _ _ _ _ _ _ Hw); try done]; intros; unfold one, share;
        repeat destruct (String.eqb _ _); lia. }
    eapply web_counted_ext; [apply (IH _ _ _ H1)|done..| |]; intros; rewrite webs_cons; unfold share;
      repeat destruct (String.eqb p _); lia.
Qed.
Lemma add_web_counted p l f g r : web_counted f g r → (∀ x, 0 ≤ f x) → (∀ x q, 0 ≤ g x q) →
  web_counted (fun x => f x + in_list x (webs l)) (fun x q => g x q + share p (in_list x (webs l)) q) (foldl (add_web p) r l).
Proof.
  revert f g r. induction l as [|[id info] l IH]; intros f g r Hw Hf Hg; cbn [foldl].
  - eapply web_counted_ext; [done..| |]; intros; unfold in_list, share; cbn; [lia|]. repeat destruct (String.eqb _ _); lia.
  - assert (∀ x, 0 ≤ (if mi_SupportsWebSearch info then one id x 1 else 0)) as Hd
      by (intros x; unfold one; destruct (mi_SupportsWebSearch info), (String.eqb id x); lia).
    assert (web_counted (fun x => f x + (if mi_SupportsWebSearch info then one id x 1 else 0))
              (fun x q => g x q + share p (if mi_SupportsWebSearch info then one id x 1 else 0) q) (add_web p r (id, info))) as H1.
    { unfold add_web. cbn. destruct (mi_SupportsWebSearch info);
        [apply (web_counted_ext _ _ _ _ _ _ (increment_web f g r id p Hw Hf Hg)); try done
        |apply (web_counted_ext _ _ _ _ _ _ Hw); try done]; intros; unfold one, share;
        repeat destruct (String.eqb _ _); lia. }
    eapply web_counted_ext; [apply (IH _ _ _ H1)|done..| |]; intros; rewrite ?webs_cons.
    + specialize (Hf x). specialize (Hd x). lia.
    + specialize (Hg x q). specialize (Hd x). unfold share. destruct (String.eqb p q); lia.
    + lia.
    + unfold share. repeat destruct (String.eqb p _); lia.
Qed.

Lemma decrement_unindexed r id p : unindexed (decrementWebSearchCountLocked r id p) = unindexed r.
Proof. unfold decrementWebSearchCountLocked. repeat case_match; done. Qed.
Lemma increment_unindexed r id p : unindexed (incrementWebSearchCountLocked r id p) = unindexed r.
Proof. unfold incrementWebSearchCountLocked. repeat case_match; done. Qed.
Lemma foldl_unindexed {A} (step : ModelRegistry → A → ModelRegistry) l r :
  (∀ r x, unindexed (step r x) = unindexed r) → unindexed (foldl step r l) = unindexed r.
Proof. intros Hs. revert r. induction l as [|x l IH]; intros r; [done|]. cbn. by rewrite IH. Qed.
Lemma drop_unindexed r c : unindexed (dropClientWebSearchCountsLocked r c) = unindexed r.
Proof.
  apply foldl_unindexed. intros r' x. unfold drop_web. destruct (mi_SupportsWebSearch _); [apply decrement_unindexed|done].
Qed.
Lemma add_unindexed r c : unindexed (addClientWebSearchCountsLocked r c) = unindexed r.
Proof.
  apply foldl_unindexed. intros r' x. unfold add_web. destruct (mi_SupportsWebSearch _); [apply increment_unindexed|done].
Qed.

(** ** The invariant *)

Definition clients_of (r : ModelRegistry) (id : string) : Z := total (in_list id) (rg_clientModels r).
Definition clients_by (r : ModelRegistry) (id : string) : string → Z :=
  total_by (in_list id) (rg_clientProviders r) (rg_clientModels r).
Definition web_of (r : ModelRegistry) (id : string) : Z := total (flag id) (rg_clientModelInfos r).
Definition web_by (r : ModelRegistry) (id : string) : string → Z :=
  total_by (flag id) (rg_clientProviders r) (rg_clientModelInfos r).

(** The part of one client. *)
Record client_ok (r : ModelRegistry) (c : string) : Prop := {
  client_provider p : rg_clientProviders r !! c = Some p → p ≠ "" ∧ is_Some (rg_clientModels r !! c);
  client_infos id : is_Some (infos_of r c !! id) ↔ id ∈ models_of r c;
}.
Record registry_ok (r : ModelRegistry) : Prop := {
  ok_counted id : counted (rg_models r !! id) (clients_of r id) (clients_by r id);
  ok_web : web_counted (web_of r) (web_by r) r;
  ok_client c : client_ok r c;
}.

(** The sums over the other clients. *)
Section Rest.
Context (r : ModelRegistry) (c : string).
Definition rest_of id : Z := total (in_list id) (delete c (rg_clientModels r)).
Definition rest_by id : string → Z := total_by (in_list id) (rg_clientProviders r) (delete c (rg_clientModels r)).
Definition web_rest_of id : Z := total (flag id) (delete c (rg_clientModelInfos r)).
Definition web_rest_by id : string → Z := total_by (flag id) (rg_clientProviders r) (delete c (rg_clientModelInfos r)).

Lemma rest_bounds id q : 0 ≤ rest_by id q ≤ rest_of id.
Proof. apply total_bounds. intros. unfold in_list. lia. Qed.
Lemma web_rest_bounds id q : 0 ≤ web_rest_by id q ≤ web_rest_of id.
Proof. apply total_bounds, flag_nonneg. Qed.
Lemma clients_of_rest id : clients_of r id = rest_of id + in_list id (models_of r c).
Proof. unfold clients_of. rewrite (total_split _ _ c). unfold models_of, rest_of. destruct (rg_clientModels r !! c); apply Z.add_comm. Qed.
Lemma clients_by_rest id q : clients_by r id q = rest_by id q + share (provider_of r c) (in_list id (models_of r c)) q.
Proof.
  unfold clients_by. rewrite (total_by_split _ _ _ c). unfold models_of, rest_by, provider_of. destruct (rg_clientModels r !! c); apply Z.add_comm.
Qed.
Lemma web_of_rest id : web_of r id = web_rest_of id + flag id (infos_of r c).
Proof. unfold web_of. rewrite (total_split _ _ c), flag_weight. unfold web_rest_of. lia. Qed.
Lemma web_by_rest id q : web_by r id q = web_rest_by id q + share (provider_of r c) (flag id (infos_of r c)) q.
Proof. unfold web_by. rewrite (total_by_split _ _ _ c), flag_weight. unfold web_rest_by, provider_of. lia. Qed.
End Rest.

(** What the registration of a model must count, with [ms] and [p] the list and
    provider of client [c]; the same for the index. *)
Definition counted_with r c (ms : list string) (p : string) (id : string) (o : option ModelRegistration) : Prop :=
  counted o (rest_of r c id + in_list id ms) (fun q => rest_by r c id q + share p (in_list id ms) q).
Definition web_with r c (w : string → Z) (p : string) (r' : ModelRegistry) : Prop :=
  web_counted (fun id => web_rest_of r c id + w id) (fun id q => web_rest_by r c id q + share p (w id) q) r'.

Lemma ok_counted_with r c id : registry_ok r → counted_with r c (models_of r c) (provider_of r c) id (rg_models r !! id).
Proof.
  intros Hok. eapply counted_ext; [apply (ok_counted r Hok)| |]; intros; cbn; [by rewrite clients_of_rest with (c := c)|].
  by rewrite clients_by_rest with (c := c).
Qed.
Lemma ok_web_with r c : registry_ok r → web_with r c (fun id => flag id (infos_of r c)) (provider_of r c) r.
Proof.
  intros Hok. eapply web_counted_ext; [apply (ok_web r Hok)|done..| |]; intros; [by rewrite web_of_rest with (c := c)|].
  by rewrite web_by_rest with (c := c).
Qed.

(** An operation on one client. *)
Definition same_others (r r' : ModelRegistry) (c : string) : Prop :=
  delete c (rg_clientModels r') = delete c (rg_clientModels r)
  ∧ delete c (rg_clientModelInfos r') = delete c (rg_clientModelInfos r)
  ∧ delete c (rg_clientProviders r') = delete c (rg_clientProviders r).
Lemma delete_lookup_ne {A} (m m' : gmap string A) c c' : delete c m' = delete c m → c' ≠ c → m' !! c' = m !! c'.
Proof. intros Hd Hc. rewrite <- (lookup_delete_ne m' c c'), Hd by done. by rewrite lookup_delete_ne. Qed.

Lemma ok_change r r' c : registry_ok r → same_others r r' c →
  (∀ id, counted_with r c (models_of r' c) (provider_of r' c) id (rg_models r' !! id)) →
  web_with r c (fun id => flag id (infos_of r' c)) (provider_of r' c) r' → client_ok r' c → registry_ok r'.
Proof.
  intros Hok (Hcm & Hci & Hcp) Hc Hw Hcl.
  assert (∀ A (w : A → Z) m q, total_by w (rg_clientProviders r') (delete c m) q = total_by w (rg_clientProviders r) (delete c m) q) as Hby.
  { intros A w m q. apply total_by_ext. intros c' Hc'. apply (delete_lookup_ne _ _ c); [done|]. intros ->.
    rewrite lookup_delete_eq in Hc'. by destruct Hc'. }
  split.
  - intros id. eapply counted_ext; [apply Hc|rewrite clients_of_rest with (c := c); unfold rest_of; by rewrite Hcm|].
    intros q _. rewrite clients_by_rest with (c := c). unfold rest_by. by rewrite Hcm, Hby.
  - eapply web_counted_ext; [apply Hw|done..| |].
    + intros id _. rewrite web_of_rest with (c := c). unfold web_rest_of. by rewrite Hci.
    + intros id q _ _. rewrite web_by_rest with (c := c). unfold web_rest_by. by rewrite Hci, Hby.
  - intros c'. destruct (decide (c' = c)) as [->|Hne]; [done|]. destruct (ok_client r Hok c') as [H1 H2].
    split; unfold infos_of, models_of;
      rewrite ?(delete_lookup_ne _ _ c c' Hcm), ?(delete_lookup_ne _ _ c c' Hci), ?(delete_lookup_ne _ _ c c' Hcp) by done; done.
Qed.

(** ** Fields the steps leave alone *)

Lemma frame_fields r r' : frame r' = frame r →
  rg_clientModels r' = rg_clientModels r ∧ rg_clientModelInfos r' = rg_clientModelInfos r
  ∧ rg_clientProviders r' = rg_clientProviders r ∧ rg_webSearchClientCounts r' = rg_webSearchClientCounts r
  ∧ rg_webSearchProviderCounts r' = rg_webSearchProviderCounts r.
Proof. destruct r, r'. unfold frame. cbn. intros [=]. subst. done. Qed.
Lemma unindexed_fields r r' : unindexed r' = unindexed r →
  rg_models r' = rg_models r ∧ rg_clientModels r' = rg_clientModels r
  ∧ rg_clientModelInfos r' = rg_clientModelInfos r ∧ rg_clientProviders r' = rg_clientProviders r.
Proof. destruct r, r'. unfold unindexed. cbn. intros [=]. subst. done. Qed.
(** Epochs, generations and the cache do not matter. *)
Definition core (r : ModelRegistry) : ModelRegistry :=
  r <| rg_clientEpochs := ∅ |> <| rg_clientGenerations := ∅ |> <| rg_cache := ∅ |> <| rg_generation := 0 |>
    <| rg_registrationEpoch := 0 |>.
Lemma ok_core r r' : core r' = core r → registry_ok r → registry_ok r'.
Proof.
  destruct r, r'. unfold core. cbn. intros [=]. subst. intros [H1 H2 H3]. split; [exact H1|exact H2|]. intros c. destruct (H3 c). by split.
Qed.

Lemma invalidate_ok r : registry_ok r → registry_ok (invalidateAvailableModelsCacheLocked r).
Proof. by apply ok_core. Qed.

(** ** Unregistering *)

Lemma share_zero p q : share p 0 q = 0.
Proof. unfold share. by destruct (String.eqb p q). Qed.
Lemma counted_with_nil r c id o p p' : counted_with r c [] p id o → counted_with r c [] p' id o.
Proof. intros H. eapply counted_ext; [exact H|done|]. intros q _. by rewrite !share_zero. Qed.
Lemma flag_empty id : flag id ∅ = 0.
Proof. unfold flag. by rewrite lookup_empty. Qed.

(** The index after the part of the client is taken out. *)
Lemma drop_web_with r r' c : registry_ok r → frame r' = frame r →
  web_with r c (fun _ => 0) (provider_of r c) (dropClientWebSearchCountsLocked r' c).
Proof.
  intros Hok (_ & Hci & Hcp & E1 & E2)%frame_fields. unfold dropClientWebSearchCountsLocked.
  assert (provider_of r' c = provider_of r c) as -> by (unfold provider_of; by rewrite Hcp).
  assert (infos_of r' c = infos_of r c) as -> by (unfold infos_of; by rewrite Hci).
  assert (web_with r c (fun id => flag id (infos_of r c)) (provider_of r c) r') as Hw
    by (eapply web_counted_ext; [apply (ok_web_with r c Hok)|done..]).
  eapply web_counted_ext; [apply (drop_web_counted (provider_of r c) (map_to_list (infos_of r c)) _ _ _ Hw)|done..| |]; intros; cbn; rewrite webs_map_flag.
  - lia.
  - rewrite share_zero. lia.
Qed.

Lemma no_models_no_infos r c : client_ok r c → models_of r c = [] → infos_of r c = ∅.
Proof.
  intros [_ Hi] Hm. apply map_eq. intros id. rewrite lookup_empty. apply eq_None_not_Some. rewrite Hi, Hm. by intros ?%elem_of_nil.
Qed.

(** All that is left of a client that is gone. *)
Definition forgotten (c : string) (r : ModelRegistry) : ModelRegistry :=
  r <| rg_clientModels := delete c (rg_clientModels r) |> <| rg_clientModelInfos := delete c (rg_clientModelInfos r) |>
    <| rg_clientProviders := delete c (rg_clientProviders r) |>.
Lemma forgotten_ok r r' c : registry_ok r → rg_clientModels r' = rg_clientModels r →
  rg_clientModelInfos r' = rg_clientModelInfos r → rg_clientProviders r' = rg_clientProviders r →
  (∀ id, counted_with r c [] "" id (rg_models r' !! id)) → web_with r c (fun _ => 0) (provider_of r c) r' →
  registry_ok (forgotten c r').
Proof.
  intros Hok Hcm Hci Hcp Hm Hw.
  assert (models_of (forgotten c r') c = []) as E1 by (unfold models_of; cbn; by rewrite lookup_delete_eq).
  assert (infos_of (forgotten c r') c = ∅) as E2 by (unfold infos_of; cbn; by rewrite lookup_delete_eq).
  apply (ok_change r _ c Hok).
  - unfold same_others. cbn. by rewrite !delete_delete_eq, Hcm, Hci, Hcp.
  - intros id. rewrite E1. eapply counted_with_nil, Hm.
  - eapply web_counted_ext; [exact Hw|done..| |]; intros; rewrite E2, flag_empty; by rewrite ?share_zero.
  - split; [intros p; cbn; by rewrite lookup_delete_eq|]. intros id. rewrite E1, E2, lookup_empty, elem_of_nil. split; [by intros []|done].
Qed.

Lemma clearOrphaned_no_infos r c : infos_of r c = ∅ →
  clearOrphanedClientModelInfosLocked c r = r <| rg_clientModelInfos := delete c (rg_clientModelInfos r) |>.
Proof. intros Hi. unfold clearOrphanedClientModelInfosLocked, dropClientWebSearchCountsLocked. rewrite Hi, map_to_list_empty. cbn. by rewrite Hi. Qed.

(** All of a client's share of a model is lost. *)
Lemma lose_all r c ms p id (G : option ModelRegistration → option ModelRegistration) o :
  (∀ o n pr, counted o n pr → 0 < n → (∀ q, q ≠ "" → 0 ≤ pr q - share p 1 q ≤ n - 1) →
     counted (G o) (n - 1) (fun q => pr q - share p 1 q)) →
  counted_with r c ms p id o → counted_with r c [] "" id (Nat.iter (occurrences id ms) G o).
Proof.
  intros HG Ho. unfold counted_with, in_list in *. pose proof (rest_bounds r c id) as Hb.
  eapply counted_ext; [apply (iter_lose G p _ _ _ _ HG Ho)|cbn; lia|].
  - specialize (Hb ""). lia.
  - intros q Hq. cbn. specialize (Hb q). lia.
  - intros q Hq. cbn. rewrite share_zero. lia.
Qed.

(** Its first step. *)
Definition retired (c : string) (r : ModelRegistry) : ModelRegistry :=
  (bump_epoch c r) <| rg_clientGenerations := <[c := incr64 (generation_of (bump_epoch c r) c)]> (rg_clientGenerations (bump_epoch c r)) |>.
Lemma retired_ok c r : registry_ok r → registry_ok (retired c r).
Proof. by apply ok_core. Qed.

(** In either case the client is forgotten. *)
Lemma unregisterClientInternal_forgotten c now r : client_ok r c →
  unregisterClientInternal c now r = forgotten c
    match rg_clientModels r !! c with
    | Some models => dropClientWebSearchCountsLocked
                       (foldl (unregister_model c (rg_clientProviders r !! c) now) (retired c r) models) c
    | None => retired c r
    end.
Proof.
  intros Hok. unfold unregisterClientInternal. fold (retired c r). change (rg_clientModels (retired c r)) with (rg_clientModels r).
  destruct (rg_clientModels r !! c) as [models|] eqn:Hm; [done|].
  assert (infos_of (retired c r) c = ∅) as Hi by (apply (no_models_no_infos r c Hok); unfold models_of; by rewrite Hm).
  rewrite clearOrphaned_no_infos by done. unfold forgotten. by rewrite (delete_id (rg_clientModels (retired c r))) by done.
Qed.

Lemma unregisterClientInternal_ok c now r : registry_ok r → registry_ok (unregisterClientInternal c now r).
Proof.
  intros Hok. rewrite unregisterClientInternal_forgotten by by apply ok_client. pose proof (retired_ok c r Hok) as Hok1.
  change (rg_clientModels r) with (rg_clientModels (retired c r)). change (rg_clientProviders r) with (rg_clientProviders (retired c r)).
  set (r1 := retired c r) in *. clearbody r1. destruct (rg_clientModels r1 !! c) as [models|] eqn:Hm.
  - assert (models_of r1 c = models) as Hms by (unfold models_of; by rewrite Hm).
    destruct (fold_local (fun id r => unregistered r c (rg_clientProviders r1 !! c) now id)
                (unregister_model c (rg_clientProviders r1 !! c) now) models r1 ltac:(by apply alter_local)) as [E F].
    set (r2 := foldl _ r1 models) in *. pose proof (drop_web_with r1 r2 c Hok1 F) as Hw.
    destruct (unindexed_fields _ _ (drop_unindexed r2 c)) as (G1 & G2 & G3 & G4).
    destruct (frame_fields _ _ F) as (F1 & F2 & F3 & _). apply (forgotten_ok r1); [done|congruence..| |done].
    intros id. rewrite G1, E. apply (lose_all _ _ models (provider_of r1 c)); [|rewrite <- Hms; by apply ok_counted_with].
    intros o n pr Ho Hn Hb. apply unregistered_counted; [done..| |done].
    intros Hp. by destruct (client_provider _ _ (ok_client _ Hok1 c) "" Hp).
  - assert (models_of r1 c = []) as Hms by (unfold models_of; by rewrite Hm).
    assert (infos_of r1 c = ∅) as Hi by (apply no_models_no_infos; [by apply ok_client|done]).
    apply (forgotten_ok r1); [done..| |].
    + intros id. pose proof (ok_counted_with r1 c id Hok1) as Hc. rewrite Hms in Hc. by eapply counted_with_nil.
    + eapply web_counted_ext; [apply (ok_web_with r1 c Hok1)|done..| |]; intros; rewrite Hi, flag_empty; done.
Qed.

(** ** Registering *)

Lemma store_client_ok r r' c p raw newModels : registry_ok r → rg_clientModels r' = rg_clientModels r →
  delete c (rg_clientModelInfos r') = delete c (rg_clientModelInfos r) → rg_clientProviders r' = rg_clientProviders r →
  (∀ id, counted_with r c raw p id (rg_models r' !! id)) → web_with r c (fun _ => 0) (provider_of r c) r' →
  (∀ id, is_Some (newModels !! id) ↔ id ∈ raw) → registry_ok (store_client c p raw newModels r').
Proof.
  intros Hok Hcm Hci Hcp Hm Hw Hraw. unfold store_client. set (s := _ <| rg_clientProviders := _ |>).
  assert (provider_of s c = p) as Ep.
  { unfold provider_of. cbn. destruct (String.eqb p "") eqn:Hp; bprop; [by rewrite lookup_delete_eq|by rewrite lookup_insert_eq]. }
  assert (infos_of s c = newModels) as Ei by (unfold infos_of; cbn; by rewrite lookup_insert_eq).
  assert (models_of s c = raw) as Em by (unfold models_of; cbn; by rewrite lookup_insert_eq).
  assert (web_with r c (fun id => flag id newModels) p (addClientWebSearchCountsLocked s c)) as Hw'.
  { assert (web_with r c (fun _ => 0) (provider_of r c) s) as Hs by (eapply web_counted_ext; [exact Hw|done..]).
    unfold addClientWebSearchCountsLocked. rewrite Ep, Ei.
    pose proof (web_rest_bounds r c) as Hb.
    eapply web_counted_ext; [apply (add_web_counted p (map_to_list newModels) _ _ _ Hs)|done..| |]; intros; cbn;
      rewrite ?share_zero, ?webs_map_flag.
    - specialize (Hb x ""). lia.
    - specialize (Hb x q). lia.
    - lia.
    - lia. }
  destruct (unindexed_fields _ _ (add_unindexed s c)) as (G1 & G2 & G3 & G4). remember (addClientWebSearchCountsLocked s c) as s' eqn:Es'. clear Es'.
  assert (models_of s' c = raw ∧ infos_of s' c = newModels ∧ provider_of s' c = p) as (F1 & F2 & F3)
    by (unfold models_of, infos_of, provider_of; rewrite G2, G3, G4; auto).
  apply (ok_change r _ c Hok).
  - unfold same_others. rewrite G2, G3, G4. cbn. rewrite !delete_insert_eq, Hcm, Hci, Hcp. split_and!; [done..|].
    destruct (String.eqb p ""); [by rewrite delete_delete_eq|by rewrite delete_insert_eq].
  - intros id. rewrite F1, F3, G1. apply Hm.
  - rewrite F2, F3. exact Hw'.
  - split; [|intros id; rewrite F1, F2; apply Hraw]. intros q. rewrite G4, G2. cbn.
    destruct (String.eqb p "") eqn:Hp; bprop; [by rewrite lookup_delete_eq|rewrite !lookup_insert_eq; intros [=Hq]; split; [congruence|by eexists]].
Qed.

Lemma first_models_lookup (known : gmap string ModelInfo) l id :
  is_Some (foldl (fun (known : gmap string ModelInfo) model => match known !! mi_ID model with
                                     | Some _ => known
                                     | None => <[mi_ID model := model]> known
                                     end) known l !! id) ↔ is_Some (known !! id) ∨ id ∈ map mi_ID l.
Proof.
  revert known. induction l as [|model l IH]; intros known; cbn [foldl map]; [rewrite elem_of_nil; tauto|].
  rewrite IH, elem_of_cons. destruct (known !! mi_ID model) eqn:Hk.
  - split; [tauto|]. intros [?|[->|?]]; [tauto|left; by eexists|tauto].
  - rewrite lookup_insert_is_Some. destruct (decide (mi_ID model = id)); naive_solver.
Qed.
Lemma first_models_raw l id : is_Some (first_models l !! id) ↔ id ∈ map mi_ID l.
Proof. unfold first_models. rewrite first_models_lookup, lookup_empty. split; [intros [[]|?]|]; by auto. Qed.
Lemma valid_models_no_empty models : first_models (valid_models models) !! "" = None.
Proof.
  apply eq_None_not_Some. rewrite first_models_raw. intros (m & Hm & Hin)%list_elem_of_fmap.
  apply list_elem_of_In, List.filter_In in Hin as [_ Hne]. bprop. congruence.
Qed.

(** Registering the models of a client without any. *)
Section New.
Context (c p : string) (raw : list string) (newModels : gmap string ModelInfo) (now : time).
Hypothesis no_empty : newModels !! "" = None.
Hypothesis same_ids : ∀ id, is_Some (newModels !! id) ↔ id ∈ raw.

Definition register_one (r : ModelRegistry) (modelID : string) : ModelRegistry :=
  match newModels !! modelID with
  | Some model => addModelRegistration modelID p model now c r
  | None => r
  end.
Lemma register_new_models r :
  frame (foldl register_one r raw) = frame r
  ∧ ∀ id, rg_models (foldl register_one r raw) !! id =
      match newModels !! id with
      | Some model => Nat.iter (occurrences id raw) (added (frame r) id p model now c) (rg_models r !! id)
      | None => rg_models r !! id
      end.
Proof.
  set (G := fun id r => match newModels !! id with
                        | Some model => added r id p model now c
                        | None => fun x => x
                        end).
  destruct (fold_local G register_one raw r) as [E F].
  { apply (local_step_ext G (fun r id => alter_model id (G id r) r)); [|..|done].
    - apply alter_local. intros r' id o. unfold G. by destruct (newModels !! id).
    - intros r' id. unfold G, register_one, addModelRegistration, alter_model. destruct (newModels !! id) as [model|] eqn:Hm.
      + by rewrite (proj2 (String.eqb_neq id "")) by congruence.
      + rewrite (partial_alter_id (fun x => x)); [by destruct r'|done]. }
  split; [done|]. intros id. rewrite E. unfold G. destruct (newModels !! id) as [model|] eqn:Hm; [done|].
  assert (occurrences id raw = 0%nat) as -> by (apply occurrences_zero; rewrite <- same_ids, Hm; by intros []). done.
Qed.
Lemma register_new_counted r id n pr : counted (rg_models r !! id) n pr → 0 ≤ n → (∀ q, q ≠ "" → 0 ≤ pr q) →
  counted (rg_models (foldl register_one r raw) !! id) (n + in_list id raw) (fun q => pr q + share p (in_list id raw) q).
Proof.
  intros Hc Hn Hpr. destruct (register_new_models r) as [_ ->]. unfold in_list. destruct (newModels !! id) as [model|] eqn:Hm.
  - by apply iter_added.
  - assert (occurrences id raw = 0%nat) as -> by (apply occurrences_zero; rewrite <- same_ids, Hm; by intros []).
    eapply counted_ext; [done|lia|]. intros q _. rewrite share_zero. lia.
Qed.
End New.

Lemma registerClientLocked_ok c clientProvider models keep now r :
  registry_ok r → registry_ok (registerClientLocked c clientProvider models keep now r).
Proof.
  intros Hok. unfold registerClientLocked. set (p := to_lower clientProvider).
  pose proof (first_models_raw (valid_models models)) as Hraw. pose proof (valid_models_no_empty models) as H0.
  set (raw := map mi_ID (valid_models models)) in *. set (newModels := first_models (valid_models models)) in *.
  destruct raw as [|id0 ids] eqn:Er.
  { pose proof (unregisterClientInternal_ok c now r Hok) as Hu. eapply ok_core; [|exact Hu].
    rewrite unregisterClientInternal_forgotten by by apply ok_client. unfold core, forgotten. cbn. by rewrite !delete_delete_eq. }
  rewrite <- Er in *. set (r1 := if _ || _ || _ then _ else bump_epoch c r).
  assert (registry_ok r1) as Hok1 by (apply (ok_core r); [subst r1; by destruct (_ || _)|done]).
  assert (rg_clientModels r1 = rg_clientModels r ∧ provider_of r1 c = provider_of r c) as [Ecm Ep] by (subst r1; by destruct (_ || _)).
  rewrite <- Ecm, <- Ep. clearbody r1 raw newModels. clear Er Ecm Ep Hok.
  pose proof (fun id q => rest_bounds r1 c id q) as Hb.
  destruct (rg_clientModels r1 !! c) as [oldModels|] eqn:Hm;
    apply invalidate_ok.
  - assert (models_of r1 c = oldModels) as Hms by (unfold models_of; by rewrite Hm).
    destruct (reconcile_models c p (provider_of r1 c) keep oldModels raw newModels now r1 H0) as [E F].
    set (r2 := reconcile _ _ _ _ _ _ _ _ r1) in *. pose proof (drop_web_with r1 r2 c Hok1 F) as Hw.
    destruct (unindexed_fields _ _ (drop_unindexed r2 c)) as (G1 & G2 & G3 & G4).
    destruct (frame_fields _ _ F) as (F1 & F2 & F3 & _). apply (store_client_ok r1); [done|congruence..| |done|done].
    intros id. rewrite G1, E. pose proof (ok_counted_with r1 c id Hok1) as Hc. rewrite Hms in Hc.
    apply reconcile_counted; [done|specialize (Hb id ""); lia|auto|exact Hc].
  - assert (models_of r1 c = []) as Hms by (unfold models_of; by rewrite Hm).
    assert (infos_of r1 c = ∅) as Hi by (apply no_models_no_infos; [by apply ok_client|done]).
    rewrite clearOrphaned_no_infos by done. set (r2 := r1 <| rg_clientModelInfos := _ |>).
    destruct (register_new_models c p raw newModels now H0 Hraw r2) as [F _].
    pose proof (register_new_counted c p raw newModels now H0 Hraw r2) as E. set (r3 := foldl (register_one c p newModels now) r2 raw) in *.
    change (foldl _ r2 raw) with r3.
    destruct (frame_fields _ _ F) as (F1 & F2 & F3 & F4 & F5).
    apply (store_client_ok r1); [done|done|rewrite F2; cbn; by rewrite delete_delete_eq|done| | |done].
    + intros id. apply E; [|specialize (Hb id ""); lia|intros q _; apply Hb].
      pose proof (ok_counted_with r1 c id Hok1) as Hc. rewrite Hms in Hc.
      eapply counted_ext; [exact Hc|change (in_list id []) with 0; lia|]. intros q _. cbn. change (in_list id []) with 0. rewrite share_zero. lia.
    + eapply web_counted_ext; [apply (ok_web_with r1 c Hok1)|done..| |]; intros; rewrite Hi, flag_empty; done.
Qed.

(** ** Quota, suspension and projections *)

Definition counters (o : option ModelRegistration) : option (Z * gmap string Z) :=
  (fun reg => (mr_Count reg, mr_Providers reg)) <$> o.
Lemma counted_counters o o' n pr : counters o' = counters o → counted o n pr → counted o' n pr.
Proof. destruct o, o'; cbn; [|done..|done]; intros [=E1 E2]. by rewrite E1, E2. Qed.

(** Only quota, suspension and time stamps of registrations differ. *)
Definition quiet (r r' : ModelRegistry) : Prop :=
  frame (core r') = frame (core r) ∧ ∀ id, counters (rg_models r' !! id) = counters (rg_models r !! id).
#[global] Instance quiet_preorder : PreOrder quiet.
Proof. split; [done|]. intros r1 r2 r3 [F G] [F' G']. split; congruence. Qed.
Lemma ok_quiet r r' : quiet r r' → registry_ok r → registry_ok r'.
Proof.
  intros [F G] Hok. destruct r, r'. unfold frame, core in F. cbn in F. injection F as -> -> -> -> ->. cbn in G.
  destruct Hok as [H1 H2 H3]. split; [|exact H2|intros c; by destruct (H3 c)].
  intros id. eapply counted_counters; [apply G|apply H1].
Qed.
Lemma quiet_core r r' : core r' = core r → quiet r r'.
Proof. destruct r, r'. unfold core. cbn. intros [=]. subst. done. Qed.
Lemma quiet_put id reg reg' r : rg_models r !! id = Some reg → mr_Count reg' = mr_Count reg → mr_Providers reg' = mr_Providers reg →
  quiet r (alter_model id (fun _ => Some reg') r).
Proof.
  intros Hr Hc Hp. split; [done|]. intros id'. cbn. destruct (decide (id' = id)) as [->|Hne].
  - rewrite lookup_partial_alter_eq, Hr. cbn. by rewrite Hc, Hp.
  - by rewrite lookup_partial_alter_ne.
Qed.
Lemma quiet_invalidate r r' : quiet r r' → quiet r (invalidateAvailableModelsCacheLocked r').
Proof. intros Hq. etransitivity; [exact Hq|]. by apply quiet_core. Qed.

Lemma set_quota_quiet c id now r : quiet r (SetModelQuotaExceeded c id now r).
Proof.
  unfold SetModelQuotaExceeded. destruct (rg_models r !! id) eqn:Hr; [|done]. apply quiet_invalidate. by eapply quiet_put.
Qed.
Lemma clear_quota_quiet c id r : quiet r (ClearModelQuotaExceeded c id r).
Proof.
  unfold ClearModelQuotaExceeded. destruct (rg_models r !! id) eqn:Hr; [|done]. apply quiet_invalidate. by eapply quiet_put.
Qed.
Lemma suspend_quiet c id reason now r : quiet r (SuspendClientModel c id reason now r).
Proof.
  unfold SuspendClientModel. destruct (_ || _); [done|]. destruct (rg_models r !! id) as [reg|] eqn:Hr; [|done].
  destruct (mr_SuspendedClients reg !! c); [done|]. apply quiet_invalidate. by eapply quiet_put.
Qed.
Lemma resume_quiet c id now r : quiet r (ResumeClientModel c id now r).
Proof.
  unfold ResumeClientModel. destruct (_ || _); [done|]. destruct (rg_models r !! id) as [reg|] eqn:Hr; [|done].
  destruct (mr_SuspendedClients reg !! c); [|done]. apply quiet_invalidate. by eapply quiet_put.
Qed.

Lemma project_one_quiet c registered now acc proj : quiet acc.1 (project_one c registered now acc proj).1.
Proof.
  unfold project_one. destruct acc as [r changed]. destruct (projected registered r proj) as [[id reg]|] eqn:Hp; [|done].
  assert (rg_models r !! id = Some reg) as Hr.
  { revert Hp. unfold projected. destruct (String.eqb _ ""); [done|]. destruct (negb _); [done|].
    destruct (rg_models r !! trim_space (pr_ModelID proj)) eqn:E; cbn; intros [=]; by subst. }
  destruct (project_suspended c proj now reg) as [reg1 b1] eqn:E1.
  destruct (project_quota c proj now reg1) as [reg2 b2] eqn:E2. apply (quiet_put _ reg); [done|..].
  - transitivity (mr_Count reg1); [revert E2|revert E1]; unfold project_quota, project_suspended; repeat case_match; intros [=]; by subst.
  - transitivity (mr_Providers reg1); [revert E2|revert E1]; unfold project_quota, project_suspended; repeat case_match; intros [=]; by subst.
Qed.
Lemma projections_quiet c epoch generation projections now r :
  quiet r (ApplyClientModelProjections c epoch generation projections now r).1.
Proof.
  unfold ApplyClientModelProjections. destruct (String.eqb _ ""); [done|]. destruct (models_of r _) as [|m ms]; [done|].
  destruct (negb _); [done|]. destruct (generation <? _); [done|]. destruct (forallb _ _); [done|].
  set (r1 := r <| rg_clientGenerations := _ |>). assert (quiet r r1) as H1 by by apply quiet_core.
  assert (∀ acc, quiet r acc.1 → quiet r (foldl (project_one (trim_space c) (m :: ms) now) acc projections).1) as Hf.
  { induction projections as [|p ps IH]; intros acc Ha; [done|]. cbn. apply IH. etransitivity; [exact Ha|apply project_one_quiet]. }
  specialize (Hf (r1, false) H1). destruct (foldl _ _ _) as [r2 changed]. cbn in *.
  destruct changed; [by apply quiet_invalidate|done].
Qed.
Lemma cleanup_quiet now r : quiet r (CleanupExpiredQuotas now r).
Proof.
  unfold CleanupExpiredQuotas. set (r1 := r <| rg_models := _ |>). assert (quiet r r1) as H1.
  { split; [done|]. intros id. cbn. rewrite lookup_fmap. by destruct (rg_models r !! id). }
  destruct (existsb _ _); [by apply quiet_invalidate|done].
Qed.

(** ** Capabilities *)

Definition mutated (mutate : string → ModelInfo → ModelInfo) (l : list (string * ModelInfo)) : list (string * ModelInfo) :=
  map (fun p => (p.1, mutate p.1 p.2)) l.
Lemma mutated_keys mutate l : (mutated mutate l).*1 = l.*1.
Proof. unfold mutated. induction l; cbn; congruence. Qed.

(** What the loop over the models of a client leaves as it was. *)
Definition beside_client (r r' : ModelRegistry) (c : string) : Prop :=
  rg_clientModels r' = rg_clientModels r ∧ rg_clientProviders r' = rg_clientProviders r
  ∧ delete c (rg_clientModelInfos r') = delete c (rg_clientModelInfos r)
  ∧ ∀ id, counters (rg_models r' !! id) = counters (rg_models r !! id).

Lemma apply_capability_step c p mutate r id info :
  let r' := apply_capability c p mutate r (id, info) in
  beside_client r r' c ∧ infos_of r' c = <[id := mutate id info]> (infos_of r c)
  ∧ ∀ f g, web_counted f g r → (∀ x, 0 ≤ f x) → (∀ x q, 0 ≤ g x q) →
      web_counted (fun x => f x + in_list x (webs [(id, mutate id info)]))
        (fun x q => g x q + share p (in_list x (webs [(id, mutate id info)])) q) r'.
Proof.
  cbv zeta. unfold apply_capability. set (r1 := r <| rg_clientModelInfos := _ |>).
  set (r2 := if mi_SupportsWebSearch (mutate id info) then _ else r1). set (r3 := alter_model _ _ r2).
  assert (unindexed r2 = unindexed r1) as E by (subst r2; destruct (mi_SupportsWebSearch _); [apply increment_unindexed|done]).
  destruct (unindexed_fields _ _ E) as (E1 & E2 & E3 & E4). split_and!.
  - split_and!; [exact E2|exact E4| |].
    + transitivity (delete c (rg_clientModelInfos r2)); [done|]. rewrite E3. cbn. by rewrite delete_insert_eq.
    + intros id'. transitivity (counters (rg_models r2 !! id')); [|by rewrite E1]. cbn.
      destruct (decide (id' = id)) as [->|Hne]; [rewrite lookup_partial_alter_eq|by rewrite lookup_partial_alter_ne].
      destruct (rg_models r2 !! id); cbn; [|done]. by destruct (String.eqb p "").
  - transitivity (infos_of r2 c); [done|]. unfold infos_of at 1. rewrite E3. cbn. by rewrite lookup_insert_eq.
  - intros f g Hw Hf Hg. assert (web_counted f g r1) as Hw1 by exact Hw.
    pose proof (add_web_counted p [(id, mutate id info)] f g r1 Hw1 Hf Hg) as H2. exact H2.
Qed.

Lemma apply_capabilities_fold c p mutate l r : NoDup l.*1 →
  let r' := foldl (apply_capability c p mutate) r l in
  beside_client r r' c ∧ infos_of r' c = list_to_map (mutated mutate l) ∪ infos_of r c
  ∧ ∀ f g, web_counted f g r → (∀ x, 0 ≤ f x) → (∀ x q, 0 ≤ g x q) →
      web_counted (fun x => f x + in_list x (webs (mutated mutate l)))
        (fun x q => g x q + share p (in_list x (webs (mutated mutate l))) q) r'.
Proof.
  cbv zeta. revert r. induction l as [|[id info] l IH]; intros r Hnd; cbn [foldl].
  - split_and!; [done|symmetry; apply map_empty_union|]. intros f g Hw _ _.
    eapply web_counted_ext; [exact Hw|done..| |]; intros; unfold in_list, share; cbn; repeat case_match; lia.
  - apply NoDup_cons in Hnd as [Hid Hnd].
    destruct (apply_capability_step c p mutate r id info) as ((B1 & B2 & B3 & B4) & Hi & Hw).
    set (r1 := apply_capability c p mutate r (id, info)) in *. destruct (IH r1 Hnd) as ((C1 & C2 & C3 & C4) & Ci & Cw). split_and!.
    + split_and!; [congruence..|]. intros id'. by rewrite C4.
    + rewrite Ci, Hi. cbn. rewrite <- insert_union_l, insert_union_r; [done|].
      apply not_elem_of_list_to_map_1. fold (mutated mutate l). by rewrite mutated_keys.
    + intros f g Hr Hf Hg. eapply web_counted_ext; [apply (Cw _ _ (Hw f g Hr Hf Hg))|done..| |].
      * intros x. specialize (Hf x). pose proof (webs_nonneg [(id, mutate id info)] x). lia.
      * intros x q. specialize (Hg x q). pose proof (webs_nonneg [(id, mutate id info)] x). unfold share. destruct (String.eqb p q); lia.
      * intros x _. change (mutated mutate ((id, info) :: l)) with ((id, mutate id info) :: mutated mutate l). rewrite !webs_cons. change (in_list x (webs [])) with 0. lia.
      * intros x q _ _. change (mutated mutate ((id, info) :: l)) with ((id, mutate id info) :: mutated mutate l). rewrite !webs_cons. change (in_list x (webs [])) with 0.
        unfold share. destruct (String.eqb p q); lia.
Qed.

Lemma ApplyClientModelCapabilities_ok c epoch mutate r :
  registry_ok r → registry_ok (ApplyClientModelCapabilities c epoch mutate r).1.
Proof.
  intros Hok. unfold ApplyClientModelCapabilities. set (c' := trim_space c). clearbody c'. destruct (String.eqb c' ""); [done|].
  destruct (negb _); [done|]. case_bool_decide as He; [done|]. apply invalidate_ok.
  pose proof (drop_web_with r r c' Hok eq_refl) as Hw. pose proof (drop_unindexed r c') as E.
  set (r1 := dropClientWebSearchCountsLocked r c') in *. destruct (unindexed_fields _ _ E) as (E1 & E2 & E3 & E4).
  destruct (apply_capabilities_fold c' (provider_of r c') mutate (map_to_list (infos_of r c')) r1 (NoDup_fst_map_to_list _))
    as ((B1 & B2 & B3 & B4) & Bi & Bw). set (r2 := foldl _ r1 _) in *.
  assert (infos_of r1 c' = infos_of r c') as Ei by (unfold infos_of; by rewrite E3).
  assert (models_of r2 c' = models_of r c' ∧ provider_of r2 c' = provider_of r c') as [Em Ep]
    by (unfold models_of, provider_of; by rewrite B1, B2, E2, E4).
  set (m := list_to_map (mutated mutate (map_to_list (infos_of r c')))) in *.
  assert (∀ id, is_Some (m !! id) ↔ is_Some (infos_of r c' !! id)) as Hm.
  { intros id. rewrite <- !elem_of_dom. unfold m. rewrite dom_list_to_map_L, mutated_keys, elem_of_list_to_set.
    rewrite elem_of_dom. split; [intros ([k x] & -> & ?%elem_of_map_to_list)%list_elem_of_fmap; by eexists|].
    intros [x Hx]. apply list_elem_of_fmap. exists (id, x). split; [done|]. by apply elem_of_map_to_list. }
  apply (ok_change r _ c' Hok).
  - split_and!; congruence.
  - intros id. rewrite Em, Ep. eapply counted_counters; [apply B4|]. rewrite E1. by apply ok_counted_with.
  - rewrite Ep. pose proof (web_rest_bounds r c') as Hb.
    assert (∀ id, flag id (infos_of r2 c') = in_list id (webs (mutated mutate (map_to_list (infos_of r c'))))) as Hf.
    { intros id. rewrite webs_flag by (rewrite mutated_keys; apply NoDup_fst_map_to_list). fold m. unfold flag.
      rewrite Bi, Ei, lookup_union. specialize (Hm id). destruct (m !! id) as [x|] eqn:Ex; cbn; [by destruct (infos_of r c' !! id)|].
      destruct (infos_of r c' !! id) eqn:Ey; cbn; [|done]. destruct (proj2 Hm ltac:(by eexists)) as [? [=]]. }
    eapply web_counted_ext; [apply (Bw _ _ Hw)|done..| |]; intros; rewrite ?share_zero, ?Hf; try lia.
    + specialize (Hb x ""). lia.
    + specialize (Hb x q). lia.
    + unfold share. destruct (String.eqb _ _); lia.
  - destruct (ok_client r Hok c') as [H1 H2]. split; [rewrite B1, B2, E2, E4; exact H1|].
    intros id. rewrite Em, <- H2, Bi, Ei, lookup_union_is_Some, Hm. tauto.
Qed.

End RegistryInv.
