(* ===== verification/RegistryAudit.v ===== *)
(** * Properties of the model registry: what holds after any operations

    A step is one operation of the registry at some time; the claims are about every
    registry that steps reach from the empty one. *)
From S2P Require Import Prelude GoLib Thinking MarkResult Scheduler Registry RegistryViews RegistryProps RegistryInv.
Import MarkResult Registry RegistryViews RegistryProps RegistryInv.

Module RegistryAudit.

(** ** Histories *)

Inductive registry_step (render : Z → string) (now : time) : ModelRegistry → ModelRegistry → Prop :=
| step_register c p models r : registry_step render now r (RegisterClient c p models now r)
| step_register_if c p epoch models publish r :
    registry_step render now r (RegisterClientIfEpochCurrent c p epoch models publish now r).1
| step_replace c p epoch models r : registry_step render now r (ReplaceClientModels c p epoch models now r).1
| step_unregister c r : registry_step render now r (UnregisterClient c now r)
| step_unregister_if c epoch publish r : registry_step render now r (UnregisterClientIfEpochCurrent c epoch publish now r).1
| step_quota c id r : registry_step render now r (SetModelQuotaExceeded c id now r)
| step_clear_quota c id r : registry_step render now r (ClearModelQuotaExceeded c id r)
| step_suspend c id reason r : registry_step render now r (SuspendClientModel c id reason now r)
| step_resume c id r : registry_step render now r (ResumeClientModel c id now r)
| step_project c epoch generation projections r :
    registry_step render now r (ApplyClientModelProjections c epoch generation projections now r).1
| step_capabilities c epoch mutate r : registry_step render now r (ApplyClientModelCapabilities c epoch mutate r).1
| step_cleanup r : registry_step render now r (CleanupExpiredQuotas now r)
| step_list handlerType r : registry_step render now r (GetAvailableModels render handlerType now r).1.

(** A history up to a time; the clock does not go back. *)
Inductive history (render : Z → string) : time → ModelRegistry → Prop :=
| history_start t : 0 < t → history render t empty_registry
| history_step t now r r' : history render t r → t ≤ now → registry_step render now r r' → history render now r'.

Lemma empty_registry_ok : registry_ok empty_registry.
Proof.
  split.
  - intros id. cbn. by rewrite lookup_empty.
  - intros id Hid. cbn. split; [done|]. intros p Hp. unfold web_providers. cbn. rewrite lookup_empty. done.
  - intros c. split; [intros p; cbn; by rewrite lookup_empty|]. intros id. unfold infos_of, models_of. cbn.
    rewrite !lookup_empty. cbn. rewrite lookup_empty, elem_of_nil. split; [by intros []|done].
Qed.
Lemma registry_step_ok render now r r' : registry_step render now r r' → registry_ok r → registry_ok r'.
Proof.
  intros Hs Hok. destruct Hs.
  - by apply registerClientLocked_ok.
  - unfold RegisterClientIfEpochCurrent. destruct (_ || _); [done|]. by apply registerClientLocked_ok.
  - unfold ReplaceClientModels. destruct (negb _); [done|]. by apply registerClientLocked_ok.
  - by apply invalidate_ok, unregisterClientInternal_ok.
  - unfold UnregisterClientIfEpochCurrent. destruct (_ || _); [done|]. by apply invalidate_ok, unregisterClientInternal_ok.
  - eapply ok_quiet; [apply set_quota_quiet|done].
  - eapply ok_quiet; [apply clear_quota_quiet|done].
  - eapply ok_quiet; [apply suspend_quiet|done].
  - eapply ok_quiet; [apply resume_quiet|done].
  - eapply ok_quiet; [apply projections_quiet|done].
  - by apply ApplyClientModelCapabilities_ok.
  - eapply ok_quiet; [apply cleanup_quiet|done].
  - unfold GetAvailableModels. destruct (cached _ _ _); [done|]. destruct (buildAvailableModelsLocked _ _ _ _). by apply (ok_core r).
Qed.
Lemma history_ok render t r : history render t r → registry_ok r.
Proof. induction 1; [apply empty_registry_ok|by eapply registry_step_ok]. Qed.

(** ** The counters *)

Lemma total_pos {A} (w : A → Z) m : (∀ x, 0 ≤ w x) → (0 < total w m ↔ ∃ c x, m !! c = Some x ∧ 0 < w x).
Proof. intros Hw. by apply (msum_pos (fun _ => w)). Qed.
Lemma total_by_pos {A} (w : A → Z) cp m q : (∀ x, 0 ≤ w x) →
  (0 < total_by w cp m q ↔ ∃ c x, m !! c = Some x ∧ default "" (cp !! c) = q ∧ 0 < w x).
Proof.
  intros Hw. unfold total_by. rewrite msum_pos by (intros c x _; specialize (Hw x); unfold share; destruct (String.eqb _ q); lia).
  unfold share. split; intros (c & x & Hc & H); exists c, x.
  - destruct (String.eqb _ q) eqn:E; bprop; [done|lia].
  - destruct H as [H1 H2]. by rewrite H1, String.eqb_refl.
Qed.
Lemma in_list_pos id l : 0 < in_list id l ↔ id ∈ l.
Proof. rewrite <- occurrences_pos. unfold in_list. lia. Qed.
Lemma models_of_elem r c id : id ∈ models_of r c ↔ ∃ l, rg_clientModels r !! c = Some l ∧ id ∈ l.
Proof. unfold models_of. destruct (rg_clientModels r !! c); cbn; [naive_solver|]. rewrite elem_of_nil. naive_solver. Qed.
Lemma clients_of_pos r id : 0 < clients_of r id ↔ ∃ c, id ∈ models_of r c.
Proof.
  unfold clients_of. rewrite total_pos by (intros; unfold in_list; lia). setoid_rewrite models_of_elem.
  setoid_rewrite in_list_pos. naive_solver.
Qed.
Lemma clients_by_pos r id q : 0 < clients_by r id q ↔ ∃ c, id ∈ models_of r c ∧ provider_of r c = q.
Proof.
  unfold clients_by. rewrite total_by_pos by (intros; unfold in_list; lia). setoid_rewrite models_of_elem.
  setoid_rewrite in_list_pos. unfold provider_of. naive_solver.
Qed.

(** ** The index of web search *)

Lemma infos_offers r c id : 0 < weight (flag id) (rg_clientModelInfos r !! c) ↔ offers_web r c id = true.
Proof. rewrite flag_weight, flag_offers. destruct (offers_web r c id); split; done || lia. Qed.
Lemma web_rest_of_pos r x id : 0 < web_rest_of r x id ↔ ∃ c, c ≠ x ∧ offers_web r c id = true.
Proof.
  unfold web_rest_of. rewrite total_pos by apply flag_nonneg. setoid_rewrite <- infos_offers. split.
  - intros (c & m & [Hc Hm]%lookup_delete_Some & Hf). exists c. split; [done|]. by rewrite Hm.
  - intros (c & Hc & Hf). destruct (rg_clientModelInfos r !! c) as [m|] eqn:Hm; [|done]. exists c, m. by rewrite lookup_delete_Some.
Qed.
Lemma web_rest_by_pos r x id p :
  0 < web_rest_by r x id p ↔ ∃ c, c ≠ x ∧ offers_web r c id = true ∧ provider_of r c = p.
Proof.
  unfold web_rest_by. rewrite total_by_pos by apply flag_nonneg. setoid_rewrite <- infos_offers. split.
  - intros (c & m & [Hc Hm]%lookup_delete_Some & Hp & Hf). exists c. split; [done|]. by rewrite Hm.
  - intros (c & Hc & Hf & Hp). destruct (rg_clientModelInfos r !! c) as [m|] eqn:Hm; [|done]. exists c, m.
    rewrite lookup_delete_Some. unfold provider_of in Hp. auto.
Qed.

Lemma one_less (n m : Z) (b : bool) : m = n + (if b then 1 else 0) → 0 ≤ n →
  (if m <=? 0 then false else 0 <? (if b then m - 1 else m)) = (0 <? n).
Proof.
  intros -> Hn. destruct b; cbn.
  - rewrite (proj2 (Z.leb_gt (n + 1) 0)) by lia. f_equal. lia.
  - rewrite Z.add_0_r. destruct (n <=? 0) eqn:E; bprop; [symmetry; apply Z.ltb_ge; lia|done].
Qed.

Lemma hasClient_rest r id p x : registry_ok r → id ≠ "" →
  hasClientSupportingWebSearchLocked r id p x = (0 <? (if String.eqb p "" then web_rest_of r x id else web_rest_by r x id p)).
Proof.
  intros Hok Hid. destruct (ok_web r Hok id Hid) as [Hc Hp]. unfold hasClientSupportingWebSearchLocked.
  pose proof (web_rest_bounds r x id p) as Hb. destruct (String.eqb p "") eqn:Ep; bprop; cbn [negb].
  - unfold web_clients. pose proof (web_of_rest r x id) as Hw. rewrite flag_offers in Hw.
    rewrite (counts_default _ (web_of r)) by (done || (rewrite Hw; destruct (offers_web r x id); lia)).
    apply one_less; [done|lia].
  - specialize (Hp p Ep). pose proof (web_by_rest r x id p) as Hw. rewrite flag_offers in Hw.
    assert (web_by r id p = web_rest_by r x id p + (if String.eqb (provider_of r x) p && offers_web r x id then 1 else 0)) as Hw'
      by (rewrite Hw; unfold share; destruct (String.eqb _ p), (offers_web r x id); done).
    rewrite (counts_default _ (web_by r id)) by (done || (rewrite Hw'; destruct (_ && _); lia)).
    apply one_less; [done|lia].
Qed.

(** After any history, the search by an index finds the same as a search of all
    clients would: whether one other than the excluded offers web search with the
    model, among all clients or those of a provider. *)
Theorem web_search_index_exact (render : Z → string) (t : time) (r : ModelRegistry) (id provider exclude : string) :
  history render t r → id ≠ "" →
  hasClientSupportingWebSearchLocked r id provider exclude = true ↔
  ∃ c, c ≠ exclude ∧ offers_web r c id = true ∧ (provider = "" ∨ provider_of r c = provider).
Proof.
  intros Hok%history_ok Hid. rewrite hasClient_rest by done. rewrite Z.ltb_lt.
  destruct (String.eqb provider "") eqn:Hp; bprop.
  - subst. rewrite web_rest_of_pos. naive_solver.
  - rewrite web_rest_by_pos. naive_solver.
Qed.

(** C20 After any history, a model has a registration exactly if a client lists it, and
    the registration counts the clients, repetitions included, in all and for every
    provider that has any. *)
Theorem registry_counters_exact (render : Z → string) (t : time) (r : ModelRegistry) (id : string) :
  history render t r →
  (rg_models r !! id = None ↔ ∀ c, id ∉ models_of r c)
  ∧ ∀ reg, rg_models r !! id = Some reg →
      mr_Count reg = clients_of r id
      ∧ ∀ p, p ≠ "" → mr_Providers reg !! p = if 0 <? clients_by r id p then Some (clients_by r id p) else None.
Proof.
  intros Hok%history_ok. pose proof (ok_counted r Hok id) as Hc. pose proof (clients_of_pos r id) as Hpos.
  destruct (rg_models r !! id) as [reg|]; cbn in Hc.
  - destruct Hc as (H1 & H2 & H3 & H4). split; [|intros ? [= <-]; auto]. split; [done|]. intros Hn.
    apply Hpos in H2 as [c Hin]. by destruct (Hn c).
  - destruct Hc as [H1 _]. split; [|done]. split; [|done]. intros _ c Hin.
    enough (0 < clients_of r id) by lia. apply Hpos. by exists c.
Qed.

(** ** Providers *)

#[local] Instance provider_le_total : Total provider_le.
Proof.
  intros [p n] [q m]. unfold provider_le. cbn. destruct (decide (m < n)); [auto|]. destruct (decide (n < m)); [auto|].
  assert (n = m) as -> by lia. destruct (str_lt q p) eqn:E; [right|left]; right; [|done]. split; [done|]. by apply str_lt_asym.
Qed.
#[local] Instance provider_le_trans : Transitive provider_le.
Proof.
  intros [p n] [q m] [s k]. unfold provider_le. cbn. intros [H|[-> H]] [H'|[-> H']]; [left; lia..|]. right. split; [done|].
  destruct (str_lt s p) eqn:E; [|done]. destruct (decide (p = q)) as [->|Hne]; [congruence|].
  destruct (str_lt p q) eqn:E'; [|by destruct Hne; apply str_lt_total].
  by rewrite (str_lt_trans s p q E E') in H'.
Qed.

Lemma sorted_map_fst (f : string → Z) l : StronglySorted provider_le l → (∀ p n, (p, n) ∈ l → n = f p) →
  StronglySorted (fun p q => provider_le (p, f p) (q, f q)) (map fst l).
Proof.
  induction 1 as [|[p n] l Hs IH Hall]; intros Hf; cbn; constructor.
  - apply IH. intros q m Hin. apply Hf. by right.
  - apply Forall_forall. intros q ([q' m] & -> & Hin)%list_elem_of_fmap. rewrite Forall_forall in Hall. specialize (Hall _ Hin). cbn [fst].
    rewrite <- (Hf p n), <- (Hf q' m); [done|by right|by left].
Qed.

(** After any history, the providers of a model are those of the clients that list
    it, each once, the one with the most clients first and equal ones by name. *)
Theorem providers_of_model (render : Z → string) (t : time) (r : ModelRegistry) (id : string) :
  history render t r →
  NoDup (GetModelProviders id r)
  ∧ (∀ p, p ∈ GetModelProviders id r ↔ p ≠ "" ∧ ∃ c, id ∈ models_of r c ∧ provider_of r c = p)
  ∧ StronglySorted (fun p q => provider_le (p, clients_by r id p) (q, clients_by r id q)) (GetModelProviders id r).
Proof.
  intros Hok%history_ok. pose proof (ok_counted r Hok id) as Hc. unfold GetModelProviders.
  destruct (rg_models r !! id) as [reg|]; cbn in Hc.
  2: { destruct Hc as [_ Hz]. split_and!; [apply NoDup_nil_2| |constructor]. intros p. rewrite elem_of_nil. split; [done|].
       intros [Hp Hx%clients_by_pos]. rewrite Hz in Hx by done. lia. }
  destruct Hc as (_ & _ & H0 & Hc). set (l := List.filter _ _).
  assert (∀ p n, (p, n) ∈ l ↔ p ≠ "" ∧ 0 < clients_by r id p ∧ n = clients_by r id p) as Hl.
  { intros p n. unfold l. rewrite list_elem_of_In, List.filter_In, <- list_elem_of_In, elem_of_map_to_list. cbn.
    destruct (decide (p = "")) as [->|Hp]; [rewrite H0; naive_solver|]. rewrite (Hc p Hp).
    destruct (0 <? clients_by r id p) eqn:E; bprop; [|naive_solver lia]. split.
    - intros [[= <-] ?]. auto.
    - intros (_ & _ & ->). split; [done|]. by apply Z.ltb_lt. }
  pose proof (merge_sort_Permutation provider_le l) as Hp. split_and!.
  - rewrite Hp. unfold l. apply NoDup_fmap_fst.
    + intros x y1 y2 (_ & _ & ->)%Hl (_ & _ & ->)%Hl. done.
    + apply List.NoDup_filter || apply NoDup_ListNoDup, List.NoDup_filter, NoDup_ListNoDup, NoDup_map_to_list.
  - intros p. rewrite <- clients_by_pos, list_elem_of_fmap. setoid_rewrite Hp. split.
    + intros ([q n] & -> & (H1 & H2 & _)%Hl). done.
    + intros [H1 H2]. exists (p, clients_by r id p). split; [done|]. by apply Hl.
  - pose proof (StronglySorted_merge_sort provider_le l) as Hs.
    assert (∀ p n, (p, n) ∈ merge_sort provider_le l → n = clients_by r id p) as Hn by (intros p n Hin; rewrite Hp in Hin; by apply Hl in Hin as (_ & _ & ?)).
    by apply sorted_map_fst.
Qed.

End RegistryAudit.
