(* ===== verification/RegistryAvail.v ===== *)
(** * Properties of the model registry: availability, fences and the cache

    The counters behind the availability of a model give the number of its clients
    that are neither over their quota nor suspended; the epochs keep late writers out;
    a cached list is the list a fresh computation gives. *)
From S2P Require Import Prelude GoLib Thinking MarkResult Scheduler Registry RegistryViews RegistryProps RegistryInv RegistryAudit.
Import MarkResult Registry RegistryViews RegistryProps RegistryInv RegistryAudit.

Module RegistryAvail.

(** ** Counting clients *)

Lemma count_map_size {A} (P : string → A → bool) (m : gmap string A) (X : gset string) :
  (∀ c, c ∈ X ↔ ∃ x, m !! c = Some x ∧ P c x = true) → count_map P m = Z.of_nat (size X).
Proof.
  intros HX. unfold count_map. f_equal. set (l := List.filter _ _).
  assert (∀ p, p ∈ l ↔ m !! p.1 = Some p.2 ∧ P p.1 p.2 = true) as Hl.
  { intros [c x]. unfold l. by rewrite list_elem_of_In, List.filter_In, <- list_elem_of_In, elem_of_map_to_list. }
  assert (X = list_to_set l.*1) as ->.
  { apply set_eq. intros c. rewrite HX, elem_of_list_to_set, list_elem_of_fmap. split.
    - intros (x & Hx). exists (c, x). by rewrite Hl.
    - intros ([c' x] & -> & Hx%Hl). by exists x. }
  rewrite size_list_to_set, length_fmap; [done|]. apply NoDup_fmap_fst.
  - intros c x1 x2 [H1 _]%Hl [H2 _]%Hl. cbn in *. congruence.
  - apply NoDup_ListNoDup, List.NoDup_filter, NoDup_ListNoDup, NoDup_map_to_list.
Qed.

(** The clients that list a model; those not blocked for it. *)
Definition owners (r : ModelRegistry) (id : string) : gset string :=
  dom (filter (fun p => id ∈ p.2) (rg_clientModels r)).
Definition blocked (now : time) (reg : ModelRegistration) (c : string) : Prop :=
  over_quota now reg c = true ∨ is_Some (mr_SuspendedClients reg !! c).
#[global] Instance blocked_dec now reg c : Decision (blocked now reg c).
Proof. unfold blocked. apply _. Defined.
Lemma elem_of_owners r id c : c ∈ owners r id ↔ id ∈ models_of r c.
Proof.
  unfold owners. rewrite elem_of_dom, models_of_elem. unfold is_Some. setoid_rewrite map_lookup_filter_Some. naive_solver.
Qed.
Lemma owners_size r id : (∀ c, (occurrences id (models_of r c) ≤ 1)%nat) → clients_of r id = Z.of_nat (size (owners r id)).
Proof.
  intros Hone. unfold owners. rewrite size_dom. unfold clients_of, total. unfold models_of in Hone.
  assert (∀ c l, rg_clientModels r !! c = Some l → (occurrences id l ≤ 1)%nat) as H1 by (intros c l Hc; specialize (Hone c); by rewrite Hc in Hone).
  clear Hone. revert H1. generalize (rg_clientModels r) as m. intros m. induction m as [|c l m Hc IH] using map_ind; intros H1; [done|].
  rewrite msum_insert_new, IH by (done || (intros c' l' Hc'; apply (H1 c'); rewrite lookup_insert_ne; [done|congruence])).
  specialize (H1 c l ltac:(by rewrite lookup_insert_eq)). unfold in_list. destruct (decide (id ∈ l)) as [Hin|Hin].
  - rewrite map_filter_insert_True by done. rewrite map_size_insert_None by (by rewrite map_lookup_filter_None; left).
    apply occurrences_pos in Hin. lia.
  - rewrite map_filter_insert_False by done. rewrite delete_id by done. apply occurrences_zero in Hin. lia.
Qed.

Section Counters.
Context (now : time) (reg : ModelRegistration) (O : gset string).
Hypothesis owned_quota : ∀ c, is_Some (mr_QuotaExceededClients reg !! c) → c ∈ O.
Hypothesis owned_suspended : ∀ c, is_Some (mr_SuspendedClients reg !! c) → c ∈ O.

Definition over : gset string := filter (fun c => over_quota now reg c = true) O.
Definition stopped : gset string := filter (fun c => is_Some (mr_SuspendedClients reg !! c)) O.
Lemma over_quota_spec c : over_quota now reg c = true ↔ ∃ q, mr_QuotaExceededClients reg !! c = Some q ∧ quota_live now q = true.
Proof. unfold over_quota. destruct (mr_QuotaExceededClients reg !! c); naive_solver. Qed.

Lemma expired_size who : (∀ c, who c = true) → expiredClients now who reg = Z.of_nat (size over).
Proof.
  intros Hwho. apply count_map_size. intros c. unfold over. rewrite elem_of_filter, over_quota_spec. setoid_rewrite Hwho. cbn.
  split; [tauto|]. intros (q & Hq & Hl). split; [by exists q|]. apply owned_quota. by eexists.
Qed.
Definition quota_stopped (c : string) : bool :=
  match mr_SuspendedClients reg !! c with Some reason => isQuotaSuspension reason | None => false end.
Definition cooling : gset string := filter (fun c => quota_stopped c = true) O.
Lemma cooldown_size who : (∀ c, who c = true) → cooldownSuspended who reg = Z.of_nat (size cooling).
Proof.
  intros Hwho. apply count_map_size. intros c. unfold cooling, quota_stopped. rewrite elem_of_filter. setoid_rewrite Hwho. cbn.
  destruct (mr_SuspendedClients reg !! c) eqn:Hc; [|naive_solver]. split; [naive_solver|]. intros (x & [= <-] & Hx).
  split; [done|]. apply owned_suspended. by eexists.
Qed.
Lemma other_size who : (∀ c, who c = true) → otherSuspended who reg = Z.of_nat (size (stopped ∖ cooling)).
Proof.
  intros Hwho. apply count_map_size. intros c. unfold stopped, cooling, quota_stopped.
  rewrite elem_of_difference, !elem_of_filter. setoid_rewrite Hwho. cbn.
  destruct (mr_SuspendedClients reg !! c) as [x|] eqn:Hc; [|naive_solver]. setoid_rewrite negb_true_iff. split.
  - intros [[_ Ho] Hn]. exists x. split; [done|]. apply not_true_iff_false. naive_solver.
  - intros (y & [= <-] & Hx). rewrite Hx. split; [split; [by eexists|]|by intros [? _]]. apply owned_suspended. by eexists.
Qed.
Lemma cooling_stopped : cooling ⊆ stopped.
Proof.
  intros c. unfold cooling, stopped, quota_stopped. rewrite !elem_of_filter. intros [Hc Ho]. split; [|done].
  destruct (mr_SuspendedClients reg !! c); [by eexists|done].
Qed.
Lemma both_size who : (∀ c, who c = true) → quotaAndSuspended now who reg = Z.of_nat (size (over ∩ stopped)).
Proof.
  intros Hwho. apply count_map_size. intros c. unfold over, stopped. rewrite elem_of_intersection, !elem_of_filter.
  setoid_rewrite Hwho. cbn. split; [intros [[H1 H2] [[x Hx] _]]; by exists x|]. intros (x & Hx & H1).
  assert (c ∈ O) by (apply owned_suspended; by eexists). by split_and!.
Qed.

Definition free : gset string := filter (fun c => ¬ blocked now reg c) O.
Lemma free_difference : free = O ∖ (over ∪ stopped).
Proof.
  clear owned_quota owned_suspended. apply set_eq. intros c. unfold free, over, stopped, blocked. rewrite elem_of_difference, elem_of_union, !elem_of_filter. tauto.
Qed.
Lemma free_size : Z.of_nat (size free) = Z.of_nat (size O) - Z.of_nat (size over) - Z.of_nat (size stopped) + Z.of_nat (size (over ∩ stopped)).
Proof.
  clear owned_quota owned_suspended. assert (over ⊆ O ∧ stopped ⊆ O) as [H1 H2] by (split; intros c; unfold over, stopped; rewrite elem_of_filter; tauto).
  assert (over ∪ stopped ⊆ O) as H3 by set_solver.
  rewrite free_difference, size_difference by done. pose proof (subseteq_size _ _ H3) as H4.
  assert (over ∩ stopped ⊆ stopped) as H5 by set_solver. pose proof (subseteq_size _ _ H5) as H6.
  assert (size (stopped ∖ over) = size stopped - size (over ∩ stopped))%nat as E
    by (rewrite size_difference_alt; by rewrite (intersection_comm_L stopped over)).
  rewrite size_union_alt, E. rewrite size_union_alt, E in H4. lia.
Qed.

(** Whether the model is available, by the clients' states. *)
Lemma available_spec who : (∀ c, who c = true) → (0 < size O)%nat →
  available_with now who (Z.of_nat (size O)) reg = true ↔
  (∃ c, c ∈ O ∧ ¬ blocked now reg c)
  ∨ ((∃ c, over_quota now reg c = true ∨ quota_stopped c = true)
     ∧ ∀ c, is_Some (mr_SuspendedClients reg !! c) → quota_stopped c = true).
Proof.
  intros Hwho HO. unfold available_with. rewrite expired_size, cooldown_size, other_size, both_size by done.
  pose proof free_size as Hf.
  pose proof (size_difference _ _ cooling_stopped) as Hd. pose proof (subseteq_size _ _ cooling_stopped) as Hs.
  replace (Z.max 0 _) with (Z.of_nat (size free)) by lia.
  rewrite orb_true_iff, !andb_true_iff, orb_true_iff, !Z.ltb_lt, Z.eqb_eq.
  assert (∀ X : gset string, 0 < Z.of_nat (size X) ↔ ∃ c, c ∈ X) as Hpos.
  { intros X. split; [intros Hx; apply set_choose_L; intros ->; rewrite size_empty in Hx; lia|].
    intros [c Hc]. destruct (decide (size X = 0)%nat) as [Hz%size_empty_inv|]; [set_solver|lia]. }
  rewrite !Hpos. assert (Z.of_nat (size (stopped ∖ cooling)) = 0 ↔ ∀ c, is_Some (mr_SuspendedClients reg !! c) → quota_stopped c = true) as ->.
  { split.
    - intros Hz c Hc. assert (size (stopped ∖ cooling) = 0)%nat as Hz' by lia. apply size_empty_inv in Hz'.
      specialize (owned_suspended c Hc). specialize (Hz' c). unfold stopped, cooling in Hz'.
      rewrite elem_of_difference, !elem_of_filter in Hz'. destruct (quota_stopped c) eqn:E; [done|]. exfalso.
      apply (not_elem_of_empty (C := gset string) c), Hz'. split; [done|]. by intros [? _].
    - intros Hall. assert (stopped ∖ cooling = ∅) as ->; [|by rewrite size_empty]. apply set_eq. intros c. unfold stopped, cooling.
      rewrite elem_of_difference, !elem_of_filter. split; [|by intros ?%not_elem_of_empty]. intros [[Hc Ho] Hn]. destruct Hn. auto. }
  assert ((∃ c, c ∈ over) ∨ (∃ c, c ∈ cooling) ↔ ∃ c, over_quota now reg c = true ∨ quota_stopped c = true) as ->.
  { unfold over, cooling. setoid_rewrite elem_of_filter. split; [naive_solver|]. intros (c & [H|H]); [left|right]; exists c; (split; [done|]).
    - apply owned_quota. apply over_quota_spec in H as (q & Hq & _). by eexists.
    - apply owned_suspended. unfold quota_stopped in H. destruct (mr_SuspendedClients reg !! c); [by eexists|done]. }
  unfold free. setoid_rewrite elem_of_filter. split; [naive_solver|]. intros [H|H]; [left; naive_solver|right]. split; [split; [apply Hpos; lia|]|]; tauto.
Qed.
End Counters.

(** ** Availability *)

Lemma quota_live_sub now q : (time_sub now q <? modelQuotaExceededWindow) = quota_live now q.
Proof.
  unfold quota_live, before, recovery, time_sub, modelQuotaExceededWindow, min_int64, max_int64.
  change (5 * minute) with 300000000000. apply eq_true_iff_eq. rewrite !Z.ltb_lt. lia.
Qed.

Lemma GetModelCount_free id now r reg (O : gset string) : rg_models r !! id = Some reg → mr_Count reg = Z.of_nat (size O) →
  (∀ c, is_Some (mr_QuotaExceededClients reg !! c) → c ∈ O) → (∀ c, is_Some (mr_SuspendedClients reg !! c) → c ∈ O) →
  GetModelCount id now r = Z.of_nat (size (free now reg O)).
Proof.
  intros Hr Hn HQ HS. unfold GetModelCount. rewrite Hr, Hn.
  rewrite (count_map_size _ (mr_QuotaExceededClients reg) (over now reg O)).
  2: { intros c. unfold over. rewrite elem_of_filter, over_quota_spec. setoid_rewrite quota_live_sub. split; [tauto|].
       intros (q & Hq & Hl). split; [by exists q|]. apply HQ. by eexists. }
  rewrite (count_map_size _ (mr_SuspendedClients reg) (stopped reg O ∖ over now reg O)).
  2: { intros c. unfold over, stopped. rewrite elem_of_difference, !elem_of_filter. setoid_rewrite negb_true_iff. split.
       - intros [[[x Hx] Ho] Hno]. exists x. split; [done|]. apply not_true_iff_false. tauto.
       - intros (x & Hx & Hno). assert (is_Some (mr_SuspendedClients reg !! c)) as Hs by by eexists. rewrite Hno. naive_solver. }
  pose proof (free_size now reg O) as Hf. rewrite size_difference_alt, (intersection_comm_L (stopped reg O)).
  pose proof (subseteq_size (over now reg O ∩ stopped reg O) (stopped reg O) ltac:(set_solver)).
  replace (_ - _ - _) with (Z.of_nat (size (free now reg O))) by lia. destruct (_ <? 0) eqn:E; bprop; lia.
Qed.

(** C32 When every client lists a model at most once and only its clients are over quota
    or suspended, the count of the model is the number of clients that are neither; it
    is available exactly if there is such a client, or if some client is over its quota
    or suspended for its quota and none is suspended for another reason. *)
Theorem availability_counts_clients (render : Z → string) (t now : time) (r : ModelRegistry) (id : string)
    (reg : ModelRegistration) :
  history render t r → rg_models r !! id = Some reg → (∀ c, (occurrences id (models_of r c) ≤ 1)%nat) →
  (∀ c, is_Some (mr_QuotaExceededClients reg !! c) → id ∈ models_of r c) →
  (∀ c, is_Some (mr_SuspendedClients reg !! c) → id ∈ models_of r c) →
  GetModelCount id now r = Z.of_nat (size (filter (fun c => ¬ blocked now reg c) (owners r id)))
  ∧ ((modelRegistrationAvailability reg now).1 = true ↔
     (∃ c, id ∈ models_of r c ∧ ¬ blocked now reg c)
     ∨ ((∃ c, over_quota now reg c = true ∨ quota_stopped reg c = true)
        ∧ ∀ c, is_Some (mr_SuspendedClients reg !! c) → quota_stopped reg c = true)).
Proof.
  intros Hok%history_ok Hr Hone HQ HS. setoid_rewrite <- elem_of_owners in HQ. setoid_rewrite <- elem_of_owners in HS.
  pose proof (ok_counted r Hok id) as Hc. rewrite Hr in Hc. destruct Hc as (Hn & Hpos & _). rewrite (owners_size r id Hone) in *.
  split; [by apply GetModelCount_free|]. unfold modelRegistrationAvailability. cbn [fst]. rewrite Hn.
  rewrite (available_spec now reg (owners r id)) by (done || lia). by setoid_rewrite elem_of_owners.
Qed.

End RegistryAvail.
