(* ===== verification/RegistryMarks.v ===== *)
(** * Properties of the model registry: registrations, marks and epochs

    What a registration, a replacement and an unregistration do to the quota and
    suspension marks of a client, that they leave the other clients alone, and that a
    writer with an old epoch changes nothing. *)
From S2P Require Import Prelude GoLib Thinking MarkResult Scheduler Registry RegistryViews RegistryProps RegistryInv RegistryAudit.
Import MarkResult Registry RegistryViews RegistryProps RegistryInv RegistryAudit.

Module RegistryMarks.

(** ** Marks of a client in a registration *)

Definition marks (x : string) (reg : ModelRegistration) : option time * option string :=
  (mr_QuotaExceededClients reg !! x, mr_SuspendedClients reg !! x).

(** A registration stays with the marks of [x], or goes; what is left has none. *)
Definition kept (x : string) (o o' : option ModelRegistration) : Prop :=
  ∀ b, o' = Some b → ∃ a, o = Some a ∧ marks x b = marks x a.
Definition cleared (x : string) (o : option ModelRegistration) : Prop := ∀ b, o = Some b → marks x b = (None, None).
#[global] Instance kept_preorder x : PreOrder (kept x).
Proof.
  split; [intros o b ->; by eexists|]. intros o1 o2 o3 H1 H2 b Hb. destruct (H2 b Hb) as (a & Ha & E). destruct (H1 a Ha) as (a' & Ha' & E').
  exists a'. split; [done|congruence].
Qed.
Lemma kept_cleared x o o' : kept x o o' → cleared x o → cleared x o'.
Proof. intros Hk Hc b Hb. destruct (Hk b Hb) as (a & Ha & ->). by apply Hc. Qed.
Lemma kept_fmap x f o : (∀ a, marks x (f a) = marks x a) → kept x o (f <$> o).
Proof. intros Hf b Hb. apply fmap_Some in Hb as (a & -> & ->). by exists a. Qed.
Lemma kept_iter x n G o : (∀ o, kept x o (G o)) → kept x o (Nat.iter n G o).
Proof. intros HG. induction n as [|n IH]; [done|]. cbn. etransitivity; [exact IH|apply HG]. Qed.
Lemma cleared_iter x n G o : (∀ o, cleared x (G o)) → (0 < n)%nat → cleared x (Nat.iter n G o).
Proof. intros HG Hn. destruct n; [lia|]. apply HG. Qed.

Lemma marks_release x p n reg : marks x (release_provider p n reg) = marks x reg.
Proof. unfold release_provider. repeat case_match; done. Qed.
Lemma marks_forget x c reg : marks x (forget_client c reg) = if String.eqb x c then (None, None) else marks x reg.
Proof.
  unfold marks, forget_client. cbn. destruct (String.eqb x c) eqn:E; bprop; [subst; by rewrite !lookup_delete_eq|].
  by rewrite !lookup_delete_ne by congruence.
Qed.

(** What a loss makes of the marks. *)
Definition lost_marks (x c : string) (keep : bool) (reg : ModelRegistration) : option time * option string :=
  if negb keep && String.eqb x c then (None, None) else marks x reg.
Lemma marks_removed r c id p now keep o b : removed r c id p now keep o = Some b → ∃ a, o = Some a ∧ ∀ x, marks x b = lost_marks x c keep a.
Proof.
  unfold removed. destruct o as [reg|]; cbn [mbind option_bind]; [|done]. set (reg1 := if keep then _ else _).
  assert (∀ x, marks x reg1 = lost_marks x c keep reg) as H1.
  { intros x. subst reg1. unfold lost_marks. destruct keep; [done|]. by rewrite marks_forget. }
  destruct (mr_Count reg1 <? 0).
  - set (reg2 := if String.eqb p "" then _ else _). assert (∀ x, marks x reg2 = marks x reg1) as H2
      by (intros x; subst reg2; destruct (String.eqb p ""); [done|by rewrite marks_release]).
    destruct (mr_Count reg2 <=? 0); intros [= <-]. exists reg. split; [done|]. intros x. rewrite <- H1, <- H2.
    unfold refresh_after_loss. by destruct (String.eqb p "").
  - set (reg2 := if String.eqb p "" then _ else _). assert (∀ x, marks x reg2 = marks x reg1) as H2
      by (intros x; subst reg2; destruct (String.eqb p ""); [done|by rewrite marks_release]).
    destruct (mr_Count reg2 <=? 0); intros [= <-]. exists reg. split; [done|]. intros x. rewrite <- H1, <- H2.
    unfold refresh_after_loss. by destruct (String.eqb p "").
Qed.
Lemma removed_kept x r c id p now keep o : keep = true ∨ x ≠ c → kept x o (removed r c id p now keep o).
Proof.
  intros Hx b (a & -> & Hb)%marks_removed. exists a. split; [done|]. rewrite Hb. unfold lost_marks.
  destruct keep; [done|]. cbn. destruct Hx as [|Hx]; [done|]. by rewrite (proj2 (String.eqb_neq x c)).
Qed.
Lemma removed_cleared r c id p now o : cleared c (removed r c id p now false o).
Proof. intros b (a & -> & Hb)%marks_removed. rewrite Hb. unfold lost_marks. cbn. by rewrite String.eqb_refl. Qed.

Lemma marks_unregistered r c p now id o b : unregistered r c p now id o = Some b → ∃ a, o = Some a ∧ ∀ x, marks x b = lost_marks x c false a.
Proof.
  unfold unregistered. destruct o as [reg|]; cbn [mbind option_bind]; [|done]. set (reg1 := forget_client c _).
  assert (∀ x, marks x reg1 = lost_marks x c false reg) as H1 by (intros x; subst reg1; by rewrite marks_forget).
  set (reg2 := match p with Some _ => _ | None => _ end).
  assert (∀ x, marks x reg2 = marks x reg1) as H2 by (intros x; subst reg2; destruct p; [by rewrite marks_release|done]).
  destruct (mr_Count reg2 <=? 0); intros [= <-]. exists reg. split; [done|]. intros x. rewrite <- H1, <- H2. by destruct p.
Qed.
Lemma unregistered_kept x r c p now id o : x ≠ c → kept x o (unregistered r c p now id o).
Proof.
  intros Hx b (a & -> & Hb)%marks_unregistered. exists a. split; [done|]. rewrite Hb. unfold lost_marks. cbn.
  by rewrite (proj2 (String.eqb_neq x c)).
Qed.
Lemma unregistered_cleared r c p now id o : cleared c (unregistered r c p now id o).
Proof. intros b (a & -> & Hb)%marks_unregistered. rewrite Hb. unfold lost_marks. cbn. by rewrite String.eqb_refl. Qed.

Lemma marks_handed_over x r c p k id reg : marks x (handed_over r c p k id reg) = marks x reg.
Proof.
  unfold handed_over. destruct (mr_Providers reg !! p); [|done]. destruct (_ <=? _); [apply marks_release|].
  transitivity (marks x (release_provider p (Z.of_nat k) reg)); [done|apply marks_release].
Qed.
Lemma added_kept x r id p model now c a : ∃ b, added r id p model now c (Some a) = Some b ∧ marks x b = marks x a.
Proof. unfold added. eexists. split; [done|]. by destruct (String.eqb p ""). Qed.
Lemma iter_added_kept x r id p model now c n a : ∃ b, Nat.iter n (added r id p model now c) (Some a) = Some b ∧ marks x b = marks x a.
Proof.
  induction n as [|n (b & Hb & E)]; [by exists a|]. rewrite Nat.iter_succ, Hb. rewrite <- E. apply added_kept.
Qed.
Lemma marks_updated x r c new old keep oc nc model now id reg :
  marks x (updated r c new old keep oc nc model now id reg) =
  if (negb keep || negb (String.eqb old new) || (oc =? 0)%nat) && String.eqb x c then (None, None) else marks x reg.
Proof.
  unfold updated. set (reg4 := (if _ && negb (String.eqb old "") then _ else _) <| mr_LastUpdated := now |>).
  assert (marks x reg4 = marks x reg) as H4 by (subst reg4; repeat case_match; done). clearbody reg4.
  set (reg5 := if _ || _ || _ then _ else reg4).
  transitivity (marks x reg5); [repeat case_match; done|]. subst reg5. destruct (_ || _ || _); [|done].
  rewrite marks_forget. by rewrite H4.
Qed.

(** ** Reconciliations *)

Section Reconcile.
Context (c new old : string) (keep : bool) (oldModels raw : list string) (newModels : gmap string ModelInfo) (now : time).
Local Abbreviation o id := (occurrences id oldModels).
Local Abbreviation k id := (occurrences id raw).
Local Abbreviation G := (G_reconcile c new old keep oldModels raw newModels now).

(** The removals of a reconciliation. *)
Definition G_remove id fr (x : option ModelRegistration) : option ModelRegistration :=
  let changed := negb (String.eqb old new) in
  let x := if changed && negb (String.eqb old "") && bool_decide (id ∈ raw) then G_hand c old oldModels raw id fr x else x in
  let x := if bool_decide (id ∈ oldModels) then Nat.iter (n_gone oldModels raw id) (removed fr c id old now false) x else x in
  if bool_decide (id ∈ oldModels) then Nat.iter (n_excess oldModels raw id) (removed fr c id old now (keep && negb changed)) x else x.
Lemma G_reconcile_remove id fr x : G id fr x =
  (let x := G_remove id fr x in
   let x := if bool_decide (id ∈ raw) then G_add c new oldModels raw newModels now id fr x else x in
   if bool_decide (id ∈ raw) then G_update c new old keep oldModels raw newModels now id fr x else x).
Proof. done. Qed.

(** The marks of [x] are kept: another client, or the replacement of the list. *)
Definition spared (x id : string) : Prop := x ≠ c ∨ (keep = true ∧ old = new ∧ (0 < k id)%nat ∧ (0 < o id)%nat).

Lemma G_remove_kept x id fr y : spared x id → kept x y (G_remove id fr y).
Proof.
  intros Hx. unfold G_remove. cbv zeta. set (y1 := if _ && _ && _ then _ else y).
  assert (kept x y y1) as H1.
  { subst y1. destruct (_ && _ && _); [|done]. unfold G_hand. destruct (_ =? 0)%nat; [done|]. apply kept_fmap. intros. apply marks_handed_over. }
  set (y2 := if bool_decide (id ∈ oldModels) then Nat.iter (n_gone _ _ id) _ y1 else y1).
  assert (kept x y1 y2) as H2.
  { subst y2. case_bool_decide; [|done]. destruct Hx as [Hx|(_ & _ & Hk & _)]; [apply kept_iter; intros; apply removed_kept; by right|].
    unfold n_gone. rewrite (proj2 (Nat.eqb_neq (k id) 0)) by lia. done. }
  etransitivity; [exact H1|]. etransitivity; [exact H2|]. case_bool_decide; [|done]. apply kept_iter. intros. apply removed_kept.
  destruct Hx as [Hx|(-> & -> & _)]; [by right|left]. by rewrite String.eqb_refl.
Qed.

Lemma reconcile_kept x id fr y n pr :
  spared x id → (∀ id, is_Some (newModels !! id) ↔ id ∈ raw) → 0 ≤ n → (∀ q, q ≠ "" → 0 ≤ pr q ≤ n) →
  counted y (n + Z.of_nat (o id)) (fun q => pr q + share old (Z.of_nat (o id)) q) →
  0 < n + Z.of_nat (Nat.min (k id) (o id)) → ∃ a b, y = Some a ∧ G id fr y = Some b ∧ marks x b = marks x a.
Proof.
  intros Hx Hraw Hn Hpr Hy Hpos. rewrite G_reconcile_remove. cbv zeta.
  assert (is_Some (G_remove id fr y)) as [b Hb].
  { apply (reconcile_start c new old oldModels raw id fr) in Hy; [|done..].
    pose proof (reconcile_middle c new old oldModels raw now id fr _ n pr Hn Hpr Hy (keep && negb (negb (String.eqb old new)))) as H2.
    change (counted (G_remove id fr y) (n + Z.of_nat (Nat.min (k id) (o id)))
              (fun q => pr q + share old (Z.of_nat (Nat.min (k id) (o id))) q - given_up new old oldModels raw id q)) in H2.
    destruct (G_remove id fr y); [by eexists|]. destruct H2. lia. }
  destruct (G_remove_kept x id fr y Hx b Hb) as (a & Ha & E). exists a. rewrite Hb. case_bool_decide as Hin; [|by exists b].
  destruct (proj2 (Hraw id) Hin) as [model Hm]. unfold G_add, G_update. rewrite Hm.
  destruct (iter_added_kept x fr id new model now c (k id - o id) b) as (b' & -> & E'). eexists. split; [done|]. split; [done|].
  rewrite marks_updated, <- E, <- E'. apply occurrences_pos in Hin. destruct (String.eqb x c) eqn:Hxc; bprop; [|by rewrite andb_false_r].
  destruct Hx as [Hx|(-> & -> & _ & Ho)]; [done|]. rewrite String.eqb_refl. cbn. by rewrite (proj2 (Nat.eqb_neq (o id) 0)) by lia.
Qed.

Lemma reconcile_cleared id fr y : keep = false → (∀ id, is_Some (newModels !! id) ↔ id ∈ raw) →
  id ∈ oldModels ∨ id ∈ raw → cleared c (G id fr y).
Proof.
  intros Hkeep Hraw Hin. rewrite G_reconcile_remove. cbv zeta. case_bool_decide as Hr.
  - destruct (proj2 (Hraw id) Hr) as [model Hm]. unfold G_update. rewrite Hm. intros b Hb. apply fmap_Some in Hb as (a & _ & ->).
    by rewrite marks_updated, Hkeep, String.eqb_refl.
  - destruct Hin as [Ho|]; [|done]. unfold G_remove. cbv zeta. rewrite !(bool_decide_true (id ∈ oldModels)) by done.
    apply occurrences_pos in Ho. apply occurrences_zero in Hr. unfold n_excess, n_gone. rewrite Hr.
    change ((0 =? 0)%nat || _) with true. change (0 =? 0)%nat with true. cbn [Nat.iter nat_rect].
    apply cleared_iter; [|done]. intros. apply removed_cleared.
Qed.
End Reconcile.

(** ** The effect of an operation *)

Lemma frame_epochs r r' : frame r' = frame r → rg_clientEpochs r' = rg_clientEpochs r.
Proof. destruct r, r'. unfold frame. cbn. by intros [=]. Qed.
Lemma unindexed_epochs r r' : unindexed r' = unindexed r → rg_clientEpochs r' = rg_clientEpochs r.
Proof. destruct r, r'. unfold unindexed. cbn. by intros [=]. Qed.

Lemma unregister_effect c now r : client_ok r c →
  let r' := unregisterClientInternal c now r in
  rg_clientEpochs r' = <[c := incr64 (epoch_of r c)]> (rg_clientEpochs r)
  ∧ rg_clientModels r' = delete c (rg_clientModels r)
  ∧ ∃ fr, ∀ id, rg_models r' !! id =
      Nat.iter (occurrences id (models_of r c)) (unregistered fr c (rg_clientProviders r !! c) now id) (rg_models r !! id).
Proof.
  intros Hok. cbv zeta. rewrite unregisterClientInternal_forgotten by done. unfold models_of.
  destruct (rg_clientModels r !! c) as [models|] eqn:Hm; [|split_and!; [done|done|by exists r]].
  destruct (fold_local (fun id r' => unregistered r' c (rg_clientProviders r !! c) now id)
              (unregister_model c (rg_clientProviders r !! c) now) models (retired c r) ltac:(by apply alter_local)) as [E F].
  set (r2 := foldl _ _ models) in *. pose proof (drop_unindexed r2 c) as D.
  destruct (unindexed_fields _ _ D) as (G1 & G2 & _). destruct (frame_fields _ _ F) as (F1 & _).
  split_and!; [|by unfold forgotten; cbn; rewrite G2, F1|].
  - unfold forgotten. cbn. by rewrite (unindexed_epochs _ _ D), (frame_epochs _ _ F).
  - exists (frame (retired c r)). intros id. unfold forgotten. cbn. by rewrite G1, E.
Qed.

(** The registration of one model after a client was registered. *)
Definition registered_model (c p : string) (keep : bool) (now : time) (r fr : ModelRegistry) (raw : list string)
    (newModels : gmap string ModelInfo) (id : string) (x : option ModelRegistration) : option ModelRegistration :=
  match raw with
  | [] => Nat.iter (occurrences id (models_of r c)) (unregistered fr c (rg_clientProviders r !! c) now id) x
  | _ => match rg_clientModels r !! c with
         | Some oldModels => G_reconcile c p (provider_of r c) keep oldModels raw newModels now id fr x
         | None => match newModels !! id with
                   | Some model => Nat.iter (occurrences id raw) (added fr id p model now c) x
                   | None => x
                   end
         end
  end.

(** Storing the client's lists, and dropping the cache. *)
Lemma stored_effect c p raw newModels r :
  let r' := invalidateAvailableModelsCacheLocked (store_client c p raw newModels r) in
  rg_clientEpochs r' = rg_clientEpochs r ∧ rg_clientModels r' = <[c := raw]> (rg_clientModels r)
  ∧ ∀ id, rg_models r' !! id = rg_models r !! id.
Proof.
  cbv zeta. unfold store_client. set (s := _ <| rg_clientProviders := _ |>). pose proof (add_unindexed s c) as D.
  destruct (unindexed_fields _ _ D) as (G1 & G2 & _). cbn. rewrite G1, G2, (unindexed_epochs _ _ D). done.
Qed.

Lemma register_effect c clientProvider models keep now r : client_ok r c →
  let raw := map mi_ID (valid_models models) in
  let r' := registerClientLocked c clientProvider models keep now r in
  rg_clientEpochs r' = <[c := incr64 (epoch_of r c)]> (rg_clientEpochs r)
  ∧ models_of r' c = raw ∧ (∀ x, x ≠ c → models_of r' x = models_of r x)
  ∧ ∃ fr, ∀ id, rg_models r' !! id =
      registered_model c (to_lower clientProvider) keep now r fr raw (first_models (valid_models models)) id (rg_models r !! id).
Proof.
  intros Hok. unfold registerClientLocked. set (p := to_lower clientProvider).
  pose proof (first_models_raw (valid_models models)) as Hraw. pose proof (valid_models_no_empty models) as H0. cbv zeta.
  set (raw := map mi_ID (valid_models models)) in *. set (newModels := first_models (valid_models models)) in *.
  destruct raw as [|id0 ids] eqn:Er.
  { destruct (unregister_effect c now r Hok) as (E1 & E2 & fr & E3). set (u := unregisterClientInternal c now r) in *.
    split_and!; [exact E1| | |].
    - unfold models_of. cbn. by rewrite lookup_delete_eq.
    - intros x Hx. unfold models_of. cbn. by rewrite E2, !lookup_delete_ne by congruence.
    - exists fr. exact E3. }
  rewrite <- Er in *. set (r1 := if _ || _ || _ then _ else bump_epoch c r).
  assert (rg_clientModels r1 = rg_clientModels r ∧ rg_models r1 = rg_models r ∧ rg_clientModelInfos r1 = rg_clientModelInfos r
          ∧ rg_clientEpochs r1 = <[c := incr64 (epoch_of r c)]> (rg_clientEpochs r)) as (E1 & E2 & E3 & E4)
    by (subst r1; by destruct (_ || _)).
  clearbody r1. unfold registered_model. rewrite Er. rewrite <- Er.
  destruct (rg_clientModels r !! c) as [oldModels|] eqn:Hm.
  - destruct (reconcile_models c p (provider_of r c) keep oldModels raw newModels now r1 H0) as [E F].
    set (r2 := reconcile _ _ _ _ _ _ _ _ r1) in *. pose proof (drop_unindexed r2 c) as D.
    destruct (stored_effect c p raw newModels (dropClientWebSearchCountsLocked r2 c)) as (S1 & S2 & S3).
    destruct (unindexed_fields _ _ D) as (G1 & G2 & _). destruct (frame_fields _ _ F) as (F1 & _).
    split_and!.
    + rewrite S1, (unindexed_epochs _ _ D), (frame_epochs _ _ F). exact E4.
    + unfold models_of. rewrite S2. by rewrite lookup_insert_eq.
    + intros x Hx. unfold models_of. rewrite S2, lookup_insert_ne, G2, F1, E1 by congruence. done.
    + exists (frame r1). intros id. by rewrite S3, G1, E, E2.
  - assert (infos_of r1 c = ∅) as Hi.
    { transitivity (infos_of r c); [unfold infos_of; by rewrite E3|]. apply no_models_no_infos; [done|]. unfold models_of. by rewrite Hm. }
    rewrite clearOrphaned_no_infos by done. set (r2 := r1 <| rg_clientModelInfos := _ |>).
    destruct (register_new_models c p raw newModels now H0 Hraw r2) as [F E].
    set (r3 := foldl (register_one c p newModels now) r2 raw) in *. change (foldl _ r2 raw) with r3.
    destruct (stored_effect c p raw newModels r3) as (S1 & S2 & S3). destruct (frame_fields _ _ F) as (F1 & _).
    split_and!.
    + rewrite S1, (frame_epochs _ _ F). exact E4.
    + unfold models_of. rewrite S2. by rewrite lookup_insert_eq.
    + intros x Hx. unfold models_of. rewrite S2, lookup_insert_ne, F1 by congruence. cbn. by rewrite E1.
    + exists (frame r2). intros id. rewrite S3, E. cbn. by rewrite E2.
Qed.

(** ** Theorems *)

Lemma rest_of_pos r c x id : x ≠ c → id ∈ models_of r x → 0 < rest_of r c id.
Proof.
  intros Hx (l & Hl & Hin)%models_of_elem. unfold rest_of. apply total_pos; [intros; unfold in_list; lia|].
  exists x, l. rewrite lookup_delete_ne by done. split; [done|]. by apply in_list_pos.
Qed.
Lemma listed_registered r id : registry_ok r → (∃ x, id ∈ models_of r x) → is_Some (rg_models r !! id).
Proof.
  intros Hok Hx%clients_of_pos. pose proof (ok_counted r Hok id) as Hc. destruct (rg_models r !! id); [by eexists|].
  destruct Hc as [Hc _]. lia.
Qed.

(** What the operations on client [c] make of the marks of [x]. *)
Lemma unregister_kept r c now x id : registry_ok r → x ≠ c → id ∈ models_of r x →
  ∃ a b, rg_models r !! id = Some a ∧ rg_models (unregisterClientInternal c now r) !! id = Some b ∧ marks x b = marks x a.
Proof.
  intros Hok Hx Hin. destruct (unregister_effect c now r (ok_client r Hok c)) as (_ & E2 & fr & E3).
  destruct (listed_registered (unregisterClientInternal c now r) id) as [b Hb].
  { by apply unregisterClientInternal_ok. }
  { exists x. unfold models_of. rewrite E2, lookup_delete_ne by congruence. exact Hin. }
  rewrite E3 in Hb. destruct (kept_iter x _ _ (rg_models r !! id) (fun o => unregistered_kept x fr c _ now id o Hx) b Hb) as (a & Ha & E).
  exists a, b. by rewrite E3.
Qed.
Lemma register_kept r c p models keep now x id : registry_ok r → id ∈ models_of r x →
  x ≠ c ∨ (keep = true ∧ provider_of r c = to_lower p ∧ x = c ∧ id ∈ map mi_ID (valid_models models)) →
  ∃ a b, rg_models r !! id = Some a ∧ rg_models (registerClientLocked c p models keep now r) !! id = Some b ∧ marks x b = marks x a.
Proof.
  intros Hok Hin Hx. destruct (register_effect c p models keep now r (ok_client r Hok c)) as (_ & E1 & E2 & fr & E3).
  set (r' := registerClientLocked c p models keep now r) in *. set (raw := map mi_ID (valid_models models)) in *.
  destruct (listed_registered r id Hok ltac:(by exists x)) as [a Ha].
  assert (registry_ok r') as Hok' by by apply registerClientLocked_ok.
  destruct (listed_registered r' id Hok') as [b Hb].
  { exists x. destruct Hx as [Hx|(_ & _ & -> & Hr)]; [by rewrite E2|by rewrite E1]. }
  exists a, b. split; [done|]. split; [done|]. rewrite E3, Ha in Hb. unfold registered_model in Hb.
  pose proof (first_models_raw (valid_models models)) as Hraw. fold raw in Hraw.
  destruct raw as [|id0 ids] eqn:Er.
  { destruct Hx as [Hx|(_ & _ & _ & []%elem_of_nil)].
    destruct (kept_iter x _ _ (Some a) (fun o => unregistered_kept x fr c _ now id o Hx) b Hb) as (a' & [= ->] & E). done. }
  rewrite <- Er in *. destruct (rg_clientModels r !! c) as [oldModels|] eqn:Hm.
  - assert (models_of r c = oldModels) as Hms by (unfold models_of; by rewrite Hm).
    pose proof (ok_counted_with r c id Hok) as Hc. rewrite Hms, Ha in Hc.
    destruct (reconcile_kept c (to_lower p) (provider_of r c) keep oldModels raw (first_models (valid_models models)) now x id fr (Some a)
      (rest_of r c id) (rest_by r c id)) as (a' & b' & [= <-] & Hb' & E); try done.
    + destruct Hx as [Hx|(-> & Hp & -> & Hr)]; [by left|right]. split_and!; [done..| |]; apply occurrences_pos; congruence.
    + pose proof (rest_bounds r c id ""). lia.
    + intros q _. apply rest_bounds.
    + destruct Hx as [Hx|(-> & Hp & -> & Hr)]; [pose proof (rest_of_pos r c x id Hx Hin); lia|].
      rewrite Hms in Hin. apply occurrences_pos in Hr, Hin. pose proof (rest_bounds r c id ""). lia.
    + congruence.
  - destruct Hx as [Hx|(_ & _ & -> & _)]; [|unfold models_of in Hin; rewrite Hm in Hin; by apply elem_of_nil in Hin].
    destruct (first_models (valid_models models) !! id) as [model|]; [|congruence].
    destruct (iter_added_kept x fr id (to_lower p) model now c (occurrences id raw) a) as (b' & Hb' & E). congruence.
Qed.
Lemma register_cleared r c p models now id : registry_ok r → is_Some (rg_clientModels r !! c) →
  id ∈ models_of r c ∨ id ∈ map mi_ID (valid_models models) →
  cleared c (rg_models (registerClientLocked c p models false now r) !! id).
Proof.
  intros Hok [oldModels Hm] Hin. destruct (register_effect c p models false now r (ok_client r Hok c)) as (_ & _ & _ & fr & ->).
  pose proof (first_models_raw (valid_models models)) as Hraw. set (raw := map mi_ID (valid_models models)) in *.
  assert (models_of r c = oldModels) as Hms by (unfold models_of; by rewrite Hm). rewrite Hms in Hin.
  unfold registered_model. destruct raw as [|id0 ids] eqn:Er.
  - destruct Hin as [Hin|[]%elem_of_nil]. rewrite Hms. apply occurrences_pos in Hin. apply cleared_iter; [|done].
    intros. apply unregistered_cleared.
  - rewrite Hm. by apply reconcile_cleared.
Qed.

(** Registering, replacing or removing the models of one client leaves the quota and
    suspension marks of every other client as they were, for all the models it lists. *)
Theorem other_clients_untouched (render : Z → string) (t now : time) (r : ModelRegistry) (c p x id : string)
    (models : list (option ModelInfo)) :
  history render t r → x ≠ c → id ∈ models_of r x →
  Forall (fun r' => ∃ a b, rg_models r !! id = Some a ∧ rg_models r' !! id = Some b ∧ marks x b = marks x a)
    [RegisterClient c p models now r; (ReplaceClientModels c p (epoch_of r c) models now r).1; UnregisterClient c now r].
Proof.
  intros Hok%history_ok Hx Hin. unfold ReplaceClientModels. rewrite Z.eqb_refl. repeat constructor.
  - apply register_kept; auto.
  - cbn [negb fst]. apply register_kept; auto.
  - by apply unregister_kept.
Qed.

(** Replacing the models of a client under the same provider keeps its marks for the
    models it keeps; registering it again, or removing it, clears them. *)
Theorem own_marks (render : Z → string) (t now : time) (r : ModelRegistry) (c p id : string) (models : list (option ModelInfo)) :
  history render t r → id ∈ models_of r c →
  (provider_of r c = to_lower p → id ∈ map mi_ID (valid_models models) →
     ∃ a b, rg_models r !! id = Some a
       ∧ rg_models (ReplaceClientModels c p (epoch_of r c) models now r).1 !! id = Some b ∧ marks c b = marks c a)
  ∧ (∀ b, rg_models (RegisterClient c p models now r) !! id = Some b → marks c b = (None, None))
  ∧ (∀ b, rg_models (UnregisterClient c now r) !! id = Some b → marks c b = (None, None)).
Proof.
  intros Hok%history_ok Hin. unfold ReplaceClientModels. rewrite Z.eqb_refl. cbn [negb fst]. split_and!.
  - intros Hp Hr. apply register_kept; [done..|]. by right.
  - apply register_cleared; [done| |by left]. apply models_of_elem in Hin as (l & -> & _). by eexists.
  - destruct (unregister_effect c now r (ok_client r Hok c)) as (_ & _ & fr & E). unfold UnregisterClient. cbn. rewrite E.
    apply cleared_iter; [|by apply occurrences_pos]. intros. apply unregistered_cleared.
Qed.

(** ** The epoch *)

Lemma invalidate_epochs r : rg_clientEpochs (invalidateAvailableModelsCacheLocked r) = rg_clientEpochs r.
Proof. done. Qed.
Lemma incr64_ne n : incr64 n ≠ n.
Proof.
  unfold incr64, wrapu64. intros H. pose proof (Z.div_mod (n + 1) (2 ^ 64) ltac:(lia)) as E. rewrite H in E.
  assert (2 ^ 64 * ((n + 1) / 2 ^ 64) = 1) as E' by lia. lia.
Qed.

(** Every writer that names the epoch it has seen. *)
Definition refused (c : string) (epoch : Z) (now : time) (r : ModelRegistry) : Prop :=
  (∀ p models publish, RegisterClientIfEpochCurrent c p epoch models publish now r = (r, false))
  ∧ (∀ p models, ReplaceClientModels c p epoch models now r = (r, (0, false)))
  ∧ (∀ publish, UnregisterClientIfEpochCurrent c epoch publish now r = (r, false))
  ∧ (∀ x mutate, trim_space x = c → ApplyClientModelCapabilities x epoch mutate r = (r, false))
  ∧ (∀ x generation projections, trim_space x = c → ApplyClientModelProjections x epoch generation projections now r = (r, false)).
Lemma stale_refused c epoch now r : epoch_of r c ≠ epoch → refused c epoch now r.
Proof.
  intros He. unfold refused, RegisterClientIfEpochCurrent, ReplaceClientModels, UnregisterClientIfEpochCurrent,
    ApplyClientModelCapabilities, ApplyClientModelProjections. rewrite (proj2 (Z.eqb_neq (epoch_of r c) epoch) He).
  split_and!; [done..| |].
  - intros x mutate ->. destruct (String.eqb c ""); [done|]. by rewrite (proj2 (Z.eqb_neq (epoch_of r c) epoch) He).
  - intros x generation projections ->. destruct (String.eqb c ""); [done|]. destruct (models_of r c); [done|].
    by rewrite (proj2 (Z.eqb_neq epoch (epoch_of r c)) (not_eq_sym He)).
Qed.

(** C30 Once a client was registered again, replaced or removed, a writer that still
    names the epoch from before changes nothing: not the list, the capabilities, nor
    the quota and suspension marks. *)
Theorem late_writer_refused (render : Z → string) (t now later : time) (r : ModelRegistry) (c p : string)
    (models : list (option ModelInfo)) :
  history render t r →
  Forall (refused c (epoch_of r c) later)
    [RegisterClient c p models now r; (ReplaceClientModels c p (epoch_of r c) models now r).1; UnregisterClient c now r].
Proof.
  intros Hok%history_ok. pose proof (ok_client r Hok c) as Hc. unfold ReplaceClientModels. rewrite Z.eqb_refl.
  assert (∀ r', rg_clientEpochs r' = <[c := incr64 (epoch_of r c)]> (rg_clientEpochs r) → refused c (epoch_of r c) later r') as Hr.
  { intros r' E. apply stale_refused. unfold epoch_of at 1. rewrite E, lookup_insert_eq. apply incr64_ne. }
  destruct (register_effect c p models false now r Hc) as (E1 & _). destruct (register_effect c p models true now r Hc) as (E2 & _).
  destruct (unregister_effect c now r Hc) as (E3 & _). unfold RegisterClient, UnregisterClient. cbn [negb fst].
  rewrite !Forall_cons, Forall_nil. split_and!; [exact (Hr _ E1)|exact (Hr _ E2)| |done]. apply Hr. rewrite invalidate_epochs. exact E3.
Qed.

End RegistryMarks.
