(* ===== verification/RegistryCache.v ===== *)
(** * Properties of the model registry: the cache of rendered lists

    [GetAvailableModels] answers from a cache that every change empties and that
    expires when the first quota mark does.  Whatever happened before, it answers what
    a fresh computation would. *)
From S2P Require Import Prelude GoLib Thinking MarkResult Scheduler Registry RegistryViews RegistryProps RegistryInv RegistryAudit.
Import MarkResult Registry RegistryViews RegistryProps RegistryInv RegistryAudit.

Module RegistryCache.

(** ** Until when a list is current *)

(** A time before the end, if there is one. *)
Definition admits (e now : time) : Prop := e = 0 ∨ now < e.
Lemma admits_spec e now : is_zero e || before now e = true ↔ admits e now.
Proof. unfold admits. by rewrite orb_true_iff, is_zero_spec, before_spec. Qed.
Lemma admits_earliest e t now : t ≠ 0 → admits (earliest e t) now → admits e now ∧ now < t.
Proof.
  unfold admits, earliest. intros Ht. destruct (is_zero e) eqn:E; bprop; cbn [orb]; [intros [?|?]; by auto|].
  destruct (before t e) eqn:E'; bprop; intros [?|?]; try done; split; try lia; right; lia.
Qed.

(** What is live at [now0] is live at [now], and the other way round. *)
Definition same_marks (now0 now : time) (reg : ModelRegistration) : Prop :=
  ∀ c q, mr_QuotaExceededClients reg !! c = Some q → quota_live now q = quota_live now0 q.

Lemma expiry_fold now0 now e l : 0 < now0 →
  admits (foldl (fun expiresAt (p : string * time) => if quota_live now0 p.2 then earliest expiresAt (recovery p.2) else expiresAt) e l) now →
  admits e now ∧ ∀ p, p ∈ l → quota_live now0 p.2 = true → now < recovery p.2.
Proof.
  intros H0. revert e. induction l as [|p l IH]; intros e Ha; [split; [done|by intros ? ?%elem_of_nil]|].
  apply IH in Ha as [Ha Hl]. destruct (quota_live now0 p.2) eqn:Hp.
  - apply admits_earliest in Ha as [Ha Hn].
    + split; [done|]. intros p' [->|Hin]%elem_of_cons; auto.
    + unfold quota_live in Hp. bprop. lia.
  - split; [done|]. intros p' [->|Hin]%elem_of_cons; [congruence|auto].
Qed.
Lemma registration_expiry now0 now reg : 0 < now0 → now0 ≤ now →
  admits (modelRegistrationAvailability reg now0).2 now → same_marks now0 now reg.
Proof.
  intros H0 Hle Ha. apply expiry_fold in Ha as [_ Hl]; [|done]. intros c q Hq%elem_of_map_to_list.
  specialize (Hl (c, q) Hq). cbn in Hl. unfold quota_live, before in *. destruct (now0 <? recovery q) eqn:E; bprop; [apply Z.ltb_lt; auto|].
  apply Z.ltb_ge. lia.
Qed.

Lemma count_map_ext {A} (P Q : string → A → bool) (m : gmap string A) :
  (∀ c x, m !! c = Some x → P c x = Q c x) → count_map P m = count_map Q m.
Proof.
  intros HPQ. unfold count_map. do 2 f_equal. assert (∀ p, p ∈ map_to_list m → P p.1 p.2 = Q p.1 p.2) as H
    by (intros [c x] Hin%elem_of_map_to_list; by apply HPQ).
  induction (map_to_list m) as [|p l IH]; [done|]. cbn. rewrite (H p) by by left. rewrite IH; [done|]. intros. apply H. by right.
Qed.
Lemma same_availability now0 now reg : same_marks now0 now reg →
  (modelRegistrationAvailability reg now).1 = (modelRegistrationAvailability reg now0).1.
Proof.
  intros Hs. unfold modelRegistrationAvailability. cbn [fst]. unfold available_with, expiredClients, quotaAndSuspended.
  rewrite (count_map_ext (fun c q => true && quota_live now q) (fun c q => true && quota_live now0 q))
    by (intros c q Hq; by rewrite (Hs c q Hq)).
  rewrite (count_map_ext (fun c (_ : string) => true && over_quota now reg c) (fun c _ => true && over_quota now0 reg c)); [done|].
  intros c _ _. unfold over_quota. destruct (mr_QuotaExceededClients reg !! c) eqn:Hq; [by rewrite (Hs _ _ Hq)|done].
Qed.

Section Build.
Context (render : Z → string) (handlerType : string).

Lemma build_models now acc l :
  (foldl (build_step render handlerType now) acc l).1 =
  acc.1 ++ map (fun p => convertModelToMap render (mr_Info p.2) handlerType)
             (List.filter (fun p => (modelRegistrationAvailability p.2 now).1) l).
Proof.
  revert acc. induction l as [|p l IH]; intros [ms e]; cbn [foldl List.filter map]; [by rewrite app_nil_r|].
  rewrite IH. unfold build_step. destruct (modelRegistrationAvailability p.2 now) as [available at_] eqn:E. cbn [fst].
  destruct available; cbn; [|done]. by rewrite <- app_assoc.
Qed.
Lemma build_expiry now0 now acc l : 0 < now0 → now0 ≤ now →
  admits (foldl (build_step render handlerType now0) acc l).2 now →
  admits acc.2 now ∧ ∀ p, p ∈ l → same_marks now0 now p.2.
Proof.
  intros H0 Hle. revert acc. induction l as [|p l IH]; intros [ms e] Ha; [split; [done|by intros ? ?%elem_of_nil]|].
  apply IH in Ha as [Ha Hl]. unfold build_step in Ha. destruct (modelRegistrationAvailability p.2 now0) as [available at_] eqn:E.
  assert (admits e now ∧ admits at_ now) as [He Hat].
  { destruct (is_zero at_) eqn:Ez; bprop; [subst; cbn in Ha; destruct available; cbn in Ha; (split; [done|by left])|].
    assert (admits (earliest e at_) now) as Ha' by (cbn in Ha; by destruct available).
    apply admits_earliest in Ha' as [? ?]; [|done]. split; [done|by right]. }
  split; [done|]. intros p' [->|Hin]%elem_of_cons; [|auto]. apply registration_expiry; [done..|]. by rewrite E.
Qed.

Lemma build_current now0 now r : 0 < now0 → now0 ≤ now →
  admits (buildAvailableModelsLocked render handlerType now0 r).2 now →
  (buildAvailableModelsLocked render handlerType now0 r).1 = (buildAvailableModelsLocked render handlerType now r).1.
Proof.
  intros H0 Hle Ha. destruct (build_expiry now0 now ([], 0) (map_to_list (rg_models r)) H0 Hle Ha) as [_ Hm]. unfold buildAvailableModelsLocked. rewrite !build_models. cbn [fst app]. f_equal.
  induction (map_to_list (rg_models r)) as [|p l IH]; [done|]. cbn [List.filter]. rewrite (same_availability now0 now) by (apply Hm; by left).
  rewrite IH; [done|]. intros. apply Hm. by right.
Qed.
Lemma build_same now r r' : rg_models r' = rg_models r →
  buildAvailableModelsLocked render handlerType now r' = buildAvailableModelsLocked render handlerType now r.
Proof. intros E. unfold buildAvailableModelsLocked. by rewrite E. Qed.
End Build.

(** ** The cache is current *)

Definition cache_current (render : Z → string) (t : time) (r : ModelRegistry) : Prop :=
  ∀ h ms e, rg_cache r !! h = Some (ms, e) → ∀ now, t ≤ now → admits e now → ms = (buildAvailableModelsLocked render h now r).1.

Lemma invalidate_current render t r : cache_current render t (invalidateAvailableModelsCacheLocked r).
Proof. intros h ms e Hc. cbn in Hc. by rewrite lookup_empty in Hc. Qed.
Lemma unchanged_current render t r r' : rg_models r' = rg_models r → rg_cache r' = rg_cache r →
  cache_current render t r → cache_current render t r'.
Proof. intros E1 E2 Hc h ms e H now Hn Ha. rewrite E2 in H. rewrite (build_same _ _ _ r) by done. by apply (Hc h ms e). Qed.
Lemma later_current render t t' r : t ≤ t' → cache_current render t r → cache_current render t' r.
Proof. intros Hle Hc h ms e H now Hn Ha. apply (Hc h ms e); [done|lia|done]. Qed.

(** A change empties the cache; without one, models and cache stay. *)
Definition coherent (r r' : ModelRegistry) : Prop :=
  rg_cache r' = ∅ ∨ (rg_models r' = rg_models r ∧ rg_cache r' = rg_cache r).
Lemma coherent_current render t r r' : coherent r r' → cache_current render t r → cache_current render t r'.
Proof.
  intros [He|[E1 E2]] Hc; [|by eapply unchanged_current]. intros h ms e H. by rewrite He, lookup_empty in H.
Qed.
Lemma coherent_refl r : coherent r r.
Proof. by right. Qed.
Lemma coherent_invalidate r r' : coherent r (invalidateAvailableModelsCacheLocked r').
Proof. by left. Qed.

Lemma register_coherent c p models keep now r : coherent r (registerClientLocked c p models keep now r).
Proof. unfold registerClientLocked. destruct (map mi_ID (valid_models models)); apply coherent_invalidate. Qed.

Lemma put_same id reg (m : gmap string ModelRegistration) : m !! id = Some reg → partial_alter (fun _ => Some reg) id m = m.
Proof. intros Hm. apply map_eq; intros i; destruct (decide (i = id)) as [->|?]; [by rewrite lookup_partial_alter_eq|by rewrite lookup_partial_alter_ne]. Qed.
Lemma project_one_unchanged c registered now acc proj :
  (project_one c registered now acc proj).2 = false →
  acc.2 = false ∧ rg_models (project_one c registered now acc proj).1 = rg_models acc.1.
Proof.
  unfold project_one. destruct acc as [r changed]. destruct (projected registered r proj) as [[id reg]|] eqn:Hp; [|done].
  assert (rg_models r !! id = Some reg) as Hr.
  { revert Hp. unfold projected. destruct (String.eqb _ ""); [done|]. destruct (negb _); [done|].
    destruct (rg_models r !! trim_space (pr_ModelID proj)) eqn:E; cbn; intros [=]; by subst. }
  destruct (project_suspended c proj now reg) as [reg1 b1] eqn:E1.
  destruct (project_quota c proj now reg1) as [reg2 b2] eqn:E2. cbn [snd fst].
  intros [[-> ->]%orb_false_iff ->]%orb_false_iff. split; [done|].
  assert (reg1 = reg) as -> by (revert E1; unfold project_suspended; repeat case_match; by intros [=]).
  assert (reg2 = reg) as -> by (revert E2; unfold project_quota; repeat case_match; by intros [=]).
  by apply put_same.
Qed.
Lemma project_cache c registered now acc proj : rg_cache (project_one c registered now acc proj).1 = rg_cache acc.1.
Proof.
  unfold project_one. destruct acc as [r changed]. destruct (projected registered r proj) as [[id reg]|]; [|done].
  destruct (project_suspended c proj now reg) as [reg1 b1]. by destruct (project_quota c proj now reg1) as [reg2 b2].
Qed.
Lemma project_fold_unchanged c registered now l acc :
  rg_cache (foldl (project_one c registered now) acc l).1 = rg_cache acc.1
  ∧ ((foldl (project_one c registered now) acc l).2 = false →
     acc.2 = false ∧ rg_models (foldl (project_one c registered now) acc l).1 = rg_models acc.1).
Proof.
  revert acc. induction l as [|proj l IH]; intros acc; [done|]. cbn [foldl].
  destruct (IH (project_one c registered now acc proj)) as [H1 H2]. split; [rewrite H1; apply project_cache|].
  intros Hb. destruct (H2 Hb) as [Hb' E]. destruct (project_one_unchanged _ _ _ _ _ Hb') as [Hb'' E']. split; [done|congruence].
Qed.
Lemma projections_coherent c epoch generation projections now r :
  coherent r (ApplyClientModelProjections c epoch generation projections now r).1.
Proof.
  unfold ApplyClientModelProjections. destruct (String.eqb _ ""); [apply coherent_refl|].
  destruct (models_of r _) as [|m ms]; [apply coherent_refl|]. destruct (negb _); [apply coherent_refl|].
  destruct (generation <? _); [apply coherent_refl|]. destruct (forallb _ _); [apply coherent_refl|].
  set (r1 := r <| rg_clientGenerations := _ |>).
  destruct (project_fold_unchanged (trim_space c) (m :: ms) now projections (r1, false)) as [H1 H2].
  destruct (foldl _ _ _) as [r2 changed]. cbn [fst snd] in *. destruct changed; [apply coherent_invalidate|].
  destruct (H2 eq_refl) as [_ E]. right. by rewrite E, H1.
Qed.

Lemma existsb_false_elem {A} (f : A → bool) l x : existsb f l = false → x ∈ l → f x = false.
Proof.
  intros Hf Hx. destruct (f x) eqn:E; [|done]. rewrite <- Hf. symmetry. apply existsb_exists. exists x. by rewrite <- list_elem_of_In.
Qed.
Lemma cleanup_coherent now r : coherent r (CleanupExpiredQuotas now r).
Proof.
  unfold CleanupExpiredQuotas. destruct (existsb _ _) eqn:E; [apply coherent_invalidate|]. right. split; [|done]. cbn.
  apply map_eq. intros id. rewrite lookup_fmap. destruct (rg_models r !! id) as [reg|] eqn:Hr; [|done]. cbn. f_equal.
  apply elem_of_map_to_list in Hr. pose proof (existsb_false_elem _ _ _ E Hr) as Hq. cbn [snd] in Hq.
  assert (filter (fun p : string * time => negb (modelQuotaExceededWindow <=? time_sub now p.2) = true) (mr_QuotaExceededClients reg)
          = mr_QuotaExceededClients reg) as ->; [|by destruct reg].
  apply map_filter_id. intros c q Hc%elem_of_map_to_list. pose proof (existsb_false_elem _ _ _ Hq Hc) as H. cbn in H |- *.
  by apply negb_false_iff in H.
Qed.
Lemma put_coherent id f r : coherent r (invalidateAvailableModelsCacheLocked (alter_model id f r)).
Proof. by left. Qed.

Lemma registry_step_current render t now r r' : 0 < t → t ≤ now → registry_step render now r r' →
  cache_current render t r → cache_current render now r'.
Proof.
  intros H0 Hle Hs Hc. apply (later_current render t now) in Hc; [|done]. destruct Hs;
    lazymatch goal with |- cache_current _ _ (GetAvailableModels _ _ _ _).1 => idtac | _ => eapply coherent_current; [|exact Hc] end.
  - apply register_coherent.
  - unfold RegisterClientIfEpochCurrent. destruct (_ || _); [apply coherent_refl|apply register_coherent].
  - unfold ReplaceClientModels. destruct (negb _); [apply coherent_refl|apply register_coherent].
  - apply coherent_invalidate.
  - unfold UnregisterClientIfEpochCurrent. destruct (_ || _); [apply coherent_refl|apply coherent_invalidate].
  - unfold SetModelQuotaExceeded. destruct (rg_models r !! id); [apply put_coherent|apply coherent_refl].
  - unfold ClearModelQuotaExceeded. destruct (rg_models r !! id); [apply put_coherent|apply coherent_refl].
  - unfold SuspendClientModel. repeat case_match; apply coherent_refl || apply put_coherent.
  - unfold ResumeClientModel. repeat case_match; apply coherent_refl || apply put_coherent.
  - apply projections_coherent.
  - unfold ApplyClientModelCapabilities. destruct (String.eqb _ ""); [apply coherent_refl|].
    destruct (negb _); [apply coherent_refl|]. case_bool_decide; [apply coherent_refl|apply coherent_invalidate].
  - apply cleanup_coherent.
  - unfold GetAvailableModels. destruct (cached handlerType now r); [exact Hc|].
    pose proof (build_current render handlerType now) as Hb.
    destruct (buildAvailableModelsLocked render handlerType now r) as [ms e] eqn:E. cbn [fst].
    intros h ms' e' Hl later Hn Ha. cbn in Hl. rewrite (build_same _ _ _ r) by done.
    destruct (decide (h = handlerType)) as [->|Hne]; [|rewrite lookup_insert_ne in Hl by congruence; by apply (Hc h ms' e')].
    rewrite lookup_insert_eq in Hl. injection Hl as <- <-. specialize (Hb later r ltac:(lia) Hn). rewrite E in Hb. by apply Hb.
Qed.

Lemma history_current render t r : history render t r → 0 < t ∧ cache_current render t r.
Proof.
  induction 1 as [t Ht|t now r r' Hh [H0 IH] Hle Hs].
  - split; [done|]. intros h ms e H. cbn in H. by rewrite lookup_empty in H.
  - split; [lia|]. by eapply registry_step_current.
Qed.

(** C24 After any history, [GetAvailableModels] answers what building the list at that
    time would, whether or not the answer comes from the cache. *)
Theorem cached_list_is_current (render : Z → string) (t now : time) (r : ModelRegistry) (handlerType : string) :
  history render t r → t ≤ now →
  (GetAvailableModels render handlerType now r).2 = (buildAvailableModelsLocked render handlerType now r).1.
Proof.
  intros [_ Hc]%history_current Hle. unfold GetAvailableModels, cached.
  destruct (rg_cache r !! handlerType) as [[ms e]|] eqn:Hl.
  - destruct (is_zero e || before now e) eqn:E; [|by destruct (buildAvailableModelsLocked _ _ _ _)].
    cbn [snd]. apply (Hc handlerType ms e); [done|done|]. by apply admits_spec.
  - by destruct (buildAvailableModelsLocked _ _ _ _).
Qed.

End RegistryCache.
