(* ===== verification/RegistryDemo.v ===== *)
(** * The model registry at work

    A small history, at which the theorems about the registry are applied. *)
From S2P Require Import Prelude GoLib Thinking MarkResult Scheduler Registry RegistryViews RegistryProps RegistryInv RegistryAudit RegistryAvail RegistryMarks RegistryCache.
Import MarkResult Registry RegistryViews RegistryProps RegistryInv RegistryAudit RegistryAvail RegistryMarks RegistryCache.

Module RegistryDemo.

Definition demo_model (id : string) (web : bool) : ModelInfo :=
  {| mi_ID := id; mi_MetadataModelID := ""; mi_ExplicitThinking := false; mi_ExplicitInputModalities := false;
     mi_Object := "model"; mi_Created := 0; mi_OwnedBy := ""; mi_Type := ""; mi_DisplayName := ""; mi_Name := "";
     mi_Version := ""; mi_Description := ""; mi_InputTokenLimit := 0; mi_OutputTokenLimit := 0;
     mi_SupportedGenerationMethods := []; mi_ContextLength := 0; mi_MaxContextLength := 0; mi_MaxCompletionTokens := 0;
     mi_SupportedParameters := []; mi_SupportedInputModalities := []; mi_SupportedOutputModalities := [];
     mi_SupportsWebSearch := web; mi_SupportConfigurationUpdate := false; mi_NativeCapabilities := None;
     mi_Thinking := None; mi_Config := None; mi_UserDefined := false; mi_IsCompat := false |}.
Definition demo_render (t : Z) : string := "".

Definition demo1 : ModelRegistry :=
  RegisterClient "c1" "Claude" [Some (demo_model "a" false); None; Some (demo_model "b" false)] 10 empty_registry.
Definition demo2 : ModelRegistry := RegisterClient "c2" "gemini" [Some (demo_model "a" true)] 20 demo1.
Definition demo3 : ModelRegistry := SetModelQuotaExceeded "c1" "a" 30 demo2.

Lemma demo_history : history demo_render 30 demo3.
Proof.
  apply (history_step _ 20 _ demo2); [|lia|apply step_quota].
  apply (history_step _ 10 _ demo1); [|lia|apply step_register].
  apply (history_step _ 10 _ empty_registry); [by apply history_start|lia|apply step_register].
Qed.
Example demo_providers : GetModelProviders "a" demo3 = ["claude"; "gemini"].
Proof. vm_compute. reflexivity. Qed.
Example demo_count : GetModelCount "a" 40 demo3 = 1.
Proof. vm_compute. reflexivity. Qed.

Lemma demo_clients c id : id ∈ models_of demo3 c ↔ (c = "c1" ∧ (id = "a" ∨ id = "b")) ∨ (c = "c2" ∧ id = "a").
Proof.
  assert (rg_clientModels demo3 = <["c1" := ["a"; "b"]]> (<["c2" := ["a"]]> ∅)) as E
    by (apply (bool_decide_unpack _); vm_compute; exact I).
  unfold models_of. rewrite E. clear E. destruct (decide (c = "c1")) as [->|H1].
  - rewrite lookup_insert_eq. cbn. rewrite !elem_of_cons, elem_of_nil. naive_solver.
  - rewrite lookup_insert_ne by congruence. destruct (decide (c = "c2")) as [->|H2].
    + rewrite lookup_insert_eq. cbn. rewrite !elem_of_cons, elem_of_nil. naive_solver.
    + rewrite lookup_insert_ne, lookup_empty by congruence. cbn. rewrite elem_of_nil. naive_solver.
Qed.
Lemma demo_once c : (occurrences "a" (models_of demo3 c) ≤ 1)%nat.
Proof.
  assert (rg_clientModels demo3 = <["c1" := ["a"; "b"]]> (<["c2" := ["a"]]> ∅)) as E
    by (apply (bool_decide_unpack _); vm_compute; exact I).
  unfold models_of. rewrite E. clear E. destruct (decide (c = "c1")) as [->|H1]; [rewrite lookup_insert_eq; cbn; lia|].
  rewrite lookup_insert_ne by congruence. destruct (decide (c = "c2")) as [->|H2]; [rewrite lookup_insert_eq; cbn; lia|].
  rewrite lookup_insert_ne, lookup_empty by congruence. cbn. lia.
Qed.
Lemma demo_marks reg : rg_models demo3 !! "a" = Some reg →
  mr_QuotaExceededClients reg = {["c1" := 30]} ∧ mr_SuspendedClients reg = ∅.
Proof.
  assert ((mr_QuotaExceededClients <$> rg_models demo3 !! "a") = Some {["c1" := 30]}
          ∧ (mr_SuspendedClients <$> rg_models demo3 !! "a") = Some ∅) as [H1 H2]
    by (apply (bool_decide_unpack _); vm_compute; exact I).
  intros E. rewrite E in H1, H2. cbn in H1, H2. by simplify_eq.
Qed.
Lemma demo_registered : is_Some (rg_models demo3 !! "a").
Proof. apply (listed_registered demo3 "a" (history_ok _ _ _ demo_history)). exists "c2". apply demo_clients. auto. Qed.

Lemma web_search_index_exact_witness :
  history demo_render 30 demo3 ∧ hasClientSupportingWebSearchLocked demo3 "a" "" "c1" = true.
Proof.
  split; [exact demo_history|].
  apply (proj2 (web_search_index_exact demo_render 30 demo3 "a" "" "c1" demo_history ltac:(discriminate))).
  exists "c2". split; [discriminate|]. split; [vm_compute; reflexivity|by left].
Defined.

Lemma registry_counters_exact_witness :
  history demo_render 30 demo3 ∧ ∃ reg, rg_models demo3 !! "a" = Some reg ∧ mr_Count reg = clients_of demo3 "a".
Proof.
  split; [exact demo_history|]. destruct demo_registered as [reg Hr]. exists reg. split; [exact Hr|].
  exact (proj1 (proj2 (registry_counters_exact demo_render 30 demo3 "a" demo_history) reg Hr)).
Defined.

Lemma providers_of_model_witness : history demo_render 30 demo3 ∧ NoDup (GetModelProviders "a" demo3).
Proof.
  split; [exact demo_history|]. exact (proj1 (providers_of_model demo_render 30 demo3 "a" demo_history)).
Defined.

Lemma availability_counts_clients_witness :
  history demo_render 30 demo3 ∧
  GetModelCount "a" 40 demo3 =
  match rg_models demo3 !! "a" with
  | Some reg => Z.of_nat (size (filter (fun c => ¬ blocked 40 reg c) (owners demo3 "a")))
  | None => 0
  end.
Proof.
  split; [exact demo_history|]. destruct demo_registered as [reg Hr]. destruct (demo_marks reg Hr) as [Hq Hs]. rewrite Hr.
  refine (proj1 (availability_counts_clients demo_render 30 40 demo3 "a" reg demo_history Hr demo_once _ _)).
  - intros c. rewrite Hq, lookup_singleton_is_Some. intros <-. apply demo_clients. auto.
  - intros c. rewrite Hs, lookup_empty. intros [? [=]].
Defined.

Lemma other_clients_untouched_witness :
  "c1" ≠ "c2" ∧ ∃ a b, rg_models demo3 !! "a" = Some a
    ∧ rg_models (RegisterClient "c2" "gemini" [Some (demo_model "b" false)] 50 demo3) !! "a" = Some b ∧ marks "c1" b = marks "c1" a.
Proof.
  split; [discriminate|].
  assert ("a" ∈ models_of demo3 "c1") as Hin by (apply demo_clients; auto).
  pose proof (other_clients_untouched demo_render 30 50 demo3 "c2" "gemini" "c1" "a" [Some (demo_model "b" false)]
                demo_history ltac:(discriminate) Hin) as H.
  exact (Forall_inv H).
Defined.

Lemma own_marks_witness :
  provider_of demo3 "c1" = to_lower "CLAUDE" ∧ ∃ a b, rg_models demo3 !! "a" = Some a
    ∧ rg_models (ReplaceClientModels "c1" "CLAUDE" (epoch_of demo3 "c1") [Some (demo_model "a" true)] 50 demo3).1 !! "a" = Some b
    ∧ marks "c1" b = marks "c1" a.
Proof.
  assert (provider_of demo3 "c1" = to_lower "CLAUDE") as Hp by (vm_compute; reflexivity). split; [exact Hp|].
  assert ("a" ∈ models_of demo3 "c1") as Hin by (apply demo_clients; auto).
  refine (proj1 (own_marks demo_render 30 50 demo3 "c1" "CLAUDE" "a" [Some (demo_model "a" true)] demo_history Hin) Hp _).
  cbn. by left.
Defined.

Lemma late_writer_refused_witness :
  history demo_render 30 demo3 ∧ refused "c1" (epoch_of demo3 "c1") 60 (UnregisterClient "c1" 50 demo3).
Proof.
  split; [exact demo_history|].
  pose proof (late_writer_refused demo_render 30 50 60 demo3 "c1" "claude" [] demo_history) as H.
  exact (Forall_inv (Forall_inv_tail (Forall_inv_tail H))).
Defined.

Lemma cached_list_is_current_witness :
  history demo_render 30 demo3 ∧
  (GetAvailableModels demo_render "openai" 40 demo3).2 = (buildAvailableModelsLocked demo_render "openai" 40 demo3).1.
Proof.
  split; [exact demo_history|]. apply (cached_list_is_current demo_render 30 40 demo3 "openai" demo_history). lia.
Defined.

End RegistryDemo.
